(* ===== verification/_CoqProject ===== *)
-Q . S2P
Prelude.v
JsNumber.v
JsText.v
Regex.v
LeadNormalize.v
JsonText.v
TimeZone.v
Scheduler.v
OutreachStatus.v
OutreachGates.v
ReplyClassification.v
Delivery.v
OutreachStore.v
OutreachService.v
OutreachWrites.v
OutreachTimeline.v
OutreachFollowups.v
OutreachSafety.v
OutreachSpecs.v
OutreachFollowupSend.v
OutreachRaces.v
OutreachSync.v
FollowupRunners.v
RunnerSpecs.v
LeadLifecycle.v
PipelineDb.v
Suppression.v
SendGate.v
Mime.v
MimeSpecs.v
SendService.v
GmailHttp.v
GmailHttpSpecs.v
SendSafety.v
SendSpecs.v
SuppressionSpecs.v
SystemDb.v
LeadFacts.v
LeadSource.v
PlaceDetails.v
Qualification.v
Collect.v
Backfill.v
Prospect.v
ProspectRun.v
Contacts.v
ContactEnrich.v
ContactProviders.v
ContactResolve.v
GmailDrafts.v
Review.v
Dashboard.v
JsRegex.v
EmailCopy.v
EmailPrompts.v
EmailStore.v
EmailWriter.v
EmailCommands.v
SendAdmin.v
EnrollBridge.v
ScheduledRun.v
ScheduledCommand.v
LeadFactSpecs.v
CollectSpecs.v
BackfillSpecs.v
ProspectSpecs.v
ContactTrust.v
ContactSpecs.v
QualificationSpecs.v
SendAdminSpecs.v
ScheduledSafety.v
GmailDraftSpecs.v
SystemTimeline.v
ScheduledSpecs.v
EnrollSpecs.v
ReviewSpecs.v
EmailWriterSpecs.v
EmailSpecs.v
ScheduleService.v
ScheduleSafety.v
