(* ===== verification/Prelude.v ===== *)
(** * automation-suite: a verification library for sending and outreach

    automation-suite collects leads, has emails about them written and approved by people,
    puts approved emails into Gmail as drafts, schedules the drafts, sends them - by hand or
    unattended - and then follows each contact through a sequence of four emails until a
    reply, a bounce or an opt-out ends it.  This library models the part of the TypeScript
    code that decides whether, when and to whom an email leaves, and proves that it does so
    safely: from the collection and qualification of a lead over the human approval of an
    email to its place in the outreach timeline.

    ** The parts of the program, and the files that model them

    All names are those of the source; every path is below src/src/.

    - Text, numbers and time.  JsText, JsNumber and JsonText are what the code uses of the
      JavaScript library (strings, doubles, [Buffer] and [JSON]); Regex has the anchored
      patterns, JsRegex the regular expressions of ECMAScript; TimeZone is [Date] and
      domain/schedule/timezone.ts.
    - Intake.  LeadNormalize: the keys that leads are compared under, and when two of them
      are one business (domain/leads/normalize.ts, dedup.ts).  LeadSource: the providers of candidates and the tables of
      places (integrations/lead-source/, source.repo.ts).  Collect: the run that makes leads
      of candidates (pipeline/collect-leads.ts).  LeadFacts: what is known about a lead
      (lead-facts.repo.ts).  PlaceDetails: what Google says of a place and which facts are made
      of it (google-places-details.ts, google-place-details-store.ts).  Backfill: the command
      that fills gaps in the facts (places-backfill.ts).  Prospect: the service that looks for
      leads around a place under budgets and a circuit breaker (domain/prospect/) and its
      tables; ProspectRun: the search, the resolver of locations, the processor of a candidate
      and the command (integrations/prospect/, prospect-candidate-processor.ts,
      prospect-run.ts).  Contacts: which email addresses of a lead may be written to
      (domain/contact-resolution/, verification.ts, candidate-parsing.ts).  ContactEnrich: the
      service that looks for addresses within its caps, with the tables behind it
      (domain/contact-enrichment/service.ts, contact-enrichment.repo.ts,
      contact-resolution.repo.ts); ContactProviders: the four providers of addresses
      (integrations/contact-enrichment/, contact-enrich-build.ts); ContactResolve: the batch over
      a file of leads and the two commands (domain/contact-resolve-batch/,
      contact-resolve-batch.ts, contact-enrich.ts).  Qualification: which leads are pursued
      (domain/qualification/, config/qualification-rules.ts).  Suppression: who must not be
      contacted (suppression.repo.ts, domain/suppression/).
    - Emails.  EmailCopy: what an email consists of, how it is rendered around the words of
      the model, and every deterministic check on it (domain/email/: email-types.ts,
      email-language.ts, email-render.ts, email-brief.ts, email-review-gate.ts,
      followup-repetition.ts, email-validation.ts).  EmailPrompts: the prompts (prompts/email/).
      EmailStore: the boundary to a model with prices and the adapter of OpenAI
      (integrations/llm/), the schemas of its answers (email-schema.ts), and the tables and
      diagnostic files (email.repo.ts and others).  EmailWriter: writer, checks, reviewer and
      the transaction that stores the outcome (email-writer-service.ts, generate-emails.ts),
      and the second review of a draft without the writer (resume-email-review.ts,
      resume-commit.ts).  EmailCommands: the commands around them, the mock model, the composer
      of follow-ups, and the emails that operators write (operator-email.ts,
      operator-email-approve.ts).
    - Approval.  Review: the decisions of people on demos, emails and finalizations, the
      finalization of a reply email, rejecting and reopening a lead (domain/review/,
      domain/email/reply-finalization.ts and three commands).  Dashboard: the route by which
      decisions arrive and its checks (dashboard/security.ts, server.ts).
    - The outreach timeline.  A contact of a campaign has one record with a status; messages,
      replies, follow-ups, delivery events and an append-only timeline hang on it.
      OutreachStatus: status.ts, state-machine.ts, sequence.ts and followups.ts of
      domain/outreach/.  OutreachStore: records.ts, events.ts and the tables and constraints of
      persistence/schema.ts with outreach.repo.ts.  OutreachService: outreach-service.ts, every
      public method as a transaction.  OutreachGates: the decisions about a follow-up.
      ReplyClassification and Delivery: what replies and delivery notifications mean.
      OutreachSync: reply-sync.ts and delivery-reconciliation.ts, the two loops that feed the
      service from the mailbox.  FollowupRunners: the loops that promote, prepare and advance
      follow-ups.
    - Sending.  LeadLifecycle: the states of a lead (domain/leads/).  PipelineDb: leads, events,
      schedules, attempts and approvals, with schedule.repo.ts, send.repo.ts, leads.repo.ts and
      pipeline.repo.ts.  Scheduler and ScheduleService: domain/schedule/.  SendGate: the gate,
      the hashes and the envelopes of domain/send/.  SendService: send-service.ts.  Mime and
      GmailHttp: the message (domain/gmail/mime.ts), the parser that reads a draft back, and
      the Gmail provider (integrations/send/).  GmailDrafts: how drafts are created
      (domain/gmail/gmail-service.ts).  SendAdmin: what operators can do.
    - Both together.  SystemDb is the whole database and the repositories that join it.
      EnrollBridge carries a confirmed send over into the timeline.  ScheduledRun is the
      unattended run over injected effects, ScheduledCommand the command that wires them up.

    The outreach service and the send service do not know each other: each works in a
    transaction over its own tables ([OutreachDb], [PipelineDb]).  The commands read both, send
    through the one and record through the other; SystemDb embeds the two monads into that of
    the whole database, so that what is proved of a service holds of the commands that use it.

    ** How the code is modelled

    Code that touches the database is a computation in the state, clock and error monad [M] of
    this file; [transaction] rolls back when its body throws, a constraint of PostgreSQL is a
    guarded write, and the clock, UUIDs and SHA-256 are parameters ([Runtime]).  The order of
    the rows of an unordered query ([RowOrder]), the functions of [Math] that ECMAScript
    does not define exactly ([MathLibrary]), the parser of URLs ([UrlLibrary]) and the
    collation of the locale ([Collation]) are parameters, as are what Unicode calls a letter
    ([UnicodeTables]), the issues that zod reports of a value it refuses ([ZodIssues]) and the
    files that are read and written ([EmailFiles], [BodyFiles]).  A service
    outside of the program - Gmail's mailbox readers, the HTTPS transports, [Intl], the client
    of a language model ([OpenAiClient]) - is a parameter whose answers may vary from call to call and may be errors.  What other
    processes do between two steps, and where a process crashes, is a parameter too
    ([interfere]): the safety theorems hold for every choice of it.  Integers are unbounded
    ([Z]): the code computes with milliseconds and counts below 2^53.  Where it computes with
    fractions, in the scores of qualification, numbers are IEEE doubles.  Strings are the UTF-8
    bytes of the JavaScript strings.

    A component that the code reaches through an interface is one here too: the providers of
    addresses are an [ContactEnrichmentProvider], what the service may rely on of one is the class
    [LawfulProvider] of ContactTrust, and each of the four providers is an instance of it.  In the same way a model is an
    [LlmProvider], and what the writer relies on of one is the class [LawfulLlm] of
    EmailWriterSpecs.

    Fuel is used twice: for the slot search of Scheduler, where [computeNextSlot_first] shows
    that the amount chosen is enough, and for the pages of a lead source, where
    [collect_run_accounts] does.  All other loops are structural, most of them over the rows
    of a query.

    ** What the theorems show

    - The timeline is true: OutreachSafety and OutreachTimeline (statuses move along the legal
      transitions only and replaying the events gives the status; tables stay well-formed;
      history is never rewritten; suppression ends a sequence), SystemTimeline (the same under
      everything the system does), OutreachRaces (what a concurrent or repeated request does).
      OutreachWrites has the invariant of single writes these rest on; OutreachSpecs and
      OutreachFollowupSend have the functional behaviour of the operations.
    - The loops account for their work: OutreachSync, RunnerSpecs, ScheduledRun and
      ScheduledSpecs (they return, report everything exactly once, and do nothing behind a
      closed switch).
    - At most one email: SendSafety and ScheduledSafety (whatever runs interleave and crash, a
      draft is handed to the provider at most once unless the earlier attempts definitely
      failed), SendAdminSpecs (an operator's verdict cannot break this), GmailHttpSpecs (the
      provider never reports an uncertain send as failed).
    - Only what was approved: SendGate and SendSpecs (the gate lets a send pass exactly when
      every condition holds), GmailDraftSpecs (a draft is created once, with the approved
      text), MimeSpecs and GmailHttpSpecs (a draft reads back as the approved email),
      LeadLifecycle (no send without approval), EnrollSpecs (the timeline gets exactly
      what was sent).
    - Only when allowed: Scheduler (the slot is the first one the rules allow), TimeZone
      (wall clocks and instants), ScheduleSafety (one active schedule per draft,
      atomic rescheduling), SuppressionSpecs (a suppressed recipient is not sent to).
    - Only copy that was checked: EmailWriterSpecs and EmailSpecs (whatever a model answers, a
      draft that is approved has passed every check and the gate of its review, and nothing
      else changes; what a run may ask a model and what it stores of the calls; a draft is
      reviewed again only if it is the one that was written; the emails of operators pass
      their checks too).
    - Only what people decided: ReviewSpecs (a decision comes from the dashboard's own session,
      an approval is stored before a lead is approved, a finalized reply can be drafted, and a
      rejection can be taken back).
    - Every business once: CollectSpecs (what a match means, a run accounts for every
      candidate and stays within its cap, and collecting again adds nothing).
      ProspectSpecs: a run of prospecting ends within its budgets, whatever the services it
      asks do, and its account is true; the circuit breaker trips when it should.
      BackfillSpecs: the backfill fills gaps and changes nothing else.
    - Only a proven address: ContactTrust and ContactSpecs (who may become the recipient of a
      lead, whatever the providers answer; what a batch may pay for; and two ways in which a
      lead is left without a recipient).
    - Only who qualifies: LeadFactSpecs (one current fact per type, nothing is lost),
      QualificationSpecs (rejection needs evidence, what the shipped rules accept, and that
      qualifying a lead always commits).

    Several theorems state behaviour that the comments or documents of the code do not expect:
    a cancellation that overwrites a fulfilled schedule, an overdue schedule that starves the
    queue, an account name that stops all unattended sending, a refused follow-up that leaves a
    record behind, a draft that is never tried again, a phone suppression that matches nobody,
    a revoked suppression that cannot be reinstated, a copy of an ambiguous lead that becomes
    one more lead, a run that crashed and keeps its places from all later runs, a controlled
    test that never runs, a limited backfill that stalls, a cached location that is paid for
    again and again, a paid switch that is off and uses up the leads without asking anybody, a
    verified contact that is never made the recipient, a budget for reviews that retries of a
    first email never use up, a greeting by name that never happens.

    ** Not modelled

    The other stages between qualification and review - website verification, the search for
    decision makers, capture, audit, the research on competitors with the emails that use it,
    demo generation and deployment - whose results come from language models, browsers and
    people; the parsing of the command line and
    the pages of the dashboard; OAuth, token storage and the mailbox readers, which are network
    and file access; logging.  Reads that only feed reports (projections, timelines, [localReadiness]) are left
    out.  Durations and instants are not bounded by the range of [Date]. *)
From Stdlib Require SpecFloat.
From stdpp Require Export base tactics list strings gmap pretty option relations.
From Stdlib Require Export ZArith Lia.

(** The rewriting rules of the text operations, and the facts that the automation
    of the components applies. *)
Create Rewrite HintDb js_text.
Create HintDb outreach.

#[export] Set Default Proof Using "Type".

(** ** Lists: the filter and the stable sort of JavaScript *)

Fixpoint insertBy {A} (cmp : A → A → Z) (x : A) (l : list A) : list A :=
  match l with
  | [] => [x]
  | y :: l' => if (cmp x y <=? 0)%Z then x :: l else y :: insertBy cmp x l'
  end.
Fixpoint sortBy {A} (cmp : A → A → Z) (l : list A) : list A :=
  match l with [] => [] | x :: l => insertBy cmp x (sortBy cmp l) end.

(** [a ?? b] *)
Definition orElse {A} (a b : option A) : option A := match a with Some _ => a | None => b end.
(** [slice(0, n)]: a negative bound counts from the end. *)
Definition sliceTo {A} (n : Z) (l : list A) : list A :=
  if (n <? 0)%Z then take (length l - Z.to_nat (- n)) l else take (Z.to_nat n) l.

Lemma elem_of_List_filter {A} (f : A → bool) (l : list A) x :
  x ∈ List.filter f l ↔ x ∈ l ∧ f x = true.
Proof. rewrite !list_elem_of_In. apply filter_In. Qed.

Lemma insertBy_perm {A} cmp (x : A) l : insertBy cmp x l ≡ₚ x :: l.
Proof.
  induction l as [|y l IH]; simpl; [done|]. case_match; [done|]. rewrite IH. apply Permutation_swap.
Qed.
Lemma sortBy_perm {A} cmp (l : list A) : sortBy cmp l ≡ₚ l.
Proof. induction l as [|x l IH]; simpl; [done|]. by rewrite insertBy_perm, IH. Qed.

(** The head of a sorted list minimises every key that the comparison respects. *)
Lemma sortBy_head {A} cmp (key : A → Z) (l : list A) x y :
  (∀ a b, cmp a b <= 0 → key a <= key b)%Z → (∀ a b, 0 < cmp a b → key b <= key a)%Z →
  head (sortBy cmp l) = Some x → y ∈ l → (key x <= key y)%Z.
Proof.
  intros Hle Hgt. revert x y. induction l as [|z l IH]; simpl; intros x y Hx Hy; [done|].
  destruct (sortBy cmp l) as [|w s] eqn:E.
  - simpl in Hx. simplify_eq.
    assert (l = []) as -> by (apply Permutation_nil; symmetry; rewrite <-E; by rewrite sortBy_perm).
    apply list_elem_of_singleton in Hy as ->. done.
  - simpl in Hx. destruct (Z.leb_spec (cmp z w) 0) as [Hc|Hc]; simpl in Hx; simplify_eq.
    + apply elem_of_cons in Hy as [->|Hy]; [done|].
      specialize (IH w y eq_refl Hy). apply Hle in Hc. lia.
    + apply elem_of_cons in Hy as [->|Hy]; [by apply Hgt|]. by apply IH.
Qed.

(** ** JSON values: the [data] column of events, and the payloads that are hashed *)

Inductive json :=
  | JNull
  | JBool (b : bool)
  | JNum (n : Z)
  | JReal (x : SpecFloat.spec_float)
  | JStr (s : string)
  | JArr (l : list json)
  | JObj (fields : list (string * json)).

Definition json_opt (o : option string) : json :=
  match o with Some s => JStr s | None => JNull end.

(** ** Errors and results

    [AppError] is src/utils/errors.ts (a code and a message), [PgError] is an
    error raised by PostgreSQL (its SQLSTATE and the name of the violated
    constraint), [JsError] is any other exception (its message). *)

Inductive error :=
  | AppError (code message : string)
  | PgError (sqlstate constraint : string)
  | JsError (message : string).

#[global] Instance error_eq_dec : EqDecision error.
Proof. solve_decision. Defined.

Inductive res (A : Type) :=
  | Ok (a : A)
  | Throw (e : error).
Arguments Ok {_} _.
Arguments Throw {_} _.

#[global] Instance res_ret : MRet res := λ A a, Ok a.
#[global] Instance res_bind : MBind res := λ A B k r,
  match r with Ok a => k a | Throw e => Throw e end.

Definition is_ok {A} (r : res A) : bool := match r with Ok _ => true | Throw _ => false end.

(** ** The runtime

    What the code takes from the platform: the clock ([Date.now] or the injected
    [now]), [randomUUID] and SHA-256.  The clock and the UUID source are streams
    indexed by the number of readings made so far, so two readings made by one
    call may differ. *)

Class Runtime := {
  clock : nat → Z;
  uuid : nat → string;
  sha256Hex : string → string;
}.

(** A runtime for evaluating the model on concrete inputs. *)
Definition demo_runtime : Runtime := {|
  clock n := (1780000000000 + 1000 * Z.of_nat n)%Z;
  uuid n := "uuid-" +:+ pretty n;
  sha256Hex s := "sha256:" +:+ s;
|}.

(** ** A state, clock and error monad

    A [world] is a database together with the number of clock readings and UUIDs
    drawn.  A computation that throws keeps the world it reached; only
    [transaction] restores the database, as PostgreSQL does on a rollback. *)

Record world (DB : Type) := World { w_db : DB; w_ticks : nat; w_uuids : nat }.
Arguments World {_} _ _ _.
Arguments w_db {_} _.
Arguments w_ticks {_} _.
Arguments w_uuids {_} _.

Definition M (DB A : Type) : Type := world DB → res A * world DB.

#[global] Instance M_ret {DB} : MRet (M DB) := λ A a w, (Ok a, w).
#[global] Instance M_bind {DB} : MBind (M DB) := λ A B k m w,
  match m w with
  | (Ok a, w') => k a w'
  | (Throw e, w') => (Throw e, w')
  end.

Section monad_ops.
Context {DB : Type} `{Runtime}.

Definition throw {A} (e : error) : M DB A := λ w, (Throw e, w).
Definition lift_res {A} (r : res A) : M DB A :=
  match r with Ok a => mret a | Throw e => throw e end.
Definition query {A} (f : DB → A) : M DB A := λ w, (Ok (f (w_db w)), w).
Definition modify (f : DB → DB) : M DB () := λ w,
  (Ok tt, World (f (w_db w)) (w_ticks w) (w_uuids w)).
Definition now : M DB Z := λ w,
  (Ok (clock (w_ticks w)), World (w_db w) (S (w_ticks w)) (w_uuids w)).
Definition randomUUID : M DB string := λ w,
  (Ok (uuid (w_uuids w)), World (w_db w) (w_ticks w) (S (w_uuids w))).
(** A write that the database refuses when a constraint is violated. *)
Definition guarded (check : DB → option error) (f : DB → DB) : M DB () := λ w,
  match check (w_db w) with
  | Some e => (Throw e, w)
  | None => modify f w
  end.
(** A call to a service outside the database, whose answer is a function of how much
    time has passed; the call itself takes time. *)
Definition ask {A} (answer : nat → res A) : M DB A := λ w,
  (answer (w_ticks w), World (w_db w) (S (w_ticks w)) (w_uuids w)).
Definition transaction {A} (body : M DB A) : M DB A := λ w,
  match body w with
  | (Ok a, w') => (Ok a, w')
  | (Throw e, w') => (Throw e, World (w_db w) (w_ticks w') (w_uuids w'))
  end.
End monad_ops.

(** [try { await m } catch (err) { ... }]: what [m] wrote before it threw stays. *)
Definition tryCatch {DB A} (m : M DB A) : M DB (res A) := λ w, let (r, w') := m w in (Ok r, w').

Fixpoint for_each {DB A} (l : list A) (body : A → M DB ()) : M DB () :=
  match l with
  | [] => mret tt
  | x :: l => body x ;; for_each l body
  end.

(** A loop that accumulates a report *)
Fixpoint fold_each {DB A R} (l : list A) (body : A → R → M DB R) (r : R) : M DB R :=
  match l with
  | [] => mret r
  | x :: l => r ← body x r; fold_each l body r
  end.

(** ** A weakest precondition for the committing runs of a computation

    [wp m Q w]: if [m], started in [w], returns, its result and final world
    satisfy [Q].  Runs that throw are rolled back by [transaction]. *)

Definition wp {DB A} (m : M DB A) (Q : A → world DB → Prop) (w : world DB) : Prop :=
  match m w with (Ok a, w') => Q a w' | (Throw _, _) => True end.

Section wp_rules.
Context {DB : Type} `{Runtime}.
Implicit Types w : world DB.

Lemma wp_ret {A} (a : A) Q w : wp (mret a : M DB A) Q w ↔ Q a w.
Proof. done. Qed.
Lemma wp_bind {A B} (m : M DB A) (k : A → M DB B) Q w :
  wp (m ≫= k) Q w ↔ wp m (λ a, wp (k a) Q) w.
Proof. unfold wp, mbind, M_bind. by destruct (m w) as [[]?]. Qed.
Lemma wp_mono {A} (m : M DB A) (Q Q' : A → world DB → Prop) w :
  (∀ a w', Q a w' → Q' a w') → wp m Q w → wp m Q' w.
Proof. unfold wp. destruct (m w) as [[]?]; eauto. Qed.
Lemma wp_and {A} (m : M DB A) (Q1 Q2 : A → world DB → Prop) w :
  wp m Q1 w → wp m Q2 w → wp m (λ a w', Q1 a w' ∧ Q2 a w') w.
Proof using Type. unfold wp. by destruct (m w) as [[]?]. Qed.
(** A condition that holds from the start *)
Lemma wp_imp {A} (P : Prop) (m : M DB A) (Q : A → world DB → Prop) w :
  (P → wp m Q w) → wp m (λ a w', P → Q a w') w.
Proof using Type. unfold wp. destruct (m w) as [[]?]; auto. Qed.
Lemma wp_throw {A} e (Q : A → world DB → Prop) w : wp (throw e) Q w ↔ True.
Proof. done. Qed.
Lemma wp_lift_res {A} (r : res A) (Q : A → world DB → Prop) w :
  wp (lift_res r) Q w ↔ ∀ a, r = Ok a → Q a w.
Proof. destruct r; unfold wp; simpl; naive_solver. Qed.
Lemma wp_query {A} (f : DB → A) Q w : wp (query f) Q w ↔ Q (f (w_db w)) w.
Proof. done. Qed.
Lemma wp_modify f (Q : () → world DB → Prop) w :
  wp (modify f) Q w ↔ Q tt (World (f (w_db w)) (w_ticks w) (w_uuids w)).
Proof. done. Qed.
Lemma wp_guarded check f (Q : () → world DB → Prop) w :
  wp (guarded check f) Q w ↔
  (check (w_db w) = None → Q tt (World (f (w_db w)) (w_ticks w) (w_uuids w))).
Proof. unfold wp, guarded. destruct (check (w_db w)); simpl; naive_solver. Qed.
Lemma wp_now Q w :
  wp now Q w ↔ Q (clock (w_ticks w)) (World (w_db w) (S (w_ticks w)) (w_uuids w)).
Proof. done. Qed.
Lemma wp_randomUUID Q w :
  wp randomUUID Q w ↔ Q (uuid (w_uuids w)) (World (w_db w) (w_ticks w) (S (w_uuids w))).
Proof. done. Qed.
Lemma wp_ask {A} (answer : nat → res A) Q w :
  wp (ask answer) Q w ↔
  (∀ a, answer (w_ticks w) = Ok a → Q a (World (w_db w) (S (w_ticks w)) (w_uuids w))).
Proof. unfold wp, ask. destruct (answer _); simpl; naive_solver. Qed.
Lemma wp_transaction {A} (m : M DB A) Q w : wp (transaction m) Q w ↔ wp m Q w.
Proof. unfold wp, transaction. by destruct (m w) as [[]?]. Qed.

(** What a computation returned, as a fact about its run *)
Lemma wp_self {A} (m : M DB A) w : wp m (λ a w', m w = (Ok a, w')) w.
Proof. unfold wp. by destruct (m w) as [[]?]. Qed.

(** The rule for loops: a loop invariant indexed by what remains to be done. *)
Lemma wp_for_each {A} (l : list A) body (I : list A → world DB → Prop) Q w :
  I l w →
  (∀ x l' w', I (x :: l') w' → wp (body x) (λ _, I l') w') →
  (∀ w', I [] w' → Q tt w') →
  wp (for_each l body) Q w.
Proof.
  revert w. induction l as [|x l IH]; simpl; intros w HI Hstep HQ; [by apply HQ|].
  apply wp_bind. eapply wp_mono; [|by apply Hstep]. simpl; eauto.
Qed.

Lemma wp_fold_each {A R} (l : list A) body (I : list A → R → world DB → Prop) r Q w :
  I l r w →
  (∀ x l' r w', I (x :: l') r w' → wp (body x r) (I l') w') →
  (∀ r w', I [] r w' → Q r w') →
  wp (fold_each l body r) Q w.
Proof.
  revert r w. induction l as [|x l IH]; simpl; intros r w HI Hstep HQ; [by apply HQ|].
  apply wp_bind. eapply wp_mono; [|by apply Hstep]. simpl; eauto.
Qed.

(** A transaction either commits what its body computed or changes nothing. *)
Lemma transaction_atomic {A} (m : M DB A) w r w' :
  transaction m w = (r, w') →
  match r with Ok a => m w = (Ok a, w') | Throw _ => w_db w' = w_db w end.
Proof. unfold transaction. destruct (m w) as [[]?]; naive_solver. Qed.

Lemma transaction_idemp {A} (m : M DB A) w : transaction (transaction m) w = transaction m w.
Proof. unfold transaction. by destruct (m w) as [[]?]. Qed.
Lemma transaction_wp {A} (m : M DB A) (Q : DB → DB → Prop) w r w' :
  (∀ db, Q db db) →
  wp m (λ _ w', Q (w_db w) (w_db w')) w →
  transaction m w = (r, w') → Q (w_db w) (w_db w').
Proof.
  intros Hrefl Hwp Heq. apply transaction_atomic in Heq as Hat. destruct r.
  - unfold wp in Hwp. by rewrite Hat in Hwp.
  - by rewrite Hat.
Qed.

(** [respects R m]: every committing run of [m] moves the database along [R]. *)
Definition respects {A} (R : relation DB) (m : M DB A) : Prop :=
  ∀ w, wp m (λ _ w', R (w_db w) (w_db w')) w.

Context (R : relation DB) `{!PreOrder R}.

Lemma respects_ret {A} (a : A) : respects R (mret a : M DB A).
Proof using Type*. intros w. apply wp_ret. reflexivity. Qed.
Lemma respects_bind {A B} (m : M DB A) (k : A → M DB B) :
  respects R m → (∀ a, respects R (k a)) → respects R (m ≫= k).
Proof using Type*.
  intros Hm Hk w. apply wp_bind. eapply wp_mono; [|apply Hm]. simpl. intros a w' Hw.
  eapply wp_mono; [|apply Hk]. simpl. intros b w'' Hw'. by transitivity (w_db w').
Qed.
Lemma respects_throw {A} e : respects R (throw e : M DB A).
Proof using Type*. done. Qed.
Lemma respects_lift_res {A} (r : res A) : respects R (lift_res r : M DB A).
Proof using Type*. destruct r; [apply respects_ret|apply respects_throw]. Qed.
Lemma respects_query {A} (f : DB → A) : respects R (query f).
Proof using Type*. intros w. apply wp_query. reflexivity. Qed.
Lemma respects_now : respects R now.
Proof using Type*. intros w. apply wp_now. simpl. reflexivity. Qed.
Lemma respects_randomUUID : respects R randomUUID.
Proof using Type*. intros w. apply wp_randomUUID. simpl. reflexivity. Qed.
Lemma respects_guarded check f :
  (∀ db, check db = None → R db (f db)) → respects R (guarded check f).
Proof using Type*. intros Hf w. apply wp_guarded. simpl. auto. Qed.
Lemma respects_modify f : (∀ db, R db (f db)) → respects R (modify f).
Proof using Type*. intros Hf w. apply wp_modify. simpl. auto. Qed.
Lemma respects_transaction {A} (m : M DB A) : respects R m → respects R (transaction m).
Proof using Type*. intros Hm w. apply wp_transaction, Hm. Qed.
Lemma respects_for_each {A} (l : list A) body :
  (∀ x, respects R (body x)) → respects R (for_each l body).
Proof using Type*.
  intros Hb. induction l as [|x l IH]; simpl; [apply respects_ret|].
  apply respects_bind; auto.
Qed.
Lemma respects_fold_each {A B} (l : list A) (body : A → B → M DB B) b :
  (∀ x b, x ∈ l → respects R (body x b)) → respects R (fold_each l body b).
Proof using Type*.
  revert b. induction l as [|x l IH]; intros b Hb; cbn [fold_each]; [apply respects_ret|].
  apply respects_bind; [apply Hb; by left|]. intros b'. apply IH. intros. apply Hb. by right.
Qed.

(** A transaction moves the database along [R], whether it commits or not. *)
Lemma respects_run {A} (m : M DB A) w r w' :
  respects R m → transaction m w = (r, w') → R (w_db w) (w_db w').
Proof using Type*. intros Hm. apply transaction_wp; [reflexivity|apply Hm]. Qed.
End wp_rules.

(** [respects_tac] follows the structure of a computation down to its writes, which
    the hints of the database [outreach] discharge. *)
Ltac respects_step :=
  match goal with
  | |- respects ?R (mret _) => apply (respects_ret R)
  | |- respects ?R (query _) => apply (respects_query R)
  | |- respects ?R now => apply (respects_now R)
  | |- respects ?R randomUUID => apply (respects_randomUUID R)
  | |- respects ?R (throw _) => apply (respects_throw R)
  | |- respects ?R (lift_res _) => apply (respects_lift_res R)
  | |- respects ?R (transaction _) => apply (respects_transaction R)
  | |- respects ?R (for_each _ _) => apply (respects_for_each R); intros
  | |- respects ?R (_ ≫= _) => apply (respects_bind R); [|intros]
  end.
Ltac respects_tac :=
  repeat first [solve [auto with outreach typeclass_instances] | respects_step | case_match].

(** [wp_run] executes a straight-line computation symbolically. *)
Ltac wp_step :=
  first
    [ rewrite wp_bind | rewrite wp_ret | rewrite wp_query | rewrite wp_modify
    | rewrite wp_now | rewrite wp_randomUUID | rewrite wp_throw
    | rewrite wp_lift_res | rewrite wp_guarded | rewrite wp_transaction ].
Ltac wp_run := repeat (wp_step; cbn [w_db w_ticks w_uuids]).

(** ** Total correctness

    [twp m Q w]: started in [w], [m] does return, and its result and final world
    satisfy [Q]. *)

Definition twp {DB A} (m : M DB A) (Q : A → world DB → Prop) (w : world DB) : Prop :=
  match m w with (Ok a, w') => Q a w' | (Throw _, _) => False end.

Section twp_rules.
Context {DB : Type} `{Runtime}.
Implicit Types w : world DB.

Lemma twp_returns {A} (m : M DB A) Q w :
  twp m Q w ↔ ∃ a w', m w = (Ok a, w') ∧ Q a w'.
Proof. unfold twp. destruct (m w) as [[]?]; naive_solver. Qed.
Lemma twp_and_wp {A} (m : M DB A) (Q1 Q2 : A → world DB → Prop) w :
  twp m Q1 w → wp m Q2 w → twp m (λ a w', Q1 a w' ∧ Q2 a w') w.
Proof. unfold twp, wp. destruct (m w) as [[]?]; auto. Qed.
Lemma twp_ret {A} (a : A) Q w : twp (mret a : M DB A) Q w ↔ Q a w.
Proof. done. Qed.
Lemma twp_bind {A B} (m : M DB A) (k : A → M DB B) Q w :
  twp (m ≫= k) Q w ↔ twp m (λ a, twp (k a) Q) w.
Proof. unfold twp, mbind, M_bind. by destruct (m w) as [[]?]. Qed.
Lemma twp_mono {A} (m : M DB A) (Q Q' : A → world DB → Prop) w :
  (∀ a w', Q a w' → Q' a w') → twp m Q w → twp m Q' w.
Proof. unfold twp. destruct (m w) as [[]?]; eauto. Qed.
Lemma twp_lift_ok {A} (a : A) Q w : twp (lift_res (Ok a) : M DB A) Q w ↔ Q a w.
Proof. done. Qed.
Lemma twp_query {A} (f : DB → A) Q w : twp (query f) Q w ↔ Q (f (w_db w)) w.
Proof. done. Qed.
Lemma twp_modify f (Q : () → world DB → Prop) w :
  twp (modify f) Q w ↔ Q tt (World (f (w_db w)) (w_ticks w) (w_uuids w)).
Proof. done. Qed.
Lemma twp_guarded check f (Q : () → world DB → Prop) w :
  check (w_db w) = None →
  Q tt (World (f (w_db w)) (w_ticks w) (w_uuids w)) → twp (guarded check f) Q w.
Proof. unfold twp, guarded. by intros ->. Qed.
Lemma twp_now Q w :
  twp now Q w ↔ Q (clock (w_ticks w)) (World (w_db w) (S (w_ticks w)) (w_uuids w)).
Proof. done. Qed.
Lemma twp_randomUUID Q w :
  twp randomUUID Q w ↔ Q (uuid (w_uuids w)) (World (w_db w) (w_ticks w) (S (w_uuids w))).
Proof. done. Qed.
Lemma twp_ask {A} (answer : nat → res A) a Q w :
  answer (w_ticks w) = Ok a → Q a (World (w_db w) (S (w_ticks w)) (w_uuids w)) → twp (ask answer) Q w.
Proof. unfold twp, ask. by intros ->. Qed.
Lemma twp_transaction {A} (m : M DB A) Q w : twp (transaction m) Q w ↔ twp m Q w.
Proof. unfold twp, transaction. by destruct (m w) as [[]?]. Qed.

(** The loop rule for total correctness *)
Lemma twp_for_each {A} (l : list A) body (I : list A → world DB → Prop) Q w :
  I l w →
  (∀ x l' w', I (x :: l') w' → twp (body x) (λ _, I l') w') →
  (∀ w', I [] w' → Q tt w') →
  twp (for_each l body) Q w.
Proof.
  revert w. induction l as [|x l IH]; simpl; intros w HI Hstep HQ; [by apply HQ|].
  apply twp_bind. eapply twp_mono; [|by apply Hstep]. simpl; eauto.
Qed.
Lemma twp_tryCatch {A} (m : M DB A) Q w : twp (tryCatch m) Q w ↔ Q (m w).1 (m w).2.
Proof. unfold twp, tryCatch. by destruct (m w). Qed.
Lemma twp_fold_each {A R} (l : list A) body (I : list A → R → world DB → Prop) r Q w :
  I l r w →
  (∀ x l' r w', I (x :: l') r w' → twp (body x r) (I l') w') →
  (∀ r w', I [] r w' → Q r w') →
  twp (fold_each l body r) Q w.
Proof.
  revert r w. induction l as [|x l IH]; simpl; intros r w HI Hstep HQ; [by apply HQ|].
  apply twp_bind. eapply twp_mono; [|by apply Hstep]. simpl; eauto.
Qed.
End twp_rules.

Ltac twp_step :=
  first
    [ rewrite twp_bind | rewrite twp_ret | rewrite twp_query | rewrite twp_modify
    | rewrite twp_now | rewrite twp_randomUUID | rewrite twp_transaction ].
(** [twp_run] executes a straight-line computation; writes that may be refused and calls
    of the outside are left to the caller. *)
Ltac twp_run := repeat (twp_step; cbn [w_db w_ticks w_uuids]).

(** [returns m]: [m] never throws. *)
Definition returns {DB A} (m : M DB A) : Prop := ∀ w, twp m (λ _ _, True) w.

Section returns_rules.
Context {DB : Type} `{Runtime}.

Lemma returns_ret {A} (a : A) : returns (mret a : M DB A).
Proof. done. Qed.
Lemma returns_query {A} (f : DB → A) : returns (query f).
Proof. done. Qed.
Lemma returns_now : returns (now : M DB Z).
Proof. done. Qed.
Lemma returns_bind {A B} (m : M DB A) (k : A → M DB B) :
  returns m → (∀ a, returns (k a)) → returns (m ≫= k).
Proof. intros Hm Hk w. apply twp_bind. eapply twp_mono; [|apply Hm]. intros a w' _. apply Hk. Qed.
(** Whatever is caught does not get further. *)
Lemma returns_tryCatch {A} (m : M DB A) : returns (tryCatch m).
Proof. intros w. by apply twp_tryCatch. Qed.
Lemma returns_fold_each {A R} (l : list A) (body : A → R → M DB R) r :
  (∀ x r, returns (body x r)) → returns (fold_each l body r).
Proof.
  intros Hb. revert r. induction l as [|x l IH]; intros r; simpl; [apply returns_ret|].
  by apply returns_bind.
Qed.
(** A computation that returns meets its partial specification. *)
Lemma returns_twp {A} (m : M DB A) Q w : returns m → wp m Q w → twp m Q w.
Proof. intros Hm. specialize (Hm w). unfold wp, twp in *. by destruct (m w) as [[]?]. Qed.
End returns_rules.

Ltac returns_step :=
  match goal with
  | |- returns (mret _) => apply returns_ret
  | |- returns (query _) => apply returns_query
  | |- returns now => apply returns_now
  | |- returns (tryCatch _) => apply returns_tryCatch
  | |- returns (fold_each _ _ _) => apply returns_fold_each; intros
  | |- returns (_ ≫= _) => apply returns_bind; [|intros]
  end.
Ltac returns_tac := repeat first [solve [auto with outreach] | returns_step | case_match].

(** ** Runs that may stop half-way

    [awp m Q E w]: whatever [m] does from [w], its result and world satisfy [Q] if it
    returns, and its world satisfies [E] if it throws.  Outside a transaction a run
    that throws leaves what it wrote so far behind, so that this is the notion for
    code that runs several transactions, and for crashes between them. *)

Definition awp {DB A} (m : M DB A) (Q : A → world DB → Prop) (E : world DB → Prop) (w : world DB) : Prop :=
  match m w with (Ok a, w') => Q a w' | (Throw _, w') => E w' end.
(** [always R m]: every run of [m], complete or not, moves the database along [R]. *)
Definition always {DB A} (R : relation DB) (m : M DB A) : Prop :=
  ∀ w, R (w_db w) (w_db (m w).2).

Section awp_rules.
Context {DB : Type} `{Runtime}.
Implicit Types w : world DB.

Lemma awp_bind {A B} (m : M DB A) (k : A → M DB B) Q E w :
  awp (m ≫= k) Q E w ↔ awp m (λ a, awp (k a) Q E) E w.
Proof. unfold awp, mbind, M_bind. by destruct (m w) as [[]?]. Qed.
Lemma awp_mono {A} (m : M DB A) (Q Q' : A → world DB → Prop) (E E' : world DB → Prop) w :
  (∀ a w', Q a w' → Q' a w') → (∀ w', E w' → E' w') → awp m Q E w → awp m Q' E' w.
Proof. unfold awp. destruct (m w) as [[]?]; eauto. Qed.
Lemma awp_ret {A} (a : A) Q E w : awp (mret a : M DB A) Q E w ↔ Q a w.
Proof. done. Qed.
Lemma awp_throw {A} e (Q : A → world DB → Prop) E w : awp (throw e) Q E w ↔ E w.
Proof. done. Qed.
Lemma awp_query {A} (f : DB → A) Q E w : awp (query f) Q E w ↔ Q (f (w_db w)) w.
Proof. done. Qed.
Lemma awp_modify f (Q : () → world DB → Prop) E w :
  awp (modify f) Q E w ↔ Q tt (World (f (w_db w)) (w_ticks w) (w_uuids w)).
Proof. done. Qed.
Lemma awp_now Q E w :
  awp now Q E w ↔ Q (clock (w_ticks w)) (World (w_db w) (S (w_ticks w)) (w_uuids w)).
Proof. done. Qed.
Lemma awp_randomUUID Q E w :
  awp randomUUID Q E w ↔ Q (uuid (w_uuids w)) (World (w_db w) (w_ticks w) (S (w_uuids w))).
Proof. done. Qed.
Lemma awp_ask {A} (answer : nat → res A) Q E w :
  let w' := World (w_db w) (S (w_ticks w)) (w_uuids w) in
  (∀ a, answer (w_ticks w) = Ok a → Q a w') → E w' → awp (ask answer) Q E w.
Proof. unfold awp, ask. destruct (answer _); simpl; auto. Qed.
Lemma awp_guarded check f (Q : () → world DB → Prop) E w :
  awp (guarded check f) Q E w ↔
  match check (w_db w) with
  | None => Q tt (World (f (w_db w)) (w_ticks w) (w_uuids w))
  | Some _ => E w
  end.
Proof. unfold awp, guarded. by destruct (check (w_db w)). Qed.
(** A transaction that throws leaves the database as it was. *)
Lemma awp_transaction {A} (m : M DB A) Q E w :
  wp m Q w → (∀ w', w_db w' = w_db w → E w') → awp (transaction m) Q E w.
Proof. unfold wp, awp, transaction. destruct (m w) as [[]?]; auto. Qed.
Lemma awp_tryCatch {A} (m : M DB A) Q E w :
  awp (tryCatch m) Q E w ↔ awp m (λ a, Q (Ok a)) (λ w', ∀ e, (m w).1 = Throw e → Q (Throw e) w') w.
Proof. unfold awp, tryCatch. destruct (m w) as [[]?]; simpl; naive_solver. Qed.
(** The rule for loops, whose body may throw *)
Lemma awp_fold_each {A R} (l : list A) body (I : list A → R → world DB → Prop) r Q E w :
  I l r w →
  (∀ x l' r w', I (x :: l') r w' → awp (body x r) (I l') E w') →
  (∀ r w', I [] r w' → Q r w') →
  awp (fold_each l body r) Q E w.
Proof.
  revert r w. induction l as [|x l IH]; simpl; intros r w HI Hstep HQ; [by apply HQ|].
  apply awp_bind. eapply awp_mono; [| |by apply Hstep]; simpl; eauto.
Qed.
(** Two steps along two relations *)
Lemma always_seq {A B} (R1 R2 R3 : relation DB) (m : M DB A) (k : A → M DB B) :
  (∀ a b, R1 a b → R3 a b) → (∀ a b c, R1 a b → R2 b c → R3 a c) →
  always R1 m → (∀ x, always R2 (k x)) → always R3 (m ≫= k).
Proof using Type.
  intros H1 H12 Hm Hk w. specialize (Hm w). unfold mbind, M_bind. destruct (m w) as [[x|e] w1]; cbn in *; [|by apply H1].
  eapply H12; [exact Hm|apply Hk].
Qed.
Lemma awp_always {A} (R : relation DB) (m : M DB A) w :
  always R m → awp m (λ _ w', R (w_db w) (w_db w')) (λ w', R (w_db w) (w_db w')) w.
Proof. intros Hm. specialize (Hm w). unfold awp. by destruct (m w) as [[]?]. Qed.
Lemma always_awp {A} (R : relation DB) (m : M DB A) :
  (∀ w, awp m (λ _ w', R (w_db w) (w_db w')) (λ w', R (w_db w) (w_db w')) w) → always R m.
Proof. intros Hm w. specialize (Hm w). unfold awp in Hm. by destruct (m w) as [[]?]. Qed.

Context (R : relation DB) `{!PreOrder R}.

Lemma always_ret {A} (a : A) : always R (mret a : M DB A).
Proof using Type*. intros w. reflexivity. Qed.
Lemma always_throw {A} e : always R (throw e : M DB A).
Proof using Type*. intros w. reflexivity. Qed.
Lemma always_lift_res {A} (r : res A) : always R (lift_res r : M DB A).
Proof using Type*. destruct r; [apply always_ret|apply always_throw]. Qed.
Lemma always_query {A} (f : DB → A) : always R (query f).
Proof using Type*. intros w. reflexivity. Qed.
Lemma always_now : always R now.
Proof using Type*. intros w. reflexivity. Qed.
Lemma always_randomUUID : always R randomUUID.
Proof using Type*. intros w. reflexivity. Qed.
Lemma always_modify f : (∀ db, R db (f db)) → always R (modify f).
Proof using Type*. intros Hf w. apply Hf. Qed.
Lemma always_guarded check f : (∀ db, check db = None → R db (f db)) → always R (guarded check f).
Proof using Type*. intros Hf w. unfold guarded. destruct (check _) eqn:?; simpl; [reflexivity|auto]. Qed.
Lemma always_ask {A} (answer : nat → res A) : always R (ask answer).
Proof using Type*. intros w. simpl. reflexivity. Qed.
Lemma always_bind {A B} (m : M DB A) (k : A → M DB B) :
  always R m → (∀ a, always R (k a)) → always R (m ≫= k).
Proof using Type*.
  intros Hm Hk w. specialize (Hm w). unfold mbind, M_bind. destruct (m w) as [[a|e] w']; simpl in *; [|done].
  transitivity (w_db w'); [done|apply Hk].
Qed.
Lemma always_tryCatch {A} (m : M DB A) : always R m → always R (tryCatch m).
Proof using Type*. intros Hm w. specialize (Hm w). unfold tryCatch. by destruct (m w). Qed.
Lemma always_fold_each {A B} (l : list A) (body : A → B → M DB B) b :
  (∀ x b, x ∈ l → always R (body x b)) → always R (fold_each l body b).
Proof using Type*.
  revert b. induction l as [|x l IH]; simpl; intros b Hb; [apply always_ret|].
  apply always_bind; [apply Hb; by left|]. intros b'. apply IH. intros. apply Hb. by right.
Qed.
Lemma always_transaction {A} (m : M DB A) : respects R m → always R (transaction m).
Proof using Type*.
  intros Hm w. specialize (Hm w). unfold wp in Hm. unfold transaction.
  destruct (m w) as [[a|e] w']; simpl; [done|reflexivity].
Qed.
End awp_rules.

Ltac always_step :=
  match goal with
  | |- always ?R (mret _) => apply (always_ret R)
  | |- always ?R (query _) => apply (always_query R)
  | |- always ?R now => apply (always_now R)
  | |- always ?R (ask _) => apply (always_ask R)
  | |- always ?R randomUUID => apply (always_randomUUID R)
  | |- always ?R (throw _) => apply (always_throw R)
  | |- always ?R (lift_res _) => apply (always_lift_res R)
  | |- always ?R (transaction _) => apply (always_transaction R)
  | |- always ?R (tryCatch _) => apply (always_tryCatch R)
  | |- always ?R (fold_each _ _ _) => apply (always_fold_each R); intros
  | |- always ?R (_ ≫= _) => apply (always_bind R); [|intros]
  end.
Ltac always_tac :=
  repeat first [solve [auto with outreach typeclass_instances] | always_step | respects_step | case_match].
Ltac awp_step :=
  first
    [ rewrite awp_bind | rewrite awp_ret | rewrite awp_query | rewrite awp_modify
    | rewrite awp_now | rewrite awp_randomUUID | rewrite awp_throw | rewrite awp_guarded ].
Ltac awp_run := repeat (awp_step; cbn [w_db w_ticks w_uuids]).

(** ** Parts of a larger state

    [zoom l m] runs [m] on the part of the state that [l] views, with the same clock
    and the same source of UUIDs. *)

Record lens (S A : Type) := Lens { view : S → A; put : A → S → S }.
Arguments Lens {_ _} _ _.
Arguments view {_ _} _ _.
Arguments put {_ _} _ _ _.
Class LawfulLens {S A} (l : lens S A) : Prop := { view_put : ∀ a s, view l (put l a s) = a }.
Definition zoom {S A B} (l : lens S A) (m : M A B) : M S B := λ w,
  let (r, w') := m (World (view l (w_db w)) (w_ticks w) (w_uuids w)) in
  (r, World (put l (w_db w') (w_db w)) (w_ticks w') (w_uuids w')).

Section zoom_rules.
Context {S A : Type} (l : lens S A).

Lemma zoom_run {B} (m : M A B) w :
  zoom l m w = ((m (World (view l (w_db w)) (w_ticks w) (w_uuids w))).1,
    let w' := (m (World (view l (w_db w)) (w_ticks w) (w_uuids w))).2 in
    World (put l (w_db w') (w_db w)) (w_ticks w') (w_uuids w')).
Proof. unfold zoom. by destruct (m _). Qed.
Lemma awp_zoom {B} (m : M A B) Q E w :
  awp (zoom l m) Q E w ↔
  awp m (λ b w', Q b (World (put l (w_db w') (w_db w)) (w_ticks w') (w_uuids w')))
        (λ w', E (World (put l (w_db w') (w_db w)) (w_ticks w') (w_uuids w')))
        (World (view l (w_db w)) (w_ticks w) (w_uuids w)).
Proof. unfold awp, zoom. by destruct (m _) as [[]?]. Qed.
Lemma twp_zoom {B} (m : M A B) Q w :
  twp (zoom l m) Q w ↔
  twp m (λ b w', Q b (World (put l (w_db w') (w_db w)) (w_ticks w') (w_uuids w')))
        (World (view l (w_db w)) (w_ticks w) (w_uuids w)).
Proof. unfold twp, zoom. by destruct (m _) as [[]?]. Qed.
(** What the part guarantees, the whole guarantees. *)
Lemma always_zoom {B} (R : relation A) (R' : relation S) (m : M A B) :
  (∀ s a, R (view l s) a → R' s (put l a s)) → always R m → always R' (zoom l m).
Proof. intros Hput Hm w. rewrite zoom_run. simpl. by apply Hput, (Hm (World _ _ _)). Qed.
Lemma wp_zoom {B} (m : M A B) Q w :
  wp (zoom l m) Q w ↔
  wp m (λ b w', Q b (World (put l (w_db w') (w_db w)) (w_ticks w') (w_uuids w')))
       (World (view l (w_db w)) (w_ticks w) (w_uuids w)).
Proof. unfold wp, zoom. by destruct (m _) as [[]?]. Qed.
Lemma respects_zoom {B} (R : relation A) (R' : relation S) (m : M A B) :
  (∀ s a, R (view l s) a → R' s (put l a s)) → respects R m → respects R' (zoom l m).
Proof.
  intros Hput Hm w. rewrite wp_zoom. eapply wp_mono; [|apply Hm]. intros b w' HR. by apply Hput.
Qed.
End zoom_rules.

(** ** Generic lemmas *)

(** Case analysis on the first [match] or [decide] of the goal or a hypothesis. *)
Ltac cases :=
  repeat first [ progress simplify_eq/= | case_decide | case_match ].

Lemma elem_of_forallb {A} (f : A → bool) (l : list A) :
  forallb f l = true ↔ ∀ x, x ∈ l → f x = true.
Proof. rewrite forallb_forall. by setoid_rewrite list_elem_of_In. Qed.
Lemma elem_of_existsb {A} (f : A → bool) (l : list A) :
  existsb f l = true ↔ ∃ x, x ∈ l ∧ f x = true.
Proof. rewrite existsb_exists. by setoid_rewrite list_elem_of_In. Qed.

(** [[...new Set(l)]]: the first occurrences, in order *)
Fixpoint uniq_from {A} `{EqDecision A} (seen l : list A) : list A :=
  match l with
  | [] => []
  | x :: l => if bool_decide (x ∈ seen) then uniq_from seen l else x :: uniq_from (x :: seen) l
  end.
Definition uniq {A} `{EqDecision A} : list A → list A := uniq_from [].
Lemma elem_of_uniq_from {A} `{EqDecision A} (seen l : list A) x :
  x ∈ l → x ∉ seen → x ∈ uniq_from seen l.
Proof.
  revert seen. induction l as [|y l IH]; intros seen Hx Hs; [done|]. cbn [uniq_from].
  apply elem_of_cons in Hx as [->|Hx].
  - rewrite bool_decide_eq_false_2 by done. by left.
  - case_bool_decide; [by apply IH|]. destruct (decide (x = y)) as [->|]; [by left|].
    right. apply IH; [done|]. rewrite elem_of_cons. naive_solver.
Qed.
Lemma elem_of_uniq {A} `{EqDecision A} (l : list A) x : x ∈ l → x ∈ uniq l.
Proof. intros Hx. apply elem_of_uniq_from; [done|]. apply not_elem_of_nil. Qed.

(** The first violated constraint, in the order in which the database checks them. *)
Fixpoint refuse (checks : list (bool * error)) : option error :=
  match checks with
  | [] => None
  | (violated, e) :: rest => if violated then Some e else refuse rest
  end.
Lemma refuse_None checks : refuse checks = None ↔ Forall (λ c, c.1 = false) checks.
Proof.
  induction checks as [|[[] e] checks IH]; simpl.
  - by split; [constructor|].
  - split; [done|]. by inversion 1.
  - rewrite IH. split; [by constructor|by inversion 1].
Qed.


(** The entry of a key of an association list without repeated keys *)
Lemma NoDup_keys {K A} (l : list (K * A)) k a b : NoDup l.*1 → (k, a) ∈ l → (k, b) ∈ l → a = b.
Proof.
  induction l as [|[k' x] l IH]; simpl; [by intros _ ?%not_elem_of_nil|].
  intros [Hk Hl]%NoDup_cons [[= -> ->]|Ha]%elem_of_cons [[= <-]|Hb]%elem_of_cons;
    simplify_eq; auto; exfalso; apply Hk; apply list_elem_of_fmap; eexists (_, _); eauto.
Qed.
