(* ===== verification/JsNumber.v ===== *)
(** * Numbers of JavaScript

    IEEE 754 doubles as [spec_float] of the standard library, which computes them in Z;
    their conversions from and to decimal text, and [Math.round]. *)
From Stdlib Require Export SpecFloat.
From S2P Require Import Prelude.
Open Scope Z_scope.

Definition num : Type := spec_float.
Definition prec : Z := 53.
Definition emax : Z := 1024.

Definition addN : num → num → num := SFadd prec emax.
Definition mulN : num → num → num := SFmul prec emax.
Definition subN : num → num → num := SFsub prec emax.
Definition divN : num → num → num := SFdiv prec emax.
Definition sqrtN : num → num := SFsqrt prec emax.
Definition leN : num → num → bool := SFleb.
Definition ltN : num → num → bool := SFltb.
Definition geN (x y : num) : bool := SFleb y x.
Definition ofZ (n : Z) : num := binary_normalize prec emax n 0 false.
Definition isFinite (x : num) : bool :=
  match x with S754_zero _ | S754_finite _ _ _ => true | _ => false end.

(** [Math.min] of two numbers, the first of which is no zero *)
Definition minN (x y : num) : num :=
  match x, y with
  | S754_nan, _ | _, S754_nan => S754_nan
  | _, _ => if ltN y x then y else x
  end.
(** [Math.PI] *)
Definition piN : num := S754_finite false 7074237752028440 (-51).

(** The double nearest to [±n/d] *)
Definition ofRatio (neg : bool) (n d : Z) : num :=
  match n, d with
  | Zpos n, Zpos d => SFdiv prec emax (S754_finite neg n 0) (S754_finite false d 0)
  | _, _ => S754_zero neg
  end.
(** The double nearest to [±n·10^e] *)
Definition ofDecimal (neg : bool) (n e : Z) : num :=
  if 0 <=? e then ofRatio neg (n * 10 ^ e) 1 else ofRatio neg n (10 ^ (- e)).

(** [Math.round]: the nearest integer, upwards from the middle *)
Definition roundN (x : num) : num :=
  match x with
  | S754_finite s m e =>
      if 0 <=? e then x
      else binary_normalize prec emax (((if s then - Zpos m else Zpos m) * 2 + 2 ^ (- e)) / (2 ^ (- e) * 2)) 0 s
  | _ => x
  end.

(** ** [Number.prototype.toString]: the shortest digits that read back as the number *)

(** The least [n] from a starting point on with [a/b < 10^n] *)
Fixpoint decimalExponent (fuel : nat) (a b n : Z) : Z :=
  match fuel with
  | O => n
  | S fuel =>
      if (if 0 <=? n then a <? b * 10 ^ n else a * 10 ^ (- n) <? b) then n
      else decimalExponent fuel a b (n + 1)
  end.
(** The digits and the exponent [n] of [0.digits × 10^n], with as few digits as possible *)
Fixpoint shortestDigits (tries : nat) (k a b n : Z) (x : num) : Z * Z * Z :=
  let q := if 0 <=? k - n then (a * 10 ^ (k - n) * 2 + b) / (b * 2)
           else (a * 2 + b * 10 ^ (n - k)) / (b * 10 ^ (n - k) * 2) in
  match tries with
  | O => (q, k, n)
  | S tries =>
      if SFeqb (ofDecimal false q (n - k)) x
      then if q =? 10 ^ k then (1, 1, n + 1) else (q, k, n)
      else shortestDigits tries (k + 1) a b n x
  end.
Definition repeat0 (n : Z) : string := String.concat "" (replicate (Z.to_nat n) "0").
Definition formatDigits (s : string) (k n : Z) : string :=
  if (k <=? n) && (n <=? 21) then s +:+ repeat0 (n - k)
  else if (0 <? n) && (n <=? 21) then
    String.substring 0 (Z.to_nat n) s +:+ "." +:+ String.substring (Z.to_nat n) (String.length s) s
  else if (-6 <? n) && (n <=? 0) then "0." +:+ repeat0 (- n) +:+ s
  else
    let e := n - 1 in
    let mantissa := if k =? 1 then s
      else String.substring 0 1 s +:+ "." +:+ String.substring 1 (String.length s) s in
    mantissa +:+ "e" +:+ (if 0 <=? e then "+" else "-") +:+ pretty (Z.abs e).
Definition numberText (x : num) : string :=
  match x with
  | S754_zero _ => "0"
  | S754_infinity s => if s then "-Infinity" else "Infinity"
  | S754_nan => "NaN"
  | S754_finite s m e =>
      let a := if 0 <=? e then Zpos m * 2 ^ e else Zpos m in
      let b := if 0 <=? e then 1 else 2 ^ (- e) in
      let n := decimalExponent 8 a b ((Z.log2 a - Z.log2 b) * 30103 / 100000 - 2) in
      let '(q, k, n) := shortestDigits 17 1 a b n (S754_finite false m e) in
      (if s then "-" else "") +:+ formatDigits (pretty q) k n
  end.

Example numberText_examples :
  map numberText [ofDecimal false 6 (-1); ofZ 85; ofDecimal true 15 (-1); ofDecimal false 1 21; ofDecimal false 1 23;
    addN (ofDecimal false 1 (-1)) (ofDecimal false 2 (-1)); ofDecimal false 1 (-7); ofDecimal false 12345 (-6)] =
  ["0.6"; "85"; "-1.5"; "1e+21"; "1e+23"; "0.30000000000000004"; "1e-7"; "0.012345"]%string.
Proof. vm_compute. reflexivity. Qed.
Example pi_example : numberText piN = "3.141592653589793"%string.
Proof. vm_compute. reflexivity. Qed.
Example round_examples :
  map (λ x, numberText (roundN x)) [ofDecimal false 25 (-1); ofDecimal true 25 (-1); ofDecimal false 4999 (-4); ofZ 7] =
  ["3"; "-2"; "0"; "7"]%string.
Proof. vm_compute. reflexivity. Qed.
