(* ===== verification/JsText.v ===== *)
(** * Text operations of the JavaScript standard library

    Strings are byte strings.  Case folding and white space are those of ASCII,
    which is what addresses, identifiers and the patterns of the code are written
    in; a non-ASCII letter is left unchanged by [toLowerCase] and [toUpperCase]. *)
From Stdlib Require Export Ascii.
From S2P Require Import Prelude.
From S2P Require Import JsNumber.
Open Scope string_scope.

Definition char_code (c : ascii) : nat := nat_of_ascii c.

(** [String.prototype.toLowerCase] *)
Definition lower_char (c : ascii) : ascii :=
  if (65 <=? char_code c)%nat && (char_code c <=? 90)%nat
  then ascii_of_nat (char_code c + 32) else c.

Fixpoint toLowerCase (s : string) : string :=
  match s with
  | "" => ""
  | String c s => String (lower_char c) (toLowerCase s)
  end.

(** [String.prototype.toUpperCase] *)
Definition upper_char (c : ascii) : ascii :=
  if (97 <=? char_code c)%nat && (char_code c <=? 122)%nat
  then ascii_of_nat (char_code c - 32) else c.
Fixpoint toUpperCase (s : string) : string :=
  match s with
  | "" => ""
  | String c s => String (upper_char c) (toUpperCase s)
  end.

(** The class [\s] *)
Definition is_space (c : ascii) : bool :=
  ((9 <=? char_code c)%nat && (char_code c <=? 13)%nat) || (char_code c =? 32)%nat.

Fixpoint trimStart (s : string) : string :=
  match s with
  | "" => ""
  | String c s' => if is_space c then trimStart s' else s
  end.

(** [trimEnd s] drops the white space that no other character follows. *)
Fixpoint trimEnd (s : string) : string :=
  match s with
  | "" => ""
  | String c s' =>
      match trimEnd s' with
      | "" => if is_space c then "" else String c ""
      | t => String c t
      end
  end.

Definition trim (s : string) : string := trimEnd (trimStart s).

Definition startsWith (s p : string) : bool := String.prefix p s.

Fixpoint includes (s p : string) : bool :=
  startsWith s p || match s with "" => false | String _ s' => includes s' p end.

Definition join (sep : string) (l : list string) : string := String.concat sep l.

(** JavaScript's truthiness of a string and of a nullable string *)
Definition truthy (s : string) : bool := negb (bool_decide (s = "")).
Definition truthy_opt (o : option string) : bool :=
  match o with Some s => truthy s | None => false end.

(** [s.replace(/\s+/g, ' ')]; [in_run] tells that the previous character was a
    white space that has already produced its blank. *)
Fixpoint collapse_spaces_from (in_run : bool) (s : string) : string :=
  match s with
  | "" => ""
  | String c s' =>
      if is_space c then
        if in_run then collapse_spaces_from true s'
        else String " " (collapse_spaces_from true s')
      else String c (collapse_spaces_from false s')
  end.
Definition collapse_spaces : string → string := collapse_spaces_from false.

Fixpoint string_exists (f : ascii → bool) (s : string) : bool :=
  match s with "" => false | String c s' => f c || string_exists f s' end.

(** [padStart] with the character ['0'] *)
Fixpoint zeros (n : nat) : string :=
  match n with O => "" | S n => String "0" (zeros n) end.
Definition padStart0 (w : nat) (s : string) : string :=
  zeros (w - String.length s) +:+ s.

(** The text after a prefix, if it has that prefix *)
Definition dropPrefix (p s : string) : option string :=
  if startsWith s p then Some (String.substring (String.length p) (String.length s) s) else None.
(** The characters of a class: [s.replace(/[...]/g, '')] for the complement *)
Fixpoint filterString (f : ascii → bool) (s : string) : string :=
  match s with "" => "" | String c s => if f c then String c (filterString f s) else filterString f s end.

(** ** The pattern [/^[^\s@]+@[^\s@]+\.[^\s@]+$/] *)

Definition is_at (c : ascii) : bool := bool_decide (c = "@"%char).
Definition is_dot (c : ascii) : bool := bool_decide (c = "."%char).
Definition plain (c : ascii) : bool := negb (is_space c) && negb (is_at c).

(** [[^\s@]+$] *)
Definition plain1 (s : string) : bool :=
  match s with "" => false | _ => negb (string_exists (λ c, negb (plain c)) s) end.

(** [[^\s@]*\.[^\s@]+$] *)
Fixpoint dotted_tail (s : string) : bool :=
  match s with
  | "" => false
  | String c s' => (is_dot c && plain1 s') || (plain c && dotted_tail s')
  end.

(** [[^\s@]+\.[^\s@]+$] *)
Definition domain_part (s : string) : bool :=
  match s with "" => false | String c s' => plain c && dotted_tail s' end.

(** [[^\s@]*@[^\s@]+\.[^\s@]+$] *)
Fixpoint at_tail (s : string) : bool :=
  match s with
  | "" => false
  | String c s' => (is_at c && domain_part s') || (plain c && at_tail s')
  end.

Definition email_re_test (s : string) : bool :=
  match s with "" => false | String c s' => plain c && at_tail s' end.

Example email_re_ok : email_re_test "info@praxis.example.de" = true.
Proof. reflexivity. Qed.
Example email_re_bad : map email_re_test ["info@praxis"; "a@b@c.de"; "@x.de"; "a b@c.de"; "a@.d"; "a@c."]
  = [false; false; false; false; false; false].
Proof. reflexivity. Qed.

(** The value of a hexadecimal digit *)
Definition hexValue (c : ascii) : option nat :=
  let n := char_code c in
  if (48 <=? n)%nat && (n <=? 57)%nat then Some (n - 48)%nat
  else if (65 <=? n)%nat && (n <=? 70)%nat then Some (n - 55)%nat
  else if (97 <=? n)%nat && (n <=? 102)%nat then Some (n - 87)%nat else None.

(** ** Lemmas *)

Lemma lower_char_idem c : lower_char (lower_char c) = lower_char c.
Proof. destruct c as [[] [] [] [] [] [] [] []]; reflexivity. Qed.
Lemma lower_char_space c : is_space (lower_char c) = is_space c.
Proof. destruct c as [[] [] [] [] [] [] [] []]; reflexivity. Qed.

Lemma toLowerCase_idem s : toLowerCase (toLowerCase s) = toLowerCase s.
Proof. induction s as [|c s IH]; simpl; [done|]. by rewrite lower_char_idem, IH. Qed.

Lemma trimStart_idem s : trimStart (trimStart s) = trimStart s.
Proof. induction s as [|c s IH]; simpl; [done|]. destruct (is_space c) eqn:E; simpl; by rewrite ?E. Qed.

Lemma trimEnd_idem s : trimEnd (trimEnd s) = trimEnd s.
Proof.
  induction s as [|c s IH]; simpl; [done|].
  destruct (trimEnd s) as [|c' s'] eqn:E.
  - destruct (is_space c) eqn:Ec; simpl; by rewrite ?Ec.
  - cbn [trimEnd] in IH |- *. by rewrite IH.
Qed.

Lemma trimStart_trimEnd s : trimStart s = s → trimStart (trimEnd s) = trimEnd s.
Proof.
  destruct s as [|c s]; simpl; [done|]. destruct (is_space c) eqn:Ec; intros H.
  - exfalso. assert (String.length (trimStart s) <= String.length s)%nat as Hl.
    { clear. induction s as [|c s IH]; simpl; [lia|]. destruct (is_space c); simpl; lia. }
    rewrite H in Hl. simpl in Hl. lia.
  - destruct (trimEnd s) eqn:E; simpl; by rewrite Ec.
Qed.

Lemma trim_idem s : trim (trim s) = trim s.
Proof.
  unfold trim. rewrite (trimStart_trimEnd (trimStart s)) by apply trimStart_idem.
  apply trimEnd_idem.
Qed.

Lemma toLowerCase_trimStart s : toLowerCase (trimStart s) = trimStart (toLowerCase s).
Proof. induction s as [|c s IH]; simpl; [done|]. rewrite lower_char_space. by destruct (is_space c). Qed.
Lemma toLowerCase_trimEnd s : toLowerCase (trimEnd s) = trimEnd (toLowerCase s).
Proof.
  induction s as [|c s IH]; simpl; [done|]. rewrite <-IH, lower_char_space.
  destruct (trimEnd s); simpl; [by destruct (is_space c)|done].
Qed.
Lemma toLowerCase_trim s : toLowerCase (trim s) = trim (toLowerCase s).
Proof. unfold trim. by rewrite toLowerCase_trimEnd, toLowerCase_trimStart. Qed.

(** [email.trim().toLowerCase()], the normal form of an address *)
Definition normalizeEmail (email : string) : string := toLowerCase (trim email).

Lemma normalizeEmail_idem e : normalizeEmail (normalizeEmail e) = normalizeEmail e.
Proof. unfold normalizeEmail. by rewrite <-toLowerCase_trim, trim_idem, toLowerCase_idem. Qed.

Lemma string_cons_app c (s t : string) : String c s +:+ t = String c (s +:+ t).
Proof. reflexivity. Qed.
Lemma string_app_nil_l (s : string) : "" +:+ s = s.
Proof. reflexivity. Qed.
Lemma string_app_nil_r (s : string) : s +:+ "" = s.
Proof. induction s as [|c s IH]; [done|]. by rewrite string_cons_app, IH. Qed.
Lemma string_app_assoc (s t u : string) : (s +:+ t) +:+ u = s +:+ (t +:+ u).
Proof. induction s as [|c s IH]; [done|]. by rewrite !string_cons_app, IH. Qed.
Lemma length_string_app s t : String.length (s +:+ t) = (String.length s + String.length t)%nat.
Proof. induction s as [|c s IH]; [done|]. rewrite string_cons_app. simpl. by rewrite IH. Qed.
Lemma string_exists_app f s t : string_exists f (s +:+ t) = string_exists f s || string_exists f t.
Proof. induction s as [|c s IH]; simpl; [done|]. by rewrite IH, orb_assoc. Qed.

Lemma startsWith_app p s : startsWith (p +:+ s) p = true.
Proof.
  unfold startsWith. induction p as [|c p IH]; [by destruct s|]. rewrite string_cons_app. cbn [String.prefix].
  by destruct (ascii_dec c c).
Qed.
Lemma substring_all s n : (String.length s <= n)%nat → String.substring 0 n s = s.
Proof.
  revert n. induction s as [|c s IH]; intros [|n] Hn; simpl in *; try done; try lia. f_equal. apply IH. lia.
Qed.
Lemma substring_suffix p s n : (String.length s <= n)%nat → String.substring (String.length p) n (p +:+ s) = s.
Proof. intros Hn. induction p as [|c p IH]; [by apply substring_all|]. rewrite string_cons_app. apply IH. Qed.
Lemma dropPrefix_app p s : dropPrefix p (p +:+ s) = Some s.
Proof. unfold dropPrefix. rewrite startsWith_app, substring_suffix; [done|]. rewrite length_string_app. lia. Qed.
Lemma startsWith_spec s p : startsWith s p = true ↔ ∃ t, s = p +:+ t.
Proof.
  split; [|intros [t ->]; apply startsWith_app]. revert s.
  unfold startsWith. induction p as [|c p IH]; intros s; [by exists s|].
  destruct s as [|d s]; [done|]. cbn [String.prefix]. destruct (ascii_dec c d) as [->|]; [|done].
  intros [t ->]%IH. by exists t.
Qed.
Lemma dropPrefix_Some p s t : dropPrefix p s = Some t ↔ s = p +:+ t.
Proof.
  split; [|intros ->; apply dropPrefix_app]. intros Hs.
  destruct (startsWith s p) eqn:E; [|unfold dropPrefix in Hs; by rewrite E in Hs].
  apply startsWith_spec in E as [u ->]. rewrite dropPrefix_app in Hs. by simplify_eq.
Qed.

Lemma truthy_spec s : truthy s = true ↔ s ≠ "".
Proof. unfold truthy. case_bool_decide; naive_solver. Qed.
Lemma truthy_opt_spec o : truthy_opt o = true ↔ ∃ s, o = Some s ∧ s ≠ "".
Proof. destruct o; simpl; [rewrite truthy_spec|]; naive_solver. Qed.

#[export] Hint Rewrite toLowerCase_idem trim_idem normalizeEmail_idem : js_text.

(** Every character of the text is in the class. *)
Definition allChars (f : ascii → bool) (s : string) : Prop := string_exists (λ c, negb (f c)) s = false.

Lemma allChars_nil f : allChars f "".
Proof. done. Qed.
Lemma allChars_cons f c s : allChars f (String c s) ↔ f c = true ∧ allChars f s.
Proof. unfold allChars. cbn [string_exists]. by rewrite orb_false_iff, negb_false_iff. Qed.
Lemma allChars_app f s t : allChars f (s +:+ t) ↔ allChars f s ∧ allChars f t.
Proof. unfold allChars. by rewrite string_exists_app, orb_false_iff. Qed.
Lemma allChars_impl (f g : ascii → bool) s : (∀ c, f c = true → g c = true) → allChars f s → allChars g s.
Proof.
  intros Hfg. induction s as [|c s IH]; [done|]. rewrite !allChars_cons. intros [Hc Hs]. auto.
Qed.

(** ** [encodeURIComponent] *)

Definition hexDigit (n : nat) : ascii :=
  ascii_of_nat (if (n <? 10)%nat then 48 + n else 87 + n).
(** What stays as it is; of everything else the bytes are encoded. *)
Definition unreserved (c : ascii) : bool :=
  let n := char_code c in
  ((48 <=? n) && (n <=? 57) || (65 <=? n) && (n <=? 90) || (97 <=? n) && (n <=? 122))%nat ||
  bool_decide (c ∈ ["-"; "_"; "."; "!"; "~"; "*"; "'"; "("; ")"]%char).
Definition upperHex (n : nat) : ascii := upper_char (hexDigit n).
Fixpoint encodeURIComponent (s : string) : string :=
  match s with
  | "" => ""
  | String c s =>
      if unreserved c then String c (encodeURIComponent s)
      else String "%" (String (upperHex (char_code c / 16)) (String (upperHex (char_code c mod 16))
             (encodeURIComponent s)))
  end.
Example encode_example : encodeURIComponent "ChIJ a/b_Ü" = "ChIJ%20a%2Fb_%C3%9C".
Proof. reflexivity. Qed.

(** ** [JSON.stringify] *)

Definition quoteMark : ascii := ascii_of_nat 34.
Definition backslash : ascii := ascii_of_nat 92.
(** The escapes of a JSON string: the two-character ones, and the numeric ones of the
    other control characters *)
Definition escapeChar (c : ascii) (rest : string) : string :=
  let n := char_code c in
  let short (d : nat) := String backslash (String (ascii_of_nat d) rest) in
  if (n =? 34)%nat then short 34%nat else if (n =? 92)%nat then short 92%nat
  else if (n =? 8)%nat then short 98%nat else if (n =? 9)%nat then short 116%nat
  else if (n =? 10)%nat then short 110%nat else if (n =? 12)%nat then short 102%nat
  else if (n =? 13)%nat then short 114%nat
  else if (n <? 32)%nat then
    String backslash ("u00" +:+ String (hexDigit (n / 16)) (String (hexDigit (n mod 16)) rest))
  else String c rest.
Fixpoint escapeText (s : string) : string :=
  match s with "" => "" | String c s => escapeChar c (escapeText s) end.
Definition jsonString (s : string) : string :=
  String quoteMark (escapeText s +:+ String quoteMark "").
Fixpoint stringify (j : json) : string :=
  match j with
  | JNull => "null"
  | JBool b => if b then "true" else "false"
  | JNum n => pretty n
  | JReal x => if isFinite x then numberText x else "null"
  | JStr s => jsonString s
  | JArr l => "[" +:+ join "," (map stringify l) +:+ "]"
  | JObj fields => "{" +:+ join "," (map (λ f, jsonString f.1 +:+ ":" +:+ stringify f.2) fields) +:+ "}"
  end.
Example stringify_escapes :
  stringify (JArr [JStr (String (ascii_of_nat 10) (String (ascii_of_nat 1) "a")); JNum (-3); JNull]) =
  "[" +:+ String quoteMark "\n\u0001a" +:+ String quoteMark ",-3,null]".
Proof. vm_compute. reflexivity. Qed.

(** ** [Number(text)] *)

(** The digits at the start of a text, as a number, how many there are, and the rest *)
Fixpoint leadingDigits (base : nat) (acc : Z) (count : nat) (s : string) : Z * nat * string :=
  match s with
  | String c s' =>
      match hexValue c with
      | Some d => if (d <? base)%nat then leadingDigits base (acc * Z.of_nat base + Z.of_nat d) (S count) s'
                  else (acc, count, s)
      | None => (acc, count, s)
      end
  | "" => (acc, count, "")
  end.
(** An unsigned decimal literal *)
Definition decimalLiteral (neg : bool) (s : string) : option num :=
  if bool_decide (s = "Infinity") then Some (S754_infinity neg)
  else
    let '(n, before, rest) := leadingDigits 10 0 0 s in
    let '(n, after, rest) :=
      match rest with
      | String "." rest => let '(n', count, rest') := leadingDigits 10 n 0 rest in (n', count, rest')
      | _ => (n, 0%nat, rest)
      end in
    if (before + after =? 0)%nat then None
    else
      let scale (e : Z) := Some (ofDecimal neg n (e - Z.of_nat after)) in
      match rest with
      | "" => scale 0%Z
      | String c rest =>
          if negb (bool_decide (c ∈ ["e"; "E"]%char)) then None
          else
            let '(sign, rest) :=
              match rest with
              | String "-" rest => ((-1)%Z, rest) | String "+" rest => (1%Z, rest) | _ => (1%Z, rest)
              end in
            match leadingDigits 10 0 0 rest with
            | (e, S _, "") => scale (sign * e)%Z
            | _ => None
            end
      end.
Definition radixLiteral (s : string) : option num :=
  match s with
  | String "0" (String c s) =>
      let base := if bool_decide (c ∈ ["x"; "X"]%char) then Some 16%nat
        else if bool_decide (c ∈ ["o"; "O"]%char) then Some 8%nat
        else if bool_decide (c ∈ ["b"; "B"]%char) then Some 2%nat else None in
      base ← base;
      match leadingDigits base 0 0 s with (n, S _, "") => Some (ofDecimal false n 0) | _ => None end
  | _ => None
  end.
Definition toNumber (text : string) : num :=
  match trim text with
  | "" => S754_zero false
  | s =>
      default S754_nan
        match radixLiteral s with
        | Some x => Some x
        | None =>
            match s with
            | String "-" s => decimalLiteral true s
            | String "+" s => decimalLiteral false s
            | _ => decimalLiteral false s
            end
        end
  end.
Example toNumber_examples :
  map (λ s, numberText (toNumber s)) [" 4.7 "; ""; "-12e-1"; "0x1F"; "12abc"; "."; "5."; "1e400"; "+Infinity"; "1e"] =
  ["4.7"; "0"; "-1.2"; "31"; "NaN"; "NaN"; "5"; "Infinity"; "Infinity"; "NaN"].
Proof. vm_compute. reflexivity. Qed.

(** ** src/utils/hash.ts: [canonicalStringify]

    The order of the keys is that of their code units, which for text outside the
    supplementary planes is that of the bytes. *)
Definition byCodeUnits (a b : string) : Z :=
  match String.compare a b with Lt => -1 | Eq => 0 | Gt => 1 end.
Fixpoint sortValue (j : json) : json :=
  match j with
  | JArr l => JArr (map sortValue l)
  | JObj fields => JObj (sortBy (λ f g, byCodeUnits f.1 g.1) (map (λ f, (f.1, sortValue f.2)) fields))
  | _ => j
  end.
Definition canonicalStringify (j : json) : string := stringify (sortValue j).
Definition hashCanonical `{Runtime} (j : json) : string := sha256Hex (canonicalStringify j).
