(* ===== verification/Regex.v ===== *)
(** * Regular expressions

    The validating patterns of the code, [/^...$/.test(s)], as values of a data type:
    an executable test by Brzozowski derivatives, proved to decide the language of the
    pattern, and the characterisations of the shapes that the code uses. *)
From S2P Require Import Prelude.
From S2P Require Import JsText.
Open Scope string_scope.

Inductive regex :=
  | rNone | rEps | rClass (f : ascii → bool) | rAlt (r1 r2 : regex) | rSeq (r1 r2 : regex)
  | rStar (r : regex).

(** The language of a pattern that is anchored at both ends *)
Inductive matches : regex → string → Prop :=
  | m_eps : matches rEps ""
  | m_class f c : f c = true → matches (rClass f) (String c "")
  | m_alt_l r1 r2 s : matches r1 s → matches (rAlt r1 r2) s
  | m_alt_r r1 r2 s : matches r2 s → matches (rAlt r1 r2) s
  | m_seq r1 r2 s1 s2 : matches r1 s1 → matches r2 s2 → matches (rSeq r1 r2) (s1 +:+ s2)
  | m_star_nil r : matches (rStar r) ""
  | m_star_app r s1 s2 : matches r s1 → matches (rStar r) s2 → matches (rStar r) (s1 +:+ s2).
#[export] Hint Constructors matches : regex.

(** ** The test *)

Fixpoint nullable (r : regex) : bool :=
  match r with
  | rNone | rClass _ => false
  | rEps | rStar _ => true
  | rAlt r1 r2 => nullable r1 || nullable r2
  | rSeq r1 r2 => nullable r1 && nullable r2
  end.
(** Constructors that keep the derivatives small *)
Definition alt (r1 r2 : regex) : regex :=
  match r1, r2 with rNone, r | r, rNone => r | _, _ => rAlt r1 r2 end.
Definition seq (r1 r2 : regex) : regex :=
  match r1, r2 with rNone, _ | _, rNone => rNone | rEps, r => r | _, _ => rSeq r1 r2 end.
Fixpoint deriv (c : ascii) (r : regex) : regex :=
  match r with
  | rNone | rEps => rNone
  | rClass f => if f c then rEps else rNone
  | rAlt r1 r2 => alt (deriv c r1) (deriv c r2)
  | rSeq r1 r2 =>
      let d := seq (deriv c r1) r2 in if nullable r1 then alt d (deriv c r2) else d
  | rStar r' => seq (deriv c r') r
  end.
Fixpoint re_test (r : regex) (s : string) : bool :=
  match s with "" => nullable r | String c s => re_test (deriv c r) s end.

(** ** Derived forms *)

Definition rOpt (r : regex) : regex := rAlt rEps r.
Definition rPlus (r : regex) : regex := rSeq r (rStar r).
(** [r{lo,lo+extra}] *)
Fixpoint rUpTo (n : nat) (r : regex) : regex :=
  match n with O => rEps | S n => rOpt (rSeq r (rUpTo n r)) end.
Fixpoint rRep (lo extra : nat) (r : regex) : regex :=
  match lo with O => rUpTo extra r | S lo => rSeq r (rRep lo extra r) end.
Definition rChar (c : ascii) : regex := rClass (λ d, bool_decide (d = c)).

(** Character classes *)
Definition in_range (lo hi : nat) (c : ascii) : bool := (lo <=? char_code c)%nat && (char_code c <=? hi)%nat.
Definition is_digit : ascii → bool := in_range 48 57.
Definition is_lower : ascii → bool := in_range 97 122.
Definition is_upper : ascii → bool := in_range 65 90.

(** ** The test decides the language *)

Lemma nullable_spec r : nullable r = true ↔ matches r "".
Proof.
  split.
  - induction r; simpl; try done; eauto with regex.
    + intros [?|?]%orb_true_iff; eauto with regex.
    + intros [??]%andb_true_iff. apply (m_seq r1 r2 "" ""); auto.
  - remember "" as s eqn:Es. induction 1; simpl; try done; try (apply orb_true_iff; naive_solver).
    destruct s1; [|done]. simpl in Es. subst. rewrite IHmatches1, IHmatches2 by done. done.
Qed.
Lemma alt_spec r1 r2 s : matches (alt r1 r2) s ↔ matches (rAlt r1 r2) s.
Proof.
  split.
  - destruct r1, r2; cbn [alt]; eauto with regex.
  - intros H. inversion H as [| |? ? ? Hm|? ? ? Hm| | |]; subst;
      destruct r1, r2; cbn [alt]; try (by inversion Hm); eauto with regex.
Qed.
Lemma seq_spec r1 r2 s : matches (seq r1 r2) s ↔ matches (rSeq r1 r2) s.
Proof.
  split.
  - destruct r1, r2; cbn [seq]; try done; try (by inversion 1);
      intros Hm; try exact Hm; exact (m_seq _ _ "" s m_eps Hm).
  - inversion 1 as [| | | |? ? s1 s2 H1 H2| |]; subst.
    destruct r1; try (by inversion H1); destruct r2; try (by inversion H2); cbn [seq];
      try (constructor; done); inversion H1; subst; exact H2.
Qed.
Lemma star_cons r c s : matches (rStar r) (String c s) →
  ∃ s1 s2, s = s1 +:+ s2 ∧ matches r (String c s1) ∧ matches (rStar r) s2.
Proof.
  remember (rStar r) as r' eqn:Er. remember (String c s) as w eqn:Ew. intros H.
  revert s Ew. induction H as [| | | | |r'' |r'' s1 s2 H1 _ H2 IH2]; try done; intros s Ew.
  simplify_eq. destruct s1 as [|c1 s1].
  - exact (IH2 eq_refl s Ew).
  - rewrite string_cons_app in Ew. simplify_eq. by exists s1, s2.
Qed.
Lemma deriv_spec c r s : matches (deriv c r) s ↔ matches r (String c s).
Proof.
  revert s. induction r as [| |f|r1 IH1 r2 IH2|r1 IH1 r2 IH2|r IH]; intros s; cbn [deriv].
  - split; inversion 1.
  - split; inversion 1.
  - destruct (f c) eqn:Ef; split; inversion 1; subst; [by constructor|constructor|congruence].
  - rewrite alt_spec. split; inversion 1; subst; [apply m_alt_l|apply m_alt_r|apply m_alt_l|apply m_alt_r];
      by first [apply IH1 | apply IH2].
  - set (d := seq (deriv c r1) r2).
    assert (matches d s ↔ ∃ s1 s2, s = s1 +:+ s2 ∧ matches r1 (String c s1) ∧ matches r2 s2) as Hd.
    { subst d. rewrite seq_spec. split.
      - inversion 1 as [| | | |? ? s1 s2 H1 H2| |]; subst. exists s1, s2. by rewrite <-IH1.
      - intros (s1 & s2 & -> & H1 & H2). constructor; [by apply IH1|done]. }
    assert (matches (rSeq r1 r2) (String c s) ↔
            matches d s ∨ (nullable r1 = true ∧ matches (deriv c r2) s)) as ->.
    { rewrite Hd, nullable_spec, IH2. split.
      - inversion 1 as [| | | |? ? s1 s2 H1 H2 E1 E2| |]; subst. destruct s1 as [|c1 s1].
        + rewrite string_app_nil_l in E2. subst. by right.
        + rewrite string_cons_app in E2. simplify_eq. left. by exists s1, s2.
      - intros [(s1 & s2 & -> & H1 & H2)|[H1 H2]].
        + rewrite <-string_cons_app. by constructor.
        + exact (m_seq _ _ "" _ H1 H2). }
    destruct (nullable r1).
    + rewrite alt_spec. split; [inversion 1; subst; auto|]. intros [?|[_ ?]]; auto with regex.
    + naive_solver.
  - rewrite seq_spec. split.
    + inversion 1 as [| | | |? ? s1 s2 H1 H2| |]; subst. rewrite <-string_cons_app.
      constructor; [by apply IH|done].
    + intros (s1 & s2 & -> & H1 & H2)%star_cons. constructor; [by apply IH|done].
Qed.
Lemma re_test_spec r s : re_test r s = true ↔ matches r s.
Proof.
  revert r. induction s as [|c s IH]; intros r; cbn [re_test]; [apply nullable_spec|].
  by rewrite IH, deriv_spec.
Qed.

(** ** Shapes *)

Lemma matches_upto n f s : matches (rUpTo n (rClass f)) s ↔ allChars f s ∧ (String.length s <= n)%nat.
Proof.
  revert s. induction n as [|n IH]; intros s; cbn [rUpTo rOpt].
  - split; [by inversion 1|]. destruct s as [|c s]; [by constructor|]. simpl. lia.
  - split.
    + inversion 1 as [| |? ? ? Hm|? ? ? Hm| | |]; subst.
      * inversion Hm; subst. split; [done|simpl; lia].
      * inversion Hm as [| | | |? ? s1 s2 H1 H2| |]; subst. inversion H1; subst.
        apply IH in H2 as [H2 ?]. rewrite string_cons_app, string_app_nil_l, allChars_cons. cbn [String.length].
        split; [done|lia].
    + destruct s as [|c s]; intros [Ha Hl]; [by apply m_alt_l; constructor|].
      apply allChars_cons in Ha as [Hc Ha]. apply m_alt_r.
      change (String c s) with (String c "" +:+ s). constructor; [by constructor|]. apply IH.
      simpl in Hl. split; [done|lia].
Qed.
(** [[...]{lo,lo+extra}]: only characters of the class, that many of them *)
Lemma matches_rep lo extra f s : matches (rRep lo extra (rClass f)) s ↔
  allChars f s ∧ (lo <= String.length s <= lo + extra)%nat.
Proof.
  revert s. induction lo as [|lo IH]; intros s; cbn [rRep].
  - rewrite matches_upto. intuition lia.
  - split.
    + inversion 1 as [| | | |? ? s1 s2 H1 H2| |]; subst. inversion H1; subst.
      apply IH in H2 as [H2 ?]. rewrite string_cons_app, string_app_nil_l, allChars_cons. cbn [String.length].
      split; [done|lia].
    + destruct s as [|c s]; intros [Ha Hl]; [simpl in Hl; lia|].
      apply allChars_cons in Ha as [Hc Ha].
      change (String c s) with (String c "" +:+ s). constructor; [by constructor|]. apply IH.
      simpl in Hl. split; [done|lia].
Qed.

(** All characters that a pattern can consume are in a class. *)
Fixpoint within (f : ascii → bool) (r : regex) : Prop :=
  match r with
  | rNone | rEps => True
  | rClass g => ∀ c, g c = true → f c = true
  | rAlt r1 r2 | rSeq r1 r2 => within f r1 ∧ within f r2
  | rStar r => within f r
  end.
Lemma matches_within f r s : matches r s → within f r → allChars f s.
Proof.
  induction 1 as [|g c Hc|? ? ? ? IH|? ? ? ? IH|? ? ? ? ? IH1 ? IH2| |? ? ? ? IH1 ? IH2]; cbn [within].
  - intros _. apply allChars_nil.
  - intros Hg. apply allChars_cons. split; [by apply Hg|apply allChars_nil].
  - intros [??]. auto.
  - intros [??]. auto.
  - intros [??]. apply allChars_app. auto.
  - intros _. apply allChars_nil.
  - intros ?. apply allChars_app. auto.
Qed.
Lemma within_upto f n r : within f r → within f (rUpTo n r).
Proof. intros Hr. induction n; simpl; auto. Qed.
Lemma within_rep f lo extra r : within f r → within f (rRep lo extra r).
Proof. intros Hr. induction lo; simpl; [by apply within_upto|auto]. Qed.
