(* ===== verification/LeadNormalize.v ===== *)
(** * When two leads are one business

    The normal forms of business data that leads are compared under
    (src/domain/leads/normalize.ts), where each replacement of the code is one function on the
    text, and how a collected business relates to the leads that are there already
    (src/domain/leads/dedup.ts, src/utils/geo.ts). *)
From S2P Require Import Prelude.
From S2P Require Import JsText.
From S2P Require Import Regex.
From S2P Require Import JsNumber.
Open Scope string_scope.

(** ** Replacements *)

(** [s.replace(/[...]+/g, ' ')]: every run of the class becomes one blank. *)
Fixpoint collapse_runs (f : ascii → bool) (in_run : bool) (s : string) : string :=
  match s with
  | "" => ""
  | String c s' =>
      if f c then
        if in_run then collapse_runs f true s' else String " " (collapse_runs f true s')
      else String c (collapse_runs f false s')
  end.
(** [s.replace(/[...]/g, ' ')] *)
Fixpoint blank_out (f : ascii → bool) (s : string) : string :=
  match s with "" => "" | String c s' => String (if f c then " "%char else c) (blank_out f s') end.
(** [s.replace(/^p/, '')] *)
Definition withoutPrefix (p s : string) : string := default s (dropPrefix p s).
(** [s.replace(/^https?:\/\//, '')] *)
Definition dropScheme (s : string) : string :=
  match dropPrefix "https://" s with Some t => t | None => withoutPrefix "http://" s end.
(** [s.replace(/\/.*$/, '')]; the dot matches no line break. *)
Definition is_line_break (c : ascii) : bool := bool_decide (char_code c ∈ [10; 13])%nat.
Fixpoint dropPath (s : string) : string :=
  match s with
  | "" => ""
  | String c s' =>
      if bool_decide (c = "/"%char) && negb (string_exists is_line_break s') then ""
      else String c (dropPath s')
  end.
(** [s.replace(/^0+(?=\d)/, '')] on a text of digits *)
Fixpoint dropZeros (s : string) : string :=
  match s with
  | String c s' => if bool_decide (c = "0"%char) && truthy s' then dropZeros s' else s
  | "" => ""
  end.

Definition nonEmpty (s : string) : option string := if truthy s then Some s else None.
(** [if (!v) return null] *)
Definition presentText (o : option string) : option string := o ≫= nonEmpty.

(** ** The normal forms *)

Definition normalizeName (name : option string) : option string :=
  presentText name ≫= λ n, nonEmpty (collapse_spaces (toLowerCase (trim n))).

Definition normalizeCategory (value : string) : string :=
  trim (collapse_spaces (collapse_runs (λ c, bool_decide (c ∈ ["_"; "-"]%char)) false (toLowerCase value))).

Definition normalizeDomain (domain : option string) : option string :=
  presentText domain ≫= λ d,
    nonEmpty (dropPath (withoutPrefix "www." (dropScheme (toLowerCase (trim d))))).

Definition COUNTRY_CODES : list string := ["44"; "972"; "353"; "1"].
Definition normalizePhone (phone : option string) : option string :=
  phone ← presentText phone;
  let trimmed := trim phone in
  let hadPlus := startsWith trimmed "+" || startsWith trimmed "00" in
  let allDigits := filterString is_digit trimmed in
  let digits := if hadPlus then dropZeros allDigits else allDigits in
  if bool_decide (digits = "") then None
  else if hadPlus then
    let withoutIntlPrefix := withoutPrefix "00" digits in
    Some (match List.find (λ cc, startsWith withoutIntlPrefix cc &&
                           (String.length cc <? String.length withoutIntlPrefix)%nat) COUNTRY_CODES with
          | Some cc => withoutPrefix cc withoutIntlPrefix
          | None => withoutIntlPrefix
          end)
  else Some (withoutPrefix "0" digits).

Definition normalizeAddress (address : option string) : option string :=
  presentText address ≫= λ a,
    nonEmpty (trim (collapse_spaces (blank_out (λ c, bool_decide (c ∈ ["."; ","; "#"]%char))
      (toLowerCase (trim a))))).

Definition normalizeCity (city : option string) : option string := normalizeName city.

Example normalizePhone_documented :
  map (λ p, normalizePhone (Some p)) ["+44 161 496 0000"; "0161 496 0000"; "(0161) 496-0000"; "+353 1 234 5678"]
  = [Some "1614960000"; Some "1614960000"; Some "1614960000"; Some "12345678"].
Proof. vm_compute. reflexivity. Qed.
(** The usual international way to write a number with its trunk zero is not recognised. *)
Example normalizePhone_trunk : normalizePhone (Some "+44 (0)161 496 0000") = Some "01614960000".
Proof. vm_compute. reflexivity. Qed.
Example normalizeDomain_url :
  map (λ d, normalizeDomain (Some d)) [" HTTPS://www.Praxis.de/kontakt "; "praxis.de"; "http://"; "  "]
  = [Some "praxis.de"; Some "praxis.de"; None; None].
Proof. vm_compute. reflexivity. Qed.
Example normalizeCategory_forms :
  map normalizeCategory ["dental_clinic"; "Dental-Clinic"; " dental  clinic"] =
  ["dental clinic"; "dental clinic"; "dental clinic"].
Proof. vm_compute. reflexivity. Qed.

(** ** Lemmas *)

Lemma presentText_Some o s : presentText o = Some s ↔ o = Some s ∧ s ≠ "".
Proof.
  unfold presentText, nonEmpty, truthy. destruct o as [t|]; simpl; [|naive_solver].
  case_bool_decide; naive_solver.
Qed.
Lemma nonEmpty_Some s t : nonEmpty s = Some t ↔ s = t ∧ t ≠ "".
Proof. unfold nonEmpty, truthy. case_bool_decide; naive_solver. Qed.

Lemma withoutPrefix_app p s : withoutPrefix p (p +:+ s) = s.
Proof. unfold withoutPrefix. by rewrite dropPrefix_app. Qed.
Lemma withoutPrefix_none p s : startsWith s p = false → withoutPrefix p s = s.
Proof. unfold withoutPrefix, dropPrefix. by intros ->. Qed.
Lemma withoutPrefix_cases p s : s = p +:+ withoutPrefix p s ∨ (startsWith s p = false ∧ withoutPrefix p s = s).
Proof.
  destruct (startsWith s p) eqn:E; [left|right; split; [done|by apply withoutPrefix_none]].
  apply startsWith_spec in E as [t ->]. by rewrite withoutPrefix_app.
Qed.
(** What precedes the path has no slash that the pattern would stop at. *)
Lemma dropPath_prefix s : ∃ t, s = dropPath s +:+ t.
Proof.
  induction s as [|c s [t IH]]; [by exists ""|]. cbn [dropPath].
  case_match; [by exists (String c s)|]. exists t. by rewrite string_cons_app, <-IH.
Qed.
Lemma dropPath_app p s : string_exists (λ c, bool_decide (c = "/"%char)) p = false →
  dropPath (p +:+ s) = p +:+ dropPath s.
Proof.
  induction p as [|c p IH]; [done|]. rewrite !string_cons_app. cbn [string_exists dropPath].
  intros [-> Hp]%orb_false_iff. cbn [andb]. by rewrite IH.
Qed.
(** The code drops the path after the prefix in one place and before it in another. *)
Lemma dropPath_www s : withoutPrefix "www." (dropPath s) = dropPath (withoutPrefix "www." s).
Proof.
  destruct (withoutPrefix_cases "www." s) as [E|[Hw ->]].
  - rewrite E at 1. rewrite dropPath_app by done. apply withoutPrefix_app.
  - destruct (startsWith (dropPath s) "www.") eqn:E; [|by apply withoutPrefix_none].
    apply startsWith_spec in E as [t E]. destruct (dropPath_prefix s) as [u Eu].
    rewrite E, string_app_assoc in Eu. by rewrite Eu, startsWith_app in Hw.
Qed.

Lemma allChars_filterString f s : allChars f (filterString f s).
Proof.
  induction s as [|c s IH]; [done|]. cbn [filterString]. destruct (f c) eqn:E; [|done].
  by apply allChars_cons.
Qed.
Lemma allChars_withoutPrefix f p s : allChars f s → allChars f (withoutPrefix p s).
Proof.
  destruct (withoutPrefix_cases p s) as [E|[_ ->]]; [|done]. rewrite E at 1. by intros [_ ?]%allChars_app.
Qed.
Lemma allChars_dropZeros f s : allChars f s → allChars f (dropZeros s).
Proof.
  induction s as [|c s IH]; [done|]. cbn [dropZeros]. case_match; [|done].
  intros [_ ?]%allChars_cons. auto.
Qed.
(** A normalized phone number has no sign: it is digits only. *)
Lemma normalizePhone_digits p n : normalizePhone p = Some n → allChars is_digit n.
Proof.
  unfold normalizePhone. destruct (presentText p) as [t|]; simpl; [|done].
  case_bool_decide; [done|]. destruct (_ || _); intros [= <-].
  - case_match; repeat apply allChars_withoutPrefix; apply allChars_dropZeros, allChars_filterString.
  - apply allChars_withoutPrefix, allChars_filterString.
Qed.

(** ** Texts that are already normal *)

(** No white space at the end *)
Fixpoint trimmedEnd (s : string) : bool :=
  match s with
  | "" => true
  | String c s' => match s' with "" => negb (is_space c) | _ => trimmedEnd s' end
  end.
Lemma trimEnd_fix s : trimmedEnd s = true → trimEnd s = s.
Proof.
  induction s as [|c s IH]; [done|]. cbn [trimmedEnd trimEnd]. destruct s as [|d s].
  - simpl. by destruct (is_space c).
  - intros Hs. by rewrite IH.
Qed.
Lemma trimmedEnd_trimEnd s : trimmedEnd (trimEnd s) = true.
Proof.
  induction s as [|c s IH]; [done|]. cbn [trimEnd]. destruct (trimEnd s) as [|d t].
  - destruct (is_space c) eqn:E; [done|]. simpl. by rewrite E.
  - exact IH.
Qed.
Lemma trimmedEnd_collapse b s : trimmedEnd s = true → s ≠ "" →
  trimmedEnd (collapse_spaces_from b s) = true ∧ collapse_spaces_from b s ≠ "".
Proof.
  revert b. induction s as [|c s IH]; [done|]. intros b Hs _. cbn [collapse_spaces_from].
  destruct s as [|d s].
  - simpl in Hs. apply negb_true_iff in Hs. rewrite Hs. simpl. by rewrite Hs.
  - assert (trimmedEnd (String d s) = true) as Hs' by exact Hs.
    assert (∀ c' t, trimmedEnd t = true ∧ t ≠ "" → trimmedEnd (String c' t) = true ∧ String c' t ≠ "") as Hcons.
    { intros c' t [Ht Hne]. split; [|done]. by destruct t. }
    destruct (is_space c); [destruct b|]; try apply Hcons; apply IH; done.
Qed.
Lemma collapse_fixed b s : collapse_spaces_from b (collapse_spaces_from b s) = collapse_spaces_from b s.
Proof.
  revert b. induction s as [|c s IH]; intros b; [done|]. cbn [collapse_spaces_from].
  destruct (is_space c) eqn:Ec; [destruct b|].
  - apply IH.
  - cbn [collapse_spaces_from]. change (is_space " ") with true. cbn match. by rewrite IH.
  - cbn [collapse_spaces_from]. by rewrite Ec, IH.
Qed.
Lemma toLowerCase_collapse b s :
  toLowerCase (collapse_spaces_from b s) = collapse_spaces_from b (toLowerCase s).
Proof.
  revert b. induction s as [|c s IH]; intros b; [done|]. cbn [collapse_spaces_from toLowerCase].
  rewrite lower_char_space. destruct (is_space c); [destruct b|]; cbn [toLowerCase]; by rewrite IH.
Qed.
Lemma trim_collapse s : trim s = s → trim (collapse_spaces s) = collapse_spaces s.
Proof.
  intros Hs. assert (trimmedEnd s = true) as He by (rewrite <-Hs; apply trimmedEnd_trimEnd).
  destruct s as [|c s]; [done|]. destruct (is_space c) eqn:Ec.
  - exfalso. assert (String.length (trim (String c s)) ≤ String.length s)%nat as Hl; [|rewrite Hs in Hl; simpl in Hl; lia].
    clear -Ec. unfold trim. assert (∀ t, String.length (trimEnd t) ≤ String.length t)%nat as Hte.
    { induction t as [|d t IH]; [done|]. cbn [trimEnd]. destruct (trimEnd t); [destruct (is_space d)|]; simpl in *; lia. }
    assert (∀ t, String.length (trimStart t) ≤ String.length t)%nat as Hts.
    { induction t as [|d t IH]; [done|]. cbn [trimStart]. destruct (is_space d); simpl; lia. }
    etrans; [apply Hte|]. cbn [trimStart]. rewrite Ec. apply Hts.
  - destruct (trimmedEnd_collapse false _ He) as [He' _]; [done|].
    unfold collapse_spaces in *. unfold trim. cbn [collapse_spaces_from] in *. rewrite Ec in *.
    cbn [trimStart]. rewrite Ec. by apply trimEnd_fix.
Qed.
Lemma normalizeName_idem n m : normalizeName n = Some m → normalizeName (Some m) = Some m.
Proof.
  unfold normalizeName. destruct (presentText n) as [t|]; simpl; [|done]. intros [<- Hne]%nonEmpty_Some.
  set (u := toLowerCase (trim t)). fold u in Hne.
  assert (trim u = u) as Hu by (unfold u; by rewrite <-toLowerCase_trim, trim_idem).
  assert (toLowerCase u = u) as Hl by (unfold u; apply toLowerCase_idem).
  unfold presentText. simpl. unfold nonEmpty at 2, truthy. rewrite bool_decide_eq_false_2 by done. simpl.
  apply nonEmpty_Some. split; [|done].
  rewrite (trim_collapse u Hu). unfold collapse_spaces. by rewrite toLowerCase_collapse, Hl, collapse_fixed.
Qed.

Open Scope string_scope.
Open Scope list_scope.

(** ** The distance of two points

    The functions of [Math] whose results ECMAScript leaves to the implementation, with
    [squareN] for [x ** 2] *)
Class MathLibrary := { sinN : num → num; cosN : num → num; asinN : num → num; squareN : num → num }.

Section geo.
Context `{MathLibrary}.

Definition toRad (deg : num) : num := divN (mulN deg piN) (ofZ 180).
Definition haversineMeters (lat1 lon1 lat2 lon2 : num) : num :=
  let R := ofZ 6371000 in
  let dLat := toRad (subN lat2 lat1) in
  let dLon := toRad (subN lon2 lon1) in
  let a := addN (squareN (sinN (divN dLat (ofZ 2))))
             (mulN (mulN (cosN (toRad lat1)) (cosN (toRad lat2))) (squareN (sinN (divN dLon (ofZ 2))))) in
  mulN (mulN (ofZ 2) R) (asinN (minN (ofZ 1) (sqrtN a))).

(** ** The decision *)

Record DedupInput := {
  di_normalizedName : option string; di_normalizedDomain : option string; di_normalizedPhone : option string;
  di_normalizedAddress : option string; di_latitude : option num; di_longitude : option num;
  di_city : option string;
}.
Record DedupCandidate := { dc_leadId : string; dc_input : DedupInput }.
Inductive DuplicateTier := DOMAIN_ADDRESS | PHONE_ADDRESS | NAME_ADDRESS.
Inductive DedupDecision :=
  | DD_DUPLICATE (tier : DuplicateTier) (leadId : string) | DD_BRANCH (relatedLeadId : string)
  | DD_AMBIGUOUS (candidateLeadId : string) | DD_UNIQUE.

Definition nearAddress (nearMeters : num) (a b : DedupInput) : bool :=
  if truthy_opt (di_normalizedAddress a) && truthy_opt (di_normalizedAddress b) &&
     bool_decide (di_normalizedAddress a = di_normalizedAddress b) then true
  else
    match di_latitude a, di_longitude a, di_latitude b, di_longitude b with
    | Some lat1, Some lon1, Some lat2, Some lon2 => leN (haversineMeters lat1 lon1 lat2 lon2) nearMeters
    | _, _, _, _ => false
    end.
Definition sameCity (a b : DedupInput) : bool :=
  match normalizeCity (di_city a), normalizeCity (di_city b) with
  | Some ca, Some cb => String.eqb ca cb
  | _, _ => false
  end.
(** [input.field && c.field === input.field] *)
Definition sameText (x y : option string) : bool := truthy_opt x && bool_decide (y = x).
(** [input.field != null && c.field === input.field] *)
Definition sameValue (x y : option string) : bool := bool_decide (is_Some x) && bool_decide (y = x).

Definition tierHolds (nearMeters : num) (input : DedupInput) (tier : DuplicateTier) (c : DedupCandidate) : bool :=
  (match tier with
   | DOMAIN_ADDRESS => sameText (di_normalizedDomain input) (di_normalizedDomain (dc_input c))
   | PHONE_ADDRESS => sameText (di_normalizedPhone input) (di_normalizedPhone (dc_input c))
   | NAME_ADDRESS => sameText (di_normalizedName input) (di_normalizedName (dc_input c))
   end) && nearAddress nearMeters input (dc_input c).
Definition isBranchOf (nearMeters : num) (input : DedupInput) (c : DedupCandidate) : bool :=
  (sameValue (di_normalizedDomain input) (di_normalizedDomain (dc_input c)) ||
   sameValue (di_normalizedPhone input) (di_normalizedPhone (dc_input c))) &&
  negb (nearAddress nearMeters input (dc_input c)).
Definition isAmbiguousWith (input : DedupInput) (c : DedupCandidate) : bool :=
  sameText (di_normalizedName input) (di_normalizedName (dc_input c)) && sameCity input (dc_input c).
Definition decideMatch (input : DedupInput) (candidates : list DedupCandidate) (nearMeters : num) : DedupDecision :=
  let firstOf p := List.find p candidates in
  match firstOf (tierHolds nearMeters input DOMAIN_ADDRESS) with
  | Some c => DD_DUPLICATE DOMAIN_ADDRESS (dc_leadId c)
  | None =>
      match firstOf (tierHolds nearMeters input PHONE_ADDRESS) with
      | Some c => DD_DUPLICATE PHONE_ADDRESS (dc_leadId c)
      | None =>
          match firstOf (tierHolds nearMeters input NAME_ADDRESS) with
          | Some c => DD_DUPLICATE NAME_ADDRESS (dc_leadId c)
          | None =>
              match firstOf (isBranchOf nearMeters input) with
              | Some c => DD_BRANCH (dc_leadId c)
              | None =>
                  match firstOf (isAmbiguousWith input) with
                  | Some c => DD_AMBIGUOUS (dc_leadId c)
                  | None => DD_UNIQUE
                  end
              end
          end
      end
  end.
End geo.
