(* ===== verification/JsonText.v ===== *)
(** * Bytes and JSON

    A JavaScript string is represented by its UTF-8 bytes.  Here are the operations that see the
    difference - [Buffer.toString('utf8')], which replaces what is not UTF-8 by U+FFFD, and
    [length], which counts UTF-16 code units - and [JSON.parse].  A JSON text is read by two
    automata, one for its characters and one for its tokens; both are structural, so parsing is
    total.  The code under verification reads only the strings, arrays and objects of an answer:
    a number keeps its literal. *)
From S2P Require Import Prelude.
From S2P Require Import JsText.
Open Scope nat_scope.

(** ** Decoding bytes

    The decoder of the WHATWG encoding standard: [need] continuation bytes are still
    to come, the next one between [lo] and [hi]; [seen] is the sequence so far. *)
Record Pending := { need : nat; lo : nat; hi : nat; seen : string }.

(** U+FFFD *)
Definition replacement : string :=
  String (ascii_of_nat 239) (String (ascii_of_nat 191) (String (ascii_of_nat 189) "")).
Definition inRange (a b n : nat) : bool := (a <=? n) && (n <=? b).
Definition leadByte (c : ascii) : string * option Pending :=
  let n := char_code c in
  let wait k a b := ("", Some {| need := k; lo := a; hi := b; seen := String c "" |}) in
  if n <? 128 then (String c "", None)
  else if inRange 194 223 n then wait 1 128 191
  else if n =? 224 then wait 2 160 191
  else if n =? 237 then wait 2 128 159
  else if inRange 225 239 n then wait 2 128 191
  else if n =? 240 then wait 3 144 191
  else if inRange 241 243 n then wait 3 128 191
  else if n =? 244 then wait 3 128 143
  else (replacement, None).
Definition decodeByte (st : option Pending) (c : ascii) : string * option Pending :=
  match st with
  | None => leadByte c
  | Some p =>
      if inRange (lo p) (hi p) (char_code c) then
        if need p =? 1 then (seen p +:+ String c "", None)
        else ("", Some {| need := need p - 1; lo := 128; hi := 191; seen := seen p +:+ String c "" |})
      else let '(out, st') := leadByte c in (replacement +:+ out, st')
  end.
Fixpoint decodeFrom (st : option Pending) (s : string) : string :=
  match s with
  | "" => match st with Some _ => replacement | None => "" end
  | String c s => let '(out, st') := decodeByte st c in out +:+ decodeFrom st' s
  end.
(** [buffer.toString('utf8')] *)
Definition decodeUtf8 : string → string := decodeFrom None.

(** The bytes are those of a JavaScript string. *)
Definition wellEncoded (s : string) : Prop := decodeUtf8 s = s.

Example decode_examples :
  map (λ l, decodeUtf8 (String.string_of_list_ascii (map ascii_of_nat l)) =? String.string_of_list_ascii (map ascii_of_nat l))%string
    [[65; 66]; [195; 164]; [226; 130; 172]; [240; 159; 152; 128]; [195]; [192; 128]; [237; 160; 128]; [228; 65]] =
  [true; true; true; true; false; false; false; false].
Proof. vm_compute. reflexivity. Qed.

(** ** The length in UTF-16 code units *)

(** Continuation bytes add nothing, the lead of a four byte sequence adds two. *)
Definition utf16Units (c : ascii) : nat :=
  let n := char_code c in if inRange 128 191 n then 0 else if 240 <=? n then 2 else 1.
Fixpoint utf16Length (s : string) : nat :=
  match s with "" => 0 | String c s => utf16Units c + utf16Length s end.

(** ** ASCII text *)

Definition asciiOnly (s : string) : Prop := string_exists (λ c, 128 <=? char_code c) s = false.

Lemma decode_ascii_app s t : asciiOnly s → decodeUtf8 (s +:+ t) = s +:+ decodeUtf8 t.
Proof.
  unfold asciiOnly, decodeUtf8. induction s as [|c s IH]; intros Hs; [done|].
  cbn [string_exists] in Hs. apply orb_false_iff in Hs as [Hc Hs]. apply Nat.leb_gt in Hc.
  change (String c s +:+ t) with (String c (s +:+ t)). cbn [decodeFrom decodeByte]. unfold leadByte.
  rewrite (proj2 (Nat.ltb_lt (char_code c) 128) Hc). by rewrite IH.
Qed.
Lemma decode_ascii s : asciiOnly s → wellEncoded s.
Proof.
  intros Hs. pose proof (decode_ascii_app s "" Hs) as E.
  by rewrite !string_app_nil_r in E.
Qed.

Open Scope string_scope.

Inductive value :=
  | VNull
  | VBool (b : bool)
  | VNum (literal : string)
  | VStr (s : string)
  | VArr (l : list value)
  | VObj (fields : list (string * value)).

(** ** Numbers: a sign, digits without a leading zero, a fraction, an exponent *)

Inductive numberState := NStart | NMinus | NZero | NInt | NDot | NFrac | NExp | NSign | NDigits.
Definition isDigit (c : ascii) : bool := (48 <=? char_code c)%nat && (char_code c <=? 57)%nat.
Definition numberStep (st : numberState) (c : ascii) : option numberState :=
  let zero := bool_decide (c = "0"%char) in
  let fraction := if bool_decide (c = "."%char) then Some NDot else None in
  let exponent := if bool_decide (c ∈ ["e"; "E"]%char) then Some NExp else None in
  let first (minus : option numberState) :=
    if zero then Some NZero else if isDigit c then Some NInt else minus in
  match st with
  | NStart => first (if bool_decide (c = "-"%char) then Some NMinus else None)
  | NMinus => first None
  | NZero => match fraction with Some st => Some st | None => exponent end
  | NInt => if isDigit c then Some NInt else match fraction with Some st => Some st | None => exponent end
  | NDot => if isDigit c then Some NFrac else None
  | NFrac => if isDigit c then Some NFrac else exponent
  | NExp => if isDigit c then Some NDigits else if bool_decide (c ∈ ["+"; "-"]%char) then Some NSign else None
  | NSign | NDigits => if isDigit c then Some NDigits else None
  end.
Fixpoint numberFrom (st : numberState) (s : string) : bool :=
  match s with
  | "" => match st with NZero | NInt | NFrac | NDigits => true | _ => false end
  | String c s => match numberStep st c with Some st => numberFrom st s | None => false end
  end.

(** ** Strings *)

(** The UTF-8 form of a code unit; a surrogate gets three bytes, like any other. *)
Definition encodeUnit (n : nat) : string :=
  let byte (k : nat) (s : string) := String (ascii_of_nat k) s in
  if (n <? 128)%nat then byte n ""
  else if (n <? 2048)%nat then byte (192 + n / 64) (byte (128 + n mod 64) "")
  else byte (224 + n / 4096) (byte (128 + n / 64 mod 64) (byte (128 + n mod 64) "")).
(** The code unit of the three byte form at the start of a text *)
Definition unitAt (s : string) : option nat :=
  match s with
  | String a (String b (String c _)) =>
      if (char_code a =? 237)%nat
      then Some ((char_code a - 224) * 4096 + (char_code b - 128) * 64 + (char_code c - 128))%nat else None
  | _ => None
  end.
Definition drop3 (s : string) : string :=
  match s with String _ (String _ (String _ s)) => s | _ => "" end.
(** A high surrogate before a low one is one character, of four bytes; [skip] counts the
    bytes of a pair that are still to be passed. *)
Fixpoint joinSurrogates (skip : nat) (s : string) : string :=
  match s with
  | "" => ""
  | String c s' =>
      match skip with
      | S skip => joinSurrogates skip s'
      | O =>
          match unitAt s, unitAt (drop3 s) with
          | Some hi, Some lo =>
              if ((55296 <=? hi) && (hi <=? 56319) && (56320 <=? lo) && (lo <=? 57343))%nat then
                let n := (65536 + (hi - 55296) * 1024 + (lo - 56320))%nat in
                String (ascii_of_nat (240 + n / 262144)) (String (ascii_of_nat (128 + n / 4096 mod 64))
                  (String (ascii_of_nat (128 + n / 64 mod 64)) (String (ascii_of_nat (128 + n mod 64))
                    (joinSurrogates 5 s'))))
              else String c (joinSurrogates 0 s')
          | _, _ => String c (joinSurrogates 0 s')
          end
      end
  end.
(** The character of a two character escape *)
Definition shortEscape (c : ascii) : option ascii :=
  match c with
  | "b"%char => Some (ascii_of_nat 8) | "f"%char => Some (ascii_of_nat 12)
  | "n"%char => Some (ascii_of_nat 10) | "r"%char => Some (ascii_of_nat 13)
  | "t"%char => Some (ascii_of_nat 9) | "/"%char => Some "/"%char
  | _ => if bool_decide (c = quoteMark) || bool_decide (c = backslash) then Some c else None
  end.

(** ** Tokens *)

Inductive token := TOpenObj | TCloseObj | TOpenArr | TCloseArr | TComma | TColon | TValue (v : value).
Inductive lexing :=
  | Idle
  | Word (seen : string)
  | Text (seen : string)
  | Escape (seen : string)
  | Hex (seen : string) (missing : nat) (n : nat).

Definition wordChar (c : ascii) : bool :=
  let n := char_code c in
  ((97 <=? n)%nat && (n <=? 122)%nat) || ((65 <=? n)%nat && (n <=? 90)%nat) || isDigit c ||
  bool_decide (c ∈ ["+"; "-"; "."]%char).
Definition wordValue (w : string) : option value :=
  if String.eqb w "null" then Some VNull else if String.eqb w "true" then Some (VBool true)
  else if String.eqb w "false" then Some (VBool false)
  else if numberFrom NStart w then Some (VNum w) else None.
Definition jsonSpace (c : ascii) : bool := bool_decide (char_code c ∈ [32; 9; 10; 13]%nat).
Definition punctuation (c : ascii) : option token :=
  match c with
  | "{"%char => Some TOpenObj | "}"%char => Some TCloseObj | "["%char => Some TOpenArr
  | "]"%char => Some TCloseArr | ","%char => Some TComma | ":"%char => Some TColon | _ => None
  end.
Definition lexIdle (c : ascii) : option (list token * lexing) :=
  if bool_decide (c = quoteMark) then Some ([], Text "")
  else if jsonSpace c then Some ([], Idle)
  else if wordChar c then Some ([], Word (String c ""))
  else t ← punctuation c; Some ([t], Idle).
Definition snoc (s : string) (c : ascii) : string := s +:+ String c "".
Definition lexStep (st : lexing) (c : ascii) : option (list token * lexing) :=
  match st with
  | Idle => lexIdle c
  | Word w =>
      if wordChar c then Some ([], Word (snoc w c))
      else v ← wordValue w; '(ts, st) ← lexIdle c; Some (TValue v :: ts, st)
  | Text s =>
      if bool_decide (c = quoteMark) then Some ([TValue (VStr (joinSurrogates 0 s))], Idle)
      else if bool_decide (c = backslash) then Some ([], Escape s)
      else if (char_code c <? 32)%nat then None else Some ([], Text (snoc s c))
  | Escape s =>
      if bool_decide (c = "u"%char) then Some ([], Hex s 4 0)
      else d ← shortEscape c; Some ([], Text (snoc s d))
  | Hex s missing n =>
      d ← hexValue c;
      let n := (n * 16 + d)%nat in
      if (missing =? 1)%nat then Some ([], Text (s +:+ encodeUnit n)) else Some ([], Hex s (missing - 1) n)
  end.
Fixpoint lexFrom (st : lexing) (s : string) : option (list token) :=
  match s with
  | "" =>
      match st with
      | Idle => Some []
      | Word w => v ← wordValue w; Some [TValue v]
      | _ => None
      end
  | String c s => '(ts, st) ← lexStep st c; rest ← lexFrom st s; Some (ts ++ rest)%list
  end.

(** ** Structure *)

(** An array or an object that is still open, with its elements in reverse; an object
    also has the key that the next value belongs to. *)
Inductive frame := InArr (l : list value) | InObj (fields : list (string * value)) (key : string).
Inductive expecting :=
  | AValue | AValueOrClose | AKey | AKeyOrClose | AColon | AfterValue | Done (v : value).
Definition plug (v : value) (stack : list frame) : list frame * expecting :=
  match stack with
  | [] => ([], Done v)
  | InArr l :: stack => (InArr (v :: l) :: stack, AfterValue)
  | InObj fields key :: stack => (InObj ((key, v) :: fields) "" :: stack, AfterValue)
  end.
Definition takeValue (t : token) (stack : list frame) : option (list frame * expecting) :=
  match t with
  | TValue v => Some (plug v stack)
  | TOpenArr => Some (InArr [] :: stack, AValueOrClose)
  | TOpenObj => Some (InObj [] "" :: stack, AKeyOrClose)
  | _ => None
  end.
Definition takeKey (t : token) (stack : list frame) : option (list frame * expecting) :=
  match t, stack with
  | TValue (VStr key), InObj fields _ :: stack => Some (InObj fields key :: stack, AColon)
  | _, _ => None
  end.
Definition closeFrame (t : token) (stack : list frame) : option (list frame * expecting) :=
  match t, stack with
  | TCloseArr, InArr l :: stack => Some (plug (VArr (reverse l)) stack)
  | TCloseObj, InObj fields _ :: stack => Some (plug (VObj (reverse fields)) stack)
  | _, _ => None
  end.
Definition parseStep (st : list frame * expecting) (t : token) : option (list frame * expecting) :=
  let '(stack, e) := st in
  match e with
  | AValue => takeValue t stack
  | AValueOrClose => match t with TCloseArr => closeFrame t stack | _ => takeValue t stack end
  | AKey => takeKey t stack
  | AKeyOrClose => match t with TCloseObj => closeFrame t stack | _ => takeKey t stack end
  | AColon => match t with TColon => Some (stack, AValue) | _ => None end
  | AfterValue =>
      match t, stack with
      | TComma, InArr _ :: _ => Some (stack, AValue)
      | TComma, InObj _ _ :: _ => Some (stack, AKey)
      | _, _ => closeFrame t stack
      end
  | Done _ => None
  end.
Fixpoint parseFrom (st : list frame * expecting) (ts : list token) : option value :=
  match ts with
  | [] => match st.2 with Done v => Some v | _ => None end
  | t :: ts => st ← parseStep st t; parseFrom st ts
  end.
(** [JSON.parse]; [None] is a syntax error. *)
Definition jsonParse (text : string) : option value :=
  ts ← lexFrom Idle text; parseFrom ([], AValue) ts.

(** A property of a parsed value: of several fields of one name the last counts; what has
    no such field gives [undefined]. *)
Definition fieldOf (v : value) (name : string) : option value :=
  match v with
  | VObj fields => snd <$> List.find (λ f, String.eqb f.1 name) (reverse fields)
  | _ => None
  end.
Definition isString (v : option value) : bool := match v with Some (VStr _) => true | _ => false end.
Definition asString (v : option value) : option string := match v with Some (VStr s) => Some s | _ => None end.

Definition quoted (s : string) : string := String quoteMark (s +:+ String quoteMark "").
Example json_examples :
  map jsonParse
    ["{" +:+ quoted "a" +:+ " : [1, -2.5e3 ,null,{}], " +:+ quoted "b" +:+ ":" +:+ quoted "x\u00e4\n\ud83d\ude00\/" +:+ "}";
     "[]"; " true "; "[1,]"; "{" +:+ quoted "a" +:+ "}"; "01"; "1 2"; quoted "a"; ""; "[1"; "nul"; "[1]]"] =
  [Some (VObj [("a", VArr [VNum "1"; VNum "-2.5e3"; VNull; VObj []]);
               ("b", VStr ("xä" +:+ String (ascii_of_nat 10) "😀/"))]);
   Some (VArr []); Some (VBool true); None; None; None; None; Some (VStr "a"); None; None; None; None].
Proof. vm_compute. reflexivity. Qed.

(** ** What is printed is read back

    For a text of plain characters, which is all that identifiers are made of. *)
Definition plainChar (c : ascii) : bool :=
  (32 <=? char_code c)%nat && (char_code c <? 128)%nat &&
  negb (bool_decide (c = quoteMark)) && negb (bool_decide (c = backslash)).
Definition plainText_ (s : string) : Prop := string_exists (λ c, negb (plainChar c)) s = false.

Lemma plainChar_spec c : plainChar c = true →
  (32 <= char_code c < 128)%nat ∧ bool_decide (c = quoteMark) = false ∧ bool_decide (c = backslash) = false.
Proof.
  unfold plainChar. rewrite !andb_true_iff, !negb_true_iff, Nat.leb_le, Nat.ltb_lt. intuition.
Qed.
Lemma escapeText_plain s : plainText_ s → escapeText s = s.
Proof.
  unfold plainText_. induction s as [|c s IH]; [done|]. cbn [string_exists escapeText].
  intros [Hc Hs]%orb_false_iff. apply negb_false_iff in Hc. rewrite IH by done.
  clear -Hc. revert Hc. destruct c as [[] [] [] [] [] [] [] []]; vm_compute; congruence.
Qed.
Lemma joinSurrogates_plain s : plainText_ s → joinSurrogates 0 s = s.
Proof.
  unfold plainText_. induction s as [|c s IH]; [done|]. cbn [string_exists].
  intros [Hc Hs]%orb_false_iff. apply negb_false_iff, plainChar_spec in Hc as [Hc _].
  cbn [joinSurrogates]. rewrite (IH Hs). assert (unitAt (String c s) = None) as ->; [|done].
  unfold unitAt. destruct s as [|b [|d s]]; [done..|].
  destruct (Nat.eqb_spec (char_code c) 237); [lia|done].
Qed.
Lemma lex_text seen s rest :
  plainText_ s → lexFrom (Text seen) (s +:+ rest) = lexFrom (Text (seen +:+ s)) rest.
Proof.
  unfold plainText_. revert seen. induction s as [|c s IH]; intros seen; [by rewrite string_app_nil_r|].
  cbn [string_exists]. intros [Hc Hs]%orb_false_iff.
  apply negb_false_iff, plainChar_spec in Hc as (Hc & Hq & Hb).
  rewrite string_cons_app. cbn [lexFrom lexStep]. rewrite Hq, Hb.
  destruct (Nat.ltb_spec (char_code c) 32); [lia|]. simpl. rewrite IH by done. unfold snoc.
  rewrite string_app_assoc. by destruct (lexFrom _ _).
Qed.
Lemma lex_string s rest :
  plainText_ s →
  lexFrom Idle (jsonString s +:+ rest) = (λ ts, TValue (VStr s) :: ts) <$> lexFrom Idle rest.
Proof.
  intros Hs. unfold jsonString. rewrite escapeText_plain, string_cons_app, string_app_assoc by done.
  assert (∀ t, lexFrom Idle (String quoteMark t) = lexFrom (Text "") t) as ->.
  { intros t. cbn [lexFrom lexStep]. unfold lexIdle. rewrite bool_decide_eq_true_2 by done. simpl.
    by destruct (lexFrom _ _). }
  rewrite lex_text by done. change ("" +:+ s) with s. rewrite string_cons_app.
  cbn [lexFrom lexStep]. rewrite bool_decide_eq_true_2 by done. rewrite joinSurrogates_plain by done. simpl.
  change ("" +:+ rest) with rest. by destruct (lexFrom Idle rest).
Qed.
(** An object of one plain field *)
Lemma parse_field name s :
  plainText_ name → plainText_ s →
  jsonParse (stringify (JObj [(name, JStr s)])) = Some (VObj [(name, VStr s)]).
Proof.
  intros Hn Hs. unfold jsonParse.
  change (stringify (JObj [(name, JStr s)])) with ("{" +:+ (jsonString name +:+ ":" +:+ jsonString s) +:+ "}").
  rewrite !string_app_assoc.
  assert (∀ c t ts, punctuation c = Some t → lexFrom Idle (String c ts) = (λ l, t :: l) <$> lexFrom Idle ts) as Hp.
  { intros c t ts Hc. cbn [lexFrom lexStep]. unfold lexIdle.
    destruct (bool_decide_reflect (c = quoteMark)) as [->|]; [discriminate Hc|].
    destruct (jsonSpace c) eqn:E1; [destruct c as [[] [] [] [] [] [] [] []]; discriminate Hc || discriminate E1|].
    destruct (wordChar c) eqn:E2; [destruct c as [[] [] [] [] [] [] [] []]; discriminate Hc || discriminate E2|].
    rewrite Hc. simpl. by destruct (lexFrom Idle ts). }
  change ("{" +:+ ?x) with (String "{" x). rewrite (Hp "{"%char TOpenObj), (lex_string name) by done.
  change (":" +:+ ?x) with (String ":" x). rewrite (Hp ":"%char TColon), (lex_string s) by done. reflexivity.
Qed.
