(* ===== verification/TimeZone.v ===== *)
(** * Time: the calendar and the zones

    The proleptic Gregorian calendar of ECMAScript [Date] - [Date.UTC], the [getUTC*] accessors
    and [toISOString], on instants counted in milliseconds since 1970-01-01T00:00:00Z, following
    the time-clause functions of the language specification - and
    src/domain/schedule/timezone.ts.  Instants beyond the +-8.64e15 ms of a JavaScript [Date] are
    not excluded: the functions are total on [Z].

    The platform's [Intl] database is a parameter, [TzDatabase]: it maps an IANA name to the
    offset (in ms ahead of UTC) in force at each instant, or to nothing, in which case
    [Intl.DateTimeFormat] throws a RangeError.  The helpers are written over the offset function
    of a zone; the services look the zone up first ([withZone]), since the first use of an
    unknown name throws. *)
From S2P Require Import Prelude.
From S2P Require Import JsText.
Open Scope Z_scope.

(** [lia] decides the floor divisions and remainders by constants below. *)
#[local] Ltac Zify.zify_post_hook ::= Z.div_mod_to_equations.

Definition msPerDay : Z := 86400000.

Definition isLeap (y : Z) : bool :=
  (y mod 4 =? 0) && (negb (y mod 100 =? 0) || (y mod 400 =? 0)).

Definition daysInYear (y : Z) : Z := if isLeap y then 366 else 365.

(** The number of the first day of year [y]. *)
Definition dayFromYear (y : Z) : Z :=
  365 * (y - 1970) + (y - 1969) / 4 - (y - 1901) / 100 + (y - 1601) / 400.

(** The day of the year on which month [m] (0 to 11) begins. *)
Definition monthStart (leap : bool) (m : Z) : Z :=
  let l := if leap then 1 else 0 in
  match m with
  | 0 => 0 | 1 => 31 | 2 => 59 + l | 3 => 90 + l | 4 => 120 + l | 5 => 151 + l
  | 6 => 181 + l | 7 => 212 + l | 8 => 243 + l | 9 => 273 + l | 10 => 304 + l
  | 11 => 334 + l | _ => 365 + l
  end.

(** The year that contains day [d]: the largest [y] with [dayFromYear y <= d]. *)
Definition yearFromDay (d : Z) : Z :=
  let y := 1970 + (400 * d) / 146097 in
  if d <? dayFromYear y then y - 1
  else if dayFromYear (y + 1) <=? d then y + 1 else y.

(** The month (0 to 11) of the day [k] of a year. *)
Definition monthFromDayInYear (leap : bool) (k : Z) : Z :=
  if k <? monthStart leap 1 then 0 else if k <? monthStart leap 2 then 1
  else if k <? monthStart leap 3 then 2 else if k <? monthStart leap 4 then 3
  else if k <? monthStart leap 5 then 4 else if k <? monthStart leap 6 then 5
  else if k <? monthStart leap 7 then 6 else if k <? monthStart leap 8 then 7
  else if k <? monthStart leap 9 then 8 else if k <? monthStart leap 10 then 9
  else if k <? monthStart leap 11 then 10 else 11.

Record civil := Civil { c_year : Z; c_month : Z; c_day : Z }.

(** Year, month (1 to 12) and day of the month (1 to 31) of day [d]. *)
Definition civilFromDay (d : Z) : civil :=
  let y := yearFromDay d in
  let k := d - dayFromYear y in
  let m := monthFromDayInYear (isLeap y) k in
  Civil y (m + 1) (k - monthStart (isLeap y) m + 1).

(** MakeDay: a month out of range carries into the year, a day out of range into
    the month. *)
Definition makeDay (year month0 date : Z) : Z :=
  let ym := year + month0 / 12 in
  dayFromYear ym + monthStart (isLeap ym) (month0 mod 12) + date - 1.

(** [Date.UTC(year, month0, date, h, mi, s)]; a year from 0 to 99 means 19xx. *)
Definition dateUTC (year month0 date h mi s : Z) : Z :=
  let yr := if (0 <=? year) && (year <=? 99) then 1900 + year else year in
  makeDay yr month0 date * msPerDay + h * 3600000 + mi * 60000 + s * 1000.

Definition dayOf (t : Z) : Z := t / msPerDay.
Definition timeInDay (t : Z) : Z := t mod msPerDay.

Definition getUTCFullYear (t : Z) : Z := c_year (civilFromDay (dayOf t)).
Definition getUTCMonth (t : Z) : Z := c_month (civilFromDay (dayOf t)) - 1.
Definition getUTCDate (t : Z) : Z := c_day (civilFromDay (dayOf t)).
(** 0 is Sunday *)
Definition getUTCDay (t : Z) : Z := (dayOf t + 4) mod 7.

(** ISO weekday, 1 (Monday) to 7 (Sunday) *)
Definition isoWeekday (t : Z) : Z := let dow := getUTCDay t in if dow =? 0 then 7 else dow.

Definition pad (w : nat) (n : Z) : string := padStart0 w (pretty n).

(** [Date.prototype.toISOString] *)
Definition isoYear (y : Z) : string :=
  if (0 <=? y) && (y <=? 9999) then pad 4 y
  else if y <? 0 then "-" +:+ pad 6 (- y) else "+" +:+ pad 6 y.
Definition toISOString (t : Z) : string :=
  let c := civilFromDay (dayOf t) in
  let k := timeInDay t in
  isoYear (c_year c) +:+ "-" +:+ pad 2 (c_month c) +:+ "-" +:+ pad 2 (c_day c) +:+ "T" +:+
  pad 2 (k / 3600000) +:+ ":" +:+ pad 2 (k / 60000 mod 60) +:+ ":" +:+
  pad 2 (k / 1000 mod 60) +:+ "." +:+ pad 3 (k mod 1000) +:+ "Z".

Example iso_epoch : toISOString 0 = "1970-01-01T00:00:00.000Z".
Proof. reflexivity. Qed.
Example iso_2026 : toISOString (dateUTC 2026 6 24 7 5 9 + 42) = "2026-07-24T07:05:09.042Z".
Proof. vm_compute. reflexivity. Qed.
Example iso_leap : toISOString (dateUTC 2024 1 29 23 59 59 - 86400000 * 366) = "2023-02-28T23:59:59.000Z".
Proof. vm_compute. reflexivity. Qed.

(** ** The calendar is a bijection between days and valid civil dates *)

Lemma dayFromYear_next y : dayFromYear (y + 1) = dayFromYear y + daysInYear y.
Proof.
  unfold dayFromYear, daysInYear, isLeap.
  destruct (y mod 4 =? 0) eqn:E4, (y mod 100 =? 0) eqn:E100, (y mod 400 =? 0) eqn:E400;
    simpl; rewrite ?Z.eqb_eq, ?Z.eqb_neq in *; lia.
Qed.

Lemma daysInYear_bounds y : 365 <= daysInYear y <= 366.
Proof. unfold daysInYear. destruct (isLeap y); lia. Qed.

Lemma yearFromDay_spec d :
  dayFromYear (yearFromDay d) <= d < dayFromYear (yearFromDay d + 1).
Proof.
  unfold yearFromDay.
  destruct (Z.ltb_spec d (dayFromYear (1970 + 400 * d / 146097))) as [H|H];
    [|destruct (Z.leb_spec (dayFromYear (1970 + 400 * d / 146097 + 1)) d) as [H'|H']];
    unfold dayFromYear in *; lia.
Qed.

Lemma dayFromYear_mono y y' : y <= y' → dayFromYear y <= dayFromYear y'.
Proof. unfold dayFromYear. lia. Qed.

Lemma yearFromDay_unique d y : dayFromYear y <= d < dayFromYear (y + 1) → yearFromDay d = y.
Proof.
  intros H. pose proof (yearFromDay_spec d) as Hs.
  destruct (Z.lt_trichotomy (yearFromDay d) y) as [Hlt|[->|Hlt]]; [|done|].
  - pose proof (dayFromYear_mono (yearFromDay d + 1) y). lia.
  - pose proof (dayFromYear_mono (y + 1) (yearFromDay d)). lia.
Qed.

(** The number of days of month [m] (1 to 12). *)
Definition daysInMonth (y m : Z) : Z := monthStart (isLeap y) m - monthStart (isLeap y) (m - 1).

Definition validCivil (c : civil) : Prop :=
  1 <= c_month c <= 12 ∧ 1 <= c_day c <= daysInMonth (c_year c) (c_month c).

(** Splits on a month number known to lie in [0, 11]. *)
Ltac split_month m :=
  let H := fresh in
  assert (m = 0 ∨ m = 1 ∨ m = 2 ∨ m = 3 ∨ m = 4 ∨ m = 5 ∨ m = 6 ∨ m = 7 ∨ m = 8 ∨
          m = 9 ∨ m = 10 ∨ m = 11) as H by lia;
  destruct_or! H; subst m.

Lemma monthFromDayInYear_spec (leap : bool) (k : Z) :
  0 <= k < (if leap then 366 else 365) →
  let m := monthFromDayInYear leap k in
  0 <= m <= 11 ∧ monthStart leap m <= k < monthStart leap (m + 1).
Proof.
  intros Hk. unfold monthFromDayInYear, monthStart.
  destruct leap; repeat (case_match; [rewrite ?Z.ltb_lt, ?Z.ltb_ge in *; simpl in *; lia|]);
    rewrite ?Z.ltb_lt, ?Z.ltb_ge in *; simpl in *; lia.
Qed.

Lemma monthFromDayInYear_unique (leap : bool) (k m : Z) :
  0 <= m <= 11 → monthStart leap m <= k < monthStart leap (m + 1) →
  monthFromDayInYear leap k = m.
Proof.
  intros Hm Hk. unfold monthFromDayInYear.
  split_month m; unfold monthStart in *; destruct leap; simpl in *;
    repeat (case_match; rewrite ?Z.ltb_lt, ?Z.ltb_ge in *; try lia).
Qed.

Lemma civilFromDay_valid d : validCivil (civilFromDay d).
Proof.
  unfold validCivil, daysInMonth, civilFromDay; simpl.
  pose proof (yearFromDay_spec d) as Hy. rewrite dayFromYear_next in Hy.
  set (y := yearFromDay d) in *. set (k := d - dayFromYear y).
  destruct (monthFromDayInYear_spec (isLeap y) k) as [Hm Hk].
  { unfold k, daysInYear in *. destruct (isLeap y); lia. }
  rewrite Z.add_simpl_r. lia.
Qed.

Lemma makeDay_civilFromDay d :
  let c := civilFromDay d in makeDay (c_year c) (c_month c - 1) (c_day c) = d.
Proof.
  unfold civilFromDay, makeDay; simpl.
  pose proof (yearFromDay_spec d) as Hy. rewrite dayFromYear_next in Hy.
  set (y := yearFromDay d) in *. set (k := d - dayFromYear y).
  destruct (monthFromDayInYear_spec (isLeap y) k) as [Hm Hk].
  { unfold k, daysInYear in *. destruct (isLeap y); lia. }
  rewrite Z.add_simpl_r, Z.div_small, Z.mod_small, Z.add_0_r by lia. lia.
Qed.

Lemma civilFromDay_makeDay c :
  validCivil c → civilFromDay (makeDay (c_year c) (c_month c - 1) (c_day c)) = c.
Proof.
  destruct c as [y m d]; unfold validCivil, daysInMonth, makeDay; simpl. intros [Hm Hd].
  rewrite Z.div_small, Z.mod_small, Z.add_0_r by lia.
  assert (m = (m - 1) + 1) as Em by lia. rewrite Em in Hd at 1.
  set (m0 := m - 1) in *. assert (0 <= m0 <= 11) as Hm0 by lia. rewrite Em.
  clearbody m0. clear Em Hm m.
  assert (0 <= monthStart (isLeap y) m0 ∧ monthStart (isLeap y) (m0 + 1) <= daysInYear y) as Hb.
  { unfold daysInYear, monthStart. split_month m0; destruct (isLeap y); simpl; lia. }
  unfold civilFromDay.
  rewrite (yearFromDay_unique _ y) by (rewrite dayFromYear_next; lia).
  rewrite (monthFromDayInYear_unique _ _ m0) by lia. f_equal; lia.
Qed.

Lemma monthStart_nonneg (leap : bool) (m : Z) : 0 <= m <= 11 → 0 <= monthStart leap m.
Proof. intros Hm. unfold monthStart. split_month m; destruct leap; lia. Qed.

(** The weekday advances by one each day. *)
Lemma getUTCDay_range t : 0 <= getUTCDay t < 7.
Proof. unfold getUTCDay. lia. Qed.
Lemma isoWeekday_range t : 1 <= isoWeekday t <= 7.
Proof. unfold isoWeekday. pose proof (getUTCDay_range t). case_match; rewrite ?Z.eqb_eq, ?Z.eqb_neq in *; lia. Qed.

#[local] Ltac Zify.zify_post_hook ::= Z.div_mod_to_equations.

Class TzDatabase := zone : string → option (Z → Z).

Definition rangeError (tz : string) : error :=
  JsError ("RangeError: Invalid time zone specified: " +:+ tz).

Definition withZone `{TzDatabase} {A} (tz : string) (f : (Z → Z) → A) : res A :=
  match zone tz with Some off => Ok (f off) | None => Throw (rangeError tz) end.

Definition isValidTimeZone `{TzDatabase} (tz : string) : bool :=
  truthy tz && truthy (trim tz) && bool_decide (is_Some (zone tz)).

Record LocalParts := {
  lp_year : Z; lp_month : Z; lp_day : Z; lp_hour : Z; lp_minute : Z; lp_second : Z;
}.

(** The wall-clock fields that [formatToParts] prints; milliseconds are dropped
    and midnight is hour 0 (the code reduces the printed 24 modulo 24). *)
Definition partsOf (off : Z → Z) (instantMs : Z) : LocalParts :=
  let l := instantMs + off instantMs in
  let c := civilFromDay (dayOf l) in
  let k := timeInDay l in
  {| lp_year := c_year c; lp_month := c_month c; lp_day := c_day c;
     lp_hour := k / 3600000; lp_minute := k / 60000 mod 60; lp_second := k / 1000 mod 60 |}.

Definition tzOffsetMs (off : Z → Z) (instantMs : Z) : Z :=
  let p := partsOf off instantMs in
  dateUTC (lp_year p) (lp_month p - 1) (lp_day p) (lp_hour p) (lp_minute p) (lp_second p)
  - instantMs.

Record Local := { l_parts : LocalParts; l_weekdayIso : Z }.

Definition utcToLocal (off : Z → Z) (instantMs : Z) : Local :=
  let p := partsOf off instantMs in
  {| l_parts := p;
     l_weekdayIso := isoWeekday (dateUTC (lp_year p) (lp_month p - 1) (lp_day p) 0 0 0) |}.

Definition zonedWallClockToUtc (off : Z → Z) (year month day hour minute : Z) : Z :=
  let naive := dateUTC year (month - 1) day hour minute 0 in
  let o1 := tzOffsetMs off naive in
  let utc := naive - o1 in
  let o2 := tzOffsetMs off utc in
  if negb (o2 =? o1) then naive - o2 else utc.

Definition formatLocal (off : Z → Z) (tz : string) (instantMs : Z) : string :=
  let p := l_parts (utcToLocal off instantMs) in
  pretty (lp_year p) +:+ "-" +:+ pad 2 (lp_month p) +:+ "-" +:+ pad 2 (lp_day p) +:+ " " +:+
  pad 2 (lp_hour p) +:+ ":" +:+ pad 2 (lp_minute p) +:+ " (" +:+ tz +:+ ")".

(** ** A zone with one transition, at instant [T], from offset [a] to offset [b] *)
Definition stepZone (T a b : Z) (t : Z) : Z := if t <? T then a else b.

(** Two zones for the witnesses: Berlin and New York around their 2026 spring
    transitions (29 March 01:00Z and 8 March 07:00Z). *)
Definition demoBerlin : Z → Z := stepZone (dateUTC 2026 2 29 1 0 0) 3600000 7200000.
Definition demoNewYork : Z → Z := stepZone (dateUTC 2026 2 8 7 0 0) (-18000000) (-14400000).
Definition demo_tz : TzDatabase := λ tz,
  if bool_decide (tz = "Europe/Berlin") then Some demoBerlin
  else if bool_decide (tz = "America/New_York") then Some demoNewYork
  else if bool_decide (tz = "UTC") then Some (λ _, 0) else None.

Example berlin_morning :
  toISOString (zonedWallClockToUtc demoBerlin 2026 7 24 9 0) = "2026-07-24T07:00:00.000Z".
Proof. vm_compute. reflexivity. Qed.
Example berlin_format :
  formatLocal demoBerlin "Europe/Berlin" (dateUTC 2026 6 20 7 0 0) = "2026-07-20 09:00 (Europe/Berlin)".
Proof. vm_compute. reflexivity. Qed.

(** ** Reading a wall clock back *)

(** A wall-clock minute that exists in the calendar; years 0 to 99 are excluded
    because [Date.UTC] maps them to the 1900s. *)
Record validWall (year month day hour minute : Z) : Prop := {
  vw_year : ¬ (0 <= year <= 99);
  vw_civil : validCivil (Civil year month day);
  vw_hour : 0 <= hour < 24;
  vw_minute : 0 <= minute < 60;
}.

Lemma dateUTC_day year month day hour mi s :
  ¬ (0 <= year <= 99) → 0 <= hour < 24 → 0 <= mi < 60 → 0 <= s < 60 →
  let t := dateUTC year (month - 1) day hour mi s in
  dayOf t = makeDay year (month - 1) day ∧
  timeInDay t = hour * 3600000 + mi * 60000 + s * 1000.
Proof.
  intros Hy Hh Hm Hs. unfold dateUTC, dayOf, timeInDay, msPerDay.
  assert ((0 <=? year) && (year <=? 99) = false) as -> by lia. simpl. lia.
Qed.

(** A zone whose offsets are whole seconds, as those of the tz database are. *)
Definition wholeSeconds (off : Z → Z) : Prop := ∀ t, off t mod 1000 = 0.

Lemma tzOffsetMs_spec off t :
  ¬ (0 <= lp_year (partsOf off t) <= 99) →
  tzOffsetMs off t = off t - (t + off t) mod 1000.
Proof.
  intros Hy. unfold tzOffsetMs, partsOf in *.
  cbn [lp_year lp_month lp_day lp_hour lp_minute lp_second] in *.
  pose proof (makeDay_civilFromDay (dayOf (t + off t))) as Hd. cbn zeta in Hd.
  unfold dateUTC. case_match; [lia|]. rewrite Hd. unfold dayOf, timeInDay, msPerDay. lia.
Qed.

Lemma utcToLocal_of_wall off year month day hour minute u :
  validWall year month day hour minute →
  u + off u = dateUTC year (month - 1) day hour minute 0 →
  l_parts (utcToLocal off u) =
    {| lp_year := year; lp_month := month; lp_day := day;
       lp_hour := hour; lp_minute := minute; lp_second := 0 |}.
Proof.
  intros [Hy Hc Hh Hm] Hu. unfold utcToLocal, partsOf; cbn [l_parts]. rewrite Hu.
  destruct (dateUTC_day year month day hour minute 0) as [-> ->]; [lia..|].
  pose proof (civilFromDay_makeDay _ Hc) as E. simpl in E. rewrite E; simpl.
  f_equal; lia.
Qed.

(** The years in which [Date.UTC] does not remap the year. *)
Definition modern (off : Z → Z) (t : Z) : Prop := 100 <= lp_year (partsOf off t).

Lemma modern_of_bound off t : dayFromYear 100 * msPerDay <= t + off t → modern off t.
Proof.
  intros H. unfold modern, partsOf; cbn [lp_year].
  change (100 <= yearFromDay (dayOf (t + off t))).
  pose proof (yearFromDay_spec (dayOf (t + off t))) as [_ Hs].
  destruct (Z.le_gt_cases 100 (yearFromDay (dayOf (t + off t)))) as [|Hlt]; [done|exfalso].
  pose proof (dayFromYear_mono (yearFromDay (dayOf (t + off t)) + 1) 100 ltac:(lia)).
  unfold dayOf, msPerDay in *. lia.
Qed.

Lemma tzOffsetMs_minute off t :
  wholeSeconds off → modern off t → t mod 1000 = 0 → tzOffsetMs off t = off t.
Proof.
  intros Hw Hy Ht. unfold modern in Hy. rewrite tzOffsetMs_spec by lia.
  specialize (Hw t). lia.
Qed.

Lemma zonedWallClockToUtc_unfold off year month day hour minute :
  let naive := dateUTC year (month - 1) day hour minute 0 in
  wholeSeconds off → modern off naive → modern off (naive - off naive) →
  zonedWallClockToUtc off year month day hour minute =
    (if off (naive - off naive) =? off naive then naive - off naive
     else naive - off (naive - off naive)).
Proof.
  intros naive Hw H1 H2. unfold zonedWallClockToUtc. fold naive.
  assert (naive mod 1000 = 0) as Hn.
  { unfold naive, dateUTC, msPerDay. case_match; lia. }
  rewrite !(tzOffsetMs_minute off naive) by done.
  assert ((naive - off naive) mod 1000 = 0) as Hn' by (specialize (Hw naive); lia).
  rewrite (tzOffsetMs_minute off (naive - off naive)) by done.
  destruct (off (naive - off naive) =? off naive); done.
Qed.

(** The instants of a wall clock of year 101 or later lie after the year 100. *)
Lemma validWall_bound year month day hour minute :
  validWall year month day hour minute → 101 <= year →
  (dayFromYear 100 + 365) * msPerDay <= dateUTC year (month - 1) day hour minute 0.
Proof.
  intros [_ [Hm Hd] Hh Hmi] Hy. cbn [c_year c_month c_day] in *.
  unfold dateUTC, makeDay. case_match; [|].
  { exfalso. lia. }
  rewrite Z.div_small, (Z.mod_small (month - 1)), !Z.add_0_r by lia.
  pose proof (dayFromYear_mono 101 year Hy). change (dayFromYear 101) with (dayFromYear 100 + 365) in *.
  pose proof (monthStart_nonneg (isLeap year) (month - 1) ltac:(lia)).
  unfold msPerDay in *. lia.
Qed.

(** A zone around one transition, and a wall clock resolved in it *)
Section step_zone.
Context (T a b year month day hour minute : Z).
Let off := stepZone T a b.
Let naive := dateUTC year (month - 1) day hour minute 0.
Context (Ha : a mod 1000 = 0) (Hb : b mod 1000 = 0).
Context (Ha' : Z.abs a < msPerDay) (Hb' : Z.abs b < msPerDay).
Context (Hwall : validWall year month day hour minute) (Hyear : 101 <= year).

Lemma stepZone_wholeSeconds : wholeSeconds off.
Proof using Ha Hb. intros t. unfold off, stepZone. by case_match. Qed.

Lemma stepZone_modern t : naive - msPerDay <= t → modern off t.
Proof using All.
  intros H. apply modern_of_bound. pose proof (validWall_bound _ _ _ _ _ Hwall Hyear).
  unfold off, stepZone. fold naive in H0. unfold msPerDay in *. case_match; lia.
Qed.

Lemma step_zone_resolve :
  zonedWallClockToUtc off year month day hour minute =
    if naive <? T then (if naive - a <? T then naive - a else naive - b)
    else (if naive - b <? T then naive - a else naive - b).
Proof using All.
  rewrite zonedWallClockToUtc_unfold; fold naive.
  2: by apply stepZone_wholeSeconds.
  - unfold off, stepZone. destruct (Z.ltb_spec naive T).
    + destruct (Z.ltb_spec (naive - a) T), (Z.eqb_spec b a); rewrite ?Z.eqb_refl; lia.
    + destruct (Z.ltb_spec (naive - b) T), (Z.eqb_spec a b); rewrite ?Z.eqb_refl; lia.
  - apply stepZone_modern. unfold msPerDay. lia.
  - apply stepZone_modern. unfold off, stepZone, msPerDay in *. case_match; lia.
Qed.

(** A wall clock that some instant shows is resolved to such an instant. *)
Lemma step_zone_existing u :
  u + off u = naive →
  let r := zonedWallClockToUtc off year month day hour minute in r + off r = naive.
Proof using All.
  intros Hu. cbv zeta. rewrite step_zone_resolve. revert Hu. unfold off, stepZone.
  destruct (Z.ltb_spec u T), (Z.ltb_spec naive T), (Z.ltb_spec (naive - a) T),
    (Z.ltb_spec (naive - b) T); intros; try case_match; lia.
Qed.

(** A wall clock skipped by a spring-forward transition is resolved to the
    pre-transition side exactly when, read as UTC, it precedes the transition. *)
Lemma step_zone_gap :
  a < b → T + a <= naive < T + b →
  let r := zonedWallClockToUtc off year month day hour minute in
  (naive < T → r = naive - b ∧ r < T) ∧ (T <= naive → r = naive - a ∧ T <= r).
Proof using All.
  intros Hab Hgap. cbv zeta. rewrite step_zone_resolve.
  destruct (Z.ltb_spec naive T), (Z.ltb_spec (naive - a) T), (Z.ltb_spec (naive - b) T); lia.
Qed.
End step_zone.

(** ** Theorems *)

Lemma shown_wall_clock_reads_back T a b year month day hour minute u :
  a mod 1000 = 0 → b mod 1000 = 0 → Z.abs a < msPerDay → Z.abs b < msPerDay →
  validWall year month day hour minute → 101 <= year →
  u + stepZone T a b u = dateUTC year (month - 1) day hour minute 0 →
  l_parts (utcToLocal (stepZone T a b)
    (zonedWallClockToUtc (stepZone T a b) year month day hour minute)) =
  {| lp_year := year; lp_month := month; lp_day := day;
     lp_hour := hour; lp_minute := minute; lp_second := 0 |}.
Proof.
  intros. apply utcToLocal_of_wall; [done|]. eapply step_zone_existing; eauto.
Qed.

(** Reading a wall clock in a zone with one transition inverts its resolution:
    whenever some instant shows that wall-clock minute, [zonedWallClockToUtc]
    returns an instant at which [utcToLocal] shows exactly that minute. *)
Theorem zonedWallClock_roundtrip T a b year month day hour minute u :
  a mod 1000 = 0 → b mod 1000 = 0 → Z.abs a < msPerDay → Z.abs b < msPerDay →
  validWall year month day hour minute → 101 <= year →
  u + stepZone T a b u = dateUTC year (month - 1) day hour minute 0 →
  l_parts (utcToLocal (stepZone T a b)
    (zonedWallClockToUtc (stepZone T a b) year month day hour minute)) =
  {| lp_year := year; lp_month := month; lp_day := day;
     lp_hour := hour; lp_minute := minute; lp_second := 0 |}.
Proof.
  apply shown_wall_clock_reads_back.
Qed.

Lemma zonedWallClock_roundtrip_witness :
  l_parts (utcToLocal demoBerlin (zonedWallClockToUtc demoBerlin 2026 3 29 3 30)) =
  {| lp_year := 2026; lp_month := 3; lp_day := 29;
     lp_hour := 3; lp_minute := 30; lp_second := 0 |}.
Proof.
  apply (zonedWallClock_roundtrip (dateUTC 2026 2 29 1 0 0) 3600000 7200000 2026 3 29 3 30
           (dateUTC 2026 2 29 1 30 0)); try reflexivity; try lia.
  split; [lia|vm_compute; intuition discriminate|lia|lia].
Defined.

(** A wall clock that a spring-forward transition skips, in a zone that is not
    ahead of UTC after the transition, is resolved to an instant before the
    transition (the comment of [zonedWallClockToUtc] promises the
    post-transition instant, which holds only where the skipped hour, read as
    UTC, follows the transition). *)
Theorem zonedWallClock_gap T a b year month day hour minute :
  a mod 1000 = 0 → b mod 1000 = 0 → Z.abs a < msPerDay → Z.abs b < msPerDay →
  validWall year month day hour minute → 101 <= year →
  a < b → T + a <= dateUTC year (month - 1) day hour minute 0 < T + b →
  (b <= 0 → zonedWallClockToUtc (stepZone T a b) year month day hour minute < T) ∧
  (0 <= a → T <= zonedWallClockToUtc (stepZone T a b) year month day hour minute).
Proof.
  intros Ha Hb Ha' Hb' Hw Hy Hab Hgap.
  destruct (step_zone_gap T a b year month day hour minute) as [H1 H2]; auto.
  split; intros; [apply H1|apply H2]; lia.
Qed.

Lemma zonedWallClock_gap_witness :
  zonedWallClockToUtc demoNewYork 2026 3 8 2 30 < dateUTC 2026 2 8 7 0 0.
Proof.
  apply (zonedWallClock_gap (dateUTC 2026 2 8 7 0 0) (-18000000) (-14400000) 2026 3 8 2 30);
    try reflexivity; try lia; [|vm_compute; intuition discriminate].
  split; [lia|vm_compute; intuition discriminate|lia|lia].
Defined.
