(* ===== verification/Scheduler.v ===== *)
(** * Send-slot computation: src/domain/schedule/scheduler.ts

    [computeNextSlot] scans days and, within a day, minutes of the recipient's
    business window; [isSlotAllowed] validates an explicit instant against the
    same rules.  The inner loop advances by [minSpacingMinutes] and is modelled
    with fuel: [None] means that the fuel ran out. *)
From S2P Require Import Prelude.
From S2P Require Import JsText.
From S2P Require Import TimeZone.
Open Scope Z_scope.

Record SchedulingRules := {
  windowStartHour : Z;
  windowEndHour : Z;
  allowedWeekdays : list Z;
  minSpacingMinutes : Z;
  dailyCap : Z;
  earliestOffsetMinutes : Z;
  horizonDays : Z;
}.

Record SlotResult := { ok : bool; scheduledAtUtc : option Z; slot_reason : option string }.
Definition slotOk (at_ : Z) : SlotResult :=
  {| ok := true; scheduledAtUtc := Some at_; slot_reason := None |}.
Definition slotRefused (reason : string) : SlotResult :=
  {| ok := false; scheduledAtUtc := None; slot_reason := Some reason |}.

Section scheduler.
Context (off : Z → Z) (rules : SchedulingRules).

Definition spacingMs : Z := minSpacingMinutes rules * 60000.

(** [existing.filter(same recipient-local day).length] *)
Definition sameLocalDay (y mo dom : Z) (e : Z) : bool :=
  let l := l_parts (utcToLocal off e) in
  (lp_year l =? y) && (lp_month l =? mo) && (lp_day l =? dom).
Definition countOnDay (y mo dom : Z) (existing : list Z) : Z :=
  Z.of_nat (length (List.filter (sameLocalDay y mo dom) existing)).

Definition tooClose (candidate : Z) (existing : list Z) : bool :=
  existsb (λ e, Z.abs (candidate - e) <? spacingMs) existing.

(** The minute [mins] of a day as an instant. *)
Definition candidateAt (c : civil) (mins : Z) : Z :=
  zonedWallClockToUtc off (c_year c) (c_month c) (c_day c) (mins / 60) (mins mod 60).

(** [for (mins = start; mins < end; mins += minSpacing)] with its [continue]s *)
Fixpoint scanWindow (fuel : nat) (earliest : Z) (existing : list Z) (c : civil) (mins : Z)
    : option (option Z) :=
  match fuel with
  | O => None
  | S fuel =>
      if mins <? windowEndHour rules * 60 then
        let candidate := candidateAt c mins in
        if (candidate <? earliest) || tooClose candidate existing
        then scanWindow fuel earliest existing c (mins + minSpacingMinutes rules)
        else Some (Some candidate)
      else Some None
  end.

Definition windowFuel : nat :=
  S (Z.to_nat (windowEndHour rules * 60 - windowStartHour rules * 60)).

(** One day of the outer loop, given as the instant of its UTC midnight: skipped when its weekday is not allowed or its cap
    is reached, otherwise scanned. *)
Definition scanDay (earliest : Z) (existing : list Z) (d : Z) : option (option Z) :=
  let c := Civil (getUTCFullYear d) (getUTCMonth d + 1) (getUTCDate d) in
  if negb (bool_decide (isoWeekday d ∈ allowedWeekdays rules)) then Some None
  else if dailyCap rules <=? countOnDay (c_year c) (c_month c) (c_day c) existing
  then Some None
  else scanWindow windowFuel earliest existing c (windowStartHour rules * 60).

Fixpoint scanDays (earliest : Z) (existing : list Z) (days : list Z) : option (option Z) :=
  match days with
  | [] => Some None
  | d :: days =>
      match scanDay earliest existing d with
      | None => None
      | Some (Some at_) => Some (Some at_)
      | Some None => scanDays earliest existing days
      end
  end.

(** [max(now + offset, notBefore ?? 0)] *)
Definition earliestSend (nowMs : Z) (notBeforeMs : option Z) : Z :=
  Z.max (nowMs + earliestOffsetMinutes rules * 60000) (default 0 notBeforeMs).

(** The days scanned: the recipient-local date of [earliest] and the
    [horizonDays] days that follow it. *)
Definition scannedDays (earliest : Z) : list Z :=
  let l := l_parts (utcToLocal off earliest) in
  let base := dateUTC (lp_year l) (lp_month l - 1) (lp_day l) 0 0 0 in
  (λ dayIdx, base + dayIdx * msPerDay) <$> seqZ 0 (horizonDays rules + 1).

Definition computeNextSlot (nowMs : Z) (existing : list Z) (notBeforeMs : option Z)
    : option SlotResult :=
  let earliest := earliestSend nowMs notBeforeMs in
  match scanDays earliest existing (scannedDays earliest) with
  | None => None
  | Some (Some at_) => Some (slotOk at_)
  | Some None => Some (slotRefused "blocked")
  end.

Definition isSlotAllowed (atMs nowMs : Z) (others : list Z) : SlotResult :=
  let earliest := nowMs + earliestOffsetMinutes rules * 60000 in
  if atMs <? earliest then slotRefused "before_earliest"
  else
    let l := utcToLocal off atMs in
    let p := l_parts l in
    if negb (bool_decide (l_weekdayIso l ∈ allowedWeekdays rules))
    then slotRefused "weekday_not_allowed"
    else
      let mins := lp_hour p * 60 + lp_minute p in
      if (mins <? windowStartHour rules * 60) || (windowEndHour rules * 60 <=? mins)
      then slotRefused "outside_window"
      else if tooClose atMs others then slotRefused "too_close"
      else if dailyCap rules <=? countOnDay (lp_year p) (lp_month p) (lp_day p) others
      then slotRefused "daily_cap"
      else slotOk atMs.

(** ** The reference: the grid instants in scan order, and the test a slot must pass *)

Fixpoint grid (n : nat) (mins : Z) : list Z :=
  match n with
  | O => []
  | S n => if mins <? windowEndHour rules * 60
           then mins :: grid n (mins + minSpacingMinutes rules) else []
  end.

Definition localDate (d : Z) : civil := civilFromDay (dayOf d).

Definition dayOpen (existing : list Z) (d : Z) : bool :=
  bool_decide (isoWeekday d ∈ allowedWeekdays rules) &&
  (let c := localDate d in
   countOnDay (c_year c) (c_month c) (c_day c) existing <? dailyCap rules).

Definition slotOf (d m : Z) : Z := candidateAt (localDate d) m.

Definition free (earliest : Z) (existing : list Z) (at_ : Z) : bool :=
  (earliest <=? at_) && negb (tooClose at_ existing).

(** The qualifying slots of the scanned days, in scan order. *)
Definition qualifyingSlots (earliest : Z) (existing days : list Z) : list Z :=
  d ← List.filter (dayOpen existing) days;
  List.filter (free earliest existing)
    (slotOf d <$> grid windowFuel (windowStartHour rules * 60)).

Definition firstSlot (slots : list Z) : SlotResult :=
  match slots with [] => slotRefused "blocked" | at_ :: _ => slotOk at_ end.

(** ** The scan computes the first qualifying slot *)

#[local] Opaque zonedWallClockToUtc utcToLocal civilFromDay.

Lemma scanWindow_spec fuel earliest existing d mins :
  0 < minSpacingMinutes rules →
  Z.max 0 (windowEndHour rules * 60 - mins) < Z.of_nat fuel →
  scanWindow fuel earliest existing (localDate d) mins =
    Some (head (List.filter (free earliest existing) (slotOf d <$> grid fuel mins))).
Proof.
  intros Hsp. revert mins. induction fuel as [|fuel IH]; intros mins Hf; cbn [scanWindow grid]; [lia|].
  destruct (Z.ltb_spec mins (windowEndHour rules * 60)) as [Hlt|]; [|done].
  rewrite fmap_cons, IH by lia. cbn [List.filter]. unfold free at 2.
  rewrite (Z.ltb_antisym earliest). unfold slotOf at 2 3.
  destruct (earliest <=? _), (tooClose _ existing); reflexivity.
Qed.

Lemma scanDay_spec earliest existing d :
  0 < minSpacingMinutes rules →
  scanDay earliest existing d =
    Some (if dayOpen existing d
          then head (List.filter (free earliest existing)
                 (slotOf d <$> grid windowFuel (windowStartHour rules * 60)))
          else None).
Proof.
  intros Hsp. unfold scanDay, dayOpen.
  assert (Civil (getUTCFullYear d) (getUTCMonth d + 1) (getUTCDate d) = localDate d) as ->.
  { unfold getUTCFullYear, getUTCMonth, getUTCDate, localDate.
    destruct (civilFromDay (dayOf d)); simpl. f_equal; lia. }
  case_bool_decide; cbn [negb andb]; [|reflexivity]. rewrite Z.ltb_antisym.
  destruct (dailyCap rules <=? _); cbn [negb]; [reflexivity|].
  apply scanWindow_spec; [done|]. unfold windowFuel. lia.
Qed.

Lemma scanDays_spec earliest existing days :
  0 < minSpacingMinutes rules →
  scanDays earliest existing days = Some (head (qualifyingSlots earliest existing days)).
Proof.
  intros Hsp. unfold qualifyingSlots. induction days as [|d days IH]; [done|].
  cbn [scanDays List.filter]. rewrite scanDay_spec by done.
  destruct (dayOpen existing d); rewrite IH; [|reflexivity]. rewrite bind_cons.
  by destruct (List.filter _ (_ <$> _)).
Qed.

Lemma elem_of_grid n mins m :
  0 < minSpacingMinutes rules → m ∈ grid n mins →
  mins <= m < windowEndHour rules * 60 ∧ (m - mins) mod minSpacingMinutes rules = 0.
Proof.
  intros Hsp. revert mins. induction n as [|n IH]; intros mins; simpl; [by intros ?%elem_of_nil|].
  destruct (Z.ltb_spec mins (windowEndHour rules * 60)) as [Hlt|]; [|by intros ?%elem_of_nil].
  rewrite elem_of_cons. intros [->|Hin].
  - rewrite Z.sub_diag, Z.mod_0_l by lia. lia.
  - apply IH in Hin as [? Hm]. split; [lia|].
    replace (m - mins) with ((m - (mins + minSpacingMinutes rules)) + 1 * minSpacingMinutes rules) by lia.
    by rewrite Z.mod_add by lia.
Qed.

Lemma elem_of_qualifyingSlots earliest existing days at_ :
  at_ ∈ qualifyingSlots earliest existing days ↔
  ∃ d m, d ∈ days ∧ dayOpen existing d = true ∧
         m ∈ grid windowFuel (windowStartHour rules * 60) ∧
         at_ = slotOf d m ∧ free earliest existing at_ = true.
Proof.
  unfold qualifyingSlots. rewrite list_elem_of_bind.
  setoid_rewrite list_elem_of_In. setoid_rewrite List.filter_In.
  setoid_rewrite <-list_elem_of_In. setoid_rewrite list_elem_of_fmap. naive_solver.
Qed.

Lemma tooClose_false at_ existing :
  tooClose at_ existing = false ↔ ∀ e, e ∈ existing → spacingMs <= Z.abs (at_ - e).
Proof.
  unfold tooClose. rewrite <-not_true_iff_false, elem_of_existsb. split.
  - intros H e He. destruct (Z.le_gt_cases spacingMs (Z.abs (at_ - e))) as [|Hlt]; [done|].
    destruct H. exists e. by rewrite Z.ltb_lt.
  - intros H (e & He & Hlt%Z.ltb_lt). apply H in He. lia.
Qed.

Lemma free_spec earliest existing at_ :
  free earliest existing at_ = true ↔
  earliest <= at_ ∧ ∀ e, e ∈ existing → spacingMs <= Z.abs (at_ - e).
Proof. unfold free. by rewrite andb_true_iff, negb_true_iff, tooClose_false, Z.leb_le. Qed.
End scheduler.

(** ** Theorems *)

(** [computeNextSlot] always returns when the grid step is positive, and what
    it returns is the first slot, in scan order, of an allowed day below its cap
    that is not before the earliest instant and keeps the minimum spacing from
    every existing send; it answers "blocked" exactly when there is none. *)
Theorem computeNextSlot_first off rules nowMs existing notBefore :
  0 < minSpacingMinutes rules →
  let earliest := earliestSend rules nowMs notBefore in
  computeNextSlot off rules nowMs existing notBefore =
    Some (firstSlot (qualifyingSlots off rules earliest existing (scannedDays off rules earliest))).
Proof.
  intros Hsp earliest. unfold computeNextSlot. fold earliest.
  rewrite scanDays_spec by done. by destruct (qualifyingSlots _ _ _ _ _).
Qed.

(** The rules of the default configuration (src/config/env.ts). *)
Definition defaultRules : SchedulingRules := {|
  windowStartHour := 9; windowEndHour := 17; allowedWeekdays := [1; 2; 3; 4; 5];
  minSpacingMinutes := 30; dailyCap := 20; earliestOffsetMinutes := 60; horizonDays := 14 |}.

(** Friday 2026-07-24 16:10 in Berlin: the next slot is Monday 09:00. *)
Lemma computeNextSlot_first_witness :
  computeNextSlot demoBerlin defaultRules (dateUTC 2026 6 24 14 10 0) [] None =
    Some (slotOk (dateUTC 2026 6 27 7 0 0)).
Proof. rewrite (computeNextSlot_first demoBerlin defaultRules) by done. vm_compute. reflexivity. Defined.

(** What a chosen slot satisfies *)
Record slotRespects (off : Z → Z) (rules : SchedulingRules) (earliest : Z) (existing : list Z) (at_ : Z) : Prop := {
  sl_earliest : earliest <= at_;
  sl_spacing : ∀ e, e ∈ existing → minSpacingMinutes rules * 60000 <= Z.abs (at_ - e);
  sl_window : ∃ d mins, d ∈ scannedDays off rules earliest ∧
    at_ = candidateAt off (civilFromDay (dayOf d)) mins ∧
    windowStartHour rules * 60 <= mins < windowEndHour rules * 60 ∧
    (mins - windowStartHour rules * 60) mod minSpacingMinutes rules = 0 ∧
    isoWeekday d ∈ allowedWeekdays rules ∧
    (let c := civilFromDay (dayOf d) in
     countOnDay off (c_year c) (c_month c) (c_day c) existing < dailyCap rules);
}.
Lemma chosen_respects off rules nowMs existing notBefore at_ :
  0 < minSpacingMinutes rules →
  computeNextSlot off rules nowMs existing notBefore = Some (slotOk at_) →
  slotRespects off rules (earliestSend rules nowMs notBefore) existing at_.
Proof.
  intros Hsp. unfold computeNextSlot. rewrite scanDays_spec by done.
  destruct (qualifyingSlots _ _ _ _ _) as [|x slots] eqn:E; intros [= ->].
  assert (at_ ∈ qualifyingSlots off rules (earliestSend rules nowMs notBefore) existing
    (scannedDays off rules (earliestSend rules nowMs notBefore))) as Hin by (rewrite E; left).
  apply elem_of_qualifyingSlots in Hin as (d & m & Hd & Hopen & Hm & -> & Hfree).
  apply free_spec in Hfree as [He Hsep]. apply elem_of_grid in Hm as [Hm1 Hm2]; [|done].
  unfold dayOpen in Hopen. apply andb_true_iff in Hopen as [Hw%bool_decide_eq_true Hc%Z.ltb_lt].
  split; [done|done|]. by exists d, m.
Qed.



(** ** The two entry points agree *)

#[local] Ltac Zify.zify_post_hook ::= Z.div_mod_to_equations.

Lemma c_year_mono d d' : d <= d' → c_year (civilFromDay d) <= c_year (civilFromDay d').
Proof.
  intros Hle. change (yearFromDay d <= yearFromDay d').
  pose proof (yearFromDay_spec d) as [H1 _]. pose proof (yearFromDay_spec d') as [_ H2].
  destruct (Z.le_gt_cases (yearFromDay d) (yearFromDay d')) as [|Hgt]; [done|exfalso].
  pose proof (dayFromYear_mono (yearFromDay d' + 1) (yearFromDay d)). lia.
Qed.

Lemma dateUTC_civilFromDay n :
  101 <= c_year (civilFromDay n) →
  let c := civilFromDay n in dateUTC (c_year c) (c_month c - 1) (c_day c) 0 0 0 = n * msPerDay.
Proof.
  intros Hy. pose proof (makeDay_civilFromDay n) as Hd. cbn zeta in *.
  unfold dateUTC. case_match; [lia|]. rewrite Hd. lia.
Qed.

Lemma scannedDays_spec off rules earliest d :
  101 <= lp_year (l_parts (utcToLocal off earliest)) →
  d ∈ scannedDays off rules earliest →
  101 <= c_year (civilFromDay (dayOf d)) ∧ d = dayOf d * msPerDay.
Proof.
  intros Hy. unfold scannedDays. rewrite list_elem_of_fmap. intros (i & -> & Hi%elem_of_seqZ).
  set (n := dayOf (earliest + off earliest)).
  assert (dateUTC (lp_year (l_parts (utcToLocal off earliest)))
            (lp_month (l_parts (utcToLocal off earliest)) - 1)
            (lp_day (l_parts (utcToLocal off earliest))) 0 0 0 = n * msPerDay) as ->
    by (apply (dateUTC_civilFromDay n), Hy).
  assert (dayOf (n * msPerDay + i * msPerDay) = n + i) as ->.
  { unfold dayOf. rewrite <-Z.mul_add_distr_r. by apply Z.div_mul. }
  split; [|lia]. transitivity (c_year (civilFromDay n)); [done|]. apply c_year_mono. lia.
Qed.

(** The instant of a grid minute shows that minute again, in a zone in which no
    wall clock is skipped ([b <= a]: no transition, or one that sets clocks back). *)
Lemma candidateAt_reads_back T a b n m :
  a mod 1000 = 0 → b mod 1000 = 0 → Z.abs a < msPerDay → Z.abs b < msPerDay → b <= a →
  101 <= c_year (civilFromDay n) → 0 <= m < 1440 →
  let c := civilFromDay n in
  utcToLocal (stepZone T a b) (candidateAt (stepZone T a b) c m) =
    {| l_parts := {| lp_year := c_year c; lp_month := c_month c; lp_day := c_day c;
                     lp_hour := m / 60; lp_minute := m mod 60; lp_second := 0 |};
       l_weekdayIso := isoWeekday (n * msPerDay) |}.
Proof.
  intros Ha Hb Ha' Hb' Hab Hy Hm c.
  assert (validWall (c_year c) (c_month c) (c_day c) (m / 60) (m mod 60)) as Hw.
  { split; [unfold c; lia|apply civilFromDay_valid|lia|lia]. }
  pose proof (λ u, shown_wall_clock_reads_back T a b _ _ _ _ _ u Ha Hb Ha' Hb' Hw Hy) as Hr.
  set (naive := dateUTC (c_year c) (c_month c - 1) (c_day c) (m / 60) (m mod 60) 0) in *.
  assert (l_parts (utcToLocal (stepZone T a b) (candidateAt (stepZone T a b) c m)) =
    {| lp_year := c_year c; lp_month := c_month c; lp_day := c_day c;
       lp_hour := m / 60; lp_minute := m mod 60; lp_second := 0 |}) as Hp.
  { destruct (Z.lt_ge_cases (naive - a) T).
    - apply (Hr (naive - a)). unfold stepZone. case_match; lia.
    - apply (Hr (naive - b)). unfold stepZone. case_match; lia. }
  unfold utcToLocal in *. cbn [l_parts] in Hp. rewrite Hp.
  cbn [lp_year lp_month lp_day]. pose proof (dateUTC_civilFromDay n Hy) as Hn.
  cbv zeta in Hn. subst c. rewrite Hn. reflexivity.
Qed.

(** In a zone in which no wall clock is skipped, every slot that
    [computeNextSlot] proposes would also be accepted by [isSlotAllowed] as an
    explicit request made at the same moment, so the automatic and the manual
    path enforce the same rules. *)
Theorem computeNextSlot_allowed T a b rules nowMs existing notBefore at_ :
  a mod 1000 = 0 → b mod 1000 = 0 → Z.abs a < msPerDay → Z.abs b < msPerDay → b <= a →
  0 < minSpacingMinutes rules → 0 <= windowStartHour rules → windowEndHour rules <= 24 →
  101 <= lp_year (l_parts (utcToLocal (stepZone T a b) (earliestSend rules nowMs notBefore))) →
  computeNextSlot (stepZone T a b) rules nowMs existing notBefore = Some (slotOk at_) →
  isSlotAllowed (stepZone T a b) rules at_ nowMs existing = slotOk at_.
Proof.
  intros Ha Hb Ha' Hb' Hab Hsp Hws Hwe Hy Hslot.
  destruct (chosen_respects _ _ _ _ _ _ Hsp Hslot)
    as [He Hsep (d & m & Hd & Hat & Hm & _ & Hw & Hc)].
  destruct (scannedDays_spec _ _ _ _ Hy Hd) as [Hyd Hday].
  assert (0 <= m < 1440) as Hm' by lia.
  pose proof (candidateAt_reads_back T a b (dayOf d) m Ha Hb Ha' Hb' Hab Hyd Hm') as Hback.
  cbn zeta in *. rewrite <-Hday, <-Hat in Hback.
  assert (tooClose rules at_ existing = false) as Hclose by (apply tooClose_false, Hsep).
  unfold isSlotAllowed. unfold earliestSend in He.
  destruct (Z.ltb_spec at_ (nowMs + earliestOffsetMinutes rules * 60000)); [lia|].
  rewrite Hback. cbn [l_parts l_weekdayIso lp_year lp_month lp_day lp_hour lp_minute].
  rewrite bool_decide_eq_true_2 by done. cbn [negb].
  replace (m / 60 * 60 + m mod 60) with m by lia.
  destruct (Z.ltb_spec m (windowStartHour rules * 60)); [lia|].
  destruct (Z.leb_spec (windowEndHour rules * 60) m); [lia|]. cbn [orb].
  rewrite Hclose.
  destruct (Z.leb_spec (dailyCap rules)
    (countOnDay (stepZone T a b) (c_year (civilFromDay (dayOf d)))
       (c_month (civilFromDay (dayOf d))) (c_day (civilFromDay (dayOf d))) existing)); [lia|done].
Qed.

(** Berlin sets its clocks back on 2026-10-25; the zone around that transition. *)
Definition demoBerlinAutumn : Z → Z := stepZone (dateUTC 2026 9 25 1 0 0) 7200000 3600000.

Lemma computeNextSlot_allowed_witness :
  isSlotAllowed demoBerlinAutumn defaultRules (dateUTC 2026 9 26 8 0 0)
    (dateUTC 2026 9 23 15 10 0) [] = slotOk (dateUTC 2026 9 26 8 0 0).
Proof.
  apply (computeNextSlot_allowed (dateUTC 2026 9 25 1 0 0) 7200000 3600000 defaultRules
           (dateUTC 2026 9 23 15 10 0) [] None); try reflexivity; try lia; try done.
Defined.
