(* ===== verification/OutreachStatus.v ===== *)
(** * The outreach lifecycle

    src/domain/outreach/status.ts, state-machine.ts, sequence.ts and
    followups.ts: the statuses, the legal transitions, the four-email sequence and
    the computation of due dates. *)
From S2P Require Import Prelude.
From S2P Require Import JsText.
From S2P Require Import TimeZone.
Open Scope Z_scope.

(** ** status.ts *)

Inductive OutreachStatus :=
  | DRAFT_READY | AWAITING_APPROVAL | APPROVED_TO_SEND | INITIAL_SENT
  | FOLLOW_UP_1_DUE | FOLLOW_UP_1_SENT | FOLLOW_UP_2_DUE | FOLLOW_UP_2_SENT
  | FOLLOW_UP_3_DUE | FOLLOW_UP_3_SENT
  | REPLIED_POSITIVE | REPLIED_NEUTRAL | REPLIED_NEGATIVE
  | BOUNCED | UNSUBSCRIBED | DO_NOT_CONTACT | MEETING_BOOKED | CLOSED_WON | CLOSED_LOST.

#[global] Instance OutreachStatus_eq_dec : EqDecision OutreachStatus.
Proof. solve_decision. Defined.

Definition OUTREACH_STATUSES : list OutreachStatus :=
  [DRAFT_READY; AWAITING_APPROVAL; APPROVED_TO_SEND; INITIAL_SENT;
   FOLLOW_UP_1_DUE; FOLLOW_UP_1_SENT; FOLLOW_UP_2_DUE; FOLLOW_UP_2_SENT;
   FOLLOW_UP_3_DUE; FOLLOW_UP_3_SENT;
   REPLIED_POSITIVE; REPLIED_NEUTRAL; REPLIED_NEGATIVE;
   BOUNCED; UNSUBSCRIBED; DO_NOT_CONTACT; MEETING_BOOKED; CLOSED_WON; CLOSED_LOST].

(** The string a status is in the code, the database and the messages. *)
Definition statusText (s : OutreachStatus) : string :=
  match s with
  | DRAFT_READY => "DRAFT_READY" | AWAITING_APPROVAL => "AWAITING_APPROVAL"
  | APPROVED_TO_SEND => "APPROVED_TO_SEND" | INITIAL_SENT => "INITIAL_SENT"
  | FOLLOW_UP_1_DUE => "FOLLOW_UP_1_DUE" | FOLLOW_UP_1_SENT => "FOLLOW_UP_1_SENT"
  | FOLLOW_UP_2_DUE => "FOLLOW_UP_2_DUE" | FOLLOW_UP_2_SENT => "FOLLOW_UP_2_SENT"
  | FOLLOW_UP_3_DUE => "FOLLOW_UP_3_DUE" | FOLLOW_UP_3_SENT => "FOLLOW_UP_3_SENT"
  | REPLIED_POSITIVE => "REPLIED_POSITIVE" | REPLIED_NEUTRAL => "REPLIED_NEUTRAL"
  | REPLIED_NEGATIVE => "REPLIED_NEGATIVE" | BOUNCED => "BOUNCED"
  | UNSUBSCRIBED => "UNSUBSCRIBED" | DO_NOT_CONTACT => "DO_NOT_CONTACT"
  | MEETING_BOOKED => "MEETING_BOOKED" | CLOSED_WON => "CLOSED_WON"
  | CLOSED_LOST => "CLOSED_LOST"
  end.

Definition isOutreachStatus (value : string) : bool :=
  bool_decide (value ∈ map statusText OUTREACH_STATUSES).

Definition OUTREACH_TERMINAL : list OutreachStatus :=
  [UNSUBSCRIBED; DO_NOT_CONTACT; CLOSED_WON; CLOSED_LOST].
Definition OUTREACH_REPLY_STATUSES : list OutreachStatus :=
  [REPLIED_POSITIVE; REPLIED_NEUTRAL; REPLIED_NEGATIVE].
Definition OUTREACH_SEND_BLOCKED : list OutreachStatus :=
  [BOUNCED; UNSUBSCRIBED; DO_NOT_CONTACT; CLOSED_WON; CLOSED_LOST].
Definition OUTREACH_NO_FOLLOWUP : list OutreachStatus :=
  OUTREACH_REPLY_STATUSES ++
  [BOUNCED; UNSUBSCRIBED; DO_NOT_CONTACT; MEETING_BOOKED; CLOSED_WON; CLOSED_LOST].

(** ** state-machine.ts *)

Definition HAPPY_PATH (s : OutreachStatus) : list OutreachStatus :=
  match s with
  | DRAFT_READY => [AWAITING_APPROVAL]
  | AWAITING_APPROVAL => [APPROVED_TO_SEND; DRAFT_READY]
  | APPROVED_TO_SEND => [INITIAL_SENT]
  | INITIAL_SENT => [FOLLOW_UP_1_DUE; MEETING_BOOKED; CLOSED_LOST]
  | FOLLOW_UP_1_DUE => [FOLLOW_UP_1_SENT; MEETING_BOOKED; CLOSED_LOST]
  | FOLLOW_UP_1_SENT => [FOLLOW_UP_2_DUE; MEETING_BOOKED; CLOSED_LOST]
  | FOLLOW_UP_2_DUE => [FOLLOW_UP_2_SENT; MEETING_BOOKED; CLOSED_LOST]
  | FOLLOW_UP_2_SENT => [FOLLOW_UP_3_DUE; MEETING_BOOKED; CLOSED_LOST]
  | FOLLOW_UP_3_DUE => [FOLLOW_UP_3_SENT; MEETING_BOOKED; CLOSED_LOST]
  | FOLLOW_UP_3_SENT => [MEETING_BOOKED; CLOSED_LOST]
  | REPLIED_POSITIVE => [MEETING_BOOKED; CLOSED_WON; CLOSED_LOST]
  | REPLIED_NEUTRAL => [MEETING_BOOKED; CLOSED_WON; CLOSED_LOST]
  | REPLIED_NEGATIVE => [CLOSED_LOST]
  | BOUNCED => []
  | MEETING_BOOKED => [CLOSED_WON; CLOSED_LOST]
  | UNSUBSCRIBED | DO_NOT_CONTACT | CLOSED_WON | CLOSED_LOST => []
  end.

Definition INTERRUPTS : list OutreachStatus :=
  [REPLIED_POSITIVE; REPLIED_NEUTRAL; REPLIED_NEGATIVE; BOUNCED; UNSUBSCRIBED; DO_NOT_CONTACT].

Definition isOutreachTerminal (status : OutreachStatus) : bool :=
  bool_decide (status ∈ OUTREACH_TERMINAL).

(** The loop [for (const s of INTERRUPTS)] that extends [out]. *)
Fixpoint pushInterrupts (from : OutreachStatus) (interrupts out : list OutreachStatus) :
    list OutreachStatus :=
  match interrupts with
  | [] => out
  | s :: rest =>
      pushInterrupts from rest
        (if bool_decide (s ≠ from) && negb (bool_decide (s ∈ out)) then out ++ [s] else out)
  end.

Definition allowedOutreachTransitions (from : OutreachStatus) : list OutreachStatus :=
  let base := HAPPY_PATH from in
  if isOutreachTerminal from then base else pushInterrupts from INTERRUPTS base.

Definition canOutreachTransition (from to : OutreachStatus) : bool :=
  bool_decide (to ∈ allowedOutreachTransitions from).

Definition invalidTransition (from to : OutreachStatus) : error :=
  AppError "INVALID_OUTREACH_TRANSITION"
    ("Invalid outreach state transition: " +:+ statusText from +:+ " -> " +:+ statusText to).

Definition assertOutreachTransition (from to : OutreachStatus) : res () :=
  if negb (canOutreachTransition from to) then Throw (invalidTransition from to) else Ok tt.

Definition cancelsFollowups (status : OutreachStatus) : bool :=
  bool_decide (status ∈ OUTREACH_NO_FOLLOWUP).

(** ** sequence.ts *)

(** The type [1 | 2 | 3]; rows and arguments that are only known to be numbers
    are narrowed to it by [isFollowupStep]. *)
Inductive FollowupStep := Step1 | Step2 | Step3.
#[global] Instance FollowupStep_eq_dec : EqDecision FollowupStep.
Proof. solve_decision. Defined.

Definition stepNumber (s : FollowupStep) : Z :=
  match s with Step1 => 1 | Step2 => 2 | Step3 => 3 end.
Definition FINAL_FOLLOWUP_STEP : FollowupStep := Step3.
Definition FOLLOWUP_STEPS : list FollowupStep := [Step1; Step2; Step3].

Definition isFollowupStep (value : Z) : option FollowupStep :=
  if value =? 1 then Some Step1 else if value =? 2 then Some Step2
  else if value =? 3 then Some Step3 else None.
Definition isSequenceStep (value : Z) : bool :=
  (value =? 0) || bool_decide (is_Some (isFollowupStep value)).
Definition lessonEmailNumber (step : Z) : Z := step + 1.
Definition lessonEmailLabel (step : Z) : string :=
  if step =? 0 then "Outreach #1" else "Follow-up #" +:+ pretty (lessonEmailNumber step).

Definition followupDueStatus (step : FollowupStep) : OutreachStatus :=
  match step with
  | Step1 => FOLLOW_UP_1_DUE | Step2 => FOLLOW_UP_2_DUE | Step3 => FOLLOW_UP_3_DUE end.
Definition followupSentStatus (step : FollowupStep) : OutreachStatus :=
  match step with
  | Step1 => FOLLOW_UP_1_SENT | Step2 => FOLLOW_UP_2_SENT | Step3 => FOLLOW_UP_3_SENT end.
Definition pendingFollowupStep (status : OutreachStatus) : option FollowupStep :=
  match status with
  | FOLLOW_UP_1_DUE => Some Step1 | FOLLOW_UP_2_DUE => Some Step2
  | FOLLOW_UP_3_DUE => Some Step3 | _ => None
  end.
Definition nextFollowupStep (step : FollowupStep) : option FollowupStep :=
  if stepNumber FINAL_FOLLOWUP_STEP <=? stepNumber step then None
  else isFollowupStep (stepNumber step + 1).
Definition statusBeforeFollowupDue (step : FollowupStep) : OutreachStatus :=
  match step with
  | Step1 => INITIAL_SENT
  | Step2 => followupSentStatus Step1
  | Step3 => followupSentStatus Step2
  end.

(** ** followups.ts *)

Record SequencePolicy := {
  step1DelayDays : Z; step2DelayDays : Z; step3DelayDays : Z; dueHourLocal : Z;
}.
Definition DEFAULT_SEQUENCE_POLICY : SequencePolicy :=
  {| step1DelayDays := 2; step2DelayDays := 2; step3DelayDays := 3; dueHourLocal := 9 |}.

Definition stepDelayDays (step : FollowupStep) (policy : SequencePolicy) : Z :=
  match step with
  | Step1 => step1DelayDays policy
  | Step2 => step2DelayDays policy
  | Step3 => step3DelayDays policy
  end.

(** The computation in a zone whose offsets are known. *)
Definition followupDueIn (off : Z → Z) (previousSentAtMs : Z) (step : FollowupStep)
    (policy : SequencePolicy) : Z :=
  let delayDays := stepDelayDays step policy in
  let l := l_parts (utcToLocal off previousSentAtMs) in
  let advanced := dateUTC (lp_year l) (lp_month l - 1) (lp_day l + delayDays) 0 0 0 in
  zonedWallClockToUtc off (getUTCFullYear advanced) (getUTCMonth advanced + 1)
    (getUTCDate advanced) (dueHourLocal policy) 0.

Definition computeFollowupDueUtc `{TzDatabase} (previousSentAtMs : Z) (step : FollowupStep)
    (timezone : string) (policy : SequencePolicy) : res Z :=
  withZone timezone (λ off, followupDueIn off previousSentAtMs step policy).

Definition overdueDays (dueAtMs nowMs : Z) : Z :=
  if nowMs <=? dueAtMs then 0 else (nowMs - dueAtMs) / 86400000.
Definition isDue (dueAtMs nowMs : Z) : bool := dueAtMs <=? nowMs.

Definition followupAllowedForStatus (status : OutreachStatus) : bool :=
  negb (bool_decide (status ∈ OUTREACH_NO_FOLLOWUP)).

(** [FollowupBlockedReason]; the values are the strings of the code. *)
Definition followupBlockedReason (status : OutreachStatus) : option string :=
  match status with
  | REPLIED_POSITIVE | REPLIED_NEUTRAL | REPLIED_NEGATIVE => Some "REPLY_DETECTED"
  | BOUNCED => Some "BOUNCED"
  | UNSUBSCRIBED => Some "UNSUBSCRIBED"
  | DO_NOT_CONTACT => Some "DO_NOT_CONTACT"
  | MEETING_BOOKED => Some "MEETING_BOOKED"
  | CLOSED_WON | CLOSED_LOST => Some "CLOSED"
  | _ => None
  end.

(** ** Lemmas *)

Lemma statusText_inj : Inj (=) (=) statusText.
Proof. intros [] []; vm_compute; congruence. Qed.

Lemma isOutreachStatus_statusText s : isOutreachStatus (statusText s) = true.
Proof. destruct s; vm_compute; reflexivity. Qed.

Lemma isFollowupStep_spec n s : isFollowupStep n = Some s ↔ n = stepNumber s.
Proof.
  unfold isFollowupStep. repeat case_match; destruct s; simpl in *; split; intros; simplify_eq;
    try (done || lia).
Qed.
Lemma isFollowupStep_stepNumber s : isFollowupStep (stepNumber s) = Some s.
Proof. by apply isFollowupStep_spec. Qed.
Lemma stepNumber_inj : Inj (=) (=) stepNumber.
Proof. intros [] []; simpl; congruence. Qed.

Lemma assertOutreachTransition_ok from to u :
  assertOutreachTransition from to = Ok u ↔ canOutreachTransition from to = true.
Proof. unfold assertOutreachTransition. destruct u, (canOutreachTransition from to); naive_solver. Qed.

Lemma followupBlockedReason_allowed s :
  followupBlockedReason s = None ↔ followupAllowedForStatus s = true.
Proof. destruct s; vm_compute; naive_solver. Qed.
Lemma cancelsFollowups_blocked s :
  cancelsFollowups s = true ↔ is_Some (followupBlockedReason s).
Proof. unfold is_Some. destruct s; vm_compute; naive_solver. Qed.

(** ** The shape of the lifecycle *)

(** The one-step relation of the state machine. *)
Definition legalStep (from to : OutreachStatus) : Prop := canOutreachTransition from to = true.
(** A status at which no sequence email may go out: every reply, bounce,
    suppression, booked meeting and closed deal. *)
Definition suppressed (s : OutreachStatus) : Prop := followupAllowedForStatus s = false.
#[global] Instance suppressed_dec s : Decision (suppressed s).
Proof. unfold suppressed. solve_decision. Defined.

Lemma legalStep_suppressed from to : legalStep from to → suppressed from → suppressed to.
Proof. unfold legalStep, suppressed. destruct from, to; vm_compute; congruence. Qed.

Lemma legalStep_suppressed_rtc from to : rtc legalStep from to → suppressed from → suppressed to.
Proof. induction 1; eauto using legalStep_suppressed. Qed.

(** The rank of a status along the sequence: it never decreases on a legal step,
    except for the return from AWAITING_APPROVAL to DRAFT_READY. *)
Definition sentCount (s : OutreachStatus) : option nat :=
  match s with
  | DRAFT_READY | AWAITING_APPROVAL | APPROVED_TO_SEND => Some 0%nat
  | INITIAL_SENT | FOLLOW_UP_1_DUE => Some 1%nat
  | FOLLOW_UP_1_SENT | FOLLOW_UP_2_DUE => Some 2%nat
  | FOLLOW_UP_2_SENT | FOLLOW_UP_3_DUE => Some 3%nat
  | FOLLOW_UP_3_SENT => Some 4%nat
  | _ => None
  end.
Definition isSentStatus (s : OutreachStatus) : bool :=
  bool_decide (s ∈ [INITIAL_SENT; FOLLOW_UP_1_SENT; FOLLOW_UP_2_SENT; FOLLOW_UP_3_SENT]).

Lemma suppressed_sentCount s : suppressed s → sentCount s = None.
Proof. unfold suppressed. destruct s; vm_compute; congruence. Qed.

(** The number of [*_SENT] statuses entered along a path. *)
Definition sendsOf (path : list OutreachStatus) : nat := length (filter (λ s, isSentStatus s) path).

Inductive legalPath : OutreachStatus → list OutreachStatus → Prop :=
  | path_nil s : legalPath s []
  | path_cons s s' path : legalStep s s' → legalPath s' path → legalPath s (s' :: path).

(** A legal step enters a [*_SENT] status exactly when it increases the count. *)
Lemma legalStep_sentCount s s' :
  legalStep s s' →
  match sentCount s, sentCount s' with
  | Some n, Some n' => n' = ((if isSentStatus s' then 1 else 0) + n)%nat
  | None, Some _ => False
  | _, None => isSentStatus s' = false
  end.
Proof. unfold legalStep. destruct s, s'; vm_compute; congruence. Qed.

Lemma sentCount_max s n : sentCount s = Some n → (n <= 4)%nat.
Proof. destruct s; simpl; intros; simplify_eq; lia. Qed.

Lemma legalPath_sends s path :
  legalPath s path →
  match sentCount s with
  | Some n => (n + sendsOf path <= 4)%nat
  | None => sendsOf path = 0%nat
  end.
Proof.
  induction 1 as [s|s s' path Hstep _ IH].
  - unfold sendsOf. simpl. case_match eqn:E; [|done]. apply sentCount_max in E. lia.
  - apply legalStep_sentCount in Hstep. unfold sendsOf in *. rewrite filter_cons.
    destruct (sentCount s) eqn:E; [apply sentCount_max in E|];
      destruct (sentCount s'), (isSentStatus s') eqn:E'; simpl in *;
      try case_decide; simpl; try (done || lia || congruence).
Qed.

(** Four emails at most: along any sequence of legal transitions from a status
    that precedes the first send, at most four [*_SENT] statuses are entered,
    none of them is entered twice, and none is ever entered from a suppressed
    status. *)
Theorem at_most_four_sends s path :
  legalPath s path →
  (sendsOf path <= 4)%nat ∧
  NoDup (filter (λ s, isSentStatus s) path) ∧
  (suppressed s → sendsOf path = 0%nat ∧ Forall suppressed path).
Proof.
  intros Hp. split_and!.
  - apply legalPath_sends in Hp. destruct (sentCount s); lia.
  - induction Hp as [s|s s' path Hstep Hp IH]; [constructor|]. rewrite filter_cons.
    case_decide as Hs; [|done]. constructor; [|done].
    intros [_ Hin]%list_elem_of_filter. revert Hin. clear IH Hstep.
    assert (∀ t path, legalPath t path → s' ∈ path →
      match sentCount t, sentCount s' with
      | Some n, Some n' => (n < n')%nat | _, _ => False end) as Hgrow.
    { clear - Hs. induction 1 as [|t t' path Hst Hp IH]; [by intros []%not_elem_of_nil|].
      apply legalStep_sentCount in Hst. intros [->|Hin]%elem_of_cons.
      - rewrite Is_true_true in Hs. rewrite Hs in Hst.
        destruct t', (sentCount t); simpl in *; naive_solver lia.
      - specialize (IH Hin). destruct (sentCount t), (sentCount t'), (sentCount s'); try done.
        destruct (isSentStatus t'); lia. }
    intros Hin. specialize (Hgrow _ _ Hp Hin). destruct (sentCount s'); [lia|done].
  - intros Hsup. split.
    + apply legalPath_sends in Hp. by rewrite suppressed_sentCount in Hp.
    + induction Hp; constructor; eauto using legalStep_suppressed.
Qed.

Lemma at_most_four_sends_witness :
  (sendsOf [AWAITING_APPROVAL; APPROVED_TO_SEND; INITIAL_SENT; FOLLOW_UP_1_DUE; REPLIED_POSITIVE;
            MEETING_BOOKED] <= 4)%nat.
Proof.
  eapply (at_most_four_sends DRAFT_READY).
  repeat (apply path_cons; [reflexivity|]). apply path_nil.
Defined.
