(* ===== verification/OutreachGates.v ===== *)
(** * Decisions about a follow-up

    The pure decision functions that guard the follow-up sequence:
    [checkFollowupSendAllowed] (followup-send-gate.ts), [decideFollowupPromotion]
    (followup-due-promotion.ts), [decideFollowupPreparation]
    (followup-preparation-runner.ts) and [decideProgression]
    (followup-progression-runner.ts), all under src/domain/outreach/. *)
From S2P Require Import Prelude.
From S2P Require Import JsText.
From S2P Require Import TimeZone.
From S2P Require Import OutreachStatus.
Open Scope Z_scope.

(** ** followup-send-gate.ts *)

Record FollowupSendSnapshot := {
  ss_status : option OutreachStatus; ss_doNotContact : bool; ss_preparedStep : FollowupStep;
}.

Inductive FollowupSendDecision :=
  | SendAllowed (step : FollowupStep)
  | SendBlocked (reason detail : string).

Definition checkFollowupSendAllowed (snap : FollowupSendSnapshot) : FollowupSendDecision :=
  match ss_status snap with
  | None => SendBlocked "NO_OUTREACH_RECORD" "no outreach record for this send"
  | Some status =>
      if ss_doNotContact snap then
        SendBlocked "DO_NOT_CONTACT" "contact is marked do-not-contact"
      else
        match followupBlockedReason status with
        | Some blocked => SendBlocked blocked ("outreach record is " +:+ statusText status)
        | None =>
            match pendingFollowupStep status with
            | None =>
                SendBlocked "NOT_AWAITING_FOLLOWUP"
                  ("outreach record is " +:+ statusText status +:+
                   " and is not awaiting a follow-up")
            | Some step =>
                if negb (bool_decide (step = ss_preparedStep snap)) then
                  SendBlocked "STEP_MISMATCH"
                    ("prepared follow-up is step " +:+ pretty (stepNumber (ss_preparedStep snap)) +:+
                     " but the record awaits step " +:+ pretty (stepNumber step))
                else SendAllowed step
            end
        end
  end.

(** ** followup-due-promotion.ts *)

(** [FollowupStatus] of records.ts *)
Inductive FollowupStatus := FU_DUE | FU_CANCELLED | FU_POSTPONED | FU_SENT.
#[global] Instance FollowupStatus_eq_dec : EqDecision FollowupStatus.
Proof. solve_decision. Defined.
Definition followupStatusText (s : FollowupStatus) : string :=
  match s with
  | FU_DUE => "DUE" | FU_CANCELLED => "CANCELLED" | FU_POSTPONED => "POSTPONED" | FU_SENT => "SENT"
  end.

Record FollowupPromotionCandidateView := {
  fpc_followupId : string; fpc_outreachRecordId : string; fpc_leadId : string;
  fpc_step : Z; fpc_followupStatus : FollowupStatus; fpc_dueAtMs : Z;
  fpc_recordStatus : option OutreachStatus; fpc_doNotContact : bool;
}.

Inductive FollowupPromotionAction :=
  | PA_PROMOTE (step : FollowupStep) (from to : OutreachStatus)
  | PA_ALREADY_DUE (detail : string)
  | PA_SKIP (reason detail : string)
  | PA_BLOCKED (reason detail : string).

Definition decideFollowupPromotion (c : FollowupPromotionCandidateView) (nowMs : Z) :
    FollowupPromotionAction :=
  match isFollowupStep (fpc_step c) with
  | None => PA_SKIP "UNKNOWN_STEP" ("step " +:+ pretty (fpc_step c) +:+ " is not a follow-up step")
  | Some step =>
      if negb (bool_decide (fpc_followupStatus c = FU_DUE)) then
        PA_SKIP "FOLLOWUP_NOT_ACTIVE"
          ("follow-up row is " +:+ followupStatusText (fpc_followupStatus c) +:+ ", not DUE")
      else if nowMs <? fpc_dueAtMs c then
        PA_SKIP "NOT_YET_DUE"
          ("due at " +:+ toISOString (fpc_dueAtMs c) +:+ ", now " +:+ toISOString nowMs)
      else
        match fpc_recordStatus c with
        | None => PA_SKIP "NO_OUTREACH_RECORD" "no outreach record for this follow-up"
        | Some status =>
            if fpc_doNotContact c then
              PA_BLOCKED "DO_NOT_CONTACT" "contact is marked do-not-contact"
            else
              match followupBlockedReason status with
              | Some blocked => PA_BLOCKED blocked ("outreach record is " +:+ statusText status)
              | None =>
                  let to := followupDueStatus step in
                  if bool_decide (status = to) then
                    PA_ALREADY_DUE ("outreach record is already " +:+ statusText to)
                  else
                    let from := statusBeforeFollowupDue step in
                    if negb (bool_decide (status = from)) then
                      PA_SKIP "STATUS_MISMATCH"
                        ("step " +:+ pretty (stepNumber step) +:+ " requires the record to be " +:+
                         statusText from +:+ ", but it is " +:+ statusText status)
                    else PA_PROMOTE step from to
              end
        end
  end.

(** ** followup-preparation-runner.ts *)

Record ExistingDraft := {
  ed_id : string; ed_humanDecision : option string; ed_humanReviewedAtMs : option Z;
}.

Record FollowupCandidateView := {
  fcv_followupId : string; fcv_outreachRecordId : string; fcv_leadId : string; fcv_step : Z;
  fcv_recordStatus : option OutreachStatus; fcv_doNotContact : bool; fcv_leadStatus : string;
  fcv_existingDraft : option ExistingDraft; fcv_followupCreatedAtMs : Z;
}.

Inductive FollowupPrepareAction :=
  | FPA_COMPOSE (step : FollowupStep)
  | FPA_CANCEL_REJECTED (reason : string)
  | FPA_SKIP (reason detail : string)
  | FPA_BLOCKED (reason detail : string).

Definition rejectedAtMs (c : FollowupCandidateView) : option Z :=
  match fcv_existingDraft c with
  | Some d => if bool_decide (ed_humanDecision d = Some "REJECTED")
              then ed_humanReviewedAtMs d else None
  | None => None
  end.
Definition rejectionSupersededByReschedule (c : FollowupCandidateView) : bool :=
  match rejectedAtMs c with
  | Some at_ => at_ <? fcv_followupCreatedAtMs c
  | None => false
  end.

Definition composeIfAtReentry (c : FollowupCandidateView) (step : FollowupStep) :
    FollowupPrepareAction :=
  if negb (bool_decide (fcv_leadStatus c = "SENT")) then
    FPA_SKIP "LEAD_NOT_AT_SEQUENCE_REENTRY" ("lead is " +:+ fcv_leadStatus c +:+ ", not SENT")
  else FPA_COMPOSE step.

Definition decideFollowupPreparation (c : FollowupCandidateView) : FollowupPrepareAction :=
  match isFollowupStep (fcv_step c) with
  | None => FPA_SKIP "UNKNOWN_STEP" ("step " +:+ pretty (fcv_step c) +:+ " is not a follow-up step")
  | Some step =>
      match checkFollowupSendAllowed
        {| ss_status := fcv_recordStatus c; ss_doNotContact := fcv_doNotContact c;
           ss_preparedStep := step |} with
      | SendBlocked reason detail => FPA_BLOCKED reason detail
      | SendAllowed _ =>
          match fcv_existingDraft c with
          | Some d =>
              if negb (rejectionSupersededByReschedule c) then
                if bool_decide (ed_humanDecision d = Some "REJECTED") then
                  FPA_CANCEL_REJECTED
                    ("follow-up copy " +:+ ed_id d +:+ " was rejected in human review")
                else if bool_decide (ed_humanDecision d = Some "APPROVED") then
                  FPA_SKIP "ALREADY_PREPARED"
                    ("draft " +:+ ed_id d +:+ " is approved and progressing")
                else
                  FPA_SKIP "AWAITING_HUMAN_REVIEW"
                    ("draft " +:+ ed_id d +:+ " is waiting for a human decision")
              else composeIfAtReentry c step
          | None => composeIfAtReentry c step
          end
      end
  end.

(** ** followup-progression-runner.ts *)

Inductive ProgressionStage := FINALIZE | CREATE_GMAIL_DRAFT | SCHEDULE.
#[global] Instance ProgressionStage_eq_dec : EqDecision ProgressionStage.
Proof. solve_decision. Defined.

Record ProgressionCandidateView := {
  pcv_leadId : string; pcv_outreachRecordId : string; pcv_emailDraftId : string;
  pcv_sequenceStep : Z; pcv_leadStatus : string; pcv_humanDecision : option string;
  pcv_hasFinalization : bool; pcv_hasGmailDraft : bool; pcv_hasActiveSchedule : bool;
  pcv_recordStatus : option OutreachStatus; pcv_doNotContact : bool;
}.

Inductive ProgressionAction :=
  | PG_ADVANCE (stage : ProgressionStage) (step : FollowupStep)
  | PG_DONE (detail : string)
  | PG_SKIP (reason detail : string)
  | PG_BLOCKED (reason detail : string).

Definition decideProgression (c : ProgressionCandidateView) : ProgressionAction :=
  match isFollowupStep (pcv_sequenceStep c) with
  | None =>
      PG_SKIP "NOT_A_FOLLOWUP"
        ("sequence step " +:+ pretty (pcv_sequenceStep c) +:+ " is not a follow-up")
  | Some step =>
      if negb (bool_decide (pcv_humanDecision c = Some "APPROVED")) then
        PG_SKIP "NOT_HUMAN_APPROVED"
          ("human decision is " +:+ default "none" (pcv_humanDecision c))
      else
        match checkFollowupSendAllowed
          {| ss_status := pcv_recordStatus c; ss_doNotContact := pcv_doNotContact c;
             ss_preparedStep := step |} with
        | SendBlocked reason detail => PG_BLOCKED reason detail
        | SendAllowed _ =>
            if bool_decide (pcv_leadStatus c = "SCHEDULED") || pcv_hasActiveSchedule c then
              PG_DONE "scheduled; run-scheduled-sends owns it from here"
            else if bool_decide (pcv_leadStatus c = "HUMAN_APPROVED") then
              if negb (pcv_hasFinalization c) then PG_ADVANCE FINALIZE step
              else if negb (pcv_hasGmailDraft c) then PG_ADVANCE CREATE_GMAIL_DRAFT step
              else PG_ADVANCE CREATE_GMAIL_DRAFT step
            else if bool_decide (pcv_leadStatus c = "DRAFT_CREATED") then PG_ADVANCE SCHEDULE step
            else PG_SKIP "UNEXPECTED_LEAD_STATE" ("lead is " +:+ pcv_leadStatus c)
        end
  end.

(** ** Theorems *)

Lemma awaiting_step status step :
  followupBlockedReason status = None ∧ pendingFollowupStep status = Some step ↔
  status = followupDueStatus step.
Proof. destruct status, step; simpl; naive_solver. Qed.

Lemma promotable_step step :
  followupBlockedReason (statusBeforeFollowupDue step) = None ∧
  statusBeforeFollowupDue step ≠ followupDueStatus step ∧
  legalStep (statusBeforeFollowupDue step) (followupDueStatus step).
Proof. by destruct step. Qed.

(** The last gate before a follow-up is sent is exact: it lets step [n] pass if
    and only if the record is, now, in the status that waits for exactly step
    [n], the contact is not marked do-not-contact, and the copy was prepared for
    step [n]; everything else is blocked. *)
Lemma checkFollowupSendAllowed_iff snap step :
  checkFollowupSendAllowed snap = SendAllowed step ↔
  ss_status snap = Some (followupDueStatus step) ∧ ss_doNotContact snap = false ∧
  ss_preparedStep snap = step.
Proof.
  destruct snap as [st dnc prep]. unfold checkFollowupSendAllowed. simpl. split.
  - intros H. destruct st as [status|]; [|done]. destruct dnc; [done|].
    destruct (followupBlockedReason status) eqn:Hb; [done|].
    destruct (pendingFollowupStep status) as [s|] eqn:Hp; [|done].
    destruct (bool_decide_reflect (s = prep)); simplify_eq/=.
    by rewrite (proj1 (awaiting_step status step)).
  - intros (-> & -> & ->). destruct (proj2 (awaiting_step _ step) eq_refl) as [-> ->].
    by rewrite bool_decide_eq_true_2.
Qed.

(** Promotion is exact: a due-row decision promotes a record if and only if the
    row is an active row of a real step whose due instant has passed and the
    record, not marked do-not-contact, is in exactly the status that step must
    follow; source and destination are then one legal transition apart. *)
Lemma decideFollowupPromotion_iff c nowMs step from to :
  decideFollowupPromotion c nowMs = PA_PROMOTE step from to ↔
  fpc_step c = stepNumber step ∧ fpc_followupStatus c = FU_DUE ∧ fpc_dueAtMs c <= nowMs ∧
  fpc_doNotContact c = false ∧ fpc_recordStatus c = Some from ∧
  from = statusBeforeFollowupDue step ∧ to = followupDueStatus step ∧ legalStep from to.
Proof.
  unfold decideFollowupPromotion. split.
  - destruct (isFollowupStep (fpc_step c)) as [s|] eqn:Hs; [|done].
    apply isFollowupStep_spec in Hs.
    destruct (bool_decide_reflect (fpc_followupStatus c = FU_DUE)); [|done]. simpl.
    destruct (Z.ltb_spec nowMs (fpc_dueAtMs c)); [done|].
    destruct (fpc_recordStatus c) as [status|]; [|done].
    destruct (fpc_doNotContact c); [done|].
    destruct (followupBlockedReason status); [done|].
    case_bool_decide; [done|]. case_bool_decide; [|done]. simpl. intros. simplify_eq.
    split_and!; try done. apply promotable_step.
  - intros (Hstep & Hfu & Hdue & Hdnc & Hst & -> & -> & _).
    rewrite Hstep, isFollowupStep_stepNumber, Hfu, Hdnc, Hst. simpl.
    destruct (Z.ltb_spec nowMs (fpc_dueAtMs c)); [lia|].
    destruct (promotable_step step) as (-> & Hne & _).
    by rewrite bool_decide_eq_false_2, bool_decide_eq_true_2 by done.
Qed.

(** The human decisions under which preparation writes new copy. *)
Definition copyWanted (c : FollowupCandidateView) : Prop :=
  match fcv_existingDraft c with
  | None => True
  | Some d =>
      ed_humanDecision d = Some "REJECTED" ∧
      ∃ t, ed_humanReviewedAtMs d = Some t ∧ t < fcv_followupCreatedAtMs c
  end.

Lemma rejectionSuperseded_spec c d :
  fcv_existingDraft c = Some d →
  rejectionSupersededByReschedule c = true ↔
  ed_humanDecision d = Some "REJECTED" ∧
  ∃ t, ed_humanReviewedAtMs d = Some t ∧ t < fcv_followupCreatedAtMs c.
Proof.
  intros Hd. unfold rejectionSupersededByReschedule, rejectedAtMs. rewrite Hd.
  case_bool_decide; [|naive_solver].
  destruct (ed_humanReviewedAtMs d) as [t|]; [|naive_solver].
  rewrite Z.ltb_lt. naive_solver.
Qed.

(** Preparation composes copy for a step if and only if the send gate would let
    that step pass now, the lead is back at SENT, and there is either no draft
    for the step yet or a draft rejected at a known time strictly before this
    follow-up row was created. *)
Theorem decideFollowupPreparation_iff c step :
  decideFollowupPreparation c = FPA_COMPOSE step ↔
  fcv_step c = stepNumber step ∧ fcv_recordStatus c = Some (followupDueStatus step) ∧
  fcv_doNotContact c = false ∧ fcv_leadStatus c = "SENT" ∧ copyWanted c.
Proof.
  assert (∀ s, composeIfAtReentry c s = FPA_COMPOSE step ↔ s = step ∧ fcv_leadStatus c = "SENT")
    as Hre by (intros s; unfold composeIfAtReentry; case_bool_decide; naive_solver).
  unfold decideFollowupPreparation, copyWanted. split.
  - destruct (isFollowupStep (fcv_step c)) as [s|] eqn:Hs; [|done].
    apply isFollowupStep_spec in Hs.
    destruct (checkFollowupSendAllowed _) as [s'|] eqn:Hgate; [|done].
    apply checkFollowupSendAllowed_iff in Hgate as (Hst & Hdnc & Hp). simpl in *. subst s'.
    destruct (fcv_existingDraft c) as [d|] eqn:Hd.
    + destruct (rejectionSupersededByReschedule c) eqn:Hr; simpl.
      * apply (rejectionSuperseded_spec c d Hd) in Hr. rewrite Hre. naive_solver.
      * by repeat case_bool_decide.
    + rewrite Hre. naive_solver.
  - intros (Hstep & Hst & Hdnc & Hlead & Hcopy). rewrite Hstep, isFollowupStep_stepNumber.
    rewrite (proj2 (checkFollowupSendAllowed_iff _ step)) by done.
    destruct (fcv_existingDraft c) as [d|] eqn:Hd; [|by apply Hre].
    rewrite (proj2 (rejectionSuperseded_spec c d Hd) Hcopy). by apply Hre.
Qed.

(** Progression executes a stage for a follow-up if and only if a human has
    approved its copy, the send gate would let its step pass now, no schedule is
    active, and the stage is the one the lead's status calls for: FINALIZE then
    CREATE_GMAIL_DRAFT at HUMAN_APPROVED, SCHEDULE at DRAFT_CREATED. *)
Theorem decideProgression_iff c stage step :
  decideProgression c = PG_ADVANCE stage step ↔
  pcv_sequenceStep c = stepNumber step ∧ pcv_humanDecision c = Some "APPROVED" ∧
  pcv_recordStatus c = Some (followupDueStatus step) ∧ pcv_doNotContact c = false ∧
  pcv_hasActiveSchedule c = false ∧
  match stage with
  | FINALIZE => pcv_leadStatus c = "HUMAN_APPROVED" ∧ pcv_hasFinalization c = false
  | CREATE_GMAIL_DRAFT => pcv_leadStatus c = "HUMAN_APPROVED" ∧ pcv_hasFinalization c = true
  | SCHEDULE => pcv_leadStatus c = "DRAFT_CREATED"
  end.
Proof.
  unfold decideProgression. split.
  - destruct (isFollowupStep (pcv_sequenceStep c)) as [s|] eqn:Hs; [|done].
    apply isFollowupStep_spec in Hs. case_bool_decide; [|done]. simpl.
    destruct (checkFollowupSendAllowed _) as [s'|] eqn:Hgate; [|done].
    apply checkFollowupSendAllowed_iff in Hgate as (Hst & Hdnc & Hp). simpl in *. subst s'.
    case_bool_decide as Hsch; [done|]. destruct (pcv_hasActiveSchedule c); [done|]. simpl.
    case_bool_decide.
    + destruct (pcv_hasFinalization c), (pcv_hasGmailDraft c); intros; simplify_eq/=; done.
    + case_bool_decide; intros; by simplify_eq/=.
  - intros (Hstep & Hok & Hst & Hdnc & Hsched & Hstage).
    rewrite Hstep, isFollowupStep_stepNumber, bool_decide_eq_true_2 by done.
    rewrite (proj2 (checkFollowupSendAllowed_iff _ step)) by done. rewrite Hsched. simpl.
    destruct stage; destruct_and?; simplify_eq/=; repeat case_bool_decide; try congruence;
      by destruct (pcv_hasFinalization c), (pcv_hasGmailDraft c).
Qed.

(** A suppressed prospect stops every unattended phase: whatever the row, the
    drafts and the schedules say, a record that has replied, bounced, been
    suppressed, booked a meeting or been closed (or whose contact is marked
    do-not-contact) is never promoted, never reported as due, never composed for
    and never advanced, and the final gate blocks the send. *)
Theorem suppression_stops_every_phase s dnc c pc gc prep nowMs :
  suppressed s ∨ dnc = true →
  fpc_recordStatus c = Some s → fpc_doNotContact c = dnc →
  fcv_recordStatus pc = Some s → fcv_doNotContact pc = dnc →
  pcv_recordStatus gc = Some s → pcv_doNotContact gc = dnc →
  (∀ step from to, decideFollowupPromotion c nowMs ≠ PA_PROMOTE step from to) ∧
  (∀ detail, decideFollowupPromotion c nowMs ≠ PA_ALREADY_DUE detail) ∧
  (∀ step, decideFollowupPreparation pc ≠ FPA_COMPOSE step) ∧
  (∀ stage step, decideProgression gc ≠ PG_ADVANCE stage step) ∧
  ∃ reason detail, checkFollowupSendAllowed
    {| ss_status := Some s; ss_doNotContact := dnc; ss_preparedStep := prep |} =
    SendBlocked reason detail.
Proof.
  intros Hs Hc1 Hc2 Hp1 Hp2 Hg1 Hg2.
  assert (∀ step, ¬ (s = followupDueStatus step ∧ dnc = false)) as Hnot.
  { intros step [-> ->]. destruct Hs as [Hs|]; [|done]. by destruct step. }
  split_and!.
  - intros step from to H%decideFollowupPromotion_iff.
    destruct H as (_ & _ & _ & Hd & Hst & -> & _). rewrite Hc1 in Hst. rewrite Hd in Hc2. subst dnc.
    destruct Hs as [Hs|]; [|done]. simplify_eq. by destruct step.
  - intros detail. unfold decideFollowupPromotion. rewrite Hc1, Hc2.
    destruct (isFollowupStep _) as [step|]; [|done].
    destruct (negb _); [done|]. destruct (_ <? _); [done|].
    destruct dnc eqn:Hdnc; [done|]. destruct (followupBlockedReason s); [done|]. cbv zeta.
    case_bool_decide; [|by destruct (negb _)]. naive_solver.
  - intros step. unfold decideFollowupPreparation. destruct (isFollowupStep _) as [n|]; [|done].
    destruct (checkFollowupSendAllowed _) as [m|] eqn:H; [|done].
    apply checkFollowupSendAllowed_iff in H. exfalso. apply (Hnot m). naive_solver congruence.
  - intros stage step. unfold decideProgression. destruct (isFollowupStep _) as [n|]; [|done].
    destruct (negb _); [done|]. destruct (checkFollowupSendAllowed _) as [m|] eqn:H; [|done].
    apply checkFollowupSendAllowed_iff in H. exfalso. apply (Hnot m). naive_solver congruence.
  - destruct (checkFollowupSendAllowed _) as [step|reason detail] eqn:H; [|by eauto].
    apply checkFollowupSendAllowed_iff in H. simpl in H. exfalso. apply (Hnot step). naive_solver.
Qed.

Lemma suppression_stops_every_phase_witness :
  ∃ reason detail, checkFollowupSendAllowed
    {| ss_status := Some REPLIED_POSITIVE; ss_doNotContact := false; ss_preparedStep := Step1 |} =
    SendBlocked reason detail.
Proof.
  eapply (suppression_stops_every_phase REPLIED_POSITIVE false
    {| fpc_followupId := "f"; fpc_outreachRecordId := "r"; fpc_leadId := "l"; fpc_step := 1;
       fpc_followupStatus := FU_DUE; fpc_dueAtMs := 0; fpc_recordStatus := Some REPLIED_POSITIVE;
       fpc_doNotContact := false |}
    {| fcv_followupId := "f"; fcv_outreachRecordId := "r"; fcv_leadId := "l"; fcv_step := 1;
       fcv_recordStatus := Some REPLIED_POSITIVE; fcv_doNotContact := false;
       fcv_leadStatus := "SENT"; fcv_existingDraft := None; fcv_followupCreatedAtMs := 0 |}
    {| pcv_leadId := "l"; pcv_outreachRecordId := "r"; pcv_emailDraftId := "d";
       pcv_sequenceStep := 1; pcv_leadStatus := "DRAFT_CREATED";
       pcv_humanDecision := Some "APPROVED"; pcv_hasFinalization := true;
       pcv_hasGmailDraft := true; pcv_hasActiveSchedule := false;
       pcv_recordStatus := Some REPLIED_POSITIVE; pcv_doNotContact := false |}
    Step1 0); try reflexivity. left. reflexivity.
Defined.
