(* ===== verification/ReplyClassification.v ===== *)
(** * Inbound replies

    src/domain/outreach/reply-classification.ts and the detection step of
    reply-sync.ts.  [localeCompare] depends on the platform's collation and is a
    parameter; [Array.prototype.sort] is a stable sort. *)
From S2P Require Import Prelude.
From S2P Require Import JsText.
From S2P Require Import TimeZone.
From S2P Require Import OutreachStatus.
Open Scope Z_scope.

Class Collation := localeCompare : string → string → Z.

Inductive ReplyClassification := rc_positive | rc_neutral | rc_negative | rc_unsubscribe | rc_bounce.
#[global] Instance ReplyClassification_eq_dec : EqDecision ReplyClassification.
Proof. solve_decision. Defined.
Definition classificationText (c : ReplyClassification) : string :=
  match c with
  | rc_positive => "positive" | rc_neutral => "neutral" | rc_negative => "negative"
  | rc_unsubscribe => "unsubscribe" | rc_bounce => "bounce"
  end.

Record InboundMessageHeaders := {
  h_fromEmail : string; h_autoSubmitted : option string; h_contentType : option string;
  h_hasListUnsubscribe : bool;
}.
Record InboundMessage := {
  im_messageId : string; im_threadId : string; im_fromEmail : string; im_receivedAtMs : Z;
  im_preview : string; im_headers : InboundMessageHeaders;
}.

Definition isSelfMessage (fromEmail : string) (ownEmails : list string) : bool :=
  let from := normalizeEmail fromEmail in bool_decide (from ∈ map normalizeEmail ownEmails).

(** ** The earliest reply *)

Section replies.
Context `{Collation}.

(** [a.receivedAtMs - b.receivedAtMs || a.messageId.localeCompare(b.messageId)] *)
Definition replyOrder (a b : InboundMessage) : Z :=
  let d := im_receivedAtMs a - im_receivedAtMs b in
  if negb (d =? 0) then d else localeCompare (im_messageId a) (im_messageId b).

Definition replyCandidates (messages : list InboundMessage) (lastOutboundAtMs : Z)
    (ownEmails : list string) : list InboundMessage :=
  List.filter (λ m, negb (isSelfMessage (im_fromEmail m) ownEmails))
    (List.filter (λ m, lastOutboundAtMs <? im_receivedAtMs m) messages).

Definition firstGenuineReply (messages : list InboundMessage) (lastOutboundAtMs : Z)
    (ownEmails : list string) : option InboundMessage :=
  head (sortBy replyOrder (replyCandidates messages lastOutboundAtMs ownEmails)).
End replies.

(** ** Classification *)

Definition UNSUBSCRIBE_HINTS : list string :=
  ["unsubscribe"; "remove me"; "take me off"; "opt out"; "opt-out"; "do not contact";
   "stop emailing"; "stop contacting"; "abbestellen"; "austragen"; "kein interesse mehr"].
Definition BOUNCE_HINTS : list string :=
  ["mail delivery failed"; "delivery status notification"; "undeliverable"; "address not found";
   "user unknown"; "mailbox full"; "recipient address rejected"; "delivery has failed"].
Definition NEGATIVE_HINTS : list string :=
  ["not interested"; "no thanks"; "no thank you"; "please stop"; "we are not interested";
   "kein interesse"; "nicht interessiert"; "bitte nicht"].
Definition POSITIVE_HINTS : list string :=
  ["interested"; "sounds good"; "happy to"; "let us talk"; "let's talk"; "book a call";
   "schedule a call"; "set up a meeting"; "tell me more"; "more information"; "when can you";
   "gerne"; "interessiert"; "termin"].

Definition containsAny (haystack : string) (needles : list string) : bool :=
  let h := toLowerCase haystack in existsb (λ n, includes h n) needles.

Definition bounceSignal (message : InboundMessage) : bool :=
  let contentType := toLowerCase (default "" (h_contentType (im_headers message))) in
  let fromLocal := normalizeEmail (im_fromEmail message) in
  let looksLikeDaemon :=
    startsWith fromLocal "mailer-daemon" || startsWith fromLocal "postmaster" ||
    includes fromLocal "maildelivery" in
  includes contentType "multipart/report" || includes contentType "delivery-status" ||
  looksLikeDaemon || containsAny (im_preview message) BOUNCE_HINTS.

Definition classifyReply (message : InboundMessage) : ReplyClassification :=
  let text := im_preview message in
  if bounceSignal message then rc_bounce
  else if h_hasListUnsubscribe (im_headers message) || containsAny text UNSUBSCRIBE_HINTS
  then rc_unsubscribe
  else if containsAny text NEGATIVE_HINTS then rc_negative
  else if containsAny text POSITIVE_HINTS then rc_positive
  else rc_neutral.

Definition classificationToStatus (c : ReplyClassification) : OutreachStatus :=
  match c with
  | rc_positive => REPLIED_POSITIVE | rc_neutral => REPLIED_NEUTRAL
  | rc_negative => REPLIED_NEGATIVE | rc_bounce => BOUNCED | rc_unsubscribe => UNSUBSCRIBED
  end.

(** The character U+2026 is one code unit in the code; the code unit 133 denotes
    it here. *)
Definition ellipsis : string := String (ascii_of_nat 133) "".

Definition safePreview_max (text : string) (maxChars : nat) : string :=
  let oneLine := trim (collapse_spaces text) in
  if (String.length oneLine <=? maxChars)%nat then oneLine
  else String.substring 0 (maxChars - 1) oneLine +:+ ellipsis.
Definition safePreview (text : string) : string := safePreview_max text 280.

(** ** reply-sync.ts: detection on one thread *)

Record TrackedThread := {
  tt_outreachRecordId : string; tt_threadId : string; tt_lastOutboundAtMs : Z;
  tt_handledMessageIds : list string;
}.
Record DetectedReply := {
  dr_outreachRecordId : string; dr_threadId : string; dr_messageId : string;
  dr_fromEmail : string; dr_receivedAtMs : Z; dr_preview : string;
  dr_classification : ReplyClassification;
}.

(** [messages] is what the thread reader returned. *)
Definition detectReply `{Collation} (messages : list InboundMessage) (thread : TrackedThread)
    (ownEmails : list string) : option DetectedReply :=
  candidate ← firstGenuineReply
    (List.filter (λ m, negb (bool_decide (im_messageId m ∈ tt_handledMessageIds thread))) messages)
    (tt_lastOutboundAtMs thread) ownEmails;
  Some {| dr_outreachRecordId := tt_outreachRecordId thread; dr_threadId := tt_threadId thread;
          dr_messageId := im_messageId candidate; dr_fromEmail := im_fromEmail candidate;
          dr_receivedAtMs := im_receivedAtMs candidate; dr_preview := im_preview candidate;
          dr_classification := classifyReply candidate |}.

(** ** Lemmas *)

Lemma replyOrder_key `{Collation} a b :
  (replyOrder a b <= 0 → im_receivedAtMs a <= im_receivedAtMs b) ∧
  (0 < replyOrder a b → im_receivedAtMs b <= im_receivedAtMs a).
Proof.
  unfold replyOrder. destruct (Z.eqb_spec (im_receivedAtMs a - im_receivedAtMs b) 0); simpl; lia.
Qed.

Lemma elem_of_replyCandidates messages last own m :
  m ∈ replyCandidates messages last own ↔
  m ∈ messages ∧ last < im_receivedAtMs m ∧ isSelfMessage (im_fromEmail m) own = false.
Proof.
  unfold replyCandidates. rewrite !elem_of_List_filter, negb_true_iff, Z.ltb_lt. naive_solver.
Qed.

Lemma firstGenuineReply_spec `{Collation} messages last own :
  match firstGenuineReply messages last own with
  | None => ∀ m, m ∉ replyCandidates messages last own
  | Some r => r ∈ replyCandidates messages last own ∧
              ∀ m, m ∈ replyCandidates messages last own → im_receivedAtMs r <= im_receivedAtMs m
  end.
Proof.
  unfold firstGenuineReply. set (cs := replyCandidates messages last own).
  destruct (head (sortBy replyOrder cs)) as [r|] eqn:Hr.
  - split.
    + rewrite <-(sortBy_perm replyOrder cs).
      destruct (sortBy replyOrder cs); simplify_eq/=. left.
    + intros m. apply (sortBy_head replyOrder); [apply replyOrder_key|apply replyOrder_key|done].
  - intros m. rewrite <-(sortBy_perm replyOrder cs).
    destruct (sortBy replyOrder cs); simplify_eq/=. apply not_elem_of_nil.
Qed.

(** White space other than the blank: what a single-line preview must not hold. *)
Definition breaking_space (c : ascii) : bool := is_space c && negb (bool_decide (c = " "%char)).

Lemma string_exists_substring f n m s :
  string_exists f s = false → string_exists f (String.substring n m s) = false.
Proof.
  revert n m. induction s as [|c s IH]; intros n m; [by destruct n, m|].
  simpl. intros [Hc Hs]%orb_false_iff. destruct n, m; simpl; [done| |by apply IH|by apply IH].
  by rewrite Hc, IH.
Qed.
Lemma string_exists_trim f s : string_exists f s = false → string_exists f (trim s) = false.
Proof.
  assert (∀ s, string_exists f s = false → string_exists f (trimStart s) = false) as H1.
  { clear s. induction s as [|c s IH]; simpl; [done|]. intros [Hc Hs]%orb_false_iff.
    case_match; [by apply IH|]. simpl. by rewrite Hc, Hs. }
  assert (∀ s, string_exists f s = false → string_exists f (trimEnd s) = false) as H2.
  { clear s. induction s as [|c s IH]; simpl; [done|]. intros [Hc Hs]%orb_false_iff.
    apply IH in Hs. destruct (trimEnd s); [case_match; simpl; by rewrite ?Hc|].
    simpl in *. by rewrite Hc. }
  intros. by apply H2, H1.
Qed.
Lemma collapse_spaces_single_line r s :
  string_exists breaking_space (collapse_spaces_from r s) = false.
Proof.
  revert r. induction s as [|c s IH]; intros r; simpl; [done|].
  destruct (is_space c) eqn:Hc; [destruct r; simpl; by rewrite ?IH|].
  simpl. rewrite IH. unfold breaking_space. by rewrite Hc.
Qed.

Lemma length_substring_prefix n s : (String.length (String.substring 0 n s) <= n)%nat.
Proof. revert n. induction s as [|c s IH]; intros [|n]; simpl; try lia. specialize (IH n). lia. Qed.

(** ** Theorems *)

(** A message that reply sync may act on for a thread. *)
Definition newReply (messages : list InboundMessage) (thread : TrackedThread)
    (own : list string) (m : InboundMessage) : Prop :=
  m ∈ messages ∧ im_messageId m ∉ tt_handledMessageIds thread ∧
  tt_lastOutboundAtMs thread < im_receivedAtMs m ∧ isSelfMessage (im_fromEmail m) own = false.

Lemma elem_of_fresh `{Collation} messages thread own m :
  m ∈ replyCandidates
        (List.filter (λ m, negb (bool_decide (im_messageId m ∈ tt_handledMessageIds thread))) messages)
        (tt_lastOutboundAtMs thread) own ↔ newReply messages thread own m.
Proof.
  rewrite elem_of_replyCandidates. unfold newReply.
  rewrite elem_of_List_filter, negb_true_iff, bool_decide_eq_false. naive_solver.
Qed.
Lemma detectReply_Some `{Collation} messages thread own d :
  detectReply messages thread own = Some d →
  ∃ m, newReply messages thread own m ∧
    (∀ m', newReply messages thread own m' → im_receivedAtMs m <= im_receivedAtMs m') ∧
    d = {| dr_outreachRecordId := tt_outreachRecordId thread;
           dr_threadId := tt_threadId thread; dr_messageId := im_messageId m;
           dr_fromEmail := im_fromEmail m; dr_receivedAtMs := im_receivedAtMs m;
           dr_preview := im_preview m; dr_classification := classifyReply m |}.
Proof.
  unfold detectReply. set (fresh := List.filter _ messages).
  pose proof (firstGenuineReply_spec fresh (tt_lastOutboundAtMs thread) own) as Hfirst.
  destruct (firstGenuineReply _ _ _) as [r|]; simpl; [|done]. intros [= <-].
  destruct Hfirst as [Hr Hmin]. exists r. split_and!; [by apply elem_of_fresh| |done].
  intros m' Hm'. by apply Hmin, elem_of_fresh.
Qed.
Lemma detectReply_None `{Collation} messages thread own :
  detectReply messages thread own = None → ∀ m, ¬ newReply messages thread own m.
Proof.
  unfold detectReply. set (fresh := List.filter _ messages).
  pose proof (firstGenuineReply_spec fresh (tt_lastOutboundAtMs thread) own) as Hfirst.
  destruct (firstGenuineReply _ _ _) as [r|]; simpl; [done|].
  intros _ m Hm. by apply (Hfirst m), elem_of_fresh.
Qed.

(** Reply detection is sound, complete and earliest-first: it reports nothing
    exactly when the thread holds no unhandled inbound message after the last
    outbound one, and otherwise reports one such message, of least reception
    time, with its own deterministic classification; the account's own messages
    and handled ones are never reported. *)
Theorem detectReply_spec `{Collation} messages thread own :
  match detectReply messages thread own with
  | None => ∀ m, ¬ newReply messages thread own m
  | Some d =>
      ∃ m, newReply messages thread own m ∧
        (∀ m', newReply messages thread own m' → im_receivedAtMs m <= im_receivedAtMs m') ∧
        d = {| dr_outreachRecordId := tt_outreachRecordId thread;
               dr_threadId := tt_threadId thread; dr_messageId := im_messageId m;
               dr_fromEmail := im_fromEmail m; dr_receivedAtMs := im_receivedAtMs m;
               dr_preview := im_preview m; dr_classification := classifyReply m |}
  end.
Proof.
  destruct (detectReply messages thread own) as [d|] eqn:E;
    [by apply detectReply_Some|by apply detectReply_None].
Qed.

(** Every classified reply ends the sequence: the status it drives is one under
    which no follow-up may exist, and it is a legal transition from exactly the
    statuses that are not terminal and not already that status. *)
Theorem classification_suppresses c s :
  suppressed (classificationToStatus c) ∧
  (legalStep s (classificationToStatus c) ↔
   isOutreachTerminal s = false ∧ s ≠ classificationToStatus c).
Proof.
  unfold suppressed, legalStep.
  destruct c, s; (split; [reflexivity|split;
    [intros H; vm_compute in H; try discriminate; (split; [reflexivity|discriminate])
    |intros [H1 H2]; vm_compute in H1; try discriminate; try (by contradiction H2); reflexivity]]).
Qed.

(** A stored preview is short and on one line: it never exceeds the bound the
    caller chose, and it contains no white space but the blank. *)
Theorem safePreview_bounded text n :
  (String.length (safePreview_max text (S n)) <= S n)%nat ∧
  string_exists breaking_space (safePreview_max text (S n)) = false.
Proof.
  unfold safePreview_max. set (l := trim (collapse_spaces text)).
  assert (string_exists breaking_space l = false) as Hl
    by apply string_exists_trim, collapse_spaces_single_line.
  destruct (Nat.leb_spec (String.length l) (S n)); [done|].
  replace (S n - 1)%nat with n by lia. split.
  - rewrite length_string_app. pose proof (length_substring_prefix n l). simpl. lia.
  - rewrite string_exists_app, string_exists_substring by done. vm_compute. reflexivity.
Qed.

Example classify_examples :
  map (λ p, classifyReply {| im_messageId := "m"; im_threadId := "t"; im_fromEmail := "a@b.de";
     im_receivedAtMs := 0; im_preview := p; im_headers := {| h_fromEmail := "a@b.de";
       h_autoSubmitted := None; h_contentType := None; h_hasListUnsubscribe := false |} |})
    ["We are NOT interested"; "Sounds good, let's talk"; "Bitte austragen"; "Wer sind Sie?";
     "Undeliverable: hello"] =
  [rc_negative; rc_positive; rc_unsubscribe; rc_neutral; rc_bounce].
Proof. vm_compute. reflexivity. Qed.
