(* ===== verification/Delivery.v ===== *)
(** * Delivery Status Notifications: src/domain/outreach/delivery.ts

    Parsing of the RFC 3464 fields, classification of a failure and correlation of
    a notification with exactly one tracked outbound message.  The regular
    expressions of the code are written out as matchers. *)
From S2P Require Import Prelude.
From S2P Require Import JsText.
From S2P Require Import TimeZone.
From S2P Require Import OutreachStatus.
From S2P Require Import ReplyClassification.
Open Scope Z_scope.

Inductive DeliveryStatus := DS_DELIVERED | DS_BOUNCED | DS_DELIVERY_UNKNOWN.
#[global] Instance DeliveryStatus_eq_dec : EqDecision DeliveryStatus.
Proof. solve_decision. Defined.
Inductive DeliveryPermanence := PERMANENT | TEMPORARY | UNKNOWN.
#[global] Instance DeliveryPermanence_eq_dec : EqDecision DeliveryPermanence.
Proof. solve_decision. Defined.
Definition deliveryStatusText (s : DeliveryStatus) : string :=
  match s with
  | DS_DELIVERED => "DELIVERED" | DS_BOUNCED => "BOUNCED"
  | DS_DELIVERY_UNKNOWN => "DELIVERY_UNKNOWN"
  end.

Record ParsedDsn := {
  dsn_gmailMessageId : string; dsn_gmailThreadId : string; dsn_receivedAtMs : Z;
  dsn_fromEmail : string; dsn_subject : string; dsn_contentType : option string;
  dsn_finalRecipient : option string; dsn_originalRecipient : option string;
  dsn_action : option string; dsn_status : option string; dsn_diagnosticCode : option string;
  dsn_xFailedRecipients : option string; dsn_referencedMessageIds : list string;
  dsn_preview : string;
}.

Record TrackedOutbound := {
  to_outreachRecordId : string; to_outreachMessageId : string; to_gmailMessageId : string;
  to_gmailThreadId : string; to_contactEmail : string; to_sentAtMs : Z;
  to_rfcMessageId : option string;
}.
#[global] Instance TrackedOutbound_eq_dec : EqDecision TrackedOutbound.
Proof. solve_decision. Defined.

Definition DSN_CLOCK_SKEW_MS : Z := 5 * 60000.
Definition DSN_RECIPIENT_WINDOW_MS : Z := 14 * 86400000.

Record RawDeliveryNotification := {
  rdn_gmailMessageId : string; rdn_gmailThreadId : string; rdn_receivedAtMs : Z;
  rdn_fromEmail : string; rdn_subject : string; rdn_contentType : option string;
  rdn_xFailedRecipients : option string; rdn_referencedMessageIds : list string;
  rdn_deliveryStatusText : option string; rdn_snippet : string;
}.

(** ** Character classes *)

Definition between (lo hi : nat) (c : ascii) : bool :=
  (lo <=? char_code c)%nat && (char_code c <=? hi)%nat.
Definition is_digit : ascii → bool := between 48 57.
Definition is_letter (c : ascii) : bool := between 65 90 c || between 97 122 c.
(** [\w], the class that [\b] separates from the rest *)
Definition is_word (c : ascii) : bool := is_letter c || is_digit c || bool_decide (c = "_"%char).
Definition is_245 (c : ascii) : bool := bool_decide (c ∈ ["2"; "4"; "5"]%char).
Definition ends_word (s : string) : bool :=
  match s with "" => true | String c _ => negb (is_word c) end.

(** The longest prefix in a class, and what follows it *)
Fixpoint span (f : ascii → bool) (s : string) : string * string :=
  match s with
  | "" => ("", "")
  | String c s' => if f c then let '(a, b) := span f s' in (String c a, b) else ("", s)
  end.

(** [\d{1,3}]: taken whole, since what follows it in the pattern is not a digit. *)
Definition digits13 (s : string) : option (string * string) :=
  let '(d, rest) := span is_digit s in
  if (1 <=? String.length d)%nat && (String.length d <=? 3)%nat then Some (d, rest) else None.
Definition dot (s : string) : option string :=
  match s with String c s' => if is_dot c then Some s' else None | "" => None end.

(** The first position at which [m] matches and which a word boundary precedes;
    [prev_word] tells whether the previous character is in [\w]. *)
Fixpoint search_word (m : string → option string) (prev_word : bool) (s : string) : option string :=
  match s with
  | "" => None
  | String c s' =>
      match (if prev_word then None else m s) with
      | Some r => Some r
      | None => search_word m (is_word c) s'
      end
  end.

(** [([245])\.\d{1,3}\.\d{1,3}\b] at the head of a string *)
Definition match_enhanced (s : string) : option string :=
  match s with
  | "" => None
  | String c s1 =>
      if is_245 c then
        s2 ← dot s1;
        '(d1, s3) ← digits13 s2;
        s4 ← dot s3;
        '(d2, s5) ← digits13 s4;
        if ends_word s5 then Some (String c ("." +:+ d1 +:+ "." +:+ d2)) else None
      else None
  end.
(** [([245]\d\d)\b] *)
Definition match_smtp (s : string) : option string :=
  match s with
  | String a (String b (String c rest)) =>
      if is_245 a && is_digit b && is_digit c && ends_word rest
      then Some (String a (String b (String c ""))) else None
  | _ => None
  end.

Definition extractEnhancedStatus (text : option string) : option string :=
  match text with
  | Some t => if truthy t then search_word match_enhanced false t else None
  | None => None
  end.
Definition extractSmtpCode (diagnostic : option string) : option string :=
  match diagnostic with
  | Some t => if truthy t then search_word match_smtp false t else None
  | None => None
  end.

(** ** Addresses *)

(** [lastIndexOf(';')] and [slice]: what follows the last semicolon *)
Fixpoint after_last_semi (s : string) : option string :=
  match s with
  | "" => None
  | String c s' =>
      match after_last_semi s' with
      | Some r => Some r
      | None => if bool_decide (c = ";"%char) then Some s' else None
      end
  end.

(** [/<([^>]+)>/]: the content of the first angle brackets that are not empty *)
Fixpoint angle (s : string) : option string :=
  match s with
  | "" => None
  | String c s' =>
      if bool_decide (c = "<"%char) then
        match span (λ c, negb (bool_decide (c = ">"%char))) s' with
        | (String a r, String _ _) => Some (String a r)
        | _ => angle s'
        end
      else angle s'
  end.

Definition normalizeDsnAddress (raw : option string) : option string :=
  match raw with
  | None => None
  | Some raw =>
      if negb (truthy raw) then None
      else
        let value := trim raw in
        let value := match after_last_semi value with Some v => trim v | None => value end in
        let value := default value (angle value) in
        let normalized := normalizeEmail value in
        if truthy normalized then Some normalized else None
  end.

(** ** The [message/delivery-status] block *)

(** [split(/\r?\n/)]; [acc] is the current line, reversed. *)
Fixpoint rev_string (s acc : string) : string :=
  match s with "" => acc | String c s' => rev_string s' (String c acc) end.
Definition cr : ascii := ascii_of_nat 13.
Definition lf : ascii := ascii_of_nat 10.
Fixpoint split_lines_from (acc s : string) : list string :=
  match s with
  | "" => [rev_string acc ""]
  | String c s' =>
      if bool_decide (c = lf) then
        let line := match acc with
                    | String a acc' => if bool_decide (a = cr) then acc' else acc
                    | "" => "" end in
        rev_string line "" :: split_lines_from "" s'
      else split_lines_from (String c acc) s'
  end.
Definition split_lines : string → list string := split_lines_from "".

(** A line [name: value]: letters and hyphens, white space, a colon, white space
    and the value, in which the dot of the pattern does not match a line end. *)
Definition match_field (line : string) : option (string * string) :=
  let '(key, s1) := span (λ c, is_letter c || bool_decide (c = "-"%char)) line in
  if negb (truthy key) then None
  else
    match trimStart s1 with
    | String c s2 =>
        if bool_decide (c = ":"%char) then
          let value := trimStart s2 in
          if string_exists (λ c, bool_decide (c = cr ∨ c = lf)) value then None
          else Some (key, value)
        else None
    | "" => None
    end.

Record DeliveryFields := {
  df_action : option string; df_status : option string; df_diagnosticCode : option string;
  df_finalRecipient : option string; df_originalRecipient : option string;
}.
Definition noFields : DeliveryFields :=
  {| df_action := None; df_status := None; df_diagnosticCode := None;
     df_finalRecipient := None; df_originalRecipient := None |}.

Definition addField (out : DeliveryFields) (line : string) : DeliveryFields :=
  match match_field (trim line) with
  | None => out
  | Some (k, v) =>
      let key := toLowerCase k in
      let value := trim v in
      if negb (truthy value) then out
      else
        let '(Build_DeliveryFields a s d f o) := out in
        if bool_decide (key = "action") then
          Build_DeliveryFields (orElse a (Some (toLowerCase value))) s d f o
        else if bool_decide (key = "status") then
          Build_DeliveryFields a (orElse s (Some value)) d f o
        else if bool_decide (key = "diagnostic-code") then
          Build_DeliveryFields a s (orElse d (Some value)) f o
        else if bool_decide (key = "final-recipient") then
          Build_DeliveryFields a s d (orElse f (normalizeDsnAddress (Some value))) o
        else if bool_decide (key = "original-recipient") then
          Build_DeliveryFields a s d f (orElse o (normalizeDsnAddress (Some value)))
        else out
  end.

Definition parseDeliveryStatus (block : option string) : DeliveryFields :=
  match block with
  | Some b => if truthy b then fold_left addField (split_lines b) noFields else noFields
  | None => noFields
  end.

Definition opt_list {A} (o : option A) : list A := match o with Some a => [a] | None => [] end.


Definition parseDsn (raw : RawDeliveryNotification) : ParsedDsn :=
  let ds := parseDeliveryStatus (rdn_deliveryStatusText raw) in
  let freeText := default "" (rdn_deliveryStatusText raw) +:+ String lf (rdn_snippet raw) in
  let status := orElse (df_status ds) (extractEnhancedStatus (Some freeText)) in
  let smtp := orElse (extractSmtpCode (df_diagnosticCode ds)) (extractSmtpCode (Some freeText)) in
  let diagnosticCode :=
    orElse (df_diagnosticCode ds)
      (if truthy_opt smtp || truthy_opt status
       then Some (trim (join " " (List.filter truthy (opt_list smtp ++ opt_list status))))
       else None) in
  {| dsn_gmailMessageId := rdn_gmailMessageId raw; dsn_gmailThreadId := rdn_gmailThreadId raw;
     dsn_receivedAtMs := rdn_receivedAtMs raw; dsn_fromEmail := normalizeEmail (rdn_fromEmail raw);
     dsn_subject := rdn_subject raw; dsn_contentType := rdn_contentType raw;
     dsn_finalRecipient :=
       orElse (df_finalRecipient ds) (normalizeDsnAddress (rdn_xFailedRecipients raw));
     dsn_originalRecipient := df_originalRecipient ds; dsn_action := df_action ds;
     dsn_status := status; dsn_diagnosticCode := diagnosticCode;
     dsn_xFailedRecipients := rdn_xFailedRecipients raw;
     dsn_referencedMessageIds :=
       uniq (List.filter truthy (map trim (rdn_referencedMessageIds raw)));
     dsn_preview := safePreview (rdn_snippet raw) |}.

(** ** Classification of a failure *)

(** [/^([245])\./.exec(status)?.[1]] *)
Definition statusClass (status : string) : option ascii :=
  match status with
  | String c (String d _) => if is_245 c && is_dot d then Some c else None
  | _ => None
  end.

Definition classifyDeliveryPermanence (status diagnosticCode action : option string) :
    DeliveryPermanence :=
  let cls := statusClass (trim (default "" status)) in
  if bool_decide (cls = Some "5"%char) then PERMANENT
  else if bool_decide (cls = Some "4"%char) then TEMPORARY
  else if bool_decide (cls = Some "2"%char) then UNKNOWN
  else
    let smtp := extractSmtpCode diagnosticCode in
    if default false ((λ s, startsWith s "5") <$> smtp) then PERMANENT
    else if default false ((λ s, startsWith s "4") <$> smtp) then TEMPORARY
    else if bool_decide (toLowerCase (default "" action) = "delayed") then TEMPORARY
    else UNKNOWN.

Definition rejectionCode (status diagnosticCode : option string) : option string :=
  let smtp := extractSmtpCode diagnosticCode in
  let status := let t := trim (default "" status) in if truthy t then Some t else None in
  let parts := List.filter truthy (opt_list smtp ++ opt_list status) in
  if (0 <? length parts)%nat then Some (join " " parts) else None.

Definition permanenceToDeliveryStatus (p : DeliveryPermanence) : DeliveryStatus :=
  match p with PERMANENT => DS_BOUNCED | _ => DS_DELIVERY_UNKNOWN end.

(** ** Is it a notification at all? *)

Definition DSN_SUBJECT_PATTERNS : list string :=
  ["delivery status notification"; "mail delivery subsystem"; "delivery incomplete";
   "undeliverable"; "returned mail"; "mail delivery failed"; "failure notice"].
Definition looksLikeDaemon (fromEmail : string) : bool :=
  let from := normalizeEmail fromEmail in
  startsWith from "mailer-daemon" || startsWith from "postmaster" ||
  includes from "maildelivery" || includes from "mail-daemon".
Definition isDeliveryNotification (fromEmail subject : string) (contentType : option string)
    (hasXFailedRecipients : bool) : bool :=
  let contentType := toLowerCase (default "" contentType) in
  if includes contentType "multipart/report" || includes contentType "delivery-status" then true
  else if looksLikeDaemon fromEmail then true
  else if hasXFailedRecipients then true
  else existsb (λ p, includes (toLowerCase subject) p) DSN_SUBJECT_PATTERNS.

(** ** Correlation *)

Inductive CorrelationSignal := RFC_MESSAGE_ID | GMAIL_MESSAGE_ID | THREAD_ID | RECIPIENT.
Inductive NoCorrelationReason := NO_SIGNAL | BEFORE_SENT | OUTSIDE_WINDOW.
Inductive CorrelationResult :=
  | Matched (outbound : TrackedOutbound) (signal : CorrelationSignal)
  | NotCorrelated (reason : NoCorrelationReason)
  | Ambiguous (matchedRecordIds : list string) (signal : CorrelationSignal).

Definition dsnIsAfterSend (receivedAtMs : Z) (o : TrackedOutbound) : bool :=
  to_sentAtMs o - DSN_CLOCK_SKEW_MS <=? receivedAtMs.

(** The values of a [Map] keyed by message id, filled with the first candidate for
    each key. *)
Fixpoint firstByMessage (seen : list string) (candidates : list TrackedOutbound) :
    list TrackedOutbound :=
  match candidates with
  | [] => []
  | o :: l =>
      if bool_decide (to_outreachMessageId o ∈ seen) then firstByMessage seen l
      else o :: firstByMessage (to_outreachMessageId o :: seen) l
  end.

Definition uniqueByMessage (candidates : list TrackedOutbound) (signal : CorrelationSignal) :
    CorrelationResult :=
  match firstByMessage [] candidates with
  | [] => NotCorrelated NO_SIGNAL
  | [only] => Matched only signal
  | _ => Ambiguous (uniq (map to_outreachRecordId candidates)) signal
  end.

Section correlate.
Context (dsn : ParsedDsn).

Definition referenced : list string :=
  List.filter truthy (map trim (dsn_referencedMessageIds dsn)).
Definition dsnThread : string := trim (dsn_gmailThreadId dsn).
Definition failedRecipients : list string :=
  List.filter truthy (opt_list (dsn_finalRecipient dsn) ++ opt_list (dsn_originalRecipient dsn) ++
                      opt_list (normalizeDsnAddress (dsn_xFailedRecipients dsn))).

Definition rfcHit (o : TrackedOutbound) : bool :=
  match to_rfcMessageId o with
  | Some id => truthy id && bool_decide (trim id ∈ referenced)
  | None => false
  end.
Definition gmailIdHit (o : TrackedOutbound) : bool :=
  (0 <? String.length (to_gmailMessageId o))%nat &&
  bool_decide (trim (to_gmailMessageId o) ∈ referenced).
Definition threadHit (o : TrackedOutbound) : bool :=
  (0 <? String.length dsnThread)%nat && bool_decide (trim (to_gmailThreadId o) = dsnThread).
Definition recipientHit (o : TrackedOutbound) : bool :=
  bool_decide (normalizeEmail (to_contactEmail o) ∈ failedRecipients).

Definition afterSend (o : TrackedOutbound) : bool := dsnIsAfterSend (dsn_receivedAtMs dsn) o.

(** The identifier tiers, strongest first *)
Definition identifierTiers : list (CorrelationSignal * (TrackedOutbound → bool)) :=
  [(RFC_MESSAGE_ID, rfcHit); (GMAIL_MESSAGE_ID, gmailIdHit); (THREAD_ID, threadHit)].

(** The loop over the tiers: the result of the first tier with a candidate whose
    send precedes the notification, or whether any tier matched at all. *)
Fixpoint tryTiers (tiers : list (CorrelationSignal * (TrackedOutbound → bool)))
    (outbounds : list TrackedOutbound) (anyIdentifierMatchIgnoringTime : bool) :
    CorrelationResult + bool :=
  match tiers with
  | [] => inr anyIdentifierMatchIgnoringTime
  | (signal, hit) :: rest =>
      let anyHit := List.filter hit outbounds in
      let flag := anyIdentifierMatchIgnoringTime || (0 <? length anyHit)%nat in
      let eligible := List.filter afterSend anyHit in
      if (0 <? length eligible)%nat then inl (uniqueByMessage eligible signal)
      else tryTiers rest outbounds flag
  end.

Definition inRecipientWindow (o : TrackedOutbound) : bool :=
  afterSend o && (dsn_receivedAtMs dsn <=? to_sentAtMs o + DSN_RECIPIENT_WINDOW_MS).

Definition correlateDsn (outbounds : list TrackedOutbound) : CorrelationResult :=
  match tryTiers identifierTiers outbounds false with
  | inl r => r
  | inr anyIdentifierMatchIgnoringTime =>
      let recipientCandidates := List.filter recipientHit outbounds in
      let inWindow := List.filter inRecipientWindow recipientCandidates in
      if (0 <? length inWindow)%nat then uniqueByMessage inWindow RECIPIENT
      else if anyIdentifierMatchIgnoringTime then NotCorrelated BEFORE_SENT
      else if (0 <? length recipientCandidates)%nat then
        let predates := existsb (λ o, negb (afterSend o)) recipientCandidates in
        NotCorrelated (if predates then BEFORE_SENT else OUTSIDE_WINDOW)
      else NotCorrelated NO_SIGNAL
  end.
End correlate.

(** ** Lemmas *)

Lemma elem_of_firstByMessage seen l o :
  o ∈ firstByMessage seen l → o ∈ l ∧ to_outreachMessageId o ∉ seen.
Proof.
  revert seen. induction l as [|x l IH]; intros seen; simpl; [by intros []%not_elem_of_nil|].
  case_bool_decide as Hx; rewrite ?elem_of_cons.
  - intros [??]%IH; auto.
  - intros [->|[H1 H2]%IH]; [auto|]. set_solver.
Qed.
Lemma firstByMessage_complete seen l o :
  o ∈ l → to_outreachMessageId o ∉ seen →
  ∃ o', o' ∈ firstByMessage seen l ∧ to_outreachMessageId o' = to_outreachMessageId o.
Proof.
  revert seen. induction l as [|x l IH]; intros seen Hin Hseen; [by apply not_elem_of_nil in Hin|].
  simpl. case_bool_decide as Hx.
  - apply elem_of_cons in Hin as [->|Hin]; [done|]. by apply IH.
  - destruct (decide (to_outreachMessageId o = to_outreachMessageId x)) as [E|E].
    { exists x. split; [by left|done]. }
    apply elem_of_cons in Hin as [->|Hin]; [done|].
    destruct (IH (to_outreachMessageId x :: seen) Hin) as (o' & ? & ?); [set_solver|].
    exists o'. split; [by right|done].
Qed.

(** What a [Matched] answer over a candidate set says: the outbound is a candidate
    and every candidate is the same message. *)
Lemma uniqueByMessage_matched l signal o signal' :
  uniqueByMessage l signal = Matched o signal' →
  signal' = signal ∧ o ∈ l ∧
  ∀ o', o' ∈ l → to_outreachMessageId o' = to_outreachMessageId o.
Proof.
  unfold uniqueByMessage. destruct (firstByMessage [] l) as [|x [|y r]] eqn:E; intros; simplify_eq.
  assert (o ∈ firstByMessage [] l) as Ho by (rewrite E; left).
  apply elem_of_firstByMessage in Ho as [Ho _]. split_and!; [done..|].
  intros o' Ho'. destruct (firstByMessage_complete [] l o' Ho') as (x & Hx & <-);
    [apply not_elem_of_nil|].
  rewrite E in Hx. by apply list_elem_of_singleton in Hx as ->.
Qed.

Lemma not_0_lt_length {A} (l : list A) : (0 <? length l)%nat = false ↔ l = [].
Proof. destruct l; simpl; [done|]. by split. Qed.

(** The hit predicate of a signal *)
Definition signalHit (dsn : ParsedDsn) (signal : CorrelationSignal) : TrackedOutbound → bool :=
  match signal with
  | RFC_MESSAGE_ID => rfcHit dsn | GMAIL_MESSAGE_ID => gmailIdHit dsn
  | THREAD_ID => threadHit dsn | RECIPIENT => recipientHit dsn
  end.
(** The time gate of a signal *)
Definition signalGate (dsn : ParsedDsn) (signal : CorrelationSignal) : TrackedOutbound → bool :=
  match signal with RECIPIENT => inRecipientWindow dsn | _ => afterSend dsn end.
Definition eligible (dsn : ParsedDsn) (signal : CorrelationSignal) (o : TrackedOutbound) : Prop :=
  signalHit dsn signal o = true ∧ signalGate dsn signal o = true.
Definition stronger (signal : CorrelationSignal) : list CorrelationSignal :=
  match signal with
  | RFC_MESSAGE_ID => [] | GMAIL_MESSAGE_ID => [RFC_MESSAGE_ID]
  | THREAD_ID => [RFC_MESSAGE_ID; GMAIL_MESSAGE_ID]
  | RECIPIENT => [RFC_MESSAGE_ID; GMAIL_MESSAGE_ID; THREAD_ID]
  end.

Definition tierOf (dsn : ParsedDsn) (signal : CorrelationSignal) (outbounds : list TrackedOutbound) :
    list TrackedOutbound :=
  List.filter (signalGate dsn signal) (List.filter (signalHit dsn signal) outbounds).

Lemma elem_of_tierOf dsn signal l o : o ∈ tierOf dsn signal l ↔ o ∈ l ∧ eligible dsn signal o.
Proof. unfold tierOf, eligible. rewrite !elem_of_List_filter. naive_solver. Qed.

(** Correlation answers from the strongest tier that has a candidate. *)
Lemma correlateDsn_tier dsn l :
  (∃ signal, correlateDsn dsn l = uniqueByMessage (tierOf dsn signal l) signal ∧
     tierOf dsn signal l ≠ [] ∧ ∀ s, s ∈ stronger signal → tierOf dsn s l = []) ∨
  ((∀ s, tierOf dsn s l = []) ∧ ∃ reason, correlateDsn dsn l = NotCorrelated reason).
Proof.
  unfold correlateDsn, identifierTiers. cbn [tryTiers].
  change (List.filter (afterSend dsn) (List.filter (rfcHit dsn) l))
    with (tierOf dsn RFC_MESSAGE_ID l).
  change (List.filter (afterSend dsn) (List.filter (gmailIdHit dsn) l))
    with (tierOf dsn GMAIL_MESSAGE_ID l).
  change (List.filter (afterSend dsn) (List.filter (threadHit dsn) l))
    with (tierOf dsn THREAD_ID l).
  change (List.filter (inRecipientWindow dsn) (List.filter (recipientHit dsn) l))
    with (tierOf dsn RECIPIENT l).
  destruct (0 <? length (tierOf dsn RFC_MESSAGE_ID l))%nat eqn:E1.
  { left. exists RFC_MESSAGE_ID. split_and!; [done| |by intros ? []%not_elem_of_nil].
    intros E%not_0_lt_length. congruence. }
  destruct (0 <? length (tierOf dsn GMAIL_MESSAGE_ID l))%nat eqn:E2.
  { left. exists GMAIL_MESSAGE_ID. apply not_0_lt_length in E1. split_and!; [done| |set_solver].
    intros E%not_0_lt_length. congruence. }
  destruct (0 <? length (tierOf dsn THREAD_ID l))%nat eqn:E3.
  { left. exists THREAD_ID. apply not_0_lt_length in E1, E2. split_and!; [done| |set_solver].
    intros E%not_0_lt_length. congruence. }
  destruct (0 <? length (tierOf dsn RECIPIENT l))%nat eqn:E4;
    apply not_0_lt_length in E1, E2, E3.
  { left. exists RECIPIENT. split_and!; [done| |set_solver].
    intros E%not_0_lt_length. congruence. }
  right. apply not_0_lt_length in E4. split; [by intros []|]. repeat case_match; eauto.
Qed.

Lemma uniqueByMessage_ambiguous l signal ids signal' :
  uniqueByMessage l signal = Ambiguous ids signal' →
  signal' = signal ∧ ∃ o1 o2, o1 ∈ l ∧ o2 ∈ l ∧
    to_outreachMessageId o1 ≠ to_outreachMessageId o2.
Proof.
  unfold uniqueByMessage. destruct (firstByMessage [] l) as [|x [|y r]] eqn:E; intros; simplify_eq.
  split; [done|]. assert (x ∈ l ∧ y ∈ l) as [Hx Hy].
  { split; apply (elem_of_firstByMessage [] l); rewrite E; [by left|by right; left]. }
  exists x, y. split_and!; [done..|]. clear Hx Hy. destruct l as [|z l]; [done|].
  simpl in E. injection E as -> E. assert (y ∈ firstByMessage [to_outreachMessageId x] l) as Hy
    by (rewrite E; left).
  apply elem_of_firstByMessage in Hy as [_ Hy]. set_solver.
Qed.
Lemma uniqueByMessage_none l signal reason :
  uniqueByMessage l signal = NotCorrelated reason → l = [].
Proof.
  unfold uniqueByMessage. destruct l as [|x l]; [done|]. simpl. by destruct (firstByMessage _ l).
Qed.

Lemma eligible_time dsn signal o :
  eligible dsn signal o →
  to_sentAtMs o - DSN_CLOCK_SKEW_MS <= dsn_receivedAtMs dsn ∧
  (signal = RECIPIENT → dsn_receivedAtMs dsn <= to_sentAtMs o + DSN_RECIPIENT_WINDOW_MS).
Proof.
  intros [_ Hg]. unfold signalGate, inRecipientWindow, afterSend, dsnIsAfterSend in Hg.
  destruct signal; rewrite ?andb_true_iff, ?Z.leb_le in Hg; split; naive_solver.
Qed.

(** ** Theorems *)

(** Correlation is exact and time-bounded: a notification is matched to an
    outbound only when, in the strongest tier with any candidate in time, every
    candidate is that one message, which the notification does not precede by more
    than five minutes (nor, on the recipient address alone, follow by more than
    fourteen days); it is ambiguous only when that tier holds two distinct
    messages; and it is left uncorrelated only when no tier has a candidate. *)
Theorem correlateDsn_exact dsn l :
  match correlateDsn dsn l with
  | Matched o signal =>
      o ∈ l ∧ eligible dsn signal o ∧
      (∀ o', o' ∈ l → eligible dsn signal o' → to_outreachMessageId o' = to_outreachMessageId o) ∧
      (∀ s o', s ∈ stronger signal → o' ∈ l → ¬ eligible dsn s o') ∧
      to_sentAtMs o - DSN_CLOCK_SKEW_MS <= dsn_receivedAtMs dsn ∧
      (signal = RECIPIENT → dsn_receivedAtMs dsn <= to_sentAtMs o + DSN_RECIPIENT_WINDOW_MS)
  | Ambiguous _ signal =>
      (∃ o1 o2, o1 ∈ l ∧ o2 ∈ l ∧ eligible dsn signal o1 ∧ eligible dsn signal o2 ∧
         to_outreachMessageId o1 ≠ to_outreachMessageId o2) ∧
      (∀ s o', s ∈ stronger signal → o' ∈ l → ¬ eligible dsn s o')
  | NotCorrelated _ => ∀ s o, o ∈ l → ¬ eligible dsn s o
  end.
Proof.
  assert (∀ s, tierOf dsn s l = [] → ∀ o, o ∈ l → ¬ eligible dsn s o) as Hnil.
  { intros s Hs o Ho Hel. apply (not_elem_of_nil o). rewrite <-Hs. by apply elem_of_tierOf. }
  destruct (correlateDsn_tier dsn l) as [(signal & -> & Hne & Hst)|(Hall & reason & ->)]; [|eauto].
  destruct (uniqueByMessage _ signal) as [o s|reason|ids s] eqn:E.
  - apply uniqueByMessage_matched in E as (-> & [Ho Hel]%elem_of_tierOf & Huniq).
    pose proof (eligible_time _ _ _ Hel) as [??].
    split_and!; [done..| | |done|done]; [|by eauto].
    intros o' Ho' Hel'. apply Huniq. by apply elem_of_tierOf.
  - by apply uniqueByMessage_none in E.
  - apply uniqueByMessage_ambiguous in E as (-> & o1 & o2 & Ho1 & Ho2 & Hne').
    apply elem_of_tierOf in Ho1 as [??], Ho2 as [??]. split; [|by eauto]. exists o1, o2. done.
Qed.

(** ** Evidence of permanence *)

Lemma search_word_match m prev s r :
  search_word m prev s = Some r → ∃ pre s', s = pre +:+ s' ∧ m s' = Some r.
Proof.
  revert prev. induction s as [|c s IH]; intros prev; simpl; [done|].
  destruct (if prev then None else m (String c s)) as [r'|] eqn:E.
  - intros [= ->]. exists "", (String c s). destruct prev; [done|]. done.
  - intros (pre & s' & -> & Hm)%IH. by exists (String c pre), s'.
Qed.

(** A three-digit code that starts with [k] and is written in [s] *)
Definition mentionsCode (k : ascii) (s : string) : Prop :=
  ∃ pre a b post, is_digit a = true ∧ is_digit b = true ∧
    s = pre +:+ String k (String a (String b post)).

Lemma extractSmtpCode_mentions diag r k :
  extractSmtpCode diag = Some r → startsWith r (String k "") = true →
  ∃ d, diag = Some d ∧ mentionsCode k d.
Proof.
  unfold extractSmtpCode. destruct diag as [d|]; [|done]. case_match; [|done].
  intros (pre & s' & -> & Hm)%search_word_match Hk. exists (pre +:+ s'). split; [done|].
  destruct s' as [|a [|b [|c rest]]]; try done. simpl in Hm.
  destruct (is_245 a), (is_digit b) eqn:Hb, (is_digit c) eqn:Hc, (ends_word rest);
    simpl in Hm; try done. simplify_eq. simpl in Hk.
  destruct (Ascii.ascii_dec k a) as [->|]; [|done]. by exists pre, b, c, rest.
Qed.

(** A record is bounced only on proof: a notification is mapped to BOUNCED only
    if its enhanced status starts with [5.], or it has no decisive enhanced status
    and its diagnostic mentions a three-digit reply code starting with 5. *)
Theorem bounced_needs_proof status diagnosticCode action :
  permanenceToDeliveryStatus (classifyDeliveryPermanence status diagnosticCode action) = DS_BOUNCED →
  (∃ s rest, status = Some s ∧ trim s = "5." +:+ rest) ∨
  (statusClass (trim (default "" status)) = None ∧
   ∃ d, diagnosticCode = Some d ∧ mentionsCode "5" d).
Proof.
  unfold classifyDeliveryPermanence. set (st := trim (default "" status)).
  destruct (bool_decide_reflect (statusClass st = Some "5"%char)) as [H5|H5].
  - intros _. left. destruct status as [s|]; [|done]. exists s. simpl in st. subst st.
    destruct (trim s) as [|c [|d rest]]; try done. simpl in H5.
    destruct (is_245 c), (is_dot d) eqn:Hd; try done. simplify_eq/=. exists rest.
    unfold is_dot in Hd. apply bool_decide_eq_true in Hd as ->. done.
  - case_bool_decide as H4; [done|]. case_bool_decide as H2; [done|]. intros Hperm. right. split.
    + destruct (statusClass st) as [c|] eqn:Hc; [|done]. exfalso.
      destruct st as [|a [|b rest]]; try done. simpl in Hc.
      destruct (is_245 a) eqn:Ha, (is_dot b); simpl in Hc; try done. simplify_eq.
      apply bool_decide_eq_true in Ha. set_solver.
    + destruct (extractSmtpCode diagnosticCode) as [r|] eqn:Hr; simpl in Hperm; [|by destruct (bool_decide _)].
      destruct (startsWith r "5") eqn:Hs; [by eapply extractSmtpCode_mentions|].
      destruct (startsWith r "4"); [done|]. by destruct (bool_decide _).
Qed.

Lemma bounced_needs_proof_witness :
  (∃ s rest, None = Some s ∧ trim s = "5." +:+ rest) ∨
  (statusClass (trim (default "" None)) = None ∧
   ∃ d, Some "smtp; 550 mailbox unavailable" = Some d ∧ mentionsCode "5" d).
Proof.
  apply (bounced_needs_proof None (Some "smtp; 550 mailbox unavailable") (Some "failed")).
  vm_compute. reflexivity.
Defined.

(** ** The recipient tier after a rejected identifier *)

Definition demo_dsn : ParsedDsn := parseDsn
  {| rdn_gmailMessageId := "dsn-1"; rdn_gmailThreadId := "t-dsn"; rdn_receivedAtMs := 1000000000;
     rdn_fromEmail := "MAILER-DAEMON@googlemail.com"; rdn_subject := "Delivery Status Notification";
     rdn_contentType := Some "multipart/report"; rdn_xFailedRecipients := None;
     rdn_referencedMessageIds := ["g-late"];
     rdn_deliveryStatusText := Some ("Final-Recipient: rfc822; Info@Praxis.de" +:+ String lf
       ("Action: failed" +:+ String lf "Status: 5.1.1"));
     rdn_snippet := "Address not found" |}.
Definition demo_outbound (id gmail email : string) (sentAt : Z) : TrackedOutbound :=
  {| to_outreachRecordId := "r-" +:+ id; to_outreachMessageId := id; to_gmailMessageId := gmail;
     to_gmailThreadId := "t-" +:+ id; to_contactEmail := email; to_sentAtMs := sentAt;
     to_rfcMessageId := None |}.

Example parse_demo :
  (dsn_finalRecipient demo_dsn, dsn_status demo_dsn, dsn_action demo_dsn) =
  (Some "info@praxis.de", Some "5.1.1", Some "failed").
Proof. vm_compute. reflexivity. Qed.

(** A recipient-only match is possible although a stronger identifier matched:
    the notification references the Gmail id of one tracked message, which the
    time gate rejects, and is then attached to another message to the failed
    address (the comments of the code restrict the recipient tier to
    notifications that no identifier matched at all). *)
Theorem recipient_tier_after_identifier :
  ∃ dsn late other,
    gmailIdHit dsn late = true ∧ gmailIdHit dsn other = false ∧ threadHit dsn other = false ∧
    rfcHit dsn other = false ∧ correlateDsn dsn [late; other] = Matched other RECIPIENT.
Proof.
  exists demo_dsn, (demo_outbound "m1" "g-late" "x@y.de" 2000000000),
    (demo_outbound "m2" "g-2" "info@praxis.de" 900000000).
  vm_compute. done.
Qed.
