(* ===== verification/OutreachStore.v ===== *)
(** * The outreach database

    The records of src/domain/outreach/records.ts and events.ts, the tables of
    src/persistence/schema.ts that hold them, and the operations of
    [OutreachTxRepository] (src/persistence/repositories/outreach.repo.ts).

    A table is a map from its primary key, or an append-only list.  Every insert
    and update checks the constraints of the table, in PostgreSQL's order (CHECK,
    unique indexes, foreign keys).  The tables the outreach code only refers to
    are the sets of their keys.  [created_at] of events is filled by the database
    and read by nothing modelled here, so it is left out, as are the widths of
    the integer columns. *)
From S2P Require Import Prelude.
From S2P Require Import JsText.
From S2P Require Import TimeZone.
From S2P Require Import OutreachStatus.
From S2P Require Import OutreachGates.
From S2P Require Import ReplyClassification.
From S2P Require Import Delivery.
Open Scope Z_scope.
Open Scope list_scope.

(** ** records.ts, events.ts *)

Record OutreachRecord := {
  or_id : string; or_campaignId : string; or_leadId : string; or_contactEmail : string;
  or_status : OutreachStatus; or_sequenceStep : Z; or_owner : option string;
  or_timezone : string; or_lastSentAt : option Z; or_nextFollowupAt : option Z;
  or_lastReplyAt : option Z; or_replyCategory : option string; or_doNotContact : bool;
  or_outcome : option string; or_notes : option string; or_createdAt : Z; or_updatedAt : Z;
}.

Inductive OutreachMessageType := INITIAL | FOLLOW_UP.
Definition messageTypeText (t : OutreachMessageType) : string :=
  match t with INITIAL => "INITIAL" | FOLLOW_UP => "FOLLOW_UP" end.

Record OutreachMessage := {
  om_id : string; om_outreachRecordId : string; om_messageType : OutreachMessageType;
  om_sequenceStep : Z; om_subject : string; om_body : string; om_contentHash : string;
  om_emailDraftId : option string; om_finalizedEmailId : option string;
  om_gmailMessageId : option string; om_gmailThreadId : option string;
  om_approvedAt : option Z; om_sentAt : option Z; om_createdAt : Z;
}.

(** The separator of the template is the character U+0000. *)
Definition nul : ascii := ascii_of_nat 0.
Definition messageContentHash `{Runtime} (subject body : string) : string :=
  sha256Hex ("subject:" +:+ subject +:+ String nul ("body:" +:+ body)).

Record OutreachReply := {
  rp_id : string; rp_outreachRecordId : string; rp_gmailThreadId : string;
  rp_gmailMessageId : string; rp_fromEmail : string; rp_receivedAt : Z;
  rp_classification : ReplyClassification; rp_preview : string;
}.

Record OutreachDeliveryEvent := {
  de_id : string; de_outreachRecordId : string; de_outreachMessageId : option string;
  de_deliveryStatus : DeliveryStatus; de_permanence : DeliveryPermanence;
  de_rejectionCode : option string; de_diagnosticText : option string;
  de_dsnStatus : option string; de_dsnAction : option string;
  de_finalRecipient : option string; de_originalRecipient : option string;
  de_bounceAt : option Z; de_originalGmailMessageId : option string;
  de_originalGmailThreadId : option string; de_dsnGmailMessageId : string;
  de_dsnGmailThreadId : option string; de_preview : string;
  de_supersededAt : option Z; de_supersededReason : option string;
  de_supersededBy : option string; de_createdAt : Z;
}.

Record OutreachFollowup := {
  fu_id : string; fu_outreachRecordId : string; fu_step : Z; fu_dueAt : Z; fu_timezone : string;
  fu_status : FollowupStatus; fu_blockedReason : option string;
  fu_cancelledReason : option string; fu_createdAt : Z; fu_updatedAt : Z;
}.

Inductive OutreachEventType :=
  | RECORD_CREATED | STATE_TRANSITION | INVALID_TRANSITION | MESSAGE_RECORDED
  | FOLLOWUP_SCHEDULED | FOLLOWUP_CANCELLED | FOLLOWUP_POSTPONED | REPLY_DETECTED
  | DO_NOT_CONTACT_SET | SHEET_SYNCED | BOUNCE_DETECTED | FOLLOWUPS_CANCELLED
  | DELIVERY_UNKNOWN | DELIVERY_RECONCILIATION_CORRECTED | NOTE.

Record NewOutreachEvent := {
  ne_outreachRecordId : string; ne_type : OutreachEventType;
  ne_fromStatus : option OutreachStatus; ne_toStatus : option OutreachStatus;
  ne_message : string; ne_data : json;
}.
Record OutreachEvent := { ev_new : NewOutreachEvent; ev_id : string; ev_seq : Z }.
Definition ev_recordId (e : OutreachEvent) : string := ne_outreachRecordId (ev_new e).

(** ** The database *)

Record OutreachDb := {
  campaignIds : gset string; leadIds : gset string;
  emailDraftIds : gset string; finalizationIds : gset string;
  records : gmap string OutreachRecord;
  messages : list OutreachMessage;
  followups : gmap string OutreachFollowup;
  replies : list OutreachReply;
  events : list OutreachEvent;
  deliveryEvents : list OutreachDeliveryEvent;
}.

Definition setRecords (f : gmap string OutreachRecord → gmap string OutreachRecord)
    (db : OutreachDb) : OutreachDb :=
  {| campaignIds := campaignIds db; leadIds := leadIds db; emailDraftIds := emailDraftIds db;
     finalizationIds := finalizationIds db; records := f (records db); messages := messages db;
     followups := followups db; replies := replies db; events := events db;
     deliveryEvents := deliveryEvents db |}.
Definition setMessages (f : list OutreachMessage → list OutreachMessage)
    (db : OutreachDb) : OutreachDb :=
  {| campaignIds := campaignIds db; leadIds := leadIds db; emailDraftIds := emailDraftIds db;
     finalizationIds := finalizationIds db; records := records db; messages := f (messages db);
     followups := followups db; replies := replies db; events := events db;
     deliveryEvents := deliveryEvents db |}.
Definition setFollowups (f : gmap string OutreachFollowup → gmap string OutreachFollowup)
    (db : OutreachDb) : OutreachDb :=
  {| campaignIds := campaignIds db; leadIds := leadIds db; emailDraftIds := emailDraftIds db;
     finalizationIds := finalizationIds db; records := records db; messages := messages db;
     followups := f (followups db); replies := replies db; events := events db;
     deliveryEvents := deliveryEvents db |}.
Definition setReplies (f : list OutreachReply → list OutreachReply)
    (db : OutreachDb) : OutreachDb :=
  {| campaignIds := campaignIds db; leadIds := leadIds db; emailDraftIds := emailDraftIds db;
     finalizationIds := finalizationIds db; records := records db; messages := messages db;
     followups := followups db; replies := f (replies db); events := events db;
     deliveryEvents := deliveryEvents db |}.
Definition setEvents (f : list OutreachEvent → list OutreachEvent)
    (db : OutreachDb) : OutreachDb :=
  {| campaignIds := campaignIds db; leadIds := leadIds db; emailDraftIds := emailDraftIds db;
     finalizationIds := finalizationIds db; records := records db; messages := messages db;
     followups := followups db; replies := replies db; events := f (events db);
     deliveryEvents := deliveryEvents db |}.
Definition setDeliveryEvents (f : list OutreachDeliveryEvent → list OutreachDeliveryEvent)
    (db : OutreachDb) : OutreachDb :=
  {| campaignIds := campaignIds db; leadIds := leadIds db; emailDraftIds := emailDraftIds db;
     finalizationIds := finalizationIds db; records := records db; messages := messages db;
     followups := followups db; replies := replies db; events := events db;
     deliveryEvents := f (deliveryEvents db) |}.

(** A database without outreach data, over given campaigns, leads and pipeline rows *)
Definition emptyDb (campaigns leads drafts finalizations : gset string) : OutreachDb :=
  {| campaignIds := campaigns; leadIds := leads; emailDraftIds := drafts;
     finalizationIds := finalizations; records := ∅; messages := []; followups := ∅;
     replies := []; events := []; deliveryEvents := [] |}.

Definition rows {A} (m : gmap string A) : list A := (map_to_list m).*2.

(** ** Patches: [Partial<OutreachRecord>] as the assignments that were made *)

Inductive RecordField :=
  | set_status (s : OutreachStatus) | set_sequenceStep (n : Z) | set_owner (o : option string)
  | set_lastSentAt (t : option Z) | set_nextFollowupAt (t : option Z)
  | set_lastReplyAt (t : option Z) | set_replyCategory (c : option string)
  | set_doNotContact (b : bool) | set_outcome (o : option string) | set_notes (n : option string).

Definition applyField (r : OutreachRecord) (f : RecordField) : OutreachRecord :=
  let '(Build_OutreachRecord id c l e st sq ow tz ls nf lr rc dnc oc nt ca ua) := r in
  match f with
  | set_status s => Build_OutreachRecord id c l e s sq ow tz ls nf lr rc dnc oc nt ca ua
  | set_sequenceStep n => Build_OutreachRecord id c l e st n ow tz ls nf lr rc dnc oc nt ca ua
  | set_owner o => Build_OutreachRecord id c l e st sq o tz ls nf lr rc dnc oc nt ca ua
  | set_lastSentAt t => Build_OutreachRecord id c l e st sq ow tz t nf lr rc dnc oc nt ca ua
  | set_nextFollowupAt t => Build_OutreachRecord id c l e st sq ow tz ls t lr rc dnc oc nt ca ua
  | set_lastReplyAt t => Build_OutreachRecord id c l e st sq ow tz ls nf t rc dnc oc nt ca ua
  | set_replyCategory k => Build_OutreachRecord id c l e st sq ow tz ls nf lr k dnc oc nt ca ua
  | set_doNotContact b => Build_OutreachRecord id c l e st sq ow tz ls nf lr rc b oc nt ca ua
  | set_outcome o => Build_OutreachRecord id c l e st sq ow tz ls nf lr rc dnc o nt ca ua
  | set_notes n => Build_OutreachRecord id c l e st sq ow tz ls nf lr rc dnc oc n ca ua
  end.

Definition touch (now : Z) (r : OutreachRecord) : OutreachRecord :=
  let '(Build_OutreachRecord id c l e st sq ow tz ls nf lr rc dnc oc nt ca _) := r in
  Build_OutreachRecord id c l e st sq ow tz ls nf lr rc dnc oc nt ca now.

(** [recordPatchToSet], and the spread [{ ...rec, ...patch, updatedAt: now }] *)
Definition recordPatchToSet (patch : list RecordField) (now : Z) (r : OutreachRecord) :
    OutreachRecord := touch now (fold_left applyField patch r).

(** ** Constraints *)

(** An index row of [outreach_records_active_uk] other than [r]'s own that has its key *)
Definition activeConflict (db : OutreachDb) (r : OutreachRecord) : bool :=
  negb (isOutreachTerminal (or_status r)) &&
  existsb (λ r', negb (bool_decide (or_id r' = or_id r)) &&
                 negb (isOutreachTerminal (or_status r')) &&
                 bool_decide ((or_campaignId r', or_leadId r', or_contactEmail r') =
                              (or_campaignId r, or_leadId r, or_contactEmail r)))
    (rows (records db)).

Definition noRecord (db : OutreachDb) (id : string) : bool :=
  negb (bool_decide (is_Some (records db !! id))).
Definition dangling (keys : gset string) (ref : option string) : bool :=
  match ref with Some id => negb (bool_decide (id ∈ keys)) | None => false end.

Definition checkInsertRecord (r : OutreachRecord) (db : OutreachDb) : option error :=
  refuse
    [(bool_decide (is_Some (records db !! or_id r)), PgError "23505" "outreach_records_pkey");
     (activeConflict db r, PgError "23505" "outreach_records_active_uk");
     (dangling (campaignIds db) (Some (or_campaignId r)),
       PgError "23503" "outreach_records_campaign_id_fkey");
     (dangling (leadIds db) (Some (or_leadId r)),
       PgError "23503" "outreach_records_lead_id_fkey")].

Definition checkUpdateRecord (id : string) (patch : list RecordField) (now : Z)
    (db : OutreachDb) : option error :=
  match records db !! id with
  | Some r =>
      refuse [(activeConflict db (recordPatchToSet patch now r),
                PgError "23505" "outreach_records_active_uk")]
  | None => None
  end.

Definition checkInsertMessage (m : OutreachMessage) (db : OutreachDb) : option error :=
  refuse
    [(existsb (λ m', bool_decide (om_id m' = om_id m)) (messages db),
       PgError "23505" "outreach_messages_pkey");
     (match om_gmailMessageId m with
      | Some g => existsb (λ m', bool_decide (om_gmailMessageId m' = Some g)) (messages db)
      | None => false end, PgError "23505" "outreach_messages_gmail_message_uk");
     (noRecord db (om_outreachRecordId m), PgError "23503" "outreach_messages_outreach_record_id_fkey");
     (dangling (emailDraftIds db) (om_emailDraftId m),
       PgError "23503" "outreach_messages_email_draft_id_fkey");
     (dangling (finalizationIds db) (om_finalizedEmailId m),
       PgError "23503" "outreach_messages_finalized_email_id_fkey")].

Definition checkInsertReply (r : OutreachReply) (db : OutreachDb) : option error :=
  refuse
    [(existsb (λ r', bool_decide (rp_id r' = rp_id r)) (replies db),
       PgError "23505" "outreach_replies_pkey");
     (existsb (λ r', bool_decide (rp_gmailMessageId r' = rp_gmailMessageId r)) (replies db),
       PgError "23505" "outreach_replies_message_uk");
     (noRecord db (rp_outreachRecordId r),
       PgError "23503" "outreach_replies_outreach_record_id_fkey")].

(** An index row of [outreach_followups_pending_uk] other than [f]'s own with its key *)
Definition pendingConflict (db : OutreachDb) (f : OutreachFollowup) : bool :=
  bool_decide (fu_status f = FU_DUE) &&
  existsb (λ f', negb (bool_decide (fu_id f' = fu_id f)) && bool_decide (fu_status f' = FU_DUE) &&
                 bool_decide ((fu_outreachRecordId f', fu_step f') =
                              (fu_outreachRecordId f, fu_step f)))
    (rows (followups db)).

Definition checkInsertFollowup (f : OutreachFollowup) (db : OutreachDb) : option error :=
  refuse
    [(negb (bool_decide (is_Some (isFollowupStep (fu_step f)))),
       PgError "23514" "outreach_followup_step_ck");
     (bool_decide (is_Some (followups db !! fu_id f)), PgError "23505" "outreach_followups_pkey");
     (pendingConflict db f, PgError "23505" "outreach_followups_pending_uk");
     (noRecord db (fu_outreachRecordId f),
       PgError "23503" "outreach_followups_outreach_record_id_fkey")].

Definition setFollowupStatus (status : FollowupStatus) (reason : option string) (now : Z)
    (f : OutreachFollowup) : OutreachFollowup :=
  {| fu_id := fu_id f; fu_outreachRecordId := fu_outreachRecordId f; fu_step := fu_step f;
     fu_dueAt := fu_dueAt f; fu_timezone := fu_timezone f; fu_status := status;
     fu_blockedReason := fu_blockedReason f; fu_cancelledReason := reason;
     fu_createdAt := fu_createdAt f; fu_updatedAt := now |}.

Definition checkUpdateFollowup (id : string) (status : FollowupStatus) (reason : option string)
    (now : Z) (db : OutreachDb) : option error :=
  match followups db !! id with
  | Some f => refuse [(pendingConflict db (setFollowupStatus status reason now f),
                        PgError "23505" "outreach_followups_pending_uk")]
  | None => None
  end.

Definition checkInsertEvent (e : OutreachEvent) (db : OutreachDb) : option error :=
  refuse
    [(existsb (λ e', bool_decide (ev_id e' = ev_id e)) (events db),
       PgError "23505" "outreach_events_pkey");
     (existsb (λ e', bool_decide ((ev_recordId e', ev_seq e') = (ev_recordId e, ev_seq e))) (events db),
       PgError "23505" "outreach_events_record_seq_uk");
     (noRecord db (ev_recordId e), PgError "23503" "outreach_events_outreach_record_id_fkey")].

Definition checkInsertDeliveryEvent (e : OutreachDeliveryEvent) (db : OutreachDb) : option error :=
  refuse
    [(existsb (λ e', bool_decide (de_id e' = de_id e)) (deliveryEvents db),
       PgError "23505" "outreach_delivery_events_pkey");
     (existsb (λ e', bool_decide (de_dsnGmailMessageId e' = de_dsnGmailMessageId e))
        (deliveryEvents db), PgError "23505" "outreach_delivery_events_dsn_uk");
     (noRecord db (de_outreachRecordId e),
       PgError "23503" "outreach_delivery_events_outreach_record_id_fkey");
     (match de_outreachMessageId e with
      | Some m => negb (existsb (λ m', bool_decide (om_id m' = m)) (messages db))
      | None => false end, PgError "23503" "outreach_delivery_events_outreach_message_id_fkey")].

(** ** [OutreachTxRepository] *)

Definition OM : Type → Type := M OutreachDb.

Definition contactBlocked (db : OutreachDb) (contactEmail : string) : bool :=
  existsb (λ r, bool_decide (or_contactEmail r = contactEmail) &&
                (or_doNotContact r ||
                 bool_decide (or_status r ∈ [DO_NOT_CONTACT; UNSUBSCRIBED])))
    (rows (records db)).
Definition isPending (recordId : string) (f : OutreachFollowup) : bool :=
  bool_decide (fu_outreachRecordId f = recordId) &&
  bool_decide (fu_status f ∈ [FU_DUE; FU_POSTPONED]).
Definition recordEvents (db : OutreachDb) (recordId : string) : list OutreachEvent :=
  List.filter (λ e, bool_decide (ev_recordId e = recordId)) (events db).
(** [COALESCE(MAX(seq), 0)] over the events of a record *)
Definition maxSeq (db : OutreachDb) (recordId : string) : Z :=
  foldr Z.max 0 (map ev_seq (recordEvents db recordId)).

Record DeliveryEventRef := {
  ref_id : string; ref_dsnGmailMessageId : string; ref_outreachRecordId : string;
  ref_deliveryStatus : DeliveryStatus; ref_supersededAt : option Z;
}.
Definition toRef (e : OutreachDeliveryEvent) : DeliveryEventRef :=
  {| ref_id := de_id e; ref_dsnGmailMessageId := de_dsnGmailMessageId e;
     ref_outreachRecordId := de_outreachRecordId e; ref_deliveryStatus := de_deliveryStatus e;
     ref_supersededAt := de_supersededAt e |}.

Definition supersede (at_ : Z) (reason by_ : string) (e : OutreachDeliveryEvent) :
    OutreachDeliveryEvent :=
  {| de_id := de_id e; de_outreachRecordId := de_outreachRecordId e;
     de_outreachMessageId := de_outreachMessageId e; de_deliveryStatus := de_deliveryStatus e;
     de_permanence := de_permanence e; de_rejectionCode := de_rejectionCode e;
     de_diagnosticText := de_diagnosticText e; de_dsnStatus := de_dsnStatus e;
     de_dsnAction := de_dsnAction e; de_finalRecipient := de_finalRecipient e;
     de_originalRecipient := de_originalRecipient e; de_bounceAt := de_bounceAt e;
     de_originalGmailMessageId := de_originalGmailMessageId e;
     de_originalGmailThreadId := de_originalGmailThreadId e;
     de_dsnGmailMessageId := de_dsnGmailMessageId e; de_dsnGmailThreadId := de_dsnGmailThreadId e;
     de_preview := de_preview e; de_supersededAt := Some at_; de_supersededReason := Some reason;
     de_supersededBy := Some by_; de_createdAt := de_createdAt e |}.
Definition supersedeIn (id : string) (at_ : Z) (reason by_ : string)
    (l : list OutreachDeliveryEvent) : list OutreachDeliveryEvent :=
  map (λ e, if bool_decide (de_id e = id ∧ de_supersededAt e = None)
            then supersede at_ reason by_ e else e) l.

Section repository.
Context `{Runtime}.

Definition getRecord (id : string) : OM (option OutreachRecord) :=
  query (λ db, records db !! id).
Definition findActiveRecord (campaignId leadId contactEmail : string) :
    OM (option OutreachRecord) :=
  query (λ db, head (List.filter (λ r,
    bool_decide ((or_campaignId r, or_leadId r, or_contactEmail r) =
                 (campaignId, leadId, contactEmail)) &&
    negb (isOutreachTerminal (or_status r))) (rows (records db)))).
Definition hasDoNotContact (contactEmail : string) : OM bool :=
  query (λ db, contactBlocked db contactEmail).
Definition insertRecord (r : OutreachRecord) : OM () :=
  guarded (checkInsertRecord r) (setRecords <[or_id r := r]>).
Definition updateRecord (id : string) (patch : list RecordField) (nowD : Z) : OM () :=
  guarded (checkUpdateRecord id patch nowD) (setRecords (alter (recordPatchToSet patch nowD) id)).
(** The compare-and-set; the row, if any, and its status are read when it runs. *)
Definition updateRecordIfStatus (id : string) (expectedStatus : OutreachStatus)
    (patch : list RecordField) (nowD : Z) : OM bool :=
  r ← getRecord id;
  if bool_decide (or_status <$> r = Some expectedStatus)
  then updateRecord id patch nowD ;; mret true
  else mret false.
Definition insertMessage (m : OutreachMessage) : OM () :=
  guarded (checkInsertMessage m) (setMessages (λ l, l ++ [m])).
Definition findMessageByGmailMessageId (gmailMessageId : string) : OM (option OutreachMessage) :=
  query (λ db, List.find (λ m, bool_decide (om_gmailMessageId m = Some gmailMessageId))
                 (messages db)).
Definition insertReply (r : OutreachReply) : OM () :=
  guarded (checkInsertReply r) (setReplies (λ l, l ++ [r])).
Definition insertFollowup (f : OutreachFollowup) : OM () :=
  guarded (checkInsertFollowup f) (setFollowups <[fu_id f := f]>).
Definition getFollowup (id : string) : OM (option OutreachFollowup) :=
  query (λ db, followups db !! id).
Definition updateFollowupStatus (id : string) (status : FollowupStatus) (reason : option string)
    (nowD : Z) : OM () :=
  guarded (checkUpdateFollowup id status reason nowD)
    (setFollowups (alter (setFollowupStatus status reason nowD) id)).
Definition pendingFollowups (recordId : string) : OM (list OutreachFollowup) :=
  query (λ db, List.filter (isPending recordId) (rows (followups db))).
Definition appendEvent (evt : NewOutreachEvent) : OM Z :=
  max ← query (λ db, maxSeq db (ne_outreachRecordId evt));
  id ← randomUUID;
  let e := {| ev_new := evt; ev_id := id; ev_seq := max + 1 |} in
  guarded (checkInsertEvent e) (setEvents (λ l, l ++ [e])) ;;
  mret (max + 1).
Definition deliveryEventExists (dsnGmailMessageId : string) : OM bool :=
  query (λ db, existsb (λ e, bool_decide (de_dsnGmailMessageId e = dsnGmailMessageId))
                 (deliveryEvents db)).
Definition insertDeliveryEvent (e : OutreachDeliveryEvent) : OM () :=
  guarded (checkInsertDeliveryEvent e) (setDeliveryEvents (λ l, l ++ [e])).
Definition deliveryEventsByDsnIds (ids : list string) : OM (list DeliveryEventRef) :=
  query (λ db, map toRef
    (List.filter (λ e, bool_decide (de_dsnGmailMessageId e ∈ ids)) (deliveryEvents db))).
Definition supersedeDeliveryEvent (id : string) (supersededAt : Z) (reason by_ : string) :
    OM () :=
  modify (setDeliveryEvents (supersedeIn id supersededAt reason by_)).
End repository.
