(* ===== verification/OutreachService.v ===== *)
(** * The outreach service: src/domain/outreach/outreach-service.ts

    Every public method of [OutreachService], as a transaction over the
    repository of OutreachStore.v. *)
From S2P Require Import Prelude.
From S2P Require Import JsText.
From S2P Require Import TimeZone.
From S2P Require Import OutreachStatus.
From S2P Require Import OutreachGates.
From S2P Require Import ReplyClassification.
From S2P Require Import Delivery.
From S2P Require Import OutreachStore.
Open Scope Z_scope.
Open Scope list_scope.

(** ** Inputs and results *)

Record TrackInput := {
  ti_campaignId : string; ti_leadId : string; ti_contactEmail : string; ti_timezone : string;
  ti_owner : option string;
}.
Inductive TrackOutcome := CREATED | DUPLICATE_ACTIVE | BLOCKED_DO_NOT_CONTACT.

Record RecordMessageInput := {
  rm_outreachRecordId : string; rm_messageType : OutreachMessageType; rm_sequenceStep : Z;
  rm_subject : string; rm_body : string; rm_emailDraftId : option string;
  rm_finalizedEmailId : option string; rm_gmailMessageId : option string;
  rm_gmailThreadId : option string; rm_approvedAt : option Z; rm_sentAt : option Z;
}.

Record ApplyReplyInput := {
  ar_outreachRecordId : string; ar_gmailThreadId : string; ar_gmailMessageId : string;
  ar_fromEmail : string; ar_receivedAtMs : Z; ar_preview : string;
  ar_classification : ReplyClassification;
}.

Record EnrollConfirmedSendInput := {
  ecs_outreachRecordId : string; ecs_subject : string; ecs_body : string;
  ecs_gmailMessageId : string; ecs_gmailThreadId : string; ecs_sentAt : Z;
  ecs_emailDraftId : option string; ecs_finalizedEmailId : option string;
  ecs_sendAttemptId : string; ecs_policy : SequencePolicy;
}.
Inductive EnrollConfirmedSendOutcome := ES_ENROLLED | ES_ALREADY_ENROLLED | ES_RECORD_NOT_ENROLLABLE.
Record EnrollConfirmedSendResult := {
  esr_outcome : EnrollConfirmedSendOutcome; esr_record : OutreachRecord;
  esr_message : option OutreachMessage; esr_followup : option OutreachFollowup;
}.

Record EnrollConfirmedFollowupInput := {
  ecf_outreachRecordId : string; ecf_expectedStep : FollowupStep; ecf_subject : string;
  ecf_body : string; ecf_gmailMessageId : string; ecf_gmailThreadId : string; ecf_sentAt : Z;
  ecf_emailDraftId : option string; ecf_finalizedEmailId : option string;
  ecf_sendAttemptId : string; ecf_policy : SequencePolicy;
}.
Inductive EnrollConfirmedFollowupOutcome :=
  | EF_ENROLLED | EF_ALREADY_ENROLLED | EF_RECORD_NOT_ENROLLABLE | EF_STEP_MISMATCH.
Record EnrollConfirmedFollowupResult := {
  efr_outcome : EnrollConfirmedFollowupOutcome; efr_record : OutreachRecord;
  efr_message : option OutreachMessage; efr_sentFollowup : option OutreachFollowup;
  efr_nextFollowup : option OutreachFollowup; efr_reason : option string;
}.

Definition ENROLL_PATH : list OutreachStatus :=
  [DRAFT_READY; AWAITING_APPROVAL; APPROVED_TO_SEND; INITIAL_SENT].

Record ApplyDeliveryFailureInput := {
  df_outreachRecordId : string; df_outreachMessageId : option string;
  df_deliveryStatus : DeliveryStatus; df_permanence : DeliveryPermanence;
  df_rejectionCode : option string; df_diagnosticText : option string;
  df_dsnStatus : option string; df_dsnAction : option string;
  df_finalRecipient' : option string; df_originalRecipient' : option string;
  df_bounceAtMs : option Z; df_originalGmailMessageId : option string;
  df_originalGmailThreadId : option string; df_dsnGmailMessageId : string;
  df_dsnGmailThreadId : option string; df_preview : string;
}.
Inductive DeliveryFailureOutcome :=
  | BOUNCED_APPLIED | SKIPPED_TERMINAL | DELIVERY_UNKNOWN_RECORDED | ALREADY_RECONCILED.

Record CorrectDeliveryEventsInput := {
  ci_dsnGmailMessageIds : list string; ci_reason : string; ci_by : string; ci_dryRun : bool;
}.
Record DeliveryEventCorrectionView := {
  cv_dsnGmailMessageId : string; cv_found : bool; cv_outreachRecordId : option string;
  cv_deliveryStatus : option DeliveryStatus; cv_alreadySuperseded : bool;
}.
Record CorrectDeliveryEventsResult := {
  cr_dryRun : bool; cr_applied : bool; cr_events : list DeliveryEventCorrectionView;
  cr_toSupersedeCount : nat; cr_alreadySupersededCount : nat; cr_notFound : list string;
  cr_recordsAnnotated : list string;
}.

Record PromoteFollowupDueInput := {
  pf_followupId : string; pf_outreachRecordId : string; pf_actor : string;
}.
Inductive PromoteFollowupDueOutcome := PROMOTED | ALREADY_DUE | BLOCKED | SKIPPED | RACE_LOST.
Record PromoteFollowupDueResult := {
  pr_outcome : PromoteFollowupDueOutcome; pr_from : option OutreachStatus;
  pr_to : option OutreachStatus; pr_detail : string;
}.

(** ** The service *)

Section service.
Context `{Runtime, TzDatabase}.

Definition require (recordId : string) : OM OutreachRecord :=
  rec ← getRecord recordId;
  match rec with
  | Some rec => mret rec
  | None => throw (AppError "OUTREACH_RECORD_NOT_FOUND" ("Outreach record not found: " +:+ recordId))
  end.

(** An event that is not a transition *)
Definition plainEvent (recordId : string) (type : OutreachEventType) (message : string)
    (data : json) : NewOutreachEvent :=
  {| ne_outreachRecordId := recordId; ne_type := type; ne_fromStatus := None;
     ne_toStatus := None; ne_message := message; ne_data := data |}.

Definition cancelOne (recordId reason : string) (nowD : Z) (f : OutreachFollowup) : OM () :=
  updateFollowupStatus (fu_id f) FU_CANCELLED (Some reason) nowD ;;
  _ ← appendEvent (plainEvent recordId FOLLOWUP_CANCELLED
        ("Follow-up " +:+ pretty (fu_step f) +:+ " cancelled (" +:+ reason +:+ ")")
        (JObj [("followupId", JStr (fu_id f)); ("reason", JStr reason)]));
  mret tt.
Definition cancelPending (recordId reason : string) (nowD : Z) : OM () :=
  pending ← pendingFollowups recordId;
  for_each pending (cancelOne recordId reason nowD).

Definition track (input : TrackInput) : OM (TrackOutcome * option OutreachRecord) :=
  let contactEmail := normalizeEmail (ti_contactEmail input) in
  transaction (
    dnc ← hasDoNotContact contactEmail;
    if dnc : bool then mret (BLOCKED_DO_NOT_CONTACT, None)
    else
      existing ← findActiveRecord (ti_campaignId input) (ti_leadId input) contactEmail;
      match existing with
      | Some r => mret (DUPLICATE_ACTIVE, Some r)
      | None =>
          nowD ← now;
          id ← randomUUID;
          let record := {|
            or_id := id; or_campaignId := ti_campaignId input; or_leadId := ti_leadId input;
            or_contactEmail := contactEmail; or_status := DRAFT_READY; or_sequenceStep := 0;
            or_owner := ti_owner input; or_timezone := ti_timezone input;
            or_lastSentAt := None; or_nextFollowupAt := None; or_lastReplyAt := None;
            or_replyCategory := None; or_doNotContact := false; or_outcome := None;
            or_notes := None; or_createdAt := nowD; or_updatedAt := nowD |} in
          insertRecord record ;;
          _ ← appendEvent {|
            ne_outreachRecordId := id; ne_type := RECORD_CREATED; ne_fromStatus := None;
            ne_toStatus := Some DRAFT_READY;
            ne_message := "Outreach created for " +:+ contactEmail;
            ne_data := JObj [("campaignId", JStr (ti_campaignId input));
                             ("leadId", JStr (ti_leadId input))] |};
          mret (CREATED, Some record)
      end).

Definition transition (recordId : string) (to : OutreachStatus) (reason : option string)
    (setOutcome : bool) : OM OutreachRecord :=
  transaction (
    rec ← require recordId;
    let from := or_status rec in
    lift_res (assertOutreachTransition from to) ;;
    nowD ← now;
    let patch :=
      [set_status to] ++
      (if bool_decide (to ∈ [DO_NOT_CONTACT; UNSUBSCRIBED]) then [set_doNotContact true] else []) ++
      (if setOutcome && bool_decide (to ∈ [MEETING_BOOKED; CLOSED_WON; CLOSED_LOST])
       then [set_outcome (Some (statusText to))] else []) ++
      (if cancelsFollowups to then [set_nextFollowupAt None] else []) in
    updateRecord recordId patch nowD ;;
    _ ← appendEvent {|
      ne_outreachRecordId := recordId; ne_type := STATE_TRANSITION; ne_fromStatus := Some from;
      ne_toStatus := Some to;
      ne_message := statusText from +:+ " -> " +:+ statusText to +:+
        (if truthy_opt reason then " (" +:+ default "" reason +:+ ")" else "");
      ne_data := if truthy_opt reason then JObj [("reason", json_opt reason)] else JNull |};
    (if cancelsFollowups to
     then cancelPending recordId (default "CANCELLED" (followupBlockedReason to)) nowD
     else mret tt) ;;
    mret (recordPatchToSet patch nowD rec)).

Definition recordMessage (input : RecordMessageInput) : OM OutreachMessage :=
  transaction (
    _ ← require (rm_outreachRecordId input);
    nowD ← now;
    id ← randomUUID;
    let msg := {|
      om_id := id; om_outreachRecordId := rm_outreachRecordId input;
      om_messageType := rm_messageType input; om_sequenceStep := rm_sequenceStep input;
      om_subject := rm_subject input; om_body := rm_body input;
      om_contentHash := messageContentHash (rm_subject input) (rm_body input);
      om_emailDraftId := rm_emailDraftId input; om_finalizedEmailId := rm_finalizedEmailId input;
      om_gmailMessageId := rm_gmailMessageId input; om_gmailThreadId := rm_gmailThreadId input;
      om_approvedAt := rm_approvedAt input; om_sentAt := rm_sentAt input; om_createdAt := nowD |} in
    insertMessage msg ;;
    (if bool_decide (is_Some (om_sentAt msg))
     then updateRecord (rm_outreachRecordId input)
            [set_lastSentAt (om_sentAt msg); set_sequenceStep (rm_sequenceStep input)] nowD
     else mret tt) ;;
    _ ← appendEvent (plainEvent (rm_outreachRecordId input) MESSAGE_RECORDED
          (messageTypeText (rm_messageType input) +:+ " step " +:+
           pretty (rm_sequenceStep input) +:+ " recorded")
          (JObj [("contentHash", JStr (om_contentHash msg));
                 ("gmailMessageId", json_opt (om_gmailMessageId msg))]));
    mret msg).

(** The walk of [enrollConfirmedSend] along the rest of [ENROLL_PATH] *)
Fixpoint walkPath (recordId sendAttemptId : string) (from : OutreachStatus)
    (path : list OutreachStatus) : OM () :=
  match path with
  | [] => mret tt
  | to :: path =>
      lift_res (assertOutreachTransition from to) ;;
      _ ← appendEvent {|
        ne_outreachRecordId := recordId; ne_type := STATE_TRANSITION;
        ne_fromStatus := Some from; ne_toStatus := Some to;
        ne_message := statusText from +:+ " -> " +:+ statusText to +:+ " (enroll confirmed send)";
        ne_data := JObj [("sendAttemptId", JStr sendAttemptId)] |};
      walkPath recordId sendAttemptId to path
  end.

(** [ENROLL_PATH.indexOf(status)] *)
Definition enrollIndex (status : OutreachStatus) : option nat :=
  fst <$> list_find (eq status) ENROLL_PATH.

Definition dueFollowup (id recordId : string) (step : FollowupStep) (dueAt : Z)
    (timezone : string) (nowD : Z) : OutreachFollowup :=
  {| fu_id := id; fu_outreachRecordId := recordId; fu_step := stepNumber step;
     fu_dueAt := dueAt; fu_timezone := timezone; fu_status := FU_DUE;
     fu_blockedReason := None; fu_cancelledReason := None;
     fu_createdAt := nowD; fu_updatedAt := nowD |}.
Definition scheduledEvent (recordId : string) (step : FollowupStep) (dueAt : Z) :
    NewOutreachEvent :=
  plainEvent recordId FOLLOWUP_SCHEDULED
    ("Follow-up " +:+ pretty (stepNumber step) +:+ " due " +:+ toISOString dueAt)
    (JObj [("step", JNum (stepNumber step)); ("dueAt", JStr (toISOString dueAt))]).

Definition enrollConfirmedSend (input : EnrollConfirmedSendInput) :
    OM EnrollConfirmedSendResult :=
  transaction (
    rec ← require (ecs_outreachRecordId input);
    existing ← findMessageByGmailMessageId (ecs_gmailMessageId input);
    match existing with
    | Some m =>
        mret {| esr_outcome := ES_ALREADY_ENROLLED; esr_record := rec;
                esr_message := Some m; esr_followup := None |}
    | None =>
        match enrollIndex (or_status rec) with
        | Some startIdx =>
            if bool_decide (or_status rec = INITIAL_SENT) then
              mret {| esr_outcome := ES_RECORD_NOT_ENROLLABLE; esr_record := rec;
                      esr_message := None; esr_followup := None |}
            else
              nowD ← now;
              id ← randomUUID;
              let message := {|
                om_id := id; om_outreachRecordId := or_id rec; om_messageType := INITIAL;
                om_sequenceStep := 0; om_subject := ecs_subject input; om_body := ecs_body input;
                om_contentHash := messageContentHash (ecs_subject input) (ecs_body input);
                om_emailDraftId := ecs_emailDraftId input;
                om_finalizedEmailId := ecs_finalizedEmailId input;
                om_gmailMessageId := Some (ecs_gmailMessageId input);
                om_gmailThreadId := Some (ecs_gmailThreadId input); om_approvedAt := Some nowD;
                om_sentAt := Some (ecs_sentAt input); om_createdAt := nowD |} in
              insertMessage message ;;
              _ ← appendEvent (plainEvent (or_id rec) MESSAGE_RECORDED
                    "INITIAL step 0 enrolled from confirmed production send"
                    (JObj [("contentHash", JStr (om_contentHash message));
                           ("gmailMessageId", JStr (ecs_gmailMessageId input));
                           ("gmailThreadId", JStr (ecs_gmailThreadId input));
                           ("sendAttemptId", JStr (ecs_sendAttemptId input))]));
              walkPath (or_id rec) (ecs_sendAttemptId input) (or_status rec)
                (drop (S startIdx) ENROLL_PATH) ;;
              dueAt ← lift_res (computeFollowupDueUtc (ecs_sentAt input) Step1 (or_timezone rec)
                        (ecs_policy input));
              fid ← randomUUID;
              let followup := dueFollowup fid (or_id rec) Step1 dueAt (or_timezone rec) nowD in
              insertFollowup followup ;;
              let patch := [set_status INITIAL_SENT; set_lastSentAt (Some (ecs_sentAt input));
                            set_sequenceStep 0; set_nextFollowupAt (Some dueAt)] in
              updateRecord (or_id rec) patch nowD ;;
              _ ← appendEvent (scheduledEvent (or_id rec) Step1 dueAt);
              mret {| esr_outcome := ES_ENROLLED; esr_record := recordPatchToSet patch nowD rec;
                      esr_message := Some message; esr_followup := Some followup |}
        | None =>
            mret {| esr_outcome := ES_RECORD_NOT_ENROLLABLE; esr_record := rec;
                    esr_message := None; esr_followup := None |}
        end
    end).

Definition followupNothing (rec : OutreachRecord) (outcome : EnrollConfirmedFollowupOutcome)
    (reason : string) : EnrollConfirmedFollowupResult :=
  {| efr_outcome := outcome; efr_record := rec; efr_message := None; efr_sentFollowup := None;
     efr_nextFollowup := None; efr_reason := Some reason |}.

Definition enrollConfirmedFollowup (input : EnrollConfirmedFollowupInput) :
    OM EnrollConfirmedFollowupResult :=
  transaction (
    rec ← require (ecf_outreachRecordId input);
    existing ← findMessageByGmailMessageId (ecf_gmailMessageId input);
    match existing, pendingFollowupStep (or_status rec) with
    | Some m, _ =>
        mret {| efr_outcome := EF_ALREADY_ENROLLED; efr_record := rec; efr_message := Some m;
                efr_sentFollowup := None; efr_nextFollowup := None; efr_reason := None |}
    | None, None =>
        mret (followupNothing rec EF_RECORD_NOT_ENROLLABLE
          ("record status " +:+ statusText (or_status rec) +:+ " is not awaiting a follow-up"))
    | None, Some step =>
        if negb (bool_decide (step = ecf_expectedStep input)) then
          mret (followupNothing rec EF_STEP_MISMATCH
            ("provenance says step " +:+ pretty (stepNumber (ecf_expectedStep input)) +:+
             " but the record awaits step " +:+ pretty (stepNumber step)))
        else
          nowD ← now;
          id ← randomUUID;
          let message := {|
            om_id := id; om_outreachRecordId := or_id rec; om_messageType := FOLLOW_UP;
            om_sequenceStep := stepNumber step; om_subject := ecf_subject input;
            om_body := ecf_body input;
            om_contentHash := messageContentHash (ecf_subject input) (ecf_body input);
            om_emailDraftId := ecf_emailDraftId input;
            om_finalizedEmailId := ecf_finalizedEmailId input;
            om_gmailMessageId := Some (ecf_gmailMessageId input);
            om_gmailThreadId := Some (ecf_gmailThreadId input); om_approvedAt := Some nowD;
            om_sentAt := Some (ecf_sentAt input); om_createdAt := nowD |} in
          insertMessage message ;;
          _ ← appendEvent (plainEvent (or_id rec) MESSAGE_RECORDED
                ("FOLLOW_UP step " +:+ pretty (stepNumber step) +:+
                 " enrolled from confirmed production send")
                (JObj [("contentHash", JStr (om_contentHash message));
                       ("gmailMessageId", JStr (ecf_gmailMessageId input));
                       ("gmailThreadId", JStr (ecf_gmailThreadId input));
                       ("sendAttemptId", JStr (ecf_sendAttemptId input));
                       ("sequenceStep", JNum (stepNumber step))]));
          pending ← pendingFollowups (or_id rec);
          let sentFollowup := List.find (λ f, fu_step f =? stepNumber step) pending in
          match sentFollowup with
          | Some f => updateFollowupStatus (fu_id f) FU_SENT None nowD
          | None => mret tt
          end ;;
          let from := followupDueStatus step in
          let to := followupSentStatus step in
          lift_res (assertOutreachTransition from to) ;;
          _ ← appendEvent {|
            ne_outreachRecordId := or_id rec; ne_type := STATE_TRANSITION;
            ne_fromStatus := Some from; ne_toStatus := Some to;
            ne_message := statusText from +:+ " -> " +:+ statusText to +:+
              " (enroll confirmed follow-up)";
            ne_data := JObj [("sendAttemptId", JStr (ecf_sendAttemptId input));
                             ("sequenceStep", JNum (stepNumber step))] |};
          nextFollowup ←
            match nextFollowupStep step with
            | Some next =>
                nextDueAt ← lift_res (computeFollowupDueUtc (ecf_sentAt input) next
                              (or_timezone rec) (ecf_policy input));
                fid ← randomUUID;
                let f := dueFollowup fid (or_id rec) next nextDueAt (or_timezone rec) nowD in
                insertFollowup f ;; mret (Some (next, f))
            | None => mret None
            end;
          let patch := [set_status to; set_lastSentAt (Some (ecf_sentAt input));
                        set_sequenceStep (stepNumber step);
                        set_nextFollowupAt ((λ nf, fu_dueAt nf.2) <$> nextFollowup)] in
          updateRecord (or_id rec) patch nowD ;;
          _ ← match nextFollowup with
              | Some (next, f) => appendEvent (scheduledEvent (or_id rec) next (fu_dueAt f))
              | None =>
                  appendEvent (plainEvent (or_id rec) NOTE
                    "Sequence complete: the final follow-up was sent; no further email is scheduled."
                    (JObj [("finalStep", JNum (stepNumber step))]))
              end;
          mret {| efr_outcome := EF_ENROLLED; efr_record := recordPatchToSet patch nowD rec;
                  efr_message := Some message; efr_sentFollowup := sentFollowup;
                  efr_nextFollowup := snd <$> nextFollowup; efr_reason := None |}
    end).

(** The outcome SCHEDULED carries the row, BLOCKED the reason. *)
Definition scheduleFollowup (recordId : string) (step : FollowupStep) (policy : SequencePolicy) :
    OM (OutreachFollowup + string) :=
  transaction (
    rec ← require recordId;
    match followupBlockedReason (or_status rec), or_lastSentAt rec with
    | Some blocked, _ => mret (inr blocked)
    | None, None => mret (inr "NO_PRIOR_SEND")
    | None, Some lastSentAt =>
        nowD ← now;
        dueAt ← lift_res (computeFollowupDueUtc lastSentAt step (or_timezone rec) policy);
        fid ← randomUUID;
        let followup := dueFollowup fid recordId step dueAt (or_timezone rec) nowD in
        insertFollowup followup ;;
        updateRecord recordId [set_nextFollowupAt (Some dueAt)] nowD ;;
        _ ← appendEvent (scheduledEvent recordId step dueAt);
        mret (inl followup)
    end).

Definition promotionView (followup : OutreachFollowup) (recordId : string)
    (rec : option OutreachRecord) : FollowupPromotionCandidateView :=
  {| fpc_followupId := fu_id followup; fpc_outreachRecordId := recordId;
     fpc_leadId := default "" (or_leadId <$> rec); fpc_step := fu_step followup;
     fpc_followupStatus := fu_status followup; fpc_dueAtMs := fu_dueAt followup;
     fpc_recordStatus := or_status <$> rec;
     fpc_doNotContact := default false (or_doNotContact <$> rec) |}.

(** [interfere] stands for what other committed transactions do to the database
    between the reads of this one and its compare-and-set. *)
Definition promoteFollowupDue_with (interfere : OM ()) (input : PromoteFollowupDueInput) :
    OM PromoteFollowupDueResult :=
  transaction (
    followup ← getFollowup (pf_followupId input);
    match followup with
    | None =>
        mret {| pr_outcome := SKIPPED; pr_from := None; pr_to := None;
                pr_detail := "FOLLOWUP_NOT_FOUND: no follow-up " +:+ pf_followupId input +:+
                  " on record " +:+ pf_outreachRecordId input |}
    | Some followup =>
        if negb (bool_decide (fu_outreachRecordId followup = pf_outreachRecordId input)) then
          mret {| pr_outcome := SKIPPED; pr_from := None; pr_to := None;
                  pr_detail := "FOLLOWUP_NOT_FOUND: no follow-up " +:+ pf_followupId input +:+
                    " on record " +:+ pf_outreachRecordId input |}
        else
          rec ← getRecord (pf_outreachRecordId input);
          nowMs ← now;
          match decideFollowupPromotion
                  (promotionView followup (pf_outreachRecordId input) rec) nowMs with
          | PA_ALREADY_DUE detail =>
              mret {| pr_outcome := ALREADY_DUE; pr_from := or_status <$> rec;
                      pr_to := or_status <$> rec; pr_detail := detail |}
          | PA_BLOCKED reason detail =>
              mret {| pr_outcome := BLOCKED; pr_from := or_status <$> rec; pr_to := None;
                      pr_detail := reason +:+ ": " +:+ detail |}
          | PA_SKIP reason detail =>
              mret {| pr_outcome := SKIPPED; pr_from := or_status <$> rec; pr_to := None;
                      pr_detail := reason +:+ ": " +:+ detail |}
          | PA_PROMOTE step from to =>
              lift_res (assertOutreachTransition from to) ;;
              nowD ← now;
              interfere ;;
              applied ← updateRecordIfStatus (pf_outreachRecordId input) from [set_status to] nowD;
              if negb applied then
                mret {| pr_outcome := RACE_LOST; pr_from := Some from; pr_to := None;
                        pr_detail := "record left " +:+ statusText from +:+
                          " before the promotion could be applied; nothing written" |}
              else
                _ ← appendEvent {|
                  ne_outreachRecordId := pf_outreachRecordId input; ne_type := STATE_TRANSITION;
                  ne_fromStatus := Some from; ne_toStatus := Some to;
                  ne_message := statusText from +:+ " -> " +:+ statusText to +:+ " (follow-up " +:+
                    pretty (stepNumber step) +:+ " came due, " +:+ pf_actor input +:+ ")";
                  ne_data := JObj [("trigger", JStr "FOLLOWUP_DUE"); ("automated", JBool true);
                    ("promotedBy", JStr (pf_actor input)); ("followupId", JStr (fu_id followup));
                    ("step", JNum (stepNumber step));
                    ("dueAt", JStr (toISOString (fu_dueAt followup)))] |};
                mret {| pr_outcome := PROMOTED; pr_from := Some from; pr_to := Some to;
                        pr_detail := "promoted to " +:+ statusText to |}
          end
    end).
Definition promoteFollowupDue : PromoteFollowupDueInput → OM PromoteFollowupDueResult :=
  promoteFollowupDue_with (mret tt).

Definition cancelFollowup (followupId recordId reason : string) : OM () :=
  transaction (
    nowD ← now;
    updateFollowupStatus followupId FU_CANCELLED (Some reason) nowD ;;
    updateRecord recordId [set_nextFollowupAt None] nowD ;;
    _ ← appendEvent (plainEvent recordId FOLLOWUP_CANCELLED ("Follow-up cancelled: " +:+ reason)
          (JObj [("followupId", JStr followupId); ("reason", JStr reason)]));
    mret tt).

Definition postponeFollowup (followupId recordId : string) (newDueAt : Z) (reason : string) :
    OM () :=
  transaction (
    nowD ← now;
    updateFollowupStatus followupId FU_POSTPONED (Some reason) nowD ;;
    updateRecord recordId [set_nextFollowupAt (Some newDueAt)] nowD ;;
    _ ← appendEvent (plainEvent recordId FOLLOWUP_POSTPONED
          ("Follow-up postponed to " +:+ toISOString newDueAt +:+ ": " +:+ reason)
          (JObj [("followupId", JStr followupId); ("newDueAt", JStr (toISOString newDueAt));
                 ("reason", JStr reason)]));
    mret tt).

Definition applyReply (input : ApplyReplyInput) : OM OutreachRecord :=
  transaction (
    rec ← require (ar_outreachRecordId input);
    let to := classificationToStatus (ar_classification input) in
    let cls := classificationText (ar_classification input) in
    nowD ← now;
    let receivedAt := ar_receivedAtMs input in
    id ← randomUUID;
    insertReply {|
      rp_id := id; rp_outreachRecordId := ar_outreachRecordId input;
      rp_gmailThreadId := ar_gmailThreadId input; rp_gmailMessageId := ar_gmailMessageId input;
      rp_fromEmail := normalizeEmail (ar_fromEmail input); rp_receivedAt := receivedAt;
      rp_classification := ar_classification input;
      rp_preview := safePreview (ar_preview input) |} ;;
    let patch :=
      [set_status to; set_lastReplyAt (Some receivedAt); set_replyCategory (Some cls);
       set_nextFollowupAt None] ++
      (if bool_decide (to = UNSUBSCRIBED) then [set_doNotContact true] else []) in
    let legal := is_ok (assertOutreachTransition (or_status rec) to) in
    (if legal then
       updateRecord (ar_outreachRecordId input) patch nowD ;;
       _ ← appendEvent {|
         ne_outreachRecordId := ar_outreachRecordId input; ne_type := STATE_TRANSITION;
         ne_fromStatus := Some (or_status rec); ne_toStatus := Some to;
         ne_message := statusText (or_status rec) +:+ " -> " +:+ statusText to +:+ " (reply)";
         ne_data := JObj [("classification", JStr cls)] |};
       mret tt
     else
       updateRecord (ar_outreachRecordId input)
         [set_lastReplyAt (Some receivedAt); set_replyCategory (Some cls)] nowD) ;;
    _ ← appendEvent (plainEvent (ar_outreachRecordId input) REPLY_DETECTED
          ("Reply from " +:+ ar_fromEmail input +:+ " classified " +:+ cls)
          (JObj [("gmailMessageId", JStr (ar_gmailMessageId input)); ("classification", JStr cls)]));
    cancelPending (ar_outreachRecordId input) "REPLY_DETECTED" nowD ;;
    mret (recordPatchToSet patch nowD rec)).

(** The em dash of the messages (U+2014), one code unit, between blanks *)
Definition emDash : string := " " +:+ String (ascii_of_nat 151) " ".

Definition deliveryEventOf (id : string) (nowD : Z) (input : ApplyDeliveryFailureInput) :
    OutreachDeliveryEvent :=
  {| de_id := id; de_outreachRecordId := df_outreachRecordId input;
     de_outreachMessageId := df_outreachMessageId input;
     de_deliveryStatus := df_deliveryStatus input; de_permanence := df_permanence input;
     de_rejectionCode := df_rejectionCode input;
     de_diagnosticText :=
       if truthy_opt (df_diagnosticText input)
       then (λ t, safePreview_max t 500) <$> df_diagnosticText input else None;
     de_dsnStatus := df_dsnStatus input; de_dsnAction := df_dsnAction input;
     de_finalRecipient := df_finalRecipient' input;
     de_originalRecipient := df_originalRecipient' input; de_bounceAt := df_bounceAtMs input;
     de_originalGmailMessageId := df_originalGmailMessageId input;
     de_originalGmailThreadId := df_originalGmailThreadId input;
     de_dsnGmailMessageId := df_dsnGmailMessageId input;
     de_dsnGmailThreadId := df_dsnGmailThreadId input;
     de_preview := safePreview (df_preview input); de_supersededAt := None;
     de_supersededReason := None; de_supersededBy := None; de_createdAt := nowD |}.

Definition applyDeliveryFailure (input : ApplyDeliveryFailureInput) :
    OM (DeliveryFailureOutcome * OutreachRecord) :=
  transaction (
    rec ← require (df_outreachRecordId input);
    nowD ← now;
    exists_ ← deliveryEventExists (df_dsnGmailMessageId input);
    if exists_ : bool then mret (ALREADY_RECONCILED, rec)
    else if bool_decide (or_status rec ∈ OUTREACH_SEND_BLOCKED) then mret (SKIPPED_TERMINAL, rec)
    else
      id ← randomUUID;
      insertDeliveryEvent (deliveryEventOf id nowD input) ;;
      let code := default "no code" (df_rejectionCode input) in
      if negb (bool_decide (df_deliveryStatus input = DS_BOUNCED)) then
        _ ← appendEvent (plainEvent (df_outreachRecordId input) DELIVERY_UNKNOWN
              ("Temporary delivery failure (" +:+ code +:+ ")" +:+ emDash +:+
               "operator review required; no retry")
              (JObj [("dsnGmailMessageId", JStr (df_dsnGmailMessageId input));
                     ("status", json_opt (df_dsnStatus input));
                     ("action", json_opt (df_dsnAction input))]));
        mret (DELIVERY_UNKNOWN_RECORDED, rec)
      else
        let blockedReason := "BOUNCED" in
        let legal := canOutreachTransition (or_status rec) OutreachStatus.BOUNCED in
        let patch := set_nextFollowupAt None ::
          (if legal then [set_status OutreachStatus.BOUNCED] else []) in
        updateRecord (df_outreachRecordId input) patch nowD ;;
        _ ← appendEvent {|
          ne_outreachRecordId := df_outreachRecordId input; ne_type := BOUNCE_DETECTED;
          ne_fromStatus := Some (or_status rec);
          ne_toStatus := Some (if legal then OutreachStatus.BOUNCED else or_status rec);
          ne_message := "Permanent delivery failure (" +:+ code +:+ ")" +:+ emDash +:+
            (if legal then statusText (or_status rec) +:+ " -> BOUNCED"
             else "record left in place (transition not legal)") +:+ "; no retry";
          ne_data := JObj [("dsnGmailMessageId", JStr (df_dsnGmailMessageId input));
                           ("rejectionCode", json_opt (df_rejectionCode input));
                           ("diagnostic", json_opt (df_dsnStatus input))] |};
        pending ← pendingFollowups (df_outreachRecordId input);
        for_each pending (λ f,
          updateFollowupStatus (fu_id f) FU_CANCELLED (Some blockedReason) nowD) ;;
        _ ← appendEvent (plainEvent (df_outreachRecordId input) FOLLOWUPS_CANCELLED
              (pretty (length pending) +:+ " pending follow-up(s) cancelled (" +:+ blockedReason +:+ ")")
              (JObj [("cancelled", JArr (map (λ f, JStr (fu_id f)) pending));
                     ("reason", JStr blockedReason)]));
        mret (BOUNCED_APPLIED, recordPatchToSet patch nowD rec)).

(** The [Map] from record ids to the notifications to invalidate, in insertion
    order. *)
Fixpoint pushGroup (recordId dsnId : string) (groups : list (string * list string)) :
    list (string * list string) :=
  match groups with
  | [] => [(recordId, [dsnId])]
  | (r, ids) :: groups =>
      if bool_decide (r = recordId) then (r, ids ++ [dsnId]) :: groups
      else (r, ids) :: pushGroup recordId dsnId groups
  end.
Definition groupByRecord (refs : list DeliveryEventRef) : list (string * list string) :=
  fold_left (λ groups r, pushGroup (ref_outreachRecordId r) (ref_dsnGmailMessageId r) groups)
    refs [].

Definition correctDeliveryEvents (input : CorrectDeliveryEventsInput) :
    OM CorrectDeliveryEventsResult :=
  let ids := uniq (List.filter truthy (map trim (ci_dsnGmailMessageIds input))) in
  transaction (
    refs ← deliveryEventsByDsnIds ids;
    let byDsn id := List.find (λ r, bool_decide (ref_dsnGmailMessageId r = id)) (rev refs) in
    let views := map (λ id,
      {| cv_dsnGmailMessageId := id; cv_found := bool_decide (is_Some (byDsn id));
         cv_outreachRecordId := ref_outreachRecordId <$> byDsn id;
         cv_deliveryStatus := ref_deliveryStatus <$> byDsn id;
         cv_alreadySuperseded := bool_decide (is_Some (byDsn id ≫= ref_supersededAt)) |}) ids in
    let notFound := List.filter (λ id, negb (bool_decide (is_Some (byDsn id)))) ids in
    let toSupersede := List.filter (λ r, bool_decide (ref_supersededAt r = None)) refs in
    let groups := groupByRecord toSupersede in
    let apply := negb (ci_dryRun input) && (0 <? length toSupersede)%nat in
    (if apply then
       nowD ← now;
       for_each toSupersede (λ r,
         supersedeDeliveryEvent (ref_id r) nowD (ci_reason input) (ci_by input)) ;;
       for_each groups (λ '(recordId, dsnIds),
         _ ← appendEvent (plainEvent recordId DELIVERY_RECONCILIATION_CORRECTED
               (pretty (length dsnIds) +:+ " delivery event(s) invalidated by " +:+
                ci_by input +:+ ": " +:+ ci_reason input)
               (JObj [("dsnGmailMessageIds", JArr (map JStr dsnIds));
                      ("reason", JStr (ci_reason input)); ("by", JStr (ci_by input))]));
         mret tt)
     else mret tt) ;;
    mret {| cr_dryRun := ci_dryRun input; cr_applied := apply; cr_events := views;
            cr_toSupersedeCount := length toSupersede;
            cr_alreadySupersededCount := length refs - length toSupersede;
            cr_notFound := notFound;
            cr_recordsAnnotated := if apply then map fst groups else [] |}).
End service.
