(* ===== verification/OutreachWrites.v ===== *)
(** * The database as a transition system

    [write] is one write statement of the repository that the database accepts.
    Every method of the service is shown to move the database by such writes only
    ([service_writes]), so what every write preserves holds of every method: the
    integrity of the tables ([wellFormed]) and the immutability of the history
    ([history]). *)
From S2P Require Import Prelude.
From S2P Require Import JsText.
From S2P Require Import TimeZone.
From S2P Require Import OutreachStatus.
From S2P Require Import OutreachGates.
From S2P Require Import ReplyClassification.
From S2P Require Import Delivery.
From S2P Require Import OutreachStore.
From S2P Require Import OutreachService.
Open Scope Z_scope.
Open Scope list_scope.

Inductive write : OutreachDb → OutreachDb → Prop :=
  | write_insertRecord r db : checkInsertRecord r db = None →
      write db (setRecords <[or_id r := r]> db)
  | write_updateRecord id patch nowD db : checkUpdateRecord id patch nowD db = None →
      write db (setRecords (alter (recordPatchToSet patch nowD) id) db)
  | write_insertMessage m db : checkInsertMessage m db = None →
      write db (setMessages (λ l, l ++ [m]) db)
  | write_insertReply r db : checkInsertReply r db = None →
      write db (setReplies (λ l, l ++ [r]) db)
  | write_insertFollowup f db : checkInsertFollowup f db = None →
      write db (setFollowups <[fu_id f := f]> db)
  | write_updateFollowup id st reason nowD db :
      checkUpdateFollowup id st reason nowD db = None →
      write db (setFollowups (alter (setFollowupStatus st reason nowD) id) db)
  | write_insertEvent evt id db :
      let e := {| ev_new := evt; ev_id := id; ev_seq := maxSeq db (ne_outreachRecordId evt) + 1 |} in
      checkInsertEvent e db = None → write db (setEvents (λ l, l ++ [e]) db)
  | write_insertDeliveryEvent e db : checkInsertDeliveryEvent e db = None →
      write db (setDeliveryEvents (λ l, l ++ [e]) db)
  | write_supersede id at_ reason by_ db :
      write db (setDeliveryEvents (supersedeIn id at_ reason by_) db).

Definition writes : relation OutreachDb := rtc write.
#[global] Instance writes_preorder : PreOrder writes.
Proof. unfold writes. apply _. Qed.

(** ** Every operation is a sequence of writes *)

Section service_writes.
Context `{Runtime, TzDatabase}.

Lemma insertRecord_writes r : respects writes (insertRecord r).
Proof. apply (respects_guarded writes). intros. by apply rtc_once, write_insertRecord. Qed.
Lemma updateRecord_writes id patch nowD : respects writes (updateRecord id patch nowD).
Proof. apply (respects_guarded writes). intros. by apply rtc_once, write_updateRecord. Qed.
Lemma insertMessage_writes m : respects writes (insertMessage m).
Proof. apply (respects_guarded writes). intros. by apply rtc_once, write_insertMessage. Qed.
Lemma insertReply_writes r : respects writes (insertReply r).
Proof. apply (respects_guarded writes). intros. by apply rtc_once, write_insertReply. Qed.
Lemma insertFollowup_writes f : respects writes (insertFollowup f).
Proof. apply (respects_guarded writes). intros. by apply rtc_once, write_insertFollowup. Qed.
Lemma updateFollowupStatus_writes id st reason nowD :
  respects writes (updateFollowupStatus id st reason nowD).
Proof. apply (respects_guarded writes). intros. by apply rtc_once, write_updateFollowup. Qed.
Lemma insertDeliveryEvent_writes e : respects writes (insertDeliveryEvent e).
Proof. apply (respects_guarded writes). intros. by apply rtc_once, write_insertDeliveryEvent. Qed.
Lemma supersedeDeliveryEvent_writes id at_ reason by_ :
  respects writes (supersedeDeliveryEvent id at_ reason by_).
Proof. apply (respects_modify writes). intros. by apply rtc_once, write_supersede. Qed.

(** The event that [appendEvent] adds, and the rule for it. *)
Definition eventAt (db : OutreachDb) (id : string) (evt : NewOutreachEvent) : OutreachEvent :=
  {| ev_new := evt; ev_id := id; ev_seq := maxSeq db (ne_outreachRecordId evt) + 1 |}.
Lemma wp_appendEvent evt (Q : Z → world OutreachDb → Prop) w :
  (∀ id, checkInsertEvent (eventAt (w_db w) id evt) (w_db w) = None →
     Q (maxSeq (w_db w) (ne_outreachRecordId evt) + 1)
       (World (setEvents (λ l, l ++ [eventAt (w_db w) id evt]) (w_db w))
          (w_ticks w) (S (w_uuids w)))) →
  wp (appendEvent evt) Q w.
Proof.
  intros HQ. unfold appendEvent. rewrite wp_bind, wp_query, wp_bind, wp_randomUUID.
  cbn [w_db w_ticks w_uuids]. rewrite wp_bind, wp_guarded. intros Hc. rewrite wp_ret.
  by apply HQ.
Qed.
Lemma appendEvent_writes evt : respects writes (appendEvent evt).
Proof. intros w. apply wp_appendEvent. intros id Hc. by apply rtc_once, write_insertEvent. Qed.
End service_writes.

#[export] Hint Resolve insertRecord_writes updateRecord_writes insertMessage_writes
  insertReply_writes insertFollowup_writes updateFollowupStatus_writes
  insertDeliveryEvent_writes supersedeDeliveryEvent_writes appendEvent_writes : outreach.

(** The public methods, as one type of requests. *)
Inductive OutreachOp :=
  | OpTrack (input : TrackInput)
  | OpTransition (recordId : string) (to : OutreachStatus) (reason : option string)
      (setOutcome : bool)
  | OpRecordMessage (input : RecordMessageInput)
  | OpEnrollConfirmedSend (input : EnrollConfirmedSendInput)
  | OpEnrollConfirmedFollowup (input : EnrollConfirmedFollowupInput)
  | OpScheduleFollowup (recordId : string) (step : FollowupStep) (policy : SequencePolicy)
  | OpPromoteFollowupDue (input : PromoteFollowupDueInput)
  | OpCancelFollowup (followupId recordId reason : string)
  | OpPostponeFollowup (followupId recordId : string) (newDueAt : Z) (reason : string)
  | OpApplyReply (input : ApplyReplyInput)
  | OpApplyDeliveryFailure (input : ApplyDeliveryFailureInput)
  | OpCorrectDeliveryEvents (input : CorrectDeliveryEventsInput).

(** A method whose result is dropped *)
Definition ignore {A} (m : OM A) : OM () := _ ← m; mret tt.

Definition exec `{Runtime, TzDatabase} (op : OutreachOp) : OM () :=
  match op with
  | OpTrack i => ignore (track i)
  | OpTransition id to reason so => ignore (transition id to reason so)
  | OpRecordMessage i => ignore (recordMessage i)
  | OpEnrollConfirmedSend i => ignore (enrollConfirmedSend i)
  | OpEnrollConfirmedFollowup i => ignore (enrollConfirmedFollowup i)
  | OpScheduleFollowup id step policy => ignore (scheduleFollowup id step policy)
  | OpPromoteFollowupDue i => ignore (promoteFollowupDue i)
  | OpCancelFollowup f id reason => cancelFollowup f id reason
  | OpPostponeFollowup f id due reason => postponeFollowup f id due reason
  | OpApplyReply i => ignore (applyReply i)
  | OpApplyDeliveryFailure i => ignore (applyDeliveryFailure i)
  | OpCorrectDeliveryEvents i => ignore (correctDeliveryEvents i)
  end.

Section exec.
Context `{Runtime, TzDatabase}.

Lemma require_respects (R : relation OutreachDb) `{!PreOrder R} id : respects R (require id).
Proof using Type. unfold require, getRecord. respects_tac. Qed.
Lemma cancelPending_writes id reason nowD : respects writes (cancelPending id reason nowD).
Proof. unfold cancelPending, cancelOne, pendingFollowups. respects_tac. Qed.
Lemma walkPath_writes id att from path : respects writes (walkPath id att from path).
Proof. revert from. induction path; intros from; simpl; respects_tac. Qed.
#[local] Hint Resolve require_respects cancelPending_writes walkPath_writes : outreach.

Lemma service_writes op : respects writes (exec op).
Proof.
  destruct op; unfold exec, ignore;
    unfold track, transition, recordMessage, enrollConfirmedSend, enrollConfirmedFollowup,
      scheduleFollowup, promoteFollowupDue, promoteFollowupDue_with, cancelFollowup,
      postponeFollowup, applyReply, applyDeliveryFailure, correctDeliveryEvents,
      hasDoNotContact, findActiveRecord, findMessageByGmailMessageId, pendingFollowups,
      getFollowup, updateRecordIfStatus, getRecord, deliveryEventExists, deliveryEventsByDsnIds;
    cbv zeta; respects_tac.
Qed.

(** Every method is one transaction: it commits or leaves the database alone. *)
Lemma exec_transaction op w : transaction (exec op) w = exec op w.
Proof.
  assert (∀ A (m : OM A), transaction (ignore (transaction m)) w = ignore (transaction m) w) as H1.
  { intros A m. unfold ignore, transaction, mbind, M_bind. by destruct (m w) as [[]?]. }
  destruct op; simpl; first [apply H1|apply transaction_idemp].
Qed.
End exec.

(** A step of the system: some method is called and returns or throws. *)
Definition serviceStep `{Runtime, TzDatabase} (db db' : OutreachDb) : Prop :=
  ∃ op ticks uuids r w', exec op (World db ticks uuids) = (r, w') ∧ w_db w' = db'.
(** The databases reachable from one without outreach data. *)
Definition reachable `{Runtime, TzDatabase} (db : OutreachDb) : Prop :=
  ∃ campaigns leads drafts finalizations,
    rtc serviceStep (emptyDb campaigns leads drafts finalizations) db.

Lemma serviceStep_writes `{Runtime, TzDatabase} db db' : serviceStep db db' → writes db db'.
Proof.
  intros (op & t & u & r & w' & Hrun & <-). rewrite <-exec_transaction in Hrun.
  apply (respects_run writes) in Hrun; [done|]. apply service_writes.
Qed.

(** ** Integrity *)

Record wellFormed (db : OutreachDb) : Prop := {
  wf_recordKey : ∀ k r, records db !! k = Some r → or_id r = k;
  wf_active : ∀ k1 k2 r1 r2, records db !! k1 = Some r1 → records db !! k2 = Some r2 →
    isOutreachTerminal (or_status r1) = false → isOutreachTerminal (or_status r2) = false →
    (or_campaignId r1, or_leadId r1, or_contactEmail r1) =
      (or_campaignId r2, or_leadId r2, or_contactEmail r2) → k1 = k2;
  wf_followupKey : ∀ k f, followups db !! k = Some f → fu_id f = k;
  wf_followupStep : ∀ k f, followups db !! k = Some f → is_Some (isFollowupStep (fu_step f));
  wf_followupRecord : ∀ k f, followups db !! k = Some f →
    is_Some (records db !! fu_outreachRecordId f);
  wf_pending : ∀ k1 k2 f1 f2, followups db !! k1 = Some f1 → followups db !! k2 = Some f2 →
    fu_status f1 = FU_DUE → fu_status f2 = FU_DUE →
    (fu_outreachRecordId f1, fu_step f1) = (fu_outreachRecordId f2, fu_step f2) → k1 = k2;
  wf_messageRecord : ∀ m, m ∈ messages db → is_Some (records db !! om_outreachRecordId m);
  wf_messageGmail : NoDup (omap om_gmailMessageId (messages db));
  wf_replyGmail : NoDup (map rp_gmailMessageId (replies db));
  wf_deliveryDsn : NoDup (map de_dsnGmailMessageId (deliveryEvents db));
  wf_eventRecord : ∀ e, e ∈ events db → is_Some (records db !! ev_recordId e);
  wf_seq : ∀ id, map ev_seq (recordEvents db id) = seqZ 1 (Z.of_nat (length (recordEvents db id)));
}.

Lemma elem_of_rows {A} (m : gmap string A) x : x ∈ rows m ↔ ∃ k, m !! k = Some x.
Proof.
  unfold rows. rewrite list_elem_of_fmap. split.
  - intros ([k y] & -> & H%elem_of_map_to_list). eauto.
  - intros (k & H). exists (k, x). by rewrite elem_of_map_to_list.
Qed.
Lemma existsb_false {A} (f : A → bool) l : existsb f l = false ↔ ∀ x, x ∈ l → f x = false.
Proof.
  rewrite <-not_true_iff_false, elem_of_existsb. split.
  - intros H x Hx. apply not_true_iff_false. naive_solver.
  - intros H (x & Hx & Hf). specialize (H x Hx). congruence.
Qed.
Lemma noRecord_false db id : noRecord db id = false ↔ is_Some (records db !! id).
Proof. unfold noRecord. by rewrite negb_false_iff, bool_decide_eq_true. Qed.

Lemma recordPatchToSet_key patch nowD r :
  or_id (recordPatchToSet patch nowD r) = or_id r ∧
  or_campaignId (recordPatchToSet patch nowD r) = or_campaignId r ∧
  or_leadId (recordPatchToSet patch nowD r) = or_leadId r ∧
  or_contactEmail (recordPatchToSet patch nowD r) = or_contactEmail r.
Proof.
  unfold recordPatchToSet.
  assert (∀ r, or_id (touch nowD r) = or_id r ∧ or_campaignId (touch nowD r) = or_campaignId r ∧
    or_leadId (touch nowD r) = or_leadId r ∧ or_contactEmail (touch nowD r) = or_contactEmail r)
    as Ht by by intros [].
  revert r. induction patch as [|f patch IH]; intros r; simpl; [apply Ht|].
  destruct (IH (applyField r f)) as (-> & -> & -> & ->). by destruct r, f.
Qed.

(** A candidate row that conflicts with no other row of its index *)
Lemma activeConflict_false db r k r' :
  activeConflict db r = false → records db !! k = Some r' → or_id r' ≠ or_id r →
  isOutreachTerminal (or_status r) = false → isOutreachTerminal (or_status r') = false →
  (or_campaignId r', or_leadId r', or_contactEmail r') ≠
    (or_campaignId r, or_leadId r, or_contactEmail r).
Proof.
  unfold activeConflict. intros Hc Hk Hid Hr Hr' Heq. rewrite Hr in Hc. simpl in Hc.
  rewrite existsb_false in Hc.
  assert (r' ∈ rows (records db)) as Hin by (apply elem_of_rows; eauto).
  specialize (Hc _ Hin). by rewrite Hr', bool_decide_eq_false_2, bool_decide_eq_true_2 in Hc.
Qed.
Lemma pendingConflict_false db f k f' :
  pendingConflict db f = false → followups db !! k = Some f' → fu_id f' ≠ fu_id f →
  fu_status f = FU_DUE → fu_status f' = FU_DUE →
  (fu_outreachRecordId f', fu_step f') ≠ (fu_outreachRecordId f, fu_step f).
Proof.
  unfold pendingConflict. intros Hc Hk Hid Hf Hf' Heq.
  rewrite bool_decide_eq_true_2 in Hc by done. simpl in Hc. rewrite existsb_false in Hc.
  assert (f' ∈ rows (followups db)) as Hin by (apply elem_of_rows; eauto).
  specialize (Hc _ Hin).
  by rewrite bool_decide_eq_false_2, !bool_decide_eq_true_2 in Hc.
Qed.

Lemma maxSeq_wf db id : wellFormed db → maxSeq db id = Z.of_nat (length (recordEvents db id)).
Proof.
  intros Hwf. unfold maxSeq. rewrite (wf_seq db Hwf id).
  generalize (length (recordEvents db id)) as n. clear.
  assert (∀ n a, 0 <= a → foldr Z.max 0 (seqZ a (Z.of_nat n)) =
    if decide (n = 0%nat) then 0 else a + Z.of_nat n - 1) as Hg.
  { induction n as [|n IH]; intros a Ha; [done|].
    rewrite seqZ_cons by lia. simpl. replace (Z.pred (Z.of_nat (S n))) with (Z.of_nat n) by lia.
    rewrite IH by lia. repeat case_decide; lia. }
  intros n. rewrite Hg by lia. case_decide; lia.
Qed.

Lemma recordEvents_app db e id :
  recordEvents (setEvents (λ l, l ++ [e]) db) id =
  recordEvents db id ++ (if bool_decide (ev_recordId e = id) then [e] else []).
Proof. unfold recordEvents. simpl. rewrite List.filter_app. simpl. by case_bool_decide. Qed.

Lemma NoDup_snoc {A} (l : list A) x : NoDup l → x ∉ l → NoDup (l ++ [x]).
Proof.
  intros Hl Hx. apply NoDup_app. split_and!; [done| |apply NoDup_singleton].
  intros y Hy ->%list_elem_of_singleton. done.
Qed.

(** [checked H]: the constraints that an accepted write satisfied *)
Ltac checked H :=
  apply refuse_None in H; rewrite ?Forall_cons in H; simpl in H; destruct_and? H.

Lemma wf_insertRecord r db :
  wellFormed db → checkInsertRecord r db = None → wellFormed (setRecords <[or_id r := r]> db).
Proof.
  intros Hwf Hc. unfold checkInsertRecord in Hc. checked Hc.
  assert (records db !! or_id r = None) as Hnew.
  { apply eq_None_not_Some. by eapply bool_decide_eq_false. }
  assert (∀ k, is_Some (records db !! k) → is_Some (<[or_id r := r]> (records db) !! k)) as Hmono.
  { intros k Hk. rewrite lookup_insert. destruct (decide (or_id r = k)); [by eexists|done]. }
  assert (∀ k r', records db !! k = Some r' → or_id r' ≠ or_id r) as Hother.
  { intros k r' Hk Heq. rewrite (wf_recordKey db Hwf k r' Hk) in Heq. congruence. }
  constructor; simpl; try apply Hwf.
  - intros k r' Hk. apply lookup_insert_Some in Hk as [[<- <-]|[_ Hk]]; [done|].
    by apply (wf_recordKey db).
  - intros k1 k2 r1 r2 L1 L2 Ht1 Ht2 Heq.
    apply lookup_insert_Some in L1 as [[<- <-]|[Hk1 L1]],
      L2 as [[<- <-]|[Hk2 L2]]; [done|exfalso|exfalso|by eapply (wf_active db)].
    + eapply (activeConflict_false db r); eauto.
    + eapply (activeConflict_false db r); eauto.
  - intros. eapply Hmono, (wf_followupRecord db); eauto.
  - intros. by apply Hmono, (wf_messageRecord db).
  - intros. by apply Hmono, (wf_eventRecord db).
Qed.

Lemma wf_updateRecord id patch nowD db :
  wellFormed db → checkUpdateRecord id patch nowD db = None →
  wellFormed (setRecords (alter (recordPatchToSet patch nowD) id) db).
Proof.
  intros Hwf Hc.
  assert (∀ k, is_Some (records db !! k) →
    is_Some (alter (recordPatchToSet patch nowD) id (records db) !! k)) as Hmono.
  { intros k Hk. rewrite lookup_alter. destruct (decide (id = k)) as [->|]; [|done]. by apply fmap_is_Some. }
  assert (∀ r k r', records db !! id = Some r → k ≠ id → records db !! k = Some r' →
    isOutreachTerminal (or_status (recordPatchToSet patch nowD r)) = false →
    isOutreachTerminal (or_status r') = false →
    (or_campaignId r', or_leadId r', or_contactEmail r') ≠
      (or_campaignId r, or_leadId r, or_contactEmail r)) as Hother.
  { intros r k r' Hr Hk Hr' Ht Ht' Heq. unfold checkUpdateRecord in Hc. rewrite Hr in Hc.
    checked Hc. destruct (recordPatchToSet_key patch nowD r) as (Hid & Hc1 & Hc2 & Hc3).
    eapply (activeConflict_false db _ k r'); eauto.
    - rewrite Hid, (wf_recordKey db Hwf _ _ Hr), (wf_recordKey db Hwf _ _ Hr'). done.
    - by rewrite Hc1, Hc2, Hc3. }
  constructor; simpl; try apply Hwf.
  - intros k r Hk. apply lookup_alter_Some in Hk as [(<- & r0 & Hr0 & ->)|[_ Hk]].
    + rewrite (proj1 (recordPatchToSet_key patch nowD r0)). by apply (wf_recordKey db).
    + by apply (wf_recordKey db).
  - intros k1 k2 r1 r2 L1 L2 Ht1 Ht2 Heq.
    apply lookup_alter_Some in L1 as [(<- & r1' & L1 & ->)|[Hk1 L1]],
      L2 as [(<- & r2' & L2 & ->)|[Hk2 L2]]; [done| | |by eapply (wf_active db)];
      [destruct (recordPatchToSet_key patch nowD r1') as (_ & Hc1 & Hc2 & Hc3)
      |destruct (recordPatchToSet_key patch nowD r2') as (_ & Hc1 & Hc2 & Hc3)];
      rewrite Hc1, Hc2, Hc3 in Heq; exfalso; eapply Hother; eauto.
  - intros. eapply Hmono, (wf_followupRecord db); eauto.
  - intros. by apply Hmono, (wf_messageRecord db).
  - intros. by apply Hmono, (wf_eventRecord db).
Qed.

Lemma wf_insertFollowup f db :
  wellFormed db → checkInsertFollowup f db = None →
  wellFormed (setFollowups <[fu_id f := f]> db).
Proof.
  intros Hwf Hc. unfold checkInsertFollowup in Hc. checked Hc.
  assert (∀ k f', followups db !! k = Some f' → k ≠ fu_id f → fu_id f' ≠ fu_id f) as Hother.
  { intros k f' Hk Hne. by rewrite (wf_followupKey db Hwf k f' Hk). }
  constructor; simpl; try apply Hwf.
  - intros k f' Hk. apply lookup_insert_Some in Hk as [[<- <-]|[_ Hk]]; [done|].
    by apply (wf_followupKey db).
  - intros k f' Hk. apply lookup_insert_Some in Hk as [[_ <-]|[_ Hk]];
      [|by eapply (wf_followupStep db)].
    by eapply bool_decide_eq_true, negb_false_iff.
  - intros k f' Hk. apply lookup_insert_Some in Hk as [[_ <-]|[_ Hk]];
      [|by eapply (wf_followupRecord db)]. by apply noRecord_false.
  - intros k1 k2 f1 f2 L1 L2 Hd1 Hd2 Heq.
    apply lookup_insert_Some in L1 as [[<- <-]|[Hk1 L1]],
      L2 as [[<- <-]|[Hk2 L2]]; [done|exfalso|exfalso|by eapply (wf_pending db)].
    + eapply (pendingConflict_false db f); eauto.
    + eapply (pendingConflict_false db f); eauto.
Qed.

Lemma wf_updateFollowup id st reason nowD db :
  wellFormed db → checkUpdateFollowup id st reason nowD db = None →
  wellFormed (setFollowups (alter (setFollowupStatus st reason nowD) id) db).
Proof.
  intros Hwf Hc.
  assert (∀ f k f', followups db !! id = Some f → k ≠ id → followups db !! k = Some f' →
    st = FU_DUE → fu_status f' = FU_DUE →
    (fu_outreachRecordId f', fu_step f') ≠ (fu_outreachRecordId f, fu_step f)) as Hother.
  { intros f k f' Hf Hk Hf' Hst Hd Heq. unfold checkUpdateFollowup in Hc. rewrite Hf in Hc.
    checked Hc. eapply (pendingConflict_false db _ k f'); eauto. simpl.
    rewrite (wf_followupKey db Hwf _ _ Hf), (wf_followupKey db Hwf _ _ Hf'). done. }
  constructor; simpl; try apply Hwf.
  - intros k f Hk. apply lookup_alter_Some in Hk as [(<- & f0 & Hf0 & ->)|[_ Hk]];
      [exact (wf_followupKey db Hwf _ _ Hf0)|by apply (wf_followupKey db)].
  - intros k f Hk. apply lookup_alter_Some in Hk as [(<- & f0 & Hf0 & ->)|[_ Hk]];
      [eapply (wf_followupStep db Hwf _ f0)|eapply (wf_followupStep db)]; eauto.
  - intros k f Hk. apply lookup_alter_Some in Hk as [(<- & f0 & Hf0 & ->)|[_ Hk]];
      [eapply (wf_followupRecord db Hwf _ f0)|eapply (wf_followupRecord db)]; eauto.
  - intros k1 k2 f1 f2 L1 L2 Hd1 Hd2 Heq.
    apply lookup_alter_Some in L1 as [(<- & f1' & L1 & ->)|[Hk1 L1]],
      L2 as [(<- & f2' & L2 & ->)|[Hk2 L2]]; [done| | |by eapply (wf_pending db)];
      exfalso; eapply Hother; eauto.
Qed.

Lemma wf_insertMessage m db :
  wellFormed db → checkInsertMessage m db = None → wellFormed (setMessages (λ l, l ++ [m]) db).
Proof.
  intros Hwf Hc. unfold checkInsertMessage in Hc. apply refuse_None in Hc.
  rewrite !Forall_cons in Hc. simpl in Hc. destruct Hc as (_ & Hg & Hrec & _).
  constructor; simpl; try apply Hwf.
  - intros m' [Hm'| ->%list_elem_of_singleton]%elem_of_app; [by apply (wf_messageRecord db)|].
    by apply noRecord_false.
  - rewrite omap_app. simpl. destruct (om_gmailMessageId m) as [g|];
      [|rewrite app_nil_r; apply Hwf].
    apply NoDup_snoc; [apply Hwf|]. intros (m' & Hm' & Heq)%list_elem_of_omap.
    rewrite existsb_false in Hg. specialize (Hg _ Hm'). by apply bool_decide_eq_false in Hg.
Qed.

Lemma wf_insertReply r db :
  wellFormed db → checkInsertReply r db = None → wellFormed (setReplies (λ l, l ++ [r]) db).
Proof.
  intros Hwf Hc. unfold checkInsertReply in Hc. apply refuse_None in Hc.
  rewrite !Forall_cons in Hc. simpl in Hc. destruct Hc as (_ & Hg & _).
  constructor; simpl; try apply Hwf.
  rewrite map_app. apply NoDup_snoc; [apply Hwf|].
  intros (r' & Heq & Hr')%list_elem_of_fmap. rewrite existsb_false in Hg.
  specialize (Hg _ Hr'). by apply bool_decide_eq_false in Hg.
Qed.

Lemma wf_insertDeliveryEvent e db :
  wellFormed db → checkInsertDeliveryEvent e db = None →
  wellFormed (setDeliveryEvents (λ l, l ++ [e]) db).
Proof.
  intros Hwf Hc. unfold checkInsertDeliveryEvent in Hc. apply refuse_None in Hc.
  rewrite !Forall_cons in Hc. simpl in Hc. destruct Hc as (_ & Hg & _).
  constructor; simpl; try apply Hwf.
  rewrite map_app. apply NoDup_snoc; [apply Hwf|].
  intros (e' & Heq & He')%list_elem_of_fmap. rewrite existsb_false in Hg.
  specialize (Hg _ He'). by apply bool_decide_eq_false in Hg.
Qed.

Lemma supersedeIn_dsn id at_ reason by_ l :
  map de_dsnGmailMessageId (supersedeIn id at_ reason by_ l) = map de_dsnGmailMessageId l.
Proof. unfold supersedeIn. rewrite map_map. apply map_ext. intros e. by case_bool_decide. Qed.

Lemma wf_supersede id at_ reason by_ db :
  wellFormed db → wellFormed (setDeliveryEvents (supersedeIn id at_ reason by_) db).
Proof. intros Hwf. constructor; simpl; try apply Hwf. rewrite supersedeIn_dsn. apply Hwf. Qed.

Lemma wf_insertEvent evt id db :
  wellFormed db → checkInsertEvent (eventAt db id evt) db = None →
  wellFormed (setEvents (λ l, l ++ [eventAt db id evt]) db).
Proof.
  intros Hwf Hc. unfold checkInsertEvent in Hc. apply refuse_None in Hc.
  rewrite !Forall_cons in Hc. simpl in Hc. destruct Hc as (_ & _ & Hrec & _).
  constructor; simpl; try apply Hwf.
  - intros e [He| ->%list_elem_of_singleton]%elem_of_app; [by apply (wf_eventRecord db)|].
    by apply noRecord_false.
  - intros k. rewrite recordEvents_app. case_bool_decide as Hk;
      [|rewrite app_nil_r; apply (wf_seq db Hwf)].
    rewrite map_app, length_app, (wf_seq db Hwf). simpl.
    unfold ev_recordId in Hk. simpl in Hk. rewrite maxSeq_wf, Hk by done.
    rewrite Nat2Z.inj_add, seqZ_app by lia. f_equal. simpl.
    rewrite seqZ_cons by lia. simpl. f_equal. lia.
Qed.

Lemma write_wellFormed db db' : write db db' → wellFormed db → wellFormed db'.
Proof.
  destruct 1; intros Hwf; eauto using wf_insertRecord, wf_updateRecord, wf_insertMessage,
    wf_insertReply, wf_insertFollowup, wf_updateFollowup, wf_insertDeliveryEvent, wf_supersede.
  by apply wf_insertEvent.
Qed.
Lemma writes_wellFormed db db' : writes db db' → wellFormed db → wellFormed db'.
Proof. induction 1; eauto using write_wellFormed. Qed.

Lemma emptyDb_wellFormed c l d f : wellFormed (emptyDb c l d f).
Proof.
  constructor; simpl; intros; repeat match goal with
  | H : ∅ !! _ = Some _ |- _ => by rewrite lookup_empty in H
  | H : _ ∈ [] |- _ => by apply not_elem_of_nil in H
  end; try constructor.
Qed.

Lemma reachable_wellFormed `{Runtime, TzDatabase} db : reachable db → wellFormed db.
Proof.
  intros (c & l & d & f & Hsteps).
  pose proof (emptyDb_wellFormed c l d f) as Hwf. revert Hwf. generalize (emptyDb c l d f), Hsteps.
  clear. induction 1 as [|db1 db2 db3 Hstep _ IH]; [done|].
  intros Hwf. by eapply IH, writes_wellFormed, Hwf; apply serviceStep_writes.
Qed.

(** ** History *)

(** What a write may do to a delivery event: annotate it once. *)
Definition annotated (e e' : OutreachDeliveryEvent) : Prop :=
  e' = e ∨ (de_supersededAt e = None ∧ ∃ at_ reason by_, e' = supersede at_ reason by_ e).

(** The columns of a record that no operation writes *)
Definition recordIdentity (r : OutreachRecord) :=
  (or_id r, or_campaignId r, or_leadId r, or_contactEmail r, or_timezone r, or_createdAt r).
(** The columns of a follow-up that no operation writes: all but its status, the
    reason of its cancellation and its modification time *)
Definition followupIdentity (f : OutreachFollowup) :=
  (fu_id f, fu_outreachRecordId f, fu_step f, fu_dueAt f, fu_timezone f, fu_createdAt f).

Record history (db db' : OutreachDb) : Prop := {
  hi_messages : messages db `prefix_of` messages db';
  hi_events : events db `prefix_of` events db';
  hi_replies : replies db `prefix_of` replies db';
  hi_delivery : ∃ l more, deliveryEvents db' = l ++ more ∧
    Forall2 annotated (deliveryEvents db) l;
  hi_records : ∀ k r, records db !! k = Some r →
    ∃ r', records db' !! k = Some r' ∧ recordIdentity r' = recordIdentity r;
  hi_followups : ∀ k f, followups db !! k = Some f →
    ∃ f', followups db' !! k = Some f' ∧ followupIdentity f' = followupIdentity f;
}.

Lemma recordPatchToSet_identity patch nowD r :
  recordIdentity (recordPatchToSet patch nowD r) = recordIdentity r.
Proof.
  unfold recordPatchToSet. revert r. induction patch as [|f patch IH]; intros r; simpl.
  - by destruct r.
  - rewrite IH. by destruct r, f.
Qed.

Lemma annotated_trans e1 e2 e3 : annotated e1 e2 → annotated e2 e3 → annotated e1 e3.
Proof.
  intros [->|(Hs & at_ & reason & by_ & ->)] [->|(Hs' & H')]; unfold annotated; eauto 10.
Qed.
Lemma Forall2_annotated_refl l : Forall2 annotated l l.
Proof. apply Forall_Forall2_diag. apply Forall_true. intros. by left. Qed.
Lemma supersedeIn_annotated id at_ reason by_ l :
  Forall2 annotated l (supersedeIn id at_ reason by_ l).
Proof.
  unfold supersedeIn. apply Forall2_fmap_r, Forall_Forall2_diag, Forall_true.
  intros e. simpl. case_bool_decide as Hc; [right|by left]. naive_solver.
Qed.

#[global] Instance history_preorder : PreOrder history.
Proof.
  split.
  - intros db. constructor; try done; [|by eauto..].
    exists (deliveryEvents db), []. rewrite app_nil_r. split; [done|]. apply Forall2_annotated_refl.
  - intros db1 db2 db3 H1 H2. constructor.
    + etrans; [apply H1|apply H2].
    + etrans; [apply H1|apply H2].
    + etrans; [apply H1|apply H2].
    + destruct (hi_delivery _ _ H1) as (l1 & m1 & E1 & A1).
      destruct (hi_delivery _ _ H2) as (l2 & m2 & E2 & A2). rewrite E1 in A2.
      apply Forall2_app_inv_l in A2 as (k1 & k2 & Ha & Hb & ->).
      exists k1, (k2 ++ m2). rewrite E2, (assoc_L (++)). split; [done|].
      eapply Forall2_trans; [|exact A1|exact Ha]. intros e1 e2 e3. apply annotated_trans.
    + intros k r Hk. destruct (hi_records _ _ H1 k r Hk) as (r' & Hk' & E').
      destruct (hi_records _ _ H2 k r' Hk') as (r'' & Hk'' & E''). exists r''. by rewrite E''.
    + intros k f Hk. destruct (hi_followups _ _ H1 k f Hk) as (f' & Hk' & E').
      destruct (hi_followups _ _ H2 k f' Hk') as (f'' & Hk'' & E''). exists f''. by rewrite E''.
Qed.

Lemma write_history db db' : write db db' → history db db'.
Proof.
  assert (history db db) as Hrefl by done. destruct Hrefl as [Hm He Hr Hd Hrec Hfu].
  destruct 1; constructor; simpl; try done; try (by apply prefix_app_r).
  - intros k r' Hk. exists r'. split; [|done]. rewrite lookup_insert_ne; [done|].
    intros <-. unfold checkInsertRecord in *. checked H.
    match goal with Hn : bool_decide (is_Some _) = false |- _ =>
      apply bool_decide_eq_false in Hn; destruct Hn; eauto end.
  - intros k r Hk. rewrite lookup_alter. destruct (decide (id = k)) as [->|]; [|eauto].
    rewrite Hk. eexists. split; [done|]. apply recordPatchToSet_identity.
  - intros k f' Hk. exists f'. split; [|done]. rewrite lookup_insert_ne; [done|].
    intros <-. unfold checkInsertFollowup in *. checked H.
    match goal with Hn : bool_decide (is_Some (followups _ !! _)) = false |- _ =>
      apply bool_decide_eq_false in Hn; destruct Hn; eauto end.
  - intros k f Hk. rewrite lookup_alter. destruct (decide (id = k)) as [->|]; [|eauto].
    rewrite Hk. eexists. split; [done|]. by destruct f.
  - exists (deliveryEvents db), [e]. split; [done|]. apply Forall2_annotated_refl.
  - eexists _, []. rewrite app_nil_r. split; [done|]. apply supersedeIn_annotated.
Qed.
Lemma writes_history db db' : writes db db' → history db db'.
Proof. induction 1; [done|]. etrans; [by apply write_history|done]. Qed.
