(* ===== verification/OutreachTimeline.v ===== *)
(** * The timeline of a record

    Every operation of the service moves the status of at most one record, along
    legal transitions, and logs where it moved it: replaying the events of a
    record gives its status at all times. *)
From S2P Require Import Prelude.
From S2P Require Import JsText.
From S2P Require Import TimeZone.
From S2P Require Import OutreachStatus.
From S2P Require Import OutreachGates.
From S2P Require Import ReplyClassification.
From S2P Require Import Delivery.
From S2P Require Import OutreachStore.
From S2P Require Import OutreachService.
From S2P Require Import OutreachWrites.
Open Scope Z_scope.
Open Scope list_scope.

(** ** Observations *)

Definition statusOf (db : OutreachDb) (id : string) : option OutreachStatus :=
  or_status <$> records db !! id.

(** Replaying a timeline.  The result is [Some s] when the events make sense, [s]
    being the status reached ([None] before the first event): an event that enters
    a status must leave the status reached so far, by a legal transition, and the
    first one enters DRAFT_READY. *)
Definition legalEntry (from : option OutreachStatus) (to : OutreachStatus) : bool :=
  match from with
  | Some f => canOutreachTransition f to
  | None => bool_decide (to = DRAFT_READY)
  end.
Definition replayStep (acc : option (option OutreachStatus)) (e : NewOutreachEvent) :
    option (option OutreachStatus) :=
  match acc, ne_toStatus e with
  | Some current, Some to =>
      if bool_decide (ne_fromStatus e = current) && legalEntry current to
      then Some (Some to) else None
  | _, _ => acc
  end.
Definition replay (db : OutreachDb) (id : string) : option (option OutreachStatus) :=
  fold_left replayStep (map ev_new (recordEvents db id)) (Some None).
(** The timelines tell the truth: each one replays to the status of its record. *)
Definition faithful (db : OutreachDb) : Prop := ∀ id, replay db id = Some (statusOf db id).

(** The status that a patch leaves behind *)
Definition patchStatus (patch : list RecordField) (s : OutreachStatus) : OutreachStatus :=
  fold_left (λ s f, match f with set_status s' => s' | _ => s end) patch s.
Definition keepsStatus (patch : list RecordField) : bool :=
  forallb (λ f, match f with set_status _ => false | _ => true end) patch.

Lemma recordPatchToSet_status patch nowD r :
  or_status (recordPatchToSet patch nowD r) = patchStatus patch (or_status r).
Proof.
  unfold recordPatchToSet, patchStatus. revert r.
  induction patch as [|f patch IH]; intros r; simpl; [by destruct r|].
  rewrite IH. by destruct r, f.
Qed.
Lemma keepsStatus_spec patch s : keepsStatus patch = true → patchStatus patch s = s.
Proof.
  revert s. unfold patchStatus. induction patch as [|[]]; simpl; intros; naive_solver.
Qed.

Lemma replay_append db e id :
  replay (setEvents (λ l, l ++ [e]) db) id =
  if decide (ev_recordId e = id) then replayStep (replay db id) (ev_new e) else replay db id.
Proof.
  unfold replay. rewrite recordEvents_app, map_app, fold_left_app.
  destruct (decide (ev_recordId e = id)); [by rewrite bool_decide_eq_true_2|].
  by rewrite bool_decide_eq_false_2.
Qed.
Lemma statusOf_update db patch nowD k id :
  statusOf (setRecords (alter (recordPatchToSet patch nowD) k) db) id =
  if decide (k = id) then patchStatus patch <$> statusOf db id else statusOf db id.
Proof.
  unfold statusOf. simpl. rewrite lookup_alter. destruct (decide (k = id)) as [->|]; [|done].
  destruct (records db !! id) as [r|]; simpl; [|done]. by rewrite recordPatchToSet_status.
Qed.

(** ** Quiet computations *)

(** No status changes, and no event says that one does. *)
Definition quiet (db db' : OutreachDb) : Prop :=
  ∀ id, statusOf db' id = statusOf db id ∧ replay db' id = replay db id.
#[global] Instance quiet_preorder : PreOrder quiet.
Proof.
  split; [done|]. intros db1 db2 db3 H12 H23 id.
  destruct (H12 id), (H23 id). split; congruence.
Qed.

(** Entering a status in the records, and in the timeline *)
Definition statusEntered (id : string) (to : OutreachStatus) (db db' : OutreachDb) : Prop :=
  ∀ k, statusOf db' k = (if decide (id = k) then Some to else statusOf db k) ∧
       replay db' k = replay db k.
Definition eventEntered (id : string) (to : OutreachStatus) (db db' : OutreachDb) : Prop :=
  ∀ k, statusOf db' k = statusOf db k ∧
       replay db' k = (if decide (id = k) then Some (Some to) else replay db k).
(** Both *)
Definition entered (id : string) (to : OutreachStatus) (db db' : OutreachDb) : Prop :=
  ∀ k, statusOf db' k = (if decide (id = k) then Some to else statusOf db k) ∧
       replay db' k = (if decide (id = k) then Some (Some to) else replay db k).

Lemma status_then_event id to db1 db2 db3 :
  statusEntered id to db1 db2 → eventEntered id to db2 db3 → entered id to db1 db3.
Proof. intros H1 H2 k. destruct (H1 k) as [E1 E2], (H2 k) as [-> ->]. by rewrite E1, E2. Qed.
Lemma event_then_status id to db1 db2 db3 :
  eventEntered id to db1 db2 → statusEntered id to db2 db3 → entered id to db1 db3.
Proof. intros H1 H2 k. destruct (H1 k) as [E1 E2], (H2 k) as [-> ->]. by rewrite E1, E2. Qed.
Lemma event_then_event id to to' db1 db2 db3 :
  eventEntered id to db1 db2 → eventEntered id to' db2 db3 → eventEntered id to' db1 db3.
Proof.
  intros H1 H2 k. destruct (H1 k) as [E1 E2], (H2 k) as [-> ->]. rewrite E1, E2.
  by destruct (decide (id = k)).
Qed.
Lemma quiet_event id to db1 db2 db3 :
  quiet db1 db2 → eventEntered id to db2 db3 → eventEntered id to db1 db3.
Proof. intros H1 H2 k. destruct (H1 k) as [E1 E2], (H2 k) as [-> ->]. by rewrite E1, E2. Qed.
Lemma event_quiet id to db1 db2 db3 :
  eventEntered id to db1 db2 → quiet db2 db3 → eventEntered id to db1 db3.
Proof. intros H1 H2 k. destruct (H1 k) as [E1 E2], (H2 k) as [-> ->]. by rewrite E1, E2. Qed.
Lemma quiet_status id to db1 db2 db3 :
  quiet db1 db2 → statusEntered id to db2 db3 → statusEntered id to db1 db3.
Proof. intros H1 H2 k. destruct (H1 k) as [E1 E2], (H2 k) as [-> ->]. by rewrite E1, E2. Qed.
Lemma quiet_entered id to db1 db2 db3 :
  quiet db1 db2 → entered id to db2 db3 → entered id to db1 db3.
Proof. intros H1 H2 k. destruct (H1 k) as [E1 E2], (H2 k) as [-> ->]. by rewrite E1, E2. Qed.
Lemma entered_quiet id to db1 db2 db3 :
  entered id to db1 db2 → quiet db2 db3 → entered id to db1 db3.
Proof. intros H1 H2 k. destruct (H1 k) as [E1 E2], (H2 k) as [-> ->]. by rewrite E1, E2. Qed.

Section quiet_ops.
Context `{Runtime, TzDatabase}.

Lemma wp_respects {A} (R : relation OutreachDb) (m : OM A) Q w :
  respects R m → (∀ a w', R (w_db w) (w_db w') → Q a w') → wp m Q w.
Proof using Type. intros Hm HQ. eapply wp_mono; [|apply Hm]. simpl. auto. Qed.

Lemma insertMessage_quiet m : respects quiet (insertMessage m).
Proof. by apply (respects_guarded quiet). Qed.
Lemma insertReply_quiet r : respects quiet (insertReply r).
Proof. by apply (respects_guarded quiet). Qed.
Lemma insertFollowup_quiet f : respects quiet (insertFollowup f).
Proof. by apply (respects_guarded quiet). Qed.
Lemma updateFollowupStatus_quiet id st reason nowD :
  respects quiet (updateFollowupStatus id st reason nowD).
Proof. by apply (respects_guarded quiet). Qed.
Lemma insertDeliveryEvent_quiet e : respects quiet (insertDeliveryEvent e).
Proof. by apply (respects_guarded quiet). Qed.
Lemma supersedeDeliveryEvent_quiet id at_ reason by_ :
  respects quiet (supersedeDeliveryEvent id at_ reason by_).
Proof. by apply (respects_modify quiet). Qed.
Lemma updateRecord_quiet id patch nowD :
  keepsStatus patch = true → respects quiet (updateRecord id patch nowD).
Proof.
  intros Hp. apply (respects_guarded quiet). intros db _ k. split; [|done].
  rewrite statusOf_update. destruct (decide (id = k)); [|done].
  destruct (statusOf db k); simpl; [|done]. by rewrite keepsStatus_spec.
Qed.
Lemma plainEvent_quiet id type message data :
  respects quiet (appendEvent (plainEvent id type message data)).
Proof.
  intros w. apply wp_appendEvent. intros eid Hc k. split; [done|]. cbn [w_db].
  rewrite replay_append. unfold replayStep. simpl.
  by destruct (decide _), (replay _ _).
Qed.

Lemma scheduledEvent_quiet id step dueAt : respects quiet (appendEvent (scheduledEvent id step dueAt)).
Proof. apply plainEvent_quiet. Qed.

Lemma wp_event_entered evt to (Q : Z → world OutreachDb → Prop) w :
  ne_toStatus evt = Some to →
  replay (w_db w) (ne_outreachRecordId evt) = Some (ne_fromStatus evt) →
  legalEntry (ne_fromStatus evt) to = true →
  (∀ a w', eventEntered (ne_outreachRecordId evt) to (w_db w) (w_db w') → Q a w') →
  wp (appendEvent evt) Q w.
Proof.
  intros Hto Hfrom Hlegal HQ. apply wp_appendEvent. intros eid Hc. apply HQ. intros k.
  split; [done|].
  cbn [w_db]. rewrite replay_append. unfold ev_recordId. simpl.
  destruct (decide (_ = k)) as [<-|]; [|done]. unfold replayStep.
  by rewrite Hfrom, Hto, Hlegal, bool_decide_eq_true_2.
Qed.
Lemma wp_status_entered id patch nowD from to (Q : () → world OutreachDb → Prop) w :
  statusOf (w_db w) id = Some from → patchStatus patch from = to →
  (∀ w', statusEntered id to (w_db w) (w_db w') → Q () w') →
  wp (updateRecord id patch nowD) Q w.
Proof.
  intros Hfrom Hto HQ. unfold updateRecord. apply wp_guarded. intros Hc. apply HQ.
  intros k. split; [|done]. cbn [w_db]. rewrite statusOf_update.
  destruct (decide (id = k)) as [->|]; [|done]. rewrite Hfrom. simpl. by rewrite Hto.
Qed.
End quiet_ops.

#[export] Hint Resolve insertMessage_quiet insertReply_quiet insertFollowup_quiet
  updateFollowupStatus_quiet insertDeliveryEvent_quiet supersedeDeliveryEvent_quiet
  updateRecord_quiet plainEvent_quiet scheduledEvent_quiet : outreach.

(** ** What one operation does to statuses and timelines *)

Inductive statusStep (db db' : OutreachDb) : Prop :=
  | step_quiet : quiet db db' → statusStep db db'
  | step_created id : statusOf db id = None → entered id DRAFT_READY db db' → statusStep db db'
  | step_moved id from to : statusOf db id = Some from → rtc legalStep from to →
      entered id to db db' → statusStep db db'.

(** The record [id] may have moved to [to]; nothing else did. *)
Definition movedTo (id : string) (to : OutreachStatus) (db db' : OutreachDb) : Prop :=
  quiet db db' ∨
  ∃ from, statusOf db id = Some from ∧ rtc legalStep from to ∧ entered id to db db'.

Lemma moved_quiet id to db db' : quiet db db' → movedTo id to db db'.
Proof. by left. Qed.
Lemma moved_by id from to db db' :
  statusOf db id = Some from → rtc legalStep from to → entered id to db db' → movedTo id to db db'.
Proof. right. eauto. Qed.
(** The record [id] moved to [to], or nothing was written at all. *)
Definition movedOrNothing (id : string) (to : OutreachStatus) (db db' : OutreachDb) : Prop :=
  db' = db ∨
  ∃ from, statusOf db id = Some from ∧ rtc legalStep from to ∧ entered id to db db'.
Lemma movedOrNothing_by id from to db db' :
  statusOf db id = Some from → rtc legalStep from to → entered id to db db' →
  movedOrNothing id to db db'.
Proof. right. eauto. Qed.
Lemma movedOrNothing_moved id to db db' : movedOrNothing id to db db' → movedTo id to db db'.
Proof. intros [->|?]; [by left|by right]. Qed.

(** A new record appeared, or nothing was written at all. *)
Definition createdOrNothing (db db' : OutreachDb) : Prop :=
  db' = db ∨ ∃ id, statusOf db id = None ∧ entered id DRAFT_READY db db'.
Lemma createdOrNothing_step db db' : createdOrNothing db db' → statusStep db db'.
Proof. intros [->|(id & ? & ?)]; [by apply step_quiet|by eapply step_created]. Qed.

Lemma movedTo_step id to db db' : movedTo id to db db' → statusStep db db'.
Proof. intros [?|(from & ? & ? & ?)]; [by apply step_quiet|by eapply step_moved]. Qed.

Section status_steps.
Context `{Runtime, TzDatabase}.

Lemma wp_require id (Q : OutreachRecord → world OutreachDb → Prop) w :
  (∀ rec, records (w_db w) !! id = Some rec → Q rec w) → wp (require id) Q w.
Proof using Type.
  intros HQ. unfold require, getRecord. rewrite wp_bind, wp_query.
  destruct (records (w_db w) !! id); [|done]. rewrite wp_ret. auto.
Qed.

Lemma cancelPending_quiet id reason nowD : respects quiet (cancelPending id reason nowD).
Proof. unfold cancelPending, cancelOne, pendingFollowups. respects_tac. Qed.
#[local] Hint Resolve cancelPending_quiet : outreach.

(** One step of a computation that neither changes nor logs a status *)
Ltac quiet_step := eapply (wp_respects quiet); [by respects_tac|].

Lemma track_step input w :
  faithful (w_db w) → wp (track input) (λ _ w', createdOrNothing (w_db w) (w_db w')) w.
Proof.
  intros Hf. unfold track, hasDoNotContact, findActiveRecord. wp_run.
  case_match; [rewrite wp_ret; by left|]. wp_run. case_match; [rewrite wp_ret; by left|]. wp_run.
  set (r := Build_OutreachRecord _ _ _ _ _ _ _ _ _ _ _ _ _ _ _ _ _). unfold insertRecord.
  rewrite wp_guarded. intros Hc. rewrite wp_bind. cbn [w_db w_ticks w_uuids].
  unfold checkInsertRecord in Hc. apply refuse_None in Hc. rewrite Forall_cons in Hc.
  destruct Hc as [Hnew _]. apply bool_decide_eq_false, eq_None_not_Some in Hnew.
  cbn [w_db] in Hnew.
  eapply wp_event_entered; [done| |done|].
  { cbn. transitivity (replay (w_db w) (or_id r)); [done|]. rewrite Hf. unfold statusOf.
    by rewrite Hnew. }
  intros seq w' Hev. rewrite wp_ret.
  right. exists (or_id r). split; [by unfold statusOf; rewrite Hnew|].
  eapply status_then_event; [|exact Hev]. intros k. split; [|done].
  unfold statusOf. simpl. rewrite lookup_insert. by destruct (decide _).
Qed.

Lemma legal_of_assert from to u : assertOutreachTransition from to = Ok u → legalStep from to.
Proof using Type. apply assertOutreachTransition_ok. Qed.

Ltac done_moved := rewrite wp_ret; by apply moved_quiet.
Ltac done_nothing := rewrite wp_ret; by left.
Ltac done_nothing_at step := rewrite wp_ret; exists step; by left.

Lemma transition_step id to reason so w :
  faithful (w_db w) → wp (transition id to reason so) (λ _ w', movedOrNothing id to (w_db w) (w_db w')) w.
Proof.
  intros Hf. unfold transition. rewrite wp_transaction, wp_bind. apply wp_require.
  intros rec Hrec.
  assert (statusOf (w_db w) id = Some (or_status rec)) as Hof by (unfold statusOf; by rewrite Hrec).
  wp_run. intros u Hlegal%legal_of_assert. wp_run. set (patch := [set_status to] ++ _).
  eapply (wp_status_entered _ _ _ (or_status rec) to); [exact Hof| |].
  { unfold patch. destruct (bool_decide (to ∈ _)), so, (bool_decide (to ∈ _)), (cancelsFollowups to);
      reflexivity. }
  intros w1 K1. rewrite wp_bind. eapply wp_event_entered; [done| |exact Hlegal|].
  { destruct (K1 id) as [_ E]. cbn in E |- *. by rewrite E, Hf, Hof. }
  intros seq w2 K2. rewrite wp_bind. quiet_step. intros [] w3 K3. rewrite wp_ret.
  eapply (movedOrNothing_by id (or_status rec) to); [exact Hof|by eapply rtc_once|].
  by eapply entered_quiet, K3; eapply status_then_event.
Qed.

(** Where a walk along a path ends *)
Fixpoint endOf (from : OutreachStatus) (path : list OutreachStatus) : OutreachStatus :=
  match path with [] => from | to :: path => endOf to path end.

Lemma walkPath_spec id att from path (Q : () → world OutreachDb → Prop) w :
  replay (w_db w) id = Some (Some from) →
  (∀ w', (path = [] → quiet (w_db w) (w_db w')) →
     (path ≠ [] → eventEntered id (endOf from path) (w_db w) (w_db w')) →
     rtc legalStep from (endOf from path) → Q () w') →
  wp (walkPath id att from path) Q w.
Proof.
  revert from Q w. induction path as [|to path IH]; intros from Q w Hfrom HQ; simpl.
  { rewrite wp_ret. apply HQ; [done|done|apply rtc_refl]. }
  rewrite wp_bind, wp_lift_res. intros u Hlegal%legal_of_assert. rewrite wp_bind.
  eapply wp_event_entered; [done|exact Hfrom|exact Hlegal|]. intros seq w1 K1.
  apply IH; [destruct (K1 id) as [_ ->]; by rewrite decide_True|]. intros w2 Hq He Hr.
  apply HQ; [done| |].
  - intros _. destruct path as [|to' path].
    + simpl. eapply event_quiet; [exact K1|by apply Hq].
    + eapply event_then_event; [exact K1|]. specialize (He ltac:(done)).
      exact He.
  - eapply rtc_l; [exact Hlegal|exact Hr].
Qed.

(** The walk from an enrollable status leads to INITIAL_SENT. *)
Lemma enrollIndex_path s i :
  enrollIndex s = Some i → s ≠ INITIAL_SENT →
  drop (S i) ENROLL_PATH ≠ [] ∧ endOf s (drop (S i) ENROLL_PATH) = INITIAL_SENT.
Proof using Type.
  destruct s; vm_compute; intros [=]; subst; split; congruence.
Qed.

Lemma enrollConfirmedSend_step input w :
  wellFormed (w_db w) → faithful (w_db w) →
  wp (enrollConfirmedSend input)
    (λ _ w', movedOrNothing (ecs_outreachRecordId input) INITIAL_SENT (w_db w) (w_db w')) w.
Proof.
  intros Hwf Hf. unfold enrollConfirmedSend, findMessageByGmailMessageId.
  rewrite wp_transaction, wp_bind. apply wp_require. intros rec Hrec.
  pose proof (wf_recordKey _ Hwf _ _ Hrec) as Hkey.
  rewrite wp_bind, wp_query. case_match; [done_nothing|].
  destruct (enrollIndex (or_status rec)) as [i|] eqn:Hi; [|done_nothing].
  case_bool_decide as Hs; [done_nothing|]. destruct (enrollIndex_path _ _ Hi Hs) as [Hne Hlast].
  assert (statusOf (w_db w) (or_id rec) = Some (or_status rec)) as Hof
    by (unfold statusOf; by rewrite Hkey, Hrec).
  wp_run. set (w0 := World _ _ _). quiet_step. intros [] w1 K1.
  rewrite wp_bind. quiet_step. intros seq w2 K2.
  assert (quiet (w_db w) (w_db w2)) as K12 by (by transitivity (w_db w1)).
  rewrite wp_bind. apply walkPath_spec.
  { destruct (K12 (or_id rec)) as [_ ->]. by rewrite Hf, Hof. }
  intros w3 _ He Hr. specialize (He Hne).
  rewrite Hlast in He, Hr.
  rewrite wp_bind. eapply (wp_respects quiet); [by respects_tac|]. intros dueAt w4 K4.
  rewrite wp_bind. quiet_step. intros fid w5 K5.
  rewrite wp_bind. quiet_step. intros [] w6 K6. rewrite wp_bind.
  assert (eventEntered (or_id rec) INITIAL_SENT (w_db w) (w_db w6)) as He6.
  { eapply event_quiet, K6. eapply event_quiet, K5. eapply event_quiet, K4.
    by eapply quiet_event, He. }
  eapply (wp_status_entered _ _ _ (or_status rec) INITIAL_SENT); [|done|].
  { by destruct (He6 (or_id rec)) as [-> _]. }
  intros w7 K7. rewrite wp_bind. quiet_step. intros seq' w8 K8. rewrite wp_ret.
  rewrite <-Hkey. eapply (movedOrNothing_by (or_id rec) (or_status rec) INITIAL_SENT); [exact Hof|done|].
  eapply entered_quiet, K8. by eapply event_then_status.
Qed.

Lemma followup_legal step : legalStep (followupDueStatus step) (followupSentStatus step).
Proof using Type. by destruct step. Qed.

Lemma enrollConfirmedFollowup_step input w :
  wellFormed (w_db w) → faithful (w_db w) →
  wp (enrollConfirmedFollowup input)
    (λ _ w', movedOrNothing (ecf_outreachRecordId input) (followupSentStatus (ecf_expectedStep input))
               (w_db w) (w_db w')) w.
Proof.
  intros Hwf Hf. unfold enrollConfirmedFollowup, findMessageByGmailMessageId, pendingFollowups.
  rewrite wp_transaction, wp_bind. apply wp_require. intros rec Hrec.
  pose proof (wf_recordKey _ Hwf _ _ Hrec) as Hkey.
  rewrite wp_bind, wp_query. case_match; [done_nothing|].
  destruct (pendingFollowupStep (or_status rec)) as [step|] eqn:Hstep; [|done_nothing].
  case_bool_decide as Hexp; cbn [negb]; [|done_nothing].
  assert (or_status rec = followupDueStatus step) as Hst by (by destruct (or_status rec), step).
  assert (statusOf (w_db w) (or_id rec) = Some (followupDueStatus step)) as Hof
    by (unfold statusOf; by rewrite Hkey, Hrec, <-Hst).
  wp_run. quiet_step. intros [] w1 K1. rewrite wp_bind. quiet_step. intros seq w2 K2.
  rewrite wp_bind, wp_query, wp_bind. quiet_step. intros [] w3 K3.
  assert (quiet (w_db w) (w_db w3)) as K13.
  { transitivity (w_db w2); [|done]. by transitivity (w_db w1). }
  rewrite wp_bind, wp_lift_res. intros _ _. rewrite wp_bind.
  eapply wp_event_entered; [done| |apply followup_legal|].
  { cbn. destruct (K13 (or_id rec)) as [_ ->]. by rewrite Hf, Hof. }
  intros seq' w4 K4. cbn [ne_outreachRecordId] in K4.
  rewrite wp_bind. quiet_step. intros next w5 K5. rewrite wp_bind.
  assert (eventEntered (or_id rec) (followupSentStatus step) (w_db w) (w_db w5)) as He5.
  { eapply event_quiet, K5. by eapply quiet_event, K4. }
  eapply (wp_status_entered _ _ _ (followupDueStatus step) (followupSentStatus step)); [|done|].
  { by destruct (He5 (or_id rec)) as [-> _]. }
  intros w6 K6. rewrite wp_bind. quiet_step. intros seq'' w7 K7. rewrite wp_ret.
  rewrite <-Hkey, <-Hexp.
  eapply (movedOrNothing_by (or_id rec)); [exact Hof|apply rtc_once, followup_legal|].
  eapply entered_quiet, K7. by eapply event_then_status.
Qed.

Lemma promoteFollowupDue_step input w :
  faithful (w_db w) →
  wp (promoteFollowupDue input)
    (λ _ w', ∃ step, movedOrNothing (pf_outreachRecordId input) (followupDueStatus step) (w_db w) (w_db w')) w.
Proof.
  intros Hf. unfold promoteFollowupDue, promoteFollowupDue_with, getFollowup, updateRecordIfStatus.
  rewrite wp_transaction, wp_bind, wp_query. destruct (followups _ !! _) as [f|]; [|done_nothing_at Step1].
  destruct (negb _); [done_nothing_at Step1|]. unfold getRecord. rewrite wp_bind, wp_query, wp_bind, wp_now.
  cbn [w_db w_ticks w_uuids].
  destruct (decideFollowupPromotion _ _) as [step from to| | |] eqn:Hdec;
    [|done_nothing_at Step1..].
  apply decideFollowupPromotion_iff in Hdec as (_ & _ & _ & _ & _ & _ & Hto & _).
  rewrite wp_bind, wp_lift_res. intros u Hlegal%legal_of_assert.
  rewrite wp_bind, wp_now. cbn [w_db w_ticks w_uuids]. rewrite wp_bind, wp_ret, wp_bind, wp_bind.
  rewrite wp_query. cbn [w_db]. case_bool_decide as Hfrom; [|rewrite wp_ret; cbn [negb]; done_nothing_at step].
  rewrite wp_bind. eapply (wp_status_entered _ _ _ from to); [exact Hfrom|done|].
  intros w1 K1. rewrite wp_ret. simpl. rewrite wp_bind.
  eapply wp_event_entered; [done| |exact Hlegal|].
  { destruct (K1 (pf_outreachRecordId input)) as [_ E]. cbn in E |- *.
    rewrite E, Hf. unfold statusOf. by rewrite Hfrom. }
  intros seq w2 K2. rewrite wp_ret.
  exists step. rewrite <-Hto.
  eapply (movedOrNothing_by (pf_outreachRecordId input) from to); [exact Hfrom|by apply rtc_once|].
  by eapply status_then_event.
Qed.

Lemma applyReply_step input w :
  faithful (w_db w) →
  wp (applyReply input)
    (λ _ w', movedTo (ar_outreachRecordId input) (classificationToStatus (ar_classification input))
               (w_db w) (w_db w')) w.
Proof.
  intros Hf. unfold applyReply. rewrite wp_transaction, wp_bind. apply wp_require.
  intros rec Hrec. wp_run. quiet_step. intros [] w1 K1.
  assert (statusOf (w_db w) (ar_outreachRecordId input) = Some (or_status rec)) as Hof
    by (unfold statusOf; by rewrite Hrec).
  destruct (K1 (ar_outreachRecordId input)) as [Es Er]. cbn in Es, Er. rewrite Hof in Es.
  rewrite Hf, Hof in Er.
  set (to := classificationToStatus _). destruct (is_ok _) eqn:Hok.
  - assert (legalStep (or_status rec) to) as Hlegal.
    { destruct (assertOutreachTransition _ _) as [u|] eqn:E; [|done]. by apply legal_of_assert in E. }
    wp_run. eapply (wp_status_entered _ _ _ (or_status rec) to); [exact Es|by case_bool_decide|].
    intros w2 K2. rewrite wp_bind. eapply wp_event_entered; [done| |exact Hlegal|].
    { destruct (K2 (ar_outreachRecordId input)) as [_ E]. cbn in E |- *. by rewrite E, Er. }
    intros seq w3 K3.
    wp_run. quiet_step. intros seq' w4 K4. rewrite wp_bind. quiet_step. intros [] w5 K5.
    rewrite wp_ret. eapply (moved_by (ar_outreachRecordId input) (or_status rec) to).
    + exact Hof.
    + by apply rtc_once.
    + eapply entered_quiet, K5. eapply entered_quiet, K4. eapply quiet_entered; [exact K1|].
      by eapply status_then_event.
  - wp_run. quiet_step. intros [] w2 K2. rewrite wp_bind. quiet_step. intros seq w3 K3.
    rewrite wp_bind. quiet_step. intros [] w4 K4. rewrite wp_ret. apply moved_quiet.
    transitivity (w_db w3); [|done]. transitivity (w_db w2); [|done]. by transitivity (w_db w1).
Qed.

(** The branch "record left in place" of [applyDeliveryFailure] is dead: from every
    status that passes the guard before it, BOUNCED is a legal transition. *)
Lemma bounce_always_legal s :
  s ∉ OUTREACH_SEND_BLOCKED → canOutreachTransition s OutreachStatus.BOUNCED = true.
Proof using Type.
  intros Hs. destruct s; try reflexivity; destruct Hs; apply list_elem_of_In; simpl; tauto.
Qed.

Lemma applyDeliveryFailure_step input w :
  faithful (w_db w) →
  wp (applyDeliveryFailure input)
    (λ _ w', movedTo (df_outreachRecordId input) OutreachStatus.BOUNCED (w_db w) (w_db w')) w.
Proof.
  intros Hf. unfold applyDeliveryFailure, deliveryEventExists, pendingFollowups.
  rewrite wp_transaction, wp_bind. apply wp_require. intros rec Hrec. wp_run.
  case_match; [done_moved|]. case_bool_decide as Hblocked; [done_moved|]. wp_run.
  quiet_step. intros [] w1 K1. destruct (negb _).
  { rewrite wp_bind. quiet_step. intros seq w2 K2. rewrite wp_ret. apply moved_quiet.
    by transitivity (w_db w1). }
  assert (statusOf (w_db w) (df_outreachRecordId input) = Some (or_status rec)) as Hof
    by (unfold statusOf; by rewrite Hrec).
  destruct (K1 (df_outreachRecordId input)) as [Es Er]. cbn in Es, Er. rewrite Hof in Es.
  rewrite Hf, Hof in Er.
  rewrite bounce_always_legal by done. rewrite wp_bind.
  eapply (wp_status_entered _ _ _ (or_status rec) OutreachStatus.BOUNCED); [|done|].
  { exact Es. }
  intros w2 K2. rewrite wp_bind.
  eapply wp_event_entered; [done| |by apply bounce_always_legal|].
  { destruct (K2 (df_outreachRecordId input)) as [_ E]. cbn in E |- *. by rewrite E, Er. }
  intros seq w3 K3.
  rewrite wp_bind, wp_query, wp_bind. quiet_step. intros [] w4 K4.
  rewrite wp_bind. quiet_step. intros seq' w5 K5. rewrite wp_ret.
  eapply (moved_by (df_outreachRecordId input) (or_status rec) OutreachStatus.BOUNCED).
  - exact Hof.
  - by apply rtc_once, bounce_always_legal.
  - eapply entered_quiet, K5. eapply entered_quiet, K4. eapply quiet_entered; [exact K1|].
    by eapply status_then_event.
Qed.
End status_steps.

Section exec_steps.
Context `{Runtime, TzDatabase}.
#[local] Hint Resolve cancelPending_quiet : outreach.

Lemma recordMessage_quiet input : respects quiet (recordMessage input).
Proof. unfold recordMessage. pose proof (require_respects quiet). respects_tac. Qed.
Lemma scheduleFollowup_quiet id step policy : respects quiet (scheduleFollowup id step policy).
Proof. unfold scheduleFollowup. pose proof (require_respects quiet). respects_tac. Qed.
Lemma cancelFollowup_quiet f id reason : respects quiet (cancelFollowup f id reason).
Proof. unfold cancelFollowup. respects_tac. Qed.
Lemma postponeFollowup_quiet f id due reason : respects quiet (postponeFollowup f id due reason).
Proof. unfold postponeFollowup. respects_tac. Qed.
Lemma correctDeliveryEvents_quiet input : respects quiet (correctDeliveryEvents input).
Proof. unfold correctDeliveryEvents, deliveryEventsByDsnIds. cbv zeta. respects_tac. Qed.

Lemma wp_ignore {A} (m : OM A) (Q : world OutreachDb → Prop) w :
  wp (ignore m) (λ _, Q) w ↔ wp m (λ _, Q) w.
Proof using Type. unfold ignore. by rewrite wp_bind. Qed.

Lemma exec_step op w :
  wellFormed (w_db w) → faithful (w_db w) →
  wp (exec op) (λ _ w', statusStep (w_db w) (w_db w')) w.
Proof.
  intros Hwf Hf.
  assert (∀ A (m : OM A), respects quiet m → wp m (λ _ w', statusStep (w_db w) (w_db w')) w) as Hq.
  { intros A m Hm. eapply (wp_respects quiet); [exact Hm|]. intros. by apply step_quiet. }
  assert (∀ A (m : OM A) id to, wp m (λ _ w', movedTo id to (w_db w) (w_db w')) w →
    wp m (λ _ w', statusStep (w_db w) (w_db w')) w) as Hm.
  { intros A m id to. apply wp_mono. intros _ w'. apply movedTo_step. }
  assert (∀ A (m : OM A) id to, wp m (λ _ w', movedOrNothing id to (w_db w) (w_db w')) w →
    wp m (λ _ w', statusStep (w_db w) (w_db w')) w) as Hm'.
  { intros A m id to. apply wp_mono. intros _ w' ?. by eapply movedTo_step, movedOrNothing_moved. }
  assert (∀ A (m : OM A), wp m (λ _ w', createdOrNothing (w_db w) (w_db w')) w →
    wp m (λ _ w', statusStep (w_db w) (w_db w')) w) as Hc.
  { intros A m. apply wp_mono. intros _ w'. apply createdOrNothing_step. }
  destruct op; unfold exec; rewrite ?wp_ignore;
    eauto using track_step, transition_step, enrollConfirmedSend_step,
      enrollConfirmedFollowup_step, applyReply_step,
      applyDeliveryFailure_step, recordMessage_quiet, scheduleFollowup_quiet,
      cancelFollowup_quiet, postponeFollowup_quiet, correctDeliveryEvents_quiet.
  eapply wp_mono; [|by apply promoteFollowupDue_step]. simpl. intros _ w' [step Hs].
  by eapply movedTo_step, movedOrNothing_moved.
Qed.

Lemma statusStep_faithful db db' : statusStep db db' → faithful db → faithful db'.
Proof using Type.
  destruct 1 as [Hq|id _ He|id from to _ _ He]; intros Hf k; [destruct (Hq k) as [-> ->]; apply Hf|..];
    destruct (He k) as [-> ->]; by destruct (decide (id = k)).
Qed.

Lemma serviceStep_status db db' :
  wellFormed db → faithful db → serviceStep db db' → statusStep db db'.
Proof.
  intros Hwf Hf (op & t & u & r & w' & Hrun & <-). rewrite <-exec_transaction in Hrun.
  apply (transaction_wp (exec op) statusStep) in Hrun; [done| |].
  - intros db'. apply step_quiet. done.
  - by apply exec_step.
Qed.

Lemma serviceSteps_faithful db db' :
  rtc serviceStep db db' → wellFormed db → faithful db → wellFormed db' ∧ faithful db'.
Proof.
  induction 1 as [|db1 db2 db3 Hs _ IH]; [done|]. intros Hwf Hf. apply IH.
  - by eapply writes_wellFormed, Hwf; apply serviceStep_writes.
  - eapply statusStep_faithful, Hf. by apply serviceStep_status.
Qed.
Lemma reachable_faithful db : reachable db → wellFormed db ∧ faithful db.
Proof.
  intros (c & l & d & f & Hsteps). eapply serviceSteps_faithful; [exact Hsteps| |].
  - apply emptyDb_wellFormed.
  - intros id. unfold statusOf. simpl. by rewrite lookup_empty.
Qed.

(** How the status of one record may move *)
Definition statusMoves (before after : option OutreachStatus) : Prop :=
  match before, after with
  | None, None => True
  | None, Some s => rtc legalStep DRAFT_READY s
  | Some s, Some s' => rtc legalStep s s'
  | Some _, None => False
  end.
Lemma statusMoves_refl s : statusMoves s s.
Proof using Type. destruct s; simpl; [apply rtc_refl|done]. Qed.
Lemma statusMoves_trans a b c : statusMoves a b → statusMoves b c → statusMoves a c.
Proof using Type. destruct a, b, c; simpl; try done; by etrans. Qed.
Lemma statusStep_moves db db' id :
  statusStep db db' → statusMoves (statusOf db id) (statusOf db' id).
Proof using Type.
  destruct 1 as [Hq|i Hnone He|i from to Hfrom Hr He]; [destruct (Hq id) as [-> _]; apply statusMoves_refl|..];
    destruct (He id) as [-> _]; destruct (decide (i = id)) as [<-|]; auto using statusMoves_refl.
  - rewrite Hnone. apply rtc_refl.
  - by rewrite Hfrom.
Qed.
Lemma serviceSteps_moves db db' id :
  reachable db → rtc serviceStep db db' → statusMoves (statusOf db id) (statusOf db' id).
Proof.
  intros Hreach%reachable_faithful Hsteps. revert Hreach.
  induction Hsteps as [db|db1 db2 db3 Hs Hrest IH]; intros [Hwf Hf].
  - apply statusMoves_refl.
  - eapply statusMoves_trans; [eapply statusStep_moves, serviceStep_status; eauto|].
    apply IH. eapply serviceSteps_faithful; eauto. by apply rtc_once.
Qed.
End exec_steps.
