(* ===== verification/OutreachFollowups.v ===== *)
(** * Pending follow-ups

    No follow-up stays pending on a suppressed record: every operation of the
    service but [postponeFollowup] preserves this, and [postponeFollowup] breaks it. *)
From S2P Require Import Prelude.
From S2P Require Import JsText.
From S2P Require Import TimeZone.
From S2P Require Import OutreachStatus.
From S2P Require Import OutreachGates.
From S2P Require Import ReplyClassification.
From S2P Require Import Delivery.
From S2P Require Import OutreachStore.
From S2P Require Import OutreachService.
From S2P Require Import OutreachWrites.
From S2P Require Import OutreachTimeline.
Open Scope Z_scope.
Open Scope list_scope.

(** Some follow-up of the record is DUE or POSTPONED. *)
Definition pendingOf (db : OutreachDb) (id : string) : Prop :=
  ∃ k f, followups db !! k = Some f ∧ isPending id f = true.
(** No suppressed record has a pending follow-up. *)
Definition settled (db : OutreachDb) : Prop :=
  ∀ id s, statusOf db id = Some s → suppressed s → ¬ pendingOf db id.

(** No record but [id] gains a pending follow-up, or changes its status. *)
Definition shrinks (db db' : OutreachDb) : Prop := ∀ k, pendingOf db' k → pendingOf db k.
Definition onlyFor (id : string) (db db' : OutreachDb) : Prop :=
  ∀ k, k ≠ id → (pendingOf db' k → pendingOf db k) ∧ statusOf db' k = statusOf db k.
#[global] Instance shrinks_preorder : PreOrder shrinks.
Proof. split; [by intros db k|]. intros db1 db2 db3 H1 H2 k Hk. by apply H1, H2. Qed.
#[global] Instance onlyFor_preorder id : PreOrder (onlyFor id).
Proof.
  split; [by intros db k|]. intros db1 db2 db3 H1 H2 k Hk.
  destruct (H1 k Hk) as [? E1], (H2 k Hk) as [? E2]. split; [auto|congruence].
Qed.

(** When an operation on [id] keeps the database settled *)
Definition settles (id : string) (db db' : OutreachDb) : Prop :=
  ¬ pendingOf db' id ∨ (∃ s, statusOf db' id = Some s ∧ ¬ suppressed s) ∨
  (statusOf db' id = statusOf db id ∧ (pendingOf db' id → pendingOf db id)).
Lemma settled_step id db db' : onlyFor id db db' → settles id db db' → settled db → settled db'.
Proof.
  intros Ho Hs Hset k s Hk Hsup Hp. destruct (decide (k = id)) as [->|Hne].
  - destruct Hs as [?|[(s' & ? & ?)|[E Himp]]]; [done|naive_solver|].
    rewrite E in Hk. eapply Hset; eauto.
  - destruct (Ho k Hne) as [Himp E]. rewrite E in Hk. eapply Hset; eauto.
Qed.
Lemma settled_quiet db db' : quiet db db' → shrinks db db' → settled db → settled db'.
Proof.
  intros Hq Hs Hset k s Hk Hsup Hp. destruct (Hq k) as [E _]. rewrite E in Hk.
  eapply Hset; eauto.
Qed.

Section pending_ops.
Context `{Runtime, TzDatabase}.

Lemma insertRecord_shrinks r : respects shrinks (insertRecord r).
Proof. apply (respects_guarded shrinks). intros db _ k Hk. exact Hk. Qed.
Lemma updateRecord_shrinks id patch nowD : respects shrinks (updateRecord id patch nowD).
Proof. apply (respects_guarded shrinks). intros db _ k Hk. exact Hk. Qed.
Lemma insertMessage_shrinks m : respects shrinks (insertMessage m).
Proof. apply (respects_guarded shrinks). intros db _ k Hk. exact Hk. Qed.
Lemma insertReply_shrinks r : respects shrinks (insertReply r).
Proof. apply (respects_guarded shrinks). intros db _ k Hk. exact Hk. Qed.
Lemma insertDeliveryEvent_shrinks e : respects shrinks (insertDeliveryEvent e).
Proof. apply (respects_guarded shrinks). intros db _ k Hk. exact Hk. Qed.
Lemma supersedeDeliveryEvent_shrinks id at_ reason by_ :
  respects shrinks (supersedeDeliveryEvent id at_ reason by_).
Proof. apply (respects_modify shrinks). intros db k Hk. exact Hk. Qed.
Lemma appendEvent_shrinks evt : respects shrinks (appendEvent evt).
Proof. intros w. apply wp_appendEvent. intros id _ k Hk. exact Hk. Qed.
Lemma updateFollowupStatus_shrinks id st reason nowD :
  st ∉ [FU_DUE; FU_POSTPONED] → respects shrinks (updateFollowupStatus id st reason nowD).
Proof.
  intros Hst. apply (respects_guarded shrinks). intros db _ k (k' & f & Hf & Hp).
  simpl in Hf. apply lookup_alter_Some in Hf as [(<- & f0 & Hf0 & ->)|[_ Hf]]; [|by exists k', f].
  exfalso. unfold isPending in Hp. simpl in Hp. rewrite andb_true_iff, !bool_decide_eq_true in Hp.
  by destruct Hp.
Qed.
Lemma cancelled_not_pending : FU_CANCELLED ∉ [FU_DUE; FU_POSTPONED].
Proof using Type. set_solver. Qed.
Lemma sent_not_pending : FU_SENT ∉ [FU_DUE; FU_POSTPONED].
Proof using Type. set_solver. Qed.

(** The same operations do not concern records other than [id]. *)
Lemma quiet_onlyFor {A} id (m : OM A) : respects quiet m → respects shrinks m → respects (onlyFor id) m.
Proof using Type.
  intros Hq Hs w. unfold wp. specialize (Hq w). specialize (Hs w). unfold wp in Hq, Hs.
  destruct (m w) as [[a|e] w']; [|done]. intros k Hk. split; [apply Hs|apply Hq].
Qed.
Lemma updateRecord_onlyFor id patch nowD : respects (onlyFor id) (updateRecord id patch nowD).
Proof.
  apply (respects_guarded (onlyFor id)). intros db _ k Hk. split; [intros Hp; exact Hp|].
  rewrite statusOf_update. by rewrite decide_False.
Qed.
Lemma appendEvent_onlyFor id evt : respects (onlyFor id) (appendEvent evt).
Proof. intros w. apply wp_appendEvent. intros eid _ k Hk. split; [intros Hp; exact Hp|done]. Qed.
Lemma insertFollowup_onlyFor f : respects (onlyFor (fu_outreachRecordId f)) (insertFollowup f).
Proof.
  apply (respects_guarded (onlyFor _)). intros db _ k Hk. split; [|done].
  intros (k' & f' & Hf & Hp). simpl in Hf.
  apply lookup_insert_Some in Hf as [[_ <-]|[_ Hf]]; [|by exists k', f'].
  exfalso. unfold isPending in Hp. rewrite andb_true_iff, !bool_decide_eq_true in Hp.
  by destruct Hp.
Qed.
Lemma updateFollowupStatus_onlyFor id fid st reason nowD :
  st ∉ [FU_DUE; FU_POSTPONED] → respects (onlyFor id) (updateFollowupStatus fid st reason nowD).
Proof.
  intros Hst. apply quiet_onlyFor; [apply updateFollowupStatus_quiet|].
  by apply updateFollowupStatus_shrinks.
Qed.
Lemma insertMessage_onlyFor id m : respects (onlyFor id) (insertMessage m).
Proof. apply quiet_onlyFor; [apply insertMessage_quiet|apply insertMessage_shrinks]. Qed.
Lemma insertReply_onlyFor id r : respects (onlyFor id) (insertReply r).
Proof. apply quiet_onlyFor; [apply insertReply_quiet|apply insertReply_shrinks]. Qed.
Lemma insertDeliveryEvent_onlyFor id e : respects (onlyFor id) (insertDeliveryEvent e).
Proof. apply quiet_onlyFor; [apply insertDeliveryEvent_quiet|apply insertDeliveryEvent_shrinks]. Qed.
End pending_ops.

#[export] Hint Resolve insertRecord_shrinks updateRecord_shrinks insertMessage_shrinks
  insertReply_shrinks insertDeliveryEvent_shrinks supersedeDeliveryEvent_shrinks
  appendEvent_shrinks updateFollowupStatus_shrinks cancelled_not_pending sent_not_pending
  updateRecord_onlyFor appendEvent_onlyFor insertFollowup_onlyFor updateFollowupStatus_onlyFor
  insertMessage_onlyFor insertReply_onlyFor insertDeliveryEvent_onlyFor : outreach.

(** ** The cancellation loops *)

Section cancellation.
Context `{Runtime, TzDatabase}.

(** Every follow-up of [id] that is still pending is among the rows to cancel. *)
Definition covered (id : string) (todo : list OutreachFollowup) (db : OutreachDb) : Prop :=
  ∀ k f, followups db !! k = Some f → isPending id f = true → ∃ g, g ∈ todo ∧ fu_id g = k.

Lemma covered_cancel id g todo reason nowD db :
  covered id (g :: todo) db →
  covered id todo (setFollowups (alter (setFollowupStatus FU_CANCELLED reason nowD) (fu_id g)) db).
Proof using Type.
  intros Hc k f Hf Hp. simpl in Hf.
  apply lookup_alter_Some in Hf as [(<- & f0 & Hf0 & ->)|[Hne Hf]].
  - unfold isPending in Hp. simpl in Hp. by rewrite andb_true_iff in Hp; destruct Hp.
  - destruct (Hc k f Hf Hp) as (g' & [->|Hin]%elem_of_cons & Hg'); [done|by exists g'].
Qed.

(** A loop that cancels all the pending rows of [id], doing other harmless work,
    leaves none. *)
Lemma cancel_all id (body : OutreachFollowup → OM ()) (Q : () → world OutreachDb → Prop) w :
  wellFormed (w_db w) →
  (∀ g todo w', covered id (g :: todo) (w_db w') →
     wp (body g) (λ _ w'', covered id todo (w_db w'')) w') →
  (∀ w', ¬ pendingOf (w_db w') id → Q tt w') →
  wp (for_each (List.filter (isPending id) (rows (followups (w_db w)))) body) Q w.
Proof using Type.
  intros Hwf Hbody HQ. apply (wp_for_each _ _ (λ todo w', covered id todo (w_db w'))).
  - intros k f Hf Hp. exists f. split; [|by apply (wf_followupKey (w_db w))].
    apply elem_of_List_filter. split; [apply elem_of_rows; eauto|done].
  - apply Hbody.
  - intros w' Hc. apply HQ. intros (k & f & Hf & Hp).
    destruct (Hc k f Hf Hp) as (g & Hg & _). by apply not_elem_of_nil in Hg.
Qed.

Lemma wp_cancelPending id reason nowD (Q : () → world OutreachDb → Prop) w :
  wellFormed (w_db w) → (∀ w', ¬ pendingOf (w_db w') id → Q tt w') →
  wp (cancelPending id reason nowD) Q w.
Proof.
  intros Hwf HQ. unfold cancelPending, pendingFollowups. rewrite wp_bind, wp_query.
  apply cancel_all; [done| |done]. intros g todo w' Hc. unfold cancelOne, updateFollowupStatus.
  rewrite wp_bind, wp_guarded. intros _. rewrite wp_bind. apply wp_appendEvent. intros eid _.
  rewrite wp_ret. by apply covered_cancel.
Qed.
End cancellation.

(** ** Every operation but [postponeFollowup] keeps the database settled *)

Section settled_ops.
Context `{Runtime, TzDatabase}.

Lemma require_settles (R : relation OutreachDb) `{!PreOrder R} id : respects R (require id).
Proof using Type. by apply require_respects. Qed.
#[local] Hint Resolve require_settles : outreach.

Lemma cancelPending_shrinks id reason nowD : respects shrinks (cancelPending id reason nowD).
Proof. unfold cancelPending, cancelOne, pendingFollowups. respects_tac. Qed.
Lemma cancelPending_onlyFor k id reason nowD : respects (onlyFor k) (cancelPending id reason nowD).
Proof. unfold cancelPending, cancelOne, pendingFollowups. respects_tac. Qed.
Lemma walkPath_onlyFor k id att from path : respects (onlyFor k) (walkPath id att from path).
Proof. revert from. induction path; intros from; simpl; respects_tac. Qed.
#[local] Hint Resolve cancelPending_shrinks cancelPending_onlyFor walkPath_onlyFor : outreach.

(** Combining what is known of a computation *)
Definition keepsSettled {A} (m : OM A) : Prop :=
  ∀ w, wellFormed (w_db w) → faithful (w_db w) → settled (w_db w) →
    wp m (λ _ w', settled (w_db w')) w.

Lemma keeps_by_settles {A} id (m : OM A) :
  (∀ w, wellFormed (w_db w) → wp m (λ _ w', onlyFor id (w_db w) (w_db w')) w) →
  (∀ w, wellFormed (w_db w) → faithful (w_db w) →
     wp m (λ _ w', settles id (w_db w) (w_db w')) w) →
  keepsSettled m.
Proof using Type.
  intros Ho Hs w Hwf Hf Hset. eapply wp_mono; [|apply wp_and; [by apply Ho|by apply Hs]].
  simpl. intros _ w' [? ?]. by eapply settled_step.
Qed.
(** An operation that writes nothing, or moves [id] to a status that is not
    suppressed *)
Lemma keeps_by_moved {A} id (m : OM A) :
  (∀ w, wellFormed (w_db w) → wp m (λ _ w', onlyFor id (w_db w) (w_db w')) w) →
  (∀ w, wellFormed (w_db w) → faithful (w_db w) →
     wp m (λ _ w', ∃ to, ¬ suppressed to ∧ movedOrNothing id to (w_db w) (w_db w')) w) →
  keepsSettled m.
Proof using Type.
  intros Ho Hm. apply (keeps_by_settles id); [done|]. intros w Hwf Hf.
  eapply wp_mono; [|by apply Hm]. simpl. intros a w' (to & Hto & [->|(from & _ & _ & He)]).
  - right; right. done.
  - right; left. exists to. destruct (He id) as [-> _]. by rewrite decide_True.
Qed.

Lemma keeps_quiet {A} (m : OM A) : respects quiet m → respects shrinks m → keepsSettled m.
Proof using Type.
  intros Hq Hs w _ _ Hset. eapply wp_mono; [|apply wp_and; [apply Hq|apply Hs]].
  simpl. intros _ w' [? ?]. by eapply settled_quiet.
Qed.

Lemma transition_settled id to reason so : keepsSettled (transition id to reason so).
Proof.
  apply (keeps_by_settles id).
  { intros w _. assert (respects (onlyFor id) (transition id to reason so)) as Ho; [|apply Ho].
    unfold transition. cbv zeta. respects_tac. }
  intros w Hwf Hf. destruct (cancelsFollowups to) eqn:Hcan.
  - unfold transition. rewrite Hcan. rewrite wp_transaction, wp_bind. apply wp_require.
    intros rec Hrec. wp_run. intros u _. wp_run.
    eapply (wp_respects writes); [by respects_tac|]. intros [] w1 K1. rewrite wp_bind.
    eapply (wp_respects writes); [by respects_tac|]. intros seq w2 K2. rewrite wp_bind.
    apply wp_cancelPending; [by eapply writes_wellFormed, writes_wellFormed, Hwf|].
    intros w3 Hnone. rewrite wp_ret. by left.
  - assert (respects shrinks (transition id to reason so)) as Hs
      by (unfold transition; cbv zeta; respects_tac).
    eapply wp_mono; [|apply wp_and; [by apply transition_step|apply Hs]].
    simpl. intros a w' [[->|(from & _ & _ & He)] Hsh].
    + by right; right.
    + right; left. exists to. destruct (He id) as [-> _]. rewrite decide_True by done.
      split; [done|]. intros Hsup. revert Hcan Hsup. by destruct to.
Qed.

Lemma applyReply_onlyFor input : respects (onlyFor (ar_outreachRecordId input)) (applyReply input).
Proof. unfold applyReply. cbv zeta. respects_tac. Qed.
Lemma applyReply_settled input : keepsSettled (applyReply input).
Proof.
  apply (keeps_by_settles (ar_outreachRecordId input)).
  { intros w _. apply applyReply_onlyFor. }
  intros w Hwf Hf. unfold applyReply. rewrite wp_transaction, wp_bind. apply wp_require.
  intros rec Hrec. wp_run. eapply (wp_respects writes); [by respects_tac|]. intros [] w1 K1.
  rewrite wp_bind. eapply (wp_respects writes); [by respects_tac|]. intros [] w2 K2. rewrite wp_bind.
  eapply (wp_respects writes); [by respects_tac|]. intros seq w3 K3. rewrite wp_bind.
  apply wp_cancelPending.
  { eapply writes_wellFormed, Hwf. transitivity (w_db w2); [by transitivity (w_db w1)|done]. }
  intros w4 Hnone. rewrite wp_ret. by left.
Qed.

Lemma applyDeliveryFailure_onlyFor input :
  respects (onlyFor (df_outreachRecordId input)) (applyDeliveryFailure input).
Proof. unfold applyDeliveryFailure, deliveryEventExists, pendingFollowups. cbv zeta. respects_tac. Qed.
Lemma applyDeliveryFailure_settled input : keepsSettled (applyDeliveryFailure input).
Proof.
  set (id := df_outreachRecordId input). apply (keeps_by_settles id).
  { intros w _. apply applyDeliveryFailure_onlyFor. }
  intros w Hwf Hf. unfold applyDeliveryFailure, deliveryEventExists, pendingFollowups.
  assert (∀ db, quiet (w_db w) db → shrinks (w_db w) db → settles id (w_db w) db) as Hsame.
  { intros db Hq Hs. right; right. split; [apply Hq|apply Hs]. }
  rewrite wp_transaction, wp_bind. apply wp_require. intros rec Hrec. wp_run.
  destruct (existsb _ _); [rewrite wp_ret; by apply Hsame|].
  case_bool_decide as Hblocked; [rewrite wp_ret; by apply Hsame|]. wp_run.
  set (w0 := World _ _ _). set (e := deliveryEventOf _ _ _).
  apply (wp_mono _ (λ _ w1, writes (w_db w) (w_db w1) ∧ quiet (w_db w) (w_db w1) ∧
                            shrinks (w_db w) (w_db w1))).
  2: { apply wp_and; [apply (insertDeliveryEvent_writes e w0)|].
       apply wp_and; [apply (insertDeliveryEvent_quiet e w0)|apply (insertDeliveryEvent_shrinks e w0)]. }
  intros [] w1 (K1 & Q1 & S1). destruct (negb _).
  { rewrite wp_bind. eapply wp_mono; [|apply wp_and; [apply plainEvent_quiet|apply appendEvent_shrinks]].
    simpl. intros seq w2 [Q2 S2]. rewrite wp_ret. apply Hsame; [by transitivity (w_db w1)|].
    by transitivity (w_db w1). }
  rewrite wp_bind. eapply (wp_respects writes); [by respects_tac|]. intros [] w2 K2.
  rewrite wp_bind. eapply (wp_respects writes); [by respects_tac|]. intros seq w3 K3.
  rewrite wp_bind, wp_query, wp_bind. apply cancel_all.
  - eapply writes_wellFormed, Hwf. transitivity (w_db w2); [by transitivity (w_db w1)|done].
  - intros g todo w' Hc. unfold updateFollowupStatus. rewrite wp_guarded. intros _.
    by apply covered_cancel.
  - intros w4 Hnone. rewrite wp_bind. eapply (wp_respects shrinks); [by respects_tac|].
    intros seq' w5 S5. rewrite wp_ret. left. intros Hp. by apply Hnone, S5.
Qed.

Lemma enrollConfirmedSend_settled input : keepsSettled (enrollConfirmedSend input).
Proof.
  apply (keeps_by_moved (ecs_outreachRecordId input)).
  - intros w Hwf. unfold enrollConfirmedSend, findMessageByGmailMessageId. cbv zeta.
    rewrite wp_transaction, wp_bind. apply wp_require. intros rec Hrec.
    rewrite <-(wf_recordKey _ Hwf _ _ Hrec).
    match goal with |- wp ?m _ _ => assert (respects (onlyFor (or_id rec)) m) as Ho; [|apply Ho] end.
    respects_tac. apply (insertFollowup_onlyFor (dueFollowup _ _ _ _ _ _)).
  - intros w Hwf Hf. eapply wp_mono; [|by apply enrollConfirmedSend_step].
    simpl. intros r w' Hm. by exists INITIAL_SENT.
Qed.

Lemma enrollConfirmedFollowup_settled input : keepsSettled (enrollConfirmedFollowup input).
Proof.
  apply (keeps_by_moved (ecf_outreachRecordId input)).
  - intros w Hwf. unfold enrollConfirmedFollowup, findMessageByGmailMessageId, pendingFollowups.
    cbv zeta. rewrite wp_transaction, wp_bind. apply wp_require. intros rec Hrec.
    rewrite <-(wf_recordKey _ Hwf _ _ Hrec).
    match goal with |- wp ?m _ _ => assert (respects (onlyFor (or_id rec)) m) as Ho; [|apply Ho] end.
    respects_tac. apply (insertFollowup_onlyFor (dueFollowup _ _ _ _ _ _)).
  - intros w Hwf Hf. eapply wp_mono; [|by apply enrollConfirmedFollowup_step].
    simpl. intros r w' Hm. eexists. split; [|done]. by destruct (ecf_expectedStep input).
Qed.

Lemma promoteFollowupDue_settled input : keepsSettled (promoteFollowupDue input).
Proof.
  set (id := pf_outreachRecordId input). apply (keeps_by_moved id).
  - intros w _. assert (respects (onlyFor id) (promoteFollowupDue input)) as Ho; [|apply Ho].
    unfold promoteFollowupDue, promoteFollowupDue_with, getFollowup, updateRecordIfStatus, getRecord.
    respects_tac.
  - intros w Hwf Hf. eapply wp_mono; [|by apply promoteFollowupDue_step].
    simpl. intros r w' [step Hm]. eexists. split; [|done]. by destruct step.
Qed.

Lemma scheduleFollowup_settled id step policy : keepsSettled (scheduleFollowup id step policy).
Proof.
  apply (keeps_by_settles id).
  - intros w _. assert (respects (onlyFor id) (scheduleFollowup id step policy)) as Ho; [|apply Ho].
    unfold scheduleFollowup. cbv zeta. respects_tac.
    apply (insertFollowup_onlyFor (dueFollowup _ _ _ _ _ _)).
  - intros w Hwf Hf.
    apply (wp_mono _ (λ _ w', quiet (w_db w) (w_db w') ∧
      (w_db w' = w_db w ∨ ∃ s, statusOf (w_db w) id = Some s ∧ ¬ suppressed s))).
    { simpl. intros _ w' [Hq [->|(s & Hs & Hns)]]; [by right; right|].
      right; left. exists s. by destruct (Hq id) as [-> _]. }
    apply wp_and; [apply scheduleFollowup_quiet|]. unfold scheduleFollowup.
    rewrite wp_transaction, wp_bind. apply wp_require. intros rec Hrec.
    destruct (followupBlockedReason (or_status rec)) eqn:Hb; [rewrite wp_ret; by left|].
    destruct (or_lastSentAt rec); [|rewrite wp_ret; by left].
    match goal with |- wp ?m _ _ => apply (wp_mono m (λ _ _, True)) end.
    + intros _ w' _. right. exists (or_status rec). unfold statusOf. rewrite Hrec.
      split; [done|]. unfold suppressed. by rewrite (proj1 (followupBlockedReason_allowed _) Hb).
    + unfold wp. by case_match; case_match.
Qed.

Lemma track_settled input : keepsSettled (track input).
Proof.
  intros w Hwf Hf Hset.
  assert (respects shrinks (track input)) as Hs.
  { unfold track, hasDoNotContact, findActiveRecord. cbv zeta. respects_tac. }
  eapply wp_mono; [|apply wp_and; [by apply track_step|apply Hs]].
  simpl. intros a w' [Hstep Hsh] k s Hk Hsup Hp. specialize (Hsh k Hp).
  destruct Hstep as [E|(id & Hnone & He)]; [rewrite E in Hk; by eapply Hset|].
  destruct (He k) as [E _]. rewrite E in Hk. destruct (decide (id = k)); [by simplify_eq|].
  by eapply Hset.
Qed.

(** The requests other than postponing a follow-up *)
Definition isPostpone (op : OutreachOp) : bool :=
  match op with OpPostponeFollowup _ _ _ _ => true | _ => false end.

Lemma exec_settled op : isPostpone op = false → keepsSettled (exec op).
Proof.
  assert (∀ A (m : OM A), keepsSettled m → keepsSettled (ignore m)) as Hi.
  { intros A m Hm w Hwf Hf Hset. rewrite wp_ignore. by apply Hm. }
  destruct op; simpl; intros Hop; try done; try apply Hi;
    auto using track_settled, transition_settled, enrollConfirmedSend_settled,
      enrollConfirmedFollowup_settled, scheduleFollowup_settled, promoteFollowupDue_settled,
      applyReply_settled, applyDeliveryFailure_settled.
  - apply keeps_quiet; [apply recordMessage_quiet|]. unfold recordMessage. cbv zeta. respects_tac.
  - apply keeps_quiet; [apply cancelFollowup_quiet|]. unfold cancelFollowup. respects_tac.
  - apply keeps_quiet; [apply correctDeliveryEvents_quiet|].
    unfold correctDeliveryEvents, deliveryEventsByDsnIds. cbv zeta. respects_tac.
Qed.
End settled_ops.
