(* ===== verification/OutreachSafety.v ===== *)
(** * What holds of the outreach database at all times

    The theorems about every sequence of calls of the service, with the concrete
    run that their witnesses evaluate. *)
From S2P Require Import Prelude.
From S2P Require Import JsText.
From S2P Require Import TimeZone.
From S2P Require Import OutreachStatus.
From S2P Require Import OutreachGates.
From S2P Require Import ReplyClassification.
From S2P Require Import Delivery.
From S2P Require Import OutreachStore.
From S2P Require Import OutreachService.
From S2P Require Import OutreachWrites.
From S2P Require Import OutreachTimeline.
From S2P Require Import OutreachFollowups.
Open Scope Z_scope.
Open Scope list_scope.

(** ** A concrete run *)

Fixpoint execAll `{Runtime, TzDatabase} (ops : list OutreachOp) (w : world OutreachDb) :
    world OutreachDb :=
  match ops with
  | [] => w
  | op :: ops => execAll ops (exec op w).2
  end.

Lemma execAll_steps `{Runtime, TzDatabase} ops w : rtc serviceStep (w_db w) (w_db (execAll ops w)).
Proof.
  revert w. induction ops as [|op ops IH]; intros w; simpl; [done|].
  eapply rtc_l; [|apply IH]. exists op, (w_ticks w), (w_uuids w), (exec op w).1, (exec op w).2.
  split; [|done]. destruct w as [db t u]. simpl. by destruct (exec op _).
Qed.

Definition demoTrack : TrackInput :=
  {| ti_campaignId := "c1"; ti_leadId := "l1"; ti_contactEmail := " Info@Praxis.de ";
     ti_timezone := "Europe/Berlin"; ti_owner := None |}.
Definition demoSend (recordId gmail : string) : EnrollConfirmedSendInput :=
  {| ecs_outreachRecordId := recordId; ecs_subject := "Ihre Website"; ecs_body := "Hallo";
     ecs_gmailMessageId := gmail; ecs_gmailThreadId := "t1"; ecs_sentAt := 1780000000000;
     ecs_emailDraftId := None; ecs_finalizedEmailId := None; ecs_sendAttemptId := "a1";
     ecs_policy := DEFAULT_SEQUENCE_POLICY |}.
Definition demoReply (recordId : string) : ApplyReplyInput :=
  {| ar_outreachRecordId := recordId; ar_gmailThreadId := "t1"; ar_gmailMessageId := "g-r";
     ar_fromEmail := "info@praxis.de"; ar_receivedAtMs := 1780000500000;
     ar_preview := "Please unsubscribe me"; ar_classification := rc_unsubscribe |}.

Definition demoStart : world OutreachDb := World (emptyDb {["c1"]} {["l1"]} ∅ ∅) 0 0.
(** Track a contact and enroll its first send; then an unsubscribe request arrives,
    and an operator postpones the follow-up that it cancelled. *)
Definition demoOps : list OutreachOp :=
  [OpTrack demoTrack; OpEnrollConfirmedSend (demoSend "uuid-0" "g1"); OpApplyReply (demoReply "uuid-0");
   OpPostponeFollowup "uuid-7" "uuid-0" 1790000000000 "after the holidays"].
Definition demoDb (n : nat) : OutreachDb :=
  w_db (execAll (H := demo_runtime) (H0 := demo_tz) (take n demoOps) demoStart).

Example demo_statuses :
  map (λ n, statusOf (demoDb n) "uuid-0") [0%nat; 1%nat; 2%nat; 3%nat] =
  [None; Some DRAFT_READY; Some INITIAL_SENT; Some UNSUBSCRIBED].
Proof. vm_compute. reflexivity. Qed.
Example demo_followups :
  map (λ n, map (λ f, (fu_step f, fu_status f, toISOString (fu_dueAt f))) (rows (followups (demoDb n))))
    [2%nat; 3%nat] =
  [[(1, FU_DUE, "2026-05-30T07:00:00.000Z")]; [(1, FU_CANCELLED, "2026-05-30T07:00:00.000Z")]].
Proof. vm_compute. reflexivity. Qed.

Lemma demo_reachable n : reachable (H := demo_runtime) (H0 := demo_tz) (demoDb n).
Proof. exists {["c1"]}, {["l1"]}, ∅, ∅. apply (execAll_steps (H := demo_runtime) (H0 := demo_tz) _ demoStart). Qed.

(** ** Rows that stop being due *)

(** A row that is not DUE stays in the table, and stays not DUE. *)
Definition staysInactive (db db' : OutreachDb) : Prop :=
  ∀ k f, followups db !! k = Some f → fu_status f ≠ FU_DUE →
    ∃ f', followups db' !! k = Some f' ∧ fu_status f' ≠ FU_DUE.
#[global] Instance staysInactive_preorder : PreOrder staysInactive.
Proof.
  split; [by intros db k f; eauto|]. intros db1 db2 db3 H1 H2 k f Hf Hs.
  destruct (H1 k f Hf Hs) as (f' & Hf' & Hs'). by eapply H2.
Qed.

Section inactive.
Context `{Runtime, TzDatabase}.

Lemma keeps_followups_inactive {A} (m : OM A) :
  (∀ w, wp m (λ _ w', followups (w_db w') = followups (w_db w)) w) → respects staysInactive m.
Proof using Type.
  intros Hm w. eapply wp_mono; [|apply Hm]. simpl. intros _ w' E k f. rewrite E. eauto.
Qed.
Lemma guarded_inactive check f :
  (∀ db, followups (f db) = followups db) → respects staysInactive (guarded check f : OM ()).
Proof using Type. intros Hf. apply keeps_followups_inactive. intros w. apply wp_guarded. intros _. apply Hf. Qed.

Lemma insertRecord_inactive r : respects staysInactive (insertRecord r).
Proof. by apply guarded_inactive. Qed.
Lemma updateRecord_inactive id patch nowD : respects staysInactive (updateRecord id patch nowD).
Proof. by apply guarded_inactive. Qed.
Lemma insertMessage_inactive m : respects staysInactive (insertMessage m).
Proof. by apply guarded_inactive. Qed.
Lemma insertReply_inactive r : respects staysInactive (insertReply r).
Proof. by apply guarded_inactive. Qed.
Lemma insertDeliveryEvent_inactive e : respects staysInactive (insertDeliveryEvent e).
Proof. by apply guarded_inactive. Qed.
Lemma supersede_inactive id at_ reason by_ :
  respects staysInactive (supersedeDeliveryEvent id at_ reason by_).
Proof. by apply keeps_followups_inactive. Qed.
Lemma appendEvent_inactive evt : respects staysInactive (appendEvent evt).
Proof. apply keeps_followups_inactive. intros w. by apply wp_appendEvent. Qed.
Lemma insertFollowup_inactive f : respects staysInactive (insertFollowup f).
Proof.
  intros w. unfold insertFollowup. apply wp_guarded. intros Hc k f' Hf' Hs. exists f'.
  split; [|done]. cbn [w_db]. simpl. rewrite lookup_insert_ne; [done|]. intros <-.
  unfold checkInsertFollowup in Hc. apply refuse_None in Hc. rewrite !Forall_cons in Hc.
  destruct Hc as (_ & Hfresh & _). simpl in Hfresh. apply bool_decide_eq_false in Hfresh. eauto.
Qed.
Lemma updateFollowup_inactive id st reason nowD :
  st ≠ FU_DUE → respects staysInactive (updateFollowupStatus id st reason nowD).
Proof.
  intros Hst w. unfold updateFollowupStatus. apply wp_guarded. intros _ k f Hf Hs.
  cbn [w_db]. simpl. rewrite lookup_alter. destruct (decide (id = k)) as [->|]; [|by eauto].
  rewrite Hf. by eexists.
Qed.
Lemma cancelled_not_due : FU_CANCELLED ≠ FU_DUE. Proof using Type. done. Qed.
Lemma postponed_not_due : FU_POSTPONED ≠ FU_DUE. Proof using Type. done. Qed.
Lemma sent_not_due : FU_SENT ≠ FU_DUE. Proof using Type. done. Qed.
End inactive.

#[export] Hint Resolve insertRecord_inactive updateRecord_inactive insertMessage_inactive
  insertReply_inactive insertDeliveryEvent_inactive supersede_inactive appendEvent_inactive
  insertFollowup_inactive updateFollowup_inactive cancelled_not_due postponed_not_due
  sent_not_due : outreach.

Section inactive_ops.
Context `{Runtime, TzDatabase}.

Lemma walkPath_inactive id att from path : respects staysInactive (walkPath id att from path).
Proof. revert from. induction path; intros from; simpl; respects_tac. Qed.
Lemma exec_inactive op : respects staysInactive (exec op).
Proof.
  pose proof (require_respects staysInactive). pose proof walkPath_inactive.
  destruct op; unfold exec, ignore;
    unfold track, transition, recordMessage, enrollConfirmedSend, enrollConfirmedFollowup,
      scheduleFollowup, promoteFollowupDue, promoteFollowupDue_with, cancelFollowup,
      postponeFollowup, applyReply, applyDeliveryFailure, correctDeliveryEvents,
      cancelPending, cancelOne,
      hasDoNotContact, findActiveRecord, findMessageByGmailMessageId, pendingFollowups,
      getFollowup, updateRecordIfStatus, getRecord, deliveryEventExists, deliveryEventsByDsnIds;
    cbv zeta; respects_tac.
Qed.
Lemma serviceSteps_inactive db db' : rtc serviceStep db db' → staysInactive db db'.
Proof.
  induction 1 as [|db1 db2 db3 (op & t & u & r & w' & Hrun & <-) _ IH]; [done|].
  rewrite <-exec_transaction in Hrun. apply (respects_run staysInactive) in Hrun;
    [|apply exec_inactive]. by etrans.
Qed.
Lemma serviceSteps_writes db db' : rtc serviceStep db db' → writes db db'.
Proof. induction 1 as [|? ? ? Hs]; [done|]. etrans; [by apply serviceStep_writes|done]. Qed.

(** A step by a request other than postponing a follow-up *)
Definition calmStep (db db' : OutreachDb) : Prop :=
  ∃ op ticks uuids r w', isPostpone op = false ∧ exec op (World db ticks uuids) = (r, w') ∧
    w_db w' = db'.
Lemma calmStep_service db db' : calmStep db db' → serviceStep db db'.
Proof. intros (op & t & u & r & w' & _ & ? & ?). by exists op, t, u, r, w'. Qed.
Lemma calmSteps_settled db db' :
  rtc calmStep db db' → wellFormed db → faithful db → settled db → settled db'.
Proof.
  induction 1 as [|db1 db2 db3 Hstep _ IH]; [done|]. intros Hwf Hf Hset.
  assert (wellFormed db2 ∧ faithful db2) as [Hwf' Hf'].
  { eapply serviceSteps_faithful; [by apply rtc_once, calmStep_service|done|done]. }
  apply IH; [done|done|].
  destruct Hstep as (op & t & u & r & w' & Hop & Hrun & <-).
  rewrite <-exec_transaction in Hrun.
  pose proof (transaction_wp (exec op) (λ a b, settled a → settled b)
    (World db1 t u) r w' (λ _ Hs, Hs)) as Htx.
  eapply Htx; [|exact Hrun|exact Hset].
  eapply wp_mono; [|by apply (exec_settled op Hop)]. simpl. done.
Qed.
End inactive_ops.

(** What is not pending was sent or cancelled. *)
Lemma settled_status db k f s :
  settled db → followups db !! k = Some f → statusOf db (fu_outreachRecordId f) = Some s → suppressed s →
  fu_status f = FU_CANCELLED ∨ fu_status f = FU_SENT.
Proof.
  intros Hset Hf Hs Hsup.
  destruct (fu_status f) eqn:Hst; auto; exfalso; eapply (Hset _ _ Hs Hsup); exists k, f;
    (split; [done|]); unfold isPending; rewrite Hst, bool_decide_eq_true_2 by done; done.
Qed.

(** ** Theorems *)

Section safety.
Context `{Runtime, TzDatabase}.

(** C1: The immutable timeline tells the truth: after any sequence of calls of the
    service, whatever their arguments, clock readings and failures, replaying the
    events of a record, checking at each one that it leaves the status reached so
    far by a legal transition, yields exactly the status stored in the record. *)
Theorem timeline_replays_to_status db :
  reachable db → ∀ id, replay db id = Some (statusOf db id).
Proof. intros Hr. by apply reachable_faithful. Qed.

(** C19: The service refines the outreach state machine: between two reachable
    databases a record's status moves along legal transitions only (starting at
    DRAFT_READY when it is created); a record never disappears, a terminal status
    is final and a suppressed one stays suppressed. *)
Theorem service_refines_state_machine db db' id :
  reachable db → rtc serviceStep db db' →
  match statusOf db id, statusOf db' id with
  | None, None => True
  | None, Some s => rtc legalStep DRAFT_READY s
  | Some s, Some s' =>
      rtc legalStep s s' ∧ (suppressed s → suppressed s') ∧
      (isOutreachTerminal s = true → s' = s)
  | Some _, None => False
  end.
Proof.
  intros Hr Hs. pose proof (serviceSteps_moves db db' id Hr Hs) as Hm.
  destruct (statusOf db id) as [s|], (statusOf db' id) as [s'|]; simpl in Hm; try done.
  split_and!; [done|by apply legalStep_suppressed_rtc|].
  intros Ht. destruct Hm as [|s s1 s' Hstep _]; [done|]. exfalso.
  revert Ht Hstep. unfold legalStep. destruct s, s1; vm_compute; congruence.
Qed.

(** C20: Integrity: in every reachable database, Gmail message ids identify messages,
    replies and notifications uniquely, there is at most one active record per
    campaign, lead and contact and at most one due follow-up per record and step,
    every row refers to an existing record, every step is 1, 2 or 3, and the events
    of each record are numbered 1, 2, 3, ... in order. *)
Theorem reachable_integrity db : reachable db → wellFormed db.
Proof. apply reachable_wellFormed. Qed.

(** History is immutable: along any sequence of calls the messages, the events
    and the replies only grow at the end, with nothing before rewritten; delivery
    events only gain one operator annotation; no record or follow-up disappears,
    and the contact of a record and the due date of a follow-up never change. *)
Theorem history_is_immutable db db' : rtc serviceStep db db' → history db db'.
Proof. intros Hs. by apply writes_history, serviceSteps_writes. Qed.

(** No follow-up survives suppression: as long as no follow-up is postponed by
    hand, whenever a record has replied, bounced, unsubscribed, booked a meeting
    or been closed or suppressed, all its follow-ups are CANCELLED or SENT. *)
Theorem no_followup_after_suppression campaigns leads drafts finalizations db :
  rtc calmStep (emptyDb campaigns leads drafts finalizations) db →
  ∀ k f s, followups db !! k = Some f → statusOf db (fu_outreachRecordId f) = Some s →
    suppressed s → fu_status f = FU_CANCELLED ∨ fu_status f = FU_SENT.
Proof.
  intros Hsteps k f s Hf Hs Hsup.
  eapply settled_status; [|exact Hf|exact Hs|exact Hsup].
  apply (calmSteps_settled _ _ Hsteps); [apply emptyDb_wellFormed| |].
  - intros id. unfold statusOf. simpl. by rewrite lookup_empty.
  - intros id s' _ _ (k' & f' & Hf' & _). simpl in Hf'. by rewrite lookup_empty in Hf'.
Qed.

(** A follow-up that is not due never becomes due again: once its row is
    POSTPONED (or CANCELLED or SENT), its due date never changes and no later run
    of the promotion phase, at any time and whatever was called in between,
    promotes its record because of it. *)
Theorem inactive_followup_never_promoted db db' k f :
  rtc serviceStep db db' → followups db !! k = Some f → fu_status f ≠ FU_DUE →
  ∃ f', followups db' !! k = Some f' ∧ fu_dueAt f' = fu_dueAt f ∧
    ∀ recordId rec nowMs step from to,
      decideFollowupPromotion (promotionView f' recordId rec) nowMs ≠ PA_PROMOTE step from to.
Proof.
  intros Hsteps Hf Hs. destruct (serviceSteps_inactive _ _ Hsteps k f Hf Hs) as (f' & Hf' & Hs').
  exists f'. split; [done|]. split.
  - destruct (writes_history _ _ (serviceSteps_writes _ _ Hsteps)) as [_ _ _ _ _ Hfu].
    destruct (Hfu k f Hf) as (f'' & Hf'' & E). simplify_eq. unfold followupIdentity in E. congruence.
  - intros id rec nowMs step from to (_ & Hdue & _)%decideFollowupPromotion_iff. by simpl in Hdue.
Qed.
End safety.

(** Postponing is the exception: it can make the cancelled follow-up of a
    contact that has unsubscribed pending again, because [postponeFollowup] looks
    neither at the status of the row nor at that of the record. *)
Theorem postpone_revives_followup :
  ∃ db f, reachable (H := demo_runtime) (H0 := demo_tz) db ∧
    followups db !! "uuid-7" = Some f ∧ isPending "uuid-0" f = true ∧
    statusOf db "uuid-0" = Some UNSUBSCRIBED.
Proof.
  exists (demoDb 4). eexists. split; [apply demo_reachable|]. vm_compute. done.
Qed.

(** ** Witnesses *)

#[local] Existing Instance demo_runtime.
#[local] Existing Instance demo_tz.

Lemma demo_steps n m : (n <= m)%nat → rtc serviceStep (demoDb n) (demoDb m).
Proof.
  intros Hnm. unfold demoDb.
  rewrite <-(take_drop n (take m demoOps)), take_take, Nat.min_l by done.
  generalize demoStart. generalize (drop n (take m demoOps)) as rest.
  induction (take n demoOps) as [|op ops IH]; intros rest w; simpl; [apply execAll_steps|apply IH].
Qed.
Lemma execAll_calm ops w :
  forallb (λ op, negb (isPostpone op)) ops = true → rtc calmStep (w_db w) (w_db (execAll ops w)).
Proof.
  revert w. induction ops as [|op ops IH]; intros w; simpl; [done|].
  intros [Hop Hops]%andb_true_iff. eapply rtc_l; [|by apply IH].
  exists op, (w_ticks w), (w_uuids w), (exec op w).1, (exec op w).2.
  split; [by apply negb_true_iff|]. split; [|done].
  destruct w as [db t u]. simpl. by destruct (exec op _).
Qed.

Lemma timeline_replays_to_status_witness :
  replay (demoDb 3) "uuid-0" = Some (Some UNSUBSCRIBED).
Proof.
  rewrite (timeline_replays_to_status (demoDb 3) (demo_reachable 3)).
  vm_compute. reflexivity.
Defined.

Lemma service_refines_state_machine_witness :
  rtc legalStep INITIAL_SENT UNSUBSCRIBED.
Proof.
  pose proof (service_refines_state_machine (demoDb 2) (demoDb 4) "uuid-0" (demo_reachable 2)
                (demo_steps 2 4 ltac:(lia))) as Hm.
  assert (statusOf (demoDb 2) "uuid-0" = Some INITIAL_SENT) as E2 by (vm_compute; reflexivity).
  assert (statusOf (demoDb 4) "uuid-0" = Some UNSUBSCRIBED) as E4 by (vm_compute; reflexivity).
  rewrite E2, E4 in Hm. exact (proj1 Hm).
Defined.

Lemma reachable_integrity_witness : map ev_seq (recordEvents (demoDb 4) "uuid-0") = seqZ 1 10.
Proof.
  destruct (reachable_integrity (demoDb 4) (demo_reachable 4)) as [_ _ _ _ _ _ _ _ _ _ _ Hseq].
  rewrite (Hseq "uuid-0"). vm_compute. reflexivity.
Defined.

Lemma history_is_immutable_witness : messages (demoDb 2) `prefix_of` messages (demoDb 4).
Proof. apply (history_is_immutable (demoDb 2) (demoDb 4)), demo_steps. lia. Defined.

Lemma no_followup_after_suppression_witness :
  ∃ f, followups (demoDb 3) !! "uuid-7" = Some f ∧ (fu_status f = FU_CANCELLED ∨ fu_status f = FU_SENT).
Proof.
  destruct (followups (demoDb 3) !! "uuid-7") as [f|] eqn:Hf; [|by vm_compute in Hf].
  exists f. split; [done|].
  apply (no_followup_after_suppression {["c1"]} {["l1"]} ∅ ∅ (demoDb 3)
           ltac:(exact (execAll_calm (take 3 demoOps) demoStart eq_refl)) "uuid-7" f UNSUBSCRIBED Hf);
    [|reflexivity].
  vm_compute in Hf. injection Hf as <-. vm_compute. reflexivity.
Defined.

Lemma inactive_followup_never_promoted_witness :
  ∃ f', followups (demoDb 4) !! "uuid-7" = Some f' ∧ fu_dueAt f' = dateUTC 2026 4 30 7 0 0.
Proof.
  destruct (followups (demoDb 3) !! "uuid-7") as [f|] eqn:Hf; [|by vm_compute in Hf].
  destruct (inactive_followup_never_promoted (demoDb 3) (demoDb 4) "uuid-7" f) as (f' & Hf' & Hdue & _).
  - apply demo_steps. lia.
  - exact Hf.
  - vm_compute in Hf. by injection Hf as <-.
  - exists f'. split; [done|]. rewrite Hdue. vm_compute in Hf. injection Hf as <-. vm_compute. reflexivity.
Defined.
