(* ===== verification/OutreachSpecs.v ===== *)
(** * The service, operation by operation

    The functional behaviour of the operations: which runs are refused, and that
    the others return, with what result and what they write. *)
From S2P Require Import Prelude.
From S2P Require Import JsText.
From S2P Require Import TimeZone.
From S2P Require Import OutreachStatus.
From S2P Require Import OutreachGates.
From S2P Require Import ReplyClassification.
From S2P Require Import Delivery.
From S2P Require Import OutreachStore.
From S2P Require Import OutreachService.
From S2P Require Import OutreachWrites.
From S2P Require Import OutreachTimeline.
From S2P Require Import OutreachFollowups.
From S2P Require Import OutreachSafety.
Open Scope Z_scope.
Open Scope list_scope.

(** ** Fresh identifiers

    [randomUUID] is trusted not to repeat: the UUIDs still to be drawn are distinct
    and identify no row yet. *)

Definition usesId (db : OutreachDb) (id : string) : Prop :=
  is_Some (records db !! id) ∨ is_Some (followups db !! id) ∨ id ∈ map om_id (messages db) ∨
  id ∈ map rp_id (replies db) ∨ id ∈ map ev_id (events db) ∨ id ∈ map de_id (deliveryEvents db).
Definition freshUuids `{Runtime} (w : world OutreachDb) : Prop :=
  (∀ i j, uuid i = uuid j → i = j) ∧ ∀ i, (w_uuids w <= i)%nat → ¬ usesId (w_db w) (uuid i).
Definition ready `{Runtime} (w : world OutreachDb) : Prop := wellFormed (w_db w) ∧ freshUuids w.

Section total.
Context `{Runtime, TzDatabase}.

Lemma bool_decide_fresh P `{Decision P} : ¬ P → bool_decide P = false.
Proof using Type. apply bool_decide_eq_false_2. Qed.

Lemma ready_tick w : ready w → ready (World (w_db w) (S (w_ticks w)) (w_uuids w)).
Proof. done. Qed.
Lemma ready_draw w : ready w → ready (World (w_db w) (w_ticks w) (S (w_uuids w))).
Proof. intros (Hwf & Hinj & Hf). split; [done|]. split; [done|]. intros i Hi. apply Hf. simpl in Hi. lia. Qed.

(** The next number of a timeline is not taken. *)
Lemma seq_free db id e :
  wellFormed db → e ∈ events db → (ev_recordId e, ev_seq e) ≠ (id, maxSeq db id + 1).
Proof using Type.
  intros Hwf He [= Hid Hseq]. rewrite maxSeq_wf in Hseq by done.
  assert (ev_seq e ∈ map ev_seq (recordEvents db id)) as Hin.
  { apply list_elem_of_fmap. exists e. split; [done|]. unfold recordEvents.
    apply elem_of_List_filter. by rewrite bool_decide_eq_true_2. }
  rewrite (wf_seq db Hwf), Hseq in Hin. apply elem_of_seqZ in Hin. lia.
Qed.

Lemma twp_appendEvent evt (Q : Z → world OutreachDb → Prop) w :
  ready w → is_Some (records (w_db w) !! ne_outreachRecordId evt) →
  (∀ seq e, ev_new e = evt →
     ready (World (setEvents (λ l, l ++ [e]) (w_db w)) (w_ticks w) (S (w_uuids w))) →
     Q seq (World (setEvents (λ l, l ++ [e]) (w_db w)) (w_ticks w) (S (w_uuids w)))) →
  twp (appendEvent evt) Q w.
Proof.
  intros (Hwf & Hinj & Hfresh) Hrec HQ. unfold appendEvent.
  rewrite twp_bind, twp_query, twp_bind, twp_randomUUID. cbn [w_db w_ticks w_uuids].
  rewrite twp_bind. set (e := Build_OutreachEvent _ _ _).
  assert (¬ usesId (w_db w) (ev_id e)) as Hid by (by apply Hfresh).
  assert (checkInsertEvent e (w_db w) = None) as Hc.
  { apply refuse_None. repeat constructor; simpl.
    - apply existsb_false. intros e' He'. apply bool_decide_fresh. intros E. apply Hid.
      do 4 right; left. apply list_elem_of_fmap. by exists e'.
    - apply existsb_false. intros e' He'. apply bool_decide_fresh.
      by apply (seq_free (w_db w)).
    - by apply noRecord_false. }
  apply twp_guarded; [done|]. rewrite twp_ret. apply HQ; [done|]. split; [|split; [done|]].
  - by apply (wf_insertEvent evt).
  - simpl. intros i Hi Hu. apply (Hfresh i); [lia|]. unfold usesId in *. simpl in Hu.
    rewrite map_app, elem_of_app in Hu. destruct Hu as [?|[?|[?|[?|[[?|Hu]|?]]]]]; eauto 10.
    simpl in Hu. apply list_elem_of_singleton in Hu. simpl in Hu. apply Hinj in Hu. lia.
Qed.

(** Updating a record cannot violate its constraints unless it reactivates it. *)
Lemma checkUpdateRecord_ok id patch nowD db r :
  wellFormed db → records db !! id = Some r →
  isOutreachTerminal (or_status r) = false ∨
    isOutreachTerminal (patchStatus patch (or_status r)) = true →
  checkUpdateRecord id patch nowD db = None.
Proof.
  intros Hwf Hr Ht. unfold checkUpdateRecord. rewrite Hr. apply refuse_None. repeat constructor.
  simpl. unfold activeConflict. rewrite recordPatchToSet_status.
  destruct (isOutreachTerminal (patchStatus _ _)) eqn:Hnew; [done|]. simpl.
  destruct Ht as [Ht|?]; [|done].
  apply existsb_false. intros r' (k & Hk)%elem_of_rows.
  destruct (recordPatchToSet_key patch nowD r) as (-> & -> & -> & ->).
  destruct (bool_decide_reflect (or_id r' = or_id r)) as [|Hne]; [done|]. simpl.
  destruct (isOutreachTerminal (or_status r')) eqn:Hr'; [done|]. simpl.
  apply bool_decide_fresh. intros Heq. apply Hne.
  rewrite (wf_recordKey db Hwf _ _ Hk), (wf_recordKey db Hwf _ _ Hr).
  by eapply (wf_active db Hwf k id).
Qed.

Lemma twp_updateRecord id patch nowD (Q : () → world OutreachDb → Prop) w r :
  ready w → records (w_db w) !! id = Some r →
  isOutreachTerminal (or_status r) = false ∨
    isOutreachTerminal (patchStatus patch (or_status r)) = true →
  (ready (World (setRecords (alter (recordPatchToSet patch nowD) id) (w_db w)) (w_ticks w) (w_uuids w)) →
   Q tt (World (setRecords (alter (recordPatchToSet patch nowD) id) (w_db w)) (w_ticks w) (w_uuids w))) →
  twp (updateRecord id patch nowD) Q w.
Proof.
  intros (Hwf & Hinj & Hfresh) Hr Ht HQ.
  assert (checkUpdateRecord id patch nowD (w_db w) = None) as Hc by by eapply checkUpdateRecord_ok.
  apply twp_guarded; [done|]. apply HQ. split; [by apply wf_updateRecord|]. split; [done|].
  simpl. intros i Hi Hu. apply (Hfresh i); [done|]. unfold usesId in *. simpl in Hu.
  destruct Hu as [Hu|Hu]; [left|by right]. rewrite lookup_alter in Hu.
  destruct (decide (id = uuid i)) as [->|]; [by rewrite fmap_is_Some in Hu|done].
Qed.

(** An identifier that was just drawn *)
Definition drawn (w : world OutreachDb) (id : string) : Prop :=
  ¬ usesId (w_db w) id ∧ ∀ i, (w_uuids w <= i)%nat → uuid i ≠ id.

Lemma twp_draw (Q : string → world OutreachDb → Prop) w :
  ready w →
  (∀ id, let w' := World (w_db w) (w_ticks w) (S (w_uuids w)) in ready w' → drawn w' id → Q id w') →
  twp randomUUID Q w.
Proof.
  intros Hready HQ. apply twp_randomUUID. apply HQ; [by apply ready_draw|].
  destruct Hready as (_ & Hinj & Hf). split; [by apply Hf|]. simpl.
  intros i Hi E. apply Hinj in E. lia.
Qed.

(** A write that adds nothing but the identifier [id] keeps identifiers fresh. *)
Lemma ready_write w id db :
  ready w → drawn w id → wellFormed db → (∀ k, usesId db k → k = id ∨ usesId (w_db w) k) →
  ready (World db (w_ticks w) (w_uuids w)).
Proof.
  intros (_ & Hinj & Hf) (_ & Hd) Hwf Hu. split; [done|]. split; [done|]. simpl.
  intros i Hi [E|Hused]%Hu; [by apply (Hd i)|by apply (Hf i)].
Qed.

Lemma twp_insertRecord r (Q : () → world OutreachDb → Prop) w :
  ready w → drawn w (or_id r) → activeConflict (w_db w) r = false →
  or_campaignId r ∈ campaignIds (w_db w) → or_leadId r ∈ leadIds (w_db w) →
  (let w' := World (setRecords <[or_id r := r]> (w_db w)) (w_ticks w) (w_uuids w) in ready w' → Q tt w') →
  twp (insertRecord r) Q w.
Proof.
  intros Hready Hd Hactive Hcampaign Hlead HQ.
  assert (checkInsertRecord r (w_db w) = None) as Hc.
  { apply refuse_None. repeat constructor; simpl; [|exact Hactive|by rewrite bool_decide_eq_true_2..].
    apply bool_decide_fresh. intros Hu. apply Hd. by left. }
  apply twp_guarded; [done|]. apply HQ. eapply ready_write; [done|exact Hd| |].
  - apply wf_insertRecord; [apply Hready|done].
  - intros k Hu. unfold usesId in *. simpl in Hu. rewrite lookup_insert in Hu.
    destruct (decide (or_id r = k)) as [->|]; [by left|by right].
Qed.
Lemma twp_insertMessage m (Q : () → world OutreachDb → Prop) w :
  ready w → drawn w (om_id m) → is_Some (records (w_db w) !! om_outreachRecordId m) →
  (∀ m', m' ∈ messages (w_db w) → om_gmailMessageId m = None ∨ om_gmailMessageId m' ≠ om_gmailMessageId m) →
  dangling (emailDraftIds (w_db w)) (om_emailDraftId m) = false →
  dangling (finalizationIds (w_db w)) (om_finalizedEmailId m) = false →
  (let w' := World (setMessages (λ l, l ++ [m]) (w_db w)) (w_ticks w) (w_uuids w) in
   ready w' → Q tt w') →
  twp (insertMessage m) Q w.
Proof.
  intros Hready Hd Hrec Hg Hfk1 Hfk2 HQ.
  assert (checkInsertMessage m (w_db w) = None) as Hc.
  { apply refuse_None. repeat constructor; simpl; try done.
    - apply existsb_false. intros m' Hm'. apply bool_decide_fresh. intros E. apply Hd.
      do 2 right; left. apply list_elem_of_fmap. by exists m'.
    - destruct (om_gmailMessageId m) as [g|]; [|done]. apply existsb_false. intros m' Hm'.
      apply bool_decide_fresh. by destruct (Hg m' Hm').
    - by apply noRecord_false. }
  apply twp_guarded; [done|]. apply HQ. eapply ready_write; [done|exact Hd| |].
  - apply wf_insertMessage; [apply Hready|done].
  - intros k Hu. unfold usesId in *. simpl in Hu. rewrite map_app, elem_of_app in Hu.
    destruct Hu as [?|[?|[[?|Hu]|?]]]; eauto 10. simpl in Hu.
    apply list_elem_of_singleton in Hu. by left.
Qed.

Lemma twp_insertFollowup f (Q : () → world OutreachDb → Prop) w :
  ready w → drawn w (fu_id f) → is_Some (records (w_db w) !! fu_outreachRecordId f) →
  is_Some (isFollowupStep (fu_step f)) →
  (∀ k f', followups (w_db w) !! k = Some f' → fu_status f' = FU_DUE →
     (fu_outreachRecordId f', fu_step f') ≠ (fu_outreachRecordId f, fu_step f)) →
  (let w' := World (setFollowups <[fu_id f := f]> (w_db w)) (w_ticks w) (w_uuids w) in
   ready w' → Q tt w') →
  twp (insertFollowup f) Q w.
Proof.
  intros Hready Hd Hrec Hstep Hdue HQ.
  assert (checkInsertFollowup f (w_db w) = None) as Hc.
  { apply refuse_None. repeat constructor; simpl.
    - by rewrite bool_decide_eq_true_2.
    - apply bool_decide_fresh. intros Hu. apply Hd. by right; left.
    - unfold pendingConflict. apply andb_false_iff. right. apply existsb_false.
      intros f' (k & Hk)%elem_of_rows. destruct (negb _); [|done]. simpl.
      destruct (bool_decide_reflect (fu_status f' = FU_DUE)); [|done]. simpl.
      apply bool_decide_fresh. by eapply Hdue.
    - by apply noRecord_false. }
  apply twp_guarded; [done|]. apply HQ. eapply ready_write; [done|exact Hd| |].
  - apply wf_insertFollowup; [apply Hready|done].
  - intros k Hu. unfold usesId in *. simpl in Hu. rewrite lookup_insert in Hu.
    destruct (decide (fu_id f = k)) as [->|]; [by left|]. by right.
Qed.

Lemma twp_stopFollowup id st reason nowD (Q : () → world OutreachDb → Prop) w :
  ready w → st ≠ FU_DUE →
  (let w' := World (setFollowups (alter (setFollowupStatus st reason nowD) id) (w_db w))
               (w_ticks w) (w_uuids w) in ready w' → Q tt w') →
  twp (updateFollowupStatus id st reason nowD) Q w.
Proof.
  intros Hready Hst HQ.
  assert (checkUpdateFollowup id st reason nowD (w_db w) = None) as Hc.
  { unfold checkUpdateFollowup. destruct (followups (w_db w) !! id) as [f|]; [|done].
    apply refuse_None. repeat constructor. simpl. unfold pendingConflict. simpl.
    by rewrite bool_decide_eq_false_2. }
  apply twp_guarded; [done|]. apply HQ. destruct Hready as (Hwf & Hinj & Hfresh).
  split; [by apply wf_updateFollowup|]. split; [done|]. simpl. intros i Hi Hu.
  apply (Hfresh i Hi). unfold usesId in *. simpl in Hu. rewrite lookup_alter in Hu.
  destruct (decide (id = uuid i)) as [->|]; [|done]. by rewrite fmap_is_Some in Hu.
Qed.

(** The walk along a legal path only adds events. *)
Fixpoint legalWalk (from : OutreachStatus) (path : list OutreachStatus) : bool :=
  match path with [] => true | to :: path => canOutreachTransition from to && legalWalk to path end.

(** Everything but the events *)
Definition sameTables (db db' : OutreachDb) : Prop :=
  db' = setEvents (λ _, events db') db ∧ events db `prefix_of` events db'.
Lemma sameTables_append db e : sameTables db (setEvents (λ l, l ++ [e]) db).
Proof using Type. split; [by destruct db|]. simpl. by apply prefix_app_r. Qed.
Lemma sameTables_trans db1 db2 db3 : sameTables db1 db2 → sameTables db2 db3 → sameTables db1 db3.
Proof using Type. intros [E1 P1] [E2 P2]. split; [|by etrans]. rewrite E2, E1. by destruct db1. Qed.
Lemma sameTables_refl db : sameTables db db.
Proof using Type. split; [by destruct db|done]. Qed.

(** Tracking a contact that is neither blocked nor tracked already creates a record. *)
Lemma head_filter_None {A} (p : A → bool) l : (∀ x, x ∈ l → p x = false) → head (List.filter p l) = None.
Proof using Type.
  induction l as [|x l IH]; intros Hp; [done|]. simpl. rewrite (Hp x) by by left. apply IH.
  intros y Hy. apply Hp. by right.
Qed.
Lemma twp_track input (Q : TrackOutcome * option OutreachRecord → world OutreachDb → Prop) w :
  ready w → contactBlocked (w_db w) (normalizeEmail (ti_contactEmail input)) = false →
  (∀ k r, records (w_db w) !! k = Some r → isOutreachTerminal (or_status r) = false →
     (or_campaignId r, or_leadId r, or_contactEmail r) ≠
       (ti_campaignId input, ti_leadId input, normalizeEmail (ti_contactEmail input))) →
  ti_campaignId input ∈ campaignIds (w_db w) → ti_leadId input ∈ leadIds (w_db w) →
  (∀ rec w', ready w' → records (w_db w) !! or_id rec = None → or_status rec = DRAFT_READY →
     or_timezone rec = ti_timezone input →
     sameTables (setRecords <[or_id rec := rec]> (w_db w)) (w_db w') → Q (CREATED, Some rec) w') →
  twp (track input) Q w.
Proof.
  intros Hready Hblocked Hnone Hcampaign Hlead HQ. unfold track, hasDoNotContact, findActiveRecord. cbv zeta.
  rewrite twp_transaction, twp_bind, twp_query, Hblocked, twp_bind, twp_query.
  assert (∀ r, r ∈ rows (records (w_db w)) → negb (isOutreachTerminal (or_status r)) = true →
    (or_campaignId r, or_leadId r, or_contactEmail r) ≠
       (ti_campaignId input, ti_leadId input, normalizeEmail (ti_contactEmail input))) as Hother.
  { intros r (k & Hk)%elem_of_rows Hterm%negb_true_iff. by eapply Hnone. }
  rewrite head_filter_None; [|intros r Hr; destruct (negb _) eqn:Hterm; [|apply andb_false_r]].
  2: { rewrite andb_true_r. by apply bool_decide_fresh, Hother. }
  rewrite twp_bind, twp_now, twp_bind. apply twp_draw; [by apply ready_tick|]. cbn [w_db w_ticks w_uuids].
  intros id R1 D1. rewrite twp_bind. set (rec := Build_OutreachRecord _ _ _ _ _ _ _ _ _ _ _ _ _ _ _ _ _).
  apply twp_insertRecord; [done|done| |done|done|].
  { unfold activeConflict. simpl. apply existsb_false. intros r Hr. cbn [w_db] in Hr.
    destruct (negb (isOutreachTerminal _)) eqn:Hterm; [|by rewrite andb_false_r].
    apply andb_false_iff. right. by apply bool_decide_fresh, Hother. }
  cbn [w_db w_ticks w_uuids]. intros R2. rewrite twp_bind.
  apply twp_appendEvent; [done|simpl; by rewrite lookup_insert_eq|]. cbn [w_db w_ticks w_uuids].
  intros seq e _ R3. rewrite twp_ret. apply (HQ rec); [done| |done|done|apply sameTables_append].
  apply eq_None_not_Some. intros Hu. apply (proj1 D1). by left.
Qed.

Lemma twp_walkPath id att from path (Q : () → world OutreachDb → Prop) w :
  ready w → is_Some (records (w_db w) !! id) → legalWalk from path = true →
  (∀ w', ready w' → sameTables (w_db w) (w_db w') → w_ticks w' = w_ticks w → Q tt w') →
  twp (walkPath id att from path) Q w.
Proof.
  revert from w. induction path as [|to path IH]; intros from w Hready Hrec Hwalk HQ; simpl.
  { rewrite twp_ret. apply HQ; [done|apply sameTables_refl|done]. }
  simpl in Hwalk. apply andb_true_iff in Hwalk as [Hstep Hwalk].
  assert (assertOutreachTransition from to = Ok tt) as -> by by apply assertOutreachTransition_ok.
  rewrite twp_bind, twp_lift_ok, twp_bind. apply twp_appendEvent; [done|done|].
  intros seq e _ Hready'. apply IH; [done|done|done|]. cbn [w_db w_ticks].
  intros w' Hr' Hs Ht. apply HQ; [done| |done].
  eapply sameTables_trans; [apply sameTables_append|exact Hs].
Qed.
End total.

(** ** Enrolling a confirmed send *)

Section enroll.
Context `{Runtime, TzDatabase}.

Lemma twp_require id rec (Q : OutreachRecord → world OutreachDb → Prop) w :
  records (w_db w) !! id = Some rec → Q rec w → twp (require id) Q w.
Proof using Type. intros Hr HQ. unfold require, getRecord. by rewrite twp_bind, twp_query, Hr, twp_ret. Qed.

Lemma find_none_gmail db g :
  (∀ m, m ∈ messages db → om_gmailMessageId m ≠ Some g) →
  List.find (λ m, bool_decide (om_gmailMessageId m = Some g)) (messages db) = None.
Proof using Type.
  intros Hg. destruct (List.find _ _) as [m|] eqn:E; [|done].
  apply find_some in E as [Hin%list_elem_of_In Hm%bool_decide_eq_true]. by destruct (Hg m Hin).
Qed.

(** The statuses from which the approval path leads to INITIAL_SENT *)
Definition enrollable (s : OutreachStatus) : Prop :=
  s ∈ [DRAFT_READY; AWAITING_APPROVAL; APPROVED_TO_SEND].
Lemma enrollable_walk s :
  enrollable s →
  ∃ i, enrollIndex s = Some i ∧ legalWalk s (drop (S i) ENROLL_PATH) = true ∧
    s ≠ INITIAL_SENT ∧ isOutreachTerminal s = false.
Proof using Type.
  intros Hs. unfold enrollable in Hs. rewrite !elem_of_cons in Hs.
  destruct Hs as [->|[->|[->|[]%not_elem_of_nil]]]; [exists 0%nat|exists 1%nat|exists 2%nat];
    (split_and!; [reflexivity|reflexivity|discriminate|reflexivity]).
Qed.

(** What enrolling a confirmed initial send leaves behind, [due] being the instant
    at which the first follow-up becomes due *)
Record initialEnrolled (input : EnrollConfirmedSendInput) (rec : OutreachRecord) (due : Z)
    (r : EnrollConfirmedSendResult) (db db' : OutreachDb) : Prop := {
  ie_outcome : esr_outcome r = ES_ENROLLED;
  ie_message : ∃ m, esr_message r = Some m ∧ messages db' = messages db ++ [m] ∧
    om_outreachRecordId m = or_id rec ∧ om_messageType m = INITIAL ∧ om_sequenceStep m = 0 ∧
    om_subject m = ecs_subject input ∧ om_body m = ecs_body input ∧
    om_contentHash m = messageContentHash (ecs_subject input) (ecs_body input) ∧
    om_gmailMessageId m = Some (ecs_gmailMessageId input) ∧
    om_gmailThreadId m = Some (ecs_gmailThreadId input) ∧ om_sentAt m = Some (ecs_sentAt input);
  ie_followup : ∃ f, esr_followup r = Some f ∧ followups db' = <[fu_id f := f]> (followups db) ∧
    fu_outreachRecordId f = or_id rec ∧ fu_step f = 1 ∧ fu_status f = FU_DUE ∧ fu_dueAt f = due;
  ie_record : records db' = <[or_id rec := esr_record r]> (records db) ∧
    or_status (esr_record r) = INITIAL_SENT ∧ or_lastSentAt (esr_record r) = Some (ecs_sentAt input) ∧
    or_nextFollowupAt (esr_record r) = Some due ∧ or_sequenceStep (esr_record r) = 0;
  ie_rest : replies db' = replies db ∧ deliveryEvents db' = deliveryEvents db ∧
    events db `prefix_of` events db';
}.

Lemma twp_enrollConfirmedSend input w rec off :
  ready w → records (w_db w) !! ecs_outreachRecordId input = Some rec → enrollable (or_status rec) →
  (∀ m, m ∈ messages (w_db w) → om_gmailMessageId m ≠ Some (ecs_gmailMessageId input)) →
  (∀ k f, followups (w_db w) !! k = Some f → fu_status f = FU_DUE →
     (fu_outreachRecordId f, fu_step f) ≠ (ecs_outreachRecordId input, 1)) →
  zone (or_timezone rec) = Some off →
  dangling (emailDraftIds (w_db w)) (ecs_emailDraftId input) = false →
  dangling (finalizationIds (w_db w)) (ecs_finalizedEmailId input) = false →
  twp (enrollConfirmedSend input) (λ r w',
    initialEnrolled input rec (followupDueIn off (ecs_sentAt input) Step1 (ecs_policy input))
      r (w_db w) (w_db w')) w.
Proof.
  intros Hready Hrec Hstatus Hg Hdue Hzone Hfk1 Hfk2.
  pose proof (wf_recordKey _ (proj1 Hready) _ _ Hrec) as Hkey.
  destruct (enrollable_walk _ Hstatus) as (i & Hi & Hwalk & Hnot & Hactive).
  unfold enrollConfirmedSend, findMessageByGmailMessageId.
  rewrite twp_transaction, twp_bind. apply (twp_require _ rec); [done|].
  rewrite twp_bind, twp_query, find_none_gmail by done. rewrite Hi, bool_decide_eq_false_2 by done.
  rewrite twp_bind, twp_now, twp_bind. apply twp_draw; [by apply ready_tick|]. cbn [w_db w_ticks w_uuids].
  intros id R1 D1. rewrite twp_bind. set (m := Build_OutreachMessage _ _ _ _ _ _ _ _ _ _ _ _ _ _).
  apply twp_insertMessage; try done; [by rewrite <-Hkey in Hrec|intros; right; by apply Hg|].
  cbn [w_db w_ticks w_uuids]. intros R2. rewrite twp_bind.
  apply twp_appendEvent; [done|by rewrite <-Hkey in Hrec|]. cbn [w_db w_ticks w_uuids].
  intros seq e _ R3. rewrite twp_bind.
  apply twp_walkPath; [done|by rewrite <-Hkey in Hrec|done|]. cbn [w_db w_ticks w_uuids].
  intros w4 R4 [Hsame Hprefix] _. rewrite twp_bind. unfold computeFollowupDueUtc, withZone.
  rewrite Hzone, twp_lift_ok. cbv beta. set (due := followupDueIn _ _ _ _).
  rewrite twp_bind. apply twp_draw; [done|]. cbn [w_db w_ticks w_uuids]. intros fid R5 D5.
  rewrite twp_bind. set (f := dueFollowup _ _ _ _ _ _).
  apply twp_insertFollowup; [done|done| |by eexists| |].
  { cbn [w_db]. rewrite Hsame. simpl. by rewrite Hkey, Hrec. }
  { cbn [w_db]. rewrite Hsame. simpl. rewrite Hkey. exact Hdue. }
  cbn [w_db w_ticks w_uuids]. intros R6. rewrite twp_bind.
  assert (records (w_db w4) !! or_id rec = Some rec) as Hrec4 by (rewrite Hsame; simpl; by rewrite Hkey).
  eapply (twp_updateRecord _ _ _ _ _ rec); [done|exact Hrec4|by left|].
  cbn [w_db w_ticks w_uuids]. intros R7. rewrite twp_bind.
  apply twp_appendEvent; [done| |].
  { cbn [w_db]. simpl. rewrite lookup_alter_eq, Hrec4. by eexists. }
  intros seq' e' _ _. rewrite twp_ret. cbn [w_db].
  constructor; [done|..]; cbn [esr_message esr_followup esr_record].
  - exists m. split; [done|]. simpl. rewrite Hsame. simpl. done.
  - exists f. split; [done|]. simpl. rewrite Hsame. simpl. done.
  - simpl. rewrite Hsame. simpl. split; [|by destruct rec].
    apply map_eq. intros k. rewrite lookup_alter, lookup_insert, Hkey.
    destruct (decide (_ = k)) as [<-|]; [|done]. by rewrite Hrec.
  - simpl. rewrite Hsame. simpl. split_and!; [done|done|].
    rewrite Hsame in Hprefix. simpl in Hprefix. apply prefix_app_r.
    etrans; [|exact Hprefix]. by apply prefix_app_r.
Qed.

(** Enrolling a confirmed first send succeeds whenever it should: for an existing
    record that precedes the first send, a Gmail id not seen before, a known time
    zone, existing provenance rows and no due first follow-up, the call returns;
    it adds one immutable message with exactly the sent content and identifiers,
    schedules follow-up 1 at the computed instant, and moves the record (and no
    other) to INITIAL_SENT. *)
Theorem enrollConfirmedSend_commits input w rec off :
  ready w → records (w_db w) !! ecs_outreachRecordId input = Some rec → enrollable (or_status rec) →
  (∀ m, m ∈ messages (w_db w) → om_gmailMessageId m ≠ Some (ecs_gmailMessageId input)) →
  (∀ k f, followups (w_db w) !! k = Some f → fu_status f = FU_DUE →
     (fu_outreachRecordId f, fu_step f) ≠ (ecs_outreachRecordId input, 1)) →
  zone (or_timezone rec) = Some off →
  dangling (emailDraftIds (w_db w)) (ecs_emailDraftId input) = false →
  dangling (finalizationIds (w_db w)) (ecs_finalizedEmailId input) = false →
  ∃ r w', enrollConfirmedSend input w = (Ok r, w') ∧
    initialEnrolled input rec (followupDueIn off (ecs_sentAt input) Step1 (ecs_policy input))
      r (w_db w) (w_db w').
Proof. intros. apply twp_returns. by apply twp_enrollConfirmedSend. Qed.
End enroll.

(** ** Idempotence, refusals and races *)

Section refusals.
Context `{Runtime, TzDatabase}.

(** [m] returned or threw without touching the database. *)
Definition untouched {A} (w : world OutreachDb) (out : res A * world OutreachDb) : Prop :=
  w_db out.2 = w_db w.

Lemma find_some_gmail db g m :
  m ∈ messages db → om_gmailMessageId m = Some g →
  ∃ m', List.find (λ m, bool_decide (om_gmailMessageId m = Some g)) (messages db) = Some m' ∧
    m' ∈ messages db ∧ om_gmailMessageId m' = Some g.
Proof using Type.
  intros Hm Hg. destruct (List.find _ _) as [m'|] eqn:E.
  - apply find_some in E as [Hin%list_elem_of_In Hm'%bool_decide_eq_true]. eauto.
  - eapply find_none in E; [|by apply list_elem_of_In]. by rewrite bool_decide_eq_true_2 in E.
Qed.

Lemma enrolled_message input w :
  wp (enrollConfirmedSend input)
    (λ r w', esr_outcome r ≠ ES_RECORD_NOT_ENROLLABLE →
       (∃ m, m ∈ messages (w_db w') ∧ om_gmailMessageId m = Some (ecs_gmailMessageId input)) ∧
       is_Some (records (w_db w') !! ecs_outreachRecordId input)) w.
Proof.
  unfold enrollConfirmedSend, findMessageByGmailMessageId.
  rewrite wp_transaction, wp_bind. apply wp_require. intros rec Hrec. rewrite wp_bind, wp_query.
  destruct (List.find _ _) as [m|] eqn:E.
  { rewrite wp_ret. apply find_some in E as [Hin%list_elem_of_In Hm%bool_decide_eq_true].
    intros _. rewrite Hrec. eauto. }
  destruct (enrollIndex _); [|rewrite wp_ret; done]. case_bool_decide; [rewrite wp_ret; done|].
  wp_run. unfold insertMessage at 1. rewrite wp_guarded. intros _. cbn [w_db w_ticks w_uuids].
  set (m := Build_OutreachMessage _ _ _ _ _ _ _ _ _ _ _ _ _ _).
  match goal with |- wp ?k _ ?w1 =>
    assert (respects writes k) as Hk; [pose proof walkPath_writes; respects_tac|];
    eapply wp_mono; [|apply (Hk w1)] end.
  simpl. intros r w' Hw _. apply writes_history in Hw as [[more Hmore] _ _ _ Hrecs _].
  simpl in Hmore, Hrecs. split.
  - exists m. split; [|done]. rewrite Hmore, !elem_of_app. left; right. by left.
  - destruct (Hrecs _ _ Hrec) as (r' & -> & _). by eexists.
Qed.

(** Enrolling a send is idempotent: once a call returned ENROLLED or
    ALREADY_ENROLLED, any later call with the same record and Gmail id, whatever
    the rest of its input, returns ALREADY_ENROLLED and changes nothing. *)
Theorem enrollConfirmedSend_idempotent input input' w r w1 :
  enrollConfirmedSend input w = (Ok r, w1) → esr_outcome r ≠ ES_RECORD_NOT_ENROLLABLE →
  ecs_outreachRecordId input' = ecs_outreachRecordId input →
  ecs_gmailMessageId input' = ecs_gmailMessageId input →
  ∃ r', enrollConfirmedSend input' w1 = (Ok r', w1) ∧ esr_outcome r' = ES_ALREADY_ENROLLED.
Proof.
  intros Hrun Hout Hid Hg. pose proof (enrolled_message input w) as Hwp. unfold wp in Hwp.
  rewrite Hrun in Hwp. destruct (Hwp Hout) as [(m & Hm & Hmg) [rec Hrec]].
  destruct (find_some_gmail _ _ _ Hm Hmg) as (m' & Hfind & _).
  unfold enrollConfirmedSend, transaction, require, getRecord, findMessageByGmailMessageId, query,
    mbind, M_bind.
  rewrite Hid, Hrec, Hg. simpl. rewrite Hfind. simpl. eexists. split; [reflexivity|done].
Qed.

(** A refused transition changes nothing at all: a missing record and a
    transition that the table does not list are rejected with their typed error,
    without reading the clock, drawing an id or writing a row. *)
Theorem transition_refused id to reason setOutcome w :
  match records (w_db w) !! id with
  | None =>
      transition id to reason setOutcome w =
        (Throw (AppError "OUTREACH_RECORD_NOT_FOUND" ("Outreach record not found: " +:+ id)), w)
  | Some rec =>
      if canOutreachTransition (or_status rec) to then True
      else transition id to reason setOutcome w = (Throw (invalidTransition (or_status rec) to), w)
  end.
Proof.
  destruct w as [db t u]. unfold transition, transaction, require, getRecord, query, mbind, M_bind.
  simpl. destruct (records db !! id) as [rec|]; simpl; [|done].
  destruct (canOutreachTransition _ _) eqn:Hno; [done|].
  unfold assertOutreachTransition. by rewrite Hno.
Qed.

(** The cancellation loop of a transition always completes. *)
Lemma twp_cancelPending id reason nowD (Q : () → world OutreachDb → Prop) w :
  ready w → is_Some (records (w_db w) !! id) →
  (∀ w', ready w' → records (w_db w') = records (w_db w) → messages (w_db w') = messages (w_db w) →
     replies (w_db w') = replies (w_db w) → ¬ pendingOf (w_db w') id → Q tt w') →
  twp (cancelPending id reason nowD) Q w.
Proof.
  intros Hready Hrec HQ. unfold cancelPending, pendingFollowups. rewrite twp_bind, twp_query.
  apply (twp_for_each _ _ (λ todo w', ready w' ∧ records (w_db w') = records (w_db w) ∧
    messages (w_db w') = messages (w_db w) ∧ replies (w_db w') = replies (w_db w) ∧
    covered id todo (w_db w'))).
  - split_and!; [done..|]. intros k f Hf Hp. exists f.
    split; [|by apply (wf_followupKey _ (proj1 Hready))].
    apply elem_of_List_filter. split; [apply elem_of_rows; eauto|done].
  - intros g todo w' (R' & Er & Em & Ep & Hc). unfold cancelOne. rewrite twp_bind.
    apply twp_stopFollowup; [done|done|]. cbv zeta. intros R''. rewrite twp_bind.
    apply twp_appendEvent; [done|by cbn; rewrite Er|]. intros seq e _ R'''. rewrite twp_ret.
    split_and!; [done..|]. by apply covered_cancel.
  - intros w' (R' & Er & Em & Ep & Hc). apply HQ; [done..|]. intros (k & f & Hf & Hp).
    destruct (Hc k f Hf Hp) as (g & Hg & _). by apply not_elem_of_nil in Hg.
Qed.

(** A legal transition always succeeds: the record reaches the requested status
    and no other record changes; reaching a status that ends the sequence leaves
    no pending follow-up and clears the next due date; UNSUBSCRIBED and
    DO_NOT_CONTACT set do-not-contact. *)
Theorem transition_commits id to reason setOutcome w rec :
  ready w → records (w_db w) !! id = Some rec → canOutreachTransition (or_status rec) to = true →
  ∃ r w', transition id to reason setOutcome w = (Ok r, w') ∧
    records (w_db w') = <[id := r]> (records (w_db w)) ∧ or_status r = to ∧
    messages (w_db w') = messages (w_db w) ∧
    (suppressed to → ¬ pendingOf (w_db w') id ∧ or_nextFollowupAt r = None) ∧
    (to = UNSUBSCRIBED ∨ to = DO_NOT_CONTACT → or_doNotContact r = true).
Proof.
  intros Hready Hrec Hlegal. apply twp_returns. unfold transition.
  rewrite twp_transaction, twp_bind. apply (twp_require _ rec); [done|].
  assert (assertOutreachTransition (or_status rec) to = Ok tt) as ->
    by by apply assertOutreachTransition_ok.
  rewrite twp_bind, twp_lift_ok, twp_bind, twp_now, twp_bind.
  set (patch := [set_status to] ++ _). set (nowD := clock _).
  assert (isOutreachTerminal (or_status rec) = false) as Hactive.
  { revert Hlegal. destruct (or_status rec), to; vm_compute; congruence. }
  apply (twp_updateRecord _ _ _ _ _ rec); [by apply ready_tick|done|by left|].
  cbn [w_db w_ticks w_uuids]. intros R1. rewrite twp_bind.
  assert (is_Some (alter (recordPatchToSet patch nowD) id (records (w_db w)) !! id)) as Hrec1.
  { rewrite lookup_alter_eq, Hrec. by eexists. }
  apply twp_appendEvent; [done|exact Hrec1|]. cbn [w_db w_ticks w_uuids].
  intros seq e _ R2. rewrite twp_bind.
  assert (alter (recordPatchToSet patch nowD) id (records (w_db w)) =
          <[id := recordPatchToSet patch nowD rec]> (records (w_db w))) as Ealter.
  { apply map_eq. intros k. rewrite lookup_alter, lookup_insert.
    destruct (decide (id = k)) as [<-|]; [by rewrite Hrec|done]. }
  assert (or_status (recordPatchToSet patch nowD rec) = to ∧
    (cancelsFollowups to = true → or_nextFollowupAt (recordPatchToSet patch nowD rec) = None) ∧
    (to = UNSUBSCRIBED ∨ to = DO_NOT_CONTACT → or_doNotContact (recordPatchToSet patch nowD rec) = true))
    as (Es & En & Ed).
  { unfold patch. destruct rec, to, setOutcome; vm_compute; naive_solver. }
  assert (cancelsFollowups to = false → ¬ suppressed to) as Hns by by destruct to.
  destruct (cancelsFollowups to) eqn:Hcan.
  - apply twp_cancelPending; [done|exact Hrec1|]. intros w' _ Er Em _ Hnone.
    rewrite twp_ret. rewrite Er, Em. simpl. split_and!; auto.
  - rewrite twp_ret, twp_ret. simpl. split_and!; auto. intros Hsup. by destruct (Hns eq_refl).
Qed.
End refusals.

(** ** Witnesses *)

#[local] Existing Instance demo_runtime.
#[local] Existing Instance demo_tz.

Definition usedIds (db : OutreachDb) : list string :=
  (map_to_list (records db)).*1 ++ (map_to_list (followups db)).*1 ++ map om_id (messages db) ++
  map rp_id (replies db) ++ map ev_id (events db) ++ map de_id (deliveryEvents db).
Lemma key_in_list {A} (m : gmap string A) id : is_Some (m !! id) → id ∈ (map_to_list m).*1.
Proof. intros [x Hx]. apply list_elem_of_fmap. exists (id, x). split; [done|by apply elem_of_map_to_list]. Qed.
Lemma usesId_used db id : usesId db id → id ∈ usedIds db.
Proof. unfold usesId, usedIds. rewrite !elem_of_app. intuition eauto using key_in_list. Qed.

Lemma uuid_inj i j : uuid i = uuid j → i = j.
Proof. simpl. intros E. by apply (inj (String.append "uuid-")), (inj pretty) in E. Qed.
(** In a demonstration run every identifier is one of the UUIDs drawn so far. *)
Lemma demo_fresh w :
  forallb (λ id, existsb (λ j, String.eqb id (uuid j)) (seq 0 (w_uuids w))) (usedIds (w_db w)) = true →
  freshUuids w.
Proof.
  intros Hall. split; [exact uuid_inj|]. intros i Hi Hu%usesId_used.
  rewrite elem_of_forallb in Hall. apply Hall, elem_of_existsb in Hu as (j & Hj & E%String.eqb_eq).
  apply uuid_inj in E as ->. apply elem_of_seq in Hj. lia.
Qed.

Definition demoWorld (n : nat) : world OutreachDb := execAll (take n demoOps) demoStart.
Lemma demo_ready n :
  forallb (λ id, existsb (λ j, String.eqb id (uuid j)) (seq 0 (w_uuids (demoWorld n))))
    (usedIds (w_db (demoWorld n))) = true → ready (demoWorld n).
Proof.
  intros Hf. split; [|by apply demo_fresh].
  apply reachable_wellFormed, (demo_reachable n).
Qed.

Lemma enrollConfirmedSend_commits_witness :
  ∃ r w', enrollConfirmedSend (demoSend "uuid-0" "g1") (demoWorld 1) = (Ok r, w') ∧
    or_status (esr_record r) = INITIAL_SENT.
Proof.
  assert (records (w_db (demoWorld 1)) !! "uuid-0" ≠ None) as Hrec by (vm_compute; discriminate).
  destruct (records (w_db (demoWorld 1)) !! "uuid-0") as [rec|] eqn:E; [|exfalso; apply Hrec; reflexivity].
  assert (or_status rec = DRAFT_READY ∧ or_timezone rec = "Europe/Berlin") as [Hs Hz].
  { vm_compute in E. injection E as <-. done. }
  assert (∃ off, zone "Europe/Berlin" = Some off) as [off Hoff] by (eexists; reflexivity).
  destruct (enrollConfirmedSend_commits (demoSend "uuid-0" "g1") (demoWorld 1) rec off)
    as (r & w' & Hrun & [_ _ _ (_ & Hst & _) _]).
  - apply demo_ready. vm_compute. reflexivity.
  - exact E.
  - unfold enrollable. rewrite Hs. by left.
  - vm_compute. intros m Hm. by apply elem_of_nil in Hm.
  - intros k f Hf. vm_compute in Hf. by destruct k.
  - rewrite Hz. exact Hoff.
  - reflexivity.
  - reflexivity.
  - exists r, w'. split; [exact Hrun|exact Hst].
Defined.

Lemma enrollConfirmedSend_idempotent_witness :
  ∃ r', enrollConfirmedSend (demoSend "uuid-0" "g1") (demoWorld 2) = (Ok r', demoWorld 2) ∧
    esr_outcome r' = ES_ALREADY_ENROLLED.
Proof.
  destruct (enrollConfirmedSend (demoSend "uuid-0" "g1") (demoWorld 1)) as [r w1] eqn:E.
  assert (demoWorld 2 = w1) as ->.
  { transitivity (enrollConfirmedSend (demoSend "uuid-0" "g1") (demoWorld 1)).2; [|by rewrite E].
    vm_compute. reflexivity. }
  destruct r as [r|e].
  - apply (enrollConfirmedSend_idempotent (demoSend "uuid-0" "g1") (demoSend "uuid-0" "g1")
             (demoWorld 1) r w1 E); [|done..].
    assert (match (enrollConfirmedSend (demoSend "uuid-0" "g1") (demoWorld 1)).1 with
            | Ok r => esr_outcome r = ES_ENROLLED | _ => False end) as Hout by (vm_compute; done).
    rewrite E in Hout. simpl in Hout. by rewrite Hout.
  - exfalso. assert (is_ok (enrollConfirmedSend (demoSend "uuid-0" "g1") (demoWorld 1)).1 = true)
      as Hok by (vm_compute; reflexivity). by rewrite E in Hok.
Defined.

Lemma transition_commits_witness :
  ∃ r w', transition "uuid-0" DO_NOT_CONTACT None false (demoWorld 2) = (Ok r, w') ∧
    ¬ pendingOf (w_db w') "uuid-0".
Proof.
  assert (records (w_db (demoWorld 2)) !! "uuid-0" ≠ None) as Hrec by (vm_compute; discriminate).
  destruct (records (w_db (demoWorld 2)) !! "uuid-0") as [rec|] eqn:E; [|exfalso; apply Hrec; reflexivity].
  pose proof (transition_commits "uuid-0" DO_NOT_CONTACT None false (demoWorld 2) rec
    (demo_ready 2 ltac:(vm_compute; reflexivity)) E) as Hc.
  destruct Hc as (r & w' & Hrun & _ & _ & _ & Hsup & _).
  - vm_compute in E. injection E as <-. vm_compute. reflexivity.
  - exists r, w'. split; [exact Hrun|]. apply Hsup. vm_compute. reflexivity.
Defined.
