(* ===== verification/OutreachFollowupSend.v ===== *)
(** * Enrolling a confirmed follow-up

    The functional behaviour of [enrollConfirmedFollowup]: what the send of step 1,
    2 or 3 leaves behind, and what it schedules next. *)
From S2P Require Import Prelude.
From S2P Require Import JsText.
From S2P Require Import TimeZone.
From S2P Require Import OutreachStatus.
From S2P Require Import OutreachGates.
From S2P Require Import ReplyClassification.
From S2P Require Import Delivery.
From S2P Require Import OutreachStore.
From S2P Require Import OutreachService.
From S2P Require Import OutreachWrites.
From S2P Require Import OutreachTimeline.
From S2P Require Import OutreachFollowups.
From S2P Require Import OutreachSafety.
From S2P Require Import OutreachSpecs.
Open Scope Z_scope.
Open Scope list_scope.

Section followup.
Context `{Runtime, TzDatabase}.

(** The pending row of the step that was sent *)
Definition pendingRow (db : OutreachDb) (recordId : string) (step : FollowupStep) :
    option OutreachFollowup :=
  List.find (λ f, fu_step f =? stepNumber step)
    (List.filter (isPending recordId) (rows (followups db))).

(** What enrolling the send of [step] leaves behind; [off] is the time zone of the
    record. *)
Record followupEnrolled (input : EnrollConfirmedFollowupInput) (rec : OutreachRecord)
    (step : FollowupStep) (off : Z → Z) (r : EnrollConfirmedFollowupResult)
    (db db' : OutreachDb) : Prop := {
  fe_outcome : efr_outcome r = EF_ENROLLED;
  fe_message : ∃ m, efr_message r = Some m ∧ messages db' = messages db ++ [m] ∧
    om_outreachRecordId m = or_id rec ∧ om_messageType m = FOLLOW_UP ∧
    om_sequenceStep m = stepNumber step ∧ om_subject m = ecf_subject input ∧
    om_body m = ecf_body input ∧ om_gmailMessageId m = Some (ecf_gmailMessageId input) ∧
    om_gmailThreadId m = Some (ecf_gmailThreadId input) ∧ om_sentAt m = Some (ecf_sentAt input);
  fe_next : match nextFollowupStep step with
    | Some next => ∃ f, efr_nextFollowup r = Some f ∧ fu_outreachRecordId f = or_id rec ∧
        fu_step f = stepNumber next ∧ fu_status f = FU_DUE ∧
        fu_dueAt f = followupDueIn off (ecf_sentAt input) next (ecf_policy input)
    | None => efr_nextFollowup r = None
    end;
  fe_followups : efr_sentFollowup r = pendingRow db (or_id rec) step ∧ ∃ nowD,
    let sent := match efr_sentFollowup r with
                | Some f => alter (setFollowupStatus FU_SENT None nowD) (fu_id f) (followups db)
                | None => followups db end in
    followups db' = match efr_nextFollowup r with
                    | Some f => <[fu_id f := f]> sent | None => sent end;
  fe_record : records db' = <[or_id rec := efr_record r]> (records db) ∧
    or_status (efr_record r) = followupSentStatus step ∧
    or_lastSentAt (efr_record r) = Some (ecf_sentAt input) ∧
    or_sequenceStep (efr_record r) = stepNumber step ∧
    or_nextFollowupAt (efr_record r) = fu_dueAt <$> efr_nextFollowup r;
  fe_rest : replies db' = replies db ∧ deliveryEvents db' = deliveryEvents db ∧
    events db `prefix_of` events db';
}.

Lemma pendingStep_status s step :
  pendingFollowupStep s = Some step → s = followupDueStatus step ∧ isOutreachTerminal s = false.
Proof using Type. destruct s, step; vm_compute; naive_solver. Qed.

Lemma alter_known {A} (f : A → A) k (m : gmap string A) x :
  m !! k = Some x → alter f k m = <[k := f x]> m.
Proof using Type.
  intros Hx. apply map_eq. intros j. rewrite lookup_alter, lookup_insert.
  destruct (decide (k = j)) as [<-|]; [by rewrite Hx|done].
Qed.

(** Marking the sent row leaves no due row where there was none. *)
Lemma twp_markSent (sent : option OutreachFollowup) nowD (Q : () → world OutreachDb → Prop) w :
  ready w →
  (let m := match sent with
            | Some f => alter (setFollowupStatus FU_SENT None nowD) (fu_id f) (followups (w_db w))
            | None => followups (w_db w) end in
   let w' := World (setFollowups (λ _, m) (w_db w)) (w_ticks w) (w_uuids w) in
   (∀ k f, m !! k = Some f → fu_status f = FU_DUE → followups (w_db w) !! k = Some f) →
   ready w' → Q tt w') →
  twp (match sent with Some f => updateFollowupStatus (fu_id f) FU_SENT None nowD | None => mret tt end)
    Q w.
Proof.
  intros Hready HQ. destruct sent as [f|].
  - apply twp_stopFollowup; [done|done|]. cbv zeta. intros R. apply HQ; [|done].
    intros k f'. rewrite lookup_alter. destruct (decide _) as [->|]; [|done].
    destruct (followups (w_db w) !! k); [|done]. simpl. intros [= <-]. done.
  - rewrite twp_ret. destruct w as [[] t u]. by apply HQ.
Qed.

(** The row of the next step, if there is one *)
Definition nextScheduled (off : Z → Z) (sentAt : Z) (policy : SequencePolicy) (recordId : string)
    (step : FollowupStep) (nf : option (FollowupStep * OutreachFollowup)) : Prop :=
  match nextFollowupStep step with
  | Some next => ∃ f, nf = Some (next, f) ∧ fu_outreachRecordId f = recordId ∧
      fu_step f = stepNumber next ∧ fu_status f = FU_DUE ∧
      fu_dueAt f = followupDueIn off sentAt next policy
  | None => nf = None
  end.

(** Scheduling the next step, if there is one *)
Lemma twp_scheduleNext (step : FollowupStep) sentAt policy id tz off nowD
    (Q : option (FollowupStep * OutreachFollowup) → world OutreachDb → Prop) w :
  ready w → is_Some (records (w_db w) !! id) → zone tz = Some off →
  (∀ next k f, nextFollowupStep step = Some next → followups (w_db w) !! k = Some f →
     fu_status f = FU_DUE → (fu_outreachRecordId f, fu_step f) ≠ (id, stepNumber next)) →
  (∀ nf w', ready w' →
     nextScheduled off sentAt policy id step nf →
     w_db w' = match nf with Some (_, f) => setFollowups <[fu_id f := f]> (w_db w) | None => w_db w end →
     Q nf w') →
  twp (match nextFollowupStep step with
       | Some next =>
           nextDueAt ← lift_res (computeFollowupDueUtc sentAt next tz policy);
           fid ← randomUUID;
           let f := dueFollowup fid id next nextDueAt tz nowD in
           insertFollowup f ;; mret (Some (next, f))
       | None => mret None
       end) Q w.
Proof.
  intros Hready Hrec Hzone Hdue HQ. unfold nextScheduled in HQ.
  destruct (nextFollowupStep step) as [next|]; [|by apply HQ].
  unfold computeFollowupDueUtc, withZone. rewrite Hzone, twp_bind, twp_lift_ok. cbv beta.
  rewrite twp_bind. apply twp_draw; [done|]. cbn [w_db w_ticks w_uuids]. intros fid R D.
  rewrite twp_bind. apply twp_insertFollowup; [done|done|done|by destruct next; eexists| |].
  { intros k f Hf Hs. by eapply Hdue. }
  cbn [w_db w_ticks w_uuids]. intros R'. rewrite twp_ret. apply HQ; [done|by eexists|done].
Qed.

(** The closing event, whichever it is *)
Lemma twp_closing nf id (final : NewOutreachEvent) (Q : Z → world OutreachDb → Prop) w :
  ready w → is_Some (records (w_db w) !! id) → ne_outreachRecordId final = id →
  (∀ seq e, Q seq (World (setEvents (λ l, l ++ [e]) (w_db w)) (w_ticks w) (S (w_uuids w)))) →
  twp (match nf with
       | Some (next, f) => appendEvent (scheduledEvent id next (fu_dueAt f))
       | None => appendEvent final
       end) Q w.
Proof.
  intros Hready Hrec Hid HQ.
  destruct nf as [[next f]|]; (apply twp_appendEvent; [done|by rewrite ?Hid|intros; apply HQ]).
Qed.

(** Enrolling a confirmed follow-up send succeeds whenever it should: for a record
    that awaits exactly that step, a Gmail id not seen before and a known time zone,
    the call returns; it adds one immutable message of that step with exactly the
    sent content, marks the pending row of the step SENT, moves the record to the
    step's SENT status, and schedules the next step at its computed instant, or,
    after the third and last step, schedules nothing and clears the due date. *)
Theorem enrollConfirmedFollowup_commits input w rec step off :
  ready w → records (w_db w) !! ecf_outreachRecordId input = Some rec →
  pendingFollowupStep (or_status rec) = Some step → ecf_expectedStep input = step →
  (∀ m, m ∈ messages (w_db w) → om_gmailMessageId m ≠ Some (ecf_gmailMessageId input)) →
  (∀ next k f, nextFollowupStep step = Some next → followups (w_db w) !! k = Some f →
     fu_status f = FU_DUE →
     (fu_outreachRecordId f, fu_step f) ≠ (ecf_outreachRecordId input, stepNumber next)) →
  zone (or_timezone rec) = Some off →
  dangling (emailDraftIds (w_db w)) (ecf_emailDraftId input) = false →
  dangling (finalizationIds (w_db w)) (ecf_finalizedEmailId input) = false →
  ∃ r w', enrollConfirmedFollowup input w = (Ok r, w') ∧
    followupEnrolled input rec step off r (w_db w) (w_db w').
Proof.
  intros Hready Hrec Hstep Hexp Hg Hdue Hzone Hfk1 Hfk2. apply twp_returns.
  pose proof (wf_recordKey _ (proj1 Hready) _ _ Hrec) as Hkey.
  destruct (pendingStep_status _ _ Hstep) as [Hst Hactive].
  unfold enrollConfirmedFollowup, findMessageByGmailMessageId, pendingFollowups.
  rewrite twp_transaction, twp_bind. apply (twp_require _ rec); [done|].
  rewrite twp_bind, twp_query, find_none_gmail by done.
  rewrite Hstep, Hexp, bool_decide_eq_true_2 by done. cbn [negb].
  rewrite twp_bind, twp_now, twp_bind. apply twp_draw; [by apply ready_tick|]. cbn [w_db w_ticks w_uuids].
  intros id R1 D1. rewrite twp_bind. set (m := Build_OutreachMessage _ _ _ _ _ _ _ _ _ _ _ _ _ _).
  apply twp_insertMessage; try done; [by rewrite <-Hkey in Hrec|intros; right; by apply Hg|].
  cbn [w_db w_ticks w_uuids]. intros R2. rewrite twp_bind.
  apply twp_appendEvent; [done|by rewrite <-Hkey in Hrec|]. cbn [w_db w_ticks w_uuids].
  intros seq e _ R3. rewrite twp_bind, twp_query. cbn [w_db]. rewrite twp_bind.
  set (sent := List.find _ _). apply twp_markSent; [done|]. cbn [w_db w_ticks w_uuids].
  set (marked := match sent with Some _ => _ | None => _ end). intros Hmarked R4.
  assert (assertOutreachTransition (followupDueStatus step) (followupSentStatus step) = Ok tt) as ->
    by by destruct step.
  rewrite twp_bind, twp_lift_ok, twp_bind.
  apply twp_appendEvent; [done|by rewrite <-Hkey in Hrec|]. cbn [w_db w_ticks w_uuids].
  intros seq' e' _ R5. rewrite twp_bind.
  eapply twp_scheduleNext; [done|by rewrite <-Hkey in Hrec|exact Hzone| |].
  { intros next k f Hn Hf Hs. cbn [w_db] in Hf. rewrite Hkey. apply (Hmarked k f) in Hf; [|done].
    by eapply Hdue. }
  cbn [w_db]. intros nf w6 R6 Hnf Hdb. rewrite twp_bind.
  assert (records (w_db w6) !! or_id rec = Some rec) as Hrec6.
  { rewrite Hdb, Hkey. by destruct nf as [[]|]. }
  eapply (twp_updateRecord _ _ _ _ _ rec); [done|exact Hrec6|by left|].
  cbn [w_db w_ticks w_uuids]. intros R7. rewrite twp_bind.
  apply twp_closing; [done| |done|].
  { cbn [w_db]. simpl. rewrite (alter_known _ _ _ _ Hrec6), lookup_insert_eq. by eexists. }
  intros seq'' e''. rewrite twp_ret. cbn [w_db].
  constructor; cbn [efr_outcome efr_message efr_nextFollowup efr_sentFollowup efr_record].
  - done.
  - exists m. rewrite Hdb. destruct nf as [[]|]; done.
  - unfold nextScheduled in Hnf. destruct (nextFollowupStep step); [|by rewrite Hnf].
    destruct Hnf as (fn & -> & Hf). by exists fn.
  - split; [done|]. eexists. simpl. rewrite Hdb. unfold marked, sent. destruct nf as [[]|]; reflexivity.
  - simpl. rewrite (alter_known _ _ _ _ Hrec6), Hdb. split_and!; [by destruct nf as [[]|]|..];
      destruct rec; [done..|]. by destruct nf as [[]|].
  - simpl. rewrite Hdb. destruct nf as [[]|]; (split_and!; [done..|]); simpl;
      rewrite <-?(assoc_L (++)); by apply prefix_app_r.
Qed.
End followup.

(** ** Witness *)

#[local] Existing Instance demo_runtime.
#[local] Existing Instance demo_tz.

(** The first follow-up came due. *)
Definition followupWorld : world OutreachDb :=
  execAll [OpTrack demoTrack; OpEnrollConfirmedSend (demoSend "uuid-0" "g1");
           OpTransition "uuid-0" FOLLOW_UP_1_DUE None false] demoStart.
Definition demoFollowupSend (gmail : string) : EnrollConfirmedFollowupInput :=
  {| ecf_outreachRecordId := "uuid-0"; ecf_expectedStep := Step1; ecf_subject := "Re: Ihre Website";
     ecf_body := "Noch einmal hallo"; ecf_gmailMessageId := gmail; ecf_gmailThreadId := "t1";
     ecf_sentAt := 1780600000000; ecf_emailDraftId := None; ecf_finalizedEmailId := None;
     ecf_sendAttemptId := "a2"; ecf_policy := DEFAULT_SEQUENCE_POLICY |}.

Lemma map_all {A} (P : A → bool) (m : gmap string A) k x :
  forallb (λ kx, P kx.2) (map_to_list m) = true → m !! k = Some x → P x = true.
Proof.
  intros Hall Hx. rewrite elem_of_forallb in Hall.
  by apply (Hall (k, x)), elem_of_map_to_list.
Qed.
Lemma followupWorld_ready : ready followupWorld.
Proof.
  split; [|apply demo_fresh; vm_compute; reflexivity].
  apply reachable_wellFormed. exists {["c1"]}, {["l1"]}, ∅, ∅. apply (execAll_steps _ demoStart).
Qed.

Lemma enrollConfirmedFollowup_commits_witness :
  ∃ r w', enrollConfirmedFollowup (demoFollowupSend "g2") followupWorld = (Ok r, w') ∧
    or_status (efr_record r) = FOLLOW_UP_1_SENT.
Proof.
  assert (records (w_db followupWorld) !! "uuid-0" ≠ None) as Hrec by (vm_compute; discriminate).
  destruct (records (w_db followupWorld) !! "uuid-0") as [rec|] eqn:E;
    [|exfalso; apply Hrec; reflexivity].
  assert (∃ off, zone "Europe/Berlin" = Some off) as [off Hoff] by (eexists; reflexivity).
  destruct (enrollConfirmedFollowup_commits (demoFollowupSend "g2") followupWorld rec Step1 off)
    as (r & w' & Hrun & [_ _ _ _ (_ & Hst & _) _]).
  - exact followupWorld_ready.
  - exact E.
  - vm_compute in E. injection E as <-. reflexivity.
  - reflexivity.
  - vm_compute. intros m Hm. apply list_elem_of_singleton in Hm as ->. discriminate.
  - intros next k f [= <-] Hf _. apply (map_all (λ f, negb (fu_step f =? 2)) _ k) in Hf;
      [|vm_compute; reflexivity].
    apply negb_true_iff, Z.eqb_neq in Hf. intros [= _ Hf']. by apply Hf.
  - replace (or_timezone rec) with "Europe/Berlin"; [exact Hoff|].
    vm_compute in E. injection E as <-. reflexivity.
  - reflexivity.
  - reflexivity.
  - exists r, w'. split; [exact Hrun|exact Hst].
Defined.
