(* ===== verification/OutreachRaces.v ===== *)
(** * Races and repeated runs

    What the service does when another transaction gets in between, and when a
    request is repeated: the promotion's compare-and-set, the reconciliation of one
    notification, the correction of false bounces, and the record that
    [applyReply] returns. *)
From S2P Require Import Prelude.
From S2P Require Import JsText.
From S2P Require Import TimeZone.
From S2P Require Import OutreachStatus.
From S2P Require Import OutreachGates.
From S2P Require Import ReplyClassification.
From S2P Require Import Delivery.
From S2P Require Import OutreachStore.
From S2P Require Import OutreachService.
From S2P Require Import OutreachWrites.
From S2P Require Import OutreachTimeline.
From S2P Require Import OutreachFollowups.
From S2P Require Import OutreachSafety.
From S2P Require Import OutreachSpecs.
Open Scope Z_scope.
Open Scope list_scope.

(** ** The promotion's compare-and-set *)

Section promotion.
Context `{Runtime, TzDatabase}.

Lemma wp_updateRecordIfStatus id expected patch nowD (Q : bool → world OutreachDb → Prop) w :
  (statusOf (w_db w) id ≠ Some expected → Q false w) →
  (statusOf (w_db w) id = Some expected →
     Q true (World (setRecords (alter (recordPatchToSet patch nowD) id) (w_db w)) (w_ticks w) (w_uuids w))) →
  wp (updateRecordIfStatus id expected patch nowD) Q w.
Proof using Type.
  intros Hno Hyes. unfold updateRecordIfStatus, getRecord. rewrite wp_bind, wp_query.
  unfold statusOf in *. case_bool_decide; [|by apply wp_ret, Hno].
  rewrite wp_bind. unfold updateRecord. rewrite wp_guarded. intros _. by apply wp_ret, Hyes.
Qed.

(** What a returned promotion did, [db] being the database it started from and
    [mid] the one its write was applied to *)
Definition promotionOutcome (input : PromoteFollowupDueInput) (r : PromoteFollowupDueResult)
    (db mid db' : OutreachDb) : Prop :=
  let id := pf_outreachRecordId input in
  match pr_outcome r with
  | PROMOTED => ∃ step from to nowD,
      statusOf mid id = Some from ∧ legalStep from to ∧ to = followupDueStatus step ∧
      pr_from r = Some from ∧ pr_to r = Some to ∧
      records db' = alter (recordPatchToSet [set_status to] nowD) id (records mid) ∧
      followups db' = followups mid ∧ messages db' = messages mid
  | RACE_LOST => statusOf mid id ≠ statusOf db id ∧ db' = mid
  | _ => db' = db
  end.

(** A promotion cannot overwrite a concurrent change: whatever other transactions
    commit between its reads and its write, it returns PROMOTED only if the record
    still has the status it decided on, moving exactly that record to the due
    status of a step; it returns RACE_LOST only if the status changed, and then, as
    for every other outcome, writes nothing. *)
Theorem promotion_compare_and_set interfere input w r w' :
  promoteFollowupDue_with interfere input w = (Ok r, w') →
  ∃ mid, promotionOutcome input r (w_db w) mid (w_db w') ∧
    (mid = w_db w ∨ ∃ w1, w_db w1 = w_db w ∧ mid = w_db (interfere w1).2).
Proof.
  intros Hrun.
  cut (wp (promoteFollowupDue_with interfere input) (λ r w',
    ∃ mid, promotionOutcome input r (w_db w) mid (w_db w') ∧
    (mid = w_db w ∨ ∃ w1, w_db w1 = w_db w ∧ mid = w_db (interfere w1).2)) w).
  { unfold wp. by rewrite Hrun. }
  clear Hrun. unfold promoteFollowupDue_with, getFollowup, getRecord.
  rewrite wp_transaction, wp_bind, wp_query.
  destruct (followups (w_db w) !! _) as [f|]; [|rewrite wp_ret; eexists; split; [done|by left]].
  destruct (negb _); [rewrite wp_ret; eexists; split; [done|by left]|].
  wp_run. destruct (decideFollowupPromotion _ _) as [step from to| | |] eqn:E;
    try (rewrite wp_ret; eexists; split; [done|by left]).
  apply decideFollowupPromotion_iff in E as (_ & _ & _ & _ & Hfrom & _ & Hto & _).
  wp_run. intros u Hlegal%legal_of_assert. wp_run.
  unfold wp at 1. destruct (interfere _) as [[[]|] w2] eqn:Hint; [|done].
  rewrite wp_bind. apply wp_updateRecordIfStatus; intros Hst; simpl.
  - rewrite wp_ret. exists (w_db w2). split; [|right; eexists; split; [|by rewrite Hint]; done].
    unfold promotionOutcome. simpl. split; [|done]. unfold statusOf in *. simpl in Hfrom. congruence.
  - rewrite wp_bind. apply wp_appendEvent. intros id _. rewrite wp_ret.
    exists (w_db w2). split; [|right; eexists; split; [|by rewrite Hint]; done].
    exists step, from, to. eexists. simpl. done.
Qed.
End promotion.

(** ** One notification is reconciled once *)

Section reconciliation.
Context `{Runtime, TzDatabase}.

(** The notification [dsn] has a row. *)
Definition reconciled (dsn : string) (db : OutreachDb) : Prop :=
  ∃ e, e ∈ deliveryEvents db ∧ de_dsnGmailMessageId e = dsn.

Lemma reconciled_history dsn db db' : history db db' → reconciled dsn db → reconciled dsn db'.
Proof using Type.
  intros [_ _ _ (l & more & Happ & Hl) _ _] (e & He & <-).
  apply list_elem_of_lookup in He as (i & Hi). destruct (Forall2_lookup_l _ _ _ _ _ Hl Hi) as (e' & Hi' & Ha).
  exists e'. rewrite Happ. split; [apply elem_of_app; left; by eapply list_elem_of_lookup_2|].
  by destruct Ha as [->|(_ & at_ & reason & by_ & ->)].
Qed.
Lemma record_history id db db' : history db db' → is_Some (records db !! id) → is_Some (records db' !! id).
Proof using Type. intros [_ _ _ _ Hr _] [r Hid]. destruct (Hr _ _ Hid) as (r' & -> & _). eauto. Qed.

Lemma exists_reconciled dsn db :
  existsb (λ e, bool_decide (de_dsnGmailMessageId e = dsn)) (deliveryEvents db) = true ↔ reconciled dsn db.
Proof using Type. rewrite elem_of_existsb. unfold reconciled. by setoid_rewrite bool_decide_eq_true. Qed.

Lemma applyDeliveryFailure_reconciles input w :
  wp (applyDeliveryFailure input) (λ r w',
    r.1 ≠ SKIPPED_TERMINAL → reconciled (df_dsnGmailMessageId input) (w_db w') ∧
    is_Some (records (w_db w') !! df_outreachRecordId input)) w.
Proof.
  unfold applyDeliveryFailure, deliveryEventExists, pendingFollowups.
  rewrite wp_transaction, wp_bind. apply wp_require. intros rec Hrec. wp_run.
  destruct (existsb _ _) eqn:E; [rewrite wp_ret; intros _; apply exists_reconciled in E; by eauto|].
  case_bool_decide; [by rewrite wp_ret|]. wp_run. unfold insertDeliveryEvent at 1.
  rewrite wp_guarded. intros _. cbn [w_db w_ticks w_uuids]. set (e := deliveryEventOf _ _ _).
  match goal with |- wp ?k _ ?w1 =>
    assert (respects writes k) as Hk by (cbv zeta; respects_tac);
    eapply wp_mono; [|apply (Hk w1)] end.
  simpl. intros r w' Hw%writes_history _. split; [|by eapply record_history].
  eapply reconciled_history; [done|]. exists e. split; [|done]. apply elem_of_app. right. by left.
Qed.

(** A bounce is applied once: after a run for a notification that recorded it,
    every later run for the same notification and record, whatever else it
    claims about the notification, reports ALREADY_RECONCILED and changes
    nothing. *)
Theorem applyDeliveryFailure_idempotent input input' w r rec w1 :
  applyDeliveryFailure input w = (Ok (r, rec), w1) → r ≠ SKIPPED_TERMINAL →
  df_dsnGmailMessageId input' = df_dsnGmailMessageId input →
  df_outreachRecordId input' = df_outreachRecordId input →
  ∃ rec' w2, applyDeliveryFailure input' w1 = (Ok (ALREADY_RECONCILED, rec'), w2) ∧
    w_db w2 = w_db w1 ∧ records (w_db w1) !! df_outreachRecordId input = Some rec'.
Proof.
  intros Hrun Hr Hdsn Hid. pose proof (applyDeliveryFailure_reconciles input w) as Hwp.
  unfold wp in Hwp. rewrite Hrun in Hwp. destruct (Hwp Hr) as [Hrec [rec' Hrec']].
  exists rec'. cut (twp (applyDeliveryFailure input')
    (λ out w2, out = (ALREADY_RECONCILED, rec') ∧ w_db w2 = w_db w1) w1).
  { intros (out & w2 & Hrun' & -> & Hw)%twp_returns. eauto. }
  unfold applyDeliveryFailure, deliveryEventExists. rewrite twp_transaction, twp_bind, Hid, Hdsn.
  apply (twp_require _ rec'); [done|]. rewrite twp_bind, twp_now, twp_bind, twp_query. cbn [w_db].
  apply exists_reconciled in Hrec. by rewrite Hrec, twp_ret.
Qed.

(** ** Correcting false bounces *)

(** No event of these notifications is in force any more. *)
Definition noneInForce (ids : list string) (db : OutreachDb) : Prop :=
  ∀ e, e ∈ deliveryEvents db → de_dsnGmailMessageId e ∈ ids → de_supersededAt e ≠ None.
Definition requestedIds (input : CorrectDeliveryEventsInput) : list string :=
  uniq (List.filter truthy (map trim (ci_dsnGmailMessageIds input))).

(** Everything but the timeline and the annotations *)
Definition onlyAnnotates (db db' : OutreachDb) : Prop :=
  records db' = records db ∧ messages db' = messages db ∧ followups db' = followups db ∧
  replies db' = replies db.
#[local] Instance onlyAnnotates_preorder : PreOrder onlyAnnotates.
Proof using Type. split; [by intros db|]. intros db1 db2 db3 (?&?&?&?) (?&?&?&?). unfold onlyAnnotates. split_and!; congruence. Qed.
Lemma appendEvent_annotates evt : respects onlyAnnotates (appendEvent evt).
Proof. intros w. by apply wp_appendEvent. Qed.
Lemma supersede_annotates id at_ reason by_ : respects onlyAnnotates (supersedeDeliveryEvent id at_ reason by_).
Proof using Type. intros w. by apply wp_modify. Qed.
#[local] Hint Resolve appendEvent_annotates supersede_annotates : outreach.

Lemma correctDeliveryEvents_annotates input : respects onlyAnnotates (correctDeliveryEvents input).
Proof.
  unfold correctDeliveryEvents, deliveryEventsByDsnIds. cbv zeta. respects_tac.
Qed.

Lemma wp_supersedeAll refs ids nowD reason by_ (Q : () → world OutreachDb → Prop) w :
  (∀ e, e ∈ deliveryEvents (w_db w) → de_dsnGmailMessageId e ∈ ids → de_supersededAt e = None →
     ∃ r, r ∈ refs ∧ ref_id r = de_id e) →
  (∀ w', noneInForce ids (w_db w') → Q tt w') →
  wp (for_each refs (λ r, supersedeDeliveryEvent (ref_id r) nowD reason by_)) Q w.
Proof using Type.
  intros Hcover HQ.
  apply (wp_for_each _ _ (λ todo w', ∀ e, e ∈ deliveryEvents (w_db w') → de_dsnGmailMessageId e ∈ ids →
    de_supersededAt e = None → ∃ r, r ∈ todo ∧ ref_id r = de_id e)); [exact Hcover| |].
  - intros x todo w' HI. apply wp_modify. cbn [w_db]. simpl. unfold supersedeIn.
    intros e (e0 & -> & He0)%list_elem_of_fmap. case_bool_decide as Hc; [done|].
    intros Hin Hnone. destruct (HI e0 He0 Hin Hnone) as (r & [->|Hr]%elem_of_cons & Er); [|eauto].
    by destruct Hc.
  - intros w' HI. apply HQ. intros e He Hin Hnone. destruct (HI e He Hin Hnone) as (r & []%not_elem_of_nil & _).
Qed.
Definition sameDelivery (db db' : OutreachDb) : Prop := deliveryEvents db' = deliveryEvents db.
#[local] Instance sameDelivery_preorder : PreOrder sameDelivery.
Proof using Type. split; [done|]. intros ? ? ?. unfold sameDelivery. congruence. Qed.
Lemma appendEvent_sameDelivery evt : respects sameDelivery (appendEvent evt).
Proof. intros w. by apply wp_appendEvent. Qed.
#[local] Hint Resolve appendEvent_sameDelivery : outreach.

Lemma inForce_refs ids db :
  List.filter (λ r, bool_decide (ref_supersededAt r = None))
    (map toRef (List.filter (λ e, bool_decide (de_dsnGmailMessageId e ∈ ids)) (deliveryEvents db))) = [] ↔
  noneInForce ids db.
Proof using Type.
  set (l := map toRef _). split.
  - intros Hnil e He Hin Hs. cut (toRef e ∈ @nil DeliveryEventRef); [apply not_elem_of_nil|].
    rewrite <-Hnil. apply elem_of_List_filter. split; [|by rewrite bool_decide_eq_true_2].
    apply list_elem_of_fmap. exists e. split; [done|]. apply elem_of_List_filter.
    by rewrite bool_decide_eq_true_2.
  - intros Hno. destruct (List.filter _ l) as [|r rest] eqn:E; [done|].
    assert (r ∈ List.filter (λ r, bool_decide (ref_supersededAt r = None)) l) as Hr by (rewrite E; by left).
    apply elem_of_List_filter in Hr as [(e & -> & He)%list_elem_of_fmap Hs%bool_decide_eq_true].
    apply elem_of_List_filter in He as [He Hin%bool_decide_eq_true]. by destruct (Hno e He Hin).
Qed.

Lemma correctDeliveryEvents_clears input w :
  ci_dryRun input = false →
  wp (correctDeliveryEvents input) (λ _ w', noneInForce (requestedIds input) (w_db w')) w.
Proof.
  intros Hdry. unfold correctDeliveryEvents, deliveryEventsByDsnIds. cbv zeta.
  fold (requestedIds input). rewrite wp_transaction, wp_bind, wp_query, Hdry.
  set (refs := List.filter _ (map toRef _)). rewrite wp_bind. simpl.
  destruct (0 <? length refs)%nat eqn:Hlen.
  - rewrite wp_bind, wp_now, wp_bind. apply (wp_supersedeAll _ (requestedIds input)).
    + intros e He Hin Hnone. exists (toRef e). split; [|done]. apply elem_of_List_filter.
      split; [|by rewrite bool_decide_eq_true_2]. apply list_elem_of_fmap. exists e. split; [done|].
      apply elem_of_List_filter. by rewrite bool_decide_eq_true_2.
    + intros w1 Hw1. match goal with |- wp ?k _ w1 =>
        assert (respects sameDelivery k) as Hk by respects_tac; eapply wp_mono; [|apply (Hk w1)] end.
      simpl. intros _ w2 Hsame. rewrite wp_ret. unfold noneInForce. rewrite Hsame. exact Hw1.
  - rewrite !wp_ret. apply inForce_refs, nil_length_inv. apply Nat.ltb_ge in Hlen. unfold refs in Hlen. lia.
Qed.

(** Correcting false bounces is safe and complete: it changes no record, message,
    follow-up or reply; a dry run changes nothing; a real run leaves no event of the
    requested notifications in force, and repeating it applies nothing and changes
    nothing. *)
Theorem correctDeliveryEvents_effect input w r w1 :
  correctDeliveryEvents input w = (Ok r, w1) →
  onlyAnnotates (w_db w) (w_db w1) ∧
  if ci_dryRun input then w_db w1 = w_db w ∧ cr_applied r = false
  else noneInForce (requestedIds input) (w_db w1) ∧
    ∃ r', correctDeliveryEvents input w1 = (Ok r', w1) ∧ cr_applied r' = false ∧
      cr_toSupersedeCount r' = 0%nat.
Proof.
  intros Hrun. split.
  { pose proof (correctDeliveryEvents_annotates input w) as Ha. unfold wp in Ha. by rewrite Hrun in Ha. }
  destruct (ci_dryRun input) eqn:Hdry.
  - unfold correctDeliveryEvents in Hrun. rewrite Hdry in Hrun. cbv zeta in Hrun. simpl in Hrun.
    by injection Hrun as <- <-.
  - pose proof (correctDeliveryEvents_clears input w Hdry) as Hno. unfold wp in Hno.
    rewrite Hrun in Hno. split; [done|]. apply inForce_refs in Hno as Hrefs.
    unfold correctDeliveryEvents, deliveryEventsByDsnIds, transaction, query, mbind, M_bind.
    cbv zeta. fold (requestedIds input). rewrite Hrefs, Hdry. simpl. by eexists.
Qed.
End reconciliation.

(** ** The result of a reply *)

#[local] Existing Instance demo_runtime.
#[local] Existing Instance demo_tz.

(** [applyReply] can misreport: for a contact that has unsubscribed, a later
    positive reply leaves the stored status UNSUBSCRIBED, as it must, but the call
    returns a record whose status is REPLIED_POSITIVE. *)
Theorem applyReply_misreports :
  ∃ input w r w', reachable (w_db w) ∧ applyReply input w = (Ok r, w') ∧
    or_status r = REPLIED_POSITIVE ∧ statusOf (w_db w') (or_id r) = Some UNSUBSCRIBED.
Proof.
  set (input := {| ar_outreachRecordId := "uuid-0"; ar_gmailThreadId := "t1"; ar_gmailMessageId := "g-r2";
    ar_fromEmail := "info@praxis.de"; ar_receivedAtMs := 1780000600000;
    ar_preview := "On second thought, yes please"; ar_classification := rc_positive |}).
  destruct (applyReply input (demoWorld 3)) as [[r|e] w'] eqn:E; [|vm_compute in E; discriminate E].
  exists input, (demoWorld 3), r, w'. split; [apply (demo_reachable 3)|]. split; [exact E|].
  vm_compute in E. injection E as <- <-. vm_compute. done.
Qed.

(** ** Witnesses *)

Definition demoDsn : ApplyDeliveryFailureInput :=
  {| df_outreachRecordId := "uuid-0"; df_outreachMessageId := None; df_deliveryStatus := DS_BOUNCED;
     df_permanence := PERMANENT; df_rejectionCode := Some "5.1.1"; df_diagnosticText := None;
     df_dsnStatus := Some "5.1.1"; df_dsnAction := Some "failed"; df_finalRecipient' := None;
     df_originalRecipient' := None; df_bounceAtMs := None; df_originalGmailMessageId := None;
     df_originalGmailThreadId := None; df_dsnGmailMessageId := "dsn1"; df_dsnGmailThreadId := None;
     df_preview := "Address not found" |}.
Definition demoCorrection : CorrectDeliveryEventsInput :=
  {| ci_dsnGmailMessageIds := [" dsn1"]; ci_reason := "stale bounce"; ci_by := "operator";
     ci_dryRun := false |}.
Definition bouncedWorld : world OutreachDb := (applyDeliveryFailure demoDsn (demoWorld 2)).2.

Lemma applyDeliveryFailure_idempotent_witness :
  ∃ rec' w2, applyDeliveryFailure demoDsn bouncedWorld = (Ok (ALREADY_RECONCILED, rec'), w2) ∧
    w_db w2 = w_db bouncedWorld.
Proof.
  destruct (applyDeliveryFailure demoDsn (demoWorld 2)) as [[[out rec]|e] w1] eqn:E;
    [|vm_compute in E; discriminate E].
  assert (bouncedWorld = w1) as -> by (unfold bouncedWorld; by rewrite E).
  destruct (applyDeliveryFailure_idempotent demoDsn demoDsn (demoWorld 2) out rec w1 E)
    as (rec' & w2 & Hrun & Hdb & _); [|reflexivity|reflexivity|exists rec', w2; split; [exact Hrun|exact Hdb]].
  vm_compute in E. injection E as <- _ _. discriminate.
Defined.

Lemma correctDeliveryEvents_effect_witness :
  ∃ r w1, correctDeliveryEvents demoCorrection bouncedWorld = (Ok r, w1) ∧ cr_applied r = true ∧
    noneInForce ["dsn1"] (w_db w1) ∧ records (w_db w1) = records (w_db bouncedWorld).
Proof.
  destruct (correctDeliveryEvents demoCorrection bouncedWorld) as [[r|e] w1] eqn:E;
    [|vm_compute in E; discriminate E].
  destruct (correctDeliveryEvents_effect demoCorrection bouncedWorld r w1 E) as [(Hr & _) [Hno _]].
  exists r, w1. split; [reflexivity|]. split; [|split; [exact Hno|exact Hr]].
  vm_compute in E. injection E as <- _. reflexivity.
Defined.

(** The promotion of a follow-up that is due, while a reply arrives *)
Definition lateRuntime : Runtime :=
  {| clock n := 1790000000000 + 1000 * Z.of_nat n; uuid := uuid; sha256Hex := sha256Hex |}.
Definition demoPromotion : PromoteFollowupDueInput :=
  {| pf_followupId := "uuid-7"; pf_outreachRecordId := "uuid-0"; pf_actor := "scheduler" |}.
Definition racingReply : OM () := _ ← applyReply (demoReply "uuid-0"); mret tt.

Lemma promotion_compare_and_set_witness :
  ∃ r w', promoteFollowupDue_with (H := lateRuntime) racingReply demoPromotion (demoWorld 2) = (Ok r, w') ∧
    pr_outcome r = RACE_LOST ∧ ∃ mid, statusOf mid "uuid-0" ≠ Some INITIAL_SENT ∧ w_db w' = mid.
Proof.
  destruct (promoteFollowupDue_with (H := lateRuntime) racingReply demoPromotion (demoWorld 2))
    as [[r|e] w'] eqn:E; [|vm_compute in E; discriminate E].
  destruct (promotion_compare_and_set (H := lateRuntime) racingReply demoPromotion (demoWorld 2) r w' E)
    as (mid & Hout & _).
  assert (pr_outcome r = RACE_LOST) as Hlost by (vm_compute in E; injection E as <- _; reflexivity).
  exists r, w'. split; [reflexivity|]. split; [exact Hlost|]. exists mid.
  unfold promotionOutcome in Hout. rewrite Hlost in Hout. destruct Hout as [Hne Hmid].
  split; [|exact Hmid]. intros Heq. apply Hne.
  transitivity (Some INITIAL_SENT); [exact Heq|vm_compute; reflexivity].
Defined.
