(* ===== verification/OutreachSync.v ===== *)
(** * Synchronisation with the mailbox

    [runReplySync] (src/domain/outreach/reply-sync.ts), [runDeliveryReconciliation]
    (src/domain/outreach/delivery-reconciliation.ts), and the two queries that give
    them their work, [trackedThreads] and [trackedOutbounds]
    (src/persistence/repositories/outreach.repo.ts).  The mailbox readers are
    parameters; a query without ORDER BY returns the rows in the order of insertion. *)
From S2P Require Import Prelude.
From S2P Require Import JsText.
From S2P Require Import TimeZone.
From S2P Require Import OutreachStatus.
From S2P Require Import OutreachGates.
From S2P Require Import ReplyClassification.
From S2P Require Import Delivery.
From S2P Require Import OutreachStore.
From S2P Require Import OutreachService.
From S2P Require Import OutreachWrites.
From S2P Require Import OutreachTimeline.
From S2P Require Import OutreachFollowups.
From S2P Require Import OutreachSafety.
From S2P Require Import OutreachSpecs.
Open Scope Z_scope.
Open Scope list_scope.

(** ** What to read *)

Record TrackFilter := { tf_recordId : option string; tf_campaignId : option string }.
(** [if (filter?.x) conditions.push(eq(column, filter.x))] *)
Definition matchesFilter (want : option string) (got : string) : bool :=
  match want with Some x => negb (truthy x) || String.eqb got x | None => true end.
(** The messages joined with their records, under the conditions of the query *)
Definition joinedMessages (cond : OutreachMessage → OutreachRecord → bool) (db : OutreachDb) :
    list (OutreachMessage * OutreachRecord) :=
  omap (λ m, match records db !! om_outreachRecordId m with
             | Some r => if cond m r then Some (m, r) else None
             | None => None
             end) (messages db).

(** The [Map] from record to its thread and its latest outbound message, in the order
    of insertion *)
Fixpoint trackMessage (recordId threadId : string) (at_ : Z) (m : list (string * (string * Z))) :
    list (string * (string * Z)) :=
  match m with
  | [] => [(recordId, (threadId, at_))]
  | (k, cur) :: m =>
      if String.eqb k recordId
      then (k, if cur.2 <? at_ then (threadId, at_) else cur) :: m
      else (k, cur) :: trackMessage recordId threadId at_ m
  end.
Definition trackRow (m : list (string * (string * Z))) (row : OutreachMessage * OutreachRecord) :
    list (string * (string * Z)) :=
  match om_gmailThreadId row.1, om_sentAt row.1 with
  | Some threadId, Some at_ =>
      if truthy threadId then trackMessage (om_outreachRecordId row.1) threadId at_ m else m
  | _, _ => m
  end.
Definition trackedThreads (filter : TrackFilter) (db : OutreachDb) : list TrackedThread :=
  let msgRows := joinedMessages (λ m r,
    bool_decide (is_Some (om_gmailThreadId m)) && bool_decide (is_Some (om_sentAt m)) &&
    matchesFilter (tf_recordId filter) (om_outreachRecordId m) &&
    matchesFilter (tf_campaignId filter) (or_campaignId r)) db in
  map (λ e : string * (string * Z),
    {| tt_outreachRecordId := e.1; tt_threadId := e.2.1; tt_lastOutboundAtMs := e.2.2;
       tt_handledMessageIds :=
         map rp_gmailMessageId
           (List.filter (λ r, String.eqb (rp_outreachRecordId r) e.1) (replies db)) |})
    (fold_left trackRow msgRows []).

Definition trackedOutbounds (filter : TrackFilter) (db : OutreachDb) : list TrackedOutbound :=
  omap (λ row : OutreachMessage * OutreachRecord,
    match om_gmailMessageId row.1, om_sentAt row.1 with
    | Some g, Some at_ =>
        if truthy g then
          Some {| to_outreachRecordId := om_outreachRecordId row.1;
                  to_outreachMessageId := om_id row.1; to_gmailMessageId := g;
                  to_gmailThreadId := default "" (om_gmailThreadId row.1);
                  to_contactEmail := or_contactEmail row.2; to_sentAtMs := at_;
                  to_rfcMessageId := None |}
        else None
    | _, _ => None
    end)
    (joinedMessages (λ m r,
       bool_decide (is_Some (om_gmailMessageId m)) && bool_decide (is_Some (om_sentAt m)) &&
       negb (bool_decide (or_status r ∈
         [OutreachStatus.BOUNCED; UNSUBSCRIBED; DO_NOT_CONTACT; CLOSED_WON; CLOSED_LOST])) &&
       matchesFilter (tf_recordId filter) (om_outreachRecordId m) &&
       matchesFilter (tf_campaignId filter) (or_campaignId r)) db).

(** ** Replies *)

Record GmailThreadReader := {
  gtr_name : string; gtr_readsExternally : bool;
  gtr_readThread : nat → string → res (list InboundMessage);
}.
Record ReplySyncReport := {
  rsr_reader : string; rsr_readExternally : bool; rsr_threadsChecked : nat;
  rsr_repliesApplied : list DetectedReply;
}.
Definition replyInput (d : DetectedReply) : ApplyReplyInput :=
  {| ar_outreachRecordId := dr_outreachRecordId d; ar_gmailThreadId := dr_threadId d;
     ar_gmailMessageId := dr_messageId d; ar_fromEmail := dr_fromEmail d;
     ar_receivedAtMs := dr_receivedAtMs d; ar_preview := dr_preview d;
     ar_classification := dr_classification d |}.

Section reply_sync.
Context `{Runtime, TzDatabase, Collation} (reader : GmailThreadReader) (ownEmails : list string).

Definition syncThread (thread : TrackedThread) (applied : list DetectedReply) : OM (list DetectedReply) :=
  messages ← ask (λ n, gtr_readThread reader n (tt_threadId thread));
  match detectReply messages thread ownEmails with
  | None => mret applied
  | Some detected => _ ← applyReply (replyInput detected); mret (applied ++ [detected])
  end.
Definition runReplySync (threads : list TrackedThread) : OM ReplySyncReport :=
  applied ← fold_each threads syncThread [];
  mret {| rsr_reader := gtr_name reader; rsr_readExternally := gtr_readsExternally reader;
          rsr_threadsChecked := length threads; rsr_repliesApplied := applied |}.
End reply_sync.

(** ** Delivery notifications *)

Record GmailBounceReader := {
  gbr_name : string; gbr_readsExternally : bool;
  gbr_findDeliveryNotifications : nat → list TrackedOutbound → res (list RawDeliveryNotification);
}.
Record DeliveryProposal := {
  dlp_dsnGmailMessageId : string; dlp_dsnGmailThreadId : string; dlp_outreachRecordId : string;
  dlp_outreachMessageId : string; dlp_correlationSignal : CorrelationSignal;
  dlp_permanence : DeliveryPermanence; dlp_deliveryStatus : DeliveryStatus;
  dlp_rejectionCode : option string; dlp_finalRecipient : option string; dlp_preview : string;
}.
Inductive DeliverySkipReason :=
  | NOT_A_DSN | NO_CORRELATION | AMBIGUOUS_CORRELATION | SKIP_BEFORE_SENT | SKIP_OUTSIDE_WINDOW.
Record DeliverySkip := {
  sk_dsnGmailMessageId : string; sk_reason : DeliverySkipReason; sk_detail : option string;
}.
Record DeliveryApplied := {
  da_dsnGmailMessageId : string; da_outreachRecordId : string; da_outcome : DeliveryFailureOutcome;
}.
Record DeliveryReconciliationReport := {
  drr_reader : string; drr_readExternally : bool; drr_dryRun : bool;
  drr_notificationsChecked : nat; drr_proposals : list DeliveryProposal;
  drr_applied : list DeliveryApplied; drr_skipped : list DeliverySkip;
}.
Definition toProposal (dsn : ParsedDsn) (outbound : TrackedOutbound) (signal : CorrelationSignal) :
    DeliveryProposal :=
  let permanence :=
    classifyDeliveryPermanence (dsn_status dsn) (dsn_diagnosticCode dsn) (dsn_action dsn) in
  {| dlp_dsnGmailMessageId := dsn_gmailMessageId dsn; dlp_dsnGmailThreadId := dsn_gmailThreadId dsn;
     dlp_outreachRecordId := to_outreachRecordId outbound;
     dlp_outreachMessageId := to_outreachMessageId outbound; dlp_correlationSignal := signal;
     dlp_permanence := permanence; dlp_deliveryStatus := permanenceToDeliveryStatus permanence;
     dlp_rejectionCode := rejectionCode (dsn_status dsn) (dsn_diagnosticCode dsn);
     dlp_finalRecipient := dsn_finalRecipient dsn; dlp_preview := dsn_preview dsn |}.
Definition signalText (s : CorrelationSignal) : string :=
  match s with
  | RFC_MESSAGE_ID => "RFC_MESSAGE_ID" | GMAIL_MESSAGE_ID => "GMAIL_MESSAGE_ID"
  | THREAD_ID => "THREAD_ID" | RECIPIENT => "RECIPIENT"
  end.
(** What the loop makes of one notification before anything is applied *)
Definition assess (outbounds : list TrackedOutbound) (n : RawDeliveryNotification) :
    DeliverySkip + ParsedDsn * TrackedOutbound * CorrelationSignal :=
  if negb (isDeliveryNotification (rdn_fromEmail n) (rdn_subject n) (rdn_contentType n)
             (truthy_opt (rdn_xFailedRecipients n)))
  then inl {| sk_dsnGmailMessageId := rdn_gmailMessageId n; sk_reason := NOT_A_DSN; sk_detail := None |}
  else
    let dsn := parseDsn n in
    match correlateDsn dsn outbounds with
    | NotCorrelated reason =>
        inl {| sk_dsnGmailMessageId := dsn_gmailMessageId dsn;
               sk_reason := match reason with
                 | BEFORE_SENT => SKIP_BEFORE_SENT | OUTSIDE_WINDOW => SKIP_OUTSIDE_WINDOW
                 | NO_SIGNAL => NO_CORRELATION end;
               sk_detail := None |}
    | Ambiguous matchedRecordIds signal =>
        inl {| sk_dsnGmailMessageId := dsn_gmailMessageId dsn; sk_reason := AMBIGUOUS_CORRELATION;
               sk_detail := Some (signalText signal +:+ " matches records " +:+
                                  join ", " matchedRecordIds) |}
    | Matched outbound signal => inr (dsn, outbound, signal)
    end.
Definition failureInput (dsn : ParsedDsn) (outbound : TrackedOutbound) (proposal : DeliveryProposal) :
    ApplyDeliveryFailureInput :=
  {| df_outreachRecordId := to_outreachRecordId outbound;
     df_outreachMessageId := Some (to_outreachMessageId outbound);
     df_deliveryStatus := dlp_deliveryStatus proposal; df_permanence := dlp_permanence proposal;
     df_rejectionCode := dlp_rejectionCode proposal; df_diagnosticText := dsn_diagnosticCode dsn;
     df_dsnStatus := dsn_status dsn; df_dsnAction := dsn_action dsn;
     df_finalRecipient' := dsn_finalRecipient dsn; df_originalRecipient' := dsn_originalRecipient dsn;
     df_bounceAtMs := Some (dsn_receivedAtMs dsn);
     df_originalGmailMessageId := Some (to_gmailMessageId outbound);
     df_originalGmailThreadId := Some (to_gmailThreadId outbound);
     df_dsnGmailMessageId := dsn_gmailMessageId dsn;
     df_dsnGmailThreadId := Some (dsn_gmailThreadId dsn); df_preview := dsn_preview dsn |}.

Section reconciliation.
Context `{Runtime, TzDatabase} (reader : GmailBounceReader) (outbounds : list TrackedOutbound) (dryRun : bool).

Definition reconcileOne (n : RawDeliveryNotification)
    (acc : list DeliveryProposal * list DeliveryApplied * list DeliverySkip) :
    OM (list DeliveryProposal * list DeliveryApplied * list DeliverySkip) :=
  let '(proposals, applied, skipped) := acc in
  match assess outbounds n with
  | inl skip => mret (proposals, applied, skipped ++ [skip])
  | inr (dsn, outbound, signal) =>
      let proposal := toProposal dsn outbound signal in
      if dryRun then mret (proposals ++ [proposal], applied, skipped)
      else
        result ← applyDeliveryFailure (failureInput dsn outbound proposal);
        mret (proposals ++ [proposal],
              applied ++ [{| da_dsnGmailMessageId := dsn_gmailMessageId dsn;
                             da_outreachRecordId := to_outreachRecordId outbound;
                             da_outcome := result.1 |}],
              skipped)
  end.
Definition runDeliveryReconciliation : OM DeliveryReconciliationReport :=
  raw ← ask (λ n, gbr_findDeliveryNotifications reader n outbounds);
  acc ← fold_each raw reconcileOne ([], [], []);
  let '(proposals, applied, skipped) := acc in
  mret {| drr_reader := gbr_name reader; drr_readExternally := gbr_readsExternally reader;
          drr_dryRun := dryRun; drr_notificationsChecked := length raw;
          drr_proposals := proposals; drr_applied := applied; drr_skipped := skipped |}.
End reconciliation.

(** ** What is tracked *)

Section tracked.

(** The dated messages that belong to a thread *)
Definition dated (row : OutreachMessage * OutreachRecord) : option (string * (string * Z)) :=
  match om_gmailThreadId row.1, om_sentAt row.1 with
  | Some t, Some at_ => if truthy t then Some (om_outreachRecordId row.1, (t, at_)) else None
  | _, _ => None
  end.
Lemma trackRow_dated m row :
  trackRow m row = match dated row with Some (k, (t, at_)) => trackMessage k t at_ m | None => m end.
Proof. unfold trackRow, dated. by repeat case_match; simplify_eq. Qed.

(** [m] holds, for each record of [l], its latest message of [l]. *)
Record tracks (l : list (string * (string * Z))) (m : list (string * (string * Z))) : Prop := {
  tr_keys : NoDup m.*1;
  tr_from : ∀ e, e ∈ m → e ∈ l;
  tr_latest : ∀ k t at_, (k, (t, at_)) ∈ l → ∃ e, (k, e) ∈ m ∧ at_ <= e.2;
}.
Lemma trackMessage_keys k t at_ m x : x ∈ (trackMessage k t at_ m).*1 ↔ x = k ∨ x ∈ m.*1.
Proof.
  induction m as [|[k' cur] m IH]; simpl; [set_solver|].
  destruct (String.eqb_spec k' k) as [->|Hne]; simpl; [set_solver|].
  rewrite !elem_of_cons, IH. naive_solver.
Qed.
Lemma trackMessage_NoDup k t at_ m : NoDup m.*1 → NoDup (trackMessage k t at_ m).*1.
Proof.
  induction m as [|[k' cur] m IH]; simpl; [intros _; apply NoDup_singleton|].
  intros [Hk Hm]%NoDup_cons. destruct (String.eqb_spec k' k) as [->|Hne]; simpl; [by constructor|].
  constructor; [|by apply IH]. rewrite trackMessage_keys. naive_solver.
Qed.
Lemma trackMessage_elem k t at_ m e :
  e ∈ trackMessage k t at_ m → e = (k, (t, at_)) ∨ e ∈ m.
Proof.
  induction m as [|[k' cur] m IH]; simpl; [intros ->%list_elem_of_singleton; by left|].
  destruct (String.eqb_spec k' k) as [->|Hne]; rewrite !elem_of_cons; [case_match; naive_solver|].
  naive_solver.
Qed.
Lemma trackMessage_newest k t at_ m : ∃ e, (k, e) ∈ trackMessage k t at_ m ∧ at_ <= e.2.
Proof.
  induction m as [|[k' cur] m IH]; simpl; [eexists; split; [by left|simpl; lia]|].
  destruct (String.eqb_spec k' k) as [->|Hne].
  - eexists. split; [by left|]. destruct (Z.ltb_spec cur.2 at_); simpl; lia.
  - destruct IH as (e & ? & ?). exists e. split; [by right|done].
Qed.
Lemma trackMessage_grows k t at_ m k' e :
  (k', e) ∈ m → ∃ e', (k', e') ∈ trackMessage k t at_ m ∧ e.2 <= e'.2.
Proof.
  induction m as [|[k0 cur] m IH]; simpl; [by intros ?%not_elem_of_nil|].
  intros [[= -> ->]|Hin]%elem_of_cons.
  - destruct (String.eqb_spec k0 k) as [->|Hne]; [|exists cur; split; [by left|lia]].
    eexists. split; [by left|]. destruct (Z.ltb_spec cur.2 at_); simpl; lia.
  - destruct (String.eqb_spec k0 k) as [->|Hne]; [exists e; split; [by right|lia]|].
    destruct (IH Hin) as (e' & ? & ?). exists e'. split; [by right|done].
Qed.
Lemma tracks_step l m k t at_ : tracks l m → tracks (l ++ [(k, (t, at_))]) (trackMessage k t at_ m).
Proof.
  intros [Hk Hf Hl]. constructor; [by apply trackMessage_NoDup| |].
  - intros e [->|He]%trackMessage_elem; rewrite elem_of_app; [right; by left|left; by apply Hf].
  - intros k' t' at' [Hin|[= -> -> ->]%list_elem_of_singleton]%elem_of_app;
      [|apply trackMessage_newest].
    apply Hl in Hin as (e & He & ?). apply (trackMessage_grows k t at_) in He as (e' & ? & ?).
    exists e'. split; [done|lia].
Qed.
Lemma fold_tracks rows l m :
  tracks l m → tracks (l ++ omap dated rows) (fold_left trackRow rows m).
Proof.
  revert l m. induction rows as [|row rows IH]; intros l m Hm; simpl; [by rewrite app_nil_r|].
  rewrite trackRow_dated. destruct (dated row) as [[k [t at_]]|]; simpl; [|by apply IH].
  rewrite (cons_middle _ l), (assoc_L app). apply IH. by apply tracks_step.
Qed.

Lemma elem_of_joined cond db m r :
  (m, r) ∈ joinedMessages cond db ↔
  m ∈ messages db ∧ records db !! om_outreachRecordId m = Some r ∧ cond m r = true.
Proof.
  unfold joinedMessages. rewrite list_elem_of_omap. split.
  - intros (m' & Hm' & E). repeat case_match; naive_solver.
  - intros (Hm & Hr & Hc). exists m. rewrite Hr, Hc. done.
Qed.
End tracked.

(** A tracked thread belongs to a record; its cut-off is its record's latest dated
    message on a thread, and what it lists as handled is what is stored. *)
Record trackedThread (filter : TrackFilter) (db : OutreachDb) (t : TrackedThread) : Prop := {
  tk_record : is_Some (records db !! tt_outreachRecordId t);
  tk_message : ∃ m, m ∈ messages db ∧ om_outreachRecordId m = tt_outreachRecordId t ∧
    om_gmailThreadId m = Some (tt_threadId t) ∧ om_sentAt m = Some (tt_lastOutboundAtMs t);
  tk_latest : ∀ m g at_, m ∈ messages db → om_outreachRecordId m = tt_outreachRecordId t →
    om_gmailThreadId m = Some g → truthy g = true → om_sentAt m = Some at_ →
    at_ <= tt_lastOutboundAtMs t;
  tk_handled : ∀ x, x ∈ tt_handledMessageIds t ↔
    ∃ r, r ∈ replies db ∧ rp_outreachRecordId r = tt_outreachRecordId t ∧ rp_gmailMessageId r = x;
}.

Lemma trackedThreads_spec filter db :
  NoDup (map tt_outreachRecordId (trackedThreads filter db)) ∧
  ∀ t, t ∈ trackedThreads filter db → trackedThread filter db t.
Proof.
  unfold trackedThreads. set (rs := joinedMessages _ db).
  assert (tracks (omap dated rs) (fold_left trackRow rs [])) as [Hk Hf Hl].
  { apply (fold_tracks rs []). constructor; [constructor|by intros ? ?%not_elem_of_nil|].
    by intros ??? ?%not_elem_of_nil. }
  split; [by rewrite map_map|].
  intros t ([k [g at_]] & -> & He)%list_elem_of_fmap. simpl.
  pose proof (Hf _ He) as ([m r] & Hrow & Hd)%list_elem_of_omap.
  apply elem_of_joined in Hrow as (Hm & Hr & Hc). unfold dated in Hd. simpl in Hd.
  repeat case_match; simplify_eq.
  constructor; cbn [tt_outreachRecordId tt_threadId tt_lastOutboundAtMs tt_handledMessageIds].
  - by eexists.
  - by exists m.
  - intros m' g' at' Hm' Hid Hg' Htr Hat'.
    destruct (Hl (om_outreachRecordId m) g' at') as ([g2 at2] & He2 & Hle).
    { apply list_elem_of_omap. exists (m', r). split.
      - apply elem_of_joined. rewrite Hid. split_and!; [done..|].
        rewrite Hg', Hat', !bool_decide_eq_true_2 by done.
        rewrite !andb_true_iff in Hc. simpl. destruct Hc as [[[_ _] Hc1] Hc2]. by rewrite Hc1, Hc2.
      - unfold dated. simpl. by rewrite Hg', Hat', Htr, Hid. }
    assert ((g2, at2) = (g, at_)) as [= -> ->]; [|done].
    by eapply (NoDup_keys (fold_left trackRow rs [])).
  - intros x. rewrite list_elem_of_fmap. setoid_rewrite elem_of_List_filter.
    setoid_rewrite String.eqb_eq. naive_solver.
Qed.

(** ** Applying one reply *)

Section apply_reply.
Context `{Runtime, TzDatabase}.

Lemma twp_insertReply r (Q : () → world OutreachDb → Prop) w :
  ready w → drawn w (rp_id r) → is_Some (records (w_db w) !! rp_outreachRecordId r) →
  rp_gmailMessageId r ∉ map rp_gmailMessageId (replies (w_db w)) →
  (let w' := World (setReplies (λ l, l ++ [r]) (w_db w)) (w_ticks w) (w_uuids w) in
   ready w' → Q tt w') →
  twp (insertReply r) Q w.
Proof.
  intros Hready Hd Hrec Hg HQ.
  assert (checkInsertReply r (w_db w) = None) as Hc.
  { apply refuse_None. repeat constructor; simpl.
    - apply existsb_false. intros r' Hr'. apply bool_decide_fresh. intros E. apply Hd.
      do 3 right; left. apply list_elem_of_fmap. by exists r'.
    - apply existsb_false. intros r' Hr'. apply bool_decide_fresh. intros E. apply Hg.
      apply list_elem_of_fmap. by exists r'.
    - by apply noRecord_false. }
  apply twp_guarded; [done|]. apply HQ. eapply ready_write; [done|exact Hd| |].
  - apply wf_insertReply; [apply Hready|done].
  - intros k Hu. unfold usesId in *. simpl in Hu. rewrite map_app, elem_of_app in Hu.
    destruct Hu as [?|[?|[?|[[?|Hu]|?]]]]; eauto 10. simpl in Hu.
    apply list_elem_of_singleton in Hu. by left.
Qed.

(** A reply that may not move the record finds it suppressed already. *)
Lemma reply_illegal_suppressed s c :
  canOutreachTransition s (classificationToStatus c) = false → suppressed s.
Proof using Type. unfold suppressed. destruct s, c; vm_compute; congruence. Qed.
Lemma reply_legal_active s c :
  canOutreachTransition s (classificationToStatus c) = true → isOutreachTerminal s = false.
Proof using Type. destruct s, c; vm_compute; congruence. Qed.
Lemma reply_suppressed c : suppressed (classificationToStatus c).
Proof using Type. unfold suppressed. by destruct c. Qed.

(** The effect of a reply on its record [id] *)
Record replyApplied (input : ApplyReplyInput) (db db' : OutreachDb) : Prop := {
  ra_record : ∃ r r', records db !! ar_outreachRecordId input = Some r ∧
    records db' = <[ar_outreachRecordId input := r']> (records db) ∧ suppressed (or_status r') ∧
    or_status r' = (if canOutreachTransition (or_status r) (classificationToStatus (ar_classification input))
                    then classificationToStatus (ar_classification input) else or_status r);
  ra_reply : ∃ rp, replies db' = replies db ++ [rp] ∧
    rp_outreachRecordId rp = ar_outreachRecordId input ∧
    rp_gmailMessageId rp = ar_gmailMessageId input ∧
    rp_classification rp = ar_classification input ∧ rp_receivedAt rp = ar_receivedAtMs input;
  ra_pending : ¬ pendingOf db' (ar_outreachRecordId input);
  ra_messages : messages db' = messages db;
  ra_others : onlyFor (ar_outreachRecordId input) db db';
}.

Lemma alter_insert_Some {A} (m : gmap string A) f k x :
  m !! k = Some x → alter f k m = <[k := f x]> m.
Proof using Type.
  intros Hk. apply map_eq. intros i. rewrite lookup_alter, lookup_insert.
  destruct (decide (k = i)) as [<-|]; [by rewrite Hk|done].
Qed.

Lemma twp_applyReply input w rec :
  ready w → records (w_db w) !! ar_outreachRecordId input = Some rec →
  ar_gmailMessageId input ∉ map rp_gmailMessageId (replies (w_db w)) →
  twp (applyReply input) (λ _ w', ready w' ∧ replyApplied input (w_db w) (w_db w')) w.
Proof.
  intros Hready Hrec Hg.
  set (id0 := ar_outreachRecordId input).
  apply (twp_mono _ (λ _ w', (ready w' ∧ (onlyFor id0 (w_db w) (w_db w') →
    replyApplied input (w_db w) (w_db w'))) ∧ onlyFor id0 (w_db w) (w_db w'))); [naive_solver|].
  apply twp_and_wp; [|apply applyReply_onlyFor]. subst id0.
  unfold applyReply. rewrite twp_transaction, twp_bind. apply (twp_require _ rec); [done|].
  rewrite twp_bind, twp_now, twp_bind. set (nowD := clock _).
  apply twp_draw; [by apply ready_tick|]. cbn [w_db w_ticks w_uuids]. intros id R1 D1.
  rewrite twp_bind. set (rp := Build_OutreachReply _ _ _ _ _ _ _ _).
  apply twp_insertReply; [done|done|by eexists|done|]. cbn [w_db w_ticks w_uuids]. intros R2.
  cbv zeta. set (c := ar_classification input). set (to := classificationToStatus c).
  set (patch := [_; _; _; _] ++ _). rewrite twp_bind.
  set (from := or_status rec).
  match goal with |- twp ?k ?Q0 ?w1 =>
    assert (∀ r' w2, ready w2 →
      records (w_db w2) = <[ar_outreachRecordId input := r']> (records (w_db w)) →
      messages (w_db w2) = messages (w_db w) →
      replies (w_db w2) = replies (w_db w) ++ [rp] →
      suppressed (or_status r') →
      or_status r' = (if canOutreachTransition from to then to else from) → Q0 tt w2) as Hcont end.
  { intros r' w2 R2' Er Em Ep Hs Hst. cbv beta. rewrite twp_bind.
    apply twp_appendEvent; [done|by rewrite Er, lookup_insert_eq; eexists|].
    cbn [w_db w_ticks w_uuids]. intros seq e _ R3. rewrite twp_bind.
    apply twp_cancelPending; [done|by cbn; rewrite Er, lookup_insert_eq; eexists|].
    intros w4 R4 Er4 Em4 Ep4 Hnone. rewrite twp_ret. split; [done|]. intros Ho.
    cbn in Er4, Em4, Ep4. constructor; [|exists rp|..].
    - exists rec, r'. rewrite Er4. done.
    - by rewrite Ep4, Ep.
    - done.
    - by rewrite Em4.
    - exact Ho. }
  destruct (canOutreachTransition from to) eqn:Hlegal; unfold assertOutreachTransition; rewrite Hlegal; simpl.
  - rewrite twp_bind. apply (twp_updateRecord _ _ _ _ _ rec); [done|done|left; by eapply reply_legal_active|].
    cbn [w_db w_ticks w_uuids]. intros R3. rewrite twp_bind.
    apply twp_appendEvent; [done|by cbn; rewrite lookup_alter_eq, Hrec; eexists|].
    cbn [w_db w_ticks w_uuids]. intros seq e _ R4. rewrite twp_ret.
    apply (Hcont (recordPatchToSet patch nowD rec)); [done|by apply alter_insert_Some|done|done|..];
      rewrite recordPatchToSet_status; unfold patch; case_bool_decide; simpl;
      try done; apply reply_suppressed.
  - apply (twp_updateRecord _ _ _ _ _ rec); [done|done|destruct (isOutreachTerminal (or_status rec)) eqn:?; [by right|by left]|].
    cbn [w_db w_ticks w_uuids]. intros R3.
    eapply Hcont; [done|by apply alter_insert_Some|done|done|..]; rewrite recordPatchToSet_status; simpl;
      [by eapply reply_illegal_suppressed|done].
Qed.
End apply_reply.

(** ** A whole reply sync *)

(** What Gmail guarantees of the threads read: a message is in one thread only, and
    what is stored as a reply was read on its record's own thread. *)
Record coherent (inbox : string → list InboundMessage) (threads : list TrackedThread)
    (db : OutreachDb) : Prop := {
  co_threads : ∀ t t' m m', t ∈ threads → t' ∈ threads → m ∈ inbox (tt_threadId t) →
    m' ∈ inbox (tt_threadId t') → im_messageId m = im_messageId m' →
    tt_outreachRecordId t = tt_outreachRecordId t';
  co_stored : ∀ rp t m, rp ∈ replies db → t ∈ threads → m ∈ inbox (tt_threadId t) →
    im_messageId m = rp_gmailMessageId rp → rp_outreachRecordId rp = tt_outreachRecordId t;
}.

(** The detected reply is stored, and ended the sequence of its record. *)
Record answered (db : OutreachDb) (d : DetectedReply) : Prop := {
  an_record : ∃ r, records db !! dr_outreachRecordId d = Some r ∧ suppressed (or_status r);
  an_pending : ¬ pendingOf db (dr_outreachRecordId d);
  an_reply : ∃ rp, rp ∈ replies db ∧ rp_outreachRecordId rp = dr_outreachRecordId d ∧
    rp_gmailMessageId rp = dr_messageId d ∧ rp_classification rp = dr_classification d;
}.

Section sync.
Context `{Runtime, TzDatabase, Collation} (own : list string).

Lemma answered_now d db db' : replyApplied (replyInput d) db db' → answered db' d.
Proof using Type.
  intros [(r & r' & _ & Er & Hs & _) (rp & Ep & ? & ? & ? & _) Hp _ _]. constructor; [|done|].
  - exists r'. by rewrite Er, lookup_insert_eq.
  - exists rp. rewrite Ep, elem_of_app. split_and!; [right; by left|done..].
Qed.
Lemma answered_kept d d' db db' :
  replyApplied (replyInput d) db db' → answered db d' → answered db' d'.
Proof using Type.
  intros [(r & r' & _ & Er & Hs & _) (rp & Ep & _) Hp _ Ho] [(r0 & Hr0 & Hs0) Hp0 (rp0 & Hrp0 & ?)].
  simpl in *. constructor.
  - rewrite Er. destruct (decide (dr_outreachRecordId d = dr_outreachRecordId d')) as [->|];
      [rewrite lookup_insert_eq|rewrite lookup_insert_ne by done]; eauto.
  - destruct (decide (dr_outreachRecordId d' = dr_outreachRecordId d)) as [->|Hne]; [done|].
    intros Hpend. by apply Hp0, (Ho _ Hne).
  - exists rp0. rewrite Ep, elem_of_app. split; [by left|done].
Qed.

(** How far the loop has come when [applied] was applied *)
Record synced (db : OutreachDb) (applied : list DetectedReply) (db' : OutreachDb) : Prop := {
  sy_answered : ∀ d, d ∈ applied → answered db' d;
  sy_records : ∀ k, is_Some (records db !! k) → is_Some (records db' !! k);
  sy_replies : map rp_gmailMessageId (replies db') =
    map rp_gmailMessageId (replies db) ++ map dr_messageId applied;
  sy_others : ∀ k, k ∉ map dr_outreachRecordId applied →
    records db' !! k = records db !! k ∧ (pendingOf db' k → pendingOf db k);
}.
Lemma synced_step db applied db1 d db2 :
  synced db applied db1 → replyApplied (replyInput d) db1 db2 → synced db (applied ++ [d]) db2.
Proof using Type.
  intros [Ha Hr Hp Ho] Hd. pose proof Hd as [(r & r' & Hr0 & Er & _) (rp & Ep & _ & Eg & _) _ _ Hoo].
  simpl in *. constructor.
  - intros d' [Hd'| ->%list_elem_of_singleton]%elem_of_app; [|by eapply answered_now].
    eapply answered_kept; eauto.
  - intros k Hk. rewrite Er, lookup_insert. case_decide; [by eexists|by apply Hr].
  - rewrite Ep, !map_app, Hp, <-(assoc_L app). simpl. by rewrite Eg.
  - intros k Hk. rewrite map_app, elem_of_app in Hk. simpl in Hk. rewrite list_elem_of_singleton in Hk.
    destruct (Ho k) as [E1 E2]; [naive_solver|]. rewrite Er, lookup_insert_ne by naive_solver.
    split; [done|]. intros Hk2. apply E2, (Hoo k); [naive_solver|done].
Qed.
Lemma synced_refl db : synced db [] db.
Proof using Type.
  constructor; [by intros ? ?%not_elem_of_nil|done|by rewrite app_nil_r|done].
Qed.

Lemma twp_runReplySync reader filter inbox w :
  let threads := trackedThreads filter (w_db w) in
  let detected := omap (λ t, detectReply (inbox (tt_threadId t)) t own) threads in
  ready w → coherent inbox threads (w_db w) →
  (∀ n t, t ∈ threads → gtr_readThread reader n (tt_threadId t) = Ok (inbox (tt_threadId t))) →
  twp (runReplySync reader own threads)
    (λ report w', rsr_repliesApplied report = detected ∧
       rsr_threadsChecked report = length threads ∧ synced (w_db w) detected (w_db w')) w.
Proof.
  intros threads detected Hready Hco Hread.
  destruct (trackedThreads_spec filter (w_db w)) as [Hnodup Htr]. fold threads in Hnodup, Htr.
  set (detect := λ t, detectReply (inbox (tt_threadId t)) t own) in *.
  unfold runReplySync. rewrite twp_bind.
  apply (twp_fold_each _ _ (λ l applied w', ready w' ∧ synced (w_db w) applied (w_db w') ∧
    ∃ done_, threads = done_ ++ l ∧ applied = omap detect done_)).
  - split; [done|]. split; [apply synced_refl|]. by exists [].
  - intros t l' applied w' (R' & Hsync & done_ & Eth & ->).
    assert (t ∈ threads) as Ht by (rewrite Eth; set_solver).
    unfold syncThread. rewrite twp_bind. eapply twp_ask; [by apply Hread|]. cbv beta.
    destruct (detectReply (inbox (tt_threadId t)) t own) as [d|] eqn:Ed.
    2:{ rewrite twp_ret. split; [done|]. split; [done|]. exists (done_ ++ [t]).
        rewrite <-(assoc_L app). split; [done|]. rewrite omap_app. simpl. unfold detect at 3.
        by rewrite Ed, app_nil_r. }
    destruct (detectReply_Some _ _ _ _ Ed) as (m & (Hm & Hnew & _) & _ & Edr).
    assert (is_Some (records (w_db w') !! dr_outreachRecordId d)) as [rec Hrec].
    { apply (sy_records _ _ _ Hsync). subst d. by apply (tk_record filter), Htr. }
    rewrite twp_bind. eapply twp_mono; [|apply (twp_applyReply _ _ rec); [done|exact Hrec|]].
    + intros _ w2 [R2 Hd]. rewrite twp_ret. split; [done|]. split; [by eapply synced_step|].
      exists (done_ ++ [t]). rewrite <-(assoc_L app). split; [done|]. rewrite omap_app. simpl.
      unfold detect at 3. by rewrite Ed.
    + cbn [w_db replyInput ar_gmailMessageId]. rewrite (sy_replies _ _ _ Hsync). subst d. simpl.
      intros [(rp & Erp & Hrp)%list_elem_of_fmap|(d' & Ed' & (t' & Ht' & Hd')%list_elem_of_omap)%list_elem_of_fmap]%elem_of_app.
      * apply Hnew, (tk_handled filter (w_db w) t (Htr t Ht)). exists rp. split_and!; [done| |done].
        by eapply (co_stored _ _ _ Hco).
      * apply detectReply_Some in Hd' as (m' & (Hm' & _) & _ & ->). simpl in Ed'.
        assert (t' ∈ threads) as Ht2 by (rewrite Eth; set_solver).
        pose proof (co_threads _ _ _ Hco t t' m m' Ht Ht2 Hm Hm' Ed') as Hsame.
        rewrite Eth, map_app, NoDup_app in Hnodup. destruct Hnodup as (_ & Hdis & _).
        apply (Hdis (tt_outreachRecordId t')); [apply list_elem_of_fmap; eauto|].
        simpl. rewrite Hsame. by left.
  - intros applied w' (R' & Hsync & done_ & Eth & ->). rewrite app_nil_r in Eth. subst done_.
    rewrite twp_ret. done.
Qed.
End sync.

(** ** Delivery reconciliation *)

Section reconciled.
Context `{Runtime, TzDatabase}.

Lemma applyDeliveryFailure_quiet input :
  df_deliveryStatus input ≠ DS_BOUNCED → respects quiet (applyDeliveryFailure input).
Proof.
  intros Hst. unfold applyDeliveryFailure, deliveryEventExists. pose proof (require_respects quiet).
  rewrite (bool_decide_eq_false_2 (df_deliveryStatus input = DS_BOUNCED)) by done.
  cbv zeta. cbn [negb]. respects_tac.
Qed.

(** The permanent failures of a record among the notifications [raw] *)
Definition provenBounce (outbounds : list TrackedOutbound) (raw : list RawDeliveryNotification)
    (id : string) : Prop :=
  ∃ n o signal, n ∈ raw ∧
    isDeliveryNotification (rdn_fromEmail n) (rdn_subject n) (rdn_contentType n)
      (truthy_opt (rdn_xFailedRecipients n)) = true ∧
    correlateDsn (parseDsn n) outbounds = Matched o signal ∧ to_outreachRecordId o = id ∧
    dlp_permanence (toProposal (parseDsn n) o signal) = PERMANENT.
(** Statuses only change to BOUNCED, and only where [P] holds. *)
Definition bouncesOnly (P : string → Prop) (db db' : OutreachDb) : Prop :=
  faithful db → faithful db' ∧
    ∀ id, statusOf db' id = statusOf db id ∨ statusOf db' id = Some OutreachStatus.BOUNCED ∧ P id.
#[global] Instance bouncesOnly_preorder P : PreOrder (bouncesOnly P).
Proof using Type.
  split; [by intros db Hf; split; [done|left]|]. intros db1 db2 db3 H12 H23 Hf.
  destruct (H12 Hf) as [Hf2 M12], (H23 Hf2) as [Hf3 M23]. split; [done|]. intros id.
  destruct (M12 id) as [E12|[E12 HP]], (M23 id) as [E23|[E23 HP']]; rewrite ?E12 in E23; naive_solver.
Qed.

Lemma assess_inr outbounds n dsn o signal :
  assess outbounds n = inr (dsn, o, signal) →
  dsn = parseDsn n ∧ correlateDsn dsn outbounds = Matched o signal ∧
  isDeliveryNotification (rdn_fromEmail n) (rdn_subject n) (rdn_contentType n)
    (truthy_opt (rdn_xFailedRecipients n)) = true.
Proof using Type.
  unfold assess. destruct (isDeliveryNotification _ _ _ _); simpl; [|done].
  destruct (correlateDsn _ _) eqn:E; naive_solver.
Qed.
Lemma applyDeliveryFailure_bounces P input :
  (df_deliveryStatus input = DS_BOUNCED → P (df_outreachRecordId input)) →
  always (bouncesOnly P) (applyDeliveryFailure input).
Proof.
  intros HP w Hf. destruct (applyDeliveryFailure input w) as [r w'] eqn:E. simpl.
  assert (transaction (applyDeliveryFailure input) w = (r, w')) as Et.
  { rewrite <-E. apply transaction_idemp. }
  set (Q := λ db db', movedTo (df_outreachRecordId input) OutreachStatus.BOUNCED db db').
  assert (Q (w_db w) (w_db w')) as Hmoved.
  { eapply transaction_wp; [by left| |exact Et]. by apply applyDeliveryFailure_step. }
  split; [by eapply statusStep_faithful, Hf; eapply movedTo_step|].
  destruct (decide (df_deliveryStatus input = DS_BOUNCED)) as [Hb|Hnb].
  - intros id. destruct Hmoved as [Hq|(from & Hfrom & _ & He)]; [left; apply Hq|].
    destruct (He id) as [-> _]. case_decide as Hid; [|by left]. right. split; [done|]. subst id. auto.
  - intros id. left. apply (respects_run quiet) in Et; [apply Et|by apply applyDeliveryFailure_quiet].
Qed.

Lemma reconcileOne_bounces outbounds dryRun raw n acc :
  n ∈ raw → always (bouncesOnly (λ id, dryRun = false ∧ provenBounce outbounds raw id))
    (reconcileOne outbounds dryRun n acc).
Proof.
  intros Hn. unfold reconcileOne. destruct acc as [[proposals applied] skipped].
  destruct (assess outbounds n) as [skip|[[dsn o] signal]] eqn:E; [always_tac|].
  apply assess_inr in E as (-> & Hc & Hd). destruct dryRun; [always_tac|].
  apply (always_bind _); [|intros; always_tac]. apply applyDeliveryFailure_bounces.
  intros Hb. split; [done|]. exists n, o, signal. split_and!; [done..|].
  revert Hb. unfold failureInput, toProposal. simpl. by destruct (classifyDeliveryPermanence _ _ _).
Qed.
End reconciled.

(** ** The reports *)

Section reports.
Context `{Runtime, TzDatabase} (outbounds : list TrackedOutbound).

Definition proposalOf (n : RawDeliveryNotification) : option DeliveryProposal :=
  match assess outbounds n with
  | inr (dsn, outbound, signal) => Some (toProposal dsn outbound signal)
  | inl _ => None
  end.
Definition skipOf (n : RawDeliveryNotification) : option DeliverySkip :=
  match assess outbounds n with inl skip => Some skip | inr _ => None end.
(** The notification and the record that an entry of the report names *)
Definition proposalTarget (p : DeliveryProposal) : string * string :=
  (dlp_dsnGmailMessageId p, dlp_outreachRecordId p).
Definition appliedTarget (a : DeliveryApplied) : string * string :=
  (da_dsnGmailMessageId a, da_outreachRecordId a).

(** What a reconciliation of [raw] reports, whether it is a dry run or not *)
Record reportOf (dryRun : bool) (raw : list RawDeliveryNotification)
    (r : DeliveryReconciliationReport) : Prop := {
  ro_dryRun : drr_dryRun r = dryRun;
  ro_proposals : drr_proposals r = omap proposalOf raw;
  ro_skipped : drr_skipped r = omap skipOf raw;
  ro_applied : map appliedTarget (drr_applied r) =
    if dryRun then [] else map proposalTarget (omap proposalOf raw);
  ro_checked : drr_notificationsChecked r = (length (drr_proposals r) + length (drr_skipped r))%nat;
}.

Lemma proposal_or_skip n :
  is_Some (proposalOf n) ∧ skipOf n = None ∨ proposalOf n = None ∧ is_Some (skipOf n).
Proof. unfold proposalOf, skipOf. destruct (assess outbounds n) as [|[[??]?]]; eauto. Qed.
Lemma proposed_or_skipped raw :
  length raw = (length (omap proposalOf raw) + length (omap skipOf raw))%nat.
Proof.
  induction raw as [|n raw IH]; csimpl; [done|].
  destruct (proposal_or_skip n) as [[[p ->] ->]|[-> [s ->]]]; csimpl; lia.
Qed.

(** How far the loop has come *)
Definition reconciledUpTo (dryRun : bool) (raw : list RawDeliveryNotification)
    (acc : list DeliveryProposal * list DeliveryApplied * list DeliverySkip) : Prop :=
  acc.1.1 = omap proposalOf raw ∧ acc.2 = omap skipOf raw ∧
  map appliedTarget acc.1.2 = if dryRun then [] else map proposalTarget (omap proposalOf raw).
Lemma reconcileOne_acc dryRun n done_ acc (w : world OutreachDb) :
  reconciledUpTo dryRun done_ acc →
  wp (reconcileOne outbounds dryRun n acc) (λ acc' _, reconciledUpTo dryRun (done_ ++ [n]) acc') w.
Proof.
  destruct acc as [[proposals applied] skipped]. unfold reconciledUpTo, reconcileOne. simpl.
  intros (-> & -> & Ea). rewrite !omap_app. simpl.
  assert (proposalOf n = match assess outbounds n with inr (d, o, s) => Some (toProposal d o s) | inl _ => None end ∧
          skipOf n = match assess outbounds n with inl s => Some s | inr _ => None end) as [-> ->] by done.
  destruct (assess outbounds n) as [skip|[[dsn o] signal]].
  { rewrite wp_ret. simpl. rewrite app_nil_r. done. }
  destruct dryRun.
  { rewrite wp_ret. simpl. rewrite app_nil_r. done. }
  rewrite wp_bind. eapply (wp_mono _ (λ _ _, True)); [|unfold wp; by repeat case_match].
  intros result w' _. rewrite wp_ret. simpl. rewrite app_nil_r, !map_app, Ea. done.
Qed.
End reports.

(** ** Theorems *)

Section theorems.
Context `{Runtime, TzDatabase}.


(** C22: A record is only ever bounced on proof: whatever notifications the mailbox
    returns, and wherever a reconciliation stops, a status changes only to BOUNCED,
    only outside a dry run, and only if one of those messages looks like a delivery
    notification, correlates to exactly one tracked message, of that very record,
    and reports a permanent failure. *)
Theorem reconciliation_bounces_on_proof reader outbounds dryRun raw w id :
  faithful (w_db w) → gbr_findDeliveryNotifications reader (w_ticks w) outbounds = Ok raw →
  let db' := w_db (runDeliveryReconciliation reader outbounds dryRun w).2 in
  statusOf db' id = statusOf (w_db w) id ∨
  statusOf db' id = Some OutreachStatus.BOUNCED ∧ dryRun = false ∧ provenBounce outbounds raw id.
Proof.
  intros Hf Hread. unfold runDeliveryReconciliation, ask, mbind, M_bind. rewrite Hread. cbv beta iota.
  set (w1 := World _ _ _). set (P := λ id, dryRun = false ∧ provenBounce outbounds raw id).
  assert (always (bouncesOnly P) (fold_each raw (reconcileOne outbounds dryRun) ([], [], []))) as Hal.
  { apply always_fold_each; [apply _|]. intros n acc Hn. by apply reconcileOne_bounces. }
  destruct (Hal w1 Hf) as [_ Hm]. specialize (Hm id).
  destruct (fold_each _ _ _ w1) as [[[[??]?]|] w2]; exact Hm.
Qed.

(** A dry report writes nothing and foretells the run: it returns whenever the
    mailbox can be read, without touching the database, and its proposals and skips
    are, notification by notification, those of the run that applies them; every
    notification is accounted for exactly once, and the run applies every
    proposal, in order. *)
Theorem dry_report_foretells reader outbounds raw w :
  gbr_findDeliveryNotifications reader (w_ticks w) outbounds = Ok raw →
  (∃ r w', runDeliveryReconciliation reader outbounds true w = (Ok r, w') ∧ w_db w' = w_db w ∧
     reportOf outbounds true raw r) ∧
  (∀ r w', runDeliveryReconciliation reader outbounds false w = (Ok r, w') →
     reportOf outbounds false raw r).
Proof.
  intros Hread.
  assert (∀ dryRun, wp (runDeliveryReconciliation reader outbounds dryRun)
            (λ r _, reportOf outbounds dryRun raw r) w) as Hwp.
  { intros dryRun. unfold runDeliveryReconciliation. rewrite wp_bind, wp_ask, Hread. intros ? [= <-].
    rewrite wp_bind.
    apply (wp_fold_each _ _ (λ l acc _, ∃ done_, raw = done_ ++ l ∧ reconciledUpTo outbounds dryRun done_ acc)).
    - exists []. split; [done|]. by destruct dryRun.
    - intros n l acc w' (done_ & E & Hacc). eapply wp_mono; [|by apply reconcileOne_acc].
      intros acc' w'' Hacc'. exists (done_ ++ [n]). by rewrite <-(assoc_L app).
    - intros [[proposals applied] skipped] w' (done_ & E & Hp & Hs & Ha). rewrite app_nil_r in E. subst done_.
      simpl in *. rewrite wp_ret. subst proposals skipped. constructor; simpl; auto using proposed_or_skipped. }
  split; [|intros r w' E; specialize (Hwp false); unfold wp in Hwp; by rewrite E in Hwp].
  specialize (Hwp true).
  assert (twp (runDeliveryReconciliation reader outbounds true) (λ _ w', w_db w' = w_db w) w) as Ht.
  { unfold runDeliveryReconciliation. rewrite twp_bind. eapply twp_ask; [done|]. rewrite twp_bind.
    apply (twp_fold_each _ _ (λ _ _ w', w_db w' = w_db w)); [done| |].
    - intros n l acc w' E. unfold reconcileOne. destruct acc as [[??]?].
      destruct (assess outbounds n) as [|[[??]?]]; by rewrite twp_ret.
    - intros [[??]?] w' E. by rewrite twp_ret. }
  apply twp_returns. eapply twp_mono; [|by apply twp_and_wp]. done.
Qed.
End theorems.

(** ** Witnesses *)

#[local] Existing Instance demo_runtime.
#[local] Existing Instance demo_tz.
#[local] Instance demo_collation : Collation := λ _ _, 0.

Definition demoMessage : InboundMessage :=
  {| im_messageId := "g-r"; im_threadId := "t1"; im_fromEmail := "info@praxis.de";
     im_receivedAtMs := 1780000500000; im_preview := "Bitte austragen";
     im_headers := {| h_fromEmail := "info@praxis.de"; h_autoSubmitted := None;
                      h_contentType := None; h_hasListUnsubscribe := false |} |}.
Definition demoInbox (thread : string) : list InboundMessage :=
  if String.eqb thread "t1" then [demoMessage] else [].
Definition demoReader : GmailThreadReader :=
  {| gtr_name := "demo"; gtr_readsExternally := false; gtr_readThread := λ _ t, Ok (demoInbox t) |}.
Definition demoAll : TrackFilter := {| tf_recordId := None; tf_campaignId := None |}.
Definition demoBounce : RawDeliveryNotification :=
  {| rdn_gmailMessageId := "dsn-1"; rdn_gmailThreadId := "t-dsn"; rdn_receivedAtMs := 1780000600000;
     rdn_fromEmail := "MAILER-DAEMON@googlemail.com"; rdn_subject := "Delivery Status Notification";
     rdn_contentType := Some "multipart/report"; rdn_xFailedRecipients := None;
     rdn_referencedMessageIds := ["g1"];
     rdn_deliveryStatusText := Some "Status: 5.1.1"; rdn_snippet := "Address not found" |}.
Definition demoBounceReader : GmailBounceReader :=
  {| gbr_name := "demo"; gbr_readsExternally := false;
     gbr_findDeliveryNotifications := λ _ _, Ok [demoBounce] |}.


Lemma demo_faithful n : faithful (w_db (demoWorld n)).
Proof. apply reachable_faithful, (demo_reachable n). Qed.
Lemma reconciliation_bounces_on_proof_witness :
  let outbounds := trackedOutbounds demoAll (w_db (demoWorld 2)) in
  provenBounce outbounds [demoBounce] "uuid-0" ∧
  statusOf (w_db (runDeliveryReconciliation demoBounceReader outbounds false (demoWorld 2)).2) "uuid-0" =
    Some OutreachStatus.BOUNCED.
Proof.
  intros outbounds.
  pose proof (demo_faithful 2) as Hf.
  assert (statusOf (w_db (runDeliveryReconciliation demoBounceReader outbounds false (demoWorld 2)).2) "uuid-0" =
    Some OutreachStatus.BOUNCED) as Hb by (vm_compute; reflexivity).
  destruct (reconciliation_bounces_on_proof demoBounceReader outbounds false [demoBounce] (demoWorld 2)
    "uuid-0" Hf eq_refl) as [E|(_ & _ & Hp)].
  - exfalso. rewrite Hb in E. vm_compute in E. discriminate E.
  - split; [exact Hp|exact Hb].
Defined.

Lemma dry_report_foretells_witness :
  let outbounds := trackedOutbounds demoAll (w_db (demoWorld 2)) in
  ∃ r w', runDeliveryReconciliation demoBounceReader outbounds true (demoWorld 2) = (Ok r, w') ∧
    w_db w' = w_db (demoWorld 2) ∧ map dlp_permanence (drr_proposals r) = [PERMANENT].
Proof.
  intros outbounds.
  destruct (dry_report_foretells demoBounceReader outbounds [demoBounce] (demoWorld 2) eq_refl)
    as [(r & w' & Hrun & Hdb & Hr) _].
  exists r, w'. split; [exact Hrun|]. split; [exact Hdb|].
  rewrite (ro_proposals _ _ _ _ Hr). vm_compute. reflexivity.
Defined.
