(* ===== verification/FollowupRunners.v ===== *)
(** * The unattended follow-up runs

    [runFollowupDuePromotion] (followup-due-promotion.ts), [runFollowupPreparation]
    (followup-preparation-runner.ts) and [runFollowupProgression]
    (followup-progression-runner.ts), all under src/domain/outreach/: the loops
    around the decisions of OutreachGates, over the effects that the caller injects.
    Their database is any type [DB]. *)
From S2P Require Import Prelude.
From S2P Require Import JsText.
From S2P Require Import TimeZone.
From S2P Require Import OutreachStatus.
From S2P Require Import OutreachGates.
Open Scope Z_scope.
Open Scope list_scope.

(** [err instanceof Error ? err.message : String(err)]: the text of an exception, which
    for an error of the database is the driver's *)
Class ErrorText := errorText : error → string.

(** [`${decision.reason}: ${decision.detail}`] *)
Definition reasonDetail (reason detail : string) : string := reason +:+ ": " +:+ detail.

(** ** Due promotion *)

Record FollowupPromotionGates := {
  pg_followupPromotionEnabled : bool; pg_outreachTrackingEnabled : bool;
}.
Record PromoteResult := { pmr_promoted : bool; pmr_outcome : string }.
Record FollowupPromotionDeps (DB : Type) := {
  pd_now : M DB Z; pd_gates : FollowupPromotionGates; pd_maxPerRun : Z;
  pd_candidates : Z → Z → M DB (list FollowupPromotionCandidateView);
  pd_promote : FollowupPromotionCandidateView → FollowupStep → M DB PromoteResult;
}.
Arguments pd_now {DB} _.
Arguments pd_gates {DB} _.
Arguments pd_maxPerRun {DB} _.
Arguments pd_candidates {DB} _ _ _.
Arguments pd_promote {DB} _ _ _.

Inductive PromotionEntryAction := PE_PROMOTE | PE_ALREADY_DUE | PE_SKIP | PE_BLOCKED | PE_NO_CHANGE | PE_PROMOTE_FAILED.
Record FollowupPromotionEntry := {
  pe_followupId : string; pe_outreachRecordId : string; pe_leadId : string; pe_step : Z;
  pe_action : PromotionEntryAction; pe_detail : string;
}.
Inductive FollowupPromotionOutcome := PROMOTION_RAN | PROMOTION_MASTER_DISABLED | PROMOTION_TRACKING_DISABLED.
Record FollowupPromotionReport := {
  prr_outcome : FollowupPromotionOutcome; prr_considered : nat;
  prr_promoted : list FollowupPromotionEntry; prr_unchanged : list FollowupPromotionEntry;
  prr_blocked : list FollowupPromotionEntry; prr_skipped : list FollowupPromotionEntry;
  prr_failures : list FollowupPromotionEntry;
}.
Definition promotionReport (outcome : FollowupPromotionOutcome) (considered : nat) : FollowupPromotionReport :=
  {| prr_outcome := outcome; prr_considered := considered; prr_promoted := []; prr_unchanged := [];
     prr_blocked := []; prr_skipped := []; prr_failures := [] |}.
Definition promotionEntry (c : FollowupPromotionCandidateView) (action : PromotionEntryAction)
    (detail : string) : FollowupPromotionEntry :=
  {| pe_followupId := fpc_followupId c; pe_outreachRecordId := fpc_outreachRecordId c;
     pe_leadId := fpc_leadId c; pe_step := fpc_step c; pe_action := action; pe_detail := detail |}.
(** [report.<list>.push(entry)], the list given by the entry's action *)
Definition pushPromotion (e : FollowupPromotionEntry) (r : FollowupPromotionReport) : FollowupPromotionReport :=
  let '(Build_FollowupPromotionReport o n pr un bl sk fa) := r in
  match pe_action e with
  | PE_PROMOTE => Build_FollowupPromotionReport o n (pr ++ [e]) un bl sk fa
  | PE_ALREADY_DUE | PE_NO_CHANGE => Build_FollowupPromotionReport o n pr (un ++ [e]) bl sk fa
  | PE_BLOCKED => Build_FollowupPromotionReport o n pr un (bl ++ [e]) sk fa
  | PE_SKIP => Build_FollowupPromotionReport o n pr un bl (sk ++ [e]) fa
  | PE_PROMOTE_FAILED => Build_FollowupPromotionReport o n pr un bl sk (fa ++ [e])
  end.

Section promotion.
Context {DB : Type} `{ErrorText} (deps : FollowupPromotionDeps DB).

Definition promoteOne (c : FollowupPromotionCandidateView) (r : FollowupPromotionReport) :
    M DB FollowupPromotionReport :=
  nowMs ← pd_now deps;
  match decideFollowupPromotion c nowMs with
  | PA_BLOCKED reason detail =>
      mret (pushPromotion (promotionEntry c PE_BLOCKED (reasonDetail reason detail)) r)
  | PA_SKIP reason detail =>
      mret (pushPromotion (promotionEntry c PE_SKIP (reasonDetail reason detail)) r)
  | PA_ALREADY_DUE detail => mret (pushPromotion (promotionEntry c PE_ALREADY_DUE detail) r)
  | PA_PROMOTE step _ _ =>
      result ← tryCatch (pd_promote deps c step);
      mret (pushPromotion
        match result with
        | Ok p => if pmr_promoted p then promotionEntry c PE_PROMOTE (pmr_outcome p)
                  else promotionEntry c PE_NO_CHANGE (pmr_outcome p)
        | Throw e => promotionEntry c PE_PROMOTE_FAILED ("promote threw: " +:+ errorText e)
        end r)
  end.
Definition runFollowupDuePromotion : M DB FollowupPromotionReport :=
  if negb (pg_followupPromotionEnabled (pd_gates deps)) then mret (promotionReport PROMOTION_MASTER_DISABLED 0)
  else if negb (pg_outreachTrackingEnabled (pd_gates deps)) then
    mret (promotionReport PROMOTION_TRACKING_DISABLED 0)
  else
    nowMs ← pd_now deps;
    candidates ← pd_candidates deps nowMs (pd_maxPerRun deps);
    fold_each candidates promoteOne (promotionReport PROMOTION_RAN (length candidates)).
End promotion.

(** ** Preparation *)

Record FollowupPreparationGates := {
  fg_followupPreparationEnabled : bool; fg_outreachTrackingEnabled : bool; fg_emailGenerationEnabled : bool;
}.
Record ComposeResult := { cmr_prepared : bool; cmr_outcome : string }.
Record FollowupPreparationDeps (DB : Type) := {
  fd_now : M DB Z; fd_gates : FollowupPreparationGates; fd_preflight : M DB (); fd_maxPerRun : Z;
  fd_dueCandidates : Z → Z → M DB (list FollowupCandidateView);
  fd_cancelFollowup : string → string → string → M DB ();
  fd_compose : FollowupCandidateView → FollowupStep → M DB ComposeResult;
}.
Arguments fd_now {DB} _.
Arguments fd_gates {DB} _.
Arguments fd_preflight {DB} _.
Arguments fd_maxPerRun {DB} _.
Arguments fd_dueCandidates {DB} _ _ _.
Arguments fd_cancelFollowup {DB} _ _ _ _.
Arguments fd_compose {DB} _ _ _.

Inductive PreparationEntryAction := FE_COMPOSE | FE_CANCEL_REJECTED | FE_SKIP | FE_BLOCKED.
Record FollowupPreparationEntry := {
  fe_followupId : string; fe_outreachRecordId : string; fe_leadId : string; fe_step : Z;
  fe_action : PreparationEntryAction; fe_detail : string;
}.
Inductive FollowupPreparationOutcome :=
  | PREPARATION_RAN | PREPARATION_MASTER_DISABLED | PREPARATION_TRACKING_DISABLED
  | PREPARATION_EMAIL_GENERATION_DISABLED.
Record FollowupPreparationReport := {
  fr_outcome : FollowupPreparationOutcome; fr_considered : nat;
  fr_prepared : list FollowupPreparationEntry; fr_blocked : list FollowupPreparationEntry;
  fr_skipped : list FollowupPreparationEntry; fr_cancelled : list FollowupPreparationEntry;
  fr_failures : list FollowupPreparationEntry;
}.
Definition preparationReport (outcome : FollowupPreparationOutcome) (considered : nat) :
    FollowupPreparationReport :=
  {| fr_outcome := outcome; fr_considered := considered; fr_prepared := []; fr_blocked := [];
     fr_skipped := []; fr_cancelled := []; fr_failures := [] |}.
Definition preparationEntry (c : FollowupCandidateView) (action : PreparationEntryAction)
    (detail : string) : FollowupPreparationEntry :=
  {| fe_followupId := fcv_followupId c; fe_outreachRecordId := fcv_outreachRecordId c;
     fe_leadId := fcv_leadId c; fe_step := fcv_step c; fe_action := action; fe_detail := detail |}.
Definition pushPrepared (e : FollowupPreparationEntry) (r : FollowupPreparationReport) : FollowupPreparationReport :=
  let '(Build_FollowupPreparationReport o n pr bl sk ca fa) := r in
  Build_FollowupPreparationReport o n (pr ++ [e]) bl sk ca fa.
Definition pushBlocked (e : FollowupPreparationEntry) (r : FollowupPreparationReport) : FollowupPreparationReport :=
  let '(Build_FollowupPreparationReport o n pr bl sk ca fa) := r in
  Build_FollowupPreparationReport o n pr (bl ++ [e]) sk ca fa.
Definition pushSkipped (e : FollowupPreparationEntry) (r : FollowupPreparationReport) : FollowupPreparationReport :=
  let '(Build_FollowupPreparationReport o n pr bl sk ca fa) := r in
  Build_FollowupPreparationReport o n pr bl (sk ++ [e]) ca fa.
Definition pushCancelled (e : FollowupPreparationEntry) (r : FollowupPreparationReport) : FollowupPreparationReport :=
  let '(Build_FollowupPreparationReport o n pr bl sk ca fa) := r in
  Build_FollowupPreparationReport o n pr bl sk (ca ++ [e]) fa.
Definition pushFailure (e : FollowupPreparationEntry) (r : FollowupPreparationReport) : FollowupPreparationReport :=
  let '(Build_FollowupPreparationReport o n pr bl sk ca fa) := r in
  Build_FollowupPreparationReport o n pr bl sk ca (fa ++ [e]).

Section preparation.
Context {DB : Type} `{ErrorText} (deps : FollowupPreparationDeps DB).

Definition prepareOne (c : FollowupCandidateView) (r : FollowupPreparationReport) :
    M DB FollowupPreparationReport :=
  match decideFollowupPreparation c with
  | FPA_BLOCKED reason detail =>
      mret (pushBlocked (preparationEntry c FE_BLOCKED (reasonDetail reason detail)) r)
  | FPA_SKIP reason detail => mret (pushSkipped (preparationEntry c FE_SKIP (reasonDetail reason detail)) r)
  | FPA_CANCEL_REJECTED reason =>
      result ← tryCatch (fd_cancelFollowup deps (fcv_followupId c) (fcv_outreachRecordId c) "HUMAN_REJECTED_COPY");
      mret match result with
        | Ok _ => pushCancelled (preparationEntry c FE_CANCEL_REJECTED reason) r
        | Throw e => pushFailure (preparationEntry c FE_CANCEL_REJECTED ("cancel failed: " +:+ errorText e)) r
        end
  | FPA_COMPOSE step =>
      result ← tryCatch (fd_compose deps c step);
      mret match result with
        | Ok p => if cmr_prepared p then pushPrepared (preparationEntry c FE_COMPOSE (cmr_outcome p)) r
                  else pushFailure (preparationEntry c FE_COMPOSE ("no approved copy: " +:+ cmr_outcome p)) r
        | Throw e => pushFailure (preparationEntry c FE_COMPOSE ("compose threw: " +:+ errorText e)) r
        end
  end.
Definition runFollowupPreparation : M DB FollowupPreparationReport :=
  let g := fd_gates deps in
  if negb (fg_followupPreparationEnabled g) then mret (preparationReport PREPARATION_MASTER_DISABLED 0)
  else if negb (fg_outreachTrackingEnabled g) then mret (preparationReport PREPARATION_TRACKING_DISABLED 0)
  else if negb (fg_emailGenerationEnabled g) then
    mret (preparationReport PREPARATION_EMAIL_GENERATION_DISABLED 0)
  else
    fd_preflight deps ;;
    nowMs ← fd_now deps;
    candidates ← fd_dueCandidates deps nowMs (fd_maxPerRun deps);
    fold_each candidates prepareOne (preparationReport PREPARATION_RAN (length candidates)).
End preparation.

(** ** Progression *)

Record FollowupProgressionGates := { gg_followupProgressionEnabled : bool; gg_outreachTrackingEnabled : bool }.
Record StageResult := { sgr_ok : bool; sgr_detail : string }.
Record FollowupProgressionDeps (DB : Type) := {
  gd_now : M DB Z; gd_gates : FollowupProgressionGates; gd_maxPerRun : Z;
  gd_candidates : Z → Z → M DB (list ProgressionCandidateView);
  gd_finalize : ProgressionCandidateView → M DB StageResult;
  gd_createGmailDraft : ProgressionCandidateView → M DB StageResult;
  gd_schedule : ProgressionCandidateView → M DB StageResult;
}.
Arguments gd_now {DB} _.
Arguments gd_gates {DB} _.
Arguments gd_maxPerRun {DB} _.
Arguments gd_candidates {DB} _ _ _.
Arguments gd_finalize {DB} _ _.
Arguments gd_createGmailDraft {DB} _ _.
Arguments gd_schedule {DB} _ _.

Inductive ProgressionEntryAction := GE_ADVANCE | GE_DONE | GE_SKIP | GE_BLOCKED.
Record ProgressionEntry := {
  ge_leadId : string; ge_outreachRecordId : string; ge_sequenceStep : Z;
  ge_stage : option ProgressionStage; ge_action : ProgressionEntryAction; ge_detail : string;
}.
Inductive FollowupProgressionOutcome :=
  | PROGRESSION_RAN | PROGRESSION_MASTER_DISABLED | PROGRESSION_TRACKING_DISABLED.
Record FollowupProgressionReport := {
  gr_outcome : FollowupProgressionOutcome; gr_considered : nat; gr_advanced : list ProgressionEntry;
  gr_done : list ProgressionEntry; gr_blocked : list ProgressionEntry;
  gr_skipped : list ProgressionEntry; gr_failures : list ProgressionEntry;
}.
Definition progressionReport (outcome : FollowupProgressionOutcome) (considered : nat) :
    FollowupProgressionReport :=
  {| gr_outcome := outcome; gr_considered := considered; gr_advanced := []; gr_done := [];
     gr_blocked := []; gr_skipped := []; gr_failures := [] |}.
Definition progressionEntry (c : ProgressionCandidateView) (action : ProgressionEntryAction)
    (stage : option ProgressionStage) (detail : string) : ProgressionEntry :=
  {| ge_leadId := pcv_leadId c; ge_outreachRecordId := pcv_outreachRecordId c;
     ge_sequenceStep := pcv_sequenceStep c; ge_stage := stage; ge_action := action; ge_detail := detail |}.
Definition pushAdvanced (e : ProgressionEntry) (r : FollowupProgressionReport) : FollowupProgressionReport :=
  let '(Build_FollowupProgressionReport o n ad dn bl sk fa) := r in
  Build_FollowupProgressionReport o n (ad ++ [e]) dn bl sk fa.
(** A failed stage is reported with the action ADVANCE, like a successful one. *)
Definition pushStageFailure (e : ProgressionEntry) (r : FollowupProgressionReport) : FollowupProgressionReport :=
  let '(Build_FollowupProgressionReport o n ad dn bl sk fa) := r in
  Build_FollowupProgressionReport o n ad dn bl sk (fa ++ [e]).
(** The entries that no stage was run for, which the action sorts *)
Definition pushUntouched (e : ProgressionEntry) (r : FollowupProgressionReport) : FollowupProgressionReport :=
  let '(Build_FollowupProgressionReport o n ad dn bl sk fa) := r in
  match ge_action e with
  | GE_DONE => Build_FollowupProgressionReport o n ad (dn ++ [e]) bl sk fa
  | GE_BLOCKED => Build_FollowupProgressionReport o n ad dn (bl ++ [e]) sk fa
  | _ => Build_FollowupProgressionReport o n ad dn bl (sk ++ [e]) fa
  end.

Section progression.
Context {DB : Type} `{ErrorText} (deps : FollowupProgressionDeps DB).

Definition stageEffect (stage : ProgressionStage) : ProgressionCandidateView → M DB StageResult :=
  match stage with
  | FINALIZE => gd_finalize deps
  | CREATE_GMAIL_DRAFT => gd_createGmailDraft deps
  | SCHEDULE => gd_schedule deps
  end.
Definition progressOne (c : ProgressionCandidateView) (r : FollowupProgressionReport) :
    M DB FollowupProgressionReport :=
  match decideProgression c with
  | PG_BLOCKED reason detail =>
      mret (pushUntouched (progressionEntry c GE_BLOCKED None (reasonDetail reason detail)) r)
  | PG_SKIP reason detail => mret (pushUntouched (progressionEntry c GE_SKIP None (reasonDetail reason detail)) r)
  | PG_DONE detail => mret (pushUntouched (progressionEntry c GE_DONE None detail) r)
  | PG_ADVANCE stage _ =>
      result ← tryCatch (stageEffect stage c);
      mret match result with
        | Ok p => if sgr_ok p then pushAdvanced (progressionEntry c GE_ADVANCE (Some stage) (sgr_detail p)) r
                  else pushStageFailure (progressionEntry c GE_ADVANCE (Some stage) (sgr_detail p)) r
        | Throw e =>
            pushStageFailure (progressionEntry c GE_ADVANCE (Some stage) ("stage threw: " +:+ errorText e)) r
        end
  end.
Definition runFollowupProgression : M DB FollowupProgressionReport :=
  if negb (gg_followupProgressionEnabled (gd_gates deps)) then
    mret (progressionReport PROGRESSION_MASTER_DISABLED 0)
  else if negb (gg_outreachTrackingEnabled (gd_gates deps)) then
    mret (progressionReport PROGRESSION_TRACKING_DISABLED 0)
  else
    nowMs ← gd_now deps;
    candidates ← gd_candidates deps nowMs (gd_maxPerRun deps);
    fold_each candidates progressOne (progressionReport PROGRESSION_RAN (length candidates)).
End progression.
