(* ===== verification/RunnerSpecs.v ===== *)
(** * What the follow-up runs report

    The three loops of FollowupRunners return and account for every candidate exactly
    once, in the list that the decision and the effect call for, even when effects
    throw; behind a closed switch they do nothing. *)
From S2P Require Import Prelude.
From S2P Require Import JsText.
From S2P Require Import TimeZone.
From S2P Require Import OutreachStatus.
From S2P Require Import OutreachGates.
From S2P Require Import FollowupRunners.
Open Scope Z_scope.
Open Scope list_scope.

(** A loop that pushes one entry per candidate *)
Section accounting.
Context {DB C R E : Type} `{Runtime} (body : C → R → M DB R) (entries : R → list E) (P : C → E → Prop).

(** [es] has one entry for each candidate of [l]. *)
Definition accounts (l : list C) (es : list E) : Prop := ∃ es', es ≡ₚ es' ∧ Forall2 P l es'.

Lemma wp_accounting l r w :
  (∀ c r w, c ∈ l → wp (body c r) (λ r' _, ∃ e, P c e ∧ entries r' ≡ₚ entries r ++ [e]) w) →
  wp (fold_each l body r) (λ r' _, ∃ es, entries r' ≡ₚ entries r ++ es ∧ Forall2 P l es) w.
Proof using Type.
  revert r w. induction l as [|c l IH]; intros r w Hbody; simpl.
  { rewrite wp_ret. exists []. rewrite app_nil_r. done. }
  rewrite wp_bind. eapply wp_mono; [|apply Hbody; by left]. intros r1 w1 (e & He & Hr1).
  eapply wp_mono; [|apply IH; intros; apply Hbody; by right]. intros r2 w2 (es & Hr2 & Hes).
  exists (e :: es). split; [|by constructor]. by rewrite Hr2, Hr1, <-app_assoc.
Qed.
Lemma wp_accounting_empty l r w :
  entries r = [] →
  (∀ c r w, c ∈ l → wp (body c r) (λ r' _, ∃ e, P c e ∧ entries r' ≡ₚ entries r ++ [e]) w) →
  wp (fold_each l body r) (λ r' _, accounts l (entries r')) w.
Proof using Type.
  intros Hr Hbody. eapply wp_mono; [|by apply wp_accounting]. intros r' w' (es & Hes & Hall).
  exists es. by rewrite Hes, Hr.
Qed.
End accounting.

Lemma wp_caught {DB A} (m : M DB A) (Q : res A → world DB → Prop) w :
  (∀ result w', Q result w') → wp (tryCatch m) Q w.
Proof. intros HQ. unfold wp, tryCatch. destruct (m w). apply HQ. Qed.

(** Pushing an entry to a list of a report: the other lists stay, and so do the actions. *)
Ltac push_entry :=
  intros Ha; split_and!; [done|done|simpl; solve_Permutation|];
  intros (? & ? & ? & ? & ?); split_and!; try done; simpl;
  intros ? [?| ->%list_elem_of_singleton]%elem_of_app; auto.

(** ** Promotion *)

Section promotion.
Context {DB : Type} `{Runtime, ErrorText} (deps : FollowupPromotionDeps DB).

Definition promotionEntries (r : FollowupPromotionReport) : list FollowupPromotionEntry :=
  prr_promoted r ++ prr_unchanged r ++ prr_blocked r ++ prr_skipped r ++ prr_failures r.
(** What the entry for a candidate says, at the instant at which it was decided *)
Definition promotionFor (c : FollowupPromotionCandidateView) (e : FollowupPromotionEntry) : Prop :=
  pe_followupId e = fpc_followupId c ∧ pe_outreachRecordId e = fpc_outreachRecordId c ∧
  ∃ nowMs, match decideFollowupPromotion c nowMs with
           | PA_PROMOTE _ _ _ => pe_action e ∈ [PE_PROMOTE; PE_NO_CHANGE; PE_PROMOTE_FAILED]
           | PA_ALREADY_DUE _ => pe_action e = PE_ALREADY_DUE
           | PA_SKIP _ _ => pe_action e = PE_SKIP
           | PA_BLOCKED _ _ => pe_action e = PE_BLOCKED
           end.
(** Every entry is in the list of its action. *)
Definition promotionSorted (r : FollowupPromotionReport) : Prop :=
  (∀ e, e ∈ prr_promoted r → pe_action e = PE_PROMOTE) ∧
  (∀ e, e ∈ prr_unchanged r → pe_action e = PE_ALREADY_DUE ∨ pe_action e = PE_NO_CHANGE) ∧
  (∀ e, e ∈ prr_blocked r → pe_action e = PE_BLOCKED) ∧ (∀ e, e ∈ prr_skipped r → pe_action e = PE_SKIP) ∧
  (∀ e, e ∈ prr_failures r → pe_action e = PE_PROMOTE_FAILED).

Lemma pushPromotion_entries e r : promotionEntries (pushPromotion e r) ≡ₚ promotionEntries r ++ [e].
Proof using Type.
  destruct r. unfold pushPromotion, promotionEntries. destruct (pe_action e); simpl; solve_Permutation.
Qed.
Lemma pushPromotion_sorted e r : promotionSorted r → promotionSorted (pushPromotion e r).
Proof using Type.
  destruct r. unfold pushPromotion, promotionSorted. intros (H1 & H2 & H3 & H4 & H5).
  destruct (pe_action e) eqn:Ea; simpl in *; split_and!; try done;
    intros e' [?| ->%list_elem_of_singleton]%elem_of_app; auto.
Qed.
Lemma promoteOne_spec c r w :
  wp (promoteOne deps c r) (λ r' _, ∃ e, promotionFor c e ∧ r' = pushPromotion e r) w.
Proof using Type.
  unfold promoteOne. rewrite wp_bind. eapply wp_mono; [|apply wp_self]. intros nowMs w1 _.
  destruct (decideFollowupPromotion c nowMs) eqn:Edecide.
  2, 3, 4: rewrite wp_ret; eexists; split; [|reflexivity]; (split; [done|]); split; [done|]; exists nowMs; by rewrite Edecide.
  rewrite wp_bind. apply wp_caught. intros result w2. rewrite wp_ret. eexists. split; [|reflexivity].
  split; [|split; [|exists nowMs; rewrite Edecide]]; repeat case_match; simpl; try done; set_solver.
Qed.

(** What a promotion run left and reported *)
Definition promotionRun (w : world DB) (r : FollowupPromotionReport) (w' : world DB) : Prop :=
  if pg_followupPromotionEnabled (pd_gates deps) && pg_outreachTrackingEnabled (pd_gates deps) then
    prr_outcome r = PROMOTION_RAN ∧ promotionSorted r ∧
    ∃ candidates nowMs w1, (pd_candidates deps nowMs (pd_maxPerRun deps) w1).1 = Ok candidates ∧
      prr_considered r = length candidates ∧ accounts promotionFor candidates (promotionEntries r)
  else prr_outcome r ≠ PROMOTION_RAN ∧ w' = w ∧ promotionEntries r = [].
Lemma promotion_accounts w :
  returns (pd_now deps) → (∀ n m, returns (pd_candidates deps n m)) →
  twp (runFollowupDuePromotion deps) (promotionRun w) w.
Proof using Type.
  intros Hnow Hcand. unfold promotionRun, runFollowupDuePromotion.
  destruct (pg_followupPromotionEnabled _); simpl; [|by rewrite twp_ret].
  destruct (pg_outreachTrackingEnabled _); simpl; [|by rewrite twp_ret].
  apply returns_twp; [unfold promoteOne; returns_tac|].
  rewrite wp_bind. eapply wp_mono; [|apply wp_self]. intros nowMs w1 _.
  rewrite wp_bind. eapply wp_mono; [|apply wp_self]. intros candidates w2 Hrun.
  eapply wp_mono; [|apply wp_and; [apply (wp_accounting_empty _ promotionEntries promotionFor)|
    apply (wp_fold_each _ _ (λ _ r _, prr_outcome r = PROMOTION_RAN ∧ promotionSorted r ∧
      prr_considered r = length candidates) _ (λ r _, prr_outcome r = PROMOTION_RAN ∧ promotionSorted r ∧
      prr_considered r = length candidates))]].
  - intros r w' [Hacc (Ho & Hs & Hn)]. split_and!; [done..|]. exists candidates, nowMs, w1. by rewrite Hrun.
  - done.
  - intros c r w3 _. eapply wp_mono; [|apply promoteOne_spec]. intros r' w4 (e & He & ->).
    exists e. split; [done|]. apply pushPromotion_entries.
  - split_and!; [done| |done]. unfold promotionSorted. simpl. split_and!; by intros ? ?%not_elem_of_nil.
  - intros c l r w3 (Ho & Hs & Hn). eapply wp_mono; [|apply promoteOne_spec]. intros r' w4 (e & _ & ->).
    split_and!; [|by apply pushPromotion_sorted|]; destruct r; unfold pushPromotion; by destruct (pe_action e).
  - done.
Qed.
End promotion.

(** ** Preparation *)

Section preparation.
Context {DB : Type} `{Runtime, ErrorText} (deps : FollowupPreparationDeps DB).

Definition preparationEntries (r : FollowupPreparationReport) : list FollowupPreparationEntry :=
  fr_prepared r ++ fr_blocked r ++ fr_skipped r ++ fr_cancelled r ++ fr_failures r.
(** What the entry for a candidate says *)
Definition preparationFor (c : FollowupCandidateView) (e : FollowupPreparationEntry) : Prop :=
  fe_followupId e = fcv_followupId c ∧ fe_outreachRecordId e = fcv_outreachRecordId c ∧
  fe_action e = match decideFollowupPreparation c with
                | FPA_COMPOSE _ => FE_COMPOSE
                | FPA_CANCEL_REJECTED _ => FE_CANCEL_REJECTED
                | FPA_SKIP _ _ => FE_SKIP
                | FPA_BLOCKED _ _ => FE_BLOCKED
                end.
(** Every entry is in a list that its action may be in. *)
Definition preparationSorted (r : FollowupPreparationReport) : Prop :=
  (∀ e, e ∈ fr_prepared r → fe_action e = FE_COMPOSE) ∧ (∀ e, e ∈ fr_blocked r → fe_action e = FE_BLOCKED) ∧
  (∀ e, e ∈ fr_skipped r → fe_action e = FE_SKIP) ∧ (∀ e, e ∈ fr_cancelled r → fe_action e = FE_CANCEL_REJECTED) ∧
  (∀ e, e ∈ fr_failures r → fe_action e = FE_COMPOSE ∨ fe_action e = FE_CANCEL_REJECTED).

(** One entry more, in a list that suits its action *)
Definition preparedOne (e : FollowupPreparationEntry) (r r' : FollowupPreparationReport) : Prop :=
  fr_outcome r' = fr_outcome r ∧ fr_considered r' = fr_considered r ∧
  preparationEntries r' ≡ₚ preparationEntries r ++ [e] ∧ (preparationSorted r → preparationSorted r').
Ltac preparation_push :=
  unfold preparedOne, preparationEntries, preparationSorted;
  match goal with r : FollowupPreparationReport |- _ => destruct r end; push_entry.
Lemma prepared_push e r : fe_action e = FE_COMPOSE → preparedOne e r (pushPrepared e r).
Proof using Type. preparation_push. Qed.
Lemma blocked_push e r : fe_action e = FE_BLOCKED → preparedOne e r (pushBlocked e r).
Proof using Type. preparation_push. Qed.
Lemma skipped_push e r : fe_action e = FE_SKIP → preparedOne e r (pushSkipped e r).
Proof using Type. preparation_push. Qed.
Lemma cancelled_push e r : fe_action e = FE_CANCEL_REJECTED → preparedOne e r (pushCancelled e r).
Proof using Type. preparation_push. Qed.
Lemma failure_push e r :
  fe_action e = FE_COMPOSE ∨ fe_action e = FE_CANCEL_REJECTED → preparedOne e r (pushFailure e r).
Proof using Type. preparation_push. Qed.

Lemma prepareOne_spec c r w :
  wp (prepareOne deps c r) (λ r' _, ∃ e, preparationFor c e ∧ preparedOne e r r') w.
Proof using Type.
  unfold prepareOne, preparationFor. destruct (decideFollowupPreparation c);
    [| |rewrite wp_ret; eexists; (split; [|first [by apply skipped_push|by apply blocked_push]]); done..];
    rewrite wp_bind; apply wp_caught; intros result w2; rewrite wp_ret; repeat case_match;
    eexists; (split; [|first [apply prepared_push|apply cancelled_push|apply failure_push]; simpl; auto]); done.
Qed.
(** What a preparation run left and reported *)
Definition preparationOpen : bool :=
  let g := fd_gates deps in
  fg_followupPreparationEnabled g && fg_outreachTrackingEnabled g && fg_emailGenerationEnabled g.
Definition preparationRun (w : world DB) (r : FollowupPreparationReport) (w' : world DB) : Prop :=
  if preparationOpen then
    fr_outcome r = PREPARATION_RAN ∧ preparationSorted r ∧
    ∃ candidates nowMs w1, (fd_dueCandidates deps nowMs (fd_maxPerRun deps) w1).1 = Ok candidates ∧
      fr_considered r = length candidates ∧ accounts preparationFor candidates (preparationEntries r)
  else fr_outcome r ≠ PREPARATION_RAN ∧ w' = w ∧ preparationEntries r = [].
Lemma preparation_accounts w :
  returns (fd_now deps) → returns (fd_preflight deps) → (∀ n m, returns (fd_dueCandidates deps n m)) →
  twp (runFollowupPreparation deps) (preparationRun w) w.
Proof using Type.
  intros Hnow Hpre Hcand. unfold preparationRun, preparationOpen, runFollowupPreparation. cbv zeta.
  destruct (fg_followupPreparationEnabled _); simpl; [|by rewrite twp_ret].
  destruct (fg_outreachTrackingEnabled _); simpl; [|by rewrite twp_ret].
  destruct (fg_emailGenerationEnabled _); simpl; [|by rewrite twp_ret].
  apply returns_twp; [unfold prepareOne; returns_tac|].
  rewrite wp_bind. eapply wp_mono; [|apply wp_self]. intros _ w0 _.
  rewrite wp_bind. eapply wp_mono; [|apply wp_self]. intros nowMs w1 _.
  rewrite wp_bind. eapply wp_mono; [|apply wp_self]. intros candidates w2 Hrun.
  set (P := λ r, fr_outcome r = PREPARATION_RAN ∧ preparationSorted r ∧ fr_considered r = length candidates).
  eapply wp_mono; [|apply wp_and; [apply (wp_accounting_empty _ preparationEntries preparationFor)|
    apply (wp_fold_each _ _ (λ _ r _, P r) _ (λ r _, P r))]].
  - intros r w' [Hacc (Ho & Hs & Hn)]. split_and!; [done..|]. exists candidates, nowMs, w1. by rewrite Hrun.
  - done.
  - intros c r w3 _. eapply wp_mono; [|apply prepareOne_spec]. intros r' w4 (e & He & (_ & _ & Hes & _)). by exists e.
  - split_and!; [done| |done]. unfold preparationSorted. simpl. split_and!; by intros ? ?%not_elem_of_nil.
  - intros c l r w3 (Ho & Hs & Hn). eapply wp_mono; [|apply prepareOne_spec].
    intros r' w4 (e & _ & (Eo & En & _ & Hsort)). unfold P. rewrite Eo, En. auto.
  - done.
Qed.
End preparation.

(** ** Progression *)

Section progression.
Context {DB : Type} `{Runtime, ErrorText} (deps : FollowupProgressionDeps DB).

Definition progressionEntries (r : FollowupProgressionReport) : list ProgressionEntry :=
  gr_advanced r ++ gr_done r ++ gr_blocked r ++ gr_skipped r ++ gr_failures r.
(** What the entry for a candidate says *)
Definition progressionFor (c : ProgressionCandidateView) (e : ProgressionEntry) : Prop :=
  ge_leadId e = pcv_leadId c ∧ ge_outreachRecordId e = pcv_outreachRecordId c ∧
  ge_sequenceStep e = pcv_sequenceStep c ∧
  (ge_action e, ge_stage e) = match decideProgression c with
                | PG_ADVANCE stage _ => (GE_ADVANCE, Some stage)
                | PG_DONE _ => (GE_DONE, None)
                | PG_SKIP _ _ => (GE_SKIP, None)
                | PG_BLOCKED _ _ => (GE_BLOCKED, None)
                end.
(** Every entry is in a list that its action may be in. *)
Definition progressionSorted (r : FollowupProgressionReport) : Prop :=
  (∀ e, e ∈ gr_advanced r → ge_action e = GE_ADVANCE) ∧ (∀ e, e ∈ gr_done r → ge_action e = GE_DONE) ∧
  (∀ e, e ∈ gr_blocked r → ge_action e = GE_BLOCKED) ∧ (∀ e, e ∈ gr_skipped r → ge_action e = GE_SKIP) ∧
  (∀ e, e ∈ gr_failures r → ge_action e = GE_ADVANCE).
Definition progressedOne (e : ProgressionEntry) (r r' : FollowupProgressionReport) : Prop :=
  gr_outcome r' = gr_outcome r ∧ gr_considered r' = gr_considered r ∧
  progressionEntries r' ≡ₚ progressionEntries r ++ [e] ∧ (progressionSorted r → progressionSorted r').
Ltac progression_push :=
  unfold progressedOne, progressionEntries, progressionSorted;
  match goal with r : FollowupProgressionReport |- _ => destruct r end; push_entry.
Lemma advanced_push e r : ge_action e = GE_ADVANCE → progressedOne e r (pushAdvanced e r).
Proof using Type. progression_push. Qed.
Lemma stageFailure_push e r : ge_action e = GE_ADVANCE → progressedOne e r (pushStageFailure e r).
Proof using Type. progression_push. Qed.
Lemma untouched_push e r : ge_action e ≠ GE_ADVANCE → progressedOne e r (pushUntouched e r).
Proof using Type.
  unfold pushUntouched. intros Hne. destruct (ge_action e) eqn:Ea; [done|..]; revert Ea; progression_push.
Qed.
Lemma progressOne_spec c r w :
  wp (progressOne deps c r) (λ r' _, ∃ e, progressionFor c e ∧ progressedOne e r r') w.
Proof using Type.
  unfold progressOne, progressionFor. destruct (decideProgression c);
    [|rewrite wp_ret; eexists; (split; [|by apply untouched_push]); done..].
  rewrite wp_bind. apply wp_caught. intros result w2. rewrite wp_ret. repeat case_match;
    eexists; (split; [|first [by apply advanced_push|by apply stageFailure_push]]); done.
Qed.
(** What a progression run left and reported *)
Definition progressionRun (w : world DB) (r : FollowupProgressionReport) (w' : world DB) : Prop :=
  if gg_followupProgressionEnabled (gd_gates deps) && gg_outreachTrackingEnabled (gd_gates deps) then
    gr_outcome r = PROGRESSION_RAN ∧ progressionSorted r ∧
    ∃ candidates nowMs w1, (gd_candidates deps nowMs (gd_maxPerRun deps) w1).1 = Ok candidates ∧
      gr_considered r = length candidates ∧ accounts progressionFor candidates (progressionEntries r)
  else gr_outcome r ≠ PROGRESSION_RAN ∧ w' = w ∧ progressionEntries r = [].
Lemma progression_accounts w :
  returns (gd_now deps) → (∀ n m, returns (gd_candidates deps n m)) →
  twp (runFollowupProgression deps) (progressionRun w) w.
Proof using Type.
  intros Hnow Hcand. unfold progressionRun, runFollowupProgression.
  destruct (gg_followupProgressionEnabled _); simpl; [|by rewrite twp_ret].
  destruct (gg_outreachTrackingEnabled _); simpl; [|by rewrite twp_ret].
  apply returns_twp; [unfold progressOne; returns_tac|].
  rewrite wp_bind. eapply wp_mono; [|apply wp_self]. intros nowMs w1 _.
  rewrite wp_bind. eapply wp_mono; [|apply wp_self]. intros candidates w2 Hrun.
  set (P := λ r, gr_outcome r = PROGRESSION_RAN ∧ progressionSorted r ∧ gr_considered r = length candidates).
  eapply wp_mono; [|apply wp_and; [apply (wp_accounting_empty _ progressionEntries progressionFor)|
    apply (wp_fold_each _ _ (λ _ r _, P r) _ (λ r _, P r))]].
  - intros r w' [Hacc (Ho & Hs & Hn)]. split_and!; [done..|]. exists candidates, nowMs, w1. by rewrite Hrun.
  - done.
  - intros c r w3 _. eapply wp_mono; [|apply progressOne_spec]. intros r' w4 (e & He & (_ & _ & Hes & _)). by exists e.
  - split_and!; [done| |done]. unfold progressionSorted. simpl. split_and!; by intros ? ?%not_elem_of_nil.
  - intros c l r w3 (Ho & Hs & Hn). eapply wp_mono; [|apply progressOne_spec].
    intros r' w4 (e & _ & (Eo & En & _ & Hsort)). unfold P. rewrite Eo, En. auto.
  - done.
Qed.
End progression.

(** ** The three runs *)

(** The clock, the preflight and the queries of the runs answer. *)
Record effectsReturn {DB} (pd : FollowupPromotionDeps DB) (fd : FollowupPreparationDeps DB)
    (gd : FollowupProgressionDeps DB) : Prop := {
  er_promotion : returns (pd_now pd) ∧ ∀ n m, returns (pd_candidates pd n m);
  er_preparation : returns (fd_now fd) ∧ returns (fd_preflight fd) ∧ ∀ n m, returns (fd_dueCandidates fd n m);
  er_progression : returns (gd_now gd) ∧ ∀ n m, returns (gd_candidates gd n m);
}.

Section runs.
Context {DB : Type} `{Runtime, ErrorText}.

(** The follow-up runs account for every candidate: as long as the clock and the queries
    answer, each of the three runs returns, even if promoting, composing, cancelling or a
    stage throws.  With a switch off it changes nothing and lists nothing; otherwise the
    report has exactly one entry for each candidate, with the action that the decision on
    that candidate calls for and in a list that this action may be in. *)
Theorem followup_runs_account (pd : FollowupPromotionDeps DB) fd gd w :
  effectsReturn pd fd gd →
  twp (runFollowupDuePromotion pd) (promotionRun pd w) w ∧
  twp (runFollowupPreparation fd) (preparationRun fd w) w ∧
  twp (runFollowupProgression gd) (progressionRun gd w) w.
Proof using Type.
  intros [[Hp1 Hp2] (Hf1 & Hf2 & Hf3) [Hg1 Hg2]].
  auto using promotion_accounts, preparation_accounts, progression_accounts.
Qed.
End runs.

(** ** Witness *)

#[local] Existing Instance demo_runtime.
#[local] Instance demo_error_text : ErrorText := λ e, match e with JsError m => m | AppError _ m => m | PgError c _ => c end.

(** Two due rows, one of a record that unsubscribed; promoting the other one throws. *)
Definition demoPromotion : FollowupPromotionDeps () :=
  let view record status := {| fpc_followupId := "f-" +:+ record; fpc_outreachRecordId := record; fpc_leadId := "l1";
    fpc_step := 1; fpc_followupStatus := FU_DUE; fpc_dueAtMs := 0; fpc_recordStatus := Some status;
    fpc_doNotContact := false |} in
  {| pd_now := now; pd_gates := {| pg_followupPromotionEnabled := true; pg_outreachTrackingEnabled := true |};
     pd_maxPerRun := 5;
     pd_candidates _ _ := mret [view "r1" INITIAL_SENT; view "r2" UNSUBSCRIBED];
     pd_promote _ _ := throw (JsError "connection lost") |}.
(** One candidate without copy, for which composing throws *)
Definition demoPreparation : FollowupPreparationDeps () :=
  {| fd_now := now;
     fd_gates := {| fg_followupPreparationEnabled := true; fg_outreachTrackingEnabled := true;
       fg_emailGenerationEnabled := true |};
     fd_preflight := mret tt; fd_maxPerRun := 5;
     fd_dueCandidates _ _ := mret [{| fcv_followupId := "f1"; fcv_outreachRecordId := "r1"; fcv_leadId := "l1";
       fcv_step := 1; fcv_recordStatus := Some FOLLOW_UP_1_DUE; fcv_doNotContact := false;
       fcv_leadStatus := "SENT"; fcv_existingDraft := None; fcv_followupCreatedAtMs := 0 |}];
     fd_cancelFollowup _ _ _ := mret tt; fd_compose _ _ := throw (JsError "no model") |}.
(** Progression is switched off. *)
Definition demoProgression : FollowupProgressionDeps () :=
  {| gd_now := now;
     gd_gates := {| gg_followupProgressionEnabled := false; gg_outreachTrackingEnabled := true |};
     gd_maxPerRun := 5; gd_candidates _ _ := mret []; gd_finalize _ := throw (JsError "");
     gd_createGmailDraft _ := throw (JsError ""); gd_schedule _ := throw (JsError "") |}.
Lemma followup_runs_account_witness :
  (∃ r w', runFollowupDuePromotion demoPromotion (World tt 0 0) = (Ok r, w') ∧
     promotionRun demoPromotion (World tt 0 0) r w' ∧ map pe_outreachRecordId (prr_failures r) = ["r1"] ∧
     map pe_outreachRecordId (prr_blocked r) = ["r2"]) ∧
  (∃ r w', runFollowupPreparation demoPreparation (World tt 0 0) = (Ok r, w') ∧
     map fe_detail (fr_failures r) = ["compose threw: no model"]).
Proof.
  assert (effectsReturn demoPromotion demoPreparation demoProgression) as Hreturn.
  { split; repeat split. }
  destruct (followup_runs_account demoPromotion demoPreparation demoProgression (World tt 0 0) Hreturn)
    as (Hp & Hf & _).
  apply twp_returns in Hp as (r & w' & Hrun & Hr). apply twp_returns in Hf as (r2 & w2 & Hrun2 & _). split.
  - exists r, w'. split; [exact Hrun|]. split; [exact Hr|]. revert Hrun. vm_compute. intros [= <- _].
    split; reflexivity.
  - exists r2, w2. split; [exact Hrun2|]. revert Hrun2. vm_compute. intros [= <- _]. reflexivity.
Defined.
