(* ===== verification/LeadLifecycle.v ===== *)
(** * The lead lifecycle: src/domain/leads/status.ts, state-machine.ts and
    lead-lifecycle.ts

    The statuses of a lead, the transition table, and what the table guarantees
    about the way from a collected lead to an email that was sent. *)
From S2P Require Import Prelude.
From S2P Require Import JsText.
Open Scope list_scope.

(** ** Statuses *)

Inductive LeadStatus :=
  | NEW | NORMALIZED | DUPLICATE | REJECTED_AUTOMATICALLY | READY_FOR_QUALIFICATION
  | QUALIFIED | READY_FOR_ENRICHMENT | ENRICHED | NEEDS_MANUAL_REVIEW | REJECTED
  | READY_FOR_CAPTURE | CAPTURED | READY_FOR_AUDIT | AUDITED | OUTREACH_READY_DETERMINISTIC
  | OPPORTUNITY_READY | COMPETITOR_RESEARCH_READY | DEMO_DECIDED | DEMO_READY
  | EMAIL_DRAFTED | EMAIL_REVIEW_FAILED | EMAIL_APPROVED | WAITING_FOR_DEMO_URL
  | FINALIZED_EMAIL_PENDING | READY_FOR_HUMAN_APPROVAL | HUMAN_APPROVED | DRAFT_CREATED
  | SCHEDULED | SENT | REPLIED | UNSUBSCRIBED | BOUNCED | FAILED.

#[global] Instance LeadStatus_eq_dec : EqDecision LeadStatus.
Proof. solve_decision. Defined.

Definition LEAD_STATUSES : list LeadStatus :=
  [NEW; NORMALIZED; DUPLICATE; REJECTED_AUTOMATICALLY; READY_FOR_QUALIFICATION; QUALIFIED;
   READY_FOR_ENRICHMENT; ENRICHED; NEEDS_MANUAL_REVIEW; REJECTED; READY_FOR_CAPTURE; CAPTURED;
   READY_FOR_AUDIT; AUDITED; OUTREACH_READY_DETERMINISTIC; OPPORTUNITY_READY;
   COMPETITOR_RESEARCH_READY; DEMO_DECIDED; DEMO_READY; EMAIL_DRAFTED; EMAIL_REVIEW_FAILED;
   EMAIL_APPROVED; WAITING_FOR_DEMO_URL; FINALIZED_EMAIL_PENDING; READY_FOR_HUMAN_APPROVAL;
   HUMAN_APPROVED; DRAFT_CREATED; SCHEDULED; SENT; REPLIED; UNSUBSCRIBED; BOUNCED; FAILED].
Lemma all_statuses s : s ∈ LEAD_STATUSES.
Proof. apply (bool_decide_unpack (s ∈ LEAD_STATUSES)). by destruct s; vm_compute. Qed.

Definition leadStatusText (s : LeadStatus) : string :=
  match s with
  | NEW => "NEW" | NORMALIZED => "NORMALIZED" | DUPLICATE => "DUPLICATE"
  | REJECTED_AUTOMATICALLY => "REJECTED_AUTOMATICALLY"
  | READY_FOR_QUALIFICATION => "READY_FOR_QUALIFICATION" | QUALIFIED => "QUALIFIED"
  | READY_FOR_ENRICHMENT => "READY_FOR_ENRICHMENT" | ENRICHED => "ENRICHED"
  | NEEDS_MANUAL_REVIEW => "NEEDS_MANUAL_REVIEW" | REJECTED => "REJECTED"
  | READY_FOR_CAPTURE => "READY_FOR_CAPTURE" | CAPTURED => "CAPTURED"
  | READY_FOR_AUDIT => "READY_FOR_AUDIT" | AUDITED => "AUDITED"
  | OUTREACH_READY_DETERMINISTIC => "OUTREACH_READY_DETERMINISTIC"
  | OPPORTUNITY_READY => "OPPORTUNITY_READY"
  | COMPETITOR_RESEARCH_READY => "COMPETITOR_RESEARCH_READY" | DEMO_DECIDED => "DEMO_DECIDED"
  | DEMO_READY => "DEMO_READY" | EMAIL_DRAFTED => "EMAIL_DRAFTED"
  | EMAIL_REVIEW_FAILED => "EMAIL_REVIEW_FAILED" | EMAIL_APPROVED => "EMAIL_APPROVED"
  | WAITING_FOR_DEMO_URL => "WAITING_FOR_DEMO_URL"
  | FINALIZED_EMAIL_PENDING => "FINALIZED_EMAIL_PENDING"
  | READY_FOR_HUMAN_APPROVAL => "READY_FOR_HUMAN_APPROVAL" | HUMAN_APPROVED => "HUMAN_APPROVED"
  | DRAFT_CREATED => "DRAFT_CREATED" | SCHEDULED => "SCHEDULED" | SENT => "SENT"
  | REPLIED => "REPLIED" | UNSUBSCRIBED => "UNSUBSCRIBED" | BOUNCED => "BOUNCED"
  | FAILED => "FAILED"
  end.

(** ** The transition table *)

Definition TERMINAL : list LeadStatus :=
  [DUPLICATE; REJECTED_AUTOMATICALLY; REJECTED; UNSUBSCRIBED; FAILED; REPLIED; BOUNCED].

Definition BASE_TRANSITIONS (s : LeadStatus) : list LeadStatus :=
  match s with
  | NEW => [NORMALIZED]
  | NORMALIZED => [DUPLICATE; REJECTED_AUTOMATICALLY; READY_FOR_QUALIFICATION]
  | READY_FOR_QUALIFICATION => [QUALIFIED; READY_FOR_ENRICHMENT; REJECTED; NEEDS_MANUAL_REVIEW]
  | QUALIFIED => [READY_FOR_CAPTURE]
  | READY_FOR_ENRICHMENT => [ENRICHED; NEEDS_MANUAL_REVIEW; FAILED]
  | ENRICHED => [READY_FOR_QUALIFICATION]
  | READY_FOR_CAPTURE => [CAPTURED; NEEDS_MANUAL_REVIEW; FAILED]
  | CAPTURED => [READY_FOR_AUDIT]
  | READY_FOR_AUDIT => [AUDITED; NEEDS_MANUAL_REVIEW; FAILED]
  | AUDITED => [OPPORTUNITY_READY; NEEDS_MANUAL_REVIEW]
  | OUTREACH_READY_DETERMINISTIC => [NEEDS_MANUAL_REVIEW; READY_FOR_HUMAN_APPROVAL]
  | OPPORTUNITY_READY => [COMPETITOR_RESEARCH_READY; DEMO_DECIDED; EMAIL_DRAFTED]
  | COMPETITOR_RESEARCH_READY => [DEMO_DECIDED]
  | DEMO_DECIDED => [DEMO_READY; EMAIL_DRAFTED]
  | DEMO_READY => [EMAIL_DRAFTED]
  | EMAIL_DRAFTED => [EMAIL_APPROVED; EMAIL_REVIEW_FAILED]
  | EMAIL_REVIEW_FAILED => [EMAIL_DRAFTED; NEEDS_MANUAL_REVIEW]
  | EMAIL_APPROVED => [READY_FOR_HUMAN_APPROVAL; WAITING_FOR_DEMO_URL]
  | WAITING_FOR_DEMO_URL =>
      [READY_FOR_HUMAN_APPROVAL; FINALIZED_EMAIL_PENDING; REJECTED; NEEDS_MANUAL_REVIEW]
  | FINALIZED_EMAIL_PENDING => [HUMAN_APPROVED; REJECTED; NEEDS_MANUAL_REVIEW]
  | READY_FOR_HUMAN_APPROVAL => [HUMAN_APPROVED; REJECTED; SENT]
  | HUMAN_APPROVED => [DRAFT_CREATED; NEEDS_MANUAL_REVIEW]
  | DRAFT_CREATED => [SCHEDULED; NEEDS_MANUAL_REVIEW]
  | SCHEDULED => [DRAFT_CREATED; SENT; NEEDS_MANUAL_REVIEW]
  | SENT => [REPLIED; BOUNCED; FAILED; EMAIL_DRAFTED]
  | NEEDS_MANUAL_REVIEW =>
      [READY_FOR_QUALIFICATION; READY_FOR_ENRICHMENT; READY_FOR_CAPTURE; READY_FOR_AUDIT;
       OUTREACH_READY_DETERMINISTIC; REJECTED]
  | REJECTED => [NEEDS_MANUAL_REVIEW]
  | DUPLICATE | REJECTED_AUTOMATICALLY | UNSUBSCRIBED | FAILED | REPLIED | BOUNCED => []
  end.

Definition isTerminal (status : LeadStatus) : bool := bool_decide (status ∈ TERMINAL).
Definition allowedTransitions (from : LeadStatus) : list LeadStatus :=
  let base := BASE_TRANSITIONS from in
  if isTerminal from then base
  else if bool_decide (UNSUBSCRIBED ∈ base) then base else base ++ [UNSUBSCRIBED].
Definition canTransition (from to : LeadStatus) : bool := bool_decide (to ∈ allowedTransitions from).
Definition invalidLeadTransition (from to : LeadStatus) : error :=
  AppError "INVALID_STATE_TRANSITION"
    ("Invalid lead state transition: " +:+ leadStatusText from +:+ " -> " +:+ leadStatusText to).
Definition assertTransition (from to : LeadStatus) : res () :=
  if canTransition from to then Ok tt else Throw (invalidLeadTransition from to).

(** ** Contact work: lead-lifecycle.ts *)

Definition LIFECYCLE_BLOCKED_STATUSES : list LeadStatus :=
  [REJECTED; REJECTED_AUTOMATICALLY; DUPLICATE; UNSUBSCRIBED; REPLIED; EMAIL_DRAFTED;
   EMAIL_REVIEW_FAILED; EMAIL_APPROVED; WAITING_FOR_DEMO_URL; FINALIZED_EMAIL_PENDING;
   READY_FOR_HUMAN_APPROVAL; HUMAN_APPROVED; DRAFT_CREATED; SCHEDULED; SENT].
Definition isLifecycleEligibleForContactWork (status : LeadStatus) : bool :=
  negb (bool_decide (status ∈ LIFECYCLE_BLOCKED_STATUSES)).

(** ** What the table guarantees *)

Definition leadStep (from to : LeadStatus) : Prop := canTransition from to = true.
Definition leadMoves : LeadStatus → LeadStatus → Prop := rtc leadStep.

(** A closed set of statuses: no step but one through [gate] or along [except] leaves it. *)
Definition closedBut (gate : LeadStatus) (except : LeadStatus * LeadStatus)
    (inside : LeadStatus → bool) : bool :=
  forallb (λ from, forallb (λ to,
      negb (inside from && canTransition from to) || inside to || bool_decide (to = gate) ||
      bool_decide ((from, to) = except)) LEAD_STATUSES) LEAD_STATUSES.
Lemma closedBut_spec gate except inside from to :
  closedBut gate except inside = true → inside from = true → leadStep from to →
  to ≠ gate → (from, to) ≠ except → inside to = true.
Proof.
  unfold closedBut. intros Hc Hin Hstep Hg He. rewrite elem_of_forallb in Hc.
  specialize (Hc from (all_statuses from)). rewrite elem_of_forallb in Hc.
  specialize (Hc to (all_statuses to)). unfold leadStep in Hstep. rewrite Hin, Hstep in Hc.
  simpl in Hc. rewrite !bool_decide_eq_false_2, !orb_false_r in Hc by done. done.
Qed.

(** A run of the lead: the statuses it takes after [from], one legal step after the other *)
Fixpoint leadRun (from : LeadStatus) (path : list LeadStatus) : Prop :=
  match path with [] => True | to :: path => leadStep from to ∧ leadRun to path end.
(** The edge by which the review returns the rejected copy of a follow-up *)
Definition followupRejection : LeadStatus * LeadStatus := (READY_FOR_HUMAN_APPROVAL, SENT).
Fixpoint takes (edge : LeadStatus * LeadStatus) (from : LeadStatus) (path : list LeadStatus) : Prop :=
  match path with [] => False | to :: path => (from, to) = edge ∨ takes edge to path end.

Lemma run_stays gate except inside from path :
  closedBut gate except inside = true → inside from = true → leadRun from path →
  gate ∉ path → ¬ takes except from path → Forall (λ s, inside s = true) path.
Proof.
  intros Hc. revert from. induction path as [|to path IH]; intros from Hin Hrun Hg Ht; [done|].
  destruct Hrun as [Hstep Hrun]. apply not_elem_of_cons in Hg as [Hg1 Hg2].
  assert (inside to = true) as Hto.
  { eapply closedBut_spec; [exact Hc|exact Hin|exact Hstep|done|]. intros E. apply Ht. by left. }
  constructor; [done|]. eapply IH; [done|done|done|]. intros Ht'. apply Ht. by right.
Qed.

(** The statuses that a lead can have before a human has approved its email, before
    its Gmail draft exists, and before it has been scheduled *)
Definition beforeApproval (s : LeadStatus) : bool :=
  negb (bool_decide (s ∈ [HUMAN_APPROVED; DRAFT_CREATED; SCHEDULED; SENT; REPLIED; BOUNCED])).
Definition beforeDraft (s : LeadStatus) : bool :=
  negb (bool_decide (s ∈ [DRAFT_CREATED; SCHEDULED; SENT; REPLIED; BOUNCED])).
Definition beforeSchedule (s : LeadStatus) : bool :=
  negb (bool_decide (s ∈ [SCHEDULED; SENT; REPLIED; BOUNCED])).

(** Nobody is emailed without approval: on every run of the lifecycle from a
    collected lead to SENT (other than one that returns the rejected copy of a
    follow-up, which presupposes a first send), the lead has been HUMAN_APPROVED,
    its draft has been created and its send has been SCHEDULED. *)
Theorem sent_only_after_approval path :
  leadRun NEW path → ¬ takes followupRejection NEW path → SENT ∈ path →
  HUMAN_APPROVED ∈ path ∧ DRAFT_CREATED ∈ path ∧ SCHEDULED ∈ path.
Proof.
  intros Hrun Ht Hsent.
  assert (∀ gate inside, closedBut gate followupRejection inside = true → inside NEW = true →
    inside SENT = false → gate ∈ path) as Hgate.
  { intros gate inside Hc Hnew Hout. destruct (decide (gate ∈ path)) as [|Hg]; [done|].
    pose proof (run_stays _ _ _ _ _ Hc Hnew Hrun Hg Ht) as Hall.
    rewrite Forall_forall in Hall. specialize (Hall SENT Hsent). congruence. }
  split_and!; [apply (Hgate _ beforeApproval)|apply (Hgate _ beforeDraft)|apply (Hgate _ beforeSchedule)];
    vm_compute; reflexivity.
Qed.

Lemma sent_only_after_approval_witness :
  let path := [NORMALIZED; READY_FOR_QUALIFICATION; QUALIFIED; READY_FOR_CAPTURE; CAPTURED;
               READY_FOR_AUDIT; AUDITED; OPPORTUNITY_READY; EMAIL_DRAFTED; EMAIL_APPROVED;
               READY_FOR_HUMAN_APPROVAL; HUMAN_APPROVED; DRAFT_CREATED; SCHEDULED; SENT] in
  leadRun NEW path ∧ HUMAN_APPROVED ∈ path.
Proof.
  set (path := [NORMALIZED; _; _; _; _; _; _; _; _; _; _; _; _; _; _]). cbv zeta.
  assert (leadRun NEW path) as Hrun by (vm_compute; tauto).
  split; [exact Hrun|].
  apply (sent_only_after_approval path Hrun).
  - vm_compute. intuition discriminate.
  - unfold path. rewrite !elem_of_cons. tauto.
Defined.

(** An opt-out can always be recorded and is final: every status that is not
    terminal can move to UNSUBSCRIBED, a lead that has unsubscribed, replied,
    bounced, failed or is a duplicate never moves again, and contact work never
    resumes for a lead that has opted out or replied. *)
Theorem suppression_is_final s :
  (isTerminal s = false → canTransition s UNSUBSCRIBED = true) ∧
  (isTerminal s = true → s ≠ REJECTED → ∀ s', leadMoves s s' → s' = s) ∧
  (s ∈ [UNSUBSCRIBED; REPLIED] → ∀ s', leadMoves s s' → isLifecycleEligibleForContactWork s' = false).
Proof.
  assert (isTerminal s = true → s ≠ REJECTED → ∀ s', leadMoves s s' → s' = s) as Hfinal.
  { intros Ht Hr s' Hm. inversion Hm as [|? s2 ? Hstep _]; [done|]. exfalso. unfold leadStep, canTransition in Hstep.
    apply bool_decide_eq_true in Hstep. unfold allowedTransitions in Hstep. rewrite Ht in Hstep.
    destruct s; try discriminate Ht; try done; by apply not_elem_of_nil in Hstep. }
  split_and!; [by destruct s|exact Hfinal|]. intros Hs s' Hm. rewrite !elem_of_cons in Hs.
  destruct Hs as [->|[->|[]%not_elem_of_nil]]; apply Hfinal in Hm as ->; done.
Qed.
