(* ===== verification/PipelineDb.v ===== *)
(** * The pipeline database: leads, events, schedules and send attempts

    The rows of src/persistence/schema.ts that scheduling and sending read and
    write, with the constraints PostgreSQL checks, and the repositories over them
    (leads.repo.ts, pipeline.repo.ts, schedule.repo.ts, send.repo.ts). *)
From Stdlib Require QArith.
From S2P Require Import Prelude.
From S2P Require Import JsNumber.
From S2P Require Import JsText.
From S2P Require Import TimeZone.
From S2P Require Import Scheduler.
From S2P Require Import LeadLifecycle.
Open Scope Z_scope.
Open Scope list_scope.

(** ** Leads: src/domain/leads/lead.ts *)

Inductive LeadPriority := PRIORITY_HIGH | PRIORITY_MEDIUM | PRIORITY_LOW.
Inductive DedupStatus := UNIQUE | AMBIGUOUS.
Record Lead := {
  ld_id : string; ld_businessName : option string; ld_normalizedName : option string;
  ld_domain : option string; ld_normalizedDomain : option string; ld_phone : option string;
  ld_normalizedPhone : option string; ld_formattedAddress : option string;
  ld_normalizedAddress : option string; ld_latitude : option num;
  ld_longitude : option num; ld_placeId : option string; ld_city : option string;
  ld_country : option string; ld_status : LeadStatus; ld_priority : option LeadPriority;
  ld_source : option string; ld_dedupStatus : DedupStatus; ld_duplicateOf : option string;
  ld_createdAt : Z; ld_updatedAt : Z;
}.
Definition setLeadStatus (status : LeadStatus) (updatedAt : Z) (l : Lead) : Lead :=
  let '(Build_Lead id bn nn dm nd ph np fa na lat lon pid city ctry _ pr src ds du ca _) := l in
  Build_Lead id bn nn dm nd ph np fa na lat lon pid city ctry status pr src ds du ca updatedAt.

(** ** Events: src/domain/pipeline/pipeline-event.ts *)

Inductive PipelineEventType :=
  | LEAD_CREATED | STATE_TRANSITION | INVALID_TRANSITION | NOTE | LEAD_COLLECTED
  | LEAD_DUPLICATE | LEAD_BRANCH | LEAD_AMBIGUOUS | LEAD_REJECTED | SOURCE_REFRESHED.
#[global] Instance PipelineEventType_eq_dec : EqDecision PipelineEventType.
Proof. solve_decision. Defined.
Record NewPipelineEvent := {
  pe_leadId : option string; pe_runId : option string; pe_type : PipelineEventType;
  pe_fromStatus : option LeadStatus; pe_toStatus : option LeadStatus;
  pe_message : option string; pe_data : json;
}.

(** ** Schedules: [send_schedules] *)

Inductive ScheduleStatus :=
  | SCH_SCHEDULED | SCH_CANCELLED | SCH_SUPERSEDED | SCH_FULFILLED | SCH_INVALIDATED.
#[global] Instance ScheduleStatus_eq_dec : EqDecision ScheduleStatus.
Proof. solve_decision. Defined.
Definition scheduleStatusText (s : ScheduleStatus) : string :=
  match s with
  | SCH_SCHEDULED => "SCHEDULED" | SCH_CANCELLED => "CANCELLED" | SCH_SUPERSEDED => "SUPERSEDED"
  | SCH_FULFILLED => "FULFILLED" | SCH_INVALIDATED => "INVALIDATED"
  end.

Record ScheduleRecord := {
  sc_id : string; sc_leadId : string; sc_gmailDraftId : string; sc_providerDraftId : string;
  sc_finalizedContentHash : string; sc_recipientEmail : string; sc_scheduledAtUtc : Z;
  sc_timezone : string; sc_rulesVersion : string; sc_computedFrom : SchedulingRules;
  sc_integrityFingerprint : string; sc_origin : string; sc_status : ScheduleStatus;
  sc_supersededById : option string; sc_cancelReason : option string; sc_rescheduleCount : Z;
}.

(** The other columns of a row; [sc_record] is what [toRecord] reads. *)
Record ScheduleRow := {
  sr_record : ScheduleRecord; sr_createdAt : Z; sr_updatedAt : Z; sr_cancelledAt : option Z;
  sr_fulfilledAt : option Z; sr_invalidatedAt : option Z; sr_invalidationReason : option string;
}.
Definition sr_id (r : ScheduleRow) : string := sc_id (sr_record r).
Definition sr_status (r : ScheduleRow) : ScheduleStatus := sc_status (sr_record r).
Definition isActiveSchedule (r : ScheduleRow) : bool := bool_decide (sr_status r = SCH_SCHEDULED).

Definition setScheduleStatus (status : ScheduleStatus) (supersededById cancelReason : option string)
    (r : ScheduleRecord) : ScheduleRecord :=
  let '(Build_ScheduleRecord id lead draft prov hash rcpt at_ tz rv cf fp org _ _ _ n) := r in
  Build_ScheduleRecord id lead draft prov hash rcpt at_ tz rv cf fp org status supersededById cancelReason n.
(** The four updates of a schedule row *)
Definition supersedeRow (newId : string) (nowD : Z) (r : ScheduleRow) : ScheduleRow :=
  {| sr_record := setScheduleStatus SCH_SUPERSEDED (Some newId) (sc_cancelReason (sr_record r)) (sr_record r);
     sr_createdAt := sr_createdAt r; sr_updatedAt := nowD; sr_cancelledAt := sr_cancelledAt r;
     sr_fulfilledAt := sr_fulfilledAt r; sr_invalidatedAt := sr_invalidatedAt r;
     sr_invalidationReason := sr_invalidationReason r |}.
Definition cancelRow (reason : option string) (nowD : Z) (r : ScheduleRow) : ScheduleRow :=
  {| sr_record := setScheduleStatus SCH_CANCELLED (sc_supersededById (sr_record r)) reason (sr_record r);
     sr_createdAt := sr_createdAt r; sr_updatedAt := nowD; sr_cancelledAt := Some nowD;
     sr_fulfilledAt := sr_fulfilledAt r; sr_invalidatedAt := sr_invalidatedAt r;
     sr_invalidationReason := sr_invalidationReason r |}.
Definition fulfilRow (nowD : Z) (r : ScheduleRow) : ScheduleRow :=
  {| sr_record := setScheduleStatus SCH_FULFILLED (sc_supersededById (sr_record r))
       (sc_cancelReason (sr_record r)) (sr_record r);
     sr_createdAt := sr_createdAt r; sr_updatedAt := nowD; sr_cancelledAt := sr_cancelledAt r;
     sr_fulfilledAt := Some nowD; sr_invalidatedAt := sr_invalidatedAt r;
     sr_invalidationReason := sr_invalidationReason r |}.
Definition invalidateRow (reason : string) (nowD : Z) (r : ScheduleRow) : ScheduleRow :=
  {| sr_record := setScheduleStatus SCH_INVALIDATED (sc_supersededById (sr_record r))
       (sc_cancelReason (sr_record r)) (sr_record r);
     sr_createdAt := sr_createdAt r; sr_updatedAt := nowD; sr_cancelledAt := sr_cancelledAt r;
     sr_fulfilledAt := sr_fulfilledAt r; sr_invalidatedAt := Some nowD;
     sr_invalidationReason := Some reason |}.

(** ** Send attempts: [send_attempts] *)

Inductive SendAttemptStatus :=
  | RESERVED | CALL_STARTED | AT_SENT_CONFIRMED | AT_DEFINITIVE_FAILURE | AT_OUTCOME_UNKNOWN
  | AT_DUPLICATE_PREVENTED.
#[global] Instance SendAttemptStatus_eq_dec : EqDecision SendAttemptStatus.
Proof. solve_decision. Defined.
Inductive ReconciliationOutcome := CONFIRMED_SENT | CONFIRMED_NOT_SENT.
#[global] Instance ReconciliationOutcome_eq_dec : EqDecision ReconciliationOutcome.
Proof. solve_decision. Defined.

Record SendAttemptRecord := {
  sa_id : string; sa_leadId : string; sa_scheduleId : string; sa_gmailDraftId : string;
  sa_readinessApprovalId : string; sa_gmailAccount : string; sa_recipientHash : string;
  sa_finalizedContentHash : string; sa_scheduleIntegrityFingerprint : string;
  sa_approvedEnvelopeHash : string; sa_observedEnvelopeHash : string; sa_sendFingerprint : string;
  sa_confirmationFingerprint : string; sa_confirmedBy : string; sa_confirmedAt : Z;
  sa_status : SendAttemptStatus; sa_providerMessageId : option string;
  sa_providerThreadId : option string; sa_errorClass : option string; sa_reservedAt : Z;
  sa_callStartedAt : option Z; sa_completedAt : option Z;
}.
Record AttemptRow := {
  at_record : SendAttemptRecord; at_reconciledOutcome : option ReconciliationOutcome;
  at_reconciledBy : option string; at_reconciledAt : option Z; at_reconciliationNote : option string;
}.
Definition at_id (a : AttemptRow) : string := sa_id (at_record a).
Definition at_status (a : AttemptRow) : SendAttemptStatus := sa_status (at_record a).
Definition at_scheduleId (a : AttemptRow) : string := sa_scheduleId (at_record a).

(** [completeAttempt]'s patch: the columns that it may set *)
Inductive AttemptField :=
  | set_attemptStatus (s : SendAttemptStatus) | set_providerMessageId (m : option string)
  | set_providerThreadId (t : option string) | set_errorClass (e : option string)
  | set_callStartedAt (t : option Z) | set_completedAt (t : option Z).
Definition applyAttemptField (r : SendAttemptRecord) (f : AttemptField) : SendAttemptRecord :=
  let '(Build_SendAttemptRecord id le sc gd ra ga rh fc sf ae oe fp cf cb ca st pm pt ec rs cs co) := r in
  match f with
  | set_attemptStatus s => Build_SendAttemptRecord id le sc gd ra ga rh fc sf ae oe fp cf cb ca s pm pt ec rs cs co
  | set_providerMessageId m => Build_SendAttemptRecord id le sc gd ra ga rh fc sf ae oe fp cf cb ca st m pt ec rs cs co
  | set_providerThreadId t => Build_SendAttemptRecord id le sc gd ra ga rh fc sf ae oe fp cf cb ca st pm t ec rs cs co
  | set_errorClass e => Build_SendAttemptRecord id le sc gd ra ga rh fc sf ae oe fp cf cb ca st pm pt e rs cs co
  | set_callStartedAt t => Build_SendAttemptRecord id le sc gd ra ga rh fc sf ae oe fp cf cb ca st pm pt ec rs t co
  | set_completedAt t => Build_SendAttemptRecord id le sc gd ra ga rh fc sf ae oe fp cf cb ca st pm pt ec rs cs t
  end.
Definition patchAttempt (patch : list AttemptField) (a : AttemptRow) : AttemptRow :=
  {| at_record := fold_left applyAttemptField patch (at_record a);
     at_reconciledOutcome := at_reconciledOutcome a; at_reconciledBy := at_reconciledBy a;
     at_reconciledAt := at_reconciledAt a; at_reconciliationNote := at_reconciliationNote a |}.

(** ** Readiness approvals and suppressions *)

Inductive ReadinessSource := INTERACTIVE | SCHEDULED_SOURCE.
#[global] Instance ReadinessSource_eq_dec : EqDecision ReadinessSource.
Proof. solve_decision. Defined.
Record SendingReadinessRecord := {
  ra_id : string; ra_gmailAccount : string; ra_policyVersion : string; ra_approvedBy : string;
  ra_approvedAt : Z; ra_expiresAt : Z; ra_revokedAt : option Z; ra_source : ReadinessSource;
}.
Inductive SuppressionScope := SUP_email | SUP_domain | SUP_phone | SUP_place_id | SUP_business.
#[global] Instance SuppressionScope_eq_dec : EqDecision SuppressionScope.
Proof. solve_decision. Defined.
Record SuppressionRow := {
  su_id : string; su_scope : SuppressionScope; su_value : string; su_reason : option string;
  su_createdBy : string; su_createdAt : Z; su_revokedAt : option Z; su_revokedBy : option string;
  su_revokeReason : option string;
}.

(** ** The database

    [runIds] and [gmailDraftIds] are the primary keys of tables that these
    components only refer to. [dispatched] is not a table: it logs the calls of the
    provider's [sendExistingDraft], each with the attempt that it was made for. *)
Record Dispatch := { dp_attemptId : string; dp_providerDraftId : string }.
Record PipelineDb := {
  runIds : gset string; gmailDraftIds : gset string; leads : gmap string Lead;
  pipelineEvents : list (string * NewPipelineEvent); schedules : list ScheduleRow;
  attempts : list AttemptRow; readinessApprovals : list SendingReadinessRecord;
  suppressions : list SuppressionRow; dispatched : list Dispatch;
}.
Definition setLeads (f : gmap string Lead → gmap string Lead) (db : PipelineDb) : PipelineDb :=
  let '(Build_PipelineDb ru dr le ev sc at_ re su di) := db in
  Build_PipelineDb ru dr (f le) ev sc at_ re su di.
Definition setPipelineEvents (f : list (string * NewPipelineEvent) → list (string * NewPipelineEvent))
    (db : PipelineDb) : PipelineDb :=
  let '(Build_PipelineDb ru dr le ev sc at_ re su di) := db in
  Build_PipelineDb ru dr le (f ev) sc at_ re su di.
Definition setSchedules (f : list ScheduleRow → list ScheduleRow) (db : PipelineDb) : PipelineDb :=
  let '(Build_PipelineDb ru dr le ev sc at_ re su di) := db in
  Build_PipelineDb ru dr le ev (f sc) at_ re su di.
Definition setAttempts (f : list AttemptRow → list AttemptRow) (db : PipelineDb) : PipelineDb :=
  let '(Build_PipelineDb ru dr le ev sc at_ re su di) := db in
  Build_PipelineDb ru dr le ev sc (f at_) re su di.
Definition setSuppressions (f : list SuppressionRow → list SuppressionRow) (db : PipelineDb) : PipelineDb :=
  let '(Build_PipelineDb ru dr le ev sc at_ re su di) := db in
  Build_PipelineDb ru dr le ev sc at_ re (f su) di.
Definition setDispatched (f : list Dispatch → list Dispatch) (db : PipelineDb) : PipelineDb :=
  let '(Build_PipelineDb ru dr le ev sc at_ re su di) := db in
  Build_PipelineDb ru dr le ev sc at_ re su (f di).

(** ** Constraints *)

(** [send_attempts_confirmed_schedule_uk] and [send_attempts_blocking_schedule_uk] *)
Definition isConfirmed (a : AttemptRow) : bool :=
  bool_decide (at_status a = AT_SENT_CONFIRMED) ||
  bool_decide (at_reconciledOutcome a = Some CONFIRMED_SENT).
Definition isBlocking (a : AttemptRow) : bool :=
  bool_decide (at_status a ∈ [RESERVED; CALL_STARTED; AT_SENT_CONFIRMED]) ||
  (bool_decide (at_status a = AT_OUTCOME_UNKNOWN) &&
   negb (bool_decide (at_reconciledOutcome a = Some CONFIRMED_NOT_SENT))).
(** Another row than [a]'s own has its key in the partial index [p]. *)
Definition attemptConflict (p : AttemptRow → bool) (db : PipelineDb) (a : AttemptRow) : bool :=
  p a && existsb (λ a', negb (bool_decide (at_id a' = at_id a)) && p a' &&
                        bool_decide (at_scheduleId a' = at_scheduleId a)) (attempts db).
Definition messageConflict (db : PipelineDb) (a : AttemptRow) : bool :=
  match sa_providerMessageId (at_record a) with
  | Some m => existsb (λ a', negb (bool_decide (at_id a' = at_id a)) &&
                bool_decide (sa_providerMessageId (at_record a') = Some m)) (attempts db)
  | None => false
  end.
Definition uniqueViolation (c : string) : error := PgError "23505" c.
Definition foreignKeyViolation (c : string) : error := PgError "23503" c.

Definition attemptIndexChecks (db : PipelineDb) (a : AttemptRow) : list (bool * error) :=
  [(attemptConflict isConfirmed db a, uniqueViolation "send_attempts_confirmed_schedule_uk");
   (attemptConflict isBlocking db a, uniqueViolation "send_attempts_blocking_schedule_uk");
   (messageConflict db a, uniqueViolation "send_attempts_provider_message_uk")].
Definition checkInsertAttempt (a : AttemptRow) (db : PipelineDb) : option error :=
  let r := at_record a in
  refuse
    ([(existsb (λ a', bool_decide (at_id a' = at_id a)) (attempts db), uniqueViolation "send_attempts_pkey");
      (existsb (λ a', bool_decide (sa_sendFingerprint (at_record a') = sa_sendFingerprint r)) (attempts db),
        uniqueViolation "send_attempts_fingerprint_uk")] ++ attemptIndexChecks db a ++
     [(negb (bool_decide (is_Some (leads db !! sa_leadId r))),
        foreignKeyViolation "send_attempts_lead_id_fkey");
      (negb (existsb (λ s, bool_decide (sr_id s = sa_scheduleId r)) (schedules db)),
        foreignKeyViolation "send_attempts_schedule_id_fkey");
      (negb (bool_decide (sa_gmailDraftId r ∈ gmailDraftIds db)),
        foreignKeyViolation "send_attempts_gmail_draft_id_fkey");
      (negb (existsb (λ x, bool_decide (ra_id x = sa_readinessApprovalId r)) (readinessApprovals db)),
        foreignKeyViolation "send_attempts_readiness_approval_id_fkey")]).
Definition checkUpdateAttempt (id : string) (patch : list AttemptField) (db : PipelineDb) : option error :=
  match List.find (λ a, bool_decide (at_id a = id)) (attempts db) with
  | Some a => refuse (attemptIndexChecks db (patchAttempt patch a))
  | None => None
  end.

(** [suppression_list_scope_value_uk], which counts revoked rows too *)
Definition checkInsertSuppression (r : SuppressionRow) (db : PipelineDb) : option error :=
  refuse
    [(existsb (λ r', bool_decide (su_id r' = su_id r)) (suppressions db),
       uniqueViolation "suppression_list_pkey");
     (existsb (λ r', bool_decide (su_scope r' = su_scope r) && bool_decide (su_value r' = su_value r))
        (suppressions db), uniqueViolation "suppression_list_scope_value_uk")].

(** [send_schedules_active_uk] *)
Definition activeScheduleConflict (db : PipelineDb) (r : ScheduleRecord) : bool :=
  bool_decide (sc_status r = SCH_SCHEDULED) &&
  existsb (λ s, isActiveSchedule s && bool_decide (sc_gmailDraftId (sr_record s) = sc_gmailDraftId r))
    (schedules db).
Definition checkInsertSchedule (r : ScheduleRecord) (db : PipelineDb) : option error :=
  refuse
    [(existsb (λ s, bool_decide (sr_id s = sc_id r)) (schedules db), uniqueViolation "send_schedules_pkey");
     (activeScheduleConflict db r, uniqueViolation "send_schedules_active_uk");
     (negb (bool_decide (is_Some (leads db !! sc_leadId r))), foreignKeyViolation "send_schedules_lead_id_fkey");
     (negb (bool_decide (sc_gmailDraftId r ∈ gmailDraftIds db)),
       foreignKeyViolation "send_schedules_gmail_draft_id_fkey")].
Definition checkInsertPipelineEvent (id : string) (e : NewPipelineEvent) (db : PipelineDb) : option error :=
  refuse
    [(existsb (λ e', bool_decide (e'.1 = id)) (pipelineEvents db), uniqueViolation "pipeline_events_pkey");
     (match pe_leadId e with Some l => negb (bool_decide (is_Some (leads db !! l))) | None => false end,
       foreignKeyViolation "pipeline_events_lead_id_fkey");
     (match pe_runId e with Some r => negb (bool_decide (r ∈ runIds db)) | None => false end,
       foreignKeyViolation "pipeline_events_run_id_fkey")].

(** ** Repositories *)

Definition PM : Type → Type := M PipelineDb.

(** [ORDER BY key DESC LIMIT 1]; of rows with equal keys, the first one *)
Fixpoint latestBy {A} (key : A → Z) (l : list A) : option A :=
  match l with
  | [] => None
  | x :: l => match latestBy key l with
              | Some y => if key x <? key y then Some y else Some x
              | None => Some x
              end
  end.

(** The instants [start, end) of the UTC day of an instant *)
Definition utcDayStart (t : Z) : Z := dateUTC (getUTCFullYear t) (getUTCMonth t) (getUTCDate t) 0 0 0.
Definition inUtcDayOf (day : Z) (t : option Z) : bool :=
  match t with
  | Some t => (utcDayStart day <=? t) && (t <? utcDayStart day + 24 * 60 * 60000)
  | None => false
  end.
(** [COALESCE(reconciled_at, completed_at)] *)
Definition effectiveAt (a : AttemptRow) : option Z :=
  match at_reconciledAt a with Some t => Some t | None => sa_completedAt (at_record a) end.
Definition confirmedOnDay (account : string) (day : Z) (a : AttemptRow) : bool :=
  bool_decide (sa_gmailAccount (at_record a) = account) && isConfirmed a && inUtcDayOf day (effectiveAt a).
(** What counts against the daily cap when an attempt is reserved *)
Definition countsOnDay (account : string) (day : Z) (a : AttemptRow) : bool :=
  bool_decide (sa_gmailAccount (at_record a) = account) &&
  ((isConfirmed a && inUtcDayOf day (effectiveAt a)) ||
   (bool_decide (at_status a ∈ [RESERVED; CALL_STARTED]) &&
    inUtcDayOf day (Some (sa_reservedAt (at_record a)))) ||
   (bool_decide (at_status a = AT_OUTCOME_UNKNOWN) &&
    negb (bool_decide (at_reconciledOutcome a = Some CONFIRMED_NOT_SENT)) &&
    inUtcDayOf day (Some (sa_reservedAt (at_record a))))).

(** How the ORM surfaces an error of the database: drizzle-orm may hand on the
    driver's error, which has a [code], or wrap it in one that has none. *)
Class OrmErrors := { surfaced : error → error }.
Definition isUniqueViolation (e : error) : bool :=
  match e with PgError code _ => String.eqb code "23505" | _ => false end.

Inductive Reservation := Reserved | Duplicate | DailyCap.
Record SuppressionIdentity := {
  si_email : option string; si_domain : option string; si_phone : option string;
  si_placeId : option string;
}.
(** The (scope, value) pairs that an identity is looked up under *)
Definition suppressionKeys (identity : SuppressionIdentity) : list (SuppressionScope * string) :=
  let key (scope : SuppressionScope) (f : string → string) (v : option string) :=
    if truthy_opt v then [(scope, f (default "" v))] else [] in
  key SUP_email normalizeEmail (si_email identity) ++ key SUP_domain id (si_domain identity) ++
  key SUP_phone id (si_phone identity) ++ key SUP_place_id id (si_placeId identity).
Definition suppressionMatches (keys : list (SuppressionScope * string)) (r : SuppressionRow) : bool :=
  bool_decide (su_revokedAt r = None) && bool_decide ((su_scope r, su_value r) ∈ keys).

(** The queries of the send repository, as functions of the database.  The manual path
    reads the INTERACTIVE approvals, the automated one the SCHEDULED ones. *)
Definition readinessIn (source : ReadinessSource) (gmailAccount policyVersion : string)
    (db : PipelineDb) : option SendingReadinessRecord :=
  latestBy ra_approvedAt (List.filter (λ r,
    bool_decide (ra_gmailAccount r = gmailAccount) && bool_decide (ra_policyVersion r = policyVersion) &&
    bool_decide (ra_source r = source)) (readinessApprovals db)).
Definition suppressionsIn (identity : SuppressionIdentity) (db : PipelineDb) : list SuppressionScope :=
  match suppressionKeys identity with
  | [] => []
  | keys => uniq (map su_scope (List.filter (suppressionMatches keys) (suppressions db)))
  end.
Definition hasConfirmedIn (scheduleId : string) (db : PipelineDb) : bool :=
  existsb (λ a, bool_decide (at_scheduleId a = scheduleId) && isConfirmed a) (attempts db).
(** [hasBlockingAttempt], whose condition leaves the confirmed attempts to the other query *)
Definition hasBlockingIn (scheduleId : string) (db : PipelineDb) : bool :=
  existsb (λ a, bool_decide (at_scheduleId a = scheduleId) &&
    (bool_decide (at_status a ∈ [RESERVED; CALL_STARTED]) ||
     (bool_decide (at_status a = AT_OUTCOME_UNKNOWN) &&
      negb (bool_decide (at_reconciledOutcome a = Some CONFIRMED_NOT_SENT))))) (attempts db).
Definition lastFailureIn (scheduleId : string) (db : PipelineDb) : option Z :=
  latestBy id (omap effectiveAt (List.filter (λ a,
    bool_decide (at_scheduleId a = scheduleId) &&
    (bool_decide (at_status a = AT_DEFINITIVE_FAILURE) ||
     bool_decide (at_reconciledOutcome a = Some CONFIRMED_NOT_SENT))) (attempts db))).
Definition confirmedTodayIn (gmailAccount : string) (nowMs : Z) (db : PipelineDb) : Z :=
  Z.of_nat (length (List.filter (confirmedOnDay gmailAccount nowMs) (attempts db))).

Section repositories.
Context `{Runtime, OrmErrors}.

(** leads.repo.ts *)
Definition getLead (id : string) : PM (option Lead) := query (λ db, leads db !! id).
Definition createLeadRow (l : Lead) : PM () :=
  guarded (λ db, refuse
      [(bool_decide (is_Some (leads db !! ld_id l)), uniqueViolation "leads_pkey");
       (match ld_duplicateOf l with Some d => negb (bool_decide (is_Some (leads db !! d))) | None => false end,
         foreignKeyViolation "leads_duplicate_of_fkey")])
    (setLeads <[ld_id l := l]>).
Definition updateLeadStatus (id : string) (status : LeadStatus) (updatedAt : Z) : PM () :=
  modify (setLeads (alter (setLeadStatus status updatedAt) id)).

(** pipeline.repo.ts *)
Definition recordEvent (e : NewPipelineEvent) : PM () :=
  id ← randomUUID;
  guarded (checkInsertPipelineEvent id e) (setPipelineEvents (λ l, l ++ [(id, e)])).

(** schedule.repo.ts *)
Definition activeScheduledUtc : PM (list Z) :=
  query (λ db, map (λ r, sc_scheduledAtUtc (sr_record r)) (List.filter isActiveSchedule (schedules db))).
Definition activeForDraft (gmailDraftId : string) : PM (option ScheduleRecord) :=
  query (λ db, sr_record <$> List.find (λ r, bool_decide (sc_gmailDraftId (sr_record r) = gmailDraftId) &&
                                              isActiveSchedule r) (schedules db)).
Definition activeForLead (leadId : string) : PM (option ScheduleRecord) :=
  query (λ db, sr_record <$> latestBy sr_createdAt
    (List.filter (λ r, bool_decide (sc_leadId (sr_record r) = leadId) && isActiveSchedule r) (schedules db))).
(** The columns with defaults are filled in with the clock of the database. *)
Definition insertSchedule (row : ScheduleRecord) : PM () :=
  dbNow ← now;
  guarded (checkInsertSchedule row)
    (setSchedules (λ l, l ++ [{| sr_record := row; sr_createdAt := dbNow; sr_updatedAt := dbNow;
       sr_cancelledAt := None; sr_fulfilledAt := None; sr_invalidatedAt := None;
       sr_invalidationReason := None |}])).
Definition updateScheduleRow (id : string) (f : ScheduleRow → ScheduleRow) : PM () :=
  modify (setSchedules (map (λ r, if bool_decide (sr_id r = id) then f r else r))).
Definition supersedeSchedule (oldId newId : string) (nowD : Z) : PM () :=
  updateScheduleRow oldId (supersedeRow newId nowD).
Definition cancelSchedule (id : string) (reason : option string) (nowD : Z) : PM () :=
  updateScheduleRow id (cancelRow reason nowD).
Definition markScheduleFulfilled (scheduleId : string) (nowD : Z) : PM () :=
  updateScheduleRow scheduleId (fulfilRow nowD).
Definition invalidateSchedule (scheduleId reason : string) (nowD : Z) : PM () :=
  updateScheduleRow scheduleId (invalidateRow reason nowD).

(** send.repo.ts *)
Definition readiness (source : ReadinessSource) (gmailAccount policyVersion : string) :
    PM (option SendingReadinessRecord) := query (readinessIn source gmailAccount policyVersion).
Definition activeSuppressions (identity : SuppressionIdentity) : PM (list SuppressionScope) :=
  query (suppressionsIn identity).
Definition hasConfirmedAttempt (scheduleId : string) : PM bool := query (hasConfirmedIn scheduleId).
Definition hasBlockingAttempt (scheduleId : string) : PM bool := query (hasBlockingIn scheduleId).
Definition lastDefinitiveFailureAt (scheduleId : string) : PM (option Z) :=
  query (lastFailureIn scheduleId).
Definition confirmedSendsToday (gmailAccount : string) (nowMs : Z) : PM Z :=
  query (confirmedTodayIn gmailAccount nowMs).

Definition newAttempt (row : SendAttemptRecord) : AttemptRow :=
  {| at_record := row; at_reconciledOutcome := None; at_reconciledBy := None;
     at_reconciledAt := None; at_reconciliationNote := None |}.
(** The advisory lock makes the count and the insertion one step for an account and day. *)
Definition reserveAttempt (row : SendAttemptRecord) (dailyCap : Z) : PM Reservation :=
  transaction (
    counted ← query (λ db, Z.of_nat (length
      (List.filter (countsOnDay (sa_gmailAccount row) (sa_reservedAt row)) (attempts db))));
    if counted >=? dailyCap then mret DailyCap
    else
      refused ← query (checkInsertAttempt (newAttempt row));
      match refused with
      | None => modify (setAttempts (λ l, l ++ [newAttempt row])) ;; mret Reserved
      | Some e => if isUniqueViolation (surfaced e) then mret Duplicate else throw (surfaced e)
      end).
Definition completeAttempt (id : string) (patch : list AttemptField) : PM () :=
  guarded (checkUpdateAttempt id patch)
    (setAttempts (map (λ a, if bool_decide (at_id a = id) then patchAttempt patch a else a))).
End repositories.

(** ** LeadService: src/domain/leads/lead-service.ts *)

Section lead_service.
Context `{Runtime}.

Definition leadEvent (leadId : string) (type : PipelineEventType) (from to : option LeadStatus)
    (message : string) : NewPipelineEvent :=
  {| pe_leadId := Some leadId; pe_runId := None; pe_type := type; pe_fromStatus := from;
     pe_toStatus := to; pe_message := Some message; pe_data := JNull |}.
Definition leadTransition (leadId : string) (to : LeadStatus) : PM Lead :=
  lead ← getLead leadId;
  match lead with
  | None => throw (AppError "LEAD_NOT_FOUND" ("Lead not found: " +:+ leadId))
  | Some lead =>
      let from := ld_status lead in
      if negb (canTransition from to) then
        recordEvent (leadEvent leadId INVALID_TRANSITION (Some from) (Some to)
          ("Rejected invalid transition " +:+ leadStatusText from +:+ " -> " +:+ leadStatusText to)) ;;
        throw (invalidLeadTransition from to)
      else
        nowD ← now;
        updateLeadStatus leadId to nowD ;;
        recordEvent (leadEvent leadId STATE_TRANSITION (Some from) (Some to)
          (leadStatusText from +:+ " -> " +:+ leadStatusText to)) ;;
        mret (setLeadStatus to nowD lead)
  end.
(** [if (lead?.status === from) await leadService.transition(leadId, to)] *)
Definition transitionFrom (leadId : string) (from to : LeadStatus) : PM () :=
  lead ← getLead leadId;
  if bool_decide (ld_status <$> lead = Some from) then _ ← leadTransition leadId to; mret tt else mret tt.
Definition noteEvent (leadId : string) (runId : option string) (message : string) (data : json) :
    NewPipelineEvent :=
  {| pe_leadId := Some leadId; pe_runId := runId; pe_type := NOTE; pe_fromStatus := None;
     pe_toStatus := None; pe_message := Some message; pe_data := data |}.
End lead_service.
