(* ===== verification/Suppression.v ===== *)
(** * The suppression list

    src/persistence/repositories/suppression.repo.ts and
    src/domain/suppression/admin-service.ts: who must not be contacted, how a value is
    brought into its normal form, and how operators add and revoke entries. *)
From S2P Require Import Prelude.
From S2P Require Import JsText.
From S2P Require Import JsonText.
From S2P Require Import Regex.
From S2P Require Import LeadNormalize.
From S2P Require Import LeadLifecycle.
From S2P Require Import PipelineDb.
Open Scope string_scope.
Open Scope list_scope.

Definition suppressionScopeText (s : SuppressionScope) : string :=
  match s with
  | SUP_email => "email" | SUP_domain => "domain" | SUP_phone => "phone"
  | SUP_place_id => "place_id" | SUP_business => "business"
  end.
(** [scopeOf] of the command *)
Definition scopeOf (value : string) : res SuppressionScope :=
  match List.find (λ s, String.eqb (suppressionScopeText s) value)
          [SUP_email; SUP_domain; SUP_phone; SUP_place_id; SUP_business] with
  | Some s => Ok s
  | None => Throw (JsError "invalid_suppression_scope")
  end.

(** ** Normal forms *)

Definition is_alnum (c : ascii) : bool := is_lower c || is_digit c.
(** [(?:[a-z0-9](?:[a-z0-9-]{0,61}[a-z0-9])?\.)+[a-z]{2,63}] *)
Definition domainLabel : regex :=
  rSeq (rClass is_alnum)
    (rOpt (rSeq (rUpTo 61 (rClass (λ c, is_alnum c || bool_decide (c = "-"%char)))) (rClass is_alnum))).
Definition domainRe : regex :=
  rSeq (rPlus (rSeq domainLabel (rChar "."))) (rRep 2 61 (rClass is_lower)).
(** [\+?[0-9]{7,20}] *)
Definition phoneRe : regex := rSeq (rOpt (rChar "+")) (rRep 7 13 (rClass is_digit)).
(** [[A-Za-z0-9_-]{3,256}] *)
Definition placeIdRe : regex :=
  rRep 3 253 (rClass (λ c, is_upper c || is_alnum c || bool_decide (c ∈ ["_"; "-"]%char))).
(** [[\s().-]] *)
Definition phoneSeparator (c : ascii) : bool :=
  is_space c || bool_decide (c ∈ ["("; ")"; "."; "-"]%char).

Definition normalizeSuppressionValue (scope : SuppressionScope) (input : string) : res string :=
  let value := trim input in
  if negb (truthy value) then Throw (JsError "suppression_value_required")
  else
    match scope with
    | SUP_email =>
        let email := toLowerCase value in
        if email_re_test email then Ok email else Throw (JsError "invalid_suppression_email")
    | SUP_domain =>
        let domain := withoutPrefix "www." (dropPath (dropScheme (toLowerCase value))) in
        if re_test domainRe domain then Ok domain else Throw (JsError "invalid_suppression_domain")
    | SUP_phone =>
        let phone := filterString (λ c, negb (phoneSeparator c)) value in
        if re_test phoneRe phone then Ok phone else Throw (JsError "invalid_suppression_phone")
    | SUP_business =>
        match normalizeName (Some value) with
        | Some business =>
            if (300 <? utf16Length business)%nat then Throw (JsError "invalid_suppression_business")
            else Ok business
        | None => Throw (JsError "invalid_suppression_business")
        end
    | SUP_place_id =>
        if re_test placeIdRe value then Ok value else Throw (JsError "invalid_suppression_place_id")
    end.

Example normalize_values :
  [normalizeSuppressionValue SUP_email " Info@Praxis.DE "; normalizeSuppressionValue SUP_domain "https://www.praxis.de/kontakt";
   normalizeSuppressionValue SUP_phone "+44 (161) 496-0000"; normalizeSuppressionValue SUP_business "  Praxis  Dr. X";
   normalizeSuppressionValue SUP_place_id "ChIJ_1-2"; normalizeSuppressionValue SUP_domain "praxis";
   normalizeSuppressionValue SUP_domain "-a.de"] =
  [Ok "info@praxis.de"; Ok "praxis.de"; Ok "+441614960000"; Ok "praxis dr. x"; Ok "ChIJ_1-2";
   Throw (JsError "invalid_suppression_domain"); Throw (JsError "invalid_suppression_domain")].
Proof. vm_compute. reflexivity. Qed.

(** ** The repository *)

Definition isActive (r : SuppressionRow) : bool := bool_decide (su_revokedAt r = None).
Definition revokeRow (at_ : Z) (by_ reason : string) (r : SuppressionRow) : SuppressionRow :=
  {| su_id := su_id r; su_scope := su_scope r; su_value := su_value r; su_reason := su_reason r;
     su_createdBy := su_createdBy r; su_createdAt := su_createdAt r; su_revokedAt := Some at_;
     su_revokedBy := Some by_; su_revokeReason := Some reason |}.
Definition revocable (id : string) (r : SuppressionRow) : bool := bool_decide (su_id r = id) && isActive r.

(** An active row under one of the values of a scope *)
Definition suppressedUnder (scope : SuppressionScope) (values : list string) (db : PipelineDb) : bool :=
  existsb (λ r, bool_decide (su_scope r = scope) && bool_decide (su_value r ∈ values) && isActive r)
    (suppressions db).
Definition scopeValues (scope : SuppressionScope) (checks : list (SuppressionScope * string)) : list string :=
  map snd (List.filter (λ c, bool_decide (c.1 = scope)) checks).

(** A current fact of the lead that names it or its web site *)
Inductive IdentityFact := FactBusinessName (value : string) | FactWebsite (value : string).
Definition factCheck (f : IdentityFact) : list (SuppressionScope * string) :=
  match f with
  | FactBusinessName value =>
      match normalizeName (Some value) with Some name => [(SUP_business, name)] | None => [] end
  | FactWebsite value =>
      match normalizeSuppressionValue SUP_domain value with Ok d => [(SUP_domain, d)] | Throw _ => [] end
  end.
Definition columnCheck (scope : SuppressionScope) (v : option string) : list (SuppressionScope * string) :=
  if truthy_opt v then [(scope, default "" v)] else [].
(** What [isSuppressed] looks a lead up under, given the current identity facts of it *)
Definition leadChecks (l : Lead) (facts : list IdentityFact) : list (SuppressionScope * string) :=
  columnCheck SUP_business (ld_normalizedName l) ++ columnCheck SUP_domain (ld_normalizedDomain l) ++
  columnCheck SUP_phone (ld_normalizedPhone l) ++ columnCheck SUP_place_id (ld_placeId l) ++
  flat_map factCheck facts.
(** The scopes are queried in turn; one without values is passed over. *)
Definition suppressedIn (l : Lead) (facts : list IdentityFact) (db : PipelineDb) : bool :=
  let checks := leadChecks l facts in
  existsb (λ scope,
    match scopeValues scope checks with [] => false | values => suppressedUnder scope values db end)
    [SUP_business; SUP_domain; SUP_phone; SUP_place_id].

Record IdentityInput := { ii_placeId : option string; ii_businessName : option string; ii_websiteUrl : option string }.
(** [isIdentitySuppressed] throws on a malformed place id and ignores a malformed URL. *)
Definition identityValues (input : IdentityInput) : res (list (SuppressionScope * string)) :=
  let business := if truthy_opt (ii_businessName input)
    then factCheck (FactBusinessName (default "" (ii_businessName input))) else [] in
  let website := if truthy_opt (ii_websiteUrl input)
    then factCheck (FactWebsite (default "" (ii_websiteUrl input))) else [] in
  place ← (if truthy_opt (ii_placeId input)
    then v ← normalizeSuppressionValue SUP_place_id (default "" (ii_placeId input)); Ok [(SUP_place_id, v)]
    else Ok []);
  Ok (place ++ business ++ website).

Section repository.
Context `{Runtime}.

(** [add] of the repository normalizes what it is given; the columns with defaults are
    filled in with the clock of the database. *)
Definition addRow (scope : SuppressionScope) (value reason createdBy : string) : PM string :=
  id ← randomUUID;
  value ← lift_res (normalizeSuppressionValue scope value);
  dbNow ← now;
  let row := {| su_id := id; su_scope := scope; su_value := value; su_reason := Some reason;
                su_createdBy := createdBy; su_createdAt := dbNow; su_revokedAt := None;
                su_revokedBy := None; su_revokeReason := None |} in
  guarded (checkInsertSuppression row) (setSuppressions (λ l, l ++ [row])) ;;
  mret id.
Definition revoke (id by_ reason : string) (at_ : Z) : PM bool :=
  found ← query (λ db, List.filter (revocable id) (suppressions db));
  modify (setSuppressions (map (λ r, if revocable id r then revokeRow at_ by_ reason r else r))) ;;
  mret (length found =? 1)%nat.
Definition listRows (scope : option SuppressionScope) : PM (list SuppressionRow) :=
  query (λ db, sortBy (λ a b, su_createdAt a - su_createdAt b)%Z
    (List.filter (λ r, match scope with Some s => bool_decide (su_scope r = s) | None => true end)
       (suppressions db))).
Definition isIdentitySuppressed (input : IdentityInput) : PM bool :=
  values ← lift_res (identityValues input);
  query (λ db, existsb (λ c, suppressedUnder c.1 [c.2] db) values).
Definition isEmailSuppressed (email : string) : PM bool :=
  value ← lift_res (normalizeSuppressionValue SUP_email email);
  query (suppressedUnder SUP_email [value]).

(** ** The administration: every change is audited, and audited without the value. *)

Definition requireText (value err : string) : PM () :=
  if truthy (trim value) then mret tt else throw (JsError err).
Definition valueHash (scope : SuppressionScope) (value : string) : string :=
  sha256Hex (suppressionScopeText scope +:+ "|" +:+ value).
Definition previewHash (scope : SuppressionScope) (value : string) : res string :=
  v ← normalizeSuppressionValue scope value; Ok (valueHash scope v).
Definition auditNote (message : string) (data : json) : NewPipelineEvent :=
  {| pe_leadId := None; pe_runId := None; pe_type := NOTE; pe_fromStatus := None; pe_toStatus := None;
     pe_message := Some message; pe_data := data |}.

Definition addSuppression (scope : SuppressionScope) (value reason by_ : string) : PM string :=
  requireText reason "suppression_reason_required" ;;
  requireText by_ "operator_required" ;;
  normalized ← lift_res (normalizeSuppressionValue scope value);
  hash ← lift_res (previewHash scope normalized);
  id ← addRow scope normalized (trim reason) (trim by_);
  recordEvent (auditNote "suppression: ADDED"
    (JObj [("suppressionId", JStr id); ("scope", JStr (suppressionScopeText scope)); ("valueHash", JStr hash)])) ;;
  mret id.
Definition revokeSuppression (id reason by_ : string) : PM bool :=
  requireText id "suppression_id_required" ;;
  requireText reason "revoke_reason_required" ;;
  requireText by_ "operator_required" ;;
  at_ ← now;
  changed ← revoke (trim id) (trim by_) (trim reason) at_;
  (if changed : bool
   then recordEvent (auditNote "suppression: REVOKED" (JObj [("suppressionId", JStr (trim id))]))
   else mret tt) ;;
  mret changed.

Record RedactedSuppression := {
  rs_id : string; rs_scope : SuppressionScope; rs_valueHash : string; rs_active : bool;
  rs_createdAt : Z; rs_revokedAt : option Z;
}.
Definition redact (r : SuppressionRow) : res RedactedSuppression :=
  hash ← previewHash (su_scope r) (su_value r);
  Ok {| rs_id := su_id r; rs_scope := su_scope r; rs_valueHash := hash; rs_active := isActive r;
        rs_createdAt := su_createdAt r; rs_revokedAt := su_revokedAt r |}.
Definition listSuppressions (scope : option SuppressionScope) : PM (list RedactedSuppression) :=
  rows ← listRows scope;
  lift_res (mapM redact rows).

(** The commands run the change in one transaction, once the operator has typed the
    phrase that names it. *)
Definition addPhrase (scope : SuppressionScope) (hash : string) : string :=
  "ADD SUPPRESSION " +:+ suppressionScopeText scope +:+ " " +:+ String.substring 0 12 hash.
Definition addSuppressionCommand (tty : bool) (answer scope value reason by_ : string) : PM (option string) :=
  if negb tty then mret None
  else
    scope ← lift_res (scopeOf scope);
    hash ← lift_res (previewHash scope value);
    if bool_decide (answer = addPhrase scope hash)
    then id ← transaction (addSuppression scope value reason by_); mret (Some id)
    else mret None.
Definition revokeSuppressionCommand (tty : bool) (answer id reason by_ : string) : PM (option bool) :=
  if tty && bool_decide (answer = "REVOKE SUPPRESSION " +:+ id)
  then changed ← transaction (revokeSuppression id reason by_); mret (Some changed)
  else mret None.
End repository.
