(* ===== verification/SendGate.v ===== *)
(** * The sending gate: src/domain/send/eligibility.ts, envelope.ts and
    scheduled-send-authorization.ts, and the schedule's fingerprint

    The fail-closed conditions of a send, the hashes it is bound to, the comparison
    of the provider's draft with the approved envelope, and the bounded
    authorization of automated sends. *)
From S2P Require Import Prelude.
From S2P Require Import JsText.
From S2P Require Import TimeZone.
From S2P Require Import Scheduler.
From S2P Require Import LeadLifecycle.
From S2P Require Import PipelineDb.
Open Scope Z_scope.
Open Scope list_scope.

(** ** Fingerprints and envelopes *)

Record ScheduleBinding := {
  sb_leadId : string; sb_gmailDraftId : string; sb_providerDraftId : string;
  sb_finalizedContentHash : string; sb_recipientEmail : string; sb_scheduledAtUtcMs : Z;
  sb_rulesVersion : string;
}.
Record ApprovedEnvelope := {
  ae_gmailAccount : string; ae_recipientEmail : string; ae_subject : string;
  ae_finalizedContentHash : string; ae_scheduleId : string; ae_scheduledAtUtcMs : Z;
  ae_replyTo : option string;
}.
Record ProviderDraftEnvelope := {
  pv_fromName : string; pv_fromEmail : string; pv_to : list string; pv_cc : list string;
  pv_bcc : list string; pv_replyTo : option string; pv_subject : string; pv_body : string;
  pv_attachmentCount : Z;
}.

Definition joinBar : list string → string := join "|".

(** [replyTo ? normalizeEmail(replyTo) : null] *)
Definition normalizeReplyTo (r : option string) : option string :=
  if truthy_opt r then normalizeEmail <$> r else None.

Section hashes.
Context `{Runtime}.

Definition scheduleIntegrityFingerprint (b : ScheduleBinding) : string :=
  sha256Hex (joinBar [sb_leadId b; sb_gmailDraftId b; sb_providerDraftId b; sb_finalizedContentHash b;
                      sb_recipientEmail b; pretty (sb_scheduledAtUtcMs b); sb_rulesVersion b]).
Definition recipientHash (email : string) : string :=
  sha256Hex ("recipient|" +:+ normalizeEmail email).
Definition approvedEnvelopeHash (e : ApprovedEnvelope) : string :=
  sha256Hex (joinBar [normalizeEmail (ae_gmailAccount e); normalizeEmail (ae_recipientEmail e);
    ae_subject e; ae_finalizedContentHash e; default "" (normalizeReplyTo (ae_replyTo e));
    ae_scheduleId e; pretty (ae_scheduledAtUtcMs e)]).
Definition sendFingerprint (scheduleId gmailDraftId envelopeHash readinessApprovalId : string) : string :=
  sha256Hex (joinBar [scheduleId; gmailDraftId; envelopeHash; readinessApprovalId]).
Definition confirmationFingerprint (envelopeHash confirmedBy observedEnvelopeHash : string) : string :=
  sha256Hex (joinBar [envelopeHash; confirmedBy; observedEnvelopeHash]).
Definition preflightProofHash (sendFp observedEnvelopeHash : string) (checkedAtMs : Z) : string :=
  sha256Hex (joinBar ["preflight-v1"; sendFp; observedEnvelopeHash; pretty checkedAtMs]).
End hashes.

(** What is hashed of a draft *)
Definition providerEnvelopeForm `{Runtime} (e : ProviderDraftEnvelope) : json :=
  JObj [("fromName", JStr (pv_fromName e)); ("fromEmail", JStr (normalizeEmail (pv_fromEmail e)));
        ("to", JArr (map (λ a, JStr (normalizeEmail a)) (pv_to e)));
        ("cc", JArr (map (λ a, JStr (normalizeEmail a)) (pv_cc e)));
        ("bcc", JArr (map (λ a, JStr (normalizeEmail a)) (pv_bcc e)));
        ("replyTo", json_opt (normalizeReplyTo (pv_replyTo e)));
        ("subject", JStr (pv_subject e)); ("bodyHash", JStr (sha256Hex (pv_body e)));
        ("attachmentCount", JNum (pv_attachmentCount e))].
Definition providerEnvelopeHash `{Runtime} (e : ProviderDraftEnvelope) : string :=
  sha256Hex (stringify (providerEnvelopeForm e)).

(** ** The tokens of a body: src/domain/gmail/mime.ts *)

Definition SENDER_NAME_TOKEN : string := "{{SENDER_NAME}}".
(** [body.split(token).join(name)]: the non-overlapping occurrences from the left are
    replaced; [skip] counts the characters of a token still to be dropped. *)
Fixpoint replaceToken (token name : string) (skip : nat) (body : string) : string :=
  match body with
  | "" => ""
  | String c body' =>
      match skip with
      | S skip => replaceToken token name skip body'
      | O => if startsWith body token
             then name +:+ replaceToken token name (String.length token - 1) body'
             else String c (replaceToken token name 0 body')
      end
  end.
Definition resolveSenderName (body senderName : string) : string :=
  replaceToken SENDER_NAME_TOKEN senderName 0 body.

Definition tokenChar (c : ascii) : bool :=
  let n := char_code c in
  ((65 <=? n) && (n <=? 90))%nat || ((97 <=? n) && (n <=? 122))%nat ||
  ((48 <=? n) && (n <=? 57))%nat || (n =? 95)%nat.
(** Of [[A-Za-z0-9_]+\}\}]: [seen] tells that a character of the name was read. *)
Fixpoint tokenTail (seen : bool) (s : string) : bool :=
  match s with
  | "" => false
  | String c s' => if tokenChar c then tokenTail true s' else seen && startsWith s "}}"
  end.
(** [/\{\{[A-Za-z0-9_]+\}\}/.test(s)] *)
Fixpoint hasUnresolvedTokens (s : string) : bool :=
  match s with
  | "" => false
  | String c s' =>
      (startsWith s "{{" && match s' with String _ s'' => tokenTail false s'' | "" => false end) ||
      hasUnresolvedTokens s'
  end.
Example unresolved_tokens :
  map hasUnresolvedTokens ["Hi {{NAME}}"; "{{}}"; "{{{A_1}}"; "{{a b}}"; "{{DEMO_URL"] =
  [true; false; true; false; false].
Proof. vm_compute. reflexivity. Qed.

Definition expectedDraftEnvelope (senderName senderEmail recipientEmail subject resolvedBody : string)
    (replyTo : option string) : res ProviderDraftEnvelope :=
  let body := resolveSenderName resolvedBody senderName in
  if hasUnresolvedTokens body then Throw (JsError "approved email contains unresolved tokens")
  else Ok {| pv_fromName := senderName; pv_fromEmail := normalizeEmail senderEmail;
             pv_to := [normalizeEmail recipientEmail]; pv_cc := []; pv_bcc := [];
             pv_replyTo := normalizeReplyTo replyTo;
             pv_subject := subject; pv_body := body; pv_attachmentCount := 0 |}.

Definition neq (a b : string) : bool := negb (bool_decide (a = b)).
Definition when (b : bool) (reason : string) : list string := if b then [reason] else [].

Definition compareProviderEnvelope (expected actual : ProviderDraftEnvelope) : list string :=
  let first (l : list string) := normalizeEmail (default "" (head l)) in
  when (neq (pv_fromName actual) (pv_fromName expected)) "sender_name_changed" ++
  when (neq (normalizeEmail (pv_fromEmail actual)) (normalizeEmail (pv_fromEmail expected))) "sender_changed" ++
  when (negb (length (pv_to actual) =? 1)%nat || neq (first (pv_to actual)) (first (pv_to expected)))
    "recipient_changed" ++
  when (0 <? length (pv_cc actual))%nat "unexpected_cc" ++
  when (0 <? length (pv_bcc actual))%nat "unexpected_bcc" ++
  when (negb (bool_decide (normalizeReplyTo (pv_replyTo actual) = normalizeReplyTo (pv_replyTo expected))))
    "reply_to_changed" ++
  when (negb (pv_attachmentCount actual =? 0)) "unexpected_attachment" ++
  when (neq (pv_subject actual) (pv_subject expected)) "subject_changed" ++
  when (neq (pv_body actual) (pv_body expected)) "body_changed".

(** ** The eligibility of a send *)

Record ScheduleView := {
  sv_id : string; sv_status : string; sv_gmailDraftId : string; sv_providerDraftId : string;
  sv_finalizedContentHash : string; sv_recipientEmail : string; sv_scheduledAtUtcMs : Z;
  sv_rulesVersion : string; sv_storedIntegrityFingerprint : string;
}.
Record ReadinessView := {
  rv_id : string; rv_gmailAccount : string; rv_policyVersion : string; rv_approvedAtMs : Z;
  rv_expiresAtMs : Z; rv_revoked : bool;
}.
Record ConfirmationView := {
  cf_observedSendFingerprint : string; cf_confirmedBy : string; cf_confirmedAtMs : Z;
}.
Record SendEligibilitySnapshot := {
  ss_leadStatus : string; ss_schedule : option ScheduleView;
  ss_recomputedIntegrityFingerprint : option string;
  ss_currentGmailDraft : option (string * option string);
  ss_currentFinalizedContentHash : option string; ss_currentRecipientEmail : option string;
  ss_finalizationApproved : bool; ss_draftBindingValid : bool; ss_gmailAccountMatches : bool;
  ss_draftRecipientMatches : bool; ss_recipientSuppressed : bool;
  ss_readiness : option ReadinessView; ss_confirmation : option ConfirmationView;
  ss_approvedEnvelopeHash : string; ss_expectedSendFingerprint : string;
  ss_configGmailAccount : string; ss_configPolicyVersion : string; ss_sendingEnabled : bool;
  ss_outboundActionsEnabled : bool; ss_dryRun : bool; ss_nowMs : Z; ss_maxLateMs : Z;
  ss_confirmationTtlMs : Z; ss_hasConfirmedAttempt : bool; ss_hasBlockingAttempt : bool;
  ss_lastDefinitiveFailureAtMs : option Z; ss_confirmedSendsToday : Z; ss_dailyCap : Z;
}.
Record SendEligibilityResult := {
  el_eligible : bool; el_reasons : list string; el_bindingInvalid : bool; el_notDue : bool;
  el_tooLate : bool; el_suppressed : bool; el_alreadySent : bool; el_blocked : bool;
  el_flagsOnly : bool;
}.

Section eligibility.
Context (s : SendEligibilitySnapshot) (requireConfirmation : bool).

Definition flagReasons : list string :=
  when (negb (ss_sendingEnabled s)) "sending_disabled" ++
  when (negb (ss_outboundActionsEnabled s)) "outbound_actions_disabled" ++
  when (ss_dryRun s) "dry_run_enabled".
Definition scheduleReasons : list string :=
  match ss_schedule s with
  | None => ["no_active_schedule"]
  | Some sch => when (neq (sv_status sch) "SCHEDULED") ("schedule_not_active:" +:+ sv_status sch)
  end.
Definition draftReasons : list string :=
  match ss_currentGmailDraft s with
  | None => ["no_gmail_draft"]
  | Some (outcome, providerDraftId) =>
      when (neq outcome "DRAFT_CREATED") ("gmail_draft_not_created:" +:+ outcome) ++
      when (negb (truthy_opt providerDraftId)) "no_provider_draft_id"
  end.
Definition recipientReasons : list string :=
  if negb (truthy_opt (ss_currentRecipientEmail s)) then ["no_verified_recipient"]
  else when (negb (email_re_test (default "" (ss_currentRecipientEmail s)))) "recipient_not_valid_email".
Definition isBindingInvalid : bool :=
  match ss_schedule s with
  | None => false
  | Some sch => negb (bool_decide (ss_recomputedIntegrityFingerprint s = Some (sv_storedIntegrityFingerprint sch)))
  end.
Definition readinessReasons : list string :=
  match ss_readiness s with
  | None => ["no_sending_readiness"]
  | Some r =>
      when (rv_revoked r) "readiness_revoked" ++
      when (neq (normalizeEmail (rv_gmailAccount r)) (normalizeEmail (ss_configGmailAccount s)))
        "readiness_account_mismatch" ++
      when (neq (rv_policyVersion r) (ss_configPolicyVersion s)) "readiness_policy_mismatch" ++
      when (ss_nowMs s <? rv_approvedAtMs r) "readiness_in_future" ++
      when (rv_expiresAtMs r <=? ss_nowMs s) "readiness_expired" ++
      when (match ss_lastDefinitiveFailureAtMs s with Some f => rv_approvedAtMs r <=? f | None => false end)
        "fresh_readiness_required"
  end.
Definition confirmationReasons : list string :=
  if negb requireConfirmation then [] else
  match ss_confirmation s with
  | None => ["no_confirmation"]
  | Some c =>
      when (neq (cf_observedSendFingerprint c) (ss_expectedSendFingerprint s))
        "confirmation_fingerprint_mismatch" ++
      (if ss_nowMs s <? cf_confirmedAtMs c then ["confirmation_in_future"]
       else when (ss_confirmationTtlMs s <? ss_nowMs s - cf_confirmedAtMs c) "confirmation_expired")
  end.
Definition isNotDue : bool :=
  match ss_schedule s with Some sch => ss_nowMs s <? sv_scheduledAtUtcMs sch | None => false end.
Definition isTooLate : bool :=
  match ss_schedule s with
  | Some sch => negb (ss_nowMs s <? sv_scheduledAtUtcMs sch) &&
                (ss_maxLateMs s <? ss_nowMs s - sv_scheduledAtUtcMs sch)
  | None => false
  end.
Definition sendReasons : list string :=
  when (ss_dailyCap s <=? ss_confirmedSendsToday s) "daily_cap_reached" ++ flagReasons ++
  when (neq (ss_leadStatus s) "SCHEDULED") ("lead_not_scheduled:" +:+ ss_leadStatus s) ++
  scheduleReasons ++ draftReasons ++
  when (negb (truthy_opt (ss_currentFinalizedContentHash s))) "no_finalized_content_hash" ++
  when (negb (ss_finalizationApproved s)) "finalized_email_not_approved" ++
  when (negb (ss_draftBindingValid s)) "draft_finalization_mismatch" ++
  when (negb (ss_gmailAccountMatches s)) "gmail_account_mismatch" ++
  when (negb (ss_draftRecipientMatches s)) "draft_recipient_mismatch" ++ recipientReasons ++
  when isBindingInvalid "binding_invalidated" ++
  when (ss_recipientSuppressed s) "recipient_suppressed" ++ readinessReasons ++ confirmationReasons ++
  when isNotDue "not_due" ++ when isTooLate "too_late".

Definition base (eligible alreadySent blocked : bool) (reasons : list string) : SendEligibilityResult :=
  {| el_eligible := eligible; el_reasons := reasons; el_bindingInvalid := false; el_notDue := false;
     el_tooLate := false; el_suppressed := false; el_alreadySent := alreadySent;
     el_blocked := blocked; el_flagsOnly := false |}.
Definition checkSendEligibility : SendEligibilityResult :=
  if ss_hasConfirmedAttempt s then base false true false ["already_sent"]
  else if ss_hasBlockingAttempt s then base false false true ["blocking_attempt_exists"]
  else
    let reasons := sendReasons in
    let eligible := (length reasons =? 0)%nat in
    {| el_eligible := eligible; el_reasons := reasons; el_bindingInvalid := isBindingInvalid;
       el_notDue := isNotDue; el_tooLate := isTooLate; el_suppressed := ss_recipientSuppressed s;
       el_alreadySent := false; el_blocked := false;
       el_flagsOnly := negb eligible && forallb (λ r, bool_decide (r ∈ flagReasons)) reasons |}.
End eligibility.

(** ** Automated sends: the authorization *)

Definition SCHEDULED_SEND_AUTH_MAX_DAYS : Z := 14.
Definition SCHEDULED_SEND_AUTH_MAX_MS : Z := SCHEDULED_SEND_AUTH_MAX_DAYS * 24 * 60 * 60000.
Record ScheduledSendAuthorization := {
  au_id : string; au_gmailAccount : string; au_policyVersion : string; au_startsAt : Z;
  au_expiresAt : Z; au_maxPerDay : Z; au_createdBy : string; au_revokedAt : option Z;
}.
Inductive AuthorizationInvalidReason :=
  | au_revoked | au_not_started | au_expired | au_account_mismatch | au_policy_mismatch
  | au_exceeds_max_lifetime | au_invalid_cap.
Definition whenA (b : bool) (r : AuthorizationInvalidReason) : list AuthorizationInvalidReason :=
  if b then [r] else [].
(** [maxPerDay] is an integer column, so [Number.isInteger] holds of it. *)
Definition authorizationInvalidReasons (auth : ScheduledSendAuthorization) (nowMs : Z)
    (gmailAccount policyVersion : string) : list AuthorizationInvalidReason :=
  whenA (bool_decide (is_Some (au_revokedAt auth))) au_revoked ++
  whenA (nowMs <? au_startsAt auth) au_not_started ++
  whenA (au_expiresAt auth <=? nowMs) au_expired ++
  whenA (neq (normalizeEmail (au_gmailAccount auth)) (normalizeEmail gmailAccount)) au_account_mismatch ++
  whenA (neq (au_policyVersion auth) policyVersion) au_policy_mismatch ++
  whenA (SCHEDULED_SEND_AUTH_MAX_MS <? au_expiresAt auth - au_startsAt auth) au_exceeds_max_lifetime ++
  whenA (au_maxPerDay auth <? 1) au_invalid_cap.
Definition isAuthorizationValid (auth : ScheduledSendAuthorization) (nowMs : Z)
    (gmailAccount policyVersion : string) : bool :=
  (length (authorizationInvalidReasons auth nowMs gmailAccount policyVersion) =? 0)%nat.

(** A number given by the operator: an integer, or one that is not *)
Inductive CapInput := IntegerCap (n : Z) | FractionalCap.
Record NewAuthorizationInput := {
  na_gmailAccount : string; na_policyVersion : string; na_createdBy : string; na_startsAtMs : Z;
  na_expiresAtMs : Z; na_maxPerDay : CapInput;
}.
Definition validateNewAuthorization (input : NewAuthorizationInput) : list string :=
  when (negb (truthy (trim (na_gmailAccount input)))) "gmail_account_required" ++
  when (negb (truthy (trim (na_policyVersion input)))) "policy_version_required" ++
  when (negb (truthy (trim (na_createdBy input)))) "created_by_required" ++
  when (na_expiresAtMs input <=? na_startsAtMs input) "expiry_must_be_after_start" ++
  when (SCHEDULED_SEND_AUTH_MAX_MS <? na_expiresAtMs input - na_startsAtMs input)
    ("lifetime_exceeds_" +:+ pretty SCHEDULED_SEND_AUTH_MAX_DAYS +:+ "_days") ++
  when (match na_maxPerDay input with IntegerCap n => n <? 1 | FractionalCap => true end)
    "max_per_day_must_be_positive_integer".

(** ** What the gate guarantees *)

Lemma when_nil b r : when b r = [] ↔ b = false.
Proof. by destruct b. Qed.
Lemma whenA_nil b r : whenA b r = [] ↔ b = false.
Proof. by destruct b. Qed.
Lemma neq_false a b : neq a b = false ↔ a = b.
Proof. unfold neq. rewrite negb_false_iff. apply bool_decide_eq_true. Qed.
Lemma length_eqb_0 {A} (l : list A) : (length l =? 0)%nat = true ↔ l = [].
Proof. by destruct l. Qed.
Lemma app_nil_iff {A} (l1 l2 : list A) : l1 ++ l2 = [] ↔ l1 = [] ∧ l2 = [].
Proof. destruct l1; naive_solver. Qed.

(** Everything that must hold for one email to go out *)
Record mayBeSent (s : SendEligibilitySnapshot) (sch : ScheduleView) (r : ReadinessView) : Prop := {
  ms_switches : ss_sendingEnabled s = true ∧ ss_outboundActionsEnabled s = true ∧ ss_dryRun s = false;
  ms_attempts : ss_hasConfirmedAttempt s = false ∧ ss_hasBlockingAttempt s = false;
  ms_cap : ss_confirmedSendsToday s < ss_dailyCap s;
  ms_lead : ss_leadStatus s = "SCHEDULED";
  ms_schedule : ss_schedule s = Some sch ∧ sv_status sch = "SCHEDULED";
  ms_binding : ss_recomputedIntegrityFingerprint s = Some (sv_storedIntegrityFingerprint sch);
  ms_window : sv_scheduledAtUtcMs sch <= ss_nowMs s <= sv_scheduledAtUtcMs sch + ss_maxLateMs s;
  ms_draft : ∃ providerDraftId, ss_currentGmailDraft s = Some ("DRAFT_CREATED", Some providerDraftId) ∧
    providerDraftId ≠ "";
  ms_content : truthy_opt (ss_currentFinalizedContentHash s) = true ∧ ss_finalizationApproved s = true ∧
    ss_draftBindingValid s = true ∧ ss_gmailAccountMatches s = true ∧ ss_draftRecipientMatches s = true;
  ms_recipient : ∃ email, ss_currentRecipientEmail s = Some email ∧ email_re_test email = true ∧
    email ≠ "" ∧ ss_recipientSuppressed s = false;
  ms_readiness : ss_readiness s = Some r ∧ rv_revoked r = false ∧
    normalizeEmail (rv_gmailAccount r) = normalizeEmail (ss_configGmailAccount s) ∧
    rv_policyVersion r = ss_configPolicyVersion s ∧ rv_approvedAtMs r <= ss_nowMs s < rv_expiresAtMs r ∧
    ∀ f, ss_lastDefinitiveFailureAtMs s = Some f → f < rv_approvedAtMs r;
}.
Definition confirmed (s : SendEligibilitySnapshot) : Prop :=
  ∃ c, ss_confirmation s = Some c ∧ cf_observedSendFingerprint c = ss_expectedSendFingerprint s ∧
    cf_confirmedAtMs c <= ss_nowMs s <= cf_confirmedAtMs c + ss_confirmationTtlMs s.

Lemma confirmationReasons_nil s required :
  confirmationReasons s required = [] ↔ (required = true → confirmed s).
Proof.
  unfold confirmationReasons, confirmed. destruct required; simpl; [|by split].
  destruct (ss_confirmation s) as [c|]; [|split; [done|]; intros Hc; by destruct (Hc eq_refl) as (? & ? & _)].
  rewrite app_nil_iff, when_nil, neq_false.
  destruct (ss_nowMs s <? _) eqn:E; [apply Z.ltb_lt in E|apply Z.ltb_ge in E; rewrite when_nil, Z.ltb_ge].
  - split; [by intros [_ ?]|]. intros Hc. destruct (Hc eq_refl) as (c' & [= <-] & _ & ?). lia.
  - split; [intros [? ?] _; exists c; split_and!; (done || lia)|].
    intros Hc. destruct (Hc eq_refl) as (c' & [= <-] & ? & ?). split; [done|lia].
Qed.
Lemma readinessReasons_nil s r :
  ss_readiness s = Some r →
  readinessReasons s = [] ↔ rv_revoked r = false ∧
    normalizeEmail (rv_gmailAccount r) = normalizeEmail (ss_configGmailAccount s) ∧
    rv_policyVersion r = ss_configPolicyVersion s ∧ rv_approvedAtMs r <= ss_nowMs s < rv_expiresAtMs r ∧
    ∀ f, ss_lastDefinitiveFailureAtMs s = Some f → f < rv_approvedAtMs r.
Proof.
  intros Hr. unfold readinessReasons. rewrite Hr, !app_nil_iff, !when_nil, !neq_false, Z.ltb_ge, Z.leb_gt.
  assert (∀ o, (match o with Some f => rv_approvedAtMs r <=? f | None => false end) = false ↔
    (∀ f, o = Some f → f < rv_approvedAtMs r)) as ->.
  { intros [f|]; [rewrite Z.leb_gt|]; naive_solver. }
  naive_solver.
Qed.

Lemma eligible_reasons s required :
  el_eligible (checkSendEligibility s required) = true ↔
  ss_hasConfirmedAttempt s = false ∧ ss_hasBlockingAttempt s = false ∧ sendReasons s required = [].
Proof.
  unfold checkSendEligibility. destruct (ss_hasConfirmedAttempt s), (ss_hasBlockingAttempt s); simpl;
    rewrite ?length_eqb_0; naive_solver.
Qed.
Lemma sendReasons_nil s required :
  sendReasons s required = [] ↔
  ss_confirmedSendsToday s < ss_dailyCap s ∧
  (ss_sendingEnabled s = true ∧ ss_outboundActionsEnabled s = true ∧ ss_dryRun s = false) ∧
  ss_leadStatus s = "SCHEDULED" ∧ scheduleReasons s = [] ∧ draftReasons s = [] ∧
  truthy_opt (ss_currentFinalizedContentHash s) = true ∧ ss_finalizationApproved s = true ∧
  ss_draftBindingValid s = true ∧ ss_gmailAccountMatches s = true ∧ ss_draftRecipientMatches s = true ∧
  recipientReasons s = [] ∧ isBindingInvalid s = false ∧ ss_recipientSuppressed s = false ∧
  readinessReasons s = [] ∧ (required = true → confirmed s) ∧ isNotDue s = false ∧ isTooLate s = false.
Proof.
  unfold sendReasons, flagReasons.
  by rewrite !app_nil_iff, !when_nil, confirmationReasons_nil, !negb_false_iff, neq_false, Z.leb_gt.
Qed.

Lemma eligible_sound s required :
  el_eligible (checkSendEligibility s required) = true →
  (∃ sch r, mayBeSent s sch r) ∧ (required = true → confirmed s).
Proof.
  rewrite eligible_reasons, sendReasons_nil.
  unfold isBindingInvalid, isNotDue, isTooLate, scheduleReasons, draftReasons, recipientReasons.
  intros (Hc & Hb & Hcap & (Hse & Hoa & Hdr) & Hlead & Hsch & Hdraft & Hhash & Hfin & Hbind & Hacc & Hrec &
    Hrcpt & Hinv & Hsup & Hready & Hconf & Hdue & Hlate).
  split; [|exact Hconf].
  destruct (ss_schedule s) as [sch|] eqn:Esch; [|done].
  destruct (ss_readiness s) as [r|] eqn:Er; [|by unfold readinessReasons in Hready; rewrite Er in Hready].
  destruct (ss_currentGmailDraft s) as [[outcome prov]|] eqn:Edraft; [|done].
  rewrite app_nil_iff, !when_nil, neq_false, negb_false_iff, truthy_opt_spec in Hdraft.
  destruct Hdraft as (-> & prov' & -> & Hprov).
  destruct (truthy_opt (ss_currentRecipientEmail s)) eqn:Ercpt; [|done]. simpl in Hrcpt.
  apply truthy_opt_spec in Ercpt as (email & Eemail & Hne). rewrite Eemail in Hrcpt.
  rewrite when_nil, negb_false_iff in Hrcpt. rewrite when_nil, neq_false in Hsch.
  rewrite negb_false_iff, bool_decide_eq_true in Hinv. apply Z.ltb_ge in Hdue.
  assert (ss_maxLateMs s <? ss_nowMs s - sv_scheduledAtUtcMs sch = false) as Hwin.
  { by rewrite (proj2 (Z.ltb_ge _ _) Hdue) in Hlate. }
  apply Z.ltb_ge in Hwin. apply (readinessReasons_nil s r Er) in Hready.
  exists sch, r. constructor; eauto 10; lia.
Qed.
Lemma eligible_complete s required sch r :
  mayBeSent s sch r → (required = true → confirmed s) →
  el_eligible (checkSendEligibility s required) = true.
Proof.
  intros [(Hse & Hoa & Hdr) [Hc Hb] Hcap Hlead (Esch & Hst) Hbind (Hdue & Hlate) (prov & Edraft & Hprov)
    (Hhash & Hfin & Hdb & Hacc & Hrec) (email & Eemail & Hre & Hne & Hsup) Hready] Hconf.
  destruct Hready as (Er & Hready). pose proof (proj2 (readinessReasons_nil s r Er) Hready) as Hnil.
  assert (truthy_opt (Some email) = true) as Ht by (apply truthy_opt_spec; eauto).
  assert (truthy_opt (Some prov) = true) as Hp by (apply truthy_opt_spec; eauto).
  rewrite eligible_reasons, sendReasons_nil.
  unfold isBindingInvalid, isNotDue, isTooLate, scheduleReasons, draftReasons, recipientReasons.
  rewrite Esch, Edraft, Eemail, app_nil_iff, !when_nil, neq_false, negb_false_iff, Ht, Hp. simpl.
  rewrite when_nil, negb_false_iff, neq_false, negb_false_iff, Hst, Hbind, bool_decide_eq_true.
  rewrite (proj2 (Z.ltb_ge _ _) Hdue). simpl. rewrite Z.ltb_ge. split_and!; (done || lia).
Qed.

(** The sending gate is fail-closed and complete: a draft is eligible exactly when
    the kill switches are armed, the daily cap leaves room, no attempt confirmed or
    blocking exists, lead and schedule are SCHEDULED, the binding is unchanged, the
    approved content goes to a valid and unsuppressed recipient from the right
    account, the instant is within the window, a fresh readiness approval is valid
    and, where required, the operator confirmed this very envelope just now. *)
Theorem checkSendEligibility_iff s required :
  el_eligible (checkSendEligibility s required) = true ↔
  (∃ sch r, mayBeSent s sch r) ∧ (required = true → confirmed s).
Proof.
  split; [apply eligible_sound|]. intros [(sch & r & Hs) Hc]. by eapply eligible_complete.
Qed.

(** The provider's draft is the approved one, up to the case and the surrounding
    blanks of its addresses. *)
Record sameEnvelope (expected actual : ProviderDraftEnvelope) : Prop := {
  se_from : pv_fromName actual = pv_fromName expected ∧
    normalizeEmail (pv_fromEmail actual) = normalizeEmail (pv_fromEmail expected);
  se_to : ∃ to, pv_to actual = [to] ∧
    normalizeEmail to = normalizeEmail (default "" (head (pv_to expected)));
  se_others : pv_cc actual = [] ∧ pv_bcc actual = [] ∧
    normalizeReplyTo (pv_replyTo actual) = normalizeReplyTo (pv_replyTo expected);
  se_content : pv_subject actual = pv_subject expected ∧ pv_body actual = pv_body expected ∧
    pv_attachmentCount actual = 0;
}.

Lemma nonempty_ltb {A} (l : list A) : (0 <? length l)%nat = false ↔ l = [].
Proof. by destruct l. Qed.

Lemma compare_sound expected actual :
  compareProviderEnvelope expected actual = [] → sameEnvelope expected actual.
Proof.
  unfold compareProviderEnvelope.
  rewrite !app_nil_iff, !when_nil, !neq_false, orb_false_iff, neq_false, !negb_false_iff, !nonempty_ltb,
    bool_decide_eq_true, Z.eqb_eq, Nat.eqb_eq.
  intros (? & ? & (Hlen & Hto) & ? & ? & ? & ? & ? & ?).
  destruct (pv_to actual) as [|to [|]] eqn:E; try done. constructor; rewrite ?E; eauto.
Qed.

(** What is dispatched is what was approved: the comparison of the provider's
    draft with the approved envelope reports no problem exactly when sender, the
    single recipient, reply-to, subject and body are the approved ones and there
    is no copy, blind copy or attachment. *)
Theorem compareProviderEnvelope_iff expected actual :
  compareProviderEnvelope expected actual = [] ↔ sameEnvelope expected actual.
Proof.
  split; [apply compare_sound|]. intros [(?&?) (to & Hto & Heq) (?&?&?) (?&?&?)].
  unfold compareProviderEnvelope.
  rewrite !app_nil_iff, !when_nil, !neq_false, orb_false_iff, neq_false, !negb_false_iff, !nonempty_ltb,
    bool_decide_eq_true, Z.eqb_eq, Nat.eqb_eq, Hto. simpl. auto 10.
Qed.

(** Automated sending is bounded: an authorization that is valid now has at most
    14 days from its start to its end, lies within them, is for exactly this account
    and policy, has not been revoked and allows at least one send a day; it stops
    being valid at its end, at the latest 14 days after its start. *)
Theorem isAuthorizationValid_iff auth nowMs account policy :
  isAuthorizationValid auth nowMs account policy = true ↔
  au_revokedAt auth = None ∧ au_startsAt auth <= nowMs < au_expiresAt auth ∧
  au_expiresAt auth <= au_startsAt auth + 14 * 86400000 ∧
  normalizeEmail (au_gmailAccount auth) = normalizeEmail account ∧ au_policyVersion auth = policy ∧
  1 <= au_maxPerDay auth.
Proof.
  unfold isAuthorizationValid, authorizationInvalidReasons, SCHEDULED_SEND_AUTH_MAX_MS,
    SCHEDULED_SEND_AUTH_MAX_DAYS.
  rewrite length_eqb_0, !app_nil_iff, !whenA_nil, !neq_false, bool_decide_eq_false,
    eq_None_not_Some, !Z.ltb_ge, Z.leb_gt.
  split; intros; destruct_and!; split_and!; (done || lia).
Qed.

(** ** The binding of a schedule and of an envelope *)

(** No field but the one in the middle contains the separator. *)
Definition barFree (s : string) : Prop := string_exists (λ c, bool_decide (c = "|"%char)) s = false.

Lemma bar_split a a' r r' :
  barFree a → barFree a' → a +:+ String "|" r = a' +:+ String "|" r' → a = a' ∧ r = r'.
Proof.
  unfold barFree. revert a'. induction a as [|c a IH]; intros [|c' a']; simpl.
  - by intros _ _ [= ->].
  - intros _ [Ha' _]%orb_false_iff E. injection E as <- _. by apply bool_decide_eq_false in Ha'.
  - intros [Ha _]%orb_false_iff _ E. injection E as -> _. by apply bool_decide_eq_false in Ha.
  - intros [_ Ha]%orb_false_iff [_ Ha']%orb_false_iff E. injection E as <- E.
    destruct (IH a' Ha Ha' E) as [-> ->]. done.
Qed.

Section binding.
Context `{Runtime} (sha_injective : ∀ s t, sha256Hex s = sha256Hex t → s = t).

Definition bindingFields (b : ScheduleBinding) : list string :=
  [sb_leadId b; sb_gmailDraftId b; sb_providerDraftId b; sb_finalizedContentHash b;
   sb_recipientEmail b; pretty (sb_scheduledAtUtcMs b); sb_rulesVersion b].

Lemma join_bar_inj l l' :
  length l = length l' → Forall barFree l → Forall barFree l' → joinBar l = joinBar l' → l = l'.
Proof using Type.
  revert l'. induction l as [|x l IH]; intros [|x' l']; try done. simpl. intros [= Hlen] [Hx Hl]%Forall_cons
    [Hx' Hl']%Forall_cons E. unfold joinBar, join in E.
  destruct l as [|y l], l' as [|y' l']; try done; [by f_equal|].
  cbn [String.concat] in E. apply bar_split in E as [-> E]; [|done..].
  f_equal. by apply IH.
Qed.

(** A schedule is bound to what was approved: two bindings with the same integrity
    fingerprint are equal, so a change of the lead, the draft, the content, the
    recipient, the instant or the rules is always detected (given that SHA-256 has
    no collisions, and that no field contains the separator). *)
Theorem scheduleIntegrityFingerprint_inj b b' :
  Forall barFree (bindingFields b) → Forall barFree (bindingFields b') →
  scheduleIntegrityFingerprint b = scheduleIntegrityFingerprint b' → b = b'.
Proof using sha_injective.
  intros Hb Hb' E%sha_injective. apply (join_bar_inj (bindingFields b) (bindingFields b')) in E;
    [|done..].
  destruct b, b'. unfold bindingFields in E. simpl in E. injection E as -> -> -> -> -> Ems ->.
  apply (inj pretty) in Ems as ->. done.
Qed.
End binding.

(** ** Witnesses *)

#[local] Existing Instance demo_runtime.

Definition demoBinding (recipient : string) : ScheduleBinding :=
  {| sb_leadId := "l1"; sb_gmailDraftId := "d1"; sb_providerDraftId := "p1";
     sb_finalizedContentHash := "h1"; sb_recipientEmail := recipient;
     sb_scheduledAtUtcMs := 1780000000000; sb_rulesVersion := "v1" |}.
Lemma scheduleIntegrityFingerprint_inj_witness :
  scheduleIntegrityFingerprint (demoBinding "info@praxis.de") ≠
  scheduleIntegrityFingerprint (demoBinding "chef@praxis.de").
Proof.
  intros E. apply (scheduleIntegrityFingerprint_inj) in E.
  - discriminate E.
  - intros s t Est. simpl in Est. by apply (inj (String.append "sha256:")) in Est.
  - repeat constructor.
  - repeat constructor.
Defined.
