(* ===== verification/Mime.v ===== *)
(** * Messages in transit: src/domain/gmail/mime.ts and
    src/integrations/send/gmail-draft-parser.ts

    The message that a Gmail draft is created from, and the strict parser that reads a
    draft back before it is sent.  The regular expressions are written out as matchers,
    [Buffer] as functions on bytes. *)
From S2P Require Import Prelude.
From S2P Require Import JsText.
From S2P Require Import JsonText.
From S2P Require Import SendGate.
Open Scope string_scope.

(** ** Base64: [Buffer.toString('base64')] and [Buffer.from(text, 'base64')] *)

Definition chr (n : nat) : ascii := ascii_of_nat n.
(** The digit of a number below 64 *)
Definition base64Digit (n : nat) : ascii :=
  if (n <? 26)%nat then chr (65 + n) else if (n <? 52)%nat then chr (71 + n)
  else if (n <? 62)%nat then chr (n - 4) else if (n =? 62)%nat then "+"%char else "/"%char.
(** Its value; the decoder also knows the digits of base64url. *)
Definition base64Value (c : ascii) : option nat :=
  let n := char_code c in
  if (65 <=? n)%nat && (n <=? 90)%nat then Some (n - 65)%nat
  else if (97 <=? n)%nat && (n <=? 122)%nat then Some (n - 71)%nat
  else if (48 <=? n)%nat && (n <=? 57)%nat then Some (n + 4)%nat
  else if (n =? 43)%nat || (n =? 45)%nat then Some 62%nat
  else if (n =? 47)%nat || (n =? 95)%nat then Some 63%nat else None.

Fixpoint toBase64 (s : string) : string :=
  match s with
  | "" => ""
  | String a "" =>
      let a := char_code a in
      String (base64Digit (a / 4)) (String (base64Digit (a mod 4 * 16)) "==")
  | String a (String b "") =>
      let (a, b) := (char_code a, char_code b) in
      String (base64Digit (a / 4)) (String (base64Digit (a mod 4 * 16 + b / 16))
        (String (base64Digit (b mod 16 * 4)) "="))
  | String a (String b (String c s)) =>
      let '(a, b, c) := (char_code a, char_code b, char_code c) in
      String (base64Digit (a / 4)) (String (base64Digit (a mod 4 * 16 + b / 16))
        (String (base64Digit (b mod 16 * 4 + c / 64)) (String (base64Digit (c mod 64)) (toBase64 s))))
  end.
(** The digits up to the padding; other characters are skipped. *)
Fixpoint base64Values (s : string) : list nat :=
  match s with
  | "" => []
  | String c s =>
      if bool_decide (c = "="%char) then []
      else match base64Value c with Some n => n :: base64Values s | None => base64Values s end
  end.
Fixpoint fromValues (l : list nat) : string :=
  match l with
  | a :: b :: c :: d :: l =>
      String (chr (a * 4 + b / 16)) (String (chr (b mod 16 * 16 + c / 4))
        (String (chr (c mod 4 * 64 + d)) (fromValues l)))
  | [a; b; c] => String (chr (a * 4 + b / 16)) (String (chr (b mod 16 * 16 + c / 4)) "")
  | [a; b] => String (chr (a * 4 + b / 16)) ""
  | _ => ""
  end.
Definition fromBase64 (s : string) : string := fromValues (base64Values s).

Fixpoint mapString (f : ascii → ascii) (s : string) : string :=
  match s with "" => "" | String c s => String (f c) (mapString f s) end.
Definition swapChar (a b c : ascii) : ascii := if bool_decide (c = a) then b else c.
(** [.replace(/=+$/, '')] *)
Fixpoint dropPadding (s : string) : string :=
  match s with
  | "" => ""
  | String c s =>
      match dropPadding s with
      | "" => if bool_decide (c = "="%char) then "" else String c ""
      | t => String c t
      end
  end.

(** ** mime.ts *)

Definition base64Url (buf : string) : string :=
  dropPadding (mapString (swapChar "/" "_") (mapString (swapChar "+" "-") (toBase64 buf))).
(** [/^[\x20-\x7E]*$/] *)
Definition isAscii (s : string) : bool :=
  negb (string_exists (λ c, (char_code c <? 32)%nat || (126 <? char_code c)%nat) s).
Definition encodeHeaderWord (value : string) : string :=
  if isAscii value then value else "=?UTF-8?B?" +:+ toBase64 value +:+ "?=".

Record MimeInput := {
  mi_fromName : string; mi_fromEmail : string; mi_toEmail : string; mi_subject : string; mi_body : string;
}.
Definition CR : ascii := chr 13.
Definition LF : ascii := chr 10.
Definition CRLF : string := String CR (String LF "").
Definition mimeHeaders (m : MimeInput) : list string :=
  ["From: " +:+ encodeHeaderWord (mi_fromName m) +:+ " <" +:+ mi_fromEmail m +:+ ">";
   "To: " +:+ mi_toEmail m;
   "Subject: " +:+ encodeHeaderWord (mi_subject m);
   "MIME-Version: 1.0";
   "Content-Type: text/plain; charset=" +:+ String quoteMark ("UTF-8" +:+ String quoteMark "");
   "Content-Transfer-Encoding: 8bit"].
Definition buildRawMessage (m : MimeInput) : string :=
  base64Url (join CRLF (mimeHeaders m) +:+ CRLF +:+ CRLF +:+ mi_body m).

(** ** gmail-draft-parser.ts *)

Definition failWith {A} (message : string) : res A := Throw (JsError message).

(** [replace(/\r\n/g, '\n')] *)
Fixpoint crlfToLf (s : string) : string :=
  match s with
  | "" => ""
  | String c s' => if bool_decide (c = CR) && startsWith s' (String LF "") then crlfToLf s'
                   else String c (crlfToLf s')
  end.
(** [text.split(sep)], for a one character separator *)
Fixpoint splitOn (sep : ascii) (s : string) : list string :=
  match s with
  | "" => [""]
  | String c s =>
      match splitOn sep s with
      | [] => []
      | line :: rest => if bool_decide (c = sep) then "" :: line :: rest else String c line :: rest
      end
  end.
(** The text before and after the first occurrence of [sep] *)
Fixpoint cutAt (sep : ascii) (s : string) : option (string * string) :=
  match s with
  | "" => None
  | String c s =>
      if bool_decide (c = sep) then Some ("", s)
      else '(before, after) ← cutAt sep s; Some (String c before, after)
  end.
(** The text before and after the first empty line *)
Fixpoint cutBoundary (s : string) : option (string * string) :=
  match s with
  | "" => None
  | String c s' =>
      if bool_decide (c = LF) then
        match s' with
        | String d body =>
            if bool_decide (d = LF) then Some ("", body)
            else '(before, after) ← cutBoundary s'; Some (String c before, after)
        | "" => None
        end
      else '(before, after) ← cutBoundary s'; Some (String c before, after)
  end.

Definition isBlank (c : ascii) : bool := bool_decide (c = " "%char) || (char_code c =? 9)%nat.
Definition startsBlank (s : string) : bool := match s with "" => false | String c _ => isBlank c end.
(** [replace(/\n[ \t]+/g, ' ')]; [skip] tells that a fold is being dropped. *)
Fixpoint unfoldFrom (skip : bool) (s : string) : string :=
  match s with
  | "" => ""
  | String c s =>
      if skip && isBlank c then unfoldFrom true s
      else if bool_decide (c = LF) && startsBlank s then String " " (unfoldFrom true s)
      else String c (unfoldFrom false s)
  end.
Definition unfold_ : string → string := unfoldFrom false.

(** The headers in the order of their first occurrence, with all values of each *)
Definition headerMap := list (string * list string).
Definition headerValues (headers : headerMap) (name : string) : list string :=
  match List.find (λ h, String.eqb h.1 name) headers with Some h => h.2 | None => [] end.
Definition hasHeader (headers : headerMap) (name : string) : bool :=
  existsb (λ h, String.eqb h.1 name) headers.
Fixpoint pushHeader (name value : string) (headers : headerMap) : headerMap :=
  match headers with
  | [] => [(name, [value])]
  | (n, vs) :: rest => if String.eqb n name then (n, vs ++ [value])%list :: rest
                       else (n, vs) :: pushHeader name value rest
  end.
Definition headerNameChar (c : ascii) : bool :=
  let n := char_code c in
  ((97 <=? n)%nat && (n <=? 122)%nat) || ((48 <=? n)%nat && (n <=? 57)%nat) || (n =? 45)%nat.
Definition parseLine (headers : headerMap) (line : string) : res headerMap :=
  match cutAt ":" line with
  | None | Some ("", _) => failWith "malformed_mime_header"
  | Some (before, after) =>
      let name := toLowerCase (trim before) in
      if negb (truthy name) || string_exists (λ c, negb (headerNameChar c)) name
      then failWith "malformed_mime_header_name"
      else Ok (pushHeader name (trim after) headers)
  end.
Definition parseHeaders (block : string) : res headerMap :=
  fold_left (λ headers line, headers ← headers; parseLine headers line) (splitOn LF (unfold_ block)) (Ok []).
Definition singleton_ (headers : headerMap) (name : string) (required : bool) : res string :=
  match headerValues headers name with
  | [] => if required then failWith ("missing_" +:+ name +:+ "_header") else Ok ""
  | [v] => if required && negb (truthy v) then failWith ("missing_" +:+ name +:+ "_header") else Ok v
  | _ => failWith ("duplicate_" +:+ name +:+ "_header")
  end.

(** *** Quoted-printable *)

(** [replace(/=\r?\n/g, '')]; [skip] counts the characters of a soft line break. *)
Fixpoint dropSoftBreaks (skip : nat) (s : string) : string :=
  match s with
  | "" => ""
  | String c s' =>
      match skip with
      | S skip => dropSoftBreaks skip s'
      | O => if bool_decide (c = "="%char) && startsWith s' (String LF "") then dropSoftBreaks 1 s'
             else if bool_decide (c = "="%char) && startsWith s' CRLF then dropSoftBreaks 2 s'
             else String c (dropSoftBreaks 0 s')
      end
  end.
(** [/=(?![0-9A-Fa-f]{2})/] *)
Fixpoint badEscape (s : string) : bool :=
  match s with
  | "" => false
  | String c s' =>
      (bool_decide (c = "="%char) &&
         match s' with
         | String a (String b _) => negb (bool_decide (is_Some (hexValue a)) && bool_decide (is_Some (hexValue b)))
         | _ => true
         end) || badEscape s'
  end.
(** The bytes: an escape is one byte, any other code unit gives the first byte of its
    UTF-8 form (which for a surrogate is that of U+FFFD). *)
Fixpoint quotedBytes (skip : nat) (s : string) : string :=
  match s with
  | "" => ""
  | String c s' =>
      match skip with
      | S skip => quotedBytes skip s'
      | O =>
          if bool_decide (c = "="%char) then
            match s' with
            | String a (String b _) =>
                String (chr (default 0%nat (hexValue a) * 16 + default 0%nat (hexValue b))%nat) (quotedBytes 2 s')
            | _ => quotedBytes 0 s'
            end
          else
            let n := char_code c in
            if inRange 128 191 n then quotedBytes 0 s'
            else if (240 <=? n)%nat then String (chr 239) (String (chr 239) (quotedBytes 0 s'))
            else String c (quotedBytes 0 s')
      end
  end.
Definition decodeQuotedPrintable (value : string) : res string :=
  let compact := dropSoftBreaks 0 value in
  if badEscape compact then failWith "invalid_quoted_printable" else Ok (decodeUtf8 (quotedBytes 0 compact)).

(** *** Encoded words *)

(** [=?UTF-8?x?] in any case, where [x] is B or Q: the kind, and what follows *)
Definition wordStart (s : string) : option (ascii * string) :=
  if startsWith (toLowerCase s) "=?utf-8?" then
    match String.substring 8 (String.length s) s with
    | String k (String q rest) =>
        let k := lower_char k in
        if bool_decide (k ∈ ["b"; "q"]%char) && bool_decide (q = "?"%char) then Some (k, rest) else None
    | _ => None
    end
  else None.
(** [=?UTF-8?([BQ])?([^?]+)?=] at the start of the text: kind, data, length of the match *)
Definition matchWord (s : string) : option (ascii * string * nat) :=
  '(k, rest) ← wordStart s;
  '(data, after) ← cutAt "?" rest;
  if truthy data && startsWith after "=" then Some (k, data, 12 + String.length data)%nat else None.
Definition decodeWord (kind : ascii) (data : string) : res string :=
  if bool_decide (kind = "b"%char) then Ok (decodeUtf8 (fromBase64 data))
  else decodeQuotedPrintable (mapString (swapChar "_" " ") data).
(** [value.replace(/=\?UTF-8.../gi, ...)]: the text, and whether no word was invalid; [skip]
    counts the characters of a match still to be passed. *)
Fixpoint replaceWords (skip : nat) (s : string) : string * bool :=
  match s with
  | "" => ("", true)
  | String c s' =>
      match skip with
      | S skip => replaceWords skip s'
      | O =>
          match matchWord s with
          | Some (kind, data, len) =>
              let '(rest, valid) := replaceWords (len - 1) s' in
              match decodeWord kind data with
              | Ok text => (text +:+ rest, valid)
              | Throw _ => (rest, false)
              end
          | None => let '(rest, valid) := replaceWords 0 s' in (String c rest, valid)
          end
      end
  end.
Definition decodeHeader (value : string) : res string :=
  if negb (includes value "=?") then Ok value
  else
    let '(decoded, valid) := replaceWords 0 value in
    if negb valid || includes decoded "=?" then failWith "unsupported_encoded_header" else Ok decoded.

(** *** Addresses *)

Definition isAngle (c : ascii) : bool := bool_decide (c ∈ ["<"; ">"]%char).
Definition isQuote (c : ascii) : bool := bool_decide (c = quoteMark).
(** [([^<>]+)>$]: the text before the final bracket *)
Fixpoint angleBody (s : string) : option string :=
  match s with
  | "" => None
  | String c "" => if bool_decide (c = ">"%char) then Some "" else None
  | String c s => if isAngle c then None else String c <$> angleBody s
  end.
(** [^(.*?)\s*<([^<>]+)>$]: the bracket that opens the address is the first one that an
    address follows; no line ends before it, but in the white space right before it.  That
    white space goes with the name, which is trimmed later. *)
Fixpoint matchAngle (s : string) : option (string * string) :=
  match s with
  | "" => None
  | String c s' =>
      let bracket (rest : string) := email ← angleBody rest; if truthy email then Some ("", email) else None in
      let later := '(name, email) ← matchAngle s'; Some (String c name, email) in
      if bool_decide (c = "<"%char) then
        match bracket s' with Some found => Some found | None => later end
      else if bool_decide (c = LF) || bool_decide (c = CR) then
        match trimStart s' with
        | String d rest => if bool_decide (d = "<"%char) then bracket rest else None
        | "" => None
        end
      else later
  end.
(** [/^[^\s@<>]+@[^\s@<>]+\.[^\s@<>]+$/] *)
Definition addressTest (email : string) : bool :=
  email_re_test email && negb (string_exists isAngle email).
(** The first and the last character dropped: [slice(1, -1)] *)
Definition sliceInner (s : string) : string := String.substring 1 (String.length s - 2) s.
Definition endsWith (s p : string) : bool :=
  (String.length p <=? String.length s)%nat &&
  String.eqb (String.substring (String.length s - String.length p) (String.length p) s) p.
Definition parseAddress (value : string) : res (string * string) :=
  let angle := matchAngle (trim value) in
  let rawName := match angle with Some (name, _) => trim name | None => "" end in
  let email := normalizeEmail (match angle with Some (_, e) => e | None => value end) in
  if negb (addressTest email) then failWith "invalid_address"
  else
    let quote := String quoteMark "" in
    let unquoted := if startsWith rawName quote && endsWith rawName quote then sliceInner rawName else rawName in
    if includes unquoted quote then failWith "ambiguous_display_name"
    else name ← decodeHeader unquoted; Ok (name, email).

(** The parts between the commas that are not quoted, and whether a quote stays open *)
Fixpoint addressParts (quoted : bool) (current : string) (s : string) : list string * bool :=
  match s with
  | "" => ([current], quoted)
  | String c s =>
      let quoted := if isQuote c then negb quoted else quoted in
      if bool_decide (c = ","%char) && negb quoted
      then let '(parts, open) := addressParts quoted "" s in (current :: parts, open)
      else addressParts quoted (current +:+ String c "") s
  end.
Definition parseAddresses (value : string) : res (list (string * string)) :=
  if string_exists (λ c, bool_decide (c ∈ [";"%char; CR; LF])) value then failWith "ambiguous_address_header"
  else
    let '(parts, open) := addressParts false "" value in
    if open then failWith "ambiguous_address_header"
    else if existsb (λ x, negb (truthy (trim x))) parts then failWith "empty_address"
    else fold_right (λ x rest, a ← parseAddress x; l ← rest; Ok (a :: l)) (Ok []) parts.
Definition optionalAddresses (headers : headerMap) (name : string) : res (list string) :=
  match headerValues headers name with
  | [] => Ok []
  | [v] => if truthy v then l ← parseAddresses v; Ok (map snd l) else Ok []
  | _ => failWith ("duplicate_" +:+ name +:+ "_header")
  end.
Definition optionalSingleAddress (headers : headerMap) (name : string) : res (option string) :=
  match headerValues headers name with
  | [] => Ok None
  | [v] =>
      if truthy v then
        l ← parseAddresses v;
        match l with
        | [a] => Ok (Some a.2)
        | _ => failWith ("multiple_" +:+ name +:+ "_addresses")
        end
      else Ok None
  | _ => failWith ("duplicate_" +:+ name +:+ "_header")
  end.

(** *** The body *)

Definition base64Text (c : ascii) : bool :=
  let n := char_code c in
  ((65 <=? n)%nat && (n <=? 90)%nat) || ((97 <=? n)%nat && (n <=? 122)%nat) ||
  ((48 <=? n)%nat && (n <=? 57)%nat) || bool_decide (c ∈ ["+"; "/"; "="]%char) || is_space c.
Definition decodeBody (body encoding : string) : res string :=
  if String.eqb encoding "7bit" || String.eqb encoding "8bit" then Ok body
  else if String.eqb encoding "base64" then
    if string_exists (λ c, negb (base64Text c)) body then failWith "invalid_base64_body"
    else Ok (decodeUtf8 (fromBase64 (filterString (λ c, negb (is_space c)) body)))
  else if String.eqb encoding "quoted-printable" then decodeQuotedPrintable body
  else failWith "unsupported_transfer_encoding".

Definition optionalQuote (s : string) : string :=
  match s with String c s' => if isQuote c then s' else s | "" => "" end.
(** [/^text\/plain(?:\s*;\s*charset=(?:"?(?:utf-8|us-ascii)"?))?$/i] *)
Definition plainText (contentType : string) : bool :=
  match dropPrefix "text/plain" (toLowerCase contentType) with
  | Some "" => true
  | Some rest =>
      match dropPrefix ";" (trimStart rest) ≫= λ s, dropPrefix "charset=" (trimStart s) with
      | Some s =>
          existsb (λ charset, match dropPrefix charset (optionalQuote s) with
                              | Some s => String.eqb (optionalQuote s) "" | None => false end)
            ["utf-8"; "us-ascii"]
      | None => false
      end
  | None => false
  end.
(** [/(?:name|filename)\s*=/i]: a file name ends in "name". *)
Fixpoint namesFile (s : string) : bool :=
  match s with
  | "" => false
  | String c s' =>
      match dropPrefix "name" (toLowerCase s) with
      | Some rest => startsWith (trimStart rest) "="
      | None => false
      end || namesFile s'
  end.

Definition base64UrlChar (c : ascii) : bool :=
  let n := char_code c in
  ((65 <=? n)%nat && (n <=? 90)%nat) || ((97 <=? n)%nat && (n <=? 122)%nat) ||
  ((48 <=? n)%nat && (n <=? 57)%nat) || (n =? 95)%nat || (n =? 45)%nat.
(** [/^[A-Za-z0-9_-]+={0,2}$/] *)
Definition base64UrlTest (s : string) : bool :=
  let digits := dropPadding s in
  truthy digits && negb (string_exists (λ c, negb (base64UrlChar c)) digits) &&
  (String.length s - String.length digits <=? 2)%nat.

(** The last checks and the result of [parseRawMessage] *)
Definition parseEnvelope (headers : headerMap) (text : string) : res ProviderDraftEnvelope :=
  contentTypeHeader ← singleton_ headers "content-type" true;
  let contentType := toLowerCase contentTypeHeader in
  _ ← (if plainText contentType then Ok tt else failWith "unsupported_mime_structure");
  _ ← (if hasHeader headers "content-disposition" || namesFile contentType
       then failWith "attachment_not_allowed" else Ok tt);
  encodingHeader ← singleton_ headers "content-transfer-encoding" false;
  let encoding := toLowerCase encodingHeader in
  body ← decodeBody text (if truthy encoding then encoding else "7bit");
  fromHeader ← singleton_ headers "from" true;
  from ← parseAddress fromHeader;
  toHeader ← singleton_ headers "to" true;
  to ← parseAddresses toHeader;
  cc ← optionalAddresses headers "cc";
  bcc ← optionalAddresses headers "bcc";
  replyTo ← optionalSingleAddress headers "reply-to";
  _ ← (if (0 <? length cc)%nat then failWith "unexpected_cc" else Ok tt);
  _ ← (if (0 <? length bcc)%nat then failWith "unexpected_bcc" else Ok tt);
  subjectHeader ← singleton_ headers "subject" true;
  subject ← decodeHeader subjectHeader;
  Ok {| pv_fromName := from.1; pv_fromEmail := from.2; pv_to := map snd to; pv_cc := cc; pv_bcc := bcc;
        pv_replyTo := replyTo; pv_subject := subject; pv_body := body; pv_attachmentCount := 0%Z |}.
Definition parseRawMessage (rawBase64Url : string) : res ProviderDraftEnvelope :=
  if negb (base64UrlTest rawBase64Url) || (String.length rawBase64Url mod 4 =? 1)%nat
  then failWith "raw_message_invalid_base64url"
  else
    let decoded := decodeUtf8 (fromBase64 (mapString (swapChar "_" "/") (mapString (swapChar "-" "+") rawBase64Url))) in
    if string_exists (λ c, (char_code c =? 0)%nat) decoded then failWith "raw_message_contains_nul"
    else
      match cutBoundary (crlfToLf decoded) with
      | None => failWith "raw_message_missing_header_boundary"
      | Some (block, text) => headers ← parseHeaders block; parseEnvelope headers text
      end.

Example mime_example :
  parseRawMessage (buildRawMessage {| mi_fromName := "Zoë"; mi_fromEmail := "Me@agency.de";
    mi_toEmail := "info@praxis.de"; mi_subject := "Grüße"; mi_body := "Hallo,

ich bin's." |}) =
  Ok {| pv_fromName := "Zoë"; pv_fromEmail := "me@agency.de"; pv_to := ["info@praxis.de"]; pv_cc := [];
        pv_bcc := []; pv_replyTo := None; pv_subject := "Grüße"; pv_body := "Hallo,

ich bin's."; pv_attachmentCount := 0%Z |}.
Proof. vm_compute. reflexivity. Qed.
