(* ===== verification/MimeSpecs.v ===== *)
(** * A message survives the way to Gmail and back

    What [buildRawMessage] encodes, [parseRawMessage] reads back, so that a draft that was
    created for an approved email passes the envelope comparison of the send service. *)
From Stdlib Require Import ZifyNat.
From S2P Require Import Prelude.
From S2P Require Import JsText.
From S2P Require Import JsonText.
From S2P Require Import SendGate.
From S2P Require Import Mime.
Open Scope string_scope.

(** ** Base64 *)

(** The six bit groups of a text *)
Fixpoint valuesOf (s : string) : list nat :=
  match s with
  | "" => []
  | String a "" => [char_code a / 4; char_code a mod 4 * 16]
  | String a (String b "") =>
      [char_code a / 4; char_code a mod 4 * 16 + char_code b / 16; char_code b mod 16 * 4]
  | String a (String b (String c s)) =>
      char_code a / 4 :: char_code a mod 4 * 16 + char_code b / 16 ::
      char_code b mod 16 * 4 + char_code c / 64 :: char_code c mod 64 :: valuesOf s
  end%nat.
Definition padding (s : string) : string :=
  match String.length s mod 3 with 1 => "==" | 2 => "=" | _ => "" end%nat.
Fixpoint text (digit : nat → ascii) (l : list nat) : string :=
  match l with [] => "" | n :: l => String (digit n) (text digit l) end.

Lemma string_ind3 (P : string → Prop) :
  P "" → (∀ a, P (String a "")) → (∀ a b, P (String a (String b ""))) →
  (∀ a b c s, P s → P (String a (String b (String c s)))) → ∀ s, P s.
Proof.
  intros H0 H1 H2 H3. fix IH 1. intros [|a [|b [|c s]]]; [done|apply H1|apply H2|apply H3, IH].
Qed.
Lemma char_code_bound c : (char_code c < 256)%nat.
Proof. apply nat_ascii_bounded. Qed.
Lemma chr_code c : chr (char_code c) = c.
Proof. apply ascii_nat_embedding. Qed.

Lemma padding_step a b c s : padding (String a (String b (String c s))) = padding s.
Proof.
  unfold padding. cbn [String.length]. replace (S (S (S (String.length s)))) with (String.length s + 1 * 3)%nat by lia.
  by rewrite Nat.Div0.mod_add.
Qed.
Lemma toBase64_text s : toBase64 s = text base64Digit (valuesOf s) +:+ padding s.
Proof.
  induction s as [|a|a b|a b c s IH] using string_ind3; [done..|].
  rewrite padding_step. cbn [toBase64 valuesOf text]. by rewrite IH, !string_cons_app.
Qed.

Ltac bits :=
  repeat match goal with a : ascii |- _ =>
    pose proof (char_code_bound a); generalize dependent (char_code a); clear a; intros end;
  zify; Z.to_euclidean_division_equations; lia.
Lemma valuesOf_bound s : Forall (λ n, n < 64)%nat (valuesOf s).
Proof.
  induction s as [|a|a b|a b c s IH] using string_ind3; cbn [valuesOf];
    repeat apply Forall_cons_2; try apply Forall_nil_2; try exact IH; bits.
Qed.
Lemma char_of n c : n = char_code c → chr n = c.
Proof. intros ->. apply chr_code. Qed.
Lemma fromValues_of s : fromValues (valuesOf s) = s.
Proof.
  induction s as [|a|a b|a b c s IH] using string_ind3; [done|..]; cbn [valuesOf fromValues].
  - by rewrite (char_of _ a) by bits.
  - by rewrite (char_of _ a), (char_of _ b) by bits.
  - by rewrite IH, (char_of _ a), (char_of _ b), (char_of _ c) by bits.
Qed.
Lemma valuesOf_length s : (length (valuesOf s) mod 4 ≠ 1)%nat.
Proof.
  induction s as [|a|a b|a b c s IH] using string_ind3; try done. cbn [valuesOf length].
  replace (S (S (S (S (length (valuesOf s)))))) with (length (valuesOf s) + 1 * 4)%nat by lia.
  by rewrite Nat.Div0.mod_add.
Qed.
Lemma valuesOf_nil s : s ≠ "" → valuesOf s ≠ [].
Proof. by destruct s as [|a [|b [|c s]]]. Qed.

Definition urlDigit (n : nat) : ascii := swapChar "/" "_" (swapChar "+" "-" (base64Digit n)).
(** What holds of the digits, by enumeration *)
Definition digitFacts (n : nat) : bool :=
  bool_decide (base64Value (base64Digit n) = Some n) && bool_decide (base64Digit n ≠ "="%char) &&
  bool_decide (base64Digit n ≠ "?"%char) && bool_decide (urlDigit n ≠ "="%char) && base64UrlChar (urlDigit n) &&
  bool_decide (swapChar "_" "/" (swapChar "-" "+" (urlDigit n)) = base64Digit n).
Lemma digit_facts n : (n < 64)%nat → digitFacts n = true.
Proof.
  assert (forallb digitFacts (seq 0 64) = true) as Hall by (vm_compute; reflexivity).
  intros Hn. apply (proj1 (elem_of_forallb _ _) Hall). apply elem_of_seq. lia.
Qed.
Lemma digit_spec n : (n < 64)%nat →
  base64Value (base64Digit n) = Some n ∧ base64Digit n ≠ "="%char ∧ base64Digit n ≠ "?"%char ∧
  urlDigit n ≠ "="%char ∧ base64UrlChar (urlDigit n) = true ∧
  swapChar "_" "/" (swapChar "-" "+" (urlDigit n)) = base64Digit n.
Proof.
  intros Hn%digit_facts. unfold digitFacts in Hn.
  rewrite !andb_true_iff, !bool_decide_eq_true in Hn. naive_solver.
Qed.

Lemma padding_cases s : padding s = "" ∨ padding s = "=" ∨ padding s = "==".
Proof. unfold padding. repeat case_match; auto. Qed.
Lemma base64Values_text l s :
  Forall (λ n, n < 64)%nat l → base64Values (text base64Digit l +:+ padding s) = l.
Proof.
  induction 1 as [|n l Hn _ IH]; cbn [text].
  - by destruct (padding_cases s) as [-> | [-> | ->]].
  - rewrite string_cons_app. cbn [base64Values]. destruct (digit_spec n Hn) as (-> & Hne & _).
    rewrite bool_decide_eq_false_2 by done. by rewrite IH.
Qed.
Lemma base64_roundtrip s : fromBase64 (toBase64 s) = s.
Proof.
  unfold fromBase64. rewrite toBase64_text, base64Values_text by apply valuesOf_bound. apply fromValues_of.
Qed.

Lemma mapString_app f s t : mapString f (s +:+ t) = mapString f s +:+ mapString f t.
Proof. induction s as [|c s IH]; [done|]. rewrite !string_cons_app. cbn [mapString]. by rewrite IH. Qed.
Lemma mapString_text f d l : mapString f (text d l) = text (λ n, f (d n)) l.
Proof. induction l as [|n l IH]; [done|]. cbn [text mapString]. by rewrite IH. Qed.
Lemma text_ext d d' l : Forall (λ n, d n = d' n) l → text d l = text d' l.
Proof. induction 1 as [|n l Hn _ IH]; [done|]. cbn [text]. by rewrite Hn, IH. Qed.
Lemma dropPadding_text d l pad :
  Forall (λ n, d n ≠ "="%char) l → dropPadding pad = "" → dropPadding (text d l +:+ pad) = text d l.
Proof.
  intros Hl Hpad. induction Hl as [|n l Hn _ IH]; [done|]. cbn [text]. rewrite string_cons_app. cbn [dropPadding].
  rewrite IH. destruct (text d l); [|done]. by rewrite bool_decide_eq_false_2.
Qed.
Lemma values_forall (Q : nat → Prop) s : (∀ n, n < 64 → Q n)%nat → Forall Q (valuesOf s).
Proof. intros HQ. eapply Forall_impl; [apply valuesOf_bound|]. simpl. auto. Qed.
Lemma base64Url_text s : base64Url s = text urlDigit (valuesOf s).
Proof.
  unfold base64Url. rewrite toBase64_text, !mapString_app, !mapString_text.
  apply dropPadding_text.
  - apply values_forall. intros n Hn. by apply digit_spec.
  - by destruct (padding_cases s) as [-> | [-> | ->]].
Qed.

Lemma string_exists_text f d l : Forall (λ n, f (d n) = false) l → string_exists f (text d l) = false.
Proof. induction 1 as [|n l Hn _ IH]; [done|]. cbn [text string_exists]. by rewrite Hn, IH. Qed.
Lemma length_text d l : String.length (text d l) = length l.
Proof. induction l as [|n l IH]; [done|]. cbn [text String.length length]. by rewrite IH. Qed.
(** What the parser accepts and decodes of a message it is sent *)
Lemma base64Url_accepted s : s ≠ "" →
  base64UrlTest (base64Url s) = true ∧ (String.length (base64Url s) mod 4 =? 1)%nat = false.
Proof.
  intros Hs. rewrite base64Url_text. split.
  - unfold base64UrlTest. pose proof (dropPadding_text urlDigit (valuesOf s) "") as Hd.
    rewrite string_app_nil_r in Hd. rewrite Hd; [|apply values_forall; intros n Hn; by apply digit_spec|done].
    rewrite Nat.sub_diag. cbn [Nat.leb]. rewrite andb_true_r, andb_true_iff, negb_true_iff. split.
    + apply truthy_spec. pose proof (valuesOf_nil s Hs). by destruct (valuesOf s).
    + apply string_exists_text, values_forall. intros n Hn. apply negb_false_iff. by apply digit_spec.
  - apply Nat.eqb_neq. rewrite length_text. apply valuesOf_length.
Qed.
Lemma base64Url_decoded s :
  fromBase64 (mapString (swapChar "_" "/") (mapString (swapChar "-" "+") (base64Url s))) = s.
Proof.
  rewrite base64Url_text, !mapString_text. rewrite (text_ext _ base64Digit).
  - pose proof (base64Values_text (valuesOf s) "" (valuesOf_bound s)) as Hv. unfold fromBase64.
    change (padding "") with "" in Hv. rewrite string_app_nil_r in Hv. rewrite Hv. apply fromValues_of.
  - apply values_forall. intros n Hn. by apply digit_spec.
Qed.

(** ** Lines *)

Definition printable (c : ascii) : bool := (32 <=? char_code c)%nat && (char_code c <=? 126)%nat.
Lemma allChars_text f d l : Forall (λ n, f (d n) = true) l → allChars f (text d l).
Proof. intros Hl. apply string_exists_text. eapply Forall_impl; [exact Hl|]. simpl. by intros n ->. Qed.
Lemma string_exists_ext f g s : (∀ c, f c = g c) → string_exists f s = string_exists g s.
Proof. intros Hfg. induction s as [|c s IH]; [done|]. cbn [string_exists]. by rewrite Hfg, IH. Qed.
Lemma allChars_not f s : allChars (λ c, negb (f c)) s → string_exists f s = false.
Proof. intros Hs. unfold allChars in Hs. rewrite <-Hs. apply string_exists_ext. intros c. by rewrite negb_involutive. Qed.
Lemma isAscii_printable s : isAscii s = true ↔ allChars printable s.
Proof.
  unfold isAscii, allChars. rewrite negb_true_iff. f_equiv. apply string_exists_ext. intros c. unfold printable.
  destruct (Nat.ltb_spec (char_code c) 32), (Nat.leb_spec 32 (char_code c)), (Nat.ltb_spec 126 (char_code c)),
    (Nat.leb_spec (char_code c) 126); simpl; try done; lia.
Qed.
(** A line of the header block: printable, and it starts with a character that is no blank *)
Definition isLine (s : string) : Prop :=
  allChars printable s ∧ match s with "" => False | String c _ => isBlank c = false end.

Lemma printable_not c : printable c = true → c ≠ CR ∧ c ≠ LF.
Proof. intros Hc. split; intros ->; discriminate Hc. Qed.
Lemma join_cons sep l ls : ls ≠ [] → join sep (l :: ls) = l +:+ sep +:+ join sep ls.
Proof. by destruct ls. Qed.

Lemma crlfToLf_line s t : allChars printable s → crlfToLf (s +:+ t) = s +:+ crlfToLf t.
Proof.
  induction s as [|c s IH]; [done|]. rewrite allChars_cons. intros [Hc Hs]. rewrite string_cons_app.
  cbn [crlfToLf]. destruct (printable_not c Hc). rewrite bool_decide_eq_false_2 by done. simpl.
  by rewrite IH.
Qed.
Lemma startsWith_char c t : startsWith (String c t) (String c "") = true.
Proof. unfold startsWith. cbn [String.prefix]. destruct (ascii_dec c c); [by destruct t|done]. Qed.
Lemma crlfToLf_break t : crlfToLf (CRLF +:+ t) = String LF (crlfToLf t).
Proof.
  unfold CRLF. rewrite !string_cons_app. cbn [crlfToLf]. rewrite startsWith_char.
  rewrite (bool_decide_eq_true_2 (CR = CR)), (bool_decide_eq_false_2 (LF = CR)) by done. done.
Qed.
Lemma crlfToLf_lines ls t :
  Forall isLine ls → crlfToLf (join CRLF ls +:+ t) = join (String LF "") ls +:+ crlfToLf t.
Proof.
  induction 1 as [|l ls [Hl _] _ IH]; [done|]. destruct ls as [|l' ls].
  - simpl. by apply crlfToLf_line.
  - rewrite (join_cons CRLF), (join_cons (String LF "")) by done.
    by rewrite !string_app_assoc, crlfToLf_line, crlfToLf_break, IH.
Qed.
Lemma crlfToLf_plain s : includes s CRLF = false → crlfToLf s = s.
Proof.
  induction s as [|c s IH]; [done|]. cbn [includes]. intros [Hp Hs]%orb_false_iff. cbn [crlfToLf]. rewrite (IH Hs).
  destruct (bool_decide_reflect (c = CR)) as [->|]; [|done]. simpl. unfold startsWith, CRLF in *. cbn [String.prefix] in Hp.
  by destruct (ascii_dec CR CR) as [_|[]]; [|done]; rewrite Hp.
Qed.

(** A text put in front of the first part of a cut *)
Definition prepend (s : string) (o : option (string * string)) : option (string * string) :=
  (λ ba : string * string, (s +:+ ba.1, ba.2)) <$> o.
Lemma prepend_nil o : prepend "" o = o.
Proof. by destruct o as [[]|]. Qed.
Lemma prepend_cons c s o :
  ('(before, after) ← prepend s o; Some (String c before, after)) = prepend (String c s) o.
Proof. by destruct o as [[]|]. Qed.
Lemma cutAt_app sep s t :
  allChars (λ c, negb (bool_decide (c = sep))) s → cutAt sep (s +:+ t) = prepend s (cutAt sep t).
Proof.
  induction s as [|c s IH]; [by rewrite prepend_nil|]. rewrite allChars_cons, negb_true_iff.
  intros [Hc Hs]. rewrite string_cons_app. cbn [cutAt]. rewrite Hc, IH by done. apply prepend_cons.
Qed.
Lemma cutBoundary_line s t : allChars printable s → cutBoundary (s +:+ t) = prepend s (cutBoundary t).
Proof.
  induction s as [|c s IH]; [by rewrite prepend_nil|]. rewrite allChars_cons. intros [Hc Hs].
  rewrite string_cons_app. cbn [cutBoundary]. destruct (printable_not c Hc).
  rewrite bool_decide_eq_false_2, IH by done. apply prepend_cons.
Qed.
Definition BREAK : string := String LF "".
Lemma cutBoundary_empty t : cutBoundary (BREAK +:+ BREAK +:+ t) = Some ("", t).
Proof.
  unfold BREAK. rewrite !string_cons_app. cbn [cutBoundary].
  by rewrite (bool_decide_eq_true_2 (LF = LF)) by done.
Qed.
Lemma cutBoundary_lines ls t :
  ls ≠ [] → Forall isLine ls →
  cutBoundary (join BREAK ls +:+ BREAK +:+ BREAK +:+ t) = Some (join BREAK ls, t).
Proof.
  intros Hne Hls. induction Hls as [|l ls [Hl _] Hls IH]; [done|]. destruct ls as [|l' ls].
  - simpl. rewrite cutBoundary_line, cutBoundary_empty by done. simpl. by rewrite string_app_nil_r.
  - rewrite join_cons, !string_app_assoc, cutBoundary_line by done.
    destruct (Forall_inv Hls) as [_ Hfirst]. destruct l' as [|c l']; [done|].
    assert (c ≠ LF) as Hc.
    { intros ->. destruct (Forall_inv Hls) as [Hp _]. apply allChars_cons in Hp as [Hp _]. discriminate Hp. }
    specialize (IH ltac:(done)). revert IH.
    assert (∃ x, join BREAK (String c l' :: ls) = String c x) as [x ->].
    { destruct ls; [by exists l'|]. by eexists. }
    rewrite !string_cons_app. intros IH. unfold BREAK at 1. rewrite string_cons_app. cbn [cutBoundary].
    rewrite (bool_decide_eq_true_2 (LF = LF)), string_app_nil_l by done.
    by rewrite (bool_decide_eq_false_2 (c = LF)), IH.
Qed.

Lemma unfold_line s t : allChars printable s → unfoldFrom false (s +:+ t) = s +:+ unfoldFrom false t.
Proof.
  induction s as [|c s IH]; [done|]. rewrite allChars_cons. intros [Hc Hs]. rewrite string_cons_app.
  cbn [unfoldFrom]. destruct (printable_not c Hc). rewrite bool_decide_eq_false_2 by done. simpl. by rewrite IH.
Qed.
Lemma unfold_lines ls : Forall isLine ls → unfold_ (join BREAK ls) = join BREAK ls.
Proof.
  unfold unfold_. induction 1 as [|l ls [Hl _] Hls IH]; [done|]. destruct ls as [|l' ls].
  - simpl. pose proof (unfold_line l "" Hl) as E. by rewrite !string_app_nil_r in E.
  - rewrite join_cons, unfold_line by done. unfold BREAK at 1. rewrite string_cons_app. cbn [unfoldFrom].
    assert (startsBlank (join BREAK (l' :: ls)) = false) as Hb.
    { destruct (Forall_inv Hls) as [_ Hfirst]. destruct l' as [|c l']; [done|]. by destruct ls. }
    rewrite ?string_app_nil_l. rewrite Hb, andb_false_r. cbv beta iota. by rewrite IH.
Qed.
Lemma splitOn_line s t :
  allChars printable s →
  splitOn LF (s +:+ t) = match splitOn LF t with [] => [] | line :: rest => (s +:+ line) :: rest end.
Proof.
  induction s as [|c s IH]; [by rewrite string_app_nil_l; destruct (splitOn LF t)|]. rewrite allChars_cons. intros [Hc Hs].
  rewrite string_cons_app. cbn [splitOn]. rewrite IH by done. destruct (printable_not c Hc).
  destruct (splitOn LF t); [done|]. by rewrite bool_decide_eq_false_2.
Qed.
Lemma splitOn_lines ls : ls ≠ [] → Forall isLine ls → splitOn LF (join BREAK ls) = ls.
Proof.
  intros Hne Hls. induction Hls as [|l ls [Hl _] Hls IH]; [done|]. destruct ls as [|l' ls].
  - simpl. pose proof (splitOn_line l "" Hl) as E. rewrite string_app_nil_r in E. rewrite E. simpl.
    by rewrite string_app_nil_r.
  - rewrite join_cons, splitOn_line by done. unfold BREAK at 1. rewrite string_cons_app.
    rewrite ?string_app_nil_l. cbn [splitOn]. rewrite IH by done.
    rewrite bool_decide_eq_true_2 by done. by rewrite string_app_nil_r.
Qed.

(** ** Trimming *)

Lemma trimEnd_space s : trimEnd (s +:+ " ") = trimEnd s.
Proof. induction s as [|c s IH]; [done|]. rewrite string_cons_app. cbn [trimEnd]. by rewrite IH. Qed.
Lemma trimEnd_solid s c : is_space c = false → trimEnd (s +:+ String c "") = s +:+ String c "".
Proof.
  intros Hc. induction s as [|d s IH]; [simpl; by rewrite Hc|].
  rewrite string_cons_app. cbn [trimEnd]. rewrite IH. by destruct s.
Qed.
Lemma trimStart_length s : (String.length (trimStart s) <= String.length s)%nat.
Proof. induction s as [|c s IH]; [done|]. cbn [trimStart]. destruct (is_space c); simpl; lia. Qed.
Lemma trimEnd_length s : (String.length (trimEnd s) <= String.length s)%nat.
Proof.
  induction s as [|c s IH]; [done|]. cbn [trimEnd String.length].
  destruct (trimEnd s); [destruct (is_space c); simpl; lia|]. simpl in *. lia.
Qed.
Lemma trimStart_shrinks c s : is_space c = true → trimStart (String c s) ≠ String c s.
Proof.
  intros Hc E. pose proof (trimStart_length s) as Hl. cbn [trimStart] in E. rewrite Hc in E. rewrite E in Hl.
  cbn [String.length] in Hl. lia.
Qed.
Lemma trim_fixed s : trim s = s ↔ trimStart s = s ∧ trimEnd s = s.
Proof.
  split; [|by intros [E1 E2]; unfold trim; rewrite E1]. intros E. assert (trimStart s = s) as Es.
  { destruct s as [|c s]; [done|]. cbn [trimStart]. destruct (is_space c) eqn:Hc; [|done]. exfalso.
    unfold trim in E. cbn [trimStart] in E. rewrite Hc in E.
    pose proof (trimEnd_length (trimStart s)) as H1. pose proof (trimStart_length s) as H2.
    rewrite E in H1. cbn [String.length] in H1. lia. }
  unfold trim in E. by rewrite Es in E.
Qed.
Lemma trim_edges c s d : is_space c = false → is_space d = false →
  trim (String c s +:+ String d "") = String c s +:+ String d "".
Proof.
  intros Hc Hd. apply trim_fixed. split; [|by apply trimEnd_solid]. rewrite string_cons_app. cbn [trimStart].
  by rewrite Hc.
Qed.
Lemma trim_blank s : trim (" " +:+ s) = trim s.
Proof. reflexivity. Qed.
Lemma trim_trailing s : trim s = s → trim (s +:+ " ") = s.
Proof.
  intros [Es Ee]%trim_fixed. unfold trim. destruct s as [|c s]; [done|]. rewrite string_cons_app.
  destruct (is_space c) eqn:Hc; [by apply trimStart_shrinks in Es|]. cbn [trimStart]. rewrite Hc.
  rewrite <-string_cons_app, trimEnd_space. exact Ee.
Qed.
Lemma unspaced_trim s : allChars (λ c, negb (is_space c)) s → trim s = s.
Proof.
  intros Hs. apply trim_fixed. split.
  - destruct s as [|c s]; [done|]. apply allChars_cons in Hs as [Hc _]. apply negb_true_iff in Hc.
    cbn [trimStart]. by rewrite Hc.
  - induction s as [|c s IH]; [done|]. apply allChars_cons in Hs as [Hc Hs]. apply negb_true_iff in Hc.
    cbn [trimEnd]. rewrite (IH Hs), Hc. by destruct s.
Qed.

(** ** Encoded words *)

Lemma base64_chars f s :
  forallb (λ n, f (base64Digit n)) (seq 0 64) = true → f "="%char = true → allChars f (toBase64 s).
Proof.
  intros Hd Heq. rewrite toBase64_text. apply allChars_app. split.
  - apply allChars_text, values_forall. intros n Hn. apply (proj1 (elem_of_forallb _ _) Hd), elem_of_seq. lia.
  - destruct (padding_cases s) as [-> | [-> | ->]]; rewrite ?allChars_cons; done.
Qed.
Lemma replaceWords_skip s n : (String.length s <= n)%nat → replaceWords n s = ("", true).
Proof.
  revert n. induction s as [|c s IH]; intros n Hn; [done|]. cbn [String.length] in Hn.
  destruct n as [|n]; [lia|]. apply IH. lia.
Qed.
Lemma cutAt_here sep t : cutAt sep (String sep t) = Some ("", t).
Proof. cbn [cutAt]. by rewrite bool_decide_eq_true_2. Qed.
Lemma matchWord_encoded b :
  truthy b = true → allChars (λ c, negb (bool_decide (c = "?"%char))) b →
  matchWord ("=?UTF-8?B?" +:+ b +:+ "?=") = Some ("b"%char, b, 12 + String.length b)%nat.
Proof.
  intros Hb Hq. unfold matchWord, wordStart.
  assert (toLowerCase ("=?UTF-8?B?" +:+ b +:+ "?=") =
    "=?utf-8?" +:+ String "b" (String "?" (toLowerCase (b +:+ "?=")))) as -> by reflexivity.
  rewrite startsWith_app.
  assert (String.substring 8 (String.length ("=?UTF-8?B?" +:+ b +:+ "?=")) ("=?UTF-8?B?" +:+ b +:+ "?=") =
    String "B" (String "?" (b +:+ "?="))) as ->.
  { apply (substring_suffix "=?UTF-8?"). rewrite length_string_app. simpl. lia. }
  simpl. rewrite cutAt_app, cutAt_here by done. simpl. rewrite string_app_nil_r, Hb. reflexivity.
Qed.

(** A header value that is written as it is, or as one encoded word *)
Record headerText (v : string) : Prop := {
  ht_encoded : wellEncoded v;
  ht_plain : includes v "=?" = false;
  ht_some : v ≠ "";
  ht_trimmed : isAscii v = true → trim v = v;
}.
Lemma startsWith_includes s p : startsWith s p = true → includes s p = true.
Proof. intros Hp. destruct s; cbn [includes]; by rewrite Hp. Qed.
Lemma encodeHeaderWord_cases v :
  (isAscii v = true ∧ encodeHeaderWord v = v) ∨
  (isAscii v = false ∧ encodeHeaderWord v = "=?UTF-8?B?" +:+ toBase64 v +:+ "?=").
Proof. unfold encodeHeaderWord. destruct (isAscii v); auto. Qed.
Lemma toBase64_truthy v : v ≠ "" → truthy (toBase64 v) = true.
Proof. by destruct v as [|a [|b [|c v]]]. Qed.
Lemma decodeHeader_encoded v : headerText v → decodeHeader (encodeHeaderWord v) = Ok v.
Proof.
  intros [Hw Hp Hne _]. destruct (encodeHeaderWord_cases v) as [[_ ->]|[_ ->]]; unfold decodeHeader; [by rewrite Hp|].
  rewrite startsWith_includes by reflexivity. cbn [negb].
  set (b := toBase64 v). cut (replaceWords 0 ("=?UTF-8?B?" +:+ b +:+ "?=") = (v, true)).
  { intros ->. by rewrite Hp. }
  assert (matchWord ("=?UTF-8?B?" +:+ b +:+ "?=") = Some ("b"%char, b, 12 + String.length b)%nat) as Hm.
  { apply matchWord_encoded; [by apply toBase64_truthy|by apply base64_chars]. }
  revert Hm. rewrite (string_cons_app "=" "?UTF-8?B?"). cbn [replaceWords]. intros ->.
  rewrite replaceWords_skip by (rewrite !length_string_app; simpl; lia).
  unfold decodeWord. rewrite bool_decide_eq_true_2 by done. unfold b.
  by rewrite base64_roundtrip, Hw, string_app_nil_r.
Qed.

(** The characters of an encoded value *)
Lemma encodeHeaderWord_chars f v :
  forallb (λ n, f (base64Digit n)) (seq 0 64) = true → allChars f "=?UTF-8B" →
  (isAscii v = true → allChars f v) → allChars f (encodeHeaderWord v).
Proof.
  intros Hd Hf Hv. destruct (encodeHeaderWord_cases v) as [[Ha ->]|[_ ->]]; [auto|].
  rewrite !allChars_cons in Hf. destruct_and!.
  repeat (apply allChars_app; split); try (by apply base64_chars); rewrite ?allChars_cons; auto 20 using allChars_nil.
Qed.
Lemma encoded_printable v : allChars printable (encodeHeaderWord v).
Proof. apply encodeHeaderWord_chars; [reflexivity|reflexivity|apply isAscii_printable]. Qed.
Lemma encoded_trimmed v : headerText v → trim (encodeHeaderWord v) = encodeHeaderWord v.
Proof.
  intros Hv. destruct (encodeHeaderWord_cases v) as [[Ha ->]|[_ ->]]; [by apply Hv|].
  change (trim (String "=" ("?UTF-8?B?" +:+ toBase64 v +:+ "?" +:+ String "=" "")) =
    String "=" ("?UTF-8?B?" +:+ toBase64 v +:+ "?" +:+ String "=" "")).
  rewrite <-!string_app_assoc, <-string_cons_app. by apply trim_edges.
Qed.
Lemma encoded_truthy v : headerText v → truthy (encodeHeaderWord v) = true.
Proof.
  intros Hv. destruct (encodeHeaderWord_cases v) as [[_ ->]|[_ ->]]; [|done]. apply truthy_spec, Hv.
Qed.

(** ** Addresses *)

(** The characters of an address that needs no quoting *)
Definition mailChar (c : ascii) : bool :=
  (33 <=? char_code c)%nat && (char_code c <=? 126)%nat &&
  negb (bool_decide (c ∈ [","; ";"; ":"; "<"; ">"]%char)) && negb (isQuote c).
Record mailbox (e : string) : Prop := { mb_form : email_re_test e = true; mb_chars : allChars mailChar e }.

(** A fact about the characters of an address, by enumeration *)
Ltac by_chars := intros [[] [] [] [] [] [] [] []]; vm_compute; congruence.
Lemma mailbox_chars f e : (∀ c, mailChar c = true → f c = true) → mailbox e → allChars f e.
Proof. intros Hf [_ He]. eapply allChars_impl; eauto. Qed.
Lemma mailbox_some e : mailbox e → ∃ c e', e = String c e'.
Proof. intros [He _]. destruct e; [done|eauto]. Qed.
Lemma mailbox_trim e : mailbox e → trim e = e.
Proof. intros He. apply unspaced_trim, (mailbox_chars _ e); [by_chars|done]. Qed.

Lemma angleBody_end e : allChars (λ c, negb (isAngle c)) e → angleBody (e +:+ ">") = Some e.
Proof.
  induction e as [|c e IH]; [done|]. rewrite allChars_cons, negb_true_iff. intros [Hc He].
  rewrite string_cons_app. cbn [angleBody]. rewrite Hc, IH by done. by destruct e.
Qed.
Lemma angleBody_open s t : angleBody (s +:+ String "<" t) = None.
Proof.
  induction s as [|c s IH]; [by destruct t|]. rewrite string_cons_app. cbn [angleBody].
  rewrite IH. destruct (isAngle c); by destruct s.
Qed.
Lemma matchAngle_mailbox s e :
  allChars printable s → truthy e = true → allChars (λ c, negb (isAngle c)) e →
  matchAngle (s +:+ String "<" (e +:+ ">")) = Some (s, e).
Proof.
  intros Hs Ht He. induction s as [|c s IH].
  - rewrite string_app_nil_l. cbn [matchAngle]. rewrite bool_decide_eq_true_2, angleBody_end by done.
    simpl. by rewrite Ht.
  - apply allChars_cons in Hs as [Hc Hs]. rewrite string_cons_app. cbn [matchAngle].
    destruct (printable_not c Hc). rewrite (bool_decide_eq_false_2 (c = LF)), (bool_decide_eq_false_2 (c = CR)) by done.
    rewrite angleBody_open, IH by done. simpl. by destruct (bool_decide (c = "<"%char)).
Qed.
Lemma matchAngle_none e : mailbox e → matchAngle e = None.
Proof.
  intros [_ He]. induction e as [|c e IH]; [done|]. apply allChars_cons in He as [Hc He].
  cbn [matchAngle]. rewrite IH by done.
  assert (c ≠ "<"%char ∧ c ≠ LF ∧ c ≠ CR) as (?&?&?) by (split_and!; intros ->; discriminate Hc).
  by rewrite !bool_decide_eq_false_2.
Qed.

Lemma string_exists_lower f s : (∀ c, f (lower_char c) = f c) → string_exists f (toLowerCase s) = string_exists f s.
Proof. intros Hf. induction s as [|c s IH]; [done|]. cbn [toLowerCase string_exists]. by rewrite Hf, IH. Qed.
Lemma plain_lower c : plain (lower_char c) = plain c.
Proof. revert c. by_chars. Qed.
Lemma plain1_lower s : plain1 (toLowerCase s) = plain1 s.
Proof.
  unfold plain1. rewrite string_exists_lower by (intros c; by rewrite plain_lower). by destruct s.
Qed.
Lemma dotted_tail_lower s : dotted_tail (toLowerCase s) = dotted_tail s.
Proof.
  induction s as [|c s IH]; [done|]. cbn [toLowerCase dotted_tail]. rewrite plain_lower, plain1_lower, IH.
  f_equal. f_equal. revert c. by_chars.
Qed.
Lemma at_tail_lower s : at_tail (toLowerCase s) = at_tail s.
Proof.
  induction s as [|c s IH]; [done|]. cbn [toLowerCase at_tail]. rewrite plain_lower, IH. f_equal. f_equal.
  - revert c. by_chars.
  - destruct s as [|d s]; [done|]. cbn [toLowerCase domain_part]. by rewrite plain_lower, dotted_tail_lower.
Qed.
Lemma email_re_lower e : email_re_test (toLowerCase e) = email_re_test e.
Proof. destruct e as [|c e]; [done|]. cbn [toLowerCase email_re_test]. by rewrite plain_lower, at_tail_lower. Qed.
Lemma mailbox_test e : mailbox e → addressTest (normalizeEmail e) = true.
Proof.
  intros He. unfold addressTest, normalizeEmail. rewrite mailbox_trim, email_re_lower by done.
  rewrite string_exists_lower by by_chars. rewrite (mb_form e He). simpl. apply negb_true_iff.
  apply allChars_not, (mailbox_chars _ e); [by_chars|done].
Qed.

Definition noQuote (c : ascii) : bool := negb (isQuote c).
Lemma noQuote_startsWith s : allChars noQuote s → startsWith s (String quoteMark "") = false.
Proof.
  destruct s as [|c s]; [done|]. rewrite allChars_cons. intros [Hc _]. unfold startsWith. cbn [String.prefix].
  destruct (ascii_dec quoteMark c) as [<-|]; [discriminate Hc|done].
Qed.
Lemma noQuote_includes s : allChars noQuote s → includes s (String quoteMark "") = false.
Proof.
  induction s as [|c s IH]; [done|]. intros Hs. cbn [includes]. rewrite noQuote_startsWith by done.
  apply allChars_cons in Hs as [_ Hs]. by apply IH.
Qed.

(** A sender's name, and the From header it gives *)
Record senderName_ (v : string) : Prop := {
  sn_text : headerText v; sn_unquoted : isAscii v = true → allChars noQuote v;
}.
Lemma parseAddress_from name e : senderName_ name → mailbox e →
  parseAddress (encodeHeaderWord name +:+ " " +:+ "<" +:+ e +:+ ">") = Ok (name, toLowerCase e).
Proof.
  intros [Hv Hq] He. unfold parseAddress.
  assert (trim (encodeHeaderWord name +:+ " " +:+ "<" +:+ e +:+ ">") = encodeHeaderWord name +:+ " " +:+ "<" +:+ e +:+ ">") as ->.
  { pose proof (encoded_trimmed name Hv) as [Hs _]%trim_fixed.
    pose proof (encoded_truthy name Hv) as Ht. destruct (encodeHeaderWord name) as [|c s]; [done|].
    destruct (is_space c) eqn:Hc; [by apply trimStart_shrinks in Hs|].
    rewrite string_cons_app, <-!string_app_assoc, <-string_cons_app. by apply trim_edges. }
  assert (matchAngle (encodeHeaderWord name +:+ " " +:+ "<" +:+ e +:+ ">") = Some (encodeHeaderWord name +:+ " ", e)) as ->.
  { rewrite <-string_app_assoc. apply matchAngle_mailbox.
    - apply allChars_app. split; [apply encoded_printable|done].
    - by destruct (mailbox_some e He) as (c & e' & ->).
    - apply (mailbox_chars _ e); [by_chars|done]. }
  rewrite trim_trailing by (by apply encoded_trimmed). rewrite mailbox_test by done. cbn [negb].
  assert (allChars noQuote (encodeHeaderWord name)) as Hn by (apply encodeHeaderWord_chars; [reflexivity|reflexivity|done]).
  rewrite noQuote_startsWith, noQuote_includes by done. cbn [andb]. rewrite decodeHeader_encoded by done.
  unfold normalizeEmail. by rewrite mailbox_trim.
Qed.
Lemma addressParts_plain cur s :
  allChars (λ c, noQuote c && negb (bool_decide (c = ","%char))) s → addressParts false cur s = ([cur +:+ s], false).
Proof.
  revert cur. induction s as [|c s IH]; intros cur; [by rewrite string_app_nil_r|].
  rewrite allChars_cons, andb_true_iff, negb_true_iff. unfold noQuote. rewrite negb_true_iff. intros [[Hq Hc] Hs].
  cbn [addressParts]. rewrite Hq, Hc. cbn [andb]. by rewrite IH, string_app_assoc.
Qed.
Lemma parseAddress_plain e : mailbox e → parseAddress e = Ok ("", toLowerCase e).
Proof.
  intros He. unfold parseAddress. rewrite mailbox_trim, matchAngle_none, mailbox_test by done. simpl.
  unfold normalizeEmail. by rewrite mailbox_trim.
Qed.
Lemma parseAddresses_plain e : mailbox e → parseAddresses e = Ok [("", toLowerCase e)].
Proof.
  intros He. unfold parseAddresses.
  assert (string_exists (λ c, bool_decide (c ∈ [";"%char; CR; LF])) e = false) as ->.
  { assert (allChars (λ c, negb (bool_decide (c ∈ [";"%char; CR; LF]))) e) as Hc.
    { apply (mailbox_chars _ e); [by_chars|done]. }
    by apply allChars_not. }
  rewrite addressParts_plain by (apply (mailbox_chars _ e); [by_chars|done]). rewrite string_app_nil_l.
  cbn [existsb]. rewrite mailbox_trim by done. destruct (mailbox_some e He) as (c & e' & E).
  rewrite E at 1. simpl. by rewrite parseAddress_plain.
Qed.

(** ** The header block *)

Record deliverable (m : MimeInput) : Prop := {
  dl_name : senderName_ (mi_fromName m);
  dl_from : mailbox (mi_fromEmail m);
  dl_to : mailbox (mi_toEmail m);
  dl_subject : headerText (mi_subject m);
  dl_encoded : wellEncoded (mi_body m);
  dl_noNul : string_exists (λ c, (char_code c =? 0)%nat) (mi_body m) = false;
}.
Definition fromValue (m : MimeInput) : string :=
  encodeHeaderWord (mi_fromName m) +:+ " " +:+ "<" +:+ mi_fromEmail m +:+ ">".
Definition contentTypeValue : string := "text/plain; charset=" +:+ String quoteMark ("UTF-8" +:+ String quoteMark "").
Definition headersOf (m : MimeInput) : headerMap :=
  [("from", [fromValue m]); ("to", [mi_toEmail m]); ("subject", [encodeHeaderWord (mi_subject m)]);
   ("mime-version", ["1.0"]); ("content-type", [contentTypeValue]); ("content-transfer-encoding", ["8bit"])].

Lemma mailbox_printable e : mailbox e → allChars printable e.
Proof. intros He. apply (mailbox_chars _ e); [by_chars|done]. Qed.
Lemma fromValue_printable m : mailbox (mi_fromEmail m) → allChars printable (fromValue m).
Proof.
  intros He. unfold fromValue. repeat (apply allChars_app; split); try reflexivity.
  - apply encoded_printable.
  - by apply mailbox_printable.
Qed.
Lemma mimeHeaders_lines m : deliverable m → Forall isLine (mimeHeaders m).
Proof.
  intros [_ Hf Ht _ _ _]. unfold mimeHeaders.
  repeat apply Forall_cons_2; try apply Forall_nil_2; (split; [|reflexivity]).
  - apply allChars_app. split; [reflexivity|]. exact (fromValue_printable m Hf).
  - apply allChars_app. split; [reflexivity|]. by apply mailbox_printable.
  - apply allChars_app. split; [reflexivity|]. apply encoded_printable.
  - reflexivity.
  - reflexivity.
  - reflexivity.
Qed.

(** A line is its name, a colon, a blank and the value. *)
Lemma parseLine_value headers n v :
  allChars (λ c, headerNameChar (lower_char c) && negb (is_space c) && negb (bool_decide (c = ":"%char))) n →
  n ≠ "" → trim v = v →
  parseLine headers (n +:+ ": " +:+ v) = Ok (pushHeader (toLowerCase n) v headers).
Proof.
  intros Hn Hne Hv. unfold parseLine.
  rewrite cutAt_app by (eapply allChars_impl; [|exact Hn]; intros c; rewrite !andb_true_iff; tauto).
  assert (cutAt ":" (": " +:+ v) = Some ("", " " +:+ v)) as -> by reflexivity. simpl. rewrite string_app_nil_r.
  destruct n as [|c n]; [done|]. set (x := String c n) in *. cbv iota.
  rewrite unspaced_trim by (eapply allChars_impl; [|exact Hn]; intros d; rewrite !andb_true_iff; tauto).
  assert (truthy (toLowerCase x) = true) as -> by reflexivity.
  assert (string_exists (λ c, negb (headerNameChar c)) (toLowerCase x) = false) as ->.
  { clearbody x. clear Hne. induction x as [|d y IH]; [done|]. apply allChars_cons in Hn as [Hd Hy].
    rewrite !andb_true_iff in Hd. destruct_and!. cbn [toLowerCase string_exists].
    rewrite IH, orb_false_r by done. by apply negb_false_iff. }
  simpl. by rewrite trim_blank, Hv.
Qed.
Lemma fromValue_trimmed m : deliverable m → trim (fromValue m) = fromValue m.
Proof.
  intros [[Hv _] He _ _ _ _]. unfold fromValue. pose proof (encoded_trimmed _ Hv) as [Hs _]%trim_fixed.
  pose proof (encoded_truthy _ Hv). destruct (encodeHeaderWord (mi_fromName m)) as [|c s]; [done|].
  destruct (is_space c) eqn:Hc; [by apply trimStart_shrinks in Hs|].
  rewrite string_cons_app, <-!string_app_assoc, <-string_cons_app. by apply trim_edges.
Qed.
Definition readLines (ls : list string) (headers : res headerMap) : res headerMap :=
  fold_left (λ headers line, headers ← headers; parseLine headers line) ls headers.
Lemma readLines_value headers n v ls :
  allChars (λ c, headerNameChar (lower_char c) && negb (is_space c) && negb (bool_decide (c = ":"%char))) n →
  n ≠ "" → trim v = v →
  readLines ((n +:+ ": " +:+ v) :: ls) (Ok headers) = readLines ls (Ok (pushHeader (toLowerCase n) v headers)).
Proof. intros Hn Hne Hv. unfold readLines. cbn [fold_left]. f_equal. by apply parseLine_value. Qed.
Lemma parseHeaders_of m :
  deliverable m → parseHeaders (join BREAK (mimeHeaders m)) = Ok (headersOf m).
Proof.
  intros Hm. pose proof (mimeHeaders_lines m Hm) as Hl. unfold parseHeaders.
  rewrite unfold_lines, splitOn_lines by done. clear Hl. pose proof (fromValue_trimmed m Hm) as Hf.
  destruct Hm as [_ He Ht Hs _ _].
  change (readLines (("From" +:+ ": " +:+ fromValue m) :: ("To" +:+ ": " +:+ mi_toEmail m) ::
    ("Subject" +:+ ": " +:+ encodeHeaderWord (mi_subject m)) :: skipn 3 (mimeHeaders m)) (Ok []) = Ok (headersOf m)).
  rewrite readLines_value by done. rewrite readLines_value by (done || by apply mailbox_trim).
  rewrite readLines_value by (done || by apply encoded_trimmed). reflexivity.
Qed.

(** ** The message *)

Lemma parseEnvelope_of m body : deliverable m →
  parseEnvelope (headersOf m) body =
  Ok {| pv_fromName := mi_fromName m; pv_fromEmail := toLowerCase (mi_fromEmail m);
        pv_to := [toLowerCase (mi_toEmail m)]; pv_cc := []; pv_bcc := []; pv_replyTo := None;
        pv_subject := mi_subject m; pv_body := body; pv_attachmentCount := 0%Z |}.
Proof.
  intros [Hn Hf Ht Hs _ _].
  assert (∀ h n v required, headerValues h n = [v] → truthy v = true → singleton_ h n required = Ok v) as Hsingle.
  { intros h n v required E Hv. unfold singleton_. rewrite E, Hv. by destruct required. }
  assert (truthy (fromValue m) = true ∧ truthy (mi_toEmail m) = true) as [Hvf Hvt].
  { split; [|by destruct (mailbox_some _ Ht) as (c & e & ->)]. unfold fromValue.
    pose proof (encoded_truthy _ (sn_text _ Hn)). by destruct (encodeHeaderWord (mi_fromName m)). }
  unfold parseEnvelope.
  rewrite (Hsingle _ "content-type" contentTypeValue), (Hsingle _ "content-transfer-encoding" "8bit"),
    (Hsingle _ "from" (fromValue m)), (Hsingle _ "to" (mi_toEmail m)),
    (Hsingle _ "subject" (encodeHeaderWord (mi_subject m))) by (done || by apply encoded_truthy).
  simpl. unfold fromValue. rewrite parseAddress_from by done. simpl. rewrite parseAddresses_plain by done. simpl.
  by rewrite decodeHeader_encoded.
Qed.

Definition printableBlock (m : MimeInput) : string := join CRLF (mimeHeaders m) +:+ CRLF +:+ CRLF.
Definition blockChar (c : ascii) : bool := printable c || bool_decide (c ∈ [CR; LF]).
Lemma join_chars f ls : allChars f CRLF → Forall (allChars f) ls → allChars f (join CRLF ls).
Proof.
  intros Hf. induction 1 as [|l ls Hl Hls IH]; [done|]. destruct ls as [|l' ls]; [done|].
  rewrite join_cons by done. by repeat (apply allChars_app; split).
Qed.
Lemma printableBlock_chars m : deliverable m → allChars blockChar (printableBlock m).
Proof.
  intros Hm. unfold printableBlock. apply allChars_app. split; [|done]. apply join_chars; [done|].
  eapply Forall_impl; [by apply mimeHeaders_lines|]. intros l [Hl _]. eapply allChars_impl; [|exact Hl].
  intros c Hc. unfold blockChar. by rewrite Hc.
Qed.
Lemma block_without f m : deliverable m → (∀ c, blockChar c = true → f c = false) →
  string_exists f (printableBlock m) = false.
Proof.
  intros Hm Hf. apply allChars_not. eapply allChars_impl; [|by apply printableBlock_chars].
  intros c Hc. by rewrite Hf.
Qed.
(** What is read of a message that was built *)
Definition sentEnvelope (m : MimeInput) : ProviderDraftEnvelope :=
  {| pv_fromName := mi_fromName m; pv_fromEmail := toLowerCase (mi_fromEmail m);
     pv_to := [toLowerCase (mi_toEmail m)]; pv_cc := []; pv_bcc := []; pv_replyTo := None;
     pv_subject := mi_subject m; pv_body := crlfToLf (mi_body m); pv_attachmentCount := 0%Z |}.
Lemma parse_build m : deliverable m → parseRawMessage (buildRawMessage m) = Ok (sentEnvelope m).
Proof.
  intros Hm. unfold parseRawMessage, buildRawMessage.
  assert (join CRLF (mimeHeaders m) +:+ CRLF +:+ CRLF +:+ mi_body m = printableBlock m +:+ mi_body m) as E.
  { unfold printableBlock. by rewrite !string_app_assoc. }
  destruct (base64Url_accepted (join CRLF (mimeHeaders m) +:+ CRLF +:+ CRLF +:+ mi_body m)) as [-> ->].
  { by destruct (encodeHeaderWord (mi_fromName m)). }
  cbn [negb orb]. rewrite base64Url_decoded, E, decode_ascii_app, (dl_encoded m Hm)
    by (apply block_without; [done|by_chars]).
  rewrite string_exists_app, (block_without _ m), (dl_noNul m Hm) by (done || by_chars). cbn [orb].
  unfold printableBlock. rewrite !string_app_assoc, crlfToLf_lines, !crlfToLf_break by by apply mimeHeaders_lines.
  change (String LF (String LF (crlfToLf (mi_body m)))) with (BREAK +:+ BREAK +:+ crlfToLf (mi_body m)).
  rewrite cutBoundary_lines by (done || by apply mimeHeaders_lines).
  rewrite parseHeaders_of by done. by apply parseEnvelope_of.
Qed.

(** ** The draft of an approved email *)

(** What [GmailDraftService.createDraft] builds *)
Definition approvedMessage (senderName account recipient subject resolvedBody : string) : MimeInput :=
  {| mi_fromName := senderName; mi_fromEmail := account; mi_toEmail := recipient; mi_subject := subject;
     mi_body := resolveSenderName resolvedBody senderName |}.

Lemma crlfToLf_length s : (String.length (crlfToLf s) <= String.length s)%nat.
Proof.
  induction s as [|c s IH]; [done|]. cbn [crlfToLf String.length]. destruct (_ && _); cbn [String.length]; lia.
Qed.
Lemma crlfToLf_shrinks s : includes s CRLF = true → (String.length (crlfToLf s) < String.length s)%nat.
Proof.
  induction s as [|c s IH]; [done|]. cbn [includes crlfToLf String.length]. pose proof (crlfToLf_length s) as Hl.
  intros [Hp|Hp]%orb_true_iff.
  - unfold startsWith, CRLF in *. cbn [String.prefix] in Hp. destruct (ascii_dec CR c) as [<-|]; [|done].
    rewrite bool_decide_eq_true_2 by done. cbn [andb]. rewrite Hp. lia.
  - specialize (IH Hp). destruct (_ && _); cbn [String.length]; lia.
Qed.
Lemma crlfToLf_neq s : neq (crlfToLf s) s = includes s CRLF.
Proof.
  destruct (includes s CRLF) eqn:E; unfold neq.
  - apply negb_true_iff, bool_decide_eq_false_2. intros Es. apply crlfToLf_shrinks in E. rewrite Es in E. lia.
  - apply negb_false_iff, bool_decide_eq_true_2. by apply crlfToLf_plain.
Qed.
Lemma neq_refl s : neq s s = false.
Proof. by apply neq_false. Qed.

Lemma approved_envelope senderName account recipient subject resolvedBody expected :
  deliverable (approvedMessage senderName account recipient subject resolvedBody) →
  expectedDraftEnvelope senderName account recipient subject resolvedBody None = Ok expected →
  compareProviderEnvelope expected (sentEnvelope (approvedMessage senderName account recipient subject resolvedBody)) =
    when (includes (resolveSenderName resolvedBody senderName) CRLF) "body_changed".
Proof.
  intros Hm He. unfold expectedDraftEnvelope in He. case_match; [discriminate He|]. injection He as <-.
  destruct Hm as [_ Hf Ht _ _ _]. cbn [approvedMessage mi_fromEmail mi_toEmail] in Hf, Ht.
  assert (∀ e, mailbox e → normalizeEmail (toLowerCase e) = normalizeEmail (normalizeEmail e)) as Hnorm.
  { intros e Hmb. rewrite normalizeEmail_idem. unfold normalizeEmail.
    by rewrite <-toLowerCase_trim, (mailbox_trim e Hmb), toLowerCase_idem. }
  unfold compareProviderEnvelope, sentEnvelope. cbn [pv_fromName pv_fromEmail pv_to pv_cc pv_bcc pv_replyTo pv_subject
    pv_body pv_attachmentCount approvedMessage mi_fromName mi_fromEmail mi_toEmail mi_subject mi_body head hd_error
    from_option length]. unfold id.
  rewrite (Hnorm account Hf), (Hnorm recipient Ht), !neq_refl, crlfToLf_neq. reflexivity.
Qed.

(** C10: A draft survives the way to Gmail and back: of a message whose name, subject and
    addresses can be written in a header, the strict parser of the send service reads
    exactly the sender, the one recipient, the subject and the body that the draft was
    built from, no copies and no attachment.  Compared with the approved envelope it shows
    no difference at all, but for one case, which fails closed: an approved body with a
    carriage return before a line feed comes back without it, and is reported as changed. *)
Theorem draft_passes_inspection senderName account recipient subject resolvedBody expected :
  deliverable (approvedMessage senderName account recipient subject resolvedBody) →
  expectedDraftEnvelope senderName account recipient subject resolvedBody None = Ok expected →
  ∃ actual,
    parseRawMessage (buildRawMessage (approvedMessage senderName account recipient subject resolvedBody)) =
      Ok actual ∧
    compareProviderEnvelope expected actual =
      when (includes (resolveSenderName resolvedBody senderName) CRLF) "body_changed".
Proof.
  intros Hm He. eexists. split; [by apply parse_build|]. by apply approved_envelope.
Qed.
Definition sampleBody : string := "Hallo," +:+ BREAK +:+ "gute Seite! {{SENDER_NAME}}".
Lemma sampleMessage_deliverable :
  deliverable (approvedMessage "Zoë" "Me@agency.de" "info@praxis.de" "Grüße" sampleBody).
Proof.
  split; [split; [split|]|split|split|split|..]; try (vm_compute; reflexivity); vm_compute; discriminate.
Qed.
Lemma draft_passes_inspection_witness :
  ∃ expected actual,
    expectedDraftEnvelope "Zoë" "Me@agency.de" "info@praxis.de" "Grüße" sampleBody None = Ok expected ∧
    parseRawMessage (buildRawMessage (approvedMessage "Zoë" "Me@agency.de" "info@praxis.de" "Grüße" sampleBody)) =
      Ok actual ∧ pv_body actual = "Hallo," +:+ BREAK +:+ "gute Seite! Zoë" ∧
    compareProviderEnvelope expected actual = [].
Proof.
  destruct (draft_passes_inspection "Zoë" "Me@agency.de" "info@praxis.de" "Grüße" sampleBody _
    sampleMessage_deliverable eq_refl) as (actual & Hp & Hc).
  exists (match expectedDraftEnvelope "Zoë" "Me@agency.de" "info@praxis.de" "Grüße" sampleBody None with
          | Ok e => e | Throw _ => actual end), actual.
  split; [reflexivity|]. split; [exact Hp|]. split; [|exact Hc].
  assert (match parseRawMessage (buildRawMessage (approvedMessage "Zoë" "Me@agency.de" "info@praxis.de" "Grüße"
    sampleBody)) with Ok a => pv_body a | Throw _ => "" end = "Hallo," +:+ BREAK +:+ "gute Seite! Zoë") as E
    by (vm_compute; reflexivity).
  rewrite Hp in E. exact E.
Defined.
