(* ===== verification/SendService.v ===== *)
(** * The send service: src/domain/send/send-service.ts

    One controlled send: the checks, the preflight, the reservation of an attempt,
    the single call of the provider, and the recording of its outcome. *)
From S2P Require Import Prelude.
From S2P Require Import JsText.
From S2P Require Import TimeZone.
From S2P Require Import Scheduler.
From S2P Require Import LeadLifecycle.
From S2P Require Import PipelineDb.
From S2P Require Import SendGate.
Open Scope Z_scope.
Open Scope list_scope.

(** ** Inputs, configuration and results *)

Inductive SendOutcome :=
  | READY | SENT_CONFIRMED | SENDING_DISABLED | OUTBOUND_ACTIONS_DISABLED | DRY_RUN_ACTIVE
  | INVALID_ELIGIBILITY | READINESS_INVALID | NOT_CONFIRMED | PROVIDER_VERIFICATION_FAILED
  | BINDING_INVALIDATED | TOO_LATE | RECIPIENT_SUPPRESSED | NOT_DUE | ALREADY_SENT
  | DUPLICATE_PREVENTED | RATE_LIMITED | DEFINITIVE_FAILURE | AUTH_ERROR | OUTCOME_UNKNOWN
  | DAILY_CAP_REACHED | OUTREACH_SUPPRESSED.
#[global] Instance SendOutcome_eq_dec : EqDecision SendOutcome.
Proof. solve_decision. Defined.
Definition sendOutcomeText (o : SendOutcome) : string :=
  match o with
  | READY => "READY" | SENT_CONFIRMED => "SENT_CONFIRMED" | SENDING_DISABLED => "SENDING_DISABLED"
  | OUTBOUND_ACTIONS_DISABLED => "OUTBOUND_ACTIONS_DISABLED" | DRY_RUN_ACTIVE => "DRY_RUN_ACTIVE"
  | INVALID_ELIGIBILITY => "INVALID_ELIGIBILITY" | READINESS_INVALID => "READINESS_INVALID"
  | NOT_CONFIRMED => "NOT_CONFIRMED" | PROVIDER_VERIFICATION_FAILED => "PROVIDER_VERIFICATION_FAILED"
  | BINDING_INVALIDATED => "BINDING_INVALIDATED" | TOO_LATE => "TOO_LATE"
  | RECIPIENT_SUPPRESSED => "RECIPIENT_SUPPRESSED" | NOT_DUE => "NOT_DUE"
  | ALREADY_SENT => "ALREADY_SENT" | DUPLICATE_PREVENTED => "DUPLICATE_PREVENTED"
  | RATE_LIMITED => "RATE_LIMITED" | DEFINITIVE_FAILURE => "DEFINITIVE_FAILURE"
  | AUTH_ERROR => "AUTH_ERROR" | OUTCOME_UNKNOWN => "OUTCOME_UNKNOWN"
  | DAILY_CAP_REACHED => "DAILY_CAP_REACHED" | OUTREACH_SUPPRESSED => "OUTREACH_SUPPRESSED"
  end.

Record SendConfig := {
  cfg_gmailAccount : string; cfg_senderName : option string; cfg_policyVersion : string;
  cfg_sendingEnabled : bool; cfg_outboundActionsEnabled : bool; cfg_dryRun : bool;
  cfg_maxLateMs : Z; cfg_confirmationTtlMs : Z; cfg_dailyCap : Z;
}.
Record PreflightProof := {
  pp_sendFingerprint : string; pp_providerEnvelopeHash : string; pp_checkedAtMs : Z;
  pp_proofHash : string;
}.
Record CurrentGmailDraft := {
  gd_id : string; gd_outcome : string; gd_providerDraftId : option string;
  gd_providerMessageId : option string; gd_providerThreadId : option string;
  gd_gmailAccount : string; gd_senderEmail : string; gd_recipientEmail : string;
  gd_finalizedEmailId : option string;
}.
Record Finalization := {
  fz_id : string; fz_resolvedBody : string; fz_resolvedBodyHash : string;
  fz_finalHumanDecision : option string; fz_finalReviewedAt : option Z;
}.
Record SendInput := {
  in_leadId : string; in_leadStatus : string; in_schedule : option ScheduleView;
  in_currentGmailDraft : option CurrentGmailDraft; in_finalization : option Finalization;
  in_currentFinalizedContentHash : option string; in_currentRecipientEmail : option string;
  in_subject : option string; in_normalizedDomain : option string;
  in_normalizedPhone : option string; in_placeId : option string;
  in_confirmation : option ConfirmationView; in_preflightProof : option PreflightProof;
}.
Record SendResultOut := {
  out_leadId : string; out_outcome : SendOutcome; out_reason : option string;
  out_preflightProof : option PreflightProof;
}.

(** ** The provider: src/integrations/send/provider.ts

    Its answers may differ from call to call; like the clock, they are indexed by the
    number of clock readings made so far.  Every call may also throw. *)
Inductive SendResultOutcome := prov_ok | prov_definitive_failure | prov_rate_limited | prov_auth_error | prov_unknown.
#[global] Instance SendResultOutcome_eq_dec : EqDecision SendResultOutcome.
Proof. solve_decision. Defined.
Definition sendResultText (o : SendResultOutcome) : string :=
  match o with
  | prov_ok => "ok" | prov_definitive_failure => "definitive_failure"
  | prov_rate_limited => "rate_limited" | prov_auth_error => "auth_error" | prov_unknown => "unknown"
  end.
Record SendRef := { ref_providerMessageId : string; ref_providerThreadId : option string }.
Record SendResult := {
  res_outcome : SendResultOutcome; res_ref : option SendRef; res_reason : option string;
}.
Record InspectedDraft := {
  insp_envelope : ProviderDraftEnvelope; insp_providerDraftId : option string;
  insp_providerMessageId : option string; insp_providerThreadId : option string;
}.
Inductive DraftInspectionResult :=
  | Inspected (d : InspectedDraft)
  | NotInspected (outcome reason : string).
Record AccountCheck := { acc_ok : bool; acc_email : option string }.
Class SendProvider := {
  verifyAccount : nat → string → res AccountCheck;
  getKnownDraft : nat → string → res DraftInspectionResult;
  sendExistingDraft : nat → string → res SendResult;
}.

Section service.
Context `{Runtime, OrmErrors, SendProvider} (c : SendConfig) (source : ReadinessSource).
(** What other processes do to the database between the steps of a send; one that
    throws is a crash of this process at that step. *)
Context (interfere : nat → PM ()).

Definition out (leadId : string) (outcome : SendOutcome) (reason : option string) : SendResultOut :=
  {| out_leadId := leadId; out_outcome := outcome; out_reason := reason; out_preflightProof := None |}.
Definition note (leadId runId : string) (outcome : SendOutcome) (data : json) : NewPipelineEvent :=
  noteEvent leadId (if truthy runId then Some runId else None) ("send: " +:+ sendOutcomeText outcome) data.
Definition identity (input : SendInput) : SuppressionIdentity :=
  {| si_email := in_currentRecipientEmail input; si_domain := in_normalizedDomain input;
     si_phone := in_normalizedPhone input; si_placeId := in_placeId input |}.

Definition finishUnknown (input : SendInput) (runId attemptId : string) (callStartedAt : Z)
    (reason : string) : PM SendResultOut :=
  transaction (
    nowD ← now;
    completeAttempt attemptId [set_attemptStatus AT_OUTCOME_UNKNOWN; set_errorClass (Some "unknown");
                               set_callStartedAt (Some callStartedAt); set_completedAt (Some nowD)] ;;
    transitionFrom (in_leadId input) SCHEDULED NEEDS_MANUAL_REVIEW ;;
    recordEvent (note (in_leadId input) runId OUTCOME_UNKNOWN
      (JObj [("manualReconcileRequired", JBool true)]))) ;;
  mret (out (in_leadId input) OUTCOME_UNKNOWN (Some reason)).
Definition routeInvalidate (input : SendInput) (runId : string) (outcome : SendOutcome)
    (reason : string) : PM SendResultOut :=
  transaction (
    (match in_schedule input with
     | Some sch => nowD ← now; invalidateSchedule (sv_id sch) reason nowD
     | None => mret tt
     end) ;;
    transitionFrom (in_leadId input) SCHEDULED NEEDS_MANUAL_REVIEW ;;
    recordEvent (note (in_leadId input) runId outcome (JObj [("reason", JStr reason)]))) ;;
  mret (out (in_leadId input) outcome (Some reason)).
Definition routeManual (input : SendInput) (runId : string) (outcome : SendOutcome)
    (reason : string) : PM SendResultOut :=
  transaction (
    transitionFrom (in_leadId input) SCHEDULED NEEDS_MANUAL_REVIEW ;;
    recordEvent (note (in_leadId input) runId outcome (JObj [("reason", JStr reason)]))) ;;
  mret (out (in_leadId input) outcome (Some reason)).

Record SendState := {
  st_schedule : ScheduleView; st_readiness : SendingReadinessRecord; st_envelopeHash : string;
  st_sendFp : string; st_expected : ProviderDraftEnvelope;
}.

Definition recomputedFingerprint (input : SendInput) (sched : ScheduleView) : option string :=
  match in_currentGmailDraft input with
  | Some draft =>
      if truthy_opt (gd_providerDraftId draft) && truthy_opt (in_currentFinalizedContentHash input) &&
         truthy_opt (in_currentRecipientEmail input)
      then Some (scheduleIntegrityFingerprint {|
        sb_leadId := in_leadId input; sb_gmailDraftId := gd_id draft;
        sb_providerDraftId := default "" (gd_providerDraftId draft);
        sb_finalizedContentHash := default "" (in_currentFinalizedContentHash input);
        sb_recipientEmail := default "" (in_currentRecipientEmail input);
        sb_scheduledAtUtcMs := sv_scheduledAtUtcMs sched; sb_rulesVersion := sv_rulesVersion sched |})
      else None
  | None => None
  end.
Definition envelopeHashOf (input : SendInput) (sched : ScheduleView) : string :=
  approvedEnvelopeHash {|
    ae_gmailAccount := cfg_gmailAccount c; ae_recipientEmail := default "" (in_currentRecipientEmail input);
    ae_subject := default "" (in_subject input);
    ae_finalizedContentHash := default "" (in_currentFinalizedContentHash input);
    ae_scheduleId := sv_id sched; ae_scheduledAtUtcMs := sv_scheduledAtUtcMs sched; ae_replyTo := None |}.

(** What the gate inspects, once the stores have been read *)
Definition snapshotOf (input : SendInput) (sched : ScheduleView) (ready : option SendingReadinessRecord)
    (sendFp : string) (suppressed hasConfirmed hasBlocking : bool) (lastFailure : option Z)
    (nowMs confirmedToday : Z) : SendEligibilitySnapshot :=
  let draft := in_currentGmailDraft input in
  let recipient := in_currentRecipientEmail input in
  {| ss_leadStatus := in_leadStatus input; ss_schedule := Some sched;
     ss_recomputedIntegrityFingerprint := recomputedFingerprint input sched;
     ss_currentGmailDraft := (λ d, (gd_outcome d, gd_providerDraftId d)) <$> draft;
     ss_currentFinalizedContentHash := in_currentFinalizedContentHash input;
     ss_currentRecipientEmail := recipient;
     ss_finalizationApproved :=
       match in_finalization input with
       | Some f => bool_decide (fz_finalHumanDecision f = Some "APPROVED") &&
                   bool_decide (is_Some (fz_finalReviewedAt f))
       | None => false
       end;
     ss_draftBindingValid :=
       match draft, in_finalization input with
       | Some d, Some f => bool_decide (gd_id d = sv_gmailDraftId sched) &&
                           bool_decide (gd_finalizedEmailId d = Some (fz_id f))
       | _, _ => false
       end;
     ss_gmailAccountMatches :=
       match draft with
       | Some d => bool_decide (toLowerCase (gd_gmailAccount d) = toLowerCase (cfg_gmailAccount c))
       | None => false
       end;
     ss_draftRecipientMatches :=
       match draft with
       | Some d => truthy_opt recipient &&
                   bool_decide (toLowerCase (gd_recipientEmail d) = toLowerCase (default "" recipient))
       | None => false
       end;
     ss_recipientSuppressed := suppressed;
     ss_readiness := (λ r, {| rv_id := ra_id r; rv_gmailAccount := ra_gmailAccount r;
       rv_policyVersion := ra_policyVersion r; rv_approvedAtMs := ra_approvedAt r;
       rv_expiresAtMs := ra_expiresAt r; rv_revoked := bool_decide (is_Some (ra_revokedAt r)) |}) <$> ready;
     ss_confirmation := in_confirmation input; ss_approvedEnvelopeHash := envelopeHashOf input sched;
     ss_expectedSendFingerprint := sendFp; ss_configGmailAccount := cfg_gmailAccount c;
     ss_configPolicyVersion := cfg_policyVersion c; ss_sendingEnabled := cfg_sendingEnabled c;
     ss_outboundActionsEnabled := cfg_outboundActionsEnabled c; ss_dryRun := cfg_dryRun c;
     ss_nowMs := nowMs; ss_maxLateMs := cfg_maxLateMs c;
     ss_confirmationTtlMs := cfg_confirmationTtlMs c; ss_hasConfirmedAttempt := hasConfirmed;
     ss_hasBlockingAttempt := hasBlocking; ss_lastDefinitiveFailureAtMs := lastFailure;
     ss_confirmedSendsToday := confirmedToday; ss_dailyCap := cfg_dailyCap c |}.

Definition refusal (input : SendInput) (elig : SendEligibilityResult) (mutateInvalid : bool) :
    PM SendResultOut :=
  let leadId := in_leadId input in
  let route (f : SendInput → string → SendOutcome → string → PM SendResultOut) outcome reason :=
    if mutateInvalid then f input "" outcome reason else mret (out leadId outcome (Some reason)) in
  if el_alreadySent elig then mret (out leadId ALREADY_SENT (Some "already_sent"))
  else if el_blocked elig then mret (out leadId DUPLICATE_PREVENTED (Some "blocking_attempt_exists"))
  else if el_bindingInvalid elig then route routeInvalidate BINDING_INVALIDATED "binding_invalidated"
  else if el_tooLate elig then route routeInvalidate TOO_LATE "too_late"
  else if el_suppressed elig then route routeManual RECIPIENT_SUPPRESSED "recipient_suppressed"
  else if el_notDue elig then mret (out leadId NOT_DUE (Some "not_due"))
  else
    let reasons := el_reasons elig in
    let outcome :=
      if bool_decide ("daily_cap_reached" ∈ reasons) then DAILY_CAP_REACHED
      else if existsb (λ r, includes r "readiness") reasons then READINESS_INVALID
      else if existsb (λ r, includes r "confirmation") reasons then NOT_CONFIRMED
      else INVALID_ELIGIBILITY in
    mret (out leadId outcome (Some (join "," reasons))).

(** The private method [state]: a result to return at once, or the state of the send *)
Definition state (input : SendInput) (requireConfirmation mutateInvalid : bool) :
    PM (SendResultOut + SendState) :=
  let leadId := in_leadId input in
  if negb (cfg_sendingEnabled c) then
    mret (inl (out leadId SENDING_DISABLED (Some "sending_disabled")))
  else if negb (cfg_outboundActionsEnabled c) then
    mret (inl (out leadId OUTBOUND_ACTIONS_DISABLED (Some "outbound_actions_disabled")))
  else if cfg_dryRun c then mret (inl (out leadId DRY_RUN_ACTIVE (Some "dry_run_enabled")))
  else
    match in_schedule input with
    | None => mret (inl (out leadId INVALID_ELIGIBILITY (Some "no_active_schedule")))
    | Some sched =>
        let envelopeHash := envelopeHashOf input sched in
        ready ← readiness source (cfg_gmailAccount c) (cfg_policyVersion c);
        let sendFp := match ready with
          | Some r => sendFingerprint (sv_id sched) (sv_gmailDraftId sched) envelopeHash (ra_id r)
          | None => "" end in
        suppressed ← activeSuppressions (identity input);
        lastFailure ← lastDefinitiveFailureAt (sv_id sched);
        nowMs ← now;
        hasConfirmed ← hasConfirmedAttempt (sv_id sched);
        hasBlocking ← hasBlockingAttempt (sv_id sched);
        nowD ← now;
        confirmedToday ← confirmedSendsToday (cfg_gmailAccount c) nowD;
        let snapshot := snapshotOf input sched ready sendFp (0 <? length suppressed)%nat
                          hasConfirmed hasBlocking lastFailure nowMs confirmedToday in
        let elig := checkSendEligibility snapshot requireConfirmation in
        if negb (el_eligible elig) then
          r ← refusal input elig mutateInvalid; mret (inl r)
        else
          match cfg_senderName c, in_currentGmailDraft input, in_currentRecipientEmail input,
                in_subject input, in_finalization input, ready with
          | Some senderName, Some draft, Some recipient, Some subject, Some finalization, Some r =>
              if truthy senderName && truthy recipient && truthy subject then
                match expectedDraftEnvelope senderName (gd_senderEmail draft) recipient subject
                        (fz_resolvedBody finalization) None with
                | Ok expected =>
                    mret (inr {| st_schedule := sched; st_readiness := r;
                                 st_envelopeHash := envelopeHash; st_sendFp := sendFp;
                                 st_expected := expected |})
                | Throw _ =>
                    mret (inl (out leadId INVALID_ELIGIBILITY (Some "approved_envelope_invalid")))
                end
              else mret (inl (out leadId INVALID_ELIGIBILITY (Some "approved_envelope_incomplete")))
          | _, _, _, _, _, _ =>
              mret (inl (out leadId INVALID_ELIGIBILITY (Some "approved_envelope_incomplete")))
          end
    end.

(** The result [{ ok: true; envelopeHash }] or [{ ok: false; reason }] *)
Definition verifyProvider (expected : ProviderDraftEnvelope) (stored : option CurrentGmailDraft) :
    PM (string + string) :=
  match stored with
  | Some d =>
      if truthy_opt (gd_providerDraftId d) && truthy_opt (gd_providerMessageId d) &&
         truthy_opt (gd_providerThreadId d) then
        account ← ask (λ n, verifyAccount n (cfg_gmailAccount c));
        if negb (acc_ok account &&
                 bool_decide (toLowerCase <$> acc_email account = Some (toLowerCase (cfg_gmailAccount c))))
        then mret (inr "authenticated_account_mismatch")
        else
          draft ← ask (λ n, getKnownDraft n (default "" (gd_providerDraftId d)));
          match draft with
          | NotInspected outcome _ => mret (inr ("known_draft_" +:+ outcome))
          | Inspected i =>
              if bool_decide (is_Some (insp_providerDraftId i)) &&
                 negb (bool_decide (insp_providerDraftId i = gd_providerDraftId d))
              then mret (inr "known_draft_identity_changed")
              else if negb (bool_decide (insp_providerMessageId i = gd_providerMessageId d))
              then mret (inr "known_message_identity_changed")
              else if negb (bool_decide (insp_providerThreadId i = gd_providerThreadId d))
              then mret (inr "known_thread_identity_changed")
              else
                let problems := compareProviderEnvelope expected (insp_envelope i) in
                if (0 <? length problems)%nat then mret (inr (join "," problems))
                else mret (inl (providerEnvelopeHash (insp_envelope i)))
          end
      else mret (inr "known_draft_identity_missing")
  | None => mret (inr "known_draft_identity_missing")
  end.

Definition preflight (input : SendInput) : PM SendResultOut :=
  st ← state input false false;
  match st with
  | inl result => mret result
  | inr st =>
      provider ← verifyProvider (st_expected st) (in_currentGmailDraft input);
      match provider with
      | inr reason => mret (out (in_leadId input) PROVIDER_VERIFICATION_FAILED (Some reason))
      | inl envelopeHash =>
          checkedAtMs ← now;
          mret {| out_leadId := in_leadId input; out_outcome := READY; out_reason := None;
                  out_preflightProof := Some {| pp_sendFingerprint := st_sendFp st;
                    pp_providerEnvelopeHash := envelopeHash; pp_checkedAtMs := checkedAtMs;
                    pp_proofHash := preflightProofHash (st_sendFp st) envelopeHash checkedAtMs |} |}
      end
  end.

Definition attemptOf (input : SendInput) (st : SendState) (confirmation : ConfirmationView)
    (id : string) (reservedAt : Z) : SendAttemptRecord :=
  {| sa_id := id; sa_leadId := in_leadId input; sa_scheduleId := sv_id (st_schedule st);
     sa_gmailDraftId := sv_gmailDraftId (st_schedule st);
     sa_readinessApprovalId := ra_id (st_readiness st); sa_gmailAccount := cfg_gmailAccount c;
     sa_recipientHash := recipientHash (default "" (in_currentRecipientEmail input));
     sa_finalizedContentHash := default "" (in_currentFinalizedContentHash input);
     sa_scheduleIntegrityFingerprint := sv_storedIntegrityFingerprint (st_schedule st);
     sa_approvedEnvelopeHash := st_envelopeHash st; sa_observedEnvelopeHash := st_envelopeHash st;
     sa_sendFingerprint := st_sendFp st;
     sa_confirmationFingerprint := confirmationFingerprint (st_sendFp st)
       (cf_confirmedBy confirmation) (cf_observedSendFingerprint confirmation);
     sa_confirmedBy := cf_confirmedBy confirmation; sa_confirmedAt := cf_confirmedAtMs confirmation;
     sa_status := RESERVED; sa_providerMessageId := None; sa_providerThreadId := None;
     sa_errorClass := None; sa_reservedAt := reservedAt; sa_callStartedAt := None;
     sa_completedAt := None |}.

(** The call of the provider: logged, and answered by a result or an exception *)
Definition dispatch (attemptId providerDraftId : string) : PM (res SendResult) :=
  modify (setDispatched (λ l, l ++ [{| dp_attemptId := attemptId; dp_providerDraftId := providerDraftId |}])) ;;
  ((λ w, (Ok (sendExistingDraft (w_ticks w) providerDraftId), w)) : PM (res SendResult)).

(** What the answer of the provider leads to *)
Definition finish (input : SendInput) (runId attemptId scheduleId : string) (callStartedAt : Z)
    (response : res SendResult) : PM SendResultOut :=
  match response with
  | Throw _ => finishUnknown input runId attemptId callStartedAt "provider_exception"
  | Ok r =>
      let messageId := ref_providerMessageId <$> res_ref r in
      if bool_decide (res_outcome r = prov_ok) && truthy_opt messageId then
        transaction (
          completedAt ← now;
          completeAttempt attemptId [set_attemptStatus AT_SENT_CONFIRMED; set_providerMessageId messageId;
            set_providerThreadId (res_ref r ≫= ref_providerThreadId); set_completedAt (Some completedAt)] ;;
          fulfilledAt ← now;
          markScheduleFulfilled scheduleId fulfilledAt ;;
          transitionFrom (in_leadId input) SCHEDULED SENT ;;
          recordEvent (note (in_leadId input) runId SENT_CONFIRMED
            (JObj [("providerConfirmed", JBool true)]))) ;;
        mret (out (in_leadId input) SENT_CONFIRMED None)
      else if bool_decide (res_outcome r = prov_unknown) || bool_decide (res_outcome r = prov_ok) then
        finishUnknown input runId attemptId callStartedAt "provider_outcome_unknown"
      else
        let outcome := match res_outcome r with
          | prov_rate_limited => RATE_LIMITED | prov_auth_error => AUTH_ERROR
          | _ => DEFINITIVE_FAILURE end in
        transaction (
          completedAt ← now;
          completeAttempt attemptId [set_attemptStatus AT_DEFINITIVE_FAILURE;
            set_errorClass (Some (sendResultText (res_outcome r))); set_completedAt (Some completedAt)] ;;
          recordEvent (note (in_leadId input) runId outcome
            (JObj [("errorClass", JStr (sendResultText (res_outcome r)))]))) ;;
        mret (out (in_leadId input) outcome (res_reason r))
  end.

(** The proof was issued by [preflight] for this send; its age is checked separately. *)
Definition proofGenuine (st : SendState) (proof : PreflightProof) : bool :=
  bool_decide (pp_sendFingerprint proof = st_sendFp st) &&
  bool_decide (pp_proofHash proof = preflightProofHash (pp_sendFingerprint proof)
                 (pp_providerEnvelopeHash proof) (pp_checkedAtMs proof)).
Definition checkProof (st : SendState) (proof : option PreflightProof) : PM (option PreflightProof) :=
  match proof with
  | Some proof =>
      if proofGenuine st proof then
        nowMs ← now;
        mret (if cfg_confirmationTtlMs c <? nowMs - pp_checkedAtMs proof then None else Some proof)
      else mret None
  | None => mret None
  end.

(** The part of [send] after the reservation of the attempt *)
Definition sendReserved (input : SendInput) (runId attemptId scheduleId : string) : PM SendResultOut :=
  interfere 3%nat ;;
  callStartedAt ← now;
  transaction (completeAttempt attemptId
    [set_attemptStatus CALL_STARTED; set_callStartedAt (Some callStartedAt)]) ;;
  interfere 4%nat ;;
  response ← dispatch attemptId (default "" (in_currentGmailDraft input ≫= gd_providerDraftId));
  interfere 5%nat ;;
  finish input runId attemptId scheduleId callStartedAt response.

(** The reservation of the attempt; a confirmation exists here, since the gate required it. *)
Definition reserveAndSend (input : SendInput) (runId : string) (st : SendState) : PM SendResultOut :=
  id ← randomUUID;
  match in_confirmation input with
  | None => throw (JsError "Cannot read properties of null (reading 'confirmedBy')")
  | Some confirmation =>
      reservedAt ← now;
      reservation ← reserveAttempt (attemptOf input st confirmation id reservedAt) (cfg_dailyCap c);
      match reservation with
      | DailyCap =>
          mret (out (in_leadId input) DAILY_CAP_REACHED (Some "daily_cap_reached_at_reservation"))
      | Duplicate => mret (out (in_leadId input) DUPLICATE_PREVENTED (Some "reserve_conflict"))
      | Reserved => sendReserved input runId id (sv_id (st_schedule st))
      end
  end.

Definition send (input : SendInput) (runId : string) : PM SendResultOut :=
  let leadId := in_leadId input in
  st ← state input true true;
  match st with
  | inl result => mret result
  | inr st =>
      proof ← checkProof st (in_preflightProof input);
      match proof with
      | None => mret (out leadId NOT_CONFIRMED (Some "preflight_proof_invalid_or_expired"))
      | Some proof =>
          interfere 0%nat ;;
          provider ← verifyProvider (st_expected st) (in_currentGmailDraft input);
          match provider with
          | inr reason => mret (out leadId PROVIDER_VERIFICATION_FAILED (Some reason))
          | inl envelopeHash =>
              if neq envelopeHash (pp_providerEnvelopeHash proof) then
                mret (out leadId PROVIDER_VERIFICATION_FAILED (Some "draft_changed_after_confirmation"))
              else
                interfere 1%nat ;;
                suppressed ← activeSuppressions (identity input);
                if (0 <? length suppressed)%nat then
                  mret (out leadId RECIPIENT_SUPPRESSED (Some "recipient_suppressed_before_reservation"))
                else
                  interfere 2%nat ;;
                  reserveAndSend input runId st
          end
      end
  end.
End service.
