(* ===== verification/GmailHttp.v ===== *)
(** * The Gmail send provider: src/integrations/send/http-gmail-send.ts

    The requests that the provider makes over an HTTPS transport, and how it classifies the
    answers; and [parseKnownGmailDraft] of src/integrations/send/gmail-draft-parser.ts, which
    reads the answer that holds a draft.  The access token and the transport are outside
    of the program: either may fail at any call. *)
From S2P Require Import Prelude.
From S2P Require Import JsText.
From S2P Require Import JsonText.
From S2P Require Import SendGate.
From S2P Require Import Mime.
From S2P Require Import SendService.
Open Scope string_scope.
Open Scope Z_scope.

(** ** The transport *)

Inductive HttpMethod := GET | POST.
Record GmailHttpRequest := {
  rq_method : HttpMethod; rq_url : string; rq_headers : list (string * string); rq_body : option string;
  rq_timeoutMs : Z;
}.
Record GmailHttpResponse := { rs_status : Z; rs_body : string }.
(** The time allowed for a request is configured.  Answers may differ from call to call,
    like those of every service. *)
Class GmailTransport := {
  timeoutMs : Z;
  getAccessToken : nat → res string;
  request : nat → GmailHttpRequest → res GmailHttpResponse;
}.

(** A result, and the requests that were made for it *)
Definition http (A : Type) : Type := A * list GmailHttpRequest.
#[global] Instance http_ret : MRet http := λ A a, (a, []).
#[global] Instance http_bind : MBind http := λ A B k m,
  let '(a, made) := m in let '(b, more) := k a in (b, (made ++ more)%list).

Inductive CallFailure := fail_auth | fail_unknown.
Definition GMAIL_API_ORIGIN : string := "https://gmail.googleapis.com".

(** ** A draft that was read: parseKnownGmailDraft *)

Record ParsedKnownDraft := {
  kd_providerDraftId : string; kd_providerMessageId : string; kd_providerThreadId : option string;
  kd_envelope : ProviderDraftEnvelope;
}.
(** A string, or none where the field is absent or null *)
Definition optionalString (v : option value) : res (option string) :=
  match v with
  | None | Some VNull => Ok None
  | Some (VStr s) => Ok (Some s)
  | _ => failWith "thread_identity_invalid"
  end.
Definition inDraftState (v : option value) : bool :=
  match v with
  | Some (VArr labels) =>
      forallb (λ l, isString (Some l)) labels && existsb (λ l, bool_decide (asString (Some l) = Some "DRAFT")) labels
  | _ => false
  end.
(** [typeof v === 'object'], but for [null] *)
Definition isObject (v : value) : bool := match v with VArr _ | VObj _ => true | _ => false end.
Definition parseKnownGmailDraft (draft : value) (expectedDraftId : string) : res ParsedKnownDraft :=
  if negb (isObject draft) then failWith "draft_response_not_object" else
  match asString (fieldOf draft "id") with
  | None => failWith "draft_identity_mismatch"
  | Some id =>
      if negb (String.eqb id expectedDraftId) then failWith "draft_identity_mismatch"
      else
        let message := default VNull (fieldOf draft "message") in
        match asString (fieldOf message "id") with
        | None | Some "" => failWith "message_identity_missing"
        | Some messageId =>
            threadId ← optionalString (fieldOf message "threadId");
            if negb (inDraftState (fieldOf message "labelIds")) then failWith "message_not_in_draft_state"
            else
              match asString (fieldOf message "raw") with
              | None => failWith "raw_message_missing"
              | Some raw =>
                  envelope ← parseRawMessage raw;
                  Ok {| kd_providerDraftId := id; kd_providerMessageId := messageId;
                        kd_providerThreadId := threadId; kd_envelope := envelope |}
              end
        end
  end.

(** ** The provider *)

(** [/^[A-Za-z0-9_-]{1,256}$/] *)
Definition validId (value : string) : bool :=
  truthy value && (String.length value <=? 256)%nat && negb (string_exists (λ c, negb (base64UrlChar c)) value).
(** An object, and no array *)
Definition parseJson (body : string) : option value :=
  match jsonParse body with Some (VObj fields) => Some (VObj fields) | _ => None end.

Record AccountAnswer := { aa_ok : bool; aa_email : option string; aa_reason : option string }.

Section provider.
Context `{GmailTransport} (n : nat).

Definition bearer (token : string) (body : option string) : list (string * string) :=
  [("Authorization", "Bearer " +:+ token); ("Accept", "application/json")] ++
  match body with
  | Some b => [("Content-Type", "application/json"); ("Content-Length", pretty (Z.of_nat (String.length b)))]
  | None => []
  end.
Definition safeCall (method : HttpMethod) (path : string) (body : option string) :
    http (GmailHttpResponse + CallFailure * string) :=
  match getAccessToken n with
  | Throw _ => mret (inr (fail_auth, "access_token_unavailable"))
  | Ok token =>
      let rq := {| rq_method := method; rq_url := GMAIL_API_ORIGIN +:+ path;
                   rq_headers := bearer token body; rq_body := body; rq_timeoutMs := timeoutMs |} in
      (match request n rq with
       | Ok answer => inl answer
       | Throw e =>
           inr (fail_unknown,
                if bool_decide (e = JsError "gmail_request_timeout") then "request_timeout" else "network_failure")
       end, [rq])
  end.

Definition httpVerifyAccount (expectedEmail : string) : http AccountAnswer :=
  let refused reason := {| aa_ok := false; aa_email := None; aa_reason := Some reason |} in
  call ← safeCall GET "/gmail/v1/users/me/profile" None;
  mret match call with
  | inr (_, reason) => refused reason
  | inl answer =>
      let status := rs_status answer in
      if (status =? 401) || (status =? 403) then refused "authentication_or_authorization_failure"
      else if status =? 429 then refused "rate_limited"
      else if 500 <=? status then refused "outcome_unknown"
      else if (status <? 200) || (300 <=? status) then refused "definitive_failure"
      else
        match parseJson (rs_body answer) ≫= λ json, asString (fieldOf json "emailAddress") with
        | None | Some "" => refused "malformed_profile_response"
        | Some email =>
            {| aa_ok := String.eqb (toLowerCase email) (normalizeEmail expectedEmail);
               aa_email := Some email; aa_reason := None |}
        end
  end.

Definition httpGetKnownDraft (providerDraftId : string) : http DraftInspectionResult :=
  if negb (validId providerDraftId) then mret (NotInspected "invalid" "invalid_known_draft_id")
  else
    call ← safeCall GET ("/gmail/v1/users/me/drafts/" +:+ encodeURIComponent providerDraftId +:+ "?format=raw") None;
    mret match call with
    | inr (fail_auth, reason) => NotInspected "auth_error" reason
    | inr (fail_unknown, reason) => NotInspected "unknown" reason
    | inl answer =>
        let status := rs_status answer in
        if status =? 404 then NotInspected "missing" "known_draft_missing"
        else if (status =? 401) || (status =? 403) then
          NotInspected "auth_error" "authentication_or_authorization_failure"
        else if status =? 429 then NotInspected "rate_limited" "rate_limited"
        else if 500 <=? status then NotInspected "unknown" "provider_5xx"
        else if (status <? 200) || (300 <=? status) then NotInspected "definitive_failure" "draft_read_rejected"
        else
          match parseJson (rs_body answer) with
          | None => NotInspected "invalid" "malformed_draft_response"
          | Some json =>
              match parseKnownGmailDraft json providerDraftId with
              | Ok parsed => Inspected {| insp_envelope := kd_envelope parsed;
                  insp_providerDraftId := Some (kd_providerDraftId parsed);
                  insp_providerMessageId := Some (kd_providerMessageId parsed);
                  insp_providerThreadId := kd_providerThreadId parsed |}
              | Throw (JsError message) => NotInspected "invalid" message
              | Throw _ => NotInspected "invalid" "invalid_draft"
              end
          end
    end.

Definition failed (outcome : SendResultOutcome) (reason : string) : SendResult :=
  {| res_outcome := outcome; res_ref := None; res_reason := Some reason |}.
(** The reference to the sent message: its id, and its thread where one is given *)
Definition sentRef (json : value) : option SendRef :=
  match asString (fieldOf json "id"), fieldOf json "threadId" with
  | None, _ | Some "", _ => None
  | Some id, None => Some {| ref_providerMessageId := id; ref_providerThreadId := None |}
  | Some id, Some (VStr thread) => Some {| ref_providerMessageId := id; ref_providerThreadId := Some thread |}
  | _, _ => None
  end.
Definition classifySend (answer : GmailHttpResponse) : SendResult :=
  let status := rs_status answer in
  if (status =? 401) || (status =? 403) then failed prov_auth_error "authentication_or_authorization_failure"
  else if status =? 429 then failed prov_rate_limited "rate_limited"
  else if (status =? 0) || (status =? 408) || (500 <=? status) then
    failed prov_unknown "provider_uncertain_response"
  else if (status <? 200) || (300 <=? status) then failed prov_definitive_failure "draft_send_rejected"
  else
    match parseJson (rs_body answer) ≫= sentRef with
    | None => failed prov_unknown "malformed_success_response"
    | Some ref => {| res_outcome := prov_ok; res_ref := Some ref; res_reason := None |}
    end.
Definition sendBody (providerDraftId : string) : string := stringify (JObj [("id", JStr providerDraftId)]).
Definition httpSendExistingDraft (providerDraftId : string) : http SendResult :=
  if negb (validId providerDraftId) then mret (failed prov_definitive_failure "invalid_known_draft_id")
  else
    call ← safeCall POST "/gmail/v1/users/me/drafts/send" (Some (sendBody providerDraftId));
    mret match call with
    | inr (fail_auth, reason) => failed prov_auth_error reason
    | inr (fail_unknown, reason) => failed prov_unknown reason
    | inl answer => classifySend answer
    end.
End provider.

(** The provider that the send service is given: none of its operations throws. *)
#[export] Instance HttpGmailSendProvider `{GmailTransport} : SendProvider := {|
  verifyAccount n email :=
    let a := (httpVerifyAccount n email).1 in Ok {| acc_ok := aa_ok a; acc_email := aa_email a |};
  getKnownDraft n id := Ok (httpGetKnownDraft n id).1;
  sendExistingDraft n id := Ok (httpSendExistingDraft n id).1;
|}.
