(* ===== verification/GmailHttpSpecs.v ===== *)
(** * What the Gmail provider promises to the send service

    An answer of the provider that allows another attempt proves that Gmail has not taken the
    message; and a draft that was created for an approved email passes the verification that
    precedes every send. *)
From S2P Require Import Prelude.
From S2P Require Import JsText.
From S2P Require Import JsonText.
From S2P Require Import PipelineDb.
From S2P Require Import SendGate.
From S2P Require Import Mime.
From S2P Require Import MimeSpecs.
From S2P Require Import SendService.
From S2P Require Import GmailHttp.
Open Scope string_scope.
Open Scope Z_scope.

(** ** Sending *)

(** What Gmail's answer to the request to send means *)
Definition took (a : GmailHttpResponse) (ref : SendRef) : Prop :=
  200 <= rs_status a < 300 ∧ parseJson (rs_body a) ≫= sentRef = Some ref.
Definition declined (a : GmailHttpResponse) : Prop :=
  rs_status a ≠ 0 ∧ rs_status a ≠ 408 ∧ rs_status a < 500 ∧ ¬ 200 <= rs_status a < 300.
(** The outcomes after which the send service accepts another attempt *)
Definition retryable (o : SendResultOutcome) : Prop :=
  o = prov_definitive_failure ∨ o = prov_rate_limited ∨ o = prov_auth_error.

Section sending.
Context `{GmailTransport}.

(** The one request, on success of which the draft is sent *)
Definition sendsDraft (rq : GmailHttpRequest) (id : string) : Prop :=
  rq_method rq = POST ∧ rq_url rq = "https://gmail.googleapis.com/gmail/v1/users/me/drafts/send" ∧
  jsonParse (default "" (rq_body rq)) = Some (VObj [("id", VStr id)]).

Lemma string_exists_impl (f g : ascii → bool) s :
  (∀ c, f c = true → g c = true) → string_exists g s = false → string_exists f s = false.
Proof.
  intros Hfg. induction s as [|c s IH]; [done|]. cbn [string_exists].
  intros [Hc Hs]%orb_false_iff. rewrite IH, orb_false_r by done.
  apply not_true_is_false. intros Hf%Hfg. congruence.
Qed.
Lemma validId_plain id : validId id = true → plainText_ id.
Proof.
  unfold validId. rewrite !andb_true_iff, negb_true_iff. intros [_ Hid]. revert Hid. unfold plainText_.
  apply string_exists_impl. by_chars.
Qed.
Lemma sendBody_parsed id : validId id = true → jsonParse (sendBody id) = Some (VObj [("id", VStr id)]).
Proof. intros Hid. apply parse_field; [reflexivity|by apply validId_plain]. Qed.

Lemma classifySend_cases a :
  (res_outcome (classifySend a) = prov_ok ∧ ∃ ref, res_ref (classifySend a) = Some ref ∧ took a ref) ∨
  (retryable (res_outcome (classifySend a)) ∧ declined a) ∨
  (res_outcome (classifySend a) = prov_unknown ∧ ¬ declined a ∧ ∀ ref, ¬ took a ref).
Proof.
  unfold classifySend, took, declined, retryable.
  destruct (Z.eqb_spec (rs_status a) 401), (Z.eqb_spec (rs_status a) 403); try (right; left; simpl; auto with lia; fail).
  destruct (Z.eqb_spec (rs_status a) 429); [right; left; simpl; auto with lia|].
  destruct (Z.eqb_spec (rs_status a) 0), (Z.eqb_spec (rs_status a) 408), (Z.leb_spec 500 (rs_status a));
    try (right; right; simpl; split_and!; [done|lia|intros ref []; lia]).
  destruct (Z.ltb_spec (rs_status a) 200), (Z.leb_spec 300 (rs_status a));
    try (right; left; simpl; split_and!; auto with lia; fail). cbv [orb].
  destruct (parseJson (rs_body a) ≫= sentRef) as [ref|].
  - left. split; [done|]. eexists. split; [done|]. split; [lia|done].
  - right; right. split_and!; [done|lia|naive_solver].
Qed.

(** C9: An uncertain send is never taken for a failed one: to send a draft the provider makes
    at most one request, and it names that draft only; it makes none only when the identity
    is malformed or there is no access token.  The result is a success exactly when Gmail
    answered with the reference to the message; it allows another attempt only if no request
    was made or Gmail refused it; a lost connection, a timeout, a server error or an answer
    that is not understood leaves the outcome unknown. *)
Theorem http_send_classified n id :
  let '(r, made) := httpSendExistingDraft n id in
  (made = [] ∧ retryable (res_outcome r) ∧ (validId id = false ∨ is_ok (getAccessToken n) = false)) ∨
  ∃ rq, made = [rq] ∧ sendsDraft rq id ∧
    match request n rq with
    | Throw _ => res_outcome r = prov_unknown
    | Ok a =>
        (res_outcome r = prov_ok ∧ ∃ ref, res_ref r = Some ref ∧ took a ref) ∨
        (retryable (res_outcome r) ∧ declined a) ∨
        (res_outcome r = prov_unknown ∧ ¬ declined a ∧ ∀ ref, ¬ took a ref)
    end.
Proof.
  unfold httpSendExistingDraft, safeCall, retryable. destruct (validId id) eqn:Hid; simpl; [|auto 10].
  destruct (getAccessToken n) as [tok|]; simpl; [|auto 10]. right. eexists. split; [reflexivity|].
  split; [by split_and!; [..|apply sendBody_parsed]|].
  destruct (request n _) as [a|e]; [apply classifySend_cases|done].
Qed.
End sending.

(** ** The way of an approved email through Gmail *)

(** Gmail's answers about a draft: it is in the given account and has the given message, and
    its source is the one it was created from. *)
Record servesDraft `{GmailTransport} (account draftId messageId threadId raw : string) : Prop := {
  sd_ids : messageId ≠ "" ∧ threadId ≠ "";
  sd_token : ∀ n, is_ok (getAccessToken n) = true;
  sd_profile : ∀ n rq, rq_url rq = "https://gmail.googleapis.com/gmail/v1/users/me/profile" →
    ∃ a json, request n rq = Ok a ∧ rs_status a = 200 ∧ parseJson (rs_body a) = Some json ∧
      fieldOf json "emailAddress" = Some (VStr account);
  sd_draft : ∀ n rq,
    rq_url rq = "https://gmail.googleapis.com/gmail/v1/users/me/drafts/" +:+ draftId +:+ "?format=raw" →
    ∃ a json message, request n rq = Ok a ∧ rs_status a = 200 ∧ parseJson (rs_body a) = Some json ∧
      fieldOf json "id" = Some (VStr draftId) ∧ fieldOf json "message" = Some message ∧
      fieldOf message "id" = Some (VStr messageId) ∧ fieldOf message "threadId" = Some (VStr threadId) ∧
      fieldOf message "labelIds" = Some (VArr [VStr "DRAFT"]) ∧ fieldOf message "raw" = Some (VStr raw);
}.

Section way.
Context `{Runtime, GmailTransport} (c : SendConfig).
Context (draftId messageId threadId : string) (m : MimeInput).
Hypothesis Hserves : servesDraft (cfg_gmailAccount c) draftId messageId threadId (buildRawMessage m).
Hypothesis Hid : validId draftId = true.

Lemma base64Url_unreserved d : base64UrlChar d = true → unreserved d = true.
Proof. destruct d as [[] [] [] [] [] [] [] []]; by vm_compute. Qed.
Lemma encodeURIComponent_id s :
  string_exists (λ c, negb (base64UrlChar c)) s = false → encodeURIComponent s = s.
Proof.
  induction s as [|d s IH]; [done|]. cbn [string_exists encodeURIComponent].
  intros [Hd Hs]%orb_false_iff. apply negb_false_iff in Hd. by rewrite (base64Url_unreserved d Hd), IH.
Qed.
Lemma safeCall_answered n method path body :
  ∃ token, getAccessToken n = Ok token ∧
    (safeCall n method path body).1 =
    match request n {| rq_method := method; rq_url := GMAIL_API_ORIGIN +:+ path;
                       rq_headers := bearer token body; rq_body := body; rq_timeoutMs := timeoutMs |} with
    | Ok answer => inl answer
    | Throw e =>
        inr (fail_unknown,
             if bool_decide (e = JsError "gmail_request_timeout") then "request_timeout" else "network_failure")
    end.
Proof using Hserves.
  pose proof (sd_token _ _ _ _ _ Hserves n) as Ht. unfold safeCall.
  destruct (getAccessToken n) as [token|]; [|done]. by exists token.
Qed.
Lemma http_fst {A B} (call : http A) (k : A → B) : (x ← call; mret (k x)).1 = k call.1.
Proof. by destruct call. Qed.
Lemma account_verified n : mailbox (cfg_gmailAccount c) →
  (httpVerifyAccount n (cfg_gmailAccount c)).1 =
  {| aa_ok := true; aa_email := Some (cfg_gmailAccount c); aa_reason := None |}.
Proof using Hserves.
  intros Hm. unfold httpVerifyAccount. rewrite http_fst.
  destruct (safeCall_answered n GET "/gmail/v1/users/me/profile" None) as (token & _ & ->).
  destruct (sd_profile _ _ _ _ _ Hserves n {| rq_method := GET; rq_url := GMAIL_API_ORIGIN +:+ "/gmail/v1/users/me/profile";
    rq_headers := bearer token None; rq_body := None; rq_timeoutMs := timeoutMs |} eq_refl) as (a & json & -> & Hst & Hj & Hf).
  rewrite Hst, Hj. simpl. rewrite Hf. simpl. destruct (mailbox_some _ Hm) as (d & e & E).
  rewrite E, <-E. unfold normalizeEmail. by rewrite mailbox_trim, String.eqb_refl.
Qed.
Lemma draft_fetched n : deliverable m →
  (httpGetKnownDraft n draftId).1 =
  Inspected {| insp_envelope := sentEnvelope m; insp_providerDraftId := Some draftId;
               insp_providerMessageId := Some messageId; insp_providerThreadId := Some threadId |}.
Proof using Hserves Hid.
  intros Hm. unfold httpGetKnownDraft. rewrite Hid. cbn [negb]. rewrite http_fst.
  unfold validId in Hid. rewrite !andb_true_iff, negb_true_iff in Hid. destruct Hid as [_ Hchars].
  rewrite encodeURIComponent_id by done.
  destruct (safeCall_answered n GET ("/gmail/v1/users/me/drafts/" +:+ draftId +:+ "?format=raw") None) as (token & _ & ->).
  destruct (sd_draft _ _ _ _ _ Hserves n {| rq_method := GET;
    rq_url := GMAIL_API_ORIGIN +:+ "/gmail/v1/users/me/drafts/" +:+ draftId +:+ "?format=raw";
    rq_headers := bearer token None; rq_body := None; rq_timeoutMs := timeoutMs |} eq_refl)
    as (a & json & message & -> & Hst & Hj & Hfid & Hfm & Hmid & Hth & Hl & Hraw).
  rewrite Hst, Hj. unfold parseKnownGmailDraft. assert (isObject json = true) as -> by by destruct json.
  rewrite Hfid, Hfm. cbn [asString default from_option id]. rewrite String.eqb_refl, Hmid, Hth, Hl, Hraw.
  destruct (sd_ids _ _ _ _ _ Hserves) as [Hne _]. destruct messageId as [|d message']; [done|].
  cbn [negb asString optionalString]. simpl. by rewrite parse_build.
Qed.
End way.

(** C11: A legitimate send is not blocked by its own verification: when the draft in Gmail is
    the one that was created for the approved email - sender, recipient, subject and body can
    be written in a message, and the body has no carriage return before a line feed -, the
    account is the configured one and the stored identity is that of the draft, the
    verification by the provider succeeds, whenever it runs, and changes no row. *)
Theorem created_draft_verifies `{Runtime, GmailTransport} c d senderName recipient subject resolvedBody
    expected draftId messageId threadId w :
  let m := approvedMessage senderName (cfg_gmailAccount c) recipient subject resolvedBody in
  servesDraft (cfg_gmailAccount c) draftId messageId threadId (buildRawMessage m) →
  validId draftId = true → deliverable m → includes (mi_body m) CRLF = false →
  expectedDraftEnvelope senderName (cfg_gmailAccount c) recipient subject resolvedBody None = Ok expected →
  gd_providerDraftId d = Some draftId → gd_providerMessageId d = Some messageId →
  gd_providerThreadId d = Some threadId →
  ∃ w', verifyProvider c expected (Some d) w = (Ok (inl (providerEnvelopeHash (sentEnvelope m))), w') ∧
    w_db w' = w_db w.
Proof.
  intros m Hserves Hid Hm Hcrlf He Hd Hmsg Hth. destruct (sd_ids _ _ _ _ _ Hserves) as [Hne1 Hne2].
  eexists. unfold verifyProvider. rewrite Hd, Hmsg, Hth. unfold truthy_opt.
  assert (truthy draftId = true) as -> by (unfold validId in Hid; rewrite !andb_true_iff in Hid; tauto).
  rewrite (proj2 (truthy_spec messageId)), (proj2 (truthy_spec threadId)) by done. cbn [andb].
  unfold ask, mbind, M_bind. cbn [verifyAccount getKnownDraft HttpGmailSendProvider].
  rewrite (account_verified c draftId messageId threadId m) by (done || apply Hm). cbn [aa_ok aa_email acc_ok acc_email andb].
  rewrite bool_decide_eq_true_2 by done. cbn [negb].
  cbn [default from_option id]. rewrite (draft_fetched c draftId messageId threadId m) by done.
  cbn [insp_providerDraftId insp_providerMessageId insp_providerThreadId insp_envelope].
  rewrite !bool_decide_eq_true_2 by done. cbn [negb andb].
  pose proof (approved_envelope _ _ _ _ _ _ Hm He) as Hcompare. fold m in Hcompare. rewrite Hcompare. change (resolveSenderName resolvedBody senderName) with (mi_body m).
  rewrite Hcrlf. simpl. done.
Qed.

(** Gmail, with one account and one draft in it *)
Definition demoRaw : string :=
  buildRawMessage (approvedMessage "Zoë" "Me@agency.de" "info@praxis.de" "Grüße" sampleBody).
Definition demoGmail : GmailTransport := {|
  timeoutMs := 30000;
  getAccessToken _ := Ok "token";
  request _ rq :=
    if String.eqb (rq_url rq) "https://gmail.googleapis.com/gmail/v1/users/me/profile" then
      Ok {| rs_status := 200; rs_body := stringify (JObj [("emailAddress", JStr "Me@agency.de")]) |}
    else if String.eqb (rq_url rq) "https://gmail.googleapis.com/gmail/v1/users/me/drafts/d1?format=raw" then
      Ok {| rs_status := 200; rs_body := stringify (JObj [("id", JStr "d1"); ("message", JObj
        [("id", JStr "m1"); ("threadId", JStr "t1"); ("labelIds", JArr [JStr "DRAFT"]); ("raw", JStr demoRaw)])]) |}
    else Throw (JsError "gmail_request_timeout");
|}.
Lemma demoGmail_serves : @servesDraft demoGmail "Me@agency.de" "d1" "m1" "t1" demoRaw.
Proof.
  split; [by split|done|..]; intros n rq Hurl; unfold request; cbn [demoGmail]; rewrite Hurl.
  - eexists _, _. split_and!; [reflexivity|reflexivity|vm_compute; reflexivity|reflexivity].
  - eexists _, _, _. split_and!; [reflexivity|reflexivity|vm_compute; reflexivity|vm_compute; reflexivity..].
Qed.
Definition noRows : PipelineDb := Build_PipelineDb ∅ ∅ ∅ [] [] [] [] [] [].
Definition demoHttpConfig : SendConfig :=
  {| cfg_gmailAccount := "Me@agency.de"; cfg_senderName := Some "Zoë"; cfg_policyVersion := "1";
     cfg_sendingEnabled := true; cfg_outboundActionsEnabled := true; cfg_dryRun := false; cfg_maxLateMs := 0;
     cfg_confirmationTtlMs := 0; cfg_dailyCap := 1 |}.
Definition demoStoredDraft : CurrentGmailDraft :=
  {| gd_id := "g1"; gd_outcome := "DRAFT_CREATED"; gd_providerDraftId := Some "d1";
     gd_providerMessageId := Some "m1"; gd_providerThreadId := Some "t1"; gd_gmailAccount := "Me@agency.de";
     gd_senderEmail := "Me@agency.de"; gd_recipientEmail := "info@praxis.de"; gd_finalizedEmailId := Some "f1" |}.
Lemma created_draft_verifies_witness :
  ∃ expected hash,
    expectedDraftEnvelope "Zoë" "Me@agency.de" "info@praxis.de" "Grüße" sampleBody None = Ok expected ∧
    ∃ w', @verifyProvider demo_runtime (@HttpGmailSendProvider demoGmail) demoHttpConfig expected
            (Some demoStoredDraft) (World noRows 0 0) = (Ok (inl hash), w') ∧ w_db w' = noRows.
Proof.
  eexists _, _. split; [reflexivity|].
  apply (@created_draft_verifies demo_runtime demoGmail demoHttpConfig demoStoredDraft "Zoë" "info@praxis.de" "Grüße"
    sampleBody _ "d1" "m1" "t1").
  - exact demoGmail_serves.
  - reflexivity.
  - exact sampleMessage_deliverable.
  - reflexivity.
  - reflexivity.
  - reflexivity.
  - reflexivity.
  - reflexivity.
Defined.
