(* ===== verification/SendSafety.v ===== *)
(** * At most one email: the safety of sending

    What holds of the send attempts and of the calls of the provider whatever
    processes run at the same time and wherever they crash. *)
From S2P Require Import Prelude.
From S2P Require Import JsText.
From S2P Require Import TimeZone.
From S2P Require Import Scheduler.
From S2P Require Import LeadLifecycle.
From S2P Require Import PipelineDb.
From S2P Require Import SendGate.
From S2P Require Import SendService.
Open Scope Z_scope.
Open Scope list_scope.

(** ** The invariant *)

Definition hasAttempt (db : PipelineDb) (id : string) : Prop := id ∈ map at_id (attempts db).
Definition isDispatched (db : PipelineDb) (id : string) : Prop := id ∈ map dp_attemptId (dispatched db).
(** The attempt exists and the call of the provider has been announced. *)
Definition hasStarted (db : PipelineDb) (id : string) : Prop :=
  ∃ a, a ∈ attempts db ∧ at_id a = id ∧ at_status a ≠ RESERVED.

Record sendInvariant (db : PipelineDb) : Prop := {
  si_ids : NoDup (map at_id (attempts db));
  si_blocking : ∀ a a', a ∈ attempts db → a' ∈ attempts db → isBlocking a = true →
    isBlocking a' = true → at_scheduleId a = at_scheduleId a' → at_id a = at_id a';
  si_once : NoDup (map dp_attemptId (dispatched db));
  si_started : ∀ id, isDispatched db id → hasStarted db id;
}.

(** What a process guarantees to the others: it keeps the invariant, it never removes
    an attempt or takes back its start, it only adds calls of the provider, and of
    the attempts that are there already it makes none but those of [own]. *)
Record guarantees (own : string → Prop) (db db' : PipelineDb) : Prop := {
  gu_invariant : sendInvariant db → sendInvariant db';
  gu_attempts : ∀ id, hasAttempt db id → hasAttempt db' id;
  gu_started : ∀ id, sendInvariant db → hasStarted db id → hasStarted db' id;
  gu_log : dispatched db `prefix_of` dispatched db';
  gu_calls : ∀ id, hasAttempt db id → isDispatched db' id → isDispatched db id ∨ own id;
}.
Definition noOwn (id : string) : Prop := False.
Definition safe : relation PipelineDb := guarantees noOwn.

#[global] Instance guarantees_preorder own : PreOrder (guarantees own).
Proof.
  split; [by intros db; split; auto|].
  intros db1 db2 db3 [I1 A1 S1 L1 C1] [I2 A2 S2 L2 C2]. split; auto.
  - by etrans.
  - intros id Ha [Hd|?]%C2; [by apply C1|by right|by apply A1].
Qed.
Lemma guarantees_weaken own own' db db' :
  (∀ id, hasAttempt db id → own id → own' id) → guarantees own db db' → guarantees own' db db'.
Proof. intros Hw [? ? ? ? C]. split; auto. intros id Ha [?|?]%C; auto. Qed.

(** A write that touches neither table is safe. *)
Lemma safe_frame db db' : attempts db' = attempts db → dispatched db' = dispatched db → safe db db'.
Proof.
  intros Ea Ed. split; unfold hasAttempt, isDispatched, hasStarted; rewrite ?Ea, ?Ed; auto.
  intros [? ? ? Hs]. split; unfold isDispatched, hasStarted in *; rewrite ?Ea, ?Ed; auto.
Qed.

(** ** The writes *)

Lemma patchAttempt_key patch a :
  at_id (patchAttempt patch a) = at_id a ∧ at_scheduleId (patchAttempt patch a) = at_scheduleId a ∧
  at_reconciledOutcome (patchAttempt patch a) = at_reconciledOutcome a.
Proof.
  unfold patchAttempt, at_id, at_scheduleId. simpl. generalize (at_record a).
  induction patch as [|f patch IH]; intros r; simpl; [done|].
  destruct (IH (applyAttemptField r f)) as (-> & -> & _). by destruct r, f.
Qed.
(** The status that a patch leaves *)
Definition patchedStatus (patch : list AttemptField) (s : SendAttemptStatus) : SendAttemptStatus :=
  fold_left (λ s f, match f with set_attemptStatus s' => s' | _ => s end) patch s.
Lemma patchAttempt_status patch a : at_status (patchAttempt patch a) = patchedStatus patch (at_status a).
Proof.
  unfold patchAttempt, at_status. simpl. generalize (at_record a).
  induction patch as [|f patch IH]; intros r; simpl; [done|]. rewrite IH. by destruct r, f.
Qed.

(** One row is rewritten. *)
Definition updateIn (id : string) (f : AttemptRow → AttemptRow) (l : list AttemptRow) : list AttemptRow :=
  map (λ a, if bool_decide (at_id a = id) then f a else a) l.
(** [f] changes neither the attempt's identity nor takes back its start. *)
Definition keepsKeys (f : AttemptRow → AttemptRow) : Prop :=
  ∀ a, at_id (f a) = at_id a ∧ at_scheduleId (f a) = at_scheduleId a ∧
       (at_status a ≠ RESERVED → at_status (f a) ≠ RESERVED).
Lemma updateIn_ids id f l : keepsKeys f → map at_id (updateIn id f l) = map at_id l.
Proof.
  intros Hf. unfold updateIn. rewrite map_map. apply map_ext. intros a.
  case_bool_decide; [apply Hf|done].
Qed.

Lemma attemptConflict_false p db a a' :
  attemptConflict p db a = false → p a = true → a' ∈ attempts db → p a' = true →
  at_scheduleId a' = at_scheduleId a → at_id a' = at_id a.
Proof.
  unfold attemptConflict. intros Hc Ha Ha' Hp Hs. rewrite Ha in Hc. simpl in Hc.
  destruct (decide (at_id a' = at_id a)) as [|Hne]; [done|].
  assert (existsb (λ a', negb (bool_decide (at_id a' = at_id a)) && p a' &&
    bool_decide (at_scheduleId a' = at_scheduleId a)) (attempts db) = true) as Hex; [|congruence].
  apply elem_of_existsb. exists a'. split; [done|].
  by rewrite bool_decide_eq_false_2, bool_decide_eq_true_2, Hp.
Qed.

Lemma attempts_setAttempts f db : attempts (setAttempts f db) = f (attempts db).
Proof. by destruct db. Qed.
Lemma dispatched_setAttempts f db : dispatched (setAttempts f db) = dispatched db.
Proof. by destruct db. Qed.

Lemma same_id (l : list AttemptRow) a a' :
  NoDup (map at_id l) → a ∈ l → a' ∈ l → at_id a = at_id a' → a = a'.
Proof.
  induction l as [|x l IH]; intros Hnd Ha Ha' E; [by apply not_elem_of_nil in Ha|].
  apply NoDup_cons in Hnd as [Hx Hnd].
  apply elem_of_cons in Ha as [->|Ha]; apply elem_of_cons in Ha' as [->|Ha']; auto.
  - destruct Hx. rewrite E. by apply list_elem_of_fmap_2.
  - destruct Hx. rewrite <-E. by apply list_elem_of_fmap_2.
Qed.
Lemma find_attempt db a :
  sendInvariant db → a ∈ attempts db →
  List.find (λ a', bool_decide (at_id a' = at_id a)) (attempts db) = Some a.
Proof.
  intros [Hids _ _ _] Ha. destruct (List.find _ _) as [a'|] eqn:E.
  - apply find_some in E as [Ha'%list_elem_of_In Hid%bool_decide_eq_true]. f_equal. by eapply same_id.
  - eapply find_none in E; [|by apply list_elem_of_In]. by rewrite bool_decide_eq_true_2 in E.
Qed.
(** The unique indexes admit the row that [f] makes of the attempt. *)
Definition admits (db : PipelineDb) (id : string) (f : AttemptRow → AttemptRow) : Prop :=
  ∀ a, a ∈ attempts db → at_id a = id → refuse (attemptIndexChecks db (f a)) = None.
Lemma updated_alone id f db a a' :
  keepsKeys f → admits db id f → a ∈ attempts db → at_id a = id → a' ∈ attempts db →
  isBlocking (f a) = true → isBlocking a' = true → at_scheduleId a' = at_scheduleId a → at_id a' = id.
Proof.
  intros Hf Hadm Ha Hid Ha' Hb Hb' Hs. specialize (Hadm a Ha Hid). apply refuse_None in Hadm.
  unfold attemptIndexChecks in Hadm. rewrite !Forall_cons in Hadm. destruct Hadm as (_ & Hc & _). simpl in Hc.
  destruct (Hf a) as (Eid & Esch & _). rewrite <-Hid, <-Eid.
  eapply attemptConflict_false; [exact Hc|done..|congruence].
Qed.

(** Updating an attempt, without putting it back to RESERVED, is safe. *)
Lemma safe_update id f db :
  keepsKeys f → (sendInvariant db → admits db id f) → safe db (setAttempts (updateIn id f) db).
Proof.
  intros Hf Hc.
  assert (∀ id', hasStarted db id' → hasStarted (setAttempts (updateIn id f) db) id') as Hstarted.
  { intros id' (a & Ha & <- & Hs). unfold hasStarted. rewrite attempts_setAttempts.
    exists (if bool_decide (at_id a = id) then f a else a). split.
    - apply list_elem_of_fmap. by exists a.
    - case_bool_decide; [|done]. destruct (Hf a) as (-> & _ & Hst). auto. }
  split; unfold hasAttempt, isDispatched; rewrite ?attempts_setAttempts, ?dispatched_setAttempts,
    ?updateIn_ids by done; auto.
  intros Hinv. specialize (Hc Hinv). destruct Hinv as [Hids Hbl Honce Hs]. split;
    rewrite ?attempts_setAttempts, ?dispatched_setAttempts, ?updateIn_ids by done; auto.
  - unfold updateIn.
    intros x x' (a & -> & Ha)%list_elem_of_fmap (a' & -> & Ha')%list_elem_of_fmap Hx Hx' Hsame.
    destruct (Hf a) as (Ei & Es & _), (Hf a') as (Ei' & Es' & _).
    destruct (bool_decide_reflect (at_id a = id)) as [E|], (bool_decide_reflect (at_id a' = id)) as [E'|];
      rewrite ?Ei, ?Ei', ?Es, ?Es' in *.
    + congruence.
    + symmetry. rewrite E. by apply (updated_alone id f db a a').
    + rewrite E'. by apply (updated_alone id f db a' a).
    + by apply Hbl.
  - intros id' Hd. apply Hstarted, Hs. unfold isDispatched in *. by rewrite dispatched_setAttempts in Hd.
Qed.
Lemma safe_patch id patch db :
  (∀ s, s ≠ RESERVED → patchedStatus patch s ≠ RESERVED) →
  checkUpdateAttempt id patch db = None → safe db (setAttempts (updateIn id (patchAttempt patch)) db).
Proof.
  intros Hst Hc. apply safe_update.
  - intros a. destruct (patchAttempt_key patch a) as (? & ? & _). rewrite patchAttempt_status. auto.
  - intros Hinv a Ha <-. unfold checkUpdateAttempt in Hc. by rewrite (find_attempt db a Hinv Ha) in Hc.
Qed.

(** A new attempt, admitted by the constraints, is safe, and it is new. *)
Lemma safe_insert a db :
  checkInsertAttempt a db = None →
  safe db (setAttempts (λ l, l ++ [a]) db) ∧ ¬ hasAttempt db (at_id a).
Proof.
  intros Hc. unfold checkInsertAttempt, attemptIndexChecks in Hc. apply refuse_None in Hc.
  cbn [app] in Hc. rewrite !Forall_cons in Hc. destruct Hc as (Hpk & _ & _ & Hbc & _). simpl in Hpk, Hbc.
  assert (¬ hasAttempt db (at_id a)) as Hnew.
  { unfold hasAttempt. intros (a' & E & Ha')%list_elem_of_fmap.
    assert (existsb (λ a', bool_decide (at_id a' = at_id a)) (attempts db) = true) as Hex; [|congruence].
    apply elem_of_existsb. exists a'. split; [done|]. by apply bool_decide_eq_true. }
  split; [|done].
  assert (∀ id, hasStarted db id → hasStarted (setAttempts (λ l, l ++ [a]) db) id) as Hstarted.
  { intros id (a' & Ha' & ? & ?). exists a'. rewrite attempts_setAttempts. split; [set_solver|done]. }
  split; unfold hasAttempt, isDispatched; rewrite ?attempts_setAttempts, ?dispatched_setAttempts, ?map_app; auto.
  2: { set_solver. }
  intros [Hids Hbl Honce Hs]. split; rewrite ?attempts_setAttempts, ?dispatched_setAttempts; auto.
  - rewrite map_app. apply NoDup_app. split; [done|]. split; [|apply NoDup_singleton].
    intros x Hx ->%list_elem_of_singleton. by apply Hnew.
  - intros x x' [Hx| ->%list_elem_of_singleton]%elem_of_app [Hx'| ->%list_elem_of_singleton]%elem_of_app Hb Hb' E;
      auto.
    + by apply (attemptConflict_false _ _ _ _ Hbc).
    + symmetry. by apply (attemptConflict_false _ _ _ _ Hbc).
  - intros id Hd. apply Hstarted, Hs. unfold isDispatched in *. by rewrite dispatched_setAttempts in Hd.
Qed.

(** Calling the provider for an own attempt that has started and was not called yet *)
Lemma guarantees_dispatch id draft db :
  hasStarted db id → ¬ isDispatched db id →
  guarantees (eq id) db
    (setDispatched (λ l, l ++ [{| dp_attemptId := id; dp_providerDraftId := draft |}]) db).
Proof.
  intros Hst Hnew. set (d := {| dp_attemptId := id; dp_providerDraftId := draft |}).
  assert (attempts (setDispatched (λ l, l ++ [d]) db) = attempts db ∧
    dispatched (setDispatched (λ l, l ++ [d]) db) = dispatched db ++ [d]) as [Ea Ed] by by destruct db.
  split; unfold hasAttempt, isDispatched, hasStarted; rewrite ?Ea, ?Ed, ?map_app; auto.
  - intros [Hids Hbl Honce Hs]. split; rewrite ?Ea, ?Ed; auto.
    + rewrite map_app. apply NoDup_app. split; [done|]. split; [|apply NoDup_singleton].
      intros x Hx ->%list_elem_of_singleton. by apply Hnew.
    + intros id'. unfold isDispatched, hasStarted. rewrite Ed, Ea, map_app, elem_of_app.
      intros [Hd| ->%list_elem_of_singleton]; [by apply Hs|exact Hst].
  - by apply prefix_app_r.
  - intros id' _ [Hd| ->%list_elem_of_singleton]%elem_of_app; auto.
Qed.

(** ** The steps of the service *)

Section steps.
Context `{Runtime, OrmErrors, SendProvider}.

Lemma frame_respects f : (∀ db, attempts (f db) = attempts db ∧ dispatched (f db) = dispatched db) →
  ∀ db, safe db (f db).
Proof using Type. intros Hf db. by apply safe_frame; apply Hf. Qed.
Lemma setLeads_frame f db : attempts (setLeads f db) = attempts db ∧ dispatched (setLeads f db) = dispatched db.
Proof using Type. by destruct db. Qed.
Lemma setEvents_frame f db :
  attempts (setPipelineEvents f db) = attempts db ∧ dispatched (setPipelineEvents f db) = dispatched db.
Proof using Type. by destruct db. Qed.
Lemma setSchedules_frame f db :
  attempts (setSchedules f db) = attempts db ∧ dispatched (setSchedules f db) = dispatched db.
Proof using Type. by destruct db. Qed.

Lemma respects_updateLead id st at_ : respects safe (updateLeadStatus id st at_).
Proof using Type. apply (respects_modify safe). apply frame_respects, setLeads_frame. Qed.
Lemma respects_recordEvent e : respects safe (recordEvent e).
Proof.
  unfold recordEvent. respects_step; [respects_step|]. apply (respects_guarded safe). intros db _.
  apply (frame_respects (setPipelineEvents _)), setEvents_frame.
Qed.
Lemma respects_schedule id f : respects safe (updateScheduleRow id f).
Proof using Type. apply (respects_modify safe). apply frame_respects, setSchedules_frame. Qed.
Lemma respects_complete id patch :
  (∀ s, s ≠ RESERVED → patchedStatus patch s ≠ RESERVED) → respects safe (completeAttempt id patch).
Proof using Type. intros Hp. apply (respects_guarded safe). intros db Hc. by apply (safe_patch id patch). Qed.
Lemma respects_getLead id : respects safe (getLead id).
Proof using Type. apply (respects_query safe). Qed.
#[local] Hint Resolve respects_updateLead respects_recordEvent respects_schedule respects_getLead : outreach.
Lemma respects_leadTransition id to : respects safe (leadTransition id to).
Proof. unfold leadTransition. cbv zeta. respects_tac. Qed.
#[local] Hint Resolve respects_leadTransition : outreach.
Lemma respects_transitionFrom id from to : respects safe (transitionFrom id from to).
Proof. unfold transitionFrom. respects_tac. Qed.
#[local] Hint Resolve respects_transitionFrom : outreach.

(** The patches of the service never put an attempt back to RESERVED. *)
Ltac complete_tac := apply respects_complete; intros; simpl; done.
Ltac send_tac :=
  repeat first [solve [auto with outreach typeclass_instances] | complete_tac | always_step | respects_step
               | case_match].

Lemma finishUnknown_safe input runId id t reason : always safe (finishUnknown input runId id t reason).
Proof. unfold finishUnknown. send_tac. Qed.
Lemma routeInvalidate_safe input runId o reason : always safe (routeInvalidate input runId o reason).
Proof. unfold routeInvalidate, invalidateSchedule. send_tac. Qed.
Lemma routeManual_safe input runId o reason : always safe (routeManual input runId o reason).
Proof. unfold routeManual. send_tac. Qed.
#[local] Hint Resolve finishUnknown_safe routeInvalidate_safe routeManual_safe : outreach.
Lemma finish_safe input runId id sid t response : always safe (finish input runId id sid t response).
Proof. unfold finish, markScheduleFulfilled. cbv zeta. send_tac. Qed.
Lemma refusal_safe input elig mutate : always safe (refusal input elig mutate).
Proof. unfold refusal. cbv zeta. send_tac. Qed.
#[local] Hint Resolve finish_safe refusal_safe : outreach.
Lemma state_safe c source input required mutate : always safe (state c source input required mutate).
Proof.
  unfold state, readiness, activeSuppressions, lastDefinitiveFailureAt, hasConfirmedAttempt,
    hasBlockingAttempt, confirmedSendsToday. cbv zeta. send_tac.
Qed.
#[local] Hint Resolve state_safe : outreach.
Lemma verifyProvider_safe c expected stored : always safe (verifyProvider c expected stored).
Proof. unfold verifyProvider. cbv zeta. send_tac. Qed.
Lemma checkProof_safe c st proof : always safe (checkProof c st proof).
Proof. unfold checkProof. send_tac. Qed.
Lemma activeSuppressions_safe i : always safe (activeSuppressions i).
Proof. unfold activeSuppressions. send_tac. Qed.
End steps.
#[export] Hint Resolve state_safe verifyProvider_safe checkProof_safe activeSuppressions_safe
  finish_safe : outreach.

(** ** A whole send *)

(** A safe step, for a process that may rely on the invariant *)
Definition safeStep : relation PipelineDb := λ db db', sendInvariant db → safe db db'.

Section sending.
Context `{Runtime, OrmErrors, SendProvider} (c : SendConfig) (source : ReadinessSource).
Context (interfere : nat → PM ()) (interfere_safe : ∀ k, always safeStep (interfere k)).

Lemma safeStep_awp {A} (m : PM A) w :
  always safeStep m → sendInvariant (w_db w) →
  awp m (λ _ w', safe (w_db w) (w_db w')) (λ w', safe (w_db w) (w_db w')) w.
Proof using Type.
  intros Hm Hinv. specialize (Hm w Hinv). unfold awp. by destruct (m w) as [[]?].
Qed.

Lemma safe_own own db db' : safe db db' → guarantees own db db'.
Proof using Type. apply guarantees_weaken. by intros id _ []. Qed.

(** From here on, [id] has an attempt, and the provider was not called for it: what an
    invariant step by others preserves *)
Record owned (id : string) (db : PipelineDb) : Prop := {
  ow_invariant : sendInvariant db; ow_attempt : hasAttempt db id; ow_undispatched : ¬ isDispatched db id;
}.
Lemma owned_safe id db db' : safe db db' → owned id db → owned id db'.
Proof using Type.
  intros [I A S L C] [Hi Ha Hd]. split; auto. intros [Hd'|[]]%C; auto.
Qed.
Lemma started_patch id patch db :
  hasAttempt db id → (∀ s, patchedStatus patch s ≠ RESERVED) →
  hasStarted (setAttempts (updateIn id (patchAttempt patch)) db) id.
Proof using Type.
  intros (a & -> & Ha)%list_elem_of_fmap Hp. exists (patchAttempt patch a). rewrite attempts_setAttempts.
  split; [|split; [apply patchAttempt_key|by rewrite patchAttempt_status]].
  apply list_elem_of_fmap. exists a. by rewrite bool_decide_eq_true_2.
Qed.

Lemma sendReserved_guarantees input runId id sid w :
  owned id (w_db w) →
  awp (sendReserved interfere input runId id sid)
    (λ _ w', guarantees (eq id) (w_db w) (w_db w')) (λ w', guarantees (eq id) (w_db w) (w_db w')) w.
Proof using interfere_safe.
  intros Ho. unfold sendReserved. rewrite awp_bind.
  eapply awp_mono; [| |apply (safeStep_awp _ _ (interfere_safe 3)), Ho]; simpl; [|intros; by apply safe_own].
  intros _ w1 S1. pose proof (owned_safe _ _ _ S1 Ho) as O1. rewrite awp_bind, awp_now, awp_bind.
  apply awp_transaction; [|intros w' E; cbn in E; rewrite E; by apply safe_own].
  apply wp_guarded. cbn [w_db w_ticks w_uuids]. intros Hc.
  set (patch := [set_attemptStatus CALL_STARTED; _]) in *. fold (updateIn id (patchAttempt patch)).
  assert (safe (w_db w1) (setAttempts (updateIn id (patchAttempt patch)) (w_db w1))) as S2 by (by apply (safe_patch id patch)).
  assert (hasStarted (setAttempts (updateIn id (patchAttempt patch)) (w_db w1)) id) as H2 by (apply started_patch; [apply O1|done]).
  assert (safe (w_db w) (setAttempts (updateIn id (patchAttempt patch)) (w_db w1))) as S12 by by etrans.
  pose proof (owned_safe _ _ _ S2 O1) as O2. rewrite awp_bind.
  eapply awp_mono; [| |apply (safeStep_awp _ _ (interfere_safe 4)), O2]; simpl;
    [|intros; apply safe_own; by etrans].
  intros _ w3 S3. pose proof (owned_safe _ _ _ S3 O2) as O3. apply (gu_started _ _ _ S3) in H2; [|apply O2].
  unfold dispatch. rewrite !awp_bind, awp_modify. unfold awp at 1. cbn [w_db w_ticks].
  set (db4 := setDispatched _ (w_db w3)).
  assert (guarantees (eq id) (w_db w) db4) as G4.
  { etrans; [apply safe_own; etrans; [exact S12|exact S3]|]. apply guarantees_dispatch; [done|apply O3]. }
  rewrite awp_bind.
  eapply awp_mono; [| |apply (safeStep_awp _ _ (interfere_safe 5)), (gu_invariant _ _ _ G4), Ho]; simpl;
    [|intros; etrans; [exact G4|by apply safe_own]].
  intros _ w5 S5. eapply awp_mono; [| |apply (awp_always safe); auto with outreach]; simpl; intros;
    (etrans; [exact G4|]; apply safe_own; by etrans).
Qed.

Lemma reserveAttempt_spec row cap w :
  awp (reserveAttempt row cap)
    (λ r w', safe (w_db w) (w_db w') ∧ dispatched (w_db w') = dispatched (w_db w) ∧
       (r = Reserved → ¬ hasAttempt (w_db w) (sa_id row) ∧ hasAttempt (w_db w') (sa_id row)))
    (λ w', safe (w_db w) (w_db w')) w.
Proof using Type.
  apply awp_transaction; [|intros w' ->; reflexivity]. wp_run.
  case_match; [rewrite wp_ret; split_and!; [reflexivity|done|done]|]. wp_run.
  destruct (checkInsertAttempt _ _) as [e|] eqn:Hc.
  - case_match; [rewrite wp_ret; split_and!; [reflexivity|done|done]|done].
  - wp_run. apply safe_insert in Hc as [Hs Hn]. split; [exact Hs|].
    split; [apply dispatched_setAttempts|]. intros _. split; [exact Hn|].
    unfold hasAttempt. rewrite attempts_setAttempts, map_app. apply elem_of_app. right. by left.
Qed.

(** A send, as a whole, guarantees to others what it relies on. *)
Lemma reserveAndSend_safe input runId st w :
  sendInvariant (w_db w) →
  awp (reserveAndSend c interfere input runId st)
    (λ _ w', safe (w_db w) (w_db w')) (λ w', safe (w_db w) (w_db w')) w.
Proof using interfere_safe.
  intros Hinv. unfold reserveAndSend. rewrite awp_bind, awp_randomUUID.
  destruct (in_confirmation input); [|by rewrite awp_throw].
  rewrite awp_bind, awp_now, awp_bind. set (row := attemptOf _ _ _ _ _ _).
  eapply awp_mono; [| |apply reserveAttempt_spec]; simpl; [|done].
  intros r w1 (S1 & Hlog & Hr). destruct r; [|by rewrite awp_ret..]. destruct (Hr eq_refl) as [Hnew Hhas].
  set (id := uuid _) in *. change (sa_id row) with id in Hnew, Hhas.
  assert (owned id (w_db w1)) as Ho.
  { split; [by apply S1|done|]. unfold isDispatched. rewrite Hlog. intros Hd. apply Hnew.
    apply (si_started _ Hinv) in Hd as (a & Ha & <- & _). by apply list_elem_of_fmap_2. }
  assert (∀ db', guarantees (eq id) (w_db w1) db' → safe (w_db w) db') as Hwhole.
  { intros db' G. eapply (guarantees_weaken (eq id)); [by intros id' Hi <-|].
    etrans; [by apply safe_own|exact G]. }
  eapply awp_mono; [| |by apply sendReserved_guarantees]; simpl; auto.
Qed.

Lemma send_safe input runId w :
  sendInvariant (w_db w) → safe (w_db w) (w_db (send c source interfere input runId w).2).
Proof using interfere_safe.
  intros Hinv.
  cut (awp (send c source interfere input runId)
         (λ _ w', safe (w_db w) (w_db w')) (λ w', safe (w_db w) (w_db w')) w).
  { unfold awp. by destruct (send _ _ _ _ _ _) as [[]]. }
  assert (∀ A (m : PM A) (Q : A → world PipelineDb → Prop) w1,
    safe (w_db w) (w_db w1) → always safeStep m → (∀ a w2, safe (w_db w) (w_db w2) → Q a w2) →
    awp m Q (λ w', safe (w_db w) (w_db w')) w1) as Hstep.
  { intros A m Q w1 S1 Hm HQ. eapply awp_mono; [| |apply (safeStep_awp _ _ Hm), S1, Hinv]; simpl.
    - intros a w2 S2. apply HQ. by etrans.
    - intros w2 S2. by etrans. }
  assert (∀ A (m : PM A), always safe m → always safeStep m) as Hsafe by (intros A m Hm w1 _; apply Hm).
  unfold send. rewrite awp_bind. apply Hstep; [reflexivity|auto with outreach|].
  intros [r|st] w1 S1; [done|]. rewrite awp_bind. apply Hstep; [done|auto with outreach|].
  intros [proof|] w2 S2; [|done]. rewrite awp_bind. apply Hstep; [done|auto|].
  intros _ w3 S3. rewrite awp_bind. apply Hstep; [done|auto with outreach|].
  intros [h|reason] w4 S4; [|done]. case_match; [done|]. rewrite awp_bind.
  apply Hstep; [done|auto|]. intros _ w5 S5. rewrite awp_bind. apply Hstep; [done|auto with outreach|].
  intros sup w6 S6. case_match; [done|]. rewrite awp_bind. apply Hstep; [done|auto|].
  intros _ w7 S7. eapply awp_mono; [| |apply reserveAndSend_safe]; simpl; [| |by apply S7];
    intros; by etrans.
Qed.
End sending.

(** ** Processes *)

Section processes.
Context `{Runtime, OrmErrors, SendProvider}.

(** The processes of the system: sends of any drafts under any configuration, one
    after the other or in between the steps of each other, to any depth; crashes;
    and whatever else keeps its hands off the attempts of others. *)
Inductive SendProcess : PM () → Prop :=
  | process_send c source interfere input runId :
      (∀ k, SendProcess (interfere k)) →
      SendProcess (_ ← send c source interfere input runId; mret tt)
  | process_then p q : SendProcess p → SendProcess q → SendProcess (p ;; q)
  | process_crash e : SendProcess (throw e)
  | process_other m : always safe m → SendProcess m.

#[global] Instance safeStep_preorder : PreOrder safeStep.
Proof using Type.
  split; [by intros db _|]. intros db1 db2 db3 S1 S2 Hinv. etrans; [by apply S1|].
  apply S2. by apply (S1 Hinv).
Qed.
Lemma process_safe p : SendProcess p → always safeStep p.
Proof.
  induction 1 as [c source interfere input runId _ IH|p q _ IHp _ IHq|e|m Hm].
  - apply (always_bind safeStep); [|intros; apply (always_ret safeStep)].
    intros w Hinv. by apply send_safe.
  - by apply (always_bind safeStep).
  - apply (always_throw safeStep).
  - intros w _. apply Hm.
Qed.

(** The provider was called for an attempt of schedule [s] that did not definitely fail. *)
Definition liveDispatch (db : PipelineDb) (s : string) (d : Dispatch) : Prop :=
  ∃ a, a ∈ attempts db ∧ at_id a = dp_attemptId d ∧ at_scheduleId a = s ∧ isBlocking a = true.

Lemma invariant_empty db : attempts db = [] → dispatched db = [] → sendInvariant db.
Proof using Type.
  intros Ea Ed. split; unfold isDispatched; rewrite ?Ea, ?Ed; try constructor.
  - intros a a' []%not_elem_of_nil.
  - intros id []%not_elem_of_nil.
Qed.

Lemma invariant_once db :
  sendInvariant db →
  (∀ s i j d d', dispatched db !! i = Some d → dispatched db !! j = Some d' →
     liveDispatch db s d → liveDispatch db s d' → i = j) ∧
  (∀ d, d ∈ dispatched db → hasStarted db (dp_attemptId d)).
Proof using Type.
  intros Hinv.
  split.
  - intros s i j d d' Hi Hj (a & Hin & Eid & Es & Hb) (a' & Hin' & Eid' & Es' & Hb').
    assert (dp_attemptId d = dp_attemptId d') as E.
    { rewrite <-Eid, <-Eid'. apply (si_blocking _ Hinv); congruence. }
    apply (NoDup_lookup (map dp_attemptId (dispatched db)) i j (dp_attemptId d)); [apply Hinv|..];
      rewrite list_lookup_fmap; by rewrite ?Hi, ?Hj; simpl; f_equal.
  - intros d Hin. apply (si_started _ Hinv). by apply list_elem_of_fmap_2.
Qed.

(** At most one email per schedule: whatever sends run, in whatever interleaving,
    wherever they crash and whatever the provider answers, the provider is asked
    to send a scheduled draft at most once, unless every earlier attempt failed
    definitely (or was reconciled as not sent); and every call was announced in
    the database before it was made. *)
Theorem at_most_one_email p w :
  SendProcess p → attempts (w_db w) = [] → dispatched (w_db w) = [] →
  let db := w_db (p w).2 in
  (∀ s i j d d', dispatched db !! i = Some d → dispatched db !! j = Some d' →
     liveDispatch db s d → liveDispatch db s d' → i = j) ∧
  (∀ d, d ∈ dispatched db → hasStarted db (dp_attemptId d)).
Proof.
  intros Hp Ha Hd db.
  assert (sendInvariant db) as Hinv.
  { pose proof (invariant_empty _ Ha Hd) as Hinit. by apply (process_safe p Hp w Hinit). }
  by apply invariant_once.
Qed.
End processes.

(** ** A concrete send, and two that race *)

#[local] Existing Instance demo_runtime.
(** An ORM that hands on the errors of the driver *)
#[local] Instance demo_orm : OrmErrors := {| surfaced e := e |}.

Definition demoConfig : SendConfig :=
  {| cfg_gmailAccount := "me@agency.de"; cfg_senderName := Some "Ada"; cfg_policyVersion := "v1";
     cfg_sendingEnabled := true; cfg_outboundActionsEnabled := true; cfg_dryRun := false;
     cfg_maxLateMs := 3600000; cfg_confirmationTtlMs := 600000; cfg_dailyCap := 5 |}.
Definition demoBody : string := "Hallo, {{SENDER_NAME}} hier.".
Definition demoEnvelope : ProviderDraftEnvelope :=
  {| pv_fromName := "Ada"; pv_fromEmail := "me@agency.de"; pv_to := ["info@praxis.de"]; pv_cc := [];
     pv_bcc := []; pv_replyTo := None; pv_subject := "Ihre Website"; pv_body := "Hallo, Ada hier.";
     pv_attachmentCount := 0 |}.
#[local] Instance demo_provider : SendProvider :=
  {| verifyAccount _ a := Ok {| acc_ok := true; acc_email := Some a |};
     getKnownDraft _ _ := Ok (Inspected {| insp_envelope := demoEnvelope; insp_providerDraftId := Some "p1";
       insp_providerMessageId := Some "pm1"; insp_providerThreadId := Some "pt1" |});
     sendExistingDraft _ _ := Ok {| res_outcome := prov_ok;
       res_ref := Some {| ref_providerMessageId := "sent-1"; ref_providerThreadId := Some "pt1" |};
       res_reason := None |} |}.

Definition demoLead : Lead :=
  {| ld_id := "l1"; ld_businessName := Some "Praxis"; ld_normalizedName := Some "praxis";
     ld_domain := None; ld_normalizedDomain := None; ld_phone := None; ld_normalizedPhone := None;
     ld_formattedAddress := None; ld_normalizedAddress := None; ld_latitude := None;
     ld_longitude := None; ld_placeId := None; ld_city := None; ld_country := None;
     ld_status := SCHEDULED; ld_priority := None; ld_source := None; ld_dedupStatus := UNIQUE;
     ld_duplicateOf := None; ld_createdAt := 0; ld_updatedAt := 0 |}.
Definition demoSlot : Z := 1780000000000.
Definition demoFingerprint : string :=
  scheduleIntegrityFingerprint {| sb_leadId := "l1"; sb_gmailDraftId := "d1"; sb_providerDraftId := "p1";
    sb_finalizedContentHash := "h1"; sb_recipientEmail := "info@praxis.de";
    sb_scheduledAtUtcMs := demoSlot; sb_rulesVersion := "v1" |}.
Definition demoSchedule : ScheduleRecord :=
  {| sc_id := "s1"; sc_leadId := "l1"; sc_gmailDraftId := "d1"; sc_providerDraftId := "p1";
     sc_finalizedContentHash := "h1"; sc_recipientEmail := "info@praxis.de";
     sc_scheduledAtUtc := demoSlot; sc_timezone := "Europe/Berlin"; sc_rulesVersion := "v1";
     sc_computedFrom := defaultRules; sc_integrityFingerprint := demoFingerprint; sc_origin := "auto";
     sc_status := SCH_SCHEDULED; sc_supersededById := None; sc_cancelReason := None;
     sc_rescheduleCount := 0 |}.
Definition demoPipelineDb : PipelineDb :=
  {| runIds := {["run"]}; gmailDraftIds := {["d1"]}; leads := {["l1" := demoLead]}; pipelineEvents := [];
     schedules := [{| sr_record := demoSchedule; sr_createdAt := 0; sr_updatedAt := 0;
       sr_cancelledAt := None; sr_fulfilledAt := None; sr_invalidatedAt := None;
       sr_invalidationReason := None |}];
     attempts := []; suppressions := []; dispatched := [];
     readinessApprovals := [{| ra_id := "ra1"; ra_gmailAccount := "me@agency.de"; ra_policyVersion := "v1";
       ra_approvedBy := "op"; ra_approvedAt := demoSlot; ra_expiresAt := demoSlot + 3600000;
       ra_revokedAt := None; ra_source := INTERACTIVE |}] |}.
Definition demoScheduleView : ScheduleView :=
  {| sv_id := "s1"; sv_status := "SCHEDULED"; sv_gmailDraftId := "d1"; sv_providerDraftId := "p1";
     sv_finalizedContentHash := "h1"; sv_recipientEmail := "info@praxis.de";
     sv_scheduledAtUtcMs := demoSlot; sv_rulesVersion := "v1";
     sv_storedIntegrityFingerprint := demoFingerprint |}.
Definition demoSendFp : string :=
  sendFingerprint "s1" "d1" (approvedEnvelopeHash {| ae_gmailAccount := "me@agency.de";
    ae_recipientEmail := "info@praxis.de"; ae_subject := "Ihre Website"; ae_finalizedContentHash := "h1";
    ae_scheduleId := "s1"; ae_scheduledAtUtcMs := demoSlot; ae_replyTo := None |}) "ra1".
Definition demoSendInput : SendInput :=
  {| in_leadId := "l1"; in_leadStatus := "SCHEDULED"; in_schedule := Some demoScheduleView;
     in_currentGmailDraft := Some {| gd_id := "d1"; gd_outcome := "DRAFT_CREATED";
       gd_providerDraftId := Some "p1"; gd_providerMessageId := Some "pm1";
       gd_providerThreadId := Some "pt1"; gd_gmailAccount := "me@agency.de";
       gd_senderEmail := "me@agency.de"; gd_recipientEmail := "info@praxis.de";
       gd_finalizedEmailId := Some "f1" |};
     in_finalization := Some {| fz_id := "f1"; fz_resolvedBody := demoBody; fz_resolvedBodyHash := "h1";
       fz_finalHumanDecision := Some "APPROVED"; fz_finalReviewedAt := Some 0 |};
     in_currentFinalizedContentHash := Some "h1"; in_currentRecipientEmail := Some "info@praxis.de";
     in_subject := Some "Ihre Website"; in_normalizedDomain := None; in_normalizedPhone := None;
     in_placeId := None;
     in_confirmation := Some {| cf_observedSendFingerprint := demoSendFp; cf_confirmedBy := "op";
       cf_confirmedAtMs := demoSlot |};
     in_preflightProof := Some {| pp_sendFingerprint := demoSendFp;
       pp_providerEnvelopeHash := providerEnvelopeHash demoEnvelope; pp_checkedAtMs := demoSlot;
       pp_proofHash := preflightProofHash demoSendFp (providerEnvelopeHash demoEnvelope) demoSlot |} |}.

Definition demoSendWorld : world PipelineDb := World demoPipelineDb 0 0.
Definition quietly (k : nat) : PM () := mret tt.
Definition oneSend : PM () := _ ← send demoConfig INTERACTIVE quietly demoSendInput "run"; mret tt.
(** Another send of the same draft gets in between the checks and the reservation. *)
Definition racing (k : nat) : PM () := if (k =? 2)%nat then oneSend else mret tt.

Example demo_send_confirmed :
  match send demoConfig INTERACTIVE quietly demoSendInput "run" demoSendWorld with
  | (Ok r, w') => out_outcome r = SENT_CONFIRMED ∧
      map at_status (attempts (w_db w')) = [AT_SENT_CONFIRMED] ∧
      map sr_status (schedules (w_db w')) = [SCH_FULFILLED] ∧
      ld_status <$> leads (w_db w') !! "l1" = Some SENT
  | _ => False
  end.
Proof. vm_compute. done. Qed.
Example demo_race_sends_once :
  match send demoConfig INTERACTIVE racing demoSendInput "run" demoSendWorld with
  | (Ok r, w') => out_outcome r = DUPLICATE_PREVENTED ∧ length (dispatched (w_db w')) = 1%nat
  | _ => False
  end.
Proof. vm_compute. done. Qed.

(** ** Witness *)

Lemma at_most_one_email_witness :
  let db := w_db ((_ ← send demoConfig INTERACTIVE racing demoSendInput "run"; mret tt) demoSendWorld).2 in
  length (dispatched db) = 1%nat ∧ ∀ d, d ∈ dispatched db → hasStarted db (dp_attemptId d).
Proof.
  intros db. split; [vm_compute; reflexivity|].
  apply (at_most_one_email (_ ← send demoConfig INTERACTIVE racing demoSendInput "run"; mret tt) demoSendWorld).
  - apply process_send. intros k. unfold racing. destruct (k =? 2)%nat.
    + apply process_send. intros k'. apply process_other. intros w. reflexivity.
    + apply process_other. intros w. reflexivity.
  - reflexivity.
  - reflexivity.
Defined.
