(* ===== verification/SendSpecs.v ===== *)
(** * What one send does

    A call of the provider is only made when every condition holds, and its outcome
    is what the database says afterwards. *)
From S2P Require Import Prelude.
From S2P Require Import JsText.
From S2P Require Import TimeZone.
From S2P Require Import Scheduler.
From S2P Require Import LeadLifecycle.
From S2P Require Import PipelineDb.
From S2P Require Import SendGate.
From S2P Require Import SendService.
From S2P Require Import SendSafety.
Open Scope Z_scope.
Open Scope list_scope.

(** ** Steps that do not call the provider *)

Definition sameLog (db db' : PipelineDb) : Prop := dispatched db' = dispatched db.
#[global] Instance sameLog_preorder : PreOrder sameLog.
Proof. split; [done|]. intros ? ? ?. unfold sameLog. congruence. Qed.

Section log.
Context `{Runtime, OrmErrors, SendProvider}.

Lemma log_updateLead id st at_ : respects sameLog (updateLeadStatus id st at_).
Proof using Type. apply (respects_modify sameLog). by intros []. Qed.
Lemma log_recordEvent e : respects sameLog (recordEvent e).
Proof.
  unfold recordEvent. respects_step; [respects_step|]. apply (respects_guarded sameLog). by intros [].
Qed.
Lemma log_schedule id f : respects sameLog (updateScheduleRow id f).
Proof using Type. apply (respects_modify sameLog). by intros []. Qed.
Lemma log_complete id patch : respects sameLog (completeAttempt id patch).
Proof using Type. apply (respects_guarded sameLog). by intros []. Qed.
Lemma log_getLead id : respects sameLog (getLead id).
Proof using Type. apply (respects_query sameLog). Qed.
#[local] Hint Resolve log_updateLead log_recordEvent log_schedule log_complete log_getLead : outreach.
Lemma log_leadTransition id to : respects sameLog (leadTransition id to).
Proof. unfold leadTransition. cbv zeta. respects_tac. Qed.
#[local] Hint Resolve log_leadTransition : outreach.
Lemma log_transitionFrom id from to : respects sameLog (transitionFrom id from to).
Proof. unfold transitionFrom. respects_tac. Qed.
#[local] Hint Resolve log_transitionFrom : outreach.
Lemma log_finish input runId id sid t response : always sameLog (finish input runId id sid t response).
Proof. unfold finish, finishUnknown, markScheduleFulfilled. cbv zeta. always_tac. Qed.
Lemma log_refusal input elig mutate : always sameLog (refusal input elig mutate).
Proof. unfold refusal, routeInvalidate, routeManual, invalidateSchedule. cbv zeta. always_tac. Qed.
#[local] Hint Resolve log_finish log_refusal : outreach.
Lemma log_reserve row cap : always sameLog (reserveAttempt row cap).
Proof.
  assert (∀ f, respects sameLog (modify (setAttempts f))) as Hmodify.
  { intros f. apply (respects_modify sameLog). by intros []. }
  unfold reserveAttempt. always_tac.
Qed.
End log.
#[export] Hint Resolve log_finish log_refusal log_reserve : outreach.

(** ** The gate, seen from the database *)

(** The snapshot that the gate inspects when a send of [input] reads [db] at [nowMs] *)
Definition gateSnapshot `{Runtime} (c : SendConfig) (source : ReadinessSource) (input : SendInput)
    (sched : ScheduleView) (db : PipelineDb) (nowMs nowD : Z) : SendEligibilitySnapshot :=
  let ready := readinessIn source (cfg_gmailAccount c) (cfg_policyVersion c) db in
  snapshotOf c input sched ready
    (match ready with
     | Some r => sendFingerprint (sv_id sched) (sv_gmailDraftId sched) (envelopeHashOf c input sched) (ra_id r)
     | None => "" end)
    (0 <? length (suppressionsIn (identity input) db))%nat (hasConfirmedIn (sv_id sched) db)
    (hasBlockingIn (sv_id sched) db) (lastFailureIn (sv_id sched) db) nowMs
    (confirmedTodayIn (cfg_gmailAccount c) nowD db).

(** What must hold for a send of [input] to call the provider: the gate, with the
    operator's confirmation; the approved envelope; and the provider's own view of the
    draft, which is the approved one. *)
Record sendAllowed `{Runtime, SendProvider} (c : SendConfig) (source : ReadinessSource)
    (input : SendInput) (db : PipelineDb) (draft : CurrentGmailDraft) : Prop := {
  al_gate : ∃ sched r nowMs nowD, in_schedule input = Some sched ∧
    mayBeSent (gateSnapshot c source input sched db nowMs nowD) sched r ∧
    confirmed (gateSnapshot c source input sched db nowMs nowD);
  al_draft : in_currentGmailDraft input = Some draft;
  al_provider : ∃ expected i n senderName subject recipient fz,
    expectedDraftEnvelope senderName (gd_senderEmail draft) recipient subject (fz_resolvedBody fz) None =
      Ok expected ∧
    cfg_senderName c = Some senderName ∧ in_currentRecipientEmail input = Some recipient ∧
    in_subject input = Some subject ∧ in_finalization input = Some fz ∧
    getKnownDraft n (default "" (gd_providerDraftId draft)) = Ok (Inspected i) ∧
    insp_providerMessageId i = gd_providerMessageId draft ∧
    insp_providerThreadId i = gd_providerThreadId draft ∧ sameEnvelope expected (insp_envelope i) ∧
    ∃ proof, in_preflightProof input = Some proof ∧
      providerEnvelopeHash (insp_envelope i) = pp_providerEnvelopeHash proof;
}.

Section guarded.
Context `{Runtime, OrmErrors, SendProvider} (c : SendConfig) (source : ReadinessSource).

Lemma log_awp {A} (m : PM A) (Q : A → world PipelineDb → Prop) (E : world PipelineDb → Prop) w :
  always sameLog m → (∀ a w', sameLog (w_db w) (w_db w') → Q a w') →
  (∀ w', sameLog (w_db w) (w_db w') → E w') → awp m Q E w.
Proof using Type. intros Hm HQ HE. eapply awp_mono; [| |apply (awp_always sameLog _ _ Hm)]; auto. Qed.

Record stateOk (input : SendInput) (db : PipelineDb) (st : SendState) : Prop := {
  ok_gate : ∃ r nowMs nowD, in_schedule input = Some (st_schedule st) ∧
    mayBeSent (gateSnapshot c source input (st_schedule st) db nowMs nowD) (st_schedule st) r ∧
    confirmed (gateSnapshot c source input (st_schedule st) db nowMs nowD);
  ok_expected : ∃ draft senderName subject recipient fz, in_currentGmailDraft input = Some draft ∧
    expectedDraftEnvelope senderName (gd_senderEmail draft) recipient subject (fz_resolvedBody fz) None =
      Ok (st_expected st) ∧
    cfg_senderName c = Some senderName ∧ in_currentRecipientEmail input = Some recipient ∧
    in_subject input = Some subject ∧ in_finalization input = Some fz;
}.

Lemma state_spec input w :
  awp (state c source input true true)
    (λ r w', match r with
             | inl _ => sameLog (w_db w) (w_db w')
             | inr st => w_db w' = w_db w ∧ stateOk input (w_db w) st
             end) (λ w', sameLog (w_db w) (w_db w')) w.
Proof.
  unfold state. do 3 (case_match; [done|]). destruct (in_schedule input) as [sched|] eqn:Esched; [|done].
  unfold readiness, activeSuppressions, lastDefinitiveFailureAt, hasConfirmedAttempt, hasBlockingAttempt,
    confirmedSendsToday. awp_run.
  set (snapshot := snapshotOf _ _ _ _ _ _ _ _ _ _ _).
  change snapshot with (gateSnapshot c source input sched (w_db w) (clock (w_ticks w)) (clock (S (w_ticks w)))).
  clear snapshot. set (snapshot := gateSnapshot _ _ _ _ _ _ _).
  destruct (el_eligible (checkSendEligibility snapshot true)) eqn:Eel; simpl; cycle 1.
  { rewrite awp_bind. apply log_awp; [auto with outreach|done|done]. }
  apply eligible_sound in Eel as [(sch & r & Hmay) Hconf]. specialize (Hconf eq_refl).
  assert (sch = sched) as -> by (destruct Hmay as [_ _ _ _ [E _] _ _ _ _ _ _]; by injection E).
  repeat (case_match; try done). rewrite awp_ret. split; [done|]. split.
  - exists r, (clock (w_ticks w)), (clock (S (w_ticks w))). done.
  - simpl. eauto 15.
Qed.

(** A state, with or without the confirmation, presupposes the gate; a refusal is never READY. *)
Lemma state_gate input requireConfirmation w :
  wp (state c source input requireConfirmation false)
    (λ r _, match r with
       | inl refused => out_outcome refused ≠ READY
       | inr st => ∃ r, in_schedule input = Some (st_schedule st) ∧
           mayBeSent (gateSnapshot c source input (st_schedule st) (w_db w) (clock (w_ticks w))
             (clock (S (w_ticks w)))) (st_schedule st) r
       end) w.
Proof.
  unfold state. do 3 (case_match; [done|]). destruct (in_schedule input) as [sched|] eqn:Esched; [|done].
  unfold readiness, activeSuppressions, lastDefinitiveFailureAt, hasConfirmedAttempt, hasBlockingAttempt,
    confirmedSendsToday. wp_run.
  set (snapshot := snapshotOf _ _ _ _ _ _ _ _ _ _ _).
  change snapshot with (gateSnapshot c source input sched (w_db w) (clock (w_ticks w)) (clock (S (w_ticks w)))).
  clear snapshot. set (snapshot := gateSnapshot _ _ _ _ _ _ _).
  destruct (el_eligible (checkSendEligibility snapshot requireConfirmation)) eqn:Eel; simpl; cycle 1.
  { unfold refusal. cbv zeta. rewrite wp_bind. repeat (case_match; try done). }
  apply eligible_sound in Eel as [(sch & r & Hmay) _].
  assert (sch = sched) as -> by (destruct Hmay as [_ _ _ _ [E _] _ _ _ _ _ _]; by injection E).
  repeat (case_match; try done). rewrite wp_ret. by exists r.
Qed.
Lemma preflight_gate input w :
  wp (preflight c source input)
    (λ r _, out_outcome r = READY → ∃ sched r, in_schedule input = Some sched ∧
       mayBeSent (gateSnapshot c source input sched (w_db w) (clock (w_ticks w)) (clock (S (w_ticks w))))
         sched r) w.
Proof.
  unfold preflight. rewrite wp_bind. eapply wp_mono; [|apply state_gate].
  intros [r|st] w1 Hst; [by rewrite wp_ret|]. destruct Hst as (r & Hsched & Hmay).
  eapply (wp_mono _ (λ _ _, True)); [|unfold wp; by case_match; case_match].
  intros out w2 _ _. by exists (st_schedule st), r.
Qed.

Lemma verifyProvider_spec expected stored w :
  awp (verifyProvider c expected stored)
    (λ r w', w_db w' = w_db w ∧ match r with
       | inr _ => True
       | inl hash => ∃ d n i, stored = Some d ∧
           getKnownDraft n (default "" (gd_providerDraftId d)) = Ok (Inspected i) ∧
           insp_providerMessageId i = gd_providerMessageId d ∧
           insp_providerThreadId i = gd_providerThreadId d ∧ sameEnvelope expected (insp_envelope i) ∧
           hash = providerEnvelopeHash (insp_envelope i)
       end) (λ w', w_db w' = w_db w) w.
Proof.
  unfold verifyProvider. destruct stored as [d|]; [|done]. case_match; [|done].
  rewrite awp_bind. apply awp_ask; [|done]. intros acc _.
  case_match; [done|]. rewrite awp_bind. apply awp_ask; [|done]. intros [i|] Edraft; [|done].
  case_match; [done|]. case_match eqn:Em; [done|]. case_match eqn:Et; [done|].
  case_match eqn:Ep; [done|]. rewrite awp_ret. split; [done|].
  apply negb_false_iff, bool_decide_eq_true in Em, Et. apply nonempty_ltb in Ep.
  exists d, (S (w_ticks w)), i. split_and!; try done. by apply compare_sound.
Qed.
End guarded.

Section only_allowed.
Context `{Runtime, OrmErrors, SendProvider} (c : SendConfig) (source : ReadinessSource).

Lemma awp_quietly k Q E w : awp (quietly k) Q E w ↔ Q tt w.
Proof using Type. done. Qed.
Lemma log_quietly k : always sameLog (quietly k).
Proof using Type. intros w. reflexivity. Qed.
#[local] Hint Resolve log_quietly : outreach.
Lemma checkProof_log st proof : always sameLog (checkProof c st proof).
Proof. unfold checkProof. always_tac. Qed.

(** After the reservation, the log gains the one call. *)
Lemma sendReserved_log input runId id sid w :
  awp (sendReserved quietly input runId id sid)
    (λ _ w', dispatched (w_db w') = dispatched (w_db w) ++
       [{| dp_attemptId := id;
           dp_providerDraftId := default "" (in_currentGmailDraft input ≫= gd_providerDraftId) |}])
    (λ w', dispatched (w_db w') = dispatched (w_db w) ∨ dispatched (w_db w') = dispatched (w_db w) ++
       [{| dp_attemptId := id;
           dp_providerDraftId := default "" (in_currentGmailDraft input ≫= gd_providerDraftId) |}]) w.
Proof.
  unfold sendReserved, quietly. awp_run.
  apply log_awp; [apply (always_transaction sameLog), log_complete| |by left].
  intros _ w1 S1. unfold dispatch. awp_run. unfold awp at 1. cbn [w_db w_ticks w_uuids]. awp_run.
  set (d := Build_Dispatch _ _).
  assert (dispatched (setDispatched (λ l, l ++ [d]) (w_db w1)) = dispatched (w_db w) ++ [d]) as Ed.
  { unfold sameLog in S1. cbn in S1. destruct (w_db w1). simpl in *. by rewrite S1. }
  apply log_awp; [auto with outreach|unfold sameLog; cbn [w_db]; congruence|].
  unfold sameLog. cbn [w_db]. intros. right. congruence.
Qed.

(** What a run of [send] may add to the log of the provider's calls *)
Definition gatedDispatch (input : SendInput) (db db' : PipelineDb) : Prop :=
  dispatched db' = dispatched db ∨
  ∃ id draft, sendAllowed c source input db draft ∧ suppressionsIn (identity input) db = [] ∧
    dispatched db' = dispatched db ++
      [{| dp_attemptId := id; dp_providerDraftId := default "" (gd_providerDraftId draft) |}].
Lemma send_gated input runId w :
  awp (send c source quietly input runId) (λ _ w', gatedDispatch input (w_db w) (w_db w'))
    (λ w', gatedDispatch input (w_db w) (w_db w')) w.
Proof.
  unfold send. rewrite awp_bind. eapply awp_mono; [| |apply state_spec]; simpl; [|by left].
  intros [r|st] w1; [by left|]. intros [E1 Hst]. rewrite awp_bind.
  unfold checkProof. destruct (in_preflightProof input) as [proof|] eqn:Eproof; [|left; simpl; congruence].
  destruct (proofGenuine st proof); [|left; simpl; congruence]. awp_run.
  destruct (cfg_confirmationTtlMs c <? _); [left; simpl; congruence|]. cbv beta iota.
  rewrite awp_bind, awp_quietly, awp_bind.
  eapply awp_mono; [| |apply verifyProvider_spec]; simpl; [|left; simpl in *; congruence].
  intros [hash|reason] w2 [E2 Hprov]; [|left; simpl in *; congruence].
  destruct Hprov as (d & n & i & Ed & Hknown & Hmsg & Hthread & Hsame & ->).
  case_match eqn:Ehash; [left; simpl in *; congruence|]. apply neq_false in Ehash.
  unfold activeSuppressions. rewrite awp_bind, awp_quietly, awp_bind, awp_query.
  destruct (suppressionsIn (identity input) (w_db w2)) as [|] eqn:Esup; [|left; simpl in *; congruence].
  cbn [length Nat.ltb Nat.leb]. rewrite awp_bind, awp_quietly.
  assert (sendAllowed c source input (w_db w) d) as Hallowed.
  { destruct Hst as [(r & t1 & t2 & Hsched & Hmay & Hconf)
      (draft & senderName & subject & recipient & fz & Hdraft & Hexp & Hname & Hrcpt & Hsubj & Hfz)].
    assert (draft = d) as -> by congruence.
    split; [by exists (st_schedule st), r, t1, t2|done|].
    exists (st_expected st), i, n, senderName, subject, recipient, fz. split_and!; try done. by exists proof. }
  rewrite E2, E1 in Esup. assert (dispatched (w_db w2) = dispatched (w_db w)) as Elog by (simpl in *; congruence).
  clear E1 E2. unfold reserveAndSend. rewrite awp_bind, awp_randomUUID. cbn [w_db w_ticks w_uuids].
  destruct (in_confirmation input); [|left; exact Elog]. rewrite awp_bind, awp_now. cbn [w_db w_ticks w_uuids].
  rewrite awp_bind. apply log_awp; [auto with outreach| |intros w3 S3; left; unfold sameLog in S3; simpl in *; congruence].
  intros [] w3 S3; unfold sameLog in S3; cbn [w_db] in S3; [|left; simpl; congruence..].
  eapply awp_mono; [| |apply sendReserved_log]; simpl; rewrite S3, Elog, Ed; simpl.
  - intros _ w4 Hlog. right. eexists _, d. eauto.
  - intros w4 [Hlog|Hlog]; [by left|right; eexists _, d; eauto].
Qed.

End only_allowed.
