(* ===== verification/SuppressionSpecs.v ===== *)
(** * What the suppression list promises

    The normal forms of suppression values against those of leads and recipients, what
    an accepted suppression does to sending, and where it does nothing. *)
From S2P Require Import Prelude.
From S2P Require Import JsText.
From S2P Require Import JsonText.
From S2P Require Import Regex.
From S2P Require Import LeadNormalize.
From S2P Require Import LeadLifecycle.
From S2P Require Import PipelineDb.
From S2P Require Import SendGate.
From S2P Require Import SendService.
From S2P Require Import SendSafety.
From S2P Require Import SendSpecs.
From S2P Require Import Suppression.
Open Scope string_scope.
Open Scope list_scope.

(** ** Texts of harmless characters are their own normal form *)

(** The characters of a domain name *)
Definition domainChar (c : ascii) : bool := is_alnum c || bool_decide (c ∈ ["-"; "."]%char).
Ltac all_ascii := intros [[] [] [] [] [] [] [] []]; vm_compute; congruence.
Lemma domainChar_lower c : domainChar c = true → lower_char c = c.
Proof. revert c. all_ascii. Qed.
Lemma domainChar_space c : domainChar c = true → is_space c = false.
Proof. revert c. all_ascii. Qed.
Lemma domainChar_slash c : domainChar c = true → bool_decide (c = "/"%char) = false.
Proof. revert c. all_ascii. Qed.

Lemma toLowerCase_fix s : allChars domainChar s → toLowerCase s = s.
Proof.
  induction s as [|c s IH]; [done|]. intros [Hc Hs]%allChars_cons. cbn [toLowerCase].
  by rewrite (domainChar_lower c Hc), IH.
Qed.
Lemma trim_fix s : allChars (λ c, negb (is_space c)) s → trim s = s.
Proof.
  intros Hs. unfold trim. assert (trimStart s = s) as ->.
  { destruct s as [|c s]; [done|]. apply allChars_cons in Hs as [Hc _]. cbn [trimStart].
    apply negb_true_iff in Hc. by rewrite Hc. }
  apply trimEnd_fix. induction s as [|c s IH]; [done|]. apply allChars_cons in Hs as [Hc Hs].
  cbn [trimmedEnd]. destruct s; [done|]. by apply IH.
Qed.
Lemma dropPath_fix s : allChars domainChar s → dropPath s = s.
Proof.
  induction s as [|c s IH]; [done|]. intros [Hc Hs]%allChars_cons. cbn [dropPath].
  by rewrite (domainChar_slash c Hc), IH.
Qed.
(** A prefix with a character outside the class is not there. *)
Lemma startsWith_outside f p s :
  allChars f s → string_exists (λ c, negb (f c)) p = true → startsWith s p = false.
Proof.
  intros Hs Hp. destruct (startsWith s p) eqn:E; [|done].
  apply startsWith_spec in E as [t ->]. apply allChars_app in Hs as [Hs _]. unfold allChars in Hs. congruence.
Qed.
Lemma dropScheme_fix s : allChars domainChar s → dropScheme s = s.
Proof.
  intros Hs. unfold dropScheme, dropPrefix.
  rewrite (startsWith_outside domainChar _ _ Hs) by done.
  apply withoutPrefix_none. by rewrite (startsWith_outside domainChar _ _ Hs).
Qed.

Lemma domainRe_chars s : re_test domainRe s = true → allChars domainChar s ∧ s ≠ "".
Proof.
  intros Hm. split; [|by intros ->].
  apply re_test_spec in Hm. revert Hm. intros Hm%(matches_within domainChar); [done|].
  unfold domainRe, domainLabel, rPlus, rOpt, rChar. cbn [within].
  assert (∀ c, is_alnum c = true → domainChar c = true) as H1 by all_ascii.
  assert (∀ c, is_alnum c || bool_decide (c = "-"%char) = true → domainChar c = true) as H2 by all_ascii.
  assert (∀ c, bool_decide (c = "."%char) = true → domainChar c = true) as H3 by all_ascii.
  assert (∀ c, is_lower c = true → domainChar c = true) as H4 by all_ascii.
  split_and!; auto using within_upto, within_rep.
Qed.

(** ** Normal forms *)

Lemma normalize_domain_agrees value d :
  normalizeSuppressionValue SUP_domain value = Ok d → normalizeDomain (Some value) = Some d.
Proof.
  unfold normalizeSuppressionValue, normalizeDomain. destruct (truthy (trim value)) eqn:Ev; [|done]. cbn [negb].
  rewrite dropPath_www. case_match eqn:Em; [|done]. intros [= <-].
  apply truthy_spec in Ev. unfold presentText. simpl. unfold nonEmpty at 2, truthy.
  rewrite bool_decide_eq_false_2 by (by intros ->). simpl.
  apply nonEmpty_Some. split; [done|]. by apply domainRe_chars in Em as [_ ?].
Qed.
Lemma normalize_domain_twice value d :
  normalizeSuppressionValue SUP_domain value = Ok d → startsWith d "www." = false →
  normalizeSuppressionValue SUP_domain d = Ok d.
Proof.
  unfold normalizeSuppressionValue. destruct (truthy (trim value)); [|done]. cbn [negb].
  case_match eqn:Em; [|done]. intros [= <-] Hw. set (d := withoutPrefix _ _) in *. clearbody d.
  apply domainRe_chars in Em as Hd. destruct Hd as [Hc Hne].
  rewrite trim_fix by (eapply allChars_impl; [|exact Hc]; intros c Hx; by rewrite (domainChar_space c Hx)).
  rewrite (proj2 (truthy_spec d)) by done. cbn [negb].
  rewrite toLowerCase_fix, dropScheme_fix, dropPath_fix, withoutPrefix_none by done. by rewrite Em.
Qed.
Lemma normalize_email value v :
  normalizeSuppressionValue SUP_email value = Ok v → v = normalizeEmail value.
Proof.
  unfold normalizeSuppressionValue. case_match; [done|]. case_match; [|done]. by intros [= <-].
Qed.
Lemma normalize_place_id value v :
  normalizeSuppressionValue SUP_place_id value = Ok v → v = trim value.
Proof.
  unfold normalizeSuppressionValue. case_match; [done|]. case_match; [|done]. by intros [= <-].
Qed.
(** The sign of a phone number survives. *)
Lemma normalize_phone value v :
  normalizeSuppressionValue SUP_phone value = Ok v → startsWith (trim value) "+" = true → ∃ t, v = String "+" t.
Proof.
  unfold normalizeSuppressionValue. case_match; [done|]. case_match; [|done]. intros [= <-] [t ->]%startsWith_spec.
  rewrite string_cons_app. cbn [filterString]. by eexists.
Qed.

(** ** What adding an entry does *)

Section add.
Context `{Runtime}.

Lemma addSuppression_spec scope value reason by_ w :
  wp (addSuppression scope value reason by_) (λ id w', ∃ v row,
    normalizeSuppressionValue scope value = Ok v ∧ normalizeSuppressionValue scope v = Ok (su_value row) ∧
    su_scope row = scope ∧ su_id row = id ∧ su_revokedAt row = None ∧
    checkInsertSuppression row (w_db w) = None ∧
    suppressions (w_db w') = suppressions (w_db w) ++ [row] ∧
    dispatched (w_db w') = dispatched (w_db w)) w.
Proof.
  unfold addSuppression, requireText, addRow, recordEvent.
  destruct (truthy (trim reason)); wp_run; [|done]. destruct (truthy (trim by_)); wp_run; [|done]. intros v Ev. wp_run. intros hash Eh. wp_run.
  intros v' Ev'. wp_run. intros Hc. wp_run. intros _.
  match type of Hc with checkInsertSuppression ?r _ = _ => exists v, r end.
  split_and!; try done; clear; by destruct (w_db w).
Qed.
End add.

Section revoke.
Context `{Runtime}.

Lemma revokeSuppression_spec id reason by_ w :
  wp (revokeSuppression id reason by_) (λ changed w', ∃ at_,
    suppressions (w_db w') = map (λ r, if revocable (trim id) r then revokeRow at_ (trim by_) (trim reason) r else r)
      (suppressions (w_db w)) ∧ dispatched (w_db w') = dispatched (w_db w)) w.
Proof.
  unfold revokeSuppression, requireText, revoke, recordEvent.
  destruct (truthy (trim id)); wp_run; [|done]. destruct (truthy (trim reason)); wp_run; [|done].
  destruct (truthy (trim by_)); wp_run; [|done].
  destruct (_ =? 1)%nat; wp_run; [intros _; wp_run|]; exists (clock (w_ticks w));
    clear; by destruct (w_db w).
Qed.
End revoke.

Lemma isActive_revoked at_ by_ reason r : isActive (revokeRow at_ by_ reason r) = false.
Proof. by apply bool_decide_eq_false_2. Qed.
(** The entry with the value of an accepted one: nothing else is under it. *)
Lemma checkInsertSuppression_None row db :
  checkInsertSuppression row db = None → ∀ r, r ∈ suppressions db →
    su_id r ≠ su_id row ∧ ¬ (su_scope r = su_scope row ∧ su_value r = su_value row).
Proof.
  unfold checkInsertSuppression. rewrite refuse_None, !Forall_cons. cbn [fst].
  intros (H1 & H2 & _) r Hr. split.
  - intros E. apply not_true_iff_false in H1. apply H1, existsb_exists. exists r.
    rewrite <-list_elem_of_In. by rewrite bool_decide_eq_true_2.
  - intros [E1 E2]. apply not_true_iff_false in H2. apply H2, existsb_exists. exists r.
    rewrite <-list_elem_of_In. by rewrite !bool_decide_eq_true_2.
Qed.
(** Whatever is listed under a value, active or not, keeps it from being added. *)
Lemma addSuppression_listed `{Runtime} scope value v reason by_ w :
  (normalizeSuppressionValue scope value ≫= normalizeSuppressionValue scope) = Ok v →
  (∃ r, r ∈ suppressions (w_db w) ∧ su_scope r = scope ∧ su_value r = v) →
  ∃ e w', transaction (addSuppression scope value reason by_) w = (Throw e, w') ∧ w_db w' = w_db w.
Proof.
  intros Ev (r & Hr & Hsc & Hv). pose proof (addSuppression_spec scope value reason by_ w) as Hs.
  unfold wp in Hs. unfold transaction. destruct (addSuppression scope value reason by_ w) as [[id|e] w'].
  - exfalso. destruct Hs as (v0 & row & E1 & E2 & Hsc' & _ & _ & Hc & _).
    rewrite E1 in Ev. cbn in Ev. rewrite E2 in Ev. injection Ev as Ev.
    destruct (checkInsertSuppression_None row _ Hc r Hr) as [_ Hne]. apply Hne. split; congruence.
  - by eexists _, _.
Qed.

(** A suppression that an operator wrote with [value] is meant for a recipient.  A
    domain whose normal form starts with another "www." would lose that as well. *)
Definition meantFor (scope : SuppressionScope) (value : string) (i : SuppressionIdentity) : Prop :=
  match scope with
  | SUP_email => ∃ e, si_email i = Some e ∧ normalizeEmail e = normalizeEmail value
  | SUP_domain => ∃ d, si_domain i = Some d ∧ normalizeDomain (Some value) = Some d ∧ startsWith d "www." = false
  | SUP_place_id => si_placeId i = Some (trim value)
  | SUP_phone | SUP_business => False
  end.
Lemma meantFor_key scope value v v' i :
  normalizeSuppressionValue scope value = Ok v → normalizeSuppressionValue scope v = Ok v' →
  meantFor scope value i → (scope, v') ∈ suppressionKeys i.
Proof.
  intros E1 E2 Hm. unfold suppressionKeys.
  assert (∀ sc f o x, o = Some x → x ≠ "" → (sc, f x) ∈
    (if truthy_opt o then [(sc : SuppressionScope, (f : string → string) (default "" o))] else [])) as Hkey.
  { intros sc f o x -> Hx. rewrite (proj2 (truthy_opt_spec _)) by eauto. apply list_elem_of_singleton. done. }
  rewrite !elem_of_app.
  destruct scope; cbn [meantFor] in Hm; try done.
  - destruct Hm as (e & He & Een). left.
    rewrite (normalize_email _ _ E2), (normalize_email _ _ E1), normalizeEmail_idem, <-Een.
    apply Hkey; [done|]. intros ->. unfold normalizeEmail in Een. simpl in Een.
    unfold normalizeSuppressionValue in E1. case_match; [done|].
    fold (normalizeEmail value) in E1. unfold normalizeEmail in E1. rewrite <-Een in E1. done.
  - destruct Hm as (d & Hd & Hn & Hw). right. left.
    pose proof (normalize_domain_agrees _ _ E1) as Hv. assert (v = d) as -> by congruence.
    rewrite (normalize_domain_twice _ _ E1 Hw) in E2. simplify_eq.
    apply (Hkey SUP_domain id _ v'); [done|]. intros ->. unfold normalizeDomain in Hn.
    by apply bind_Some in Hn as (? & _ & [_ ?]%nonEmpty_Some).
  - right. right. right. rewrite (normalize_place_id _ _ E2), (normalize_place_id _ _ E1), trim_idem.
    apply (Hkey SUP_place_id id _ (trim value)); [done|]. intros Ht.
    unfold normalizeSuppressionValue in E1. rewrite Ht in E1. done.
Qed.

Lemma active_suppresses i db row :
  row ∈ suppressions db → su_revokedAt row = None → (su_scope row, su_value row) ∈ suppressionKeys i →
  suppressionsIn i db ≠ [].
Proof.
  intros Hin Hact Hkey Hnil. unfold suppressionsIn in Hnil.
  destruct (suppressionKeys i) as [|k ks] eqn:Ek; [by apply elem_of_nil in Hkey|]. rewrite <-Ek in *.
  assert (su_scope row ∈ uniq (map su_scope (List.filter (suppressionMatches (suppressionKeys i)) (suppressions db))))
    as Hu; [|rewrite Hnil in Hu; by apply elem_of_nil in Hu].
  apply elem_of_uniq, list_elem_of_fmap. exists row. split; [done|].
  apply elem_of_List_filter. split; [done|]. unfold suppressionMatches.
  by rewrite !bool_decide_eq_true_2.
Qed.

Section claims.
Context `{Runtime, OrmErrors, SendProvider}.

(** C18: A suppression stops every send: once an operator's suppression of an address, a
    domain or a place has been accepted, and until it is revoked, no send to a
    recipient that it is meant for calls the provider, whatever else has happened to
    the database in between. *)
Theorem suppression_blocks_sends c source scope value reason by_ w id w1 input runId w2 :
  addSuppression scope value reason by_ w = (Ok id, w1) →
  meantFor scope value (identity input) →
  (∀ r, r ∈ suppressions (w_db w1) → su_id r = id → r ∈ suppressions (w_db w2)) →
  dispatched (w_db (send c source quietly input runId w2).2) = dispatched (w_db w2).
Proof.
  intros Hadd Hmeant Hkept. pose proof (addSuppression_spec scope value reason by_ w) as Hs.
  unfold wp in Hs. rewrite Hadd in Hs.
  destruct Hs as (v & row & E1 & E2 & Hsc & Hid & Hact & _ & Hrows & _).
  assert (row ∈ suppressions (w_db w2)) as Hin.
  { apply Hkept; [|done]. rewrite Hrows. apply elem_of_app. right. by apply list_elem_of_singleton. }
  assert (suppressionsIn (identity input) (w_db w2) ≠ []) as Hne.
  { apply (active_suppresses _ _ row); [done..|]. rewrite Hsc. exact (meantFor_key _ _ _ _ _ E1 E2 Hmeant). }
  pose proof (send_gated c source input runId w2) as Hg. unfold awp in Hg.
  destruct (send _ _ _ _ _ _) as [[] w3]; destruct Hg as [Hg|(? & ? & _ & E0 & _)];
    first [exact Hg | exact (False_ind _ (Hne E0))].
Qed.

(** A phone suppression in international form does nothing: entered with its country
    code ("+44 161 496 0000") it is accepted and stored with the sign, but leads carry
    national numbers ("1614960000"), so that no identity is suppressed by it. *)
Theorem international_phone_unmatched value reason by_ w id w1 i phone :
  addSuppression SUP_phone value reason by_ w = (Ok id, w1) →
  startsWith (trim value) "+" = true →
  si_phone i = normalizePhone phone →
  suppressionsIn i (w_db w1) = suppressionsIn i (w_db w).
Proof.
  intros Hadd Hplus Hphone. pose proof (addSuppression_spec SUP_phone value reason by_ w) as Hs.
  unfold wp in Hs. rewrite Hadd in Hs.
  destruct Hs as (v & row & E1 & E2 & Hsc & _ & _ & _ & Hrows & _).
  destruct (normalize_phone _ _ E1 Hplus) as [t ->].
  assert (∃ t', su_value row = String "+" t') as [t' Hv].
  { apply (normalize_phone _ _ E2). unfold trim. cbn [trimStart]. change (is_space "+") with false. cbn match.
    apply startsWith_spec. cbn [trimEnd]. destruct (trimEnd t) as [|a u]; [by exists ""|by exists (String a u)]. }
  assert ((SUP_phone, String "+" t') ∉ suppressionKeys i) as Hnot.
  { unfold suppressionKeys. rewrite Hphone. rewrite !elem_of_app.
    intros [Hk|[Hk|[Hk|Hk]]]; case_match eqn:Et; try (by apply elem_of_nil in Hk);
      apply list_elem_of_singleton in Hk; try done.
    destruct (normalizePhone phone) as [n|] eqn:En; [|done]. apply normalizePhone_digits in En.
    cbn in Hk. injection Hk as <-. by apply allChars_cons in En as [? _]. }
  unfold suppressionsIn. destruct (suppressionKeys i) as [|k ks] eqn:Ek; [done|]. rewrite <-Ek in *.
  rewrite Hrows, List.filter_app. cbn [List.filter].
  assert (suppressionMatches (suppressionKeys i) row = false) as ->.
  { unfold suppressionMatches. rewrite Hsc, Hv, (bool_decide_eq_false_2 _ Hnot). apply andb_false_r. }
  by rewrite app_nil_r.
Qed.

(** A revoked suppression cannot be reinstated: once an entry has been revoked, adding
    the same value again fails on the unique index, which also counts revoked rows, and
    the value stays unsuppressed. *)
Theorem revoked_suppression_not_reinstated scope value reason by_ w id w1 reason' by' w2 :
  addSuppression scope value reason by_ w = (Ok id, w1) →
  revokeSuppression id reason' by' w1 = (Ok true, w2) → trim id = id →
  ∃ v, (normalizeSuppressionValue scope value ≫= normalizeSuppressionValue scope) = Ok v ∧
    suppressedUnder scope [v] (w_db w2) = false ∧
    ∀ reason'' by'', ∃ e w3,
      transaction (addSuppression scope value reason'' by'') w2 = (Throw e, w3) ∧ w_db w3 = w_db w2.
Proof.
  intros Hadd Hrev Htrim.
  pose proof (addSuppression_spec scope value reason by_ w) as Hs. unfold wp in Hs. rewrite Hadd in Hs.
  destruct Hs as (v & row & E1 & E2 & Hsc & Hid & Hact & Hcheck & Hrows & _).
  pose proof (revokeSuppression_spec id reason' by' w1) as Hr. unfold wp in Hr. rewrite Hrev, Htrim in Hr.
  destruct Hr as (at_ & Hrows2 & _). rewrite Hrows, map_app in Hrows2. cbn [map] in Hrows2.
  assert (revocable id row = true) as Hown.
  { unfold revocable, isActive. by rewrite Hid, Hact, !bool_decide_eq_true_2. }
  rewrite Hown in Hrows2. pose proof (checkInsertSuppression_None _ _ Hcheck) as Hother.
  assert ((normalizeSuppressionValue scope value ≫= normalizeSuppressionValue scope) = Ok (su_value row)) as Ev.
  { by rewrite E1. }
  exists (su_value row). split; [done|]. split.
  - apply not_true_iff_false. unfold suppressedUnder. rewrite Hrows2, existsb_app, orb_true_iff.
    intros [(r & Hr & Hm)%existsb_exists|Hm].
    + apply in_map_iff in Hr as (r0 & <- & Hr0). apply list_elem_of_In, Hother in Hr0 as [_ Hne].
      apply andb_true_iff in Hm as [[Hm1 Hm2]%andb_true_iff _]. apply Hne. rewrite Hsc.
      destruct (revocable id r0); cbn [su_scope su_value revokeRow] in *;
        apply bool_decide_eq_true_1 in Hm1; apply bool_decide_eq_true_1, list_elem_of_singleton in Hm2; done.
    + cbn [existsb] in Hm. by rewrite isActive_revoked, andb_false_r in Hm.
  - intros reason'' by''. apply (addSuppression_listed _ _ _ _ _ _ Ev).
    exists (revokeRow at_ (trim by') (trim reason') row). rewrite Hrows2. split; [|by split].
    apply elem_of_app. right. by apply list_elem_of_singleton.
Qed.
End claims.

(** ** Witnesses *)

#[local] Existing Instance demo_runtime.
#[local] Existing Instance demo_orm.
#[local] Existing Instance demo_provider.

(** The first addition to the list of the demonstration *)
Definition demoAdd (scope : SuppressionScope) (value : string) : res string * world PipelineDb :=
  addSuppression scope value "asked to stop" "op" demoSendWorld.
Definition added (scope : SuppressionScope) (value : string) : world PipelineDb := (demoAdd scope value).2.

(** Without the suppression the same send calls the provider. *)
Lemma suppression_blocks_sends_witness :
  dispatched (w_db (send demoConfig INTERACTIVE quietly demoSendInput "run" demoSendWorld).2) ≠ [] ∧
  dispatched (w_db (send demoConfig INTERACTIVE quietly demoSendInput "run" (added SUP_email " INFO@praxis.de ")).2) = [].
Proof.
  split; [vm_compute; discriminate|].
  rewrite (suppression_blocks_sends demoConfig INTERACTIVE SUP_email " INFO@praxis.de " "asked to stop" "op"
    demoSendWorld (uuid 0) (added SUP_email " INFO@praxis.de ") demoSendInput "run"
    (added SUP_email " INFO@praxis.de ")).
  - vm_compute. reflexivity.
  - vm_compute. reflexivity.
  - exists "info@praxis.de". vm_compute. split; reflexivity.
  - intros r Hr _. exact Hr.
Defined.

(** The identity of the very lead that the operator meant *)
Definition demoPhone : SuppressionIdentity :=
  {| si_email := None; si_domain := None; si_phone := normalizePhone (Some "+44 161 496 0000"); si_placeId := None |}.
Lemma international_phone_unmatched_witness :
  suppressionsIn demoPhone (w_db (added SUP_phone "+44 161 496 0000")) = [] ∧
  suppressionsIn demoPhone (w_db (added SUP_phone "1614960000")) = [SUP_phone].
Proof.
  split; [|vm_compute; reflexivity].
  rewrite (international_phone_unmatched "+44 161 496 0000" "asked to stop" "op" demoSendWorld (uuid 0)
    (added SUP_phone "+44 161 496 0000") demoPhone (Some "+44 161 496 0000")).
  - vm_compute. reflexivity.
  - vm_compute. reflexivity.
  - vm_compute. reflexivity.
  - reflexivity.
Defined.

Definition revokedAdd : world PipelineDb :=
  (revokeSuppression (uuid 0) "mistake" "op" (added SUP_email "info@praxis.de")).2.
Lemma revoked_suppression_not_reinstated_witness :
  ∃ e w3, transaction (addSuppression SUP_email "info@praxis.de" "asked to stop" "op") revokedAdd = (Throw e, w3) ∧
    suppressionsIn (identity demoSendInput) (w_db w3) = [].
Proof.
  destruct (revoked_suppression_not_reinstated SUP_email "info@praxis.de" "asked to stop" "op" demoSendWorld
    (uuid 0) (added SUP_email "info@praxis.de") "mistake" "op" revokedAdd) as (v & _ & _ & Hagain).
  - vm_compute. reflexivity.
  - vm_compute. reflexivity.
  - vm_compute. reflexivity.
  - destruct (Hagain "asked to stop" "op") as (e & w3 & E & Edb). exists e, w3. split; [exact E|].
    rewrite Edb. vm_compute. reflexivity.
Defined.
