(* ===== verification/SystemDb.v ===== *)
(** * The whole database

    The outreach tables (OutreachStore) and the sending tables (PipelineDb) together
    with the tables that tie them to each other: drafts and their finalizations, Gmail
    drafts, facts, campaigns, authorizations and runs (src/persistence/schema.ts; of
    each, the columns that the modelled code reads or writes).  The repositories are
    those under src/persistence/repositories/ that the unattended commands use. *)
From Stdlib Require QArith.
From S2P Require Import Prelude.
From S2P Require Import JsText.
From S2P Require Import TimeZone.
From S2P Require Import Scheduler.
From S2P Require Import OutreachStatus.
From S2P Require Import OutreachGates.
From S2P Require Import ReplyClassification.
From S2P Require Import OutreachStore.
From S2P Require Import OutreachWrites.
From S2P Require Import LeadLifecycle.
From S2P Require Import PipelineDb.
From S2P Require Import SendGate.
From S2P Require Import SendService.
Open Scope Z_scope.
Open Scope list_scope.

(** ** Rows *)

Record EmailDraftRow := {
  ew_id : string; ew_leadId : string; ew_subject : string; ew_body : string; ew_ctaKind : string;
  ew_status : string; ew_sequenceStep : Z; ew_outreachRecordId : option string;
  ew_humanDecision : option string; ew_humanNotes : option string; ew_humanReviewedAt : option Z;
  ew_humanReviewedBy : option string; ew_createdAt : Z;
}.
Record FinalizationRow := {
  fn_id : string; fn_originalDraftId : string; fn_deploymentRunId : option string;
  fn_verifiedDeploymentUrl : option string; fn_originalBodyHash : string; fn_resolvedBody : string;
  fn_resolvedBodyHash : string; fn_kind : string; fn_finalHumanDecision : option string;
  fn_finalHumanNotes : option string; fn_finalReviewedAt : option Z; fn_finalReviewedBy : option string;
  fn_finalReviewedSource : option string; fn_finalizedAt : Z;
}.
Record GmailDraftRow := {
  gw_id : string; gw_leadId : string; gw_finalizedEmailId : option string; gw_recipientEmail : string;
  gw_senderEmail : string; gw_gmailAccount : string; gw_providerDraftId : option string;
  gw_threadId : option string; gw_messageId : option string; gw_outcome : string; gw_provider : string;
  gw_idempotencyFingerprint : string; gw_sourceEmailVersion : string; gw_errorClass : option string;
  gw_createdAt : Z; gw_completedAt : option Z;
}.
Inductive FactType :=
  | FT_business_name | FT_official_domain | FT_official_website_url | FT_candidate_website_url
  | FT_google_place_id | FT_official_location_page_url | FT_domain | FT_phone | FT_contact_email
  | FT_contact_form_url | FT_formatted_address | FT_latitude | FT_longitude | FT_city | FT_country
  | FT_category | FT_rating | FT_review_count | FT_business_status | FT_ownership_type | FT_services
  | FT_opening_hours | FT_booking_url | FT_contact_timezone.
#[global] Instance FactType_eq_dec : EqDecision FactType.
Proof. solve_decision. Defined.
Inductive FactSourceType := FS_mock | FS_manual | FS_website | FS_google_places.
#[global] Instance FactSourceType_eq_dec : EqDecision FactSourceType.
Proof. solve_decision. Defined.
Record LeadFactRow := {
  lf_id : string; lf_leadId : string; lf_factType : FactType; lf_value : string;
  lf_normalizedValue : option string; lf_sourceType : FactSourceType; lf_sourceUrl : option string;
  lf_capturedAt : Z; lf_confidence : QArith_base.Q; lf_supersededBy : option string;
  lf_supersededAt : option Z; lf_isCurrent : bool;
}.
Record CampaignRow := {
  cp_id : string; cp_name : string; cp_sequencePolicy : SequencePolicy; cp_timezone : string;
}.
Record AuthorizationRow := {
  aw_record : ScheduledSendAuthorization; aw_note : option string; aw_revokedBy : option string;
  aw_revokeReason : option string; aw_createdAt : Z;
}.
Record RunRow := {
  rn_kind : string; rn_status : string; rn_dryRun : string; rn_startedAt : Z; rn_finishedAt : option Z;
  rn_notes : option string;
}.

(** [draftCalls] is not a table: it logs the calls of the provider's [createDraft], each
    with the row that was reserved for it. *)
Record DraftCall := { dc_runId : string; dc_raw : string; dc_threadId : option string }.

Record SystemDb := {
  outreachDb : OutreachDb; pipelineDb : PipelineDb; emailDrafts : gmap string EmailDraftRow;
  finalizations : gmap string FinalizationRow; gmailDrafts : gmap string GmailDraftRow;
  leadFacts : list LeadFactRow; campaigns : list CampaignRow; authorizations : list AuthorizationRow;
  pipelineRuns : gmap string RunRow; draftCalls : list DraftCall;
}.
Definition SM : Type → Type := M SystemDb.

Definition onOutreach : lens SystemDb OutreachDb := Lens outreachDb (λ o db,
  {| outreachDb := o; pipelineDb := pipelineDb db; emailDrafts := emailDrafts db;
     finalizations := finalizations db; gmailDrafts := gmailDrafts db; leadFacts := leadFacts db;
     campaigns := campaigns db; authorizations := authorizations db; pipelineRuns := pipelineRuns db;
     draftCalls := draftCalls db |}).
Definition onPipeline : lens SystemDb PipelineDb := Lens pipelineDb (λ p db,
  {| outreachDb := outreachDb db; pipelineDb := p; emailDrafts := emailDrafts db;
     finalizations := finalizations db; gmailDrafts := gmailDrafts db; leadFacts := leadFacts db;
     campaigns := campaigns db; authorizations := authorizations db; pipelineRuns := pipelineRuns db;
     draftCalls := draftCalls db |}).
#[global] Instance onOutreach_lawful : LawfulLens onOutreach.
Proof. by split. Qed.
#[global] Instance onPipeline_lawful : LawfulLens onPipeline.
Proof. by split. Qed.

Definition setCampaigns (f : list CampaignRow → list CampaignRow) (db : SystemDb) : SystemDb :=
  {| outreachDb := outreachDb db; pipelineDb := pipelineDb db; emailDrafts := emailDrafts db;
     finalizations := finalizations db; gmailDrafts := gmailDrafts db; leadFacts := leadFacts db;
     campaigns := f (campaigns db); authorizations := authorizations db; pipelineRuns := pipelineRuns db;
     draftCalls := draftCalls db |}.
Definition setAuthorizations (f : list AuthorizationRow → list AuthorizationRow) (db : SystemDb) : SystemDb :=
  {| outreachDb := outreachDb db; pipelineDb := pipelineDb db; emailDrafts := emailDrafts db;
     finalizations := finalizations db; gmailDrafts := gmailDrafts db; leadFacts := leadFacts db;
     campaigns := campaigns db; authorizations := f (authorizations db); pipelineRuns := pipelineRuns db;
     draftCalls := draftCalls db |}.
Definition setRuns (f : gmap string RunRow → gmap string RunRow) (db : SystemDb) : SystemDb :=
  {| outreachDb := outreachDb db; pipelineDb := pipelineDb db; emailDrafts := emailDrafts db;
     finalizations := finalizations db; gmailDrafts := gmailDrafts db; leadFacts := leadFacts db;
     campaigns := campaigns db; authorizations := authorizations db; pipelineRuns := f (pipelineRuns db);
     draftCalls := draftCalls db |}.
Definition setGmailDrafts (f : gmap string GmailDraftRow → gmap string GmailDraftRow) (db : SystemDb) : SystemDb :=
  {| outreachDb := outreachDb db; pipelineDb := pipelineDb db; emailDrafts := emailDrafts db;
     finalizations := finalizations db; gmailDrafts := f (gmailDrafts db); leadFacts := leadFacts db;
     campaigns := campaigns db; authorizations := authorizations db; pipelineRuns := pipelineRuns db;
     draftCalls := draftCalls db |}.
Definition logDraftCall (call : DraftCall) (db : SystemDb) : SystemDb :=
  {| outreachDb := outreachDb db; pipelineDb := pipelineDb db; emailDrafts := emailDrafts db;
     finalizations := finalizations db; gmailDrafts := gmailDrafts db; leadFacts := leadFacts db;
     campaigns := campaigns db; authorizations := authorizations db; pipelineRuns := pipelineRuns db;
     draftCalls := draftCalls db ++ [call] |}.
(** The sets of keys that the other parts check their references against follow the tables. *)
Definition addCampaignKey (id : string) (db : OutreachDb) : OutreachDb :=
  {| campaignIds := {[id]} ∪ campaignIds db; leadIds := leadIds db; emailDraftIds := emailDraftIds db;
     finalizationIds := finalizationIds db; records := records db; messages := messages db;
     followups := followups db; replies := replies db; events := events db;
     deliveryEvents := deliveryEvents db |}.
Definition addRunKey (id : string) (db : PipelineDb) : PipelineDb :=
  let '(Build_PipelineDb ru dr le ev sc at_ re su di) := db in
  Build_PipelineDb ({[id]} ∪ ru) dr le ev sc at_ re su di.
Definition addDraftKey (id : string) (db : PipelineDb) : PipelineDb :=
  let '(Build_PipelineDb ru dr le ev sc at_ re su di) := db in
  Build_PipelineDb ru ({[id]} ∪ dr) le ev sc at_ re su di.
Definition setReadiness (f : list SendingReadinessRecord → list SendingReadinessRecord) (db : PipelineDb) :
    PipelineDb :=
  let '(Build_PipelineDb ru dr le ev sc at_ re su di) := db in
  Build_PipelineDb ru dr le ev sc at_ (f re) su di.

(** What a step does to the sending tables *)
Definition onPipelines (R : relation PipelineDb) : relation SystemDb := λ s s', R (pipelineDb s) (pipelineDb s').
#[global] Instance onPipelines_preorder R `{!PreOrder R} : PreOrder (onPipelines R).
Proof. split; [intros s; red; reflexivity|]. intros s1 s2 s3 H1 H2. red in H1, H2 |- *. by etrans. Qed.

(** ** Chains of rows *)

(** gmail draft → finalization → email draft: the inner joins of the readers *)
Definition draftChain (db : SystemDb) (gmailDraftId : string) :
    option (GmailDraftRow * FinalizationRow * EmailDraftRow) :=
  g ← gmailDrafts db !! gmailDraftId;
  f ← gw_finalizedEmailId g ≫= λ id, finalizations db !! id;
  e ← emailDrafts db !! fn_originalDraftId f;
  Some (g, f, e).
(** The active schedules of a lead *)
Definition activeSchedules (leadId : string) (db : SystemDb) : list ScheduleRow :=
  List.filter (λ r, bool_decide (sc_leadId (sr_record r) = leadId) && isActiveSchedule r)
    (schedules (pipelineDb db)).

(** ** [SendInputRepository.latest] *)

Record SendInputData := {
  sid_schedule : option ScheduleView; sid_currentGmailDraft : option CurrentGmailDraft;
  sid_finalization : option Finalization; sid_currentFinalizedContentHash : option string;
  sid_currentRecipientEmail : option string; sid_subject : option string;
  sid_normalizedDomain : option string; sid_normalizedPhone : option string;
  sid_placeId : option string;
}.
Definition scheduleView (r : ScheduleRow) : ScheduleView :=
  let s := sr_record r in
  {| sv_id := sc_id s; sv_status := scheduleStatusText (sc_status s); sv_gmailDraftId := sc_gmailDraftId s;
     sv_providerDraftId := sc_providerDraftId s; sv_finalizedContentHash := sc_finalizedContentHash s;
     sv_recipientEmail := sc_recipientEmail s; sv_scheduledAtUtcMs := sc_scheduledAtUtc s;
     sv_rulesVersion := sc_rulesVersion s; sv_storedIntegrityFingerprint := sc_integrityFingerprint s |}.
Definition currentDraft (g : GmailDraftRow) : CurrentGmailDraft :=
  {| gd_id := gw_id g; gd_outcome := gw_outcome g; gd_providerDraftId := gw_providerDraftId g;
     gd_providerMessageId := gw_messageId g; gd_providerThreadId := gw_threadId g;
     gd_gmailAccount := gw_gmailAccount g; gd_senderEmail := gw_senderEmail g;
     gd_recipientEmail := gw_recipientEmail g; gd_finalizedEmailId := gw_finalizedEmailId g |}.
Definition latestSendInput (leadId : string) (db : SystemDb) : SendInputData :=
  let sched := latestBy sr_createdAt (activeSchedules leadId db) in
  let draft := s ← sched; g ← gmailDrafts db !! sc_gmailDraftId (sr_record s);
    if bool_decide (gw_leadId g = leadId) then Some g else None in
  let fin := g ← draft; id ← gw_finalizedEmailId g;
    if truthy id then
      f ← finalizations db !! id; e ← emailDrafts db !! fn_originalDraftId f;
      if bool_decide (ew_leadId e = leadId) then Some (f, e) else None
    else None in
  let lead := leads (pipelineDb db) !! leadId in
  {| sid_schedule := scheduleView <$> sched; sid_currentGmailDraft := currentDraft <$> draft;
     sid_finalization := (λ fe : FinalizationRow * EmailDraftRow,
       {| fz_id := fn_id fe.1; fz_resolvedBody := fn_resolvedBody fe.1;
          fz_resolvedBodyHash := fn_resolvedBodyHash fe.1;
          fz_finalHumanDecision := fn_finalHumanDecision fe.1;
          fz_finalReviewedAt := fn_finalReviewedAt fe.1 |}) <$> fin;
     sid_currentFinalizedContentHash := (λ fe, fn_resolvedBodyHash fe.1) <$> fin;
     sid_currentRecipientEmail := lf_value <$> List.find (λ f, bool_decide (lf_leadId f = leadId) &&
       bool_decide (lf_factType f = FT_contact_email) && lf_isCurrent f) (leadFacts db);
     sid_subject := (λ fe, ew_subject fe.2) <$> fin; sid_normalizedDomain := lead ≫= ld_normalizedDomain;
     sid_normalizedPhone := lead ≫= ld_normalizedPhone; sid_placeId := lead ≫= ld_placeId |}.

(** ** [FollowupSendContextRepository.forLead] *)

Record PendingSendContext := {
  psc_sequenceStep : Z; psc_emailDraftId : string; psc_outreachRecordId : option string;
  psc_outreachStatus : option OutreachStatus; psc_outreachDoNotContact : bool;
}.
Definition pendingSendContext (leadId : string) (db : SystemDb) : option PendingSendContext :=
  row ← latestBy (λ row : ScheduleRow * EmailDraftRow, sr_createdAt row.1)
    (omap (λ s, chain ← draftChain db (sc_gmailDraftId (sr_record s)); Some (s, chain.2))
       (activeSchedules leadId db));
  let e := row.2 in
  let rec := ew_outreachRecordId e ≫= λ id, records (outreachDb db) !! id in
  Some {| psc_sequenceStep := ew_sequenceStep e; psc_emailDraftId := ew_id e;
          psc_outreachRecordId := ew_outreachRecordId e; psc_outreachStatus := or_status <$> rec;
          psc_outreachDoNotContact := default false (or_doNotContact <$> rec) |}.

(** ** [EnrollInputRepository.load] *)

Record EnrollInputData := {
  ei_attemptId : string; ei_leadId : string; ei_status : SendAttemptStatus;
  ei_reconciledOutcome : option ReconciliationOutcome; ei_providerMessageId : option string;
  ei_providerThreadId : option string; ei_sentAt : option Z; ei_attemptFinalizedContentHash : string;
  ei_gmailDraftId : string; ei_recipientEmail : string; ei_subject : string; ei_body : string;
  ei_resolvedBodyHash : string; ei_finalizedEmailId : string; ei_emailDraftId : string;
  ei_sequenceStep : Z; ei_outreachRecordId : option string;
}.
Definition loadEnrollInput (attemptId : string) (db : SystemDb) : option EnrollInputData :=
  a ← List.find (λ a, bool_decide (at_id a = attemptId)) (attempts (pipelineDb db));
  let r := at_record a in
  '(g, f, e) ← draftChain db (sa_gmailDraftId r);
  Some {| ei_attemptId := sa_id r; ei_leadId := sa_leadId r; ei_status := sa_status r;
          ei_reconciledOutcome := at_reconciledOutcome a;
          ei_providerMessageId := sa_providerMessageId r; ei_providerThreadId := sa_providerThreadId r;
          ei_sentAt := effectiveAt a; ei_attemptFinalizedContentHash := sa_finalizedContentHash r;
          ei_gmailDraftId := sa_gmailDraftId r; ei_recipientEmail := gw_recipientEmail g;
          ei_subject := ew_subject e; ei_body := fn_resolvedBody f;
          ei_resolvedBodyHash := fn_resolvedBodyHash f; ei_finalizedEmailId := fn_id f;
          ei_emailDraftId := fn_originalDraftId f; ei_sequenceStep := ew_sequenceStep e;
          ei_outreachRecordId := ew_outreachRecordId e |}.

(** ** [ScheduledSendAuthorizationRepository] *)

Section repositories.
Context `{Runtime}.

Definition revokeAuthorization (revokedAt : Z) (revokedBy reason : string) (a : AuthorizationRow) :
    AuthorizationRow :=
  let r := aw_record a in
  {| aw_record := {| au_id := au_id r; au_gmailAccount := au_gmailAccount r;
       au_policyVersion := au_policyVersion r; au_startsAt := au_startsAt r; au_expiresAt := au_expiresAt r;
       au_maxPerDay := au_maxPerDay r; au_createdBy := au_createdBy r; au_revokedAt := Some revokedAt |};
     aw_note := aw_note a; aw_revokedBy := Some revokedBy; aw_revokeReason := Some reason;
     aw_createdAt := aw_createdAt a |}.
(** The row is not revoked. *)
Definition isActiveAuthorization (a : AuthorizationRow) : bool := bool_decide (au_revokedAt (aw_record a) = None).
Definition authorizationFor (gmailAccount policyVersion : string) (a : AuthorizationRow) : bool :=
  bool_decide (au_gmailAccount (aw_record a) = gmailAccount) &&
  bool_decide (au_policyVersion (aw_record a) = policyVersion).
Definition checkInsertAuthorization (a : AuthorizationRow) (db : SystemDb) : option error :=
  let r := aw_record a in
  refuse
    [(au_maxPerDay r <? 1, PgError "23514" "scheduled_send_auth_cap_ck");
     ((au_expiresAt r <=? au_startsAt r) || (au_startsAt r + 14 * 86400000 <? au_expiresAt r),
       PgError "23514" "scheduled_send_auth_window_ck");
     (existsb (λ a', bool_decide (au_id (aw_record a') = au_id r)) (authorizations db),
       uniqueViolation "scheduled_send_authorizations_pkey");
     (isActiveAuthorization a && existsb (λ a', isActiveAuthorization a' &&
        authorizationFor (au_gmailAccount r) (au_policyVersion r) a') (authorizations db),
       uniqueViolation "scheduled_send_auth_active_uk")].

Record CreateAuthorizationInput := {
  ca_gmailAccount : string; ca_policyVersion : string; ca_createdBy : string; ca_startsAt : Z;
  ca_expiresAt : Z; ca_maxPerDay : Z; ca_note : option string;
}.
Definition createAuthorization (input : CreateAuthorizationInput) : SM AuthorizationRow :=
  transaction (
    modify (setAuthorizations (map (λ a,
      if authorizationFor (ca_gmailAccount input) (ca_policyVersion input) a && isActiveAuthorization a
      then revokeAuthorization (ca_startsAt input) (ca_createdBy input) "superseded_by_new_authorization" a
      else a))) ;;
    id ← randomUUID;
    dbNow ← now;
    let row := {| aw_record := {| au_id := id; au_gmailAccount := ca_gmailAccount input;
        au_policyVersion := ca_policyVersion input; au_startsAt := ca_startsAt input;
        au_expiresAt := ca_expiresAt input; au_maxPerDay := ca_maxPerDay input;
        au_createdBy := ca_createdBy input; au_revokedAt := None |};
      aw_note := ca_note input; aw_revokedBy := None; aw_revokeReason := None; aw_createdAt := dbNow |} in
    guarded (checkInsertAuthorization row) (setAuthorizations (λ l, l ++ [row])) ;;
    mret row).
Definition revokeAuthorizationById (id revokedBy reason : string) (revokedAt : Z) : SM bool :=
  let hit (a : AuthorizationRow) := bool_decide (au_id (aw_record a) = id) && isActiveAuthorization a in
  found ← query (λ db, existsb hit (authorizations db));
  modify (setAuthorizations (map (λ a, if hit a then revokeAuthorization revokedAt revokedBy reason a else a))) ;;
  mret found.
Definition activeAuthorization (gmailAccount policyVersion : string) (db : SystemDb) :
    option ScheduledSendAuthorization :=
  aw_record <$> latestBy aw_createdAt
    (List.filter (λ a, authorizationFor gmailAccount policyVersion a && isActiveAuthorization a)
       (authorizations db)).

(** [latest]: the newest authorization, revoked or not *)
Definition latestAuthorization (gmailAccount policyVersion : string) (db : SystemDb) : option AuthorizationRow :=
  latestBy aw_createdAt (List.filter (authorizationFor gmailAccount policyVersion) (authorizations db)).

Definition isActiveReadiness (source : ReadinessSource) (gmailAccount policyVersion : string)
    (r : SendingReadinessRecord) : bool :=
  bool_decide (ra_gmailAccount r = gmailAccount) && bool_decide (ra_policyVersion r = policyVersion) &&
  bool_decide (ra_source r = source) && bool_decide (ra_revokedAt r = None).
Definition revokeReadinessRow (revokedAt : Z) (r : SendingReadinessRecord) : SendingReadinessRecord :=
  {| ra_id := ra_id r; ra_gmailAccount := ra_gmailAccount r; ra_policyVersion := ra_policyVersion r;
     ra_approvedBy := ra_approvedBy r; ra_approvedAt := ra_approvedAt r; ra_expiresAt := ra_expiresAt r;
     ra_revokedAt := Some revokedAt; ra_source := ra_source r |}.
(** [sending_readiness_active_uk] *)
Definition checkInsertReadiness (r : SendingReadinessRecord) (db : PipelineDb) : option error :=
  refuse
    [(existsb (λ r', bool_decide (ra_id r' = ra_id r)) (readinessApprovals db),
       uniqueViolation "sending_readiness_approvals_pkey");
     (bool_decide (ra_revokedAt r = None) &&
        existsb (isActiveReadiness (ra_source r) (ra_gmailAccount r) (ra_policyVersion r)) (readinessApprovals db),
       uniqueViolation "sending_readiness_active_uk")].
(** The approvals of one lineage are superseded by a fresh one. *)
Definition supersedeReadiness (source : ReadinessSource) (gmailAccount policyVersion : string)
    (revokedAt : Z) : PM () :=
  modify (setReadiness (map (λ r,
    if isActiveReadiness source gmailAccount policyVersion r then revokeReadinessRow revokedAt r else r))).
Definition insertReadiness (r : SendingReadinessRecord) : PM () :=
  guarded (checkInsertReadiness r) (setReadiness (λ l, l ++ [r])).
Definition mintSessionReadiness (gmailAccount policyVersion authorizationId : string)
    (approvedAt expiresAt : Z) : SM string :=
  transaction (
    zoom onPipeline (supersedeReadiness SCHEDULED_SOURCE gmailAccount policyVersion approvedAt) ;;
    id ← randomUUID;
    zoom onPipeline (insertReadiness {| ra_id := id; ra_gmailAccount := gmailAccount;
      ra_policyVersion := policyVersion; ra_approvedBy := "scheduler:" +:+ authorizationId;
      ra_approvedAt := approvedAt; ra_expiresAt := expiresAt; ra_revokedAt := None;
      ra_source := SCHEDULED_SOURCE |}) ;;
    known ← query (λ db, existsb (λ a, bool_decide (au_id (aw_record a) = authorizationId)) (authorizations db));
    if known : bool then mret id
    else throw (foreignKeyViolation "sending_readiness_approvals_scheduled_authorization_id_fkey")).

(** [asc] on a column: rows with equal keys stay in the order of insertion, NULL comes last. *)
Definition ascending (a b : Z) : Z := a - b.
Definition nullsLast (a b : option Z) : Z :=
  match a, b with
  | Some a, Some b => a - b | Some _, None => -1 | None, Some _ => 1 | None, None => 0
  end.
Definition orderBy {A K} (cmp : K → K → Z) (key : A → K) : list A → list A :=
  sortBy (λ x y, cmp (key x) (key y)).
Definition limitTo {A} (limit : Z) (l : list A) : list A := take (Z.to_nat limit) l.

Definition isDueSchedule (nowMs : Z) (db : SystemDb) (s : ScheduleRow) : bool :=
  isActiveSchedule s && bool_decide (ld_status <$> leads (pipelineDb db) !! sc_leadId (sr_record s) = Some SCHEDULED) &&
  (sc_scheduledAtUtc (sr_record s) <=? nowMs).
Definition dueScheduledLeadIds (nowMs limit : Z) (db : SystemDb) : list string :=
  if limit <=? 0 then []
  else map (λ s, sc_leadId (sr_record s))
         (limitTo limit (orderBy ascending (λ s, sc_scheduledAtUtc (sr_record s))
            (List.filter (isDueSchedule nowMs db) (schedules (pipelineDb db))))).
Definition latestAttemptId (p : AttemptRow → bool) (leadId : string) (db : SystemDb) : option string :=
  at_id <$> latestBy (λ a, sa_reservedAt (at_record a))
    (List.filter (λ a, bool_decide (sa_leadId (at_record a) = leadId) && p a) (attempts (pipelineDb db))).
Definition latestConfirmedAttemptId : string → SystemDb → option string := latestAttemptId isConfirmed.
Definition latestUnknownAttemptId : string → SystemDb → option string :=
  latestAttemptId (λ a, bool_decide (at_status a = AT_OUTCOME_UNKNOWN)).
(** The attempt is confirmed, has a Gmail id, and no outreach message carries it. *)
Definition isUnenrolled (db : SystemDb) (a : AttemptRow) : bool :=
  isConfirmed a &&
  match sa_providerMessageId (at_record a) with
  | Some m => negb (existsb (λ om, bool_decide (om_gmailMessageId om = Some m)) (messages (outreachDb db)))
  | None => false
  end.
Definition unenrolledConfirmedSends (limit : Z) (db : SystemDb) : list (string * string) :=
  if limit <=? 0 then []
  else map (λ a, (sa_leadId (at_record a), at_id a))
         (limitTo limit (orderBy nullsLast (λ a, sa_completedAt (at_record a))
            (List.filter (isUnenrolled db) (attempts (pipelineDb db))))).

(** ** Campaigns and runs *)

Definition campaignByName (name : string) (db : SystemDb) : option CampaignRow :=
  List.find (λ c, bool_decide (cp_name c = name)) (campaigns db).
Definition insertCampaign (name : string) (sequencePolicy : SequencePolicy) (timezone : string) :
    SM CampaignRow :=
  _ ← now;
  id ← randomUUID;
  let row := {| cp_id := id; cp_name := name; cp_sequencePolicy := sequencePolicy; cp_timezone := timezone |} in
  guarded (λ db, refuse
      [(existsb (λ c, bool_decide (cp_id c = id)) (campaigns db), uniqueViolation "outreach_campaigns_pkey");
       (existsb (λ c, bool_decide (cp_name c = name)) (campaigns db), uniqueViolation "outreach_campaigns_name_uk")])
    (λ db, setCampaigns (λ l, l ++ [row]) (put onOutreach (addCampaignKey id (outreachDb db)) db)) ;;
  mret row.

Definition startRun (kind : string) (dryRun : bool) : SM string :=
  id ← randomUUID;
  nowD ← now;
  guarded (λ db, refuse [(bool_decide (is_Some (pipelineRuns db !! id)), uniqueViolation "pipeline_runs_pkey")])
    (λ db, setRuns <[id := {| rn_kind := kind; rn_status := "RUNNING";
        rn_dryRun := if dryRun then "true" else "false"; rn_startedAt := nowD; rn_finishedAt := None;
        rn_notes := None |}]> (put onPipeline (addRunKey id (pipelineDb db)) db)) ;;
  mret id.
Definition finishRun (id status : string) (notes : option string) : SM () :=
  nowD ← now;
  modify (setRuns (alter (λ r, {| rn_kind := rn_kind r; rn_status := status; rn_dryRun := rn_dryRun r;
    rn_startedAt := rn_startedAt r; rn_finishedAt := Some nowD; rn_notes := notes |}) id)).
End repositories.
