(* ===== verification/LeadFacts.v ===== *)
(** * The fact store: src/persistence/repositories/lead-facts.repo.ts

    What is known about a lead, one current fact per type; a new fact supersedes the
    current one, whose row stays.  Also the normal form of a contact's address
    (src/domain/lead-facts/contact-email.ts). *)
From Stdlib Require QArith.
From S2P Require Import Prelude.
From S2P Require Import JsText.
From S2P Require Import PipelineDb.
From S2P Require Import SystemDb.
Open Scope Z_scope.
Open Scope list_scope.

Record NewLeadFact := {
  nf_leadId : string; nf_factType : FactType; nf_value : string; nf_normalizedValue : option string;
  nf_sourceType : FactSourceType; nf_sourceUrl : option string; nf_capturedAt : option Z;
  nf_confidence : option QArith_base.Q;
}.

Definition setLeadFacts (f : list LeadFactRow → list LeadFactRow) (db : SystemDb) : SystemDb :=
  {| outreachDb := outreachDb db; pipelineDb := pipelineDb db; emailDrafts := emailDrafts db;
     finalizations := finalizations db; gmailDrafts := gmailDrafts db; leadFacts := f (leadFacts db);
     campaigns := campaigns db; authorizations := authorizations db; pipelineRuns := pipelineRuns db;
     draftCalls := draftCalls db |}.

(** The rows of a type of a lead *)
Definition factOf (leadId : string) (t : FactType) (r : LeadFactRow) : bool :=
  bool_decide (lf_leadId r = leadId) && bool_decide (lf_factType r = t).
Definition demoteRow (at_ : Z) (r : LeadFactRow) : LeadFactRow :=
  {| lf_id := lf_id r; lf_leadId := lf_leadId r; lf_factType := lf_factType r; lf_value := lf_value r;
     lf_normalizedValue := lf_normalizedValue r; lf_sourceType := lf_sourceType r;
     lf_sourceUrl := lf_sourceUrl r; lf_capturedAt := lf_capturedAt r; lf_confidence := lf_confidence r;
     lf_supersededBy := lf_supersededBy r; lf_supersededAt := Some at_; lf_isCurrent := false |}.
Definition linkRow (newId : string) (r : LeadFactRow) : LeadFactRow :=
  {| lf_id := lf_id r; lf_leadId := lf_leadId r; lf_factType := lf_factType r; lf_value := lf_value r;
     lf_normalizedValue := lf_normalizedValue r; lf_sourceType := lf_sourceType r;
     lf_sourceUrl := lf_sourceUrl r; lf_capturedAt := lf_capturedAt r; lf_confidence := lf_confidence r;
     lf_supersededBy := Some newId; lf_supersededAt := lf_supersededAt r; lf_isCurrent := lf_isCurrent r |}.
(** The first and the third statement of [writeCurrentFact] *)
Definition demoteCurrent (leadId : string) (t : FactType) (at_ : Z) (r : LeadFactRow) : LeadFactRow :=
  if factOf leadId t r && lf_isCurrent r then demoteRow at_ r else r.
Definition linkSuperseded (leadId : string) (t : FactType) (id : string) (r : LeadFactRow) : LeadFactRow :=
  if factOf leadId t r && negb (lf_isCurrent r) && bool_decide (lf_supersededBy r = None) &&
     negb (bool_decide (lf_id r = id))
  then linkRow id r else r.

Definition checkViolation (c : string) : error := PgError "23514" c.
Definition validConfidence (q : QArith_base.Q) : bool :=
  QArith_base.Qle_bool (QArith_base.Qmake 0 1) q && QArith_base.Qle_bool q (QArith_base.Qmake 1 1).
Definition checkInsertFact (r : LeadFactRow) (db : SystemDb) : option error :=
  refuse
    [(negb (validConfidence (lf_confidence r)), checkViolation "lead_facts_confidence_ck");
     (existsb (λ r', bool_decide (lf_id r' = lf_id r)) (leadFacts db), uniqueViolation "lead_facts_pkey");
     (lf_isCurrent r && existsb (λ r', factOf (lf_leadId r) (lf_factType r) r' && lf_isCurrent r') (leadFacts db),
        uniqueViolation "lead_facts_current_uk");
     (negb (bool_decide (is_Some (leads (pipelineDb db) !! lf_leadId r))),
        foreignKeyViolation "lead_facts_lead_id_fkey")].

Definition factRow (id : string) (at_ : Z) (f : NewLeadFact) : LeadFactRow :=
  {| lf_id := id; lf_leadId := nf_leadId f; lf_factType := nf_factType f; lf_value := nf_value f;
     lf_normalizedValue := nf_normalizedValue f; lf_sourceType := nf_sourceType f;
     lf_sourceUrl := nf_sourceUrl f; lf_capturedAt := at_;
     lf_confidence := default (QArith_base.Qmake 1 1) (nf_confidence f); lf_supersededBy := None;
     lf_supersededAt := None; lf_isCurrent := true |}.
Definition currentFacts (leadId : string) (db : SystemDb) : list LeadFactRow :=
  List.filter (λ r, bool_decide (lf_leadId r = leadId) && lf_isCurrent r) (leadFacts db).

Section repository.
Context `{Runtime}.

Definition writeCurrentFact (f : NewLeadFact) : SM string :=
  id ← randomUUID;
  at_ ← match nf_capturedAt f with Some t => mret t | None => now end;
  modify (setLeadFacts (map (demoteCurrent (nf_leadId f) (nf_factType f) at_))) ;;
  guarded (checkInsertFact (factRow id at_ f)) (setLeadFacts (λ l, l ++ [factRow id at_ f])) ;;
  modify (setLeadFacts (map (linkSuperseded (nf_leadId f) (nf_factType f) id))) ;;
  mret id.
Definition listCurrentFacts (leadId : string) : SM (list LeadFactRow) := query (currentFacts leadId).
Definition getCurrentFact (leadId : string) (t : FactType) : SM (option LeadFactRow) :=
  query (λ db, List.find (λ r, factOf leadId t r && lf_isCurrent r) (leadFacts db)).
End repository.

(** ** contact-email.ts: only the bare address of an operator's input is kept. *)

Inductive ContactEmail := BareEmail (value : string) | NoBareEmail (reason : string).
(** [text.split(sep)[0]] *)
Fixpoint upTo (sep : ascii) (s : string) : string :=
  match s with "" => "" | String c s => if bool_decide (c = sep) then "" else String c (upTo sep s) end.
Definition withoutMailto (s : string) : string :=
  if startsWith (toLowerCase s) "mailto:" then String.substring 7 (String.length s) s else s.
Definition normalizeContactEmail (raw : string) : ContactEmail :=
  let bare := toLowerCase (trim (upTo "#" (upTo "?" (withoutMailto (trim raw))))) in
  if bool_decide (bare = "") then NoBareEmail "empty_after_normalization"
  else if negb (email_re_test bare) then NoBareEmail ("not_a_bare_email:" +:+ bare)
  else BareEmail bare.
(** A scheme that is written twice stays in what counts as bare. *)
Example contact_email_examples :
  map normalizeContactEmail [" MailTo:Info@Praxis.de?subject=Hi#x "; "mailto:?subject=x"; "praxis.de"; "mailto:mailto:a@b.de"] =
  [BareEmail "info@praxis.de"; NoBareEmail "empty_after_normalization"; NoBareEmail "not_a_bare_email:praxis.de";
   BareEmail "mailto:a@b.de"].
Proof. by vm_compute. Qed.
