(* ===== verification/LeadSource.v ===== *)
(** * Lead sources: src/integrations/lead-source/

    The providers of candidates - a fixed list (mock-lead-source.ts) and the text search
    of Google Places (google-places/client.ts over src/utils/http.ts) - and what is stored
    about requests and places (src/persistence/repositories/source.repo.ts).  A generator
    of pages is a state and a step; the pauses of the rate limiter and of the retries are
    left out. *)
From S2P Require Import Prelude.
From S2P Require Import JsNumber.
From S2P Require Import JsText.
From S2P Require Import JsonText.
From S2P Require Import PipelineDb.
From S2P Require Import SystemDb.
Open Scope string_scope.
Open Scope Z_scope.
Open Scope list_scope.

(** ** The data *)

Record LeadFactsInput := {
  fi_businessName : option string; fi_domain : option string; fi_officialDomain : option string;
  fi_phone : option string; fi_contactEmail : option string; fi_contactFormUrl : option string;
  fi_city : option string; fi_country : option string; fi_formattedAddress : option string;
  fi_latitude : option num; fi_longitude : option num; fi_category : option string; fi_rating : option num;
  fi_reviewCount : option num; fi_businessStatus : option string; fi_ownershipType : option string;
}.
Record RawCandidate := { rc_sourcePlaceId : string; rc_facts : option LeadFactsInput }.
Inductive RequestStatus := RS_OK | RS_EMPTY | RS_FAILED.
#[global] Instance RequestStatus_eq_dec : EqDecision RequestStatus.
Proof. solve_decision. Defined.
Record ProviderRequestMeta := {
  pm_fieldMask : string; pm_pageIndex : Z; pm_query : json; pm_resultCount : Z; pm_billedTier : option string;
  pm_estimatedCostUsd : option num; pm_status : RequestStatus; pm_startedAt : Z; pm_completedAt : option Z;
}.
Record ProviderPage := { pp_candidates : list RawCandidate; pp_request : ProviderRequestMeta }.
Record CollectQuery := { cq_textQuery : string; cq_locationBias : option json }.
Record ProviderCaps := { pc_pageSize : Z; pc_maxPages : Z }.

(** [source_requests], [source_entities] and [source_observations] *)
Record SourceRequestRow := {
  sq_id : string; sq_runId : string; sq_campaign : string; sq_provider : string; sq_meta : ProviderRequestMeta;
}.
Record SourceEntity := {
  so_id : string; so_provider : string; so_sourcePlaceId : string; so_leadId : string; so_firstSeenAt : Z;
  so_lastSeenAt : Z;
}.
Inductive ProcessingResult := PR_CREATED | PR_DUPLICATE | PR_REFRESHED | PR_AMBIGUOUS.
Record SourceObservation := {
  ob_id : string; ob_sourceEntityId : string; ob_sourceRequestId : string; ob_processingResult : ProcessingResult;
  ob_matchTier : option string; ob_observedAt : Z;
}.
(** [placesCalls] is not a table: it logs the requests made to Google, each with its body. *)
Record CollectDb := {
  collectSystem : SystemDb; sourceRequests : list SourceRequestRow; sourceEntities : list SourceEntity;
  sourceObservations : list SourceObservation; placesCalls : list json;
}.
Definition CM : Type → Type := M CollectDb.
Definition inCollect : lens CollectDb SystemDb := Lens collectSystem (λ s db,
  {| collectSystem := s; sourceRequests := sourceRequests db; sourceEntities := sourceEntities db;
     sourceObservations := sourceObservations db; placesCalls := placesCalls db |}).
#[global] Instance inCollect_lawful : LawfulLens inCollect.
Proof. by split. Qed.
Definition addRequest (r : SourceRequestRow) (db : CollectDb) : CollectDb :=
  {| collectSystem := collectSystem db; sourceRequests := sourceRequests db ++ [r];
     sourceEntities := sourceEntities db; sourceObservations := sourceObservations db;
     placesCalls := placesCalls db |}.
Definition setEntities (f : list SourceEntity → list SourceEntity) (db : CollectDb) : CollectDb :=
  {| collectSystem := collectSystem db; sourceRequests := sourceRequests db;
     sourceEntities := f (sourceEntities db); sourceObservations := sourceObservations db;
     placesCalls := placesCalls db |}.
Definition addObservation (o : SourceObservation) (db : CollectDb) : CollectDb :=
  {| collectSystem := collectSystem db; sourceRequests := sourceRequests db;
     sourceEntities := sourceEntities db; sourceObservations := sourceObservations db ++ [o];
     placesCalls := placesCalls db |}.
Definition logPlacesCall (body : json) (db : CollectDb) : CollectDb :=
  {| collectSystem := collectSystem db; sourceRequests := sourceRequests db;
     sourceEntities := sourceEntities db; sourceObservations := sourceObservations db;
     placesCalls := placesCalls db ++ [body] |}.

(** ** source.repo.ts *)

Definition placeEntity (provider placeId : string) (db : CollectDb) : option SourceEntity :=
  List.find (λ e, String.eqb (so_provider e) provider && String.eqb (so_sourcePlaceId e) placeId)
    (sourceEntities db).
Definition checkInsertRequest (r : SourceRequestRow) (db : CollectDb) : option error :=
  refuse
    [(existsb (λ r', String.eqb (sq_id r') (sq_id r)) (sourceRequests db), uniqueViolation "source_requests_pkey");
     (negb (bool_decide (is_Some (pipelineRuns (collectSystem db) !! sq_runId r))),
       foreignKeyViolation "source_requests_run_id_fkey")].
Definition checkInsertEntity (e : SourceEntity) (db : CollectDb) : option error :=
  refuse
    [(existsb (λ e', String.eqb (so_id e') (so_id e)) (sourceEntities db), uniqueViolation "source_entities_pkey");
     (bool_decide (is_Some (placeEntity (so_provider e) (so_sourcePlaceId e) db)),
       uniqueViolation "source_entities_provider_placeid_uk");
     (negb (bool_decide (is_Some (leads (pipelineDb (collectSystem db)) !! so_leadId e))),
       foreignKeyViolation "source_entities_lead_id_fkey")].
Definition checkInsertObservation (o : SourceObservation) (db : CollectDb) : option error :=
  refuse
    [(existsb (λ o', String.eqb (ob_id o') (ob_id o)) (sourceObservations db), uniqueViolation "source_observations_pkey");
     (negb (existsb (λ e, String.eqb (so_id e) (ob_sourceEntityId o)) (sourceEntities db)),
       foreignKeyViolation "source_observations_source_entity_id_fkey");
     (negb (existsb (λ r, String.eqb (sq_id r) (ob_sourceRequestId o)) (sourceRequests db)),
       foreignKeyViolation "source_observations_source_request_id_fkey")].

Section repositories.
Context `{Runtime}.

Definition recordRequest (runId campaign provider : string) (meta : ProviderRequestMeta) : CM string :=
  id ← randomUUID;
  let row := {| sq_id := id; sq_runId := runId; sq_campaign := campaign; sq_provider := provider; sq_meta := meta |} in
  guarded (checkInsertRequest row) (addRequest row) ;;
  mret id.
Definition createEntity (provider placeId leadId : string) : CM SourceEntity :=
  nowD ← now;
  id ← randomUUID;
  let e := {| so_id := id; so_provider := provider; so_sourcePlaceId := placeId; so_leadId := leadId;
              so_firstSeenAt := nowD; so_lastSeenAt := nowD |} in
  guarded (checkInsertEntity e) (setEntities (λ l, l ++ [e])) ;;
  mret e.
Definition seenAt (id : string) (at_ : Z) (e : SourceEntity) : SourceEntity :=
  if String.eqb (so_id e) id then
    {| so_id := so_id e; so_provider := so_provider e; so_sourcePlaceId := so_sourcePlaceId e;
       so_leadId := so_leadId e; so_firstSeenAt := so_firstSeenAt e; so_lastSeenAt := at_ |}
  else e.
Definition touchLastSeen (id : string) (at_ : Z) : CM () := modify (setEntities (map (seenAt id at_))).
Definition createObservation (entityId requestId : string) (result : ProcessingResult) (tier : option string) :
    CM () :=
  id ← randomUUID;
  dbNow ← now;
  let o := {| ob_id := id; ob_sourceEntityId := entityId; ob_sourceRequestId := requestId;
              ob_processingResult := result; ob_matchTier := tier; ob_observedAt := dbNow |} in
  guarded (checkInsertObservation o) (addObservation o).
End repositories.

(** ** Providers

    [ls_next] resumes the generator: it yields a page, or is done.  [ls_remaining] bounds
    the pages that are still to come. *)
Class LeadSourceProvider := {
  ls_name : string; ls_state : Type; ls_first : ls_state;
  ls_next : ls_state → CM (option (ProviderPage * ls_state)); ls_remaining : ls_state → nat;
}.
(** Nothing but the log of requests has changed. *)
Definition onlyLogged (db db' : CollectDb) : Prop :=
  collectSystem db' = collectSystem db ∧ sourceRequests db' = sourceRequests db ∧
  sourceEntities db' = sourceEntities db ∧ sourceObservations db' = sourceObservations db.
#[global] Instance onlyLogged_preorder : PreOrder onlyLogged.
Proof. split; [done|]. intros a b c (? & ? & ? & ?) (? & ? & ? & ?). unfold onlyLogged. by split_and!; etrans. Qed.
Class LawfulSource (P : LeadSourceProvider) : Prop := {
  ls_decreases st w :
    wp (ls_next st) (λ r _, match r with Some (_, st') => (ls_remaining st' < ls_remaining st)%nat | None => True end) w;
  ls_tables st : always onlyLogged (ls_next st);
}.

(** *** [MockLeadSource] *)

Record MockBusiness := { mb_sourcePlaceId : string; mb_facts : LeadFactsInput }.
Definition mockCandidate (b : MockBusiness) : RawCandidate :=
  {| rc_sourcePlaceId := mb_sourcePlaceId b; rc_facts := Some (mb_facts b) |}.
Section mock.
Context `{Runtime} (businesses : list MockBusiness) (query : CollectQuery) (caps : ProviderCaps).

Definition mockPageSize : Z := Z.max 1 (pc_pageSize caps).
Definition mockTotalPages : Z :=
  let needed := (Z.of_nat (length businesses) + mockPageSize - 1) / mockPageSize in
  Z.min (pc_maxPages caps) (if needed =? 0 then 1 else needed).
Definition mockSlice (pageIndex : Z) : list MockBusiness :=
  take (Z.to_nat mockPageSize) (drop (Z.to_nat (pageIndex * mockPageSize)) businesses).
(** The state is the index of the next page, or nothing when the generator has ended. *)
Definition mockNext (st : option Z) : CM (option (ProviderPage * option Z)) :=
  match st with
  | None => mret None
  | Some pageIndex =>
      if mockTotalPages <=? pageIndex then mret None
      else
        let candidates := map mockCandidate (mockSlice pageIndex) in
        nowD ← now;
        let n := Z.of_nat (length candidates) in
        mret (Some ({| pp_candidates := candidates; pp_request :=
          {| pm_fieldMask := "mock"; pm_pageIndex := pageIndex;
             pm_query := JObj [("textQuery", JStr (cq_textQuery query)); ("pageSize", JNum mockPageSize)];
             pm_resultCount := n; pm_billedTier := None; pm_estimatedCostUsd := Some (ofZ 0);
             pm_status := if 0 <? n then RS_OK else RS_EMPTY; pm_startedAt := nowD; pm_completedAt := Some nowD |} |},
          if n <? mockPageSize then None else Some (pageIndex + 1)))
  end.
Definition MockLeadSource : LeadSourceProvider := {|
  ls_name := "mock"; ls_state := option Z; ls_first := Some 0; ls_next := mockNext;
  ls_remaining := λ st, match st with Some i => Z.to_nat (mockTotalPages - i) | None => 0%nat end;
|}.
#[global] Instance MockLeadSource_lawful : LawfulSource MockLeadSource.
Proof.
  split.
  - intros [i|] w; [|done]. cbn [ls_next ls_remaining MockLeadSource mockNext].
    destruct (Z.leb_spec mockTotalPages i); [done|]. rewrite wp_bind, wp_now, wp_ret. destruct (_ <? _); lia.
  - intros [i|]; cbn [ls_next MockLeadSource mockNext]; [|apply (always_ret onlyLogged)]. case_match; always_tac.
Qed.
End mock.

(** *** [GooglePlacesProvider] *)

Record PlacesAnswer := { pa_status : Z; pa_statusText : string; pa_body : string }.
(** [fetch]: an answer, or a network error or an abort *)
Class PlacesTransport := { fetchPlaces : nat → json → res PlacesAnswer }.
Definition PLACES_TEXT_SEARCH_URL : string := "https://places.googleapis.com/v1/places:searchText".
Definition DISCOVERY_FIELD_MASK : string := "places.id,nextPageToken".
Inductive BilledTier := Essentials | Pro | Enterprise.
Definition PRICE_PER_1000_USD (tier : BilledTier) : Z :=
  match tier with Essentials => 5 | Pro => 32 | Enterprise => 35 end.
Definition estimateCostUsd (tier : BilledTier) (requestCount : Z) : num :=
  mulN (divN (ofZ requestCount) (ofZ 1000)) (ofZ (PRICE_PER_1000_USD tier)).
Definition isRetriableStatus (status : Z) : bool := (status =? 429) || (500 <=? status).
Definition thrownText (e : error) : string :=
  match e with AppError _ m | JsError m => m | PgError _ c => c end.

(** A cast of a field of an answer to a string is taken at its word: an id that is
    something else than a string has no length, and is dropped. *)
Definition placeId (p : value) : res string :=
  match fieldOf p "id" with
  | None | Some VNull => Throw (JsError "Cannot read properties of undefined (reading 'length')")
  | Some (VStr id) => Ok id
  | Some _ => Ok ""
  end.
Fixpoint placeIdsOf (l : list value) : res (list string) :=
  match l with
  | [] => Ok []
  | p :: l =>
      match placeId p, placeIdsOf l with
      | Ok id, Ok ids => Ok (if String.eqb id "" then ids else id :: ids)
      | Throw e, _ | _, Throw e => Throw e
      end
  end.
Definition placeIds (data : value) : res (list string) :=
  match data with
  | VNull => Throw (JsError "Cannot read properties of null (reading 'places')")
  | _ =>
      match fieldOf data "places" with
      | None | Some VNull => Ok []
      | Some (VArr l) => placeIdsOf l
      | Some _ => Throw (JsError "(intermediate value).map is not a function")
      end
  end.

Section google.
Context `{Runtime, PlacesTransport} (maxRetries : Z) (query : CollectQuery) (caps : ProviderCaps).

(** The attempts of [postJson], with [retries] more after this one *)
Fixpoint postFrom (retries : nat) (body : json) : CM value :=
  modify (logPlacesCall body) ;;
  answer ← tryCatch (ask (λ n, fetchPlaces n body));
  let failed reason := match retries with
    | O => throw (AppError "HTTP_REQUEST_FAILED"
             ("Request to " +:+ PLACES_TEXT_SEARCH_URL +:+ " failed after retries: " +:+ reason))
    | S retries => postFrom retries body
    end in
  match answer with
  | Throw e => failed (thrownText e)
  | Ok a =>
      let message := "HTTP " +:+ pretty (pa_status a) +:+ ": " +:+ pa_statusText a in
      if (200 <=? pa_status a) && (pa_status a <? 300) then
        match jsonParse (pa_body a) with Some v => mret v | None => failed "Unexpected token in JSON" end
      else if isRetriableStatus (pa_status a) then failed message
      else throw (AppError "HTTP_ERROR" message)
  end.
Definition postJson (body : json) : CM value :=
  if maxRetries <? 0 then throw (AppError "HTTP_REQUEST_FAILED"
    ("Request to " +:+ PLACES_TEXT_SEARCH_URL +:+ " failed after retries: undefined"))
  else postFrom (Z.to_nat maxRetries) body.

Definition searchBody (pageToken : option string) : json :=
  JObj ([("textQuery", JStr (cq_textQuery query)); ("pageSize", JNum (pc_pageSize caps))] ++
    match cq_locationBias query with Some bias => [("locationBias", bias)] | None => [] end ++
    match pageToken with Some t => if truthy t then [("pageToken", JStr t)] else [] | None => [] end).
Definition searchMeta (pageIndex resultCount : Z) (status : RequestStatus) (startedAt completedAt : Z) :
    ProviderRequestMeta :=
  {| pm_fieldMask := DISCOVERY_FIELD_MASK; pm_pageIndex := pageIndex;
     pm_query := JObj [("textQuery", JStr (cq_textQuery query)); ("pageSize", JNum (pc_pageSize caps));
                       ("pageIndex", JNum pageIndex)];
     pm_resultCount := resultCount; pm_billedTier := Some "Essentials";
     pm_estimatedCostUsd := Some (estimateCostUsd Essentials 1); pm_status := status; pm_startedAt := startedAt;
     pm_completedAt := Some completedAt |}.
(** The state: the index and the token of the next page, or nothing when the generator has ended *)
Definition placesNext (st : option (Z * option string)) : CM (option (ProviderPage * option (Z * option string))) :=
  match st with
  | None => mret None
  | Some (pageIndex, pageToken) =>
      if pc_maxPages caps <=? pageIndex then mret None
      else
        startedAt ← now;
        answer ← tryCatch (postJson (searchBody pageToken));
        match answer with
        | Throw _ =>
            completedAt ← now;
            mret (Some ({| pp_candidates := [];
                           pp_request := searchMeta pageIndex 0 RS_FAILED startedAt completedAt |}, None))
        | Ok data =>
            ids ← lift_res (placeIds data);
            completedAt ← now;
            let n := Z.of_nat (length ids) in
            let token := asString (fieldOf data "nextPageToken") in
            mret (Some ({| pp_candidates := map (λ id, {| rc_sourcePlaceId := id; rc_facts := None |}) ids;
                           pp_request := searchMeta pageIndex n (if 0 <? n then RS_OK else RS_EMPTY) startedAt
                                           completedAt |},
              if truthy_opt token then Some (pageIndex + 1, token) else None))
        end
  end.
Definition pagesLeft (st : option (Z * option string)) : nat :=
  match st with Some (i, _) => Z.to_nat (pc_maxPages caps - i) | None => 0%nat end.
Definition GooglePlacesProvider : LeadSourceProvider := {|
  ls_name := "google_places"; ls_state := option (Z * option string); ls_first := Some (0, None);
  ls_next := placesNext;
  ls_remaining := pagesLeft;
|}.
Lemma placesNext_decreases st w :
  wp (placesNext st) (λ r _, match r with Some (_, st') => (pagesLeft st' < pagesLeft st)%nat | None => True end) w.
Proof.
  destruct st as [[i t]|]; [|done]. unfold placesNext. destruct (Z.leb_spec (pc_maxPages caps) i); [done|].
  rewrite wp_bind, wp_now, wp_bind. eapply wp_mono; [|apply wp_self]. intros [data|e] w' _; cbv beta iota.
  - rewrite wp_bind, wp_lift_res. intros ids _. rewrite wp_bind, wp_now, wp_ret. unfold pagesLeft. destruct (truthy_opt _); lia.
  - rewrite wp_bind, wp_now, wp_ret. unfold pagesLeft. lia.
Qed.
Lemma postFrom_tables retries body : always onlyLogged (postFrom retries body).
Proof.
  induction retries as [|retries IH]; cbn [postFrom]; (apply (always_bind onlyLogged); [apply (always_modify onlyLogged); by repeat split|intros _]);
    (apply (always_bind onlyLogged); [apply (always_tryCatch onlyLogged), (always_ask onlyLogged)|intros [a|e]]); cbv zeta;
    repeat case_match; first [apply (always_throw onlyLogged)|apply (always_ret onlyLogged)|exact IH].
Qed.
Lemma placesNext_tables st : always onlyLogged (placesNext st).
Proof.
  destruct st as [[i t]|]; cbn [placesNext]; [|apply (always_ret onlyLogged)]. case_match; [apply (always_ret onlyLogged)|].
  apply (always_bind onlyLogged); [apply (always_now onlyLogged)|intros startedAt].
  apply (always_bind onlyLogged); [apply (always_tryCatch onlyLogged); unfold postJson; case_match;
    [apply (always_throw onlyLogged)|apply postFrom_tables]|intros [data|e]].
  - apply (always_bind onlyLogged); [apply (always_lift_res onlyLogged)|intros ids].
    apply (always_bind onlyLogged); [apply (always_now onlyLogged)|intros; apply (always_ret onlyLogged)].
  - apply (always_bind onlyLogged); [apply (always_now onlyLogged)|intros; apply (always_ret onlyLogged)].
Qed.
#[global] Instance GooglePlacesProvider_lawful : LawfulSource GooglePlacesProvider.
Proof. split; [exact placesNext_decreases|exact placesNext_tables]. Qed.
End google.
