(* ===== verification/PlaceDetails.v ===== *)
(** * Google Place Details

    The client (src/integrations/enrichment/google-places-details.ts) and what is stored
    of an answer (src/persistence/google-place-details-store.ts): all facts before the
    verification of a website, or only the three that the backfill may fill in.  The
    client is a parameter of its users, so that their theorems hold whatever it answers;
    a field of an answer that is not of its documented type is taken as absent. *)
From Stdlib Require QArith.
From S2P Require Import Prelude.
From S2P Require Import JsNumber.
From S2P Require Import JsText.
From S2P Require Import JsonText.
From S2P Require Import LeadNormalize.
From S2P Require Import LeadLifecycle.
From S2P Require Import PipelineDb.
From S2P Require Import SystemDb.
From S2P Require Import LeadFacts.
From S2P Require Import LeadSource.
Open Scope string_scope.
Open Scope Z_scope.
Open Scope list_scope.

(** ** The client *)

Record PlaceDetails := {
  dt_displayName : option string; dt_formattedAddress : option string; dt_locality : option string;
  dt_country : option string; dt_primaryType : option string; dt_types : list string;
  dt_businessStatus : option string; dt_nationalPhoneNumber : option string; dt_websiteUri : option string;
  dt_rating : option num; dt_userRatingCount : option num;
}.
Definition PLACE_DETAILS_URL : string := "https://places.googleapis.com/v1/places".
Definition PLACE_DETAILS_FIELD_MASK : string :=
  "displayName,formattedAddress,addressComponents,primaryType,types,businessStatus,websiteUri,rating,userRatingCount".
Definition PLACE_DETAILS_APPROVED_PHONE_FIELD_MASK : string := PLACE_DETAILS_FIELD_MASK +:+ ",nationalPhoneNumber".
Definition placeDetailsCostUsd (requestCount : Z) : num := estimateCostUsd Enterprise requestCount.

(** The GET of an URL with a field mask: an answer, or a network error or an abort *)
Class DetailsTransport := { fetchDetails : nat → string → string → res PlacesAnswer }.

Definition notAFunction (what : string) : error := JsError (what +:+ " is not a function").
Definition someType (wanted : list string) (item : value) : res bool :=
  match item with
  | VNull => Throw (JsError "Cannot read properties of null (reading 'types')")
  | _ =>
      match fieldOf item "types" with
      | None | Some VNull => Ok false
      | Some (VArr l) => Ok (existsb (λ t, match t with VStr s => bool_decide (s ∈ wanted) | _ => false end) l)
      | Some _ => Throw (notAFunction "item.types?.some")
      end
  end.
Fixpoint findComponent (wanted : list string) (l : list value) : res (option value) :=
  match l with
  | [] => Ok None
  | item :: l =>
      match someType wanted item with
      | Throw e => Throw e
      | Ok true => Ok (Some item)
      | Ok false => findComponent wanted l
      end
  end.
Definition component (data : value) (wanted : list string) : res (option string) :=
  match fieldOf data "addressComponents" with
  | None | Some VNull => Ok None
  | Some (VArr l) =>
      match findComponent wanted l with
      | Throw e => Throw e
      | Ok None => Ok None
      | Ok (Some item) => Ok (orElse (asString (fieldOf item "longText")) (asString (fieldOf item "shortText")))
      end
  | Some _ => Throw (notAFunction "data.addressComponents?.find")
  end.
Definition asNumber (v : option value) : option num :=
  match v with Some (VNum literal) => Some (toNumber literal) | _ => None end.
Definition asStrings (v : option value) : list string :=
  match v with Some (VArr l) => omap (λ x, asString (Some x)) l | _ => [] end.
Definition detailsOf (data : value) : res PlaceDetails :=
  match data with
  | VNull => Throw (JsError "Cannot read properties of null (reading 'displayName')")
  | _ =>
      match component data ["locality"; "postal_town"; "administrative_area_level_3"], component data ["country"] with
      | Ok locality, Ok country => Ok
          {| dt_displayName := match fieldOf data "displayName" with Some v => asString (fieldOf v "text") | None => None end;
             dt_formattedAddress := asString (fieldOf data "formattedAddress"); dt_locality := locality;
             dt_country := country; dt_primaryType := asString (fieldOf data "primaryType");
             dt_types := asStrings (fieldOf data "types"); dt_businessStatus := asString (fieldOf data "businessStatus");
             dt_nationalPhoneNumber := asString (fieldOf data "nationalPhoneNumber");
             dt_websiteUri := asString (fieldOf data "websiteUri"); dt_rating := asNumber (fieldOf data "rating");
             dt_userRatingCount := asNumber (fieldOf data "userRatingCount") |}
      | Throw e, _ | _, Throw e => Throw e
      end
  end.
(** [GooglePlacesDetailsClient.details]: nothing if the answer is not a success *)
Definition googleDetails {DB} `{DetailsTransport} (placeId : string) (includePhone : bool) : M DB (option PlaceDetails) :=
  answer ← ask (λ n, fetchDetails n (PLACE_DETAILS_URL +:+ "/" +:+ encodeURIComponent placeId)
    (if includePhone then PLACE_DETAILS_APPROVED_PHONE_FIELD_MASK else PLACE_DETAILS_FIELD_MASK));
  if (200 <=? pa_status answer) && (pa_status answer <? 300) then
    match jsonParse (pa_body answer) with
    | None => throw (JsError "Unexpected token in JSON")
    | Some data => details ← lift_res (detailsOf data); mret (Some details)
    end
  else mret None.

(** ** The facts of an answer *)

(** [new URL(text)], of the host: nothing where it throws *)
Record Url := { url_href : string; url_protocol : string; url_hostname : string }.
Class UrlLibrary := { parseUrl : string → option Url }.

Definition factNormalized `{UrlLibrary} (type : FactType) (value : string) : option string :=
  match type with
  | FT_business_name => normalizeName (Some value)
  | FT_formatted_address => normalizeAddress (Some value)
  | FT_phone => normalizePhone (Some value)
  | FT_candidate_website_url => url_href <$> parseUrl value
  | _ => Some (toLowerCase (trim value))
  end.
(** The facts of a list of values: what is empty gives none. *)
Definition googleFact `{UrlLibrary} (leadId placeId : string) (retrievedAt : Z) (v : FactType * option string) :
    option NewLeadFact :=
  match v.2 with
  | None => None
  | Some raw =>
      let value := trim raw in
      if truthy value then Some
        {| nf_leadId := leadId; nf_factType := v.1; nf_value := value; nf_normalizedValue := factNormalized v.1 value;
           nf_sourceType := FS_google_places;
           nf_sourceUrl := Some (PLACE_DETAILS_URL +:+ "/" +:+ encodeURIComponent placeId);
           nf_capturedAt := Some retrievedAt; nf_confidence := Some (QArith_base.Qmake 1 1) |}
      else None
  end.
Definition buildGooglePlaceFacts `{UrlLibrary} (leadId placeId : string) (details : PlaceDetails) (retrievedAt : Z)
    (persistApprovedPhone : bool) : list NewLeadFact :=
  omap (googleFact leadId placeId retrievedAt)
    [(FT_google_place_id, Some placeId); (FT_business_name, dt_displayName details);
     (FT_candidate_website_url, dt_websiteUri details); (FT_formatted_address, dt_formattedAddress details);
     (FT_city, dt_locality details); (FT_country, dt_country details);
     (FT_category, orElse (dt_primaryType details) (head (dt_types details)));
     (FT_business_status, dt_businessStatus details); (FT_rating, numberText <$> dt_rating details);
     (FT_review_count, numberText <$> dt_userRatingCount details);
     (FT_phone, if persistApprovedPhone then dt_nationalPhoneNumber details else None)].
Definition BACKFILL_FACT_TYPES : list FactType := [FT_rating; FT_review_count; FT_phone].
Definition buildBackfillFacts `{UrlLibrary} (leadId placeId : string) (details : PlaceDetails) (retrievedAt : Z) :
    list NewLeadFact :=
  omap (googleFact leadId placeId retrievedAt)
    [(FT_rating, numberText <$> dt_rating details); (FT_review_count, numberText <$> dt_userRatingCount details);
     (FT_phone, dt_nationalPhoneNumber details)].

(** ** [DrizzleGooglePlaceDetailsStore] *)

Record BackfillResult := { br_writtenTypes : list FactType; br_skippedExistingTypes : list FactType }.
Section store.
Context `{Runtime, UrlLibrary}.

Definition boundLead (leadId placeId : string) : SM () :=
  lead ← zoom onPipeline (getLead leadId);
  if bool_decide ((lead ≫= ld_placeId) = Some placeId) then mret tt
  else throw (AppError "PLACE_BINDING_MISMATCH" "Place Details lead binding mismatch").
Definition backfillFact (leadId : string) (fact : NewLeadFact) (r : BackfillResult) : SM BackfillResult :=
  existing ← getCurrentFact leadId (nf_factType fact);
  match existing with
  | Some _ => mret {| br_writtenTypes := br_writtenTypes r;
                      br_skippedExistingTypes := br_skippedExistingTypes r ++ [nf_factType fact] |}
  | None =>
      _ ← writeCurrentFact fact;
      mret {| br_writtenTypes := br_writtenTypes r ++ [nf_factType fact];
              br_skippedExistingTypes := br_skippedExistingTypes r |}
  end.
Definition backfillMissing (leadId placeId : string) (retrievedAt : Z) (details : PlaceDetails) : SM BackfillResult :=
  transaction (
    boundLead leadId placeId ;;
    fold_each (buildBackfillFacts leadId placeId details retrievedAt) (backfillFact leadId)
      {| br_writtenTypes := []; br_skippedExistingTypes := [] |}).
(** Facts of another provenance are kept, and so is what has not changed. *)
Definition persistFact (leadId : string) (fact : NewLeadFact) (written : Z) : SM Z :=
  existing ← getCurrentFact leadId (nf_factType fact);
  let keep := match existing with
    | Some e => negb (bool_decide (lf_sourceType e = FS_google_places)) || String.eqb (lf_value e) (nf_value fact)
    | None => false
    end in
  if keep then mret written else _ ← writeCurrentFact fact; mret (written + 1).
Definition persistDetails (leadId placeId : string) (retrievedAt : Z) (details : PlaceDetails)
    (persistApprovedPhone : bool) : SM Z :=
  transaction (
    boundLead leadId placeId ;;
    fold_each (buildGooglePlaceFacts leadId placeId details retrievedAt persistApprovedPhone) (persistFact leadId) 0).
End store.
