(* ===== verification/Qualification.v ===== *)
(** * Qualification before the audit

    src/domain/qualification/qualify.ts and qualification-service.ts with the rules of
    src/config/qualification-rules.ts and the writer of qualification.repo.ts: from the
    current facts of a lead to a decision, a stored result and a transition.  Scores are
    doubles, computed as the code computes them. *)
From Stdlib Require QArith.
From S2P Require Import Prelude.
From S2P Require Import JsNumber.
From S2P Require Import JsText.
From S2P Require Import LeadNormalize.
From S2P Require Import LeadLifecycle.
From S2P Require Import PipelineDb.
From S2P Require Import Suppression.
From S2P Require Import SystemDb.
From S2P Require Import LeadFacts.
Open Scope string_scope.
Open Scope list_scope.

(** ** Rules *)

Record ViabilityWeights := { vw_active : num; vw_rating : num; vw_reviews : num; vw_independent : num }.
Record ContactabilityTiers := { ct_verifiedEmail : num; ct_contactForm : num; ct_phone : num }.
Record CompositeWeights := { co_viability : num; co_auditability : num }.
Record QualificationRules := {
  qr_version : string; qr_ratingMin : num; qr_reviewCountMin : num; qr_viabilityWeights : ViabilityWeights;
  qr_contactabilityTiers : ContactabilityTiers; qr_composite : CompositeWeights;
  qr_acceptThreshold : num; qr_priorityHigh : num;
}.
Definition QUALIFICATION_RULES : QualificationRules :=
  {| qr_version := "q-2026.07.1"; qr_ratingMin := toNumber "4.0"; qr_reviewCountMin := ofZ 20;
     qr_viabilityWeights := {| vw_active := ofZ 40; vw_rating := ofZ 25; vw_reviews := ofZ 20; vw_independent := ofZ 15 |};
     qr_contactabilityTiers := {| ct_verifiedEmail := ofZ 100; ct_contactForm := ofZ 80; ct_phone := ofZ 40 |};
     qr_composite := {| co_viability := toNumber "0.6"; co_auditability := toNumber "0.4" |};
     qr_acceptThreshold := ofZ 55; qr_priorityHigh := ofZ 80 |}.
Definition rulesJson (r : QualificationRules) : json :=
  let w := qr_viabilityWeights r in
  let t := qr_contactabilityTiers r in
  let c := qr_composite r in
  JObj [("version", JStr (qr_version r)); ("ratingMin", JReal (qr_ratingMin r));
    ("reviewCountMin", JReal (qr_reviewCountMin r));
    ("viabilityWeights", JObj [("active", JReal (vw_active w)); ("rating", JReal (vw_rating w));
       ("reviews", JReal (vw_reviews w)); ("independent", JReal (vw_independent w))]);
    ("contactabilityTiers", JObj [("verifiedEmail", JReal (ct_verifiedEmail t));
       ("contactForm", JReal (ct_contactForm t)); ("phone", JReal (ct_phone t))]);
    ("composite", JObj [("viability", JReal (co_viability c)); ("auditability", JReal (co_auditability c))]);
    ("acceptThreshold", JReal (qr_acceptThreshold r)); ("priorityHigh", JReal (qr_priorityHigh r))].
Definition rulesConfigHash `{Runtime} (r : QualificationRules) : string := hashCanonical (rulesJson r).

(** ** Results *)

Inductive QualificationDecision := ACCEPT | REVIEW | REJECT.
#[global] Instance QualificationDecision_eq_dec : EqDecision QualificationDecision.
Proof. solve_decision. Defined.
Inductive QualificationPriority := QP_HIGH | QP_MEDIUM | QP_LOW | QP_UNASSIGNED.
#[global] Instance QualificationPriority_eq_dec : EqDecision QualificationPriority.
Proof. solve_decision. Defined.
Inductive QualificationNextStep := AUDIT | WEBSITE_DISCOVERY | NEEDS_ENRICHMENT | MANUAL_REVIEW | SKIP.
#[global] Instance QualificationNextStep_eq_dec : EqDecision QualificationNextStep.
Proof. solve_decision. Defined.
(** The stage has one value, [PRE_AUDIT]; the opportunity score stays null here. *)
Record QualificationResult := {
  q_leadId : string; q_campaign : string; q_rulesVersion : string; q_rulesConfigHash : string;
  q_evaluatedAt : Z; q_businessViabilityScore : option num; q_auditabilityScore : option num;
  q_contactabilityScore : option num; q_opportunityScore : option num; q_deterministicScore : option num;
  q_decision : QualificationDecision; q_priority : QualificationPriority; q_nextStep : QualificationNextStep;
  q_triggeredRules : list string; q_missingRequiredFacts : list string; q_reasons : list string;
  q_inputFingerprint : string; q_inputFactIds : list string;
}.

(** ** Evaluation *)

Record QualificationNiche := { ni_allowedCategories : list string; ni_excludeChains : bool; ni_chainNames : list string }.
Record QualificationContext := {
  qc_leadId : string; qc_campaign : string; qc_niche : QualificationNiche; qc_suppressed : bool; qc_now : Z;
}.
Definition factTypeText (t : FactType) : string :=
  match t with
  | FT_business_name => "business_name" | FT_official_domain => "official_domain"
  | FT_official_website_url => "official_website_url" | FT_candidate_website_url => "candidate_website_url"
  | FT_google_place_id => "google_place_id" | FT_official_location_page_url => "official_location_page_url"
  | FT_domain => "domain" | FT_phone => "phone" | FT_contact_email => "contact_email"
  | FT_contact_form_url => "contact_form_url" | FT_formatted_address => "formatted_address"
  | FT_latitude => "latitude" | FT_longitude => "longitude" | FT_city => "city" | FT_country => "country"
  | FT_category => "category" | FT_rating => "rating" | FT_review_count => "review_count"
  | FT_business_status => "business_status" | FT_ownership_type => "ownership_type"
  | FT_services => "services" | FT_opening_hours => "opening_hours" | FT_booking_url => "booking_url"
  | FT_contact_timezone => "contact_timezone"
  end.
Definition REQUIRED_FACTS : list FactType := [FT_business_name; FT_business_status; FT_category].
Definition CONTACT_OR_AUDIT_FACTS : list FactType :=
  [FT_official_domain; FT_domain; FT_phone; FT_contact_email; FT_contact_form_url].

(** [numeric]: a finite number or null *)
Definition numeric (value : option string) : option num :=
  v ← value; let n := toNumber v in if isFinite n then Some n else None.

Section evaluate.
Context `{Runtime} (facts : list LeadFactRow) (ctx : QualificationContext) (rules : QualificationRules).

(** [byType]: of several current facts of a type the last one counts. *)
Definition byType (t : FactType) : option LeadFactRow :=
  last (List.filter (λ f, lf_isCurrent f && bool_decide (lf_factType f = t)) facts).
Definition hasFact (t : FactType) : bool := bool_decide (is_Some (byType t)).
Definition valueOf (t : FactType) : option string := lf_value <$> byType t.
Definition normalizedOrValue (f : LeadFactRow) : string := default (lf_value f) (lf_normalizedValue f).

(** The outcome of one exit of the evaluation; [used] lists the types that it looked at
    before, in order. *)
Definition inputFactIds (used : list FactType) : list string :=
  sortBy byCodeUnits (uniq (omap (λ t, lf_id <$> byType t) used)).
Definition factPairs (ids : list string) : list (string * string) :=
  sortBy (λ a b, if String.ltb a.1 b.1 then -1 else 1)%Z
    (omap (λ id, (λ f, (factTypeText (lf_factType f), normalizedOrValue f)) <$>
                   List.find (λ f, bool_decide (lf_id f = id)) facts) ids).
Definition inputFingerprint (ids : list string) : string :=
  let niche := qc_niche ctx in
  let texts (l : list string) := JArr (map JStr (sortBy byCodeUnits l)) in
  hashCanonical (JObj [("campaign", JStr (qc_campaign ctx));
    ("niche", JObj [("allowedCategories", texts (ni_allowedCategories niche));
       ("excludeChains", JBool (ni_excludeChains niche)); ("chainNames", texts (ni_chainNames niche))]);
    ("rulesConfigHash", JStr (rulesConfigHash rules));
    ("facts", JArr (map (λ p, JArr [JStr p.1; JStr p.2]) (factPairs ids)))]).
Definition finishResult (used : list FactType) (viability auditability contactability deterministic : option num)
    (decision : QualificationDecision) (priority : QualificationPriority) (nextStep : QualificationNextStep)
    (triggeredRules missing reasons : list string) : QualificationResult :=
  let ids := inputFactIds used in
  {| q_leadId := qc_leadId ctx; q_campaign := qc_campaign ctx; q_rulesVersion := qr_version rules;
     q_rulesConfigHash := rulesConfigHash rules; q_evaluatedAt := qc_now ctx;
     q_businessViabilityScore := viability; q_auditabilityScore := auditability;
     q_contactabilityScore := contactability; q_opportunityScore := None; q_deterministicScore := deterministic;
     q_decision := decision; q_priority := priority; q_nextStep := nextStep;
     q_triggeredRules := triggeredRules; q_missingRequiredFacts := missing; q_reasons := reasons;
     q_inputFingerprint := inputFingerprint ids; q_inputFactIds := ids |}.
Definition rejected (used : list FactType) (rule reason : string) : QualificationResult :=
  finishResult used None None None None REJECT QP_UNASSIGNED SKIP [rule] [] [reason].

Definition permanentlyClosed : bool := bool_decide (valueOf FT_business_status = Some "CLOSED_PERMANENTLY").
Definition outsideNiche (category : string) : bool :=
  negb (bool_decide (normalizeCategory category ∈ map normalizeCategory (ni_allowedCategories (qc_niche ctx)))).
Definition verifiedChain : bool :=
  ni_excludeChains (qc_niche ctx) && bool_decide (valueOf FT_ownership_type = Some "CHAIN").
(** The name resembles a known chain: a flag, never a reason to reject. *)
Definition possibleChain : bool :=
  match byType FT_business_name ≫= lf_normalizedValue with
  | Some name => truthy name && bool_decide (name ∈ ni_chainNames (qc_niche ctx))
  | None => false
  end.
Definition missingRequiredFacts : list string :=
  map factTypeText (List.filter (λ t, negb (hasFact t)) REQUIRED_FACTS) ++
  (if existsb hasFact CONTACT_OR_AUDIT_FACTS then [] else ["contact_or_audit_path"]).

(** A signal that holds adds its weight and its rule. *)
Definition atLeast (value : option string) (least : num) : bool :=
  match numeric value with Some n => geN n least | None => false end.
Definition signals : list (bool * num * string) :=
  let w := qr_viabilityWeights rules in
  [(bool_decide (valueOf FT_business_status = Some "OPERATIONAL"), vw_active w, "signal.activeBusiness");
   (atLeast (valueOf FT_rating) (qr_ratingMin rules), vw_rating w, "signal.ratingGood");
   (atLeast (valueOf FT_review_count) (qr_reviewCountMin rules), vw_reviews w, "signal.reviewVolume");
   (bool_decide (valueOf FT_ownership_type = Some "INDEPENDENT"), vw_independent w, "signal.independentVerified")].
Definition viability : num :=
  fold_left (λ score s, if s.1.1 : bool then addN score s.1.2 else score) signals (ofZ 0).
Definition auditability : num := if hasFact FT_official_domain then ofZ 100 else ofZ 0.
Definition contactability : num * list FactType :=
  let tiers := qr_contactabilityTiers rules in
  if hasFact FT_contact_email then (ct_verifiedEmail tiers, [FT_contact_email])
  else if hasFact FT_contact_form_url then (ct_contactForm tiers, [FT_contact_email; FT_contact_form_url])
  else (if hasFact FT_phone then ct_phone tiers else ofZ 0, [FT_contact_email; FT_contact_form_url; FT_phone]).
Definition composite : num :=
  roundN (addN (mulN (co_viability (qr_composite rules)) viability)
               (mulN (co_auditability (qr_composite rules)) auditability)).

Definition evaluateQualification : QualificationResult :=
  if qc_suppressed ctx then rejected [] "gate.suppressed" "Business is on the suppression list"
  else
    let used := [FT_business_status] in
    if permanentlyClosed then rejected used "gate.permanentlyClosed" "Business is permanently closed"
    else
      let used := used ++ [FT_category] in
      let category := normalizedOrValue <$> byType FT_category in
      if truthy_opt category && outsideNiche (default "" category) then
        rejected used "gate.outsideNiche"
          ("Category " +:+ String quoteMark (default "" category) +:+ String quoteMark " is outside the campaign niche")
      else
        let used := used ++ [FT_ownership_type] in
        if verifiedChain then rejected used "gate.verifiedChain" "Verified chain excluded by campaign"
        else
          let used := used ++ [FT_business_name] in
          let '(triggered, reasons) := if possibleChain
            then (["flag.possibleChain"], ["Name matches a known chain; ownership not verified (not rejected)"])
            else ([], []) in
          let none := negb (existsb lf_isCurrent facts) in
          let missing := missingRequiredFacts in
          if none || (0 <? length missing)%nat then
            finishResult used None None None None REVIEW QP_UNASSIGNED NEEDS_ENRICHMENT
              (triggered ++ ["route.needsEnrichment"]) missing
              (reasons ++ [if none then "No approved facts yet (e.g. Place-ID-only candidate); needs enrichment"
                           else "Missing required facts: " +:+ join ", " missing])
          else
            let used := used ++ [FT_rating; FT_review_count] ++
              (if hasFact FT_official_domain then [FT_official_domain] else []) ++ contactability.2 in
            let triggered := triggered ++ map snd (List.filter (λ s, s.1.1) signals) ++
              (if hasFact FT_official_domain then ["signal.officialDomain"] else []) in
            let scored := finishResult used (Some viability) (Some auditability) (Some contactability.1) (Some composite) in
            if geN composite (qr_acceptThreshold rules) then
              let priority := if geN composite (qr_priorityHigh rules) then QP_HIGH else QP_MEDIUM in
              if hasFact FT_official_domain
              then scored ACCEPT priority AUDIT (triggered ++ ["route.audit"]) []
                     (reasons ++ ["Worth auditing (official domain present)"])
              else scored ACCEPT priority WEBSITE_DISCOVERY (triggered ++ ["route.websiteDiscovery"]) []
                     (reasons ++ ["Worth pursuing but needs an official website discovered first"])
            else
              scored REVIEW QP_LOW MANUAL_REVIEW (triggered ++ ["route.manualReview"]) []
                (reasons ++ ["Composite score " +:+ numberText composite +:+ " below accept threshold " +:+
                             numberText (qr_acceptThreshold rules)]).
End evaluate.

(** ** The database with the results

    [qualification_results] with its identifiers and [qualification_result_facts]. *)
Record IntakeDb := {
  systemDb : SystemDb; qualificationResults : list (string * QualificationResult);
  qualificationResultFacts : list (string * string);
}.
Definition QM : Type → Type := M IntakeDb.
Definition onSystem : lens IntakeDb SystemDb := Lens systemDb (λ s db,
  {| systemDb := s; qualificationResults := qualificationResults db;
     qualificationResultFacts := qualificationResultFacts db |}).
#[global] Instance onSystem_lawful : LawfulLens onSystem.
Proof. by split. Qed.
Definition addResult (id : string) (r : QualificationResult) (db : IntakeDb) : IntakeDb :=
  {| systemDb := systemDb db; qualificationResults := qualificationResults db ++ [(id, r)];
     qualificationResultFacts := qualificationResultFacts db |}.
Definition addResultFacts (links : list (string * string)) (db : IntakeDb) : IntakeDb :=
  {| systemDb := systemDb db; qualificationResults := qualificationResults db;
     qualificationResultFacts := qualificationResultFacts db ++ links |}.

(** [qr_score_ck]: null or between 0 and 100; PostgreSQL takes NaN for larger than any number. *)
Definition validScore (s : option num) : bool :=
  match s with Some x => leN (ofZ 0) x && leN x (ofZ 100) | None => true end.
Definition checkInsertResult (id : string) (r : QualificationResult) (db : IntakeDb) : option error :=
  refuse
    [(negb (forallb validScore [q_businessViabilityScore r; q_auditabilityScore r; q_contactabilityScore r;
                                q_opportunityScore r; q_deterministicScore r]), checkViolation "qr_score_ck");
     (existsb (λ x, bool_decide (x.1 = id)) (qualificationResults db), uniqueViolation "qualification_results_pkey");
     (negb (bool_decide (is_Some (leads (pipelineDb (systemDb db)) !! q_leadId r))),
        foreignKeyViolation "qualification_results_lead_id_fkey")].
Definition checkInsertResultFacts (links : list (string * string)) (db : IntakeDb) : option error :=
  refuse
    [(existsb (λ l, bool_decide (l ∈ qualificationResultFacts db)) links || negb (bool_decide (NoDup links)),
        uniqueViolation "qualification_result_facts_pk");
     (negb (forallb (λ l, existsb (λ f, bool_decide (lf_id f = l.2)) (leadFacts (systemDb db))) links),
        foreignKeyViolation "qualification_result_facts_lead_fact_id_fkey")].

(** The current facts of a lead that [isSuppressed] looks at *)
Definition identityFact (f : LeadFactRow) : option IdentityFact :=
  match lf_factType f with
  | FT_business_name => Some (FactBusinessName (lf_value f))
  | FT_candidate_website_url | FT_official_domain => Some (FactWebsite (lf_value f))
  | _ => None
  end.
Definition leadIdentityFacts (leadId : string) (db : SystemDb) : list IdentityFact :=
  if truthy leadId then omap identityFact (currentFacts leadId db) else [].
Definition isSuppressedLead (l : Lead) (db : SystemDb) : bool :=
  suppressedIn l (leadIdentityFacts (ld_id l) db) (pipelineDb db).

(** ** The service *)

Definition QUALIFIABLE_FROM : list LeadStatus :=
  [NEW; NORMALIZED; READY_FOR_QUALIFICATION; ENRICHED; NEEDS_MANUAL_REVIEW].
Definition isQualifiable (status : LeadStatus) : bool := bool_decide (status ∈ QUALIFIABLE_FROM).
Definition targetState (nextStep : QualificationNextStep) : LeadStatus :=
  match nextStep with
  | AUDIT => QUALIFIED
  | WEBSITE_DISCOVERY | NEEDS_ENRICHMENT => READY_FOR_ENRICHMENT
  | MANUAL_REVIEW => NEEDS_MANUAL_REVIEW
  | SKIP => REJECTED
  end.

Section service.
Context `{Runtime}.

Definition saveResult (r : QualificationResult) : QM string :=
  id ← randomUUID;
  guarded (checkInsertResult id r) (addResult id r) ;;
  (if (0 <? length (q_inputFactIds r))%nat then
     let links := map (λ f, (id, f)) (q_inputFactIds r) in
     guarded (checkInsertResultFacts links) (addResultFacts links)
   else mret tt) ;;
  mret id.
Definition advanceToReady (l : Lead) : PM () :=
  let status := ld_status l in
  (if bool_decide (status = NEW) then _ ← leadTransition (ld_id l) NORMALIZED; mret tt else mret tt) ;;
  let status := if bool_decide (status = NEW) then NORMALIZED else status in
  if bool_decide (status ∈ [NORMALIZED; ENRICHED; NEEDS_MANUAL_REVIEW])
  then _ ← leadTransition (ld_id l) READY_FOR_QUALIFICATION; mret tt else mret tt.

Definition qualify (leadId campaign : string) (niche : QualificationNiche) (rules : QualificationRules)
    (nowD : Z) : QM QualificationResult :=
  transaction (
    lead ← zoom onSystem (zoom onPipeline (getLead leadId));
    match lead with
    | None => throw (AppError "LEAD_NOT_FOUND" ("Lead not found: " +:+ leadId))
    | Some l =>
        if negb (isQualifiable (ld_status l)) then
          throw (AppError "NOT_QUALIFIABLE" ("Lead " +:+ leadId +:+ " not qualifiable from " +:+ leadStatusText (ld_status l)))
        else
          zoom onSystem (zoom onPipeline (advanceToReady l)) ;;
          suppressed ← query (λ db, isSuppressedLead l (systemDb db));
          facts ← zoom onSystem (listCurrentFacts leadId);
          let result := evaluateQualification facts
            {| qc_leadId := leadId; qc_campaign := campaign; qc_niche := niche; qc_suppressed := suppressed;
               qc_now := nowD |} rules in
          _ ← saveResult result;
          _ ← zoom onSystem (zoom onPipeline (leadTransition leadId (targetState (q_nextStep result))));
          mret result
    end).

(** ** The batch: src/pipeline/qualify-leads.ts *)

Record QualifySummary := {
  qs_evaluated : nat; qs_accepted : nat; qs_review : nat; qs_rejected : nat; qs_needsEnrichment : nat;
  qs_websiteDiscovery : nat; qs_audit : nat; qs_manualReview : nat; qs_failed : nat;
}.
Definition emptySummary : QualifySummary :=
  {| qs_evaluated := 0; qs_accepted := 0; qs_review := 0; qs_rejected := 0; qs_needsEnrichment := 0;
     qs_websiteDiscovery := 0; qs_audit := 0; qs_manualReview := 0; qs_failed := 0 |}.
Definition one (b : bool) : nat := if b then 1 else 0.
Definition countResult (r : QualificationResult) (s : QualifySummary) : QualifySummary :=
  let step (n : QualificationNextStep) := one (bool_decide (q_nextStep r = n)) in
  let accepted := bool_decide (q_decision r = ACCEPT) in
  let review := bool_decide (q_decision r = REVIEW) in
  {| qs_evaluated := qs_evaluated s + 1; qs_accepted := qs_accepted s + one accepted;
     qs_review := qs_review s + one review;
     qs_rejected := qs_rejected s + one (negb accepted && negb review);
     qs_needsEnrichment := qs_needsEnrichment s + step NEEDS_ENRICHMENT;
     qs_websiteDiscovery := qs_websiteDiscovery s + step WEBSITE_DISCOVERY;
     qs_audit := qs_audit s + step AUDIT; qs_manualReview := qs_manualReview s + step MANUAL_REVIEW;
     qs_failed := qs_failed s |}.
Definition countFailure (s : QualifySummary) : QualifySummary :=
  {| qs_evaluated := qs_evaluated s; qs_accepted := qs_accepted s; qs_review := qs_review s;
     qs_rejected := qs_rejected s; qs_needsEnrichment := qs_needsEnrichment s;
     qs_websiteDiscovery := qs_websiteDiscovery s; qs_audit := qs_audit s;
     qs_manualReview := qs_manualReview s; qs_failed := qs_failed s + 1 |}.
Definition qualifyLeads (campaign : string) (niche : QualificationNiche) (rules : QualificationRules)
    (batch : list Lead) : QM QualifySummary :=
  fold_each batch (λ l s,
    if negb (isQualifiable (ld_status l)) then mret s
    else
      r ← tryCatch (nowD ← now; qualify (ld_id l) campaign niche rules nowD);
      mret (match r with Ok r => countResult r s | Throw _ => countFailure s end)) emptySummary.
End service.

(** [selectQualifiableLeads] of the command; the limit is parsed as a number,
    and [slice(0, NaN)] is empty. *)
Definition parseInt10 (text : string) : option Z :=
  let s := trim text in
  let '(sign, s) := match s with
    | String "-" s => ((-1)%Z, s) | String "+" s => (1%Z, s) | _ => (1%Z, s) end in
  match leadingDigits 10 0 0 s with (_, O, _) => None | (n, _, _) => Some (sign * n)%Z end.
Definition selectQualifiableLeads (all : list Lead) (lead limit : option string) : res (list Lead) :=
  if truthy_opt lead then
    match List.find (λ l, bool_decide (Some (ld_id l) = lead)) all with
    | None => Throw (JsError "qualification_lead_not_found")
    | Some l => if isQualifiable (ld_status l) then Ok [l]
                else Throw (JsError ("qualification_lead_not_qualifiable:" +:+ leadStatusText (ld_status l)))
    end
  else
    let selected := List.filter (λ l, isQualifiable (ld_status l)) all in
    Ok (if truthy_opt limit then sliceTo (default 0%Z (parseInt10 (default "" limit))) selected else selected).
