(* ===== verification/Collect.v ===== *)
(** * Collecting leads: src/pipeline/collect-leads.ts

    A run reads pages from a provider and processes every candidate in a transaction of
    its own: an unknown place becomes a lead with its facts (lead-factory.ts,
    build-facts.ts), unless deduplication finds it there already. *)
From Stdlib Require QArith.
From S2P Require Import Prelude.
From S2P Require Import JsNumber.
From S2P Require Import JsText.
From S2P Require Import LeadNormalize.
From S2P Require Import LeadLifecycle.
From S2P Require Import PipelineDb.
From S2P Require Import SystemDb.
From S2P Require Import LeadFacts.
From S2P Require Import LeadSource.
From S2P Require Import Qualification.
Open Scope string_scope.
Open Scope Z_scope.
Open Scope list_scope.

(** ** lead-factory.ts and build-facts.ts *)

(** [buildCandidateLead]: a lead of which only the place is known *)
Definition candidateLead (id placeId source : string) (nowD : Z) : Lead :=
  {| ld_id := id; ld_businessName := None; ld_normalizedName := None; ld_domain := None;
     ld_normalizedDomain := None; ld_phone := None; ld_normalizedPhone := None; ld_formattedAddress := None;
     ld_normalizedAddress := None; ld_latitude := None; ld_longitude := None; ld_placeId := Some placeId;
     ld_city := None; ld_country := None; ld_status := NEW; ld_priority := None; ld_source := Some source;
     ld_dedupStatus := UNIQUE; ld_duplicateOf := None; ld_createdAt := nowD; ld_updatedAt := nowD |}.
Definition leadFromFacts (f : LeadFactsInput) (id source : string) (placeId : option string) (nowD : Z) : Lead :=
  {| ld_id := id; ld_businessName := fi_businessName f; ld_normalizedName := normalizeName (fi_businessName f);
     ld_domain := fi_domain f; ld_normalizedDomain := normalizeDomain (fi_domain f); ld_phone := fi_phone f;
     ld_normalizedPhone := normalizePhone (fi_phone f); ld_formattedAddress := fi_formattedAddress f;
     ld_normalizedAddress := normalizeAddress (fi_formattedAddress f); ld_latitude := fi_latitude f;
     ld_longitude := fi_longitude f; ld_placeId := placeId; ld_city := fi_city f; ld_country := fi_country f;
     ld_status := NEW; ld_priority := None; ld_source := Some source; ld_dedupStatus := UNIQUE;
     ld_duplicateOf := None; ld_createdAt := nowD; ld_updatedAt := nowD |}.
Definition markAmbiguous (candidateLeadId : string) (l : Lead) : Lead :=
  let '(Build_Lead id bn nn dm nd ph np fa na lat lon pid city ctry st pr src _ _ ca ua) := l in
  Build_Lead id bn nn dm nd ph np fa na lat lon pid city ctry st pr src AMBIGUOUS (Some candidateLeadId) ca ua.

(** [push]: only values that are present become facts. *)
Definition factSpec (type : FactType) (value normalized : option string) : list (FactType * string * option string) :=
  match value with
  | None | Some "" => []
  | Some v => [(type, v, normalized)]
  end.
Definition factSpecs (f : LeadFactsInput) : list (FactType * string * option string) :=
  factSpec FT_business_name (fi_businessName f) (normalizeName (fi_businessName f)) ++
  factSpec FT_official_domain (fi_officialDomain f) (normalizeDomain (fi_officialDomain f)) ++
  factSpec FT_domain (fi_domain f) (normalizeDomain (fi_domain f)) ++
  factSpec FT_phone (fi_phone f) (normalizePhone (fi_phone f)) ++
  factSpec FT_contact_email (fi_contactEmail f) (normalizeEmail <$> fi_contactEmail f) ++
  factSpec FT_contact_form_url (fi_contactFormUrl f) None ++
  factSpec FT_formatted_address (fi_formattedAddress f) (normalizeAddress (fi_formattedAddress f)) ++
  factSpec FT_latitude (numberText <$> fi_latitude f) None ++
  factSpec FT_longitude (numberText <$> fi_longitude f) None ++
  factSpec FT_city (fi_city f) (normalizeCity (fi_city f)) ++
  factSpec FT_country (fi_country f) ((λ c, toUpperCase (trim c)) <$> fi_country f) ++
  factSpec FT_category (fi_category f) (normalizeName (fi_category f)) ++
  factSpec FT_rating (numberText <$> fi_rating f) None ++
  factSpec FT_review_count (numberText <$> fi_reviewCount f) None ++
  factSpec FT_business_status (fi_businessStatus f) None ++
  factSpec FT_ownership_type (fi_ownershipType f) None.
Definition buildLeadFactInputs (leadId : string) (f : LeadFactsInput) (sourceType : FactSourceType)
    (sourceUrl : option string) : list NewLeadFact :=
  map (λ s : FactType * string * option string,
    {| nf_leadId := leadId; nf_factType := s.1.1; nf_value := s.1.2; nf_normalizedValue := s.2;
       nf_sourceType := sourceType; nf_sourceUrl := sourceUrl; nf_capturedAt := None; nf_confidence := None |})
    (factSpecs f).

(** ** The candidates for a match: [LeadsRepository.findDedupCandidates]

    The query has no ORDER BY: PostgreSQL may return the rows in any order. *)
Class RowOrder := { rowOrder : list Lead → list Lead; rowOrder_perm l : rowOrder l ≡ₚ l }.

Definition dedupCandidate (l : Lead) : DedupCandidate :=
  {| dc_leadId := ld_id l; dc_input :=
     {| di_normalizedName := ld_normalizedName l; di_normalizedDomain := ld_normalizedDomain l;
        di_normalizedPhone := ld_normalizedPhone l; di_normalizedAddress := ld_normalizedAddress l;
        di_latitude := ld_latitude l; di_longitude := ld_longitude l; di_city := ld_city l |} |}.
Definition sharesIdentifier (i : DedupInput) (l : Lead) : bool :=
  sameText (di_normalizedDomain i) (ld_normalizedDomain l) ||
  sameText (di_normalizedPhone i) (ld_normalizedPhone l) ||
  sameText (di_normalizedName i) (ld_normalizedName l).
Definition isUnique (l : Lead) : bool := match ld_dedupStatus l with UNIQUE => true | AMBIGUOUS => false end.
Definition findDedupCandidates `{RowOrder} (i : DedupInput) (db : PipelineDb) : list DedupCandidate :=
  map dedupCandidate (take 50 (List.filter (λ l, isUnique l && sharesIdentifier i l)
    (rowOrder (map_to_list (leads db)).*2))).

Definition factsToDedupInput (f : LeadFactsInput) : DedupInput :=
  {| di_normalizedName := normalizeName (fi_businessName f); di_normalizedDomain := normalizeDomain (fi_domain f);
     di_normalizedPhone := normalizePhone (fi_phone f);
     di_normalizedAddress := normalizeAddress (fi_formattedAddress f); di_latitude := fi_latitude f;
     di_longitude := fi_longitude f; di_city := fi_city f |}.
Definition hasText (o : option string) : bool := truthy_opt (trim <$> o).
Definition hasIdentity (f : LeadFactsInput) : bool :=
  hasText (fi_businessName f) || hasText (fi_domain f) || hasText (fi_phone f).

(** ** One candidate *)

Inductive CandidateResult := CR_CREATED | CR_DUPLICATE | CR_REFRESHED | CR_AMBIGUOUS | CR_REJECTED | CR_BRANCH.
#[global] Instance CandidateResult_eq_dec : EqDecision CandidateResult.
Proof. solve_decision. Defined.
Record CandidateOutcome := { co_result : CandidateResult; co_newLead : bool; co_leadId : option string }.
Record CollectOptions := {
  ca_runId : string; ca_campaign : string; ca_maxLeads : option Z; ca_nearMeters : num;
  ca_factsSource : FactSourceType;
}.
Definition tierText (t : DuplicateTier) : string :=
  match t with
  | DOMAIN_ADDRESS => "DOMAIN_ADDRESS" | PHONE_ADDRESS => "PHONE_ADDRESS" | NAME_ADDRESS => "NAME_ADDRESS"
  end.
Definition makesLead (r : CandidateResult) : bool :=
  bool_decide (r ∈ [CR_CREATED; CR_BRANCH; CR_AMBIGUOUS]).
Definition observedAs (r : CandidateResult) : ProcessingResult :=
  match r with
  | CR_DUPLICATE => PR_DUPLICATE | CR_AMBIGUOUS => PR_AMBIGUOUS | CR_REFRESHED => PR_REFRESHED
  | CR_CREATED | CR_BRANCH | CR_REJECTED => PR_CREATED
  end.
(** What a new place is resolved to: the lead, the result, the tier, and the event *)
Record Resolution := {
  rs_leadId : string; rs_result : CandidateResult; rs_tier : string; rs_event : PipelineEventType;
  rs_message : string;
}.

Section collect.
Context `{Runtime, MathLibrary, RowOrder} (opts : CollectOptions) (provider : string).

Definition inPipeline {A} (m : PM A) : CM A := zoom inCollect (zoom onPipeline m).
Definition collectEvent (leadId : option string) (type : PipelineEventType) (to : option LeadStatus)
    (message : string) : CM () :=
  inPipeline (recordEvent {| pe_leadId := leadId; pe_runId := Some (ca_runId opts); pe_type := type;
    pe_fromStatus := None; pe_toStatus := to; pe_message := Some message; pe_data := JNull |}).

Definition resolveNew (placeId : string) (facts : option LeadFactsInput) (nowD : Z) : CM Resolution :=
  match facts with
  | None =>
      id ← randomUUID;
      inPipeline (createLeadRow (candidateLead id placeId provider nowD)) ;;
      mret {| rs_leadId := id; rs_result := CR_CREATED; rs_tier := "NONE"; rs_event := LEAD_COLLECTED;
              rs_message := "Candidate created from " +:+ provider +:+ " place " +:+ placeId |}
  | Some f =>
      let input := factsToDedupInput f in
      candidates ← query (λ db, findDedupCandidates input (pipelineDb (collectSystem db)));
      let create mark result tier event message :=
        id ← randomUUID;
        inPipeline (createLeadRow (mark (leadFromFacts f id provider (Some placeId) nowD))) ;;
        mret {| rs_leadId := id; rs_result := result; rs_tier := tier; rs_event := event; rs_message := message |} in
      match decideMatch input candidates (ca_nearMeters opts) with
      | DD_DUPLICATE tier leadId =>
          mret {| rs_leadId := leadId; rs_result := CR_DUPLICATE; rs_tier := tierText tier;
                  rs_event := LEAD_DUPLICATE;
                  rs_message := "Duplicate of " +:+ leadId +:+ " (" +:+ tierText tier +:+ ")" |}
      | DD_BRANCH related => create id CR_BRANCH "BRANCH" LEAD_BRANCH
          ("Separate branch; related to " +:+ related +:+ " (not merged)")
      | DD_AMBIGUOUS candidate => create (markAmbiguous candidate) CR_AMBIGUOUS "AMBIGUOUS" LEAD_AMBIGUOUS
          ("Ambiguous vs " +:+ candidate +:+ "; flagged for review (not merged)")
      | DD_UNIQUE => create id CR_CREATED "NONE" LEAD_COLLECTED
          ("Lead created from " +:+ provider +:+ " (" +:+ default "unnamed" (fi_businessName f) +:+ ")")
      end
  end.
Definition writeFacts (r : Resolution) (facts : option LeadFactsInput) : CM () :=
  match facts with
  | Some f =>
      if makesLead (rs_result r) then
        for_each (buildLeadFactInputs (rs_leadId r) f (ca_factsSource opts) None)
          (λ fact, _ ← zoom inCollect (writeCurrentFact fact); mret tt)
      else mret tt
  | None => mret tt
  end.
Definition processCandidate (c : RawCandidate) (requestId : string) (nowD : Z) : CM CandidateOutcome :=
  let placeId := trim (rc_sourcePlaceId c) in
  let invalid := String.eqb placeId "" ||
    match rc_facts c with Some f => negb (hasIdentity f) | None => false end in
  if invalid then
    collectEvent None LEAD_REJECTED None
      ("Malformed candidate rejected (placeId=" +:+ String quoteMark (rc_sourcePlaceId c) +:+
       String quoteMark ")") ;;
    mret {| co_result := CR_REJECTED; co_newLead := false; co_leadId := None |}
  else
    existing ← query (placeEntity provider placeId);
    match existing with
    | Some e =>
        touchLastSeen (so_id e) nowD ;;
        createObservation (so_id e) requestId PR_REFRESHED (Some "PLACE_ID") ;;
        collectEvent (Some (so_leadId e)) SOURCE_REFRESHED None
          ("Re-observed " +:+ provider +:+ " place " +:+ placeId) ;;
        mret {| co_result := CR_REFRESHED; co_newLead := false; co_leadId := Some (so_leadId e) |}
    | None =>
        r ← resolveNew placeId (rc_facts c) nowD;
        writeFacts r (rc_facts c) ;;
        entity ← createEntity provider placeId (rs_leadId r);
        createObservation (so_id entity) requestId (observedAs (rs_result r)) (Some (rs_tier r)) ;;
        collectEvent (Some (rs_leadId r)) (rs_event r)
          (if bool_decide (rs_result r = CR_DUPLICATE) then None else Some NEW) (rs_message r) ;;
        mret {| co_result := rs_result r; co_newLead := makesLead (rs_result r); co_leadId := Some (rs_leadId r) |}
    end.
End collect.

(** ** A run *)

Record CollectSummary := {
  cs_created : Z; cs_duplicates : Z; cs_refreshed : Z; cs_ambiguous : Z; cs_branches : Z; cs_rejected : Z;
  cs_failed : Z; cs_requests : Z; cs_pages : Z; cs_stoppedAtCap : bool; cs_interrupted : bool;
}.
Definition noneCollected : CollectSummary :=
  {| cs_created := 0; cs_duplicates := 0; cs_refreshed := 0; cs_ambiguous := 0; cs_branches := 0;
     cs_rejected := 0; cs_failed := 0; cs_requests := 0; cs_pages := 0; cs_stoppedAtCap := false;
     cs_interrupted := false |}.
Definition newLeadCount (s : CollectSummary) : Z := cs_created s + cs_ambiguous s + cs_branches s.
Definition addResults (s : CollectSummary) (r : option CandidateResult) : CollectSummary :=
  let plus (n : Z) (r' : CandidateResult) := if bool_decide (r = Some r') then n + 1 else n in
  {| cs_created := plus (cs_created s) CR_CREATED; cs_duplicates := plus (cs_duplicates s) CR_DUPLICATE;
     cs_refreshed := plus (cs_refreshed s) CR_REFRESHED; cs_ambiguous := plus (cs_ambiguous s) CR_AMBIGUOUS;
     cs_branches := plus (cs_branches s) CR_BRANCH; cs_rejected := plus (cs_rejected s) CR_REJECTED;
     cs_failed := if bool_decide (r = None) then cs_failed s + 1 else cs_failed s;
     cs_requests := cs_requests s; cs_pages := cs_pages s; cs_stoppedAtCap := cs_stoppedAtCap s;
     cs_interrupted := cs_interrupted s |}.
Definition setProgress (pages requests : Z) (stopped interrupted : bool) (s : CollectSummary) : CollectSummary :=
  {| cs_created := cs_created s; cs_duplicates := cs_duplicates s; cs_refreshed := cs_refreshed s;
     cs_ambiguous := cs_ambiguous s; cs_branches := cs_branches s; cs_rejected := cs_rejected s;
     cs_failed := cs_failed s; cs_requests := cs_requests s + requests; cs_pages := cs_pages s + pages;
     cs_stoppedAtCap := cs_stoppedAtCap s || stopped; cs_interrupted := cs_interrupted s || interrupted |}.
(** [newLeadCount() >= caps.maxLeads]; a cap that is not a number is never reached. *)
Definition atCap (maxLeads : option Z) (s : CollectSummary) : bool :=
  match maxLeads with Some cap => cap <=? newLeadCount s | None => false end.

Section run.
Context `{Runtime, MathLibrary, RowOrder, P : LeadSourceProvider} (opts : CollectOptions).

Definition collectOne (requestId : string) (c : RawCandidate) (s : CollectSummary) : CM CollectSummary :=
  outcome ← tryCatch (transaction (nowD ← now; processCandidate opts ls_name c requestId nowD));
  mret (addResults s (match outcome with Ok o => Some (co_result o) | Throw _ => None end)).
Fixpoint collectPage (requestId : string) (candidates : list RawCandidate) (s : CollectSummary) : CM CollectSummary :=
  match candidates with
  | [] => mret s
  | c :: candidates =>
      if atCap (ca_maxLeads opts) s then mret (setProgress 0 0 true false s)
      else s ← collectOne requestId c s; collectPage requestId candidates s
  end.
(** The loop over the pages; [None] when [fuel] pages were not enough. *)
Fixpoint collectPages (fuel : nat) (st : ls_state) (s : CollectSummary) : CM (option CollectSummary) :=
  match fuel with
  | O => mret None
  | S fuel =>
      next ← tryCatch (ls_next st);
      match next with
      | Throw _ => mret (Some (setProgress 0 0 false true s))
      | Ok None => mret (Some s)
      | Ok (Some (page, st)) =>
          requestId ← tryCatch (recordRequest (ca_runId opts) (ca_campaign opts) ls_name (pp_request page));
          match requestId with
          | Throw _ => mret (Some (setProgress 1 0 false true s))
          | Ok requestId =>
              let s := setProgress 1 1 false false s in
              if bool_decide (pm_status (pp_request page) = RS_FAILED) then
                mret (Some (setProgress 0 0 false true s))
              else
                s ← collectPage requestId (pp_candidates page) s;
                if cs_stoppedAtCap s then mret (Some s) else collectPages fuel st s
          end
      end
  end.
Definition collectLeads : CM (option CollectSummary) :=
  collectPages (S (ls_remaining ls_first)) ls_first noneCollected.
End run.

(** ** [collectLeadsCommand], with the provider it has chosen; src/cli/commands/collect-leads.ts *)

(** [Number.parseInt] of the option; what is no number gives NaN, a cap never reached. *)
Definition collectLimit (limit : option string) (maxLeadsPerRun : Z) : option Z :=
  match limit with
  | Some t => if truthy t then parseInt10 t else Some maxLeadsPerRun
  | None => Some maxLeadsPerRun
  end.
Definition summaryJson (s : CollectSummary) : json :=
  JObj [("created", JNum (cs_created s)); ("duplicates", JNum (cs_duplicates s));
        ("refreshed", JNum (cs_refreshed s)); ("ambiguous", JNum (cs_ambiguous s));
        ("branches", JNum (cs_branches s)); ("rejected", JNum (cs_rejected s)); ("failed", JNum (cs_failed s));
        ("requests", JNum (cs_requests s)); ("pages", JNum (cs_pages s));
        ("stoppedAtCap", JBool (cs_stoppedAtCap s)); ("interrupted", JBool (cs_interrupted s))].
Definition collectLeadsCommand `{Runtime, MathLibrary, RowOrder, P : LeadSourceProvider} (campaign : string)
    (maxLeadsPerRun : Z) (nearMeters : num) (dryRun : bool) (limit : option string) : CM (option CollectSummary) :=
  runId ← zoom inCollect (startRun ("collect-leads:" +:+ campaign) dryRun);
  summary ← collectLeads
    {| ca_runId := runId; ca_campaign := campaign; ca_maxLeads := collectLimit limit maxLeadsPerRun;
       ca_nearMeters := nearMeters;
       ca_factsSource := if String.eqb ls_name "mock" then FS_mock else FS_manual |};
  match summary with
  | Some s =>
      zoom inCollect (finishRun runId (if cs_interrupted s then "FAILED" else "COMPLETED")
        (Some (stringify (summaryJson s)))) ;;
      mret (Some s)
  | None => mret None
  end.
