(* ===== verification/Backfill.v ===== *)
(** * Filling in what is missing of a lead

    The backfill of ratings, review counts and phone numbers from Google Place Details:
    which leads it is for (src/domain/lead-facts/backfill-selection.ts) and the command
    (src/cli/commands/places-backfill.ts).  What the command prints is left out. *)
From Stdlib Require QArith.
From S2P Require Import Prelude.
From S2P Require Import JsNumber.
From S2P Require Import JsText.
From S2P Require Import LeadLifecycle.
From S2P Require Import PipelineDb.
From S2P Require Import SystemDb.
From S2P Require Import LeadFacts.
From S2P Require Import PlaceDetails.
From S2P Require Import Qualification.
From S2P Require Import Collect.
Open Scope string_scope.
Open Scope Z_scope.
Open Scope list_scope.

(** ** The selection *)

Definition GOOGLE_PLACES_IDENTITY_FACT_TYPES : list FactType :=
  [FT_business_name; FT_candidate_website_url; FT_formatted_address; FT_city; FT_country; FT_category;
   FT_business_status].
Definition BACKFILL_EXCLUDED_STATUSES : list LeadStatus :=
  [EMAIL_DRAFTED; EMAIL_REVIEW_FAILED; EMAIL_APPROVED; WAITING_FOR_DEMO_URL; FINALIZED_EMAIL_PENDING;
   READY_FOR_HUMAN_APPROVAL; HUMAN_APPROVED; DRAFT_CREATED; SCHEDULED; SENT; REPLIED; UNSUBSCRIBED; BOUNCED; FAILED].
Definition BACKFILL_TERMINAL_STATUSES : list LeadStatus := [REJECTED; REJECTED_AUTOMATICALLY; DUPLICATE].
Definition isExcludedOutreachStatus (status : LeadStatus) : bool := bool_decide (status ∈ BACKFILL_EXCLUDED_STATUSES).
Definition isTerminalStatus (status : LeadStatus) : bool := bool_decide (status ∈ BACKFILL_TERMINAL_STATUSES).
Definition computeMissingBackfillFacts (current : list FactType) : list FactType :=
  List.filter (λ t, negb (bool_decide (t ∈ current))) BACKFILL_FACT_TYPES.

Inductive SkipReason := no_place_id | not_enriched | excluded_outreach_status | terminal_status | lead_not_found.
Record BackfillSelection := { bs_selected : list Lead; bs_skipped : list (string * SkipReason) }.
Definition ineligibleReason (enriched : list string) (l : Lead) : option SkipReason :=
  if negb (truthy_opt (ld_placeId l)) then Some no_place_id
  else if negb (bool_decide (ld_id l ∈ enriched)) then Some not_enriched
  else if isExcludedOutreachStatus (ld_status l) then Some excluded_outreach_status
  else if isTerminalStatus (ld_status l) then Some terminal_status
  else None.

(** [localeCompare], which ECMAScript leaves to the host *)
Class Collation := { localeCompare : string → string → Z }.
Definition byAge `{Collation} (a b : Lead) : Z :=
  let d := ld_createdAt a - ld_createdAt b in if d =? 0 then localeCompare (ld_id a) (ld_id b) else d.
(** The loop over the sorted leads; [room] counts how many may still be selected. *)
Fixpoint selectFrom (enriched : list string) (room : option Z) (s : BackfillSelection) (ordered : list Lead) :
    BackfillSelection :=
  match ordered with
  | [] => s
  | l :: ordered =>
      match ineligibleReason enriched l with
      | Some reason => selectFrom enriched room
          {| bs_selected := bs_selected s; bs_skipped := bs_skipped s ++ [(ld_id l, reason)] |} ordered
      | None =>
          let s := {| bs_selected := bs_selected s ++ [l]; bs_skipped := bs_skipped s |} in
          match room with
          | Some n => if n <=? Z.of_nat (length (bs_selected s)) then s else selectFrom enriched room s ordered
          | None => selectFrom enriched room s ordered
          end
      end
  end.
Definition selectBackfillTargets `{Collation} (all : list Lead) (lead : option string) (limit : option Z)
    (enriched : list string) : BackfillSelection :=
  match lead with
  | Some id =>
      match List.find (λ l, String.eqb (ld_id l) id) all with
      | None => {| bs_selected := []; bs_skipped := [(id, lead_not_found)] |}
      | Some l =>
          match ineligibleReason enriched l with
          | Some reason => {| bs_selected := []; bs_skipped := [(ld_id l, reason)] |}
          | None => {| bs_selected := [l]; bs_skipped := [] |}
          end
      end
  | None => selectFrom enriched limit {| bs_selected := []; bs_skipped := [] |} (sortBy byAge all)
  end.

(** ** The command *)

(** [attemptedLeads] are the leads of [enrichment_attempts]; [detailsReads] is no table: it
    logs the reads that Google charges for. *)
Record BackfillDb := { backfillSystem : SystemDb; attemptedLeads : list string; detailsReads : list string }.
Definition BM : Type → Type := M BackfillDb.
Definition inBackfill : lens BackfillDb SystemDb := Lens backfillSystem (λ s db,
  {| backfillSystem := s; attemptedLeads := attemptedLeads db; detailsReads := detailsReads db |}).
#[global] Instance inBackfill_lawful : LawfulLens inBackfill.
Proof. by split. Qed.
Definition logRead (placeId : string) (db : BackfillDb) : BackfillDb :=
  {| backfillSystem := backfillSystem db; attemptedLeads := attemptedLeads db;
     detailsReads := detailsReads db ++ [placeId] |}.

(** [listEnrichmentEvidenceLeadIds] *)
Definition enrichmentEvidence (db : BackfillDb) : list string :=
  attemptedLeads db ++
  map lf_leadId (List.filter (λ r, lf_isCurrent r && bool_decide (lf_sourceType r = FS_google_places) &&
    bool_decide (lf_factType r ∈ GOOGLE_PLACES_IDENTITY_FACT_TYPES)) (leadFacts (backfillSystem db))).
(** [LeadsRepository.list]: the newest first, rows of one instant in any order *)
Definition recentLeads `{RowOrder} (limit : nat) (db : PipelineDb) : list Lead :=
  take limit (sortBy (λ a b, ld_createdAt b - ld_createdAt a) (rowOrder (map_to_list (leads db)).*2)).

Record BackfillConfig := {
  bc_ALLOW_PAID_READS : bool; bc_DRY_RUN : bool; bc_MAX_REQUESTS : Z; bc_MAX_COST_USD : num;
}.
Record PlacesBackfillOptions := { bo_lead : option string; bo_limit : option string; bo_confirm : bool }.
(** What the command has done: the leads with something missing, the reads and the facts written *)
Record BackfillOutcome := { bk_candidates : list (Lead * list FactType); bk_reads : Z; bk_written : Z }.

Definition backfillLimit (limit : option string) : res (option Z) :=
  match limit with
  | Some t =>
      if truthy t then
        match parseInt10 t with
        | Some n => if n <=? 0 then Throw (AppError "INVALID_LIMIT" "--limit must be a positive integer.") else Ok (Some n)
        | None => Throw (AppError "INVALID_LIMIT" "--limit must be a positive integer.")
        end
      else Ok None
  | None => Ok None
  end.
Definition assertLiveCallsAllowed {DB} (dryRun : bool) (label : string) : M DB () :=
  if dryRun then throw (AppError "DRY_RUN_LIVE_BLOCKED" ("DRY_RUN=true blocks the live paid/network provider " +:+
    String quoteMark label +:+ String quoteMark ". Set DRY_RUN=false for a real run."))
  else mret tt.

Section command.
Context `{Runtime, RowOrder, Collation, UrlLibrary}.
(** The client that the command has constructed or been given, if it has one *)
Context (client : option (string → bool → BM (option PlaceDetails))) (config : BackfillConfig).

Definition missingOf (l : Lead) (db : BackfillDb) : list FactType :=
  computeMissingBackfillFacts (map lf_factType (currentFacts (ld_id l) (backfillSystem db))).
Definition backfillCandidates (opts : PlacesBackfillOptions) (limit : option Z) (db : BackfillDb) :
    list (Lead * list FactType) :=
  let selected := bs_selected (selectBackfillTargets (recentLeads 1000 (pipelineDb (backfillSystem db))) (bo_lead opts)
    limit (enrichmentEvidence db)) in
  List.filter (λ c, negb (bool_decide (c.2 = []))) (map (λ l, (l, missingOf l db)) selected).
(** The paid loop; it stops when the next read would exceed a budget. *)
Fixpoint backfillLoop (details : string → bool → BM (option PlaceDetails)) (cs : list (Lead * list FactType))
    (o : BackfillOutcome) : BM BackfillOutcome :=
  match cs with
  | [] => mret o
  | (l, _) :: cs =>
      if (bc_MAX_REQUESTS config <=? bk_reads o) || ltN (bc_MAX_COST_USD config) (placeDetailsCostUsd (bk_reads o + 1))
      then mret o
      else
        match ld_placeId l with
        | Some placeId =>
            if truthy placeId then
              modify (logRead placeId) ;;
              answer ← details placeId true;
              let o := {| bk_candidates := bk_candidates o; bk_reads := bk_reads o + 1; bk_written := bk_written o |} in
              match answer with
              | None => backfillLoop details cs o
              | Some d =>
                  nowD ← now;
                  r ← zoom inBackfill (backfillMissing (ld_id l) placeId nowD d);
                  backfillLoop details cs {| bk_candidates := bk_candidates o; bk_reads := bk_reads o;
                    bk_written := bk_written o + Z.of_nat (length (br_writtenTypes r)) |}
              end
            else backfillLoop details cs o
        | None => backfillLoop details cs o
        end
  end.
Definition placesBackfillCommand (opts : PlacesBackfillOptions) : BM BackfillOutcome :=
  limit ← lift_res (backfillLimit (bo_limit opts));
  candidates ← query (backfillCandidates opts limit);
  let plan := {| bk_candidates := candidates; bk_reads := 0; bk_written := 0 |} in
  if negb (bo_confirm opts) then mret plan
  else if negb (bc_ALLOW_PAID_READS config) then
    throw (AppError "PAID_READS_DISABLED" "Live backfill requires ALLOW_PAID_READS=true.")
  else
    assertLiveCallsAllowed (bc_DRY_RUN config) "google-places-backfill" ;;
    match client with
    | None => throw (AppError "PLACES_KEY_MISSING" "Live backfill requires GOOGLE_PLACES_API_KEY.")
    | Some details => backfillLoop details candidates plan
    end.
End command.
