(* ===== verification/Prospect.v ===== *)
(** * Prospecting: src/domain/prospect/

    A run asks for the places of a niche around a location and processes them one after
    the other, within budgets and under a circuit breaker, until enough are qualified
    (prospect-service.ts).  The service is generic in what it is given: the resolver, the
    search, the processor and the continuation are parameters; ProspectRun has those that
    the command wires up.  The store is src/persistence/repositories/prospect.repo.ts. *)
From Stdlib Require QArith.
From S2P Require Import Prelude.
From S2P Require Import JsNumber.
From S2P Require Import JsText.
From S2P Require Import LeadLifecycle.
From S2P Require Import PipelineDb.
From S2P Require Import SystemDb.
From S2P Require Import LeadFacts.
From S2P Require Import LeadSource.
From S2P Require Import Qualification.
From S2P Require Import Collect.
Open Scope string_scope.
Open Scope Z_scope.
Open Scope list_scope.

(** ** types.ts *)

Definition PROSPECT_RANKS : list string := ["POPULARITY"; "DISTANCE"].
Inductive ProspectCandidateOutcome :=
  | PO_DISCOVERED | PO_QUALIFIED | PO_DUPLICATE | PO_SUPPRESSED | PO_NO_WEBSITE | PO_CLOSED | PO_WEBSITE_TRANSIENT
  | PO_WEBSITE_INVALID | PO_DISQUALIFIED | PO_MANUAL_REVIEW | PO_SYSTEMIC_FAILURE.
#[global] Instance ProspectCandidateOutcome_eq_dec : EqDecision ProspectCandidateOutcome.
Proof. solve_decision. Defined.
Record ProspectInput := {
  pi_niche : string; pi_location : string; pi_radiusKm : num; pi_targetQualified : num; pi_maxCandidates : num;
  pi_rankPreference : string; pi_latitude : option num; pi_longitude : option num; pi_continuePipeline : bool;
}.
(** What has been validated; its counts are integers. *)
Record ResolvedProspectInput := {
  ri_niche : string; ri_location : string; ri_radiusKm : num; ri_targetQualified : Z; ri_maxCandidates : Z;
  ri_rankPreference : string; ri_latitude : option num; ri_longitude : option num; ri_continuePipeline : bool;
  ri_includedTypes : list string;
}.
Record ResolvedLocation := {
  rl_latitude : num; rl_longitude : num; rl_formattedLocation : string; rl_provider : string; rl_resolvedAt : Z;
  rl_externalRequests : Z;
}.
Record ProspectExternalCalls := {
  ec_locationResolution : Z; ec_nearbySearch : Z; ec_placeDetails : Z; ec_websiteVerification : Z;
}.
Record ProspectCandidateResult := {
  px_outcome : ProspectCandidateOutcome; px_leadId : option string; px_reason : string; px_detailsRequests : Z;
  px_websiteVerifications : Z; px_failureStage : option string; px_failureCode : option string;
  px_failureElapsedMs : option Z;
}.
Inductive ProspectRunResult :=
  | TARGET_REACHED | CANDIDATE_BUDGET_EXHAUSTED | EXTERNAL_BUDGET_EXHAUSTED | RUN_SYSTEMIC_FAILURE.
#[global] Instance ProspectRunResult_eq_dec : EqDecision ProspectRunResult.
Proof. solve_decision. Defined.
Record ProspectRunSummary := {
  ps_runId : string; ps_result : ProspectRunResult; ps_discovered : Z; ps_processed : Z;
  ps_qualifiedLeadIds : list string; ps_externalCalls : ProspectExternalCalls; ps_circuitBreakerReason : option string;
}.

(** ** niches.ts *)

Definition PROSPECT_NICHES : list (string * list string) :=
  [("dentists", ["dentist"; "dental_clinic"]); ("lawyers", ["lawyer"]); ("gyms", ["gym"; "fitness_center"]);
   ("real_estate", ["real_estate_agency"])].
(** [replace(/[\s-]+/g, '_')] *)
Fixpoint underscores (in_run : bool) (s : string) : string :=
  match s with
  | "" => ""
  | String c s =>
      if is_space c || bool_decide (c = "-"%char) then
        if in_run then underscores true s else String "_" (underscores true s)
      else String c (underscores false s)
  end.
(** The properties in lower case that [in] also finds, on the prototype of every object *)
Definition INHERITED : list string := ["constructor"; "__proto__"].
Definition normalizeProspectNiche (v : string) : res string :=
  let normalized := underscores false (toLowerCase (trim v)) in
  if bool_decide (normalized ∈ map fst PROSPECT_NICHES ++ INHERITED) then Ok normalized
  else Throw (AppError "UNKNOWN_PROSPECT_NICHE"
    ("Unknown prospect niche: " +:+ (if truthy normalized then normalized else "[empty]"))).
Definition googleTypesForNiche (v : string) : res (list string) :=
  niche ← normalizeProspectNiche v;
  match List.find (λ n, String.eqb n.1 niche) PROSPECT_NICHES with
  | Some (_, types) => Ok types
  | None => Throw (JsError "PROSPECT_NICHES[normalizeProspectNiche(...)] is not iterable")
  end.

(** ** validation.ts *)

(** [Number.isInteger], with the integer *)
Definition integerN (x : num) : option Z :=
  match x with
  | S754_zero _ => Some 0
  | S754_finite s m e =>
      let signed (n : Z) := if s then - n else n in
      if 0 <=? e then Some (signed (Zpos m * 2 ^ e))
      else if Zpos m mod 2 ^ (- e) =? 0 then Some (signed (Zpos m / 2 ^ (- e))) else None
  | _ => None
  end.
Definition integerWithin (lo hi : Z) (x : num) (code message : string) : res Z :=
  match integerN x with
  | Some n => if (n <? lo) || (hi <? n) then Throw (AppError code message) else Ok n
  | None => Throw (AppError code message)
  end.
Definition finite (x : num) (field : string) : res () :=
  if isFinite x then Ok tt else Throw (AppError "INVALID_PROSPECT_INPUT" (field +:+ " must be finite")).
Definition outside (lo hi : Z) (x : num) : bool := ltN x (ofZ lo) || ltN (ofZ hi) x.
Definition checkPlace (location : string) (latitude longitude : option num) : res () :=
  match latitude, longitude with
  | Some lat, Some lon =>
      _ ← finite lat "latitude";
      _ ← finite lon "longitude";
      if outside (-90) 90 lat || outside (-180) 180 lon
      then Throw (AppError "INVALID_PROSPECT_COORDINATES" "coordinates are outside valid bounds") else Ok tt
  | None, None =>
      if truthy location then Ok tt
      else Throw (AppError "INVALID_PROSPECT_LOCATION" "location is required when coordinates are not supplied")
  | _, _ => Throw (AppError "INVALID_PROSPECT_COORDINATES" "latitude and longitude must be supplied together")
  end.
Definition validateProspectInput (i : ProspectInput) : res ResolvedProspectInput :=
  niche ← normalizeProspectNiche (pi_niche i);
  let location := trim (pi_location i) in
  _ ← finite (pi_radiusKm i) "radiusKm";
  _ ← (if leN (pi_radiusKm i) (ofZ 0) || ltN (ofZ 50) (pi_radiusKm i)
       then Throw (AppError "INVALID_PROSPECT_RADIUS" "radiusKm must be greater than 0 and no more than 50") else Ok tt);
  maxCandidates ← integerWithin 1 20 (pi_maxCandidates i) "INVALID_PROSPECT_CANDIDATE_CAP"
    "maxCandidates must be an integer from 1 to 20";
  target ← integerWithin 1 maxCandidates (pi_targetQualified i) "INVALID_PROSPECT_TARGET"
    "targetQualified must be from 1 to maxCandidates";
  _ ← (if bool_decide (pi_rankPreference i ∈ PROSPECT_RANKS) then Ok tt
       else Throw (AppError "INVALID_PROSPECT_RANK" "rankPreference must be POPULARITY or DISTANCE"));
  _ ← checkPlace location (pi_latitude i) (pi_longitude i);
  types ← googleTypesForNiche niche;
  Ok {| ri_niche := niche; ri_location := location; ri_radiusKm := pi_radiusKm i; ri_targetQualified := target;
        ri_maxCandidates := maxCandidates; ri_rankPreference := pi_rankPreference i; ri_latitude := pi_latitude i;
        ri_longitude := pi_longitude i; ri_continuePipeline := pi_continuePipeline i; ri_includedTypes := types |}.

(** ** circuit-breaker.ts *)

Record Breaker := { cb_sameSignature : Z; cb_lastSignature : option string; cb_consecutiveFast : Z }.
Definition newBreaker : Breaker := {| cb_sameSignature := 0; cb_lastSignature := None; cb_consecutiveFast := 0 |}.
Definition verifierFailure (r : ProspectCandidateResult) : bool :=
  bool_decide (px_outcome r ∈ [PO_WEBSITE_TRANSIENT; PO_WEBSITE_INVALID]).
Definition signature (r : ProspectCandidateResult) : string :=
  default "UNKNOWN" (px_failureStage r) +:+ "|" +:+ default "UNKNOWN" (px_failureCode r).
Definition fastFailure (fastFailureMs : Z) (r : ProspectCandidateResult) : bool :=
  match px_failureElapsedMs r with Some ms => ms <=? fastFailureMs | None => false end.
(** [observe]: the reason, if the breaker trips *)
Definition observe (fastFailureMs : Z) (r : ProspectCandidateResult) (b : Breaker) : option string * Breaker :=
  if negb (verifierFailure r) then (None, newBreaker)
  else
    let same := if bool_decide (Some (signature r) = cb_lastSignature b) then cb_sameSignature b + 1 else 1 in
    let fast := if fastFailure fastFailureMs r then cb_consecutiveFast b + 1 else 0 in
    (if 3 <=? same then Some ("repeated_verifier_failure:" +:+ signature r)
     else if 3 <=? fast then Some "repeated_extremely_fast_verifier_failure" else None,
     {| cb_sameSignature := same; cb_lastSignature := Some (signature r); cb_consecutiveFast := fast |}).

(** ** The store *)

(** [prospect_runs]; the columns that come from the options and the location are kept as
    these.  [prospectResults] and [prospectResultFacts] are the tables of qualification. *)
Record ProspectRunRow := {
  pn_id : string; pn_pipelineRunId : string; pn_options : ResolvedProspectInput; pn_location : ResolvedLocation;
  pn_status : string; pn_result : option ProspectRunResult; pn_qualifiedCount : Z; pn_processedCount : Z;
  pn_externalCalls : ProspectExternalCalls; pn_circuitBreakerReason : option string; pn_discoveredAt : Z;
  pn_completedAt : option Z;
}.
Record ProspectCandidateRow := {
  pc_id : string; pc_prospectRunId : string; pc_placeId : string; pc_position : Z; pc_leadId : option string;
  pc_outcome : ProspectCandidateOutcome; pc_skipReason : option string; pc_websiteFailureStage : option string;
  pc_websiteFailureCode : option string; pc_websiteFailureElapsedMs : option Z; pc_processedAt : option Z;
}.
Record LocationRow := {
  lo_id : string; lo_normalizedLocation : string; lo_formattedLocation : string; lo_latitude : num; lo_longitude : num;
  lo_resolvedAt : Z;
}.
Record ProspectDb := {
  prospectCollect : CollectDb; prospectResults : list (string * QualificationResult);
  prospectResultFacts : list (string * string); prospectRuns : list ProspectRunRow;
  prospectCandidates : list ProspectCandidateRow; prospectLocations : list LocationRow;
}.
Definition XM : Type → Type := M ProspectDb.
Definition onCollect : lens ProspectDb CollectDb := Lens prospectCollect (λ c db,
  {| prospectCollect := c; prospectResults := prospectResults db; prospectResultFacts := prospectResultFacts db;
     prospectRuns := prospectRuns db; prospectCandidates := prospectCandidates db;
     prospectLocations := prospectLocations db |}).
Definition setProspectRuns (f : list ProspectRunRow → list ProspectRunRow) (db : ProspectDb) : ProspectDb :=
  {| prospectCollect := prospectCollect db; prospectResults := prospectResults db;
     prospectResultFacts := prospectResultFacts db; prospectRuns := f (prospectRuns db);
     prospectCandidates := prospectCandidates db; prospectLocations := prospectLocations db |}.
Definition setCandidates (f : list ProspectCandidateRow → list ProspectCandidateRow) (db : ProspectDb) : ProspectDb :=
  {| prospectCollect := prospectCollect db; prospectResults := prospectResults db;
     prospectResultFacts := prospectResultFacts db; prospectRuns := prospectRuns db;
     prospectCandidates := f (prospectCandidates db); prospectLocations := prospectLocations db |}.
Definition addLocation (r : LocationRow) (db : ProspectDb) : ProspectDb :=
  {| prospectCollect := prospectCollect db; prospectResults := prospectResults db;
     prospectResultFacts := prospectResultFacts db; prospectRuns := prospectRuns db;
     prospectCandidates := prospectCandidates db; prospectLocations := prospectLocations db ++ [r] |}.

Definition checkInsertProspectRun (r : ProspectRunRow) (db : ProspectDb) : option error :=
  let o := pn_options r in
  refuse
    [(existsb (λ r', String.eqb (pn_id r') (pn_id r)) (prospectRuns db), uniqueViolation "prospect_runs_pkey");
     (leN (ri_radiusKm o) (ofZ 0) || ltN (ofZ 50) (ri_radiusKm o), checkViolation "prospect_runs_radius_ck");
     ((ri_maxCandidates o <? 1) || (20 <? ri_maxCandidates o), checkViolation "prospect_runs_candidate_cap_ck");
     ((ri_targetQualified o <? 1) || (ri_maxCandidates o <? ri_targetQualified o),
       checkViolation "prospect_runs_target_ck");
     (negb (bool_decide (ri_rankPreference o ∈ PROSPECT_RANKS)), checkViolation "prospect_runs_rank_ck");
     (existsb (λ r', String.eqb (pn_pipelineRunId r') (pn_pipelineRunId r)) (prospectRuns db),
       uniqueViolation "prospect_runs_pipeline_run_uk");
     (negb (bool_decide (is_Some (pipelineRuns (collectSystem (prospectCollect db)) !! pn_pipelineRunId r))),
       foreignKeyViolation "prospect_runs_pipeline_run_id_fkey")].
Definition positionKey (c : ProspectCandidateRow) : string * Z := (pc_prospectRunId c, pc_position c).
Definition placeKey (c : ProspectCandidateRow) : string * string := (pc_prospectRunId c, pc_placeId c).
(** The insertion of several rows by one statement *)
Definition checkInsertCandidates (new : list ProspectCandidateRow) (db : ProspectDb) : option error :=
  let all := prospectCandidates db ++ new in
  refuse
    [(negb (bool_decide (NoDup (map pc_id all))), uniqueViolation "prospect_candidates_pkey");
     (negb (bool_decide (NoDup (map positionKey all))), uniqueViolation "prospect_candidates_run_position_uk");
     (negb (bool_decide (NoDup (map placeKey all))), uniqueViolation "prospect_candidates_run_place_uk");
     (negb (forallb (λ c, existsb (λ r, String.eqb (pn_id r) (pc_prospectRunId c)) (prospectRuns db)) new),
       foreignKeyViolation "prospect_candidates_prospect_run_id_fkey")].

(** What the insertion of a location checks before it looks for a conflict, and after *)
Definition locationRanges (r : LocationRow) : option error :=
  refuse
    [(ltN (lo_latitude r) (ofZ (-90)) || ltN (ofZ 90) (lo_latitude r), checkViolation "prospect_location_cache_latitude_ck");
     (ltN (lo_longitude r) (ofZ (-180)) || ltN (ofZ 180) (lo_longitude r),
       checkViolation "prospect_location_cache_longitude_ck")].
Definition cachedAt (key : string) (db : ProspectDb) : option LocationRow :=
  List.find (λ r, String.eqb (lo_normalizedLocation r) key) (prospectLocations db).
Definition checkInsertLocation (r : LocationRow) (db : ProspectDb) : option error :=
  match locationRanges r with
  | Some e => Some e
  | None => refuse [(negb (bool_decide (is_Some (cachedAt (lo_normalizedLocation r) db))) &&
      existsb (λ r', String.eqb (lo_id r') (lo_id r)) (prospectLocations db), uniqueViolation "prospect_location_cache_pkey")]
  end.

Section store.
Context `{Runtime}.

(** [LocationCache]: an entry counts for thirty days; what is saved never replaces one. *)
Definition LOCATION_CACHE_MS : Z := 30 * 24 * 60 * 60 * 1000.
Definition findLocation (key : string) : XM (option LocationRow) :=
  row ← query (cachedAt key);
  match row with
  | None => mret None
  | Some r => nowD ← now; mret (if LOCATION_CACHE_MS <? nowD - lo_resolvedAt r then None else Some r)
  end.
Definition saveLocation (key formattedLocation : string) (latitude longitude : num) (resolvedAt : Z) : XM () :=
  id ← randomUUID;
  let row := {| lo_id := id; lo_normalizedLocation := key; lo_formattedLocation := formattedLocation;
                lo_latitude := latitude; lo_longitude := longitude; lo_resolvedAt := resolvedAt |} in
  guarded (checkInsertLocation row) (λ db, if bool_decide (is_Some (cachedAt key db)) then db else addLocation row db).

Definition noCalls (location : ResolvedLocation) (nearby : Z) : ProspectExternalCalls :=
  {| ec_locationResolution := rl_externalRequests location; ec_nearbySearch := nearby; ec_placeDetails := 0;
     ec_websiteVerification := 0 |}.
Definition startProspectRun (id pipelineRunId : string) (options : ResolvedProspectInput) (location : ResolvedLocation)
    (discoveredAt : Z) : XM () :=
  let row := {| pn_id := id; pn_pipelineRunId := pipelineRunId; pn_options := options; pn_location := location;
    pn_status := "RUNNING"; pn_result := None; pn_qualifiedCount := 0; pn_processedCount := 0;
    pn_externalCalls := noCalls location 0; pn_circuitBreakerReason := None; pn_discoveredAt := discoveredAt;
    pn_completedAt := None |} in
  guarded (checkInsertProspectRun row) (setProspectRuns (λ l, l ++ [row])).
Definition discoveryQuery (options : ResolvedProspectInput) (location : ResolvedLocation) : json :=
  JObj [("niche", JStr (ri_niche options)); ("includedTypes", JArr (map JStr (ri_includedTypes options)));
        ("center", JObj [("latitude", JReal (rl_latitude location)); ("longitude", JReal (rl_longitude location))]);
        ("radiusKm", JReal (ri_radiusKm options)); ("rankPreference", JStr (ri_rankPreference options));
        ("maxResultCount", JNum (ri_maxCandidates options))].
Definition recordDiscoveryRequest (pipelineRunId campaign : string) (options : ResolvedProspectInput)
    (location : ResolvedLocation) (resultCount startedAt completedAt : Z) : XM string :=
  zoom onCollect (recordRequest pipelineRunId campaign "google_places"
    {| pm_fieldMask := "places.id"; pm_pageIndex := 0; pm_query := discoveryQuery options location;
       pm_resultCount := resultCount; pm_billedTier := Some "Pro"; pm_estimatedCostUsd := None;
       pm_status := if 0 <? resultCount then RS_OK else RS_EMPTY; pm_startedAt := startedAt;
       pm_completedAt := Some completedAt |}).
(** The rows of the places, each with an id of its own *)
Fixpoint candidateRows (runId : string) (position : Z) (placeIds : list string) : XM (list ProspectCandidateRow) :=
  match placeIds with
  | [] => mret []
  | placeId :: placeIds =>
      id ← randomUUID;
      rows ← candidateRows runId (position + 1) placeIds;
      mret ({| pc_id := id; pc_prospectRunId := runId; pc_placeId := placeId; pc_position := position;
               pc_leadId := None; pc_outcome := PO_DISCOVERED; pc_skipReason := None; pc_websiteFailureStage := None;
               pc_websiteFailureCode := None; pc_websiteFailureElapsedMs := None; pc_processedAt := None |} :: rows)
  end.
Definition saveCandidates (runId : string) (placeIds : list string) : XM () :=
  match placeIds with
  | [] => mret tt
  | _ => rows ← candidateRows runId 0 placeIds;
         guarded (checkInsertCandidates rows) (setCandidates (λ l, l ++ rows))
  end.
Definition isCandidate (runId : string) (position : Z) (c : ProspectCandidateRow) : bool :=
  String.eqb (pc_prospectRunId c) runId && (pc_position c =? position).
Definition resolvedCandidate (r : ProspectCandidateResult) (at_ : Z) (c : ProspectCandidateRow) : ProspectCandidateRow :=
  {| pc_id := pc_id c; pc_prospectRunId := pc_prospectRunId c; pc_placeId := pc_placeId c;
     pc_position := pc_position c; pc_leadId := px_leadId r; pc_outcome := px_outcome r;
     pc_skipReason := Some (px_reason r); pc_websiteFailureStage := px_failureStage r;
     pc_websiteFailureCode := px_failureCode r; pc_websiteFailureElapsedMs := px_failureElapsedMs r;
     pc_processedAt := Some at_ |}.
Definition checkUpdateCandidate (runId : string) (position : Z) (r : ProspectCandidateResult) (db : ProspectDb) :
    option error :=
  let updates := existsb (isCandidate runId position) (prospectCandidates db) in
  refuse
    [(updates && match px_failureElapsedMs r with Some ms => ms <? 0 | None => false end,
       checkViolation "prospect_candidates_elapsed_ck");
     (updates && match px_leadId r with
                 | Some l => negb (bool_decide (is_Some (leads (pipelineDb (collectSystem (prospectCollect db))) !! l)))
                 | None => false end,
       foreignKeyViolation "prospect_candidates_lead_id_fkey")].
Definition updateCandidate (runId : string) (position : Z) (r : ProspectCandidateResult) : XM () :=
  nowD ← now;
  guarded (checkUpdateCandidate runId position r)
    (setCandidates (map (λ c, if isCandidate runId position c then resolvedCandidate r nowD c else c))).
Definition finishedRun (result : ProspectRunResult) (qualified processed : Z) (calls : ProspectExternalCalls)
    (reason : option string) (completedAt : Z) (r : ProspectRunRow) : ProspectRunRow :=
  {| pn_id := pn_id r; pn_pipelineRunId := pn_pipelineRunId r; pn_options := pn_options r;
     pn_location := pn_location r;
     pn_status := if bool_decide (result = RUN_SYSTEMIC_FAILURE) then "FAILED" else "COMPLETED";
     pn_result := Some result; pn_qualifiedCount := qualified; pn_processedCount := processed;
     pn_externalCalls := calls; pn_circuitBreakerReason := reason; pn_discoveredAt := pn_discoveredAt r;
     pn_completedAt := Some completedAt |}.
Definition finishProspectRun (runId : string) (result : ProspectRunResult) (qualified processed : Z)
    (calls : ProspectExternalCalls) (reason : option string) (completedAt : Z) : XM () :=
  modify (setProspectRuns (map (λ r, if String.eqb (pn_id r) runId
    then finishedRun result qualified processed calls reason completedAt r else r))).
Definition attachedToOtherActiveRun (placeId currentRunId : string) (db : ProspectDb) : bool :=
  existsb (λ c, String.eqb (pc_placeId c) placeId && negb (String.eqb (pc_prospectRunId c) currentRunId) &&
    existsb (λ r, String.eqb (pn_id r) (pc_prospectRunId c) && String.eqb (pn_status r) "RUNNING") (prospectRuns db))
    (prospectCandidates db).
(** The lead that a place has, by the place or by the lead itself *)
Definition existingLeadForPlace `{RowOrder} (placeId : string) (db : ProspectDb) : option (string * LeadStatus) :=
  let c := prospectCollect db in
  let rows := leads (pipelineDb (collectSystem c)) in
  match placeEntity "google_places" placeId c ≫= λ e, (λ l, (so_leadId e, ld_status l)) <$> rows !! so_leadId e with
  | Some found => Some found
  | None => (λ l, (ld_id l, ld_status l)) <$>
      List.find (λ l, bool_decide (ld_placeId l = Some placeId)) (rowOrder (map_to_list rows).*2)
  end.
End store.

(** ** prospect-service.ts *)

Record ProspectLimits := { pl_maxDetails : Z; pl_maxWebsiteVerifications : Z }.
Record NearbySearchInput := {
  ni_includedTypes : list string; ni_location : ResolvedLocation; ni_radiusKm : num; ni_maxCandidates : Z;
  ni_rankPreference : string;
}.
Record ProcessInput := {
  pr_prospectRunId : string; pr_pipelineRunId : string; pr_sourceRequestId : string; pr_campaign : string;
  pr_niche : string; pr_includedTypes : list string; pr_placeId : string; pr_position : Z;
}.
(** [ProspectLocationResolver], [ProspectNearbySearch], [ProspectCandidateProcessor] and
    [ProspectContinuation], with the limits *)
Record ProspectDeps := {
  dp_resolve : string → XM ResolvedLocation; dp_discover : NearbySearchInput → XM (list string);
  dp_process : ProcessInput → XM ProspectCandidateResult; dp_limits : ProspectLimits;
  dp_continuation : option (string → string → string → XM ());
}.
(** What the loop keeps: [lp_result] is nothing until it has stopped for a reason. *)
Record ProspectLoop := {
  lp_calls : ProspectExternalCalls; lp_qualified : list string; lp_breaker : Breaker; lp_processed : Z;
  lp_result : option ProspectRunResult; lp_reason : option string;
}.
Definition systemicFailure (reason : string) : ProspectCandidateResult :=
  {| px_outcome := PO_SYSTEMIC_FAILURE; px_leadId := None; px_reason := reason; px_detailsRequests := 0;
     px_websiteVerifications := 0; px_failureStage := None; px_failureCode := None; px_failureElapsedMs := None |}.
Definition charge (r : ProspectCandidateResult) (c : ProspectExternalCalls) : ProspectExternalCalls :=
  {| ec_locationResolution := ec_locationResolution c; ec_nearbySearch := ec_nearbySearch c;
     ec_placeDetails := ec_placeDetails c + px_detailsRequests r;
     ec_websiteVerification := ec_websiteVerification c + px_websiteVerifications r |}.
Definition qualifiedLead (r : ProspectCandidateResult) : list string :=
  match px_leadId r with
  | Some l => if bool_decide (px_outcome r = PO_QUALIFIED) && truthy l then [l] else []
  | None => []
  end.
Definition stop (result : ProspectRunResult) (reason : option string) (s : ProspectLoop) : ProspectLoop :=
  {| lp_calls := lp_calls s; lp_qualified := lp_qualified s; lp_breaker := lp_breaker s;
     lp_processed := lp_processed s; lp_result := Some result; lp_reason := reason |}.
(** One pass of the loop, after the candidate has been processed and stored *)
Definition judge (options : ResolvedProspectInput) (r : ProspectCandidateResult) (s : ProspectLoop) : ProspectLoop :=
  let s := {| lp_calls := charge r (lp_calls s); lp_qualified := lp_qualified s ++ qualifiedLead r;
              lp_breaker := lp_breaker s; lp_processed := lp_processed s + 1; lp_result := lp_result s;
              lp_reason := lp_reason s |} in
  if bool_decide (px_outcome r = PO_SYSTEMIC_FAILURE) then stop RUN_SYSTEMIC_FAILURE (Some (px_reason r)) s
  else
    let '(tripped, breaker) := observe 250 r (lp_breaker s) in
    let s := {| lp_calls := lp_calls s; lp_qualified := lp_qualified s; lp_breaker := breaker;
                lp_processed := lp_processed s; lp_result := lp_result s; lp_reason := lp_reason s |} in
    match tripped with
    | Some reason => stop RUN_SYSTEMIC_FAILURE (Some reason) s
    | None =>
        if ri_targetQualified options <=? Z.of_nat (length (lp_qualified s)) then stop TARGET_REACHED (lp_reason s) s
        else s
    end.

Section service.
Context `{Runtime} (deps : ProspectDeps).

Definition budgetExhausted (c : ProspectExternalCalls) : bool :=
  (pl_maxDetails (dp_limits deps) <=? ec_placeDetails c) ||
  (pl_maxWebsiteVerifications (dp_limits deps) <=? ec_websiteVerification c).
Definition processOne (options : ResolvedProspectInput) (i : ProcessInput) (s : ProspectLoop) : XM ProspectLoop :=
  answer ← tryCatch (dp_process deps i);
  let r := match answer with Ok r => r | Throw _ => systemicFailure "candidate_processor_failure" end in
  updateCandidate (pr_prospectRunId i) (pr_position i) r ;;
  mret (judge options r s).
Fixpoint processAll (options : ResolvedProspectInput) (runId pipelineRunId sourceRequestId : string) (position : Z)
    (placeIds : list string) (s : ProspectLoop) : XM ProspectLoop :=
  match placeIds with
  | [] => mret s
  | placeId :: placeIds =>
      if ri_maxCandidates options <=? position then mret s
      else if budgetExhausted (lp_calls s) then mret (stop EXTERNAL_BUDGET_EXHAUSTED None s)
      else
        s ← processOne options
          {| pr_prospectRunId := runId; pr_pipelineRunId := pipelineRunId; pr_sourceRequestId := sourceRequestId;
             pr_campaign := "prospect:" +:+ ri_niche options; pr_niche := ri_niche options;
             pr_includedTypes := ri_includedTypes options; pr_placeId := placeId; pr_position := position |} s;
        match lp_result s with
        | Some _ => mret s
        | None => processAll options runId pipelineRunId sourceRequestId (position + 1) placeIds s
        end
  end.
Definition locate (options : ResolvedProspectInput) : XM ResolvedLocation :=
  match ri_latitude options, ri_longitude options with
  | Some lat, Some lon =>
      nowD ← now;
      mret {| rl_latitude := lat; rl_longitude := lon;
              rl_formattedLocation := if truthy (ri_location options) then ri_location options else "manual coordinates";
              rl_provider := "manual"; rl_resolvedAt := nowD; rl_externalRequests := 0 |}
  | _, _ => dp_resolve deps (ri_location options)
  end.
(** The result that is reported: a run that stopped for no reason of its own has used up
    its candidates, or has left some of them over. *)
Definition finalResult (options : ResolvedProspectInput) (discovered : Z) (s : ProspectLoop) : ProspectRunResult :=
  match lp_result s with
  | Some r => r
  | None =>
      if (Z.of_nat (length (lp_qualified s)) <? ri_targetQualified options) && (lp_processed s <? discovered)
      then EXTERNAL_BUDGET_EXHAUSTED else CANDIDATE_BUDGET_EXHAUSTED
  end.
Definition runProspects (input : ProspectInput) (pipelineRunId : string) : XM ProspectRunSummary :=
  options ← lift_res (validateProspectInput input);
  location ← locate options;
  runId ← randomUUID;
  discoveredAt ← now;
  startProspectRun runId pipelineRunId options location discoveredAt ;;
  startedAt ← now;
  found ← tryCatch (dp_discover deps {| ni_includedTypes := ri_includedTypes options; ni_location := location;
    ni_radiusKm := ri_radiusKm options; ni_maxCandidates := ri_maxCandidates options;
    ni_rankPreference := ri_rankPreference options |});
  match found with
  | Throw _ =>
      completedAt ← now;
      finishProspectRun runId RUN_SYSTEMIC_FAILURE 0 0 (noCalls location 1) (Some "nearby_provider_failure") completedAt ;;
      mret {| ps_runId := runId; ps_result := RUN_SYSTEMIC_FAILURE; ps_discovered := 0; ps_processed := 0;
              ps_qualifiedLeadIds := []; ps_externalCalls := noCalls location 1;
              ps_circuitBreakerReason := Some "nearby_provider_failure" |}
  | Ok placeIds =>
      let discovered := Z.of_nat (length placeIds) in
      completedAt ← now;
      sourceRequestId ← recordDiscoveryRequest pipelineRunId ("prospect:" +:+ ri_niche options) options location
        discovered startedAt completedAt;
      saveCandidates runId placeIds ;;
      s ← processAll options runId pipelineRunId sourceRequestId 0 placeIds
        {| lp_calls := noCalls location 1; lp_qualified := []; lp_breaker := newBreaker; lp_processed := 0;
           lp_result := None; lp_reason := None |};
      let result := finalResult options discovered s in
      endedAt ← now;
      finishProspectRun runId result (Z.of_nat (length (lp_qualified s))) (lp_processed s) (lp_calls s) (lp_reason s)
        endedAt ;;
      (match head (lp_qualified s), dp_continuation deps with
       | Some leadId, Some continue => if ri_continuePipeline options then continue leadId runId pipelineRunId else mret tt
       | _, _ => mret tt
       end) ;;
      mret {| ps_runId := runId; ps_result := result; ps_discovered := discovered; ps_processed := lp_processed s;
              ps_qualifiedLeadIds := lp_qualified s; ps_externalCalls := lp_calls s;
              ps_circuitBreakerReason := lp_reason s |}
  end.
End service.
Definition isCandidateSpecificOutcome (outcome : ProspectCandidateOutcome) : bool :=
  negb (bool_decide (outcome = PO_SYSTEMIC_FAILURE)).
