(* ===== verification/ProspectRun.v ===== *)
(** * What a prospecting run is made of

    The search of Google and its resolver of locations
    (src/integrations/prospect/), the processor of a candidate
    (src/pipeline/prospect-candidate-processor.ts), the checks of a controlled test
    (src/domain/prospect/controlled-test.ts) and the command
    (src/cli/commands/prospect-run.ts).  The verification of websites (domain/enrichment/),
    and the continuations of a run are parameters. *)
From Stdlib Require QArith.
From S2P Require Import Prelude.
From S2P Require Import JsNumber.
From S2P Require Import JsText.
From S2P Require Import JsonText.
From S2P Require Import LeadNormalize.
From S2P Require Import LeadLifecycle.
From S2P Require Import PipelineDb.
From S2P Require Import Suppression.
From S2P Require Import Mime.
From S2P Require Import SystemDb.
From S2P Require Import LeadFacts.
From S2P Require Import LeadSource.
From S2P Require Import PlaceDetails.
From S2P Require Import Qualification.
From S2P Require Import Collect.
From S2P Require Import Prospect.
Open Scope string_scope.
Open Scope Z_scope.
Open Scope list_scope.

(** ** places-transport.ts and nearby-search.ts *)

(** The POST of a body with a field mask; [isAbort] tells a timeout from other failures. *)
Class NearbyTransport := { fetchNearby : nat → string → json → string → res PlacesAnswer; isAbort : error → bool }.
Definition PLACES_NEARBY_SEARCH_URL : string := "https://places.googleapis.com/v1/places:searchNearby".
Definition NEARBY_DISCOVERY_FIELD_MASK : string := "places.id".
Definition providerFailure (e : error) `{NearbyTransport} : error :=
  match e with
  | AppError _ _ => e
  | _ => AppError "PLACES_PROVIDER_FAILURE" (if isAbort e then "Places request timed out" else "Places request failed")
  end.
(** [FetchPlacesTransport.post]: one attempt *)
Definition postPlaces {DB} `{NearbyTransport} (url : string) (body : json) (fieldMask : string) : M DB value :=
  answer ← tryCatch (ask (λ n, fetchNearby n url body fieldMask));
  match answer with
  | Throw e => throw (providerFailure e)
  | Ok a =>
      let status := pa_status a in
      if (200 <=? status) && (status <? 300) then
        match jsonParse (pa_body a) with
        | Some v => mret v
        | None => throw (AppError "PLACES_PROVIDER_FAILURE" "Places request failed")
        end
      else
        let systemic := bool_decide (status ∈ [401; 403; 429]) || (500 <=? status) in
        throw (AppError (if systemic then "PLACES_PROVIDER_FAILURE" else "PLACES_REQUEST_REJECTED")
          ("Places request failed with status " +:+ pretty status))
  end.
Definition nearbyBody (i : NearbySearchInput) : json :=
  JObj [("includedTypes", JArr (map JStr (Prospect.ni_includedTypes i)));
        ("locationRestriction", JObj [("circle", JObj
          [("center", JObj [("latitude", JReal (rl_latitude (ni_location i)));
                            ("longitude", JReal (rl_longitude (ni_location i)))]);
           ("radius", JReal (mulN (ni_radiusKm i) (ofZ 1000)))])]);
        ("maxResultCount", JNum (ni_maxCandidates i)); ("rankPreference", JStr (ni_rankPreference i))].
(** [place.id?.trim()] *)
Definition trimmedId (place : value) : res (option string) :=
  match place with
  | VNull => Throw (JsError "Cannot read properties of null (reading 'id')")
  | _ =>
      match fieldOf place "id" with
      | None | Some VNull => Ok None
      | Some (VStr s) => Ok (Some (trim s))
      | Some _ => Throw (JsError "place.id?.trim is not a function")
      end
  end.
(** The ids in their order, each once; [seen] are those before *)
Fixpoint distinctIds (seen : list string) (places : list value) : res (list string) :=
  match places with
  | [] => Ok []
  | place :: places =>
      id ← trimmedId place;
      match id with
      | Some id => if negb (truthy id) || bool_decide (id ∈ seen) then distinctIds seen places
                   else ids ← distinctIds (id :: seen) places; Ok (id :: ids)
      | None => distinctIds seen places
      end
  end.
Definition nearbyIds (maxCandidates : Z) (data : value) : res (list string) :=
  ids ← match data with
    | VNull => Throw (JsError "Cannot read properties of null (reading 'places')")
    | _ =>
        match fieldOf data "places" with
        | None | Some VNull => Ok []
        | Some (VArr l) => distinctIds [] l
        | Some _ => Throw (JsError "(data.places ?? []).flatMap is not a function")
        end
    end;
  let ids := sliceTo maxCandidates ids in
  if existsb (λ id, (256 <? utf16Length id)%nat) ids
  then Throw (AppError "PLACES_INVALID_RESPONSE" "Nearby response contains an invalid Place ID") else Ok ids.
Definition discoverNearby `{NearbyTransport} (i : NearbySearchInput) : XM (list string) :=
  data ← postPlaces PLACES_NEARBY_SEARCH_URL (nearbyBody i) NEARBY_DISCOVERY_FIELD_MASK;
  lift_res (nearbyIds (ni_maxCandidates i) data).

(** ** location-resolver.ts

    A character beyond ASCII counts as a letter. *)

Definition LOCATION_FIELD_MASK : string :=
  "places.id,places.formattedAddress,places.location,places.addressComponents,places.types".
Definition letterOrNumber (c : ascii) : bool :=
  let n := char_code c in
  ((48 <=? n) && (n <=? 57) || (65 <=? n) && (n <=? 90) || (97 <=? n) && (n <=? 122) || (128 <=? n))%nat.
Definition normalizeLocationQuery (value : string) : string :=
  trim (collapse_runs (λ c, negb (letterOrNumber c)) false (toLowerCase (trim value))).
(** The texts of the address components of a place *)
Fixpoint componentTexts (l : list value) : res (list (option string)) :=
  match l with
  | [] => Ok []
  | VNull :: _ => Throw (JsError "Cannot read properties of null (reading 'longText')")
  | c :: l => texts ← componentTexts l; Ok (asString (fieldOf c "longText") :: asString (fieldOf c "shortText") :: texts)
  end.
Definition searchable (place : value) : res string :=
  texts ← match place return res (list (option string)) with
    | VNull => Throw (JsError "Cannot read properties of null (reading 'formattedAddress')")
    | _ =>
        match fieldOf place "addressComponents" with
        | None | Some VNull => Ok []
        | Some (VArr l) => componentTexts l
        | Some _ => Throw (notAFunction "(place.addressComponents ?? []).flatMap")
        end
    end;
  Ok (normalizeLocationQuery (join " " (List.filter truthy (omap id (asString (fieldOf place "formattedAddress") :: texts))))).
Definition ADMINISTRATIVE : list string :=
  ["locality"; "postal_town"; "administrative_area_level_1"; "administrative_area_level_2"; "administrative_area_level_3"].
Definition isAdministrative (place : value) : res bool :=
  own ← someType ADMINISTRATIVE place;
  if (own : bool) then Ok true
  else
    match fieldOf place "addressComponents" with
    | None | Some VNull => Ok false
    | Some (VArr l) => found ← findComponent ADMINISTRATIVE l; Ok (bool_decide (is_Some found))
    | Some _ => Throw (notAFunction "place.addressComponents?.some")
    end.
Definition locationTokens (key : string) : list string :=
  List.filter (λ t, (2 <=? utf16Length t)%nat) (splitOn " "%char key).
Fixpoint matchingPlaces (tokens : list string) (places : list value) : res (list value) :=
  match places with
  | [] => Ok []
  | place :: places =>
      text ← searchable place;
      administrative ← isAdministrative place;
      rest ← matchingPlaces tokens places;
      Ok (if administrative && forallb (includes text) tokens then place :: rest else rest)
  end.
Definition locationPlaces (data : value) : res (list value) :=
  match data with
  | VNull => Throw (JsError "Cannot read properties of null (reading 'places')")
  | _ =>
      match fieldOf data "places" with
      | None | Some VNull => Ok []
      | Some (VArr l) => Ok l
      | Some _ => Throw (notAFunction "(response.places ?? []).filter")
      end
  end.
(** The one place that matches, with its coordinates *)
Definition resolvedPlace (key : string) (data : value) : res (string * num * num) :=
  places ← locationPlaces data;
  matches ← matchingPlaces (locationTokens key) places;
  match matches with
  | [place] =>
      let coordinate name := asNumber (fieldOf place "location" ≫= λ l, fieldOf l name) in
      match coordinate "latitude", coordinate "longitude", asString (fieldOf place "formattedAddress") with
      | Some lat, Some lon, Some formatted =>
          if isFinite lat && isFinite lon && truthy formatted then Ok (formatted, lat, lon)
          else Throw (AppError "LOCATION_INVALID_RESPONSE" "Resolved location lacks required fields")
      | _, _, _ => Throw (AppError "LOCATION_INVALID_RESPONSE" "Resolved location lacks required fields")
      end
  | [] => Throw (AppError "LOCATION_MISMATCH" "Location could not be resolved unambiguously")
  | _ => Throw (AppError "LOCATION_AMBIGUOUS" "Location could not be resolved unambiguously")
  end.
Definition resolvedFrom (r : LocationRow) : ResolvedLocation :=
  {| rl_latitude := lo_latitude r; rl_longitude := lo_longitude r; rl_formattedLocation := lo_formattedLocation r;
     rl_provider := "google_places"; rl_resolvedAt := lo_resolvedAt r; rl_externalRequests := 0 |}.
Definition resolveLocation `{Runtime, NearbyTransport} (requestedLocation : string) : XM ResolvedLocation :=
  let key := normalizeLocationQuery requestedLocation in
  if negb (truthy key) then throw (AppError "INVALID_PROSPECT_LOCATION" "location is empty")
  else
    cached ← findLocation key;
    match cached with
    | Some r => mret (resolvedFrom r)
    | None =>
        data ← postPlaces PLACES_TEXT_SEARCH_URL
          (JObj [("textQuery", JStr (trim requestedLocation)); ("pageSize", JNum 5)]) LOCATION_FIELD_MASK;
        place ← lift_res (resolvedPlace key data);
        let '((formatted, lat), lon) := place : string * num * num in
        nowD ← now;
        saveLocation key formatted lat lon nowD ;;
        mret {| rl_latitude := lat; rl_longitude := lon; rl_formattedLocation := formatted;
                rl_provider := "google_places"; rl_resolvedAt := nowD; rl_externalRequests := 1 |}
    end.

(** ** prospect-candidate-processor.ts *)

Definition TERMINAL_DISQUALIFIED : list LeadStatus := [DUPLICATE; REJECTED_AUTOMATICALLY; REJECTED; UNSUBSCRIBED; FAILED].
Inductive EnrichmentOutcome :=
  | VERIFIED | ENRICH_AMBIGUOUS | INSUFFICIENT_CONTEXT | NO_CANDIDATE | NO_VERIFIED_CANDIDATE | BROWSER_REQUIRED
  | TRANSIENT_ERROR | POLICY_BLOCKED | INVALID_INPUT.
#[global] Instance EnrichmentOutcome_eq_dec : EqDecision EnrichmentOutcome.
Proof. solve_decision. Defined.
Definition enrichmentText (o : EnrichmentOutcome) : string :=
  match o with
  | VERIFIED => "VERIFIED" | ENRICH_AMBIGUOUS => "AMBIGUOUS" | INSUFFICIENT_CONTEXT => "INSUFFICIENT_CONTEXT"
  | NO_CANDIDATE => "NO_CANDIDATE" | NO_VERIFIED_CANDIDATE => "NO_VERIFIED_CANDIDATE"
  | BROWSER_REQUIRED => "BROWSER_REQUIRED" | TRANSIENT_ERROR => "TRANSIENT_ERROR"
  | POLICY_BLOCKED => "POLICY_BLOCKED" | INVALID_INPUT => "INVALID_INPUT"
  end.
Record Verification := { vf_failureStage : option string; vf_errorCode : option string; vf_elapsedMs : option Z }.
Definition onIntake : lens ProspectDb IntakeDb := Lens
  (λ db, {| systemDb := collectSystem (prospectCollect db); qualificationResults := prospectResults db;
            qualificationResultFacts := prospectResultFacts db |})
  (λ i db, {| prospectCollect := put inCollect (systemDb i) (prospectCollect db);
              prospectResults := qualificationResults i; prospectResultFacts := qualificationResultFacts i;
              prospectRuns := prospectRuns db; prospectCandidates := prospectCandidates db;
              prospectLocations := prospectLocations db |}).
Definition inSystem {A} (m : SM A) : XM A := zoom onCollect (zoom inCollect m).
Definition validWebsite `{UrlLibrary} (text : string) : bool :=
  match parseUrl text with
  | Some u => bool_decide (url_protocol u ∈ ["https:"; "http:"]) && truthy (url_hostname u)
  | None => false
  end.
Definition candidateResult (outcome : ProspectCandidateOutcome) (leadId : option string) (reason : string)
    (details websites : Z) : ProspectCandidateResult :=
  {| px_outcome := outcome; px_leadId := leadId; px_reason := reason; px_detailsRequests := details;
     px_websiteVerifications := websites; px_failureStage := None; px_failureCode := None; px_failureElapsedMs := None |}.
(** What is awaited after so many paid calls: an error ends the processing with their count. *)
Definition failClosed {A} (details websites : Z) (m : XM A) (k : A → XM ProspectCandidateResult) :
    XM ProspectCandidateResult :=
  r ← tryCatch m;
  match r with
  | Ok a => k a
  | Throw _ =>
      mret (candidateResult PO_SYSTEMIC_FAILURE None "database_configuration_or_processing_failure" details websites)
  end.

Section processor.
Context `{Runtime, MathLibrary, RowOrder, UrlLibrary} (nearMeters : num)
  (details : string → bool → XM (option PlaceDetails))
  (enrich : string → string → list LeadFactRow → string → string → XM (EnrichmentOutcome * bool))
  (latestVerification : string → XM (option Verification)).

Definition qualifyProspect (leadId : string) (i : ProcessInput) : XM QualificationResult :=
  nowD ← now;
  zoom onIntake (qualify leadId (pr_campaign i)
    {| Qualification.ni_allowedCategories := pr_includedTypes i; ni_excludeChains := true; ni_chainNames := [] |}
    QUALIFICATION_RULES nowD).
Definition reasonsText (q : QualificationResult) : string := join "; " (q_reasons q).
(** The website of a new lead is verified, and the lead qualified again. *)
Definition verifyWebsite (leadId website : string) (i : ProcessInput) : XM ProspectCandidateResult :=
  failClosed 1 1 (facts ← inSystem (listCurrentFacts leadId);
                  e ← enrich leadId (pr_placeId i) facts website (pr_pipelineRunId i);
                  v ← latestVerification leadId; mret (e, v)) (λ ev,
    let '((outcome, conflict), v) := ev : (EnrichmentOutcome * bool) * option Verification in
    if bool_decide (outcome = VERIFIED) then
      failClosed 1 1 (qualifyProspect leadId i) (λ q,
        mret (candidateResult
          (if bool_decide (q_decision q = ACCEPT) && bool_decide (q_nextStep q = AUDIT) then PO_QUALIFIED
           else if bool_decide (q_decision q = REJECT) then PO_DISQUALIFIED else PO_MANUAL_REVIEW)
          (Some leadId) (reasonsText q) 1 1))
    else mret
      {| px_outcome := if bool_decide (outcome = TRANSIENT_ERROR) then PO_WEBSITE_TRANSIENT
                       else if bool_decide (outcome = ENRICH_AMBIGUOUS) || conflict then PO_MANUAL_REVIEW
                       else PO_WEBSITE_INVALID;
         px_leadId := Some leadId; px_reason := "website_verification:" +:+ enrichmentText outcome;
         px_detailsRequests := 1; px_websiteVerifications := 1; px_failureStage := v ≫= vf_failureStage;
         px_failureCode := v ≫= vf_errorCode; px_failureElapsedMs := v ≫= vf_elapsedMs |}).
Definition screenDetails (leadId : string) (d : PlaceDetails) (i : ProcessInput) : XM ProspectCandidateResult :=
  failClosed 1 0 (nowD ← now; _ ← inSystem (persistDetails leadId (pr_placeId i) nowD d false);
                  qualifyProspect leadId i) (λ q,
    let result outcome reason := mret (candidateResult outcome (Some leadId) reason 1 0) in
    let website := default "" (trim <$> dt_websiteUri d) in
    if bool_decide ("gate.suppressed" ∈ q_triggeredRules q) then result PO_SUPPRESSED "business_or_domain_suppressed"
    else if bool_decide ("gate.permanentlyClosed" ∈ q_triggeredRules q)
    then result PO_CLOSED "business_closed_permanently"
    else if bool_decide (q_decision q = REJECT) then result PO_DISQUALIFIED (reasonsText q)
    else if negb (truthy website) then result PO_NO_WEBSITE "place_details_has_no_website"
    else if negb (validWebsite website) then result PO_WEBSITE_INVALID "invalid_candidate_website_url"
    else verifyWebsite leadId website i).
Definition collectPlace (i : ProcessInput) : XM CandidateOutcome :=
  zoom onCollect (transaction (nowD ← now; processCandidate
    {| ca_runId := pr_pipelineRunId i; ca_campaign := pr_campaign i; ca_maxLeads := Some 1; ca_nearMeters := nearMeters;
       ca_factsSource := FS_manual |}
    "google_places" {| rc_sourcePlaceId := pr_placeId i; rc_facts := None |} (pr_sourceRequestId i) nowD)).
Definition processPlace (i : ProcessInput) : XM ProspectCandidateResult :=
  failClosed 0 0 (query (attachedToOtherActiveRun (pr_placeId i) (pr_prospectRunId i))) (λ attached,
  if attached then mret (candidateResult PO_DUPLICATE None "attached_to_another_active_run" 0 0)
  else failClosed 0 0 (query (existingLeadForPlace (pr_placeId i))) (λ existing,
  match existing with
  | Some (leadId, status) =>
      mret (if bool_decide (status ∈ TERMINAL_DISQUALIFIED)
            then candidateResult PO_DISQUALIFIED (Some leadId) "terminal_disqualification_exists" 0 0
            else candidateResult PO_DUPLICATE (Some leadId) "place_id_already_exists" 0 0)
  | None =>
      failClosed 0 0 (inSystem (zoom onPipeline (isIdentitySuppressed
        {| ii_placeId := Some (pr_placeId i); ii_businessName := None; ii_websiteUrl := None |}))) (λ suppressed,
      if suppressed then mret (candidateResult PO_SUPPRESSED None "place_id_suppressed" 0 0)
      else failClosed 0 0 (collectPlace i) (λ collected,
      match co_leadId collected with
      | Some leadId =>
          if negb (truthy leadId) || negb (bool_decide (co_result collected = CR_CREATED))
          then mret (candidateResult PO_DUPLICATE (Some leadId) "candidate_not_created" 0 0)
          else
            answer ← tryCatch (details (pr_placeId i) false);
            match answer with
            | Throw _ => mret (candidateResult PO_SYSTEMIC_FAILURE (Some leadId) "place_details_provider_failure" 1 0)
            | Ok None => mret (candidateResult PO_SYSTEMIC_FAILURE (Some leadId) "place_details_missing_response" 1 0)
            | Ok (Some d) => screenDetails leadId d i
            end
      | None => mret (candidateResult PO_DUPLICATE None "candidate_not_created" 0 0)
      end))
  end)).
End processor.

(** ** controlled-test.ts *)

Definition CONTROLLED_TEST_RECIPIENT_ENV : string := "TEST_RECIPIENT_EMAIL".
Definition CONTROLLED_TEST_TTL_MS : Z := 15 * 60000.
Definition refuseUnless (ok : bool) (reason : string) : res () := if ok then Ok tt else Throw (JsError reason).
Definition normalizeControlledRecipient (v : string) : res string :=
  let normalized := toLowerCase (trim v) in
  if email_re_test normalized then Ok normalized else Throw (JsError "controlled_test_recipient_invalid").
Definition controlledRecipientFingerprint `{Runtime} (v : string) : res string :=
  normalized ← normalizeControlledRecipient v; Ok (sha256Hex normalized).
Definition assertControlledDraftRecipient (configuredRecipient proposedRecipient : string) : res string :=
  configured ← normalizeControlledRecipient configuredRecipient;
  proposed ← normalizeControlledRecipient proposedRecipient;
  if String.eqb configured proposed then Ok configured
  else Throw (JsError "controlled_test_recipient_changed_before_draft").
Definition bindingMismatch : error := JsError "controlled_test_gmail_draft_binding_mismatch".
Definition assertControlledGmailDraftBinding (providerDraftId : option string) (recipientEmail : string)
    (resultProviderDraftId : option string) (expectedRecipient : string) : res () :=
  if negb (truthy_opt resultProviderDraftId) || negb (bool_decide (providerDraftId = resultProviderDraftId))
  then Throw bindingMismatch
  else
    stored ← normalizeControlledRecipient recipientEmail;
    expected ← normalizeControlledRecipient expectedRecipient;
    if String.eqb stored expected then Ok tt else Throw bindingMismatch.
(** [replace(/\r\n/g, '\n')] *)
Fixpoint unixLines (s : string) : string :=
  match s with
  | String c (String d s' as rest) =>
      if bool_decide (c = ascii_of_nat 13) && bool_decide (d = ascii_of_nat 10) then String d (unixLines s')
      else String c (unixLines rest)
  | s => s
  end.
Definition controlledEmailArtifactHash `{Runtime} (subject body : string) : string :=
  sha256Hex (trim (unixLines subject) +:+ String (ascii_of_nat 10) (trim (unixLines body))).

(** ** The command *)

Record ProspectConfig := {
  xc_PROSPECT_DISCOVERY_ENABLED : bool; xc_ALLOW_PAID_READS : bool; xc_DRY_RUN : bool;
  xc_GOOGLE_PLACES_API_KEY : option string; xc_PROSPECT_CONTINUE_PIPELINE : bool; xc_SENDING_ENABLED : bool;
  xc_OUTBOUND_ACTIONS_ENABLED : bool; xc_SCHEDULING_ENABLED : bool; xc_PROSPECT_MAX_CANDIDATES_PER_RUN : Z;
  xc_PROSPECT_TARGET_QUALIFIED_PER_RUN : Z; xc_PROSPECT_RANK_PREFERENCE : string; xc_limits : ProspectLimits;
  xc_TEST_RECIPIENT_EMAIL : option string; xc_LLM_PROVIDER : string; xc_OPENAI_API_KEY : option string;
  xc_NETLIFY_AUTH_TOKEN : option string; xc_NETLIFY_SITE_ID : option string;
  xc_NETLIFY_EXPECTED_HOSTNAME : option string; xc_GMAIL_ACCOUNT_EMAIL : option string;
  xc_GMAIL_SENDER_NAME : option string; xc_GMAIL_CREDENTIALS_FILE : string; xc_GMAIL_OAUTH_CLIENT_FILE : string;
  xc_GMAIL_OAUTH_CLIENT_ID : option string; xc_GMAIL_OAUTH_CLIENT_SECRET : option string;
}.
Record ProspectRunCliOptions := {
  xo_niche : string; xo_location : option string; xo_radiusKm : string; xo_targetQualified : option string;
  xo_maxCandidates : option string; xo_rank : option string; xo_latitude : option string; xo_longitude : option string;
  xo_continuePipeline : bool; xo_controlledTest : bool; xo_testRecipientEnv : option string;
  xo_autoApproveTestArtifacts : bool;
}.
Definition numberOf (v : option string) (fallback : Z) : num :=
  match v with Some t => toNumber t | None => ofZ fallback end.
Definition assertControlledTestPreflight (cli : ProspectRunCliOptions) (c : ProspectConfig) (targetQualified : num) :
    res string :=
  _ ← refuseUnless (xo_continuePipeline cli) "controlled_test_requires_continue_pipeline";
  _ ← refuseUnless (xo_autoApproveTestArtifacts cli) "controlled_test_requires_auto_approve_test_artifacts";
  _ ← refuseUnless (bool_decide (xo_testRecipientEnv cli = Some CONTROLLED_TEST_RECIPIENT_ENV))
    "controlled_test_recipient_env_not_allowed";
  _ ← refuseUnless (truthy_opt (xc_TEST_RECIPIENT_EMAIL c)) "controlled_test_recipient_missing";
  _ ← refuseUnless (xc_DRY_RUN c) "controlled_test_requires_dry_run";
  _ ← refuseUnless (negb (xc_SENDING_ENABLED c)) "controlled_test_requires_sending_disabled";
  _ ← refuseUnless (negb (xc_OUTBOUND_ACTIONS_ENABLED c)) "controlled_test_requires_outbound_disabled";
  _ ← refuseUnless (bool_decide (integerN targetQualified = Some 1)) "controlled_test_requires_one_qualified_lead";
  normalizeControlledRecipient (default "" (xc_TEST_RECIPIENT_EMAIL c)).
Definition assertControlledExistingLeadPreflight (stopAfterDraft autoApproveTestArtifacts : bool)
    (recipientEnvName : option string) (c : ProspectConfig) : res string :=
  _ ← refuseUnless stopAfterDraft "controlled_existing_lead_requires_stop_after_draft";
  _ ← refuseUnless autoApproveTestArtifacts "controlled_test_requires_auto_approve_test_artifacts";
  _ ← refuseUnless (bool_decide (recipientEnvName = Some CONTROLLED_TEST_RECIPIENT_ENV))
    "controlled_test_recipient_env_not_allowed";
  _ ← refuseUnless (truthy_opt (xc_TEST_RECIPIENT_EMAIL c)) "controlled_test_recipient_missing";
  _ ← refuseUnless (negb (xc_DRY_RUN c)) "controlled_existing_lead_requires_live_artifact_mode";
  _ ← refuseUnless (negb (xc_SENDING_ENABLED c)) "controlled_test_requires_sending_disabled";
  _ ← refuseUnless (negb (xc_OUTBOUND_ACTIONS_ENABLED c)) "controlled_test_requires_outbound_disabled";
  _ ← refuseUnless (negb (xc_SCHEDULING_ENABLED c)) "controlled_existing_lead_requires_scheduling_disabled";
  normalizeControlledRecipient (default "" (xc_TEST_RECIPIENT_EMAIL c)).
(** [assertControlledProviderConfig] and [withControlledTestGates] of
    prospect-controlled-test.ts; of the gates, those that this command reads *)
Definition assertControlledProviderConfig (fileExists : string → bool) (c : ProspectConfig) : res () :=
  let need (ok : bool) (name : string) := if ok then [] else [name] in
  let missing :=
    need (truthy_opt (xc_GOOGLE_PLACES_API_KEY c)) "GOOGLE_PLACES_API_KEY" ++
    need (String.eqb (xc_LLM_PROVIDER c) "openai") "LLM_PROVIDER=openai" ++
    need (truthy_opt (xc_OPENAI_API_KEY c)) "OPENAI_API_KEY" ++
    need (truthy_opt (xc_NETLIFY_AUTH_TOKEN c)) "NETLIFY_AUTH_TOKEN" ++
    need (truthy_opt (xc_NETLIFY_SITE_ID c)) "NETLIFY_SITE_ID" ++
    need (truthy_opt (xc_NETLIFY_EXPECTED_HOSTNAME c)) "NETLIFY_EXPECTED_HOSTNAME" ++
    need (truthy_opt (xc_GMAIL_ACCOUNT_EMAIL c)) "GMAIL_ACCOUNT_EMAIL" ++
    need (truthy_opt (xc_GMAIL_SENDER_NAME c)) "GMAIL_SENDER_NAME" ++
    need (fileExists (xc_GMAIL_CREDENTIALS_FILE c)) "GMAIL_CREDENTIALS_FILE" ++
    need (fileExists (xc_GMAIL_OAUTH_CLIENT_FILE c) ||
          truthy_opt (xc_GMAIL_OAUTH_CLIENT_ID c) && truthy_opt (xc_GMAIL_OAUTH_CLIENT_SECRET c)) "GMAIL_OAUTH_CLIENT_FILE" in
  refuseUnless (bool_decide (missing = [])) ("controlled_test_configuration_missing:" +:+ join "," missing).
Definition withGates (c : ProspectConfig) : ProspectConfig :=
  {| xc_PROSPECT_DISCOVERY_ENABLED := true; xc_ALLOW_PAID_READS := true; xc_DRY_RUN := xc_DRY_RUN c;
     xc_GOOGLE_PLACES_API_KEY := xc_GOOGLE_PLACES_API_KEY c; xc_PROSPECT_CONTINUE_PIPELINE := true;
     xc_SENDING_ENABLED := xc_SENDING_ENABLED c; xc_OUTBOUND_ACTIONS_ENABLED := xc_OUTBOUND_ACTIONS_ENABLED c;
     xc_SCHEDULING_ENABLED := true; xc_PROSPECT_MAX_CANDIDATES_PER_RUN := xc_PROSPECT_MAX_CANDIDATES_PER_RUN c;
     xc_PROSPECT_TARGET_QUALIFIED_PER_RUN := xc_PROSPECT_TARGET_QUALIFIED_PER_RUN c;
     xc_PROSPECT_RANK_PREFERENCE := xc_PROSPECT_RANK_PREFERENCE c; xc_limits := xc_limits c;
     xc_TEST_RECIPIENT_EMAIL := xc_TEST_RECIPIENT_EMAIL c; xc_LLM_PROVIDER := xc_LLM_PROVIDER c;
     xc_OPENAI_API_KEY := xc_OPENAI_API_KEY c; xc_NETLIFY_AUTH_TOKEN := xc_NETLIFY_AUTH_TOKEN c;
     xc_NETLIFY_SITE_ID := xc_NETLIFY_SITE_ID c; xc_NETLIFY_EXPECTED_HOSTNAME := xc_NETLIFY_EXPECTED_HOSTNAME c;
     xc_GMAIL_ACCOUNT_EMAIL := xc_GMAIL_ACCOUNT_EMAIL c; xc_GMAIL_SENDER_NAME := xc_GMAIL_SENDER_NAME c;
     xc_GMAIL_CREDENTIALS_FILE := xc_GMAIL_CREDENTIALS_FILE c; xc_GMAIL_OAUTH_CLIENT_FILE := xc_GMAIL_OAUTH_CLIENT_FILE c;
     xc_GMAIL_OAUTH_CLIENT_ID := xc_GMAIL_OAUTH_CLIENT_ID c;
     xc_GMAIL_OAUTH_CLIENT_SECRET := xc_GMAIL_OAUTH_CLIENT_SECRET c |}.
Definition withControlledTestGates {A} (c : ProspectConfig) (fn : ProspectConfig → XM A) : XM A :=
  let c := withGates c in
  if xc_SENDING_ENABLED c || xc_OUTBOUND_ACTIONS_ENABLED c then throw (JsError "controlled_test_kill_switch_changed")
  else if negb (xc_DRY_RUN c) then throw (JsError "controlled_test_dry_run_mode_changed")
  else fn c.

Definition callsJson (c : ProspectExternalCalls) : json :=
  JObj [("locationResolution", JNum (ec_locationResolution c)); ("nearbySearch", JNum (ec_nearbySearch c));
        ("placeDetails", JNum (ec_placeDetails c)); ("websiteVerification", JNum (ec_websiteVerification c))].
Definition runResultText (r : ProspectRunResult) : string :=
  match r with
  | TARGET_REACHED => "TARGET_REACHED" | CANDIDATE_BUDGET_EXHAUSTED => "CANDIDATE_BUDGET_EXHAUSTED"
  | EXTERNAL_BUDGET_EXHAUSTED => "EXTERNAL_BUDGET_EXHAUSTED" | RUN_SYSTEMIC_FAILURE => "SYSTEMIC_FAILURE"
  end.
Definition prospectSummaryJson (s : ProspectRunSummary) : json :=
  JObj [("runId", JStr (ps_runId s)); ("result", JStr (runResultText (ps_result s)));
        ("discovered", JNum (ps_discovered s)); ("processed", JNum (ps_processed s));
        ("qualifiedLeadIds", JArr (map JStr (ps_qualifiedLeadIds s))); ("externalCalls", callsJson (ps_externalCalls s));
        ("circuitBreakerReason", json_opt (ps_circuitBreakerReason s))].
Definition prospectInput (cli : ProspectRunCliOptions) (c : ProspectConfig) : ProspectInput :=
  {| pi_niche := xo_niche cli; pi_location := default "" (xo_location cli);
     pi_radiusKm := numberOf (Some (xo_radiusKm cli)) 0;
     pi_targetQualified := numberOf (xo_targetQualified cli) (xc_PROSPECT_TARGET_QUALIFIED_PER_RUN c);
     pi_maxCandidates := numberOf (xo_maxCandidates cli) (xc_PROSPECT_MAX_CANDIDATES_PER_RUN c);
     pi_rankPreference := match xo_rank cli with Some r => toUpperCase r | None => xc_PROSPECT_RANK_PREFERENCE c end;
     pi_latitude := toNumber <$> xo_latitude cli; pi_longitude := toNumber <$> xo_longitude cli;
     pi_continuePipeline := xo_continuePipeline cli |}.

Section command.
Context `{Runtime, MathLibrary, RowOrder, UrlLibrary, NearbyTransport} (nearMeters : num) (fileExists : string → bool)
  (details : string → bool → XM (option PlaceDetails))
  (enrich : string → string → list LeadFactRow → string → string → XM (EnrichmentOutcome * bool))
  (latestVerification : string → XM (option Verification))
  (continuation : option string → string → string → string → XM ()).

Definition productionDeps (c : ProspectConfig) (controlledRecipient : option string) (continuePipeline : bool) :
    ProspectDeps :=
  {| dp_resolve := resolveLocation; dp_discover := discoverNearby;
     dp_process := processPlace nearMeters details enrich latestVerification; dp_limits := xc_limits c;
     dp_continuation := if continuePipeline then Some (continuation controlledRecipient) else None |}.
(** [runProspect]: nothing when a gate is closed *)
Definition runProspect (c : ProspectConfig) (cli : ProspectRunCliOptions) (controlledRecipient : option string) :
    XM (option ProspectRunSummary) :=
  if negb (xc_PROSPECT_DISCOVERY_ENABLED c) then mret None
  else if negb (xc_ALLOW_PAID_READS c) then mret None
  else if xc_DRY_RUN c then mret None
  else if negb (truthy_opt (xc_GOOGLE_PLACES_API_KEY c)) then mret None
  else if xo_continuePipeline cli && negb (xc_PROSPECT_CONTINUE_PIPELINE c) then mret None
  else
    let input := prospectInput cli c in
    options ← lift_res (validateProspectInput input);
    if (xc_PROSPECT_MAX_CANDIDATES_PER_RUN c <? ri_maxCandidates options) ||
       (xc_PROSPECT_TARGET_QUALIFIED_PER_RUN c <? ri_targetQualified options)
    then throw (JsError "requested prospect limits exceed configured caps")
    else
      pipelineRunId ← inSystem (startRun ("prospect:" +:+ ri_niche options) (xc_DRY_RUN c));
      answer ← tryCatch (
        summary ← runProspects (productionDeps c controlledRecipient (ri_continuePipeline options))
          {| pi_niche := ri_niche options; pi_location := ri_location options; pi_radiusKm := ri_radiusKm options;
             pi_targetQualified := pi_targetQualified input; pi_maxCandidates := pi_maxCandidates input;
             pi_rankPreference := ri_rankPreference options; pi_latitude := ri_latitude options;
             pi_longitude := ri_longitude options; pi_continuePipeline := ri_continuePipeline options |} pipelineRunId;
        inSystem (finishRun pipelineRunId
          (if bool_decide (ps_result summary = RUN_SYSTEMIC_FAILURE) then "FAILED" else "COMPLETED")
          (Some (stringify (prospectSummaryJson summary)))) ;;
        mret summary);
      match answer with
      | Ok summary => mret (Some summary)
      | Throw e =>
          inSystem (finishRun pipelineRunId "FAILED" (Some "prospect run failed closed")) ;;
          throw e
      end.
Definition prospectRunCommand (c : ProspectConfig) (cli : ProspectRunCliOptions) : XM (option ProspectRunSummary) :=
  let targetQualified := numberOf (xo_targetQualified cli) (xc_PROSPECT_TARGET_QUALIFIED_PER_RUN c) in
  if xo_controlledTest cli then
    recipient ← lift_res (assertControlledTestPreflight cli c targetQualified);
    lift_res (assertControlledProviderConfig fileExists c) ;;
    withControlledTestGates c (λ c, runProspect c cli (Some recipient))
  else runProspect c cli None.
End command.
