(* ===== verification/Contacts.v ===== *)
(** * Who may be written to

    The addresses of people and of businesses that outreach may use: the trust boundary for
    what a paid provider returns (src/domain/contact-enrichment/verification.ts), the
    candidates (candidate-parsing.ts), and the official inbox that may take the place of a
    person (src/domain/contact-resolution/). *)
From Stdlib Require QArith.
From S2P Require Import Prelude.
From S2P Require Import JsNumber.
From S2P Require Import JsText.
From S2P Require Import LeadNormalize.
From S2P Require Import Mime.
From S2P Require Import PipelineDb.
From S2P Require Import SystemDb.
From S2P Require Import LeadFacts.
From S2P Require Import Backfill.
Open Scope string_scope.
Open Scope Z_scope.
Open Scope list_scope.

(** ** [split] by a class of characters *)

(** [s.split(/[...]+/)] *)
Fixpoint splitRuns (f : ascii → bool) (in_run : bool) (s : string) : list string :=
  match s with
  | "" => [""]
  | String c s =>
      if f c then if in_run then splitRuns f true s else "" :: splitRuns f true s
      else match splitRuns f false s with [] => [] | word :: words => String c word :: words end
  end.
(** [s.split(/[...]/)[0]] *)
Fixpoint upToAny (f : ascii → bool) (s : string) : string :=
  match s with "" => "" | String c s => if f c then "" else String c (upToAny f s) end.
(** The text before and after the last occurrence *)
Fixpoint cutAtLast (sep : ascii) (s : string) : option (string * string) :=
  match s with
  | "" => None
  | String c s =>
      match cutAtLast sep s with
      | Some (before, after) => Some (String c before, after)
      | None => if bool_decide (c = sep) then Some ("", s) else None
      end
  end.

(** ** contact-enrichment/types.ts *)

Record CandidatePerson := {
  cp_fullName : string; cp_firstName : string; cp_lastName : string; cp_title : string; cp_priority : Z;
}.
Record EnrichmentQuery := { eq_domain : string; eq_person : CandidatePerson; eq_providerLeadId : option string }.
Inductive EnrichmentVerificationStatus :=
  | EV_VERIFIED | EV_RISKY | EV_CATCH_ALL | EV_INVALID | EV_UNKNOWN | EV_GENERIC_REJECTED | EV_NOT_FOUND.
#[global] Instance EnrichmentVerificationStatus_eq_dec : EqDecision EnrichmentVerificationStatus.
Proof. solve_decision. Defined.
Definition verificationStatusText (s : EnrichmentVerificationStatus) : string :=
  match s with
  | EV_VERIFIED => "VERIFIED" | EV_RISKY => "RISKY" | EV_CATCH_ALL => "CATCH_ALL" | EV_INVALID => "INVALID"
  | EV_UNKNOWN => "UNKNOWN" | EV_GENERIC_REJECTED => "GENERIC_REJECTED" | EV_NOT_FOUND => "NOT_FOUND"
  end.
Record ReturnedIdentity := {
  id_name : option string; id_firstName : option string; id_lastName : option string; id_domain : option string;
  id_title : option string;
}.
Record PreviewPerson := { pp_identity : ReturnedIdentity; pp_providerLeadId : option string }.
Record ProviderEnrichmentOutcome := {
  po_email : option string; po_returnedIdentity : option ReturnedIdentity;
  po_verificationStatus : EnrichmentVerificationStatus; po_dataQuality : option string; po_confidence : option num;
  po_creditsReported : option num; po_resourceId : option string; po_endpoint : string; po_rawDigest : string;
  po_requestsUsed : option Z; po_creditsUsed : option Z;
}.
(** The contact that is accepted; its status is VERIFIED. *)
Record VerifiedContact := {
  vc_fullName : string; vc_title : string; vc_email : string; vc_dataQuality : option string; vc_confidence : option num;
}.

(** ** candidate-parsing.ts *)

Definition HONORIFICS : list string := ["dr"; "dr."; "mr"; "mr."; "mrs"; "mrs."; "ms"; "ms."; "prof"; "prof."; "miss"].
Definition quoteText (s : string) : string := String quoteMark (s +:+ String quoteMark "").
Definition buildCandidatePerson (fullName title : string) (priority : Z) : res CandidatePerson :=
  let name := trim fullName in
  let t := trim title in
  if negb (truthy name) || negb (truthy t)
  then Throw (AppError "BAD_CANDIDATE" ("Candidate name and title must both be non-empty (got name=" +:+
    quoteText fullName +:+ ", title=" +:+ quoteText title +:+ ")."))
  else
    let tokens := List.filter (λ tok, negb (bool_decide (toLowerCase tok ∈ HONORIFICS))) (splitRuns is_space false name) in
    let lastName := if (1 <? length tokens)%nat then default "" (last tokens) else "" in
    if truthy lastName then
      Ok {| cp_fullName := name; cp_firstName := default name (head tokens); cp_lastName := lastName; cp_title := t;
            cp_priority := priority |}
    else Throw (AppError "BAD_CANDIDATE" ("Cannot derive a last name from " +:+ quoteText fullName +:+ ".")).

(** ** verification.ts *)

Definition GENERIC_LOCAL_PARTS : list string :=
  ["info"; "admin"; "office"; "reception"; "hello"; "contact"; "enquiries"; "enquiry"; "support"; "help"; "team"; "mail";
   "email"; "sales"; "bookings"; "booking"; "appointments"; "appointment"; "practice"; "frontdesk"; "front-desk";
   "noreply"; "no-reply"; "donotreply"].
Definition TITLE_STOPWORDS : list string := ["the"; "of"; "and"; "a"; "an"; "&"; "at"; "our"].
Inductive TitleMatch := TM_match | TM_mismatch | TM_unconfirmed.
#[global] Instance TitleMatch_eq_dec : EqDecision TitleMatch.
Proof. solve_decision. Defined.
Record FieldMatch := { fm_name : bool; fm_domain : bool; fm_title : TitleMatch }.
Inductive AcceptanceDecision :=
  | Accepted (contact : VerifiedContact) (match_ : FieldMatch) | Refused (reason : string) (match_ : FieldMatch).
Definition norm (s : option string) : string := toLowerCase (trim (default "" s)).
Definition hostOf (email : string) : string :=
  match cutAt "@" email with Some (_, rest) => toLowerCase (upTo "@" rest) | None => "" end.
Definition stripWww (d : string) : string := withoutPrefix "www." d.
Definition isGenericMailbox (email : string) : bool :=
  let local := toLowerCase (upTo "@" email) in
  bool_decide (local ∈ GENERIC_LOCAL_PARTS) ||
  bool_decide (upToAny (λ c, bool_decide (c ∈ ["+"; "."; "_"; "-"]%char)) local ∈ GENERIC_LOCAL_PARTS).
Definition nameMatches (i : ReturnedIdentity) (p : CandidatePerson) : bool :=
  let wantFirst := norm (Some (cp_firstName p)) in
  let wantLast := norm (Some (cp_lastName p)) in
  if truthy_opt (id_firstName i) && truthy_opt (id_lastName i)
  then String.eqb (norm (id_firstName i)) wantFirst && String.eqb (norm (id_lastName i)) wantLast
  else
    let full := norm (id_name i) in
    if negb (truthy full) then false
    else
      let tokens := splitRuns is_space false full in
      bool_decide (wantFirst ∈ tokens) && bool_decide (wantLast ∈ tokens).
Definition domainMatches (i : ReturnedIdentity) (email requestedDomain : string) : bool :=
  let want := stripWww (norm (Some requestedDomain)) in
  let fromIdentity := stripWww (norm (id_domain i)) in
  String.eqb (stripWww (hostOf email)) want || negb (String.eqb fromIdentity "") && String.eqb fromIdentity want.
(** The words of a title that tell something *)
Definition significant (s : string) : list string :=
  List.filter (λ t, (2 <? String.length t)%nat && negb (bool_decide (t ∈ TITLE_STOPWORDS)))
    (splitRuns (λ c, let n := char_code c in negb ((97 <=? n) && (n <=? 122))%nat) false s).
Definition titleMatch (i : ReturnedIdentity) (p : CandidatePerson) : TitleMatch :=
  let got := norm (id_title i) in
  if negb (truthy got) then TM_unconfirmed
  else
    let want := significant (norm (Some (cp_title p))) in
    let have := significant got in
    match want with
    | [] => TM_unconfirmed
    | _ => if existsb (λ t, bool_decide (t ∈ have)) want then TM_match else TM_mismatch
    end.
(** [matchPreviewPerson], with whether it is a match *)
Definition matchPreviewPerson (i : ReturnedIdentity) (p : CandidatePerson) (requestedDomain : string) :
    FieldMatch * bool :=
  let name := nameMatches i p in
  let want := stripWww (norm (Some requestedDomain)) in
  let domain := if truthy_opt (id_domain i) then String.eqb (stripWww (norm (id_domain i))) want else true in
  let title := titleMatch i p in
  ({| fm_name := name; fm_domain := domain; fm_title := title |}, name && domain && negb (bool_decide (title = TM_mismatch))).
Definition emptyMatch : FieldMatch := {| fm_name := false; fm_domain := false; fm_title := TM_unconfirmed |}.
Definition decideAcceptance (o : ProviderEnrichmentOutcome) (p : CandidatePerson) (requestedDomain : string) :
    AcceptanceDecision :=
  if negb (bool_decide (po_verificationStatus o = EV_VERIFIED))
  then Refused ("not_verified:" +:+ verificationStatusText (po_verificationStatus o)) emptyMatch
  else if negb (truthy_opt (po_email o)) then Refused "verified_but_no_email" emptyMatch
  else
    match normalizeContactEmail (default "" (po_email o)) with
    | NoBareEmail reason => Refused reason emptyMatch
    | BareEmail email =>
        if isGenericMailbox email then Refused "generic_mailbox_rejected" emptyMatch
        else
          match po_returnedIdentity o with
          | None => Refused "no_returned_identity_to_validate" emptyMatch
          | Some i =>
              let m := {| fm_name := nameMatches i p; fm_domain := domainMatches i email requestedDomain;
                          fm_title := titleMatch i p |} in
              if negb (fm_name m) then Refused "name_mismatch" m
              else if negb (fm_domain m) then Refused "domain_mismatch" m
              else if bool_decide (fm_title m = TM_mismatch) then Refused "title_mismatch" m
              else Accepted {| vc_fullName := cp_fullName p; vc_title := cp_title p; vc_email := email;
                               vc_dataQuality := po_dataQuality o; vc_confidence := po_confidence o |} m
          end
    end.

(** ** generic-mailbox.ts *)

Definition normalizeLocalPart (localPart : string) : string :=
  filterString (λ c, negb (bool_decide (c ∈ ["."; "-"; "_"]%char))) (toLowerCase (trim localPart)).
Definition DENIED_LOCAL_PARTS : list string :=
  ["noreply"; "donotreply"; "bounce"; "bounces"; "mailerdaemon"; "postmaster"; "hostmaster"; "unsubscribe";
   "notifications"; "notification"; "alerts"; "alert"; "automated"; "autoreply"; "daemon"; "robot"; "bot"; "system";
   "root"; "webmaster"; "abuse"; "spam"; "privacy"; "dpo"; "gdpr"; "dataprotection"; "legal"; "compliance"; "security";
   "careers"; "career"; "jobs"; "job"; "recruitment"; "recruiting"; "vacancies"; "hr"; "humanresources"; "billing";
   "accounts"; "account"; "accounting"; "invoice"; "invoices"; "finance"; "payments"; "payment"; "payroll";
   "creditcontrol"; "newsletter"; "marketing"; "noreplymarketing"].
Definition DENIED_PREFIXES : list string := ["noreply"; "donotreply"; "mailerdaemon"; "autoreply"].
Definition GENERIC_BUSINESS_LOCAL_PARTS : list string :=
  ["info"; "information"; "contact"; "contactus"; "hello"; "hi"; "mail"; "office"; "general"; "team"; "welcome"; "ask";
   "admin"; "administration"; "enquiry"; "enquiries"; "inquiry"; "inquiries"; "newpatient"; "newpatients"; "patients";
   "reception"; "frontdesk"; "desk"; "booking"; "bookings"; "appointment"; "appointments"; "reservations"; "practice";
   "surgery"; "clinic"].
Inductive GenericMailboxDecision := GenericBusiness (normalizedLocalPart : string) | MailboxRejected (reason : string).
Definition classifyGenericMailbox (localPart : string) : GenericMailboxDecision :=
  let raw := toLowerCase (trim localPart) in
  if negb (truthy raw) then MailboxRejected "empty_local_part"
  else if includes raw "+" then MailboxRejected "plus_addressed"
  else
    let normalized := normalizeLocalPart raw in
    if negb (truthy normalized) then MailboxRejected "empty_local_part"
    else if bool_decide (normalized ∈ DENIED_LOCAL_PARTS) || existsb (startsWith normalized) DENIED_PREFIXES
    then MailboxRejected "denylisted_system_or_department_mailbox"
    else if bool_decide (normalized ∈ GENERIC_BUSINESS_LOCAL_PARTS) then GenericBusiness normalized
    else MailboxRejected "not_a_recognized_generic_business_mailbox".

(** ** official-inbox-fallback.ts *)

Inductive GenericFallbackDecision :=
  | FallbackAccepted (email normalizedLocalPart sourceFactId sourceUrl : string) | FallbackRefused (reason : string).
Definition normalizeHost (host : string) : string := stripWww (toLowerCase (trim host)).
(** [email.slice(0, at)] and [email.slice(at + 1)], for [at] the last index of an at sign or -1 *)
Definition localAndHost (email : string) : string * string :=
  match cutAtLast "@" email with
  | Some parts => parts
  | None => (String.substring 0 (String.length email - 1) email, email)
  end.
Definition evaluateOfficialInboxFallback (officialDomain : option string) (contactEmailFact : option LeadFactRow) :
    GenericFallbackDecision :=
  let domain := trim (default "" officialDomain) in
  if negb (truthy domain) then FallbackRefused "no_official_domain"
  else
    match contactEmailFact with
    | None => FallbackRefused "no_contact_email_fact"
    | Some fact =>
        if negb (truthy (trim (lf_value fact))) then FallbackRefused "no_contact_email_fact"
        else if negb (lf_isCurrent fact) then FallbackRefused "fact_not_current"
        else if negb (bool_decide (lf_sourceType fact = FS_website)) then FallbackRefused "fact_not_website_sourced"
        else
          let sourceUrl := trim (default "" (lf_sourceUrl fact)) in
          if negb (truthy sourceUrl) then FallbackRefused "fact_missing_source_url"
          else
            match normalizeContactEmail (lf_value fact) with
            | NoBareEmail _ => FallbackRefused "email_not_normalizable"
            | BareEmail email =>
                let '(localPart, emailHost) := localAndHost email in
                if negb (truthy localPart) || negb (truthy emailHost) then FallbackRefused "email_missing_local_or_domain"
                else if negb (String.eqb (normalizeHost emailHost) (normalizeHost domain))
                then FallbackRefused "email_domain_does_not_match_official_domain"
                else
                  match classifyGenericMailbox localPart with
                  | MailboxRejected reason => FallbackRefused ("mailbox_" +:+ reason)
                  | GenericBusiness normalized => FallbackAccepted email normalized (lf_id fact) sourceUrl
                  end
            end
    end.

(** ** resolution.ts *)

Inductive ContactResolutionType := PERSONAL_VERIFIED | GENERIC_OFFICIAL.
#[global] Instance ContactResolutionType_eq_dec : EqDecision ContactResolutionType.
Proof. solve_decision. Defined.
Record IntendedDecisionMaker := { dm_fullName : string; dm_title : string; dm_priority : Z }.
Definition byPriority `{Collation} (a b : CandidatePerson) : Z :=
  let d := cp_priority a - cp_priority b in if d =? 0 then localeCompare (cp_fullName a) (cp_fullName b) else d.
Definition toIntendedDecisionMakers `{Collation} (candidates : list CandidatePerson) : list IntendedDecisionMaker :=
  map (λ c, {| dm_fullName := cp_fullName c; dm_title := cp_title c; dm_priority := cp_priority c |})
    (sortBy byPriority candidates).
