(* ===== verification/ContactEnrich.v ===== *)
(** * The paid search for a person's address

    The service that asks a provider, first for people and then - within caps and once per
    question - for the address of one of them (src/domain/contact-enrichment/service.ts), its
    store (contact-enrichment.repo.ts), and the store of what has been resolved
    (contact-resolution.repo.ts).  A provider is a parameter. *)
From Stdlib Require QArith.
From S2P Require Import Prelude.
From S2P Require Import JsNumber.
From S2P Require Import JsText.
From S2P Require Import LeadLifecycle.
From S2P Require Import PipelineDb.
From S2P Require Import SystemDb.
From S2P Require Import LeadFacts.
From S2P Require Import Backfill.
From S2P Require Import Prospect.
From S2P Require Import Contacts.
Open Scope string_scope.
Open Scope Z_scope.
Open Scope list_scope.

Definition isSome_ {A} (o : option A) : bool := match o with Some _ => true | None => false end.
Inductive ContactEnrichmentOutcome :=
  | CE_VERIFIED | CE_NOT_FOUND | CE_CAPPED | CE_ERROR | CE_PREVIEW_MATCHED | CE_PREVIEW_NO_MATCH.
#[global] Instance ContactEnrichmentOutcome_eq_dec : EqDecision ContactEnrichmentOutcome.
Proof. solve_decision. Defined.
Inductive EnrichmentMode := PREVIEW | ENRICH | DOMAIN_SEARCH_ONLY.
#[global] Instance EnrichmentMode_eq_dec : EqDecision EnrichmentMode.
Proof. solve_decision. Defined.
Definition modeText (m : EnrichmentMode) : string :=
  match m with PREVIEW => "PREVIEW" | ENRICH => "ENRICH" | DOMAIN_SEARCH_ONLY => "DOMAIN_SEARCH_ONLY" end.
Record PreviewResult := {
  pw_people : list PreviewPerson; pw_creditsReported : option num; pw_resourceId : option string; pw_endpoint : string;
}.
Inductive EmailType := ET_personal | ET_generic.
#[global] Instance EmailType_eq_dec : EqDecision EmailType.
Proof. solve_decision. Defined.
Record DomainSearchPerson := {
  ds_identity : ReturnedIdentity; ds_email : string; ds_emailType : option EmailType;
  ds_verificationStatus : EnrichmentVerificationStatus; ds_confidence : option num;
}.
Record DomainSearchResult := {
  dr_people : list DomainSearchPerson; dr_creditsReported : option num; dr_creditsUsed : Z; dr_endpoint : string;
  dr_rawDigest : string;
}.
(** A result, which is also its row *)
Record ContactEnrichmentResult := {
  er_id : string; er_leadId : string; er_provider : string; er_mode : EnrichmentMode; er_inputHash : string;
  er_requestedDomain : string; er_candidates : list CandidatePerson; er_outcome : ContactEnrichmentOutcome;
  er_accepted : option VerifiedContact; er_creditsEstimated : Z; er_creditsReported : option num;
  er_providerResourceId : option string; er_endpoint : option string; er_provenance : json; er_createdAt : Z;
  er_completedAt : option Z;
}.
(** A row of [contact_resolutions] *)
Record ContactResolution := {
  cr_id : string; cr_leadId : string; cr_resolutionType : ContactResolutionType; cr_recipientEmail : string;
  cr_sourceFactId : option string; cr_enrichmentResultId : option string; cr_sourceUrl : option string;
  cr_intendedDecisionMakers : list IntendedDecisionMaker; cr_resolvedAt : Z; cr_isCurrent : bool;
}.
(** Two are no tables: the paid calls that providers have had, by lead, and the requests that
    providers have made. *)
Record ContactDb := {
  contactSystem : SystemDb; enrichmentResults : list ContactEnrichmentResult; contactResolutions : list ContactResolution;
  opportunityScores : list (string * Z); paidCalls : list string;
  providerRequests : list string;
}.
Definition EM : Type → Type := M ContactDb.
Definition inContacts : lens ContactDb SystemDb := Lens contactSystem (λ s db,
  {| contactSystem := s; enrichmentResults := enrichmentResults db; contactResolutions := contactResolutions db;
     opportunityScores := opportunityScores db; paidCalls := paidCalls db;
     providerRequests := providerRequests db |}).
Definition setEnrichments (f : list ContactEnrichmentResult → list ContactEnrichmentResult) (db : ContactDb) : ContactDb :=
  {| contactSystem := contactSystem db; enrichmentResults := f (enrichmentResults db);
     contactResolutions := contactResolutions db; opportunityScores := opportunityScores db; paidCalls := paidCalls db;
     providerRequests := providerRequests db |}.
Definition setResolutions (f : list ContactResolution → list ContactResolution) (db : ContactDb) : ContactDb :=
  {| contactSystem := contactSystem db; enrichmentResults := enrichmentResults db;
     contactResolutions := f (contactResolutions db); opportunityScores := opportunityScores db; paidCalls := paidCalls db;
     providerRequests := providerRequests db |}.
Definition logPaid (leadId : string) (db : ContactDb) : ContactDb :=
  {| contactSystem := contactSystem db; enrichmentResults := enrichmentResults db;
     contactResolutions := contactResolutions db; opportunityScores := opportunityScores db;
     paidCalls := paidCalls db ++ [leadId]; providerRequests := providerRequests db |}.
Definition logRequest (r : string) (db : ContactDb) : ContactDb :=
  {| contactSystem := contactSystem db; enrichmentResults := enrichmentResults db;
     contactResolutions := contactResolutions db; opportunityScores := opportunityScores db; paidCalls := paidCalls db;
     providerRequests := providerRequests db ++ [r] |}.
Record ContactEnrichmentProvider := {
  ep_name : string; ep_preview : string → list CandidatePerson → EM PreviewResult;
  ep_enrich : EnrichmentQuery → EM ProviderEnrichmentOutcome; ep_domainSearch : option (string → EM DomainSearchResult);
}.

(** ** contact-enrichment.repo.ts *)

Definition sameQuestion (leadId provider : string) (mode : EnrichmentMode) (inputHash : string)
    (r : ContactEnrichmentResult) : bool :=
  String.eqb (er_leadId r) leadId && String.eqb (er_provider r) provider && bool_decide (er_mode r = mode) &&
  String.eqb (er_inputHash r) inputHash.
Definition findByInputHash (leadId provider : string) (mode : EnrichmentMode) (inputHash : string) (db : ContactDb) :
    option ContactEnrichmentResult := List.find (sameQuestion leadId provider mode inputHash) (enrichmentResults db).
Definition allowedOutcomes (m : EnrichmentMode) : list ContactEnrichmentOutcome :=
  match m with
  | PREVIEW => [CE_PREVIEW_MATCHED; CE_PREVIEW_NO_MATCH; CE_ERROR]
  | ENRICH => [CE_VERIFIED; CE_NOT_FOUND; CE_CAPPED; CE_ERROR; CE_PREVIEW_NO_MATCH]
  | DOMAIN_SEARCH_ONLY => [CE_VERIFIED; CE_NOT_FOUND; CE_CAPPED; CE_ERROR]
  end.
Definition enrichmentChecks (r : ContactEnrichmentResult) (db : ContactDb) : list (bool * error) :=
  [(negb (bool_decide (er_outcome r ∈ allowedOutcomes (er_mode r))), checkViolation "contact_enrichment_mode_outcome_ck");
   (match er_creditsReported r with Some c => negb (isSome_ (integerN c)) | None => false end,
     PgError "22P02" "credits_reported");
   ((2147483647 <? er_creditsEstimated r) ||
    match er_creditsReported r ≫= integerN with Some n => (2147483647 <? n) || (n <? -2147483648) | None => false end,
     PgError "22003" "credits_reported");
   ((er_creditsEstimated r <? 0) || match er_creditsReported r with Some c => ltN c (ofZ 0) | None => false end,
     checkViolation "contact_enrichment_credits_ck");
   (negb (Bool.eqb (bool_decide (er_outcome r = CE_VERIFIED)) (bool_decide (is_Some (er_accepted r)))),
     checkViolation "contact_enrichment_accepted_ck");
   (negb (bool_decide (is_Some (leads (pipelineDb (contactSystem db)) !! er_leadId r))),
     foreignKeyViolation "contact_enrichment_results_lead_id_fkey")].
Definition askedBefore (r : ContactEnrichmentResult) (db : ContactDb) : bool :=
  existsb (sameQuestion (er_leadId r) (er_provider r) (er_mode r) (er_inputHash r)) (enrichmentResults db).
Definition sameResultId (r : ContactEnrichmentResult) (db : ContactDb) : bool :=
  existsb (λ r', String.eqb (er_id r') (er_id r)) (enrichmentResults db).
Definition checkInsertEnrichment (r : ContactEnrichmentResult) (db : ContactDb) : option error :=
  refuse (enrichmentChecks r db ++
    [(sameResultId r db, uniqueViolation "contact_enrichment_results_pkey");
     (askedBefore r db, uniqueViolation "contact_enrichment_results_idempotency_uk")]).
(** The upsert: a row that is replaced keeps its id. *)
Definition withId (id : string) (r : ContactEnrichmentResult) : ContactEnrichmentResult :=
  {| er_id := id; er_leadId := er_leadId r; er_provider := er_provider r; er_mode := er_mode r;
     er_inputHash := er_inputHash r; er_requestedDomain := er_requestedDomain r; er_candidates := er_candidates r;
     er_outcome := er_outcome r; er_accepted := er_accepted r; er_creditsEstimated := er_creditsEstimated r;
     er_creditsReported := er_creditsReported r; er_providerResourceId := er_providerResourceId r;
     er_endpoint := er_endpoint r; er_provenance := er_provenance r; er_createdAt := er_createdAt r;
     er_completedAt := er_completedAt r |}.
Definition checkUpsertEnrichment (r : ContactEnrichmentResult) (db : ContactDb) : option error :=
  refuse (enrichmentChecks r db ++
    [(negb (askedBefore r db) && sameResultId r db, uniqueViolation "contact_enrichment_results_pkey")]).
Definition saveEnrichment (r : ContactEnrichmentResult) (overwrite : bool) : EM () :=
  if overwrite then
    guarded (checkUpsertEnrichment r) (λ db,
      if askedBefore r db then setEnrichments (map (λ r',
        if sameQuestion (er_leadId r) (er_provider r) (er_mode r) (er_inputHash r) r' then withId (er_id r') r else r')) db
      else setEnrichments (λ l, l ++ [r]) db)
  else guarded (checkInsertEnrichment r) (setEnrichments (λ l, l ++ [r])).
(** [listByLead]: the newest first, rows of one instant in the order of the table *)
Definition enrichmentsOf (leadId : string) (db : ContactDb) : list ContactEnrichmentResult :=
  sortBy (λ a b, er_createdAt b - er_createdAt a)
    (List.filter (λ r, String.eqb (er_leadId r) leadId) (enrichmentResults db)).

(** ** contact-resolution.repo.ts *)

Definition demoteResolution (leadId : string) (r : ContactResolution) : ContactResolution :=
  if String.eqb (cr_leadId r) leadId && cr_isCurrent r then
    {| cr_id := cr_id r; cr_leadId := cr_leadId r; cr_resolutionType := cr_resolutionType r;
       cr_recipientEmail := cr_recipientEmail r; cr_sourceFactId := cr_sourceFactId r;
       cr_enrichmentResultId := cr_enrichmentResultId r; cr_sourceUrl := cr_sourceUrl r;
       cr_intendedDecisionMakers := cr_intendedDecisionMakers r; cr_resolvedAt := cr_resolvedAt r; cr_isCurrent := false |}
  else r.
Definition checkInsertResolution (r : ContactResolution) (db : ContactDb) : option error :=
  refuse
    [(negb (if bool_decide (cr_resolutionType r = GENERIC_OFFICIAL)
            then isSome_ (cr_sourceFactId r) && negb (isSome_ (cr_enrichmentResultId r)) && isSome_ (cr_sourceUrl r)
            else isSome_ (cr_enrichmentResultId r) && negb (isSome_ (cr_sourceFactId r))),
       checkViolation "contact_resolutions_provenance_ck");
     (negb (bool_decide (cr_resolutionType r = GENERIC_OFFICIAL) || bool_decide (length (cr_intendedDecisionMakers r) = 0%nat)),
       checkViolation "contact_resolutions_intended_ck");
     (existsb (λ r', String.eqb (cr_id r') (cr_id r)) (contactResolutions db), uniqueViolation "contact_resolutions_pkey");
     (cr_isCurrent r && existsb (λ r', String.eqb (cr_leadId r') (cr_leadId r) && cr_isCurrent r') (contactResolutions db),
       uniqueViolation "contact_resolutions_current_uk");
     (negb (bool_decide (is_Some (leads (pipelineDb (contactSystem db)) !! cr_leadId r))),
       foreignKeyViolation "contact_resolutions_lead_id_fkey");
     (match cr_sourceFactId r with
      | Some f => negb (existsb (λ x, String.eqb (lf_id x) f) (leadFacts (contactSystem db))) | None => false end,
       foreignKeyViolation "contact_resolutions_source_fact_id_fkey");
     (match cr_enrichmentResultId r with
      | Some e => negb (existsb (λ x, String.eqb (er_id x) e) (enrichmentResults db)) | None => false end,
       foreignKeyViolation "contact_resolutions_enrichment_result_id_fkey")].
Definition getCurrentResolution (leadId : string) (db : ContactDb) : option ContactResolution :=
  List.find (λ r, String.eqb (cr_leadId r) leadId && cr_isCurrent r) (contactResolutions db).

Section store.
Context `{Runtime}.

Record NewContactResolution := {
  nr_leadId : string; nr_resolutionType : ContactResolutionType; nr_recipientEmail : string;
  nr_sourceFactId : option string; nr_enrichmentResultId : option string; nr_sourceUrl : option string;
  nr_intendedDecisionMakers : list IntendedDecisionMaker;
}.
Definition writeCurrentResolution (n : NewContactResolution) : EM string :=
  id ← randomUUID;
  modify (setResolutions (map (demoteResolution (nr_leadId n)))) ;;
  resolvedAt ← now;
  let row := {| cr_id := id; cr_leadId := nr_leadId n; cr_resolutionType := nr_resolutionType n;
    cr_recipientEmail := nr_recipientEmail n; cr_sourceFactId := nr_sourceFactId n;
    cr_enrichmentResultId := nr_enrichmentResultId n; cr_sourceUrl := nr_sourceUrl n;
    cr_intendedDecisionMakers :=
      if bool_decide (nr_resolutionType n = GENERIC_OFFICIAL) then nr_intendedDecisionMakers n else [];
    cr_resolvedAt := resolvedAt; cr_isCurrent := true |} in
  guarded (checkInsertResolution row) (setResolutions (λ l, l ++ [row])) ;;
  mret id.
End store.

(** ** service.ts *)

(** A cap is none where it is NaN: no number is above that. *)
Record EnrichmentRunCaps := { ca_maxRequests : option Z; ca_maxCredits : option Z; ca_minCreditsPerLookup : Z }.
Definition capJson (n : option Z) : json := match n with Some n => JNum n | None => JNull end.
Definition computeInputHash `{Runtime, Collation} (mode : EnrichmentMode) (provider domain : string)
    (candidates : list CandidatePerson) : string :=
  let person (c : CandidatePerson) := JObj [("name", JStr (toLowerCase (trim (cp_fullName c))));
                                            ("title", JStr (toLowerCase (trim (cp_title c))))] in
  sha256Hex (stringify (JObj [("mode", JStr (modeText mode)); ("provider", JStr provider);
    ("domain", JStr (toLowerCase (trim domain))); ("people", JArr (map person (sortBy byPriority candidates)))])).
(** The provenance of a result *)
Definition titleMatchText (t : TitleMatch) : string :=
  match t with TM_match => "match" | TM_mismatch => "mismatch" | TM_unconfirmed => "unconfirmed" end.
Definition fieldMatchJson (m : FieldMatch) : list (string * json) :=
  [("name", JBool (fm_name m)); ("domain", JBool (fm_domain m)); ("title", JStr (titleMatchText (fm_title m)))].
Definition safePreviewView (p : PreviewPerson) : json :=
  let i := pp_identity p in
  JObj [("name", json_opt (id_name i)); ("title", json_opt (id_title i)); ("domain", json_opt (id_domain i))].
Definition identityJson (i : option ReturnedIdentity) : json :=
  match i with
  | None => JNull
  | Some i => JObj [("name", json_opt (id_name i)); ("firstName", json_opt (id_firstName i));
                    ("lastName", json_opt (id_lastName i)); ("domain", json_opt (id_domain i)); ("title", json_opt (id_title i))]
  end.
Definition numberJson (n : option num) : json := match n with Some x => JReal x | None => JNull end.
Definition decisionJson (d : AcceptanceDecision) : list (string * json) :=
  match d with
  | Accepted _ m => [("accepted", JBool true); ("reason", JStr "verified_and_matched"); ("match", JObj (fieldMatchJson m))]
  | Refused reason m => [("accepted", JBool false); ("reason", JStr reason); ("match", JObj (fieldMatchJson m))]
  end.
Definition capsJson (c : EnrichmentRunCaps) : json :=
  JObj [("maxRequests", capJson (ca_maxRequests c)); ("maxCredits", capJson (ca_maxCredits c));
        ("minCreditsPerLookup", JNum (ca_minCreditsPerLookup c))].

(** What the paid part of a run keeps *)
Record Spending := {
  sp_requests : Z; sp_credits : Z; sp_reported : option num; sp_accepted : option VerifiedContact;
  sp_endpoint : option string; sp_resourceId : option string; sp_attempts : list json; sp_capped : bool; sp_errored : bool;
  sp_domainSearch : option json;
}.
Definition addReported (v total : option num) : option num :=
  match v with Some v => Some (addN (default (ofZ 0) total) v) | None => total end.
Definition overCaps (caps : EnrichmentRunCaps) (s : Spending) : bool :=
  match ca_maxRequests caps with Some n => n <=? sp_requests s | None => false end ||
  match ca_maxCredits caps with Some n => n <? sp_credits s + Z.max 1 (ca_minCreditsPerLookup caps) | None => false end.
Definition capped (s : Spending) : Spending :=
  {| sp_requests := sp_requests s; sp_credits := sp_credits s; sp_reported := sp_reported s; sp_accepted := sp_accepted s;
     sp_endpoint := sp_endpoint s; sp_resourceId := sp_resourceId s; sp_attempts := sp_attempts s; sp_capped := true;
     sp_errored := sp_errored s; sp_domainSearch := sp_domainSearch s |}.
Definition failedAttempt (person : string) (message : string) (s : Spending) : Spending :=
  {| sp_requests := sp_requests s; sp_credits := sp_credits s; sp_reported := sp_reported s; sp_accepted := sp_accepted s;
     sp_endpoint := sp_endpoint s; sp_resourceId := sp_resourceId s;
     sp_attempts := sp_attempts s ++ [JObj [("person", JStr person); ("error", JStr message)]]; sp_capped := sp_capped s;
     sp_errored := true; sp_domainSearch := sp_domainSearch s |}.
Definition contactOf (d : AcceptanceDecision) : option VerifiedContact :=
  match d with Accepted c _ => Some c | Refused _ _ => None end.
Definition attempted (person : CandidatePerson) (o : ProviderEnrichmentOutcome) (d : AcceptanceDecision) (s : Spending) :
    Spending :=
  {| sp_requests := sp_requests s + default 1 (po_requestsUsed o); sp_credits := sp_credits s + default 1 (po_creditsUsed o);
     sp_reported := addReported (po_creditsReported o) (sp_reported s); sp_accepted := contactOf d;
     sp_endpoint := Some (po_endpoint o);
     sp_resourceId := if truthy_opt (po_resourceId o) then po_resourceId o else sp_resourceId s;
     sp_attempts := sp_attempts s ++ [JObj ([("person", JStr (cp_fullName person)); ("title", JStr (cp_title person));
       ("verificationStatus", JStr (verificationStatusText (po_verificationStatus o)))] ++ decisionJson d ++
       [("returnedIdentity", identityJson (po_returnedIdentity o)); ("creditsReported", numberJson (po_creditsReported o));
        ("rawDigest", JStr (po_rawDigest o))])];
     sp_capped := sp_capped s; sp_errored := sp_errored s; sp_domainSearch := sp_domainSearch s |}.
Definition messageOf (e : error) : string :=
  match e with AppError _ m | JsError m => m | PgError _ constraint => constraint end.
Definition spendingEnd (s : Spending) : ContactEnrichmentOutcome :=
  match sp_accepted s with
  | Some _ => CE_VERIFIED
  | None => if sp_errored s then CE_ERROR else if sp_capped s then CE_CAPPED else CE_NOT_FOUND
  end.
(** The people of a domain search, in the order of the candidates: the first that is accepted *)
Definition outcomeOf (p : DomainSearchPerson) (r : DomainSearchResult) : ProviderEnrichmentOutcome :=
  {| po_email := Some (ds_email p); po_returnedIdentity := Some (ds_identity p);
     po_verificationStatus := ds_verificationStatus p; po_dataQuality := None; po_confidence := ds_confidence p;
     po_creditsReported := None; po_resourceId := None; po_endpoint := dr_endpoint r; po_rawDigest := dr_rawDigest r;
     po_requestsUsed := None; po_creditsUsed := None |}.
Fixpoint searchPeople (domain : string) (r : DomainSearchResult) (personal : list DomainSearchPerson)
    (ordered : list CandidatePerson) : list json * option VerifiedContact :=
  match ordered with
  | [] => ([], None)
  | person :: ordered =>
      match List.find (λ p, (matchPreviewPerson (ds_identity p) person domain).2) personal with
      | None =>
          let '(attempts, found) := searchPeople domain r personal ordered in
          (JObj [("person", JStr (cp_fullName person)); ("found", JBool false)] :: attempts, found)
      | Some p =>
          let d := decideAcceptance (outcomeOf p r) person domain in
          let entry := JObj ([("person", JStr (cp_fullName person)); ("title", JStr (cp_title person));
            ("verificationStatus", JStr (verificationStatusText (ds_verificationStatus p)))] ++ decisionJson d) in
          match d with
          | Accepted contact _ => ([entry], Some contact)
          | Refused _ _ => let '(attempts, found) := searchPeople domain r personal ordered in (entry :: attempts, found)
          end
      end
  end.
Definition searched (domain : string) (ordered : list CandidatePerson) (r : DomainSearchResult) (s : Spending) : Spending :=
  let personal := List.filter (λ p, bool_decide (ds_emailType p = Some ET_personal)) (dr_people r) in
  let '(attempts, found) := searchPeople domain r personal ordered in
  {| sp_requests := sp_requests s + 1; sp_credits := sp_credits s + dr_creditsUsed r;
     sp_reported := addReported (dr_creditsReported r) (sp_reported s); sp_accepted := found;
     sp_endpoint := Some (dr_endpoint r); sp_resourceId := sp_resourceId s; sp_attempts := sp_attempts s;
     sp_capped := sp_capped s; sp_errored := sp_errored s;
     sp_domainSearch := Some (JObj [("peopleCount", JNum (Z.of_nat (length (dr_people r))));
       ("personalCount", JNum (Z.of_nat (length personal))); ("attempts", JArr attempts);
       ("endpoint", JStr (dr_endpoint r)); ("rawDigest", JStr (dr_rawDigest r))]) |}.
Definition searchFailed (message : string) (s : Spending) : Spending :=
  {| sp_requests := sp_requests s; sp_credits := sp_credits s; sp_reported := sp_reported s; sp_accepted := sp_accepted s;
     sp_endpoint := sp_endpoint s; sp_resourceId := sp_resourceId s; sp_attempts := sp_attempts s;
     sp_capped := sp_capped s; sp_errored := true; sp_domainSearch := Some (JObj [("error", JStr message)]) |}.
(** An endpoint that a search does not name is that of the calls before it. *)
Definition keepEndpoint (s0 s : Spending) : Spending :=
  {| sp_requests := sp_requests s; sp_credits := sp_credits s; sp_reported := sp_reported s; sp_accepted := sp_accepted s;
     sp_endpoint := if truthy_opt (sp_endpoint s) then sp_endpoint s else sp_endpoint s0;
     sp_resourceId := sp_resourceId s; sp_attempts := sp_attempts s; sp_capped := sp_capped s;
     sp_errored := sp_errored s; sp_domainSearch := sp_domainSearch s |}.
Definition startSpending (p : option PreviewResult) : Spending :=
  {| sp_requests := 0; sp_credits := 0; sp_reported := addReported (p ≫= pw_creditsReported) None; sp_accepted := None;
     sp_endpoint := pw_endpoint <$> p; sp_resourceId := p ≫= pw_resourceId; sp_attempts := []; sp_capped := false;
     sp_errored := false; sp_domainSearch := None |}.
Definition previewMatches (domain : string) (ordered : list CandidatePerson) (people : list PreviewPerson) :
    list (CandidatePerson * PreviewPerson) :=
  omap (λ person, pair person <$> List.find (λ pp, (matchPreviewPerson (pp_identity pp) person domain).2) people) ordered.
Definition matchJson (domain : string) (m : CandidatePerson * PreviewPerson) : json :=
  let '(f, isMatch) := matchPreviewPerson (pp_identity m.2) m.1 domain in
  JObj [("candidate", JStr (cp_fullName m.1)); ("title", JStr (cp_title m.1));
        ("matchedTitle", json_opt (id_title (pp_identity m.2)));
        ("match", JObj (fieldMatchJson f ++ [("isMatch", JBool isMatch)]))].
Definition previewProvenance (stage domain : string) (p : PreviewResult) (matches : list (CandidatePerson * PreviewPerson)) :
    list (string * json) :=
  [("stage", JStr stage); ("previewPeopleCount", JNum (Z.of_nat (length (pw_people p))));
   ("previewPeople", JArr (map safePreviewView (pw_people p))); ("matches", JArr (map (matchJson domain) matches));
   ("creditsReportedPreview", numberJson (pw_creditsReported p))].
(** A field that is undefined is left out. *)
Definition optionalField (name : string) (v : option json) : list (string * json) :=
  match v with Some v => [(name, v)] | None => [] end.

Section service.
Context `{Runtime, Collation} (provider : ContactEnrichmentProvider).

Fixpoint enrichMatches (leadId domain : string) (caps : EnrichmentRunCaps)
    (matches : list (CandidatePerson * PreviewPerson)) (s : Spending) : EM Spending :=
  match matches with
  | [] => mret s
  | (person, pp) :: matches =>
      if overCaps caps s then mret (capped s)
      else
        modify (logPaid leadId) ;;
        answer ← tryCatch (ep_enrich provider
          {| eq_domain := domain; eq_person := person; eq_providerLeadId := pp_providerLeadId pp |});
        match answer with
        | Throw e => mret (failedAttempt (cp_fullName person) (messageOf e) s)
        | Ok o =>
            let s := attempted person o (decideAcceptance o person domain) s in
            match sp_accepted s with Some _ => mret s | None => enrichMatches leadId domain caps matches s end
        end
  end.
Definition attemptDomainSearch (leadId domain : string) (ordered : list CandidatePerson) (caps : EnrichmentRunCaps)
    (search : string → EM DomainSearchResult) (s : Spending) : EM Spending :=
  if overCaps caps s then mret (capped s)
  else
    modify (logPaid leadId) ;;
    answer ← tryCatch (search domain);
    mret match answer with
         | Throw e => searchFailed (messageOf e) s
         | Ok r => searched domain ordered r s
         end.
Definition finishEnrichment (leadId domain : string) (mode : EnrichmentMode) (inputHash : string)
    (ordered : list CandidatePerson) (forceRefresh : bool) (outcome : ContactEnrichmentOutcome) (s : Spending)
    (provenance : json) : EM ContactEnrichmentResult :=
  id ← randomUUID;
  createdAt ← now;
  completedAt ← now;
  let r := {| er_id := id; er_leadId := leadId; er_provider := ep_name provider; er_mode := mode; er_inputHash := inputHash;
    er_requestedDomain := domain; er_candidates := ordered; er_outcome := outcome; er_accepted := sp_accepted s;
    er_creditsEstimated := sp_credits s; er_creditsReported := sp_reported s; er_providerResourceId := sp_resourceId s;
    er_endpoint := sp_endpoint s; er_provenance := provenance; er_createdAt := createdAt; er_completedAt := Some completedAt |} in
  saveEnrichment r forceRefresh ;;
  mret r.
(** [run] *)
Definition runEnrichment (leadId domain : string) (candidates : list CandidatePerson) (caps : EnrichmentRunCaps)
    (performEnrichment forceRefresh : bool) : EM ContactEnrichmentResult :=
  let mode := if performEnrichment then ENRICH else PREVIEW in
  let inputHash := computeInputHash mode (ep_name provider) domain candidates in
  existing ← (if forceRefresh then mret None else query (findByInputHash leadId (ep_name provider) mode inputHash));
  match existing with
  | Some r => mret r
  | None =>
      let ordered := sortBy byPriority candidates in
      let finish := finishEnrichment leadId domain mode inputHash ordered forceRefresh in
      answer ← tryCatch (ep_preview provider domain ordered);
      match answer with
      | Throw e => finish CE_ERROR (startSpending None) (JObj [("stage", JStr "preview"); ("error", JStr (messageOf e))])
      | Ok preview =>
          let matches := previewMatches domain ordered (pw_people preview) in
          let s := startSpending (Some preview) in
          match matches with
          | [] => finish CE_PREVIEW_NO_MATCH s (JObj (previewProvenance "preview" domain preview matches))
          | _ =>
              if negb performEnrichment
              then finish CE_PREVIEW_MATCHED s
                (JObj (previewProvenance "preview" domain preview matches ++ [("enrichmentJustified", JBool true)]))
              else
                s ← enrichMatches leadId domain caps matches s;
                s ← match sp_accepted s, ep_domainSearch provider with
                    | None, Some search =>
                        if sp_errored s || sp_capped s then mret s
                        else t ← attemptDomainSearch leadId domain ordered caps search s; mret (keepEndpoint s t)
                    | _, _ => mret s
                    end;
                finish (spendingEnd s) s (JObj (previewProvenance "enrich" domain preview matches ++
                  [("attempts", JArr (sp_attempts s)); ("requestsUsed", JNum (sp_requests s)); ("caps", capsJson caps)] ++
                  optionalField "domainSearch" (sp_domainSearch s)))
          end
      end
  end.
Definition runDomainSearchOnly (leadId domain : string) (candidates : list CandidatePerson) (caps : EnrichmentRunCaps)
    (forceRefresh : bool) : EM ContactEnrichmentResult :=
  match ep_domainSearch provider with
  | None => throw (AppError "DOMAIN_SEARCH_NOT_SUPPORTED"
      ("Provider " +:+ quoteText (ep_name provider) +:+ " does not implement Domain Search."))
  | Some search =>
      let inputHash := computeInputHash DOMAIN_SEARCH_ONLY (ep_name provider) domain candidates in
      existing ← (if forceRefresh then mret None
                  else query (findByInputHash leadId (ep_name provider) DOMAIN_SEARCH_ONLY inputHash));
      match existing with
      | Some r => mret r
      | None =>
          let ordered := sortBy byPriority candidates in
          s ← attemptDomainSearch leadId domain ordered caps search (startSpending None);
          finishEnrichment leadId domain DOMAIN_SEARCH_ONLY inputHash ordered forceRefresh (spendingEnd s) s
            (JObj ([("stage", JStr "domain-search-only"); ("requestsUsed", JNum (sp_requests s)); ("caps", capsJson caps)] ++
              optionalField "domainSearch" (sp_domainSearch s)))
      end
  end.
(** [plan]: nothing is called. *)
Record EnrichmentPlan := {
  pl_previewInputHash : string; pl_enrichInputHash : string; pl_orderedCandidates : list CandidatePerson;
  pl_projectedMaxRequests : option Z; pl_projectedMaxCredits : option Z; pl_previewAlreadyResolved : option ContactEnrichmentResult;
  pl_enrichAlreadyResolved : option ContactEnrichmentResult;
}.
Definition planEnrichment (leadId domain : string) (candidates : list CandidatePerson) (caps : EnrichmentRunCaps) :
    EM EnrichmentPlan :=
  let hash mode := computeInputHash mode (ep_name provider) domain candidates in
  let n := Z.of_nat (length candidates) in
  query (λ db, {| pl_previewInputHash := hash PREVIEW; pl_enrichInputHash := hash ENRICH;
    pl_orderedCandidates := sortBy byPriority candidates; pl_projectedMaxRequests := Z.min n <$> ca_maxRequests caps;
    pl_projectedMaxCredits := Z.min (n * Z.max 1 (ca_minCreditsPerLookup caps)) <$> ca_maxCredits caps;
    pl_previewAlreadyResolved := findByInputHash leadId (ep_name provider) PREVIEW (hash PREVIEW) db;
    pl_enrichAlreadyResolved := findByInputHash leadId (ep_name provider) ENRICH (hash ENRICH) db |}).
End service.
