(* ===== verification/ContactProviders.v ===== *)
(** * The providers of addresses

    Hunter, Instantly, Apollo and the mock of src/integrations/contact-enrichment/, and how they
    are built (src/cli/commands/contact-enrich-build.ts).  The transport is a parameter; the
    headers, with the key, and the wait between two polls are left out, and of a ZodError
    only that it is one is kept. *)
From Stdlib Require QArith.
From S2P Require Import Prelude.
From S2P Require Import JsNumber.
From S2P Require Import JsText.
From S2P Require Import JsonText.
From S2P Require Import LeadSource.
From S2P Require Import PlaceDetails.
From S2P Require Import Contacts.
From S2P Require Import ContactEnrich.
Open Scope string_scope.
Open Scope Z_scope.
Open Scope list_scope.

(** The answer to a request: method, URL and body *)
Class EnrichmentTransport := { enrichmentFetch : nat → string → string → option json → res PlacesAnswer }.

(** ** Schemas *)

Definition optionalField_ (ok : value → bool) (name : string) (v : value) : bool :=
  match fieldOf v name with Some x => ok x | None => true end.
Definition orNull (ok : value → bool) (v : value) : bool := match v with VNull => true | _ => ok v end.
Definition zString (v : value) : bool := match v with VStr _ => true | _ => false end.
Definition zNumber (v : value) : bool := match v with VNum literal => isFinite (toNumber literal) | _ => false end.
Definition zBoolean (v : value) : bool := match v with VBool _ => true | _ => false end.
Definition zRecord (v : value) : bool := match v with VObj _ => true | _ => false end.
Definition zArray (ok : value → bool) (v : value) : bool := match v with VArr l => forallb ok l | _ => false end.
(** An object each field of which is absent or as it should be; other fields are let through. *)
Definition zObject (fields : list (string * (value → bool))) (v : value) : bool :=
  zRecord v && forallb (λ f, optionalField_ f.2 f.1 v) fields.
Definition parseWith (schema : value → bool) (text : string) : res value :=
  match jsonParse text with
  | None => Throw (JsError "Unexpected token in JSON")
  | Some v => if schema v then Ok v else Throw (JsError "ZodError")
  end.
(** [str], [numv] and [boolv] *)
Definition strV (v : option value) : option string :=
  match asString v with Some s => if truthy (trim s) then Some s else None | None => None end.
Definition boolV (v : option value) : option bool := match v with Some (VBool b) => Some b | _ => None end.
Definition isTrue (b : option bool) : bool := bool_decide (b = Some true).
Definition strings (v : value) (names : list string) : option string :=
  foldr (λ name found, orElse (strV (fieldOf v name)) found) None names.
(** [Object.keys(v).sort().join(',')] *)
Definition sortedKeys (v : value) : string :=
  match v with VObj fields => join "," (sortBy byCodeUnits (uniq (map fst fields))) | _ => "" end.
(** A field that is an object, or one without fields *)
Definition objectField (v : value) (name : string) : value :=
  match fieldOf v name with Some (VObj fields) => VObj fields | _ => VObj [] end.

(** [new URLSearchParams({...}).toString()] *)
Definition formSafe (c : ascii) : bool :=
  let n := char_code c in
  ((48 <=? n) && (n <=? 57) || (65 <=? n) && (n <=? 90) || (97 <=? n) && (n <=? 122))%nat ||
  bool_decide (c ∈ ["*"; "-"; "."; "_"]%char).
Fixpoint formEncode (s : string) : string :=
  match s with
  | "" => ""
  | String c s =>
      if bool_decide (c = " "%char) then String "+" (formEncode s)
      else if formSafe c then String c (formEncode s)
      else String "%" (String (upperHex (char_code c / 16)) (String (upperHex (char_code c mod 16)) (formEncode s)))
  end.
Definition searchParams (params : list (string * string)) : string :=
  join "&" (map (λ p, formEncode p.1 +:+ "=" +:+ formEncode p.2) params).

(** [request] of a provider: one attempt; the text of an answer that is a success *)
Definition providerRequest `{EnrichmentTransport} (label method url path : string) (body : option json) : EM string :=
  modify (logRequest (method +:+ " " +:+ path)) ;;
  answer ← ask (λ n, enrichmentFetch n method url body);
  if (200 <=? pa_status answer) && (pa_status answer <? 300) then mret (pa_body answer)
  else throw (AppError (toUpperCase label +:+ "_HTTP_" +:+ pretty (pa_status answer))
    (label +:+ " " +:+ method +:+ " " +:+ path +:+ " failed (" +:+ pretty (pa_status answer) +:+ ").")).
Definition notAllowed (message : string) : error := AppError "ENRICHMENT_PROVIDER_NOT_ALLOWED" message.
Record ProviderDeps := { pd_baseUrl : string; pd_allowPaidEnrichment : bool; pd_previewLimit : Z; pd_pollMaxAttempts : Z }.
(** An outcome without an address *)
Definition notFound (creditsReported : option num) (resourceId : option string) (endpoint digest : string)
    (requests credits : option Z) : ProviderEnrichmentOutcome :=
  {| po_email := None; po_returnedIdentity := None; po_verificationStatus := EV_NOT_FOUND; po_dataQuality := None;
     po_confidence := None; po_creditsReported := creditsReported; po_resourceId := resourceId; po_endpoint := endpoint;
     po_rawDigest := digest; po_requestsUsed := requests; po_creditsUsed := credits |}.

(** ** hunter-schema.ts *)

Definition emailFinder : string := "/email-finder".
Definition emailVerifier : string := "/email-verifier".
Definition domainSearchPath : string := "/domain-search".
Definition buildEmailFinderParams (q : EnrichmentQuery) : list (string * string) :=
  [("domain", eq_domain q); ("first_name", cp_firstName (eq_person q)); ("last_name", cp_lastName (eq_person q))].
Definition nullableText : value → bool := orNull zString.
Definition verificationSchema : value → bool := orNull (zObject [("status", nullableText); ("date", nullableText)]).
Definition hunterFinderResponseSchema : value → bool :=
  zObject [("data", zObject [("first_name", nullableText); ("last_name", nullableText); ("email", nullableText);
    ("score", orNull zNumber); ("domain", nullableText); ("position", nullableText); ("company", nullableText);
    ("accept_all", orNull zBoolean); ("verification", verificationSchema)])].
Definition verifierFields : list (string * (value → bool)) :=
  [("status", nullableText); ("result", nullableText); ("score", orNull zNumber); ("accept_all", orNull zBoolean);
   ("block", orNull zBoolean); ("webmail", orNull zBoolean); ("disposable", orNull zBoolean)].
Definition hunterVerifierResponseSchema : value → bool := zObject (("data", zObject verifierFields) :: verifierFields).
Record HunterVerifierFields := {
  hv_status : option string; hv_result : option string; hv_score : option num; hv_acceptAll : option bool;
  hv_block : option bool; hv_disposable : option bool;
}.
Definition readVerifierFields (parsed : value) : HunterVerifierFields :=
  let d := default parsed (fieldOf parsed "data") in
  {| hv_status := strV (fieldOf d "status"); hv_result := strV (fieldOf d "result"); hv_score := asNumber (fieldOf d "score");
     hv_acceptAll := boolV (fieldOf d "accept_all"); hv_block := boolV (fieldOf d "block");
     hv_disposable := boolV (fieldOf d "disposable") |}.
Definition normalizeHunterVerification (f : HunterVerifierFields) : EnrichmentVerificationStatus :=
  let status s := bool_decide (hv_status f = Some s) in
  let result r := bool_decide (hv_result f = Some r) in
  if isTrue (hv_block f) then EV_INVALID
  else if isTrue (hv_disposable f) then EV_INVALID
  else if isTrue (hv_acceptAll f) || status "accept_all" then EV_CATCH_ALL
  else if status "invalid" || result "undeliverable" then EV_INVALID
  else if result "risky" then EV_RISKY
  else if status "webmail" then EV_UNKNOWN
  else if status "valid" && result "deliverable" && bool_decide (hv_acceptAll f = Some false) then EV_VERIFIED
  else EV_UNKNOWN.
Record ExtractedFinderResult := {
  fr_email : option string; fr_identity : ReturnedIdentity; fr_finderScore : option num;
  fr_finderVerificationStatus : option string; fr_acceptAll : option bool;
}.
Definition extractFinderResult (parsed : value) : ExtractedFinderResult :=
  let d := objectField parsed "data" in
  {| fr_email := strV (fieldOf d "email");
     fr_identity := {| id_name := None; id_firstName := strV (fieldOf d "first_name");
       id_lastName := strV (fieldOf d "last_name"); id_domain := strV (fieldOf d "domain");
       id_title := strV (fieldOf d "position") |};
     fr_finderScore := asNumber (fieldOf d "score");
     fr_finderVerificationStatus := strV (fieldOf (objectField d "verification") "status");
     fr_acceptAll := boolV (fieldOf d "accept_all") |}.
Inductive FinderVerificationDecision := FV_accepted | FV_rejected | FV_ambiguous.
Definition classifyFinderVerification (status : option string) (acceptAll : option bool) : FinderVerificationDecision :=
  if isTrue acceptAll || bool_decide (status = Some "accept_all") then FV_rejected
  else if bool_decide (status = Some "valid") && bool_decide (acceptAll = Some false) then FV_accepted
  else FV_ambiguous.
Definition hunterDomainSearchResponseSchema : value → bool :=
  zObject [("data", zObject [("domain", nullableText); ("accept_all", orNull zBoolean);
    ("emails", zArray (zObject [("value", nullableText); ("type", nullableText); ("confidence", orNull zNumber);
       ("first_name", nullableText); ("last_name", nullableText); ("position", nullableText);
       ("verification", verificationSchema)]))])].
Definition classifyDomainSearchEmail (domainAcceptAll : option bool) (emailVerificationStatus : option string) :
    EnrichmentVerificationStatus :=
  if isTrue domainAcceptAll then EV_CATCH_ALL
  else if bool_decide (emailVerificationStatus = Some "valid") then EV_VERIFIED
  else if bool_decide (emailVerificationStatus = Some "accept_all") then EV_CATCH_ALL
  else EV_UNKNOWN.
(** [Math.ceil(n / 10)] *)
Definition estimateDomainSearchCredits (resultCount : Z) : Z := if resultCount <=? 0 then 0 else (resultCount + 9) / 10.
Definition emailTypeOf (t : option string) : option EmailType :=
  if bool_decide (t = Some "personal") then Some ET_personal
  else if bool_decide (t = Some "generic") then Some ET_generic else None.
Definition domainSearchPerson (domain : string) (domainAcceptAll : option bool) (e : value) : option DomainSearchPerson :=
  match strV (fieldOf e "value") with
  | None => None
  | Some email => Some
      {| ds_identity := {| id_name := None; id_firstName := strV (fieldOf e "first_name");
           id_lastName := strV (fieldOf e "last_name"); id_domain := Some domain; id_title := strV (fieldOf e "position") |};
         ds_email := email; ds_emailType := emailTypeOf (strV (fieldOf e "type"));
         ds_verificationStatus := classifyDomainSearchEmail domainAcceptAll
           (strV (fieldOf (objectField e "verification") "status"));
         ds_confidence := asNumber (fieldOf e "confidence") |}
  end.
Definition extractDomainSearchPeople (parsed : value) (domain : string) : list DomainSearchPerson :=
  let d := objectField parsed "data" in
  omap (domainSearchPerson domain (boolV (fieldOf d "accept_all")))
    (match fieldOf d "emails" with Some (VArr l) => l | _ => [] end).

(** ** hunter-provider.ts *)

Definition hundredth (x : num) : num := divN x (ofZ 100).
Section hunter.
Context `{Runtime, EnrichmentTransport} (deps : ProviderDeps).

Definition hunterGet (path : string) (params : list (string * string)) : EM string :=
  providerRequest "Hunter" "GET" (pd_baseUrl deps +:+ path +:+ "?" +:+ searchParams params) path None.
(** The candidates come back as they are; nothing is asked. *)
Definition hunterPreview (domain : string) (candidates : list CandidatePerson) : EM PreviewResult :=
  mret {| pw_people := map (λ c, {| pp_identity := {| id_name := Some (cp_fullName c); id_firstName := Some (cp_firstName c);
            id_lastName := Some (cp_lastName c); id_domain := Some domain; id_title := Some (cp_title c) |};
            pp_providerLeadId := None |}) candidates;
          pw_creditsReported := None; pw_resourceId := None;
          pw_endpoint := "hunter:local-candidate-echo (no network call)" |}.
Definition finderOutcome (f : ExtractedFinderResult) (status : EnrichmentVerificationStatus) (confidence : option num)
    (endpoint digest : string) (calls : Z) : ProviderEnrichmentOutcome :=
  {| po_email := fr_email f; po_returnedIdentity := Some (fr_identity f); po_verificationStatus := status;
     po_dataQuality := None; po_confidence := confidence; po_creditsReported := None; po_resourceId := None;
     po_endpoint := endpoint; po_rawDigest := digest; po_requestsUsed := Some calls; po_creditsUsed := Some calls |}.
Definition hunterEnrich (q : EnrichmentQuery) : EM ProviderEnrichmentOutcome :=
  if negb (pd_allowPaidEnrichment deps)
  then throw (notAllowed "Hunter enrichment requires ALLOW_PAID_ENRICHMENT_CALLS=true (paid enrichment is off).")
  else
    finderText ← hunterGet emailFinder (buildEmailFinderParams q);
    finderParsed ← lift_res (parseWith hunterFinderResponseSchema finderText);
    let f := extractFinderResult finderParsed in
    if negb (truthy_opt (fr_email f))
    then mret (notFound None None emailFinder (sha256Hex finderText) (Some 1) (Some 0))
    else
      let finderConfidence := hundredth <$> fr_finderScore f in
      match classifyFinderVerification (fr_finderVerificationStatus f) (fr_acceptAll f) with
      | FV_accepted => mret (finderOutcome f EV_VERIFIED finderConfidence emailFinder (sha256Hex finderText) 1)
      | FV_rejected => mret (finderOutcome f EV_CATCH_ALL finderConfidence emailFinder (sha256Hex finderText) 1)
      | FV_ambiguous =>
          verifierText ← hunterGet emailVerifier [("email", default "" (fr_email f))];
          verifierParsed ← lift_res (parseWith hunterVerifierResponseSchema verifierText);
          let v := readVerifierFields verifierParsed in
          mret (finderOutcome f (normalizeHunterVerification v) (orElse (hundredth <$> hv_score v) finderConfidence)
            emailVerifier (sha256Hex (finderText +:+ "|" +:+ verifierText)) 2)
      end.
Definition hunterDomainSearch (domain : string) : EM DomainSearchResult :=
  if negb (pd_allowPaidEnrichment deps)
  then throw (notAllowed "Hunter Domain Search requires ALLOW_PAID_ENRICHMENT_CALLS=true (paid enrichment is off).")
  else
    text ← hunterGet domainSearchPath [("domain", domain)];
    parsed ← lift_res (parseWith hunterDomainSearchResponseSchema text);
    let people := extractDomainSearchPeople parsed domain in
    mret {| dr_people := people; dr_creditsReported := None;
            dr_creditsUsed := estimateDomainSearchCredits (Z.of_nat (length people)); dr_endpoint := domainSearchPath;
            dr_rawDigest := sha256Hex text |}.
Definition HunterContactEnrichmentProvider : ContactEnrichmentProvider :=
  {| ep_name := "hunter"; ep_preview := hunterPreview; ep_enrich := hunterEnrich;
     ep_domainSearch := Some hunterDomainSearch |}.
End hunter.

(** ** instantly-schema.ts *)

Definition instantlyPreview : string := "/supersearch-enrichment/preview-leads-from-supersearch".
Definition instantlyEnrichPath : string := "/supersearch-enrichment/enrich-leads-from-supersearch".
Definition getEnrichment (resourceId : string) : string := "/supersearch-enrichment/" +:+ encodeURIComponent resourceId.
Definition instantlyLeadsList : string := "/leads/list".
Definition buildEnrichLeadsRequestBody (q : EnrichmentQuery) : json :=
  let p := eq_person q in
  JObj [("limit", JNum 1); ("work_email_enrichment", JBool true); ("skip_rows_without_email", JBool true);
        ("search_filters", JObj ([("name", JArr [JStr (cp_fullName p)]); ("domains", JArr [JStr (eq_domain q)])] ++
          if truthy (cp_title p) then [("title", JObj [("include", JArr [JStr (cp_title p)])])] else []))].
Definition buildLeadsListRequestBody (resourceId : string) : json := JObj [("list_id", JStr resourceId); ("limit", JNum 1)].
Definition buildPreviewLeadsFromSupersearchRequestBody (domain : string) (limit : Z) : json :=
  JObj [("limit", JNum limit); ("search_filters", JObj [("domains", JArr [JStr domain])])].
Definition previewLeadsResponseSchema : value → bool :=
  zObject [("number_of_leads", zNumber); ("number_of_redacted_results", zNumber); ("leads", zArray zRecord)].
Definition enrichResponseSchema : value → bool := zObject [("resource_id", zString); ("id", zString)].
Definition pollResponseSchema : value → bool := zObject [("resource_id", zString); ("id", zString); ("in_progress", zBoolean)].
Definition leadsListResponseSchema : value → bool :=
  zObject [("items", zArray zRecord); ("leads", zArray zRecord); ("data", zArray zRecord); ("credits_used", zNumber);
           ("credits", zNumber)].
(** The first of these fields that is there *)
Definition rowsFrom (names : list string) (parsed : value) : list value :=
  match foldr (λ name found, orElse (fieldOf parsed name) found) None names with Some (VArr l) => l | _ => [] end.
Definition leadsFrom : value → list value := rowsFrom ["items"; "leads"; "data"].
Definition normalizeInstantlyVerification (raw : option string) : EnrichmentVerificationStatus :=
  let s := toLowerCase (trim (default "" raw)) in
  let in_ l := bool_decide (s ∈ l) in
  if in_ ["valid"; "verified"; "deliverable"] then EV_VERIFIED
  else if in_ ["accept_all"; "catch_all"; "catchall"] then EV_CATCH_ALL
  else if in_ ["risky"; "unknown_deliverable"] then EV_RISKY
  else if in_ ["invalid"; "undeliverable"] then EV_INVALID
  else if in_ [""] then EV_NOT_FOUND
  else EV_UNKNOWN.
Definition readVerificationStatus (lead : value) : option string :=
  orElse (strV (fieldOf (objectField lead "email_verification") "status"))
    (strings lead ["email_verification_status"; "verification_status"; "email_status"; "esp_verification"]).
Record ExtractedLead := {
  xl_email : string; xl_verification : EnrichmentVerificationStatus; xl_identity : ReturnedIdentity;
  xl_dataQuality : option string; xl_confidence : option num; xl_apolloId : option string;
}.
Definition extractLead (lead : value) : res ExtractedLead :=
  match strings lead ["work_email"; "email"] with
  | None => Throw (AppError "INSTANTLY_SCHEMA_MISMATCH"
      ("Returned lead has no recognizable email field. Keys: " +:+ sortedKeys lead))
  | Some email =>
      match readVerificationStatus lead with
      | None => Throw (AppError "INSTANTLY_SCHEMA_MISMATCH"
          ("Returned lead has an email but no recognizable verification status field. Keys: " +:+ sortedKeys lead))
      | Some status => Ok
          {| xl_email := email; xl_verification := normalizeInstantlyVerification (Some status);
             xl_identity := {| id_name := strings lead ["name"; "full_name"]; id_firstName := strings lead ["first_name"];
               id_lastName := strings lead ["last_name"];
               id_domain := strings lead ["company_domain"; "organization_domain"; "domain"];
               id_title := strings lead ["title"; "job_title"; "headline"] |};
             xl_dataQuality := strings lead ["data_quality"];
             xl_confidence := orElse (asNumber (fieldOf lead "confidence"))
               (asNumber (fieldOf (objectField lead "email_verification") "score"));
             xl_apolloId := None |}
      end
  end.
Definition extractPreviewPerson (lead : value) : PreviewPerson :=
  {| pp_identity := {| id_name := strings lead ["fullName"; "full_name"; "name"];
       id_firstName := strings lead ["firstName"; "first_name"]; id_lastName := strings lead ["lastName"; "last_name"];
       id_domain := strings lead ["companyDomain"; "company_domain"; "organization_domain"; "domain"];
       id_title := strings lead ["jobTitle"; "job_title"; "title"; "headline"] |};
     pp_providerLeadId := strings lead ["id"; "lead_id"] |}.

(** ** instantly-provider.ts *)

Definition readCredits (o : value) : option num :=
  orElse (asNumber (fieldOf o "credits_used")) (asNumber (fieldOf o "credits")).
Section instantly.
Context `{Runtime, EnrichmentTransport} (deps : ProviderDeps).

Definition instantlyRequest (method path : string) (body : option json) : EM string :=
  providerRequest "Instantly" method (pd_baseUrl deps +:+ path) path body.
Fixpoint pollEnrichment (attempts : nat) (resourceId : string) (credits : option num) : EM (option num) :=
  match attempts with
  | O => mret credits
  | S attempts =>
      text ← instantlyRequest "GET" (getEnrichment resourceId) None;
      parsed ← lift_res (parseWith pollResponseSchema text);
      let credits := orElse (readCredits parsed) credits in
      if negb (isTrue (boolV (fieldOf parsed "in_progress"))) then mret credits
      else pollEnrichment attempts resourceId credits
  end.
Definition createAndPoll (body : json) : EM (string * option num) :=
  text ← instantlyRequest "POST" instantlyEnrichPath (Some body);
  created ← lift_res (parseWith enrichResponseSchema text);
  match orElse (asString (fieldOf created "resource_id")) (asString (fieldOf created "id")) with
  | None => throw (AppError "INSTANTLY_NO_RESOURCE_ID" "Instantly enrich-leads-from-supersearch returned no resource_id.")
  | Some resourceId =>
      if negb (truthy resourceId)
      then throw (AppError "INSTANTLY_NO_RESOURCE_ID" "Instantly enrich-leads-from-supersearch returned no resource_id.")
      else
        credits ← pollEnrichment (Z.to_nat (pd_pollMaxAttempts deps)) resourceId (readCredits created);
        mret (resourceId, credits)
  end.
Definition instantlyPreviewPeople (domain : string) (candidates : list CandidatePerson) : EM PreviewResult :=
  text ← instantlyRequest "POST" instantlyPreview
    (Some (buildPreviewLeadsFromSupersearchRequestBody domain (pd_previewLimit deps)));
  parsed ← lift_res (parseWith previewLeadsResponseSchema text);
  mret {| pw_people := map extractPreviewPerson (rowsFrom ["leads"] parsed); pw_creditsReported := readCredits parsed;
          pw_resourceId := None; pw_endpoint := instantlyPreview |}.
Definition leadOutcome (l : ExtractedLead) (creditsReported : option num) (resourceId : option string)
    (endpoint digest : string) : ProviderEnrichmentOutcome :=
  {| po_email := Some (xl_email l); po_returnedIdentity := Some (xl_identity l);
     po_verificationStatus := xl_verification l; po_dataQuality := xl_dataQuality l; po_confidence := xl_confidence l;
     po_creditsReported := creditsReported; po_resourceId := resourceId; po_endpoint := endpoint; po_rawDigest := digest;
     po_requestsUsed := None; po_creditsUsed := None |}.
Definition instantlyEnrich (q : EnrichmentQuery) : EM ProviderEnrichmentOutcome :=
  if negb (pd_allowPaidEnrichment deps)
  then throw (notAllowed "Instantly enrichment requires ALLOW_PAID_ENRICHMENT_CALLS=true (paid enrichment is off).")
  else
    job ← createAndPoll (buildEnrichLeadsRequestBody q);
    let '(resourceId, pollCredits) := job in
    listText ← instantlyRequest "POST" instantlyLeadsList (Some (buildLeadsListRequestBody resourceId));
    listParsed ← lift_res (parseWith leadsListResponseSchema listText);
    let creditsReported := orElse (readCredits listParsed) pollCredits in
    match leadsFrom listParsed with
    | [] => mret (notFound creditsReported (Some resourceId) instantlyEnrichPath (sha256Hex listText) None None)
    | row :: _ =>
        lead ← lift_res (extractLead row);
        mret (leadOutcome lead creditsReported (Some resourceId) instantlyEnrichPath (sha256Hex listText))
    end.
Definition InstantlyContactEnrichmentProvider : ContactEnrichmentProvider :=
  {| ep_name := "instantly"; ep_preview := instantlyPreviewPeople; ep_enrich := instantlyEnrich; ep_domainSearch := None |}.
End instantly.

(** ** apollo-schema.ts *)

Definition peopleSearch : string := "/mixed_people/api_search".
Definition peopleMatch : string := "/people/match".
Definition buildPeopleSearchRequestBody (domain : string) (limit : Z) : json :=
  JObj [("q_organization_domains_list", JArr [JStr domain]); ("page", JNum 1); ("per_page", JNum limit)].
Definition buildPeopleMatchRequestBody (q : EnrichmentQuery) : json :=
  if truthy_opt (eq_providerLeadId q) then JObj [("id", JStr (default "" (eq_providerLeadId q)))]
  else JObj [("first_name", JStr (cp_firstName (eq_person q))); ("last_name", JStr (cp_lastName (eq_person q)));
             ("domain", JStr (eq_domain q))].
Definition apolloPeopleSearchResponseSchema : value → bool :=
  zObject [("people", zArray zRecord); ("contacts", zArray zRecord); ("data", zArray zRecord); ("pagination", zRecord);
           ("credits_used", zNumber); ("credits", zNumber)].
Definition peopleFrom : value → list value := rowsFrom ["people"; "contacts"; "data"].
Definition apolloPersonMatchResponseSchema : value → bool :=
  zObject [("person", orNull zRecord); ("contact", orNull zRecord); ("credits_used", zNumber); ("credits", zNumber)].
(** [parsed.person ?? parsed.contact] *)
Definition presentField (v : value) (name : string) : option value :=
  match fieldOf v name with Some VNull => None | x => x end.
Definition domainOf (row : value) : option string :=
  orElse (match presentField row "organization" with
          | Some (VObj o) => strings (VObj o) ["primary_domain"; "domain"; "website_url"] | _ => None end)
    (strings row ["domain"; "organization_domain"; "company_domain"]).
Definition apolloIdentity (row : value) : ReturnedIdentity :=
  {| id_name := strings row ["name"]; id_firstName := strings row ["first_name"]; id_lastName := strings row ["last_name"];
     id_domain := domainOf row; id_title := strings row ["title"; "headline"] |}.
Definition extractApolloPreviewPerson (row : value) : PreviewPerson :=
  {| pp_identity := apolloIdentity row; pp_providerLeadId := strings row ["id"] |}.
Definition normalizeApolloEmailStatus (raw : option string) : EnrichmentVerificationStatus :=
  let s := toLowerCase (trim (default "" raw)) in
  let in_ l := bool_decide (s ∈ l) in
  if in_ ["verified"] then EV_VERIFIED
  else if in_ ["accept_all"; "catch_all"; "catchall"] then EV_CATCH_ALL
  else if in_ ["guessed"; "extrapolated"; "likely to engage"] then EV_RISKY
  else if in_ ["invalid"; "bounced"; "undeliverable"] then EV_INVALID
  else if in_ ["unavailable"; ""] then EV_NOT_FOUND
  else EV_UNKNOWN.
Definition extractApolloPerson (parsed : value) : res (option ExtractedLead) :=
  match orElse (presentField parsed "person") (presentField parsed "contact") with
  | None => Ok None
  | Some row =>
      match strings row ["email"] with
      | None => Throw (AppError "APOLLO_SCHEMA_MISMATCH"
          ("Returned person has no recognizable email field. Keys: " +:+ sortedKeys row))
      | Some email => Ok (Some
          {| xl_email := email; xl_verification := normalizeApolloEmailStatus (strings row ["email_status"]);
             xl_identity := apolloIdentity row; xl_dataQuality := None;
             xl_confidence := asNumber (fieldOf row "email_confidence"); xl_apolloId := strings row ["id"] |})
      end
  end.

(** ** apollo-provider.ts *)

Section apollo.
Context `{Runtime, EnrichmentTransport} (deps : ProviderDeps).

Definition apolloPost (path : string) (body : json) : EM string :=
  providerRequest "Apollo" "POST" (pd_baseUrl deps +:+ path) path (Some body).
Definition apolloPreview (domain : string) (candidates : list CandidatePerson) : EM PreviewResult :=
  text ← apolloPost peopleSearch (buildPeopleSearchRequestBody domain (pd_previewLimit deps));
  parsed ← lift_res (parseWith apolloPeopleSearchResponseSchema text);
  mret {| pw_people := map extractApolloPreviewPerson (peopleFrom parsed); pw_creditsReported := readCredits parsed;
          pw_resourceId := None; pw_endpoint := peopleSearch |}.
Definition apolloEnrich (q : EnrichmentQuery) : EM ProviderEnrichmentOutcome :=
  if negb (pd_allowPaidEnrichment deps)
  then throw (notAllowed "Apollo enrichment requires ALLOW_PAID_ENRICHMENT_CALLS=true (paid enrichment is off).")
  else
    text ← apolloPost peopleMatch (buildPeopleMatchRequestBody q);
    parsed ← lift_res (parseWith apolloPersonMatchResponseSchema text);
    person ← lift_res (extractApolloPerson parsed);
    match person with
    | None => mret (notFound (readCredits parsed) None peopleMatch (sha256Hex text) None None)
    | Some l => mret (leadOutcome l (readCredits parsed) (xl_apolloId l) peopleMatch (sha256Hex text))
    end.
Definition ApolloContactEnrichmentProvider : ContactEnrichmentProvider :=
  {| ep_name := "apollo"; ep_preview := apolloPreview; ep_enrich := apolloEnrich; ep_domainSearch := None |}.
End apollo.

(** ** mock-provider.ts *)

Definition MockContactEnrichmentProvider `{Runtime} : ContactEnrichmentProvider :=
  {| ep_name := "mock";
     ep_preview := λ _ _, mret {| pw_people := []; pw_creditsReported := None; pw_resourceId := None;
       pw_endpoint := "mock://contact-enrichment/preview" |};
     ep_enrich := λ q, mret (notFound None None "mock://contact-enrichment"
       (sha256Hex ("mock:" +:+ eq_domain q +:+ ":" +:+ cp_fullName (eq_person q))) None None);
     ep_domainSearch := None |}.

(** ** contact-enrich-build.ts *)

Record EnrichmentConfig := {
  ec_DRY_RUN : bool; ec_ENABLED : bool; ec_ALLOW_PAID : bool; ec_PROVIDER : string; ec_HUNTER_API_KEY : option string;
  ec_INSTANTLY_API_KEY : option string; ec_APOLLO_API_KEY : option string; ec_HUNTER_API_BASE_URL : string;
  ec_INSTANTLY_API_BASE_URL : string; ec_APOLLO_API_BASE_URL : string; ec_PREVIEW_LIMIT : Z; ec_POLL_MAX_ATTEMPTS : Z;
  ec_MAX_REQUESTS_PER_RUN : Z; ec_MAX_CREDITS_PER_RUN : Z;
}.
Definition dryRunBlocked (label : string) : error :=
  AppError "DRY_RUN_LIVE_BLOCKED" ("DRY_RUN=true blocks the live paid/network provider " +:+ quoteText label +:+
    ". Set DRY_RUN=false for a real run.").
(** The three gates of a provider *)
Definition gatedProvider (c : EnrichmentConfig) (name label key : string) (apiKey : option string)
    (provider : ContactEnrichmentProvider) : res ContactEnrichmentProvider :=
  if ec_DRY_RUN c then Throw (dryRunBlocked (label +:+ "-contact-enrichment"))
  else if negb (ec_ENABLED c)
  then Throw (notAllowed (name +:+ " contact enrichment requires CONTACT_ENRICHMENT_ENABLED=true."))
  else if negb (truthy_opt apiKey)
  then Throw (notAllowed (name +:+ " contact enrichment requires " +:+ key +:+ " (read from env; never hard-coded)."))
  else Ok provider.
Section build.
Context `{Runtime, EnrichmentTransport} (c : EnrichmentConfig).

Definition depsOf (baseUrl : string) : ProviderDeps :=
  {| pd_baseUrl := baseUrl; pd_allowPaidEnrichment := ec_ALLOW_PAID c; pd_previewLimit := ec_PREVIEW_LIMIT c;
     pd_pollMaxAttempts := ec_POLL_MAX_ATTEMPTS c |}.
Definition buildHunterContactEnrichmentProvider : res ContactEnrichmentProvider :=
  gatedProvider c "Hunter" "hunter" "HUNTER_API_KEY" (ec_HUNTER_API_KEY c)
    (HunterContactEnrichmentProvider (depsOf (ec_HUNTER_API_BASE_URL c))).
Definition buildApolloContactEnrichmentProvider : res ContactEnrichmentProvider :=
  gatedProvider c "Apollo" "apollo" "APOLLO_API_KEY" (ec_APOLLO_API_KEY c)
    (ApolloContactEnrichmentProvider (depsOf (ec_APOLLO_API_BASE_URL c))).
Definition buildInstantlyContactEnrichmentProvider : res ContactEnrichmentProvider :=
  gatedProvider c "Instantly" "instantly" "INSTANTLY_API_KEY" (ec_INSTANTLY_API_KEY c)
    (InstantlyContactEnrichmentProvider (depsOf (ec_INSTANTLY_API_BASE_URL c))).
Definition buildContactEnrichmentProvider : res ContactEnrichmentProvider :=
  if String.eqb (ec_PROVIDER c) "hunter" then buildHunterContactEnrichmentProvider
  else if String.eqb (ec_PROVIDER c) "apollo" then buildApolloContactEnrichmentProvider
  else if negb (String.eqb (ec_PROVIDER c) "instantly") then Ok MockContactEnrichmentProvider
  else buildInstantlyContactEnrichmentProvider.
End build.
