(* ===== verification/ContactResolve.v ===== *)
(** * Resolving contacts

    Which leads a batch takes up and in what order
    (src/domain/contact-resolve-batch/eligibility.ts), the file of candidates (candidates-file.ts), the batch itself
    (src/cli/commands/contact-resolve-batch.ts) and the search for one lead
    (src/cli/commands/contact-enrich.ts). *)
From Stdlib Require QArith.
From S2P Require Import Prelude.
From S2P Require Import JsNumber.
From S2P Require Import JsText.
From S2P Require Import JsonText.
From S2P Require Import LeadLifecycle.
From S2P Require Import PipelineDb.
From S2P Require Import SystemDb.
From S2P Require Import Mime.
From S2P Require Import LeadFacts.
From S2P Require Import Qualification.
From S2P Require Import Collect.
From S2P Require Import Backfill.
From S2P Require Import Contacts.
From S2P Require Import ContactEnrich.
From S2P Require Import ContactProviders.
Open Scope string_scope.
Open Scope Z_scope.
Open Scope list_scope.

(** ** candidates-file.ts *)

Definition nonEmptyText (v : value) : bool := match v with VStr s => truthy s | _ => false end.
Definition withinUnit (v : value) : bool :=
  match v with VNum literal => let x := toNumber literal in leN (ofZ 0) x && leN x (ofZ 1) | _ => false end.
Definition requiredField (ok : value → bool) (name : string) (v : value) : bool :=
  match fieldOf v name with Some x => ok x | None => false end.
Definition candidatesFileEntrySchema (v : value) : bool :=
  zObject [("sourceUrl", zString); ("evidenceSnippet", zString); ("confidence", withinUnit)] v &&
  requiredField nonEmptyText "fullName" v && requiredField nonEmptyText "title" v.
Definition candidatesFileSchema (v : value) : bool :=
  match v with
  | VObj fields => forallb (λ name, requiredField (λ x, zArray candidatesFileEntrySchema x &&
      match x with VArr [] => false | _ => true end) name v) (map fst fields)
  | _ => false
  end.
(** The candidates of a lead, the first with priority [i] *)
Fixpoint candidatesFrom (i : Z) (entries : list value) : res (list CandidatePerson) :=
  match entries with
  | [] => Ok []
  | e :: entries =>
      match buildCandidatePerson (default "" (asString (fieldOf e "fullName"))) (default "" (asString (fieldOf e "title"))) i with
      | Throw err => Throw err
      | Ok p => match candidatesFrom (i + 1) entries with Throw err => Throw err | Ok ps => Ok (p :: ps) end
      end
  end.
(** [loadCandidatesFile] of the text of a file, or of the error of reading it; of the text of
    an error only its start is kept. *)
Fixpoint candidatesOfLeads (v : value) (names : list string) : res (list (string * list CandidatePerson)) :=
  match names with
  | [] => Ok []
  | name :: names =>
      match candidatesFrom 1 (match fieldOf v name with Some (VArr l) => l | _ => [] end) with
      | Throw e => Throw e
      | Ok ps => match candidatesOfLeads v names with Throw e => Throw e | Ok rest => Ok ((name, ps) :: rest) end
      end
  end.
Definition loadCandidatesFile (path : string) (file : res string) : res (list (string * list CandidatePerson)) :=
  match file with
  | Throw e => Throw (AppError "CANDIDATES_FILE_UNREADABLE" ("Could not read --candidates-file " +:+ quoteText path +:+ ": " +:+
      messageOf e))
  | Ok text =>
      match jsonParse text with
      | None => Throw (AppError "CANDIDATES_FILE_INVALID_JSON" ("--candidates-file " +:+ quoteText path +:+ " is not valid JSON"))
      | Some v =>
          if candidatesFileSchema v then
            candidatesOfLeads v (match v with VObj fields => uniq (map fst fields) | _ => [] end)
          else Throw (AppError "CANDIDATES_FILE_INVALID_SHAPE" ("--candidates-file " +:+ quoteText path +:+ " must be {...}"))
      end
  end.

(** ** leadsEverReachedStatus and maxOpportunityScores *)

Definition leadsEverReachedStatus (leadIds : list string) (status : LeadStatus) (db : PipelineDb) : list string :=
  omap (λ row : string * NewPipelineEvent, let e := row.2 in
             if bool_decide (pe_type e = STATE_TRANSITION) && bool_decide (pe_toStatus e = Some status)
             then match pe_leadId e with Some l => if bool_decide (l ∈ leadIds) then Some l else None | None => None end
             else None) (pipelineEvents db).
Definition maxOpportunityScore (leadId : string) (db : ContactDb) : option Z :=
  foldl (λ best row, if String.eqb row.1 leadId then
    match best with Some b => Some (Z.max b row.2) | None => Some row.2 end else best) None (opportunityScores db).

(** ** eligibility.ts *)

Inductive ResolveCascadeProvider := instantly | hunter.
#[global] Instance ResolveCascadeProvider_eq_dec : EqDecision ResolveCascadeProvider.
Proof. solve_decision. Defined.
Definition cascadeName (p : ResolveCascadeProvider) : string := match p with instantly => "instantly" | hunter => "hunter" end.
Definition CASCADE_ORDER : list ResolveCascadeProvider := [instantly; hunter].
Inductive ResolveSkipReason :=
  | not_qualified | rejected_or_active_outreach | no_verified_domain | no_known_candidates | already_verified
  | no_providers_configured | personal_chain_exhausted.
#[global] Instance ResolveSkipReason_eq_dec : EqDecision ResolveSkipReason.
Proof. solve_decision. Defined.
Record ResolveBatchTarget := {
  tg_lead : Lead; tg_domain : string; tg_candidates : list CandidatePerson; tg_nextSteps : list ResolveCascadeProvider;
  tg_maxOpportunityScore : option Z;
}.
Inductive ClassifyResult := Eligible (target : ResolveBatchTarget) | Ineligible (reason : ResolveSkipReason).

Section eligibility.
Context `{Runtime, Collation}.

Definition rowAt (rows : list ContactEnrichmentResult) (provider : string) (mode : EnrichmentMode) (hash : string) : bool :=
  existsb (λ r, String.eqb (er_provider r) provider && bool_decide (er_mode r = mode) && String.eqb (er_inputHash r) hash) rows.
Definition isProviderStepResolved (rows : list ContactEnrichmentResult) (provider : ResolveCascadeProvider) (domain : string)
    (candidates : list CandidatePerson) : bool :=
  let name := cascadeName provider in
  rowAt rows name ENRICH (computeInputHash ENRICH name domain candidates) ||
  bool_decide (provider = hunter) &&
  rowAt rows "hunter" DOMAIN_SEARCH_ONLY (computeInputHash DOMAIN_SEARCH_ONLY "hunter" domain candidates).
Definition pendingSteps (rows : list ContactEnrichmentResult) (domain : string) (candidates : list CandidatePerson) :
    list ResolveCascadeProvider :=
  List.filter (λ p, negb (isProviderStepResolved rows p domain candidates)) CASCADE_ORDER.
Definition isVerifiedRow (r : ContactEnrichmentResult) : bool := bool_decide (er_outcome r = CE_VERIFIED).
Definition classifyLead (lead : Lead) (durablyQualified : bool) (officialDomain : option string)
    (candidates : option (list CandidatePerson)) (existingResults : list ContactEnrichmentResult)
    (availableProviders : list ResolveCascadeProvider) (score : option Z) : ClassifyResult :=
  if negb durablyQualified then Ineligible not_qualified
  else if negb (isLifecycleEligibleForContactWork (ld_status lead)) then Ineligible rejected_or_active_outreach
  else if negb (truthy_opt officialDomain) then Ineligible no_verified_domain
  else
    let people := default [] candidates in
    let domain := default "" officialDomain in
    if bool_decide (people = []) then Ineligible no_known_candidates
    else if existsb isVerifiedRow existingResults && negb (bool_decide (ld_status lead = BOUNCED))
    then Ineligible already_verified
    else
      let pending := pendingSteps existingResults domain people in
      if bool_decide (pending = []) then Ineligible personal_chain_exhausted
      else
        let nextSteps := List.filter (λ p, bool_decide (p ∈ availableProviders)) pending in
        if bool_decide (nextSteps = []) then Ineligible no_providers_configured
        else Eligible {| tg_lead := lead; tg_domain := domain; tg_candidates := people; tg_nextSteps := nextSteps;
                         tg_maxOpportunityScore := score |}.
Record ResolveBatchInputs := {
  ri_durablyQualifiedLeadIds : list string; ri_officialDomain : string → option string;
  ri_candidates : string → option (list CandidatePerson); ri_existingResults : string → list ContactEnrichmentResult;
  ri_maxOpportunityScore : string → option Z; ri_availableProviders : list ResolveCascadeProvider;
}.
Record FallbackCandidate := { fc_lead : Lead; fc_candidates : list CandidatePerson; fc_domain : string }.
Record ResolveBatchSelection := {
  rs_selected : list ResolveBatchTarget; rs_skipped : list (Lead * ResolveSkipReason);
  rs_fallbackCandidates : list FallbackCandidate;
}.
Definition classifyWith (data : ResolveBatchInputs) (l : Lead) : ClassifyResult :=
  classifyLead l (bool_decide (ld_id l ∈ ri_durablyQualifiedLeadIds data)) (ri_officialDomain data (ld_id l))
    (ri_candidates data (ld_id l)) (ri_existingResults data (ld_id l)) (ri_availableProviders data)
    (ri_maxOpportunityScore data (ld_id l)).
Definition targetOf (data : ResolveBatchInputs) (l : Lead) : option ResolveBatchTarget :=
  match classifyWith data l with Eligible t => Some t | Ineligible _ => None end.
Definition skippedOf (data : ResolveBatchInputs) (l : Lead) : option (Lead * ResolveSkipReason) :=
  match classifyWith data l with Eligible _ => None | Ineligible reason => Some (l, reason) end.
Definition fallbackOf (data : ResolveBatchInputs) (l : Lead) : option FallbackCandidate :=
  match classifyWith data l with
  | Ineligible personal_chain_exhausted =>
      match ri_officialDomain data (ld_id l), ri_candidates data (ld_id l) with
      | Some domain, Some people =>
          if truthy domain then Some {| fc_lead := l; fc_candidates := people; fc_domain := domain |} else None
      | _, _ => None
      end
  | _ => None
  end.
Definition byStrength (a b : ResolveBatchTarget) : Z :=
  let score t := default (-1) (tg_maxOpportunityScore t) in
  let d := score b - score a in
  if d =? 0 then
    let d := ld_createdAt (tg_lead a) - ld_createdAt (tg_lead b) in
    if d =? 0 then localeCompare (ld_id (tg_lead a)) (ld_id (tg_lead b)) else d
  else d.
Definition selectResolveBatchTargets (all : list Lead) (data : ResolveBatchInputs) (limit : Z) : ResolveBatchSelection :=
  {| rs_selected := sliceTo limit (sortBy byStrength (omap (targetOf data) all));
     rs_skipped := omap (skippedOf data) all; rs_fallbackCandidates := omap (fallbackOf data) all |}.
End eligibility.

(** ** contact-resolve-batch.ts *)

Record ResolveConfig := {
  rc_enrichment : EnrichmentConfig; rc_MAX_LEADS_PER_RUN : Z; rc_MAX_REQUESTS_PER_RUN : Z; rc_MAX_CREDITS_PER_RUN : Z;
}.
Record ContactResolveBatchOptions := {
  ro_candidatesFile : option string; ro_limit : option string; ro_confirm : bool; ro_maxTotalRequests : option string;
  ro_maxTotalCredits : option string; ro_stopAfterFirstVerified : bool;
}.
Definition parsePositiveInt (value : option string) (flag : string) (fallback : Z) : res Z :=
  match value with
  | None => Ok fallback
  | Some text =>
      let refused := AppError "INVALID_ARGUMENT" (flag +:+ " must be a positive integer (got " +:+ quoteText text +:+ ").") in
      match parseInt10 text with
      | Some n => if n <=? 0 then Throw refused else Ok n
      | None => Throw refused
      end
  end.
(** A fallback that was accepted, and what the live part of a batch counts *)
Record AcceptedFallback := {
  fa_leadId : string; fa_email : string; fa_sourceFactId : string; fa_sourceUrl : string; fa_candidates : list CandidatePerson;
}.
Record ResolveTotals := {
  rt_requests : Z; rt_credits : Z; rt_verified : Z; rt_unresolved : Z; rt_errored : Z; rt_stoppedEarly : option string;
}.
Definition noTotals : ResolveTotals :=
  {| rt_requests := 0; rt_credits := 0; rt_verified := 0; rt_unresolved := 0; rt_errored := 0; rt_stoppedEarly := None |}.
Definition spend (r : ContactEnrichmentResult) (requests : Z) (t : ResolveTotals) : ResolveTotals :=
  {| rt_requests := rt_requests t + requests; rt_credits := rt_credits t + er_creditsEstimated r; rt_verified := rt_verified t;
     rt_unresolved := rt_unresolved t; rt_errored := rt_errored t; rt_stoppedEarly := rt_stoppedEarly t |}.
Definition stopEarly (reason : string) (t : ResolveTotals) : ResolveTotals :=
  {| rt_requests := rt_requests t; rt_credits := rt_credits t; rt_verified := rt_verified t; rt_unresolved := rt_unresolved t;
     rt_errored := rt_errored t; rt_stoppedEarly := Some reason |}.
Definition countTarget (verified errored : bool) (t : ResolveTotals) : ResolveTotals :=
  {| rt_requests := rt_requests t; rt_credits := rt_credits t;
     rt_verified := if verified then rt_verified t + 1 else rt_verified t;
     rt_unresolved := if verified || errored then rt_unresolved t else rt_unresolved t + 1;
     rt_errored := if negb verified && errored then rt_errored t + 1 else rt_errored t;
     rt_stoppedEarly := rt_stoppedEarly t |}.
(** [provenance.requestsUsed ?? 0] *)
Definition requestsUsedOf (r : ContactEnrichmentResult) : Z :=
  match er_provenance r with
  | JObj fields => match List.find (λ f, String.eqb f.1 "requestsUsed") fields with Some (_, JNum n) => n | _ => 0 end
  | _ => 0
  end.
(** How the steps of one target end: whether any was taken, whether a contact was verified and whether one failed *)
Record StepsEnd := { se_attempted : bool; se_verified : bool; se_errored : bool; se_totals : ResolveTotals }.
Record BatchOutcome := {
  bo_selection : ResolveBatchSelection; bo_fallbackAccepted : list AcceptedFallback;
  bo_fallbackRejected : list (string * string); bo_totals : ResolveTotals; bo_genericCount : Z;
}.

Section batch.
Context `{Runtime, RowOrder, Collation, EnrichmentTransport} (config : ResolveConfig).

Definition buildProvider (name : ResolveCascadeProvider) : res ContactEnrichmentProvider :=
  match name with
  | instantly => buildInstantlyContactEnrichmentProvider (rc_enrichment config)
  | hunter => buildHunterContactEnrichmentProvider (rc_enrichment config)
  end.
Definition isNotAllowed (e : error) : bool :=
  match e with AppError code _ => String.eqb code "ENRICHMENT_PROVIDER_NOT_ALLOWED" | _ => false end.
Definition Services : Type := list (ResolveCascadeProvider * ContactEnrichmentProvider).
Fixpoint liveServices (names : list ResolveCascadeProvider) : res Services :=
  match names with
  | [] => Ok []
  | name :: names =>
      match buildProvider name with
      | Ok p => match liveServices names with Throw e => Throw e | Ok rest => Ok ((name, p) :: rest) end
      | Throw e => if isNotAllowed e then liveServices names else Throw e
      end
  end.
Definition plannedProviders : list ResolveCascadeProvider :=
  List.filter (λ name, ec_ENABLED (rc_enrichment config) &&
    truthy_opt match name with
      | instantly => ec_INSTANTLY_API_KEY (rc_enrichment config) | hunter => ec_HUNTER_API_KEY (rc_enrichment config)
      end) CASCADE_ORDER.
Definition perLeadCaps : EnrichmentRunCaps :=
  {| ca_maxRequests := Some (ec_MAX_REQUESTS_PER_RUN (rc_enrichment config));
     ca_maxCredits := Some (ec_MAX_CREDITS_PER_RUN (rc_enrichment config)); ca_minCreditsPerLookup := 1 |}.

(** What is read before anything is decided: only of leads that may be worked on *)
Definition currentFactOf (leadId : string) (t : FactType) (db : ContactDb) : option LeadFactRow :=
  List.find (λ r, factOf leadId t r && lf_isCurrent r) (leadFacts (contactSystem db)).
Definition workable (durable : list string) (l : Lead) : bool :=
  bool_decide (ld_id l ∈ durable) && isLifecycleEligibleForContactWork (ld_status l).
Definition batchInputs (candidates : list (string * list CandidatePerson)) (available : list ResolveCascadeProvider)
    (all : list Lead) (db : ContactDb) : ResolveBatchInputs :=
  let durable := leadsEverReachedStatus (map ld_id all) QUALIFIED (pipelineDb (contactSystem db)) in
  let qualified := map ld_id (List.filter (workable durable) all) in
  let only {A} (empty : A) (f : string → A) leadId := if bool_decide (leadId ∈ qualified) then f leadId else empty in
  {| ri_durablyQualifiedLeadIds := durable;
     ri_officialDomain := only None (λ leadId, lf_value <$> currentFactOf leadId FT_official_domain db);
     ri_candidates := λ leadId, snd <$> List.find (λ p, String.eqb p.1 leadId) candidates;
     ri_existingResults := only [] (λ leadId, enrichmentsOf leadId db);
     ri_maxOpportunityScore := only None (λ leadId, maxOpportunityScore leadId db); ri_availableProviders := available |}.
Definition typeText (t : ContactResolutionType) : string :=
  match t with PERSONAL_VERIFIED => "PERSONAL_VERIFIED" | GENERIC_OFFICIAL => "GENERIC_OFFICIAL" end.
(** The fallback of a lead that has none of the steps left *)
Definition decideFallback (db : ContactDb) (f : FallbackCandidate) : AcceptedFallback + string * string :=
  let leadId := ld_id (fc_lead f) in
  match getCurrentResolution leadId db with
  | Some existing => inr (leadId, "already resolved as " +:+ typeText (cr_resolutionType existing))
  | None =>
      match evaluateOfficialInboxFallback (Some (fc_domain f)) (currentFactOf leadId FT_contact_email db) with
      | FallbackAccepted email _ sourceFactId sourceUrl =>
          inl {| fa_leadId := leadId; fa_email := email; fa_sourceFactId := sourceFactId; fa_sourceUrl := sourceUrl;
                 fa_candidates := fc_candidates f |}
      | FallbackRefused reason => inr (leadId, reason)
      end
  end.
Definition acceptedFallbacks (db : ContactDb) (l : list FallbackCandidate) : list AcceptedFallback :=
  omap (λ f, match decideFallback db f with inl a => Some a | inr _ => None end) l.
Definition rejectedFallbacks (db : ContactDb) (l : list FallbackCandidate) : list (string * string) :=
  omap (λ f, match decideFallback db f with inl _ => None | inr r => Some r end) l.

(** *** The live part *)

Definition overBudget (maxRequests maxCredits : Z) (t : ResolveTotals) : bool :=
  (maxRequests <? rt_requests t + ec_MAX_REQUESTS_PER_RUN (rc_enrichment config)) ||
  (maxCredits <? rt_credits t + ec_MAX_CREDITS_PER_RUN (rc_enrichment config)).
Definition personalResolution (leadId : string) (r : ContactEnrichmentResult) (contact : VerifiedContact) : EM string :=
  transaction (writeCurrentResolution
    {| nr_leadId := leadId; nr_resolutionType := PERSONAL_VERIFIED; nr_recipientEmail := vc_email contact;
       nr_sourceFactId := None; nr_enrichmentResultId := Some (er_id r); nr_sourceUrl := None;
       nr_intendedDecisionMakers := [] |}).
Definition acceptedContact (r : ContactEnrichmentResult) : option VerifiedContact :=
  if isVerifiedRow r then er_accepted r else None.
Fixpoint takeSteps (services : Services) (maxRequests maxCredits : Z) (t : ResolveBatchTarget)
    (steps : list ResolveCascadeProvider) (attempted : bool) (totals : ResolveTotals) : EM StepsEnd :=
  let ends verified errored attempted totals :=
    mret {| se_attempted := attempted; se_verified := verified; se_errored := errored; se_totals := totals |} in
  match steps with
  | [] => ends false false attempted totals
  | step :: steps =>
      if overBudget maxRequests maxCredits totals
      then ends false false attempted (stopEarly "run-wide budget reached" totals)
      else
        match snd <$> List.find (λ s, bool_decide (s.1 = step)) services with
        | None => takeSteps services maxRequests maxCredits t steps attempted totals
        | Some provider =>
            answer ← tryCatch (runEnrichment provider (ld_id (tg_lead t)) (tg_domain t) (tg_candidates t) perLeadCaps true false);
            match answer with
            | Throw _ => ends false true true totals
            | Ok r =>
                let totals := spend r (requestsUsedOf r) totals in
                match acceptedContact r with
                | None => takeSteps services maxRequests maxCredits t steps true totals
                | Some contact =>
                    written ← tryCatch (personalResolution (ld_id (tg_lead t)) r contact);
                    ends true (negb (is_ok written)) true totals
                end
            end
        end
  end.
Fixpoint resolveTargets (services : Services) (maxRequests maxCredits : Z) (stopAfterFirst : bool)
    (targets : list ResolveBatchTarget) (totals : ResolveTotals) : EM ResolveTotals :=
  match targets with
  | [] => mret totals
  | t :: targets =>
      e ← takeSteps services maxRequests maxCredits t (tg_nextSteps t) false totals;
      if bool_decide (is_Some (rt_stoppedEarly (se_totals e))) && negb (se_attempted e) then mret (se_totals e)
      else
        let totals := countTarget (se_verified e) (se_errored e) (se_totals e) in
        if bool_decide (is_Some (rt_stoppedEarly totals)) then mret totals
        else if se_verified e && stopAfterFirst
        then mret (stopEarly "first VERIFIED contact found (--stop-after-first-verified)" totals)
        else resolveTargets services maxRequests maxCredits stopAfterFirst targets totals
  end.
Definition genericResolution (f : AcceptedFallback) : EM string :=
  transaction (writeCurrentResolution
    {| nr_leadId := fa_leadId f; nr_resolutionType := GENERIC_OFFICIAL; nr_recipientEmail := fa_email f;
       nr_sourceFactId := Some (fa_sourceFactId f); nr_enrichmentResultId := None; nr_sourceUrl := Some (fa_sourceUrl f);
       nr_intendedDecisionMakers := toIntendedDecisionMakers (fa_candidates f) |}).
Definition contactResolveBatchCommand (opts : ContactResolveBatchOptions) (file : res string) : EM BatchOutcome :=
  let live := ro_confirm opts in
  if negb (truthy_opt (ro_candidatesFile opts))
  then throw (AppError "CANDIDATES_FILE_REQUIRED" "--candidates-file <path> is required.")
  else
    candidates ← lift_res (loadCandidatesFile (default "" (ro_candidatesFile opts)) file);
    limit ← lift_res (parsePositiveInt (ro_limit opts) "--limit" (rc_MAX_LEADS_PER_RUN config));
    let limit := Z.min limit (rc_MAX_LEADS_PER_RUN config) in
    maxRequests ← lift_res (parsePositiveInt (ro_maxTotalRequests opts) "--max-total-requests" (rc_MAX_REQUESTS_PER_RUN config));
    maxCredits ← lift_res (parsePositiveInt (ro_maxTotalCredits opts) "--max-total-credits" (rc_MAX_CREDITS_PER_RUN config));
    services ← lift_res (if live then liveServices CASCADE_ORDER else Ok []);
    let available := if live then map fst services else plannedProviders in
    selection ← query (λ db, let all := recentLeads 1000 (pipelineDb (contactSystem db)) in
      selectResolveBatchTargets all (batchInputs candidates available all db) limit);
    accepted ← query (λ db, acceptedFallbacks db (rs_fallbackCandidates selection));
    rejected ← query (λ db, rejectedFallbacks db (rs_fallbackCandidates selection));
    let outcome totals generic := {| bo_selection := selection; bo_fallbackAccepted := accepted;
      bo_fallbackRejected := rejected; bo_totals := totals; bo_genericCount := generic |} in
    if negb live then mret (outcome noTotals 0)
    else if bool_decide (services = []) && bool_decide (accepted = []) then
      throw (AppError "NO_PROVIDERS_AVAILABLE" "contact-resolve-batch: no cascade provider is configured (need CONTACT_ENRICHMENT_ENABLED + at least one of INSTANTLY_API_KEY/HUNTER_API_KEY), and no lead qualifies for the zero-cost GENERIC_OFFICIAL fallback.")
    else
      totals ← resolveTargets services maxRequests maxCredits (ro_stopAfterFirstVerified opts) (rs_selected selection) noTotals;
      genericCount ← fold_each accepted (λ f n, _ ← genericResolution f; mret (n + 1)) 0;
      mret (outcome totals genericCount).

(** ** contact-enrich.ts *)

Record ContactEnrichCliOptions := {
  eo_lead : option string; eo_candidate : list string; eo_domain : option string; eo_preview : bool; eo_confirm : bool;
  eo_maxCredits : option string; eo_maxRequests : option string; eo_forceRefresh : bool; eo_domainSearchOnly : bool;
}.
Definition validateDomainSearchOnlyFlags (opts : ContactEnrichCliOptions) (providerName : string) : res () :=
  if negb (eo_domainSearchOnly opts) then Ok tt
  else if negb (String.eqb providerName "hunter")
  then Throw (AppError "DOMAIN_SEARCH_ONLY_HUNTER_ONLY" "--domain-search-only requires CONTACT_ENRICHMENT_PROVIDER=hunter.")
  else if negb (eo_confirm opts)
  then Throw (AppError "DOMAIN_SEARCH_ONLY_REQUIRES_CONFIRM"
    "--domain-search-only requires --confirm (there is no dry/preview form of this bypass).")
  else Ok tt.
Definition parseCandidate (i : Z) (spec : string) : res CandidatePerson :=
  let fullName := trim (upTo "|" spec) in
  let title := match cutAt "|" spec with Some (_, rest) => trim (upTo "|" rest) | None => "" end in
  if negb (truthy fullName) || negb (truthy title)
  then Throw (AppError "BAD_CANDIDATE" ("--candidate must be " +:+ quoteText "Full Name|Title" +:+ " (got " +:+ quoteText spec +:+ ")."))
  else buildCandidatePerson fullName title i.
Fixpoint parseCandidates (i : Z) (specs : list string) : res (list CandidatePerson) :=
  match specs with
  | [] => Ok []
  | spec :: specs =>
      match parseCandidate i spec with
      | Throw e => Throw e
      | Ok p => match parseCandidates (i + 1) specs with Throw e => Throw e | Ok ps => Ok (p :: ps) end
      end
  end.
(** [a || b] of two strings *)
Definition orText (a b : option string) : option string := if truthy_opt a then a else b.
Definition capOf (flag : option string) (fallback : Z) : option Z :=
  if truthy_opt flag then parseInt10 (default "" flag) else Some fallback.
(** Nothing is returned of a plan, which only prints. *)
Definition contactEnrichCommand (opts : ContactEnrichCliOptions) : EM (option ContactEnrichmentResult) :=
  let leadId := trim (default "" (eo_lead opts)) in
  if negb (truthy leadId)
  then throw (AppError "LEAD_REQUIRED" "--lead <id> is required (exactly one lead; no bulk mode).")
  else
    lead ← zoom inContacts (zoom onPipeline (getLead leadId));
    match lead with
    | None => throw (AppError "LEAD_NOT_FOUND" ("Lead " +:+ leadId +:+ " not found."))
    | Some lead =>
        candidates ← lift_res (parseCandidates 1 (eo_candidate opts));
        if bool_decide (candidates = [])
        then throw (AppError "CANDIDATES_REQUIRED" ("At least one --candidate " +:+ quoteText "Full Name|Title" +:+ " is required."))
        else
          fact ← query (currentFactOf leadId FT_official_domain);
          let domain := toLowerCase (trim (default "" (orText (trim <$> eo_domain opts)
            (orText (lf_value <$> fact) (ld_normalizedDomain lead))))) in
          if negb (truthy domain)
          then throw (AppError "DOMAIN_REQUIRED" "No domain: pass --domain or ensure the lead has an official_domain fact.")
          else
            let caps := {| ca_maxRequests := capOf (eo_maxRequests opts) (ec_MAX_REQUESTS_PER_RUN (rc_enrichment config));
                           ca_maxCredits := capOf (eo_maxCredits opts) (ec_MAX_CREDITS_PER_RUN (rc_enrichment config));
                           ca_minCreditsPerLookup := 1 |} in
            lift_res (validateDomainSearchOnlyFlags opts (ec_PROVIDER (rc_enrichment config))) ;;
            if negb (eo_preview opts) && negb (eo_confirm opts) then mret None
            else
              provider ← lift_res (buildContactEnrichmentProvider (rc_enrichment config));
              r ← (if eo_domainSearchOnly opts
                   then runDomainSearchOnly provider leadId domain candidates caps (eo_forceRefresh opts)
                   else runEnrichment provider leadId domain candidates caps (eo_confirm opts && ec_ALLOW_PAID (rc_enrichment config))
                     (eo_forceRefresh opts));
              mret (Some r)
    end.
End batch.
