(* ===== verification/GmailDrafts.v ===== *)
(** * Creating Gmail drafts: src/domain/gmail/gmail-service.ts and eligibility.ts

    [GmailDraftService.createDraft] puts one approved email into Gmail, over its store
    (src/persistence/repositories/gmail.repo.ts) and a provider; [GmailInputRepository]
    (gmail-input.repo.ts) and [createGmailDraftsCommand]
    (src/cli/commands/create-gmail-drafts.ts) give it its work.  [HttpGmailDraftProvider] is
    src/integrations/gmail/http-gmail.ts. *)
From S2P Require Import Prelude.
From S2P Require Import JsText.
From S2P Require Import JsonText.
From S2P Require Import ReplyClassification.
From S2P Require Import OutreachStore.
From S2P Require Import LeadLifecycle.
From S2P Require Import PipelineDb.
From S2P Require Import SendGate.
From S2P Require Import Mime.
From S2P Require Import SendService.
From S2P Require Import GmailHttp.
From S2P Require Import SystemDb.
Open Scope Z_scope.
Open Scope list_scope.

(** ** The provider: src/integrations/gmail/provider.ts *)

Record CreateDraftRequest := {
  cd_rawBase64Url : string; cd_idempotencyFingerprint : string; cd_threadId : option string;
}.
Record GmailDraftRef := { dr_draftId : string; dr_messageId : option string; dr_threadId : option string }.
Inductive GmailResultOutcome := gm_ok | gm_rate_limited | gm_transient | gm_auth_error | gm_invalid.
#[global] Instance GmailResultOutcome_eq_dec : EqDecision GmailResultOutcome.
Proof. solve_decision. Defined.
Record GmailResult := {
  gr_outcome : GmailResultOutcome; gr_ref : option GmailDraftRef; gr_reason : option string;
}.
Class GmailDraftProvider := {
  provider_name : string;
  createProviderDraft : nat → CreateDraftRequest → res GmailResult;
  verifyDraftAccount : nat → string → res AccountAnswer;
}.

(** *** [HttpGmailDraftProvider]

    A cast of a field of an answer to a string is taken at its word: what is not a string
    counts as absent. *)
Section http.
Context `{GmailTransport} (n : nat).

Definition mapStatus (status : Z) : GmailResultOutcome :=
  if (200 <=? status) && (status <? 300) then gm_ok
  else if (status =? 401) || (status =? 403) then gm_auth_error
  else if status =? 429 then gm_rate_limited
  else if 500 <=? status then gm_transient else gm_invalid.
(** The status and the parsed answer; [None] stands for [null], which a body that is no
    JSON gives, too. *)
Definition callJson (method : HttpMethod) (path : string) (body : option json) : res (Z * option value) :=
  token ← getAccessToken n;
  let payload := stringify <$> body in
  answer ← request n {| rq_method := method; rq_url := (GMAIL_API_ORIGIN +:+ path)%string;
    rq_headers := [("Authorization", ("Bearer " +:+ token)%string); ("Content-Type", "application/json")] ++
      match payload with
      | Some p => [("Content-Length", pretty (Z.of_nat (String.length p)))]
      | None => []
      end;
    rq_body := payload; rq_timeoutMs := timeoutMs |};
  Ok (rs_status answer, match jsonParse (rs_body answer) with Some VNull => None | v => v end).
(** The digits before the exponent are all zero. *)
Fixpoint isZero (literal : string) : bool :=
  match literal with
  | "" => true
  | String c s =>
      if bool_decide (c ∈ ["e"; "E"]%char) then true
      else negb (isDigit c && negb (bool_decide (c = "0"%char))) && isZero s
  end.
Definition falsy (v : value) : bool :=
  match v with
  | VNull | VBool false | VStr "" => true
  | VNum literal => isZero literal
  | _ => false
  end.
Definition errorText (e : error) : string :=
  match e with AppError _ m | JsError m => m | PgError code constraint => constraint end.
Definition httpCreateDraft (req : CreateDraftRequest) : GmailResult :=
  let failure outcome reason := {| gr_outcome := outcome; gr_ref := None; gr_reason := Some reason |} in
  let message := JObj (("raw", JStr (cd_rawBase64Url req)) ::
    if truthy_opt (cd_threadId req) then [("threadId", json_opt (cd_threadId req))] else []) in
  match callJson POST "/gmail/v1/users/me/drafts" (Some (JObj [("message", message)])) with
  | Throw e => failure gm_transient (errorText e)
  | Ok (status, answer) =>
      let outcome := mapStatus status in
      let rejected := failure outcome ("drafts.create status " +:+ pretty status)%string in
      match outcome, answer with
      | gm_ok, Some json =>
          if falsy json then rejected
          else
            let message := default VNull (fieldOf json "message") in
            match asString (fieldOf json "id") with
            | None | Some "" => failure gm_invalid "drafts.create response missing draft id"
            | Some draftId =>
                {| gr_outcome := gm_ok; gr_reason := None;
                   gr_ref := Some {| dr_draftId := draftId; dr_messageId := asString (fieldOf message "id");
                                     dr_threadId := asString (fieldOf message "threadId") |} |}
            end
      | _, _ => rejected
      end
  end.
Definition httpVerifyDraftAccount (expectedEmail : string) : AccountAnswer :=
  let unknown reason := {| aa_ok := false; aa_email := None; aa_reason := Some reason |} in
  match callJson GET "/gmail/v1/users/me/profile" None with
  | Throw e => unknown (errorText e)
  | Ok (status, answer) =>
      let rejected := unknown ("getProfile status " +:+ pretty status)%string in
      if (status =? 403) || (status =? 401) then unknown "profile_not_accessible_under_compose_scope"
      else
        match mapStatus status, answer with
        | gm_ok, Some json =>
            if falsy json then rejected
            else
              let email := asString (fieldOf json "emailAddress") in
              {| aa_ok := bool_decide (email = Some expectedEmail); aa_email := email; aa_reason := None |}
        | _, _ => rejected
        end
  end.
End http.
#[export] Instance HttpGmailDraftProvider `{GmailTransport} : GmailDraftProvider := {|
  provider_name := "http-gmail";
  createProviderDraft n req := Ok (httpCreateDraft n req);
  verifyDraftAccount n email := Ok (httpVerifyDraftAccount n email);
|}.

(** ** eligibility.ts *)

Record GmailEligibilitySnapshot := {
  ge_leadStatus : string; ge_finalization : option (option string * string); ge_recipientEmail : option string;
  ge_featureEnabled : bool; ge_draftActionsEnabled : bool; ge_credentialsConfigured : bool;
  ge_existingDraftForFingerprint : bool;
}.
Record GmailEligibilityResult := {
  gel_eligible : bool; gel_duplicateReusable : bool; gel_reasons : list string;
}.
Definition draftTextReasons (f : option (option string * string)) : list string :=
  match f with
  | None => ["no_finalized_email"]
  | Some (decision, body) =>
      when (negb (bool_decide (decision = Some "APPROVED")))
        ("finalized_not_approved:" +:+ default "none" decision)%string ++
      when (includes body "{{DEMO_URL}}") "unresolved_demo_url" ++
      when (hasUnresolvedTokens (resolveSenderName body "")) "unexpected_unresolved_token"
  end.
Definition draftRecipientReasons (r : option string) : list string :=
  if negb (truthy_opt r) then ["no_verified_recipient"]
  else when (negb (email_re_test (default "" r))) "recipient_not_valid_email".
Definition checkGmailEligibility (s : GmailEligibilitySnapshot) : GmailEligibilityResult :=
  let reasons :=
    when (negb (ge_featureEnabled s)) "feature_disabled" ++
    when (negb (ge_draftActionsEnabled s)) "gmail_draft_actions_disabled" ++
    when (negb (ge_credentialsConfigured s)) "credentials_missing" ++
    when (neq (ge_leadStatus s) "HUMAN_APPROVED") ("lead_not_human_approved:" +:+ ge_leadStatus s)%string ++
    draftTextReasons (ge_finalization s) ++ draftRecipientReasons (ge_recipientEmail s) in
  if ge_existingDraftForFingerprint s
  then {| gel_eligible := false; gel_duplicateReusable := true; gel_reasons := ["duplicate_draft_exists"] |}
  else {| gel_eligible := (length reasons =? 0)%nat; gel_duplicateReusable := false; gel_reasons := reasons |}.

(** ** The service *)

Inductive GmailOutcome :=
  | G_DRAFT_CREATED | G_DUPLICATE_REUSED | G_INVALID_ELIGIBILITY | G_INVALID_TOKENS | G_NO_RECIPIENT
  | G_ACCOUNT_MISMATCH | G_DRAFT_FAILED | G_AUTH_ERROR | G_RATE_LIMITED | G_TRANSIENT_ERROR
  | G_BUDGET_BLOCKED | G_MANUAL_REVIEW_REQUIRED.
#[global] Instance GmailOutcome_eq_dec : EqDecision GmailOutcome.
Proof. solve_decision. Defined.
Definition gmailOutcomeText (o : GmailOutcome) : string :=
  match o with
  | G_DRAFT_CREATED => "DRAFT_CREATED" | G_DUPLICATE_REUSED => "DUPLICATE_REUSED"
  | G_INVALID_ELIGIBILITY => "INVALID_ELIGIBILITY" | G_INVALID_TOKENS => "INVALID_TOKENS"
  | G_NO_RECIPIENT => "NO_RECIPIENT" | G_ACCOUNT_MISMATCH => "ACCOUNT_MISMATCH"
  | G_DRAFT_FAILED => "DRAFT_FAILED" | G_AUTH_ERROR => "AUTH_ERROR" | G_RATE_LIMITED => "RATE_LIMITED"
  | G_TRANSIENT_ERROR => "TRANSIENT_ERROR" | G_BUDGET_BLOCKED => "BUDGET_BLOCKED"
  | G_MANUAL_REVIEW_REQUIRED => "MANUAL_REVIEW_REQUIRED"
  end.
Record GmailConfig := {
  gc_gmailAccount : string; gc_senderName : option string; gc_featureEnabled : bool;
  gc_draftActionsEnabled : bool; gc_credentialsConfigured : bool; gc_maxPerDay : Z; gc_minIntervalMs : Z;
}.
Record GmailFinalization := {
  gf_id : string; gf_resolvedBody : string; gf_resolvedBodyHash : string; gf_finalHumanDecision : option string;
}.
Record GmailInput := {
  gi_leadId : string; gi_leadStatus : string; gi_finalization : option GmailFinalization;
  gi_subject : string; gi_recipientEmail : option string; gi_threadId : option string;
}.
Record GmailResultOut := { go_leadId : string; go_outcome : GmailOutcome; go_draftId : option string }.

(** *** The store: gmail.repo.ts *)

Definition draftRows (db : SystemDb) : list GmailDraftRow := (map_to_list (gmailDrafts db)).*2.
Definition draftsToday (nowD : Z) (db : SystemDb) : Z :=
  Z.of_nat (length (List.filter (λ g, utcDayStart nowD <=? gw_createdAt g) (draftRows db))).
Definition lastAttemptAt (db : SystemDb) : option Z := gw_createdAt <$> latestBy gw_createdAt (draftRows db).
Definition hasFingerprint (fingerprint : string) (g : GmailDraftRow) : bool :=
  String.eqb (gw_idempotencyFingerprint g) fingerprint.
Definition existingByFingerprint (account fingerprint : string) (db : SystemDb) : bool :=
  existsb (λ g, String.eqb (gw_gmailAccount g) account && hasFingerprint fingerprint g &&
                String.eqb (gw_outcome g) "DRAFT_CREATED") (draftRows db).
Definition findReservedByFingerprint (fingerprint : string) (db : SystemDb) : option GmailDraftRow :=
  latestBy gw_createdAt (List.filter (λ g, hasFingerprint fingerprint g &&
    negb (bool_decide (gw_outcome g ∈ ["DRAFT_CREATED"; "DUPLICATE_REUSED"]))) (draftRows db)).

(** [gmail_drafts_provider_draft_uk], for the row [g] among the others *)
Definition providerDraftConflict (g : GmailDraftRow) (db : SystemDb) : bool :=
  match gw_providerDraftId g with
  | Some id => existsb (λ g', negb (String.eqb (gw_id g') (gw_id g)) && String.eqb (gw_provider g') (gw_provider g) &&
                              bool_decide (gw_providerDraftId g' = Some id)) (draftRows db)
  | None => false
  end.
Definition fingerprintConflict (g : GmailDraftRow) (db : SystemDb) : bool :=
  existsb (λ g', String.eqb (gw_gmailAccount g') (gw_gmailAccount g) &&
                 hasFingerprint (gw_idempotencyFingerprint g) g') (draftRows db).
Definition checkInsertDraft (g : GmailDraftRow) (db : SystemDb) : option error :=
  refuse
    [(bool_decide (is_Some (gmailDrafts db !! gw_id g)), uniqueViolation "gmail_drafts_pkey");
     (fingerprintConflict g db, uniqueViolation "gmail_drafts_fingerprint_uk");
     (providerDraftConflict g db, uniqueViolation "gmail_drafts_provider_draft_uk");
     (negb (bool_decide (is_Some (leads (pipelineDb db) !! gw_leadId g))),
       foreignKeyViolation "gmail_drafts_lead_id_fkey");
     (match gw_finalizedEmailId g with
      | Some f => negb (bool_decide (is_Some (finalizations db !! f))) | None => false end,
       foreignKeyViolation "gmail_drafts_finalized_email_id_fkey")].
Definition insertDraftRow (g : GmailDraftRow) (db : SystemDb) : SystemDb :=
  setGmailDrafts <[gw_id g := g]> (put onPipeline (addDraftKey (gw_id g) (pipelineDb db)) db).
Definition reserveRun (g : GmailDraftRow) : SM () := guarded (checkInsertDraft g) (insertDraftRow g).

(** The columns that the completion of a run may set *)
Record DraftCompletion := {
  dk_outcome : GmailOutcome; dk_ref : option GmailDraftRef; dk_errorClass : option string; dk_completedAt : Z;
}.
Definition completedRow (patch : DraftCompletion) (g : GmailDraftRow) : GmailDraftRow :=
  {| gw_id := gw_id g; gw_leadId := gw_leadId g; gw_finalizedEmailId := gw_finalizedEmailId g;
     gw_recipientEmail := gw_recipientEmail g; gw_senderEmail := gw_senderEmail g;
     gw_gmailAccount := gw_gmailAccount g;
     gw_providerDraftId := match dk_ref patch with Some r => Some (dr_draftId r) | None => gw_providerDraftId g end;
     gw_threadId := match dk_ref patch with Some r => dr_threadId r | None => gw_threadId g end;
     gw_messageId := match dk_ref patch with Some r => dr_messageId r | None => gw_messageId g end;
     gw_outcome := gmailOutcomeText (dk_outcome patch); gw_provider := gw_provider g;
     gw_idempotencyFingerprint := gw_idempotencyFingerprint g; gw_sourceEmailVersion := gw_sourceEmailVersion g;
     gw_errorClass := dk_errorClass patch; gw_createdAt := gw_createdAt g;
     gw_completedAt := Some (dk_completedAt patch) |}.
Definition completeRun (runId : string) (patch : DraftCompletion) : SM () :=
  if negb (truthy runId) then mret tt
  else guarded (λ db, match gmailDrafts db !! runId with
                      | Some g => refuse [(providerDraftConflict (completedRow patch g) db,
                                           uniqueViolation "gmail_drafts_provider_draft_uk")]
                      | None => None end)
         (setGmailDrafts (alter (completedRow patch) runId)).

Section service.
Context `{Runtime, GmailDraftProvider} (c : GmailConfig).
(** What other processes do to the database between the steps of a creation *)
Context (interfere : nat → SM ()).

Definition gmailNote (input : GmailInput) (runId : string) (outcome : GmailOutcome) (data : json) :
    NewPipelineEvent :=
  noteEvent (gi_leadId input) (Some runId) ("gmail: " +:+ gmailOutcomeText outcome)%string data.
Definition terminal (input : GmailInput) (runId : string) (outcome : GmailOutcome) (route : option LeadStatus)
    (errorClass : option string) (reservedRunId : option string) : SM GmailResultOut :=
  transaction (
    (match reservedRunId with
     | Some id =>
         if truthy id then
           nowD ← now;
           completeRun id {| dk_outcome := outcome; dk_ref := None; dk_errorClass := errorClass; dk_completedAt := nowD |}
         else mret tt
     | None => mret tt
     end) ;;
    (match route with
     | Some to => zoom onPipeline (transitionFrom (gi_leadId input) HUMAN_APPROVED to)
     | None => mret tt
     end) ;;
    zoom onPipeline (recordEvent (gmailNote input runId outcome
      (JObj [("outcome", JStr (gmailOutcomeText outcome)); ("errorClass", json_opt errorClass)])))) ;;
  mret {| go_leadId := gi_leadId input; go_outcome := outcome; go_draftId := None |}.
Definition finishDraft (input : GmailInput) (runId reservedRunId : string) (ref : GmailDraftRef) : SM GmailResultOut :=
  transaction (
    nowD ← now;
    completeRun reservedRunId {| dk_outcome := G_DRAFT_CREATED; dk_ref := Some ref; dk_errorClass := None;
                                 dk_completedAt := nowD |} ;;
    zoom onPipeline (transitionFrom (gi_leadId input) HUMAN_APPROVED DRAFT_CREATED) ;;
    zoom onPipeline (recordEvent (gmailNote input runId G_DRAFT_CREATED
      (JObj [("draftId", JStr (dr_draftId ref)); ("threadId", json_opt (dr_threadId ref))])))) ;;
  mret {| go_leadId := gi_leadId input; go_outcome := G_DRAFT_CREATED; go_draftId := Some (dr_draftId ref) |}.

Definition draftFingerprint (input : GmailInput) : string :=
  match gi_finalization input with
  | Some f =>
      if truthy_opt (gi_recipientEmail input)
      then sha256Hex (gc_gmailAccount c +:+ "|" +:+ gf_id f +:+ "|" +:+ default "" (gi_recipientEmail input))
      else sha256Hex (gc_gmailAccount c +:+ "|" +:+ gi_leadId input +:+ "|none")
  | None => sha256Hex (gc_gmailAccount c +:+ "|" +:+ gi_leadId input +:+ "|none")
  end.
Definition gmailSnapshot (input : GmailInput) (existing : bool) : GmailEligibilitySnapshot :=
  {| ge_leadStatus := gi_leadStatus input;
     ge_finalization := (λ f, (gf_finalHumanDecision f, gf_resolvedBody f)) <$> gi_finalization input;
     ge_recipientEmail := gi_recipientEmail input; ge_featureEnabled := gc_featureEnabled c;
     ge_draftActionsEnabled := gc_draftActionsEnabled c;
     ge_credentialsConfigured := gc_credentialsConfigured c; ge_existingDraftForFingerprint := existing |}.
Definition reservedRow (input : GmailInput) (f : GmailFinalization) (id recipient : string) (nowD : Z) :
    GmailDraftRow :=
  {| gw_id := id; gw_leadId := gi_leadId input; gw_finalizedEmailId := Some (gf_id f);
     gw_recipientEmail := recipient; gw_senderEmail := gc_gmailAccount c; gw_gmailAccount := gc_gmailAccount c;
     gw_providerDraftId := None; gw_threadId := None; gw_messageId := None;
     gw_outcome := gmailOutcomeText G_TRANSIENT_ERROR; gw_provider := provider_name;
     gw_idempotencyFingerprint := draftFingerprint input; gw_sourceEmailVersion := gf_resolvedBodyHash f;
     gw_errorClass := None; gw_createdAt := nowD; gw_completedAt := None |}.

(** After the reservation: the one call of the provider, and what its answer leads to *)
Definition createReserved (input : GmailInput) (runId reservedId : string) (message : MimeInput) :
    SM GmailResultOut :=
  let req := {| cd_rawBase64Url := buildRawMessage message; cd_idempotencyFingerprint := draftFingerprint input;
                cd_threadId := gi_threadId input |} in
  modify (logDraftCall {| dc_runId := reservedId; dc_raw := cd_rawBase64Url req; dc_threadId := cd_threadId req |}) ;;
  answer ← ask (λ n, createProviderDraft n req);
  interfere 4%nat ;;
  let stop outcome route errorClass := terminal input runId outcome route (Some errorClass) (Some reservedId) in
  match gr_outcome answer, gr_ref answer with
  | gm_rate_limited, _ => stop G_RATE_LIMITED None "create_rate_limited"
  | gm_transient, _ => stop G_TRANSIENT_ERROR None "create_transient"
  | gm_auth_error, _ => stop G_AUTH_ERROR (Some NEEDS_MANUAL_REVIEW) "auth_error"
  | gm_ok, Some ref => finishDraft input runId reservedId ref
  | _, _ => stop G_DRAFT_FAILED (Some NEEDS_MANUAL_REVIEW) (default "create_failed" (gr_reason answer))
  end.
(** Once the account is verified: reuse of an earlier attempt, the limits, the reservation *)
Definition reserveAndCreate (input : GmailInput) (runId : string) (f : GmailFinalization) (recipient : string)
    (nowD : Z) (message : MimeInput) : SM GmailResultOut :=
  reserved ← query (findReservedByFingerprint (draftFingerprint input));
  match reserved with
  | Some r =>
      if truthy_opt (gw_providerDraftId r)
      then terminal input runId G_DUPLICATE_REUSED None (Some "reused_reserved") (Some (gw_id r))
      else terminal input runId G_MANUAL_REVIEW_REQUIRED (Some NEEDS_MANUAL_REVIEW)
             (Some "uncertain_prior_attempt") (Some (gw_id r))
  | None =>
      interfere 1%nat ;;
      today ← query (draftsToday nowD);
      if gc_maxPerDay c <=? today then terminal input runId G_BUDGET_BLOCKED None (Some "max_per_day") None
      else
        last ← query lastAttemptAt;
        if match last with Some t => nowD - t <? gc_minIntervalMs c | None => false end
        then terminal input runId G_BUDGET_BLOCKED None (Some "min_interval") None
        else
          interfere 2%nat ;;
          id ← randomUUID;
          reserveRun (reservedRow input f id recipient nowD) ;;
          interfere 3%nat ;;
          createReserved input runId id message
  end.
Definition createDraft (input : GmailInput) (runId : string) : SM GmailResultOut :=
  let stop outcome route reason := terminal input runId outcome route (Some reason) None in
  nowD ← now;
  existing ← query (existingByFingerprint (gc_gmailAccount c) (draftFingerprint input));
  let elig := checkGmailEligibility (gmailSnapshot input existing) in
  if gel_duplicateReusable elig then stop G_DUPLICATE_REUSED None "duplicate"
  else if negb (gel_eligible elig) then
    let outcome :=
      if existsb (λ r, startsWith r "no_verified_recipient" || startsWith r "recipient_") (gel_reasons elig)
      then G_NO_RECIPIENT else G_INVALID_ELIGIBILITY in
    stop outcome None (join "," (gel_reasons elig))
  else if negb (truthy_opt (gc_senderName c)) then
    stop G_INVALID_TOKENS (Some NEEDS_MANUAL_REVIEW) "sender_name_not_configured"
  else
    match gi_finalization input, gi_recipientEmail input with
    | Some f, Some recipient =>
        let senderName := default "" (gc_senderName c) in
        let resolvedBody := resolveSenderName (gf_resolvedBody f) senderName in
        if hasUnresolvedTokens resolvedBody then
          stop G_INVALID_TOKENS (Some NEEDS_MANUAL_REVIEW) "unresolved_tokens_after_substitution"
        else
          verify ← ask (λ n, verifyDraftAccount n (gc_gmailAccount c));
          interfere 0%nat ;;
          if bool_decide (is_Some (aa_email verify)) && negb (bool_decide (aa_email verify = Some (gc_gmailAccount c)))
          then stop G_ACCOUNT_MISMATCH (Some NEEDS_MANUAL_REVIEW) "account_mismatch"
          else if negb (aa_ok verify) || bool_decide (aa_email verify = None)
          then stop G_AUTH_ERROR (Some NEEDS_MANUAL_REVIEW) "account_verification_failed"
          else
            reserveAndCreate input runId f recipient nowD
              {| mi_fromName := senderName; mi_fromEmail := gc_gmailAccount c; mi_toEmail := recipient;
                 mi_subject := gi_subject input; mi_body := resolvedBody |}
    | _, _ => throw (JsError "finalization is null")
    end.
End service.

(** ** [GmailInputRepository.latest] *)

Record GmailInputData := {
  gid_finalization : option GmailFinalization; gid_subject : string; gid_recipientEmail : option string;
  gid_threadId : option string; gid_sequenceStep : Z;
}.
(** The finalizations of the lead's drafts, each with its draft *)
Definition leadFinalizations (leadId : string) (db : SystemDb) : list (FinalizationRow * EmailDraftRow) :=
  omap (λ f, e ← emailDrafts db !! fn_originalDraftId f;
             if bool_decide (ew_leadId e = leadId) then Some (f, e) else None) (map_to_list (finalizations db)).*2.
(** The thread of the first message of a record that has one *)
Definition firstThread (recordId : string) (db : SystemDb) : option string :=
  head (omap om_gmailThreadId
    (orderBy ascending om_sequenceStep (orderBy ascending om_createdAt
      (List.filter (λ m, bool_decide (om_outreachRecordId m = recordId)) (messages (outreachDb db)))))).
Definition latestGmailInput (leadId : string) (db : SystemDb) : GmailInputData :=
  let fin := latestBy (λ fe, fn_finalizedAt fe.1) (leadFinalizations leadId db) in
  let step := default 0 ((λ fe, ew_sequenceStep fe.2) <$> fin) in
  {| gid_finalization := (λ fe, {| gf_id := fn_id fe.1; gf_resolvedBody := fn_resolvedBody fe.1;
       gf_resolvedBodyHash := fn_resolvedBodyHash fe.1; gf_finalHumanDecision := fn_finalHumanDecision fe.1 |}) <$> fin;
     gid_subject := default "" ((λ fe, ew_subject fe.2) <$> fin);
     gid_recipientEmail := lf_value <$> List.find (λ f, bool_decide (lf_leadId f = leadId) &&
       bool_decide (lf_factType f = FT_contact_email) && lf_isCurrent f) (leadFacts db);
     gid_threadId := if 0 <? step
       then record ← fin ≫= (λ fe : FinalizationRow * EmailDraftRow, ew_outreachRecordId fe.2); firstThread record db
       else None;
     gid_sequenceStep := step |}.

(** ** [createGmailDraftsCommand] *)

Section command.
Context `{Runtime, GmailDraftProvider} (c : GmailConfig) (maxDraftsPerRun : Z) (dryRun : bool).
Context (interfere : nat → SM ()).

(** [leads.list(1000)]: the newest first *)
Definition listLeads (limit : Z) (db : SystemDb) : list Lead :=
  limitTo limit (orderBy (λ a b, b - a) ld_createdAt (map_to_list (leads (pipelineDb db))).*2).
Definition draftCandidates (limit : option Z) (db : SystemDb) : list Lead :=
  let approved := List.filter (λ l, bool_decide (ld_status l = HUMAN_APPROVED)) (listLeads 1000 db) in
  sliceTo maxDraftsPerRun (match limit with Some n => sliceTo n approved | None => approved end).
Definition gmailInput (lead : Lead) (data : GmailInputData) : GmailInput :=
  {| gi_leadId := ld_id lead; gi_leadStatus := leadStatusText (ld_status lead);
     gi_finalization := gid_finalization data; gi_subject := gid_subject data;
     gi_recipientEmail := gid_recipientEmail data; gi_threadId := gid_threadId data |}.
(** [counts.set(outcome, (counts.get(outcome) ?? 0) + 1)] *)
Fixpoint countOutcome (o : GmailOutcome) (counts : list (GmailOutcome * Z)) : list (GmailOutcome * Z) :=
  match counts with
  | [] => [(o, 1)]
  | (o', n) :: rest => if bool_decide (o = o') then (o', n + 1) :: rest else (o', n) :: countOutcome o rest
  end.
Definition createGmailDraftsCommand (limit : option Z) : SM (list (GmailOutcome * Z)) :=
  if negb (gc_featureEnabled c) || negb (gc_draftActionsEnabled c) then mret []
  else
    leads ← query (draftCandidates limit);
    runId ← startRun "gmail:drafts" dryRun;
    counts ← fold_each leads (λ lead counts,
      interfere 5%nat ;;
      data ← query (latestGmailInput (ld_id lead));
      interfere 6%nat ;;
      r ← createDraft c interfere (gmailInput lead data) runId;
      mret (countOutcome (go_outcome r) counts)) [];
    finishRun runId "COMPLETED"
      (Some (stringify (JObj (map (λ e : GmailOutcome * Z, (gmailOutcomeText e.1, JNum e.2)) counts)))) ;;
    mret counts.
End command.
