(* ===== verification/Review.v ===== *)
(** * Human review: src/domain/review/review-service.ts

    The decisions of a human on demos, email drafts and finalized emails, over the write
    side of src/persistence/repositories/review.repo.ts; the finalization of a reply email
    (src/domain/email/reply-finalization.ts, reply-finalization.repo.ts and the command
    reply-email-finalize.ts); and the commands that reject and reopen a lead
    (reject-lead.ts, reopen-lead.ts). *)
From S2P Require Import Prelude.
From S2P Require Import JsText.
From S2P Require Import LeadLifecycle.
From S2P Require Import PipelineDb.
From S2P Require Import SendGate.
From S2P Require Import SystemDb.
From S2P Require Import GmailDrafts.
Open Scope Z_scope.
Open Scope list_scope.

(** ** The database with the demos *)

Record DemoRow := {
  dm_id : string; dm_leadId : string; dm_path : string; dm_status : string; dm_approvedAt : option Z;
  dm_approvedBy : option string; dm_approvalSource : option string; dm_approvalNotes : option string;
  dm_createdAt : Z;
}.
Record ReviewDb := { reviewedSystem : SystemDb; demos : list DemoRow }.
Definition RM : Type → Type := M ReviewDb.
Definition inSystem : lens ReviewDb SystemDb :=
  Lens reviewedSystem (λ s db, {| reviewedSystem := s; demos := demos db |}).
#[global] Instance inSystem_lawful : LawfulLens inSystem.
Proof. by split. Qed.
Definition setDemos (f : list DemoRow → list DemoRow) (db : ReviewDb) : ReviewDb :=
  {| reviewedSystem := reviewedSystem db; demos := f (demos db) |}.
Definition setEmailDrafts (f : gmap string EmailDraftRow → gmap string EmailDraftRow) (db : SystemDb) : SystemDb :=
  {| outreachDb := outreachDb db; pipelineDb := pipelineDb db; emailDrafts := f (emailDrafts db);
     finalizations := finalizations db; gmailDrafts := gmailDrafts db; leadFacts := leadFacts db;
     campaigns := campaigns db; authorizations := authorizations db; pipelineRuns := pipelineRuns db;
     draftCalls := draftCalls db |}.
Definition setFinalizations (f : gmap string FinalizationRow → gmap string FinalizationRow) (db : SystemDb) :
    SystemDb :=
  {| outreachDb := outreachDb db; pipelineDb := pipelineDb db; emailDrafts := emailDrafts db;
     finalizations := f (finalizations db); gmailDrafts := gmailDrafts db; leadFacts := leadFacts db;
     campaigns := campaigns db; authorizations := authorizations db; pipelineRuns := pipelineRuns db;
     draftCalls := draftCalls db |}.

(** ** Decisions *)

Inductive HumanDecision := APPROVED | REJECTED_BY_HUMAN.
#[global] Instance HumanDecision_eq_dec : EqDecision HumanDecision.
Proof. solve_decision. Defined.
Definition decisionText (d : HumanDecision) : string :=
  match d with APPROVED => "APPROVED" | REJECTED_BY_HUMAN => "REJECTED" end.
Inductive ReviewActionResult := DONE | NOOP_ALREADY | NOT_FOUND | INVALID_STATE.
#[global] Instance ReviewActionResult_eq_dec : EqDecision ReviewActionResult.
Proof. solve_decision. Defined.

(** ** review.repo.ts, the write side *)

Definition latestDemo (leadId : string) (db : ReviewDb) : option DemoRow :=
  latestBy dm_createdAt (List.filter (λ d, bool_decide (dm_leadId d = leadId)) (demos db)).
Definition latestEmail (leadId : string) (db : SystemDb) : option EmailDraftRow :=
  latestBy ew_createdAt
    (List.filter (λ e, bool_decide (ew_leadId e = leadId)) (map_to_list (emailDrafts db)).*2).
Definition latestFinalization (leadId : string) (db : SystemDb) : option FinalizationRow :=
  fst <$> latestBy (λ fe : FinalizationRow * EmailDraftRow, fn_finalizedAt fe.1) (leadFinalizations leadId db).

Definition decideDemoRow (d : HumanDecision) (notes : option string) (actor : string) (nowD : Z) (r : DemoRow) :
    DemoRow :=
  {| dm_id := dm_id r; dm_leadId := dm_leadId r; dm_path := dm_path r; dm_status := decisionText d;
     dm_approvedAt := Some nowD; dm_approvedBy := Some actor; dm_approvalSource := Some "dashboard";
     dm_approvalNotes := notes; dm_createdAt := dm_createdAt r |}.
Definition decideEmailRow (d : HumanDecision) (notes : option string) (actor : string) (nowD : Z)
    (e : EmailDraftRow) : EmailDraftRow :=
  {| ew_id := ew_id e; ew_leadId := ew_leadId e; ew_subject := ew_subject e; ew_body := ew_body e;
     ew_ctaKind := ew_ctaKind e; ew_status := ew_status e; ew_sequenceStep := ew_sequenceStep e;
     ew_outreachRecordId := ew_outreachRecordId e; ew_humanDecision := Some (decisionText d);
     ew_humanNotes := notes; ew_humanReviewedAt := Some nowD; ew_humanReviewedBy := Some actor;
     ew_createdAt := ew_createdAt e |}.
Definition decideFinalizationRow (d : HumanDecision) (notes : option string) (actor : string) (nowD : Z)
    (f : FinalizationRow) : FinalizationRow :=
  {| fn_id := fn_id f; fn_originalDraftId := fn_originalDraftId f; fn_deploymentRunId := fn_deploymentRunId f;
     fn_verifiedDeploymentUrl := fn_verifiedDeploymentUrl f; fn_originalBodyHash := fn_originalBodyHash f;
     fn_resolvedBody := fn_resolvedBody f; fn_resolvedBodyHash := fn_resolvedBodyHash f; fn_kind := fn_kind f;
     fn_finalHumanDecision := Some (decisionText d); fn_finalHumanNotes := notes;
     fn_finalReviewedAt := Some nowD; fn_finalReviewedBy := Some actor;
     fn_finalReviewedSource := Some "dashboard"; fn_finalizedAt := fn_finalizedAt f |}.
(** [email_drafts_outreach_sequence_uk]: the drafts of a step of a record that are not rejected *)
Definition isLiveDraft (e : EmailDraftRow) : bool :=
  bool_decide (is_Some (ew_outreachRecordId e)) && negb (bool_decide (ew_humanDecision e = Some "REJECTED")).
Definition liveDraftConflict (e : EmailDraftRow) (db : SystemDb) : bool :=
  isLiveDraft e &&
  existsb (λ e', negb (String.eqb (ew_id e') (ew_id e)) && isLiveDraft e' &&
      bool_decide (ew_outreachRecordId e' = ew_outreachRecordId e) && (ew_sequenceStep e' =? ew_sequenceStep e))
    (map_to_list (emailDrafts db)).*2.
Definition checkDecideEmail (id : string) (f : EmailDraftRow → EmailDraftRow) (db : SystemDb) : option error :=
  match emailDrafts db !! id with
  | Some e => refuse [(liveDraftConflict (f e) db, uniqueViolation "email_drafts_outreach_sequence_uk")]
  | None => None
  end.

Definition DEMO_DECIDABLE : list string := ["GENERATED_PENDING_REVIEW"; "APPROVED"; "REJECTED"].
Definition EMAIL_ACTIONABLE_LEAD_STATES : list LeadStatus := [READY_FOR_HUMAN_APPROVAL; WAITING_FOR_DEMO_URL].

Section service.
Context `{Runtime} (actor : string).

Definition setDemoDecision (demoId : string) (d : HumanDecision) (notes : option string) (nowD : Z) : RM () :=
  modify (setDemos (map (λ r, if bool_decide (dm_id r = demoId) then decideDemoRow d notes actor nowD r else r))).
Definition setEmailHumanDecision (emailId : string) (d : HumanDecision) (notes : option string) (nowD : Z) : SM () :=
  let f := decideEmailRow d notes actor nowD in
  guarded (checkDecideEmail emailId f) (setEmailDrafts (alter f emailId)).
Definition setFinalizationDecision (id : string) (d : HumanDecision) (notes : option string) (nowD : Z) : SM () :=
  modify (setFinalizations (alter (decideFinalizationRow d notes actor nowD) id)).

Definition onReviewPipeline {A} (m : PM A) : RM A := zoom inSystem (zoom onPipeline m).
Definition recordNote (leadId message : string) (data : json) : RM () :=
  onReviewPipeline (recordEvent (noteEvent leadId None message data)).
Definition moveLead (leadId : string) (to : LeadStatus) : RM () :=
  _ ← onReviewPipeline (leadTransition leadId to); mret tt.

Definition decideDemo (leadId : string) (decision : HumanDecision) (notes : option string) : RM ReviewActionResult :=
  transaction (
    demo ← query (latestDemo leadId);
    match demo with
    | None => mret NOT_FOUND
    | Some d =>
        if bool_decide (dm_status d = decisionText decision) then mret NOOP_ALREADY
        else if negb (bool_decide (dm_status d ∈ DEMO_DECIDABLE)) then mret INVALID_STATE
        else
          nowD ← now;
          setDemoDecision (dm_id d) decision notes nowD ;;
          recordNote leadId ("demo " +:+ toLowerCase (decisionText decision) +:+ " (human review)")
            (JObj [("demoId", JStr (dm_id d)); ("decision", JStr (decisionText decision))]) ;;
          mret DONE
    end).

(** Where the decision on an email takes its lead: nowhere, when the wording of an email
    that waits for its demo is approved, or when the copy of a follow-up is rejected there *)
Definition emailMove (decision : HumanDecision) (sequenceStep : Z) (status : LeadStatus) : option LeadStatus :=
  if bool_decide (decision = REJECTED_BY_HUMAN) && (0 <? sequenceStep) then
    if bool_decide (status = READY_FOR_HUMAN_APPROVAL) then Some SENT else None
  else if bool_decide (decision = REJECTED_BY_HUMAN) then Some REJECTED
  else if bool_decide (status = READY_FOR_HUMAN_APPROVAL) then Some HUMAN_APPROVED
  else None.
Definition emailNote (decision : HumanDecision) (sequenceStep : Z) (status : LeadStatus) : string :=
  "email " +:+ toLowerCase (decisionText decision) +:+ " (human review" +:+
  (if bool_decide (status = WAITING_FOR_DEMO_URL) && bool_decide (decision = APPROVED)
   then ", wording only — awaiting demo URL" else "") +:+ ")" +:+
  (if 0 <? sequenceStep then
     " — outreach follow-up step " +:+ pretty sequenceStep +:+
     (if bool_decide (decision = REJECTED_BY_HUMAN) then "; lead returned to SENT, NOT rejected" else "")
   else "").
Definition decideEmail (leadId : string) (decision : HumanDecision) (notes : option string) : RM ReviewActionResult :=
  transaction (
    lead ← onReviewPipeline (getLead leadId);
    match lead with
    | None => mret NOT_FOUND
    | Some l =>
        if negb (bool_decide (ld_status l ∈ EMAIL_ACTIONABLE_LEAD_STATES)) then mret INVALID_STATE
        else
          email ← zoom inSystem (query (latestEmail leadId));
          match email with
          | None => mret NOT_FOUND
          | Some e =>
              if bool_decide (ew_humanDecision e = Some (decisionText decision)) then mret NOOP_ALREADY
              else
                nowD ← now;
                zoom inSystem (setEmailHumanDecision (ew_id e) decision notes nowD) ;;
                (match emailMove decision (ew_sequenceStep e) (ld_status l) with
                 | Some to => moveLead leadId to
                 | None => mret tt
                 end) ;;
                recordNote leadId (emailNote decision (ew_sequenceStep e) (ld_status l))
                  (JObj [("emailId", JStr (ew_id e)); ("decision", JStr (decisionText decision));
                         ("sequenceStep", JNum (ew_sequenceStep e))]) ;;
                mret DONE
          end
    end).

Definition decideFinalizedEmail (leadId : string) (decision : HumanDecision) (notes : option string) :
    RM ReviewActionResult :=
  transaction (
    lead ← onReviewPipeline (getLead leadId);
    match lead with
    | None => mret NOT_FOUND
    | Some l =>
        if negb (bool_decide (ld_status l = FINALIZED_EMAIL_PENDING)) then mret INVALID_STATE
        else
          fin ← zoom inSystem (query (latestFinalization leadId));
          match fin with
          | None => mret NOT_FOUND
          | Some f =>
              if bool_decide (fn_finalHumanDecision f = Some (decisionText decision)) then mret NOOP_ALREADY
              else
                nowD ← now;
                zoom inSystem (setFinalizationDecision (fn_id f) decision notes nowD) ;;
                moveLead leadId (if bool_decide (decision = APPROVED) then HUMAN_APPROVED else REJECTED) ;;
                recordNote leadId
                  ("finalized email " +:+ toLowerCase (decisionText decision) +:+ " (2nd human review)")
                  (JObj [("finalizationId", JStr (fn_id f)); ("decision", JStr (decisionText decision))]) ;;
                mret DONE
          end
    end).
End service.

(** ** Finalizing a reply email *)

Definition REPLY_FINALIZATION_KIND : string := "REPLY_DIRECT".
(** The draft is a row of [email_drafts], of which the validation reads a few columns. *)
Definition replyViolations (requestedLeadId leadStatus : string) (draft : option EmailDraftRow) : list string :=
  let v := when (neq leadStatus "HUMAN_APPROVED") ("lead_not_human_approved:" +:+ leadStatus)%string in
  match draft with
  | None => v ++ ["draft_not_found"]
  | Some d => uniq (v ++
      when (neq (ew_leadId d) requestedLeadId) "draft_wrong_lead" ++
      when (neq (ew_status d) "APPROVED") ("draft_status_not_approved:" +:+ ew_status d)%string ++
      when (negb (bool_decide (ew_humanDecision d = Some "APPROVED")))
        ("draft_human_decision_not_approved:" +:+ default "none" (ew_humanDecision d))%string ++
      when (neq (ew_ctaKind d) "reply") ("draft_cta_not_reply:" +:+ ew_ctaKind d)%string ++
      when (includes (ew_body d) "{{DEMO_URL}}") "body_contains_demo_url" ++
      when (hasUnresolvedTokens (resolveSenderName (ew_body d) "")) "body_has_unresolved_token")
  end.
(** [draft_not_found] makes the list non-empty: the check is ok just when there is no violation. *)
Definition validateReplyFinalization (requestedLeadId leadStatus : string) (draft : option EmailDraftRow) : bool :=
  (length (replyViolations requestedLeadId leadStatus draft) =? 0)%nat.

Definition hasReplyFinalization (draftId : string) (db : SystemDb) : bool :=
  existsb (λ f, String.eqb (fn_originalDraftId f) draftId && String.eqb (fn_kind f) REPLY_FINALIZATION_KIND)
    (map_to_list (finalizations db)).*2.
(** [email_draft_finalizations_reply_uk]; rows without a deployment never meet in the other index. *)
Definition checkInsertReplyFinalization (id draftId : string) (db : SystemDb) : option error :=
  refuse
    [(bool_decide (is_Some (finalizations db !! id)), uniqueViolation "email_draft_finalizations_pkey");
     (hasReplyFinalization draftId db, uniqueViolation "email_draft_finalizations_reply_uk");
     (negb (bool_decide (is_Some (emailDrafts db !! draftId))),
       foreignKeyViolation "email_draft_finalizations_original_draft_id_fkey")].

(** How the command ends, if it does not throw *)
Inductive FinalizeOutcome :=
  | FIN_REFUSED (violations : list string) | FIN_EXISTS | FIN_PREVIEW | FIN_PERSISTED (id : string).

Section finalize.
Context `{Runtime}.

Definition computeReplyFinalization (body : string) : string * string * string :=
  let hash := sha256Hex body in (body, hash, hash).
Definition insertReplyFinalization (id draftId : string) (hashes : string * string * string)
    (reviewedBy : string) (reviewedAt : Z) : SM () :=
  dbNow ← now;
  guarded (checkInsertReplyFinalization id draftId)
    (setFinalizations <[id :=
      {| fn_id := id; fn_originalDraftId := draftId; fn_deploymentRunId := None; fn_verifiedDeploymentUrl := None;
         fn_originalBodyHash := hashes.1.2; fn_resolvedBody := hashes.1.1; fn_resolvedBodyHash := hashes.2;
         fn_kind := REPLY_FINALIZATION_KIND; fn_finalHumanDecision := Some "APPROVED"; fn_finalHumanNotes := None;
         fn_finalReviewedAt := Some reviewedAt; fn_finalReviewedBy := Some reviewedBy;
         fn_finalReviewedSource := Some "cli"; fn_finalizedAt := dbNow |}]>).

(** A required option of a command: trimmed, and not empty *)
Definition required {DB} (code message : string) (o : option string) : M DB string :=
  match trim <$> o with
  | None | Some "" => throw (AppError code message)
  | Some s => mret s
  end.
Definition replyEmailFinalizeCommand (lead draft by_ : option string) (confirm : bool) : SM FinalizeOutcome :=
  leadId ← required "LEAD_REQUIRED" "--lead <id> is required." lead;
  draftId ← required "DRAFT_REQUIRED" "--draft <email_draft_id> is required." draft;
  operator ← required "OPERATOR_REQUIRED" "--by <operator> is required." by_;
  found ← zoom onPipeline (getLead leadId);
  match found with
  | None => throw (AppError "LEAD_NOT_FOUND" ("Lead " +:+ leadId +:+ " not found."))
  | Some l =>
      d ← query (λ db, emailDrafts db !! draftId);
      let status := leadStatusText (ld_status l) in
      if negb (validateReplyFinalization leadId status d) then mret (FIN_REFUSED (replyViolations leadId status d))
      else
        let body := default "" (ew_body <$> d) in
        exists_ ← query (hasReplyFinalization draftId);
        if exists_ : bool then mret FIN_EXISTS
        else
          let hashes := computeReplyFinalization body in
          finalizationId ← randomUUID;
          if negb confirm then mret FIN_PREVIEW
          else
            transaction (
              nowD ← now;
              insertReplyFinalization finalizationId draftId hashes operator nowD ;;
              zoom onPipeline (recordEvent (noteEvent leadId None ("reply email finalized (by " +:+ operator +:+ ")")
                (JObj [("kind", JStr "REPLY_DIRECT"); ("finalizationId", JStr finalizationId);
                       ("emailDraftId", JStr draftId); ("resolvedBodyHash", JStr hashes.2);
                       ("finalHumanDecision", JStr "APPROVED"); ("operator", JStr operator)])))) ;;
            mret (FIN_PERSISTED finalizationId)
  end.

(** ** Rejecting and reopening a lead

    The statements of these commands are not in a transaction. *)

Definition REJECTABLE_STATES : list LeadStatus :=
  [READY_FOR_QUALIFICATION; READY_FOR_ENRICHMENT; READY_FOR_CAPTURE; READY_FOR_AUDIT; AUDITED;
   NEEDS_MANUAL_REVIEW].
Definition planRejectionPath (from : LeadStatus) : res (list LeadStatus) :=
  if negb (bool_decide (from ∈ REJECTABLE_STATES)) then
    Throw (AppError "LEAD_NOT_REJECTABLE"
      ("Lead is " +:+ leadStatusText from +:+ "; only pre-send states can be rejected here (" +:+
       join ", " (map leadStatusText REJECTABLE_STATES) +:+ ")."))
  else if canTransition from REJECTED then Ok [REJECTED]
  else Ok [NEEDS_MANUAL_REVIEW; REJECTED].
Definition rejectLeadCommand (lead reason by_ : option string) : PM () :=
  leadId ← required "LEAD_REQUIRED" "--lead <id> is required (exactly one lead)." lead;
  why ← required "REASON_REQUIRED" "--reason <text> is required." reason;
  operator ← required "OPERATOR_REQUIRED" "--by <operator> is required." by_;
  found ← getLead leadId;
  match found with
  | None => throw (AppError "LEAD_NOT_FOUND" ("Lead " +:+ leadId +:+ " not found; refusing to reject."))
  | Some l =>
      let from := ld_status l in
      path ← lift_res (planRejectionPath from);
      for_each path (λ to, _ ← leadTransition leadId to; mret tt) ;;
      recordEvent
        {| pe_leadId := Some leadId; pe_runId := None; pe_type := NOTE; pe_fromStatus := Some REJECTED;
           pe_toStatus := None; pe_message := Some ("rejected: " +:+ why +:+ " (by " +:+ operator +:+ ")");
           pe_data := JObj [("reason", JStr why); ("operator", JStr operator);
                            ("fromState", JStr (leadStatusText from))] |}
  end.

Definition REOPENABLE_STATE : LeadStatus := REJECTED.
Definition REOPEN_TARGET : LeadStatus := NEEDS_MANUAL_REVIEW.
Definition reopenLeadCommand (lead reason by_ : option string) : PM () :=
  leadId ← required "LEAD_REQUIRED" "--lead <id> is required (exactly one lead; no bulk fallback)." lead;
  why ← required "REASON_REQUIRED" "--reason <text> is required." reason;
  operator ← required "OPERATOR_REQUIRED" "--by <operator> is required." by_;
  found ← getLead leadId;
  match found with
  | None => throw (AppError "LEAD_NOT_FOUND" ("Lead " +:+ leadId +:+ " not found; refusing to reopen."))
  | Some l =>
      let from := ld_status l in
      if negb (bool_decide (from = REOPENABLE_STATE)) then
        throw (AppError "LEAD_NOT_REOPENABLE"
          ("Lead is " +:+ leadStatusText from +:+ "; only a REJECTED lead can be reopened."))
      else if negb (canTransition from REOPEN_TARGET) then
        throw (AppError "REOPEN_EDGE_MISSING"
          ("No supported transition " +:+ leadStatusText from +:+ " -> " +:+ leadStatusText REOPEN_TARGET +:+ "."))
      else
        _ ← leadTransition leadId REOPEN_TARGET;
        recordEvent
          {| pe_leadId := Some leadId; pe_runId := None; pe_type := NOTE; pe_fromStatus := Some from;
             pe_toStatus := Some REOPEN_TARGET;
             pe_message := Some ("reopened: " +:+ why +:+ " (by " +:+ operator +:+ ")");
             pe_data := JObj [("reason", JStr why); ("operator", JStr operator); ("correction", JBool true);
                              ("fromState", JStr (leadStatusText from))] |}
  end.
End finalize.
