(* ===== verification/Dashboard.v ===== *)
(** * The local review dashboard: src/dashboard/security.ts and server.ts

    The checks that a request passes before it changes anything, and the route of the
    POST requests (without the pages, which only read).  A request is modelled by the
    path of its parsed URL, the headers that are looked at, and its body as text. *)
From S2P Require Import Prelude.
From S2P Require Import JsText.
From S2P Require Import JsonText.
From S2P Require Import Review.
Open Scope Z_scope.
Open Scope string_scope.
Open Scope list_scope.

(** ** Text *)

(** [s.split(c)] *)
Fixpoint splitOn (c : ascii) (s : string) : list string :=
  match s with
  | "" => [""]
  | String c' s =>
      if bool_decide (c' = c) then "" :: splitOn c s
      else match splitOn c s with
           | part :: parts => String c' part :: parts
           | [] => [String c' ""]
           end
  end.
(** The text up to and without the first [c], and what follows it *)
Fixpoint cutAt (c : ascii) (s : string) : option (string * string) :=
  match s with
  | "" => None
  | String c' s' =>
      if bool_decide (c' = c) then Some ("", s')
      else prod_map (String c') id <$> cutAt c s'
  end.
Definition plusToSpace : string → string :=
  fix go s := match s with
              | "" => ""
              | String c s => String (if bool_decide (c = "+"%char) then " "%char else c) (go s)
              end.
Fixpoint percentDecode (s : string) : option string :=
  match s with
  | "" => Some ""
  | String c s' =>
      if bool_decide (c = "%"%char) then
        match s' with
        | String h1 (String h2 rest) =>
            match hexValue h1, hexValue h2 with
            | Some a, Some b => String (ascii_of_nat (16 * a + b)) <$> percentDecode rest
            | _, _ => None
            end
        | _ => None
        end
      else String c <$> percentDecode s'
  end.
(** [decodeURIComponent]: the bytes must be UTF-8. *)
Definition decodeURIComponent (s : string) : res string :=
  match percentDecode s with
  | Some bytes => if String.eqb (decodeUtf8 bytes) bytes then Ok bytes else Throw (JsError "URI malformed")
  | None => Throw (JsError "URI malformed")
  end.

(** ** security.ts *)

Definition LOOPBACK_HOSTS : list string := ["127.0.0.1"; "localhost"; "[::1]"].
Definition hostname (hostHeader : option string) : option string :=
  match hostHeader with
  | None | Some "" => None
  | Some h =>
      if startsWith h "[" then
        Some (match cutAt "]" h with Some (before, _) => before +:+ "]" | None => "" end)
      else head (splitOn ":" h)
  end.
Definition isAllowedHost (hostHeader : option string) : bool :=
  match hostname hostHeader with Some h => bool_decide (h ∈ LOOPBACK_HOSTS) | None => false end.
Definition isSameOrigin (origin referer host : option string) : bool :=
  match host with
  | None | Some "" => false
  | Some h =>
      if negb (isAllowedHost host) then false
      else
        let expected := "http://" +:+ h in
        let byReferer := match referer with
                         | Some r => startsWith r (expected +:+ "/") || String.eqb r expected
                         | None => false
                         end in
        match origin with
        | Some o => if String.eqb o "null" then byReferer else String.eqb o expected
        | None => byReferer
        end
  end.
(** The loop over the two tokens, which have one length *)
Fixpoint tokenDiff (diff : Z) (expected provided : string) : Z :=
  match expected, provided with
  | String a expected, String b provided =>
      tokenDiff (Z.lor diff (Z.lxor (Z.of_nat (char_code a)) (Z.of_nat (char_code b)))) expected provided
  | _, _ => diff
  end.
Definition csrfMatches (expected : string) (provided : option string) : bool :=
  match provided with
  | None | Some "" => false
  | Some p => if negb (String.length p =? String.length expected)%nat then false
              else (tokenDiff 0 expected p =? 0)%Z
  end.
(** The fields of a form, the last one of a name first; assigning to the property
    [__proto__] of an object stores no text. *)
Fixpoint parsePairs (pairs : list string) (out : list (string * string)) : res (list (string * string)) :=
  match pairs with
  | [] => Ok out
  | part :: pairs =>
      if String.eqb part "" then parsePairs pairs out
      else
        let (rawName, rawValue) := match cutAt "=" part with Some (k, v) => (k, Some v) | None => (part, None) end in
        match decodeURIComponent (plusToSpace rawName) with
        | Throw e => Throw e
        | Ok k =>
            match match rawValue with Some v => decodeURIComponent (plusToSpace v) | None => Ok "" end with
            | Throw e => Throw e
            | Ok v => parsePairs pairs (if String.eqb k "__proto__" then out else (k, v) :: out)
            end
        end
  end.
Definition parseFormBody (raw : string) : res (list (string * string)) := parsePairs (splitOn "&" raw) [].
Definition formField (name : string) (fields : list (string * string)) : option string :=
  snd <$> List.find (λ f, String.eqb f.1 name) fields.

(** ** server.ts *)

Record Request := {
  rq_path : string; rq_host : option string; rq_origin : option string; rq_referer : option string;
  rq_postBody : string;
}.
Inductive ReviewTarget := TARGET_DEMO | TARGET_EMAIL | TARGET_FINALIZED.
Definition MAX_BODY : Z := 16 * 1024.

(** [/^\/lead\/([^/]+)\/(demo|email|finalized)\/(approve|reject)$/] *)
Definition reviewRoute (path : string) : option (string * ReviewTarget * HumanDecision) :=
  match splitOn "/" path with
  | [""; "lead"; segment; target; action] =>
      if String.eqb segment "" then None
      else
        t ← (if String.eqb target "demo" then Some TARGET_DEMO
             else if String.eqb target "email" then Some TARGET_EMAIL
             else if String.eqb target "finalized" then Some TARGET_FINALIZED else None);
        d ← (if String.eqb action "approve" then Some APPROVED
             else if String.eqb action "reject" then Some REJECTED_BY_HUMAN else None);
        Some (segment, t, d)
  | _ => None
  end.
Definition reviewNotes (fields : list (string * string)) : option string :=
  let notes := trim (default "" (formField "notes" fields)) in
  if truthy notes then Some notes else None.
Definition readBody (body : string) : res string :=
  if (MAX_BODY <? Z.of_nat (utf16Length body))%Z then Throw (JsError "body too large") else Ok body.

Section server.
Context `{Runtime} (actor csrfToken : string).

Definition decide_ (target : ReviewTarget) (leadId : string) (d : HumanDecision) (notes : option string) :
    RM ReviewActionResult :=
  match target with
  | TARGET_DEMO => decideDemo actor leadId d notes
  | TARGET_EMAIL => decideEmail actor leadId d notes
  | TARGET_FINALIZED => decideFinalizedEmail actor leadId d notes
  end.
(** What the server does after the checks; it throws where the handler does. *)
Definition handlePost (r : Request) : RM Z :=
  if negb (isAllowedHost (rq_host r)) then mret 403
  else
    match reviewRoute (rq_path r) with
    | None => mret 404
    | Some (segment, target, d) =>
        if negb (isSameOrigin (rq_origin r) (rq_referer r) (rq_host r)) then mret 403
        else
          raw ← lift_res (readBody (rq_postBody r));
          body ← lift_res (parseFormBody raw);
          if negb (csrfMatches csrfToken (formField "csrf" body)) then mret 403
          else
            leadId ← lift_res (decodeURIComponent segment);
            _ ← decide_ target leadId d (reviewNotes body);
            mret 303
    end.
(** A handler that throws is answered with 500. *)
Definition servePost (r : Request) : RM Z :=
  answer ← tryCatch (handlePost r);
  mret (match answer with Ok status => status | Throw _ => 500 end).
End server.

Example route_example : reviewRoute "/lead/l%201/finalized/approve" = Some ("l%201", TARGET_FINALIZED, APPROVED).
Proof. reflexivity. Qed.
Example form_example : parseFormBody "csrf=ab&notes=a+b%C3%A4&x" =
  Ok [("x", ""); ("notes", "a bä"); ("csrf", "ab")].
Proof. reflexivity. Qed.
Example host_example : isAllowedHost (Some "[::1]:4400") = true ∧ isAllowedHost (Some "localhost.evil.com") = false.
Proof. split; reflexivity. Qed.
