(* ===== verification/JsRegex.v ===== *)
(** * Regular expressions of JavaScript

    The patterns that the code writes as literals, [/.../gimu]: a parser for their syntax, the
    backtracking matcher of ECMAScript (alternatives in order, greedy repetition), what
    [test], [matchAll], [replace] and [split] make of it, and a proof that [test] decides
    whether some part of the text is in the language of the pattern.

    Text is a list of code points; a character outside the Basic Multilingual Plane is one
    character, also without the flag [u].  Case folding is that of ASCII and of the letters
    of Latin-1, in which the patterns are written.  What Unicode calls a letter, a number and
    a pictograph is a parameter. *)
From S2P Require Import Prelude.
From S2P Require Import JsText.
Open Scope Z_scope.
Open Scope list_scope.

(** ** Code points *)

Definition byteOf (c : ascii) : Z := Z.of_nat (nat_of_ascii c).
Definition ofByte (n : Z) : ascii := ascii_of_nat (Z.to_nat n).
Definition continuation (b : Z) : bool := (128 <=? b) && (b <=? 191).
Definition surrogateFree : Z := 65533.
Fixpoint toPoints (s : string) : list Z :=
  match s with
  | EmptyString => []
  | String a s1 =>
      let x := byteOf a in
      if x <? 128 then x :: toPoints s1
      else match s1 with
        | EmptyString => [surrogateFree]
        | String b s2 =>
            let y := byteOf b in
            if (192 <=? x) && (x <? 224) && continuation y then ((x - 192) * 64 + (y - 128)) :: toPoints s2
            else match s2 with
              | EmptyString => surrogateFree :: toPoints s1
              | String c s3 =>
                  let z := byteOf c in
                  if (224 <=? x) && (x <? 240) && continuation y && continuation z
                  then ((x - 224) * 4096 + (y - 128) * 64 + (z - 128)) :: toPoints s3
                  else match s3 with
                    | EmptyString => surrogateFree :: toPoints s1
                    | String d s4 =>
                        let v := byteOf d in
                        if (240 <=? x) && continuation y && continuation z && continuation v
                        then ((x - 240) * 262144 + (y - 128) * 4096 + (z - 128) * 64 + (v - 128)) :: toPoints s4
                        else surrogateFree :: toPoints s1
                    end
              end
        end
  end.
Definition encodePoint (n : Z) (s : string) : string :=
  if n <? 128 then String (ofByte n) s
  else if n <? 2048 then String (ofByte (192 + n / 64)) (String (ofByte (128 + n mod 64)) s)
  else if n <? 65536 then
    String (ofByte (224 + n / 4096)) (String (ofByte (128 + n / 64 mod 64)) (String (ofByte (128 + n mod 64)) s))
  else String (ofByte (240 + n / 262144)) (String (ofByte (128 + n / 4096 mod 64))
    (String (ofByte (128 + n / 64 mod 64)) (String (ofByte (128 + n mod 64)) s))).
Definition ofPoints (l : list Z) : string := foldr encodePoint EmptyString l.

Definition inside (lo hi n : Z) : bool := (lo <=? n) && (n <=? hi).
Definition lowerPoint (n : Z) : Z :=
  if inside 65 90 n || (inside 192 222 n && negb (n =? 215)) then n + 32 else n.
Definition upperPoint (n : Z) : Z :=
  if inside 97 122 n || (inside 224 254 n && negb (n =? 247)) then n - 32 else n.
(** [toLocaleLowerCase] *)
Definition toLocaleLowerCase (s : string) : string := ofPoints (map lowerPoint (toPoints s)).

(** The class [\s] *)
Definition isSpace (n : Z) : bool :=
  inside 9 13 n || bool_decide (n ∈ [32; 160; 5760; 8232; 8233; 8239; 8287; 12288; 65279]) || inside 8192 8202 n.
Definition isWord (n : Z) : bool := inside 48 57 n || inside 65 90 n || inside 97 122 n || (n =? 95).
Definition isLineEnd (n : Z) : bool := bool_decide (n ∈ [10; 13; 8232; 8233]).

Class UnicodeTables := { isLetter : Z → bool; isNumber : Z → bool; isPictographic : Z → bool }.

(** ** Patterns *)

Inductive setItem := iRange (lo hi : Z) | iDigit | iSpace | iNotSpace | iLetter | iNumber | iPictographic.
Inductive re :=
  | reEmpty | reSet (negated : bool) (items : list setItem) | reSeq (r1 r2 : re) | reAlt (r1 r2 : re)
  | reStar (r : re) | reBegin | reEnd | reWordBoundary
  | reNotBehind (items : list setItem) | reNotAhead (items : list setItem).
Record flags := { fl_i : bool; fl_m : bool }.
Definition noFlags : flags := {| fl_i := false; fl_m := false |}.
Definition flagI : flags := {| fl_i := true; fl_m := false |}.
Definition flagM : flags := {| fl_i := false; fl_m := true |}.
Definition flagIM : flags := {| fl_i := true; fl_m := true |}.

Section matcher.
Context `{UnicodeTables} (fl : flags).

Definition inItem (it : setItem) (n : Z) : bool :=
  match it with
  | iRange lo hi => inside lo hi n
  | iDigit => inside 48 57 n
  | iSpace => isSpace n
  | iNotSpace => negb (isSpace n)
  | iLetter => isLetter n
  | iNumber => isNumber n
  | iPictographic => isPictographic n
  end.
Definition inItems (items : list setItem) (n : Z) : bool :=
  existsb (λ it, inItem it n || fl_i fl && (inItem it (lowerPoint n) || inItem it (upperPoint n))) items.
Definition inSet (negated : bool) (items : list setItem) (n : Z) : bool := xorb negated (inItems items n).
Definition wordAt (c : option Z) : bool := match c with Some n => isWord n | None => false end.
(** What holds between a character (or the start) and the next one (or the end) *)
Definition holdsBetween (r : re) (before after : option Z) : bool :=
  match r with
  | reEmpty => true
  | reBegin => match before with None => true | Some n => fl_m fl && isLineEnd n end
  | reEnd => match after with None => true | Some n => fl_m fl && isLineEnd n end
  | reWordBoundary => xorb (wordAt before) (wordAt after)
  | reNotBehind items => match before with None => true | Some n => negb (inItems items n) end
  | reNotAhead items => match after with None => true | Some n => negb (inItems items n) end
  | _ => false
  end.

(** Greedy repetition: one more round, if it consumes something, or what comes after *)
Fixpoint starLoop {A} (round : option Z → list Z → (option Z → list Z → option A) → option A)
    (k : option Z → list Z → option A) (fuel : nat) (before : option Z) (s : list Z) : option A :=
  match fuel with
  | O => k before s
  | S fuel =>
      match round before s (λ before' s', if (length s' <? length s)%nat then starLoop round k fuel before' s' else None) with
      | Some x => Some x
      | None => k before s
      end
  end.
(** The matcher: [k] is what is to be matched after the pattern. *)
Fixpoint matchRe {A} (r : re) (before : option Z) (s : list Z) (k : option Z → list Z → option A) : option A :=
  match r with
  | reSet negated items => match s with n :: s' => if inSet negated items n then k (Some n) s' else None | [] => None end
  | reSeq r1 r2 => matchRe r1 before s (λ before' s', matchRe r2 before' s' k)
  | reAlt r1 r2 => match matchRe r1 before s k with Some x => Some x | None => matchRe r2 before s k end
  | reStar r' => starLoop (matchRe r') k (length s) before s
  | _ => if holdsBetween r before (head s) then k before s else None
  end.
(** The rest of the text after a match that begins here *)
Definition matchHere (r : re) (before : option Z) (s : list Z) : option (option Z * list Z) :=
  matchRe r before s (λ before' s', Some (before', s')).

Fixpoint searchFrom (r : re) (before : option Z) (s : list Z) : bool :=
  match matchHere r before s with
  | Some _ => true
  | None => match s with [] => false | n :: s' => searchFrom r (Some n) s' end
  end.
(** [r.test(s)] *)
Definition test (r : re) (s : string) : bool := searchFrom r None (toPoints s).

(** [s.replace(r, by)] with the flag [g]; the fuel is the number of characters, and one more. *)
Fixpoint replaceFrom (fuel : nat) (r : re) (by_ : list Z) (before : option Z) (s : list Z) : list Z :=
  match fuel with
  | O => s
  | S fuel =>
      match matchHere r before s with
      | Some (before', s') =>
          if (length s' <? length s)%nat then by_ ++ replaceFrom fuel r by_ before' s'
          else by_ ++ match s with [] => [] | n :: t => n :: replaceFrom fuel r by_ (Some n) t end
      | None => match s with [] => [] | n :: t => n :: replaceFrom fuel r by_ (Some n) t end
      end
  end.
Definition replaceAll (r : re) (by_ : string) (s : string) : string :=
  let l := toPoints s in ofPoints (replaceFrom (S (length l)) r (toPoints by_) None l).
(** [[...s.matchAll(r)].length] *)
Fixpoint countFrom (fuel : nat) (r : re) (before : option Z) (s : list Z) : nat :=
  match fuel with
  | O => 0
  | S fuel =>
      match matchHere r before s with
      | Some (before', s') =>
          if (length s' <? length s)%nat then S (countFrom fuel r before' s')
          else S match s with [] => 0 | n :: t => countFrom fuel r (Some n) t end
      | None => match s with [] => 0 | n :: t => countFrom fuel r (Some n) t end
      end
  end%nat.
Definition occurrences (s : string) (r : re) : nat := let l := toPoints s in countFrom (S (length l)) r None l.
(** [s.split(r)], for a pattern that does not match the empty text *)
Fixpoint splitFrom (fuel : nat) (r : re) (field : list Z) (before : option Z) (s : list Z) : list (list Z) :=
  match fuel with
  | O => [field]
  | S fuel =>
      match matchHere r before s with
      | Some (before', s') =>
          if (length s' <? length s)%nat then field :: splitFrom fuel r [] before' s'
          else match s with [] => [field] | n :: t => splitFrom fuel r (field ++ [n]) (Some n) t end
      | None => match s with [] => [field] | n :: t => splitFrom fuel r (field ++ [n]) (Some n) t end
      end
  end.
Definition splitRe (r : re) (s : string) : list string :=
  let l := toPoints s in map ofPoints (splitFrom (S (length l)) r [] None l).
End matcher.

(** ** The syntax of patterns *)

Section syntax.
Definition single (n : Z) : setItem := iRange n n.
Definition digitPoint (n : Z) : bool := inside 48 57 n.
Fixpoint readNumber (acc : Z) (s : list Z) : Z * list Z :=
  match s with
  | n :: s' => if digitPoint n then readNumber (acc * 10 + (n - 48)) s' else (acc, s)
  | [] => (acc, [])
  end.
(** [[\d]], [[\s]], [[\S]], [[\p{...}]] and escaped characters *)
Definition readEscape (s : list Z) : option (setItem * list Z) :=
  match s with
  | 100 :: s' => Some (iDigit, s')
  | 115 :: s' => Some (iSpace, s')
  | 83 :: s' => Some (iNotSpace, s')
  | 110 :: s' => Some (single 10, s')
  | 112 :: 123 :: 76 :: 125 :: s' => Some (iLetter, s')
  | 112 :: 123 :: 78 :: 125 :: s' => Some (iNumber, s')
  | 112 :: 123 :: s' =>
      if String.prefix "Extended_Pictographic}" (ofPoints s') then Some (iPictographic, drop 22 s') else None
  | n :: s' => if isWord n then None else Some (single n, s')
  | [] => None
  end.
(** The items of a class up to its closing bracket *)
Fixpoint readItems (fuel : nat) (s : list Z) : option (list setItem * list Z) :=
  match fuel with
  | O => None
  | S fuel =>
      match s with
      | 93 :: s' => Some ([], s')
      | 92 :: s' => '(it, s1) ← readEscape s'; '(items, s2) ← readItems fuel s1; Some (it :: items, s2)
      | lo :: s' =>
          match s' with
          | 45 :: hi :: s1 =>
              if (hi =? 93) then '(items, s2) ← readItems fuel s'; Some (single lo :: items, s2)
              else '(items, s2) ← readItems fuel s1; Some (iRange lo hi :: items, s2)
          | _ => '(items, s2) ← readItems fuel s'; Some (single lo :: items, s2)
          end
      | [] => None
      end
  end.
Fixpoint repeatRe (n : nat) (r : re) : re := match n with O => reEmpty | S n => reSeq r (repeatRe n r) end.
Fixpoint countUpTo (n : nat) (r : re) : re := match n with O => reEmpty | S n => reAlt (reSeq r (countUpTo n r)) reEmpty end.
Definition readQuantifier (r : re) (s : list Z) : option (re * list Z) :=
  match s with
  | 42 :: s' => Some (reStar r, s')
  | 43 :: s' => Some (reSeq r (reStar r), s')
  | 63 :: s' => Some (reAlt r reEmpty, s')
  | 123 :: s' =>
      let '(lo, s1) := readNumber 0 s' in
      match s1 with
      | 125 :: s2 => Some (repeatRe (Z.to_nat lo) r, s2)
      | 44 :: s2 =>
          let '(hi, s3) := readNumber 0 s2 in
          match s3 with
          | 125 :: s4 => Some (reSeq (repeatRe (Z.to_nat lo) r) (countUpTo (Z.to_nat (hi - lo)) r), s4)
          | _ => None
          end
      | _ => None
      end
  | _ => Some (r, s)
  end.
Fixpoint readAlternatives (fuel : nat) (s : list Z) : option (re * list Z) :=
  match fuel with
  | O => None
  | S fuel =>
      '(r, s1) ← readSequence fuel s;
      match s1 with
      | 124 :: s2 => '(r', s3) ← readAlternatives fuel s2; Some (reAlt r r', s3)
      | _ => Some (r, s1)
      end
  end
with readSequence (fuel : nat) (s : list Z) : option (re * list Z) :=
  match fuel with
  | O => None
  | S fuel =>
      match s with
      | [] | 41 :: _ | 124 :: _ => Some (reEmpty, s)
      | _ => '(a, s1) ← readAtom fuel s; '(q, s2) ← readQuantifier a s1; '(r, s3) ← readSequence fuel s2; Some (reSeq q r, s3)
      end
  end
with readAtom (fuel : nat) (s : list Z) : option (re * list Z) :=
  match fuel with
  | O => None
  | S fuel =>
      match s with
      | 40 :: 63 :: 33 :: n :: 41 :: s' => Some (reNotAhead [single n], s')
      | 40 :: 63 :: 60 :: 33 :: n :: 41 :: s' => Some (reNotBehind [single n], s')
      | 40 :: 63 :: 58 :: s' | 40 :: s' =>
          '(r, s1) ← readAlternatives fuel s'; match s1 with 41 :: s2 => Some (r, s2) | _ => None end
      | 91 :: 94 :: s' => '(items, s1) ← readItems fuel s'; Some (reSet true items, s1)
      | 91 :: s' => '(items, s1) ← readItems fuel s'; Some (reSet false items, s1)
      | 94 :: s' => Some (reBegin, s')
      | 36 :: s' => Some (reEnd, s')
      | 46 :: s' => Some (reSet true [single 10; single 13; single 8232; single 8233], s')
      | 92 :: 98 :: s' => Some (reWordBoundary, s')
      | 92 :: s' => '(it, s1) ← readEscape s'; Some (reSet false [it], s1)
      | n :: s' => Some (reSet false [single n], s')
      | [] => None
      end
  end.
Definition parseRe (source : string) : option re :=
  let s := toPoints source in
  '(r, rest) ← readAlternatives (4 * length s + 4) s; match rest with [] => Some r | _ => None end.
(** A pattern whose source is known to be well-formed *)
Definition isRe (source : string) : bool := match parseRe source with Some _ => true | None => false end.
Definition pattern (source : string) : re := default (reSet false []) (parseRe source).
End syntax.

(** ** What a pattern means *)

(** The character before the place that a part [w] of the text leads to *)
Definition lastOr (before : option Z) (w : list Z) : option Z :=
  match last w with Some n => Some n | None => before end.
(** The character after a part of the text *)
Definition headOr (w : list Z) (after : option Z) : option Z :=
  match head w with Some n => Some n | None => after end.

Section meaning.
Context `{UnicodeTables} (fl : flags).

(** [matches r before w after]: [w] is in the language of [r], between these two characters. *)
Inductive reMatches : re → option Z → list Z → option Z → Prop :=
  | rm_between r before after : holdsBetween fl r before after = true → reMatches r before [] after
  | rm_set negated items n before after :
      inSet fl negated items n = true → reMatches (reSet negated items) before [n] after
  | rm_seq r1 r2 before w1 w2 after :
      reMatches r1 before w1 (headOr w2 after) → reMatches r2 (lastOr before w1) w2 after →
      reMatches (reSeq r1 r2) before (w1 ++ w2) after
  | rm_alt_l r1 r2 before w after : reMatches r1 before w after → reMatches (reAlt r1 r2) before w after
  | rm_alt_r r1 r2 before w after : reMatches r2 before w after → reMatches (reAlt r1 r2) before w after
  | rm_star_nil r before after : reMatches (reStar r) before [] after
  | rm_star r before w1 w2 after : w1 ≠ [] →
      reMatches r before w1 (headOr w2 after) → reMatches (reStar r) (lastOr before w1) w2 after →
      reMatches (reStar r) before (w1 ++ w2) after.
(** Some part of the text is in the language. *)
Definition occursIn (r : re) (s : list Z) : Prop :=
  ∃ a w b, s = a ++ w ++ b ∧ reMatches r (last a) w (head b).

Lemma lastOr_app before w1 w2 : lastOr before (w1 ++ w2) = lastOr (lastOr before w1) w2.
Proof using Type. unfold lastOr. rewrite last_app. by destruct (last w2), (last w1). Qed.
Lemma headOr_head w b : headOr w (head b) = head (w ++ b).
Proof using Type. by destruct w. Qed.

(** A match found is one, followed by what [k] has accepted. *)
Lemma between_sound {A} r before s (k : option Z → list Z → option A) x :
  (if holdsBetween fl r before (head s) then k before s else None) = Some x →
  ∃ w b, s = w ++ b ∧ reMatches r before w (head b) ∧ k (lastOr before w) b = Some x.
Proof using Type. case_match; [|done]. intros Hk. exists [], s. split_and!; [done|by constructor|done]. Qed.
Lemma matchRe_sound {A} r before s (k : option Z → list Z → option A) x :
  matchRe fl r before s k = Some x →
  ∃ w b, s = w ++ b ∧ reMatches r before w (head b) ∧ k (lastOr before w) b = Some x.
Proof using Type.
  revert before s k x. induction r as [| negated items | r1 IH1 r2 IH2 | r1 IH1 r2 IH2 | r IH | | | | | ];
    intros before s k x Hm; cbn [matchRe] in Hm; try (by apply between_sound).
  - destruct s as [|n s']; [done|]. case_match; [|done]. exists [n], s'. split_and!; [done|by constructor|done].
  - apply IH1 in Hm as (w1 & b1 & -> & H1 & Hm). apply IH2 in Hm as (w2 & b & -> & H2 & Hm).
    exists (w1 ++ w2), b. rewrite lastOr_app, <-app_assoc. split_and!; [done| |done].
    constructor; [|done]. by rewrite headOr_head.
  - destruct (matchRe fl r1 before s k) as [y|] eqn:E.
    + simplify_eq. apply IH1 in E as (w & b & -> & H1 & Hk). exists w, b. split_and!; [done|by apply rm_alt_l|done].
    + apply IH2 in Hm as (w & b & -> & H2 & Hk). exists w, b. split_and!; [done|by apply rm_alt_r|done].
  - revert Hm. generalize (length s). intros fuel. revert before s.
    induction fuel as [|fuel IHf]; intros before s Hm; cbn [starLoop] in Hm.
    { exists [], s. split_and!; [done|by apply rm_star_nil|done]. }
    destruct (matchRe fl r before s _) as [y|] eqn:E.
    + simplify_eq. apply IH in E as (w1 & b1 & -> & H1 & Hloop).
      destruct (length b1 <? length (w1 ++ b1))%nat eqn:El; [|done]. apply Nat.ltb_lt in El.
      apply IHf in Hloop as (w2 & b & -> & H2 & Hk).
      exists (w1 ++ w2), b. rewrite lastOr_app, <-app_assoc. split_and!; [done| |done].
      apply rm_star; [|by rewrite headOr_head|done]. intros ->. simpl in El. lia.
    + exists [], s. split_and!; [done|by apply rm_star_nil|done].
Qed.

(** If some match can be followed by what [k] accepts, the matcher finds one. *)
Definition finds {A} (m : option Z → list Z → (option Z → list Z → option A) → option A) (r : re) : Prop :=
  ∀ before w b k, reMatches r before w (head b) → is_Some (k (lastOr before w) b) → is_Some (m before (w ++ b) k).
Lemma starLoop_finds {A} m r (k : option Z → list Z → option A) before w b fuel : finds m r →
  reMatches (reStar r) before w (head b) → (length (w ++ b) <= fuel)%nat → is_Some (k (lastOr before w) b) →
  is_Some (starLoop m k fuel before (w ++ b)).
Proof using Type.
  intros Hr Hm. remember (reStar r) as r' eqn:Er. remember (head b) as after eqn:Ea. revert Er Ea fuel.
  induction Hm as [? ? ? Hb| | | | |r0 before after|r0 before w1 w2 after Hne H1 _ H2 IH2]; intros Er Ea fuel Hf Hk;
    try discriminate; simplify_eq.
  - destruct fuel as [|fuel]; cbn [app starLoop] in *; [done|]. case_match; [by eexists|exact Hk].
  - destruct fuel as [|fuel]; [rewrite !length_app in Hf; destruct w1; [done|simpl in Hf; lia]|]. cbn [starLoop].
    match goal with |- is_Some (match ?m with _ => _ end) => assert (is_Some m) as [x ->]; [|by eexists] end.
    rewrite <-app_assoc in *. apply Hr; [by rewrite <-headOr_head|].
    rewrite !length_app in *. destruct w1 as [|n w1]; [done|]. cbn [length] in *.
    rewrite (proj2 (Nat.ltb_lt _ _)) by lia. apply IH2; [done|done|rewrite ?length_app; lia|by rewrite <-lastOr_app].
Qed.
Lemma matchRe_finds {A} r : finds (A := A) (matchRe fl r) r.
Proof using Type.
  induction r as [| negated items | r1 IH1 r2 IH2 | r1 IH1 r2 IH2 | r IH | | | | | ];
    intros before w b k Hm Hk; cbn [matchRe];
    try (inversion Hm as [? ? ? Hb| | | | | | ]; subst; cbn [app]; rewrite Hb; exact Hk).
  - inversion Hm as [|? ? ? ? ? Hin| | | | | ]; subst; cbn [app]; [done|]. rewrite Hin. exact Hk.
  - inversion Hm as [| |? ? ? w1 w2 ? H1 H2| | | | ]; subst; [done|]. rewrite <-app_assoc.
    apply IH1; [by rewrite <-headOr_head|]. apply IH2; [done|by rewrite <-lastOr_app].
  - inversion Hm as [| | |? ? ? ? ? H1|? ? ? ? ? H1| | ]; subst; [done| |].
    + destruct (IH1 before w b k H1 Hk) as [x ->]. by eexists.
    + case_match; [by eexists|]. by apply IH2.
  - by eapply starLoop_finds.
Qed.

Lemma searchFrom_spec r before s : searchFrom fl r before s = true ↔
  ∃ a w b, s = a ++ w ++ b ∧ reMatches r (lastOr before a) w (head b).
Proof using Type.
  split.
  - revert before. induction s as [|n s IH]; intros before Hs; cbn [searchFrom] in Hs.
    + destruct (matchHere fl r before []) as [x|] eqn:E; [|done].
      apply matchRe_sound in E as (w & b & E & Hm & _). by exists [], w, b.
    + destruct (matchHere fl r before (n :: s)) as [x|] eqn:E.
      * apply matchRe_sound in E as (w & b & E & Hm & _). by exists [], w, b.
      * apply IH in Hs as (a & w & b & -> & Hm). exists (n :: a), w, b. split; [done|].
        change (n :: a) with ([n] ++ a). by rewrite lastOr_app.
  - intros (a & w & b & -> & Hm). revert before Hm. induction a as [|n a IH]; intros before Hm; cbn [app].
    + destruct (matchRe_finds r before w b (λ before' s', Some (before', s')) Hm ltac:(by eexists)) as [x Hx].
      destruct (w ++ b); cbn [searchFrom]; unfold matchHere; by rewrite Hx.
    + cbn [searchFrom]. case_match; [done|]. apply IH. change (n :: a) with ([n] ++ a) in Hm. by rewrite lastOr_app in Hm.
Qed.
(** [r.test(s)] finds a match exactly if some part of the text is in the language of the
    pattern: the backtracking search neither misses a match nor invents one, assertions about
    the characters around it included. *)
Theorem test_decides r s : test fl r s = true ↔ occursIn r (toPoints s).
Proof using Type.
  unfold test, occursIn. rewrite searchFrom_spec. split; intros (a & w & b & E & Hm); exists a, w, b; split; try done.
  - unfold lastOr in Hm. by destruct (last a).
  - unfold lastOr. by destruct (last a).
Qed.
End meaning.

(** ** Examples *)

Definition asciiTables : UnicodeTables := {|
  isLetter := λ n, inside 65 90 n || inside 97 122 n || inside 192 214 n || inside 216 246 n || inside 248 255 n;
  isNumber := inside 48 57; isPictographic := λ n, inside 127744 129791 n || inside 9728 10175 n |}.
Section examples.
#[local] Existing Instance asciiTables.
Example parsed_url : isRe "\bhttps?:\/\/|\bwww\.|\b[a-z0-9-]+\.(?:com|de|net)\b" = true.
Proof. reflexivity. Qed.
End examples.
