(* ===== verification/EmailCopy.v ===== *)
(** * What an email is made of, and the copy gate

    src/domain/email/: the contract of the writer and of the reviewer (email-types.ts), the
    language of an email (email-language.ts), how the message is rendered around the words of
    the model (email-render.ts), the brief (email-brief.ts), the gate over the verdict of the
    reviewer (email-review-gate.ts), the comparison of a follow-up with what was already sent
    (followup-repetition.ts) and the deterministic validation of what the model wrote
    (email-validation.ts). *)
From S2P Require Import Prelude.
From S2P Require Import JsNumber.
From S2P Require Import JsText.
From S2P Require Import JsRegex.
From S2P Require Import OutreachStatus.
From S2P Require Import SystemDb.
From S2P Require Import Qualification.
From S2P Require Import Contacts.
From S2P Require Import JsonText.
Open Scope string_scope.
Open Scope Z_scope.
Open Scope list_scope.

Definition newline : string := String (ascii_of_nat 10) EmptyString.
(** Lines of a text *)
Definition textLines (l : list string) : string := join newline l.
(** A text in which a backquote stands for a double quote *)
Fixpoint tpl (s : string) : string :=
  match s with
  | EmptyString => EmptyString
  | String c s => String (if bool_decide (c = "`"%char) then ascii_of_nat 34 else c) (tpl s)
  end.
Definition tplLines (l : list string) : string := tpl (textLines l).

(** ** email-types.ts *)

Inductive SequenceStep := Initial | Followup (step : FollowupStep).
#[global] Instance SequenceStep_eq_dec : EqDecision SequenceStep.
Proof. solve_decision. Defined.
Definition sequenceNumber (s : SequenceStep) : Z := match s with Initial => 0 | Followup n => stepNumber n end.
Definition isFollowupPosition (s : SequenceStep) : bool := match s with Initial => false | Followup _ => true end.

Definition EMAIL_WRITER_RULES_VERSION : string := "email-copy-standard-4".
Definition DEMO_URL_TOKEN : string := "{{DEMO_URL}}".
Record EmailSequencePosition := {
  sp_step : SequenceStep; sp_threadSubject : option string; sp_priorMessageBodies : list string;
}.
Definition PARAGRAPH_SHAPE (s : SequenceStep) : Z * Z :=
  match s with
  | Initial => (2, 4) | Followup Step1 => (1, 3) | Followup Step2 => (1, 2) | Followup Step3 => (1, 2)
  end.
Definition paragraphRangeText (s : SequenceStep) : string :=
  let '(min, max) := PARAGRAPH_SHAPE s in
  if min =? max
  then "exactly " +:+ pretty min +:+ " short natural paragraph" +:+ (if min =? 1 then "" else "s")
  else pretty min +:+ " to " +:+ pretty max +:+ " short natural paragraph" +:+ (if max =? 1 then "" else "s").
Definition INITIAL_EMAIL_SEQUENCE : EmailSequencePosition :=
  {| sp_step := Initial; sp_threadSubject := None; sp_priorMessageBodies := [] |}.

Section reply_subject.
Context `{UnicodeTables}.
Definition RE_PREFIX : re := pattern "^re:\s".
Definition replySubject (original : string) : string :=
  let trimmed := trim original in if test flagI RE_PREFIX trimmed then trimmed else "Re: " +:+ trimmed.
End reply_subject.

Inductive EmailPrimaryCta := VIEW_CONCEPT | REPLY_FOR_DETAILS.
#[global] Instance EmailPrimaryCta_eq_dec : EqDecision EmailPrimaryCta.
Proof. solve_decision. Defined.
Definition ctaText (c : EmailPrimaryCta) : string :=
  match c with VIEW_CONCEPT => "VIEW_CONCEPT" | REPLY_FOR_DETAILS => "REPLY_FOR_DETAILS" end.
Definition PRIMARY_CTAS : list EmailPrimaryCta := [VIEW_CONCEPT; REPLY_FOR_DETAILS].
Inductive EmailScanResult := SCAN_PASS | SCAN_FAIL.
#[global] Instance EmailScanResult_eq_dec : EqDecision EmailScanResult.
Proof. solve_decision. Defined.
Inductive DemoAlignmentResult := ALIGN_PASS | ALIGN_NOT_APPLICABLE | ALIGN_FAIL.
#[global] Instance DemoAlignmentResult_eq_dec : EqDecision DemoAlignmentResult.
Proof. solve_decision. Defined.
Inductive EmailCompetitorEvidenceMode := CE_NONE | APPROVED_COMPETITOR_PATTERN_PACKAGE.
#[global] Instance EmailCompetitorEvidenceMode_eq_dec : EqDecision EmailCompetitorEvidenceMode.
Proof. solve_decision. Defined.
Definition MAX_EMAIL_WORDS : Z := 120.
Definition MAX_SUBJECT_LENGTH : Z := 80.
Record EmailWriterOutput := {
  subject_options : list string; selected_subject : string; selected_subject_reason : string; email_body : string;
  evidence_ids : list string; strategic_angle : string; business_relevance : string; urgency_basis : string;
  competitor_evidence_used : EmailCompetitorEvidenceMode; primary_cta : EmailPrimaryCta;
  prohibited_phrase_scan : EmailScanResult; punctuation_scan : EmailScanResult; genericity_score : Z;
  human_style_result : EmailScanResult; demo_alignment_result : DemoAlignmentResult;
}.
Inductive EmailReviewDecision := REVIEW_APPROVE | REVIEW_APPROVE_WITH_REVISIONS | REVIEW_REJECT.
#[global] Instance EmailReviewDecision_eq_dec : EqDecision EmailReviewDecision.
Proof. solve_decision. Defined.
Definition reviewDecisionText (d : EmailReviewDecision) : string :=
  match d with
  | REVIEW_APPROVE => "APPROVE" | REVIEW_APPROVE_WITH_REVISIONS => "APPROVE_WITH_REVISIONS" | REVIEW_REJECT => "REJECT"
  end.
(** The verdict, as the schema of the reviewer has it *)
Record EmailReviewParsed := {
  rv_decision : EmailReviewDecision; fabricationRisk : bool; subjectSpecific : bool; subjectCuriosityGap : bool;
  openingSpecific : bool; businessRelevanceClear : bool; urgencySupported : bool; competitorClaimsSupported : bool;
  humanStylePass : bool; punctuationPass : bool; singlePrimaryCta : bool; sufficientlyPersonalized : bool;
  evidenceSupported : bool; demoAligned : bool; persuasive : bool; singleObservation : bool; buyerLanguageOnly : bool;
  conversationNotAudit : bool; confidentObservation : bool; addsClarityNotRestart : bool; compressedNotExpanded : bool;
  pressureReduced : bool; binaryReplyClose : bool; rv_problems : list string; requiredRevisions : list string;
}.
Record RenderedEmail := {
  re_subject : string; re_body : string; re_ctaKind : string; re_hasDemoUrlPlaceholder : bool;
  re_factInputs : list (string * string * string); re_findingInputs : list (string * string * string);
}.

(** ** email-language.ts *)

Inductive EmailLanguage := EN | DE.
#[global] Instance EmailLanguage_eq_dec : EqDecision EmailLanguage.
Proof. solve_decision. Defined.
Definition languageText (l : EmailLanguage) : string := match l with EN => "en" | DE => "de" end.
Definition isUsableFact (f : LeadFactRow) : bool := lf_isCurrent f && negb (String.eqb (trim (lf_value f)) "").
(** The current fact of a type that is named by a text *)
Definition currentOf (facts : list LeadFactRow) (type : string) : option LeadFactRow :=
  List.find (λ f, String.eqb (factTypeText (lf_factType f)) type && isUsableFact f) facts.
Definition currentValue (facts : list LeadFactRow) (type : string) : option string :=
  (λ f, trim (lf_value f)) <$> currentOf facts type.
Definition DE_COUNTRY : re := pattern "^(de|at|ch|germany|deutschland|austria|österreich|switzerland|schweiz)$".
Definition DE_TLD : re := pattern "\.(de|at|ch)(\/|$|\?)".
Definition EN_MARKERS : re := pattern "\b(?:the|and|your|you|our|with|this|that|would|could|please|appointment)\b".
Definition DE_MARKERS : re :=
  pattern "\b(?:und|der|die|das|Sie|Ihre|könnte|würde|für|auf|eine|einen|nicht|sich)\b".
Section language.
Context `{UnicodeTables}.
Definition resolveEmailLanguage (facts : list LeadFactRow) : EmailLanguage :=
  let german (t : string) := match currentValue facts t with Some v => test flagI DE_TLD (toLocaleLowerCase v) | None => false end in
  if match currentValue facts "country" with Some c => test flagI DE_COUNTRY c | None => false end then DE
  else if existsb german ["official_website_url"; "official_domain"; "domain"] then DE
  else EN.
Definition hasForeignLanguage (target : EmailLanguage) (segments : list string) : bool :=
  existsb (test flagI (if bool_decide (target = DE) then EN_MARKERS else DE_MARKERS)) segments.
End language.

(** ** email-render.ts *)

Definition EMAIL_SENDER_NAME_TOKEN : string := "{{SENDER_NAME}}".
Record EmailFinding := {
  fd_id : string; fd_findingRef : string; fd_category : string; fd_safeForOutreach : bool; fd_observation : string;
  fd_recommendation : string;
}.
Record EmailDemoMeta := { ed_id : string; ed_status : string; ed_ctaKind : option string; ed_approvedFindingRefs : list string }.
Record EmailRecipientContext := {
  rc_contactType : ContactResolutionType; rc_email : string; rc_intendedDecisionMakers : list (string * string);
}.
Record EmailInputs := {
  in_facts : list LeadFactRow; in_findings : list EmailFinding; in_demo : option EmailDemoMeta;
  in_recipient : option EmailRecipientContext; in_threadSubject : option string;
}.
Definition personalNameAllowed (recipient : option EmailRecipientContext) : bool :=
  match recipient with Some r => bool_decide (rc_contactType r = PERSONAL_VERIFIED) | None => false end.
Definition NEUTRAL_GREETING (l : EmailLanguage) : string := match l with EN => "Hello," | DE => "Hallo," end.
Definition NAMED_GREETING (l : EmailLanguage) (name : string) : string :=
  match l with EN => "Hello " +:+ name +:+ "," | DE => "Hallo " +:+ name +:+ "," end.
Definition CTA_SENTENCE (l : EmailLanguage) (c : EmailPrimaryCta) : string :=
  match l, c with
  | EN, VIEW_CONCEPT => "You can view the concept here: " +:+ DEMO_URL_TOKEN
  | EN, REPLY_FOR_DETAILS => "If this is relevant, reply and I will share the details."
  | DE, VIEW_CONCEPT => "Das Konzept können Sie hier ansehen: " +:+ DEMO_URL_TOKEN
  | DE, REPLY_FOR_DETAILS => "Wenn das für Sie relevant ist, antworten Sie und ich sende Ihnen die Details."
  end.
Definition FINAL_CLOSE_CTA (l : EmailLanguage) : string :=
  match l with
  | EN => "If you would like me to send it, reply yes. If not, no is a complete answer."
  | DE => "Wenn ich es Ihnen schicken soll, antworten Sie mit Ja. Wenn nicht, ist Nein eine vollständige Antwort."
  end.
Definition SIGNOFF_TEXT (l : EmailLanguage) : string := match l with EN => "Best regards," | DE => "Beste Grüße" end.
Definition RENDER_BOILERPLATE_PHRASES : list string :=
  [NEUTRAL_GREETING EN; NEUTRAL_GREETING DE; SIGNOFF_TEXT EN; SIGNOFF_TEXT DE;
   CTA_SENTENCE EN VIEW_CONCEPT; CTA_SENTENCE EN REPLY_FOR_DETAILS;
   CTA_SENTENCE DE VIEW_CONCEPT; CTA_SENTENCE DE REPLY_FOR_DETAILS; EMAIL_SENDER_NAME_TOKEN].
Definition ctaSentenceFor (l : EmailLanguage) (cta : EmailPrimaryCta) (step : SequenceStep) : string :=
  if bool_decide (step = Followup FINAL_FOLLOWUP_STEP) && bool_decide (cta = REPLY_FOR_DETAILS)
  then FINAL_CLOSE_CTA l else CTA_SENTENCE l cta.
Definition demoLinkAllowed (demo : option EmailDemoMeta) : bool :=
  match demo with Some d => String.eqb (ed_status d) "APPROVED" | None => false end.

(** [new Map(pairs).get(key)]: of several pairs with one key the last one counts. *)
Definition mapGet {A} (key : A → string) (k : string) (l : list A) : option A :=
  last (List.filter (λ x, String.eqb (key x) k) l).
Definition safeOf (findings : list EmailFinding) : list EmailFinding := List.filter fd_safeForOutreach findings.

Record EmailValidationContext := {
  vc_availableEvidenceIds : list string; vc_factEvidenceIds : list string; vc_acceptedFindingIds : list string;
  vc_approvedDemoFindingIds : list string; vc_demoLinkAllowed : bool; vc_language : EmailLanguage;
  vc_sequence : EmailSequencePosition;
}.

Section rendering.
Context `{UnicodeTables}.
Definition RENDER_GREETING_WORDS : list string :=
  uniq (map (λ g, toLocaleLowerCase (default "" (head (splitRe noFlags (pattern "[\s,]+") (trim g)))))
    [NEUTRAL_GREETING EN; NEUTRAL_GREETING DE; NAMED_GREETING EN "x"; NAMED_GREETING DE "x"]).

Definition buildEmailContext (inputs : EmailInputs) (sequence : EmailSequencePosition) : EmailValidationContext :=
  let facts := map lf_id (List.filter isUsableFact (in_facts inputs)) in
  let safeFindings := safeOf (in_findings inputs) in
  let refs := match in_demo inputs with Some d => ed_approvedFindingRefs d | None => [] end in
  {| vc_availableEvidenceIds := facts ++ map fd_id safeFindings; vc_factEvidenceIds := facts;
     vc_acceptedFindingIds := map fd_id safeFindings;
     vc_approvedDemoFindingIds := omap (λ ref, fd_id <$> mapGet fd_findingRef ref safeFindings) refs;
     vc_demoLinkAllowed := demoLinkAllowed (in_demo inputs); vc_language := resolveEmailLanguage (in_facts inputs);
     vc_sequence := sequence |}.

Definition greetingFact (inputs : EmailInputs) : option LeadFactRow :=
  if personalNameAllowed (in_recipient inputs) then currentOf (in_facts inputs) "contact_name" else None.
Definition greetingFor (inputs : EmailInputs) : string :=
  let l := resolveEmailLanguage (in_facts inputs) in
  match greetingFact inputs with Some f => NAMED_GREETING l (trim (lf_value f)) | None => NEUTRAL_GREETING l end.
Definition renderBody (out : EmailWriterOutput) (inputs : EmailInputs) (step : SequenceStep) : string :=
  let l := resolveEmailLanguage (in_facts inputs) in
  textLines [greetingFor inputs; ""; trim (email_body out); ""; ctaSentenceFor l (primary_cta out) step; "";
             SIGNOFF_TEXT l; EMAIL_SENDER_NAME_TOKEN].
Definition factInputsFor (out : EmailWriterOutput) (inputs : EmailInputs) : list (string * string * string) :=
  let facts := List.filter lf_isCurrent (in_facts inputs) in
  match greetingFact inputs with
  | Some f => [(lf_id f, factTypeText (lf_factType f), "greeting.name")]
  | None => []
  end ++
  omap (λ id, (λ f, (lf_id f, factTypeText (lf_factType f), "copy.evidence")) <$> mapGet lf_id id facts) (evidence_ids out).
Definition findingInputsFor (out : EmailWriterOutput) (inputs : EmailInputs) : list (string * string * string) :=
  omap (λ id, (λ f, (fd_id f, fd_findingRef f, "email:" +:+ fd_category f)) <$> mapGet fd_id id (safeOf (in_findings inputs)))
    (evidence_ids out).
Definition renderEmail (out : EmailWriterOutput) (inputs : EmailInputs) (sequence : EmailSequencePosition) : res RenderedEmail :=
  if truthy_opt (in_threadSubject inputs) && bool_decide (sp_step sequence = Initial)
  then Throw (JsError "renderEmail: a threaded email cannot be rendered with the step-0 sequence position")
  else
    let body := renderBody out inputs (sp_step sequence) in
    Ok {| re_subject := match in_threadSubject inputs with
                        | Some t => if truthy t then replySubject t else selected_subject out
                        | None => selected_subject out
                        end;
          re_body := body;
          re_ctaKind := match primary_cta out with VIEW_CONCEPT => "demo_link" | REPLY_FOR_DETAILS => "reply" end;
          re_hasDemoUrlPlaceholder := includes body DEMO_URL_TOKEN;
          re_factInputs := factInputsFor out inputs; re_findingInputs := findingInputsFor out inputs |}.

(** ** email-brief.ts *)

Record BriefFinding := {
  bf_evidenceId : string; bf_findingRef : string; bf_category : string; bf_observation : string; bf_recommendation : string;
}.
Record EmailBrief := {
  br_businessName : option string; br_contactName : option string; br_language : EmailLanguage;
  br_facts : list (string * string * string); br_findings : list BriefFinding; br_demoLinkAllowed : bool;
  br_approvedDemoFindingRefs : list string;
}.
Definition buildEmailBrief (inputs : EmailInputs) : EmailBrief :=
  let facts := List.filter isUsableFact (in_facts inputs) in
  {| br_businessName := currentValue facts "business_name"; br_contactName := currentValue facts "contact_name";
     br_language := resolveEmailLanguage (in_facts inputs);
     br_facts := map (λ f, (lf_id f, factTypeText (lf_factType f), trim (lf_value f))) facts;
     br_findings := map (λ f, {| bf_evidenceId := fd_id f; bf_findingRef := fd_findingRef f; bf_category := fd_category f;
         bf_observation := fd_observation f; bf_recommendation := fd_recommendation f |}) (safeOf (in_findings inputs));
     br_demoLinkAllowed := demoLinkAllowed (in_demo inputs);
     br_approvedDemoFindingRefs := match in_demo inputs with Some d => ed_approvedFindingRefs d | None => [] end |}.
End rendering.

(** ** email-review-gate.ts *)

Definition STEP_DEPENDENT_DIMENSIONS : list (string * (EmailReviewParsed → bool) * list SequenceStep) :=
  [("openingSpecific", openingSpecific, [Initial; Followup Step1]);
   ("businessRelevanceClear", businessRelevanceClear, [Initial]);
   ("persuasive", persuasive, [Initial]);
   ("sufficientlyPersonalized", sufficientlyPersonalized, [Initial; Followup Step1]);
   ("singleObservation", singleObservation, [Initial; Followup Step1; Followup Step2]);
   ("confidentObservation", confidentObservation, [Initial; Followup Step1; Followup Step2])].
Definition reviewDimensionApplies (name : string) (step : SequenceStep) : bool :=
  match List.find (λ d, String.eqb d.1.1 name) STEP_DEPENDENT_DIMENSIONS with
  | Some d => bool_decide (step ∈ d.2)
  | None => true
  end.
Definition sequenceJobSatisfied (review : EmailReviewParsed) (step : SequenceStep) : bool :=
  match step with
  | Initial => true
  | Followup Step1 => addsClarityNotRestart review && compressedNotExpanded review && pressureReduced review
  | Followup Step2 => compressedNotExpanded review && pressureReduced review && addsClarityNotRestart review
  | Followup Step3 =>
      binaryReplyClose review && pressureReduced review && compressedNotExpanded review && addsClarityNotRestart review
  end.
Definition isEmailReviewApprovable (review : EmailReviewParsed) (step : SequenceStep) (subjectIsThreadContinuity : bool) : bool :=
  let universal :=
    bool_decide (rv_decision review = REVIEW_APPROVE) && negb (fabricationRisk review) && urgencySupported review &&
    competitorClaimsSupported review && humanStylePass review && punctuationPass review && singlePrimaryCta review &&
    evidenceSupported review && demoAligned review && buyerLanguageOnly review && conversationNotAudit review in
  let subject := subjectIsThreadContinuity || (subjectSpecific review && subjectCuriosityGap review) in
  let copyJob := forallb (λ d, negb (bool_decide (step ∈ d.2)) || d.1.2 review) STEP_DEPENDENT_DIMENSIONS in
  universal && subject && copyJob && sequenceJobSatisfied review step.

(** ** followup-repetition.ts *)

Definition maxSharedContentRun : nat := 4.
Definition maxSharedBigramRatio : num := ofDecimal false 15 (-2).
Definition minNovelContentTokens : nat := 4.
Definition minContentTokensForPhraseAnalysis : nat := 10.
Record RepetitionPolicy := { detectClauseReplay : bool; detectPervasiveReuse : bool; requireNovelty : bool }.
Definition repetitionPolicyFor (step : Z) : RepetitionPolicy :=
  {| detectClauseReplay := true; detectPervasiveReuse := true; requireNovelty := step =? 1 |}.
Inductive RepetitionReason := VERBATIM_CLAUSE_REPLAY | PERVASIVE_PHRASE_REUSE | NO_NEW_CONTENT.
Definition repetitionReasonText (r : RepetitionReason) : string :=
  match r with
  | VERBATIM_CLAUSE_REPLAY => "VERBATIM_CLAUSE_REPLAY" | PERVASIVE_PHRASE_REUSE => "PERVASIVE_PHRASE_REUSE"
  | NO_NEW_CONTENT => "NO_NEW_CONTENT"
  end.
Record RepetitionAnalysis := {
  ra_repeats : bool; ra_reason : option RepetitionReason; ra_longestSharedRun : nat; ra_sharedBigramRatio : num;
  ra_novelContentTokens : nat; ra_candidateContentTokens : nat; ra_tooShortForPhraseAnalysis : bool;
}.
Definition STOPWORDS : list string :=
  ["a"; "about"; "above"; "after"; "again"; "all"; "also"; "am"; "an"; "and"; "any"; "are"; "as"; "at";
   "be"; "been"; "before"; "being"; "below"; "between"; "both"; "but"; "by"; "can"; "could"; "did";
   "do"; "does"; "doing"; "down"; "during"; "each"; "few"; "for"; "from"; "further"; "had"; "has";
   "have"; "having"; "he"; "her"; "here"; "hers"; "him"; "his"; "how"; "i"; "if"; "in"; "into"; "is";
   "it"; "its"; "just"; "me"; "more"; "most"; "my"; "no"; "nor"; "not"; "now"; "of"; "off"; "on";
   "once"; "only"; "or"; "other"; "ought"; "our"; "ours"; "out"; "over"; "own"; "rather"; "same";
   "she"; "should"; "simply"; "so"; "some"; "such"; "than"; "that"; "the"; "their"; "theirs"; "them";
   "then"; "there"; "these"; "they"; "this"; "those"; "through"; "to"; "too"; "under"; "until"; "up";
   "very"; "was"; "we"; "were"; "what"; "when"; "where"; "which"; "while"; "who"; "whom"; "why";
   "will"; "with"; "would"; "you"; "your"; "yours";
   "aber"; "als"; "am"; "an"; "auch"; "auf"; "aus"; "bei"; "bin"; "bis"; "da"; "dass"; "dem"; "den";
   "der"; "des"; "die"; "das"; "doch"; "durch"; "ein"; "eine"; "einem"; "einen"; "einer"; "eines";
   "er"; "es"; "für"; "hat"; "haben"; "ich"; "ihr"; "ihre"; "im"; "in"; "ist"; "kann"; "man"; "mit";
   "nach"; "nicht"; "noch"; "nur"; "oder"; "sich"; "sie"; "sind"; "über"; "um"; "und"; "von"; "vor";
   "war"; "wenn"; "werden"; "wie"; "wir"; "wird"; "zu"; "zum"; "zur"].
Definition isStopword (t : string) : bool := bool_decide (t ∈ STOPWORDS).
Definition FOLD_SUFFIXES : list string := ["ungen"; "ing"; "ed"; "es"; "en"; "s"].
Definition hasSuffix (s p : string) : bool :=
  (String.length p <=? String.length s)%nat && String.eqb (String.substring (String.length s - String.length p) (String.length p) s) p.
(** The suffixes are ASCII: as many bytes as code units are cut off. *)
Definition foldToken (token : string) : string :=
  match List.find (λ p, (String.length p + 3 <? utf16Length token)%nat && hasSuffix token p) FOLD_SUFFIXES with
  | Some p => String.substring 0 (String.length token - String.length p) token
  | None => token
  end.
(** [text.split(phrase).join(' ')]; [skip] characters belong to an occurrence. *)
Fixpoint blankOut (phrase : string) (skip : nat) (s : string) : string :=
  match s with
  | EmptyString => EmptyString
  | String c s' =>
      match skip with
      | S skip => blankOut phrase skip s'
      | O => if startsWith s phrase then String " " (blankOut phrase (String.length phrase - 1) s')
             else String c (blankOut phrase 0 s')
      end
  end.
Definition bigrams (tokens : list string) : list string :=
  map (λ p, p.1 +:+ " " +:+ p.2) (zip tokens (tail tokens)).

(** The table of the longest common substring: a row from the row before it *)
Fixpoint runRow (x : string) (above : list nat) (previous : list string) : list nat :=
  match above, previous with
  | up :: above, y :: previous => (if String.eqb x y then S up else O) :: runRow x above previous
  | _, _ => []
  end.
(** [above] has an entry for each place of [previous], and one before them. *)
Fixpoint runTable (above : list nat) (candidate previous : list string) (longest : nat) : nat :=
  match candidate with
  | [] => longest
  | x :: candidate =>
      let row := runRow x above previous in
      runTable (O :: row) candidate previous (foldl Nat.max longest row)
  end.
Definition longestSharedRun (candidate : list string) (prior : list (list string)) : nat :=
  foldl (λ longest previous, runTable (replicate (S (length previous)) O) candidate previous longest) O prior.

Section repetition.
Context `{UnicodeTables}.
Definition GREETING_LINE_RE : re := pattern ("^\s*(?:" +:+ join "|" RENDER_GREETING_WORDS +:+ ")\b[^\n]*$").
Definition normalizeText (text : string) : string :=
  let s := toLocaleLowerCase text in
  let s := replaceAll noFlags (pattern "[‘’‚‛]") "'" s in
  let s := replaceAll noFlags (pattern "[“”„‟]") (String (ascii_of_nat 34) EmptyString) s in
  let s := replaceAll noFlags (pattern "[‐-―]") "-" s in
  let s := replaceAll noFlags (pattern "\{\{[^}]*\}\}") " " s in
  trim (replaceAll noFlags (pattern "[^\p{L}\p{N}]+") " " s).
Definition wordsOf (text : string) : list string := List.filter truthy (splitRe noFlags (pattern " ") (normalizeText text)).
Definition contentTokens (text : string) (threadSubject : option string) : list string :=
  let stripped := foldl (λ s phrase, blankOut phrase 0 s) (replaceAll flagIM GREETING_LINE_RE " " text) RENDER_BOILERPLATE_PHRASES in
  let subjectTokens := match threadSubject with Some t => if truthy t then map foldToken (wordsOf t) else [] | None => [] end in
  List.filter (λ t, (1 <? utf16Length t)%nat && negb (bool_decide (t ∈ subjectTokens)) && negb (isStopword t))
    (map foldToken (List.filter (λ t, negb (isStopword t)) (wordsOf stripped))).
(** What is measured about a candidate *)
Definition sharedRatio (candidate : list string) (prior : list (list string)) : num :=
  let own := bigrams candidate in
  let known := concat (map bigrams prior) in
  if bool_decide (own = []) then ofZ 0
  else divN (ofZ (Z.of_nat (length (List.filter (λ b, bool_decide (b ∈ known)) own)))) (ofZ (Z.of_nat (length own))).
Definition novelTokens (candidate : list string) (prior : list (list string)) : nat :=
  length (uniq (List.filter (λ t, negb (bool_decide (t ∈ concat prior))) candidate)).
Definition judgeRepetition (policy : RepetitionPolicy) (candidate : list string) (prior : list (list string)) :
    option RepetitionReason :=
  if bool_decide (concat prior = []) then None
  else if requireNovelty policy && (novelTokens candidate prior <? minNovelContentTokens)%nat then Some NO_NEW_CONTENT
  else if (length candidate <? minContentTokensForPhraseAnalysis)%nat then None
  else if detectClauseReplay policy && (maxSharedContentRun <=? longestSharedRun candidate prior)%nat then Some VERBATIM_CLAUSE_REPLAY
  else if detectPervasiveReuse policy && geN (sharedRatio candidate prior) maxSharedBigramRatio then Some PERVASIVE_PHRASE_REUSE
  else None.
Definition analyzeFollowupRepetition (step : Z) (candidateBody : string) (priorBodies : list string)
    (threadSubject : option string) : RepetitionAnalysis :=
  let candidate := contentTokens candidateBody threadSubject in
  let prior := map (λ body, contentTokens body threadSubject) priorBodies in
  let reason := judgeRepetition (repetitionPolicyFor step) candidate prior in
  {| ra_repeats := bool_decide (is_Some reason); ra_reason := reason;
     ra_longestSharedRun := longestSharedRun candidate prior; ra_sharedBigramRatio := sharedRatio candidate prior;
     ra_novelContentTokens := novelTokens candidate prior; ra_candidateContentTokens := length candidate;
     ra_tooShortForPhraseAnalysis := (length candidate <? minContentTokensForPhraseAnalysis)%nat |}.
End repetition.

(** ** email-validation.ts *)

Definition URL_RE : re := pattern "\bhttps?:\/\/|\bwww\.|\b[a-z0-9-]+\.(?:com|de|net|org|io|co|uk|eu|example)\b".
Definition METRIC_RE : re :=
  pattern "\b\d+\s?%|\b\d[\d,.]*\s+(?:visitors?|clicks?|leads?|customers?|patients?|sales|conversions?|rankings?|positions?)\b".
Definition PERFORMANCE_RE : re :=
  pattern ("\b(?:revenue|traffic|rankings?|conversion rate|roi|return on investment|double (?:your|the)|triple|" +:+
    "boost (?:your )?sales|more (?:patients|customers|leads)|lose (?:customers|patients)|guaranteed?)\b").
Definition FAKE_URGENCY_RE : re :=
  pattern ("\b(?:act now|urgent(?:ly)?|immediately|last chance|don'?t miss|limited time|only available this week|hurry|" +:+
    "expires soon|nur diese woche|letzte chance|sofort handeln)\b").
Definition UNSUPPORTED_BEHAVIOR_RE : re :=
  pattern ("\b(?:visitors?|patients?|customers?)\s+(?:are|will be|werden|würden)\s+" +:+
    "(?:leaving|leave|abandon|lost|abspringen|verlassen)\b").
Definition COMPETITOR_RE : re :=
  pattern ("\b(?:competitors?|competition|other (?:clinics?|practices?|businesses)|market leaders?|mitbewerber|konkurrenz|" +:+
    "andere (?:kliniken|praxen|unternehmen))\b").
Definition DEMO_MENTION_RE : re :=
  pattern "\b(?:demo|mock-?up|redesign|concept|preview|prototype|mockup|konzept|entwurf|vorschau)\b".
Definition CTA_IN_BODY_RE : re :=
  pattern ("\b(?:reply|respond|book a call|schedule a call|call me|take a look|view (?:the|this)|open (?:the|this)|" +:+
    "(?<!-)click(?!-)|visit (?:the|this|our|your|us|me)|antworten sie|schreiben sie mir|termin vereinbaren|ansehen|" +:+
    "öffnen sie|klicken sie)\b").
Definition GENERIC_OPENING_RE : re :=
  pattern ("^(?:i (?:just )?(?:wanted to|thought i(?:'d| would)|came across)|ich wollte mich kurz|ich dachte,? ich|" +:+
    "in today'?s|in der heutigen|i hope|ich hoffe)").
Definition IMPLEMENTATION_JARGON_RE : re :=
  pattern "%20|\bhref\b|\btel:|\bencoded spaces?\b|\bleading space\b|\bphone target\b".
Definition MARKDOWN_RE : re :=
  pattern "(?:^|\n)\s{0,3}(?:#{1,6}\s|[-*+]\s|\d+\.\s|>\s)|\[[^\]]+\]\([^)]+\)|`{1,3}|\*\*|__".
Definition EMOJI_RE : re := pattern "\p{Extended_Pictographic}".
Definition REPEATED_COMMA_RE : re := pattern ",\s*,".
Definition CAUTIOUS_RE : re :=
  pattern ("\b(?:perhaps|maybe|possibly|might|could potentially|should perhaps be reviewed|vielleicht|möglicherweise|" +:+
    "eventuell|könnte möglicherweise|sollte vielleicht geprüft werden)\b").
Definition FORBIDDEN_PHRASES : list string :=
  ["in der heutigen digitalen welt"; "in der heutigen schnelllebigen zeit"; "es ist wichtig zu beachten";
   "wir freuen uns, ihnen mitzuteilen"; "maßgeschneiderte lösung"; "auf das nächste level bringen";
   "revolutionieren"; "optimieren sie ihre online-präsenz"; "potenzial voll ausschöpfen";
   "nahtlose benutzererfahrung"; "ich wollte mich kurz melden"; "ich hoffe, diese nachricht erreicht sie gut";
   "könnte möglicherweise"; "in today's digital world"; "in today’s digital world";
   "in today's fast-paced environment"; "in today’s fast-paced environment";
   "i hope this email finds you well"; "take your business to the next level"; "unlock your full potential";
   "cutting-edge solution"; "seamless user experience"; "revolutionize your online presence";
   "just wanted to reach out"; "game-changing"; "tailored solution"].
Definition GENERIC_SUBJECTS : list re :=
  [pattern "^(?:website idea|quick question|improve your website|new website concept|a suggestion for your website)(?:\s+for\s+.+)?$";
   pattern "^(?:website-idee|kurze frage|website verbessern|neues website-konzept|vorschlag für ihre website)(?:\s+für\s+.+)?$";
   pattern "^(?:a )?quick note (?:on|about) (?:your|the) (?:practice )?website$";
   pattern "^(?:website|webseite|homepage)\s*(?:idea|note|suggestion|idee|hinweis|vorschlag)?$"].
Definition REVEALING_SUBJECTS : list re :=
  [pattern ("\b(?:improve|improving|boost|boosting|optimi[sz]e|optimising|optimizing|fix|fixing|increase|increasing|upgrade|upgrading|" +:+
     "enhance|enhancing|streamline|streamlining)\b[^.!?]*\b(?:booking|bookings|website|web\s?site|site|appointment|appointments|" +:+
     "conversion|conversions|enquir(?:y|ies)|contact form|seo|checkout|funnel)\b");
   pattern ("\b(?:booking|bookings|website|web\s?site|homepage|appointment|appointments|conversion|conversions|enquir(?:y|ies)|" +:+
     "checkout|seo)\b[^.!?]*\b(?:suggestion|suggestions|idea|ideas|opportunity|opportunities|improvement|improvements|tip|tips|" +:+
     "fix|fixes|path)\b");
   pattern ("\b(?:verbessern|verbessere|optimieren|optimiere|steigern|steigere|erhöhen|erhöhe|beheben)\b[^.!?]*\b" +:+
     "(?:buchung|buchungen|website|webseite|homepage|termin(?:e|buchung)?|conversion|kontaktformular|anfrage)\b");
   pattern ("\b(?:buchung|buchungen|website|webseite|homepage|termin(?:e)?|conversion|kontaktformular)\b[^.!?]*\b" +:+
     "(?:vorschlag|idee|chance|möglichkeit|verbesserung|tipp|hinweis)\b")].
Definition CLOCK_TIME_RE : re := pattern "\b\d{1,2}:\d{2}\b".
Definition PARAGRAPH_BREAK_RE : re := pattern "\n\s*\n".
Definition CONVERSION_HUB_RE : re := pattern "\bconversion hub\b".
Definition CONVERSION_PATH_RE : re :=
  pattern "\b(?:booking|enquir|contact|appointment|action|patient|customer|conversion path)\b".
Definition GENERICITY_CEILING (s : SequenceStep) : option Z :=
  match s with Initial | Followup Step1 => Some 40 | Followup Step2 | Followup Step3 => None end.
Definition emDashMark : string := "—".
Definition enDashMark : string := "–".

Fixpoint countChar (c : ascii) (s : string) : nat :=
  match s with EmptyString => O | String d s => if bool_decide (d = c) then S (countChar c s) else countChar c s end.
(** [if (condition) violations.push(label)] *)
Definition violation (condition : bool) (label : string) : list string := if condition then [label] else [].
Definition numbered {A} (l : list A) : list (nat * A) := combine (seq 1 (length l)) l.
(** [x.toFixed(2)] of a number that is not negative *)
Definition hundredths (x : num) : Z :=
  match x with
  | SpecFloat.S754_finite _ m e => if 0 <=? e then Zpos m * 2 ^ e * 100 else (Zpos m * 200 + 2 ^ (- e)) / (2 ^ (- e) * 2)
  | _ => 0
  end.
Definition toFixed2 (x : num) : string :=
  let n := hundredths x in pretty (n / 100) +:+ "." +:+ padStart0 2 (pretty (n mod 100)).

Section validation.
Context `{UnicodeTables}.
Definition wordCount (value : string) : Z :=
  Z.of_nat (length (List.filter truthy (splitRe noFlags (pattern "\s+") (trim value)))).
Definition isGenericSubject (subject : string) : bool :=
  let normalized := trim subject in
  (utf16Length normalized <? 8)%nat || existsb (λ r, test flagI r normalized) GENERIC_SUBJECTS.
Definition isRevealingSubject (subject : string) : bool := existsb (λ r, test flagI r (trim subject)) REVEALING_SUBJECTS.
Definition validateSubjects (out : EmailWriterOutput) (subjects : list string) (sequence : EmailSequencePosition) : list string :=
  let selected := trim (selected_subject out) in
  match sp_step sequence with
  | Initial =>
      violation (negb (length (uniq (map toLocaleLowerCase subjects)) =? 3)%nat) "subject_options_not_unique" ++
      violation (negb (bool_decide (selected ∈ subjects))) "selected_subject_not_in_options" ++
      concat (map (λ p, violation (isGenericSubject p.2) ("generic_subject:" +:+ pretty p.1) ++
                        violation (isRevealingSubject p.2) ("subject_reveals_finding:" +:+ pretty p.1)) (numbered subjects))
  | Followup _ =>
      let thread := trim (default "" (sp_threadSubject sequence)) in
      if String.eqb thread "" then ["followup_thread_subject_missing"]
      else
        let expected := replySubject thread in
        concat (map (λ p, violation (negb (String.eqb (replySubject p.2) expected))
                            ("followup_subject_not_thread_subject:" +:+ pretty p.1)) (numbered subjects)) ++
        violation (negb (String.eqb (replySubject selected) expected)) "followup_selected_subject_not_thread_subject"
  end.
Definition validateSequenceCta (out : EmailWriterOutput) (sequence : EmailSequencePosition) : list string :=
  violation (bool_decide (sp_step sequence = Followup FINAL_FOLLOWUP_STEP) && negb (bool_decide (primary_cta out = REPLY_FOR_DETAILS)))
    ("final_step_requires_binary_reply_cta:" +:+ ctaText (primary_cta out)).
Definition validateFollowupDoesNotReplay (body : string) (sequence : EmailSequencePosition) : list string :=
  match sp_step sequence with
  | Initial => []
  | Followup step =>
      match sp_priorMessageBodies sequence with
      | [] => ["followup_prior_messages_missing"]
      | prior =>
          let a := analyzeFollowupRepetition (stepNumber step) body prior (sp_threadSubject sequence) in
          if negb (ra_repeats a) then []
          else ["followup_repeats_prior_message";
                "followup_repetition:" +:+ match ra_reason a with Some r => repetitionReasonText r | None => "UNKNOWN" end +:+
                ":run=" +:+ pretty (ra_longestSharedRun a) +:+ ":reuse=" +:+ toFixed2 (ra_sharedBigramRatio a) +:+
                ":novel=" +:+ pretty (ra_novelContentTokens a)]
      end
  end.
Definition paragraphsOf (body : string) : list string := List.filter truthy (map trim (splitRe noFlags PARAGRAPH_BREAK_RE body)).
Definition allModelText (out : EmailWriterOutput) : string :=
  textLines (map trim (subject_options out) ++ [trim (email_body out); selected_subject_reason out; strategic_angle out;
                                                business_relevance out; urgency_basis out]).

(** Shape, provenance, claims, style and the demonstration, in the order of the source *)
Definition shapeViolations (out : EmailWriterOutput) (sequence : EmailSequencePosition) : list string :=
  let body := trim (email_body out) in
  let paragraphs := paragraphsOf body in
  let n := Z.of_nat (length paragraphs) in
  let '(min, max) := PARAGRAPH_SHAPE (sp_step sequence) in
  match GENERICITY_CEILING (sp_step sequence) with
  | Some c => violation (c <? genericity_score out) ("genericity_score_too_high:" +:+ pretty (genericity_score out))
  | None => []
  end ++
  violation ((n <? min) || (max <? n)) ("unnatural_paragraph_count:" +:+ pretty n) ++
  violation (MAX_EMAIL_WORDS <? wordCount body) ("body_too_long:" +:+ pretty (wordCount body)) ++
  violation (test flagI GENERIC_OPENING_RE (default "" (head paragraphs))) "generic_opening".
Definition evidenceViolations (out : EmailWriterOutput) (ctx : EmailValidationContext) : list string :=
  let ids := evidence_ids out in
  violation (bool_decide (ids = [])) "missing_evidence_ids" ++
  violation (negb (length (uniq ids) =? length ids)%nat) "duplicate_evidence_ids" ++
  concat (map (λ id, violation (negb (bool_decide (id ∈ vc_availableEvidenceIds ctx))) ("evidence_id_not_available:" +:+ id)) ids) ++
  violation (negb (existsb (λ id, bool_decide (id ∈ vc_acceptedFindingIds ctx)) ids)) "missing_finding_evidence".
Definition claimViolations (out : EmailWriterOutput) : list string :=
  let text := allModelText out in
  let subjects := map trim (subject_options out) in
  violation (test flagI URL_RE text) "contains_url" ++
  violation (test flagI METRIC_RE text) "contains_metric_claim" ++
  violation (test flagI PERFORMANCE_RE text) "contains_performance_claim" ++
  violation (test flagI FAKE_URGENCY_RE text) "contains_fake_urgency" ++
  violation (test flagI UNSUPPORTED_BEHAVIOR_RE text) "contains_unsupported_customer_behavior" ++
  match competitor_evidence_used out with
  | APPROVED_COMPETITOR_PATTERN_PACKAGE =>
      violation (existsb (test flagI COMPETITOR_RE) subjects) "competitor_language_in_subject"
  | CE_NONE => violation (test flagI COMPETITOR_RE text) "unsupported_competitor_language"
  end ++
  violation (test flagI CTA_IN_BODY_RE (trim (email_body out))) "cta_in_model_body" ++
  violation (test flagI IMPLEMENTATION_JARGON_RE text) "contains_implementation_jargon".
Definition styleViolations (out : EmailWriterOutput) : list string :=
  let text := allModelText out in
  let body := trim (email_body out) in
  let copySegments := map trim (subject_options out) ++ [body] in
  let has (part : string) := existsb (λ s, includes s part) copySegments in
  concat (map (λ phrase, violation (includes (toLocaleLowerCase text) phrase) ("forbidden_phrase:" +:+ phrase)) FORBIDDEN_PHRASES) ++
  violation (2 <? occurrences flagI text CAUTIOUS_RE)%nat "excessive_cautious_wording" ++
  violation (has emDashMark) "contains_em_dash" ++
  violation (has enDashMark) "contains_en_dash_separator" ++
  violation (has "--") "contains_double_hyphen" ++
  violation (existsb (test noFlags REPEATED_COMMA_RE) copySegments) "contains_repeated_commas" ++
  violation (test flagM MARKDOWN_RE body) "contains_markdown" ++
  violation (test noFlags EMOJI_RE text) "contains_emoji" ++
  violation (2 <? countChar ":" (replaceAll noFlags CLOCK_TIME_RE "" body))%nat "excessive_colons" ++
  violation (1 <? countChar ";" body)%nat "semicolon_heavy" ++
  violation (negb (bool_decide (prohibited_phrase_scan out = SCAN_PASS))) "writer_prohibited_phrase_scan_failed" ++
  violation (negb (bool_decide (punctuation_scan out = SCAN_PASS))) "writer_punctuation_scan_failed" ++
  violation (negb (bool_decide (human_style_result out = SCAN_PASS))) "writer_human_style_failed".
Definition demoViolations (out : EmailWriterOutput) (ctx : EmailValidationContext) : list string :=
  let text := allModelText out in
  let body := trim (email_body out) in
  let mentionsDemo := test flagI DEMO_MENTION_RE body in
  match primary_cta out with
  | VIEW_CONCEPT =>
      violation (negb (vc_demoLinkAllowed ctx)) "demo_cta_without_approved_demo" ++
      violation (negb mentionsDemo) "demo_value_not_explained" ++
      violation (negb (bool_decide (demo_alignment_result out = ALIGN_PASS))) "demo_alignment_not_passed" ++
      violation (bool_decide (vc_approvedDemoFindingIds ctx = [])) "approved_demo_has_no_finding_bindings" ++
      violation (negb (existsb (λ id, bool_decide (id ∈ vc_approvedDemoFindingIds ctx)) (evidence_ids out)))
        "demo_claim_not_bound_to_demo_finding"
  | REPLY_FOR_DETAILS =>
      violation (negb (bool_decide (demo_alignment_result out = ALIGN_NOT_APPLICABLE))) "unexpected_demo_alignment_result" ++
      violation mentionsDemo "mentions_demo_without_demo_cta"
  end ++
  violation (negb (vc_demoLinkAllowed ctx) && mentionsDemo) "mentions_demo_without_approved_demo" ++
  violation (includes text DEMO_URL_TOKEN) "model_emitted_demo_url_token" ++
  violation (test flagI CONVERSION_HUB_RE text &&
      negb (test flagI CONVERSION_PATH_RE (business_relevance out +:+ " " +:+ body))) "forced_conversion_hub_language".
Definition emailViolations (out : EmailWriterOutput) (ctx : EmailValidationContext) : list string :=
  let subjects := map trim (subject_options out) in
  let body := trim (email_body out) in
  validateSubjects out subjects (vc_sequence ctx) ++
  validateFollowupDoesNotReplay body (vc_sequence ctx) ++
  validateSequenceCta out (vc_sequence ctx) ++
  shapeViolations out (vc_sequence ctx) ++
  evidenceViolations out ctx ++
  claimViolations out ++
  styleViolations out ++
  demoViolations out ctx ++
  violation (hasForeignLanguage (vc_language ctx) (subjects ++ [body])) ("mixed_language:expected_" +:+ languageText (vc_language ctx)).
(** The violations, each once; there are none if the email may go to the reviewer. *)
Definition validateEmail (out : EmailWriterOutput) (ctx : EmailValidationContext) : list string := uniq (emailViolations out ctx).
End validation.

(** Every pattern is read. *)
Definition isRead (r : re) : bool := match r with reSet false [] => false | _ => true end.
Example patterns_read :
  forallb isRead
    ([RE_PREFIX; DE_COUNTRY; DE_TLD; EN_MARKERS; DE_MARKERS; URL_RE; METRIC_RE; PERFORMANCE_RE; FAKE_URGENCY_RE;
      UNSUPPORTED_BEHAVIOR_RE; COMPETITOR_RE; DEMO_MENTION_RE; CTA_IN_BODY_RE; GENERIC_OPENING_RE; IMPLEMENTATION_JARGON_RE;
      MARKDOWN_RE; EMOJI_RE; REPEATED_COMMA_RE; CAUTIOUS_RE; CLOCK_TIME_RE; PARAGRAPH_BREAK_RE; CONVERSION_HUB_RE;
      CONVERSION_PATH_RE; GREETING_LINE_RE (H := asciiTables)] ++ GENERIC_SUBJECTS ++ REVEALING_SUBJECTS ++
     map pattern ["[^\p{L}\p{N}]+"; "\{\{[^}]*\}\}"; "[‐-―]"; "[‘’‚‛]"; "[“”„‟]"; "[\s,]+"; "\s+"; " "]) = true.
Proof. vm_compute. reflexivity. Qed.
Section examples.
#[local] Existing Instance asciiTables.
Example pattern_examples :
  (test flagI URL_RE "see Example.COM now", test flagI URL_RE "no link here", test flagI METRIC_RE "up 12 % more",
   test flagI CTA_IN_BODY_RE "a click-to-call link", test flagI CTA_IN_BODY_RE "please Click here",
   test flagI GENERIC_OPENING_RE "I just wanted to say", test flagM MARKDOWN_RE ("a" +:+ newline +:+ "- b"),
   test flagI COMPETITOR_RE "Andere Praxen", occurrences flagI "Perhaps maybe might" CAUTIOUS_RE,
   test flagI DE_COUNTRY "Österreich", test flagI DE_COUNTRY "ÖSTERREICH") =
  (true, false, true, false, true, true, true, true, 3%nat, true, true).
Proof. vm_compute. reflexivity. Qed.
Example tokens_example :
  contentTokens ("Hello Dr Richard," +:+ newline +:+ newline +:+ "The cookie banners cover the booking button on mobile." +:+
    newline +:+ "Best regards," +:+ newline +:+ "{{SENDER_NAME}}") (Some "Your website") =
  ["cookie"; "banner"; "cover"; "book"; "button"; "mobile"].
Proof. vm_compute. reflexivity. Qed.
End examples.
