(* ===== verification/EmailStore.v ===== *)
(** * Models, and what the writing of emails stores

    The boundary to a language model (src/integrations/llm/provider.ts), the prices (pricing.ts)
    and the adapter of the Responses API (openai-responses.ts).  The client of the API is a
    parameter; of a response only the fields that the adapter reads are kept.  The schema that is
    sent along, which zod derives, is named by [lr_schemaName]; the emails have no images and use
    no prompt cache.

    The schemas of what a model answers (src/domain/email/email-schema.ts), the tables of drafts,
    their evidence and the calls of models (persistence/schema.ts with email.repo.ts,
    email-input.repo.ts and demo-input.repo.ts) and the diagnostic files
    (integrations/email/email-debug-store.ts).  Which issues zod reports of an invalid value is a
    parameter; that a value is valid is not. *)
From S2P Require Import Prelude.
From S2P Require Import JsNumber.
From S2P Require Import JsText.
From S2P Require Import JsonText.
From S2P Require Import OutreachStatus.
From S2P Require Import OutreachStore.
From S2P Require Import LeadLifecycle.
From S2P Require Import PipelineDb.
From S2P Require Import SystemDb.
From S2P Require Import LeadFacts.
From S2P Require Import Prospect.
From S2P Require Import Contacts.
From S2P Require Import ContactEnrich.
From S2P Require Import Review.
From S2P Require Import EmailCopy.
From S2P Require Import EmailPrompts.
Open Scope string_scope.
Open Scope Z_scope.
Open Scope list_scope.

(** ** provider.ts *)

Record LlmRequest := {
  lr_task : string; lr_system : string; lr_user : string; lr_schemaName : string; lr_model : string;
  lr_reasoningEffort : string; lr_store : bool; lr_timeoutMs : Z; lr_maxOutputTokens : Z; lr_maxRetries : Z;
}.
Inductive LlmStatus :=
  | LLM_OK | LLM_REFUSAL | LLM_INCOMPLETE | LLM_SCHEMA_INVALID | LLM_RATE_LIMITED | LLM_TRANSIENT | LLM_INPUT_TOO_LARGE.
#[global] Instance LlmStatus_eq_dec : EqDecision LlmStatus.
Proof. solve_decision. Defined.
Definition llmStatusText (s : LlmStatus) : string :=
  match s with
  | LLM_OK => "ok" | LLM_REFUSAL => "refusal" | LLM_INCOMPLETE => "incomplete" | LLM_SCHEMA_INVALID => "schema_invalid"
  | LLM_RATE_LIMITED => "rate_limited" | LLM_TRANSIENT => "transient" | LLM_INPUT_TOO_LARGE => "input_too_large"
  end.
Record LlmUsage := {
  lu_inputTokens : option Z; lu_cachedInputTokens : option Z; lu_cacheWriteTokens : option Z; lu_outputTokens : option Z;
  lu_reasoningTokens : option Z; lu_estimatedCostUsd : option num;
}.
Definition emptyUsage : LlmUsage :=
  {| lu_inputTokens := None; lu_cachedInputTokens := None; lu_cacheWriteTokens := None; lu_outputTokens := None;
     lu_reasoningTokens := None; lu_estimatedCostUsd := None |}.
Record LlmResult := {
  ls_status : LlmStatus; ls_rawJson : value; ls_refusal : option string; ls_incompleteReason : option string;
  ls_provider : string; ls_requestedModel : string; ls_resolvedModel : option string; ls_requestId : option string;
  ls_responseId : option string; ls_usage : LlmUsage; ls_latencyMs : Z;
}.
Record LlmProvider (DB : Type) := { lp_name : string; lp_generate : LlmRequest → M DB LlmResult }.
Arguments lp_name {_} _.
Arguments lp_generate {_} _ _.

(** ** pricing.ts

    A model that is not in the table has no price.  (The names that every object of JavaScript
    has, like [toString], are not models.) *)

Definition PRICE_VERIFIED_AT : option string := Some "2026-07-16".
Definition SHORT_CONTEXT_MAX_INPUT_TOKENS : Z := 128000.
Inductive ContextTier := TIER_SHORT | TIER_LONG.
Record TierPrices := { tp_input : num; tp_cachedInput : num; tp_cacheWrite : num; tp_output : num }.
Definition prices (i c w o : num) : TierPrices := {| tp_input := i; tp_cachedInput := c; tp_cacheWrite := w; tp_output := o |}.
Definition milli (n : Z) : num := ofDecimal false n (-3).
Definition PRICES (model : string) : option (ContextTier → TierPrices) :=
  if String.eqb model "gpt-5.6-sol" then Some (λ t, match t with
    | TIER_SHORT => prices (ofZ 5) (milli 500) (milli 6250) (ofZ 30)
    | TIER_LONG => prices (ofZ 10) (ofZ 1) (milli 12500) (ofZ 45) end)
  else if String.eqb model "gpt-5.6-terra" then Some (λ t, match t with
    | TIER_SHORT => prices (milli 2500) (milli 250) (milli 3125) (ofZ 15)
    | TIER_LONG => prices (ofZ 5) (milli 500) (milli 6250) (milli 22500) end)
  else None.
Definition priceKnown (model : string) : bool := bool_decide (is_Some (PRICES model)).
Definition contextTierOf (inputTokens : Z) : ContextTier :=
  if inputTokens <=? SHORT_CONTEXT_MAX_INPUT_TOKENS then TIER_SHORT else TIER_LONG.
Definition contextTierFor (u : LlmUsage) : option ContextTier := contextTierOf <$> lu_inputTokens u.
(** [(tokens / 1_000_000) * price] *)
Definition priced (tokens : Z) (price : num) : num := mulN (divN (ofZ tokens) (ofZ 1000000)) price.
Definition estimateLlmCostUsd (model : string) (u : LlmUsage) : option num :=
  row ← PRICES model;
  tier ← contextTierFor u;
  let p := row tier in
  let cached := default 0 (lu_cachedInputTokens u) in
  let uncached := default 0 (lu_inputTokens u) - cached in
  let cost := addN (addN (addN (priced (Z.max 0 uncached) (tp_input p)) (priced cached (tp_cachedInput p)))
                    (priced (default 0 (lu_cacheWriteTokens u)) (tp_cacheWrite p)))
              (priced (default 0 (lu_outputTokens u)) (tp_output p)) in
  Some (divN (roundN (mulN cost (ofZ 1000000))) (ofZ 1000000)).
Definition worstCaseCostUsd (model : string) (maxInputTokens maxOutputTokens : Z) : option num :=
  row ← PRICES model;
  let p := row (contextTierOf maxInputTokens) in
  Some (addN (priced maxInputTokens (tp_input p)) (priced maxOutputTokens (tp_output p))).

(** ** openai-responses.ts *)

Record OpenAiResponse := {
  oa_id : option string; oa_model : option string; oa_inputTokens : option Z; oa_cachedTokens : option Z;
  oa_cacheWriteTokens : option Z; oa_outputTokens : option Z; oa_reasoningTokens : option Z;
  (* the text of the first part of the output that is a refusal, if there is one *)
  oa_refusal : option (option string);
  oa_status : option string; oa_incompleteReason : option string; oa_outputText : option string;
}.
Inductive OpenAiAnswer := OA_RESPONSE (r : OpenAiResponse) (requestId : option string) | OA_RATE_LIMIT | OA_ERROR.
Class OpenAiClient := { responsesCreate : nat → LlmRequest → OpenAiAnswer }.

Section openai.
Context {DB : Type} `{Runtime, OpenAiClient}.

Definition openAiUsage (r : OpenAiResponse) : LlmUsage :=
  let usage cost :=
    {| lu_inputTokens := oa_inputTokens r; lu_cachedInputTokens := oa_cachedTokens r;
       lu_cacheWriteTokens := oa_cacheWriteTokens r; lu_outputTokens := oa_outputTokens r;
       lu_reasoningTokens := oa_reasoningTokens r; lu_estimatedCostUsd := cost |} in
  usage (model ← oa_model r; if truthy model then estimateLlmCostUsd model (usage None) else None).
Definition openAiFailure (req : LlmRequest) (status : LlmStatus) (latencyMs : Z) : LlmResult :=
  {| ls_status := status; ls_rawJson := VNull; ls_refusal := None; ls_incompleteReason := None; ls_provider := "openai";
     ls_requestedModel := lr_model req; ls_resolvedModel := None; ls_requestId := None; ls_responseId := None;
     ls_usage := emptyUsage; ls_latencyMs := latencyMs |}.
(** What the adapter makes of a response: status, JSON, refusal and reason *)
Definition openAiOutcome (r : OpenAiResponse) : LlmStatus * value * option string * option string :=
  match oa_refusal r with
  | Some text => (LLM_REFUSAL, VNull, Some (default "refused" text), None)
  | None =>
      let status := default "" (oa_status r) in
      if truthy status && negb (String.eqb status "completed")
      then (LLM_INCOMPLETE, VNull, None, Some (default status (oa_incompleteReason r)))
      else match jsonParse (default "" (oa_outputText r)) with
           | Some v => (LLM_OK, v, None, None)
           | None => (LLM_SCHEMA_INVALID, VNull, None, None)
           end
  end.
Definition openAiGenerate (req : LlmRequest) : M DB LlmResult :=
  started ← now;
  answer ← ask (λ n, Ok (responsesCreate n req));
  finished ← now;
  let latencyMs := finished - started in
  mret match answer with
  | OA_RATE_LIMIT => openAiFailure req LLM_RATE_LIMITED latencyMs
  | OA_ERROR => openAiFailure req LLM_TRANSIENT latencyMs
  | OA_RESPONSE r requestId =>
      let '(status, rawJson, refusal, reason) := openAiOutcome r in
      {| ls_status := status; ls_rawJson := rawJson; ls_refusal := refusal; ls_incompleteReason := reason;
         ls_provider := "openai"; ls_requestedModel := lr_model req; ls_resolvedModel := oa_model r;
         ls_requestId := requestId; ls_responseId := oa_id r; ls_usage := openAiUsage r; ls_latencyMs := latencyMs |}
  end.
Definition OpenAiResponsesProvider : LlmProvider DB := {| lp_name := "openai"; lp_generate := openAiGenerate |}.
End openai.

(** ** email-schema.ts *)

Definition EMAIL_SCHEMA_VERSION : string := "email-copy-schema-5".
(** [z.string().trim().min(1).max(max)] *)
Definition readText (max : Z) (v : value) : option string :=
  match v with
  | VStr s => let t := trim s in
      if (1 <=? utf16Length t)%nat && (Z.of_nat (utf16Length t) <=? max) then Some t else None
  | _ => None
  end.
(** [z.array(item).min(lo).max(hi)] *)
Definition readList {A} (lo hi : nat) (item : value → option A) (v : value) : option (list A) :=
  match v with
  | VArr l => if (lo <=? length l)%nat && (length l <=? hi)%nat then mapM item l else None
  | _ => None
  end.
Definition readChoice {A} (choices : list (string * A)) (v : value) : option A :=
  match v with VStr s => snd <$> List.find (λ c, String.eqb c.1 s) choices | _ => None end.
Definition readFlag (v : value) : option bool := match v with VBool b => Some b | _ => None end.
(** [z.number().int().min(0).max(100)] *)
Definition readScore (v : value) : option Z :=
  match v with
  | VNum literal => n ← integerN (toNumber literal); if (0 <=? n) && (n <=? 100) then Some n else None
  | _ => None
  end.
Definition readField {A} (v : value) (name : string) (item : value → option A) : option A := fieldOf v name ≫= item.
Definition scanChoices : list (string * EmailScanResult) := [("PASS", SCAN_PASS); ("FAIL", SCAN_FAIL)].
Definition emailWriterSchema (v : value) : option EmailWriterOutput :=
  o1 ← readField v "subject_options" (readList 3 3 (readText MAX_SUBJECT_LENGTH));
  o2 ← readField v "selected_subject" (readText MAX_SUBJECT_LENGTH);
  o3 ← readField v "selected_subject_reason" (readText 400);
  o4 ← readField v "email_body" (readText 2000);
  o5 ← readField v "evidence_ids" (readList 1 12 (readText 128));
  o6 ← readField v "strategic_angle" (readText 400);
  o7 ← readField v "business_relevance" (readText 500);
  o8 ← readField v "urgency_basis" (readText 400);
  o9 ← readField v "competitor_evidence_used" (readChoice
    [("NONE", CE_NONE); ("APPROVED_COMPETITOR_PATTERN_PACKAGE", APPROVED_COMPETITOR_PATTERN_PACKAGE)]);
  o10 ← readField v "primary_cta" (readChoice [("VIEW_CONCEPT", VIEW_CONCEPT); ("REPLY_FOR_DETAILS", REPLY_FOR_DETAILS)]);
  o11 ← readField v "prohibited_phrase_scan" (readChoice scanChoices);
  o12 ← readField v "punctuation_scan" (readChoice scanChoices);
  o13 ← readField v "genericity_score" readScore;
  o14 ← readField v "human_style_result" (readChoice scanChoices);
  o15 ← readField v "demo_alignment_result" (readChoice
    [("PASS", ALIGN_PASS); ("NOT_APPLICABLE", ALIGN_NOT_APPLICABLE); ("FAIL", ALIGN_FAIL)]);
  Some (Build_EmailWriterOutput o1 o2 o3 o4 o5 o6 o7 o8 o9 o10 o11 o12 o13 o14 o15).
Definition emailReviewSchema (v : value) : option EmailReviewParsed :=
  let flag (name : string) := readField v name readFlag in
  d ← readField v "decision" (readChoice
    [("APPROVE", REVIEW_APPROVE); ("APPROVE_WITH_REVISIONS", REVIEW_APPROVE_WITH_REVISIONS); ("REJECT", REVIEW_REJECT)]);
  b1 ← flag "fabricationRisk"; b2 ← flag "subjectSpecific"; b3 ← flag "subjectCuriosityGap"; b4 ← flag "openingSpecific";
  b5 ← flag "businessRelevanceClear"; b6 ← flag "urgencySupported"; b7 ← flag "competitorClaimsSupported";
  b8 ← flag "humanStylePass"; b9 ← flag "punctuationPass"; b10 ← flag "singlePrimaryCta";
  b11 ← flag "sufficientlyPersonalized"; b12 ← flag "evidenceSupported"; b13 ← flag "demoAligned"; b14 ← flag "persuasive";
  b15 ← flag "singleObservation"; b16 ← flag "buyerLanguageOnly"; b17 ← flag "conversationNotAudit";
  b18 ← flag "confidentObservation"; b19 ← flag "addsClarityNotRestart"; b20 ← flag "compressedNotExpanded";
  b21 ← flag "pressureReduced"; b22 ← flag "binaryReplyClose";
  problems ← readField v "problems" (readList 0 20 (readText 300));
  revisions ← readField v "requiredRevisions" (readList 0 20 (readText 300));
  Some (Build_EmailReviewParsed d b1 b2 b3 b4 b5 b6 b7 b8 b9 b10 b11 b12 b13 b14 b15 b16 b17 b18 b19 b20 b21 b22 problems revisions).
Record ZodIssue := { zi_path : list string; zi_code : string; zi_message : string }.
Class ZodIssues := { zodIssues : string → value → list ZodIssue }.
(** [`schema_invalid:${i.path.join('.') || '(root)'}`] *)
Definition issueLabel (i : ZodIssue) : string :=
  let path := join "." (zi_path i) in "schema_invalid:" +:+ (if truthy path then path else "(root)").

(** ** Rows *)

(** The columns of [email_drafts] that say how a draft came about *)
Record DraftColumns := {
  dx_demoId : option string; dx_runId : option string; dx_hasDemoUrlPlaceholder : bool; dx_writerPromptVersion : string;
  dx_reviewerPromptVersion : string; dx_schemaVersion : string; dx_rulesVersion : string; dx_provider : string;
  dx_requestedWriterModel : string; dx_requestedReviewerModel : string; dx_writerResponseId : option string;
  dx_reviewerResponseId : option string; dx_reviewerDecision : option string; dx_fabricationRisk : option bool;
  dx_personalizationSupported : option bool; dx_claimHonest : option bool; dx_reviewerProblems : option (list string);
  dx_totalCostUsd : num; dx_authorship : string;
}.
Record NewEmailDraft := {
  nd_id : string; nd_leadId : string; nd_subject : string; nd_body : string; nd_ctaKind : string; nd_status : string;
  nd_sequenceStep : Z; nd_outreachRecordId : option string; nd_columns : DraftColumns;
}.
Record EmailFactInput := { fi_id : string; fi_emailId : string; fi_leadFactId : string; fi_field : string }.
Record EmailFindingInput := { gi_id : string; gi_emailId : string; gi_auditFindingId : string; gi_directive : string }.
Inductive ModelPurpose := EMAIL_WRITE | EMAIL_REVIEW.
#[global] Instance ModelPurpose_eq_dec : EqDecision ModelPurpose.
Proof. solve_decision. Defined.
Record EmailModelCall := {
  mc_id : string; mc_purpose : ModelPurpose; mc_provider : string; mc_requestedModel : string; mc_resolvedModel : option string;
  mc_promptVersion : string; mc_schemaVersion : string; mc_requestId : option string; mc_responseId : option string;
  mc_usage : LlmUsage; mc_latencyMs : Z; mc_status : LlmStatus; mc_retryNumber : Z; mc_validationViolations : option (list string);
}.
Record AuditRunRow := { ar_id : string; ar_leadId : string; ar_outcome : string; ar_startedAt : Z }.
Record AuditFindingRow := { af_auditRunId : string; af_finding : EmailFinding }.
Record DemoRecord := { dr_id : string; dr_leadId : string; dr_meta : EmailDemoMeta; dr_contentHash : option string; dr_createdAt : Z }.
(** A row of [deterministic_findings], as far as the emails read it *)
Record DeterministicFindingRow := { df_leadId : string; df_status : string; df_approvedAt : Z; df_finding : EmailFinding }.
Record EmailDebugRecord := {
  dg_leadId : string; dg_runId : string; dg_outcome : string; dg_draft : option value; dg_review : option json;
  dg_violations : list string; dg_costUsd : num; dg_callsMade : Z; dg_createdAt : Z; dg_expiresAt : Z;
}.
(** [findingEvidence] has the evidence of deterministic findings, by finding;
    [debugRecords] are files, [llmRequests] the requests that models have had. *)
Record EmailDb := {
  emailContacts : ContactDb; draftColumns : gmap string DraftColumns; factInputs : list EmailFactInput;
  findingInputs : list EmailFindingInput; modelCalls : list (string * EmailModelCall); auditRuns : list AuditRunRow;
  auditFindings : list AuditFindingRow; opportunityAssessments : list (string * Z); demoRecords : list DemoRecord;
  deterministicFindings : list DeterministicFindingRow; findingEvidence : list (string * string);
  debugRecords : list EmailDebugRecord; llmRequests : list LlmRequest;
}.
Definition WM : Type → Type := M EmailDb.
Definition inEmail : lens EmailDb ContactDb := Lens emailContacts (λ c db,
  {| emailContacts := c; draftColumns := draftColumns db; factInputs := factInputs db; findingInputs := findingInputs db;
     modelCalls := modelCalls db; auditRuns := auditRuns db; auditFindings := auditFindings db;
     opportunityAssessments := opportunityAssessments db; demoRecords := demoRecords db;
     deterministicFindings := deterministicFindings db; findingEvidence := findingEvidence db; debugRecords := debugRecords db;
     llmRequests := llmRequests db |}).
Definition emailSystem (db : EmailDb) : SystemDb := contactSystem (emailContacts db).
Definition setSystem (s : SystemDb) (db : EmailDb) : EmailDb := put inEmail (put inContacts s (emailContacts db)) db.
Definition inEmailSystem : lens EmailDb SystemDb := Lens emailSystem setSystem.
#[global] Instance inEmailSystem_lawful : LawfulLens inEmailSystem.
Proof. by split. Qed.
Definition onEmailPipeline {A} (m : PM A) : WM A := zoom inEmailSystem (zoom onPipeline m).
Definition setDraftColumns (f : gmap string DraftColumns → gmap string DraftColumns) (db : EmailDb) : EmailDb :=
  {| emailContacts := emailContacts db; draftColumns := f (draftColumns db); factInputs := factInputs db;
     findingInputs := findingInputs db; modelCalls := modelCalls db; auditRuns := auditRuns db;
     auditFindings := auditFindings db; opportunityAssessments := opportunityAssessments db; demoRecords := demoRecords db;
     deterministicFindings := deterministicFindings db; findingEvidence := findingEvidence db;
     debugRecords := debugRecords db; llmRequests := llmRequests db |}.
Definition addEvidence (facts : list EmailFactInput) (findings : list EmailFindingInput) (db : EmailDb) : EmailDb :=
  {| emailContacts := emailContacts db; draftColumns := draftColumns db; factInputs := factInputs db ++ facts;
     findingInputs := findingInputs db ++ findings; modelCalls := modelCalls db; auditRuns := auditRuns db;
     auditFindings := auditFindings db; opportunityAssessments := opportunityAssessments db; demoRecords := demoRecords db;
     deterministicFindings := deterministicFindings db; findingEvidence := findingEvidence db;
     debugRecords := debugRecords db; llmRequests := llmRequests db |}.
Definition addModelCalls (leadId : string) (calls : list EmailModelCall) (db : EmailDb) : EmailDb :=
  {| emailContacts := emailContacts db; draftColumns := draftColumns db; factInputs := factInputs db;
     findingInputs := findingInputs db; modelCalls := modelCalls db ++ map (λ c, (leadId, c)) calls; auditRuns := auditRuns db;
     auditFindings := auditFindings db; opportunityAssessments := opportunityAssessments db; demoRecords := demoRecords db;
     deterministicFindings := deterministicFindings db; findingEvidence := findingEvidence db;
     debugRecords := debugRecords db; llmRequests := llmRequests db |}.
Definition setDebugRecords (f : list EmailDebugRecord → list EmailDebugRecord) (db : EmailDb) : EmailDb :=
  {| emailContacts := emailContacts db; draftColumns := draftColumns db; factInputs := factInputs db;
     findingInputs := findingInputs db; modelCalls := modelCalls db; auditRuns := auditRuns db;
     auditFindings := auditFindings db; opportunityAssessments := opportunityAssessments db; demoRecords := demoRecords db;
     deterministicFindings := deterministicFindings db; findingEvidence := findingEvidence db;
     debugRecords := f (debugRecords db); llmRequests := llmRequests db |}.
Definition logLlmRequest (r : LlmRequest) (db : EmailDb) : EmailDb :=
  {| emailContacts := emailContacts db; draftColumns := draftColumns db; factInputs := factInputs db;
     findingInputs := findingInputs db; modelCalls := modelCalls db; auditRuns := auditRuns db;
     auditFindings := auditFindings db; opportunityAssessments := opportunityAssessments db; demoRecords := demoRecords db;
     deterministicFindings := deterministicFindings db; findingEvidence := findingEvidence db;
     debugRecords := debugRecords db; llmRequests := llmRequests db ++ [r] |}.

(** ** email.repo.ts *)

Definition newDraftRow (d : NewEmailDraft) (createdAt : Z) : EmailDraftRow :=
  {| ew_id := nd_id d; ew_leadId := nd_leadId d; ew_subject := nd_subject d; ew_body := nd_body d; ew_ctaKind := nd_ctaKind d;
     ew_status := nd_status d; ew_sequenceStep := nd_sequenceStep d; ew_outreachRecordId := nd_outreachRecordId d;
     ew_humanDecision := None; ew_humanNotes := None; ew_humanReviewedAt := None; ew_humanReviewedBy := None;
     ew_createdAt := createdAt |}.
Definition addEmailDraftKey (id : string) (db : OutreachDb) : OutreachDb :=
  {| campaignIds := campaignIds db; leadIds := leadIds db; emailDraftIds := {[id]} ∪ emailDraftIds db;
     finalizationIds := finalizationIds db; records := records db; messages := messages db; followups := followups db;
     replies := replies db; events := events db; deliveryEvents := deliveryEvents db |}.
Definition checkInsertEmailDraft (d : NewEmailDraft) (db : EmailDb) : option error :=
  let s := emailSystem db in
  refuse
    [(negb (bool_decide (nd_status d ∈ ["DRAFTED"; "APPROVED"; "REVIEW_FAILED"])), checkViolation "email_draft_status_ck");
     (negb (bool_decide (dx_authorship (nd_columns d) ∈ ["AI"; "OPERATOR"])), checkViolation "email_draft_authorship_ck");
     ((nd_sequenceStep d <? 0) || (3 <? nd_sequenceStep d), checkViolation "email_draft_sequence_step_ck");
     (bool_decide (is_Some (emailDrafts s !! nd_id d)), uniqueViolation "email_drafts_pkey");
     (liveDraftConflict (newDraftRow d 0) s, uniqueViolation "email_drafts_outreach_sequence_uk");
     (negb (bool_decide (is_Some (leads (pipelineDb s) !! nd_leadId d))), foreignKeyViolation "email_drafts_lead_id_leads_id_fk");
     (match dx_demoId (nd_columns d) with
      | Some id => negb (existsb (λ r, String.eqb (dr_id r) id) (demoRecords db)) | None => false end,
      foreignKeyViolation "email_drafts_demo_id_demos_id_fk");
     (match dx_runId (nd_columns d) with
      | Some id => negb (bool_decide (is_Some (pipelineRuns s !! id))) | None => false end,
      foreignKeyViolation "email_drafts_run_id_pipeline_runs_id_fk")].
Definition insertEmailDraftRow (d : NewEmailDraft) (createdAt : Z) (db : EmailDb) : EmailDb :=
  let s := emailSystem db in
  let s' := put onOutreach (addEmailDraftKey (nd_id d) (outreachDb s)) (setEmailDrafts <[nd_id d := newDraftRow d createdAt]> s) in
  setDraftColumns <[nd_id d := nd_columns d]> (setSystem s' db).
(** A fresh key: no row has it, and no two of the new rows. *)
Definition freshKeys (new old : list string) : bool :=
  bool_decide (NoDup new) && forallb (λ id, negb (bool_decide (id ∈ old))) new.
Definition checkEvidence (facts : list EmailFactInput) (findings : list EmailFindingInput) (db : EmailDb) : option error :=
  refuse
    [(negb (freshKeys (map fi_id facts) (map fi_id (factInputs db))), uniqueViolation "email_fact_inputs_pkey");
     (negb (forallb (λ f, existsb (λ r, String.eqb (lf_id r) (fi_leadFactId f)) (leadFacts (emailSystem db))) facts),
      foreignKeyViolation "email_fact_inputs_lead_fact_id_lead_facts_id_fk");
     (negb (freshKeys (map gi_id findings) (map gi_id (findingInputs db))), uniqueViolation "email_finding_inputs_pkey");
     (negb (forallb (λ f, existsb (λ r, String.eqb (fd_id (af_finding r)) (gi_auditFindingId f)) (auditFindings db)) findings),
      foreignKeyViolation "email_finding_inputs_audit_finding_id_audit_findings_id_fk")].
Definition checkModelCalls (leadId : string) (calls : list EmailModelCall) (db : EmailDb) : option error :=
  refuse
    [(negb (freshKeys (map mc_id calls) (map (λ c, mc_id c.2) (modelCalls db))), uniqueViolation "model_calls_pkey");
     (negb (bool_decide (calls = [])) && negb (bool_decide (is_Some (leads (pipelineDb (emailSystem db)) !! leadId))),
      foreignKeyViolation "model_calls_lead_id_leads_id_fk")].
(** The rows of one run: what it inserts, and where the lead goes *)
Record EmailPersist := {
  ps_leadId : string; ps_email : option NewEmailDraft; ps_factInputs : list EmailFactInput;
  ps_findingInputs : list EmailFindingInput; ps_modelCalls : list EmailModelCall; ps_routeTo : LeadStatus;
}.
Record EmailReviewOutcomeUpdate := {
  uo_status : string; uo_reviewerPromptVersion : string; uo_requestedReviewerModel : string;
  uo_reviewerResponseId : option string; uo_reviewerDecision : string; uo_fabricationRisk : bool;
  uo_personalizationSupported : bool; uo_claimHonest : bool; uo_reviewerProblems : list string; uo_totalCostUsd : num;
}.
Definition withStatus (status : string) (e : EmailDraftRow) : EmailDraftRow :=
  {| ew_id := ew_id e; ew_leadId := ew_leadId e; ew_subject := ew_subject e; ew_body := ew_body e; ew_ctaKind := ew_ctaKind e;
     ew_status := status; ew_sequenceStep := ew_sequenceStep e; ew_outreachRecordId := ew_outreachRecordId e;
     ew_humanDecision := ew_humanDecision e; ew_humanNotes := ew_humanNotes e; ew_humanReviewedAt := ew_humanReviewedAt e;
     ew_humanReviewedBy := ew_humanReviewedBy e; ew_createdAt := ew_createdAt e |}.
Definition withReview (u : EmailReviewOutcomeUpdate) (c : DraftColumns) : DraftColumns :=
  {| dx_demoId := dx_demoId c; dx_runId := dx_runId c; dx_hasDemoUrlPlaceholder := dx_hasDemoUrlPlaceholder c;
     dx_writerPromptVersion := dx_writerPromptVersion c; dx_reviewerPromptVersion := uo_reviewerPromptVersion u;
     dx_schemaVersion := dx_schemaVersion c; dx_rulesVersion := dx_rulesVersion c; dx_provider := dx_provider c;
     dx_requestedWriterModel := dx_requestedWriterModel c; dx_requestedReviewerModel := uo_requestedReviewerModel u;
     dx_writerResponseId := dx_writerResponseId c; dx_reviewerResponseId := uo_reviewerResponseId u;
     dx_reviewerDecision := Some (uo_reviewerDecision u); dx_fabricationRisk := Some (uo_fabricationRisk u);
     dx_personalizationSupported := Some (uo_personalizationSupported u); dx_claimHonest := Some (uo_claimHonest u);
     dx_reviewerProblems := Some (uo_reviewerProblems u); dx_totalCostUsd := uo_totalCostUsd u; dx_authorship := dx_authorship c |}.
Definition withAddedCost (add : num) (c : DraftColumns) : DraftColumns :=
  {| dx_demoId := dx_demoId c; dx_runId := dx_runId c; dx_hasDemoUrlPlaceholder := dx_hasDemoUrlPlaceholder c;
     dx_writerPromptVersion := dx_writerPromptVersion c; dx_reviewerPromptVersion := dx_reviewerPromptVersion c;
     dx_schemaVersion := dx_schemaVersion c; dx_rulesVersion := dx_rulesVersion c; dx_provider := dx_provider c;
     dx_requestedWriterModel := dx_requestedWriterModel c; dx_requestedReviewerModel := dx_requestedReviewerModel c;
     dx_writerResponseId := dx_writerResponseId c; dx_reviewerResponseId := dx_reviewerResponseId c;
     dx_reviewerDecision := dx_reviewerDecision c; dx_fabricationRisk := dx_fabricationRisk c;
     dx_personalizationSupported := dx_personalizationSupported c; dx_claimHonest := dx_claimHonest c;
     dx_reviewerProblems := dx_reviewerProblems c; dx_totalCostUsd := addN (dx_totalCostUsd c) add; dx_authorship := dx_authorship c |}.

Section repository.
Context `{Runtime}.

Definition insertModelCalls (leadId : string) (calls : list EmailModelCall) : WM () :=
  guarded (checkModelCalls leadId calls) (addModelCalls leadId calls).
Definition insertDraft (d : NewEmailDraft) : WM () :=
  createdAt ← now; guarded (checkInsertEmailDraft d) (insertEmailDraftRow d createdAt).
Definition persistEmail (record : EmailPersist) : WM () :=
  match ps_email record with
  | Some d =>
      insertDraft d ;;
      guarded (checkEvidence (ps_factInputs record) (ps_findingInputs record))
        (addEvidence (ps_factInputs record) (ps_findingInputs record))
  | None => mret tt
  end ;;
  insertModelCalls (ps_leadId record) (ps_modelCalls record).
(** An update that returns the row, or nothing *)
Definition updateDraft (draftId : string) (row : EmailDraftRow → EmailDraftRow) (columns : DraftColumns → DraftColumns) :
    WM (option string) :=
  found ← query (λ db, emailDrafts (emailSystem db) !! draftId);
  match found with
  | None => mret None
  | Some e =>
      modify (λ db, setDraftColumns (alter columns draftId) (setSystem (setEmailDrafts (alter row draftId) (emailSystem db)) db)) ;;
      mret (Some (ew_leadId e))
  end.
Definition applyReviewOutcome (draftId : string) (u : EmailReviewOutcomeUpdate) (calls : list EmailModelCall) : WM () :=
  leadId ← updateDraft draftId (withStatus (uo_status u)) (withReview u);
  match leadId with
  | None => throw (JsError ("email draft " +:+ draftId +:+ " disappeared before its review outcome could be applied"))
  | Some leadId => insertModelCalls leadId calls
  end.
Definition recordFailedReviewAttempt (draftId : string) (addCostUsd : num) (calls : list EmailModelCall) : WM () :=
  leadId ← updateDraft draftId id (withAddedCost addCostUsd);
  match leadId with
  | None => throw (JsError ("email draft " +:+ draftId +:+ " disappeared before its failed review attempt could be accounted"))
  | Some leadId => insertModelCalls leadId calls
  end.

(** The projection of a draft that the resume path reads *)
Record PersistedDraftRow := {
  pr_id : string; pr_leadId : string; pr_status : string; pr_subject : string; pr_body : string; pr_sequenceStep : SequenceStep;
  pr_outreachRecordId : option string; pr_threadSubject : option string; pr_columns : DraftColumns;
}.
Definition toSequenceStep (n : Z) : SequenceStep :=
  match isFollowupStep n with Some s => Followup s | None => Initial end.
Definition draftById (id : string) (db : EmailDb) : option PersistedDraftRow :=
  e ← emailDrafts (emailSystem db) !! id;
  c ← draftColumns db !! id;
  Some {| pr_id := id; pr_leadId := ew_leadId e; pr_status := ew_status e; pr_subject := ew_subject e; pr_body := ew_body e;
          pr_sequenceStep := toSequenceStep (ew_sequenceStep e); pr_outreachRecordId := ew_outreachRecordId e;
          pr_threadSubject := if 0 <? ew_sequenceStep e then Some (ew_subject e) else None; pr_columns := c |}.

(** ** email-input.repo.ts and demo-input.repo.ts *)

Definition latestDemoRecord (leadId : string) (db : EmailDb) : option DemoRecord :=
  latestBy dr_createdAt (List.filter (λ d, String.eqb (dr_leadId d) leadId) (demoRecords db)).
Record ComposerAuditInput := { ca_auditRunId : string; ca_opportunityScore : option Z; ca_findings : list EmailFinding }.
Definition latestAuditForComposer (leadId : string) (db : EmailDb) : option ComposerAuditInput :=
  run ← latestBy ar_startedAt (List.filter (λ r, String.eqb (ar_leadId r) leadId &&
    bool_decide (ar_outcome r ∈ ["AUDITED"; "AUDITED_NO_ACTIONABLE_FINDINGS"])) (auditRuns db));
  Some {| ca_auditRunId := ar_id run;
          ca_opportunityScore := snd <$> List.find (λ o, String.eqb o.1 (ar_id run)) (opportunityAssessments db);
          ca_findings := map af_finding (List.filter (λ f, String.eqb (af_auditRunId f) (ar_id run)) (auditFindings db)) |}.
(** The thread of a record, oldest message first: followup-preparation.repo.ts *)
Record ThreadContext := { tc_threadSubject : option string; tc_priorMessages : list PriorSequenceMessage }.
Definition byMessagePlace (a b : OutreachMessage) : Z :=
  if om_sequenceStep a =? om_sequenceStep b then om_createdAt a - om_createdAt b else om_sequenceStep a - om_sequenceStep b.
Definition threadContext (recordId : string) (db : EmailDb) : ThreadContext :=
  let rows := sortBy byMessagePlace
    (List.filter (λ m, String.eqb (om_outreachRecordId m) recordId) (messages (outreachDb (emailSystem db)))) in
  {| tc_threadSubject := om_subject <$> List.find (λ m, om_sequenceStep m =? 0) rows;
     tc_priorMessages := map (λ m, {| pm_sequenceStep := om_sequenceStep m; pm_subject := om_subject m; pm_body := om_body m |}) rows |}.
End repository.

(** ** email-debug-store.ts

    A record is a file, named after its lead, instant and outcome; whether a file can be
    written is a parameter. *)

Definition EMAIL_DEBUG_TTL_MS : Z := 7 * 24 * 60 * 60 * 1000.
Class EmailFiles := { writeDebugFile : nat → res () }.
Definition sameDebugFile (r r' : EmailDebugRecord) : bool :=
  String.eqb (dg_leadId r) (dg_leadId r') && (dg_createdAt r =? dg_createdAt r') && String.eqb (dg_outcome r) (dg_outcome r').
Definition recordDebugFile `{EmailFiles} (r : EmailDebugRecord) : WM () :=
  _ ← ask writeDebugFile;
  modify (setDebugRecords (λ l, List.filter (λ r', negb (sameDebugFile r r')) l ++ [r])).
Definition findByLeadAndRun (leadId : string) (runId : option string) (db : EmailDb) : option EmailDebugRecord :=
  latestBy dg_createdAt (List.filter (λ r, String.eqb (dg_leadId r) leadId && bool_decide (Some (dg_runId r) = runId) &&
    bool_decide (is_Some (dg_draft r))) (debugRecords db)).
(** What is read back of a value that was written as JSON *)
Fixpoint jsonValue (j : json) : value :=
  match j with
  | JNull => VNull
  | JBool b => VBool b
  | JNum n => VNum (pretty n)
  | JReal x => VNum (numberText x)
  | JStr s => VStr s
  | JArr l => VArr (map jsonValue l)
  | JObj fields => VObj (map (λ f, (f.1, jsonValue f.2)) fields)
  end.
