(* ===== verification/EmailWriter.v ===== *)
(** * The writer, and reviewing a draft again

    src/domain/email/email-writer-service.ts: writer, validation, independent reviewer, gate,
    rendering and one transaction that stores the outcome; pipeline/generate-emails.ts, the
    batch.  The mutable counters of a run are a [Spend] that is passed along.
    resume-email-review.ts: a draft that failed its review goes to the reviewer once more,
    without the writer; resume-commit.ts: the one transaction in which its outcome is stored.
    Logging is left out. *)
From S2P Require Import Prelude.
From S2P Require Import JsNumber.
From S2P Require Import JsText.
From S2P Require Import JsonText.
From S2P Require Import JsRegex.
From S2P Require Import OutreachStatus.
From S2P Require Import LeadLifecycle.
From S2P Require Import PipelineDb.
From S2P Require Import SystemDb.
From S2P Require Import EmailStore.
From S2P Require Import EmailCopy.
From S2P Require Import EmailPrompts.
From S2P Require Import LeadFacts.
From S2P Require Import ReplyClassification.
Open Scope string_scope.
Open Scope Z_scope.
Open Scope list_scope.

Inductive EmailOutcome :=
  | EO_APPROVED_READY | EO_APPROVED_WAITING_URL | EO_REVIEW_REJECTED | EO_VALIDATION_FAILED | EO_SCHEMA_INVALID
  | EO_BUDGET_BLOCKED | EO_MODEL_REFUSAL | EO_RATE_LIMITED | EO_TRANSIENT_PROVIDER_ERROR.
#[global] Instance EmailOutcome_eq_dec : EqDecision EmailOutcome.
Proof. solve_decision. Defined.
Definition emailOutcomeText (o : EmailOutcome) : string :=
  match o with
  | EO_APPROVED_READY => "APPROVED_READY" | EO_APPROVED_WAITING_URL => "APPROVED_WAITING_URL"
  | EO_REVIEW_REJECTED => "REVIEW_REJECTED" | EO_VALIDATION_FAILED => "VALIDATION_FAILED"
  | EO_SCHEMA_INVALID => "SCHEMA_INVALID" | EO_BUDGET_BLOCKED => "BUDGET_BLOCKED" | EO_MODEL_REFUSAL => "MODEL_REFUSAL"
  | EO_RATE_LIMITED => "RATE_LIMITED" | EO_TRANSIENT_PROVIDER_ERROR => "TRANSIENT_PROVIDER_ERROR"
  end.
Record EmailConfig := {
  ec_writerModel : string; ec_reviewerModel : string; ec_writerEffort : string; ec_reviewerEffort : string;
  ec_store : bool; ec_timeoutMs : Z; ec_maxOutputTokens : Z; ec_maxRetries : Z; ec_maxCallsPerLead : Z;
  ec_maxCostUsdPerLead : option num; ec_worstCaseInputTokensPerCall : Z;
}.
Record EmailWriteInput := {
  wi_leadId : string; wi_facts : list LeadFactRow; wi_findings : list EmailFinding; wi_demo : option EmailDemoMeta;
  wi_opportunityScore : option Z; wi_recipient : option EmailRecipientContext; wi_sequence : option SequenceContext;
  wi_outreachRecordId : option string;
}.
Record EmailResult := {
  wr_leadId : string; wr_outcome : EmailOutcome; wr_status : option string; wr_costUsd : num; wr_callsMade : Z;
}.

(** ** What a run has spent *)

Record Spend := { sp_calls : list EmailModelCall; sp_cost : num; sp_callsMade : Z; sp_unaccountable : bool }.
Definition noSpend : Spend := {| sp_calls := []; sp_cost := ofZ 0; sp_callsMade := 0; sp_unaccountable := false |}.
Definition modelCallOf (id : string) (purpose : ModelPurpose) (promptVersion : string) (r : LlmResult) : EmailModelCall :=
  {| mc_id := id; mc_purpose := purpose; mc_provider := ls_provider r; mc_requestedModel := ls_requestedModel r;
     mc_resolvedModel := ls_resolvedModel r; mc_promptVersion := promptVersion; mc_schemaVersion := EMAIL_SCHEMA_VERSION;
     mc_requestId := ls_requestId r; mc_responseId := ls_responseId r; mc_usage := ls_usage r; mc_latencyMs := ls_latencyMs r;
     mc_status := ls_status r; mc_retryNumber := 0; mc_validationViolations := None |}.
Definition callCost (r : LlmResult) : num := default (ofZ 0) (lu_estimatedCostUsd (ls_usage r)).
Definition addCall (c : EmailModelCall) (r : LlmResult) (s : Spend) : Spend :=
  {| sp_calls := sp_calls s ++ [c]; sp_cost := addN (sp_cost s) (callCost r); sp_callsMade := sp_callsMade s + 1;
     sp_unaccountable := sp_unaccountable s ||
       (bool_decide (lu_estimatedCostUsd (ls_usage r) = None) && negb (String.eqb (ls_provider r) "mock")) |}.
Definition withViolations (violations : list string) (c : EmailModelCall) : EmailModelCall :=
  {| mc_id := mc_id c; mc_purpose := mc_purpose c; mc_provider := mc_provider c; mc_requestedModel := mc_requestedModel c;
     mc_resolvedModel := mc_resolvedModel c; mc_promptVersion := mc_promptVersion c; mc_schemaVersion := mc_schemaVersion c;
     mc_requestId := mc_requestId c; mc_responseId := mc_responseId c; mc_usage := mc_usage c; mc_latencyMs := mc_latencyMs c;
     mc_status := mc_status c; mc_retryNumber := mc_retryNumber c; mc_validationViolations := Some violations |}.
(** [wRec.validationViolations = violations], while the call of the writer is the only one *)
Definition noteViolations (violations : list string) (s : Spend) : Spend :=
  {| sp_calls := map (withViolations violations) (sp_calls s); sp_cost := sp_cost s; sp_callsMade := sp_callsMade s;
     sp_unaccountable := sp_unaccountable s |}.
Definition failureOutcome (s : LlmStatus) : option EmailOutcome :=
  match s with
  | LLM_REFUSAL => Some EO_MODEL_REFUSAL
  | LLM_RATE_LIMITED => Some EO_RATE_LIMITED
  | LLM_TRANSIENT | LLM_INCOMPLETE | LLM_INPUT_TOO_LARGE => Some EO_TRANSIENT_PROVIDER_ERROR
  | LLM_OK | LLM_SCHEMA_INVALID => None
  end.
(** Setting [persist.modelCalls] and [persist.email.runId] *)
Definition draftWithRun (runId : string) (c : DraftColumns) : DraftColumns :=
  {| dx_demoId := dx_demoId c; dx_runId := Some runId; dx_hasDemoUrlPlaceholder := dx_hasDemoUrlPlaceholder c;
     dx_writerPromptVersion := dx_writerPromptVersion c; dx_reviewerPromptVersion := dx_reviewerPromptVersion c;
     dx_schemaVersion := dx_schemaVersion c; dx_rulesVersion := dx_rulesVersion c; dx_provider := dx_provider c;
     dx_requestedWriterModel := dx_requestedWriterModel c; dx_requestedReviewerModel := dx_requestedReviewerModel c;
     dx_writerResponseId := dx_writerResponseId c; dx_reviewerResponseId := dx_reviewerResponseId c;
     dx_reviewerDecision := dx_reviewerDecision c; dx_fabricationRisk := dx_fabricationRisk c;
     dx_personalizationSupported := dx_personalizationSupported c; dx_claimHonest := dx_claimHonest c;
     dx_reviewerProblems := dx_reviewerProblems c; dx_totalCostUsd := dx_totalCostUsd c; dx_authorship := dx_authorship c |}.
Definition draftOfRun (runId : string) (d : NewEmailDraft) : NewEmailDraft :=
  {| nd_id := nd_id d; nd_leadId := nd_leadId d; nd_subject := nd_subject d; nd_body := nd_body d; nd_ctaKind := nd_ctaKind d;
     nd_status := nd_status d; nd_sequenceStep := nd_sequenceStep d; nd_outreachRecordId := nd_outreachRecordId d;
     nd_columns := draftWithRun runId (nd_columns d) |}.
Definition personalizationOf (r : EmailReviewParsed) : bool := evidenceSupported r && sufficientlyPersonalized r.
Definition honestyOf (r : EmailReviewParsed) : bool := urgencySupported r && competitorClaimsSupported r && negb (fabricationRisk r).
Definition reviewerProblemsOf (r : EmailReviewParsed) : list string := rv_problems r ++ requiredRevisions r.

(** One UUID for each item of a list *)
Fixpoint withIds {DB A B} `{Runtime} (f : string → A → B) (l : list A) : M DB (list B) :=
  match l with
  | [] => mret []
  | x :: l => id ← randomUUID; rest ← withIds f l; mret (f id x :: rest)
  end.

Section writer.
Context `{Runtime, UnicodeTables, ZodIssues, EmailFiles} (provider : LlmProvider EmailDb) (c : EmailConfig) (keepDebug : bool).

Definition isReal : bool := negb (String.eqb (lp_name provider) "mock").
Definition canCall (model : string) (s : Spend) : bool :=
  if sp_unaccountable s then false
  else if sp_callsMade s >=? ec_maxCallsPerLead c then false
  else match ec_maxCostUsdPerLead c with
       | None => true
       | Some cap =>
           if negb isReal then ltN (sp_cost s) cap
           else match worstCaseCostUsd model (ec_worstCaseInputTokensPerCall c) (ec_maxOutputTokens c) with
                | None => false
                | Some projected => leN (addN (sp_cost s) projected) cap
                end
       end.
Definition requestFor (task schemaName model effort : string) (m : PromptMessages) : LlmRequest :=
  {| lr_task := task; lr_system := ms_system m; lr_user := ms_user m; lr_schemaName := schemaName; lr_model := model;
     lr_reasoningEffort := effort; lr_store := ec_store c; lr_timeoutMs := ec_timeoutMs c;
     lr_maxOutputTokens := ec_maxOutputTokens c; lr_maxRetries := ec_maxRetries c |}.
Definition askModel (r : LlmRequest) : WM LlmResult := modify (logLlmRequest r) ;; lp_generate provider r.
Definition recordCall (purpose : ModelPurpose) (promptVersion : string) (r : LlmResult) (s : Spend) : WM Spend :=
  id ← randomUUID; mret (addCall (modelCallOf id purpose promptVersion r) r s).

Section run.
Context (input : EmailWriteInput) (runId : string).

Definition seqOf : SequenceContext := default INITIAL_SEQUENCE_CONTEXT (wi_sequence input).
Definition positionOf : EmailSequencePosition :=
  {| sp_step := sx_step seqOf; sp_threadSubject := sx_threadSubject seqOf;
     sp_priorMessageBodies := map pm_body (sx_priorMessages seqOf) |}.
Definition inputsOf : EmailInputs :=
  {| in_facts := wi_facts input; in_findings := safeOf (wi_findings input); in_demo := wi_demo input;
     in_recipient := wi_recipient input; in_threadSubject := sp_threadSubject positionOf |}.
Definition contextOf : EmailValidationContext := buildEmailContext inputsOf positionOf.
Definition briefOf : EmailBrief := buildEmailBrief inputsOf.

Definition recordDebug (outcome : EmailOutcome) (draft : option value) (review : option json) (violations : list string)
    (s : Spend) : WM () :=
  nowD ← now;
  if keepDebug then
    recordDebugFile {| dg_leadId := wi_leadId input; dg_runId := runId; dg_outcome := emailOutcomeText outcome;
      dg_draft := draft; dg_review := review; dg_violations := violations; dg_costUsd := sp_cost s;
      dg_callsMade := sp_callsMade s; dg_createdAt := nowD; dg_expiresAt := nowD + EMAIL_DEBUG_TTL_MS |}
  else mret tt.

Definition PRE_OUTREACH : list LeadStatus := [DEMO_READY; DEMO_DECIDED; OPPORTUNITY_READY].
Definition reentryEvent : NewPipelineEvent :=
  {| pe_leadId := Some (wi_leadId input); pe_runId := Some runId; pe_type := NOTE; pe_fromStatus := Some SENT;
     pe_toStatus := Some EMAIL_DRAFTED;
     pe_message := Some ("outreach sequence re-entry: composing follow-up step " +:+ pretty (sequenceNumber (sx_step seqOf)));
     pe_data := JObj [("sequenceStep", JNum (sequenceNumber (sx_step seqOf)));
       ("outreachRecordId", json_opt (wi_outreachRecordId input));
       ("note", JStr ("the lead was already sent; leads.status is the work-queue pointer, outreach_records is authoritative " +:+
                      "for delivery history"))] |}.
(** The lead of a run that composed something moves to its new place. *)
Definition moveLeadTo (route : LeadStatus) : PM () :=
  _ ← leadTransition (wi_leadId input) EMAIL_DRAFTED;
  if bool_decide (route = EMAIL_REVIEW_FAILED) then
    _ ← leadTransition (wi_leadId input) EMAIL_REVIEW_FAILED; mret tt
  else
    _ ← leadTransition (wi_leadId input) EMAIL_APPROVED;
    if bool_decide (route = EMAIL_APPROVED) then mret tt else _ ← leadTransition (wi_leadId input) route; mret tt.
Definition routeLead (route : LeadStatus) : PM () :=
  lead ← getLead (wi_leadId input);
  let status := ld_status <$> lead in
  let preOutreach := match status with Some s => bool_decide (s ∈ PRE_OUTREACH) | None => false end in
  let sequenceReentry := bool_decide (status = Some SENT) && isFollowupPosition (sx_step seqOf) in
  (if sequenceReentry then recordEvent reentryEvent else mret tt) ;;
  if preOutreach || sequenceReentry then moveLeadTo route else mret tt.
Definition finishEvent (outcome : EmailOutcome) (s : Spend) : NewPipelineEvent :=
  noteEvent (wi_leadId input) (Some runId) ("email: " +:+ emailOutcomeText outcome)
    (JObj [("outcome", JStr (emailOutcomeText outcome)); ("costUsd", JReal (sp_cost s))]).
Definition finishEmail (outcome : EmailOutcome) (p : EmailPersist) (s : Spend) : WM EmailResult :=
  let p := {| ps_leadId := ps_leadId p; ps_email := draftOfRun runId <$> ps_email p; ps_factInputs := ps_factInputs p;
              ps_findingInputs := ps_findingInputs p; ps_modelCalls := sp_calls s; ps_routeTo := ps_routeTo p |} in
  transaction (
    onEmailPipeline (routeLead (ps_routeTo p)) ;;
    persistEmail p ;;
    onEmailPipeline (recordEvent (finishEvent outcome s))) ;;
  mret {| wr_leadId := wi_leadId input; wr_outcome := outcome; wr_status := nd_status <$> ps_email p; wr_costUsd := sp_cost s;
          wr_callsMade := sp_callsMade s |}.
Definition failPersist : EmailPersist :=
  {| ps_leadId := wi_leadId input; ps_email := None; ps_factInputs := []; ps_findingInputs := []; ps_modelCalls := [];
     ps_routeTo := EMAIL_REVIEW_FAILED |}.
Definition draftColumnsOf (rendered : RenderedEmail) (review : option EmailReviewParsed) (wRes : LlmResult)
    (rRes : option LlmResult) (cost : num) : DraftColumns :=
  {| dx_demoId := ed_id <$> wi_demo input; dx_runId := Some ""; dx_hasDemoUrlPlaceholder := re_hasDemoUrlPlaceholder rendered;
     dx_writerPromptVersion := EMAIL_WRITER_PROMPT_VERSION; dx_reviewerPromptVersion := EMAIL_REVIEWER_PROMPT_VERSION;
     dx_schemaVersion := EMAIL_SCHEMA_VERSION; dx_rulesVersion := EMAIL_WRITER_RULES_VERSION; dx_provider := lp_name provider;
     dx_requestedWriterModel := ec_writerModel c; dx_requestedReviewerModel := ec_reviewerModel c;
     dx_writerResponseId := ls_responseId wRes; dx_reviewerResponseId := rRes ≫= ls_responseId;
     dx_reviewerDecision := reviewDecisionText ∘ rv_decision <$> review; dx_fabricationRisk := fabricationRisk <$> review;
     dx_personalizationSupported := personalizationOf <$> review; dx_claimHonest := honestyOf <$> review;
     dx_reviewerProblems := reviewerProblemsOf <$> review; dx_totalCostUsd := cost; dx_authorship := "AI" |}.
Definition buildPersist (draft : EmailWriterOutput) (review : option EmailReviewParsed) (status : string) (route : LeadStatus)
    (wRes : LlmResult) (rRes : option LlmResult) (s : Spend) : WM EmailPersist :=
  rendered ← lift_res (renderEmail draft inputsOf positionOf);
  emailId ← randomUUID;
  facts ← withIds (λ id (fi : string * string * string),
    {| fi_id := id; fi_emailId := emailId; fi_leadFactId := fi.1.1; fi_field := fi.2 |}) (re_factInputs rendered);
  findings ← withIds (λ id (f : string * string * string),
    {| gi_id := id; gi_emailId := emailId; gi_auditFindingId := f.1.1; gi_directive := f.2 |}) (re_findingInputs rendered);
  mret {| ps_leadId := wi_leadId input;
          ps_email := Some {| nd_id := emailId; nd_leadId := wi_leadId input; nd_subject := re_subject rendered;
            nd_body := re_body rendered; nd_ctaKind := re_ctaKind rendered; nd_status := status;
            nd_sequenceStep := sequenceNumber (sp_step positionOf); nd_outreachRecordId := wi_outreachRecordId input;
            nd_columns := draftColumnsOf rendered review wRes rRes (sp_cost s) |};
          ps_factInputs := facts; ps_findingInputs := findings; ps_modelCalls := sp_calls s; ps_routeTo := route |}.

Definition draftValue (draft : EmailWriterOutput) : value := jsonValue (writerJson draft).
(** The verdict as it is kept in the diagnostic file *)
Definition reviewJson (r : EmailReviewParsed) : json := JObj
  [("decision", JStr (reviewDecisionText (rv_decision r)));
   ("fabricationRisk", JBool (fabricationRisk r)); ("subjectSpecific", JBool (subjectSpecific r));
   ("subjectCuriosityGap", JBool (subjectCuriosityGap r)); ("openingSpecific", JBool (openingSpecific r));
   ("businessRelevanceClear", JBool (businessRelevanceClear r)); ("urgencySupported", JBool (urgencySupported r));
   ("competitorClaimsSupported", JBool (competitorClaimsSupported r)); ("humanStylePass", JBool (humanStylePass r));
   ("punctuationPass", JBool (punctuationPass r)); ("singlePrimaryCta", JBool (singlePrimaryCta r));
   ("sufficientlyPersonalized", JBool (sufficientlyPersonalized r)); ("evidenceSupported", JBool (evidenceSupported r));
   ("demoAligned", JBool (demoAligned r)); ("persuasive", JBool (persuasive r));
   ("singleObservation", JBool (singleObservation r)); ("buyerLanguageOnly", JBool (buyerLanguageOnly r));
   ("conversationNotAudit", JBool (conversationNotAudit r)); ("confidentObservation", JBool (confidentObservation r));
   ("addsClarityNotRestart", JBool (addsClarityNotRestart r)); ("compressedNotExpanded", JBool (compressedNotExpanded r));
   ("pressureReduced", JBool (pressureReduced r)); ("binaryReplyClose", JBool (binaryReplyClose r));
   ("problems", JArr (map JStr (rv_problems r))); ("requiredRevisions", JArr (map JStr (requiredRevisions r)))].

(** Once the reviewer has answered *)
Definition decideReview (draft : EmailWriterOutput) (wRes rRes : LlmResult) (s : Spend) : WM EmailResult :=
  match failureOutcome (ls_status rRes) with
  | Some outcome => finishEmail outcome failPersist s
  | None =>
      match emailReviewSchema (ls_rawJson rRes) with
      | None =>
          recordDebug EO_SCHEMA_INVALID (Some (draftValue draft)) None ["reviewer_schema_invalid"] s ;;
          finishEmail EO_SCHEMA_INVALID failPersist s
      | Some review =>
          if negb (isEmailReviewApprovable review (sx_step seqOf) (bool_decide (is_Some (sx_threadSubject seqOf)))) then
            p ← buildPersist draft (Some review) "REVIEW_FAILED" EMAIL_REVIEW_FAILED wRes (Some rRes) s;
            recordDebug EO_REVIEW_REJECTED (Some (draftValue draft)) (Some (reviewJson review)) [] s ;;
            finishEmail EO_REVIEW_REJECTED p s
          else
            rendered ← lift_res (renderEmail draft inputsOf positionOf);
            let waiting := re_hasDemoUrlPlaceholder rendered in
            let outcome := if waiting then EO_APPROVED_WAITING_URL else EO_APPROVED_READY in
            p ← buildPersist draft (Some review) "APPROVED" (if waiting then WAITING_FOR_DEMO_URL else READY_FOR_HUMAN_APPROVAL)
                  wRes (Some rRes) s;
            recordDebug outcome (Some (draftValue draft)) (Some (reviewJson review)) [] s ;;
            finishEmail outcome p s
      end
  end.
Definition reviewerRequest (draft : EmailWriterOutput) : LlmRequest :=
  requestFor "email_review" "email_review" (ec_reviewerModel c) (ec_reviewerEffort c)
    (buildEmailReviewerMessages briefOf draft seqOf
       (Some (ctaSentenceFor (vc_language contextOf) (primary_cta draft) (sx_step seqOf)))).
(** Once the writer has written something that can be read *)
Definition reviewDraft (draft : EmailWriterOutput) (wRes : LlmResult) (s : Spend) : WM EmailResult :=
  let violations := validateEmail draft contextOf in
  if negb (bool_decide (violations = [])) then
    let s := noteViolations violations s in
    p ← buildPersist draft None "REVIEW_FAILED" EMAIL_REVIEW_FAILED wRes None s;
    recordDebug EO_VALIDATION_FAILED (Some (draftValue draft)) None violations s ;;
    finishEmail EO_VALIDATION_FAILED p s
  else if negb (canCall (ec_reviewerModel c) s) then finishEmail EO_BUDGET_BLOCKED failPersist s
  else
    rRes ← askModel (reviewerRequest draft);
    s ← recordCall EMAIL_REVIEW EMAIL_REVIEWER_PROMPT_VERSION rRes s;
    decideReview draft wRes rRes s.
Definition writerRequest : LlmRequest :=
  requestFor "email_write" "email_write" (ec_writerModel c) (ec_writerEffort c) (buildEmailWriterMessages briefOf None seqOf).
Definition readDraft (wRes : LlmResult) (s : Spend) : WM EmailResult :=
  match failureOutcome (ls_status wRes) with
  | Some outcome => finishEmail outcome failPersist s
  | None =>
      match emailWriterSchema (ls_rawJson wRes) with
      | None =>
          let violations := map issueLabel (take 12 (zodIssues "email_write" (ls_rawJson wRes))) in
          let s := noteViolations violations s in
          recordDebug EO_SCHEMA_INVALID
            (match ls_rawJson wRes with VNull => None | v => Some v end) None violations s ;;
          finishEmail EO_SCHEMA_INVALID failPersist s
      | Some draft => reviewDraft draft wRes s
      end
  end.
Definition writeEmail : WM EmailResult :=
  if negb (canCall (ec_writerModel c) noSpend) then finishEmail EO_BUDGET_BLOCKED failPersist noSpend
  else
    wRes ← askModel writerRequest;
    s ← recordCall EMAIL_WRITE EMAIL_WRITER_PROMPT_VERSION wRes noSpend;
    readDraft wRes s.
End run.

(** ** src/pipeline/generate-emails.ts *)

Record EmailSummary := { es_outcomes : list EmailOutcome; es_failed : Z; es_totalCostUsd : num }.
Definition emptyEmailSummary : EmailSummary := {| es_outcomes := []; es_failed := 0; es_totalCostUsd := ofZ 0 |}.
(** [summary[outcome]] *)
Definition outcomeCount (o : EmailOutcome) (s : EmailSummary) : nat :=
  length (List.filter (λ o', bool_decide (o' = o)) (es_outcomes s)).
Definition EMAIL_OUTCOMES : list EmailOutcome :=
  [EO_APPROVED_READY; EO_APPROVED_WAITING_URL; EO_REVIEW_REJECTED; EO_VALIDATION_FAILED; EO_SCHEMA_INVALID; EO_BUDGET_BLOCKED;
   EO_MODEL_REFUSAL; EO_RATE_LIMITED; EO_TRANSIENT_PROVIDER_ERROR].
Definition emailSummaryJson (s : EmailSummary) : json := JObj
  ([("failed", JNum (es_failed s)); ("totalCostUsd", JReal (es_totalCostUsd s))] ++
   map (λ o, (emailOutcomeText o, JNum (Z.of_nat (outcomeCount o s)))) EMAIL_OUTCOMES).
Definition summarize (r : res EmailResult) (s : EmailSummary) : EmailSummary :=
  match r with
  | Ok r => {| es_outcomes := es_outcomes s ++ [wr_outcome r]; es_failed := es_failed s;
               es_totalCostUsd := addN (es_totalCostUsd s) (wr_costUsd r) |}
  | Throw _ => {| es_outcomes := es_outcomes s; es_failed := es_failed s + 1; es_totalCostUsd := es_totalCostUsd s |}
  end.
Definition generateEmails (items : list EmailWriteInput) (runId : string) : WM EmailSummary :=
  fold_each items (λ item summary, r ← tryCatch (writeEmail item runId); mret (summarize r summary)) emptyEmailSummary.
End writer.

Inductive ResumeOutcome :=
  | RO_REVIEWED_APPROVED | RO_REVIEWED_REJECTED | RO_VALIDATION_FAILED | RO_REVIEWER_BUDGET_BLOCKED | RO_MODEL_REFUSAL
  | RO_RATE_LIMITED | RO_TRANSIENT_PROVIDER_ERROR | RO_SCHEMA_INVALID.
#[global] Instance ResumeOutcome_eq_dec : EqDecision ResumeOutcome.
Proof. solve_decision. Defined.
Definition resumeOutcomeText (o : ResumeOutcome) : string :=
  match o with
  | RO_REVIEWED_APPROVED => "REVIEWED_APPROVED" | RO_REVIEWED_REJECTED => "REVIEWED_REJECTED"
  | RO_VALIDATION_FAILED => "VALIDATION_FAILED" | RO_REVIEWER_BUDGET_BLOCKED => "REVIEWER_BUDGET_BLOCKED"
  | RO_MODEL_REFUSAL => "MODEL_REFUSAL" | RO_RATE_LIMITED => "RATE_LIMITED"
  | RO_TRANSIENT_PROVIDER_ERROR => "TRANSIENT_PROVIDER_ERROR" | RO_SCHEMA_INVALID => "SCHEMA_INVALID"
  end.
(** [ResumeReviewAbort], with its code *)
Definition resumeAbort (code message : string) : error := AppError code message.
Record ResumeFailureDiagnostic := {
  rd_outcome : ResumeOutcome; rd_providerStatus : string; rd_requestId : option string; rd_responseId : option string;
  rd_issues : list ZodIssue; rd_rawExcerpt : option string; rd_rawTruncated : bool;
}.
Inductive ResumeDraftWrite :=
  | APPEND (persist : EmailPersist) (newDraftId : string)
  | RECOVER_IN_PLACE (draftId : string) (update : EmailReviewOutcomeUpdate) (calls : list EmailModelCall)
  | ACCOUNT_FAILED_ATTEMPT (draftId : string) (addCostUsd : num) (calls : list EmailModelCall)
      (diagnostic : ResumeFailureDiagnostic).
Definition writeKind (w : ResumeDraftWrite) : string :=
  match w with
  | APPEND _ _ => "APPEND" | RECOVER_IN_PLACE _ _ _ => "RECOVER_IN_PLACE"
  | ACCOUNT_FAILED_ATTEMPT _ _ _ _ => "ACCOUNT_FAILED_ATTEMPT"
  end.
Definition isAccounting (w : ResumeDraftWrite) : bool := match w with ACCOUNT_FAILED_ATTEMPT _ _ _ _ => true | _ => false end.
Record ResumeCommitPlan := {
  rp_leadId : string; rp_approved : bool; rp_route : LeadStatus; rp_write : ResumeDraftWrite; rp_sourceDraftId : string;
  rp_reviewerDecision : string; rp_costUsd : num; rp_runId : string;
}.
Record ResumeReviewResult := {
  rr_leadId : string; rr_sourceDraftId : string; rr_outcome : ResumeOutcome; rr_costUsd : num; rr_callsMade : Z;
  rr_violations : list string; rr_review : option EmailReviewParsed; rr_newDraftId : option string;
  rr_resultDraftId : option string; rr_newLeadStatus : option LeadStatus;
}.

Definition resumeResultJson (r : ResumeReviewResult) : json := JObj
  [("leadId", JStr (rr_leadId r)); ("sourceDraftId", JStr (rr_sourceDraftId r)); ("outcome", JStr (resumeOutcomeText (rr_outcome r)));
   ("costUsd", JReal (rr_costUsd r)); ("callsMade", JNum (rr_callsMade r)); ("violations", JArr (map JStr (rr_violations r)));
   ("review", match rr_review r with Some v => reviewJson v | None => JNull end); ("newDraftId", json_opt (rr_newDraftId r));
   ("resultDraftId", json_opt (rr_resultDraftId r)); ("newLeadStatus", json_opt (leadStatusText <$> rr_newLeadStatus r))].

(** ** The bounded diagnostic *)

Definition MAX_DIAGNOSTIC_ISSUES : nat := 20.
Definition MAX_ISSUE_PATH_CHARS : nat := 120.
Definition MAX_ISSUE_MESSAGE_CHARS : nat := 200.
Definition MAX_RAW_EXCERPT_CHARS : nat := 2000.
(** [s.slice(0, n)] of a text, whose characters are counted in bytes *)
Definition excerpt (n : nat) (s : string) : string := String.substring 0 n s.
(** [JSON.stringify] of a value that was parsed; a number is written back as it was read. *)
Fixpoint stringifyValue (v : value) : string :=
  match v with
  | VNull => "null"
  | VBool b => if b then "true" else "false"
  | VNum literal => numberText (toNumber literal)
  | VStr s => jsonString s
  | VArr l => "[" +:+ join "," (map stringifyValue l) +:+ "]"
  | VObj fields => "{" +:+ join "," (map (λ f, jsonString f.1 +:+ ":" +:+ stringifyValue f.2) fields) +:+ "}"
  end.
Definition boundedIssue (i : ZodIssue) : ZodIssue :=
  let path := join "." (zi_path i) in
  {| zi_path := [excerpt MAX_ISSUE_PATH_CHARS (if truthy path then path else "(root)")]; zi_code := zi_code i;
     zi_message := excerpt MAX_ISSUE_MESSAGE_CHARS (zi_message i) |}.
Definition diagnosticOf (outcome : ResumeOutcome) (r : LlmResult) (issues : list ZodIssue) : ResumeFailureDiagnostic :=
  let raw := match ls_rawJson r with VNull => None | v => Some (stringifyValue v) end in
  {| rd_outcome := outcome; rd_providerStatus := llmStatusText (ls_status r); rd_requestId := ls_requestId r;
     rd_responseId := ls_responseId r; rd_issues := map boundedIssue (take MAX_DIAGNOSTIC_ISSUES issues);
     rd_rawExcerpt := excerpt MAX_RAW_EXCERPT_CHARS <$> raw;
     rd_rawTruncated := match raw with Some s => (MAX_RAW_EXCERPT_CHARS <? String.length s)%nat | None => false end |}.
Definition issueJson (i : ZodIssue) : json :=
  JObj [("path", JStr (join "." (zi_path i))); ("code", JStr (zi_code i)); ("message", JStr (zi_message i))].
Definition diagnosticJson (d : ResumeFailureDiagnostic) : json := JObj
  [("outcome", JStr (resumeOutcomeText (rd_outcome d))); ("providerStatus", JStr (rd_providerStatus d));
   ("requestId", json_opt (rd_requestId d)); ("responseId", json_opt (rd_responseId d));
   ("issues", JArr (map issueJson (rd_issues d))); ("rawExcerpt", json_opt (rd_rawExcerpt d));
   ("rawTruncated", JBool (rd_rawTruncated d))].

(** ** resume-commit.ts *)

Section commit.
Context `{Runtime}.

Definition resumeMessage (plan : ResumeCommitPlan) : string :=
  if isAccounting (rp_write plan) then
    "resume-email-review: " +:+ rp_reviewerDecision plan +:+ " — paid reviewer call produced no usable verdict (draft " +:+
    rp_sourceDraftId plan +:+ " unchanged and still resumable)"
  else
    "resume-email-review: " +:+ (if rp_approved plan then "APPROVED" else "REVIEW_REJECTED") +:+
    " (writer not re-run; source draft " +:+ rp_sourceDraftId plan +:+ ")".
Definition resumeEvent (plan : ResumeCommitPlan) : NewPipelineEvent :=
  noteEvent (rp_leadId plan) (Some (rp_runId plan)) (resumeMessage plan)
    (JObj ([("sourceDraftId", JStr (rp_sourceDraftId plan)); ("writerReRun", JBool false);
      ("reviewerDecision", JStr (rp_reviewerDecision plan)); ("approved", JBool (rp_approved plan));
      ("costUsd", JReal (rp_costUsd plan)); ("draftWrite", JStr (writeKind (rp_write plan)));
      ("resultDraftId", match rp_write plan with
         | APPEND p _ => json_opt (nd_id <$> ps_email p)
         | RECOVER_IN_PLACE id _ _ | ACCOUNT_FAILED_ATTEMPT id _ _ _ => JStr id
         end)] ++
      match rp_write plan with ACCOUNT_FAILED_ATTEMPT _ _ _ d => [("diagnostic", diagnosticJson d)] | _ => [] end)).
Definition moveResumedLead (plan : ResumeCommitPlan) : PM () :=
  _ ← leadTransition (rp_leadId plan) EMAIL_DRAFTED;
  if rp_approved plan then
    _ ← leadTransition (rp_leadId plan) EMAIL_APPROVED;
    if bool_decide (rp_route plan = EMAIL_APPROVED) then mret tt
    else _ ← leadTransition (rp_leadId plan) (rp_route plan); mret tt
  else _ ← leadTransition (rp_leadId plan) EMAIL_REVIEW_FAILED; mret tt.
Definition routeResumedLead (plan : ResumeCommitPlan) : PM () :=
  lead ← getLead (rp_leadId plan);
  if negb (isAccounting (rp_write plan)) && bool_decide (ld_status <$> lead = Some EMAIL_REVIEW_FAILED)
  then moveResumedLead plan else mret tt.
Definition writeResumed (w : ResumeDraftWrite) : WM () :=
  match w with
  | APPEND p _ => persistEmail p
  | RECOVER_IN_PLACE id u calls => applyReviewOutcome id u calls
  | ACCOUNT_FAILED_ATTEMPT id cost calls _ => recordFailedReviewAttempt id cost calls
  end.
Definition resumeCommit (plan : ResumeCommitPlan) : WM () :=
  transaction (
    onEmailPipeline (routeResumedLead plan) ;;
    writeResumed (rp_write plan) ;;
    onEmailPipeline (recordEvent (resumeEvent plan))).
End commit.

(** ** resume-email-review.ts

    The projections that the service reads are ports; the command gives it the tables. *)

Section resume.
Context `{Runtime, UnicodeTables, ZodIssues, EmailFiles} (provider : LlmProvider EmailDb) (c : EmailConfig)
  (keepDebug : bool).

Definition resumeInputs (leadId : string) (threadSubject : option string) (db : EmailDb) : EmailInputs :=
  {| in_facts := currentFacts leadId (emailSystem db);
     in_findings := match latestAuditForComposer leadId db with Some a => ca_findings a | None => [] end;
     in_demo := dr_meta <$> latestDemoRecord leadId db; in_recipient := None; in_threadSubject := threadSubject |}.
Definition resultOf (leadId draftId : string) (outcome : ResumeOutcome) (cost : num) (calls : Z) (violations : list string)
    (review : option EmailReviewParsed) (newDraftId : option string) (status : option LeadStatus) (resultDraftId : option string) :
    ResumeReviewResult :=
  {| rr_leadId := leadId; rr_sourceDraftId := draftId; rr_outcome := outcome; rr_costUsd := cost; rr_callsMade := calls;
     rr_violations := violations; rr_review := review; rr_newDraftId := newDraftId; rr_resultDraftId := resultDraftId;
     rr_newLeadStatus := status |}.

(** A paid call that produced no verdict *)
Definition accountFailedAttempt (outcome : ResumeOutcome) (leadId : string) (draftRow : PersistedDraftRow) (rRes : LlmResult)
    (runId : string) (issues : list ZodIssue) : WM ResumeReviewResult :=
  let violations := map issueLabel (take MAX_DIAGNOSTIC_ISSUES issues) in
  let cost := callCost rRes in
  id ← randomUUID;
  let bare := modelCallOf id EMAIL_REVIEW EMAIL_REVIEWER_PROMPT_VERSION rRes in
  let call := match violations with [] => bare | _ => withViolations violations bare end in
  let diagnostic := diagnosticOf outcome rRes issues in
  (if keepDebug then
     nowD ← now;
     _ ← tryCatch (recordDebugFile
       {| dg_leadId := leadId; dg_runId := runId; dg_outcome := resumeOutcomeText outcome; dg_draft := None;
          dg_review := Some (diagnosticJson diagnostic); dg_violations := violations; dg_costUsd := cost; dg_callsMade := 1;
          dg_createdAt := nowD; dg_expiresAt := nowD + EMAIL_DEBUG_TTL_MS |});
     mret tt
   else mret tt) ;;
  resumeCommit {| rp_leadId := leadId; rp_approved := false; rp_route := EMAIL_REVIEW_FAILED;
    rp_write := ACCOUNT_FAILED_ATTEMPT (pr_id draftRow) cost [call] diagnostic; rp_sourceDraftId := pr_id draftRow;
    rp_reviewerDecision := resumeOutcomeText outcome; rp_costUsd := cost; rp_runId := runId |} ;;
  mret (resultOf leadId (pr_id draftRow) outcome cost 1 violations None None (Some EMAIL_REVIEW_FAILED) (Some (pr_id draftRow))).

Definition resumedColumns (draftRow : PersistedDraftRow) (runId : string) (rendered : RenderedEmail) (review : EmailReviewParsed)
    (rRes : LlmResult) : DraftColumns :=
  let o := pr_columns draftRow in
  {| dx_demoId := dx_demoId o; dx_runId := Some runId; dx_hasDemoUrlPlaceholder := re_hasDemoUrlPlaceholder rendered;
     dx_writerPromptVersion := dx_writerPromptVersion o; dx_reviewerPromptVersion := EMAIL_REVIEWER_PROMPT_VERSION;
     dx_schemaVersion := dx_schemaVersion o; dx_rulesVersion := dx_rulesVersion o; dx_provider := lp_name provider;
     dx_requestedWriterModel := dx_requestedWriterModel o; dx_requestedReviewerModel := ec_reviewerModel c;
     dx_writerResponseId := dx_writerResponseId o; dx_reviewerResponseId := ls_responseId rRes;
     dx_reviewerDecision := Some (reviewDecisionText (rv_decision review)); dx_fabricationRisk := Some (fabricationRisk review);
     dx_personalizationSupported := Some (personalizationOf review); dx_claimHonest := Some (honestyOf review);
     dx_reviewerProblems := Some (reviewerProblemsOf review); dx_totalCostUsd := callCost rRes; dx_authorship := "AI" |}.
Definition appendedDraft (draftRow : PersistedDraftRow) (runId : string) (rendered : RenderedEmail) (review : EmailReviewParsed)
    (approvable : bool) (route : LeadStatus) (rRes : LlmResult) (call : EmailModelCall) : WM ResumeDraftWrite :=
  newDraftId ← randomUUID;
  facts ← withIds (λ id (fi : string * string * string),
    {| fi_id := id; fi_emailId := newDraftId; fi_leadFactId := fi.1.1; fi_field := fi.2 |}) (re_factInputs rendered);
  findings ← withIds (λ id (f : string * string * string),
    {| gi_id := id; gi_emailId := newDraftId; gi_auditFindingId := f.1.1; gi_directive := f.2 |}) (re_findingInputs rendered);
  mret (APPEND
    {| ps_leadId := pr_leadId draftRow;
       ps_email := Some {| nd_id := newDraftId; nd_leadId := pr_leadId draftRow; nd_subject := re_subject rendered;
         nd_body := re_body rendered; nd_ctaKind := re_ctaKind rendered;
         nd_status := if approvable then "APPROVED" else "REVIEW_FAILED";
         nd_sequenceStep := sequenceNumber (pr_sequenceStep draftRow); nd_outreachRecordId := pr_outreachRecordId draftRow;
         nd_columns := resumedColumns draftRow runId rendered review rRes |};
       ps_factInputs := facts; ps_findingInputs := findings; ps_modelCalls := [call];
       ps_routeTo := if approvable then route else EMAIL_REVIEW_FAILED |} newDraftId).
Definition recoveredDraft (draftRow : PersistedDraftRow) (review : EmailReviewParsed) (approvable : bool) (rRes : LlmResult)
    (call : EmailModelCall) : ResumeDraftWrite :=
  RECOVER_IN_PLACE (pr_id draftRow)
    {| uo_status := if approvable then "APPROVED" else "REVIEW_FAILED"; uo_reviewerPromptVersion := EMAIL_REVIEWER_PROMPT_VERSION;
       uo_requestedReviewerModel := ec_reviewerModel c; uo_reviewerResponseId := ls_responseId rRes;
       uo_reviewerDecision := reviewDecisionText (rv_decision review); uo_fabricationRisk := fabricationRisk review;
       uo_personalizationSupported := personalizationOf review; uo_claimHonest := honestyOf review;
       uo_reviewerProblems := reviewerProblemsOf review;
       uo_totalCostUsd := addN (dx_totalCostUsd (pr_columns draftRow)) (callCost rRes) |} [call].
(** The reviewer has given a verdict. *)
Definition storeVerdict (leadId : string) (draftRow : PersistedDraftRow) (runId : string) (rendered : RenderedEmail)
    (position : EmailSequencePosition) (rRes : LlmResult) (review : EmailReviewParsed) : WM ResumeReviewResult :=
  let approvable := isEmailReviewApprovable review (pr_sequenceStep draftRow) (bool_decide (is_Some (sp_threadSubject position))) in
  let route := if re_hasDemoUrlPlaceholder rendered then WAITING_FOR_DEMO_URL else READY_FOR_HUMAN_APPROVAL in
  callId ← randomUUID;
  let call := modelCallOf callId EMAIL_REVIEW EMAIL_REVIEWER_PROMPT_VERSION rRes in
  plan ← match pr_outreachRecordId draftRow with
    | None => appendedDraft draftRow runId rendered review approvable route rRes call
    | Some _ => mret (recoveredDraft draftRow review approvable rRes call)
    end;
  resumeCommit {| rp_leadId := leadId; rp_approved := approvable; rp_route := route; rp_write := plan;
    rp_sourceDraftId := pr_id draftRow; rp_reviewerDecision := reviewDecisionText (rv_decision review);
    rp_costUsd := callCost rRes; rp_runId := runId |} ;;
  mret (resultOf leadId (pr_id draftRow) (if approvable then RO_REVIEWED_APPROVED else RO_REVIEWED_REJECTED) (callCost rRes) 1 []
    (Some review) (match plan with APPEND _ id => Some id | _ => None end) (Some (if approvable then route else EMAIL_REVIEW_FAILED))
    (match plan with APPEND _ id => Some id | _ => Some (pr_id draftRow) end)).

Definition budgetAllows (draftRow : PersistedDraftRow) : bool :=
  if String.eqb (lp_name provider) "mock" then true
  else match ec_maxCostUsdPerLead c with
       | None => true
       | Some cap =>
           match worstCaseCostUsd (ec_reviewerModel c) (ec_worstCaseInputTokensPerCall c) (ec_maxOutputTokens c) with
           | None => false
           | Some projected => negb (ltN cap (addN (dx_totalCostUsd (pr_columns draftRow)) projected))
           end
       end.
(** Which thread a draft continues, if it is a follow-up *)
Definition resumeThread (draftRow : PersistedDraftRow) : WM ThreadContext :=
  match pr_sequenceStep draftRow with
  | Initial => mret {| tc_threadSubject := None; tc_priorMessages := [] |}
  | Followup _ =>
      match pr_outreachRecordId draftRow with
      | None => throw (resumeAbort "FOLLOWUP_OUTREACH_RECORD_MISSING" ("Draft " +:+ pr_id draftRow +:+ " is sequence step " +:+
          pretty (sequenceNumber (pr_sequenceStep draftRow)) +:+ " but carries no outreach record; its thread cannot be resolved."))
      | Some recordId =>
          thread ← query (threadContext recordId);
          if String.eqb (trim (default "" (tc_threadSubject thread))) "" || bool_decide (tc_priorMessages thread = [])
          then throw (resumeAbort "FOLLOWUP_THREAD_CONTEXT_MISSING" ("No thread context for outreach record " +:+ recordId +:+
            "; refusing to review a follow-up against an empty thread."))
          else mret thread
      end
  end.
Definition resumePosition (draftRow : PersistedDraftRow) (thread : ThreadContext) : EmailSequencePosition :=
  {| sp_step := pr_sequenceStep draftRow;
     sp_threadSubject := if isFollowupPosition (pr_sequenceStep draftRow) then tc_threadSubject thread else pr_threadSubject draftRow;
     sp_priorMessageBodies := map pm_body (tc_priorMessages thread) |}.
Definition resumeRequest (draftRow : PersistedDraftRow) (thread : ThreadContext) (inputs : EmailInputs) (draft : EmailWriterOutput) :
    LlmRequest :=
  requestFor c "email_review" "email_review" (ec_reviewerModel c) (ec_reviewerEffort c)
    (buildEmailReviewerMessages (buildEmailBrief inputs) draft
       {| sx_step := pr_sequenceStep draftRow; sx_threadSubject := in_threadSubject inputs;
          sx_priorMessages := tc_priorMessages thread |}
       (Some (ctaSentenceFor (resolveEmailLanguage (in_facts inputs)) (primary_cta draft) (pr_sequenceStep draftRow)))).
Definition resumeFailure (s : LlmStatus) : option ResumeOutcome :=
  match s with
  | LLM_REFUSAL => Some RO_MODEL_REFUSAL
  | LLM_RATE_LIMITED => Some RO_RATE_LIMITED
  | LLM_TRANSIENT | LLM_INCOMPLETE | LLM_INPUT_TOO_LARGE => Some RO_TRANSIENT_PROVIDER_ERROR
  | LLM_OK | LLM_SCHEMA_INVALID => None
  end.
(** The one call of the reviewer, and what becomes of its answer *)
Definition reviewAgain (leadId : string) (draftRow : PersistedDraftRow) (runId : string) (thread : ThreadContext)
    (inputs : EmailInputs) (draft : EmailWriterOutput) (rendered : RenderedEmail) : WM ResumeReviewResult :=
  rRes ← askModel provider (resumeRequest draftRow thread inputs draft);
  match resumeFailure (ls_status rRes) with
  | Some outcome => accountFailedAttempt outcome leadId draftRow rRes runId []
  | None =>
      match emailReviewSchema (ls_rawJson rRes) with
      | None => accountFailedAttempt RO_SCHEMA_INVALID leadId draftRow rRes runId (zodIssues "email_review" (ls_rawJson rRes))
      | Some review => storeVerdict leadId draftRow runId rendered (resumePosition draftRow thread) rRes review
      end
  end.
(** What is checked before anything is spent: the draft, its lead, and the words of the writer *)
Definition resumableDraft (leadId draftId : string) : WM (PersistedDraftRow * EmailWriterOutput) :=
  row ← query (draftById draftId);
  match row with
  | None => throw (resumeAbort "DRAFT_NOT_FOUND" ("Email draft " +:+ draftId +:+ " not found."))
  | Some draftRow =>
      if negb (String.eqb (pr_leadId draftRow) leadId) then 
        throw (resumeAbort "DRAFT_LEAD_MISMATCH" ("Draft " +:+ draftId +:+ " belongs to lead " +:+ pr_leadId draftRow +:+ ", not " +:+
          leadId +:+ "."))
      else if negb (String.eqb (pr_status draftRow) "REVIEW_FAILED") then 
        throw (resumeAbort "DRAFT_NOT_REVIEW_FAILED" ("Draft " +:+ draftId +:+ " is " +:+ pr_status draftRow +:+
          "; only a REVIEW_FAILED draft can be resumed."))
      else
        lead ← onEmailPipeline (getLead leadId);
        match lead with
        | None => throw (resumeAbort "LEAD_NOT_FOUND" ("Lead " +:+ leadId +:+ " not found."))
        | Some lead =>
            if negb (bool_decide (ld_status lead = EMAIL_REVIEW_FAILED)) then 
              throw (resumeAbort "LEAD_NOT_REVIEW_FAILED" ("Lead " +:+ leadId +:+ " is " +:+ leadStatusText (ld_status lead) +:+
                "; only an EMAIL_REVIEW_FAILED lead can be resumed."))
            else
              rec ← query (findByLeadAndRun leadId (dx_runId (pr_columns draftRow)));
              match rec ≫= dg_draft with
              | None => throw (resumeAbort "DEBUG_RECORD_MISSING" ("No debug record with the original writer output for lead " +:+ leadId +:+
                  " run " +:+ default "(none)" (dx_runId (pr_columns draftRow)) +:+ "."))
              | Some v =>
                  match emailWriterSchema v with
                  | None => throw (resumeAbort "DEBUG_DRAFT_INVALID" ("Debug draft for " +:+ draftId +:+ " does not satisfy the writer schema."))
                  | Some draft => mret (draftRow, draft)
                  end
              end
        end
  end.
Definition resume (leadId draftId runId : string) : WM ResumeReviewResult :=
  '(draftRow, draft) ← resumableDraft leadId draftId;
  thread ← resumeThread draftRow;
  let position := resumePosition draftRow thread in
  inputs ← query (resumeInputs leadId (sp_threadSubject position));
  rendered ← lift_res (renderEmail draft inputs position);
  if negb (String.eqb (re_subject rendered) (pr_subject draftRow)) || negb (String.eqb (re_body rendered) (pr_body draftRow))
  then throw (resumeAbort "RENDER_MISMATCH" ("Reloaded draft does not render to the persisted subject/body for " +:+ draftId +:+
         "; refusing to resume a divergent draft."))
  else
    let violations := validateEmail draft (buildEmailContext inputs position) in
    if negb (bool_decide (violations = [])) then
      mret (resultOf leadId draftId RO_VALIDATION_FAILED (ofZ 0) 0 violations None None None None)
    else if negb (budgetAllows draftRow) then
      mret (resultOf leadId draftId RO_REVIEWER_BUDGET_BLOCKED (ofZ 0) 0 [] None None None None)
    else reviewAgain leadId draftRow runId thread inputs draft rendered.
End resume.
