(* ===== verification/EmailCommands.v ===== *)
(** * The commands that have emails written

    Which provider a run may use (src/domain/email/llm-provider-policy.ts,
    email-token-budget.ts), how it is built (cli/commands/email-build.ts) with the mock
    (integrations/llm/mock-llm.ts, fixtures/mock-email-responses.ts), the commands
    generate-emails.ts and resume-email-review.ts, and the composer that
    run-followup-automation.ts gives to the preparation of follow-ups.  What is printed and the
    mode for controlled tests are left out.

    The emails that people write: the checks on their text (domain/email/operator-email.ts,
    domain/deterministic-finding/prohibited.ts), how they are stored (operator-email.repo.ts) and
    the command operator-email-approve.ts.  The files with their bodies are a parameter. *)
From S2P Require Import Prelude.
From S2P Require Import JsNumber.
From S2P Require Import JsText.
From S2P Require Import JsonText.
From S2P Require Import JsRegex.
From S2P Require Import OutreachStatus.
From S2P Require Import OutreachGates.
From S2P Require Import FollowupRunners.
From S2P Require Import LeadLifecycle.
From S2P Require Import PipelineDb.
From S2P Require Import SystemDb.
From S2P Require Import LeadFacts.
From S2P Require Import Contacts.
From S2P Require Import ContactEnrich.
From S2P Require Import GmailDrafts.
From S2P Require Import EmailStore.
From S2P Require Import EmailCopy.
From S2P Require Import EmailPrompts.
From S2P Require Import EmailWriter.
Open Scope string_scope.
Open Scope Z_scope.
Open Scope list_scope.

(** ** email-token-budget.ts *)

Definition worstCaseEmailInputTokens : Z := 3000 + 5 * 400 + 500 + 900.

(** ** llm-provider-policy.ts *)

Record EmailProviderConfigView := {
  pv_llmProvider : string; pv_allowPaidLlmCalls : bool; pv_openAiApiKey : option string; pv_writerModel : string;
  pv_reviewerModel : string;
}.
Definition requireLiveEmailProviderConfig (v : EmailProviderConfigView) : res string :=
  if negb (pv_allowPaidLlmCalls v) then
    Throw (JsError "LLM_PROVIDER=openai requires ALLOW_PAID_LLM_CALLS=true (paid-call kill switch is off).")
  else match pv_openAiApiKey v with
  | None | Some "" => Throw (JsError "LLM_PROVIDER=openai requires OPENAI_API_KEY.")
  | Some key =>
      if bool_decide (PRICE_VERIFIED_AT = None) then
        Throw (JsError "LLM price table not verified; reconcile pricing.ts before any paid call.")
      else if negb (priceKnown (pv_writerModel v)) then
        Throw (JsError ("No verified price for email writer model " +:+ quoted (pv_writerModel v) +:+ "."))
      else if negb (priceKnown (pv_reviewerModel v)) then
        Throw (JsError ("No verified price for email reviewer model " +:+ quoted (pv_reviewerModel v) +:+ "."))
      else Ok key
  end.
Definition assertUnattendedPreparationProvider (v : EmailProviderConfigView) (allowMockLlm : bool) : res () :=
  if negb (String.eqb (pv_llmProvider v) "openai") then
    if negb allowMockLlm then
      Throw (AppError "FOLLOWUP_PREPARATION_PROVIDER_REFUSED"
        ("Unattended follow-up preparation requires a live model provider, but LLM_PROVIDER=" +:+ quoted (pv_llmProvider v) +:+ ". " +:+
         "Set LLM_PROVIDER=openai (production does this in the follow-up systemd drop-in, never in .env), " +:+
         "or set FOLLOWUP_PREPARATION_ALLOW_MOCK_LLM=true to deliberately accept MOCK copy in the human review queue."))
    else Ok tt
  else _ ← requireLiveEmailProviderConfig v; Ok tt.

(** ** mock-email-responses.ts *)

Section mock.
Context `{UnicodeTables}.

Definition linesOf (text : string) : list string := splitRe noFlags (pattern "\n") text.
(** The rest of the first line that begins so *)
Definition lineAfter (prefix text : string) : option string := head (omap (dropPrefix prefix) (linesOf text)).
(** [(\S+)] *)
Fixpoint takeToken (s : string) : string * string :=
  match s with
  | EmptyString => (EmptyString, EmptyString)
  | String c s' => if is_space c then (EmptyString, s) else let '(t, rest) := takeToken s' in (String c t, rest)
  end.
Definition nonEmptyToken (s : string) : option (string * string) :=
  let '(t, rest) := takeToken s in if truthy t then Some (t, rest) else None.
(** The id and the type of a fact, and the id of a finding *)
Definition factEvidence (line : string) : option (string * string) :=
  s ← dropPrefix "- evidence_id=" line;
  '(id, s) ← nonEmptyToken s;
  s ← dropPrefix " type=" s;
  '(type, s) ← nonEmptyToken s;
  _ ← dropPrefix " value=" s;
  Some (id, type).
Definition findingEvidenceId (line : string) : option string :=
  s ← dropPrefix "- evidence_id=" line;
  '(id, s) ← nonEmptyToken s;
  s ← dropPrefix " finding_ref=" s;
  '(_, s) ← nonEmptyToken s;
  s ← dropPrefix " category=" s;
  _ ← nonEmptyToken s;
  Some id.
Definition threadSubjectFrom (system : string) : option string :=
  raw ← lineAfter "THREAD SUBJECT (use verbatim): " system;
  match jsonParse (trim raw) with Some (VStr s) => if truthy (trim s) then Some s else None | _ => None end.
Definition mockDraft (german demoAllowed : bool) (business : string) (evidenceIds : list string) : EmailWriterOutput :=
  let cta := if demoAllowed then VIEW_CONCEPT else REPLY_FOR_DETAILS in
  let alignment := if demoAllowed then ALIGN_PASS else ALIGN_NOT_APPLICABLE in
  let body l demo := join (newline +:+ newline) (l ++ if demoAllowed then [demo] else []) in
  if german then
    {| subject_options := ["Ein klarerer Kontaktweg für " +:+ business; "Der schwer auffindbare Terminschritt bei " +:+ business;
                           "Weniger Reibung vor der Terminanfrage"];
       selected_subject := "Ein klarerer Kontaktweg für " +:+ business;
       selected_subject_reason := "Der Betreff verbindet die Praxis direkt mit der belegten Hürde.";
       email_body := body
         ["Der wichtigste Kontaktweg auf der Website von " +:+ business +:+ " ist derzeit schwer zu finden.";
          "Das schafft unnötige Reibung genau dann, wenn ein Patient den nächsten Schritt zur Terminanfrage sucht."]
         "Das freigegebene Konzept zeigt, wie dieser Weg früher sichtbar wird und klar zur Anfrage führt.";
       evidence_ids := evidenceIds;
       strategic_angle := "Den belegten Kontaktweg als konkrete Hürde in der Patientenreise erklären.";
       business_relevance := "Ein klarer Weg zur Terminanfrage hilft Patienten bei Orientierung und nächstem Schritt.";
       urgency_basis := "Die belegte Hürde liegt unmittelbar zwischen Interesse und Terminanfrage.";
       competitor_evidence_used := CE_NONE; primary_cta := cta; prohibited_phrase_scan := SCAN_PASS;
       punctuation_scan := SCAN_PASS; genericity_score := 12; human_style_result := SCAN_PASS; demo_alignment_result := alignment |}
  else
    {| subject_options := ["A clearer contact path for " +:+ business; "The hard-to-find enquiry step at " +:+ business;
                           "Less friction before a patient enquiry"];
       selected_subject := "A clearer contact path for " +:+ business;
       selected_subject_reason := "It connects the specific business to the verified contact-path issue.";
       email_body := body
         ["The main contact action on " +:+ business +:+ "'s website is currently difficult to find.";
          "That adds avoidable friction at the point when a patient is deciding how to make an enquiry."]
         "The approved concept shows how that action can appear earlier and create a clearer path to the enquiry.";
       evidence_ids := evidenceIds;
       strategic_angle := "Lead with the verified contact-path obstacle and its effect on the patient journey.";
       business_relevance := "A clear enquiry path supports orientation and the next step between interest and contact.";
       urgency_basis := "The verified obstacle sits directly between patient interest and an enquiry.";
       competitor_evidence_used := CE_NONE; primary_cta := cta; prohibited_phrase_scan := SCAN_PASS;
       punctuation_scan := SCAN_PASS; genericity_score := 12; human_style_result := SCAN_PASS; demo_alignment_result := alignment |}.
Definition withThreadSubject (subject : option string) (o : EmailWriterOutput) : EmailWriterOutput :=
  match subject with
  | None => o
  | Some t =>
      {| subject_options := [t; t; t]; selected_subject := t; selected_subject_reason := "Thread continuity is preserved.";
         email_body := email_body o; evidence_ids := evidence_ids o; strategic_angle := strategic_angle o;
         business_relevance := business_relevance o; urgency_basis := urgency_basis o;
         competitor_evidence_used := competitor_evidence_used o; primary_cta := primary_cta o;
         prohibited_phrase_scan := prohibited_phrase_scan o; punctuation_scan := punctuation_scan o;
         genericity_score := genericity_score o; human_style_result := human_style_result o;
         demo_alignment_result := demo_alignment_result o |}
  end.
Definition writerResponse (user system : string) : EmailWriterOutput :=
  let business := let b := trim (default "" (lineAfter "BUSINESS NAME: " user)) in if truthy b then b else "the business" in
  let german := startsWith (default "" (lineAfter "OUTPUT LANGUAGE: " user)) "German" in
  let demoAllowed := String.eqb (default "NO" (lineAfter "- link allowed: " user)) "YES" in
  let facts := omap factEvidence (linesOf user) in
  let businessFactId := fst <$> List.find (λ f, String.eqb f.2 "business_name") facts in
  let findingId := head (omap findingEvidenceId (linesOf user)) in
  withThreadSubject (threadSubjectFrom system) (mockDraft german demoAllowed business (omap id [businessFactId; findingId])).
Definition reviewerResponse : EmailReviewParsed :=
  Build_EmailReviewParsed REVIEW_APPROVE false true true true true true true true true true true true true true
    true true true true true true true true [] [].
Definition mockAnswer (r : LlmRequest) : json :=
  if String.eqb (lr_task r) "email_write" then writerJson (writerResponse (lr_user r) (lr_system r)) else reviewJson reviewerResponse.
(** mock-llm.ts; the calls of the provider are the requests that are logged. *)
Definition mockGenerate (req : LlmRequest) : WM LlmResult :=
  calls ← query (λ db, length (llmRequests db));
  mret {| ls_status := LLM_OK; ls_rawJson := jsonValue (mockAnswer req); ls_refusal := None; ls_incompleteReason := None;
          ls_provider := "mock"; ls_requestedModel := lr_model req; ls_resolvedModel := Some (lr_model req);
          ls_requestId := Some ("mock-req-" +:+ pretty calls); ls_responseId := Some ("mock-res-" +:+ pretty calls);
          ls_usage := {| lu_inputTokens := Some 200; lu_cachedInputTokens := Some 0; lu_cacheWriteTokens := Some 0;
            lu_outputTokens := Some 120; lu_reasoningTokens := Some 0; lu_estimatedCostUsd := Some (ofZ 0) |};
          ls_latencyMs := 1 |}.
Definition MockLlmProvider : LlmProvider EmailDb := {| lp_name := "mock"; lp_generate := mockGenerate |}.
End mock.

(** ** email-build.ts *)

Record EmailCommandConfig := {
  cc_view : EmailProviderConfigView; cc_writerEffort : string; cc_reviewerEffort : string; cc_storeResponses : bool;
  cc_timeoutMs : Z; cc_maxOutputTokens : Z; cc_maxRetries : Z; cc_maxCallsPerLead : Z; cc_maxCostUsdPerLead : num;
  cc_emailGenerationEnabled : bool; cc_dryRun : bool;
}.
Definition emailConfigOf (c : EmailCommandConfig) : EmailConfig :=
  {| ec_writerModel := pv_writerModel (cc_view c); ec_reviewerModel := pv_reviewerModel (cc_view c);
     ec_writerEffort := cc_writerEffort c; ec_reviewerEffort := cc_reviewerEffort c; ec_store := cc_storeResponses c;
     ec_timeoutMs := cc_timeoutMs c; ec_maxOutputTokens := cc_maxOutputTokens c; ec_maxRetries := cc_maxRetries c;
     ec_maxCallsPerLead := cc_maxCallsPerLead c; ec_maxCostUsdPerLead := Some (cc_maxCostUsdPerLead c);
     ec_worstCaseInputTokensPerCall := worstCaseEmailInputTokens |}.

Section commands.
Context `{Runtime, UnicodeTables, ZodIssues, EmailFiles, OpenAiClient} (config : EmailCommandConfig).

Definition buildEmailProvider : res (LlmProvider EmailDb) :=
  if String.eqb (pv_llmProvider (cc_view config)) "openai" then
    _ ← requireLiveEmailProviderConfig (cc_view config); Ok OpenAiResponsesProvider
  else Ok MockLlmProvider.
Definition serviceWrite (provider : LlmProvider EmailDb) : EmailWriteInput → string → WM EmailResult :=
  writeEmail provider (emailConfigOf config) true.

(** The recipient of a lead, as the writer sees it *)
Definition recipientOf (r : ContactResolution) : EmailRecipientContext :=
  {| rc_contactType := cr_resolutionType r; rc_email := cr_recipientEmail r;
     rc_intendedDecisionMakers := map (λ d, (dm_fullName d, dm_title d)) (cr_intendedDecisionMakers r) |}.
Definition recipientFor (leadId : string) (db : EmailDb) : option EmailRecipientContext :=
  recipientOf <$> getCurrentResolution leadId (emailContacts db).

(** ** generate-emails.ts *)

Definition EMAIL_ELIGIBLE_STATUSES : list LeadStatus := [DEMO_READY; DEMO_DECIDED; OPPORTUNITY_READY].
Record GenerateEmailsOptions := { gn_campaign : string; gn_limit : option Z; gn_lead : option string }.
Definition hasUsable (facts : list LeadFactRow) (t : FactType) : bool :=
  existsb (λ f, bool_decide (lf_factType f = t) && isUsableFact f) facts.
(** What a lead is written about, if it has an audit and an address *)
Definition emailItem (db : EmailDb) (lead : Lead) : option EmailWriteInput :=
  audit ← latestAuditForComposer (ld_id lead) db;
  let facts := currentFacts (ld_id lead) (emailSystem db) in
  if hasUsable facts FT_contact_email then
    Some {| wi_leadId := ld_id lead; wi_facts := facts; wi_findings := ca_findings audit;
            wi_demo := dr_meta <$> latestDemoRecord (ld_id lead) db; wi_opportunityScore := ca_opportunityScore audit;
            wi_recipient := recipientFor (ld_id lead) db; wi_sequence := None; wi_outreachRecordId := None |}
  else None.
Definition emailItems (opts : GenerateEmailsOptions) (db : EmailDb) : list EmailWriteInput :=
  let wanted (l : Lead) := match gn_lead opts with Some id => negb (truthy id) || String.eqb (ld_id l) id | None => true end in
  let eligible := List.filter (λ l, bool_decide (ld_status l ∈ EMAIL_ELIGIBLE_STATUSES) && wanted l) (listLeads 1000 (emailSystem db)) in
  omap (emailItem db) (match gn_limit opts with Some n => sliceTo n eligible | None => eligible end).
Definition generateEmailsCommand (opts : GenerateEmailsOptions) : WM (option EmailSummary) :=
  if negb (cc_emailGenerationEnabled config) then mret None
  else
    provider ← lift_res buildEmailProvider;
    items ← query (emailItems opts);
    runId ← zoom inEmailSystem (startRun ("emails:" +:+ gn_campaign opts) (cc_dryRun config));
    summary ← generateEmails provider (emailConfigOf config) true items runId;
    zoom inEmailSystem (finishRun runId "COMPLETED" (Some (stringify (emailSummaryJson summary)))) ;;
    mret (Some summary).

(** ** resume-email-review.ts *)

(** A refusal of the service ends the command with exit code 1, as any other error does. *)
Definition resumeEmailReviewCommand (lead draft : option string) : WM (option ResumeReviewResult) :=
  match trim <$> lead, trim <$> draft with
  | None, _ | Some "", _ => throw (AppError "LEAD_REQUIRED" "--lead <id> is required.")
  | _, None | _, Some "" => throw (AppError "DRAFT_REQUIRED" "--draft <id> is required.")
  | Some leadId, Some draftId =>
      if negb (cc_emailGenerationEnabled config) then mret None
      else
        provider ← lift_res buildEmailProvider;
        runId ← zoom inEmailSystem (startRun ("resume-email-review:" +:+ leadId) (cc_dryRun config));
        r ← tryCatch (resume provider (emailConfigOf config) true leadId draftId runId);
        match r with
        | Ok r => zoom inEmailSystem (finishRun runId "COMPLETED" (Some (stringify (resumeResultJson r)))) ;; mret (Some r)
        | Throw e => zoom inEmailSystem (finishRun runId "FAILED" (Some (messageOf e))) ;; throw e
        end
  end.

(** ** run-followup-automation.ts: [compose] *)

Definition followupWriteInput (c : FollowupCandidateView) (step : FollowupStep) (audit : ComposerAuditInput) (db : EmailDb) :
    EmailWriteInput :=
  let thread := threadContext (fcv_outreachRecordId c) db in
  {| wi_leadId := fcv_leadId c; wi_facts := currentFacts (fcv_leadId c) (emailSystem db); wi_findings := ca_findings audit;
     wi_demo := None; wi_opportunityScore := ca_opportunityScore audit; wi_recipient := recipientFor (fcv_leadId c) db;
     wi_sequence := Some {| sx_step := Followup step; sx_threadSubject := tc_threadSubject thread;
                            sx_priorMessages := tc_priorMessages thread |};
     wi_outreachRecordId := Some (fcv_outreachRecordId c) |}.
(** [runId] is that of the run of the command. *)
Definition composeFollowup (dryRun : bool) (runId : string) (c : FollowupCandidateView) (step : FollowupStep) : WM ComposeResult :=
  db ← query id;
  match latestAuditForComposer (fcv_leadId c) db with
  | None => mret {| cmr_prepared := false; cmr_outcome := "NO_AUDIT_EVIDENCE" |}
  | Some audit =>
      let input := followupWriteInput c step audit db in
      if dryRun then
        let thread := threadContext (fcv_outreachRecordId c) db in
        mret {| cmr_prepared := true; cmr_outcome := "DRY_RUN (thread subject " +:+
          match tc_threadSubject thread with None => "(none)" | Some t => jsonString t end +:+ ", " +:+
          pretty (length (tc_priorMessages thread)) +:+ " prior message(s)) — nothing written" |}
      else
        provider ← lift_res buildEmailProvider;
        result ← serviceWrite provider input runId;
        mret {| cmr_prepared := bool_decide (wr_outcome result = EO_APPROVED_READY);
                cmr_outcome := emailOutcomeText (wr_outcome result) |}
  end.
(** The preflight of the preparation *)
Definition followupPreflight (dryRun allowMockLlm : bool) : WM () :=
  if dryRun then mret tt else lift_res (assertUnattendedPreparationProvider (cc_view config) allowMockLlm).
End commands.

(** ** prohibited.ts *)

Definition DETERMINISTIC_PROHIBITED_PATTERNS : list (flags * re * string) :=
  [(flagI, pattern "\b(can(?:no|')t|cannot|unable to)\s+book\b", "cannot_book");
   (flagI, pattern "\bbooking\b[^.]*\bbroken\b", "booking_broken");
   (flagI, pattern "\b(broken|not working|doesn'?t work)\b", "broken_claim");
   (flagI, pattern "\blos(?:e|ing|t)\s+(patients?|customers?|clients?|leads?|business|revenue|sales)\b", "loss_claim");
   (flagI, pattern "\bmissed?\s+(appointments?|bookings?|revenue|business)\b", "missed_business_claim");
   (flagI, pattern "\bconversion(s| rate)?\b", "conversion_claim");
   (flagI, pattern "\b(revenue|sales|profit|turnover)\b", "revenue_claim");
   (noFlags, pattern "\b\d+(\.\d+)?\s?%", "numeric_percentage");
   (flagI, pattern "\b(competitor|competing|rival|other (?:practices|clinics|businesses))\b", "competitor_claim");
   (flagI, pattern "\b(no|missing|lacks?|without (?:a|an)?)\s+contact form\b", "contact_form_absence");
   (flagI, pattern "\b(load[- ]?time|page speed|slow(?:ly)?|performance|latency)\b", "performance_claim");
   (flagI, pattern "\b(banner|video|carousel|slider|pop-?up)\b", "media_artifact_claim");
   (flagI, pattern "\b(guarantee[sd]?|will (?:definitely|surely)|boost|double|increase)\b", "performance_promise")].
Example prohibited_read : forallb (λ p, isRead p.1.2) DETERMINISTIC_PROHIBITED_PATTERNS = true.
Proof. vm_compute. reflexivity. Qed.

(** ** operator-email.ts *)

Definition OPERATOR_EMAIL_RULES_VERSION : string := "operator-email-1".
Definition OPERATOR_AUTHORSHIP : string := "OPERATOR".
Definition OPERATOR_SENTINEL : string := "OPERATOR".
Definition OPERATOR_MAX_EMAIL_WORDS : Z := 200.
Record OperatorEmailInput := { oi_subject : string; oi_body : string; oi_language : EmailLanguage }.

Section gate.
Context `{UnicodeTables}.
Definition findProhibitedClaims (text : string) : list string :=
  omap (λ p, if test p.1.1 p.1.2 text then Some p.2 else None) DETERMINISTIC_PROHIBITED_PATTERNS.
Definition operatorShape (subject body : string) : list string :=
  violation (utf16Length subject =? 0)%nat "empty_subject" ++
  violation (MAX_SUBJECT_LENGTH <? Z.of_nat (utf16Length subject)) ("subject_too_long:" +:+ pretty (utf16Length subject)) ++
  violation (utf16Length body =? 0)%nat "empty_body" ++
  violation (OPERATOR_MAX_EMAIL_WORDS <? wordCount body) ("body_too_long:" +:+ pretty (wordCount body)).
Definition operatorClaims (all body : string) : list string :=
  violation (test flagI URL_RE all) "contains_url" ++
  violation (test flagI METRIC_RE all) "contains_metric_claim" ++
  violation (test flagI PERFORMANCE_RE all) "contains_performance_claim" ++
  violation (test flagI FAKE_URGENCY_RE all) "contains_fake_urgency" ++
  violation (test flagI UNSUPPORTED_BEHAVIOR_RE all) "contains_unsupported_customer_behavior" ++
  violation (test flagI COMPETITOR_RE all) "unsupported_competitor_language" ++
  violation (test flagI DEMO_MENTION_RE body) "mentions_demo_without_approved_demo".
Definition operatorStyle (all body : string) : list string :=
  concat (map (λ phrase, violation (includes (toLocaleLowerCase all) phrase) ("forbidden_phrase:" +:+ phrase)) FORBIDDEN_PHRASES) ++
  violation (2 <? occurrences flagI all CAUTIOUS_RE)%nat "excessive_cautious_wording" ++
  violation (includes all emDashMark) "contains_em_dash" ++
  violation (includes all enDashMark) "contains_en_dash_separator" ++
  violation (includes all "--") "contains_double_hyphen" ++
  violation (test noFlags REPEATED_COMMA_RE all) "contains_repeated_commas" ++
  violation (test flagM MARKDOWN_RE body) "contains_markdown" ++
  violation (test noFlags EMOJI_RE all) "contains_emoji" ++
  violation (2 <? countChar ":" body)%nat "excessive_colons" ++
  violation (1 <? countChar ";" body)%nat "semicolon_heavy".
(** The violations, each once *)
Definition validateOperatorEmail (input : OperatorEmailInput) : list string :=
  let subject := trim (oi_subject input) in
  let body := trim (oi_body input) in
  let all := textLines [subject; body] in
  uniq (operatorShape subject body ++ operatorClaims all body ++ operatorStyle all body ++
        map (λ label, "prohibited_claim:" +:+ label) (findProhibitedClaims all) ++
        violation (hasForeignLanguage (oi_language input) [subject; body])
          ("mixed_language:expected_" +:+ languageText (oi_language input))).
End gate.
Definition computeOperatorEmailHash `{Runtime} (leadId findingId subject body : string) (evidenceIds : list string) : string :=
  hashCanonical (JObj
    [("leadId", JStr leadId); ("deterministicFindingId", JStr findingId); ("subject", JStr subject); ("body", JStr body);
     ("evidenceIds", JArr (map JStr (sortBy byCodeUnits evidenceIds))); ("rulesVersion", JStr OPERATOR_EMAIL_RULES_VERSION)]).

(** ** operator-email.repo.ts and deterministic-finding.repo.ts *)

Definition operatorDraft (id leadId subject body : string) : NewEmailDraft :=
  {| nd_id := id; nd_leadId := leadId; nd_subject := subject; nd_body := body; nd_ctaKind := "reply"; nd_status := "APPROVED";
     nd_sequenceStep := 0; nd_outreachRecordId := None;
     nd_columns :=
       {| dx_demoId := None; dx_runId := None; dx_hasDemoUrlPlaceholder := false; dx_writerPromptVersion := OPERATOR_SENTINEL;
          dx_reviewerPromptVersion := OPERATOR_SENTINEL; dx_schemaVersion := EMAIL_SCHEMA_VERSION;
          dx_rulesVersion := OPERATOR_EMAIL_RULES_VERSION; dx_provider := "operator";
          dx_requestedWriterModel := OPERATOR_SENTINEL; dx_requestedReviewerModel := OPERATOR_SENTINEL;
          dx_writerResponseId := None; dx_reviewerResponseId := None; dx_reviewerDecision := None; dx_fabricationRisk := None;
          dx_personalizationSupported := None; dx_claimHonest := None; dx_reviewerProblems := None;
          dx_totalCostUsd := ofZ 0; dx_authorship := OPERATOR_AUTHORSHIP |} |}.
Definition listActiveComposerFindings (leadId : string) (db : EmailDb) : list EmailFinding :=
  map df_finding (sortBy (λ a b, df_approvedAt b - df_approvedAt a)
    (List.filter (λ f, String.eqb (df_leadId f) leadId && String.eqb (df_status f) "ACTIVE") (deterministicFindings db))).
Definition listFindingEvidenceIds (findingId : string) (db : EmailDb) : list string :=
  map snd (List.filter (λ e, String.eqb e.1 findingId) (findingEvidence db)).

(** ** operator-email-approve.ts *)

Definition APPROVABLE_FROM : LeadStatus := OUTREACH_READY_DETERMINISTIC.
Definition APPROVE_TARGET : LeadStatus := READY_FOR_HUMAN_APPROVAL.
Record OperatorEmailApproveOptions := {
  oo_lead : option string; oo_finding : option string; oo_subject : option string; oo_bodyFile : option string;
  oo_by : option string; oo_confirm : bool;
}.
Inductive OperatorApproveResult := OA_REFUSED (violations : list string) | OA_PREVIEWED (hash : string) | OA_PERSISTED (emailId hash : string).
(** What the disk holds *)
Class BodyFiles := { readBodyFile : string → option string }.

Section command.
Context `{Runtime, UnicodeTables, BodyFiles}.

(** An option that is given and not blank *)
Definition required_ {A} (o : option string) (code message : string) (k : string → WM A) : WM A :=
  match trim <$> o with
  | None | Some "" => throw (AppError code message)
  | Some s => k s
  end.
Definition operatorNote (leadId operator emailId findingId category hash : string) (evidenceIds : list string) : NewPipelineEvent :=
  {| pe_leadId := Some leadId; pe_runId := None; pe_type := NOTE; pe_fromStatus := Some APPROVABLE_FROM;
     pe_toStatus := Some APPROVE_TARGET;
     pe_message := Some ("operator-authored email persisted: " +:+ category +:+ " (by " +:+ operator +:+ ")");
     pe_data := JObj [("authorship", JStr OPERATOR_AUTHORSHIP); ("emailId", JStr emailId);
       ("deterministicFindingId", JStr findingId); ("evidenceIds", JArr (map JStr evidenceIds)); ("messageHash", JStr hash);
       ("rulesVersion", JStr OPERATOR_EMAIL_RULES_VERSION); ("operator", JStr operator)] |}.
Definition persistOperatorEmail (leadId subject body : string) (emailId : string) (note : NewPipelineEvent) : WM () :=
  transaction (
    insertDraft (operatorDraft emailId leadId subject body) ;;
    onEmailPipeline (_ ← leadTransition leadId APPROVE_TARGET; recordEvent note)).
(** The lead, the finding and the text are in order. *)
Definition approveText (leadId findingId subject body operator : string) (confirm : bool) (finding : EmailFinding) :
    WM OperatorApproveResult :=
  evidenceIds ← query (listFindingEvidenceIds findingId);
  facts ← query (λ db, currentFacts leadId (emailSystem db));
  let violations := validateOperatorEmail
    {| oi_subject := subject; oi_body := body; oi_language := resolveEmailLanguage facts |} in
  if negb (bool_decide (violations = [])) then mret (OA_REFUSED violations)
  else
    let hash := computeOperatorEmailHash leadId findingId subject body evidenceIds in
    emailId ← randomUUID;
    if negb confirm then mret (OA_PREVIEWED hash)
    else
      persistOperatorEmail leadId subject body emailId
        (operatorNote leadId operator emailId findingId (fd_category finding) hash evidenceIds) ;;
      mret (OA_PERSISTED emailId hash).
Definition operatorEmailApproveCommand (opts : OperatorEmailApproveOptions) : WM OperatorApproveResult :=
  required_ (oo_lead opts) "LEAD_REQUIRED" "--lead <id> is required (exactly one lead; no bulk fallback)." (λ leadId,
  required_ (oo_finding opts) "FINDING_REQUIRED" "--finding <deterministic-finding-id> is required." (λ findingId,
  required_ (oo_subject opts) "SUBJECT_REQUIRED" "--subject <text> is required." (λ _,
  required_ (oo_bodyFile opts) "BODY_FILE_REQUIRED" "--body-file <path> is required (exact body text)." (λ bodyFile,
  required_ (oo_by opts) "OPERATOR_REQUIRED" "--by <operator> is required." (λ operator,
    let subject := default "" (oo_subject opts) in
    match readBodyFile bodyFile with
    | None => throw (AppError "BODY_FILE_UNREADABLE" ("Could not read --body-file " +:+ bodyFile +:+ "."))
    | Some body =>
        lead ← onEmailPipeline (getLead leadId);
        match lead with
        | None => throw (AppError "LEAD_NOT_FOUND" ("Lead " +:+ leadId +:+ " not found; refusing to approve."))
        | Some lead =>
            if negb (bool_decide (ld_status lead = APPROVABLE_FROM)) then
              throw (AppError "LEAD_NOT_APPROVABLE" ("Lead is " +:+ leadStatusText (ld_status lead) +:+
                "; an operator email can only be approved from " +:+ leadStatusText APPROVABLE_FROM +:+ "."))
            else
              findings ← query (listActiveComposerFindings leadId);
              match List.find (λ f, String.eqb (fd_id f) findingId) findings with
              | None => throw (AppError "FINDING_NOT_ACTIVE" ("Finding " +:+ findingId +:+
                  " is not an ACTIVE deterministic finding for lead " +:+ leadId +:+ "."))
              | Some finding => approveText leadId findingId subject body operator (oo_confirm opts) finding
              end
        end
    end))))).
End command.
