(* ===== verification/SendAdmin.v ===== *)
(** * Operators and sending: src/domain/send/send-admin-service.ts

    What an operator can do to readiness approvals and to send attempts that were left
    behind: [SendAdminService] over [SendAdminRepository]
    (src/persistence/repositories/send-admin.repo.ts). *)
From S2P Require Import Prelude.
From S2P Require Import JsText.
From S2P Require Import JsonText.
From S2P Require Import TimeZone.
From S2P Require Import Scheduler.
From S2P Require Import OutreachStatus.
From S2P Require Import ReplyClassification.
From S2P Require Import OutreachStore.
From S2P Require Import LeadLifecycle.
From S2P Require Import PipelineDb.
From S2P Require Import SendGate.
From S2P Require Import SendService.
From S2P Require Import SystemDb.
Open Scope Z_scope.
Open Scope list_scope.

(** ** Inputs *)

Record CreateReadinessInput := {
  cr_gmailAccount : string; cr_policyVersion : string; cr_approvedBy : string; cr_approvedAt : Z;
  cr_expiresAt : Z;
}.
Record ReconcileInput := {
  ri_attemptId : string; ri_outcome : ReconciliationOutcome; ri_reconciledBy : string; ri_note : string;
  ri_reconciledAt : Z; ri_gmailAccount : string; ri_policyVersion : string;
}.
Inductive ReconciliationSelection := SELECT (outcome : ReconciliationOutcome) | UNRESOLVED.
Inductive ReconcileResult := R_SENT_CONFIRMED | R_DEFINITIVE_FAILURE | R_UNCHANGED.
Definition outcomeText (o : ReconciliationOutcome) : string :=
  match o with CONFIRMED_SENT => "CONFIRMED_SENT" | CONFIRMED_NOT_SENT => "CONFIRMED_NOT_SENT" end.
Definition selectionText (s : ReconciliationSelection) : string :=
  match s with SELECT o => outcomeText o | UNRESOLVED => "UNRESOLVED" end.

(** [if (!found) throw new Error(message)] and [if (condition) throw new Error(message)] *)
Definition must {A} (found : option A) (message : string) : res A :=
  match found with Some a => Ok a | None => Throw (JsError message) end.
Definition refuseIf (condition : bool) (message : string) : res () :=
  if condition then Throw (JsError message) else Ok tt.

(** ** The repository *)

Section repository.
Context `{Runtime}.

Definition systemEvent (message : string) (data : json) : NewPipelineEvent :=
  {| pe_leadId := None; pe_runId := None; pe_type := NOTE; pe_fromStatus := None; pe_toStatus := None;
     pe_message := Some message; pe_data := data |}.
Definition createReadiness (input : CreateReadinessInput) : PM SendingReadinessRecord :=
  transaction (
    supersedeReadiness INTERACTIVE (cr_gmailAccount input) (cr_policyVersion input) (cr_approvedAt input) ;;
    id ← randomUUID;
    let row := {| ra_id := id; ra_gmailAccount := cr_gmailAccount input;
      ra_policyVersion := cr_policyVersion input; ra_approvedBy := cr_approvedBy input;
      ra_approvedAt := cr_approvedAt input; ra_expiresAt := cr_expiresAt input; ra_revokedAt := None;
      ra_source := INTERACTIVE |} in
    insertReadiness row ;;
    recordEvent (systemEvent "Expiring sending readiness created"
      (JObj [("eventKind", JStr "SENDING_READINESS_CREATED"); ("readinessId", JStr id);
             ("policyVersion", JStr (ra_policyVersion row)); ("expiresAt", JStr (toISOString (ra_expiresAt row)))])) ;;
    mret row).
Definition revokeReadiness (id : string) (revokedAt : Z) : PM bool :=
  transaction (
    let hit (r : SendingReadinessRecord) := bool_decide (ra_id r = id) && bool_decide (ra_revokedAt r = None) in
    found ← query (λ db, existsb hit (readinessApprovals db));
    modify (setReadiness (map (λ r, if hit r then revokeReadinessRow revokedAt r else r))) ;;
    if found : bool then
      recordEvent (systemEvent "Sending readiness revoked"
        (JObj [("eventKind", JStr "SENDING_READINESS_REVOKED"); ("readinessId", JStr id)])) ;;
      mret true
    else mret false).
Definition latestReadiness (gmailAccount policyVersion : string) : PM (option SendingReadinessRecord) :=
  query (readinessIn INTERACTIVE gmailAccount policyVersion).
Definition listAttempts (leadId : option string) : PM (list AttemptRow) :=
  query (λ db, limitTo 20 (orderBy (λ a b, b - a) (λ a, sa_reservedAt (at_record a))
    (List.filter (λ a, match leadId with
       | Some l => if truthy l then bool_decide (sa_leadId (at_record a) = l) else true
       | None => true
       end) (attempts db)))).

Definition findAttempt (id : string) (db : PipelineDb) : option AttemptRow :=
  List.find (λ a, bool_decide (at_id a = id)) (attempts db).
Definition attemptNote (a : AttemptRow) (from to : option LeadStatus) (message : string) (data : json) :
    NewPipelineEvent :=
  {| pe_leadId := Some (sa_leadId (at_record a)); pe_runId := None; pe_type := NOTE; pe_fromStatus := from;
     pe_toStatus := to; pe_message := Some message; pe_data := data |}.

(** An attempt whose process died between the announcement of the call and its answer *)
Definition recoverStarted (attemptId recoveredBy note : string) (recoveredAt : Z) : PM bool :=
  transaction (
    attempt ← query (findAttempt attemptId);
    match attempt with
    | Some a =>
        if bool_decide (at_status a = CALL_STARTED) then
          completeAttempt attemptId [set_attemptStatus AT_OUTCOME_UNKNOWN;
            set_errorClass (Some "crash_after_call_started"); set_completedAt (Some recoveredAt)] ;;
          lead ← getLead (sa_leadId (at_record a));
          let scheduled := bool_decide (ld_status <$> lead = Some SCHEDULED) in
          (if scheduled then updateLeadStatus (sa_leadId (at_record a)) NEEDS_MANUAL_REVIEW recoveredAt
           else mret tt) ;;
          recordEvent (attemptNote a (if scheduled then Some SCHEDULED else None)
            (if scheduled then Some NEEDS_MANUAL_REVIEW else None)
            "Crash-left send attempt recovered as outcome unknown"
            (JObj [("eventKind", JStr "SEND_CALL_STARTED_RECOVERED"); ("attemptId", JStr (at_id a));
                   ("originalAttemptStatus", JStr "CALL_STARTED"); ("recoveredBy", JStr recoveredBy);
                   ("recoveredAt", JStr (toISOString recoveredAt)); ("evidenceNote", JStr note)])) ;;
          mret true
        else mret false
    | None => mret false
    end).

(** An unknown outcome that no operator has decided yet *)
Definition isUnresolved (a : AttemptRow) : bool :=
  bool_decide (at_status a = AT_OUTCOME_UNKNOWN) && bool_decide (at_reconciledOutcome a = None).
Definition unresolvedAttempt (attemptId : string) (db : PipelineDb) : res AttemptRow :=
  a ← must (findAttempt attemptId db) "send_attempt_not_found";
  _ ← refuseIf (negb (isUnresolved a)) "send_attempt_not_unresolved_unknown";
  mret a.
Definition recordUnresolved (attemptId reconciledBy note : string) (reconciledAt : Z) : PM () :=
  transaction (
    attempt ← query (findAttempt attemptId);
    match attempt with
    | Some a =>
        if isUnresolved a then
          lead ← getLead (sa_leadId (at_record a));
          if bool_decide (ld_status <$> lead = Some NEEDS_MANUAL_REVIEW) then
            recordEvent (attemptNote a None None "Send outcome remains unresolved; retry stays blocked"
              (JObj [("eventKind", JStr "SEND_RECONCILIATION_UNRESOLVED"); ("attemptId", JStr (at_id a));
                     ("reviewedBy", JStr reconciledBy); ("reviewedAt", JStr (toISOString reconciledAt));
                     ("evidenceNote", JStr note)]))
          else throw (JsError "lead_not_in_manual_review")
        else throw (JsError "send_attempt_not_unresolved_unknown")
    | None => throw (JsError "send_attempt_not_unresolved_unknown")
    end).

(** What a reconciliation is bound to, once every check has passed *)
Record Binding := {
  bd_attempt : AttemptRow; bd_lead : Lead; bd_schedule : ScheduleRow; bd_draft : GmailDraftRow;
  bd_readiness : SendingReadinessRecord; bd_finalization : FinalizationRow; bd_email : EmailDraftRow; bd_recipient : string;
}.
(** [scheduleFp], [envelopeHash] and the send fingerprint, recomputed *)
Definition bindingFingerprint (b : Binding) : string :=
  scheduleIntegrityFingerprint {| sb_leadId := ld_id (bd_lead b); sb_gmailDraftId := gw_id (bd_draft b);
    sb_providerDraftId := default "" (gw_providerDraftId (bd_draft b));
    sb_finalizedContentHash := fn_resolvedBodyHash (bd_finalization b); sb_recipientEmail := bd_recipient b;
    sb_scheduledAtUtcMs := sc_scheduledAtUtc (sr_record (bd_schedule b));
    sb_rulesVersion := sc_rulesVersion (sr_record (bd_schedule b)) |}.
Definition bindingEnvelope (input : ReconcileInput) (b : Binding) : string :=
  approvedEnvelopeHash {| ae_gmailAccount := ri_gmailAccount input; ae_recipientEmail := bd_recipient b;
    ae_subject := ew_subject (bd_email b); ae_finalizedContentHash := fn_resolvedBodyHash (bd_finalization b);
    ae_scheduleId := sr_id (bd_schedule b);
    ae_scheduledAtUtcMs := sc_scheduledAtUtc (sr_record (bd_schedule b)); ae_replyTo := None |}.
Definition bindingSend (input : ReconcileInput) (b : Binding) : string :=
  sendFingerprint (sr_id (bd_schedule b)) (gw_id (bd_draft b)) (bindingEnvelope input b) (ra_id (bd_readiness b)).
Definition attemptsOf (scheduleId : string) (db : PipelineDb) : list AttemptRow :=
  List.filter (λ a, bool_decide (at_scheduleId a = scheduleId)) (attempts db).
Definition currentContacts (leadId : string) (db : SystemDb) : list string :=
  map lf_value (List.filter (λ f, bool_decide (lf_leadId f = leadId) &&
    bool_decide (lf_factType f = FT_contact_email) && lf_isCurrent f) (leadFacts db)).
(** The checks before anything is written; all of them read one state of the database. *)
Definition checkReconcile (input : ReconcileInput) (db : SystemDb) : res Binding :=
  let p := pipelineDb db in
  a ← unresolvedAttempt (ri_attemptId input) p;
  let r := at_record a in
  let relevant := attemptsOf (at_scheduleId a) p in
  _ ← refuseIf (negb (bool_decide (map at_id relevant = [at_id a]))) "reconciliation_requires_exactly_one_attempt";
  _ ← refuseIf (existsb isConfirmed relevant) "confirmed_send_already_exists";
  let schedule := List.find (λ s, bool_decide (sr_id s = at_scheduleId a)) (schedules p) in
  let draft := gmailDrafts db !! sa_gmailDraftId r in
  let readiness := List.find (λ x, bool_decide (ra_id x = sa_readinessApprovalId r)) (readinessApprovals p) in
  let recipients := currentContacts (sa_leadId r) db in
  lead ← must (leads p !! sa_leadId r) "lead_not_in_manual_review";
  _ ← refuseIf (negb (bool_decide (ld_status lead = NEEDS_MANUAL_REVIEW))) "lead_not_in_manual_review";
  s ← must schedule "schedule_not_active";
  let sc := sr_record s in
  _ ← refuseIf (negb (bool_decide (sc_status sc = SCH_SCHEDULED) && bool_decide (sc_leadId sc = ld_id lead)))
        "schedule_not_active";
  g ← must draft "gmail_draft_binding_changed";
  _ ← refuseIf (negb (bool_decide (gw_leadId g = ld_id lead) && bool_decide (gw_id g = sc_gmailDraftId sc) &&
        bool_decide (gw_outcome g = "DRAFT_CREATED") && truthy_opt (gw_providerDraftId g) &&
        bool_decide (gw_providerDraftId g = Some (sc_providerDraftId sc)))) "gmail_draft_binding_changed";
  ready ← must readiness "readiness_binding_changed";
  _ ← refuseIf (negb (bool_decide (toLowerCase (ra_gmailAccount ready) = ri_gmailAccount input) &&
        bool_decide (ra_policyVersion ready = ri_policyVersion input))) "readiness_binding_changed";
  contact ← must (match recipients with [c] => if truthy c then Some c else None | _ => None end)
              "verified_recipient_not_unique";
  let recipient := normalizeEmail contact in
  _ ← refuseIf (negb (bool_decide (toLowerCase (sc_recipientEmail sc) = recipient) &&
        bool_decide (toLowerCase (gw_recipientEmail g) = recipient) &&
        bool_decide (sa_recipientHash r = recipientHash recipient))) "recipient_binding_changed";
  _ ← refuseIf (negb (bool_decide (toLowerCase (gw_gmailAccount g) = ri_gmailAccount input) &&
        bool_decide (toLowerCase (sa_gmailAccount r) = ri_gmailAccount input))) "account_binding_changed";
  finalizedId ← must (if truthy_opt (gw_finalizedEmailId g) then gw_finalizedEmailId g else None)
                  "finalized_email_binding_missing";
  '(f, e) ← must (f ← finalizations db !! finalizedId; e ← emailDrafts db !! fn_originalDraftId f; Some (f, e))
              "content_binding_changed";
  _ ← refuseIf (negb (bool_decide (fn_finalHumanDecision f = Some "APPROVED") &&
        bool_decide (is_Some (fn_finalReviewedAt f)) &&
        bool_decide (fn_resolvedBodyHash f = sc_finalizedContentHash sc) &&
        bool_decide (fn_resolvedBodyHash f = sa_finalizedContentHash r))) "content_binding_changed";
  let b := {| bd_attempt := a; bd_lead := lead; bd_schedule := s; bd_draft := g; bd_readiness := ready;
              bd_finalization := f; bd_email := e; bd_recipient := recipient |} in
  _ ← refuseIf (negb (bool_decide (bindingFingerprint b = sc_integrityFingerprint sc) &&
        bool_decide (bindingFingerprint b = sa_scheduleIntegrityFingerprint r))) "schedule_fingerprint_changed";
  _ ← refuseIf (negb (bool_decide (bindingEnvelope input b = sa_approvedEnvelopeHash r) &&
        bool_decide (bindingSend input b = sa_sendFingerprint r))) "send_fingerprint_changed";
  mret b.

(** The verdict of the operator is written beside the outcome of the attempt, which stays. *)
Definition reconcileRow (input : ReconcileInput) (a : AttemptRow) : AttemptRow :=
  {| at_record := at_record a; at_reconciledOutcome := Some (ri_outcome input);
     at_reconciledBy := Some (ri_reconciledBy input); at_reconciledAt := Some (ri_reconciledAt input);
     at_reconciliationNote := Some (ri_note input) |}.
Definition writeVerdict (input : ReconcileInput) (a : AttemptRow) : PM () :=
  guarded (λ db, refuse (attemptIndexChecks db (reconcileRow input a)))
    (setAttempts (map (λ a', if bool_decide (at_id a' = ri_attemptId input) then reconcileRow input a' else a'))).
(** [update ... where status = 'NEEDS_MANUAL_REVIEW' returning id] *)
Definition leaveManualReview (leadId : string) (to : LeadStatus) (nowD : Z) : PM () :=
  lead ← getLead leadId;
  if bool_decide (ld_status <$> lead = Some NEEDS_MANUAL_REVIEW) then updateLeadStatus leadId to nowD
  else throw (JsError "manual_reconciliation_transition_failed").
Definition verdictStatus (o : ReconciliationOutcome) : ReconcileResult :=
  match o with CONFIRMED_SENT => R_SENT_CONFIRMED | CONFIRMED_NOT_SENT => R_DEFINITIVE_FAILURE end.
Definition verdictLead (o : ReconciliationOutcome) : LeadStatus :=
  match o with CONFIRMED_SENT => SENT | CONFIRMED_NOT_SENT => SCHEDULED end.
Definition applyVerdict (input : ReconcileInput) (b : Binding) : PM ReconcileResult :=
  let a := bd_attempt b in
  let outcome := ri_outcome input in
  writeVerdict input a ;;
  (match outcome with
   | CONFIRMED_SENT => markScheduleFulfilled (at_scheduleId a) (ri_reconciledAt input)
   | CONFIRMED_NOT_SENT => mret tt
   end) ;;
  leaveManualReview (sa_leadId (at_record a)) (verdictLead outcome) (ri_reconciledAt input) ;;
  recordEvent (attemptNote a (Some NEEDS_MANUAL_REVIEW) (Some (verdictLead outcome))
    "Uncertain send attempt manually reconciled"
    (JObj [("eventKind", JStr "SEND_ATTEMPT_RECONCILED"); ("attemptId", JStr (at_id a));
           ("originalAttemptStatus", JStr "OUTCOME_UNKNOWN");
           ("reconciliationOutcome", JStr (outcomeText outcome))])) ;;
  mret (verdictStatus outcome).
Definition reconcile (input : ReconcileInput) : SM ReconcileResult :=
  transaction (
    db ← query id;
    b ← lift_res (checkReconcile input db);
    zoom onPipeline (applyVerdict input b)).
End repository.

(** ** The service *)

Definition idChar (c : ascii) : bool :=
  let n := char_code c in
  ((65 <=? n) && (n <=? 90))%nat || ((97 <=? n) && (n <=? 122))%nat || ((48 <=? n) && (n <=? 57))%nat ||
  (n =? 95)%nat || (n =? 45)%nat.
(** [/^[A-Za-z0-9_-]{1,max}$/] *)
Definition isIdentifier (max : nat) (v : string) : bool :=
  negb (string_exists (λ c, negb (idChar c)) v) && (1 <=? String.length v)%nat && (String.length v <=? max)%nat.
Definition requiredId (value : string) : res string :=
  let v := trim value in if isIdentifier 200 v then Ok v else Throw (JsError "invalid_identifier").
Definition requiredText (value field : string) (max : nat) : res string :=
  let v := trim value in
  if negb (truthy v) || (max <? utf16Length v)%nat ||
     string_exists (λ c, (char_code c =? 13)%nat || (char_code c =? 10)%nat) v
  then Throw (JsError ("invalid_" +:+ field)) else Ok v.

Section service.
Context `{Runtime} (gmailAccount : option string) (policyVersion : string).

(** [config.gmailAccount?.trim().toLowerCase()], which must not be empty *)
Definition configuredAccount : res string :=
  match normalizeEmail <$> gmailAccount with
  | Some account => if truthy account then Ok account else Throw (JsError "configured_gmail_account_required")
  | None => Throw (JsError "configured_gmail_account_required")
  end.
Definition adminCreateReadiness (approvedBy : string) (expiresInMinutes : Z) : PM SendingReadinessRecord :=
  account ← lift_res configuredAccount;
  approvedBy ← lift_res (requiredText approvedBy "approved_by" 120);
  if (expiresInMinutes <? 1) || (60 <? expiresInMinutes) then
    throw (JsError "readiness_expiry_must_be_1_to_60_minutes")
  else
    approvedAt ← now;
    createReadiness {| cr_gmailAccount := account; cr_policyVersion := policyVersion;
      cr_approvedBy := approvedBy; cr_approvedAt := approvedAt;
      cr_expiresAt := approvedAt + expiresInMinutes * 60000 |}.
Definition adminRevokeReadiness (id revokedBy reason : string) : PM bool :=
  id ← lift_res (requiredId id);
  _ ← lift_res (requiredText revokedBy "revoked_by" 120);
  _ ← lift_res (requiredText reason "revoke_reason" 500);
  revokedAt ← now;
  revokeReadiness id revokedAt.
Definition adminStatus : PM (option SendingReadinessRecord) :=
  account ← lift_res configuredAccount;
  latestReadiness account policyVersion.
Definition adminAttempts (leadId : option string) : PM (list AttemptRow) :=
  match leadId with
  | Some l => if truthy l then l ← lift_res (requiredId l); listAttempts (Some l) else listAttempts None
  | None => listAttempts None
  end.

Definition reconciliationPhrase (attemptId : string) (outcome : ReconciliationSelection) : res string :=
  id ← requiredId attemptId; mret ("RECONCILE " +:+ id +:+ " " +:+ selectionText outcome).
Definition recoveryPhrase (attemptId : string) : res string :=
  id ← requiredId attemptId; mret ("RECOVER STARTED " +:+ id +:+ " AS OUTCOME_UNKNOWN").
Definition adminRecoverStarted (attemptId recoveredBy note observedPhrase : string) : PM bool :=
  attemptId ← lift_res (requiredId attemptId);
  phrase ← lift_res (recoveryPhrase attemptId);
  if neq observedPhrase phrase then throw (JsError "recovery_confirmation_mismatch")
  else
    recoveredBy ← lift_res (requiredText recoveredBy "recovered_by" 120);
    note ← lift_res (requiredText note "recovery_note" 1000);
    recoveredAt ← now;
    recoverStarted attemptId recoveredBy note recoveredAt.
Definition adminReconcile (attemptId : string) (outcome : ReconciliationSelection)
    (reconciledBy note observedPhrase : string) : SM ReconcileResult :=
  attemptId ← lift_res (requiredId attemptId);
  phrase ← lift_res (reconciliationPhrase attemptId outcome);
  if neq observedPhrase phrase then throw (JsError "reconciliation_confirmation_mismatch")
  else
    reconciledBy ← lift_res (requiredText reconciledBy "reconciled_by" 120);
    note ← lift_res (requiredText note "reconciliation_note" 1000);
    reconciledAt ← now;
    match outcome with
    | UNRESOLVED =>
        zoom onPipeline (recordUnresolved attemptId reconciledBy note reconciledAt) ;; mret R_UNCHANGED
    | SELECT outcome =>
        account ← lift_res configuredAccount;
        reconcile {| ri_attemptId := attemptId; ri_outcome := outcome; ri_reconciledBy := reconciledBy;
          ri_note := note; ri_reconciledAt := reconciledAt; ri_gmailAccount := account;
          ri_policyVersion := policyVersion |}
    end.
End service.
