(* ===== verification/EnrollBridge.v ===== *)
(** * From a confirmed send to the outreach timeline

    [enrollConfirmedSendFromAttempt] (src/cli/commands/outreach-enroll-sent.ts): the
    bridge between the sending tables and the outreach service, used by the command
    and by the automated run. *)
From S2P Require Import Prelude.
From S2P Require Import JsText.
From S2P Require Import TimeZone.
From S2P Require Import OutreachStatus.
From S2P Require Import OutreachStore.
From S2P Require Import OutreachService.
From S2P Require Import OutreachWrites.
From S2P Require Import PipelineDb.
From S2P Require Import SystemDb.
Open Scope Z_scope.
Open Scope list_scope.

Inductive EnrollFromAttemptOutcome :=
  | EA_ENROLLED | EA_ALREADY_ENROLLED | EA_RECORD_NOT_ENROLLABLE | EA_STEP_MISMATCH | EA_REFUSED.
Record EnrollFromAttemptResult := {
  ear_outcome : EnrollFromAttemptOutcome; ear_reason : option string; ear_recordId : option string;
  ear_campaignId : option string; ear_campaignName : option string; ear_contact : option string;
  ear_messageId : option string; ear_contentHash : option string; ear_gmailMessageId : option string;
  ear_gmailThreadId : option string; ear_followupDueAt : option string; ear_sequenceStep : option Z;
  ear_messageType : option OutreachMessageType; ear_recordStatus : option OutreachStatus;
}.
Definition refused (reason : string) : EnrollFromAttemptResult :=
  {| ear_outcome := EA_REFUSED; ear_reason := Some reason; ear_recordId := None; ear_campaignId := None;
     ear_campaignName := None; ear_contact := None; ear_messageId := None; ear_contentHash := None;
     ear_gmailMessageId := None; ear_gmailThreadId := None; ear_followupDueAt := None;
     ear_sequenceStep := None; ear_messageType := None; ear_recordStatus := None |}.

Definition attemptStatusText (s : SendAttemptStatus) : string :=
  match s with
  | RESERVED => "RESERVED" | CALL_STARTED => "CALL_STARTED" | AT_SENT_CONFIRMED => "SENT_CONFIRMED"
  | AT_DEFINITIVE_FAILURE => "DEFINITIVE_FAILURE" | AT_OUTCOME_UNKNOWN => "OUTCOME_UNKNOWN"
  | AT_DUPLICATE_PREVENTED => "DUPLICATE_PREVENTED"
  end.
Definition reconciledText (o : option ReconciliationOutcome) : string :=
  match o with
  | Some CONFIRMED_SENT => "CONFIRMED_SENT" | Some CONFIRMED_NOT_SENT => "CONFIRMED_NOT_SENT" | None => "-"
  end.

(** The Gmail ids, the instant and the content of a confirmed attempt, or why the
    attempt is refused before anything is written *)
Definition confirmedContent (input : EnrollInputData) (lead : string) : (string * string * Z) + string :=
  if negb (String.eqb (ei_leadId input) lead) then
    inr ("attempt belongs to lead " +:+ ei_leadId input +:+ ", not " +:+ lead)
  else if negb (bool_decide (ei_status input = AT_SENT_CONFIRMED) ||
                bool_decide (ei_reconciledOutcome input = Some CONFIRMED_SENT)) then
    inr ("attempt is not confirmed (status=" +:+ attemptStatusText (ei_status input) +:+ ", reconciled=" +:+
         reconciledText (ei_reconciledOutcome input) +:+ ")")
  else
    match ei_providerMessageId input, ei_providerThreadId input with
    | Some messageId, Some threadId =>
        if negb (truthy messageId) || negb (truthy threadId) then
          inr "confirmed attempt is missing a Gmail message/thread id"
        else
          match ei_sentAt input with
          | None => inr "confirmed attempt is missing a sent timestamp"
          | Some sentAt =>
              if negb (String.eqb (ei_attemptFinalizedContentHash input) (ei_resolvedBodyHash input)) then
                inr ("finalized content hash does not match the attempt" +:+ emDash +:+
                     "content may have diverged")
              else inl (messageId, threadId, sentAt)
          end
    | _, _ => inr "confirmed attempt is missing a Gmail message/thread id"
    end.

Section bridge.
Context `{Runtime, TzDatabase} (policy : SequencePolicy).

Definition initialInput (recordId : string) (input : EnrollInputData) (content : string * string * Z) :
    EnrollConfirmedSendInput :=
  {| ecs_outreachRecordId := recordId; ecs_subject := ei_subject input; ecs_body := ei_body input;
     ecs_gmailMessageId := content.1.1; ecs_gmailThreadId := content.1.2; ecs_sentAt := content.2;
     ecs_emailDraftId := Some (ei_emailDraftId input);
     ecs_finalizedEmailId := Some (ei_finalizedEmailId input); ecs_sendAttemptId := ei_attemptId input;
     ecs_policy := policy |}.
Definition followupInput (recordId : string) (step : FollowupStep) (input : EnrollInputData)
    (content : string * string * Z) : EnrollConfirmedFollowupInput :=
  {| ecf_outreachRecordId := recordId; ecf_expectedStep := step; ecf_subject := ei_subject input;
     ecf_body := ei_body input; ecf_gmailMessageId := content.1.1; ecf_gmailThreadId := content.1.2;
     ecf_sentAt := content.2; ecf_emailDraftId := Some (ei_emailDraftId input);
     ecf_finalizedEmailId := Some (ei_finalizedEmailId input); ecf_sendAttemptId := ei_attemptId input;
     ecf_policy := policy |}.

Definition initialOutcome (o : EnrollConfirmedSendOutcome) : EnrollFromAttemptOutcome :=
  match o with
  | ES_ENROLLED => EA_ENROLLED | ES_ALREADY_ENROLLED => EA_ALREADY_ENROLLED
  | ES_RECORD_NOT_ENROLLABLE => EA_RECORD_NOT_ENROLLABLE
  end.
Definition followupOutcome (o : EnrollConfirmedFollowupOutcome) : EnrollFromAttemptOutcome :=
  match o with
  | EF_ENROLLED => EA_ENROLLED | EF_ALREADY_ENROLLED => EA_ALREADY_ENROLLED
  | EF_RECORD_NOT_ENROLLABLE => EA_RECORD_NOT_ENROLLABLE | EF_STEP_MISMATCH => EA_STEP_MISMATCH
  end.
Definition enrolled (outcome : EnrollFromAttemptOutcome) (reason : option string) (campaign : CampaignRow)
    (input : EnrollInputData) (content : string * string * Z) (record : OutreachRecord)
    (message : option OutreachMessage) (next : option OutreachFollowup) (type : OutreachMessageType) :
    EnrollFromAttemptResult :=
  {| ear_outcome := outcome; ear_reason := reason; ear_recordId := Some (or_id record);
     ear_campaignId := Some (cp_id campaign); ear_campaignName := Some (cp_name campaign);
     ear_contact := Some (ei_recipientEmail input); ear_messageId := om_id <$> message;
     ear_contentHash := om_contentHash <$> message; ear_gmailMessageId := Some content.1.1;
     ear_gmailThreadId := Some content.1.2; ear_followupDueAt := (λ f, toISOString (fu_dueAt f)) <$> next;
     ear_sequenceStep := Some (ei_sequenceStep input); ear_messageType := Some type;
     ear_recordStatus := Some (or_status record) |}.

(** The copy was written for another record than the tracked one. *)
Definition otherRecord (input : EnrollInputData) (record : OutreachRecord) : bool :=
  match ei_outreachRecordId input with
  | Some owner => negb (String.eqb owner (or_id record))
  | None => false
  end.
(** The part after [track]: the durable sequence step decides what the send was. *)
Definition enrollTracked (campaign : CampaignRow) (input : EnrollInputData)
    (content : string * string * Z) (record : OutreachRecord) : SM EnrollFromAttemptResult :=
  let step := ei_sequenceStep input in
  if bool_decide (step = 0) then
    result ← zoom onOutreach (enrollConfirmedSend (initialInput (or_id record) input content));
    mret (enrolled (initialOutcome (esr_outcome result)) None campaign input content (esr_record result)
            (esr_message result) (esr_followup result) INITIAL)
  else
    match isFollowupStep step with
    | None =>
        mret (refused ("draft " +:+ ei_emailDraftId input +:+ " records an unknown sequence step " +:+ pretty step))
    | Some fstep =>
        if otherRecord input record then
          mret (refused ("draft " +:+ ei_emailDraftId input +:+ " belongs to outreach record " +:+
            default "" (ei_outreachRecordId input) +:+ ", but the active record for " +:+
            ei_recipientEmail input +:+ " is " +:+ or_id record))
        else
          result ← zoom onOutreach (enrollConfirmedFollowup (followupInput (or_id record) fstep input content));
          mret (enrolled (followupOutcome (efr_outcome result)) (efr_reason result) campaign input content
                  (efr_record result) (efr_message result) (efr_nextFollowup result) FOLLOW_UP)
    end.

Definition enrollConfirmedSendFromAttempt (lead fromAttempt campaignName : string) (by_ : option string) :
    SM EnrollFromAttemptResult :=
  input ← query (loadEnrollInput fromAttempt);
  match input with
  | None =>
      mret (refused ("send attempt " +:+ fromAttempt +:+ " not found, or it has no finalized draft"))
  | Some input =>
      match confirmedContent input lead with
      | inr reason => mret (refused reason)
      | inl content =>
          known ← query (campaignByName campaignName);
          campaign ← (match known with
                      | Some campaign => mret campaign
                      | None => insertCampaign campaignName policy "UTC"
                      end);
          tracked ← zoom onOutreach (track {| ti_campaignId := cp_id campaign; ti_leadId := lead;
            ti_contactEmail := ei_recipientEmail input; ti_timezone := cp_timezone campaign; ti_owner := by_ |});
          match tracked with
          | (BLOCKED_DO_NOT_CONTACT, _) | (_, None) =>
              mret (refused ("contact " +:+ ei_recipientEmail input +:+ " is on do-not-contact"))
          | (_, Some record) => enrollTracked campaign input content record
          end
      end
  end.
End bridge.
Definition DEFAULT_CAMPAIGN : string := "Production Outreach".
