(* ===== verification/ScheduledRun.v ===== *)
(** * The automated sending run

    [runScheduledSends] (src/domain/send/scheduled-send-runner.ts): the self-healing
    enrolment of confirmed sends, the gates, the capacity and the loop, over the
    effects that the caller injects. *)
From S2P Require Import Prelude.
From S2P Require Import JsText.
From S2P Require Import SendGate.
From S2P Require Import PipelineDb.
From S2P Require Import SendService.
Open Scope Z_scope.
Open Scope list_scope.

Inductive ScheduledRunOutcome :=
  | RAN | MASTER_DISABLED | GATES_DISABLED | TRACKING_DISABLED | NO_AUTHORIZATION | CAP_REACHED.
Inductive EnrollmentOutcome :=
  | EO_ENROLLED | EO_ALREADY_ENROLLED | EO_RECORD_NOT_ENROLLABLE | EO_STEP_MISMATCH | EO_ENROLL_FAILED.
#[global] Instance EnrollmentOutcome_eq_dec : EqDecision EnrollmentOutcome.
Proof. solve_decision. Defined.

Record SendOneResult := {
  so_outcome : SendOutcome; so_attemptId : option string; so_reason : option string;
}.
Record ScheduledRunGates := {
  sg_scheduledSendEnabled : bool; sg_sendingEnabled : bool; sg_outboundActionsEnabled : bool;
  sg_dryRun : bool; sg_providerIsHttp : bool; sg_outreachTrackingEnabled : bool;
}.
Record ConfirmedSend := { cs_leadId : string; cs_attemptId : string }.
Record ValidAuthorization := { va_id : string; va_maxPerDay : Z }.
Record ScheduledRunDeps (DB : Type) := {
  sd_now : M DB Z; sd_gates : ScheduledRunGates; sd_sendingDailyCap : Z;
  sd_findUnenrolledConfirmedSends : M DB (list ConfirmedSend);
  sd_getValidAuthorization : Z → M DB (option ValidAuthorization);
  sd_confirmedSendsToday : Z → M DB Z;
  sd_mintSessionReadiness : string → Z → M DB ();
  sd_dueScheduledLeadIds : Z → Z → M DB (list string);
  sd_sendOne : string → string → M DB SendOneResult;
  sd_enroll : string → string → M DB EnrollmentOutcome;
}.
Arguments sd_now {DB} _.
Arguments sd_gates {DB} _.
Arguments sd_sendingDailyCap {DB} _.
Arguments sd_findUnenrolledConfirmedSends {DB} _.
Arguments sd_getValidAuthorization {DB} _ _.
Arguments sd_confirmedSendsToday {DB} _ _.
Arguments sd_mintSessionReadiness {DB} _ _ _.
Arguments sd_dueScheduledLeadIds {DB} _ _ _.
Arguments sd_sendOne {DB} _ _ _.
Arguments sd_enroll {DB} _ _ _.

Record RecoveryEntry := { re_leadId : string; re_attemptId : string; re_outcome : EnrollmentOutcome }.
Record SentEntry := { se_leadId : string; se_attemptId : string; se_enrollment : EnrollmentOutcome }.
Record UnknownEntry := { ue_leadId : string; ue_attemptId : option string }.
Record FailureEntry := { fl_leadId : string; fl_outcome : SendOutcome; fl_reason : option string }.
Record ScheduledRunReport := {
  sp_outcome : ScheduledRunOutcome; sp_authorizationId : option string; sp_capacity : Z;
  sp_attempted : Z; sp_recovered : list RecoveryEntry; sp_recoveryFailures : list RecoveryEntry;
  sp_sent : list SentEntry; sp_unknown : list UnknownEntry; sp_failures : list FailureEntry;
}.

(** A report of [recoverOne]'s two lists, before anything is sent *)
Definition gateReport (recovery : list RecoveryEntry * list RecoveryEntry) (outcome : ScheduledRunOutcome)
    (authorizationId : option string) (capacity : Z) : ScheduledRunReport :=
  {| sp_outcome := outcome; sp_authorizationId := authorizationId; sp_capacity := capacity;
     sp_attempted := 0; sp_recovered := recovery.1; sp_recoveryFailures := recovery.2; sp_sent := [];
     sp_unknown := []; sp_failures := [] |}.
Definition pushAttempt (r : ScheduledRunReport) (sent : list SentEntry) (unknown : list UnknownEntry)
    (failures : list FailureEntry) : ScheduledRunReport :=
  {| sp_outcome := sp_outcome r; sp_authorizationId := sp_authorizationId r;
     sp_capacity := sp_capacity r; sp_attempted := sp_attempted r + 1;
     sp_recovered := sp_recovered r; sp_recoveryFailures := sp_recoveryFailures r;
     sp_sent := sp_sent r ++ sent; sp_unknown := sp_unknown r ++ unknown;
     sp_failures := sp_failures r ++ failures |}.

Section run.
Context {DB : Type} (deps : ScheduledRunDeps DB).

(** [try { outcome = await deps.enroll(...) } catch { outcome = 'ENROLL_FAILED' }] *)
Definition tryEnroll (leadId attemptId : string) : M DB EnrollmentOutcome :=
  r ← tryCatch (sd_enroll deps leadId attemptId);
  mret match r with Ok outcome => outcome | Throw _ => EO_ENROLL_FAILED end.
Definition recoverOne (p : ConfirmedSend) (acc : list RecoveryEntry * list RecoveryEntry) :
    M DB (list RecoveryEntry * list RecoveryEntry) :=
  outcome ← tryEnroll (cs_leadId p) (cs_attemptId p);
  let entry := {| re_leadId := cs_leadId p; re_attemptId := cs_attemptId p; re_outcome := outcome |} in
  mret (if bool_decide (outcome ∈ [EO_ENROLLED; EO_ALREADY_ENROLLED])
        then (acc.1 ++ [entry], acc.2) else (acc.1, acc.2 ++ [entry])).

(** The loop over the due leads, with its two [break]s *)
Fixpoint sendLoop (capacity : Z) (authId : string) (leadIds : list string) (r : ScheduledRunReport) :
    M DB ScheduledRunReport :=
  match leadIds with
  | [] => mret r
  | leadId :: rest =>
      if capacity <=? Z.of_nat (length (sp_sent r)) then mret r
      else
        one ← sd_sendOne deps leadId authId;
        match so_outcome one, so_attemptId one with
        | SENT_CONFIRMED, Some attemptId =>
            if truthy attemptId then
              enrollment ← tryEnroll leadId attemptId;
              sendLoop capacity authId rest
                (pushAttempt r [{| se_leadId := leadId; se_attemptId := attemptId;
                                   se_enrollment := enrollment |}] [] [])
            else
              sendLoop capacity authId rest
                (pushAttempt r [] [] [{| fl_leadId := leadId; fl_outcome := SENT_CONFIRMED;
                                         fl_reason := so_reason one |}])
        | OUTCOME_UNKNOWN, attemptId =>
            mret (pushAttempt r [] [{| ue_leadId := leadId; ue_attemptId := attemptId |}] [])
        | outcome, _ =>
            sendLoop capacity authId rest
              (pushAttempt r [] [] [{| fl_leadId := leadId; fl_outcome := outcome;
                                       fl_reason := so_reason one |}])
        end
  end.

Definition runScheduledSends : M DB ScheduledRunReport :=
  let g := sd_gates deps in
  nowMs ← sd_now deps;
  recovery ← (if sg_outreachTrackingEnabled g then
                pending ← sd_findUnenrolledConfirmedSends deps;
                fold_each pending recoverOne ([], [])
              else mret ([], []));
  if negb (sg_scheduledSendEnabled g) then mret (gateReport recovery MASTER_DISABLED None 0)
  else if negb (sg_sendingEnabled g) || negb (sg_outboundActionsEnabled g) || sg_dryRun g ||
          negb (sg_providerIsHttp g)
  then mret (gateReport recovery GATES_DISABLED None 0)
  else if negb (sg_outreachTrackingEnabled g) then mret (gateReport recovery TRACKING_DISABLED None 0)
  else
    auth ← sd_getValidAuthorization deps nowMs;
    match auth with
    | None => mret (gateReport recovery NO_AUTHORIZATION None 0)
    | Some auth =>
        sentToday ← sd_confirmedSendsToday deps nowMs;
        let capacity := Z.max 0 (Z.min (sd_sendingDailyCap deps) (va_maxPerDay auth) - sentToday) in
        if capacity <=? 0 then mret (gateReport recovery CAP_REACHED (Some (va_id auth)) capacity)
        else
          sd_mintSessionReadiness deps (va_id auth) nowMs ;;
          leadIds ← sd_dueScheduledLeadIds deps nowMs capacity;
          sendLoop capacity (va_id auth) leadIds (gateReport recovery RAN (Some (va_id auth)) capacity)
    end.
End run.

(** ** What a run reports *)

(** The leads of a report that the run attempted to send to *)
Definition attemptedLeads (r : ScheduledRunReport) : list string :=
  map se_leadId (sp_sent r) ++ map ue_leadId (sp_unknown r) ++ map fl_leadId (sp_failures r).

Section report.
Context {DB : Type} (deps : ScheduledRunDeps DB).

(** The last thing that happened was that sending to [u] had an unknown outcome. *)
Definition stoppedAt (u : UnknownEntry) (w' : world DB) : Prop :=
  ∃ auth w one, sd_sendOne deps (ue_leadId u) auth w = (Ok one, w') ∧ so_outcome one = OUTCOME_UNKNOWN.

(** What the loop over [l] adds to the report [r] *)
Record loopReport (capacity : Z) (l : list string) (r r' : ScheduledRunReport) (w' : world DB) : Prop := {
  lr_outcome : sp_outcome r' = sp_outcome r ∧ sp_capacity r' = sp_capacity r ∧
    sp_authorizationId r' = sp_authorizationId r ∧ sp_recovered r' = sp_recovered r ∧
    sp_recoveryFailures r' = sp_recoveryFailures r;
  lr_attempted : ∃ k, (k <= length l)%nat ∧ sp_attempted r' = sp_attempted r + Z.of_nat k ∧
    attemptedLeads r' ≡ₚ attemptedLeads r ++ take k l;
  lr_sent : Z.of_nat (length (sp_sent r')) <= Z.max capacity (Z.of_nat (length (sp_sent r)));
  lr_unknown : sp_unknown r' = [] ∨ ∃ u, sp_unknown r' = [u] ∧ stoppedAt u w';
}.

Lemma loopReport_stop capacity l r w : sp_unknown r = [] → loopReport capacity l r r w.
Proof using Type.
  constructor; [done| |lia|by left]. exists 0%nat. simpl. rewrite app_nil_r. split_and!; [lia|lia|done].
Qed.
Lemma loopReport_step capacity lead l r sent failures r' w' :
  map se_leadId sent ++ map fl_leadId failures = [lead] →
  Z.of_nat (length (sp_sent r ++ sent)) <= Z.max capacity (Z.of_nat (length (sp_sent r))) →
  loopReport capacity l (pushAttempt r sent [] failures) r' w' → loopReport capacity (lead :: l) r r' w'.
Proof using Type.
  intros Hone Hcap [Ho (k & Hk & Ha & Hp) Hs Hu]. constructor; [exact Ho| |simpl in Hs; lia|exact Hu].
  exists (S k). simpl in *. split_and!; [lia|lia|]. rewrite Hp. unfold attemptedLeads. simpl.
  rewrite app_nil_r, !map_app, (cons_middle lead), <-Hone. solve_Permutation.
Qed.

Lemma sendLoop_report capacity authId l r w :
  sp_unknown r = [] → wp (sendLoop deps capacity authId l r) (λ r' w', loopReport capacity l r r' w') w.
Proof using Type.
  revert r w. induction l as [|lead l IH]; intros r w Hu; simpl.
  { rewrite wp_ret. by apply loopReport_stop. }
  destruct (Z.leb_spec capacity (Z.of_nat (length (sp_sent r)))) as [|Hroom].
  { rewrite wp_ret. by apply loopReport_stop. }
  rewrite wp_bind. eapply wp_mono; [|apply wp_self]. simpl. intros one w1 Hrun.
  assert (∀ entry w2, fl_leadId entry = lead →
    wp (sendLoop deps capacity authId l (pushAttempt r [] [] [entry]))
       (λ r' w', loopReport capacity (lead :: l) r r' w') w2) as Hfail.
  { intros entry w2 He. eapply wp_mono; [|apply IH; simpl; by rewrite Hu].
    intros r' w'. apply loopReport_step; [simpl; by rewrite He|rewrite app_nil_r; lia]. }
  destruct (so_outcome one) eqn:Eo; try by apply Hfail.
  - destruct (so_attemptId one) as [a|]; [|by apply Hfail]. destruct (truthy a); [|by apply Hfail].
    rewrite wp_bind. eapply (wp_mono _ (λ _ _, True)); [|unfold wp; by repeat case_match].
    intros enrollment w2 _. eapply wp_mono; [|apply IH; simpl; by rewrite Hu].
    intros r' w'. apply loopReport_step; [done|]. rewrite length_app. simpl. lia.
  - rewrite wp_ret. constructor; [done| |simpl; rewrite app_nil_r; lia|].
    + exists 1%nat. unfold attemptedLeads. simpl. rewrite Hu, !app_nil_r. simpl.
      split_and!; [lia|lia|solve_Permutation].
    + right. eexists. simpl. rewrite Hu. split; [reflexivity|]. by exists authId, w, one.
Qed.
End report.

(** ** The whole run *)

Section whole.
Context {DB : Type} (deps : ScheduledRunDeps DB).

Definition gatesOpen : bool :=
  let g := sd_gates deps in
  sg_scheduledSendEnabled g && sg_sendingEnabled g && sg_outboundActionsEnabled g && negb (sg_dryRun g) &&
  sg_providerIsHttp g && sg_outreachTrackingEnabled g.

(** What the run was told before it sent *)
Definition foundAuthorization (nowMs : Z) (auth : ValidAuthorization) (sentToday : Z)
    (leadIds : list string) (capacity : Z) : Prop :=
  ∃ w1 w2 w3, (sd_getValidAuthorization deps nowMs w1).1 = Ok (Some auth) ∧
    (sd_confirmedSendsToday deps nowMs w2).1 = Ok sentToday ∧
    (sd_dueScheduledLeadIds deps nowMs capacity w3).1 = Ok leadIds.
Definition entryOf (p : ConfirmedSend) : string * string := (cs_leadId p, cs_attemptId p).
Definition entryKey (e : RecoveryEntry) : string * string := (re_leadId e, re_attemptId e).
(** Every confirmed send that was pending was enrolled or is reported as failed, each once
    and in the right list. *)
Definition recoveredAll (recovery : list RecoveryEntry * list RecoveryEntry) : Prop :=
  ∃ pending, map entryKey (recovery.1 ++ recovery.2) ≡ₚ map entryOf pending ∧
    (∀ e, e ∈ recovery.1 → re_outcome e ∈ [EO_ENROLLED; EO_ALREADY_ENROLLED]) ∧
    (∀ e, e ∈ recovery.2 → re_outcome e ∉ [EO_ENROLLED; EO_ALREADY_ENROLLED]) ∧
    if sg_outreachTrackingEnabled (sd_gates deps)
    then ∃ w, (sd_findUnenrolledConfirmedSends deps w).1 = Ok pending else pending = [].

(** What a returned report says about the run *)
Record runReport (r : ScheduledRunReport) (w' : world DB) : Prop := {
  rr_capacity : 0 <= sp_capacity r ∧ Z.of_nat (length (sp_sent r)) <= sp_capacity r;
  rr_attempted : sp_attempted r = Z.of_nat (length (attemptedLeads r));
  rr_idle : sp_outcome r ≠ RAN → attemptedLeads r = [];
  rr_ran : sp_outcome r = RAN → gatesOpen = true ∧
    ∃ nowMs auth sentToday leadIds, foundAuthorization nowMs auth sentToday leadIds (sp_capacity r) ∧
      sp_authorizationId r = Some (va_id auth) ∧
      0 < sp_capacity r ∧
      sp_capacity r = Z.min (sd_sendingDailyCap deps) (va_maxPerDay auth) - sentToday ∧
      attemptedLeads r ≡ₚ take (Z.to_nat (sp_attempted r)) leadIds;
  rr_recovered : recoveredAll (sp_recovered r, sp_recoveryFailures r);
  rr_unknown : ∀ u, u ∈ sp_unknown r → sp_unknown r = [u] ∧ stoppedAt deps u w';
}.

Lemma gateReport_idle recovery outcome auth capacity w :
  outcome ≠ RAN → 0 <= capacity → recoveredAll recovery →
  runReport (gateReport recovery outcome auth capacity) w.
Proof using Type.
  intros Ho Hc Hr. constructor; simpl; try done. by intros u ?%not_elem_of_nil.
Qed.

(** The part of the run after the recovery *)
Definition sendPhase (nowMs : Z) (recovery : list RecoveryEntry * list RecoveryEntry) :
    M DB ScheduledRunReport :=
  auth ← sd_getValidAuthorization deps nowMs;
  match auth with
  | None => mret (gateReport recovery NO_AUTHORIZATION None 0)
  | Some auth =>
      sentToday ← sd_confirmedSendsToday deps nowMs;
      let capacity := Z.max 0 (Z.min (sd_sendingDailyCap deps) (va_maxPerDay auth) - sentToday) in
      if capacity <=? 0 then mret (gateReport recovery CAP_REACHED (Some (va_id auth)) capacity)
      else
        sd_mintSessionReadiness deps (va_id auth) nowMs ;;
        leadIds ← sd_dueScheduledLeadIds deps nowMs capacity;
        sendLoop deps capacity (va_id auth) leadIds (gateReport recovery RAN (Some (va_id auth)) capacity)
  end.

Lemma wp_sendPhase nowMs recovery w :
  gatesOpen = true → recoveredAll recovery → wp (sendPhase nowMs recovery) runReport w.
Proof using Type.
  intros Hg Hrec. unfold sendPhase. rewrite wp_bind. eapply wp_mono; [|apply wp_self].
  intros [auth|] w1 Hauth; [|rewrite wp_ret; by apply gateReport_idle].
  rewrite wp_bind. eapply wp_mono; [|apply wp_self]. intros sentToday w2 Htoday. cbv zeta.
  set (capacity := Z.max 0 _). destruct (Z.leb_spec capacity 0) as [|Hcap].
  { rewrite wp_ret. apply gateReport_idle; [done|lia|done]. }
  rewrite wp_bind. eapply wp_mono; [|apply wp_self]. intros _ w3 _.
  rewrite wp_bind. eapply wp_mono; [|apply wp_self]. intros leadIds w4 Hdue.
  eapply wp_mono; [|by apply sendLoop_report].
  intros r' w' [(Ho & Hc & Hid & Hr1 & Hr2) (k & Hk & Ha & Hp) Hs Hu]. simpl in *.
  assert (length (attemptedLeads r') = k) as Hlen.
  { rewrite Hp. unfold attemptedLeads. simpl. rewrite length_take. lia. }
  constructor.
  - rewrite Hc. lia.
  - lia.
  - by rewrite Ho.
  - intros _. rewrite Hc. split; [done|]. exists nowMs, auth, sentToday, leadIds. split_and!.
    + exists w, w1, w3. by rewrite Hauth, Htoday, Hdue.
    + done.
    + lia.
    + unfold capacity in *. lia.
    + replace (Z.to_nat (sp_attempted r')) with k by lia. exact Hp.
  - rewrite Hr1, Hr2. by destruct recovery.
  - destruct Hu as [->|(u & -> & Hstop)]; [by intros ? ?%not_elem_of_nil|].
    by intros u' ->%list_elem_of_singleton.
Qed.

Definition recoverPhase : M DB (list RecoveryEntry * list RecoveryEntry) :=
  if sg_outreachTrackingEnabled (sd_gates deps) then
    pending ← sd_findUnenrolledConfirmedSends deps;
    fold_each pending (recoverOne deps) ([], [])
  else mret ([], []).
Lemma recoverOne_entry p acc w :
  wp (recoverOne deps p acc) (λ acc' _, ∃ outcome,
    let entry := {| re_leadId := cs_leadId p; re_attemptId := cs_attemptId p; re_outcome := outcome |} in
    acc' = if bool_decide (outcome ∈ [EO_ENROLLED; EO_ALREADY_ENROLLED])
           then (acc.1 ++ [entry], acc.2) else (acc.1, acc.2 ++ [entry])) w.
Proof using Type. unfold recoverOne. rewrite wp_bind. unfold wp at 1. case_match. case_match; by eexists. Qed.
Lemma wp_recoverPhase w : wp recoverPhase (λ recovery _, recoveredAll recovery) w.
Proof using Type.
  unfold recoverPhase, recoveredAll. destruct (sg_outreachTrackingEnabled _).
  2: { rewrite wp_ret. exists []. split_and!; [done|by intros ? ?%not_elem_of_nil..|done]. }
  rewrite wp_bind. eapply wp_mono; [|apply wp_self]. intros pending w1 Hfind.
  apply (wp_fold_each _ _ (λ rest acc _, ∃ done_, pending = done_ ++ rest ∧
    map entryKey (acc.1 ++ acc.2) ≡ₚ map entryOf done_ ∧
    (∀ e, e ∈ acc.1 → re_outcome e ∈ [EO_ENROLLED; EO_ALREADY_ENROLLED]) ∧
    (∀ e, e ∈ acc.2 → re_outcome e ∉ [EO_ENROLLED; EO_ALREADY_ENROLLED]))).
  - exists []. split_and!; [done|done|by intros ? ?%not_elem_of_nil..].
  - intros p rest acc w2 (done_ & -> & Hp & H1 & H2). eapply wp_mono; [|apply recoverOne_entry].
    intros acc' w3 (outcome & ->). set (entry := Build_RecoveryEntry _ _ _).
    exists (done_ ++ [p]). split; [by rewrite <-app_assoc|]. rewrite !map_app in Hp |- *.
    case_bool_decide; simpl; rewrite !map_app, <-Hp; simpl; (split; [solve_Permutation|]).
    + split; [|done]. by intros e [?%H1| ->%list_elem_of_singleton]%elem_of_app.
    + split; [done|]. by intros e [?%H2| ->%list_elem_of_singleton]%elem_of_app.
  - intros acc w2 (done_ & -> & Hp & H1 & H2). rewrite app_nil_r in Hfind. exists done_. split_and!; [done..|].
    exists w. by rewrite Hfind.
Qed.
(** The run is the recovery, then the send phase behind the gates. *)
Lemma runScheduledSends_phases :
  ∃ closed, closed ≠ RAN ∧
    runScheduledSends deps =
    (nowMs ← sd_now deps; recovery ← recoverPhase;
     if gatesOpen then sendPhase nowMs recovery else mret (gateReport recovery closed None 0)).
Proof using Type.
  unfold runScheduledSends, gatesOpen, recoverPhase.
  destruct (sd_gates deps) as [[] [] [] [] [] []]; simpl;
    first [exists MASTER_DISABLED; split; [done|]; reflexivity
          |exists GATES_DISABLED; split; [done|]; reflexivity
          |exists TRACKING_DISABLED; split; [done|]; reflexivity].
Qed.

Lemma wp_runScheduledSends w : wp (runScheduledSends deps) runReport w.
Proof using Type.
  destruct runScheduledSends_phases as (closed & Hclosed & ->).
  rewrite wp_bind. eapply wp_mono; [|apply wp_self]. intros nowMs w1 _.
  rewrite wp_bind. eapply wp_mono; [|apply wp_recoverPhase]. intros recovery w2 Hrec.
  destruct gatesOpen eqn:Hg; [by apply wp_sendPhase|]. rewrite wp_ret. by apply gateReport_idle.
Qed.

Context (R : relation DB) `{!PreOrder R}.

Lemma always_recovery :
  always R (sd_findUnenrolledConfirmedSends deps) → (∀ l a, always R (sd_enroll deps l a)) →
  always R recoverPhase.
Proof using Type*.
  intros Hfind Henroll. unfold recoverPhase. case_match; [|apply (always_ret R)].
  apply (always_bind R); [done|]. intros pending. apply (always_fold_each R). intros p acc _.
  unfold recoverOne, tryEnroll. always_tac.
Qed.

(** With a gate closed the run does nothing but the recovery. *)
Lemma closed_run_recovers :
  gatesOpen = false → always R (sd_now deps) → always R (sd_findUnenrolledConfirmedSends deps) →
  (∀ l a, always R (sd_enroll deps l a)) → always R (runScheduledSends deps).
Proof using Type*.
  intros Hg Hnow Hfind Henroll. destruct runScheduledSends_phases as (closed & _ & ->).
  rewrite Hg. apply (always_bind R); [done|]. intros nowMs.
  apply (always_bind R); [by apply always_recovery|]. intros recovery. apply (always_ret R).
Qed.

(** Every effect of a run is one of its dependencies'. *)
Lemma always_sendLoop capacity authId l r :
  (∀ lead a, always R (sd_sendOne deps lead a)) → (∀ lead a, always R (sd_enroll deps lead a)) →
  always R (sendLoop deps capacity authId l r).
Proof using Type*.
  intros Hsend Henroll. revert r. induction l as [|lead l IH]; intros r; simpl; [apply (always_ret R)|].
  case_match; [apply (always_ret R)|]. apply (always_bind R); [done|]. intros one.
  unfold tryEnroll. repeat first [apply IH|always_step|case_match|by apply Henroll].
Qed.
Lemma always_run :
  always R (sd_now deps) → always R (sd_findUnenrolledConfirmedSends deps) →
  (∀ n, always R (sd_getValidAuthorization deps n)) → (∀ n, always R (sd_confirmedSendsToday deps n)) →
  (∀ a n, always R (sd_mintSessionReadiness deps a n)) →
  (∀ n l, always R (sd_dueScheduledLeadIds deps n l)) → (∀ l a, always R (sd_sendOne deps l a)) →
  (∀ l a, always R (sd_enroll deps l a)) → always R (runScheduledSends deps).
Proof using Type*.
  intros Hnow Hfind Hauth Htoday Hmint Hdue Hsend Henroll.
  destruct runScheduledSends_phases as (closed & _ & ->).
  apply (always_bind R); [done|]. intros nowMs. apply (always_bind R); [by apply always_recovery|].
  intros recovery. case_match; [|apply (always_ret R)]. unfold sendPhase.
  repeat first [by auto using always_sendLoop|always_step|case_match].
Qed.
End whole.

(** ** What a run keeps *)

(** An invariant of the database, as a relation *)
Definition kept {DB} (I : DB → Prop) : relation DB := λ db db', I db → I db'.
#[global] Instance kept_preorder {DB} (I : DB → Prop) : PreOrder (kept I).
Proof. unfold kept. split; [by intros db|]. intros db1 db2 db3 H1 H2 Hdb. by apply H2, H1. Qed.

(** A run that is only ever given leads of [P] keeps what sending to these keeps. *)
Section keeping.
Context {DB : Type} `{Runtime} (deps : ScheduledRunDeps DB) (I : DB → Prop) (P : string → Prop).

Lemma kept_sendLoop capacity authId l r :
  (∀ lead a, P lead → always (kept I) (sd_sendOne deps lead a)) →
  (∀ lead a, always (kept I) (sd_enroll deps lead a)) → Forall P l →
  always (kept I) (sendLoop deps capacity authId l r).
Proof using Type.
  intros Hsend Henroll Hl. revert r. induction Hl as [|lead l Hlead _ IH]; intros r; simpl;
    [apply (always_ret _)|].
  case_match; [apply (always_ret _)|]. apply (always_bind _); [by apply Hsend|]. intros one.
  unfold tryEnroll. repeat first [apply IH|always_step|case_match|by apply Henroll].
Qed.
Lemma kept_run :
  always (kept I) (sd_now deps) → always (kept I) (sd_findUnenrolledConfirmedSends deps) →
  (∀ n, always (kept I) (sd_getValidAuthorization deps n)) →
  (∀ n, always (kept I) (sd_confirmedSendsToday deps n)) →
  (∀ n w, wp (sd_confirmedSendsToday deps n) (λ sent _, 0 <= sent) w) →
  (∀ a n, always (kept I) (sd_mintSessionReadiness deps a n)) →
  (∀ n l, always (kept I) (sd_dueScheduledLeadIds deps n l)) →
  (∀ n l w, I (w_db w) → 0 < l <= sd_sendingDailyCap deps →
     wp (sd_dueScheduledLeadIds deps n l) (λ ids _, Forall P ids) w) →
  (∀ lead a, P lead → always (kept I) (sd_sendOne deps lead a)) →
  (∀ lead a, always (kept I) (sd_enroll deps lead a)) → always (kept I) (runScheduledSends deps).
Proof using Type.
  intros Hnow Hfind Hauth Htoday Hpos Hmint Hdue Hids Hsend Henroll.
  destruct (runScheduledSends_phases deps) as (closed & _ & ->).
  apply (always_bind _); [done|]. intros nowMs.
  apply (always_bind _); [by apply (always_recovery _ _)|]. intros recovery.
  case_match; [|apply (always_ret _)]. unfold sendPhase.
  apply (always_bind _); [done|]. intros [auth|]; [|apply (always_ret _)].
  apply always_awp. intros w. rewrite awp_bind. pose proof (Hpos nowMs w) as Hp. pose proof (Htoday nowMs w) as Hk.
  unfold wp in Hp. unfold awp at 1. destruct (sd_confirmedSendsToday _ _ w) as [[sent|e] w1]; [|exact Hk].
  simpl in Hk. set (capacity := Z.max 0 _). destruct (Z.leb_spec capacity 0); [exact Hk|].
  rewrite awp_bind. eapply awp_mono; [| |apply (awp_always _ _ w1 (Hmint (va_id auth) nowMs))]; simpl.
  2: { intros w2 K. by etrans. }
  intros _ w2 K. rewrite awp_bind. pose proof (Hids nowMs capacity w2) as Hi. pose proof (Hdue nowMs capacity w2) as K2.
  unfold wp in Hi. unfold awp at 1. destruct (sd_dueScheduledLeadIds _ _ _ w2) as [[ids|e] w3]; simpl in K2.
  2: { etrans; [exact Hk|]. by etrans. }
  assert (kept I (w_db w) (w_db w3)) as K3 by (etrans; [exact Hk|]; by etrans).
  set (report := gateReport recovery RAN _ capacity).
  destruct (sendLoop deps capacity (va_id auth) ids report w3) as [r w4] eqn:Eloop.
  assert (kept I (w_db w) (w_db w4)) as K4; [|unfold awp; rewrite Eloop; by destruct r].
  intros HI. assert (Forall P ids) as Hall by (apply Hi; [apply K, Hk, HI|unfold capacity in *; lia]).
  pose proof (kept_sendLoop capacity (va_id auth) ids report
    Hsend Henroll Hall w3) as K5. rewrite Eloop in K5. by apply K5, K3.
Qed.
End keeping.

(** ** The run returns *)

(** The effects that the run does not guard with a [try] return. *)
Record depsReturn {DB} (deps : ScheduledRunDeps DB) : Prop := {
  dr_now : returns (sd_now deps); dr_find : returns (sd_findUnenrolledConfirmedSends deps);
  dr_auth : ∀ n, returns (sd_getValidAuthorization deps n);
  dr_today : ∀ n, returns (sd_confirmedSendsToday deps n);
  dr_mint : ∀ a n, returns (sd_mintSessionReadiness deps a n);
  dr_due : ∀ n l, returns (sd_dueScheduledLeadIds deps n l);
  dr_sendOne : ∀ l a, returns (sd_sendOne deps l a);
}.
Section returning.
Context {DB : Type} `{Runtime} (deps : ScheduledRunDeps DB) (Hdeps : depsReturn deps).

Lemma sendLoop_returns capacity authId l r : returns (sendLoop deps capacity authId l r).
Proof using Hdeps.
  revert r. induction l as [|lead l IH]; intros r; simpl; [returns_tac|].
  pose proof (dr_sendOne _ Hdeps). unfold tryEnroll.
  repeat first [apply IH|solve [auto]|returns_step|case_match].
Qed.
Lemma runScheduledSends_returns : returns (runScheduledSends deps).
Proof using Hdeps.
  destruct (runScheduledSends_phases deps) as (closed & _ & ->). destruct Hdeps as [H1 H2 H3 H4 H5 H6 _].
  pose proof sendLoop_returns. unfold recoverPhase, recoverOne, tryEnroll, sendPhase. returns_tac.
Qed.

(** C23: An unattended run accounts for everything: as long as the database and the
    sending answer, it returns, even if every enrolment throws.  Its report lists each
    send that was pending enrolment exactly once, as enrolled or failed; nothing is
    attempted unless every gate is open and an authorization was found, whose cap and
    the daily cap bound what is sent together with what was sent today; the attempted
    leads are the first due ones, each counted once; and an unknown outcome ends the
    run there. *)
Theorem scheduled_run_accounts w : twp (runScheduledSends deps) (runReport deps) w.
Proof using Hdeps. apply returns_twp; [apply runScheduledSends_returns|apply wp_runScheduledSends]. Qed.
End returning.

(** ** Witness *)

(** Three due leads, two sends allowed today of which one was made, a send of yesterday
    whose enrolment throws; sending to the first lead is refused. *)
Definition demoDeps : ScheduledRunDeps () :=
  {| sd_now := mret 0;
     sd_gates := {| sg_scheduledSendEnabled := true; sg_sendingEnabled := true;
       sg_outboundActionsEnabled := true; sg_dryRun := false; sg_providerIsHttp := true;
       sg_outreachTrackingEnabled := true |};
     sd_sendingDailyCap := 3;
     sd_findUnenrolledConfirmedSends := mret [{| cs_leadId := "l0"; cs_attemptId := "a0" |}];
     sd_getValidAuthorization _ := mret (Some {| va_id := "au"; va_maxPerDay := 5 |});
     sd_confirmedSendsToday _ := mret 1; sd_mintSessionReadiness _ _ := mret tt;
     sd_dueScheduledLeadIds _ limit := mret (take (Z.to_nat limit) ["l1"; "l2"; "l3"]);
     sd_sendOne lead _ := mret {| so_outcome := if String.eqb lead "l1" then NOT_DUE else SENT_CONFIRMED;
       so_attemptId := Some "a1"; so_reason := None |};
     sd_enroll _ attempt := throw (JsError "no record") |}.
Lemma demoDeps_return : depsReturn demoDeps.
Proof. by split. Qed.
Lemma scheduled_run_accounts_witness :
  ∃ r w', runScheduledSends demoDeps (World tt 0 0) = (Ok r, w') ∧ runReport demoDeps r w' ∧
    map fl_leadId (sp_failures r) = ["l1"] ∧ map se_leadId (sp_sent r) = ["l2"] ∧
    map re_attemptId (sp_recoveryFailures r) = ["a0"].
Proof.
  pose proof (scheduled_run_accounts demoDeps demoDeps_return (World tt 0 0)) as Hrun.
  apply twp_returns in Hrun as (r & w' & Hrun & Hreport). exists r, w'.
  split; [exact Hrun|]. split; [exact Hreport|]. revert Hrun. vm_compute. intros [= <- _].
  split; [reflexivity|]. split; reflexivity.
Defined.
