(* ===== verification/ScheduledCommand.v ===== *)
(** * The command that sends unattended

    [runScheduledSendsCommand] (src/cli/commands/run-scheduled-sends.ts) with
    [buildSendConfig] (send-build.ts): the effects of the automated run, wired to the
    database and the services.  The lazily created run row is part of a session's
    state; the provider and what other processes do meanwhile are parameters.  At the end is a
    small database with one approved, scheduled draft, about which the witnesses of
    ScheduledSafety and its neighbours are stated. *)
From S2P Require Import Prelude.
From S2P Require Import JsText.
From S2P Require Import TimeZone.
From S2P Require Import OutreachStatus.
From S2P Require Import OutreachGates.
From S2P Require Import OutreachStore.
From S2P Require Import LeadLifecycle.
From S2P Require Import PipelineDb.
From S2P Require Import SendGate.
From S2P Require Import SendService.
From S2P Require Import SystemDb.
From S2P Require Import EnrollBridge.
From S2P Require Import ScheduledRun.
From S2P Require Import SendSafety.
Open Scope Z_scope.
Open Scope list_scope.

(** The variables of the environment that the command reads *)
Record AppConfig := {
  ac_GMAIL_ACCOUNT_EMAIL : option string; ac_GMAIL_SENDER_NAME : option string;
  ac_SENDING_POLICY_VERSION : string; ac_SCHEDULED_SEND_ENABLED : bool; ac_SENDING_ENABLED : bool;
  ac_OUTBOUND_ACTIONS_ENABLED : bool; ac_DRY_RUN : bool; ac_SENDING_PROVIDER_http : bool;
  ac_OUTREACH_TRACKING_ENABLED : bool; ac_SENDING_DAILY_CAP : Z; ac_SENDING_MAX_LATE_MINUTES : Z;
  ac_SENDING_CONFIRMATION_TTL_SECONDS : Z; ac_SCHEDULED_SEND_SESSION_READINESS_MINUTES : Z;
  ac_sequencePolicy : SequencePolicy;
}.
Definition buildSendConfig (c : AppConfig) : SendConfig :=
  {| cfg_gmailAccount := default "mock@example.com" (ac_GMAIL_ACCOUNT_EMAIL c);
     cfg_senderName := ac_GMAIL_SENDER_NAME c; cfg_policyVersion := ac_SENDING_POLICY_VERSION c;
     cfg_sendingEnabled := ac_SENDING_ENABLED c; cfg_outboundActionsEnabled := ac_OUTBOUND_ACTIONS_ENABLED c;
     cfg_dryRun := ac_DRY_RUN c; cfg_maxLateMs := ac_SENDING_MAX_LATE_MINUTES c * 60000;
     cfg_confirmationTtlMs := ac_SENDING_CONFIRMATION_TTL_SECONDS c * 1000;
     cfg_dailyCap := ac_SENDING_DAILY_CAP c |}.

(** The database, and the variable [runId] of the command *)
Record Session := { sessionDb : SystemDb; sessionRunId : option string }.
Definition onDb : lens Session SystemDb := Lens sessionDb (λ db s,
  {| sessionDb := db; sessionRunId := sessionRunId s |}).
Definition setRunId (id : string) (s : Session) : Session :=
  {| sessionDb := sessionDb s; sessionRunId := Some id |}.

Section command.
Context `{Runtime, TzDatabase, OrmErrors, SendProvider} (c : AppConfig).
(** [buildSendProvider] throws when the credentials are missing. *)
Context (buildSendProvider : res ()) (interfere : nat → PM ()).

(** [c.GMAIL_ACCOUNT_EMAIL?.trim().toLowerCase() ?? ''] *)
Definition runnerAccount : string := default "" (normalizeEmail <$> ac_GMAIL_ACCOUNT_EMAIL c).

Definition getRunId : M Session string :=
  known ← query sessionRunId;
  match known with
  | Some id => mret id
  | None =>
      id ← zoom onDb (startRun "send:scheduled-auto" (ac_DRY_RUN c));
      modify (setRunId id) ;;
      mret id
  end.

Definition notSent (outcome : SendOutcome) (reason : option string) : SendOneResult :=
  {| so_outcome := outcome; so_attemptId := None; so_reason := reason |}.
(** The final check of a follow-up against the outreach state *)
Definition suppressedFollowup (ctx : option PendingSendContext) : option string :=
  match ctx with
  | Some s =>
      if 0 <? psc_sequenceStep s then
        match isFollowupStep (psc_sequenceStep s) with
        | None => Some ("unknown_sequence_step:" +:+ pretty (psc_sequenceStep s))
        | Some step =>
            match checkFollowupSendAllowed {| ss_status := psc_outreachStatus s;
                    ss_doNotContact := psc_outreachDoNotContact s; ss_preparedStep := step |} with
            | SendAllowed _ => None
            | SendBlocked reason detail => Some (reason +:+ ":" +:+ detail)
            end
        end
      else None
  | None => None
  end.
Definition baseInput (leadId : string) (lead : Lead) (data : SendInputData)
    (confirmation : option ConfirmationView) (proof : option PreflightProof) : SendInput :=
  {| in_leadId := leadId; in_leadStatus := leadStatusText (ld_status lead); in_schedule := sid_schedule data;
     in_currentGmailDraft := sid_currentGmailDraft data; in_finalization := sid_finalization data;
     in_currentFinalizedContentHash := sid_currentFinalizedContentHash data;
     in_currentRecipientEmail := sid_currentRecipientEmail data; in_subject := sid_subject data;
     in_normalizedDomain := sid_normalizedDomain data; in_normalizedPhone := sid_normalizedPhone data;
     in_placeId := sid_placeId data; in_confirmation := confirmation; in_preflightProof := proof |}.

(** The attempts and the sends are the service's; the database of the session is around them. *)
Definition onSending {A} (m : PM A) : M Session A := zoom onDb (zoom onPipeline m).

Definition sendOne (leadId authorizationId : string) : M Session SendOneResult :=
  lead ← onSending (getLead leadId);
  data ← query (λ s, latestSendInput leadId (sessionDb s));
  match lead, sid_schedule data with
  | Some lead, Some _ =>
      seqCtx ← query (λ s, pendingSendContext leadId (sessionDb s));
      match suppressedFollowup seqCtx with
      | Some reason => mret (notSent OUTREACH_SUPPRESSED (Some reason))
      | None =>
          lift_res buildSendProvider ;;
          let svc := buildSendConfig c in
          preflight ← onSending (preflight svc SCHEDULED_SOURCE (baseInput leadId lead data None None));
          match out_outcome preflight, out_preflightProof preflight with
          | READY, Some proof =>
              confirmedAtMs ← now;
              runId ← getRunId;
              result ← onSending (send svc SCHEDULED_SOURCE interfere
                (baseInput leadId lead data
                   (Some {| cf_observedSendFingerprint := pp_sendFingerprint proof;
                            cf_confirmedBy := "scheduler:" +:+ authorizationId;
                            cf_confirmedAtMs := confirmedAtMs |}) (Some proof)) runId);
              attemptId ← (match out_outcome result with
                | SENT_CONFIRMED => query (λ s, latestConfirmedAttemptId leadId (sessionDb s))
                | OUTCOME_UNKNOWN => query (λ s, latestUnknownAttemptId leadId (sessionDb s))
                | _ => mret None
                end);
              mret {| so_outcome := out_outcome result; so_attemptId := attemptId;
                      so_reason := out_reason result |}
          | outcome, _ => mret (notSent outcome (out_reason preflight))
          end
      end
  | _, _ => mret (notSent INVALID_ELIGIBILITY (Some "no_active_schedule"))
  end.

Definition enrollOutcome (o : EnrollFromAttemptOutcome) : EnrollmentOutcome :=
  match o with
  | EA_ENROLLED => EO_ENROLLED | EA_ALREADY_ENROLLED => EO_ALREADY_ENROLLED
  | EA_RECORD_NOT_ENROLLABLE => EO_RECORD_NOT_ENROLLABLE | EA_STEP_MISMATCH => EO_STEP_MISMATCH
  | EA_REFUSED => EO_ENROLL_FAILED
  end.
Definition enroll (leadId attemptId : string) : M Session EnrollmentOutcome :=
  r ← zoom onDb (enrollConfirmedSendFromAttempt (ac_sequencePolicy c) leadId attemptId DEFAULT_CAMPAIGN
                   (Some "scheduler"));
  mret (enrollOutcome (ear_outcome r)).

Definition validAuthorization (nowMs : Z) (db : SystemDb) : option ValidAuthorization :=
  auth ← activeAuthorization runnerAccount (ac_SENDING_POLICY_VERSION c) db;
  if isAuthorizationValid auth nowMs runnerAccount (ac_SENDING_POLICY_VERSION c)
  then Some {| va_id := au_id auth; va_maxPerDay := au_maxPerDay auth |} else None.

Definition scheduledRunDeps : ScheduledRunDeps Session :=
  {| sd_now := now;
     sd_gates := {| sg_scheduledSendEnabled := ac_SCHEDULED_SEND_ENABLED c;
       sg_sendingEnabled := ac_SENDING_ENABLED c; sg_outboundActionsEnabled := ac_OUTBOUND_ACTIONS_ENABLED c;
       sg_dryRun := ac_DRY_RUN c; sg_providerIsHttp := ac_SENDING_PROVIDER_http c;
       sg_outreachTrackingEnabled := ac_OUTREACH_TRACKING_ENABLED c |};
     sd_sendingDailyCap := ac_SENDING_DAILY_CAP c;
     sd_findUnenrolledConfirmedSends := query (λ s,
       map (λ p, {| cs_leadId := p.1; cs_attemptId := p.2 |}) (unenrolledConfirmedSends 50 (sessionDb s)));
     sd_getValidAuthorization nowMs := query (λ s, validAuthorization nowMs (sessionDb s));
     sd_confirmedSendsToday nowMs := onSending (confirmedSendsToday runnerAccount nowMs);
     sd_mintSessionReadiness authorizationId nowMs :=
       _ ← zoom onDb (mintSessionReadiness runnerAccount (ac_SENDING_POLICY_VERSION c) authorizationId nowMs
             (nowMs + ac_SCHEDULED_SEND_SESSION_READINESS_MINUTES c * 60000));
       mret tt;
     sd_dueScheduledLeadIds nowMs limit := query (λ s, dueScheduledLeadIds nowMs limit (sessionDb s));
     sd_sendOne := sendOne; sd_enroll := enroll |}.

Definition runOutcomeText (o : ScheduledRunOutcome) : string :=
  match o with
  | RAN => "RAN" | MASTER_DISABLED => "MASTER_DISABLED" | GATES_DISABLED => "GATES_DISABLED"
  | TRACKING_DISABLED => "TRACKING_DISABLED" | NO_AUTHORIZATION => "NO_AUTHORIZATION"
  | CAP_REACHED => "CAP_REACHED"
  end.
Definition runScheduledSendsCommand : M Session ScheduledRunReport :=
  report ← runScheduledSends scheduledRunDeps;
  runId ← query sessionRunId;
  (match runId with
   | Some id => zoom onDb (finishRun id "COMPLETED" (Some (runOutcomeText (sp_outcome report))))
   | None => mret tt
   end) ;;
  mret report.
(** One invocation: [runId] is [null] when the command starts. *)
Definition scheduledSendsInvocation : SM ScheduledRunReport := λ w,
  let (r, w') := runScheduledSendsCommand
                   (World {| sessionDb := w_db w; sessionRunId := None |} (w_ticks w) (w_uuids w)) in
  (r, World (sessionDb (w_db w')) (w_ticks w') (w_uuids w')).
End command.

#[local] Existing Instance demo_runtime.
#[local] Existing Instance demo_tz.
#[local] Existing Instance demo_orm.
#[local] Existing Instance demo_provider.

Definition demoAppConfig (account : string) (enabled : bool) : AppConfig :=
  {| ac_GMAIL_ACCOUNT_EMAIL := Some account; ac_GMAIL_SENDER_NAME := Some "Ada";
     ac_SENDING_POLICY_VERSION := "v1"; ac_SCHEDULED_SEND_ENABLED := enabled; ac_SENDING_ENABLED := true;
     ac_OUTBOUND_ACTIONS_ENABLED := true; ac_DRY_RUN := false; ac_SENDING_PROVIDER_http := true;
     ac_OUTREACH_TRACKING_ENABLED := true; ac_SENDING_DAILY_CAP := 1; ac_SENDING_MAX_LATE_MINUTES := 60;
     ac_SENDING_CONFIRMATION_TTL_SECONDS := 600; ac_SCHEDULED_SEND_SESSION_READINESS_MINUTES := 30;
     ac_sequencePolicy := DEFAULT_SEQUENCE_POLICY |}.
Definition demoOutreachDb : OutreachDb :=
  {| campaignIds := ∅; leadIds := {["l1"; "l2"]}; emailDraftIds := {["e1"; "e2"]};
     finalizationIds := {["f1"; "f2"]}; records := ∅; messages := []; followups := ∅; replies := [];
     events := []; deliveryEvents := [] |}.
Definition demoGmailDraft (id lead fin : string) : GmailDraftRow :=
  {| gw_id := id; gw_leadId := lead; gw_finalizedEmailId := Some fin; gw_recipientEmail := "info@praxis.de";
     gw_senderEmail := "me@agency.de"; gw_gmailAccount := "me@agency.de"; gw_providerDraftId := Some "p1";
     gw_threadId := Some "pt1"; gw_messageId := Some "pm1"; gw_outcome := "DRAFT_CREATED";
     gw_provider := "http-gmail"; gw_idempotencyFingerprint := "fp-" +:+ id; gw_sourceEmailVersion := "h1";
     gw_errorClass := None; gw_createdAt := 0; gw_completedAt := Some 0 |}.
Definition demoFinalization (id email : string) : FinalizationRow :=
  {| fn_id := id; fn_originalDraftId := email; fn_deploymentRunId := None; fn_verifiedDeploymentUrl := None;
     fn_originalBodyHash := "h1"; fn_resolvedBody := demoBody; fn_resolvedBodyHash := "h1";
     fn_kind := "REPLY_DIRECT"; fn_finalHumanDecision := Some "APPROVED"; fn_finalHumanNotes := None;
     fn_finalReviewedAt := Some 0; fn_finalReviewedBy := Some "op"; fn_finalReviewedSource := Some "cli";
     fn_finalizedAt := 0 |}.
Definition demoEmail (id lead : string) (step : Z) (record : option string) : EmailDraftRow :=
  {| ew_id := id; ew_leadId := lead; ew_subject := "Ihre Website"; ew_body := demoBody;
     ew_ctaKind := "reply"; ew_status := "APPROVED"; ew_sequenceStep := step; ew_outreachRecordId := record;
     ew_humanDecision := Some "APPROVED"; ew_humanNotes := None; ew_humanReviewedAt := Some 0;
     ew_humanReviewedBy := Some "op"; ew_createdAt := 0 |}.
Definition demoFact (lead : string) : LeadFactRow :=
  {| lf_id := "fact:" +:+ lead; lf_leadId := lead; lf_factType := FT_contact_email;
     lf_value := "info@praxis.de"; lf_normalizedValue := Some "info@praxis.de"; lf_sourceType := FS_manual;
     lf_sourceUrl := None; lf_capturedAt := 0; lf_confidence := QArith_base.Qmake 1 1;
     lf_supersededBy := None; lf_supersededAt := None; lf_isCurrent := true |}.
Definition demoAuthorization (account : string) : AuthorizationRow :=
  {| aw_record := {| au_id := "au1"; au_gmailAccount := account; au_policyVersion := "v1";
       au_startsAt := demoSlot - 1000; au_expiresAt := demoSlot + 86400000; au_maxPerDay := 5;
       au_createdBy := "op"; au_revokedAt := None |};
     aw_note := None; aw_revokedBy := None; aw_revokeReason := None; aw_createdAt := 0 |}.
Definition demoSystem : SystemDb :=
  {| outreachDb := demoOutreachDb; pipelineDb := demoPipelineDb;
     emailDrafts := {["e1" := demoEmail "e1" "l1" 0 None]};
     finalizations := {["f1" := demoFinalization "f1" "e1"]};
     gmailDrafts := {["d1" := demoGmailDraft "d1" "l1" "f1"]}; leadFacts := [demoFact "l1"];
     campaigns := []; authorizations := [demoAuthorization "me@agency.de"]; pipelineRuns := ∅;
     draftCalls := [] |}.

(** An invocation against a mailbox that has the draft, with nothing in between *)
Definition demoInvocation (account : string) (enabled : bool) : SM ScheduledRunReport :=
  scheduledSendsInvocation (demoAppConfig account enabled) (Ok tt) quietly.
Definition demoWorld (db : SystemDb) : world SystemDb := World db 0 0.

(** The draft is sent, and enrolled in the timeline. *)
Example demo_run_sends :
  match demoInvocation "me@agency.de" true (demoWorld demoSystem) with
  | (Ok r, w') => sp_outcome r = RAN ∧ map se_enrollment (sp_sent r) = [EO_ENROLLED] ∧
      length (dispatched (pipelineDb (w_db w'))) = 1%nat ∧
      map om_gmailMessageId (messages (outreachDb (w_db w'))) = [Some "sent-1"]
  | _ => False
  end.
Proof. vm_compute. done. Qed.

(** The draft was sent by hand, and not enrolled yet. *)
Definition demoSentSystem : SystemDb := w_db (zoom onPipeline oneSend (demoWorld demoSystem)).2.

(** A second lead, whose schedule is older and past its window *)
Definition demoLateSchedule : ScheduleRow :=
  {| sr_record := {| sc_id := "s2"; sc_leadId := "l2"; sc_gmailDraftId := "d2"; sc_providerDraftId := "p2";
       sc_finalizedContentHash := "h1"; sc_recipientEmail := "info@praxis.de";
       sc_scheduledAtUtc := demoSlot - 7200000; sc_timezone := "Europe/Berlin"; sc_rulesVersion := "v1";
       sc_computedFrom := sc_computedFrom demoSchedule; sc_integrityFingerprint := demoFingerprint;
       sc_origin := "auto"; sc_status := SCH_SCHEDULED; sc_supersededById := None; sc_cancelReason := None;
       sc_rescheduleCount := 0 |};
     sr_createdAt := 0; sr_updatedAt := 0; sr_cancelledAt := None; sr_fulfilledAt := None;
     sr_invalidatedAt := None; sr_invalidationReason := None |}.
Definition demoLateSystem : SystemDb :=
  let p := demoPipelineDb in
  put onPipeline
    {| runIds := runIds p; gmailDraftIds := gmailDraftIds p; leads := <["l2" := demoLead]> (leads p);
       pipelineEvents := pipelineEvents p; schedules := schedules p ++ [demoLateSchedule];
       attempts := attempts p; readinessApprovals := readinessApprovals p; suppressions := suppressions p;
       dispatched := dispatched p |} demoSystem.

(** The same, once the campaign exists *)
Definition withCampaign (o : OutreachDb) (db : SystemDb) : SystemDb :=
  setCampaigns (λ _, [{| cp_id := "c1"; cp_name := DEFAULT_CAMPAIGN; cp_sequencePolicy := DEFAULT_SEQUENCE_POLICY;
    cp_timezone := "Europe/Berlin" |}]) (put onOutreach (addCampaignKey "c1" o) db).
Definition demoEnrollSystem : SystemDb := withCampaign demoOutreachDb demoSentSystem.

(** The sent copy was the first follow-up of a record in another campaign. *)
Definition demoOtherRecord : OutreachRecord :=
  {| or_id := "uuid-0"; or_campaignId := "c0"; or_leadId := "l1"; or_contactEmail := "info@praxis.de";
     or_status := FOLLOW_UP_1_DUE; or_sequenceStep := 0; or_owner := None; or_timezone := "Europe/Berlin";
     or_lastSentAt := None; or_nextFollowupAt := None; or_lastReplyAt := None; or_replyCategory := None;
     or_doNotContact := false; or_outcome := None; or_notes := None; or_createdAt := 0; or_updatedAt := 0 |}.
Definition demoOtherOutreach : OutreachDb :=
  setRecords <["uuid-0" := demoOtherRecord]> (addCampaignKey "c0" demoOutreachDb).
Definition demoOtherSystem : SystemDb :=
  let db := withCampaign demoOtherOutreach demoSentSystem in
  {| outreachDb := outreachDb db; pipelineDb := pipelineDb db;
     emailDrafts := {["e1" := demoEmail "e1" "l1" 1 (Some "uuid-0")]}; finalizations := finalizations db;
     gmailDrafts := gmailDrafts db; leadFacts := leadFacts db; campaigns := campaigns db;
     authorizations := authorizations db; pipelineRuns := pipelineRuns db;
     draftCalls := draftCalls db |}.
Definition demoAttemptId : string :=
  default "" (head (map at_id (attempts (pipelineDb demoSentSystem)))).
