(* ===== verification/LeadFactSpecs.v ===== *)
(** * What the fact store guarantees

    Its invariant, one current fact per lead and type, and that a write, which always
    succeeds, supersedes without losing anything. *)
From Stdlib Require QArith.
From S2P Require Import Prelude.
From S2P Require Import JsText.
From S2P Require Import PipelineDb.
From S2P Require Import SystemDb.
From S2P Require Import LeadFacts.
From S2P Require Import OutreachSpecs.
From S2P Require Import ScheduledCommand.
Open Scope Z_scope.
Open Scope list_scope.

(** ** The invariant *)

(** One current fact of a type per lead; what is not current says since when. *)
Definition factsWf (l : list LeadFactRow) : Prop :=
  (∀ r r', r ∈ l → r' ∈ l → lf_isCurrent r = true → lf_isCurrent r' = true →
     lf_leadId r = lf_leadId r' → lf_factType r = lf_factType r' → r = r') ∧
  (∀ r, r ∈ l → if lf_isCurrent r then lf_supersededAt r = None ∧ lf_supersededBy r = None
                else is_Some (lf_supersededAt r) ∧ is_Some (lf_supersededBy r)) ∧
  NoDup (map lf_id l).

Lemma factOf_spec leadId t r : factOf leadId t r = true ↔ lf_leadId r = leadId ∧ lf_factType r = t.
Proof. unfold factOf. by rewrite andb_true_iff, !bool_decide_eq_true. Qed.

(** What a write of a fact does to a row that was there *)
Definition supersedeFact (leadId : string) (t : FactType) (at_ : Z) (id : string) (r : LeadFactRow) : LeadFactRow :=
  linkSuperseded leadId t id (demoteCurrent leadId t at_ r).

Section supersedeFact.
Context (leadId : string) (t : FactType) (at_ : Z) (id : string).

Lemma supersede_same r : lf_id (supersedeFact leadId t at_ id r) = lf_id r ∧
  lf_leadId (supersedeFact leadId t at_ id r) = lf_leadId r ∧ lf_factType (supersedeFact leadId t at_ id r) = lf_factType r ∧
  lf_value (supersedeFact leadId t at_ id r) = lf_value r ∧
  lf_normalizedValue (supersedeFact leadId t at_ id r) = lf_normalizedValue r.
Proof. unfold supersedeFact, linkSuperseded, demoteCurrent. repeat case_match; done. Qed.
Lemma supersede_other r : factOf leadId t r = false → supersedeFact leadId t at_ id r = r.
Proof. intros E. unfold supersedeFact, linkSuperseded, demoteCurrent. rewrite E. cbn [andb]. by rewrite E. Qed.
Lemma supersede_history r :
  (if lf_isCurrent r then lf_supersededAt r = None ∧ lf_supersededBy r = None
   else is_Some (lf_supersededAt r) ∧ is_Some (lf_supersededBy r)) →
  factOf leadId t r = true → lf_isCurrent r = false → supersedeFact leadId t at_ id r = r.
Proof.
  intros Hr Ef Ec. unfold supersedeFact, linkSuperseded, demoteCurrent. rewrite Ef, Ec in *. cbn [andb].
  rewrite Ef, Ec. cbn [andb negb]. destruct Hr as [_ [b Eb]]. rewrite Eb. by rewrite bool_decide_eq_false_2.
Qed.
Lemma supersede_current r :
  lf_supersededBy r = None → factOf leadId t r = true → lf_isCurrent r = true → lf_id r ≠ id →
  let r' := supersedeFact leadId t at_ id r in
  lf_isCurrent r' = false ∧ lf_supersededAt r' = Some at_ ∧ lf_supersededBy r' = Some id.
Proof.
  intros Eb Ef Ec Hne. unfold supersedeFact, linkSuperseded, demoteCurrent. rewrite Ef, Ec. cbn [andb].
  change (factOf leadId t (demoteRow at_ r)) with (factOf leadId t r). rewrite Ef.
  cbn [andb lf_isCurrent demoteRow lf_supersededBy lf_id negb]. rewrite Eb, bool_decide_eq_true_2 by done.
  by rewrite bool_decide_eq_false_2.
Qed.
End supersedeFact.

Section write.
Context `{Runtime}.

(** The instant that a write stamps its rows with *)
Definition capturedAt (f : NewLeadFact) (w : world SystemDb) : Z :=
  match nf_capturedAt f with Some t => t | None => clock (w_ticks w) end.
Definition writtenFacts (f : NewLeadFact) (id : string) (at_ : Z) (l : list LeadFactRow) : list LeadFactRow :=
  map (supersedeFact (nf_leadId f) (nf_factType f) at_ id) l ++ [factRow id at_ f].

Lemma factsWf_written f id at_ l :
  factsWf l → id ∉ map lf_id l → factsWf (writtenFacts f id at_ l).
Proof.
  intros (Hone & Hstamp & Hids) Hfresh. unfold writtenFacts.
  set (g := supersedeFact (nf_leadId f) (nf_factType f) at_ id).
  assert (∀ r, r ∈ l → lf_id r ≠ id) as Hne.
  { intros r Hr <-. apply Hfresh. by apply list_elem_of_fmap_2. }
  assert (∀ r, r ∈ l → lf_isCurrent (g r) = true → factOf (nf_leadId f) (nf_factType f) r = false ∧ g r = r) as Hcur.
  { intros r Hr Hc. destruct (factOf (nf_leadId f) (nf_factType f) r) eqn:Ef;
      [|split; [done|by apply supersede_other]]. exfalso.
    pose proof (Hstamp r Hr) as Hs. destruct (lf_isCurrent r) eqn:Ec.
    - destruct (supersede_current _ _ at_ id r (proj2 Hs) Ef Ec (Hne r Hr)) as [E _].
      unfold g in Hc. congruence.
    - assert (g r = r) as Eg by (unfold g; apply supersede_history; [by rewrite Ec|done..]). congruence. }
  split_and!.
  - intros r r' Hr Hr' Hc Hc' El Et. apply elem_of_app in Hr, Hr'.
    assert (∀ r0, r0 ∈ map g l → lf_isCurrent r0 = true → r0 ∈ l ∧
              (lf_leadId r0 ≠ nf_leadId f ∨ lf_factType r0 ≠ nf_factType f)) as Hold.
    { intros r0 Hr0 Hc0. apply list_elem_of_fmap_1 in Hr0 as (x & -> & Hx).
      destruct (Hcur x Hx Hc0) as [Ef Eg]. change (g x ∈ l ∧ (lf_leadId (g x) ≠ nf_leadId f ∨ lf_factType (g x) ≠ nf_factType f)).
      rewrite Eg. split; [done|]. apply not_true_iff_false in Ef. rewrite factOf_spec in Ef.
      destruct (decide (lf_leadId x = nf_leadId f)), (decide (lf_factType x = nf_factType f)); tauto. }
    destruct Hr as [Hr|Hr]; destruct Hr' as [Hr'|Hr'].
    + apply Hone; try done; by apply Hold.
    + apply list_elem_of_singleton in Hr' as ->. destruct (Hold r Hr Hc) as [_ [Hx|Hx]]; by destruct Hx.
    + apply list_elem_of_singleton in Hr as ->. destruct (Hold r' Hr' Hc') as [_ [Hx|Hx]]; by destruct Hx.
    + apply list_elem_of_singleton in Hr as ->. by apply list_elem_of_singleton in Hr' as ->.
  - intros r [Hr|Hr]%elem_of_app; [|by apply list_elem_of_singleton in Hr as ->].
    apply list_elem_of_fmap_1 in Hr as (x & -> & Hx).
    pose proof (Hstamp x Hx) as Hs. destruct (factOf (nf_leadId f) (nf_factType f) x) eqn:Ef.
    + destruct (lf_isCurrent x) eqn:Ec.
      * destruct (supersede_current _ _ at_ id x (proj2 Hs) Ef Ec (Hne x Hx)) as (E1 & E2 & E3).
        fold g in E1, E2, E3. rewrite E1, E2, E3. eauto.
      * assert (g x = x) as -> by (unfold g; apply supersede_history; [by rewrite Ec|done..]). by rewrite Ec.
    + assert (g x = x) as -> by (by apply supersede_other). done.
  - rewrite map_app. cbn [map]. rewrite map_map.
    assert (map (λ x, lf_id (g x)) l = map lf_id l) as ->.
    { apply map_ext. intros x. apply supersede_same. }
    apply NoDup_app. split_and!; [done| |apply NoDup_singleton].
    intros x Hx Hx'. apply list_elem_of_singleton in Hx' as ->. done.
Qed.

Lemma leadFacts_setLeadFacts g db : leadFacts (setLeadFacts g db) = g (leadFacts db).
Proof. done. Qed.
Lemma insertable f id at_ db :
  is_Some (leads (pipelineDb db) !! nf_leadId f) → id ∉ map lf_id (leadFacts db) →
  validConfidence (default (QArith_base.Qmake 1 1) (nf_confidence f)) = true →
  checkInsertFact (factRow id at_ f) (setLeadFacts (map (demoteCurrent (nf_leadId f) (nf_factType f) at_)) db) = None.
Proof.
  intros Hlead Hfresh Hconf. unfold checkInsertFact. apply refuse_None. rewrite !Forall_cons.
  rewrite leadFacts_setLeadFacts. cbn [fst factRow lf_confidence lf_id lf_isCurrent lf_leadId lf_factType].
  split_and!; [by rewrite Hconf| | |by rewrite bool_decide_eq_true_2|constructor].
  - apply not_true_iff_false. intros (r & Hr & E)%existsb_exists. apply bool_decide_eq_true_1 in E.
    apply in_map_iff in Hr as (x & <- & Hx). apply Hfresh. rewrite <-E. apply list_elem_of_In in Hx.
    apply list_elem_of_fmap. exists x. split; [|done]. unfold demoteCurrent. by case_match.
  - apply not_true_iff_false. intros (r & Hr & [Ef Ec]%andb_true_iff)%existsb_exists.
    apply in_map_iff in Hr as (x & <- & Hx). unfold demoteCurrent in Ef, Ec.
    destruct (factOf (nf_leadId f) (nf_factType f) x && lf_isCurrent x) eqn:E; [done|].
    rewrite Ef, Ec in E. done.
Qed.

Lemma writeCurrentFact_run f w :
  is_Some (leads (pipelineDb (w_db w)) !! nf_leadId f) →
  uuid (w_uuids w) ∉ map lf_id (leadFacts (w_db w)) →
  validConfidence (default (QArith_base.Qmake 1 1) (nf_confidence f)) = true →
  ∃ w', writeCurrentFact f w = (Ok (uuid (w_uuids w)), w') ∧
    leadFacts (w_db w') = writtenFacts f (uuid (w_uuids w)) (capturedAt f w) (leadFacts (w_db w)).
Proof.
  intros Hlead Hfresh Hconf.
  assert (∀ at_ n, twp (
      modify (setLeadFacts (map (demoteCurrent (nf_leadId f) (nf_factType f) at_))) ;;
      guarded (checkInsertFact (factRow (uuid (w_uuids w)) at_ f)) (setLeadFacts (λ l, l ++ [factRow (uuid (w_uuids w)) at_ f])) ;;
      modify (setLeadFacts (map (linkSuperseded (nf_leadId f) (nf_factType f) (uuid (w_uuids w))))) ;;
      mret (uuid (w_uuids w)))
    (λ i w', i = uuid (w_uuids w) ∧
       leadFacts (w_db w') = writtenFacts f (uuid (w_uuids w)) at_ (leadFacts (w_db w)))
    (World (w_db w) n (S (w_uuids w)))) as Hrest.
  { intros at_ n. twp_run. apply twp_guarded; cbn [w_db]; [by apply insertable|]. twp_run. split; [done|].
    rewrite !leadFacts_setLeadFacts, map_app, map_map. unfold writtenFacts. f_equal. cbn [map]. f_equal.
    unfold linkSuperseded. cbn [lf_id factRow]. rewrite (bool_decide_eq_true_2 (_ = _)) by done. by rewrite !andb_false_r. }
  assert (twp (writeCurrentFact f) (λ i w', i = uuid (w_uuids w) ∧
    leadFacts (w_db w') = writtenFacts f (uuid (w_uuids w)) (capturedAt f w) (leadFacts (w_db w))) w) as Ht.
  { unfold writeCurrentFact, capturedAt. rewrite twp_bind, twp_randomUUID. cbn [w_db w_ticks w_uuids].
    destruct (nf_capturedAt f); twp_step; twp_step; cbn [w_db w_ticks w_uuids]; apply Hrest. }
  apply twp_returns in Ht as (i & w' & E & -> & Hrows). by exists w'.
Qed.

(** C32: Superseding a fact: for an existing lead, writing a fact always succeeds; the new
    fact is then the one current fact of its type, what was current before is kept and
    points to it, no other row changes, and the store is well-formed. *)
Theorem fact_write_supersedes f w :
  factsWf (leadFacts (w_db w)) → is_Some (leads (pipelineDb (w_db w)) !! nf_leadId f) →
  uuid (w_uuids w) ∉ map lf_id (leadFacts (w_db w)) →
  validConfidence (default (QArith_base.Qmake 1 1) (nf_confidence f)) = true →
  ∃ id w', writeCurrentFact f w = (Ok id, w') ∧ factsWf (leadFacts (w_db w')) ∧
    (∀ r, r ∈ leadFacts (w_db w') ∧ factOf (nf_leadId f) (nf_factType f) r = true ∧ lf_isCurrent r = true ↔
       r = factRow id (capturedAt f w) f) ∧
    (∀ r, r ∈ leadFacts (w_db w) → ∃ r', r' ∈ leadFacts (w_db w') ∧ lf_id r' = lf_id r ∧ lf_value r' = lf_value r ∧
       if factOf (nf_leadId f) (nf_factType f) r && lf_isCurrent r
       then lf_isCurrent r' = false ∧ lf_supersededBy r' = Some id else r' = r).
Proof.
  intros Hwf Hlead Hfresh Hconf. set (id := uuid (w_uuids w)). set (at_ := capturedAt f w).
  assert (∃ w', writeCurrentFact f w = (Ok id, w') ∧
            leadFacts (w_db w') = writtenFacts f id at_ (leadFacts (w_db w))) as (w' & Ew & Hrows).
  { apply writeCurrentFact_run; done. }
  pose proof (factsWf_written f id at_ _ Hwf Hfresh) as Hwf'. exists id, w'. rewrite Hrows.
  split_and!; [done..| |].
  - intros r. split.
    + intros (Hr & Ef & Ec). apply Hwf'; try done.
      * apply elem_of_app. right. by apply list_elem_of_singleton.
      * by apply factOf_spec in Ef as [-> _].
      * by apply factOf_spec in Ef as [_ ->].
    + intros ->. split_and!; [|by apply factOf_spec|done]. apply elem_of_app. right. by apply list_elem_of_singleton.
  - intros r Hr. exists (supersedeFact (nf_leadId f) (nf_factType f) at_ id r).
    destruct (supersede_same (nf_leadId f) (nf_factType f) at_ id r) as (Eid & _ & _ & Ev & _).
    split_and!; [apply elem_of_app; left; by apply list_elem_of_fmap_2|done..|].
    pose proof (proj1 (proj2 Hwf) r Hr) as Hs.
    destruct (factOf (nf_leadId f) (nf_factType f) r) eqn:Ef; [|by apply supersede_other].
    destruct (lf_isCurrent r) eqn:Ec; cbn [andb].
    + destruct (supersede_current _ _ at_ id r (proj2 Hs) Ef Ec) as (? & ? & ?); [|done].
      intros E. apply Hfresh. fold id. rewrite <-E. by apply list_elem_of_fmap_2.
    + apply supersede_history; [by rewrite Ec|done..].
Qed.
End write.

(** ** Witness *)

#[local] Existing Instance demo_runtime.

Definition demoNewFact : NewLeadFact :=
  {| nf_leadId := "l1"; nf_factType := FT_contact_email; nf_value := "praxis@example.de";
     nf_normalizedValue := Some "praxis@example.de"; nf_sourceType := FS_website; nf_sourceUrl := None;
     nf_capturedAt := None; nf_confidence := None |}.
Lemma demo_factsWf : factsWf (leadFacts demoSystem).
Proof.
  split_and!.
  - intros r r' Hr%list_elem_of_singleton Hr'%list_elem_of_singleton. congruence.
  - intros r Hr%list_elem_of_singleton. by subst.
  - apply NoDup_singleton.
Qed.
(** The address that was current is kept as history. *)
Lemma fact_write_supersedes_witness :
  ∃ id w', writeCurrentFact demoNewFact (demoWorld demoSystem) = (Ok id, w') ∧
    ∃ r', r' ∈ leadFacts (w_db w') ∧ lf_value r' = "info@praxis.de"%string ∧ lf_supersededBy r' = Some id.
Proof.
  destruct (fact_write_supersedes demoNewFact (demoWorld demoSystem)) as (id & w' & E & _ & _ & Hkept).
  - exact demo_factsWf.
  - eexists. reflexivity.
  - vm_compute. intros H. inversion H as [|? ? ? H']; subst; inversion H'.
  - reflexivity.
  - exists id, w'. split; [exact E|].
    destruct (Hkept (demoFact "l1")) as (r' & Hin & _ & Hv & Hcur); [left|].
    exists r'. split; [exact Hin|]. split; [exact Hv|]. vm_compute in Hcur. destruct Hcur as [_ Hcur]. exact Hcur.
Defined.
