(* ===== verification/CollectSpecs.v ===== *)
(** * What collecting leads guarantees

    The meaning of a match, whatever the order of the rows; that a place keeps its lead
    and is collected once; and that a run ends and its summary is true. *)
From Stdlib Require QArith.
From S2P Require Import Prelude.
From S2P Require Import JsNumber.
From S2P Require Import JsText.
From S2P Require Import LeadNormalize.
From S2P Require Import LeadLifecycle.
From S2P Require Import PipelineDb.
From S2P Require Import SystemDb.
From S2P Require Import LeadFacts.
From S2P Require Import LeadSource.
From S2P Require Import Collect.
From S2P Require Import OutreachSpecs.
From S2P Require Import SendSafety.
From S2P Require Import ScheduledCommand.
Open Scope string_scope.
Open Scope Z_scope.
Open Scope list_scope.

(** ** The decision *)

Lemma find_Some {A} (p : A → bool) l x : List.find p l = Some x → x ∈ l ∧ p x = true.
Proof. intros [Hin Hp]%find_some. by rewrite list_elem_of_In. Qed.
Lemma find_None {A} (p : A → bool) l : List.find p l = None → ∀ x, x ∈ l → p x = false.
Proof. intros Hn x Hx. apply (find_none _ _ Hn). by apply list_elem_of_In. Qed.

Section decision.
Context `{MathLibrary} (near : num) (input : DedupInput).

(** The field that a tier compares *)
Definition tierField (tier : DuplicateTier) (i : DedupInput) : option string :=
  match tier with
  | DOMAIN_ADDRESS => di_normalizedDomain i | PHONE_ADDRESS => di_normalizedPhone i
  | NAME_ADDRESS => di_normalizedName i
  end.
(** The evidence of a tier: a value that both have, and one address *)
Definition evidence (tier : DuplicateTier) (c : DedupCandidate) : Prop :=
  (∃ v, tierField tier input = Some v ∧ v ≠ "" ∧ tierField tier (dc_input c) = Some v) ∧
  nearAddress near input (dc_input c) = true.
Lemma tierHolds_evidence tier c : tierHolds near input tier c = true ↔ evidence tier c.
Proof.
  assert (∀ x y : option string, sameText x y = true ↔ ∃ v, x = Some v ∧ v ≠ "" ∧ y = Some v) as Hsame.
  { intros x y. unfold sameText. rewrite andb_true_iff, truthy_opt_spec, bool_decide_eq_true. split.
    - intros [(v & -> & Hv) ->]. by exists v.
    - intros (v & -> & Hv & ->). split; [by exists v|done]. }
  unfold tierHolds, evidence. rewrite andb_true_iff. by destruct tier; rewrite Hsame.
Qed.
Definition stronger (tier tier' : DuplicateTier) : Prop :=
  match tier, tier' with
  | DOMAIN_ADDRESS, (PHONE_ADDRESS | NAME_ADDRESS) | PHONE_ADDRESS, NAME_ADDRESS => True
  | _, _ => False
  end.
Definition noEvidence (cs : list DedupCandidate) : Prop := ∀ tier c, c ∈ cs → ¬ evidence tier c.
Definition branchOf (c : DedupCandidate) : Prop := isBranchOf near input c = true.
Definition ambiguousWith (c : DedupCandidate) : Prop := isAmbiguousWith input c = true.
(** What each decision says of the candidates *)
Definition justified (cs : list DedupCandidate) (d : DedupDecision) : Prop :=
  match d with
  | DD_DUPLICATE tier id => (∃ c, c ∈ cs ∧ dc_leadId c = id ∧ evidence tier c) ∧
      ∀ tier' c, c ∈ cs → stronger tier' tier → ¬ evidence tier' c
  | DD_BRANCH id => noEvidence cs ∧ ∃ c, c ∈ cs ∧ dc_leadId c = id ∧ branchOf c
  | DD_AMBIGUOUS id => noEvidence cs ∧ (∀ c, c ∈ cs → ¬ branchOf c) ∧
      ∃ c, c ∈ cs ∧ dc_leadId c = id ∧ ambiguousWith c
  | DD_UNIQUE => noEvidence cs ∧ ∀ c, c ∈ cs → ¬ branchOf c ∧ ¬ ambiguousWith c
  end.
Definition sameKind (d d' : DedupDecision) : Prop :=
  match d, d' with
  | DD_DUPLICATE t _, DD_DUPLICATE t' _ => t = t'
  | DD_BRANCH _, DD_BRANCH _ | DD_AMBIGUOUS _, DD_AMBIGUOUS _ | DD_UNIQUE, DD_UNIQUE => True
  | _, _ => False
  end.

Lemma decideMatch_justified cs : justified cs (decideMatch input cs near).
Proof.
  unfold decideMatch. cbv zeta.
  assert (∀ tier c, List.find (tierHolds near input tier) cs = Some c → c ∈ cs ∧ evidence tier c) as Hyes.
  { intros tier c [Hc Ht]%find_Some. by rewrite tierHolds_evidence in Ht. }
  assert (∀ tier, List.find (tierHolds near input tier) cs = None → ∀ c, c ∈ cs → ¬ evidence tier c) as Hno.
  { intros tier Hn c Hc He. apply tierHolds_evidence in He. by rewrite (find_None _ _ Hn c Hc) in He. }
  destruct (List.find (tierHolds near input DOMAIN_ADDRESS) cs) as [c|] eqn:E1.
  { apply Hyes in E1 as [? ?]. split; [by exists c|]. by intros []. }
  destruct (List.find (tierHolds near input PHONE_ADDRESS) cs) as [c|] eqn:E2.
  { apply Hyes in E2 as [? ?]. split; [by exists c|]. intros [] c' Hc' ?; [by apply Hno|done..]. }
  destruct (List.find (tierHolds near input NAME_ADDRESS) cs) as [c|] eqn:E3.
  { apply Hyes in E3 as [? ?]. split; [by exists c|]. intros [] c' Hc' ?; [by apply Hno..|done]. }
  assert (noEvidence cs) as Hnone by (intros []; by apply Hno).
  destruct (List.find (isBranchOf near input) cs) as [c|] eqn:E4.
  { apply find_Some in E4 as [? ?]. split; [done|]. by exists c. }
  assert (∀ c, c ∈ cs → ¬ branchOf c) as Hbranch.
  { intros c Hc Hb. unfold branchOf in Hb. by rewrite (find_None _ _ E4 c Hc) in Hb. }
  destruct (List.find (isAmbiguousWith input) cs) as [c|] eqn:E5.
  { apply find_Some in E5 as [? ?]. split_and!; [done..|]. by exists c. }
  split; [done|]. intros c Hc. split; [by apply Hbranch|]. unfold ambiguousWith. by rewrite (find_None _ _ E5 c Hc).
Qed.
(** Two decisions that are justified by the same rows are of one kind. *)
Lemma justified_kind cs cs' d d' : cs ≡ₚ cs' → justified cs d → justified cs' d' → sameKind d d'.
Proof.
  intros Hp. assert (∀ c, c ∈ cs → c ∈ cs') as Hin by (intros c; by rewrite Hp).
  assert (∀ c, c ∈ cs' → c ∈ cs) as Hin' by (intros c; by rewrite Hp).
  destruct d as [t i|i|i|], d' as [t' i'|i'|i'|]; cbn; try done.
  - intros [(c & Hc & _ & He) H1] [(c' & Hc' & _ & He') H2].
    assert (¬ stronger t t') as Ht by (intros Hs; exact (H2 t c (Hin c Hc) Hs He)).
    assert (¬ stronger t' t) as Ht' by (intros Hs; exact (H1 t' c' (Hin' c' Hc') Hs He')).
    destruct t, t'; try done; exfalso; first [exact (Ht I)|exact (Ht' I)].
  - intros [(c & Hc & _ & He) _] [Hn _]. exact (Hn t c (Hin c Hc) He).
  - intros [(c & Hc & _ & He) _] [Hn _]. exact (Hn t c (Hin c Hc) He).
  - intros [(c & Hc & _ & He) _] [Hn _]. exact (Hn t c (Hin c Hc) He).
  - intros [Hn _] [(c & Hc & _ & He) _]. exact (Hn t' c (Hin' c Hc) He).
  - intros [_ (c & Hc & _ & Hb)] (_ & Hn & _). exact (Hn c (Hin c Hc) Hb).
  - intros [_ (c & Hc & _ & Hb)] (_ & Hn). exact (proj1 (Hn c (Hin c Hc)) Hb).
  - intros [Hn _] [(c & Hc & _ & He) _]. exact (Hn t' c (Hin' c Hc) He).
  - intros (_ & Hn & _) [_ (c & Hc & _ & Hb)]. exact (Hn c (Hin' c Hc) Hb).
  - intros (_ & _ & (c & Hc & _ & Ha)) (_ & Hn). exact (proj2 (Hn c (Hin c Hc)) Ha).
  - intros [Hn _] [(c & Hc & _ & He) _]. exact (Hn t' c (Hin' c Hc) He).
  - intros (_ & Hn) [_ (c & Hc & _ & Hb)]. exact (proj1 (Hn c (Hin' c Hc)) Hb).
  - intros (_ & Hn) (_ & _ & (c & Hc & _ & Ha)). exact (proj2 (Hn c (Hin' c Hc)) Ha).
Qed.

End decision.

(** ** One candidate *)

Definition leadsOf (db : CollectDb) : gmap string Lead := leads (pipelineDb (collectSystem db)).
(** No lead and no place is touched. *)
Definition sameLeads (db db' : CollectDb) : Prop :=
  leadsOf db' = leadsOf db ∧ sourceEntities db' = sourceEntities db.
#[local] Instance sameLeads_preorder : PreOrder sameLeads.
Proof. split; [done|]. intros a b c [? ?] [? ?]. by split; etrans. Qed.

Section candidate.
Context `{Runtime, MathLibrary, RowOrder} (opts : CollectOptions) (provider : string).

Lemma leads_setEvents f p : leads (setPipelineEvents f p) = leads p.
Proof. by destruct p. Qed.
Lemma event_sameLeads leadId type to message : respects sameLeads (collectEvent opts leadId type to message).
Proof.
  intros w. unfold collectEvent, inPipeline, recordEvent. rewrite !wp_zoom. wp_run. intros _.
  split; [|done]. unfold leadsOf. cbn. by rewrite leads_setEvents.
Qed.
Lemma observation_sameLeads eid rid result tier : respects sameLeads (createObservation eid rid result tier).
Proof. intros w. unfold createObservation. wp_run. by intros _. Qed.
Lemma writeFacts_sameLeads r facts : respects sameLeads (writeFacts opts r facts).
Proof.
  unfold writeFacts. destruct facts as [f|]; [|apply (respects_ret sameLeads)].
  destruct (makesLead _); [|apply (respects_ret sameLeads)]. apply (respects_for_each sameLeads). intros fact.
  apply (respects_bind sameLeads); [|intros; apply (respects_ret sameLeads)].
  apply (respects_zoom inCollect (λ s s', leads (pipelineDb s') = leads (pipelineDb s))); [by split|].
  intros w. unfold writeCurrentFact. wp_run. destruct (nf_capturedAt fact); wp_run; by intros _.
Qed.

(** A new place resolves to a lead that was there, or to a new one. *)
Definition resolved (r : Resolution) (db db' : CollectDb) : Prop :=
  sourceEntities db' = sourceEntities db ∧ rs_result r ∈ [CR_CREATED; CR_DUPLICATE; CR_BRANCH; CR_AMBIGUOUS] ∧
  if makesLead (rs_result r) then
    ∃ l, ld_id l = rs_leadId r ∧ leadsOf db !! rs_leadId r = None ∧ leadsOf db' = <[rs_leadId r := l]> (leadsOf db)
  else leadsOf db' = leadsOf db.
Lemma wp_createLead l result tier event message w :
  makesLead result = true →
  wp (inPipeline (createLeadRow l) ;; mret {| rs_leadId := ld_id l; rs_result := result; rs_tier := tier;
       rs_event := event; rs_message := message |}) (λ r w', resolved r (w_db w) (w_db w')) w.
Proof.
  intros Hr. unfold inPipeline, createLeadRow. rewrite wp_bind, !wp_zoom, wp_guarded. intros Hc. rewrite wp_ret.
  apply refuse_None in Hc. rewrite !Forall_cons in Hc. destruct Hc as (Hnew & _ & _).
  apply bool_decide_eq_false, eq_None_not_Some in Hnew. split; [done|]. cbn [rs_result rs_leadId]. split.
  - apply list_elem_of_In. destruct result; try done; cbn; auto.
  - rewrite Hr. exists l. split_and!; [done|exact Hnew|]. unfold leadsOf. cbn. by destruct (pipelineDb _).
Qed.
Lemma fresh_uuid {A} (k : string → CM A) (R : A → CollectDb → CollectDb → Prop) w :
  (∀ u, let w' := World (w_db w) (w_ticks w) (S (w_uuids w)) in wp (k u) (λ a w2, R a (w_db w') (w_db w2)) w') →
  wp (u ← randomUUID; k u) (λ a w2, R a (w_db w) (w_db w2)) w.
Proof. intros Hk. rewrite wp_bind, wp_randomUUID. apply Hk. Qed.
Lemma wp_resolveNew placeId facts nowD w :
  wp (resolveNew opts provider placeId facts nowD) (λ r w', resolved r (w_db w) (w_db w')) w.
Proof.
  unfold resolveNew. destruct facts as [f|].
  - rewrite wp_bind, wp_query. cbv zeta. destruct (decideMatch _ _ _) as [tier id|id|id|].
    + rewrite wp_ret. split; [done|]. split; [|done]. apply list_elem_of_In. cbn. auto.
    + apply fresh_uuid. intros u w'. by apply (wp_createLead (leadFromFacts f u provider (Some placeId) nowD)).
    + apply fresh_uuid. intros u w'.
      by apply (wp_createLead (markAmbiguous id (leadFromFacts f u provider (Some placeId) nowD))).
    + apply fresh_uuid. intros u w'. by apply (wp_createLead (leadFromFacts f u provider (Some placeId) nowD)).
  - apply fresh_uuid. intros u w'. by apply (wp_createLead (candidateLead u placeId provider nowD)).
Qed.

Definition placeOf (c : RawCandidate) : string := trim (rc_sourcePlaceId c).
Definition malformed (c : RawCandidate) : bool :=
  String.eqb (placeOf c) "" || match rc_facts c with Some f => negb (hasIdentity f) | None => false end.
(** What the processing of a candidate has done, when it commits *)
Definition processed (c : RawCandidate) (o : CandidateOutcome) (db db' : CollectDb) : Prop :=
  if malformed c then co_result o = CR_REJECTED ∧ co_leadId o = None ∧ sameLeads db db'
  else
    match placeEntity provider (placeOf c) db with
    | Some e => co_result o = CR_REFRESHED ∧ co_leadId o = Some (so_leadId e) ∧ leadsOf db' = leadsOf db ∧
        ∃ t, sourceEntities db' = map (seenAt (so_id e) t) (sourceEntities db)
    | None => co_result o ∈ [CR_CREATED; CR_DUPLICATE; CR_BRANCH; CR_AMBIGUOUS] ∧
        ∃ e, sourceEntities db' = sourceEntities db ++ [e] ∧ so_provider e = provider ∧
          so_sourcePlaceId e = placeOf c ∧ co_leadId o = Some (so_leadId e) ∧ is_Some (leadsOf db' !! so_leadId e) ∧
          if makesLead (co_result o) then
            ∃ l, ld_id l = so_leadId e ∧ leadsOf db !! so_leadId e = None ∧ leadsOf db' = <[so_leadId e := l]> (leadsOf db)
          else leadsOf db' = leadsOf db
    end.
Lemma wp_then {A B} (m : CM A) (k : A → CM B) (R : relation CollectDb) Q w :
  respects R m → (∀ a w', R (w_db w) (w_db w') → wp (k a) Q w') → wp (m ≫= k) Q w.
Proof. intros Hm Hk. rewrite wp_bind. eapply wp_mono; [|apply Hm]. intros a w' HR. by apply Hk. Qed.
Lemma wp_createEntity placeId leadId w :
  wp (createEntity provider placeId leadId) (λ e w', so_provider e = provider ∧ so_sourcePlaceId e = placeId ∧
    so_leadId e = leadId ∧ is_Some (leadsOf (w_db w) !! leadId) ∧ leadsOf (w_db w') = leadsOf (w_db w) ∧
    sourceEntities (w_db w') = sourceEntities (w_db w) ++ [e]) w.
Proof.
  unfold createEntity. wp_run. cbv zeta. wp_run. intros Hc. apply refuse_None in Hc. rewrite !Forall_cons in Hc.
  destruct Hc as (_ & _ & Hlead & _). cbn [fst so_leadId] in Hlead. apply negb_false_iff, bool_decide_eq_true_1 in Hlead.
  by split_and!.
Qed.
Lemma wp_processCandidate c requestId nowD w :
  wp (processCandidate opts provider c requestId nowD) (λ o w', processed c o (w_db w) (w_db w')) w.
Proof.
  unfold processCandidate, processed, malformed. fold (placeOf c). cbv zeta.
  destruct (String.eqb (placeOf c) "" || _).
  { eapply wp_then; [apply event_sameLeads|]. intros _ w1 Hw1. by rewrite wp_ret. }
  rewrite wp_bind, wp_query. destruct (placeEntity provider (placeOf c) (w_db w)) as [e|].
  - rewrite wp_bind. unfold touchLastSeen. rewrite wp_modify. cbn [w_db w_ticks w_uuids].
    eapply wp_then; [apply observation_sameLeads|]. intros _ w1 [L1 E1].
    eapply wp_then; [apply event_sameLeads|]. intros _ w2 [L2 E2]. rewrite wp_ret.
    split_and!; [done..| |]; [by rewrite L2, L1|]. exists nowD. by rewrite E2, E1.
  - rewrite wp_bind. eapply wp_mono; [|apply wp_resolveNew]. intros r w1 (E1 & Hr & Hl).
    eapply wp_then; [apply writeFacts_sameLeads|]. intros _ w2 [L2 E2].
    rewrite wp_bind. eapply wp_mono; [|apply wp_createEntity]. intros e w3 (Ep & Es & El & Hlead & L3 & E3).
    eapply wp_then; [apply observation_sameLeads|]. intros _ w4 [L4 E4].
    eapply wp_then; [apply event_sameLeads|]. intros _ w5 [L5 E5]. rewrite wp_ret. cbn [co_result co_leadId].
    assert (leadsOf (w_db w5) = leadsOf (w_db w1)) as L by congruence.
    split; [done|]. exists e. rewrite L, E5, E4, E3, E2, E1, El. split_and!; [done..| |done].
    by rewrite <-L2.
Qed.
End candidate.

(** ** A run *)

(** A place that has a lead keeps it. *)
Definition placesKept (db db' : CollectDb) : Prop := ∀ provider place e, placeEntity provider place db = Some e →
  ∃ e', placeEntity provider place db' = Some e' ∧ so_leadId e' = so_leadId e.
#[local] Instance placesKept_preorder : PreOrder placesKept.
Proof.
  split; [intros db p q e E; by exists e|]. intros a b c H1 H2 p q e E.
  destruct (H1 p q e E) as (e1 & E1 & L1). destruct (H2 p q e1 E1) as (e2 & E2 & L2). exists e2. by rewrite L2.
Qed.
Lemma placesKept_same db db' : sourceEntities db' = sourceEntities db → placesKept db db'.
Proof. intros Eq p q e E. exists e. unfold placeEntity in *. by rewrite Eq. Qed.
Lemma seenAt_same id t e : so_provider (seenAt id t e) = so_provider e ∧
  so_sourcePlaceId (seenAt id t e) = so_sourcePlaceId e ∧ so_leadId (seenAt id t e) = so_leadId e.
Proof. unfold seenAt. by destruct (String.eqb _ _). Qed.
Lemma find_map_same {A} (p : A → bool) (f : A → A) l x :
  (∀ y, p (f y) = p y) → List.find p l = Some x → List.find p (map f l) = Some (f x).
Proof.
  intros Hf. induction l as [|y l IH]; [done|]. cbn. rewrite Hf. destruct (p y); [by intros [= ->]|done].
Qed.
Lemma find_app_some {A} (p : A → bool) l l' x : List.find p l = Some x → List.find p (l ++ l') = Some x.
Proof. induction l as [|y l IH]; [done|]. cbn. by destruct (p y). Qed.
Lemma placesKept_seen db db' id t : sourceEntities db' = map (seenAt id t) (sourceEntities db) → placesKept db db'.
Proof.
  intros Eq p q e E. exists (seenAt id t e). unfold placeEntity in *. rewrite Eq. split; [|apply seenAt_same].
  apply find_map_same; [|done]. intros y. by destruct (seenAt_same id t y) as (-> & -> & _).
Qed.
Lemma placesKept_added db db' e0 : sourceEntities db' = sourceEntities db ++ [e0] → placesKept db db'.
Proof. intros Eq p q e E. exists e. unfold placeEntity in *. rewrite Eq. split; [|done]. by apply find_app_some. Qed.

Definition totalResults (s : CollectSummary) : Z :=
  newLeadCount s + cs_duplicates s + cs_refreshed s + cs_rejected s + cs_failed s.
Definition one_ (b : bool) : Z := if b then 1 else 0.
Lemma addResults_counts s r :
  totalResults (addResults s r) = totalResults s + 1 ∧
  newLeadCount (addResults s r) = newLeadCount s + one_ (match r with Some r => makesLead r | None => false end) ∧
  cs_requests (addResults s r) = cs_requests s ∧ cs_pages (addResults s r) = cs_pages s ∧
  cs_stoppedAtCap (addResults s r) = cs_stoppedAtCap s ∧ cs_interrupted (addResults s r) = cs_interrupted s.
Proof.
  unfold totalResults, newLeadCount, one_, addResults, makesLead. cbv zeta.
  destruct r as [[]|]; cbn [cs_created cs_duplicates cs_refreshed cs_ambiguous cs_branches cs_rejected cs_failed
    cs_requests cs_pages cs_stoppedAtCap cs_interrupted];
    repeat match goal with |- context [bool_decide ?Q] =>
      let b := eval vm_compute in (bool_decide Q) in change (bool_decide Q) with b end;
    cbv iota; split_and!; done || lia.
Qed.

Section run.
Context `{Runtime, MathLibrary, RowOrder, P : LeadSourceProvider} (opts : CollectOptions).

Lemma collectOne_effect requestId c s w : ∃ s' w', collectOne opts requestId c s w = (Ok s', w') ∧
  ((∃ o, s' = addResults s (Some (co_result o)) ∧ processed ls_name c o (w_db w) (w_db w')) ∨
   s' = addResults s None ∧ w_db w' = w_db w).
Proof.
  cut (awp (transaction (nowD ← now; processCandidate opts ls_name c requestId nowD))
    (λ o w', processed ls_name c o (w_db w) (w_db w')) (λ w', w_db w' = w_db w) w).
  { intros Ha. unfold collectOne, tryCatch, awp, mbind, M_bind in *.
    destruct (transaction _ w) as [[o|e] w']; eexists _, w'; (split; [done|]); [left|right]; eauto. }
  apply awp_transaction; [|done]. rewrite wp_bind, wp_now.
  apply (wp_processCandidate opts ls_name c requestId (clock (w_ticks w)) (World (w_db w) (S (w_ticks w)) (w_uuids w))).
Qed.
Lemma processed_counts c o db db' : processed ls_name c o db db' →
  Z.of_nat (size (leadsOf db')) = Z.of_nat (size (leadsOf db)) + one_ (makesLead (co_result o)) ∧ placesKept db db'.
Proof.
  unfold processed. destruct (malformed c).
  { intros (-> & _ & L & E). rewrite L. split; [change (one_ (makesLead CR_REJECTED)) with 0; lia|by apply placesKept_same]. }
  destruct (placeEntity _ _ db) as [e|].
  - intros (-> & _ & -> & t & E). split; [change (one_ (makesLead CR_REFRESHED)) with 0; lia|by eapply placesKept_seen].
  - intros (_ & e & E & _ & _ & _ & _ & Hl). split; [|by eapply placesKept_added].
    destruct (makesLead (co_result o)); [|rewrite Hl; cbn; lia]. destruct Hl as (l & _ & Hnew & ->).
    rewrite map_size_insert_None by done. cbn. lia.
Qed.

(** What has been collected between two moments *)
Record collected (n : Z) (s s' : CollectSummary) (db db' : CollectDb) : Prop := {
  cl_leads : Z.of_nat (size (leadsOf db')) - newLeadCount s' = Z.of_nat (size (leadsOf db)) - newLeadCount s;
  cl_cap cap : ca_maxLeads opts = Some cap → newLeadCount s <= cap → newLeadCount s' <= cap;
  cl_total : totalResults s <= totalResults s' <= totalResults s + n;
  cl_all : cs_stoppedAtCap s' = false → totalResults s' = totalResults s + n;
  cl_places : placesKept db db';
}.
Lemma collected_trans n m s1 s2 s3 db1 db2 db3 :
  (cs_stoppedAtCap s3 = false → cs_stoppedAtCap s2 = false) →
  collected n s1 s2 db1 db2 → collected m s2 s3 db2 db3 → collected (n + m) s1 s3 db1 db3.
Proof.
  intros Hs [L1 C1 T1 A1 P1] [L2 C2 T2 A2 P2]. split.
  - lia.
  - eauto.
  - lia.
  - intros E. rewrite A2, A1 by auto. lia.
  - by etrans.
Qed.
Lemma collectPage_effect requestId cs s w : ∃ s' w', collectPage opts requestId cs s w = (Ok s', w') ∧
  collected (Z.of_nat (length cs)) s s' (w_db w) (w_db w') ∧ cs_requests s' = cs_requests s ∧
  cs_pages s' = cs_pages s ∧ (cs_stoppedAtCap s' = false → cs_stoppedAtCap s = false).
Proof.
  revert s w. induction cs as [|c cs IH]; intros s w.
  { exists s, w. split; [done|]. split; [split; try done; cbn; lia|done]. }
  cbn [collectPage]. destruct (atCap (ca_maxLeads opts) s) eqn:Ecap.
  { assert (cs_stoppedAtCap (setProgress 0 0 true false s) = true) as Hstop by (cbn; apply orb_true_r).
    eexists _, w. split; [reflexivity|]. split_and!.
    - split; [done|done| | |reflexivity].
      + change (totalResults (setProgress 0 0 true false s)) with (totalResults s). lia.
      + by rewrite Hstop.
    - cbn. lia.
    - cbn. lia.
    - by rewrite Hstop. }
  destruct (collectOne_effect requestId c s w) as (s1 & w1 & E1 & Hone).
  destruct (IH s1 w1) as (s2 & w2 & E2 & Hrest & Hreq & Hpages & Hstop).
  exists s2, w2. split; [unfold mbind, M_bind; by rewrite E1|].
  assert (collected 1 s s1 (w_db w) (w_db w1) ∧ cs_requests s1 = cs_requests s ∧ cs_pages s1 = cs_pages s ∧
          cs_stoppedAtCap s1 = cs_stoppedAtCap s) as (Hc & Hr & Hp & Hs).
  { assert (∀ r, Z.of_nat (size (leadsOf (w_db w1))) = Z.of_nat (size (leadsOf (w_db w))) +
        one_ (match r with Some r => makesLead r | None => false end) → placesKept (w_db w) (w_db w1) →
      s1 = addResults s r → collected 1 s s1 (w_db w) (w_db w1) ∧ cs_requests s1 = cs_requests s ∧
        cs_pages s1 = cs_pages s ∧ cs_stoppedAtCap s1 = cs_stoppedAtCap s) as Hgen.
    { intros r Hsize Hkept ->. destruct (addResults_counts s r) as (Ht & Hn & Hr & Hp & Hs & _).
      split; [split|done]; [lia| |lia|lia|done]. intros cap Hcap Hle. unfold atCap in Ecap. rewrite Hcap in Ecap.
      apply Z.leb_gt in Ecap. rewrite Hn. unfold one_.
      destruct (match r with Some r => makesLead r | None => false end); lia. }
    destruct Hone as [(o & -> & Ho)|[-> Ew]].
    - destruct (processed_counts _ _ _ _ Ho). by apply (Hgen (Some (co_result o))).
    - apply (Hgen None); [rewrite Ew; symmetry; apply Z.add_0_r|by apply placesKept_same; rewrite Ew|done]. }
  split; [|rewrite <-Hr, <-Hp, <-Hs; done].
  replace (Z.of_nat (length (c :: cs))) with (1 + Z.of_nat (length cs)) by (cbn; lia).
  by eapply collected_trans.
Qed.

(** Progress is noted, and nothing is collected. *)
Lemma collected_progress a b c d s db db' : sameLeads db db' → collected 0 s (setProgress a b c d s) db db'.
Proof.
  intros [L E]. split.
  - by rewrite L.
  - done.
  - change (totalResults (setProgress a b c d s)) with (totalResults s). lia.
  - intros _. change (totalResults (setProgress a b c d s)) with (totalResults s). lia.
  - by apply placesKept_same.
Qed.
Lemma recordRequest_sameLeads runId campaign provider meta : always sameLeads (recordRequest runId campaign provider meta).
Proof.
  unfold recordRequest. apply (always_bind sameLeads); [apply (always_randomUUID sameLeads)|intros id]. cbv zeta.
  apply (always_bind sameLeads); [by apply (always_guarded sameLeads)|intros; apply (always_ret sameLeads)].
Qed.

(** What holds between the start and the end of a run *)
Record runEffect (pages : nat) (s s' : CollectSummary) (db db' : CollectDb) : Prop := {
  re_leads : Z.of_nat (size (leadsOf db')) - newLeadCount s' = Z.of_nat (size (leadsOf db)) - newLeadCount s;
  re_cap cap : ca_maxLeads opts = Some cap → newLeadCount s <= cap → newLeadCount s' <= cap;
  re_pages : cs_requests s' - cs_requests s <= cs_pages s' - cs_pages s <= Z.of_nat pages;
  re_places : placesKept db db';
}.
Lemma runEffect_trans n m k s1 s2 s3 db1 db2 db3 : (n + m <= k)%nat →
  runEffect n s1 s2 db1 db2 → runEffect m s2 s3 db2 db3 → runEffect k s1 s3 db1 db3.
Proof.
  intros Hk [L1 C1 P1 K1] [L2 C2 P2 K2]. split; [lia|eauto|lia|by etrans].
Qed.
Lemma collected_runEffect n pages s s' db db' : collected n s s' db db' →
  cs_requests s' - cs_requests s <= cs_pages s' - cs_pages s <= Z.of_nat pages → runEffect pages s s' db db'.
Proof. by intros [L C _ _ K] Hp. Qed.

Lemma collectPages_effect `{!LawfulSource P} fuel st s w : (ls_remaining st < fuel)%nat → cs_stoppedAtCap s = false →
  ∃ s' w', collectPages opts fuel st s w = (Ok (Some s'), w') ∧ runEffect (ls_remaining st) s s' (w_db w) (w_db w').
Proof.
  revert st s w. induction fuel as [|fuel IH]; intros st s w Hfuel Hs; [lia|]. cbn [collectPages].
  unfold tryCatch, mbind, M_bind. pose proof (ls_decreases st w) as Hdec. pose proof (ls_tables st w) as Htab.
  unfold wp in Hdec. assert (∀ w', onlyLogged (w_db w) (w_db w') → sameLeads (w_db w) (w_db w')) as Hsame.
  { intros w' (E1 & _ & E3 & _). split; [unfold leadsOf; by rewrite E1|done]. }
  destruct (ls_next st w) as [[[[page st']|]|e] w1]; cbn [snd] in Htab; apply Hsame in Htab.
  2: { exists s, w1. split; [done|]. apply (collected_runEffect 0); [|cbn; lia].
       destruct Htab as [L E]. split; [by rewrite L|done|lia|lia|by apply placesKept_same]. }
  2: { eexists _, w1. split; [done|]. eapply collected_runEffect; [by apply collected_progress|cbn; lia]. }
  pose proof (recordRequest_sameLeads (ca_runId opts) (ca_campaign opts) ls_name (pp_request page) w1) as Hreq.
  destruct (recordRequest _ _ _ _ w1) as [[rid|e] w2]; cbn [snd] in Hreq.
  2: { eexists _, w2. split; [done|]. eapply collected_runEffect; [apply collected_progress; by etrans|cbn; lia]. }
  set (s1 := setProgress 1 1 false false s).
  assert (runEffect 1 s s1 (w_db w) (w_db w2)) as Hstep1.
  { eapply collected_runEffect; [apply collected_progress; by etrans|cbn; lia]. }
  case_bool_decide.
  { eexists _, w2. split; [done|]. eapply (runEffect_trans 1 0); [lia|exact Hstep1|].
    eapply collected_runEffect; [by apply collected_progress|cbn; lia]. }
  assert (cs_stoppedAtCap s1 = false) as Hs1 by (cbn; by rewrite Hs).
  destruct (collectPage_effect rid (pp_candidates page) s1 w2) as (s2 & w3 & E2 & Hc & Hr2 & Hp2 & _).
  rewrite E2. assert (runEffect 0 s1 s2 (w_db w2) (w_db w3)) as Hstep2 by (eapply collected_runEffect; [done|cbn in *; lia]).
  destruct (cs_stoppedAtCap s2) eqn:Estop.
  { exists s2, w3. split; [done|]. eapply (runEffect_trans 1 0 _ s s1); [lia|done..]. }
  destruct (IH st' s2 w3) as (s' & w' & E' & Hstep3); [lia|done|].
  exists s', w'. split; [exact E'|].
  eapply (runEffect_trans 1 (ls_remaining st')); [lia|done|]. eapply (runEffect_trans 0 _ _ s1 s2); [|done..]. lia.
Qed.

(** C33: A collection run ends and its summary is true: whatever the provider answers, it
    reads no more pages than the provider may give, the number of leads has grown by
    exactly what the summary counts as created, ambiguous or branches, this stays within
    the cap, and every place keeps its lead; on each page every candidate is counted once,
    until the cap is reached. *)
Theorem collect_run_accounts `{!LawfulSource P} w :
  (∃ s w', collectLeads opts w = (Ok (Some s), w') ∧
     Z.of_nat (size (leadsOf (w_db w'))) = Z.of_nat (size (leadsOf (w_db w))) + newLeadCount s ∧
     (∀ cap, ca_maxLeads opts = Some cap → 0 <= cap → newLeadCount s <= cap) ∧
     cs_requests s <= cs_pages s <= Z.of_nat (ls_remaining ls_first) ∧ placesKept (w_db w) (w_db w')) ∧
  ∀ requestId cs s, ∃ s' w', collectPage opts requestId cs s w = (Ok s', w') ∧
    totalResults s' <= totalResults s + Z.of_nat (length cs) ∧
    (cs_stoppedAtCap s' = false → totalResults s' = totalResults s + Z.of_nat (length cs)).
Proof.
  split.
  - destruct (collectPages_effect (S (ls_remaining ls_first)) ls_first noneCollected w) as (s & w' & E & [L C Pg K]); [lia|done|].
    exists s, w'. split; [exact E|]. change (newLeadCount noneCollected) with 0 in *.
    change (cs_requests noneCollected) with 0 in Pg. change (cs_pages noneCollected) with 0 in Pg.
    split_and!; [lia|exact C|lia|lia|done].
  - intros requestId cs s. destruct (collectPage_effect requestId cs s w) as (s' & w' & E & [_ _ T A _] & _).
    exists s', w'. split_and!; [done|lia|done].
Qed.

(** ** A second run *)

Definition known (db : CollectDb) (c : RawCandidate) : Prop :=
  malformed c = true ∨ is_Some (placeEntity ls_name (placeOf c) db).
Lemma known_kept db db' c : placesKept db db' → known db c → known db' c.
Proof. intros Hk [Hm|[e E]]; [by left|right]. destruct (Hk _ _ _ E) as (e' & E' & _). by exists e'. Qed.
Lemma processed_known c o db db' : processed ls_name c o db db' → known db' c.
Proof.
  unfold processed, known. destruct (malformed c); [by left|]. intros Hp. right.
  destruct (placeEntity ls_name (placeOf c) db) as [e|] eqn:Eold.
  - destruct Hp as (_ & _ & _ & t & E).
    destruct (placesKept_seen db db' _ _ E _ _ _ Eold) as (e' & E' & _). by exists e'.
  - destruct Hp as (_ & e & E & Ep & Es & _). exists e. unfold placeEntity in *. rewrite E.
    assert (∀ (l : list SourceEntity) p, List.find p l = None → p e = true → List.find p (l ++ [e]) = Some e) as Hlast.
    { intros l q. induction l as [|x l IH]; cbn; [by intros _ ->|]. destruct (q x); [done|auto]. }
    apply Hlast; [done|]. by rewrite Ep, Es, !String.eqb_refl.
Qed.
Lemma collectOne_failed requestId c s w s' w' : collectOne opts requestId c s w = (Ok s', w') →
  cs_failed s <= cs_failed s' ∧ (cs_failed s' = cs_failed s → known (w_db w') c) ∧ placesKept (w_db w) (w_db w').
Proof.
  intros E. destruct (collectOne_effect requestId c s w) as (s1 & w1 & E1 & Hone). rewrite E1 in E. simplify_eq.
  destruct Hone as [(o & -> & Ho)|[-> Ew]]; cbn.
  - split_and!; [lia|intros _; by eapply processed_known|by apply processed_counts in Ho as [_ ?]].
  - split_and!; [lia|lia|by apply placesKept_same; rewrite Ew].
Qed.
Lemma collectPage_known requestId cs s w s' w' : collectPage opts requestId cs s w = (Ok s', w') →
  cs_failed s <= cs_failed s' ∧
  (cs_failed s' = cs_failed s → cs_stoppedAtCap s' = false → ∀ c, c ∈ cs → known (w_db w') c).
Proof.
  revert s w. induction cs as [|c cs IH]; intros s w; cbn [collectPage].
  { intros [= -> ->]. split; [lia|]. intros _ _ c Hc. by apply not_elem_of_nil in Hc. }
  destruct (atCap (ca_maxLeads opts) s).
  { intros [= <- <-]. split; [cbn; lia|]. intros _ Hs. cbn in Hs. by rewrite orb_true_r in Hs. }
  destruct (collectOne_effect requestId c s w) as (s1 & w1 & E1 & _).
  destruct (collectOne_failed _ _ _ _ _ _ E1) as (Hle & Hknown & Hkept).
  unfold mbind, M_bind. rewrite E1. intros E. destruct (IH _ _ E) as [Hle' Hrest]. split; [lia|].
  intros Hf Hs c' [->|Hc']%elem_of_cons; [|apply Hrest; [lia|done..]].
  destruct (collectPage_effect requestId cs s1 w1) as (s2 & w2 & E2 & [_ _ _ _ K] & _). rewrite E2 in E. simplify_eq.
  eapply known_kept; [exact K|]. apply Hknown. lia.
Qed.
(** Of candidates that are known, nothing becomes a lead. *)
Lemma collectPage_again requestId cs s w : (∀ c, c ∈ cs → known (w_db w) c) →
  ∃ s' w', collectPage opts requestId cs s w = (Ok s', w') ∧ leadsOf (w_db w') = leadsOf (w_db w) ∧
    newLeadCount s' = newLeadCount s ∧ cs_duplicates s' = cs_duplicates s.
Proof.
  revert s w. induction cs as [|c cs IH]; intros s w Hknown; [by exists s, w|]. cbn [collectPage].
  destruct (atCap _ s); [by eexists _, w|].
  destruct (collectOne_effect requestId c s w) as (s1 & w1 & E1 & Hone).
  assert (placesKept (w_db w) (w_db w1)) as Hkept by by eapply collectOne_failed.
  destruct (IH s1 w1) as (s2 & w2 & E2 & L2 & N2 & D2).
  { intros c' Hc'. eapply known_kept; [exact Hkept|]. apply Hknown. by right. }
  exists s2, w2. unfold mbind, M_bind. rewrite E1. split; [exact E2|]. rewrite L2, N2, D2.
  destruct Hone as [(o & -> & Ho)|[-> ->]]; [|done].
  destruct (Hknown c) as [Hm|[e He]]; [by left|..]; unfold processed in Ho.
  - rewrite Hm in Ho. by destruct Ho as (-> & _ & -> & _).
  - destruct (malformed c); [by destruct Ho as (-> & _ & -> & _)|]. rewrite He in Ho. by destruct Ho as (-> & _ & -> & _).
Qed.
End run.

(** C38: Collecting the same places again changes nothing: when a page has been read to its
    end without a failure, then at any later time at which the places are still there, any
    run of the same provider, under whatever campaign and limits, that meets some of its
    candidates again adds no lead, changes no lead and reports none as new or duplicate. *)
Theorem rerun_adds_no_lead `{Runtime, MathLibrary, RowOrder, P : LeadSourceProvider} opts opts' requestId requestId'
    cs cs' s s' s2 w w' w2 :
  collectPage opts requestId cs s w = (Ok s', w') → cs_failed s' = cs_failed s → cs_stoppedAtCap s' = false →
  placesKept (w_db w') (w_db w2) → cs' ⊆ cs →
  ∃ s2' w2', collectPage opts' requestId' cs' s2 w2 = (Ok s2', w2') ∧ leadsOf (w_db w2') = leadsOf (w_db w2) ∧
    newLeadCount s2' = newLeadCount s2 ∧ cs_duplicates s2' = cs_duplicates s2.
Proof.
  intros E Hf Hs Hk Hsub. apply collectPage_again. intros c Hc. eapply known_kept; [exact Hk|].
  by eapply collectPage_known; eauto.
Qed.

(** ** The requests to Google *)

Definition callsWithin (n : nat) (db db' : CollectDb) : Prop :=
  (length (placesCalls db') <= length (placesCalls db) + n)%nat.
Lemma calls_bind {A B} n m k (a : CM A) (b : A → CM B) : (n + m <= k)%nat →
  always (callsWithin n) a → (∀ x, always (callsWithin m) (b x)) → always (callsWithin k) (a ≫= b).
Proof.
  intros Hk. apply always_seq; unfold callsWithin; lia.
Qed.
Lemma calls_more {A} n k (a : CM A) : (n <= k)%nat → always (callsWithin n) a → always (callsWithin k) a.
Proof. intros Hk Ha w. specialize (Ha w). unfold callsWithin in *. lia. Qed.
#[local] Instance noCalls_preorder : PreOrder (callsWithin 0).
Proof. split; [intros db|intros a b c]; unfold callsWithin; lia. Qed.
Lemma noCalls_zoom {B} (m : M SystemDb B) : always (callsWithin 0) (zoom inCollect m).
Proof. intros w. rewrite zoom_run. unfold callsWithin. cbn. lia. Qed.

Section calls.
Context `{Runtime, MathLibrary, RowOrder, PlacesTransport} (maxRetries : Z) (query : CollectQuery) (caps : ProviderCaps).

Definition attempts : nat := Z.to_nat (maxRetries + 1).
Lemma calls_postFrom retries body : always (callsWithin (S retries)) (postFrom retries body).
Proof.
  assert (∀ A n (k : res PlacesAnswer → CM A), (∀ a, always (callsWithin n) (k a)) →
    always (callsWithin (S n)) (modify (logPlacesCall body) ;; answer ← tryCatch (ask (λ t, fetchPlaces t body)); k answer))
    as Hstep.
  { intros A n k Hk. apply (calls_bind 1 n); [lia| |intros _].
    - intros w. unfold callsWithin. cbn. rewrite length_app. cbn. lia.
    - apply (calls_bind 0 n); [lia| |done]. apply (always_tryCatch (callsWithin 0)), (always_ask (callsWithin 0)). }
  induction retries as [|retries IH]; cbn [postFrom]; apply Hstep; intros [a|e]; cbv zeta;
    repeat case_match;
    first [exact IH|eapply (calls_more 0); [lia|]; first [apply (always_throw (callsWithin 0))|apply (always_ret (callsWithin 0))]].
Qed.
Lemma calls_postJson body : always (callsWithin attempts) (postJson maxRetries body).
Proof.
  unfold postJson, attempts. destruct (Z.ltb_spec maxRetries 0).
  - eapply (calls_more 0); [lia|]. apply (always_throw (callsWithin 0)).
  - eapply calls_more; [|apply calls_postFrom]. lia.
Qed.
Lemma calls_placesNext st : always (callsWithin (if decide (pagesLeft caps st = 0%nat) then 0 else attempts))
  (placesNext maxRetries query caps st).
Proof.
  destruct st as [[i t]|]; cbn [placesNext]; [|apply (always_ret (callsWithin 0))].
  destruct (Z.leb_spec (pc_maxPages caps) i).
  { eapply (calls_more 0); [lia|]. apply (always_ret (callsWithin 0)). }
  rewrite decide_False by (cbn; lia). apply (calls_bind 0 attempts); [lia|apply (always_now (callsWithin 0))|intros startedAt].
  apply (calls_bind attempts 0); [lia|intros w; specialize (calls_postJson (searchBody query caps t) w); unfold tryCatch; by destruct (postJson _ _ w)|intros [data|e]].
  - apply (calls_bind 0 0); [lia|apply (always_lift_res (callsWithin 0))|intros ids].
    apply (calls_bind 0 0); [lia|apply (always_now (callsWithin 0))|intros; apply (always_ret (callsWithin 0))].
  - apply (calls_bind 0 0); [lia|apply (always_now (callsWithin 0))|intros; apply (always_ret (callsWithin 0))].
Qed.
Lemma noCalls_transaction {A} (m : CM A) : always (callsWithin 0) m → always (callsWithin 0) (transaction m).
Proof.
  intros Hm w. specialize (Hm w). unfold transaction, callsWithin in *. destruct (m w) as [[a|e] w']; cbn in *; lia.
Qed.
Lemma noCalls_same f : (∀ db, placesCalls (f db) = placesCalls db) → ∀ db, callsWithin 0 db (f db).
Proof. intros E db. unfold callsWithin. rewrite E. lia. Qed.
Ltac noCalls := repeat first
  [ progress cbv zeta | apply noCalls_zoom | apply noCalls_same; by intros
  | apply (always_modify (callsWithin 0)) | apply (always_guarded (callsWithin 0)); intros ? _
  | apply (always_ret (callsWithin 0)) | apply (always_query (callsWithin 0)) | apply (always_now (callsWithin 0))
  | apply (always_randomUUID (callsWithin 0)) | apply (always_tryCatch (callsWithin 0)) | apply noCalls_transaction
  | apply (always_bind (callsWithin 0)); [|intros] | unfold callsWithin; cbn; lia | case_match ].
Lemma noCalls_writeFacts opts r facts : always (callsWithin 0) (writeFacts opts r facts).
Proof.
  unfold writeFacts. destruct facts as [f|]; [|noCalls]. case_match; [|noCalls].
  induction (buildLeadFactInputs _ _ _ _) as [|x l IH]; cbn [for_each]; [noCalls|].
  apply (always_bind (callsWithin 0)); [noCalls|intros _; exact IH].
Qed.
Lemma noCalls_collectOne `{P : LeadSourceProvider} opts requestId c s :
  always (callsWithin 0) (collectOne opts requestId c s).
Proof.
  unfold collectOne, processCandidate, resolveNew, collectEvent, inPipeline, touchLastSeen, createObservation, createEntity.
  noCalls; apply noCalls_writeFacts.
Qed.
Lemma noCalls_collectPage `{P : LeadSourceProvider} opts requestId cs s :
  always (callsWithin 0) (collectPage opts requestId cs s).
Proof.
  revert s. induction cs as [|c cs IH]; intros s; cbn [collectPage]; [noCalls|]. case_match; [noCalls|].
  apply (always_bind (callsWithin 0)); [apply noCalls_collectOne|intros; apply IH].
Qed.
(** Any provider that makes at most [n] requests for each page it may give *)
Lemma calls_collectPages `{P : LeadSourceProvider, !LawfulSource P} n opts fuel st s :
  (∀ st, always (callsWithin (if decide (ls_remaining st = 0%nat) then 0 else n)) (ls_next st)) →
  always (callsWithin (ls_remaining st * n)) (collectPages opts fuel st s).
Proof.
  intros Hnext. revert st s. induction fuel as [|fuel IH]; intros st s; cbn [collectPages];
    [eapply (calls_more 0); [lia|apply (always_ret (callsWithin 0))]|].
  intros w. pose proof (Hnext st w) as Hcalls. pose proof (ls_decreases st w) as Hdec.
  unfold wp in Hdec. unfold mbind at 1, M_bind at 1. destruct (tryCatch (ls_next st) w) as [next w1] eqn:Et.
  unfold tryCatch in Et. destruct (ls_next st w) as [[[[page st']|]|e] w2]; simplify_eq; cbn [snd] in *.
  2,3: unfold callsWithin in *; cbn; case_decide; nia.
  rewrite decide_False in Hcalls by lia.
  match goal with |- callsWithin _ _ (w_db (?rest w1).2) =>
    assert (always (callsWithin (ls_remaining st' * n)) rest) as Hrest end.
  { apply (calls_bind 0 (ls_remaining st' * n)); [reflexivity|unfold recordRequest; noCalls|]. intros [rid|e]; cbv zeta;
      [|eapply (calls_more 0); [lia|apply (always_ret (callsWithin 0))]].
    case_match; [eapply (calls_more 0); [lia|apply (always_ret (callsWithin 0))]|].
    apply (calls_bind 0 (ls_remaining st' * n)); [reflexivity|apply noCalls_collectPage|]. intros s2. case_match; [|apply IH].
    eapply (calls_more 0); [lia|apply (always_ret (callsWithin 0))]. }
  specialize (Hrest w1). unfold callsWithin in *. nia.
Qed.

(** A run over Google Places sends a bounded number of requests: whatever the service
    answers, at most one for each page the caps allow and each retry of it. *)
Theorem google_calls_bounded opts w :
  (length (placesCalls (w_db (collectLeads (P := GooglePlacesProvider maxRetries query caps) opts w).2)) <=
   length (placesCalls (w_db w)) + Z.to_nat (pc_maxPages caps) * Z.to_nat (maxRetries + 1))%nat.
Proof.
  etrans; [apply (calls_collectPages (P := GooglePlacesProvider maxRetries query caps) attempts), calls_placesNext|].
  cbn [ls_remaining ls_first GooglePlacesProvider pagesLeft]. by rewrite Z.sub_0_r.
Qed.
End calls.

(** ** Evaluated *)

Section demo.
#[local] Existing Instance demo_runtime.
#[local] Instance demoMath : MathLibrary := {| sinN := id; cosN := id; asinN := id; squareN x := mulN x x |}.
#[local] Instance demoOrder : RowOrder := {| rowOrder l := l; rowOrder_perm l := Permutation_refl l |}.

Definition demoFacts (name domain address : string) : LeadFactsInput :=
  {| fi_businessName := Some name; fi_domain := Some domain; fi_officialDomain := None; fi_phone := None;
     fi_contactEmail := None; fi_contactFormUrl := None; fi_city := Some "Berlin"; fi_country := Some "DE";
     fi_formattedAddress := Some address; fi_latitude := None; fi_longitude := None; fi_category := None;
     fi_rating := None; fi_reviewCount := None; fi_businessStatus := None; fi_ownershipType := None |}.
Definition demoPlace (id name domain address : string) : MockBusiness :=
  {| mb_sourcePlaceId := id; mb_facts := demoFacts name domain address |}.
Definition demoBusinesses : list MockBusiness :=
  [demoPlace "p1" "Zahnarzt Nord" "nord.de" "Hauptstr. 1"; demoPlace "p2" "Zahnarzt Nord" "nord.de" "Hauptstr. 1";
   demoPlace "p3" "Zahnarzt Nord" "nord.de" "Ring 7"; demoPlace "p4" "Zahnarzt Nord" "anders.de" "Allee 9";
   demoPlace "p5" "Zahnarzt Nord" "anders.de" "Allee 9"; demoPlace " " "Praxis" "praxis.de" "Platz 3"].
Definition demoSource : LeadSourceProvider := MockLeadSource demoBusinesses
  {| cq_textQuery := "zahnarzt"; cq_locationBias := None |} {| pc_pageSize := 4; pc_maxPages := 3 |}.
Definition demoCollect : world CollectDb :=
  World {| collectSystem := demoSystem; sourceRequests := []; sourceEntities := []; sourceObservations := [];
           placesCalls := [] |} 0 0.
Definition demoCommand (max : Z) (limit : option string) : CM (option CollectSummary) :=
  collectLeadsCommand (P := demoSource) "dentists" max (ofZ 75) false limit.
Definition counts (r : res (option CollectSummary)) : option (list Z * bool) :=
  match r with
  | Ok (Some s) => Some ([cs_created s; cs_duplicates s; cs_refreshed s; cs_ambiguous s; cs_branches s; cs_rejected s;
      cs_failed s; cs_requests s; cs_pages s], cs_stoppedAtCap s)
  | _ => None
  end.
(** The fifth place is an exact copy of the fourth; the fourth was flagged, so the fifth is
    not found to be its duplicate and becomes a lead as well. *)
Example ambiguous_copy_collected_again :
  let '(r, w) := demoCommand 10 None demoCollect in
  counts r = Some ([1; 1; 0; 2; 1; 1; 0; 2; 2], false) ∧ size (leadsOf (w_db w)) = 5%nat.
Proof. by vm_compute. Qed.
(** The cap counts new leads; what is no number lifts it. *)
Example collect_limits :
  counts (demoCommand 2 None demoCollect).1 = Some ([1; 1; 0; 0; 1; 0; 0; 1; 1], true) ∧
  counts (demoCommand 2 (Some "two") demoCollect).1 = Some ([1; 1; 0; 2; 1; 1; 0; 2; 2], false).
Proof. by vm_compute. Qed.
Definition demoOptions : CollectOptions :=
  {| ca_runId := "uuid-0"; ca_campaign := "dentists"; ca_maxLeads := Some 2; ca_nearMeters := ofZ 75;
     ca_factsSource := FS_mock |}.
(** The run [uuid-0] has been started. *)
Definition demoRunning : world CollectDb :=
  (zoom inCollect (startRun "collect-leads:dentists" false) demoCollect).2.
Definition demoNorth (domain address : string) : DedupInput :=
  factsToDedupInput (demoFacts "Zahnarzt Nord" domain address).

Lemma collect_run_accounts_witness :
  counts (collectLeads (P := demoSource) demoOptions demoRunning).1 = Some ([1; 1; 0; 0; 1; 0; 0; 1; 1], true) ∧
  ∃ s w', collectLeads (P := demoSource) demoOptions demoRunning = (Ok (Some s), w') ∧
    Z.of_nat (size (leadsOf (w_db w'))) = Z.of_nat (size (leadsOf (w_db demoRunning))) + newLeadCount s ∧
    newLeadCount s <= 2.
Proof.
  split; [vm_compute; reflexivity|].
  destruct (collect_run_accounts (P := demoSource) demoOptions demoRunning) as [(s & w' & E & Hsize & Hcap & _) _].
  exists s, w'. split; [exact E|]. split; [exact Hsize|]. apply Hcap; [reflexivity|lia].
Defined.
(** The first page of the run, and the same two runs later *)
Definition demoCandidates : list RawCandidate := map mockCandidate (take 2 demoBusinesses).
Definition demoRequest (w : world CollectDb) : string * world CollectDb :=
  match recordRequest "uuid-0" "dentists" "mock" {| pm_fieldMask := "mock"; pm_pageIndex := 0; pm_query := JNull;
      pm_resultCount := 2; pm_billedTier := None; pm_estimatedCostUsd := None; pm_status := RS_OK;
      pm_startedAt := 0; pm_completedAt := None |} w with
  | (Ok id, w') => (id, w') | (Throw _, w') => ("", w')
  end.
Definition demoPage (w : world CollectDb) : res CollectSummary * world CollectDb :=
  collectPage (P := demoSource) demoOptions (demoRequest w).1 demoCandidates noneCollected (demoRequest w).2.
Definition ended {A} (r : res A) (a : A) : A := match r with Ok a' => a' | Throw _ => a end.
Lemma rerun_adds_no_lead_witness :
  let w1 := (demoPage demoRunning).2 in
  newLeadCount (ended (demoPage demoRunning).1 noneCollected) = 1 ∧
  ∃ s2 w2, collectPage (P := demoSource) demoOptions (demoRequest w1).1 (reverse demoCandidates) noneCollected
      (demoRequest w1).2 = (Ok s2, w2) ∧
    leadsOf (w_db w2) = leadsOf (w_db (demoRequest w1).2) ∧ newLeadCount s2 = 0 ∧ cs_duplicates s2 = 0.
Proof.
  cbv zeta. split; [vm_compute; reflexivity|].
  apply (rerun_adds_no_lead (P := demoSource) demoOptions demoOptions (demoRequest demoRunning).1
    (demoRequest (demoPage demoRunning).2).1 demoCandidates (reverse demoCandidates) noneCollected
    (ended (demoPage demoRunning).1 noneCollected) noneCollected (demoRequest demoRunning).2 (demoPage demoRunning).2).
  - vm_compute. reflexivity.
  - vm_compute. reflexivity.
  - vm_compute. reflexivity.
  - apply placesKept_same. vm_compute. reflexivity.
  - intros c. rewrite elem_of_reverse. trivial.
Defined.
End demo.
