(* ===== verification/BackfillSpecs.v ===== *)
(** * What a backfill guarantees

    It only adds the facts that are missing, of leads that no outreach is under way for,
    within its budget; and with a limit it never gets past the oldest leads. *)
From Stdlib Require QArith.
From S2P Require Import Prelude.
From S2P Require Import JsNumber.
From S2P Require Import JsText.
From S2P Require Import LeadLifecycle.
From S2P Require Import PipelineDb.
From S2P Require Import SystemDb.
From S2P Require Import LeadFacts.
From S2P Require Import PlaceDetails.
From S2P Require Import Qualification.
From S2P Require Import Collect.
From S2P Require Import Backfill.
From S2P Require Import LeadFactSpecs.
From S2P Require Import OutreachSpecs.
From S2P Require Import SendSafety.
From S2P Require Import ScheduledCommand.
From S2P Require Import JsonText.
From S2P Require Import LeadSource.
Open Scope string_scope.
Open Scope Z_scope.
Open Scope list_scope.

(** A fact that may be added: of the three types, of Google, and missing so far *)
Definition fillsGap (allowed : string → Prop) (before : list LeadFactRow) (r : LeadFactRow) : Prop :=
  lf_factType r ∈ BACKFILL_FACT_TYPES ∧ lf_sourceType r = FS_google_places ∧ lf_isCurrent r = true ∧
  allowed (lf_leadId r) ∧ ∀ r0, r0 ∈ before → factOf (lf_leadId r) (lf_factType r) r0 = true → lf_isCurrent r0 = false.
(** Of a well-formed store, every row stays as it is and only gaps are filled; nothing else
    of the database changes. *)
Definition fillsGaps (allowed : string → Prop) (db db' : SystemDb) : Prop := factsWf (leadFacts db) →
  ∃ new, db' = setLeadFacts (λ l, l ++ new) db ∧ factsWf (leadFacts db') ∧ Forall (fillsGap allowed (leadFacts db)) new.
#[global] Instance fillsGaps_preorder allowed : PreOrder (fillsGaps allowed).
Proof.
  split.
  - intros db Hwf. exists []. split_and!; [|done..]. unfold setLeadFacts. rewrite app_nil_r. by destruct db.
  - intros a b c Hab Hbc Hwf. destruct (Hab Hwf) as (n1 & -> & Hwf1 & H1).
    destruct (Hbc Hwf1) as (n2 & -> & Hwf2 & H2). exists (n1 ++ n2).
    split_and!; [|done|].
    + unfold setLeadFacts. cbn. by rewrite app_assoc.
    + apply Forall_app. split; [done|]. eapply Forall_impl; [exact H2|]. intros r (Ht & Hs & Hc & Ha & Hgap).
      split_and!; [done..|]. intros r0 Hr0. apply Hgap. cbn. apply elem_of_app. by left.
Qed.

Section store.
Context `{Runtime, UrlLibrary} (allowed : string → Prop).

(** Writing a fact of which there is no current one adds a row. *)
Lemma writeCurrentFact_adds f w : factsWf (leadFacts (w_db w)) →
  (∀ r0, r0 ∈ leadFacts (w_db w) → factOf (nf_leadId f) (nf_factType f) r0 = true → lf_isCurrent r0 = false) →
  wp (writeCurrentFact f) (λ _ w', ∃ id at_, w_db w' = setLeadFacts (λ l, l ++ [factRow id at_ f]) (w_db w) ∧
    factsWf (leadFacts (w_db w'))) w.
Proof.
  intros Hwf Hnone.
  assert (∀ id at_ l, l = leadFacts (w_db w) → map (supersedeFact (nf_leadId f) (nf_factType f) at_ id) l = l) as Hsame.
  { intros id at_ l ->. rewrite <-(map_id (leadFacts (w_db w))) at 2. apply map_ext_in. intros r Hr.
    apply list_elem_of_In in Hr. destruct (factOf (nf_leadId f) (nf_factType f) r) eqn:Ef; [|by apply supersede_other].
    pose proof (Hnone r Hr Ef) as Ec. apply supersede_history; [|done..].
    exact (proj1 (proj2 Hwf) r Hr). }
  assert (∀ id at_ n u, wp (
      modify (setLeadFacts (map (demoteCurrent (nf_leadId f) (nf_factType f) at_))) ;;
      guarded (checkInsertFact (factRow id at_ f)) (setLeadFacts (λ l, l ++ [factRow id at_ f])) ;;
      modify (setLeadFacts (map (linkSuperseded (nf_leadId f) (nf_factType f) id))) ;;
      mret id)
    (λ _ w', ∃ id at_, w_db w' = setLeadFacts (λ l, l ++ [factRow id at_ f]) (w_db w) ∧ factsWf (leadFacts (w_db w')))
    (World (w_db w) n u)) as Hrest.
  { intros id at_ n u. wp_run. intros Hcheck. exists id, at_.
    assert (id ∉ map lf_id (leadFacts (w_db w))) as Hfresh.
    { apply refuse_None in Hcheck. rewrite !Forall_cons in Hcheck. destruct Hcheck as (_ & Hpk & _).
      cbn [fst factRow lf_id] in Hpk. intros (r & Eid & Hr)%list_elem_of_fmap.
      apply not_true_iff_false in Hpk. apply Hpk, existsb_exists.
      exists (demoteCurrent (nf_leadId f) (nf_factType f) at_ r). split.
      - rewrite leadFacts_setLeadFacts. apply in_map. by apply list_elem_of_In.
      - apply bool_decide_eq_true. unfold demoteCurrent. by case_match. }
    assert (map (linkSuperseded (nf_leadId f) (nf_factType f) id)
        (map (demoteCurrent (nf_leadId f) (nf_factType f) at_) (leadFacts (w_db w)) ++ [factRow id at_ f]) =
      writtenFacts f id at_ (leadFacts (w_db w))) as Erows.
    { rewrite map_app, map_map. unfold writtenFacts. f_equal. cbn [map]. f_equal.
      unfold linkSuperseded. cbn [lf_id factRow]. rewrite (bool_decide_eq_true_2 (_ = _)) by done. by rewrite !andb_false_r. }
    split.
    - unfold setLeadFacts. cbn. rewrite Erows. unfold writtenFacts. by rewrite (Hsame id at_ _ eq_refl).
    - rewrite !leadFacts_setLeadFacts, Erows. by apply factsWf_written. }
  unfold writeCurrentFact. rewrite wp_bind, wp_randomUUID. cbn [w_db w_ticks w_uuids].
  destruct (nf_capturedAt f); rewrite wp_bind; [rewrite wp_ret|rewrite wp_now]; apply Hrest.
Qed.
Lemma current_found leadId t (l : list LeadFactRow) :
  List.find (λ r, factOf leadId t r && lf_isCurrent r) l = None →
  ∀ r0, r0 ∈ l → factOf leadId t r0 = true → lf_isCurrent r0 = false.
Proof. intros Hn r0 Hr0 Ef. apply list_elem_of_In in Hr0. pose proof (find_none _ _ Hn _ Hr0) as E. cbn in E. by rewrite Ef in E. Qed.

Definition backfillable (leadId : string) (f : NewLeadFact) : Prop :=
  nf_leadId f = leadId ∧ nf_factType f ∈ BACKFILL_FACT_TYPES ∧ nf_sourceType f = FS_google_places.
Lemma backfillFact_fills leadId f r : allowed leadId → backfillable leadId f →
  respects (fillsGaps allowed) (backfillFact leadId f r).
Proof.
  intros Ha (El & Ht & Hs) w. unfold backfillFact, getCurrentFact. rewrite wp_bind, wp_query.
  destruct (List.find _ _) as [e|] eqn:E; [by rewrite wp_ret|]. rewrite <-El in E.
  rewrite wp_bind. eapply wp_mono; [|apply (wp_imp (factsWf (leadFacts (w_db w)))); intros Hwf;
    apply (writeCurrentFact_adds f w Hwf); by apply current_found].
  intros i w' Hw'. rewrite wp_ret. intros Hwf. destruct (Hw' Hwf) as (id & at_ & E' & Hwf'). exists [factRow id at_ f].
  split_and!; [done|done|]. apply Forall_singleton. unfold fillsGap. cbn. split_and!; [done..|by rewrite El|].
  by apply current_found.
Qed.
Lemma backfillFacts_backfillable leadId placeId d t : Forall (backfillable leadId) (buildBackfillFacts leadId placeId d t).
Proof.
  clear allowed. unfold buildBackfillFacts. apply Forall_forall. intros f (v & Hv & E)%list_elem_of_omap.
  unfold googleFact in E. destruct v.2 as [raw|] eqn:Ev; [|done]. destruct (truthy _); [|done]. injection E as <-.
  split_and!; [done| |done]. cbn. rewrite !elem_of_cons, elem_of_nil in Hv. unfold BACKFILL_FACT_TYPES.
  rewrite !elem_of_cons. destruct Hv as [->|[->|[->|[]]]]; tauto.
Qed.
Lemma backfillMissing_fills leadId placeId t d : allowed leadId →
  always (fillsGaps allowed) (backfillMissing leadId placeId t d).
Proof.
  intros Ha. apply (always_transaction (fillsGaps allowed)). unfold boundLead.
  apply (respects_bind (fillsGaps allowed)).
  - apply (respects_bind (fillsGaps allowed)).
    + intros w. unfold getLead. rewrite wp_zoom, wp_query. cbn [w_db].
      assert (put onPipeline (view onPipeline (w_db w)) (w_db w) = w_db w) as -> by (by destruct (w_db w)). reflexivity.
    + intros l. case_match; [apply (respects_ret (fillsGaps allowed))|apply (respects_throw (fillsGaps allowed))].
  - intros _. apply (respects_fold_each (fillsGaps allowed)). intros f r Hf. apply backfillFact_fills; [done|].
    exact (proj1 (Forall_forall _ _) (backfillFacts_backfillable leadId placeId d t) f Hf).
Qed.
End store.

(** ** The loop *)

(** A client reads only. *)
Definition readsOnly (details : string → bool → BM (option PlaceDetails)) : Prop := ∀ p b, always eq (details p b).
Definition placeOfLead (l : Lead) : string := default "" (ld_placeId l).

Section loop.
Context `{Runtime, RowOrder, Collation, UrlLibrary} (config : BackfillConfig) (allowed : string → Prop).

(** Gaps are filled, and the first [k] places of a list are read, with room for [n] reads. *)
Definition backfills (places : list string) (n : Z) (db db' : BackfillDb) : Prop :=
  fillsGaps allowed (backfillSystem db) (backfillSystem db') ∧ attemptedLeads db' = attemptedLeads db ∧
  ∃ k, detailsReads db' = detailsReads db ++ take k places ∧ Z.of_nat k <= Z.max 0 n.
Lemma backfills_nothing places n db : backfills places n db db.
Proof. split_and!; [done|done|]. exists 0%nat. rewrite take_0, app_nil_r. split; [done|lia]. Qed.
Lemma backfills_fills places n db db' s : backfills places n db db' → fillsGaps allowed s (backfillSystem db) →
  backfills places n (put inBackfill s db) db'.
Proof. intros (Hf & Ha & Hr) Hs. split_and!; [cbn; by etrans|done..]. Qed.

Lemma backfillLoop_backfills details cs o : readsOnly details →
  Forall (λ c, allowed (ld_id c.1) ∧ truthy_opt (ld_placeId c.1) = true) cs →
  always (backfills (map (λ c, placeOfLead c.1) cs) (bc_MAX_REQUESTS config - bk_reads o)) (backfillLoop config details cs o).
Proof.
  intros Hclient. revert o. induction cs as [|[l missing] cs IH]; intros o Hcs; cbn [backfillLoop].
  { intros w. apply backfills_nothing. }
  apply Forall_cons in Hcs as [[Hl Hplace] Hcs]. cbn [fst] in Hl, Hplace.
  destruct (Z.leb_spec (bc_MAX_REQUESTS config) (bk_reads o)) as [|Hroom]; cbn [orb].
  { intros w. apply backfills_nothing. }
  destruct (ltN _ _). { intros w. apply backfills_nothing. }
  destruct (ld_placeId l) as [placeId|] eqn:Epl; [|done]. cbn [truthy_opt] in Hplace. rewrite Hplace.
  apply (always_seq (λ db db', db' = logRead placeId db)
    (backfills (map (λ c, placeOfLead c.1) cs) (bc_MAX_REQUESTS config - (bk_reads o + 1)))).
  - intros a b ->. split_and!; [done|done|]. exists 1%nat. cbn. unfold placeOfLead. rewrite Epl. split; [done|lia].
  - intros a b c -> (Hf & Ha & k & Hr & Hk). split_and!; [exact Hf|exact Ha|]. exists (S k). rewrite Hr. cbn.
    unfold placeOfLead at 2. rewrite Epl. cbn. rewrite <-app_assoc. split; [done|lia].
  - by intros w.
  - intros _. eapply (always_seq eq); [intros a b ->; apply backfills_nothing|by intros a b c ->|apply Hclient|].
    intros [d|]; [|by apply (IH {| bk_candidates := _; bk_reads := _; bk_written := _ |})].
    eapply (always_seq eq); [intros a b ->; apply backfills_nothing|by intros a b c ->|by intros w|]. intros nowD.
    apply (always_seq (λ db db', ∃ s, db' = put inBackfill s db ∧ fillsGaps allowed (backfillSystem db) s)
      (backfills (map (λ c, placeOfLead c.1) cs) (bc_MAX_REQUESTS config - (bk_reads o + 1)))).
    + intros a b (s & -> & Hs). split_and!; [exact Hs|done|]. exists 0%nat. cbn. rewrite take_0, app_nil_r. split; [done|lia].
    + intros a b c (s & -> & Hs) (Hf & Ha & Hr). split_and!; [cbn in Hf; by etrans|exact Ha|exact Hr].
    + intros w. rewrite zoom_run. eexists. split; [reflexivity|].
      exact (backfillMissing_fills allowed (ld_id l) placeId nowD d Hl (World (view inBackfill (w_db w)) (w_ticks w) (w_uuids w))).
    + intros r. by apply (IH {| bk_candidates := _; bk_reads := _; bk_written := _ |}).
Qed.
End loop.

(** ** The selection *)

Lemma selectFrom_selected enriched room s ordered l : l ∈ bs_selected (selectFrom enriched room s ordered) →
  l ∈ bs_selected s ∨ l ∈ ordered ∧ ineligibleReason enriched l = None.
Proof.
  revert s. induction ordered as [|x ordered IH]; intros s; cbn [selectFrom]; [by left|].
  rewrite elem_of_cons. destruct (ineligibleReason enriched x) as [reason|] eqn:Ex.
  - intros [Hl|[Hl ?]]%IH; [by left|right; tauto].
  - assert (l ∈ bs_selected s ++ [x] → l ∈ bs_selected s ∨ (l = x ∨ l ∈ ordered) ∧ ineligibleReason enriched l = None) as Hnew.
    { intros [Hl| ->%list_elem_of_singleton]%elem_of_app; [by left|right; by auto]. }
    destruct room as [n|]; [destruct (n <=? _); [exact Hnew|]|];
      (intros [Hl|[Hl ?]]%IH; [by apply Hnew|right; tauto]).
Qed.

Lemma selectFrom_length enriched n s ordered : Z.of_nat (length (bs_selected s)) < n →
  Z.of_nat (length (bs_selected (selectFrom enriched (Some n) s ordered))) <= n.
Proof.
  revert s. induction ordered as [|x ordered IH]; intros s Hs; cbn [selectFrom]; [lia|].
  destruct (ineligibleReason enriched x); [by apply IH|]. cbn [bs_selected]. rewrite length_app. cbn [length].
  destruct (Z.leb_spec n (Z.of_nat (length (bs_selected s) + 1))); cbn [bs_selected].
  - rewrite length_app. cbn. lia.
  - apply IH. cbn. rewrite length_app. cbn. lia.
Qed.

Section command.
Context `{Runtime, RowOrder, Collation, UrlLibrary}.

Definition systemLeads (db : BackfillDb) : gmap string Lead := leads (pipelineDb (backfillSystem db)).
(** A lead with a place and evidence of enrichment, which is neither in outreach nor dead *)
Definition eligible (db : BackfillDb) (leadId : string) : Prop := ∃ i l, systemLeads db !! i = Some l ∧ ld_id l = leadId ∧
  truthy_opt (ld_placeId l) = true ∧ ld_id l ∈ enrichmentEvidence db ∧ ld_status l ∉ BACKFILL_EXCLUDED_STATUSES ∧
  ld_status l ∉ BACKFILL_TERMINAL_STATUSES.
Lemma ineligible_None enriched l : ineligibleReason enriched l = None ↔
  truthy_opt (ld_placeId l) = true ∧ ld_id l ∈ enriched ∧ ld_status l ∉ BACKFILL_EXCLUDED_STATUSES ∧
  ld_status l ∉ BACKFILL_TERMINAL_STATUSES.
Proof.
  unfold ineligibleReason, isExcludedOutreachStatus, isTerminalStatus.
  destruct (truthy_opt (ld_placeId l)); cbn [negb]; [|naive_solver].
  repeat case_bool_decide; cbn [negb]; naive_solver.
Qed.
Definition selectedLeads (opts : PlacesBackfillOptions) (limit : option Z) (db : BackfillDb) : list Lead :=
  bs_selected (selectBackfillTargets (recentLeads 1000 (pipelineDb (backfillSystem db))) (bo_lead opts) limit
    (enrichmentEvidence db)).
Lemma selected_eligible opts limit db l : l ∈ selectedLeads opts limit db →
  eligible db (ld_id l) ∧ truthy_opt (ld_placeId l) = true.
Proof.
  intros Hl. cut ((∃ i, systemLeads db !! i = Some l) ∧ ineligibleReason (enrichmentEvidence db) l = None).
  { intros [[i Hi] Hn%ineligible_None]. split; [exists i, l; tauto|tauto]. }
  assert (∀ x, x ∈ recentLeads 1000 (pipelineDb (backfillSystem db)) → ∃ i, systemLeads db !! i = Some x) as Hrows.
  { intros x Hx. unfold recentLeads in Hx. apply elem_of_take in Hx as (n & Hx & _). apply list_elem_of_lookup_2 in Hx.
    rewrite sortBy_perm, rowOrder_perm in Hx. apply list_elem_of_fmap in Hx as ([i y] & -> & Hy).
    apply elem_of_map_to_list in Hy. by exists i. }
  unfold selectedLeads, selectBackfillTargets in Hl. destruct (bo_lead opts) as [id|].
  - destruct (List.find _ _) as [x|] eqn:Ex; [|by apply not_elem_of_nil in Hl]. apply find_some in Ex as [Hx _].
    apply list_elem_of_In in Hx. destruct (ineligibleReason _ x) eqn:Er; [by apply not_elem_of_nil in Hl|].
    apply list_elem_of_singleton in Hl as ->. auto.
  - apply selectFrom_selected in Hl as [Hl|[Hl Hn]]; [by apply not_elem_of_nil in Hl|].
    rewrite sortBy_perm in Hl. auto.
Qed.
Lemma selected_limited opts n db : backfillLimit (bo_limit opts) = Ok (Some n) →
  Z.of_nat (length (selectedLeads opts (Some n) db)) <= n.
Proof.
  intros El. assert (0 < n) as Hn.
  { unfold backfillLimit in El. destruct (bo_limit opts) as [t|]; [|done]. destruct (truthy t); [|done].
    destruct (parseInt10 t) as [m|]; [|done]. destruct (Z.leb_spec m 0); [done|]. by simplify_eq. }
  unfold selectedLeads, selectBackfillTargets. destruct (bo_lead opts) as [id|].
  - destruct (List.find _ _) as [x|]; [destruct (ineligibleReason _ x)|]; cbn; lia.
  - apply selectFrom_length. cbn. lia.
Qed.
(** Filling gaps never changes which leads are selected. *)
Lemma selected_kept allowed opts limit db db' : factsWf (leadFacts (backfillSystem db)) →
  fillsGaps allowed (backfillSystem db) (backfillSystem db') → attemptedLeads db' = attemptedLeads db →
  selectedLeads opts limit db' = selectedLeads opts limit db.
Proof.
  intros Hwf Hf Ha. destruct (Hf Hwf) as (new & E & _ & Hnew). unfold selectedLeads.
  assert (enrichmentEvidence db' = enrichmentEvidence db) as ->; [|by rewrite E].
  unfold enrichmentEvidence. rewrite Ha, E. unfold setLeadFacts. cbn [leadFacts]. do 2 f_equal.
  rewrite List.filter_app. rewrite <-(app_nil_r (List.filter _ (leadFacts (backfillSystem db)))) at 2. f_equal.
  clear E. induction Hnew as [|r new (Ht & _) _ IH]; [done|]. cbn.
  rewrite (bool_decide_eq_false_2 (lf_factType r ∈ _)); [rewrite andb_false_r; exact IH|].
  unfold BACKFILL_FACT_TYPES, GOOGLE_PLACES_IDENTITY_FACT_TYPES in *. rewrite !elem_of_cons in *. rewrite elem_of_nil in *.
  destruct Ht as [->|[->|[->|[]]]]; naive_solver.
Qed.

Lemma candidates_selected opts limit db c : c ∈ backfillCandidates opts limit db → c.1 ∈ selectedLeads opts limit db.
Proof.
  unfold backfillCandidates. intros [(l & -> & Hl)%list_elem_of_fmap _]%elem_of_List_filter. exact Hl.
Qed.
(** A run, live or not: gaps are filled, and only selected leads are read. *)
Definition filled (config : BackfillConfig) (opts : PlacesBackfillOptions) (db db' : BackfillDb) : Prop :=
  fillsGaps (eligible db) (backfillSystem db) (backfillSystem db') ∧ attemptedLeads db' = attemptedLeads db ∧
  ∃ reads, detailsReads db' = detailsReads db ++ reads ∧ Z.of_nat (length reads) <= Z.max 0 (bc_MAX_REQUESTS config) ∧
    ∀ p, p ∈ reads → ∃ limit l, backfillLimit (bo_limit opts) = Ok limit ∧ l ∈ selectedLeads opts limit db ∧
      missingOf l db ≠ [] ∧ p = placeOfLead l.
Lemma filled_nothing config opts db : filled config opts db db.
Proof.
  split_and!; [done|done|]. exists []. rewrite app_nil_r. split_and!; [done|cbn; lia|].
  intros p Hp. by apply not_elem_of_nil in Hp.
Qed.
Lemma command_filled client config opts : (∀ details, client = Some details → readsOnly details) →
  always (filled config opts) (placesBackfillCommand client config opts).
Proof.
  intros Hclient w. unfold placesBackfillCommand, mbind, M_bind.
  destruct (backfillLimit (bo_limit opts)) as [limit|e] eqn:Elimit; cbn [lift_res]; [|apply filled_nothing].
  cbn. destruct (bo_confirm opts); cbn [negb]; [|apply filled_nothing].
  destruct (bc_ALLOW_PAID_READS config); cbn [negb]; [|apply filled_nothing].
  unfold assertLiveCallsAllowed. destruct (bc_DRY_RUN config); [apply filled_nothing|]. cbn.
  destruct client as [details|]; [|apply filled_nothing].
  set (cs := backfillCandidates opts limit (w_db w)).
  destruct (backfillLoop_backfills config (eligible (w_db w)) details cs
    {| bk_candidates := cs; bk_reads := 0; bk_written := 0 |}) with (w := w) as (Hf & Ha & k & Hr & Hk).
  - by apply Hclient.
  - apply Forall_forall. intros c Hc. by eapply selected_eligible, candidates_selected.
  - split_and!; [exact Hf|exact Ha|]. eexists. split; [exact Hr|]. cbn [bk_reads] in Hk.
    rewrite length_take, length_map. split; [lia|].
    intros p (i & Hp & _)%elem_of_take. apply list_elem_of_lookup_2, list_elem_of_fmap in Hp as (c & -> & Hc).
    exists limit, c.1. split_and!; [done|by apply candidates_selected| |done].
    unfold cs, backfillCandidates in Hc. apply elem_of_List_filter in Hc as [(l & -> & _)%list_elem_of_fmap Hm].
    cbn [fst snd] in *. apply negb_true_iff, bool_decide_eq_false in Hm. exact Hm.
Qed.
End command.


(** A limited backfill does not advance: the limit counts the oldest eligible leads,
    complete or not, so whatever the earlier runs have filled in, a run with the same
    limit reads only places of the [n] leads that the first one selected, and once nothing of
    them is missing it does nothing - however many later leads have gaps. *)
Theorem limited_backfill_stalls `{Runtime, RowOrder, Collation, UrlLibrary} client config opts n allowed db w :
  (∀ details, client = Some details → readsOnly details) → factsWf (leadFacts (backfillSystem db)) →
  backfillLimit (bo_limit opts) = Ok (Some n) →
  fillsGaps allowed (backfillSystem db) (backfillSystem (w_db w)) → attemptedLeads (w_db w) = attemptedLeads db →
  let w' := (placesBackfillCommand client config opts w).2 in
  Z.of_nat (length (selectedLeads opts (Some n) db)) <= n ∧
  (∃ reads, detailsReads (w_db w') = detailsReads (w_db w) ++ reads ∧
     ∀ p, p ∈ reads → p ∈ map placeOfLead (selectedLeads opts (Some n) db)) ∧
  ((∀ l, l ∈ selectedLeads opts (Some n) db → missingOf l (w_db w) = []) → w_db w' = w_db w).
Proof.
  intros Hclient Hwf Hlimit Hf Ha w'. pose proof (selected_kept allowed opts (Some n) db (w_db w) Hwf Hf Ha) as Hsel.
  split_and!.
  - by apply selected_limited.
  - destruct (command_filled client config opts Hclient w) as (_ & _ & reads & Hr & _ & Hp).
    exists reads. split; [exact Hr|]. intros p Hin. destruct (Hp p Hin) as (limit & l & E & Hl & _ & ->).
    rewrite Hlimit in E. injection E as <-. rewrite Hsel in Hl. by apply list_elem_of_fmap_2.
  - intros Hcomplete. unfold w', placesBackfillCommand, mbind, M_bind. rewrite Hlimit. cbn.
    assert (backfillCandidates opts (Some n) (w_db w) = []) as ->.
    { destruct (backfillCandidates opts (Some n) (w_db w)) as [|c cs] eqn:E; [done|]. exfalso.
      assert (c ∈ backfillCandidates opts (Some n) (w_db w)) as Hc by (rewrite E; by left).
      pose proof (candidates_selected _ _ _ _ Hc) as Hl. rewrite Hsel in Hl. apply Hcomplete in Hl.
      unfold backfillCandidates in Hc. apply elem_of_List_filter in Hc as [(l & -> & _)%list_elem_of_fmap Hm].
      cbn [fst snd] in *. by rewrite Hl in Hm. }
    destruct (bo_confirm opts); [|done]. destruct (bc_ALLOW_PAID_READS config); [|done]. cbn.
    unfold assertLiveCallsAllowed. destruct (bc_DRY_RUN config); [done|]. by destruct client.
Qed.

(** ** Evaluated *)

Section demo.
#[local] Existing Instance demo_runtime.
#[local] Instance demoRows : RowOrder := {| rowOrder l := l; rowOrder_perm l := Permutation_refl l |}.
#[local] Instance demoCollation : Collation := {| localeCompare := byCodeUnits |}.
#[local] Instance demoUrls : UrlLibrary := {| parseUrl _ := None |}.
#[local] Instance demoDetails : DetailsTransport := {| fetchDetails _ _ _ := Ok {| pa_status := 200; pa_statusText := "OK";
  pa_body := stringify (JObj [("rating", JReal (ofDecimal false 47 (-1))); ("userRatingCount", JNum 12);
                              ("nationalPhoneNumber", JStr "030 123456"); ("businessStatus", JStr "CLOSED")]) |} |}.
Definition demoBackfillFact (id lead value : string) (t : FactType) : LeadFactRow :=
  {| lf_id := id; lf_leadId := lead; lf_factType := t; lf_value := value; lf_normalizedValue := None;
     lf_sourceType := FS_manual; lf_sourceUrl := None; lf_capturedAt := 0; lf_confidence := QArith_base.Qmake 1 1;
     lf_supersededBy := None; lf_supersededAt := None; lf_isCurrent := true |}.
(** The older lead is complete, the younger one has a rating that a person has entered. *)
Definition demoBackfillDb : BackfillDb :=
  let p := demoPipelineDb in
  {| backfillSystem := setLeadFacts (λ _, [demoBackfillFact "f1" "a" "4.2" FT_rating;
         demoBackfillFact "f2" "a" "7" FT_review_count; demoBackfillFact "f3" "a" "030 99" FT_phone;
         demoBackfillFact "f4" "b" "4.9" FT_rating])
       (put onPipeline
         {| runIds := runIds p; gmailDraftIds := gmailDraftIds p;
            leads := {["a" := candidateLead "a" "p1" "google_places" 1; "b" := candidateLead "b" "p2" "google_places" 2]};
            pipelineEvents := pipelineEvents p; schedules := schedules p; attempts := attempts p;
            readinessApprovals := readinessApprovals p; suppressions := suppressions p; dispatched := dispatched p |}
         demoSystem);
     attemptedLeads := ["a"; "b"]; detailsReads := [] |}.
Definition demoBackfillConfig : BackfillConfig :=
  {| bc_ALLOW_PAID_READS := true; bc_DRY_RUN := false; bc_MAX_REQUESTS := 5; bc_MAX_COST_USD := ofZ 1 |}.
Definition demoBackfill (limit : option string) : BM BackfillOutcome :=
  placesBackfillCommand (Some googleDetails) demoBackfillConfig
    {| bo_lead := None; bo_limit := limit; bo_confirm := true |}.
Lemma demo_facts_wf : factsWf (leadFacts (backfillSystem demoBackfillDb)).
Proof.
  split_and!.
  - intros r r' Hr Hr' _ _. cbn in Hr, Hr'. rewrite !elem_of_cons, elem_of_nil in Hr, Hr'.
    destruct Hr as [->|[->|[->|[->|[]]]]], Hr' as [->|[->|[->|[->|[]]]]]; done.
  - intros r Hr. cbn in Hr. rewrite !elem_of_cons, elem_of_nil in Hr. by destruct Hr as [->|[->|[->|[->|[]]]]].
  - apply (bool_decide_unpack (NoDup _)). vm_compute. exact I.
Qed.
Lemma google_readsOnly : readsOnly googleDetails.
Proof.
  intros p b. unfold googleDetails. apply (always_bind eq); [apply (always_ask eq)|intros a].
  case_match; [|apply (always_ret eq)]. case_match; [|apply (always_throw eq)].
  apply (always_bind eq); [apply (always_lift_res eq)|intros; apply (always_ret eq)].
Qed.
Lemma limited_backfill_stalls_witness :
  missingOf (candidateLead "b" "p2" "google_places" 2) demoBackfillDb = [FT_review_count; FT_phone] ∧
  w_db (demoBackfill (Some "1") (World demoBackfillDb 0 0)).2 = demoBackfillDb.
Proof.
  split; [vm_compute; reflexivity|].
  apply (limited_backfill_stalls (Some googleDetails) demoBackfillConfig
    {| bo_lead := None; bo_limit := Some "1"; bo_confirm := true |} 1 (λ _, True) demoBackfillDb (World demoBackfillDb 0 0)).
  - intros details Hd. injection Hd as <-. exact google_readsOnly.
  - exact demo_facts_wf.
  - reflexivity.
  - reflexivity.
  - reflexivity.
  - intros l Hl. vm_compute in Hl. apply list_elem_of_singleton in Hl as ->. vm_compute. reflexivity.
Defined.
End demo.
