(* ===== verification/ProspectSpecs.v ===== *)
(** * What prospecting guarantees

    The circuit breaker trips exactly on three failures in a row; a run ends within its
    budgets and its row says how; and two things that do not work: a controlled test, and
    a place of a run that has crashed. *)
From Stdlib Require QArith.
From S2P Require Import Prelude.
From S2P Require Import JsNumber.
From S2P Require Import JsText.
From S2P Require Import JsonText.
From S2P Require Import LeadLifecycle.
From S2P Require Import PipelineDb.
From S2P Require Import Suppression.
From S2P Require Import SystemDb.
From S2P Require Import LeadFacts.
From S2P Require Import LeadNormalize.
From S2P Require Import LeadSource.
From S2P Require Import PlaceDetails.
From S2P Require Import Qualification.
From S2P Require Import Collect.
From S2P Require Import Prospect.
From S2P Require Import ProspectRun.
From S2P Require Import OutreachSpecs.
From S2P Require Import SendSafety.
From S2P Require Import ScheduledCommand.
From S2P Require Import CollectSpecs.
Open Scope string_scope.
Open Scope Z_scope.
Open Scope list_scope.

(** ** The circuit breaker *)

(** The results so far, the latest first, and the state the breaker is in after them *)
Fixpoint breakerAfter (ms : Z) (history : list ProspectCandidateResult) : Breaker :=
  match history with
  | [] => newBreaker
  | r :: history => (observe ms r (breakerAfter ms history)).2
  end.
(** The last three results are all of a kind. *)
Definition lastThree (p : ProspectCandidateResult → bool) (history : list ProspectCandidateResult) : bool :=
  match history with r1 :: r2 :: r3 :: _ => p r1 && p r2 && p r3 | _ => false end.
Definition failsAs (s : string) (r : ProspectCandidateResult) : bool :=
  verifierFailure r && bool_decide (signature r = s).
Definition failsFast (ms : Z) (r : ProspectCandidateResult) : bool := verifierFailure r && fastFailure ms r.
(** What the breaker means to do, in terms of the history *)
Definition breakerSpec (ms : Z) (r : ProspectCandidateResult) (history : list ProspectCandidateResult) : option string :=
  if lastThree (failsAs (signature r)) (r :: history) then Some ("repeated_verifier_failure:" +:+ signature r)
  else if lastThree (failsFast ms) (r :: history) then Some "repeated_extremely_fast_verifier_failure" else None.

(** How many of the latest satisfy [p] *)
Fixpoint latest (p : ProspectCandidateResult → bool) (history : list ProspectCandidateResult) : Z :=
  match history with [] => 0 | r :: history => if p r then latest p history + 1 else 0 end.
Lemma latest_nonneg p h : 0 <= latest p h.
Proof. induction h as [|r h IH]; cbn; [lia|]. destruct (p r); lia. Qed.
Lemma latest_lastThree p h : (3 <=? latest p h) = lastThree p h.
Proof.
  destruct h as [|r1 [|r2 [|r3 h]]]; cbn; [done|by destruct (p r1)|destruct (p r1), (p r2); done|].
  pose proof (latest_nonneg p h). destruct (p r1), (p r2), (p r3); cbn -[Z.leb]; first [done|apply Z.leb_le; lia|apply Z.leb_gt; lia].
Qed.
Lemma breakerAfter_counts ms h :
  cb_consecutiveFast (breakerAfter ms h) = latest (failsFast ms) h ∧
  cb_lastSignature (breakerAfter ms h) =
    match h with r :: _ => if verifierFailure r then Some (signature r) else None | [] => None end ∧
  cb_sameSignature (breakerAfter ms h) = match h with r :: _ => latest (failsAs (signature r)) h | [] => 0 end.
Proof.
  induction h as [|r h (IHf & IHl & IHs)]; [done|]. cbn [breakerAfter latest]. unfold observe, failsFast at 1, failsAs at 1.
  destruct (verifierFailure r) eqn:Er; cbn [negb andb]; [|done].
  rewrite IHf, IHl, IHs. cbn. rewrite (bool_decide_eq_true_2 (signature r = signature r)) by done. split_and!; [done|done|].
  destruct h as [|r' h]; [done|]. destruct (verifierFailure r') eqn:Er'; cbn [latest].
  - assert (∀ s, failsAs s r' = bool_decide (signature r' = s)) as E by (intros; unfold failsAs; by rewrite Er').
    rewrite !E, (bool_decide_eq_true_2 (signature r' = signature r')) by done.
    case_bool_decide as Hs; [injection Hs as ->; by rewrite bool_decide_eq_true_2|].
    by rewrite bool_decide_eq_false_2 by congruence.
  - assert (failsAs (signature r) r' = false) as -> by (unfold failsAs; by rewrite Er').
    by rewrite bool_decide_eq_false_2.
Qed.

(** The breaker is what it means to be: fed the results one by one it stops a run
    exactly when the last three were failures of the verification of one and the same
    kind, or failures within the time limit, whatever happened before; any other result
    in between starts it anew. *)
Theorem breaker_trips_exactly ms r history :
  (observe ms r (breakerAfter ms history)).1 = breakerSpec ms r history.
Proof.
  destruct (breakerAfter_counts ms history) as (Hf & Hl & Hs). destruct (breakerAfter_counts ms (r :: history)) as (Hf' & _ & Hs').
  unfold breakerSpec. rewrite <-!latest_lastThree. cbn [breakerAfter] in Hf', Hs'. rewrite <-Hf', <-Hs'.
  unfold observe in *. destruct (verifierFailure r); cbn; [done|]. done.
Qed.

(** ** What the steps of a run leave as it was *)

(** Leads are kept, and each stays stored under its own id. *)
Definition leadsEvolve (m m' : gmap string Lead) : Prop :=
  (∀ i, is_Some (m !! i) → is_Some (m' !! i)) ∧ (map_Forall (λ i l, ld_id l = i) m → map_Forall (λ i l, ld_id l = i) m').
#[global] Instance leadsEvolve_preorder : PreOrder leadsEvolve.
Proof. split; [done|]. intros a b c [] []. split; auto. Qed.
Definition pipelineEvolves (p p' : PipelineDb) : Prop := leadsEvolve (leads p) (leads p').
Definition systemEvolves (s s' : SystemDb) : Prop := pipelineEvolves (pipelineDb s) (pipelineDb s').
Definition intakeEvolves (s s' : IntakeDb) : Prop := systemEvolves (systemDb s) (systemDb s').
#[global] Instance pipelineEvolves_preorder : PreOrder pipelineEvolves.
Proof. split; [by intros a|]. intros a b c H1 H2. exact (transitivity (R := leadsEvolve) H1 H2). Qed.
#[global] Instance systemEvolves_preorder : PreOrder systemEvolves.
Proof. split; [by intros a|]. intros a b c H1 H2. exact (transitivity (R := pipelineEvolves) H1 H2). Qed.
#[global] Instance intakeEvolves_preorder : PreOrder intakeEvolves.
Proof. split; [by intros a|]. intros a b c H1 H2. exact (transitivity (R := systemEvolves) H1 H2). Qed.

Section evolve.
Context `{Runtime}.

Lemma evolve_status id st t : respects pipelineEvolves (updateLeadStatus id st t).
Proof.
  apply (respects_modify pipelineEvolves). intros db. unfold pipelineEvolves. destruct db; cbn. split.
  - intros i Hi. destruct (decide (id = i)) as [->|]; [|by rewrite lookup_alter_ne].
    rewrite lookup_alter_eq. by apply fmap_is_Some.
  - intros Hkeys i l Hl. destruct (decide (id = i)) as [->|]; [|rewrite lookup_alter_ne in Hl by done; by apply Hkeys].
    rewrite lookup_alter_eq in Hl. apply fmap_Some in Hl as (l0 & Hl0 & ->). apply Hkeys in Hl0. by destruct l0.
Qed.
Lemma evolve_event e : respects pipelineEvolves (recordEvent e).
Proof.
  unfold recordEvent. respects_tac. apply (respects_guarded pipelineEvolves). intros db _. unfold pipelineEvolves. by destruct db.
Qed.
#[local] Hint Resolve evolve_status evolve_event : outreach.
Lemma evolve_transition id to : respects pipelineEvolves (leadTransition id to).
Proof. unfold leadTransition, getLead. cbv zeta. respects_tac. Qed.
#[local] Hint Resolve evolve_transition : outreach.
Lemma evolve_inPipeline {A} (m : PM A) : respects pipelineEvolves m → respects systemEvolves (zoom onPipeline m).
Proof. intros Hm. eapply respects_zoom; [|exact Hm]. by intros. Qed.
Lemma evolve_writeFact f : respects systemEvolves (writeCurrentFact f).
Proof.
  unfold writeCurrentFact. respects_tac.
  1,3: apply (respects_modify systemEvolves); by intros.
  apply (respects_guarded systemEvolves); by intros.
Qed.
#[local] Hint Resolve evolve_writeFact : outreach.
Lemma evolve_persist `{UrlLibrary} leadId placeId t d phone : always systemEvolves (persistDetails leadId placeId t d phone).
Proof.
  apply (always_transaction systemEvolves). unfold boundLead, getLead.
  apply (respects_bind systemEvolves); [|intros _; apply (respects_fold_each systemEvolves); intros f n _; unfold persistFact, getCurrentFact; cbv zeta; respects_tac].
  apply (respects_bind systemEvolves); [apply evolve_inPipeline; respects_tac|intros; respects_tac].
Qed.
Lemma evolve_qualify leadId campaign niche rules t : always intakeEvolves (qualify leadId campaign niche rules t).
Proof.
  assert (∀ A (m : PM A), respects pipelineEvolves m → respects intakeEvolves (zoom onSystem (zoom onPipeline m))) as Hz.
  { intros A m Hm. eapply respects_zoom; [|by apply evolve_inPipeline]. by intros. }
  apply (always_transaction intakeEvolves). apply (respects_bind intakeEvolves); [apply Hz; unfold getLead; respects_tac|].
  intros [l|]; [|respects_tac]. case_match; [respects_tac|]. apply (respects_bind intakeEvolves).
  { apply Hz. unfold advanceToReady. cbv zeta. respects_tac. }
  intros _. apply (respects_bind intakeEvolves); [respects_tac|intros suppressed].
  apply (respects_bind intakeEvolves); [eapply (respects_zoom _ systemEvolves); [by intros|unfold listCurrentFacts; respects_tac]|intros facts].
  cbv zeta. apply (respects_bind intakeEvolves).
  { unfold saveResult. apply (respects_bind intakeEvolves); [respects_tac|intros id].
    apply (respects_bind intakeEvolves); [apply (respects_guarded intakeEvolves); by intros|intros _].
    apply (respects_bind intakeEvolves); [|intros; respects_tac].
    case_match; [apply (respects_guarded intakeEvolves); by intros|respects_tac]. }
  intros _. apply (respects_bind intakeEvolves); [apply Hz; respects_tac|intros; respects_tac].
Qed.
End evolve.

Definition prospectSystem (db : ProspectDb) : SystemDb := collectSystem (prospectCollect db).
Definition prospectLeads (db : ProspectDb) : gmap string Lead := leads (pipelineDb (prospectSystem db)).
(** The foreign keys that a run relies on: a lead is stored under its id, and the lead of
    a place exists. *)
Record sound (db : ProspectDb) : Prop := {
  so_keyed : map_Forall (λ i l, ld_id l = i) (prospectLeads db);
  so_places : Forall (λ e, is_Some (prospectLeads db !! so_leadId e)) (sourceEntities (prospectCollect db));
}.
(** No step but the run's own touches its tables. *)
Definition keepsTables (db db' : ProspectDb) : Prop :=
  prospectRuns db' = prospectRuns db ∧ prospectCandidates db' = prospectCandidates db.
Definition harmless (db db' : ProspectDb) : Prop :=
  keepsTables db db' ∧ leadsEvolve (prospectLeads db) (prospectLeads db') ∧ (sound db → sound db').
#[global] Instance harmless_preorder : PreOrder harmless.
Proof.
  split; [intros a; by split_and!|]. intros a b c ([] & L1 & S1) ([] & L2 & S2).
  split_and!; [split; congruence|by etrans|auto].
Qed.
Lemma harmless_leads db db' :
  keepsTables db db' → sourceEntities (prospectCollect db') = sourceEntities (prospectCollect db) →
  leadsEvolve (prospectLeads db) (prospectLeads db') → harmless db db'.
Proof.
  intros Hk He Hl. split_and!; [done..|]. intros [Hs Hp]. split; [by apply Hl|]. rewrite He.
  eapply Forall_impl; [exact Hp|]. intros e. apply Hl.
Qed.
Lemma harmless_system {A} (m : SM A) : always systemEvolves m → always harmless (inSystem m).
Proof.
  intros Hm. unfold inSystem. eapply (always_zoom onCollect (λ c c', sourceEntities c' = sourceEntities c ∧
    systemEvolves (collectSystem c) (collectSystem c'))).
  - intros s c [He Hl]. by apply harmless_leads.
  - eapply always_zoom; [|exact Hm]. by intros s a Ha.
Qed.
Lemma harmless_intake {A} (m : M IntakeDb A) : always intakeEvolves m → always harmless (zoom onIntake m).
Proof. apply always_zoom. intros s i Hi. by apply harmless_leads. Qed.

(** ** The loop *)

Definition storable (r : ProspectCandidateResult) (db : ProspectDb) : Prop :=
  (∀ l, px_leadId r = Some l → is_Some (prospectLeads db !! l)) ∧
  (∀ ms, px_failureElapsedMs r = Some ms → 0 <= ms).
Definition costsOne (r : ProspectCandidateResult) : Prop :=
  0 <= px_detailsRequests r <= 1 ∧ 0 <= px_websiteVerifications r <= 1.
(** A processor that names leads that exist, makes at most one paid call of each kind for a
    candidate and leaves the tables of the runs alone *)
Definition handled (db : ProspectDb) (r : ProspectCandidateResult) (db' : ProspectDb) : Prop :=
  harmless db db' ∧ storable r db' ∧ costsOne r.
Definition behaved (process : ProcessInput → XM ProspectCandidateResult) : Prop := ∀ i w, sound (w_db w) →
  awp (process i) (λ r w', handled (w_db w) r (w_db w')) (λ w', harmless (w_db w) (w_db w')) w.

Section loop.
Context `{Runtime} (deps : ProspectDeps) (options : ResolvedProspectInput).

Definition spent (s : ProspectLoop) : Z * Z := (ec_placeDetails (lp_calls s), ec_websiteVerification (lp_calls s)).
Definition target : Z := ri_targetQualified options.
Definition qualifiedCount (s : ProspectLoop) : Z := Z.of_nat (length (lp_qualified s)).
Definition maxDetails : Z := pl_maxDetails (dp_limits deps).
Definition maxWebsites : Z := pl_maxWebsiteVerifications (dp_limits deps).
(** Between two points of the loop that are [n] candidates apart at most *)
Record advances (n : Z) (s s' : ProspectLoop) : Prop := {
  ad_processed : lp_processed s <= lp_processed s' <= lp_processed s + n;
  ad_qualified : lp_qualified s `prefix_of` lp_qualified s';
  ad_target : qualifiedCount s' <= Z.max target (qualifiedCount s);
  ad_details : ec_placeDetails (lp_calls s) <= ec_placeDetails (lp_calls s') <= Z.max maxDetails (ec_placeDetails (lp_calls s));
  ad_websites : ec_websiteVerification (lp_calls s) <= ec_websiteVerification (lp_calls s') <=
                Z.max maxWebsites (ec_websiteVerification (lp_calls s));
  ad_located : ec_locationResolution (lp_calls s') = ec_locationResolution (lp_calls s) ∧
               ec_nearbySearch (lp_calls s') = ec_nearbySearch (lp_calls s);
}.
(** Why the loop is where it is *)
Definition explained (s : ProspectLoop) : Prop :=
  (lp_result s = Some TARGET_REACHED ↔ target <= qualifiedCount s) ∧
  (lp_result s = Some RUN_SYSTEMIC_FAILURE ↔ is_Some (lp_reason s)) ∧
  (lp_result s = Some EXTERNAL_BUDGET_EXHAUSTED → budgetExhausted deps (lp_calls s) = true) ∧
  lp_result s ≠ Some CANDIDATE_BUDGET_EXHAUSTED.
Lemma advances_refl s : qualifiedCount s < target → advances 0 s s.
Proof. intros Hs. split; try done; lia. Qed.
Lemma advances_trans n m s1 s2 s3 : advances n s1 s2 → advances m s2 s3 → advances (n + m) s1 s3.
Proof. intros [P1 Q1 T1 D1 W1 L1] [P2 Q2 T2 D2 W2 L2]. split; [lia|by etrans|lia|lia|lia|]. split; lia. Qed.
Lemma advances_stop n result reason s s' : advances n s s' → advances n s (stop result reason s').
Proof. by intros []. Qed.
Lemma advances_more n m s s' : n <= m → advances n s s' → advances m s s'.
Proof. intros Hn []. split; try done; lia. Qed.

Lemma judge_advances r s : budgetExhausted deps (lp_calls s) = false → costsOne r → lp_result s = None → lp_reason s = None →
  qualifiedCount s < target → advances 1 s (judge options r s) ∧ explained (judge options r s) ∧
    lp_processed (judge options r s) = lp_processed s + 1 ∧
    (lp_result (judge options r s) = None → lp_reason (judge options r s) = None).
Proof.
  intros [Hd Hw]%orb_false_iff [Cd Cw] Hnone Hreason Hq. apply Z.leb_gt in Hd, Hw.
  assert (∀ b res why, advances 1 s
    {| lp_calls := charge r (lp_calls s); lp_qualified := lp_qualified s ++ qualifiedLead r; lp_breaker := b;
       lp_processed := lp_processed s + 1; lp_result := res; lp_reason := why |}) as Hadv.
  { intros b res why. unfold qualifiedCount in *. split; cbn; unfold maxDetails, maxWebsites; try lia.
    - by apply prefix_app_r.
    - unfold qualifiedCount. cbn. rewrite length_app. unfold qualifiedLead. destruct (px_leadId r); [|cbn; lia].
      destruct (_ && _); cbn; lia. }
  unfold judge. case_bool_decide as Hsys.
  { assert (qualifiedLead r = []) as Eq by (unfold qualifiedLead; rewrite Hsys; by destruct (px_leadId r)).
    split; [apply Hadv|]. split; [|done]. unfold explained, qualifiedCount in *. cbn. rewrite Eq, app_nil_r.
    split_and!; [split; [done|lia]|split; eauto|done|done]. }
  cbn [lp_breaker]. destruct (observe 250 r (lp_breaker s)) as [[reason|] breaker] eqn:Eo; cbn [lp_qualified].
  { assert (qualifiedLead r = []) as Eq.
    { unfold observe in Eo. destruct (verifierFailure r) eqn:Ev; [|done]. unfold verifierFailure in Ev.
      apply bool_decide_eq_true_1 in Ev. unfold qualifiedLead. destruct (px_leadId r); [|done].
      rewrite bool_decide_eq_false_2; [done|]. intros E. rewrite E, !elem_of_cons, elem_of_nil in Ev. naive_solver. }
    split; [apply Hadv|]. split; [|done]. unfold explained, qualifiedCount in *. cbn. rewrite Eq, app_nil_r.
    split_and!; [split; [done|lia]|split; eauto|done|done]. }
  destruct (Z.leb_spec (ri_targetQualified options) (Z.of_nat (length (lp_qualified s ++ qualifiedLead r)))) as [Ht|Ht].
  - split; [apply Hadv|]. split; [|done]. unfold explained, qualifiedCount, target. cbn. rewrite Hreason.
    split_and!; [done|split; [done|by intros []]|done|done].
  - split; [apply Hadv|]. cbn. rewrite Hnone, Hreason. split; [|done]. unfold explained, qualifiedCount, target. cbn.
    split_and!; [split; [done|lia]|split; [done|by intros []]|done|done].
Qed.

(** The rows of a run say which candidates have been processed: the first [n]. *)
Definition rowsAt (runId : string) (n : Z) (db : ProspectDb) : Prop := ∀ c, c ∈ prospectCandidates db →
  pc_prospectRunId c = runId → (is_Some (pc_processedAt c) ↔ pc_position c < n).
Definition searching (s : ProspectLoop) : Prop :=
  lp_result s = None ∧ lp_reason s = None ∧ qualifiedCount s < target.
Lemma searching_explained s : searching s → explained s.
Proof. intros (E1 & E2 & Hq). unfold explained. rewrite E1, E2. split_and!; [split; [done|lia]|split; [done|by intros []]|done..]. Qed.
Lemma rowsAt_update runId n r t db : rowsAt runId n db →
  rowsAt runId (n + 1) (setCandidates (map (λ c, if isCandidate runId n c then resolvedCandidate r t c else c)) db).
Proof.
  intros Hrows c Hc Hid. cbn in Hc. apply list_elem_of_fmap in Hc as (c0 & -> & Hc0).
  destruct (isCandidate runId n c0) eqn:E.
  - apply andb_true_iff in E as [_ E%Z.eqb_eq]. cbn. split; [lia|by eauto].
  - pose proof (Hrows c0 Hc0 Hid). unfold isCandidate in E. rewrite Hid, String.eqb_refl in E. cbn in E.
    apply Z.eqb_neq in E. rewrite H0. lia.
Qed.
Lemma sound_candidates f db : sound db → sound (setCandidates f db).
Proof. by intros []. Qed.
Lemma processOne_runs i s w : behaved (dp_process deps) → budgetExhausted deps (lp_calls s) = false → searching s →
  sound (w_db w) → rowsAt (pr_prospectRunId i) (pr_position i) (w_db w) →
  twp (processOne deps options i s) (λ s' w', sound (w_db w') ∧ prospectRuns (w_db w') = prospectRuns (w_db w) ∧
    rowsAt (pr_prospectRunId i) (pr_position i + 1) (w_db w') ∧ advances 1 s s' ∧ explained s' ∧
    lp_processed s' = lp_processed s + 1 ∧ (lp_result s' = None → searching s')) w.
Proof.
  intros Hb Hbudget (Hres & Hwhy & Hq) Hsound Hrows. unfold processOne. rewrite twp_bind, twp_tryCatch.
  specialize (Hb i w Hsound). unfold awp in Hb.
  assert (∀ r w1, handled (w_db w) r (w_db w1) →
    twp (updateCandidate (pr_prospectRunId i) (pr_position i) r ;; mret (judge options r s)) (λ s' w',
      sound (w_db w') ∧ prospectRuns (w_db w') = prospectRuns (w_db w) ∧
      rowsAt (pr_prospectRunId i) (pr_position i + 1) (w_db w') ∧
      advances 1 s s' ∧ explained s' ∧ lp_processed s' = lp_processed s + 1 ∧ (lp_result s' = None → searching s')) w1) as Hrest.
  { intros r w1 (([Kr Kc] & _ & Ks) & [Hlead Hms] & Hcost).
    rewrite twp_bind. unfold updateCandidate. rewrite twp_bind, twp_now.
    apply twp_guarded; cbn [w_db w_ticks w_uuids].
    - unfold checkUpdateCandidate. apply refuse_None. rewrite !Forall_cons. cbn [fst]. split_and!; [| |by constructor].
      + destruct (px_failureElapsedMs r) as [ms|]; [|apply andb_false_r]. specialize (Hms ms eq_refl).
        rewrite (proj2 (Z.ltb_ge ms 0)) by lia. apply andb_false_r.
      + destruct (px_leadId r) as [l|]; [|apply andb_false_r]. specialize (Hlead l eq_refl).
        rewrite bool_decide_eq_true_2 by done. apply andb_false_r.
    - rewrite twp_ret. destruct (judge_advances r s Hbudget Hcost Hres Hwhy Hq) as (Ha & He & Hp & Hn).
      split_and!; [by apply sound_candidates, Ks|exact Kr| |done..|].
      + apply rowsAt_update. intros c. rewrite Kc. apply Hrows.
      + intros E. split_and!; [done|auto|]. destruct He as ([_ He] & _). destruct (Z.ltb_spec (qualifiedCount (judge options r s)) target); [done|].
        rewrite E in He. by apply He in H0. }
  destruct (dp_process deps i w) as [[r|e] w1]; cbn [fst snd]; [by apply Hrest|].
  apply Hrest. split_and!; [done| |done]. by split.
Qed.
Lemma processAll_runs runId pipelineRunId requestId position places s w :
  behaved (dp_process deps) → searching s → lp_processed s = position → sound (w_db w) → rowsAt runId position (w_db w) →
  twp (processAll deps options runId pipelineRunId requestId position places s) (λ s' w',
    prospectRuns (w_db w') = prospectRuns (w_db w) ∧ rowsAt runId (lp_processed s') (w_db w') ∧
    advances (Z.of_nat (length places)) s s' ∧ explained s' ∧
    lp_processed s' <= Z.max position (ri_maxCandidates options) ∧
    (lp_result s' = None → lp_processed s' = position + Z.min (Z.of_nat (length places)) (Z.max 0 (ri_maxCandidates options - position)))) w.
Proof.
  intros Hb. revert position s w. induction places as [|p places IH]; intros position s w Hs Hpos Hsound Hrows; cbn [processAll].
  { rewrite twp_ret. split_and!; [done|by rewrite Hpos|by apply advances_refl, Hs|by apply searching_explained|lia|cbn; lia]. }
  assert (advances (Z.of_nat (length (p :: places))) s s) as Hrefl.
  { eapply advances_more; [|by apply advances_refl, Hs]. lia. }
  destruct (Z.leb_spec (ri_maxCandidates options) position).
  { rewrite twp_ret. split_and!; [done|by rewrite Hpos|done|by apply searching_explained|lia|intros _; cbn; lia]. }
  destruct (budgetExhausted deps (lp_calls s)) eqn:Hbudget.
  { rewrite twp_ret. split_and!; [done|cbn; by rewrite Hpos|by apply advances_stop| |cbn; lia|done].
    destruct Hs as (_ & _ & Hq). unfold explained. cbn. unfold qualifiedCount in *.
    split_and!; [split; [done|cbn; lia]|split; [done|by intros []]|done|done]. }
  rewrite twp_bind. eapply twp_mono; [|by apply processOne_runs; cbn]. cbn [pr_prospectRunId pr_position].
  intros s1 w1 (Hs1 & Hr1 & Hrows1 & Ha1 & He1 & Hp1 & Hn1).
  destruct (lp_result s1) eqn:E1.
  - rewrite twp_ret. split_and!; [done|rewrite Hp1, Hpos; done| |done|lia|by rewrite E1].
    eapply advances_more; [|exact Ha1]. cbn. lia.
  - eapply twp_mono; [|apply (IH (position + 1) s1 w1); [auto|lia|done|done]].
    intros s2 w2 (Hr2 & Hrows2 & Ha2 & He2 & Hmax2 & Hn2). split_and!; [congruence|done| |done|lia|].
    + replace (Z.of_nat (length (p :: places))) with (1 + Z.of_nat (length places)) by (cbn; lia).
      by eapply advances_trans.
    + intros E. rewrite (Hn2 E). cbn. lia.
Qed.
End loop.


(** ** The production processor *)

Section processor.
Context `{Runtime, MathLibrary, RowOrder, UrlLibrary} (nearMeters : num)
  (details : string → bool → XM (option PlaceDetails))
  (enrich : string → string → list LeadFactRow → string → string → XM (EnrichmentOutcome * bool))
  (latestVerification : string → XM (option Verification)).
(** What is injected leaves the leads and the tables of the runs alone, and times are not
    negative. *)
Definition injectedHarmless : Prop :=
  (∀ placeId force, always harmless (details placeId force)) ∧
  (∀ a b c d e, always harmless (enrich a b c d e)) ∧
  (∀ leadId w, awp (latestVerification leadId) (λ v w', harmless (w_db w) (w_db w') ∧
    ∀ x ms, v = Some x → vf_elapsedMs x = Some ms → 0 <= ms) (λ w', harmless (w_db w) (w_db w')) w).

Definition fine (w0 : world ProspectDb) (m : XM ProspectCandidateResult) (w : world ProspectDb) : Prop :=
  awp m (λ r w', handled (w_db w0) r (w_db w')) (λ w', harmless (w_db w0) (w_db w')) w.
Lemma fine_return w0 w r : harmless (w_db w0) (w_db w) → storable r (w_db w) → costsOne r → fine w0 (mret r) w.
Proof. intros. unfold fine. by rewrite awp_ret. Qed.
Lemma fine_result w0 w o leadId reason d ws : harmless (w_db w0) (w_db w) →
  (∀ l, leadId = Some l → is_Some (prospectLeads (w_db w) !! l)) → 0 <= d <= 1 → 0 <= ws <= 1 →
  fine w0 (mret (candidateResult o leadId reason d ws)) w.
Proof. intros. apply fine_return; [done|by split|by split]. Qed.
Lemma fine_failClosed {A} w0 w d ws (m : XM A) k : 0 <= d <= 1 → 0 <= ws <= 1 → harmless (w_db w0) (w_db w) →
  awp m (λ a w', harmless (w_db w) (w_db w') → fine w0 (k a) w') (λ _, True) w → always harmless m →
  fine w0 (failClosed d ws m k) w.
Proof.
  intros Hd Hws Hw Hm Ha. specialize (Ha w). unfold fine, failClosed. rewrite awp_bind, awp_tryCatch. unfold awp in *.
  destruct (m w) as [[a|e] w1]; cbn [fst snd] in *; [by apply Hm|]. intros e' _.
  split_and!; [by etrans|by split|by split].
Qed.
(** A lead that exists goes on existing. *)
Lemma lead_stays db db' l : harmless db db' → is_Some (prospectLeads db !! l) → is_Some (prospectLeads db' !! l).
Proof. intros (_ & [Hl _] & _). apply Hl. Qed.

Lemma harmless_query {A} (f : ProspectDb → A) : always harmless (query f).
Proof. apply (always_query harmless). Qed.
Lemma processed_evolves provider c o s s' : processed provider c o s s' → leadsEvolve (leadsOf s) (leadsOf s').
Proof.
  unfold processed. destruct (malformed c); [by intros (_ & _ & -> & _)|].
  destruct (placeEntity _ _ _); [by intros (_ & _ & -> & _)|]. intros (_ & e & _ & _ & _ & _ & _ & Hl).
  destruct (makesLead _); [|by rewrite Hl]. destruct Hl as (l & Hid & Hnew & ->). split.
  - intros i Hi. destruct (decide (i = so_leadId e)) as [->|]; [by rewrite Hnew in Hi; destruct Hi|by rewrite lookup_insert_ne].
  - intros Hk. by apply map_Forall_insert_2.
Qed.
Lemma processed_places provider c o s s' : processed provider c o s s' →
  Forall (λ e, is_Some (leadsOf s !! so_leadId e)) (sourceEntities s) →
  Forall (λ e, is_Some (leadsOf s' !! so_leadId e)) (sourceEntities s') ∧
  ∀ l, co_leadId o = Some l → is_Some (leadsOf s' !! l).
Proof.
  intros Hp Hs. pose proof (proj1 (processed_evolves _ _ _ _ _ Hp)) as Hl. unfold processed in Hp.
  assert (Forall (λ e, is_Some (leadsOf s' !! so_leadId e)) (sourceEntities s)) as Hs' by (eapply Forall_impl; eauto).
  destruct (malformed c); [destruct Hp as (_ & -> & _ & ->); by split|].
  destruct (placeEntity provider _ s) as [e|] eqn:Ee.
  - destruct Hp as (_ & -> & _ & t & ->). split.
    + apply Forall_map. eapply Forall_impl; [exact Hs'|]. intros x Hx. cbn. by destruct (seenAt_same (so_id e) t x) as (_ & _ & ->).
    + intros l [= <-]. apply find_Some in Ee as [Ee _]. rewrite Forall_forall in Hs'. by apply Hs'.
  - destruct Hp as (_ & e & -> & _ & _ & -> & He & _). split; [|by intros l [= <-]].
    apply Forall_app. by split; [|constructor].
Qed.
Lemma awp_collectPlace i w : awp (collectPlace nearMeters i) (λ o w', harmless (w_db w) (w_db w') ∧
    (sound (w_db w) → ∀ l, co_leadId o = Some l → is_Some (prospectLeads (w_db w') !! l)))
  (λ w', harmless (w_db w) (w_db w')) w.
Proof.
  unfold collectPlace. rewrite awp_zoom. apply awp_transaction.
  - rewrite wp_bind, wp_now. eapply wp_mono; [|apply wp_processCandidate]. intros o w1 Hp. cbn [w_db w_ticks w_uuids] in *.
    pose proof (processed_evolves _ _ _ _ _ Hp) as He. pose proof (processed_places _ _ _ _ _ Hp) as Hs.
    split; [split_and!; [done|exact He|]|].
    + intros [Hk Hpl]. split; [by apply He|by apply Hs].
    + intros [Hk Hpl] l Hl. by apply Hs.
  - intros w1 E. cbn [w_db] in *. rewrite E. by apply harmless_leads.
Qed.
Lemma harmless_collectPlace i : always harmless (collectPlace nearMeters i).
Proof. apply always_awp. intros w. eapply awp_mono; [| |apply awp_collectPlace]; [by intros o w' []|done]. Qed.
Lemma harmless_suppressed input : always harmless (inSystem (zoom onPipeline (isIdentitySuppressed input))).
Proof.
  apply harmless_system. apply (always_zoom onPipeline pipelineEvolves); [by intros|]. unfold isIdentitySuppressed. always_tac.
Qed.
Lemma harmless_qualify leadId i : always harmless (qualifyProspect leadId i).
Proof.
  unfold qualifyProspect. apply (always_bind harmless); [apply (always_now harmless)|intros nowD].
  apply harmless_intake, evolve_qualify.
Qed.
Lemma harmless_screen leadId d i :
  always harmless (nowD ← now; _ ← inSystem (persistDetails leadId (pr_placeId i) nowD d false); qualifyProspect leadId i).
Proof.
  apply (always_bind harmless); [apply (always_now harmless)|intros nowD].
  apply (always_bind harmless); [apply harmless_system, evolve_persist|intros]. apply harmless_qualify.
Qed.
Lemma existing_exists placeId db l st : sound db → existingLeadForPlace placeId db = Some (l, st) →
  is_Some (prospectLeads db !! l).
Proof.
  intros [Hk _]. unfold existingLeadForPlace. cbv zeta. fold (prospectSystem db). fold (prospectLeads db).
  destruct (placeEntity _ _ _ ≫= _) as [p|] eqn:E.
  - intros [= ->]. apply bind_Some in E as (e & _ & E). apply fmap_Some in E as (x & Hx & [= -> _]). by exists x.
  - intros (x & Hx & [= -> _])%fmap_Some. apply find_Some in Hx as [Hx _]. rewrite rowOrder_perm in Hx.
    apply list_elem_of_fmap in Hx as ((k & y) & -> & Hy). apply elem_of_map_to_list in Hy. cbn. exists y. by rewrite (Hk _ _ Hy).
Qed.
Lemma fine_verifyWebsite w0 leadId website i w : injectedHarmless → harmless (w_db w0) (w_db w) →
  is_Some (prospectLeads (w_db w) !! leadId) → fine w0 (verifyWebsite enrich latestVerification leadId website i) w.
Proof.
  intros (_ & He & Hv) Hw Hl. unfold verifyWebsite.
  assert (∀ w1, harmless (w_db w) (w_db w1) → ∀ l, Some leadId = Some l → is_Some (prospectLeads (w_db w1) !! l)) as Hlead.
  { intros w1 Hh1 l [= <-]. by eapply lead_stays. }
  assert (∀ l, always harmless (latestVerification l)) as Hv'.
  { intros l. apply always_awp. intros w1. eapply awp_mono; [|intros w2 Hh2; exact Hh2|apply Hv]. by intros v w2 []. }
  assert (always harmless (inSystem (listCurrentFacts leadId))) as Hf.
  { apply harmless_system, (always_query systemEvolves). }
  apply fine_failClosed; [lia|lia|done| |].
  - rewrite awp_bind. eapply awp_mono; [|done|apply (awp_always harmless), Hf]. cbv beta. intros facts w1 Hh1.
    rewrite awp_bind. eapply awp_mono; [|done|apply (awp_always harmless), He]. cbv beta. intros e w2 Hh2.
    rewrite awp_bind. eapply awp_mono; [|done|apply Hv]. cbv beta. intros v w3 [Hh3 Hms]. rewrite awp_ret. intros Hw3.
    destruct e as [outcome conflict]. case_bool_decide.
    + apply fine_failClosed; [lia|lia|by etrans| |apply harmless_qualify].
      eapply awp_mono; [|done|apply (awp_always harmless), harmless_qualify]. cbv beta. intros q w4 Hh4 _.
      apply fine_result; [etrans; [exact Hw|by etrans]|apply Hlead; by etrans|lia|lia].
    + apply fine_return; [by etrans| |by split]. split; [apply (Hlead w3 Hw3)|]. cbn. intros ms Hm.
      apply bind_Some in Hm as (x & -> & Hx). by eapply Hms.
  - apply (always_bind harmless); [done|intros facts]. apply (always_bind harmless); [apply He|intros e].
    apply (always_bind harmless); [apply Hv'|intros v]. apply (always_ret harmless).
Qed.
Lemma fine_screenDetails w0 leadId d i w : injectedHarmless → harmless (w_db w0) (w_db w) →
  is_Some (prospectLeads (w_db w) !! leadId) → fine w0 (screenDetails enrich latestVerification leadId d i) w.
Proof.
  intros Hi Hw Hl. unfold screenDetails.
  pose proof (harmless_screen leadId d i) as Ha.
  apply fine_failClosed; [lia|lia|done| |exact Ha].
  eapply awp_mono; [|done|apply (awp_always harmless), Ha]. cbv beta. intros q w1 Hh1 _. cbv beta zeta.
  assert (harmless (w_db w0) (w_db w1)) as Hw1 by by etrans.
  assert (is_Some (prospectLeads (w_db w1) !! leadId)) as Hl1 by exact (lead_stays _ _ _ Hh1 Hl).
  repeat match goal with |- fine _ (if ?b then _ else _) _ => destruct b end;
    first [by apply fine_verifyWebsite|apply fine_result; [done|by intros l [= <-]|lia|lia]].
Qed.
(** The processor of the command: whatever fails in it, it says so itself. *)
Lemma processPlace_behaved : injectedHarmless → behaved (processPlace nearMeters details enrich latestVerification).
Proof.
  intros Hi i w Hs. change (fine w (processPlace nearMeters details enrich latestVerification i) w).
  assert (∀ w1 o leadId reason, harmless (w_db w) (w_db w1) → (∀ l, leadId = Some l → is_Some (prospectLeads (w_db w1) !! l)) →
    fine w (mret (candidateResult o leadId reason 0 0)) w1) as Hr by (intros; apply fine_result; done || lia).
  unfold processPlace. apply fine_failClosed; [lia|lia|done| |apply harmless_query].
  rewrite awp_query. intros _. destruct (attachedToOtherActiveRun _ _ _); [by apply Hr|].
  apply fine_failClosed; [lia|lia|done| |apply harmless_query].
  rewrite awp_query. intros _. destruct (existingLeadForPlace _ _) as [[l st]|] eqn:El.
  { apply existing_exists in El; [|done]. case_bool_decide; (apply Hr; [done|by intros ? [= <-]]). }
  pose proof (harmless_suppressed {| ii_placeId := Some (pr_placeId i); ii_businessName := None; ii_websiteUrl := None |}) as Hsup.
  apply fine_failClosed; [lia|lia|done| |exact Hsup].
  eapply awp_mono; [|done|apply (awp_always harmless), Hsup]. cbv beta. intros suppressed w1 Hh1 _.
  destruct suppressed; [by apply Hr|]. assert (sound (w_db w1)) as Hs1 by by apply Hh1.
  apply fine_failClosed; [lia|lia|done| |].
  - eapply awp_mono; [|done|apply awp_collectPlace]. cbv beta. intros o w2 [Hh2 Hlead] _.
    assert (harmless (w_db w) (w_db w2)) as Hw2 by by etrans.
    destruct (co_leadId o) as [l|]; [|by apply Hr]. specialize (Hlead Hs1 l eq_refl).
    destruct (negb (truthy l) || _); [apply Hr; [done|by intros ? [= <-]]|].
    destruct Hi as (Hd & Hrest). pose proof (Hd (pr_placeId i) false w2) as Hd2.
    unfold fine at 1. rewrite awp_bind, awp_tryCatch. unfold awp.
    destruct (details (pr_placeId i) false w2) as [[[d|]|e] w3] eqn:Ed; cbn [snd] in Hd2;
      assert (harmless (w_db w) (w_db w3)) as Hw3 by (by etrans); assert (is_Some (prospectLeads (w_db w3) !! l)) as Hl3 by (exact (lead_stays _ _ _ Hd2 Hlead)).
    + by apply fine_screenDetails.
    + apply fine_result; [done|by intros ? [= <-]|lia|lia].
    + intros e' _. apply fine_result; [done|by intros ? [= <-]|lia|lia].
  - apply harmless_collectPlace.
Qed.

(** Sound or not, the tables are kept. *)
#[local] Instance keepsTables_preorder : PreOrder keepsTables.
Proof. split; [done|]. intros a b c [] []. split; congruence. Qed.
Lemma keeps_harmless {A} (m : XM A) : always harmless m → always keepsTables m.
Proof. intros Hm w. by destruct (Hm w). Qed.
Lemma keeps_failClosed {A} d ws (m : XM A) k : always harmless m → (∀ a, always keepsTables (k a)) → always keepsTables (failClosed d ws m k).
Proof.
  intros Hm Hk. apply (always_bind keepsTables); [apply (always_tryCatch keepsTables), keeps_harmless, Hm|].
  intros [a|e]; [apply Hk|apply (always_ret keepsTables)].
Qed.
Lemma keeps_verifyWebsite leadId website i : injectedHarmless →
  always keepsTables (verifyWebsite enrich latestVerification leadId website i).
Proof.
  intros (_ & He & Hv). apply keeps_failClosed.
  - apply (always_bind harmless); [apply harmless_system, (always_query systemEvolves)|intros facts].
    apply (always_bind harmless); [apply He|intros e]. apply (always_bind harmless); [|intros; apply (always_ret harmless)].
    apply always_awp. intros w1. eapply awp_mono; [| |apply Hv]; [by intros v w2 []|done].
  - intros [[outcome conflict] v]. destruct (bool_decide _); [|apply (always_ret keepsTables)].
    apply keeps_failClosed; [apply harmless_qualify|intros; apply (always_ret keepsTables)].
Qed.
Lemma keeps_processPlace i : injectedHarmless → always keepsTables (processPlace nearMeters details enrich latestVerification i).
Proof.
  intros Hi. assert (∀ x : ProspectCandidateResult, always keepsTables (mret x : XM _)) as Hr by (intros; apply (always_ret keepsTables)).
  apply keeps_failClosed; [apply harmless_query|intros [|]; [apply Hr|]].
  apply keeps_failClosed; [apply harmless_query|intros [[l st]|]; [apply Hr|]].
  apply keeps_failClosed; [apply harmless_suppressed|intros [|]; [apply Hr|]].
  apply keeps_failClosed; [apply harmless_collectPlace|intros o]. destruct (co_leadId o) as [l|]; [|apply Hr].
  destruct (negb _ || _); [apply Hr|]. apply (always_bind keepsTables); [apply (always_tryCatch keepsTables), keeps_harmless, Hi|].
  intros [[d|]|e]; [|apply Hr..]. apply keeps_failClosed; [apply harmless_screen|intros q]. cbv zeta.
  repeat match goal with |- always _ (if ?b then _ else _) => destruct b end; first [apply Hr|by apply keeps_verifyWebsite].
Qed.
End processor.

(** ** A run *)

Section run.
Context `{Runtime}.

(** The tables of the runs, with their keys *)
Record ready (pipelineRunId : string) (w : world ProspectDb) : Prop := {
  rd_inj : Inj (=) (=) uuid;
  rd_runs : ∀ n r, (w_uuids w <= n)%nat → r ∈ prospectRuns (w_db w) → pn_id r ≠ uuid n;
  rd_candidates : ∀ n c, (w_uuids w <= n)%nat → c ∈ prospectCandidates (w_db w) →
    pc_id c ≠ uuid n ∧ pc_prospectRunId c ≠ uuid n;
  rd_requests : ∀ n r, (w_uuids w <= n)%nat → r ∈ sourceRequests (prospectCollect (w_db w)) → sq_id r ≠ uuid n;
  rd_keys : NoDup (map pc_id (prospectCandidates (w_db w))) ∧ NoDup (map positionKey (prospectCandidates (w_db w))) ∧
    NoDup (map placeKey (prospectCandidates (w_db w)));
  rd_pipeline : is_Some (pipelineRuns (prospectSystem (w_db w)) !! pipelineRunId);
  rd_unused : ∀ r, r ∈ prospectRuns (w_db w) → pn_pipelineRunId r ≠ pipelineRunId;
  rd_sound : sound (w_db w);
}.
Lemma existsb_none {A} (f : A → bool) l : (∀ x, x ∈ l → f x = false) → existsb f l = false.
Proof.
  intros Hf. destruct (existsb f l) eqn:E; [|done]. apply existsb_exists in E as (x & Hx & E).
  apply list_elem_of_In in Hx. by rewrite (Hf x Hx) in E.
Qed.
(** All but the cache of locations is as it was. *)
Definition onlyLocations (db db' : ProspectDb) : Prop :=
  prospectCollect db' = prospectCollect db ∧ prospectRuns db' = prospectRuns db ∧ prospectCandidates db' = prospectCandidates db.
Lemma ready_moved p w w' : onlyLocations (w_db w) (w_db w') → (w_uuids w <= w_uuids w')%nat → ready p w → ready p w'.
Proof.
  destruct w as [db t u], w' as [db' t' u']. intros (Ec & Er & Ea) Hu [Hi Hr Hc Hq Hk Hp Hn Hs]. cbn in *.
  split; cbn; unfold prospectSystem in *; rewrite ?Ec, ?Er, ?Ea; try done.
  - intros n r Hn' Hin. apply Hr; [lia|done].
  - intros n c Hn' Hin. apply Hc; [lia|done].
  - intros n r Hn' Hin. apply Hq; [lia|done].
  - destruct Hs as [Hs1 Hs2]. split; unfold prospectLeads, prospectSystem in *; by rewrite Ec.
Qed.

(** The rows of the places that have been found *)
Definition newRows (runId : string) (position : Z) (placeIds : list string) (u : nat)
    (rows : list ProspectCandidateRow) : Prop :=
  map pc_id rows = map uuid (seq u (length placeIds)) ∧ map pc_placeId rows = placeIds ∧
  map pc_position rows = seqZ position (Z.of_nat (length placeIds)) ∧
  Forall (λ c, pc_prospectRunId c = runId ∧ pc_processedAt c = None) rows.
Lemma twp_candidateRows runId placeIds position w :
  twp (candidateRows runId position placeIds) (λ rows w', w_db w' = w_db w ∧
    newRows runId position placeIds (w_uuids w) rows) w.
Proof.
  revert position w. induction placeIds as [|p l IH]; intros position w; cbn [candidateRows].
  { rewrite twp_ret. split; [done|]. by split_and!. }
  rewrite twp_bind, twp_randomUUID, twp_bind. eapply twp_mono; [|apply IH]. cbn [w_db w_ticks w_uuids].
  intros rows w1 (Edb & Ei & Ep & Eo & Hf). rewrite twp_ret. split; [done|]. split_and!; cbn; [by f_equal|by f_equal| |by constructor].
  rewrite Eo, (seqZ_cons position) by lia. f_equal. f_equal; lia.
Qed.
Lemma newRows_valid runId places w rows run pipelineRunId : ready pipelineRunId w → NoDup places →
  runId = uuid (w_uuids w) → newRows runId 0 places (S (S (w_uuids w))) rows → pn_id run = runId →
  checkInsertCandidates rows (setProspectRuns (λ l, l ++ [run]) (w_db w)) = None.
Proof.
  intros Hr Hnd Hid (Ei & Ep & Eo & Hf) Hrun. destruct Hr as [Hinj _ Hc _ (K1 & K2 & K3) _ _ _]. rewrite Forall_forall in Hf.
  assert (∀ c c', c ∈ prospectCandidates (w_db w) → c' ∈ rows → pc_prospectRunId c ≠ pc_prospectRunId c') as Hother.
  { intros c c' Hc0 Hc1. rewrite (proj1 (Hf c' Hc1)), Hid. by apply Hc. }
  unfold checkInsertCandidates. apply refuse_None. rewrite !Forall_cons. cbn [fst prospectCandidates setProspectRuns].
  rewrite !map_app, !negb_false_iff, !bool_decide_eq_true, !NoDup_app. split_and!; try done.
  - intros i Hi Hi'. rewrite Ei in Hi'. apply list_elem_of_fmap in Hi as (c & -> & Hi).
    apply list_elem_of_fmap in Hi' as (n & E & Hn%elem_of_seq). assert (w_uuids w <= n)%nat as Hle by lia. exact (proj1 (Hc n c Hle Hi) E).
  - rewrite Ei. apply NoDup_fmap_2; [done|]. apply NoDup_seq.
  - intros k Hk Hk'. apply list_elem_of_fmap in Hk as (c & -> & Hk). apply list_elem_of_fmap in Hk' as (c' & E & Hk').
    apply (Hother c c' Hk Hk'). by injection E.
  - apply (NoDup_fmap_1 snd). change (NoDup (map snd (map positionKey rows))). rewrite map_map. cbn.
    change (NoDup (map pc_position rows)). rewrite Eo. apply NoDup_seqZ.
  - intros k Hk Hk'. apply list_elem_of_fmap in Hk as (c & -> & Hk). apply list_elem_of_fmap in Hk' as (c' & E & Hk').
    apply (Hother c c' Hk Hk'). by injection E.
  - apply (NoDup_fmap_1 snd). change (NoDup (map snd (map placeKey rows))). rewrite map_map. cbn.
    change (NoDup (map pc_placeId rows)). by rewrite Ep.
  - apply elem_of_forallb. intros c Hc0. cbn [prospectRuns setProspectRuns]. apply elem_of_existsb. exists run.
    split; [apply elem_of_app; right; by left|]. apply String.eqb_eq. by rewrite (proj1 (Hf c Hc0)).
Qed.

(** The account that a run gives of itself: its summary, its row and the rows of its
    candidates say the same, and the limits hold. *)
Record accounted (limits : ProspectLimits) (options : ResolvedProspectInput) (s : ProspectRunSummary) (db : ProspectDb) : Prop := {
  ac_row : ∃ row, row ∈ prospectRuns db ∧ pn_id row = ps_runId s ∧ pn_result row = Some (ps_result s) ∧
    pn_status row = (if bool_decide (ps_result s = RUN_SYSTEMIC_FAILURE) then "FAILED" else "COMPLETED") ∧
    pn_processedCount row = ps_processed s ∧ pn_qualifiedCount row = Z.of_nat (length (ps_qualifiedLeadIds s)) ∧
    pn_externalCalls row = ps_externalCalls s ∧ pn_circuitBreakerReason row = ps_circuitBreakerReason s;
  ac_candidates : rowsAt (ps_runId s) (ps_processed s) db;
  ac_counts : 0 <= ps_processed s <= ps_discovered s ∧ ps_discovered s <= ri_maxCandidates options ∧
    Z.of_nat (length (ps_qualifiedLeadIds s)) <= ri_targetQualified options;
  ac_calls : ec_placeDetails (ps_externalCalls s) <= Z.max 0 (pl_maxDetails limits) ∧
    ec_websiteVerification (ps_externalCalls s) <= Z.max 0 (pl_maxWebsiteVerifications limits) ∧
    ec_nearbySearch (ps_externalCalls s) = 1;
  ac_target : ps_result s = TARGET_REACHED ↔ Z.of_nat (length (ps_qualifiedLeadIds s)) = ri_targetQualified options;
  ac_failure : ps_result s = RUN_SYSTEMIC_FAILURE ↔ is_Some (ps_circuitBreakerReason s);
  ac_candidatesDone : ps_result s = CANDIDATE_BUDGET_EXHAUSTED → ps_processed s = ps_discovered s;
  ac_budgetDone : ps_result s = EXTERNAL_BUDGET_EXHAUSTED →
    pl_maxDetails limits <= ec_placeDetails (ps_externalCalls s) ∨
    pl_maxWebsiteVerifications limits <= ec_websiteVerification (ps_externalCalls s);
}.
(** What the injected resolver and search promise *)
Definition located (w w' : world ProspectDb) : Prop :=
  onlyLocations (w_db w) (w_db w') ∧ (w_uuids w <= w_uuids w')%nat.
Definition locates (deps : ProspectDeps) : Prop := ∀ place w, located w (dp_resolve deps place w).2.
Definition discovers (deps : ProspectDeps) : Prop := ∀ i w, 0 <= ni_maxCandidates i → awp (dp_discover deps i)
  (λ ids w', w_db w' = w_db w ∧ w_uuids w' = w_uuids w ∧ NoDup ids ∧ Z.of_nat (length ids) <= ni_maxCandidates i)
  (λ w', w_db w' = w_db w ∧ w_uuids w' = w_uuids w) w.
Lemma validated input options : validateProspectInput input = Ok options →
  1 <= ri_targetQualified options <= ri_maxCandidates options ∧ ri_maxCandidates options <= 20 ∧
  leN (ri_radiusKm options) (ofZ 0) || ltN (ofZ 50) (ri_radiusKm options) = false ∧ ri_rankPreference options ∈ PROSPECT_RANKS.
Proof.
  assert (∀ lo hi x code m n, integerWithin lo hi x code m = Ok n → lo <= n <= hi) as Hwithin.
  { intros lo hi x code m n. unfold integerWithin. destruct (integerN x) as [k|]; [|done].
    destruct (Z.ltb_spec k lo), (Z.ltb_spec hi k); cbn; [done..|]. intros [= ->]. lia. }
  unfold validateProspectInput. destruct (normalizeProspectNiche _); [|done]. cbn -[leN ltN ofZ integerWithin].
  destruct (finite _ _); [|done]. cbn -[leN ltN ofZ integerWithin].
  destruct (leN _ _ || ltN _ _) eqn:Er; [done|]. cbn -[leN ltN ofZ integerWithin].
  destruct (integerWithin 1 20 _ _ _) as [m|] eqn:Em; [|done]. cbn -[leN ltN ofZ integerWithin].
  destruct (integerWithin 1 m _ _ _) as [t|] eqn:Et; [|done]. cbn -[leN ltN ofZ integerWithin].
  case_bool_decide as Hrank; [|done]. cbn -[leN ltN ofZ integerWithin].
  destruct (checkPlace _ _ _); [|done]. cbn -[leN ltN ofZ integerWithin]. destruct (googleTypesForNiche _); [|done].
  intros [= <-]. cbn -[leN ltN ofZ]. apply Hwithin in Em, Et. split_and!; [lia..|done|done].
Qed.

(** The row of a run that has just been started *)
Definition startedRow (runId pipelineRunId : string) (options : ResolvedProspectInput) (location : ResolvedLocation)
    (discoveredAt : Z) : ProspectRunRow :=
  {| pn_id := runId; pn_pipelineRunId := pipelineRunId; pn_options := options; pn_location := location;
     pn_status := "RUNNING"; pn_result := None; pn_qualifiedCount := 0; pn_processedCount := 0;
     pn_externalCalls := noCalls location 0; pn_circuitBreakerReason := None; pn_discoveredAt := discoveredAt;
     pn_completedAt := None |}.
Lemma startedRow_valid pipelineRunId w input options location t :
  validateProspectInput input = Ok options → ready pipelineRunId w →
  checkInsertProspectRun (startedRow (uuid (w_uuids w)) pipelineRunId options location t) (w_db w) = None.
Proof.
  intros Hv [_ Hr _ _ _ Hp Hu _]. destruct (validated _ _ Hv) as (Ht & Hm & Hrad & Hrank).
  unfold checkInsertProspectRun. apply refuse_None. rewrite !Forall_cons. cbn [fst pn_id pn_pipelineRunId pn_options startedRow].
  split_and!; [|exact Hrad|apply orb_false_iff; split; apply Z.ltb_ge; lia..| | | |by constructor].
  - apply existsb_none. intros r Hin. apply String.eqb_neq. by apply Hr.
  - by rewrite bool_decide_eq_true_2.
  - apply existsb_none. intros r Hin. apply String.eqb_neq. by apply Hu.
  - by apply negb_false_iff, bool_decide_eq_true_2.
Qed.
(** Finishing a run writes what is reported into its row. *)
Lemma finished_row runId result q p calls reason t row db : row ∈ prospectRuns db → pn_id row = runId →
  finishedRun result q p calls reason t row ∈
    prospectRuns (setProspectRuns (map (λ r, if String.eqb (pn_id r) runId then finishedRun result q p calls reason t r else r)) db).
Proof. intros Hin Hid. cbn. apply list_elem_of_fmap. exists row. by rewrite Hid, String.eqb_refl. Qed.
Definition startState (location : ResolvedLocation) : ProspectLoop :=
  {| lp_calls := noCalls location 1; lp_qualified := []; lp_breaker := newBreaker; lp_processed := 0;
     lp_result := None; lp_reason := None |}.
Lemma concluded deps options location discovered s runId db row t :
  1 <= ri_targetQualified options <= ri_maxCandidates options → 0 <= discovered <= ri_maxCandidates options →
  row ∈ prospectRuns db → pn_id row = runId → rowsAt runId (lp_processed s) db →
  advances deps options discovered (startState location) s → explained deps options s →
  (lp_result s = None → lp_processed s = discovered) →
  let result := finalResult options discovered s in
  accounted (dp_limits deps) options {| ps_runId := runId; ps_result := result; ps_discovered := discovered;
      ps_processed := lp_processed s; ps_qualifiedLeadIds := lp_qualified s; ps_externalCalls := lp_calls s;
      ps_circuitBreakerReason := lp_reason s |}
    (setProspectRuns (map (λ r, if String.eqb (pn_id r) runId then
       finishedRun result (Z.of_nat (length (lp_qualified s))) (lp_processed s) (lp_calls s) (lp_reason s) t r else r)) db).
Proof.
  intros Ht Hd Hin Hid Hrows [Hp _ Hq Hdet Hweb [_ Hnear]] (Htarget & Hwhy & Hbudget & Hno) Hdone result. cbn in *.
  unfold qualifiedCount, target, maxDetails, maxWebsites in *. cbn in Hq.
  assert (lp_result s = Some result ∨ lp_result s = None ∧ result = CANDIDATE_BUDGET_EXHAUSTED) as Hres.
  { unfold result, finalResult. destruct (lp_result s); [by left|right]. rewrite (Hdone eq_refl), Z.ltb_irrefl, andb_false_r. done. }
  clearbody result. split; cbn [ps_runId ps_result ps_discovered ps_processed ps_qualifiedLeadIds ps_externalCalls ps_circuitBreakerReason].
  - eexists. split; [by apply (finished_row _ _ _ _ _ _ _ row)|done].
  - exact Hrows.
  - lia.
  - lia.
  - destruct Hres as [E|[E ->]]; rewrite E in Htarget.
    + split; intros Er; [assert (ri_targetQualified options <= Z.of_nat (length (lp_qualified s))) by (apply Htarget; congruence); lia|].
      assert (Some result = Some TARGET_REACHED) as Es by (apply Htarget; lia). congruence.
    + split; [done|]. intros El. assert (None = Some TARGET_REACHED) by (apply Htarget; lia). done.
  - rewrite <-Hwhy. destruct Hres as [E|[E ->]]; rewrite E; [split; [by intros ->|by intros [= ->]]|done].
  - intros E. destruct Hres as [E'|[E' _]]; [|auto]. by rewrite E' in Hno; rewrite E in Hno.
  - intros E. destruct Hres as [E'|[_ E']]; [|congruence]. rewrite E in E'. specialize (Hbudget E').
    unfold budgetExhausted in Hbudget. apply orb_true_iff in Hbudget as [?%Z.leb_le|?%Z.leb_le]; auto.
Qed.

Lemma failed_run limits runId location row t options db : row ∈ prospectRuns db → pn_id row = runId →
  1 <= ri_targetQualified options <= ri_maxCandidates options → rowsAt runId 0 db →
  accounted limits options {| ps_runId := runId; ps_result := RUN_SYSTEMIC_FAILURE; ps_discovered := 0; ps_processed := 0;
      ps_qualifiedLeadIds := []; ps_externalCalls := noCalls location 1; ps_circuitBreakerReason := Some "nearby_provider_failure" |}
    (setProspectRuns (map (λ r, if String.eqb (pn_id r) runId then
       finishedRun RUN_SYSTEMIC_FAILURE 0 0 (noCalls location 1) (Some "nearby_provider_failure") t r else r)) db).
Proof.
  intros Hin Hid Ht Hrows. split; cbn [ps_runId ps_result ps_discovered ps_processed ps_qualifiedLeadIds ps_externalCalls ps_circuitBreakerReason].
  - eexists. split; [by apply (finished_row _ _ _ _ _ _ _ row)|done].
  - exact Hrows.
  - cbn. lia.
  - cbn. lia.
  - cbn. split; [done|lia].
  - by split; eauto.
  - done.
  - done.
Qed.
Lemma twp_locate deps options pipelineRunId w : locates deps → twp (locate deps options) (λ _ _, True) w →
  ready pipelineRunId w → twp (locate deps options) (λ _ w', ready pipelineRunId w') w.
Proof.
  intros Hl Ht Hr. unfold locate in *. destruct (ri_latitude options), (ri_longitude options);
    first [ rewrite twp_bind, twp_now, twp_ret; by apply (ready_moved _ w); [split_and!|cbn; lia|]
          | specialize (Hl (ri_location options) w); unfold twp in *; destruct (dp_resolve deps _ w) as [[l|e] w']; [|done];
            destruct Hl as [Ho Hu]; by apply (ready_moved _ w) ].
Qed.
Lemma runProspects_accounted deps input options pipelineRunId w :
  behaved (dp_process deps) → locates deps → discovers deps → dp_continuation deps = None →
  validateProspectInput input = Ok options → ready pipelineRunId w → twp (locate deps options) (λ _ _, True) w →
  twp (runProspects deps input pipelineRunId) (λ s w', accounted (dp_limits deps) options s (w_db w')) w.
Proof.
  intros Hb Hl Hd Hk Hv Hr Hloc. destruct (validated _ _ Hv) as (Ht & Hm & _). unfold runProspects. rewrite Hv, twp_bind, twp_lift_ok, twp_bind.
  eapply twp_mono; [|by apply twp_locate]. intros location w1 Hr1. clear w Hr Hloc.
  rewrite twp_bind, twp_randomUUID, twp_bind, twp_now, twp_bind. cbn [w_db w_ticks w_uuids].
  set (runId := uuid (w_uuids w1)). unfold startProspectRun. cbv zeta.
  fold (startedRow runId pipelineRunId options location (clock (w_ticks w1))). set (row := startedRow _ _ _ _ _).
  apply twp_guarded; [exact (startedRow_valid pipelineRunId w1 input options location _ Hv Hr1)|]. cbn [w_db w_ticks w_uuids].
  rewrite twp_bind, twp_now, twp_bind, twp_tryCatch. cbn [w_db w_ticks w_uuids].
  set (w2 := World _ _ _) in *. match goal with |- context [dp_discover deps ?i] => specialize (Hd i w2 ltac:(cbn; lia)) end.
  assert (rowsAt runId 0 (w_db w2)) as Hrows0.
  { intros c Hc Hid. exfalso. by apply (proj2 (rd_candidates _ _ Hr1 (w_uuids w1) c (Nat.le_refl _) Hc)). }
  assert (row ∈ prospectRuns (w_db w2)) as Hrow by (cbn; apply elem_of_app; right; by left).
  unfold awp in Hd. destruct (dp_discover deps _ w2) as [[places|e] w3]; cbn [fst snd].
  - destruct Hd as (E3 & U3 & Hnd & Hlen). cbn [ni_maxCandidates] in Hlen. destruct w3 as [db3 t3 u3]. cbn in E3, U3. subst db3 u3.
    cbv zeta. rewrite twp_bind, twp_now, twp_bind. cbn [w_db w_ticks w_uuids]. unfold recordDiscoveryRequest.
    rewrite twp_zoom. unfold recordRequest. rewrite twp_bind, twp_randomUUID. cbv zeta. rewrite twp_bind.
    apply twp_guarded; cbn [w_db w_ticks w_uuids].
    { unfold checkInsertRequest. apply refuse_None. rewrite !Forall_cons. cbn [fst sq_id sq_runId]. split_and!; [| |by constructor].
      - apply existsb_none. intros r Hin. apply String.eqb_neq. by apply (rd_requests _ _ Hr1); [lia|].
      - apply negb_false_iff, bool_decide_eq_true_2, (rd_pipeline _ _ Hr1). }
    rewrite twp_ret. cbn [w_db w_ticks w_uuids]. set (requestId := uuid (S (w_uuids w1))). set (w4 := World _ _ _).
    assert (sound (w_db w4)) as Hs4 by (destruct (rd_sound _ _ Hr1); by split).
    assert (∀ m w', w_db w' = setCandidates (λ l, l ++ m) (w_db w4) → newRows runId 0 places (S (S (w_uuids w1))) m →
      sound (w_db w') ∧ rowsAt runId 0 (w_db w') ∧ row ∈ prospectRuns (w_db w')) as Hsaved.
    { intros m w' -> (_ & _ & Ep & Hf). split_and!; [by apply sound_candidates| |exact Hrow]. intros c [Hc|Hc]%elem_of_app Hid; [by apply Hrows0|].
      rewrite Forall_forall in Hf. rewrite (proj2 (Hf c Hc)).
      assert (pc_position c ∈ seqZ 0 (Z.of_nat (length places))) as Hin%elem_of_seqZ by (rewrite <-Ep; by apply list_elem_of_fmap_2).
      split; [by intros []|lia]. }
    assert (∀ w5, sound (w_db w5) ∧ rowsAt runId 0 (w_db w5) ∧ row ∈ prospectRuns (w_db w5) →
      twp (s ← processAll deps options runId pipelineRunId requestId 0 places (startState location);
           endedAt ← now;
           finishProspectRun runId (finalResult options (Z.of_nat (length places)) s) (Z.of_nat (length (lp_qualified s)))
             (lp_processed s) (lp_calls s) (lp_reason s) endedAt ;;
           (match head (lp_qualified s), dp_continuation deps with
            | Some leadId, Some continue => if ri_continuePipeline options then continue leadId runId pipelineRunId else mret tt
            | _, _ => mret tt
            end) ;;
           mret {| ps_runId := runId; ps_result := finalResult options (Z.of_nat (length places)) s;
                   ps_discovered := Z.of_nat (length places); ps_processed := lp_processed s;
                   ps_qualifiedLeadIds := lp_qualified s; ps_externalCalls := lp_calls s;
                   ps_circuitBreakerReason := lp_reason s |})
        (λ s w', accounted (dp_limits deps) options s (w_db w')) w5) as Hloop.
    { intros w5 (Hs5 & Hrows5 & Hrow5). rewrite twp_bind. eapply twp_mono; [|apply processAll_runs; try done].
      2:{ split_and!; try done. unfold qualifiedCount, target. cbn. lia. }
      intros s w6 (E6 & Hrows6 & Ha & He & Hmax & Hn). rewrite twp_bind, twp_now, twp_bind. unfold finishProspectRun.
      rewrite twp_modify, twp_bind, Hk. cbn [w_db w_ticks w_uuids].
      assert (row ∈ prospectRuns (w_db w6)) as Hrow6 by by rewrite E6.
      destruct (head (lp_qualified s)); rewrite !twp_ret; cbn [w_db];
        (eapply (concluded deps options location _ s runId _ row); try done; [lia|]; intros E; rewrite (Hn E); lia). }
    rewrite twp_bind. unfold saveCandidates. destruct places as [|p places].
    { rewrite twp_ret. apply Hloop, (Hsaved []); [|by split_and!]. unfold setCandidates. rewrite app_nil_r. by destruct (w_db w4). }
    rewrite twp_bind. eapply twp_mono; [|apply twp_candidateRows]. intros rows w5 [E5 Hnew]. cbn [w_uuids w4] in Hnew.
    apply twp_guarded.
    { rewrite E5. by apply (newRows_valid runId (p :: places) w1 rows row pipelineRunId). }
    apply Hloop. eapply Hsaved; [|exact Hnew]. cbn [w_db]. by rewrite E5.
  - destruct Hd as [E3 U3]. rewrite twp_bind, twp_now, twp_bind. unfold finishProspectRun. rewrite twp_modify, twp_ret.
    cbn [w_db w_ticks w_uuids]. rewrite E3. by apply (failed_run _ _ _ row).
Qed.
End run.

(** ** The command *)

Lemma distinctIds_NoDup places : ∀ seen ids, distinctIds seen places = Ok ids → NoDup ids ∧ ∀ i, i ∈ ids → i ∉ seen.
Proof.
  induction places as [|p places IH]; intros seen ids; cbn [distinctIds].
  { intros [= <-]. split; [constructor|]. by intros i []%elem_of_nil. }
  destruct (trimmedId p) as [[id|]|e]; cbn; [|apply IH|done].
  destruct (negb (truthy id) || bool_decide (id ∈ seen)) eqn:E; [apply IH|]. apply orb_false_iff in E as [_ E%bool_decide_eq_false_1].
  destruct (distinctIds (id :: seen) places) as [ids'|e] eqn:E'; cbn; [|done]. intros [= <-]. apply IH in E' as [Hnd Hin].
  split; [constructor; [|done]; intros Hi; by apply (Hin id Hi), list_elem_of_here|].
  intros i [->|Hi]%elem_of_cons; [done|]. intros Hs. by apply (Hin i Hi), list_elem_of_further.
Qed.
Lemma nearbyIds_ok n data ids : 0 <= n → nearbyIds n data = Ok ids → NoDup ids ∧ Z.of_nat (length ids) <= n.
Proof.
  intros Hn. unfold nearbyIds. cbv zeta.
  assert (∀ l ids0, (ids1 ← distinctIds [] l; let ids2 := sliceTo n ids1 in
      if existsb (λ id, (256 <? utf16Length id)%nat) ids2
      then Throw (AppError "PLACES_INVALID_RESPONSE" "Nearby response contains an invalid Place ID") else Ok ids2) = Ok ids0 →
      NoDup ids0 ∧ Z.of_nat (length ids0) <= n) as Hl.
  { intros l ids0. destruct (distinctIds [] l) as [ids1|] eqn:E; cbn; [|done]. destruct (existsb _ _); [done|].
    intros [= <-]. apply distinctIds_NoDup in E as [Hnd _]. unfold sliceTo. rewrite (proj2 (Z.ltb_ge n 0)) by lia.
    split; [rewrite <-(take_drop (Z.to_nat n) ids1) in Hnd; by apply NoDup_app in Hnd as [? _]|]. rewrite length_take. lia. }
  assert (NoDup ([] : list string) ∧ Z.of_nat (length ([] : list string)) <= n) as Hnil by (split; [constructor|cbn; lia]).
  assert (∀ v, (ids1 ← match v with
      | None | Some VNull => Ok []
      | Some (VArr l) => distinctIds [] l
      | Some _ => Throw (JsError "(data.places ?? []).flatMap is not a function")
      end;
    let ids2 := sliceTo n ids1 in
    if existsb (λ id, (256 <? utf16Length id)%nat) ids2
    then Throw (AppError "PLACES_INVALID_RESPONSE" "Nearby response contains an invalid Place ID") else Ok ids2) = Ok ids →
    NoDup ids ∧ Z.of_nat (length ids) <= n) as Hv.
  { intros v. destruct v as [[]|]; try done; first [apply (Hl [])|apply Hl]. }
  destruct data; [done|apply Hv..].
Qed.

(** ** A run that has crashed *)

(** A run that is still marked as running, and a candidate of it *)
Definition leftRunning (r : ProspectRunRow) (c : ProspectCandidateRow) (db : ProspectDb) : Prop :=
  r ∈ prospectRuns db ∧ c ∈ prospectCandidates db ∧ pn_status r = "RUNNING" ∧ pc_prospectRunId c = pn_id r.

Section crashed.
Context `{Runtime} (r : ProspectRunRow) (c : ProspectCandidateRow).

Definition stays (db db' : ProspectDb) : Prop := leftRunning r c db → leftRunning r c db'.
#[local] Instance stays_preorder : PreOrder stays.
Proof. split; [by intros db ?|]. intros a b d H1 H2 Ha. by apply H2, H1. Qed.
Lemma stays_tables {A} (m : XM A) : always keepsTables m → always stays m.
Proof. intros Hm w Hl. destruct (Hm w) as [Er Ec]. unfold leftRunning in *. by rewrite Er, Ec. Qed.
Lemma stays_zoom {A} (m : CM A) : always stays (zoom onCollect m).
Proof. apply stays_tables. intros w. rewrite zoom_run. by split. Qed.
Lemma stays_candidateRows runId places : ∀ position, always stays (candidateRows runId position places).
Proof.
  induction places as [|p places IH]; intros position; cbn [candidateRows]; [apply (always_ret stays)|].
  apply (always_bind stays); [apply (always_randomUUID stays)|intros id]. apply (always_bind stays); [apply IH|intros; apply (always_ret stays)].
Qed.

Lemma stays_update runId position x : pn_id r ≠ runId → always stays (updateCandidate runId position x).
Proof.
  intros Hne. apply (always_bind stays); [apply (always_now stays)|intros t]. apply (always_guarded stays).
  intros db _ (Hr & Hc & Hs & Hid). split_and!; try done. cbn. apply list_elem_of_fmap. exists c. split; [|done].
  unfold isCandidate. by rewrite Hid, (proj2 (String.eqb_neq _ _) Hne).
Qed.
Lemma stays_finish runId result q p calls reason t : pn_id r ≠ runId → always stays (finishProspectRun runId result q p calls reason t).
Proof.
  intros Hne. apply (always_modify stays). intros db (Hr & Hc & Hs & Hid). split_and!; try done. cbn.
  apply list_elem_of_fmap. exists r. by rewrite (proj2 (String.eqb_neq _ _) Hne).
Qed.
Lemma stays_processAll deps options runId pipelineRunId requestId places : pn_id r ≠ runId →
  (∀ i, always keepsTables (dp_process deps i)) →
  ∀ position s, always stays (processAll deps options runId pipelineRunId requestId position places s).
Proof.
  intros Hne Hp. induction places as [|p places IH]; intros position s; cbn [processAll]; [apply (always_ret stays)|].
  destruct (_ <=? _); [apply (always_ret stays)|]. destruct (budgetExhausted _ _); [apply (always_ret stays)|].
  apply (always_bind stays).
  - unfold processOne. apply (always_bind stays); [apply (always_tryCatch stays), stays_tables, Hp|intros a]. cbv zeta.
    apply (always_bind stays); [by apply stays_update|intros; apply (always_ret stays)].
  - intros s1. destruct (lp_result s1); [apply (always_ret stays)|apply IH].
Qed.
(** A run draws an id of its own. *)
Lemma stays_start {A} runId pipelineRunId options location t (k : () → XM A) :
  (pn_id r ≠ runId → always stays (k tt)) → always stays (startProspectRun runId pipelineRunId options location t ≫= k).
Proof.
  intros Hk. destruct (decide (pn_id r = runId)) as [E|Hne].
  - intros w Hl. unfold startProspectRun, guarded, mbind, M_bind. cbv zeta.
    match goal with |- context [checkInsertProspectRun ?row (w_db w)] => assert (is_Some (checkInsertProspectRun row (w_db w))) as [e ->] end; [|exact Hl].
    unfold checkInsertProspectRun. cbn [refuse pn_id]. assert (existsb (λ r', String.eqb (pn_id r') runId) (prospectRuns (w_db w)) = true) as ->.
    { apply elem_of_existsb. exists r. by rewrite E, String.eqb_refl; destruct Hl. }
    by eexists.
  - apply (always_bind stays); [|intros []; by apply Hk]. apply (always_guarded stays).
    intros db _ (Hr & Hc & Hs & Hid). split_and!; try done. cbn. apply elem_of_app. by left.
Qed.
Lemma stays_runProspects deps input pipelineRunId :
  (∀ p, always keepsTables (dp_resolve deps p)) → (∀ i, always keepsTables (dp_discover deps i)) →
  (∀ i, always keepsTables (dp_process deps i)) →
  (∀ k, dp_continuation deps = Some k → ∀ l p q, always keepsTables (k l p q)) →
  always stays (runProspects deps input pipelineRunId).
Proof.
  intros Hl Hd Hp Hk. unfold runProspects. apply (always_bind stays); [apply (always_lift_res stays)|intros options].
  apply (always_bind stays).
  { unfold locate. destruct (ri_latitude options), (ri_longitude options); first
      [apply stays_tables, Hl|apply (always_bind stays); [apply (always_now stays)|intros; apply (always_ret stays)]]. }
  intros location. apply (always_bind stays); [apply (always_randomUUID stays)|intros runId].
  apply (always_bind stays); [apply (always_now stays)|intros t]. apply stays_start. intros Hne.
  apply (always_bind stays); [apply (always_now stays)|intros t1].
  apply (always_bind stays); [apply (always_tryCatch stays), stays_tables, Hd|intros [places|e]]; cbv zeta;
    (apply (always_bind stays); [apply (always_now stays)|intros t2]).
  - apply (always_bind stays); [apply stays_zoom|intros requestId]. apply (always_bind stays).
    { unfold saveCandidates. destruct places as [|p places]; [apply (always_ret stays)|].
      apply (always_bind stays); [apply stays_candidateRows|intros rows]. apply (always_guarded stays).
      intros db _ (Hr & Hc & Hs & Hid). split_and!; try done. cbn. apply elem_of_app. by left. }
    intros _. apply (always_bind stays); [by apply stays_processAll|intros s]. cbv zeta.
    apply (always_bind stays); [apply (always_now stays)|intros t3]. apply (always_bind stays); [by apply stays_finish|intros _].
    apply (always_bind stays); [|intros; apply (always_ret stays)].
    destruct (head _), (dp_continuation deps) as [k|] eqn:Ek; try apply (always_ret stays).
    destruct (ri_continuePipeline options); [by apply stays_tables, (Hk k)|apply (always_ret stays)].
  - apply (always_bind stays); [by apply stays_finish|intros; apply (always_ret stays)].
Qed.
End crashed.

Section command.
Context `{Runtime, MathLibrary, RowOrder, UrlLibrary, NearbyTransport} (nearMeters : num) (fileExists : string → bool)
  (details : string → bool → XM (option PlaceDetails))
  (enrich : string → string → list LeadFactRow → string → string → XM (EnrichmentOutcome * bool))
  (latestVerification : string → XM (option Verification))
  (continuation : option string → string → string → string → XM ()).
Local Notation deps := (productionDeps nearMeters details enrich latestVerification continuation).

Lemma postPlaces_run {DB} url body mask (w : world DB) : (postPlaces url body mask w).2 = World (w_db w) (S (w_ticks w)) (w_uuids w).
Proof.
  unfold postPlaces, ask, tryCatch, mbind, M_bind. cbn. destruct (fetchNearby _ _ _ _) as [a|e]; cbn; [|done].
  destruct ((200 <=? pa_status a) && _); [|done]. by destruct (jsonParse (pa_body a)).
Qed.
Lemma resolveLocation_located place w : located w (resolveLocation place w).2.
Proof.
  unfold resolveLocation. cbv zeta. destruct (negb _); [by repeat split|].
  set (key := normalizeLocationQuery place).
  assert (∃ found t, findLocation key w = (Ok found, World (w_db w) t (w_uuids w))) as (found & t & E).
  { unfold findLocation, query, now, mbind, M_bind. destruct (cachedAt key (w_db w)); [|destruct w]; by do 2 eexists. }
  unfold mbind at 1, M_bind at 1. rewrite E. destruct found as [r|]; [by repeat split|].
  set (w1 := World _ _ _). unfold mbind at 1, M_bind at 1.
  pose proof (postPlaces_run PLACES_TEXT_SEARCH_URL
    (JObj [("textQuery", JStr (trim place)); ("pageSize", JNum 5)]) LOCATION_FIELD_MASK w1) as Hp.
  destruct (postPlaces _ _ _ w1) as [[data|e] w2]; cbn in Hp; subst w2; [|by repeat split].
  unfold mbind at 1, M_bind at 1. destruct (resolvedPlace key data) as [[[formatted lat] lon]|e]; cbn [lift_res]; [|by repeat split].
  unfold saveLocation, now, randomUUID, guarded, mbind, M_bind. cbn -[checkInsertLocation].
  match goal with |- context [checkInsertLocation ?r ?db] => destruct (checkInsertLocation r db) end; cbn; split; cbn; try lia;
    [by split_and!|]. case_bool_decide; by split_and!.
Qed.
(** An entry of the cache that has expired is never replaced: from then on every
    resolution of its location asks Google, pays, and saves nothing. *)
Lemma expired_location_pays_again place w r :
  truthy (normalizeLocationQuery place) = true → cachedAt (normalizeLocationQuery place) (w_db w) = Some r →
  LOCATION_CACHE_MS < clock (w_ticks w) - lo_resolvedAt r →
  w_db (resolveLocation place w).2 = w_db w ∧
  ∀ l, (resolveLocation place w).1 = Ok l → rl_externalRequests l = 1.
Proof.
  intros Hkey Hr Hold. set (key := normalizeLocationQuery place) in *.
  cut (∀ a w', resolveLocation place w = (a, w') → w_db w' = w_db w ∧ ∀ l, a = Ok l → rl_externalRequests l = 1).
  { intros Hcut. destruct (resolveLocation place w) as [a w']. by apply Hcut. }
  intros a w'. unfold resolveLocation. fold key. cbv zeta. rewrite Hkey. cbn [negb].
  assert (findLocation key w = (Ok None, World (w_db w) (S (w_ticks w)) (w_uuids w))) as E.
  { unfold findLocation, query, now, mbind, M_bind. rewrite Hr. by rewrite (proj2 (Z.ltb_lt _ _) Hold). }
  unfold mbind at 1, M_bind at 1. rewrite E. set (w1 := World _ _ _). unfold mbind at 1, M_bind at 1.
  pose proof (postPlaces_run PLACES_TEXT_SEARCH_URL
    (JObj [("textQuery", JStr (trim place)); ("pageSize", JNum 5)]) LOCATION_FIELD_MASK w1) as Hp.
  destruct (postPlaces _ _ _ w1) as [[data|e] w2]; cbn in Hp; subst w2; [|by intros [= <- <-]].
  unfold mbind at 1, M_bind at 1. destruct (resolvedPlace key data) as [[[formatted lat] lon]|e]; cbn [lift_res]; [|by intros [= <- <-]].
  unfold saveLocation, now, randomUUID, guarded, mbind, M_bind. cbn -[checkInsertLocation].
  match goal with |- context [checkInsertLocation ?x ?db] => destruct (checkInsertLocation x db) end; cbn; [by intros [= <- <-]|].
  rewrite Hr. cbn. intros [= <- <-]. split; [done|]. by intros l [= <-].
Qed.
Lemma discoverNearby_run i w : (discoverNearby i w).2 = World (w_db w) (S (w_ticks w)) (w_uuids w) ∧
  (0 <= ni_maxCandidates i → ∀ ids, (discoverNearby i w).1 = Ok ids → NoDup ids ∧ Z.of_nat (length ids) <= ni_maxCandidates i).
Proof.
  unfold discoverNearby, postPlaces, ask, tryCatch, mbind, M_bind. cbn -[nearbyIds nearbyBody].
  destruct (fetchNearby _ _ _ _) as [a|e]; cbn -[nearbyIds nearbyBody]; [|by split].
  destruct ((200 <=? pa_status a) && _); [|by split].
  destruct (jsonParse (pa_body a)) as [v|]; cbn -[nearbyIds nearbyBody]; [|by split].
  destruct (nearbyIds (ni_maxCandidates i) v) as [ids|e] eqn:E; cbn; split; try done.
  intros Hn ids' [= <-]. by apply (nearbyIds_ok _ v).
Qed.


(** A controlled test never runs: its preflight demands that DRY_RUN be on, and the run
    that follows it stops because DRY_RUN is on; so nothing is read, asked or written in
    any configuration, and either an error or no result comes out. *)
Theorem controlled_test_never_runs c cli w : xo_controlledTest cli = true →
  ∃ r, prospectRunCommand nearMeters fileExists details enrich latestVerification continuation c cli w = (r, w) ∧
    (r = Ok None ∨ ∃ e, r = Throw e).
Proof.
  intros Hc. unfold prospectRunCommand. cbv zeta. rewrite Hc.
  assert (∀ reason b, refuseUnless b reason = Ok () → b = true) as Hmust by (intros ? [] ?; done).
  destruct (assertControlledTestPreflight _ _ _) as [recipient|e] eqn:Epre; [|eexists; split; [reflexivity|eauto]].
  assert (xc_DRY_RUN c = true) as Hdry.
  { unfold assertControlledTestPreflight in Epre.
    repeat (match type of Epre with context [refuseUnless ?b ?r] => let E := fresh in destruct (refuseUnless b r) as [[]|] eqn:E; cbn -[refuseUnless integerN normalizeControlledRecipient] in Epre; [apply Hmust in E|done] end).
    done. }
  cbn -[assertControlledProviderConfig]. destruct (assertControlledProviderConfig fileExists c) as [[]|e];
    [|eexists; split; [reflexivity|eauto]].
  unfold withControlledTestGates. cbv zeta. destruct (_ || _); [eexists; split; [reflexivity|eauto]|].
  cbn [xc_DRY_RUN withGates]. rewrite Hdry. unfold runProspect. cbn [xc_DRY_RUN xc_PROSPECT_DISCOVERY_ENABLED xc_ALLOW_PAID_READS withGates].
  rewrite Hdry. eexists. split; [reflexivity|]. by left.
Qed.
(** A run that crashed blocks its places for good: it stays marked as running, later
    runs neither end it nor change its candidates, and each of them that finds one of its
    places reports it as a duplicate, without looking at it, asking anything or writing. *)
Theorem crashed_run_blocks_places c recipient continuePipeline r candidate :
  injectedHarmless details enrich latestVerification →
  (∀ a leadId p q, always keepsTables (continuation a leadId p q)) →
  (∀ i w, leftRunning r candidate (w_db w) → pr_placeId i = pc_placeId candidate → pr_prospectRunId i ≠ pn_id r →
    processPlace nearMeters details enrich latestVerification i w =
      (Ok (candidateResult PO_DUPLICATE None "attached_to_another_active_run" 0 0), w)) ∧
  ∀ input pipelineRunId w, leftRunning r candidate (w_db w) →
    leftRunning r candidate (w_db (runProspects (deps c recipient continuePipeline) input pipelineRunId w).2).
Proof.
  intros Hi Hk. split.
  - intros i w (Hrun & Hc & Hs & Hid) Hplace Hne. unfold processPlace, failClosed, tryCatch, query, mbind, M_bind.
    assert (attachedToOtherActiveRun (pr_placeId i) (pr_prospectRunId i) (w_db w) = true) as ->; [|done].
    unfold attachedToOtherActiveRun. apply elem_of_existsb. exists candidate. split; [done|].
    rewrite Hplace, String.eqb_refl, Hid, (proj2 (String.eqb_neq (pn_id r) _)) by congruence. cbn.
    apply elem_of_existsb. exists r. by rewrite String.eqb_refl, Hs.
  - intros input p w Hl. apply (stays_runProspects r candidate (deps c recipient continuePipeline)); try done.
    + intros place w0. by destruct (resolveLocation_located place w0) as ((_ & Er & Ec) & _).
    + intros i w0. cbn. rewrite (proj1 (discoverNearby_run i w0)). by split.
    + intros i. cbn [dp_process productionDeps]. by apply keeps_processPlace.
    + intros k. cbn [dp_continuation productionDeps]. destruct continuePipeline; [|done]. intros [= <-] l a b. apply Hk.
Qed.
End command.

(** ** Evaluated *)

Section demo.
#[local] Existing Instance demo_runtime.
#[local] Instance demoTrig : MathLibrary := {| sinN := id; cosN := id; asinN := id; squareN x := mulN x x |}.
#[local] Instance demoLeadOrder : RowOrder := {| rowOrder l := l; rowOrder_perm l := Permutation_refl l |}.
#[local] Instance demoUrlLibrary : UrlLibrary := {| parseUrl _ := None |}.
(** Google knows two places; of the first it says that it has closed, of the second nothing. *)
#[local] Instance demoNearby : NearbyTransport := {|
  fetchNearby _ _ _ _ := Ok {| pa_status := 200; pa_statusText := "OK";
    pa_body := stringify (JObj [("places", JArr [JObj [("id", JStr "ChIJplace1")]; JObj [("id", JStr "ChIJplace2")]; JObj [("id", JStr "ChIJplace1")]])]) |};
  isAbort _ := false |}.
Definition demoPlaceDetails (placeId : string) (force : bool) : XM (option PlaceDetails) :=
  mret (if String.eqb placeId "ChIJplace1" then Some
    {| dt_displayName := Some "Zahnarzt Nord"; dt_formattedAddress := None; dt_locality := None; dt_country := None;
       dt_primaryType := None; dt_types := []; dt_businessStatus := Some "CLOSED_PERMANENTLY";
       dt_nationalPhoneNumber := None; dt_websiteUri := None; dt_rating := None; dt_userRatingCount := None |} else None).
Definition demoEnrich (leadId placeId : string) (facts : list LeadFactRow) (website run : string) :
    XM (EnrichmentOutcome * bool) := mret (NO_CANDIDATE, false).
Definition demoVerification (leadId : string) : XM (option Verification) := mret None.
Definition demoContinuation (recipient : option string) (leadId runId pipelineRunId : string) : XM () := mret tt.
Definition demoProspectDb : ProspectDb :=
  {| prospectCollect := {| collectSystem := demoSystem; sourceRequests := []; sourceEntities := [];
                           sourceObservations := []; placesCalls := [] |};
     prospectResults := []; prospectResultFacts := []; prospectRuns := []; prospectCandidates := [];
     prospectLocations := [] |}.
(** The run of the pipeline has been started. *)
Definition demoProspecting : world ProspectDb := (inSystem (startRun "prospect:dentists" false) (World demoProspectDb 0 0)).2.
Definition demoConfig (dryRun : bool) : ProspectConfig :=
  {| xc_PROSPECT_DISCOVERY_ENABLED := true; xc_ALLOW_PAID_READS := true; xc_DRY_RUN := dryRun;
     xc_GOOGLE_PLACES_API_KEY := Some "key"; xc_PROSPECT_CONTINUE_PIPELINE := true; xc_SENDING_ENABLED := false;
     xc_OUTBOUND_ACTIONS_ENABLED := false; xc_SCHEDULING_ENABLED := false; xc_PROSPECT_MAX_CANDIDATES_PER_RUN := 5;
     xc_PROSPECT_TARGET_QUALIFIED_PER_RUN := 1; xc_PROSPECT_RANK_PREFERENCE := "POPULARITY";
     xc_limits := {| pl_maxDetails := 5; pl_maxWebsiteVerifications := 5 |}; xc_TEST_RECIPIENT_EMAIL := Some "t@example.org";
     xc_LLM_PROVIDER := "openai"; xc_OPENAI_API_KEY := Some "key"; xc_NETLIFY_AUTH_TOKEN := Some "token";
     xc_NETLIFY_SITE_ID := Some "site"; xc_NETLIFY_EXPECTED_HOSTNAME := Some "host"; xc_GMAIL_ACCOUNT_EMAIL := Some "a@b.de";
     xc_GMAIL_SENDER_NAME := Some "A"; xc_GMAIL_CREDENTIALS_FILE := "cred"; xc_GMAIL_OAUTH_CLIENT_FILE := "client";
     xc_GMAIL_OAUTH_CLIENT_ID := None; xc_GMAIL_OAUTH_CLIENT_SECRET := None |}.
Definition demoCli (controlled : bool) : ProspectRunCliOptions :=
  {| xo_niche := "Dentists"; xo_location := Some "Mitte"; xo_radiusKm := "5"; xo_targetQualified := Some "1";
     xo_maxCandidates := Some "5"; xo_rank := None; xo_latitude := Some "52.5"; xo_longitude := Some "13.4";
     xo_continuePipeline := controlled; xo_controlledTest := controlled;
     xo_testRecipientEnv := Some "TEST_RECIPIENT_EMAIL"; xo_autoApproveTestArtifacts := true |}.
Definition demoInput : ProspectInput := prospectInput (demoCli false) (demoConfig false).
Definition demoOptionsOf : ResolvedProspectInput :=
  match validateProspectInput demoInput with
  | Ok o => o
  | Throw _ => {| ri_niche := ""; ri_location := ""; ri_radiusKm := ofZ 0; ri_targetQualified := 0; ri_maxCandidates := 0;
                  ri_rankPreference := ""; ri_latitude := None; ri_longitude := None; ri_continuePipeline := false;
                  ri_includedTypes := [] |}
  end.
Definition demoDeps : ProspectDeps :=
  productionDeps (ofZ 75) demoPlaceDetails demoEnrich demoVerification demoContinuation (demoConfig false) None false.
Definition demoRun : res ProspectRunSummary * world ProspectDb := runProspects demoDeps demoInput "uuid-0" demoProspecting.
(** The first place is screened out; the missing answer about the second ends the run. *)
Example demo_run_ends :
  match demoRun with
  | (Ok s, w) => (ps_result s, ps_discovered s, ps_processed s, ps_circuitBreakerReason s) =
      (RUN_SYSTEMIC_FAILURE, 2, 2, Some "place_details_missing_response") ∧
      map (λ c, (pc_placeId c, pc_outcome c)) (prospectCandidates (w_db w)) = [("ChIJplace1", PO_CLOSED); ("ChIJplace2", PO_SYSTEMIC_FAILURE)]
  | _ => False
  end.
Proof. by vm_compute. Qed.

Lemma demo_harmless : injectedHarmless demoPlaceDetails demoEnrich demoVerification.
Proof. split_and!; [intros; apply (always_ret harmless)..|]. intros l w. split; [apply (reflexivity (R := harmless))|done]. Qed.
Lemma demo_sound : sound (w_db demoProspecting).
Proof.
  split; [|by vm_compute]. apply (bool_decide_unpack (map_Forall _ _)). by vm_compute.
Qed.
Lemma demo_prospect_ready : ready "uuid-0" demoProspecting.
Proof.
  split; try (intros n r Hn Hr; exfalso; vm_compute in Hr; by apply elem_of_nil in Hr).
  - intros n m E. apply (inj pretty), (inj (String.append "uuid-")). exact E.
  - split_and!; constructor.
  - apply (bool_decide_unpack (is_Some _)). by vm_compute.
  - intros r Hr. exfalso. vm_compute in Hr. by apply elem_of_nil in Hr.
  - exact demo_sound.
Qed.

Lemma controlled_test_never_runs_witness :
  ∃ r, prospectRunCommand (ofZ 75) (λ _, true) demoPlaceDetails demoEnrich demoVerification demoContinuation
    (demoConfig true) (demoCli true) demoProspecting = (r, demoProspecting) ∧ (r = Ok None ∨ ∃ e, r = Throw e).
Proof.
  apply (controlled_test_never_runs (ofZ 75) (λ _, true) demoPlaceDetails demoEnrich demoVerification demoContinuation
    (demoConfig true) (demoCli true) demoProspecting). reflexivity.
Defined.
(** The run stopped after its first candidate. *)
Definition demoCrashedRow : ProspectRunRow :=
  startedRow "crashed" "uuid-0" demoOptionsOf {| rl_latitude := ofZ 52; rl_longitude := ofZ 13; rl_formattedLocation := "Berlin";
    rl_provider := "demo"; rl_resolvedAt := 0; rl_externalRequests := 1 |} 0.
Definition demoCrashedPlace : ProspectCandidateRow :=
  {| pc_id := "c1"; pc_prospectRunId := "crashed"; pc_placeId := "ChIJplace1"; pc_position := 1; pc_leadId := None;
     pc_outcome := PO_DISCOVERED; pc_skipReason := None; pc_websiteFailureStage := None; pc_websiteFailureCode := None;
     pc_websiteFailureElapsedMs := None; pc_processedAt := None |}.
Definition demoCrashed : world ProspectDb :=
  World (setCandidates (λ _, [demoCrashedPlace]) (setProspectRuns (λ _, [demoCrashedRow]) demoProspectDb)) 0 0.
Definition demoProcess : ProcessInput :=
  {| pr_prospectRunId := "next"; pr_pipelineRunId := "uuid-0"; pr_sourceRequestId := "s"; pr_campaign := "prospect:dentists";
     pr_niche := "dentists"; pr_includedTypes := ["dentist"]; pr_placeId := "ChIJplace1"; pr_position := 0 |}.
Lemma crashed_run_blocks_places_witness :
  processPlace (ofZ 75) demoPlaceDetails demoEnrich demoVerification demoProcess demoCrashed =
    (Ok (candidateResult PO_DUPLICATE None "attached_to_another_active_run" 0 0), demoCrashed) ∧
  leftRunning demoCrashedRow demoCrashedPlace (w_db (runProspects demoDeps demoInput "uuid-0" demoCrashed).2).
Proof.
  destruct (crashed_run_blocks_places (ofZ 75) demoPlaceDetails demoEnrich demoVerification demoContinuation
    (demoConfig false) None false demoCrashedRow demoCrashedPlace) as [Hblocked Hstays].
  - exact demo_harmless.
  - intros a l p q w. split; reflexivity.
  - assert (leftRunning demoCrashedRow demoCrashedPlace (w_db demoCrashed)) as Hl.
    { split; [apply list_elem_of_singleton; reflexivity|]. split; [apply list_elem_of_singleton; reflexivity|]. split; reflexivity. }
    split; [|exact (Hstays demoInput "uuid-0" demoCrashed Hl)].
    apply (Hblocked demoProcess demoCrashed Hl); [reflexivity|]. intros E. discriminate E.
Defined.
End demo.
