(* ===== verification/ContactTrust.v ===== *)
(** * Trust in contacts

    The interface of the providers of addresses and that they implement it, what the trust boundary
    has seen of a contact that it accepts, and what a search and a batch do to the store
    and pay for: the lemmas behind ContactSpecs. *)
From Stdlib Require QArith.
From S2P Require Import Prelude.
From S2P Require Import JsNumber.
From S2P Require Import JsText.
From S2P Require Import JsonText.
From S2P Require Import LeadLifecycle.
From S2P Require Import PipelineDb.
From S2P Require Import SystemDb.
From S2P Require Import LeadFacts.
From S2P Require Import LeadSource.
From S2P Require Import PlaceDetails.
From S2P Require Import Collect.
From S2P Require Import Backfill.
From S2P Require Import Contacts.
From S2P Require Import ContactEnrich.
From S2P Require Import ContactProviders.
From S2P Require Import ContactResolve.
Open Scope string_scope.
Open Scope Z_scope.
Open Scope list_scope.

(** ** What a provider may do *)

(** Requests are made, and nothing is stored. *)
Definition requestsOnly (db db' : ContactDb) : Prop := ∃ l,
  db' = {| contactSystem := contactSystem db; enrichmentResults := enrichmentResults db;
           contactResolutions := contactResolutions db; opportunityScores := opportunityScores db;
           paidCalls := paidCalls db; providerRequests := providerRequests db ++ l |}.
#[global] Instance requestsOnly_preorder : PreOrder requestsOnly.
Proof.
  split.
  - intros db. exists []. rewrite app_nil_r. by destruct db.
  - intros a b c [l ->] [l' ->]. exists (l ++ l'). cbn. by rewrite app_assoc.
Qed.
(** The interface of a provider to its users: it stores nothing, and an enrichment is at
    least one request. *)
Class LawfulProvider (p : ContactEnrichmentProvider) : Prop := {
  preview_quiet domain people : always requestsOnly (ep_preview p domain people);
  enrich_quiet q : always requestsOnly (ep_enrich p q);
  search_quiet search domain : ep_domainSearch p = Some search → always requestsOnly (search domain);
  enrich_counts q w : wp (ep_enrich p q) (λ o _, 1 <= default 1 (po_requestsUsed o)) w;
}.

Section providers.
Context `{Runtime, EnrichmentTransport}.

Lemma providerRequest_quiet label method url path body : always requestsOnly (providerRequest label method url path body).
Proof.
  unfold providerRequest. always_tac. apply (always_modify requestsOnly). intros db. by eexists.
Qed.
#[local] Hint Resolve providerRequest_quiet : outreach.
Lemma pollEnrichment_quiet deps n id credits : always requestsOnly (pollEnrichment deps n id credits).
Proof.
  revert credits. induction n as [|n IH]; intros credits; cbn [pollEnrichment]; [always_tac|].
  unfold instantlyRequest. always_tac.
Qed.
#[local] Hint Resolve pollEnrichment_quiet : outreach.
(** Every outcome of a run that says how many requests it used says at least one. *)
Lemma counts_bind {A} (m : EM A) (k : A → EM ProviderEnrichmentOutcome) w :
  (∀ a w, wp (k a) (λ o _, 1 <= default 1 (po_requestsUsed o)) w) →
  wp (m ≫= k) (λ o _, 1 <= default 1 (po_requestsUsed o)) w.
Proof. intros Hk. rewrite wp_bind. unfold wp. destruct (m w) as [[]?]; [apply Hk|done]. Qed.
#[local] Ltac counts := repeat first
  [ apply counts_bind; intros | match goal with |- wp (throw _) _ _ => done end
  | match goal with |- wp (mret _) _ _ => rewrite wp_ret; cbn; lia end | case_match ].

#[export] Instance hunter_lawful deps : LawfulProvider (HunterContactEnrichmentProvider deps).
Proof.
  split; cbn.
  - intros. unfold hunterPreview. always_tac.
  - intros. unfold hunterEnrich, hunterGet. always_tac.
  - intros ? domain [= <-]. unfold hunterDomainSearch, hunterGet. always_tac.
  - intros. unfold hunterEnrich. counts.
Qed.
#[export] Instance instantly_lawful deps : LawfulProvider (InstantlyContactEnrichmentProvider deps).
Proof.
  split; cbn; [| |done|].
  - intros. unfold instantlyPreviewPeople, instantlyRequest. always_tac.
  - intros. unfold instantlyEnrich, createAndPoll, instantlyRequest. always_tac.
  - intros. unfold instantlyEnrich. counts.
Qed.
#[export] Instance apollo_lawful deps : LawfulProvider (ApolloContactEnrichmentProvider deps).
Proof.
  split; cbn; [| |done|].
  - intros. unfold apolloPreview, apolloPost. always_tac.
  - intros. unfold apolloEnrich, apolloPost. always_tac.
  - intros. unfold apolloEnrich. counts.
Qed.
#[export] Instance mock_lawful : LawfulProvider MockContactEnrichmentProvider.
Proof.
  split; unfold MockContactEnrichmentProvider; cbn [ep_preview ep_enrich ep_domainSearch]; [| |done|]; intros.
  - always_tac.
  - always_tac.
  - counts.
Qed.

(** The providers that a command has built *)
Lemma gatedProvider_ok c name label key apiKey p p' : gatedProvider c name label key apiKey p = Ok p' → p' = p.
Proof. unfold gatedProvider. cases; congruence. Qed.
Lemma buildContactEnrichmentProvider_lawful c p : buildContactEnrichmentProvider c = Ok p → LawfulProvider p.
Proof.
  unfold buildContactEnrichmentProvider, buildHunterContactEnrichmentProvider, buildApolloContactEnrichmentProvider,
    buildInstantlyContactEnrichmentProvider.
  cases; first [intros ->%gatedProvider_ok|intros [= <-]]; apply _.
Qed.
Lemma buildProvider_lawful config name p : buildProvider config name = Ok p → LawfulProvider p.
Proof. destruct name; cbn; intros ->%gatedProvider_ok; apply _. Qed.
Lemma liveServices_lawful config names services s :
  liveServices config names = Ok services → s ∈ services → LawfulProvider s.2.
Proof.
  revert services. induction names as [|n names IH]; intros services; cbn [liveServices]; [intros [= <-] []%elem_of_nil|].
  destruct (buildProvider config n) as [p|e] eqn:E; [|case_match; [apply IH|done]].
  destruct (liveServices config names) as [rest|] eqn:Er; [|done]. intros [= <-] [->|Hs]%elem_of_cons; [|by eapply IH].
  by eapply buildProvider_lawful.
Qed.
End providers.

(** ** Whom an accepted contact belongs to *)

(** What the trust boundary has seen of a contact: it is the normal form of an address that
    a provider returned as verified, in no generic mailbox, together with an identity that is the
    one asked for, at the host asked for or of an identity with that domain. *)
Definition provenContact (c : VerifiedContact) (p : CandidatePerson) (domain : string) : Prop :=
  vc_fullName c = cp_fullName p ∧ isGenericMailbox (vc_email c) = false ∧
  ∃ reported i, normalizeContactEmail reported = BareEmail (vc_email c) ∧ nameMatches i p = true ∧
    domainMatches i (vc_email c) domain = true ∧ titleMatch i p ≠ TM_mismatch.
Definition vouched (people : list CandidatePerson) (domain : string) (o : option VerifiedContact) : Prop :=
  ∀ c, o = Some c → ∃ p, p ∈ people ∧ provenContact c p domain.
Lemma decideAcceptance_proven o p domain c m : decideAcceptance o p domain = Accepted c m →
  po_verificationStatus o = EV_VERIFIED ∧ provenContact c p domain.
Proof.
  unfold decideAcceptance. destruct (bool_decide (po_verificationStatus o = EV_VERIFIED)) eqn:Es; [|done].
  apply bool_decide_eq_true in Es. cbn [negb].
  destruct (negb (truthy_opt (po_email o))); [done|].
  destruct (normalizeContactEmail _) as [email|] eqn:En; [|done].
  destruct (isGenericMailbox email) eqn:Eg; [done|].
  destruct (po_returnedIdentity o) as [i|]; [|done]. cbn [fm_name fm_domain fm_title].
  destruct (nameMatches i p) eqn:E1; [|done]. destruct (domainMatches i email domain) eqn:E2; [|done]. cbn [negb].
  destruct (bool_decide_reflect (titleMatch i p = TM_mismatch)) as [|Ht]; [done|].
  intros [= <- _]. split; [done|]. split_and!; [done|done|]. by exists (default "" (po_email o)), i.
Qed.
Lemma vouched_none people domain : vouched people domain None.
Proof. by intros c. Qed.
Lemma contactOf_vouched people domain o p : p ∈ people → vouched people domain (contactOf (decideAcceptance o p domain)).
Proof.
  intros Hp c. destruct (decideAcceptance o p domain) as [c' m|] eqn:E; [|done]. intros [= <-]. exists p.
  split; [done|]. by eapply decideAcceptance_proven.
Qed.
Lemma searchPeople_vouched people domain r personal ordered : ordered ⊆ people →
  vouched people domain (searchPeople domain r personal ordered).2.
Proof.
  induction ordered as [|p ordered IH]; intros Hsub; cbn [searchPeople]; [apply vouched_none|].
  assert (vouched people domain (searchPeople domain r personal ordered).2) as Hrest by (apply IH; set_solver).
  destruct (searchPeople _ _ _ ordered) as [attempts found]. cbn [snd] in Hrest.
  destruct (List.find _ _) as [x|]; [|done].
  pose proof (contactOf_vouched people domain (outcomeOf x r) p ltac:(set_solver)) as Hc.
  by destruct (decideAcceptance _ _ _).
Qed.

(** ** One question to a provider *)

(** Requests and paid calls are made, at most so many, and nothing is stored. *)
Definition asksAtMost (n : Z) (db db' : ContactDb) : Prop := ∃ calls l,
  Z.of_nat (length calls) <= n ∧
  db' = {| contactSystem := contactSystem db; enrichmentResults := enrichmentResults db;
           contactResolutions := contactResolutions db; opportunityScores := opportunityScores db;
           paidCalls := paidCalls db ++ calls; providerRequests := providerRequests db ++ l |}.
Lemma asks_requests db db' : requestsOnly db db' → asksAtMost 0 db db'.
Proof. intros [l ->]. exists [], l. rewrite app_nil_r. cbn. split; [lia|done]. Qed.
Lemma asks_trans n m db1 db2 db3 : asksAtMost n db1 db2 → asksAtMost m db2 db3 → asksAtMost (n + m) db1 db3.
Proof.
  intros (c1 & l1 & H1 & ->) (c2 & l2 & H2 & ->). exists (c1 ++ c2), (l1 ++ l2). rewrite length_app.
  split; [lia|]. cbn. by rewrite !app_assoc.
Qed.
Lemma asks_weaken n m db db' : n <= m → asksAtMost n db db' → asksAtMost m db db'.
Proof. intros Hn (c & l & Hc & ->). exists c, l. split; [lia|done]. Qed.
Lemma asks_refl db : asksAtMost 0 db db.
Proof. by apply asks_requests. Qed.
Lemma asks_paid leadId db : asksAtMost 1 db (logPaid leadId db).
Proof. exists [leadId], []. rewrite app_nil_r. split; [done|by destruct db]. Qed.

Section asking.
Context `{Runtime, Collation} (provider : ContactEnrichmentProvider) `{!LawfulProvider provider}.

(** What the paid part has done since [s0], from the database [db]: what it has accepted is
    vouched for, and the calls are within the room that the caps leave, and counted unless one failed. *)
Definition spentFrom (people : list CandidatePerson) (domain : string) (caps : EnrichmentRunCaps) (s0 : Spending)
    (db : ContactDb) (s : Spending) (db' : ContactDb) : Prop :=
  vouched people domain (sp_accepted s) ∧ ∃ n, asksAtMost n db db' ∧
    (∀ m, ca_maxRequests caps = Some m → n <= Z.max 0 (m - sp_requests s0)) ∧
    (sp_errored s = false → n <= sp_requests s - sp_requests s0).
Lemma spent_nothing people domain caps s0 db : sp_accepted s0 = None → spentFrom people domain caps s0 db (capped s0) db.
Proof.
  intros E. split; [cbn; rewrite E; apply vouched_none|]. exists 0. split_and!; [apply asks_refl|lia|cbn; lia].
Qed.
Lemma under_caps caps s m : overCaps caps s = false → ca_maxRequests caps = Some m → sp_requests s < m.
Proof. unfold overCaps. intros [Ho _]%orb_false_iff E. rewrite E in Ho. by apply Z.leb_gt in Ho. Qed.
Lemma enrichMatches_spent people leadId domain caps matches s w :
  sp_accepted s = None → (∀ m, m ∈ matches → m.1 ∈ people) →
  awp (enrichMatches provider leadId domain caps matches s)
    (λ s' w', spentFrom people domain caps s (w_db w) s' (w_db w')) (λ _, False) w.
Proof using Type*.
  revert s w. induction matches as [|[person pp] matches IH]; intros s w Hs Hm; cbn [enrichMatches].
  { rewrite awp_ret. split; [rewrite Hs; apply vouched_none|]. exists 0. split_and!; [apply asks_refl|lia..]. }
  destruct (overCaps caps s) eqn:Ecaps; [rewrite awp_ret; by apply spent_nothing|].
  awp_run. set (q := {| eq_domain := domain; eq_person := person; eq_providerLeadId := pp_providerLeadId pp |}).
  set (w1 := World (logPaid leadId (w_db w)) (w_ticks w) (w_uuids w)).
  pose proof (enrich_quiet q w1) as Hquiet. pose proof (enrich_counts q w1) as Hcounts.
  rewrite awp_tryCatch. unfold awp at 1. unfold wp in Hcounts.
  destruct (ep_enrich provider q w1) as [[o|e] w2] eqn:E; cbn [snd] in Hquiet.
  - assert (asksAtMost 1 (w_db w) (w_db w2)) as H1.
    { apply (asks_trans 1 0 _ (w_db w1)); [apply asks_paid|by apply asks_requests]. }
    set (s1 := attempted person o (decideAcceptance o person domain) s).
    assert (sp_requests s + 1 <= sp_requests s1) as Hreq by (cbn; lia).
    assert (vouched people domain (sp_accepted s1)) as Hv by (apply contactOf_vouched, (Hm (person, pp)); by left).
    destruct (sp_accepted s1) eqn:Eacc.
    + rewrite awp_ret. split; [by rewrite Eacc|]. exists 1. split_and!; [done| |intros; lia].
      intros m Hmax. pose proof (under_caps _ _ _ Ecaps Hmax). lia.
    + eapply awp_mono; [| |apply (IH s1 w2); [done|intros m Hin; apply Hm; by right]]; [|done].
      intros s' w' (Hv' & n & Ha & Hmax & Hreq'). split; [done|]. exists (1 + n).
      split_and!; [by eapply asks_trans| |intros He; specialize (Hreq' He); lia].
      intros m Em. pose proof (under_caps _ _ _ Ecaps Em). specialize (Hmax m Em). lia.
  - intros e' Ee. injection Ee as <-. rewrite awp_ret. split; [cbn; rewrite Hs; apply vouched_none|].
    exists 1. split_and!; [|intros m Em; pose proof (under_caps _ _ _ Ecaps Em); lia|done].
    apply (asks_trans 1 0 _ (w_db w1)); [apply asks_paid|by apply asks_requests].
Qed.
Lemma attemptDomainSearch_spent people leadId domain ordered caps search s w :
  sp_accepted s = None → ordered ⊆ people → ep_domainSearch provider = Some search →
  awp (attemptDomainSearch leadId domain ordered caps search s)
    (λ s' w', spentFrom people domain caps s (w_db w) s' (w_db w')) (λ _, False) w.
Proof using Type*.
  intros Hs Hsub Esearch. unfold attemptDomainSearch.
  destruct (overCaps caps s) eqn:Ecaps; [rewrite awp_ret; by apply spent_nothing|].
  awp_run. set (w1 := World (logPaid leadId (w_db w)) (w_ticks w) (w_uuids w)).
  pose proof (search_quiet search domain Esearch w1) as Hquiet.
  rewrite awp_tryCatch. unfold awp at 1.
  destruct (search domain w1) as [[r|e] w2] eqn:E; cbn [snd] in Hquiet;
    assert (asksAtMost 1 (w_db w) (w_db w2)) as H1
      by (apply (asks_trans 1 0 _ (w_db w1)); [apply asks_paid|by apply asks_requests]).
  - rewrite awp_ret. unfold searched.
    pose proof (searchPeople_vouched people domain r
      (List.filter (λ p, bool_decide (ds_emailType p = Some ET_personal)) (dr_people r)) ordered Hsub) as Hv.
    destruct (searchPeople _ _ _ _) as [attempts found]. cbn [snd] in Hv. split; [done|]. exists 1.
    split_and!; [done| |cbn; lia]. intros m Em. pose proof (under_caps _ _ _ Ecaps Em). lia.
  - intros e' _. rewrite awp_ret. split; [cbn; rewrite Hs; apply vouched_none|]. exists 1.
    split_and!; [done| |done]. intros m Em. pose proof (under_caps _ _ _ Ecaps Em). lia.
Qed.

(** A run that asks: its calls are within the cap, and of rows it adds at most its result,
    which is proven. *)
Definition provenRow (r : ContactEnrichmentResult) : Prop :=
  vouched (er_candidates r) (er_requestedDomain r) (er_accepted r).
Definition withinCap (caps : EnrichmentRunCaps) (n : Z) : Prop := ∀ m, ca_maxRequests caps = Some m → n <= Z.max 0 m.
Definition asked (caps : EnrichmentRunCaps) (db db' : ContactDb) : Prop := ∃ n, asksAtMost n db db' ∧ withinCap caps n.
Definition answered (leadId : string) (caps : EnrichmentRunCaps) (db : ContactDb) (r : ContactEnrichmentResult)
    (db' : ContactDb) : Prop :=
  er_leadId r = leadId ∧
  ((db' = db ∧ r ∈ enrichmentResults db) ∨
   ∃ mid, asked caps db mid ∧ provenRow r ∧ checkInsertEnrichment r mid = None ∧
     db' = setEnrichments (λ l, l ++ [r]) mid).
Lemma asked_nothing caps db db' : requestsOnly db db' → asked caps db db'.
Proof. intros Hr. exists 0. split; [by apply asks_requests|]. intros m _. lia. Qed.
Lemma finishEnrichment_answered leadId domain caps mode hash ordered outcome s provenance db w :
  asked caps db (w_db w) → vouched ordered domain (sp_accepted s) →
  awp (finishEnrichment provider leadId domain mode hash ordered false outcome s provenance)
    (λ r w', answered leadId caps db r (w_db w')) (λ w', asked caps db (w_db w')) w.
Proof using Type.
  intros Ha Hv. unfold finishEnrichment, saveEnrichment. awp_run.
  destruct (checkInsertEnrichment _ _) as [e|] eqn:Ec; [done|]. awp_run.
  split; [done|]. right. exists (w_db w). split_and!; [done|exact Hv|exact Ec|done].
Qed.
Lemma startSpending_fresh p : sp_accepted (startSpending p) = None ∧ sp_requests (startSpending p) = 0 ∧
  sp_errored (startSpending p) = false.
Proof. by destruct p. Qed.
Lemma previewMatches_people domain ordered people m : m ∈ previewMatches domain ordered people → m.1 ∈ ordered.
Proof.
  unfold previewMatches. intros (p & Hp & E)%list_elem_of_omap. apply fmap_Some in E as (x & _ & ->). done.
Qed.
Lemma spent_asked people domain caps s0 db s db' : sp_requests s0 = 0 → spentFrom people domain caps s0 db s db' →
  asked caps db db'.
Proof.
  intros E (_ & n & Ha & Hm & _). exists n. split; [done|]. intros m Em. specialize (Hm m Em). lia.
Qed.
Lemma spent_search people domain caps s0 db1 s1 db2 s2 db3 : sp_requests s0 = 0 → sp_errored s1 = false →
  spentFrom people domain caps s0 db1 s1 db2 → spentFrom people domain caps s1 db2 s2 db3 → asked caps db1 db3.
Proof.
  intros E0 He (_ & n1 & Ha1 & Hm1 & Hc1) (_ & n2 & Ha2 & Hm2 & _). exists (n1 + n2).
  split; [by eapply asks_trans|]. intros m Em. specialize (Hm1 m Em). specialize (Hm2 m Em). specialize (Hc1 He). lia.
Qed.
(** The paid part: what was found by asking for the people, or then by the search of the domain *)
Lemma paidPart_asked people leadId domain caps matches ordered s0 w :
  sp_accepted s0 = None → sp_requests s0 = 0 → (∀ m, m ∈ matches → m.1 ∈ people) → ordered ⊆ people →
  awp (s ← enrichMatches provider leadId domain caps matches s0;
       match sp_accepted s, ep_domainSearch provider with
       | None, Some search =>
           if sp_errored s || sp_capped s then mret s
           else t ← attemptDomainSearch leadId domain ordered caps search s; mret (keepEndpoint s t)
       | _, _ => mret s
       end)
    (λ s w', asked caps (w_db w) (w_db w') ∧ vouched people domain (sp_accepted s)) (λ _, False) w.
Proof using Type*.
  intros Ea Er Hm Hsub. rewrite awp_bind. eapply awp_mono; [| |by apply (enrichMatches_spent people)]; [|done].
  intros s1 w1 H1. assert (asked caps (w_db w) (w_db w1) ∧ vouched people domain (sp_accepted s1)) as Hdone.
  { split; [exact (spent_asked _ _ _ _ _ _ _ Er H1)|exact (proj1 H1)]. }
  destruct (sp_accepted s1) eqn:E1; [by rewrite awp_ret, E1|].
  destruct (ep_domainSearch provider) as [search|] eqn:Es; [|by rewrite awp_ret, E1].
  destruct (sp_errored s1 || sp_capped s1) eqn:Ee; [by rewrite awp_ret, E1|]. apply orb_false_iff in Ee as [Ee _].
  rewrite awp_bind. eapply awp_mono; [| |by apply (attemptDomainSearch_spent people)]; [|done].
  intros s2 w2 H2. rewrite awp_ret. split; [exact (spent_search _ _ _ _ _ _ _ _ _ Er Ee H1 H2)|exact (proj1 H2)].
Qed.
Lemma runEnrichment_answered leadId domain candidates caps perform w :
  awp (runEnrichment provider leadId domain candidates caps perform false)
    (λ r w', answered leadId caps (w_db w) r (w_db w')) (λ w', asked caps (w_db w) (w_db w')) w.
Proof using Type*.
  unfold runEnrichment. rewrite awp_bind, awp_query. unfold findByInputHash.
  destruct (List.find _ _) as [r|] eqn:Ef.
  { rewrite awp_ret. apply find_some in Ef as [Hin Hq]. unfold sameQuestion in Hq.
    apply andb_true_iff in Hq as [[[Hq _]%andb_true_iff _]%andb_true_iff _].
    split; [by apply String.eqb_eq|]. left. split; [done|]. by apply list_elem_of_In. }
  rewrite awp_bind, awp_tryCatch.
  pose proof (preview_quiet domain (sortBy byPriority candidates) w) as Hq. unfold awp at 1.
  destruct (ep_preview provider domain _ w) as [[pv|e] w1] eqn:E; cbn [snd] in Hq.
  2: { intros e' _. apply finishEnrichment_answered; [by apply asked_nothing|].
       rewrite (proj1 (startSpending_fresh None)). apply vouched_none. }
  destruct (startSpending_fresh (Some pv)) as (Es & Er & _).
  destruct (previewMatches _ _ _) as [|m ms] eqn:Em.
  { apply finishEnrichment_answered; [by apply asked_nothing|]. rewrite Es. apply vouched_none. }
  destruct perform; cbn [negb].
  2: { apply finishEnrichment_answered; [by apply asked_nothing|]. rewrite Es. apply vouched_none. }
  rewrite <-Em.
  pose proof (paidPart_asked (sortBy byPriority candidates) leadId domain caps
    (previewMatches domain (sortBy byPriority candidates) (pw_people pv)) (sortBy byPriority candidates) _ w1 Es Er
    (previewMatches_people _ _ _) ltac:(done)) as Hpaid.
  rewrite awp_bind in Hpaid. rewrite awp_bind. eapply awp_mono; [| |exact Hpaid]; [|done].
  intros s1 w2 H1. rewrite awp_bind. eapply awp_mono; [| |exact H1]; [|done].
  intros s2 w3 [Ha Hv]. apply finishEnrichment_answered; [|done].
  destruct Ha as (n & Ha & Hn). exists n. split; [|done]. apply (asks_trans 0 n _ (w_db w1)); [by apply asks_requests|done].
Qed.
End asking.

(** ** A batch *)

(** What is behind a recipient: a verified row of the store, or what [generic] says *)
Definition verifiedBehind (db : ContactDb) (r : ContactResolution) : Prop := ∃ row contact,
  row ∈ enrichmentResults db ∧ cr_enrichmentResultId r = Some (er_id row) ∧ er_leadId row = cr_leadId r ∧
  er_outcome row = CE_VERIFIED ∧ er_accepted row = Some contact ∧ cr_recipientEmail r = vc_email contact.

Section batch.
Context `{Runtime, RowOrder, Collation, EnrichmentTransport} (config : ResolveConfig).
Context (allowed : string → Prop) (generic : ContactResolution → Prop).

Definition behind (db : ContactDb) (r : ContactResolution) : Prop :=
  match cr_resolutionType r with
  | PERSONAL_VERIFIED => allowed (cr_leadId r) ∧ verifiedBehind db r | GENERIC_OFFICIAL => generic r
  end.
(** Rows of answers are added, which are proven, and recipients that something is behind. *)
Definition resolves (db db' : ContactDb) : Prop :=
  contactSystem db' = contactSystem db ∧
  (∀ row, row ∈ enrichmentResults db → row ∈ enrichmentResults db') ∧
  (∀ row, row ∈ enrichmentResults db' → row ∈ enrichmentResults db ∨ provenRow row) ∧
  ∀ r, r ∈ contactResolutions db' → cr_isCurrent r = true → r ∈ contactResolutions db ∨ behind db' r.
Lemma behind_mono db db' r : (∀ row, row ∈ enrichmentResults db → row ∈ enrichmentResults db') →
  behind db r → behind db' r.
Proof.
  intros Hrows. unfold behind. case_match; [|done]. intros [Ha (row & c & Hrow & Hb)]. split; [done|].
  exists row, c. split; [by apply Hrows|done].
Qed.
#[export] Instance resolves_preorder : PreOrder resolves.
Proof.
  split.
  - intros db. split_and!; auto.
  - intros a b c (E1 & K1 & P1 & R1) (E2 & K2 & P2 & R2). split_and!; [congruence|auto| |].
    { intros row Hrow. destruct (P2 row Hrow) as [Hb|]; [by apply P1|by right]. }
    intros r Hr Hc. destruct (R2 r Hr Hc) as [Hb|]; [|by right]. destruct (R1 r Hb Hc) as [|Hbe]; [by left|].
    right. by eapply behind_mono.
Qed.
Lemma asks_resolves n db db' : asksAtMost n db db' → resolves db db'.
Proof. intros (c & l & _ & ->). split_and!; auto. Qed.
Lemma answered_resolves leadId caps db r db' : answered leadId caps db r db' → resolves db db' ∧ r ∈ enrichmentResults db'.
Proof.
  intros [_ [[-> Hr]|(mid & (n & Ha & _) & Hp & _ & ->)]]; [done|]. split; [|cbn; apply elem_of_app; right; by left].
  transitivity mid; [by eapply asks_resolves|]. split_and!; [done|..].
  - intros row Hrow. cbn. apply elem_of_app. by left.
  - intros row. cbn. rewrite elem_of_app, elem_of_cons, elem_of_nil. naive_solver.
  - intros x Hx _. by left.
Qed.
(** The row that is written, of what is asked to be *)
Definition writtenFor (n : NewContactResolution) (r : ContactResolution) : Prop :=
  cr_leadId r = nr_leadId n ∧ cr_resolutionType r = nr_resolutionType n ∧ cr_recipientEmail r = nr_recipientEmail n ∧
  cr_sourceFactId r = nr_sourceFactId n ∧ cr_enrichmentResultId r = nr_enrichmentResultId n ∧
  cr_sourceUrl r = nr_sourceUrl n.
Lemma writeCurrentResolution_resolves n db0 : (∀ r, writtenFor n r → behind db0 r) →
  ∀ w, (∀ row, row ∈ enrichmentResults db0 → row ∈ enrichmentResults (w_db w)) →
  wp (writeCurrentResolution n) (λ _ w', resolves (w_db w) (w_db w')) w.
Proof.
  intros Hn w Hrows. unfold writeCurrentResolution. wp_run. intros _. split_and!; [done|done|by left|].
  intros r. cbn. rewrite elem_of_app, elem_of_cons, elem_of_nil. intros [(r0 & -> & Hr0)%list_elem_of_fmap|[->|[]]] Hc.
  - left. unfold demoteResolution in *. by case_match.
  - right. eapply behind_mono; [|by apply Hn]. done.
Qed.
Lemma transaction_resolves {A} (m : EM A) w : wp m (λ _ w', resolves (w_db w) (w_db w')) w →
  resolves (w_db w) (w_db (transaction m w).2).
Proof.
  intros Hm. unfold transaction. unfold wp in Hm. destruct (m w) as [[a|e] w']; [done|reflexivity].
Qed.

Lemma takeSteps_resolves services maxRequests maxCredits t steps attempted totals :
  (∀ s, s ∈ services → LawfulProvider s.2) → allowed (ld_id (tg_lead t)) →
  always resolves (takeSteps config services maxRequests maxCredits t steps attempted totals).
Proof.
  intros Hs Ht. revert attempted totals. induction steps as [|step steps IH]; intros attempted totals; cbn [takeSteps].
  { apply (always_ret resolves). }
  case_match; [apply (always_ret resolves)|].
  destruct (List.find _ services) as [s|] eqn:Ef; cbn [fmap option_fmap option_map]; [|apply IH].
  assert (LawfulProvider s.2) as Hlaw by (apply Hs, list_elem_of_In; exact (proj1 (List.find_some _ _ Ef))).
  apply always_awp. intros w. rewrite awp_bind, awp_tryCatch.
  eapply awp_mono; [| |apply (runEnrichment_answered s.2)].
  2: { intros w' (n & Ha & _) e _. rewrite awp_ret. by eapply asks_resolves. }
  intros r w' Hr. cbn beta. destruct (answered_resolves _ _ _ _ _ Hr) as [Hstep Hin].
  destruct (acceptedContact r) as [contact|] eqn:Ec.
  - rewrite awp_bind, awp_tryCatch. unfold awp at 1.
    pose proof (transaction_resolves (writeCurrentResolution
      {| nr_leadId := ld_id (tg_lead t); nr_resolutionType := PERSONAL_VERIFIED; nr_recipientEmail := vc_email contact;
         nr_sourceFactId := None; nr_enrichmentResultId := Some (er_id r); nr_sourceUrl := None;
         nr_intendedDecisionMakers := [] |}) w') as Hw.
    fold (personalResolution (ld_id (tg_lead t)) r contact) in Hw.
    assert (resolves (w_db w') (w_db (personalResolution (ld_id (tg_lead t)) r contact w').2)) as Hw'.
    { apply Hw. apply (writeCurrentResolution_resolves _ (w_db w')); [|done]. clear Hw.
      intros x (E1 & E2 & E3 & E4 & E5 & E6). unfold behind. rewrite E2. cbn in *. rewrite E1. split; [done|].
      unfold acceptedContact, isVerifiedRow in Ec. case_bool_decide; [|done].
      exists r, contact. rewrite E1. split_and!; [done|done|exact (proj1 Hr)|done|done|done]. }
    destruct (personalResolution _ _ _ w') as [[a|e] w2] eqn:E; cbn [snd] in Hw';
      [|intros e' _]; rewrite awp_ret; by transitivity (w_db w').
  - eapply awp_mono; [| |apply awp_always, IH]; intros; by transitivity (w_db w').
Qed.
Lemma resolveTargets_resolves services maxRequests maxCredits stopFirst targets totals :
  (∀ s, s ∈ services → LawfulProvider s.2) → (∀ t, t ∈ targets → allowed (ld_id (tg_lead t))) →
  always resolves (resolveTargets config services maxRequests maxCredits stopFirst targets totals).
Proof.
  intros Hs. revert totals. induction targets as [|t targets IH]; intros totals Ht; cbn [resolveTargets].
  { apply (always_ret resolves). }
  apply (always_bind resolves); [apply takeSteps_resolves; [done|apply Ht; by left]|]. intros e.
  repeat (case_match; [apply (always_ret resolves)|]). apply IH. intros x Hx. apply Ht. by right.
Qed.
Lemma genericResolution_resolves f :
  (∀ r, cr_leadId r = fa_leadId f → cr_recipientEmail r = fa_email f → cr_sourceFactId r = Some (fa_sourceFactId f) →
     generic r) →
  always resolves (genericResolution f).
Proof.
  intros Hf w. apply transaction_resolves. apply (writeCurrentResolution_resolves _ (w_db w)); [|done].
  intros r (E1 & E2 & E3 & E4 & _). unfold behind. rewrite E2. by apply Hf.
Qed.
End batch.

(** ** Whom a batch may write to *)

(** A lead that has once qualified, on which work may go on, and whose official domain is known *)
Definition workedOn `{RowOrder} (db : ContactDb) (leadId domain : string) : Prop :=
  ∃ l, l ∈ recentLeads 1000 (pipelineDb (contactSystem db)) ∧ ld_id l = leadId ∧
    isLifecycleEligibleForContactWork (ld_status l) = true ∧
    (∃ row, row ∈ pipelineEvents (pipelineDb (contactSystem db)) ∧ pe_type row.2 = STATE_TRANSITION ∧
      pe_toStatus row.2 = Some QUALIFIED ∧ pe_leadId row.2 = Some leadId) ∧
    (lf_value <$> currentFactOf leadId FT_official_domain db) = Some domain ∧
    (∀ row, row ∈ enrichmentResults db → er_leadId row = leadId → er_outcome row = CE_VERIFIED → ld_status l = BOUNCED).
(** The official inbox of a lead of which no step is left, and that has no recipient *)
Definition officialInbox `{Runtime, RowOrder, Collation} (db : ContactDb) (r : ContactResolution) : Prop :=
  ∃ domain people fact local host normalized,
    workedOn db (cr_leadId r) domain ∧ getCurrentResolution (cr_leadId r) db = None ∧
    (∀ step, isProviderStepResolved (enrichmentsOf (cr_leadId r) db) step domain people = true) ∧
    currentFactOf (cr_leadId r) FT_contact_email db = Some fact ∧ cr_sourceFactId r = Some (lf_id fact) ∧
    lf_sourceType fact = FS_website ∧ normalizeContactEmail (lf_value fact) = BareEmail (cr_recipientEmail r) ∧
    localAndHost (cr_recipientEmail r) = (local, host) ∧ normalizeHost host = normalizeHost (trim domain) ∧
    classifyGenericMailbox local = GenericBusiness normalized.

Section selection.
Context `{Runtime, RowOrder, Collation, EnrichmentTransport}.

Lemma leadsEverReachedStatus_event ids status db leadId : leadId ∈ leadsEverReachedStatus ids status db →
  leadId ∈ ids ∧ ∃ row, row ∈ pipelineEvents db ∧ pe_type row.2 = STATE_TRANSITION ∧ pe_toStatus row.2 = Some status ∧
    pe_leadId row.2 = Some leadId.
Proof.
  unfold leadsEverReachedStatus. intros (row & Hrow & E)%list_elem_of_omap.
  destruct (bool_decide_reflect (pe_type row.2 = STATE_TRANSITION)) as [Ht|]; [|done].
  destruct (bool_decide_reflect (pe_toStatus row.2 = Some status)) as [Hs|]; [|done]. cbn in E.
  destruct (pe_leadId row.2) as [x|] eqn:El; [|done]. case_bool_decide; [|done]. injection E as ->. split; [done|]. by exists row.
Qed.
Lemma enrichmentsOf_elem leadId db row : row ∈ enrichmentsOf leadId db ↔ row ∈ enrichmentResults db ∧ er_leadId row = leadId.
Proof. unfold enrichmentsOf. by rewrite sortBy_perm, elem_of_List_filter, String.eqb_eq. Qed.
(** What a classification has made sure of *)
Definition screened (candidates : list (string * list CandidatePerson)) (db : ContactDb) (l : Lead) (domain : string)
    (people : list CandidatePerson) : Prop :=
  workedOn db (ld_id l) domain ∧ truthy domain = true ∧
  snd <$> List.find (λ p, String.eqb p.1 (ld_id l)) candidates = Some people.
Definition passedScreen (lead : Lead) (durable : bool) (domain : option string) (people : option (list CandidatePerson))
    (rows : list ContactEnrichmentResult) : Prop :=
  durable = true ∧ isLifecycleEligibleForContactWork (ld_status lead) = true ∧ truthy_opt domain = true ∧
  default [] people ≠ [] ∧ (existsb isVerifiedRow rows = true → ld_status lead = BOUNCED).
Lemma classifyLead_passed lead durable domain people rows available score :
  match classifyLead lead durable domain people rows available score with
  | Eligible t => passedScreen lead durable domain people rows ∧ tg_lead t = lead ∧ tg_domain t = default "" domain ∧
      tg_candidates t = default [] people ∧
      tg_nextSteps t = List.filter (λ p, bool_decide (p ∈ available)) (pendingSteps rows (default "" domain) (default [] people))
  | Ineligible personal_chain_exhausted =>
      passedScreen lead durable domain people rows ∧ pendingSteps rows (default "" domain) (default [] people) = []
  | Ineligible _ => True
  end.
Proof.
  unfold classifyLead. destruct durable; [|done]. cbn [negb].
  destruct (isLifecycleEligibleForContactWork _) eqn:E1; [|done]. cbn [negb].
  destruct (truthy_opt domain) eqn:E2; [|done]. cbn [negb].
  destruct (bool_decide_reflect (default [] people = [])) as [|E3]; [done|].
  destruct (existsb isVerifiedRow rows && negb (bool_decide (ld_status lead = BOUNCED))) eqn:E4; [done|].
  assert (passedScreen lead true domain people rows) as Hp.
  { split_and!; [done..|]. intros Ev. rewrite Ev in E4. by case_bool_decide. }
  destruct (bool_decide_reflect (pendingSteps rows (default "" domain) (default [] people) = [])) as [|E5]; [done|].
  destruct (bool_decide (List.filter _ _ = [])); done.
Qed.
Lemma workable_inputs candidates available all db l (inputs := batchInputs candidates available all db) :
  l ∈ all → bool_decide (ld_id l ∈ ri_durablyQualifiedLeadIds inputs) = true →
  isLifecycleEligibleForContactWork (ld_status l) = true →
  ri_officialDomain inputs (ld_id l) = (lf_value <$> currentFactOf (ld_id l) FT_official_domain db) ∧
  ri_existingResults inputs (ld_id l) = enrichmentsOf (ld_id l) db.
Proof.
  intros Hl Hd Hw. subst inputs. cbn in *. rewrite bool_decide_eq_true_2; [done|].
  apply list_elem_of_fmap. exists l. split; [done|]. apply elem_of_List_filter. split; [done|].
  unfold workable. by rewrite Hd, Hw.
Qed.
Lemma pending_none rows domain people : pendingSteps rows domain people = [] →
  ∀ step, isProviderStepResolved rows step domain people = true.
Proof.
  unfold pendingSteps, CASCADE_ORDER. cbn.
  destruct (isProviderStepResolved rows instantly domain people) eqn:E1, (isProviderStepResolved rows hunter domain people) eqn:E2;
    cbn; try done. by intros _ [].
Qed.
Lemma passed_screened candidates available db l (all := recentLeads 1000 (pipelineDb (contactSystem db)))
    (inputs := batchInputs candidates available all db) : l ∈ all →
  passedScreen l (bool_decide (ld_id l ∈ ri_durablyQualifiedLeadIds inputs)) (ri_officialDomain inputs (ld_id l))
    (ri_candidates inputs (ld_id l)) (ri_existingResults inputs (ld_id l)) →
  screened candidates db l (default "" (ri_officialDomain inputs (ld_id l))) (default [] (ri_candidates inputs (ld_id l))) ∧
  ri_officialDomain inputs (ld_id l) = Some (default "" (ri_officialDomain inputs (ld_id l))) ∧
  ri_existingResults inputs (ld_id l) = enrichmentsOf (ld_id l) db.
Proof.
  intros Hl (Hd & Hw & Hdom & Hp & Hv).
  destruct (workable_inputs candidates available all db l Hl Hd Hw) as [Edom Erows]. fold inputs in Edom, Erows.
  rewrite Erows in *. destruct (ri_officialDomain inputs (ld_id l)) as [domain|] eqn:E; [|done].
  split_and!; [|done|done]. split_and!; [|done|].
  - exists l. split_and!; [done..| | |].
    + apply bool_decide_eq_true in Hd. by apply leadsEverReachedStatus_event in Hd as [_ Hd].
    + by rewrite <-Edom.
    + intros row Hrow El Eo. apply Hv, existsb_exists. exists row. split; [|by apply bool_decide_eq_true].
      apply list_elem_of_In, enrichmentsOf_elem. done.
  - cbn in *. destruct (snd <$> _); [done|]. by destruct Hp.
Qed.
Lemma targetOf_screened candidates available db l t (all := recentLeads 1000 (pipelineDb (contactSystem db))) :
  l ∈ all → targetOf (batchInputs candidates available all db) l = Some t →
  tg_lead t = l ∧ screened candidates db l (tg_domain t) (tg_candidates t) ∧ (length (tg_nextSteps t) <= 2)%nat.
Proof.
  intros Hl. unfold targetOf, classifyWith. pose proof (classifyLead_passed l
    (bool_decide (ld_id l ∈ ri_durablyQualifiedLeadIds (batchInputs candidates available all db)))
    (ri_officialDomain (batchInputs candidates available all db) (ld_id l))
    (ri_candidates (batchInputs candidates available all db) (ld_id l))
    (ri_existingResults (batchInputs candidates available all db) (ld_id l))
    (ri_availableProviders (batchInputs candidates available all db))
    (ri_maxOpportunityScore (batchInputs candidates available all db) (ld_id l))) as Hc.
  destruct (classifyLead _ _ _ _ _ _ _) as [t'|]; [|done]. intros [= <-]. destruct Hc as (Hp & El & Ed & Ep & Es).
  split; [done|]. rewrite Ed, Ep. split; [by apply passed_screened in Hp as (? & _)|]. rewrite Es.
  unfold pendingSteps, CASCADE_ORDER. cbn. repeat case_match; cbn; repeat case_match; cbn; lia.
Qed.
Lemma fallbackOf_screened candidates available db l f (all := recentLeads 1000 (pipelineDb (contactSystem db))) :
  l ∈ all → fallbackOf (batchInputs candidates available all db) l = Some f →
  fc_lead f = l ∧ screened candidates db l (fc_domain f) (fc_candidates f) ∧
  ∀ step, isProviderStepResolved (enrichmentsOf (ld_id l) db) step (fc_domain f) (fc_candidates f) = true.
Proof.
  subst all. set (all := recentLeads _ _). intros Hl. unfold fallbackOf, classifyWith. pose proof (classifyLead_passed l
    (bool_decide (ld_id l ∈ ri_durablyQualifiedLeadIds (batchInputs candidates available all db)))
    (ri_officialDomain (batchInputs candidates available all db) (ld_id l))
    (ri_candidates (batchInputs candidates available all db) (ld_id l))
    (ri_existingResults (batchInputs candidates available all db) (ld_id l))
    (ri_availableProviders (batchInputs candidates available all db))
    (ri_maxOpportunityScore (batchInputs candidates available all db) (ld_id l))) as Hc.
  destruct (classifyLead _ _ _ _ _ _ _) as [|[]]; try done. destruct Hc as [Hp Hs].
  destruct (passed_screened _ _ _ _ Hl Hp) as (Hscr & Edom & Erows). fold all in Erows. rewrite Erows in Hs.
  pose proof (pending_none _ _ _ Hs) as Hpend.
  destruct (ri_officialDomain _ _) as [domain|]; [|done]. destruct (ri_candidates _ _) as [people|]; [|done].
  destruct (truthy domain); [|done]. intros [= <-]. done.
Qed.
End selection.

Lemma evaluateOfficialInboxFallback_accepted domain fact email normalized id url :
  evaluateOfficialInboxFallback (Some domain) fact = FallbackAccepted email normalized id url →
  ∃ f local host, fact = Some f ∧ lf_id f = id ∧ lf_sourceType f = FS_website ∧
    normalizeContactEmail (lf_value f) = BareEmail email ∧ localAndHost email = (local, host) ∧
    normalizeHost host = normalizeHost (trim domain) ∧ classifyGenericMailbox local = GenericBusiness normalized.
Proof.
  unfold evaluateOfficialInboxFallback. cbv zeta. change (default "" (Some domain)) with domain.
  destruct (negb (truthy (trim domain))); [done|]. destruct fact as [f|]; [|done].
  destruct (negb (truthy (trim (lf_value f)))); [done|]. destruct (negb (lf_isCurrent f)); [done|].
  destruct (bool_decide_reflect (lf_sourceType f = FS_website)) as [Ew|]; cbn [negb]; [|done].
  destruct (negb (truthy (trim (default _ _)))); [done|].
  destruct (normalizeContactEmail (lf_value f)) as [e|] eqn:En; [|done].
  destruct (localAndHost e) as [local host] eqn:El.
  destruct (negb (truthy local) || negb (truthy host)); [done|].
  destruct (String.eqb_spec (normalizeHost host) (normalizeHost (trim domain))) as [Eh|]; cbn [negb]; [|done].
  destruct (classifyGenericMailbox local) eqn:Ec; [|done]. intros [= <- <- <- <-]. by exists f, local, host.
Qed.

Section command.
Context `{Runtime, RowOrder, Collation, EnrichmentTransport} (config : ResolveConfig).

Lemma acceptedFallbacks_inbox candidates available limit db a r
    (selection := selectResolveBatchTargets (recentLeads 1000 (pipelineDb (contactSystem db)))
       (batchInputs candidates available (recentLeads 1000 (pipelineDb (contactSystem db))) db) limit) :
  a ∈ acceptedFallbacks db (rs_fallbackCandidates selection) →
  cr_leadId r = fa_leadId a → cr_recipientEmail r = fa_email a → cr_sourceFactId r = Some (fa_sourceFactId a) →
  officialInbox db r.
Proof.
  intros (f & Hf & E)%list_elem_of_omap El Ee Es. subst selection. cbn in Hf.
  apply list_elem_of_omap in Hf as (l & Hl & Ef). apply fallbackOf_screened in Ef as (Elead & Hscr & Hsteps); [|done].
  unfold decideFallback in E. rewrite Elead in E.
  destruct (getCurrentResolution (ld_id l) db) eqn:Ecur; [done|].
  destruct (evaluateOfficialInboxFallback _ _) as [email normalized id url|] eqn:Ed; [|done]. injection E as <-.
  apply evaluateOfficialInboxFallback_accepted in Ed as (fact & local & host & Efact & Eid & Ew & En & Elh & Eh & Ec).
  cbn in El, Ee, Es. exists (fc_domain f), (fc_candidates f), fact, local, host, normalized.
  rewrite El, Ee, Es. split_and!; try done; [exact (proj1 Hscr)|by rewrite Eid].
Qed.
(** Recipients that a batch adds *)
Definition newRecipients (db db' : ContactDb) : Prop :=
  contactSystem db' = contactSystem db ∧
  (∀ row, row ∈ enrichmentResults db' → row ∈ enrichmentResults db ∨ provenRow row) ∧
  ∀ r, r ∈ contactResolutions db' → cr_isCurrent r = true → r ∈ contactResolutions db ∨
    (cr_resolutionType r = PERSONAL_VERIFIED ∧ (∃ domain, workedOn db (cr_leadId r) domain) ∧ verifiedBehind db' r) ∨
    (cr_resolutionType r = GENERIC_OFFICIAL ∧ officialInbox db r).
Lemma newRecipients_refl db : newRecipients db db.
Proof. split_and!; auto. Qed.
Lemma resolves_newRecipients allowed generic db db' :
  (∀ leadId, allowed leadId → ∃ domain, workedOn db leadId domain) → (∀ r, generic r → officialInbox db r) →
  resolves allowed generic db db' → newRecipients db db'.
Proof.
  intros Ha Hg (Es & _ & Hrows & Hr). split_and!; [done|done|]. intros r Hin Hc.
  destruct (Hr r Hin Hc) as [|Hb]; [by left|right]. unfold behind in Hb.
  destruct (cr_resolutionType r); [left|right]; [|split; [done|by apply Hg]].
  destruct Hb as [Hal Hv]. split_and!; [done|by apply Ha|done].
Qed.
Lemma selected_worked candidates available limit db t
    (selection := selectResolveBatchTargets (recentLeads 1000 (pipelineDb (contactSystem db)))
       (batchInputs candidates available (recentLeads 1000 (pipelineDb (contactSystem db))) db) limit) :
  t ∈ rs_selected selection →
  (∃ domain, workedOn db (ld_id (tg_lead t)) domain) ∧ (length (tg_nextSteps t) <= 2)%nat.
Proof.
  subst selection. cbn. intros Ht. assert (t ∈ omap (targetOf (batchInputs candidates available
    (recentLeads 1000 (pipelineDb (contactSystem db))) db)) (recentLeads 1000 (pipelineDb (contactSystem db)))) as Ho.
  { unfold sliceTo in Ht. rewrite <-(sortBy_perm byStrength). case_match; by apply elem_of_take in Ht as (i & Hi & _);
      eapply list_elem_of_lookup_2. }
  apply list_elem_of_omap in Ho as (l & Hl & E). destruct (targetOf_screened _ _ _ _ _ Hl E) as (El & Hs & Hlen).
  rewrite El. split; [|done]. exists (tg_domain t). exact (proj1 Hs).
Qed.
(** The live part of a batch, of what was selected *)
Lemma livePart_newRecipients candidates available limit services maxRequests maxCredits stopFirst db0
    (selection := selectResolveBatchTargets (recentLeads 1000 (pipelineDb (contactSystem db0)))
       (batchInputs candidates available (recentLeads 1000 (pipelineDb (contactSystem db0))) db0) limit)
    {A} (k : ResolveTotals → Z → A) w :
  (∀ s, s ∈ services → LawfulProvider s.2) → w_db w = db0 →
  let accepted := acceptedFallbacks db0 (rs_fallbackCandidates selection) in
  newRecipients db0 (w_db ((
    totals ← resolveTargets config services maxRequests maxCredits stopFirst (rs_selected selection) noTotals;
    n ← fold_each accepted (λ f n, _ ← genericResolution f; mret (n + 1)) 0;
    mret (k totals n)) w).2).
Proof.
  intros Hs <- accepted. set (allowed leadId := ∃ domain, workedOn (w_db w) leadId domain).
  set (generic r := officialInbox (w_db w) r).
  apply (resolves_newRecipients allowed generic); [done|done|].
  assert (PreOrder (resolves allowed generic)) by apply _.
  apply (always_bind (resolves allowed generic)).
  { apply resolveTargets_resolves; [done|]. intros t Ht. by apply selected_worked in Ht as [? _]. }
  intros totals. apply (always_bind (resolves allowed generic)); [|intros; apply (always_ret (resolves allowed generic))].
  apply (always_fold_each (resolves allowed generic)). intros f n Hf.
  apply (always_bind (resolves allowed generic)); [|intros; apply (always_ret (resolves allowed generic))].
  apply genericResolution_resolves. intros r E1 E2 E3.
  exact (acceptedFallbacks_inbox candidates available limit (w_db w) f r Hf E1 E2 E3).
Qed.
Lemma awp_db {A} (P : ContactDb → Prop) (m : EM A) w :
  P (w_db (m w).2) → awp m (λ _ w', P (w_db w')) (λ w', P (w_db w')) w.
Proof. unfold awp. by destruct (m w) as [[]?]. Qed.
Lemma contactResolveBatchCommand_newRecipients opts file : always newRecipients (contactResolveBatchCommand config opts file).
Proof.
  apply always_awp. intros w. unfold contactResolveBatchCommand.
  assert (newRecipients (w_db w) (w_db w)) as Hsame by apply newRecipients_refl.
  destruct (negb (truthy_opt (ro_candidatesFile opts))); [done|].
  destruct (loadCandidatesFile _ file) as [candidates|]; [|done].
  destruct (parsePositiveInt (ro_limit opts) _ _) as [limit|]; [|done].
  destruct (parsePositiveInt (ro_maxTotalRequests opts) _ _) as [maxRequests|]; [|done].
  destruct (parsePositiveInt (ro_maxTotalCredits opts) _ _) as [maxCredits|]; [|done].
  destruct (if ro_confirm opts then _ else _) as [services|] eqn:Es; [|done].
  cbn [lift_res]. awp_run.
  destruct (negb (ro_confirm opts)) eqn:Elive; [by rewrite awp_ret|]. destruct (ro_confirm opts); [|done].
  case_match; [by rewrite awp_throw|]. apply (awp_db (newRecipients (w_db w))).
  apply (livePart_newRecipients candidates (map fst services) (Z.min limit (rc_MAX_LEADS_PER_RUN config)) services maxRequests
    maxCredits _ (w_db w) _ w); [|done].
  intros s Hin. by eapply liveServices_lawful.
Qed.

(** *** What it may pay for *)

Definition callsUpTo (n : Z) (db db' : ContactDb) : Prop :=
  Z.of_nat (length (paidCalls db')) <= Z.of_nat (length (paidCalls db)) + Z.max 0 n.
Lemma callsUpTo_weaken {A} n m (prog : EM A) : n <= m → always (callsUpTo n) prog → always (callsUpTo m) prog.
Proof. intros Hn Hp w. specialize (Hp w). unfold callsUpTo in *. lia. Qed.
Lemma callsUpTo_seq {A B} n m (prog : EM A) (k : A → EM B) : 0 <= n → 0 <= m →
  always (callsUpTo n) prog → (∀ x, always (callsUpTo m) (k x)) → always (callsUpTo (n + m)) (prog ≫= k).
Proof.
  intros Hn Hm. apply always_seq; unfold callsUpTo; intros; lia.
Qed.
Lemma callsUpTo_ret {A} n (a : A) : always (callsUpTo n) (mret a : EM A).
Proof. intros w. unfold callsUpTo. cbn. lia. Qed.
Lemma asked_callsUpTo db db' : asked (perLeadCaps config) db db' →
  callsUpTo (ec_MAX_REQUESTS_PER_RUN (rc_enrichment config)) db db'.
Proof.
  intros (n & (calls & l & Hn & ->) & Hcap). specialize (Hcap _ eq_refl). unfold callsUpTo. cbn. rewrite length_app. lia.
Qed.
Lemma runEnrichment_calls provider leadId domain candidates : LawfulProvider provider →
  always (callsUpTo (ec_MAX_REQUESTS_PER_RUN (rc_enrichment config)))
    (runEnrichment provider leadId domain candidates (perLeadCaps config) true false).
Proof.
  intros Hp. apply always_awp. intros w. eapply awp_mono; [| |by apply runEnrichment_answered].
  - intros r w' [_ [[-> _]|(mid & Ha & _ & _ & ->)]]; [unfold callsUpTo; lia|]. by apply asked_callsUpTo in Ha.
  - intros w'. apply asked_callsUpTo.
Qed.
Lemma writeCurrentResolution_calls n w :
  paidCalls (w_db (tryCatch (transaction (writeCurrentResolution n)) w).2) = paidCalls (w_db w).
Proof.
  assert (wp (writeCurrentResolution n) (λ _ w', paidCalls (w_db w') = paidCalls (w_db w)) w) as Hw
    by (unfold writeCurrentResolution; wp_run; done).
  unfold tryCatch, transaction. unfold wp in Hw. by destruct (writeCurrentResolution n w) as [[]?].
Qed.
Definition perRun : Z := Z.max 0 (ec_MAX_REQUESTS_PER_RUN (rc_enrichment config)).
Lemma takeSteps_calls services maxRequests maxCredits t steps attempted totals :
  (∀ s, s ∈ services → LawfulProvider s.2) →
  always (callsUpTo (perRun * Z.of_nat (length steps)))
    (takeSteps config services maxRequests maxCredits t steps attempted totals).
Proof.
  intros Hs. revert attempted totals. induction steps as [|step steps IH]; intros attempted totals; cbn [takeSteps];
    [apply callsUpTo_ret|]. case_match; [apply callsUpTo_ret|].
  destruct (List.find _ services) as [s|] eqn:Ef; cbn [fmap option_fmap option_map];
    [|eapply callsUpTo_weaken; [|apply IH]; cbn [length]; unfold perRun; nia].
  apply (callsUpTo_weaken (perRun + perRun * Z.of_nat (length steps))); [cbn [length]; lia|].
  apply callsUpTo_seq; [unfold perRun; lia|unfold perRun; lia|..].
  { intros w. unfold perRun, callsUpTo. rewrite Z.max_r by lia.
    assert (LawfulProvider s.2) as Hlaw by (apply Hs, list_elem_of_In; exact (proj1 (List.find_some _ _ Ef))).
    pose proof (runEnrichment_calls s.2 (ld_id (tg_lead t)) (tg_domain t) (tg_candidates t) Hlaw w) as Hc.
    unfold callsUpTo in Hc. unfold tryCatch. by destruct (runEnrichment _ _ _ _ _ _ _ w). }
  intros [r|e]; [|apply callsUpTo_ret]. destruct (acceptedContact r) as [contact|]; [|apply IH].
  eapply (callsUpTo_weaken (0 + 0)); [unfold perRun; lia|]. apply callsUpTo_seq; [done|done| |intros; apply callsUpTo_ret].
  intros w. unfold personalResolution, callsUpTo. rewrite writeCurrentResolution_calls. lia.
Qed.
Lemma resolveTargets_calls services maxRequests maxCredits stopFirst targets totals :
  (∀ s, s ∈ services → LawfulProvider s.2) → (∀ t, t ∈ targets → (length (tg_nextSteps t) <= 2)%nat) →
  always (callsUpTo (2 * perRun * Z.of_nat (length targets)))
    (resolveTargets config services maxRequests maxCredits stopFirst targets totals).
Proof.
  intros Hs. revert totals. induction targets as [|t targets IH]; intros totals Ht; cbn [resolveTargets];
    [apply callsUpTo_ret|].
  assert (length (tg_nextSteps t) <= 2)%nat as Hlen by (apply Ht; by left).
  apply (callsUpTo_weaken (2 * perRun + 2 * perRun * Z.of_nat (length targets))); [cbn [length]; lia|].
  apply callsUpTo_seq; [unfold perRun; lia|unfold perRun; lia|..].
  - eapply callsUpTo_weaken; [|by apply takeSteps_calls]. unfold perRun. nia.
  - intros e. repeat (case_match; [apply callsUpTo_ret|]). apply IH. intros x Hx. apply Ht. by right.
Qed.
Lemma sliceTo_length {A} n (l : list A) : 0 <= n → Z.of_nat (length (sliceTo n l)) <= n.
Proof. intros Hn. unfold sliceTo. destruct (Z.ltb_spec n 0); [lia|]. rewrite length_take. lia. Qed.
Lemma parsePositiveInt_nonneg v flag fallback n : 0 <= fallback → parsePositiveInt v flag fallback = Ok n → 0 <= n.
Proof.
  intros Hf. unfold parsePositiveInt. destruct v as [text|]; [|congruence].
  destruct (Qualification.parseInt10 text) as [m|]; [|done]. destruct (Z.leb_spec m 0); [done|]. intros [= <-]. lia.
Qed.
#[local] Instance callsUpTo_0_preorder : PreOrder (callsUpTo 0).
Proof. split; unfold callsUpTo; [intros db; lia|intros a b c; lia]. Qed.
Lemma genericResolution_calls f : always (callsUpTo 0) (genericResolution f).
Proof.
  intros w. unfold genericResolution, callsUpTo.
  match goal with |- context [transaction (writeCurrentResolution ?n)] =>
    pose proof (writeCurrentResolution_calls n w) as E end.
  unfold tryCatch in E. destruct (transaction _ w) as [a w']. cbn in *. rewrite E. lia.
Qed.
Lemma contactResolveBatchCommand_calls opts file : 0 <= rc_MAX_LEADS_PER_RUN config →
  always (callsUpTo (2 * perRun * rc_MAX_LEADS_PER_RUN config)) (contactResolveBatchCommand config opts file).
Proof.
  intros Hmax. apply always_awp. intros w. unfold contactResolveBatchCommand.
  assert (callsUpTo (2 * perRun * rc_MAX_LEADS_PER_RUN config) (w_db w) (w_db w)) as Hsame by (unfold callsUpTo; lia).
  destruct (negb (truthy_opt (ro_candidatesFile opts))); [done|].
  destruct (loadCandidatesFile _ file) as [candidates|]; [|done].
  destruct (parsePositiveInt (ro_limit opts) _ _) as [limit|] eqn:Elimit; [|done].
  apply parsePositiveInt_nonneg in Elimit; [|done].
  destruct (parsePositiveInt (ro_maxTotalRequests opts) _ _) as [maxRequests|]; [|done].
  destruct (parsePositiveInt (ro_maxTotalCredits opts) _ _) as [maxCredits|]; [|done].
  destruct (if ro_confirm opts then _ else _) as [services|] eqn:Es; [|done].
  cbn [lift_res]. awp_run.
  destruct (negb (ro_confirm opts)) eqn:Elive; [by rewrite awp_ret|]. destruct (ro_confirm opts); [|done].
  case_match; [by rewrite awp_throw|]. apply (awp_db (callsUpTo _ (w_db w))).
  match goal with |- context [rs_selected ?sel] => set (selection := sel) end.
  assert (∀ t, t ∈ rs_selected selection → (length (tg_nextSteps t) <= 2)%nat) as Hsteps
    by (intros t Ht; exact (proj2 (selected_worked _ _ _ _ _ Ht))).
  assert (Z.of_nat (length (rs_selected selection)) <= rc_MAX_LEADS_PER_RUN config) as Hlen.
  { cbn. pose proof (sliceTo_length (Z.min limit (rc_MAX_LEADS_PER_RUN config)) (sortBy byStrength (omap (targetOf
      (batchInputs candidates (map fst services) (recentLeads 1000 (pipelineDb (contactSystem (w_db w)))) (w_db w)))
      (recentLeads 1000 (pipelineDb (contactSystem (w_db w))))))). lia. }
  apply (callsUpTo_weaken (2 * perRun * Z.of_nat (length (rs_selected selection)) + 0)); [unfold perRun; nia|].
  apply callsUpTo_seq; [unfold perRun; lia|done|apply resolveTargets_calls; [|done]|].
  { intros s Hin. by eapply liveServices_lawful. }
  intros totals. apply (always_bind (callsUpTo 0)); [|intros; apply callsUpTo_ret].
  apply (always_fold_each (callsUpTo 0)). intros f n Hf.
  apply (always_bind (callsUpTo 0)); [apply genericResolution_calls|intros; apply callsUpTo_ret].
Qed.
End command.

(** ** The echo of Hunter *)

Definition bothNames (p : CandidatePerson) : Prop := truthy (cp_firstName p) = true ∧ truthy (cp_lastName p) = true.
Definition echoOf (domain : string) (p : CandidatePerson) : PreviewPerson :=
  {| pp_identity := {| id_name := Some (cp_fullName p); id_firstName := Some (cp_firstName p);
       id_lastName := Some (cp_lastName p); id_domain := Some domain; id_title := Some (cp_title p) |};
     pp_providerLeadId := None |}.
(** The echo of a person matches the person. *)
Lemma echo_matches domain p : bothNames p → (matchPreviewPerson (pp_identity (echoOf domain p)) p domain).2 = true.
Proof.
  intros [Hf Hl]. unfold matchPreviewPerson, nameMatches. cbn -[titleMatch]. rewrite Hf, Hl. cbn -[titleMatch].
  rewrite !String.eqb_refl. cbn -[titleMatch].
  assert (bool_decide (titleMatch (pp_identity (echoOf domain p)) p = TM_mismatch) = false) as Et.
  { apply bool_decide_eq_false. unfold titleMatch. cbn [pp_identity echoOf id_title].
    destruct (negb (truthy (norm (Some (cp_title p))))); [done|].
    destruct (significant (norm (Some (cp_title p)))) as [|t ts]; [done|]. cbn [existsb].
    rewrite bool_decide_eq_true_2 by (by left). done. }
  cbn [pp_identity echoOf] in Et. rewrite Et. by destruct (truthy domain).
Qed.
Lemma echo_found domain (candidates : list CandidatePerson) : candidates ≠ [] → Forall bothNames candidates →
  ∃ m ms, previewMatches domain candidates (map (echoOf domain) candidates) = m :: ms.
Proof.
  intros Hne Hall. destruct candidates as [|p ps]; [done|]. unfold previewMatches. cbn [omap list_omap].
  inversion Hall as [|? ? Hp _]; subst. cbn [map List.find]. rewrite (echo_matches domain p Hp).
  cbn [fmap option_fmap option_map]. by eexists _, _.
Qed.
