(* ===== verification/ContactSpecs.v ===== *)
(** * What the resolution of contacts guarantees

    Only an address that a provider vouches for, of a person who was asked for, or the
    official inbox of the business becomes the recipient of a lead; what a batch may
    pay for is bounded; and two ways in which a lead is left without a recipient. *)
From Stdlib Require QArith.
From S2P Require Import Prelude.
From S2P Require Import JsNumber.
From S2P Require Import JsText.
From S2P Require Import JsonText.
From S2P Require Import LeadLifecycle.
From S2P Require Import PipelineDb.
From S2P Require Import SystemDb.
From S2P Require Import LeadFacts.
From S2P Require Import LeadSource.
From S2P Require Import Collect.
From S2P Require Import Backfill.
From S2P Require Import Contacts.
From S2P Require Import ContactEnrich.
From S2P Require Import ContactProviders.
From S2P Require Import ContactResolve.
From S2P Require Import ContactTrust.
From S2P Require Import SendSafety.
From S2P Require Import ScheduledCommand.
Open Scope string_scope.
Open Scope Z_scope.
Open Scope list_scope.

(** ** Recipients *)

(** A person whom a provider has verified: a row of the lead that is proven *)
Definition provenPerson (db : ContactDb) (r : ContactResolution) : Prop := ∃ row contact person,
  row ∈ enrichmentResults db ∧ cr_enrichmentResultId r = Some (er_id row) ∧ er_leadId row = cr_leadId r ∧
  er_outcome row = CE_VERIFIED ∧ er_accepted row = Some contact ∧ cr_recipientEmail r = vc_email contact ∧
  person ∈ er_candidates row ∧ provenContact contact person (er_requestedDomain row).


(** A contact that a provider verified, but that was not made the recipient at once - by the search for
    one lead, which never does, or by a batch that died or failed in between - never becomes one: no batch
    adds a recipient of any kind for a lead that has a verified row, unless it bounced. *)
Theorem verified_without_recipient_stays `{Runtime, RowOrder, Collation, EnrichmentTransport} config opts file w leadId row :
  row ∈ enrichmentResults (w_db w) → er_leadId row = leadId → er_outcome row = CE_VERIFIED →
  (∀ l, l ∈ recentLeads 1000 (pipelineDb (contactSystem (w_db w))) → ld_id l = leadId → ld_status l ≠ BOUNCED) →
  let db' := w_db (contactResolveBatchCommand config opts file w).2 in
  ∀ r, r ∈ contactResolutions db' → cr_isCurrent r = true → cr_leadId r = leadId → r ∈ contactResolutions (w_db w).
Proof.
  intros Hrow El Eo Hb db' r Hin Hc Er.
  destruct (contactResolveBatchCommand_newRecipients config opts file w) as (_ & _ & Hr).
  assert (∀ domain, ¬ workedOn (w_db w) leadId domain) as Hno.
  { intros domain (l & Hl & E & _ & _ & _ & Hv). by apply (Hb l Hl E), (Hv row). }
  destruct (Hr r Hin Hc) as [|[(_ & [domain Hw] & _)|(_ & domain & p & f & lo & h & n & Hw & _)]]; [done|..];
    rewrite Er in Hw; by apply Hno in Hw.
Qed.

(** ** What is paid for *)


(** With the switch for paid enrichment off, a search of the batch with Hunter makes no request at all, and
    yet is stored as an error, which counts as a step that was taken: so the lead is given
    up, or given over to its official inbox, although nobody was asked - for good, since the stored row
    answers all later searches. *)
Theorem paid_switch_off_exhausts `{Runtime, Collation, EnrichmentTransport} deps leadId domain candidates caps w :
  pd_allowPaidEnrichment deps = false → candidates ≠ [] → Forall bothNames candidates →
  overCaps caps (startSpending None) = false →
  is_Some (leads (pipelineDb (contactSystem (w_db w))) !! leadId) →
  (∀ row, row ∈ enrichmentResults (w_db w) → er_id row ≠ uuid (w_uuids w)) →
  findByInputHash leadId "hunter" ENRICH (computeInputHash ENRICH "hunter" domain candidates) (w_db w) = None →
  twp (runEnrichment (HunterContactEnrichmentProvider deps) leadId domain candidates caps true false)
    (λ r w', er_outcome r = CE_ERROR ∧ providerRequests (w_db w') = providerRequests (w_db w) ∧
       isProviderStepResolved (enrichmentsOf leadId (w_db w')) hunter domain candidates = true) w.
Proof.
  intros Hoff Hne Hnames Hcaps Hlead Hid Hfresh. unfold runEnrichment. twp_run.
  cbn [ep_name HunterContactEnrichmentProvider]. rewrite Hfresh. twp_run.
  set (sorted := sortBy byPriority candidates). rewrite twp_tryCatch. cbn [ep_preview HunterContactEnrichmentProvider].
  set (pv := {| pw_people := map (echoOf domain) sorted; pw_creditsReported := None; pw_resourceId := None;
    pw_endpoint := "hunter:local-candidate-echo (no network call)" |}).
  change (hunterPreview domain sorted w) with (Ok pv : res PreviewResult, w). cbn [fst snd pw_people pv].
  assert (sorted ≡ₚ candidates) as Hperm by apply sortBy_perm.
  destruct (echo_found domain sorted) as ([person pp] & ms & Em).
  { intros E. rewrite E in Hperm. by apply Permutation_nil_l in Hperm. }
  { by rewrite Hperm. }
  rewrite Em. cbn [negb]. set (s0 := startSpending _).
  rewrite twp_bind. cbn [enrichMatches]. change (overCaps caps s0) with (overCaps caps (startSpending None)). rewrite Hcaps.
  twp_run. rewrite twp_tryCatch. cbn [ep_enrich HunterContactEnrichmentProvider]. unfold hunterEnrich. rewrite Hoff.
  cbn [negb throw fst snd]. twp_run. unfold s0. cbn [startSpending failedAttempt sp_accepted sp_errored ep_domainSearch
    HunterContactEnrichmentProvider orb]. twp_run.
  unfold finishEnrichment, saveEnrichment. twp_run.
  match goal with |- twp (guarded (checkInsertEnrichment ?r) _) _ _ => set (row := r) end.
  apply twp_guarded.
  - unfold checkInsertEnrichment. apply refuse_None. rewrite Forall_app. split; repeat constructor; cbn [fst w_db].
    + rewrite bool_decide_eq_true_2; [done|exact Hlead].
    + unfold sameResultId. apply not_true_iff_false. rewrite elem_of_existsb. intros (x & Hx & E%String.eqb_eq). by apply (Hid x).
    + unfold askedBefore. apply not_true_iff_false. rewrite elem_of_existsb. intros (x & Hx & E).
      apply list_elem_of_In in Hx. apply (find_none _ _ Hfresh) in Hx. change (sameQuestion (er_leadId row) (er_provider row)
        (er_mode row) (er_inputHash row) x = true) in E. cbn in E, Hx. congruence.
  - twp_run. split_and!; [done|done|]. unfold isProviderStepResolved. apply orb_true_iff. left.
    unfold rowAt. apply elem_of_existsb. exists row. split.
    + apply enrichmentsOf_elem. split; [cbn; apply elem_of_app; right; by left|done].
    + cbn. by rewrite !String.eqb_refl.
Qed.

(** ** Evaluated *)

Section demo.
#[local] Existing Instance demo_runtime.
#[local] Instance demoRows : RowOrder := {| rowOrder l := l; rowOrder_perm l := Permutation_refl l |}.
#[local] Instance demoCollation : Collation := {| localeCompare := byCodeUnits |}.
(** Hunter knows Jane, and has never heard of others. *)
Definition finderAnswer : json :=
  JObj [("data", JObj [("first_name", JStr "Jane"); ("last_name", JStr "Doe"); ("email", JStr "Jane.Doe@alpha.uk");
    ("domain", JStr "alpha.uk"); ("position", JStr "Practice Manager"); ("accept_all", JBool false);
    ("verification", JObj [("status", JStr "valid")])])].
#[local] Instance demoTransport : EnrichmentTransport := {| enrichmentFetch _ _ url _ := Ok
  {| pa_status := 200; pa_statusText := "OK"; pa_body := stringify (if includes url "Jane" then finderAnswer else JObj []) |} |}.
Definition demoEnrichmentConfig (paid : bool) : EnrichmentConfig :=
  {| ec_DRY_RUN := false; ec_ENABLED := true; ec_ALLOW_PAID := paid; ec_PROVIDER := "hunter";
     ec_HUNTER_API_KEY := Some "key"; ec_INSTANTLY_API_KEY := None; ec_APOLLO_API_KEY := None;
     ec_HUNTER_API_BASE_URL := "https://api.hunter.io/v2"; ec_INSTANTLY_API_BASE_URL := ""; ec_APOLLO_API_BASE_URL := "";
     ec_PREVIEW_LIMIT := 25; ec_POLL_MAX_ATTEMPTS := 5; ec_MAX_REQUESTS_PER_RUN := 3; ec_MAX_CREDITS_PER_RUN := 3 |}.
Definition demoResolveConfig (paid : bool) : ResolveConfig :=
  {| rc_enrichment := demoEnrichmentConfig paid; rc_MAX_LEADS_PER_RUN := 10; rc_MAX_REQUESTS_PER_RUN := 20;
     rc_MAX_CREDITS_PER_RUN := 10 |}.
Definition demoContactFact (id lead value : string) (t : FactType) : LeadFactRow :=
  {| lf_id := id; lf_leadId := lead; lf_factType := t; lf_value := value; lf_normalizedValue := None;
     lf_sourceType := FS_website; lf_sourceUrl := Some "https://beta.uk/contact"; lf_capturedAt := 0;
     lf_confidence := QArith_base.Qmake 1 1; lf_supersededBy := None; lf_supersededAt := None; lf_isCurrent := true |}.
Definition qualifiedEvent (lead : string) : string * NewPipelineEvent :=
  ("e-" +:+ lead, {| pe_leadId := Some lead; pe_runId := None; pe_type := STATE_TRANSITION; pe_fromStatus := None;
     pe_toStatus := Some QUALIFIED; pe_message := None; pe_data := JNull |}).
Definition demoPerson (first : string) : CandidatePerson :=
  {| cp_fullName := first +:+ " Doe"; cp_firstName := first; cp_lastName := "Doe"; cp_title := "Practice Manager"; cp_priority := 1 |}.
(** A row of a search without an address *)
Definition demoRow (id lead domain provider : string) (person : CandidatePerson) (outcome : ContactEnrichmentOutcome)
    (accepted : option VerifiedContact) : ContactEnrichmentResult :=
  {| er_id := id; er_leadId := lead; er_provider := provider; er_mode := ENRICH;
     er_inputHash := computeInputHash ENRICH provider domain [person]; er_requestedDomain := domain;
     er_candidates := [person]; er_outcome := outcome; er_accepted := accepted; er_creditsEstimated := 1;
     er_creditsReported := None; er_providerResourceId := None; er_endpoint := None; er_provenance := JNull;
     er_createdAt := 0; er_completedAt := None |}.
(** Of the first lead nothing is known; of the second, both providers were asked in vain. *)
Definition demoContactDb (rows : list ContactEnrichmentResult) : ContactDb :=
  let p := demoPipelineDb in
  {| contactSystem := setLeadFacts (λ _, [demoContactFact "f1" "a" "alpha.uk" FT_official_domain;
         demoContactFact "f2" "b" "beta.uk" FT_official_domain; demoContactFact "f3" "b" "Info@beta.uk" FT_contact_email])
       (put onPipeline
         {| runIds := runIds p; gmailDraftIds := gmailDraftIds p;
            leads := {["a" := candidateLead "a" "p1" "google_places" 1; "b" := candidateLead "b" "p2" "google_places" 2]};
            pipelineEvents := [qualifiedEvent "a"; qualifiedEvent "b"]; schedules := schedules p; attempts := attempts p;
            readinessApprovals := readinessApprovals p; suppressions := suppressions p; dispatched := dispatched p |}
         demoSystem);
     enrichmentResults := rows; contactResolutions := []; opportunityScores := []; paidCalls := []; providerRequests := [] |}.
Definition exhaustedRows : list ContactEnrichmentResult :=
  [demoRow "r1" "b" "beta.uk" "instantly" (demoPerson "Max") CE_NOT_FOUND None;
   demoRow "r2" "b" "beta.uk" "hunter" (demoPerson "Max") CE_NOT_FOUND None].
Definition demoCandidates : res string :=
  let person name := JArr [JObj [("fullName", JStr name); ("title", JStr "Practice Manager")]] in
  Ok (stringify (JObj [("a", person "Dr Jane Doe"); ("b", person "Max Doe")])).
Definition demoBatch (paid confirm : bool) : EM BatchOutcome :=
  contactResolveBatchCommand (demoResolveConfig paid)
    {| ro_candidatesFile := Some "candidates.json"; ro_limit := None; ro_confirm := confirm; ro_maxTotalRequests := None;
       ro_maxTotalCredits := None; ro_stopAfterFirstVerified := false |} demoCandidates.
Definition recipients (db : ContactDb) : list (string * string) :=
  map (λ r, (cr_leadId r, cr_recipientEmail r)) (contactResolutions db).
Definition verifiedContact : VerifiedContact :=
  {| vc_fullName := "Jane Doe"; vc_title := "Practice Manager"; vc_email := "jane.doe@alpha.uk"; vc_dataQuality := None;
     vc_confidence := None |}.
(** Jane was verified, by the search for one lead. *)
Definition janesRow : ContactEnrichmentResult :=
  demoRow "r0" "a" "alpha.uk" "hunter" (demoPerson "Jane") CE_VERIFIED (Some verifiedContact).

Lemma verified_without_recipient_stays_witness :
  let db' := w_db (demoBatch true true (World (demoContactDb (janesRow :: exhaustedRows)) 0 0)).2 in
  recipients db' = [("b", "info@beta.uk")] ∧
  ∀ r, r ∈ contactResolutions db' → cr_isCurrent r = true → cr_leadId r = "a" → r ∈ [].
Proof.
  cbv zeta. split; [vm_compute; reflexivity|].
  apply (verified_without_recipient_stays (demoResolveConfig true)
    {| ro_candidatesFile := Some "candidates.json"; ro_limit := None; ro_confirm := true; ro_maxTotalRequests := None;
       ro_maxTotalCredits := None; ro_stopAfterFirstVerified := false |} demoCandidates
    (World (demoContactDb (janesRow :: exhaustedRows)) 0 0) "a" janesRow).
  - cbn. by left.
  - reflexivity.
  - reflexivity.
  - intros l Hl _. vm_compute in Hl. apply elem_of_cons in Hl as [->|Hl]; [discriminate|].
    apply list_elem_of_singleton in Hl as ->. discriminate.
Defined.
(** With the switch off the same batch leaves Jane's lead without a recipient, and unasked. *)
Lemma paid_switch_off_exhausts_witness :
  recipients (w_db (demoBatch false true (World (demoContactDb exhaustedRows) 0 0)).2) = [("b", "info@beta.uk")] ∧
  twp (runEnrichment (HunterContactEnrichmentProvider (depsOf (demoEnrichmentConfig false) "")) "a" "alpha.uk"
      [demoPerson "Jane"] (perLeadCaps (demoResolveConfig false)) true false)
    (λ r w', er_outcome r = CE_ERROR ∧ providerRequests (w_db w') = [] ∧
       isProviderStepResolved (enrichmentsOf "a" (w_db w')) hunter "alpha.uk" [demoPerson "Jane"] = true)
    (World (demoContactDb exhaustedRows) 0 0).
Proof.
  split; [vm_compute; reflexivity|]. apply paid_switch_off_exhausts.
  - reflexivity.
  - discriminate.
  - constructor; [|constructor]. split; reflexivity.
  - reflexivity.
  - vm_compute. eexists. reflexivity.
  - intros row Hrow. cbn in Hrow. unfold exhaustedRows in Hrow.
    rewrite !elem_of_cons, elem_of_nil in Hrow. destruct Hrow as [->|[->|[]]]; discriminate.
  - vm_compute. reflexivity.
Defined.
(** The search of a domain names the domain itself, so that the host of what it finds is not looked at. *)
Example domain_search_any_host :
  is_Some (searchPeople "alpha.uk" {| dr_people := []; dr_creditsReported := None; dr_creditsUsed := 1;
      dr_endpoint := domainSearchPath; dr_rawDigest := "" |}
    (omap (domainSearchPerson "alpha.uk" (Some false)) [VObj [("value", VStr "jane@elsewhere.org"); ("type", VStr "personal");
       ("first_name", VStr "Jane"); ("last_name", VStr "Doe"); ("verification", VObj [("status", VStr "valid")])]])
    [demoPerson "Jane"]).2.
Proof. vm_compute. eexists. reflexivity. Qed.
End demo.
