(* ===== verification/QualificationSpecs.v ===== *)
(** * What qualification decides and writes

    The decision as a function of the evidence, the arithmetic of the shipped rules, and
    the effect of qualifying one lead. *)
From Stdlib Require QArith.
From S2P Require Import Prelude.
From S2P Require Import JsNumber.
From S2P Require Import JsText.
From S2P Require Import LeadNormalize.
From S2P Require Import LeadLifecycle.
From S2P Require Import PipelineDb.
From S2P Require Import Suppression.
From S2P Require Import SystemDb.
From S2P Require Import LeadFacts.
From S2P Require Import Qualification.
From S2P Require Import OutreachSpecs.
From S2P Require Import SendSafety.
From S2P Require Import ScheduledCommand.
Open Scope string_scope.
Open Scope list_scope.

(** ** The exits of the evaluation *)

Section evaluation.
Context `{Runtime} (facts : list LeadFactRow) (ctx : QualificationContext).

(** What a lead may be rejected for: something that is known, never something missing *)
Definition rejectingEvidence : Prop :=
  qc_suppressed ctx = true ∨
  valueOf facts FT_business_status = Some "CLOSED_PERMANENTLY" ∨
  (∃ category, normalizedOrValue <$> byType facts FT_category = Some category ∧ category ≠ "" ∧
     normalizeCategory category ∉ map normalizeCategory (ni_allowedCategories (qc_niche ctx))) ∨
  (ni_excludeChains (qc_niche ctx) = true ∧ valueOf facts FT_ownership_type = Some "CHAIN").
Definition nothingMissing : Prop :=
  Forall (λ t, is_Some (byType facts t)) REQUIRED_FACTS ∧
  Exists (λ t, is_Some (byType facts t)) CONTACT_OR_AUDIT_FACTS.

Lemma missing_spec : missingRequiredFacts facts = [] ↔ nothingMissing.
Proof.
  unfold missingRequiredFacts, nothingMissing, REQUIRED_FACTS, CONTACT_OR_AUDIT_FACTS.
  rewrite !Forall_cons, !Exists_cons, Forall_nil, Exists_nil. cbn [List.filter existsb].
  unfold hasFact. repeat case_bool_decide; cbn; split; naive_solver.
Qed.
Lemma no_facts_missing : existsb lf_isCurrent facts = false → missingRequiredFacts facts ≠ [].
Proof.
  intros Hn Hm. apply missing_spec in Hm as [Hreq _]. unfold REQUIRED_FACTS in Hreq.
  apply Forall_cons in Hreq as [[f Hf] _]. unfold byType in Hf.
  apply last_Some_elem_of, elem_of_List_filter in Hf as [Hf [Hc _]%andb_true_iff].
  apply not_true_iff_false in Hn. apply Hn, existsb_exists. exists f. by rewrite <-list_elem_of_In.
Qed.

Inductive exit (rules : QualificationRules) (r : QualificationResult) : Prop :=
  | exit_rejected : rejectingEvidence → q_decision r = REJECT → q_nextStep r = SKIP →
      q_businessViabilityScore r = None → q_auditabilityScore r = None → q_contactabilityScore r = None →
      q_deterministicScore r = None → exit rules r
  | exit_missing : ¬ rejectingEvidence → ¬ nothingMissing → q_decision r = REVIEW →
      q_nextStep r = NEEDS_ENRICHMENT → q_businessViabilityScore r = None → q_auditabilityScore r = None →
      q_contactabilityScore r = None → q_deterministicScore r = None → exit rules r
  | exit_scored : ¬ rejectingEvidence → nothingMissing →
      q_businessViabilityScore r = Some (viability facts rules) → q_auditabilityScore r = Some (auditability facts) →
      q_contactabilityScore r = Some (contactability facts rules).1 →
      q_deterministicScore r = Some (composite facts rules) →
      (if geN (composite facts rules) (qr_acceptThreshold rules)
       then q_decision r = ACCEPT ∧ q_nextStep r = if hasFact facts FT_official_domain then AUDIT else WEBSITE_DISCOVERY
       else q_decision r = REVIEW ∧ q_nextStep r = MANUAL_REVIEW) → exit rules r.

Lemma evaluate_exit rules :
  let r := evaluateQualification facts ctx rules in
  exit rules r ∧ q_opportunityScore r = None ∧ q_leadId r = qc_leadId ctx.
Proof.
  cbv zeta. unfold evaluateQualification.
  destruct (qc_suppressed ctx) eqn:Esup.
  { split; [|done]. apply exit_rejected; try done. by left. }
  unfold permanentlyClosed. case_bool_decide as Hclosed.
  { split; [|done]. apply exit_rejected; try done. by right; left. }
  set (category := normalizedOrValue <$> byType facts FT_category).
  assert (truthy_opt category && outsideNiche ctx (default "" category) = true ↔
    ∃ c, category = Some c ∧ c ≠ "" ∧
      normalizeCategory c ∉ map normalizeCategory (ni_allowedCategories (qc_niche ctx))) as Hniche.
  { rewrite andb_true_iff, truthy_opt_spec. unfold outsideNiche.
    rewrite negb_true_iff, bool_decide_eq_false. split; [intros [(c & -> & ?) ?]|intros (c & -> & ? & ?)]; eauto. }
  destruct (truthy_opt category && outsideNiche ctx (default "" category)) eqn:Ecat.
  { split; [|done]. apply exit_rejected; try done. right; right; left. by apply Hniche. }
  unfold verifiedChain. destruct (ni_excludeChains (qc_niche ctx) && _) eqn:Echain.
  { split; [|done]. apply exit_rejected; try done. right; right; right.
    apply andb_true_iff in Echain as [? ?%bool_decide_eq_true_1]. done. }
  assert (¬ rejectingEvidence) as Hno.
  { intros [?|[?|[Hc|[Hx1 Hx2]]]]; [congruence|done|by apply Hniche in Hc|].
    rewrite Hx1, (bool_decide_eq_true_2 _ Hx2) in Echain. done. }
  clear Hniche. destruct (possibleChain facts ctx);
  (destruct (negb (existsb lf_isCurrent facts) || (0 <? length (missingRequiredFacts facts))%nat) eqn:Emiss;
    [split; [|done]; apply exit_missing; try done; intros Hm%missing_spec;
     rewrite Hm, orb_false_r, negb_true_iff in Emiss; by apply no_facts_missing in Emiss|];
   assert (nothingMissing) by
     (apply missing_spec; apply orb_false_iff in Emiss as [_ Hl]; by destruct (missingRequiredFacts facts));
   destruct (geN (composite facts rules) (qr_acceptThreshold rules)) eqn:Eacc;
   [destruct (hasFact facts FT_official_domain) eqn:Ed|];
   (split; [|done]; apply exit_scored; try done; rewrite Eacc, ?Ed; done)).
Qed.
End evaluation.

(** ** The arithmetic of the shipped rules *)

Section shipped.
Context `{Runtime} (facts : list LeadFactRow).

Definition active : bool := bool_decide (valueOf facts FT_business_status = Some "OPERATIONAL").
Definition wellRated : bool := atLeast (valueOf facts FT_rating) (toNumber "4.0").
Definition wellReviewed : bool := atLeast (valueOf facts FT_review_count) (ofZ 20).
Definition independent : bool := bool_decide (valueOf facts FT_ownership_type = Some "INDEPENDENT").
Definition hasOfficialDomain : bool := hasFact facts FT_official_domain.
(** With a domain of its own one strong signal suffices; without, all four are needed. *)
Definition worthwhile : bool :=
  if hasOfficialDomain then active || wellRated || wellReviewed && independent
  else active && wellRated && wellReviewed && independent.

Definition scoreOf (a r v i : bool) : num :=
  fold_left (λ s (x : bool * num), if x.1 then addN s x.2 else s)
    [(a, ofZ 40); (r, ofZ 25); (v, ofZ 20); (i, ofZ 15)] (ofZ 0).
Lemma viability_shipped : viability facts QUALIFICATION_RULES = scoreOf active wellRated wellReviewed independent.
Proof. reflexivity. Qed.
Definition compositeOf (d a r v i : bool) : num :=
  roundN (addN (mulN (toNumber "0.6") (scoreOf a r v i)) (mulN (toNumber "0.4") (if d then ofZ 100 else ofZ 0))).
Lemma composite_shipped : composite facts QUALIFICATION_RULES =
  compositeOf hasOfficialDomain active wellRated wellReviewed independent.
Proof. reflexivity. Qed.
Lemma compositeOf_accepts d a r v i :
  geN (compositeOf d a r v i) (ofZ 55) = if d then a || r || v && i else a && r && v && i.
Proof. destruct d, a, r, v, i; vm_compute; reflexivity. Qed.
Lemma shipped_valid_scores d a r v i :
  validScore (Some (scoreOf a r v i)) = true ∧ validScore (Some (compositeOf d a r v i)) = true.
Proof. destruct d, a, r, v, i; split; vm_compute; reflexivity. Qed.
Lemma shipped_valid_rest :
  validScore (Some (auditability facts)) = true ∧ validScore (Some (contactability facts QUALIFICATION_RULES).1) = true.
Proof. unfold auditability, contactability. split; repeat case_match; vm_compute; reflexivity. Qed.

Lemma composite_accepts :
  geN (composite facts QUALIFICATION_RULES) (qr_acceptThreshold QUALIFICATION_RULES) = worthwhile.
Proof. rewrite composite_shipped. apply compositeOf_accepts. Qed.
End shipped.

Section decisions.
Context `{Runtime}.

(** No rejection without evidence: whatever the rules, a lead is rejected exactly if it
    is suppressed, known to be closed for good, known to be of another trade, or a
    verified chain where chains are excluded; a fact that is missing never rejects, it
    sends the lead to enrichment. *)
Theorem rejects_only_on_evidence facts ctx rules :
  let r := evaluateQualification facts ctx rules in
  (q_decision r = REJECT ↔ rejectingEvidence facts ctx) ∧
  (q_nextStep r = NEEDS_ENRICHMENT ↔ ¬ rejectingEvidence facts ctx ∧ ¬ nothingMissing facts).
Proof.
  cbv zeta. destruct (evaluate_exit facts ctx rules) as [[Hev Hd Hn|Hev Hm Hd Hn|Hev Hm _ _ _ _ Hr] _].
  - rewrite Hd, Hn. split; [done|]. split; [done|]. by intros [? _].
  - rewrite Hd, Hn. split; [split; [done|by intros ?]|done].
  - destruct (geN _ _), Hr as [-> ->].
    + split; [split; [done|by intros ?]|]. split; [by destruct (hasFact _ _)|]. by intros [_ ?].
    + split; [split; [done|by intros ?]|]. split; [done|]. by intros [_ ?].
Qed.

(** C31: The shipped rules in words: a lead that nothing speaks against and of which enough
    is known is accepted exactly if it has an official domain and is active, well rated,
    or well reviewed and independent, or if it lacks the domain but has all four signals;
    the double arithmetic of the composite score changes no case. *)
Theorem shipped_rules_accept facts ctx :
  let r := evaluateQualification facts ctx QUALIFICATION_RULES in
  q_decision r = ACCEPT ↔
  ¬ rejectingEvidence facts ctx ∧ nothingMissing facts ∧ worthwhile facts = true.
Proof.
  cbv zeta. destruct (evaluate_exit facts ctx QUALIFICATION_RULES) as [[Hev Hd|Hev Hm Hd|Hev Hm _ _ _ _ Hr] _].
  - rewrite Hd. split; [done|]. by intros [? _].
  - rewrite Hd. split; [done|]. by intros (_ & ? & _).
  - rewrite composite_accepts in Hr. destruct (worthwhile facts); destruct Hr as [-> _]; naive_solver.
Qed.
End decisions.

(** ** Qualifying one lead *)

Section transitions.
Context `{Runtime}.

(** The identifiers to come are not in use. *)
Definition freshEvents (w : world PipelineDb) : Prop :=
  Inj (=) (=) uuid ∧ ∀ n, (w_uuids w <= n)%nat → ∀ e, e ∈ pipelineEvents (w_db w) → e.1 ≠ uuid n.
(** One lead has been moved to a status, and nothing else but events has changed. *)
Record movedTo (id : string) (to : LeadStatus) (w w' : world PipelineDb) : Prop := {
  mv_status : ld_status <$> leads (w_db w') !! id = Some to;
  mv_others : ∀ other, other ≠ id → leads (w_db w') !! other = leads (w_db w) !! other;
  mv_suppressions : suppressions (w_db w') = suppressions (w_db w);
  mv_fresh : freshEvents w';
  mv_uuids : (w_uuids w <= w_uuids w')%nat;
}.
Lemma movedTo_trans id to1 to2 w1 w2 w3 : movedTo id to1 w1 w2 → movedTo id to2 w2 w3 → movedTo id to2 w1 w3.
Proof.
  intros [_ O1 S1 _ U1] [St O2 S2 F2 U2]. split; [done| |congruence|done|lia].
  intros o Ho. rewrite O2 by done. by apply O1.
Qed.
Lemma movedTo_stay id w l : leads (w_db w) !! id = Some l → freshEvents w → movedTo id (ld_status l) w w.
Proof. intros El Hf. split; try done. by rewrite El. Qed.

Lemma leadTransition_moves id to w from :
  ld_status <$> leads (w_db w) !! id = Some from → canTransition from to = true → freshEvents w →
  twp (leadTransition id to) (λ _, movedTo id to w) w.
Proof.
  intros Hl Hcan [Hinj Hfresh]. destruct (leads (w_db w) !! id) as [l|] eqn:El; [|done].
  injection Hl as Hst. unfold leadTransition, getLead, updateLeadStatus, recordEvent. twp_run. rewrite El, Hst, Hcan.
  cbn [negb]. twp_run. apply twp_guarded; cbn [w_db].
  - apply refuse_None. rewrite !Forall_cons. cbn [fst pe_leadId pe_runId leadEvent].
    split_and!; [| |done|constructor].
    + apply not_true_iff_false. intros (e & He & E%bool_decide_eq_true_1)%existsb_exists.
      apply (Hfresh (w_uuids w) (Nat.le_refl _) e); [|done]. apply list_elem_of_In in He.
      clear -He. by destruct (w_db w).
    + apply negb_false_iff, bool_decide_eq_true_2. clear -El. destruct (w_db w). cbn in *.
      rewrite lookup_alter_eq, El. by eexists.
  - twp_run. clear Hst Hcan. split; cbn [w_db w_uuids].
    + destruct (w_db w). cbn in *. rewrite lookup_alter_eq, El. by destruct l.
    + intros other Ho. destruct (w_db w). cbn. by rewrite lookup_alter_ne.
    + by destruct (w_db w).
    + split; [done|]. cbn [w_uuids w_db]. intros n Hn e He.
      assert (e ∈ pipelineEvents (w_db w) ∨ e.1 = uuid (w_uuids w)) as [He'|He'].
      { destruct (w_db w). cbn in He |- *. apply elem_of_app in He as [?|He]; [by left|].
        right. by apply list_elem_of_singleton in He as ->. }
      * apply (Hfresh n); [lia|done].
      * rewrite He'. intros Hu%Hinj. lia.
    + lia.
Qed.

Lemma advanceToReady_moves l w :
  leads (w_db w) !! ld_id l = Some l → isQualifiable (ld_status l) = true → freshEvents w →
  twp (advanceToReady l) (λ _, movedTo (ld_id l) READY_FOR_QUALIFICATION w) w.
Proof.
  intros El Hq Hf. unfold advanceToReady. cbv zeta.
  assert (∀ to w1, movedTo (ld_id l) to w w1 → canTransition to READY_FOR_QUALIFICATION = true →
    twp (leadTransition (ld_id l) READY_FOR_QUALIFICATION)
      (λ _, twp (mret tt) (λ _ : (), movedTo (ld_id l) READY_FOR_QUALIFICATION w)) w1) as Hlast.
  { intros to w1 Hm Hc.
    eapply twp_mono; [|apply (leadTransition_moves _ _ _ to); [apply Hm|done|apply Hm]].
    intros ? w2 Hm2. twp_run. by eapply movedTo_trans. }
  pose proof (movedTo_stay _ w l El Hf) as Hstay.
  destruct (ld_status l) eqn:E; try (vm_compute in Hq; discriminate);
    repeat match goal with |- context [bool_decide ?P] =>
      let b := eval vm_compute in (bool_decide P) in change (bool_decide P) with b end; cbv beta iota.
  - rewrite twp_bind, twp_bind. eapply twp_mono; [|apply (leadTransition_moves _ _ _ NEW); [|done|done]].
    + intros ? w1 Hm. twp_run. by apply (Hlast NORMALIZED).
    + rewrite El. cbn. by rewrite E.
  - twp_run. by apply (Hlast NORMALIZED).
  - by twp_run.
  - twp_run. by apply (Hlast ENRICHED).
  - twp_run. by apply (Hlast NEEDS_MANUAL_REVIEW).
Qed.
End transitions.

Section qualifying.
Context `{Runtime}.

Definition pipeWorld (w : world IntakeDb) : world PipelineDb :=
  World (pipelineDb (systemDb (w_db w))) (w_ticks w) (w_uuids w).
Definition freshIntake (w : world IntakeDb) : Prop :=
  freshEvents (pipeWorld w) ∧
  ∀ n, (w_uuids w <= n)%nat → (∀ x, x ∈ qualificationResults (w_db w) → x.1 ≠ uuid n) ∧
    (∀ x, x ∈ qualificationResultFacts (w_db w) → x.1 ≠ uuid n).

Lemma NoDup_uniq_from {A} `{EqDecision A} (seen l : list A) :
  NoDup (uniq_from seen l) ∧ ∀ x, x ∈ uniq_from seen l → x ∈ l ∧ x ∉ seen.
Proof.
  revert seen. induction l as [|y l IH]; intros seen; cbn [uniq_from].
  - split; [constructor|]. intros x Hx. by apply elem_of_nil in Hx.
  - case_bool_decide as Hy.
    + destruct (IH seen) as [Hn Hi]. split; [done|]. intros x [? ?]%Hi. split; [by right|done].
    + destruct (IH (y :: seen)) as [Hn Hi]. split.
      * apply NoDup_cons. split; [|done]. intros [_ Hx]%Hi. apply Hx. by left.
      * intros x [->|Hx]%elem_of_cons; [by split; [left|]|]. apply Hi in Hx as [? Hx].
        rewrite not_elem_of_cons in Hx. split; [by right|naive_solver].
Qed.

(** The facts that a result is linked to are facts of the lead, each named once. *)
Lemma inputFactIds_valid facts used :
  NoDup (inputFactIds facts used) ∧ ∀ id, id ∈ inputFactIds facts used → ∃ f, f ∈ facts ∧ lf_id f = id.
Proof.
  unfold inputFactIds. pose proof (NoDup_uniq_from [] (omap (λ t, lf_id <$> byType facts t) used)) as [Hn Hi].
  split; [by rewrite sortBy_perm|]. intros id Hid. rewrite sortBy_perm in Hid. apply Hi in Hid as [Hid _].
  apply list_elem_of_omap in Hid as (t & _ & Ht). destruct (byType facts t) as [f|] eqn:Ef; [|done].
  injection Ht as <-. exists f. split; [|done].
  by apply last_Some_elem_of, elem_of_List_filter in Ef as [? _].
Qed.
Lemma evaluate_factIds facts ctx rules : ∃ used,
  q_inputFactIds (evaluateQualification facts ctx rules) = inputFactIds facts used.
Proof. unfold evaluateQualification, rejected, finishResult. repeat case_match; by eexists. Qed.

Lemma saveResult_appends r w :
  checkInsertResult (uuid (w_uuids w)) r (w_db w) = None → freshIntake w → NoDup (q_inputFactIds r) →
  (∀ f, f ∈ q_inputFactIds r → ∃ row, row ∈ leadFacts (systemDb (w_db w)) ∧ lf_id row = f) →
  twp (saveResult r) (λ id w', w' =
    World (addResultFacts (map (λ f, (id, f)) (q_inputFactIds r)) (addResult id r (w_db w)))
      (w_ticks w) (S (w_uuids w))) w.
Proof.
  intros Hcheck [_ Hfresh] Hnd Hrows. unfold saveResult. rewrite twp_bind, twp_randomUUID.
  cbn [w_db w_ticks w_uuids]. set (id := uuid (w_uuids w)) in *. rewrite twp_bind.
  apply twp_guarded; [done|]. cbn [w_db w_ticks w_uuids].
  destruct (q_inputFactIds r) as [|f fs] eqn:Ef; cbn [length Nat.ltb Nat.leb].
  - twp_run. destruct (w_db w); unfold addResultFacts, addResult; cbn. by rewrite app_nil_r.
  - rewrite <-Ef in *. rewrite twp_bind. apply twp_guarded; [|by twp_run]. cbn [w_db].
    apply refuse_None. rewrite !Forall_cons. cbn [fst]. split_and!; [| |constructor].
    + apply orb_false_iff. split.
      * apply not_true_iff_false. intros (x & Hx & Hin%bool_decide_eq_true_1)%existsb_exists.
        apply in_map_iff in Hx as (y & <- & _).
        by apply (proj2 (Hfresh (w_uuids w) (Nat.le_refl _)) _ Hin).
      * apply negb_false_iff, bool_decide_eq_true_2. apply NoDup_fmap_2; [|done]. by intros ? ? [=].
    + apply negb_false_iff, forallb_forall. intros x Hx. apply in_map_iff in Hx as (y & <- & Hy).
      apply list_elem_of_In, Hrows in Hy as (row & Hrow & <-). apply existsb_exists. exists row.
      rewrite <-list_elem_of_In. cbn. by rewrite bool_decide_eq_true_2.
Qed.

Lemma shipped_result_valid facts ctx db id :
  is_Some (leads (pipelineDb (systemDb db)) !! qc_leadId ctx) →
  (∀ x, x ∈ qualificationResults db → x.1 ≠ id) →
  checkInsertResult id (evaluateQualification facts ctx QUALIFICATION_RULES) db = None.
Proof.
  intros Hlead Hid. destruct (evaluate_exit facts ctx QUALIFICATION_RULES) as (Hexit & Ho & El).
  unfold checkInsertResult. rewrite Ho, El. apply refuse_None. rewrite !Forall_cons. cbn [fst].
  split_and!; [| |by rewrite bool_decide_eq_true_2|constructor].
  - apply negb_false_iff. destruct (shipped_valid_rest facts) as [Va Vc].
    destruct (shipped_valid_scores (hasOfficialDomain facts) (active facts) (wellRated facts)
      (wellReviewed facts) (independent facts)) as [Vv Vd].
    destruct Hexit as [_ _ _ -> -> -> ->|_ _ _ _ -> -> -> ->|_ _ -> -> -> -> _]; [done..|].
    rewrite viability_shipped, composite_shipped. cbn [forallb]. by rewrite Va, Vc, Vv, Vd.
  - apply not_true_iff_false. intros (x & Hx & E%bool_decide_eq_true_1)%existsb_exists.
    apply list_elem_of_In in Hx. by apply (Hid x).
Qed.

(** A step of the sending tables, seen from the whole database *)
Definition withPipeline (p : PipelineDb) (db : IntakeDb) : IntakeDb := put onSystem (put onPipeline p (systemDb db)) db.
Lemma twp_onPipe {A} (m : PM A) Q w :
  twp (zoom onSystem (zoom onPipeline m)) Q w ↔
  twp m (λ a w', Q a (World (withPipeline (w_db w') (w_db w)) (w_ticks w') (w_uuids w'))) (pipeWorld w).
Proof. by rewrite !twp_zoom. Qed.
Lemma twp_pipeQuery {A} (f : PipelineDb → A) Q w :
  twp (zoom onSystem (zoom onPipeline (query f))) Q w ↔ Q (f (pipelineDb (systemDb (w_db w)))) w.
Proof. rewrite !twp_zoom, twp_query. by destruct w as [[[]]]. Qed.
Lemma twp_systemQuery {A} (f : SystemDb → A) Q w :
  twp (zoom onSystem (query f)) Q w ↔ Q (f (systemDb (w_db w))) w.
Proof. rewrite twp_zoom, twp_query. by destruct w as [[]]. Qed.

(** What the suppression check reads *)
Lemma isSuppressedLead_same l db db' :
  leadFacts db' = leadFacts db → suppressions (pipelineDb db') = suppressions (pipelineDb db) →
  isSuppressedLead l db' = isSuppressedLead l db.
Proof.
  intros Ef Es. unfold isSuppressedLead, leadIdentityFacts, currentFacts, suppressedIn, suppressedUnder.
  by rewrite Ef, Es.
Qed.

Lemma canTransition_target step : canTransition READY_FOR_QUALIFICATION (targetState step) = true.
Proof. by destruct step; vm_compute. Qed.

(** The result that qualifying a lead with the shipped rules gives *)
Definition shippedResult (l : Lead) (campaign : string) (niche : QualificationNiche) (nowD : Z) (db : SystemDb) :
    QualificationResult :=
  evaluateQualification (currentFacts (ld_id l) db)
    {| qc_leadId := ld_id l; qc_campaign := campaign; qc_niche := niche;
       qc_suppressed := isSuppressedLead l db; qc_now := nowD |} QUALIFICATION_RULES.

(** C30: Qualifying a lead: with the shipped rules it always commits for a lead in a
    qualifiable status: the result is the evaluation of its current facts and of the
    suppression list, is stored and linked to the facts it used, and the lead, and no
    other, ends in the status that belongs to the next step; a suppressed lead ends
    rejected. *)
Theorem qualify_commits l campaign niche nowD w :
  leads (pipelineDb (systemDb (w_db w))) !! ld_id l = Some l → isQualifiable (ld_status l) = true → freshIntake w →
  let r := shippedResult l campaign niche nowD (systemDb (w_db w)) in
  ∃ w', qualify (ld_id l) campaign niche QUALIFICATION_RULES nowD w = (Ok r, w') ∧
    ld_status <$> leads (pipelineDb (systemDb (w_db w'))) !! ld_id l = Some (targetState (q_nextStep r)) ∧
    (isSuppressedLead l (systemDb (w_db w)) = true → targetState (q_nextStep r) = REJECTED) ∧
    (∀ other, other ≠ ld_id l →
       leads (pipelineDb (systemDb (w_db w'))) !! other = leads (pipelineDb (systemDb (w_db w))) !! other) ∧
    ∃ id, qualificationResults (w_db w') = qualificationResults (w_db w) ++ [(id, r)] ∧
      qualificationResultFacts (w_db w') =
        qualificationResultFacts (w_db w) ++ map (λ f, (id, f)) (q_inputFactIds r).
Proof.
  intros El Hq [Hfe Hfr] r.
  assert (isSuppressedLead l (systemDb (w_db w)) = true → targetState (q_nextStep r) = REJECTED) as Hsup.
  { intros Hs. unfold r, shippedResult, evaluateQualification. cbn [qc_suppressed]. by rewrite Hs. }
  cut (twp (qualify (ld_id l) campaign niche QUALIFICATION_RULES nowD) (λ r' w', r' = r ∧
    ld_status <$> leads (pipelineDb (systemDb (w_db w'))) !! ld_id l = Some (targetState (q_nextStep r)) ∧
    (∀ other, other ≠ ld_id l →
       leads (pipelineDb (systemDb (w_db w'))) !! other = leads (pipelineDb (systemDb (w_db w))) !! other) ∧
    ∃ id, qualificationResults (w_db w') = qualificationResults (w_db w) ++ [(id, r)] ∧
      qualificationResultFacts (w_db w') =
        qualificationResultFacts (w_db w) ++ map (λ f, (id, f)) (q_inputFactIds r)) w).
  { intros (r' & w' & E & -> & H1 & H2 & H3)%twp_returns. by exists w'. }
  unfold qualify, getLead, listCurrentFacts. rewrite twp_transaction, twp_bind, twp_pipeQuery, El, Hq. cbn [negb].
  rewrite twp_bind, twp_onPipe. eapply twp_mono; [|apply (advanceToReady_moves l (pipeWorld w) El Hq Hfe)].
  intros _ [p1 t1 u1] [Hst1 Ho1 Hs1 Hf1 Hu1]. cbn [w_db w_ticks w_uuids pipeWorld] in *.
  rewrite twp_bind, twp_query, twp_bind, twp_systemQuery. cbn [w_db]. cbv zeta.
  set (db1 := withPipeline p1 (w_db w)).
  rewrite (isSuppressedLead_same l (systemDb (w_db w)) (systemDb db1)) by done.
  change (currentFacts (ld_id l) (systemDb db1)) with (currentFacts (ld_id l) (systemDb (w_db w))).
  fold (shippedResult l campaign niche nowD (systemDb (w_db w))). fold r.
  rewrite twp_bind. eapply twp_mono; [|apply saveResult_appends].
  - intros id ? ->. cbn [w_ticks w_uuids w_db]. rewrite twp_bind, twp_onPipe.
    set (w2 := pipeWorld _).
    eapply twp_mono; [|apply (leadTransition_moves _ _ w2 READY_FOR_QUALIFICATION);
      [exact Hst1|apply canTransition_target|]].
    + intros ? [p2 t2 u2] [Hst2 Ho2 _ _ _]. twp_run. split; [done|]. split; [exact Hst2|]. split.
      * intros other Ho. rewrite <-(Ho1 other Ho). exact (Ho2 other Ho).
      * exists id. split; done.
    + destruct Hf1 as [Hinj Hf1]. split; [done|]. intros n Hn e He. apply (Hf1 n); [cbn in Hn |- *; lia|exact He].
  - apply shipped_result_valid.
    + cbn. destruct (leads p1 !! ld_id l); [by eexists|done].
    + cbn [w_db w_uuids]. by apply Hfr.
  - split; [exact Hf1|]. cbn [w_db w_uuids]. intros n Hn. apply Hfr. lia.
  - destruct (evaluate_factIds (currentFacts (ld_id l) (systemDb (w_db w)))
      {| qc_leadId := ld_id l; qc_campaign := campaign; qc_niche := niche;
         qc_suppressed := isSuppressedLead l (systemDb (w_db w)); qc_now := nowD |} QUALIFICATION_RULES) as [used E].
    unfold r, shippedResult. rewrite E. apply inputFactIds_valid.
  - intros f Hf. destruct (evaluate_factIds (currentFacts (ld_id l) (systemDb (w_db w)))
      {| qc_leadId := ld_id l; qc_campaign := campaign; qc_niche := niche;
         qc_suppressed := isSuppressedLead l (systemDb (w_db w)); qc_now := nowD |} QUALIFICATION_RULES) as [used E].
    unfold r, shippedResult in Hf. rewrite E in Hf. apply inputFactIds_valid in Hf as (row & Hrow & <-).
    exists row. split; [|done]. by apply elem_of_List_filter in Hrow as [? _].
Qed.
End qualifying.

(** ** Witness: a lead of which little is known is sent to enrichment. *)

#[local] Existing Instance demo_runtime.

Definition demoNewLead : Lead := setLeadStatus NEW 0 demoLead.
Definition demoIntake : IntakeDb :=
  {| systemDb := put onPipeline (setLeads (λ _, {["l1" := demoNewLead]}) demoPipelineDb) demoSystem;
     qualificationResults := []; qualificationResultFacts := [] |}.
Definition demoNiche : QualificationNiche :=
  {| ni_allowedCategories := ["dentist"]; ni_excludeChains := true; ni_chainNames := [] |}.
Lemma qualify_commits_witness :
  isQualifiable (ld_status demoNewLead) = true ∧
  ∃ r w', qualify "l1" "dental" demoNiche QUALIFICATION_RULES 0 (World demoIntake 0 0) = (Ok r, w') ∧
    q_nextStep r = NEEDS_ENRICHMENT ∧
    ld_status <$> leads (pipelineDb (systemDb (w_db w'))) !! "l1" = Some READY_FOR_ENRICHMENT.
Proof.
  split; [reflexivity|].
  destruct (qualify_commits demoNewLead "dental" demoNiche 0 (World demoIntake 0 0)) as (w' & E & Hst & _).
  - reflexivity.
  - reflexivity.
  - split; [split|].
    + exact uuid_inj.
    + intros n _ e He. inversion He.
    + intros n _. split; intros x Hx; inversion Hx.
  - eexists _, w'. split; [exact E|]. split; [vm_compute; reflexivity|].
    change "l1" with (ld_id demoNewLead). rewrite Hst. vm_compute. reflexivity.
Defined.
