(* ===== verification/SendAdminSpecs.v ===== *)
(** * What operators can do to a send

    Every operation of the admin service keeps the invariant of sending; a verdict on an
    uncertain attempt is only recorded when nothing it was bound to has changed, and it
    either closes the schedule or makes exactly this one sendable again. *)
From S2P Require Import Prelude.
From S2P Require Import JsText.
From S2P Require Import JsonText.
From S2P Require Import TimeZone.
From S2P Require Import LeadLifecycle.
From S2P Require Import PipelineDb.
From S2P Require Import SendGate.
From S2P Require Import SendService.
From S2P Require Import SendSafety.
From S2P Require Import SystemDb.
From S2P Require Import SendAdmin.
From S2P Require Import ScheduledCommand.
Open Scope Z_scope.
Open Scope list_scope.

(** ** Safety *)

Section safety.
Context `{Runtime}.

Lemma setReadiness_frame f db : attempts (setReadiness f db) = attempts db ∧ dispatched (setReadiness f db) = dispatched db.
Proof using Type. by destruct db. Qed.
Lemma respects_setReadiness f : respects safe (modify (setReadiness f)).
Proof using Type. apply (respects_modify safe). apply frame_respects, setReadiness_frame. Qed.
Lemma respects_insertReadiness r : respects safe (insertReadiness r).
Proof using Type. apply (respects_guarded safe). intros db _. apply (frame_respects (setReadiness _)), setReadiness_frame. Qed.
Lemma complete_recovered id t : respects safe (completeAttempt id
  [set_attemptStatus AT_OUTCOME_UNKNOWN; set_errorClass (Some "crash_after_call_started"); set_completedAt (Some t)]).
Proof using Type. by apply respects_complete. Qed.
#[local] Hint Resolve respects_setReadiness respects_insertReadiness complete_recovered respects_updateLead
  respects_recordEvent respects_getLead : outreach.

Lemma createReadiness_safe input : always safe (createReadiness input).
Proof. unfold createReadiness, supersedeReadiness. cbv zeta. always_tac. Qed.
Lemma revokeReadiness_safe id t : always safe (revokeReadiness id t).
Proof. unfold revokeReadiness. cbv zeta. always_tac. Qed.
Lemma recoverStarted_safe id by_ note t : always safe (recoverStarted id by_ note t).
Proof. unfold recoverStarted. cbv zeta. always_tac. Qed.
Lemma recordUnresolved_safe id by_ note t : always safe (recordUnresolved id by_ note t).
Proof. unfold recordUnresolved. always_tac. Qed.

Lemma findAttempt_Some id db a : findAttempt id db = Some a → a ∈ attempts db ∧ at_id a = id.
Proof using Type. intros [Ha Hid%bool_decide_eq_true]%find_some. split; [by apply list_elem_of_In|done]. Qed.

(** ** When a verdict is accepted *)

Lemma bind_ok {A B} (r : res A) (k : A → res B) b : (r ≫= k) = Ok b ↔ ∃ a, r = Ok a ∧ k a = Ok b.
Proof using Type. destruct r; simpl; naive_solver. Qed.
Lemma must_ok {A} (o : option A) message a : must o message = Ok a ↔ o = Some a.
Proof using Type. destruct o; simpl; naive_solver. Qed.
Lemma refuseIf_ok c message u : refuseIf (negb c) message = Ok u ↔ c = true.
Proof using Type. destruct c, u; simpl; naive_solver. Qed.

(** What the verdict on an attempt is bound to: the attempt is the only one of its
    schedule and its outcome is unknown; the lead waits for a human; schedule, draft,
    readiness, recipient and content are those that were approved. *)
Record reconcilable (input : ReconcileInput) (db : SystemDb) (b : Binding) : Prop := {
  rc_attempt : findAttempt (ri_attemptId input) (pipelineDb db) = Some (bd_attempt b);
  rc_unresolved : at_status (bd_attempt b) = AT_OUTCOME_UNKNOWN ∧ at_reconciledOutcome (bd_attempt b) = None;
  rc_only : attemptsOf (at_scheduleId (bd_attempt b)) (pipelineDb db) = [bd_attempt b];
  rc_lead : leads (pipelineDb db) !! sa_leadId (at_record (bd_attempt b)) = Some (bd_lead b) ∧
    ld_status (bd_lead b) = NEEDS_MANUAL_REVIEW;
  rc_schedule : List.find (λ s, bool_decide (sr_id s = at_scheduleId (bd_attempt b)))
      (schedules (pipelineDb db)) = Some (bd_schedule b) ∧
    sr_status (bd_schedule b) = SCH_SCHEDULED ∧ sc_leadId (sr_record (bd_schedule b)) = ld_id (bd_lead b);
  rc_draft : gmailDrafts db !! sa_gmailDraftId (at_record (bd_attempt b)) = Some (bd_draft b) ∧
    gw_leadId (bd_draft b) = ld_id (bd_lead b) ∧
    gw_id (bd_draft b) = sc_gmailDraftId (sr_record (bd_schedule b)) ∧
    gw_outcome (bd_draft b) = "DRAFT_CREATED" ∧ truthy_opt (gw_providerDraftId (bd_draft b)) = true ∧
    gw_providerDraftId (bd_draft b) = Some (sc_providerDraftId (sr_record (bd_schedule b)));
  rc_readiness : List.find (λ x, bool_decide (ra_id x = sa_readinessApprovalId (at_record (bd_attempt b))))
      (readinessApprovals (pipelineDb db)) = Some (bd_readiness b) ∧
    toLowerCase (ra_gmailAccount (bd_readiness b)) = ri_gmailAccount input ∧
    ra_policyVersion (bd_readiness b) = ri_policyVersion input;
  rc_recipient : ∃ contact, currentContacts (sa_leadId (at_record (bd_attempt b))) db = [contact] ∧
    contact ≠ "" ∧ bd_recipient b = normalizeEmail contact ∧
    toLowerCase (sc_recipientEmail (sr_record (bd_schedule b))) = bd_recipient b ∧
    toLowerCase (gw_recipientEmail (bd_draft b)) = bd_recipient b ∧
    sa_recipientHash (at_record (bd_attempt b)) = recipientHash (bd_recipient b);
  rc_account : toLowerCase (gw_gmailAccount (bd_draft b)) = ri_gmailAccount input ∧
    toLowerCase (sa_gmailAccount (at_record (bd_attempt b))) = ri_gmailAccount input;
  rc_content : ∃ id, gw_finalizedEmailId (bd_draft b) = Some id ∧ id ≠ "" ∧
    finalizations db !! id = Some (bd_finalization b) ∧
    emailDrafts db !! fn_originalDraftId (bd_finalization b) = Some (bd_email b) ∧
    fn_finalHumanDecision (bd_finalization b) = Some "APPROVED" ∧
    is_Some (fn_finalReviewedAt (bd_finalization b)) ∧
    fn_resolvedBodyHash (bd_finalization b) = sc_finalizedContentHash (sr_record (bd_schedule b)) ∧
    fn_resolvedBodyHash (bd_finalization b) = sa_finalizedContentHash (at_record (bd_attempt b));
  rc_binding : bindingFingerprint b = sc_integrityFingerprint (sr_record (bd_schedule b)) ∧
    bindingFingerprint b = sa_scheduleIntegrityFingerprint (at_record (bd_attempt b));
  rc_send : bindingEnvelope input b = sa_approvedEnvelopeHash (at_record (bd_attempt b)) ∧
    bindingSend input b = sa_sendFingerprint (at_record (bd_attempt b));
}.

Lemma only_attempt a db :
  a ∈ attempts db →
  map at_id (attemptsOf (at_scheduleId a) db) = [at_id a] ↔ attemptsOf (at_scheduleId a) db = [a].
Proof using Type.
  intros Ha. split; [|by intros ->].
  assert (a ∈ attemptsOf (at_scheduleId a) db) as Hin.
  { apply list_elem_of_In, filter_In. split; [by apply list_elem_of_In|by apply bool_decide_eq_true]. }
  destruct (attemptsOf _ db) as [|x [|? ?]]; try done. intros _.
  by apply list_elem_of_singleton in Hin as ->.
Qed.
Lemma isUnresolved_true a :
  isUnresolved a = true ↔ at_status a = AT_OUTCOME_UNKNOWN ∧ at_reconciledOutcome a = None.
Proof using Type. unfold isUnresolved. by rewrite andb_true_iff, !bool_decide_eq_true. Qed.
Lemma unresolved_unconfirmed a : isUnresolved a = true → isConfirmed a = false.
Proof using Type. intros [Hs Ho]%isUnresolved_true. unfold isConfirmed. by rewrite Hs, Ho. Qed.

Lemma single_contact (l : list string) c :
  match l with [c] => if truthy c then Some c else None | _ => None end = Some c ↔ l = [c] ∧ c ≠ "".
Proof using Type.
  destruct l as [|x [|y l]]; [split; [done|intros []; done]| |split; [done|intros []; done]].
  pose proof (truthy_spec x) as Hx. destruct (truthy x); split; naive_solver.
Qed.
Lemma nonempty_id o i : (if truthy_opt o then o else None) = Some i ↔ o = Some i ∧ i ≠ "".
Proof using Type.
  destruct o as [x|]; simpl; [|naive_solver].
  pose proof (truthy_spec x) as Hx. destruct (truthy x); split; naive_solver.
Qed.
Lemma joined_rows {A B} (o : option A) (g : A → option B) a b :
  (x ← o; y ← g x; Some (x, y)) = Some (a, b) ↔ o = Some a ∧ g a = Some b.
Proof using Type.
  destruct o as [x|]; simpl; [|naive_solver]. destruct (g x) eqn:E; simpl; split; naive_solver.
Qed.

Ltac ok_step :=
  match goal with
  | H : _ ≫= _ = Ok _ |- _ => apply bind_ok in H as (? & ? & H)
  | H : must _ _ = Ok _ |- _ => apply must_ok in H
  | H : refuseIf (negb _) _ = Ok _ |- _ => apply refuseIf_ok in H
  | H : _ && _ = true |- _ => apply andb_true_iff in H as [? ?]
  | H : bool_decide _ = true |- _ => apply bool_decide_eq_true in H
  | H : match _ with [] => None | _ => _ end = Some _ |- _ => apply single_contact in H as [? ?]
  | H : (if truthy_opt _ then _ else None) = Some _ |- _ => apply nonempty_id in H as [? ?]
  | H : _ = Some (_, _) |- _ => apply joined_rows in H as [? ?]
  | H : mret _ = Ok _ |- _ => injection H as ->
  | H : isUnresolved _ = true |- _ => apply isUnresolved_true in H as [? ?]
  | p : FinalizationRow * EmailDraftRow |- _ => destruct p
  end.
Lemma checkReconcile_sound input db b : checkReconcile input db = Ok b → reconcilable input db b.
Proof.
  intros Hb. unfold checkReconcile, unresolvedAttempt in Hb. cbv zeta in Hb. repeat ok_step.
  injection Hb as <-. split; simpl; eauto 20.
  match goal with E : findAttempt _ _ = Some _ |- _ => apply findAttempt_Some in E as [Ha _] end.
  by apply only_attempt.
Qed.
Ltac accept :=
  repeat match goal with
  | |- must _ _ ≫= _ = Ok _ => apply bind_ok; eexists; split;
      [apply must_ok; first [eassumption|apply single_contact; eauto|apply nonempty_id; eauto
                            |apply joined_rows; eauto]|cbv beta iota]
  | |- refuseIf (negb _) _ ≫= _ = Ok _ => apply bind_ok; exists tt; split;
      [apply refuseIf_ok; rewrite ?andb_true_iff, ?bool_decide_eq_true; simpl; split_and?; congruence|cbv beta]
  end.
Lemma checkReconcile_complete input db b : reconcilable input db b → checkReconcile input db = Ok b.
Proof.
  destruct b as [a l s g r f e rcpt].
  intros [Ha Hu Ho [Hl Hs] (Hsc & Hst & Hsl) (Hg & ? & ? & ? & ? & Hp) (Hr & ? & ?)
    (contact & Hc & Hne & Hrc & ? & ? & ?) [? ?] (fid & Hf & Hfne & Hfin & Hem & ? & ? & ? & ?) [? ?] [? ?]].
  simpl in *. subst rcpt. unfold sr_status in Hst. apply isUnresolved_true in Hu.
  unfold checkReconcile, unresolvedAttempt. cbv zeta.
  apply bind_ok. exists a. split.
  { apply bind_ok. exists a. split; [by apply must_ok|]. apply bind_ok. exists tt. by rewrite Hu. }
  apply bind_ok. exists tt. split; [apply refuseIf_ok; apply bool_decide_eq_true; by rewrite Ho|].
  apply bind_ok. exists tt. split; [by rewrite Ho; simpl; rewrite (unresolved_unconfirmed a Hu)|].
  accept. reflexivity.
Qed.
Lemma checkReconcile_iff input db b : checkReconcile input db = Ok b ↔ reconcilable input db b.
Proof. split; [apply checkReconcile_sound|apply checkReconcile_complete]. Qed.

(** ** What a verdict changes *)

(** The next event of the pipeline gets an identifier that is not in use. *)
Definition freshEvent (w : world SystemDb) : Prop :=
  uuid (w_uuids w) ∉ map fst (pipelineEvents (pipelineDb (w_db w))).
(** [send_attempts_provider_message_uk] holds of the attempt. *)
Definition ownMessage (db : PipelineDb) (a : AttemptRow) : Prop := messageConflict db a = false.

Lemma twp_recordEvent e (Q : () → world PipelineDb → Prop) w :
  uuid (w_uuids w) ∉ map fst (pipelineEvents (w_db w)) →
  (∀ l, pe_leadId e = Some l → is_Some (leads (w_db w) !! l)) → pe_runId e = None →
  Q tt (World (setPipelineEvents (λ l, l ++ [(uuid (w_uuids w), e)]) (w_db w)) (w_ticks w) (S (w_uuids w))) →
  twp (recordEvent e) Q w.
Proof.
  intros Hid Hlead Hrun HQ. unfold recordEvent. rewrite twp_bind, twp_randomUUID. apply twp_guarded; [|done].
  unfold checkInsertPipelineEvent. apply refuse_None. rewrite Hrun. repeat constructor; simpl.
  - destruct (existsb _ _) eqn:E; [|done]. apply elem_of_existsb in E as ([i x] & Hx & E%bool_decide_eq_true).
    destruct Hid. simpl in E. rewrite <-E. apply list_elem_of_fmap. by exists (i, x).
  - destruct (pe_leadId e) as [l|]; [|done]. by rewrite bool_decide_eq_true_2 by auto.
Qed.

(** The lone attempt of a schedule conflicts with no other. *)
Lemma lone_attempt p a row db :
  attemptsOf (at_scheduleId a) db = [a] → at_id row = at_id a → at_scheduleId row = at_scheduleId a →
  attemptConflict p db row = false.
Proof using Type.
  intros Hone Hid Hs. unfold attemptConflict. apply andb_false_iff. right.
  destruct (existsb _ _) eqn:E; [|done]. apply elem_of_existsb in E as (x & Hx & E).
  rewrite !andb_true_iff, negb_true_iff, bool_decide_eq_true, bool_decide_eq_false in E. destruct E as [[Hne _] Hxs].
  assert (x ∈ attemptsOf (at_scheduleId a) db) as Hin.
  { apply list_elem_of_In, filter_In. split; [by apply list_elem_of_In|apply bool_decide_eq_true]. congruence. }
  rewrite Hone in Hin. apply list_elem_of_singleton in Hin as ->. congruence.
Qed.
Lemma verdict_admitted input a db :
  attemptsOf (at_scheduleId a) db = [a] → ownMessage db a →
  refuse (attemptIndexChecks db (reconcileRow input a)) = None.
Proof using Type.
  intros Hone Hmsg. apply refuse_None. unfold attemptIndexChecks. repeat constructor; simpl; try done.
  - by apply (lone_attempt _ a).
  - by apply (lone_attempt _ a).
Qed.
(** The tables after a verdict *)
Record verdictEffect (input : ReconcileInput) (b : Binding) (db db' : SystemDb) : Prop := {
  ve_attempts : attempts (pipelineDb db') =
    updateIn (ri_attemptId input) (reconcileRow input) (attempts (pipelineDb db));
  ve_leads : leads (pipelineDb db') =
    alter (setLeadStatus (verdictLead (ri_outcome input)) (ri_reconciledAt input))
      (sa_leadId (at_record (bd_attempt b))) (leads (pipelineDb db));
  ve_schedules : schedules (pipelineDb db') =
    match ri_outcome input with
    | CONFIRMED_SENT => map (λ r, if bool_decide (sr_id r = at_scheduleId (bd_attempt b))
                                  then fulfilRow (ri_reconciledAt input) r else r) (schedules (pipelineDb db))
    | CONFIRMED_NOT_SENT => schedules (pipelineDb db)
    end;
  ve_dispatched : dispatched (pipelineDb db') = dispatched (pipelineDb db);
  ve_rest : db' = put onPipeline (pipelineDb db') db;
}.
Lemma twp_reconcile input b w :
  reconcilable input (w_db w) b → ownMessage (pipelineDb (w_db w)) (bd_attempt b) → freshEvent w →
  twp (reconcile input) (λ r w', r = verdictStatus (ri_outcome input) ∧
    verdictEffect input b (w_db w) (w_db w')) w.
Proof.
  intros Hrec Hmsg Hfresh. pose proof (checkReconcile_complete _ _ _ Hrec) as Hck.
  destruct (rc_lead _ _ _ Hrec) as [Hl Hst].
  pose proof (verdict_admitted input _ _ (rc_only _ _ _ Hrec) Hmsg) as Hadm.
  unfold reconcile. twp_run. cbv [id]. rewrite Hck, twp_lift_ok, twp_zoom.
  destruct w as [[o [ru dr le ev sc at_ re su di] ? ? ? ? ? ? ?] t u]. simpl in *.
  unfold applyVerdict, writeVerdict. twp_run. apply twp_guarded; [exact Hadm|]. cbn [w_db w_ticks w_uuids].
  unfold markScheduleFulfilled, updateScheduleRow, leaveManualReview, getLead, updateLeadStatus.
  destruct (ri_outcome input) eqn:Eo; twp_run; simpl; rewrite Hl; simpl;
    rewrite (bool_decide_eq_true_2 (Some (ld_status _) = _)) by (by rewrite Hst); twp_run;
    (apply twp_recordEvent; simpl;
      [exact Hfresh|intros l [= <-]; rewrite lookup_alter, Hl, decide_True by done; eauto|done|]);
    (split; [done|]); split; simpl; by rewrite ?Eo.
Qed.
Lemma filter_both {A} (f g : A → bool) l :
  List.filter (λ a, f a && g a) l = List.filter g (List.filter f l).
Proof using Type.
  induction l as [|x l IH]; simpl; [done|]. destruct (f x); simpl; [|done]. destruct (g x); by rewrite ?IH.
Qed.
Lemma existsb_both {A} (f g : A → bool) l :
  existsb (λ a, f a && g a) l = existsb g (List.filter f l).
Proof using Type. induction l as [|x l IH]; simpl; [done|]. destruct (f x); simpl; by rewrite IH. Qed.

(** The schedule has this attempt only, which the gate and the repository then see. *)
Lemma only_hasConfirmed s db a :
  attemptsOf s db = [a] → hasConfirmedIn s db = isConfirmed a.
Proof using Type.
  intros Hone. unfold hasConfirmedIn. rewrite existsb_both. unfold attemptsOf in Hone. rewrite Hone. simpl.
  by rewrite orb_false_r.
Qed.
Lemma only_hasBlocking s db a :
  attemptsOf s db = [a] → at_status a = AT_OUTCOME_UNKNOWN →
  hasBlockingIn s db = negb (bool_decide (at_reconciledOutcome a = Some CONFIRMED_NOT_SENT)).
Proof using Type.
  intros Hone Hst. unfold hasBlockingIn. rewrite existsb_both. unfold attemptsOf in Hone. rewrite Hone.
  cbn [existsb]. rewrite Hst, orb_false_r. reflexivity.
Qed.
Lemma only_lastFailure s db a :
  attemptsOf s db = [a] → at_reconciledOutcome a = Some CONFIRMED_NOT_SENT → lastFailureIn s db = effectiveAt a.
Proof using Type.
  intros Hone Hout. unfold lastFailureIn. rewrite filter_both. unfold attemptsOf in Hone. rewrite Hone. simpl.
  rewrite Hout, orb_true_r. simpl. by destruct (effectiveAt a).
Qed.
Lemma attemptsOf_update s id f db db' :
  (∀ a, at_scheduleId (f a) = at_scheduleId a) → attempts db' = updateIn id f (attempts db) →
  attemptsOf s db' = updateIn id f (attemptsOf s db).
Proof using Type.
  intros Hf Ha. unfold attemptsOf. rewrite Ha. unfold updateIn. generalize (attempts db). intros l.
  induction l as [|a l IH]; simpl; [done|]. rewrite IH.
  assert (at_scheduleId (if bool_decide (at_id a = id) then f a else a) = at_scheduleId a) as ->
    by (case_bool_decide; auto).
  by destruct (bool_decide (at_scheduleId a = s)).
Qed.

(** What a verdict means for the next send *)
Definition verdictMeaning (input : ReconcileInput) (b : Binding) (db db' : SystemDb) : Prop :=
  let s := at_scheduleId (bd_attempt b) in
  let p := pipelineDb db in
  let p' := pipelineDb db' in
  match ri_outcome input with
  | CONFIRMED_SENT => hasConfirmedIn s p' = true ∧
      ∀ r, r ∈ schedules p' → sr_id r = s → sr_status r = SCH_FULFILLED
  | CONFIRMED_NOT_SENT => hasConfirmedIn s p' = false ∧ hasBlockingIn s p' = false ∧
      lastFailureIn s p' = Some (ri_reconciledAt input) ∧ schedules p' = schedules p
  end ∧
  leads p' = alter (setLeadStatus (verdictLead (ri_outcome input)) (ri_reconciledAt input))
    (sa_leadId (at_record (bd_attempt b))) (leads p) ∧
  (∀ a, a ∈ attempts p → at_id a ≠ ri_attemptId input → a ∈ attempts p') ∧
  dispatched p' = dispatched p ∧ db' = put onPipeline p' db.
Lemma verdict_meaning input b db db' :
  reconcilable input db b → verdictEffect input b db db' → verdictMeaning input b db db'.
Proof.
  intros Hrec [Ea El Es Ed Er]. destruct (rc_unresolved _ _ _ Hrec) as [Hst _].
  destruct (findAttempt_Some _ _ _ (rc_attempt _ _ _ Hrec)) as [_ Hid].
  assert (attemptsOf (at_scheduleId (bd_attempt b)) (pipelineDb db') = [reconcileRow input (bd_attempt b)]) as Hone.
  { rewrite (attemptsOf_update _ _ (reconcileRow input) (pipelineDb db)) by done.
    rewrite (rc_only _ _ _ Hrec). simpl. by rewrite bool_decide_eq_true_2. }
  split; [|split_and!; try done].
  - destruct (ri_outcome input) eqn:Eo.
    + split; [rewrite (only_hasConfirmed _ _ _ Hone); unfold isConfirmed; simpl; rewrite Eo; apply orb_true_r|].
      rewrite Es. intros r (r0 & -> & Hr)%list_elem_of_fmap. case_bool_decide as Ei; intros E; [|by destruct Ei].
      unfold sr_status. simpl. by destruct (sr_record r0).
    + assert (at_status (reconcileRow input (bd_attempt b)) = AT_OUTCOME_UNKNOWN) as Hst' by done.
      split_and!; [|rewrite (only_hasBlocking _ _ _ Hone Hst'); simpl; rewrite Eo; reflexivity
        |rewrite (only_lastFailure _ _ _ Hone); simpl; rewrite ?Eo; reflexivity|exact Es].
      rewrite (only_hasConfirmed _ _ _ Hone). unfold isConfirmed. rewrite Hst'. simpl. rewrite Eo. reflexivity.
  - intros a Ha Hne. rewrite Ea. apply list_elem_of_fmap. exists a. by rewrite bool_decide_eq_false_2.
Qed.

(** C6: The verdict of an operator on an uncertain send is accepted exactly when the attempt
    is the only one of its schedule, its outcome is unknown and undecided, and lead,
    schedule, draft, readiness, recipient and approved content are still those of the
    attempt; otherwise nothing is written.  "Sent" closes the schedule for good, "not
    sent" reopens exactly this one, with the verdict as the time of its last failure. *)
Theorem reconcile_decides input w :
  (∀ a, a ∈ attempts (pipelineDb (w_db w)) → ownMessage (pipelineDb (w_db w)) a) → freshEvent w →
  match reconcile input w with
  | (Ok r, w') => ∃ b, reconcilable input (w_db w) b ∧ r = verdictStatus (ri_outcome input) ∧
                       verdictMeaning input b (w_db w) (w_db w')
  | (Throw _, w') => w_db w' = w_db w ∧ ¬ ∃ b, reconcilable input (w_db w) b
  end.
Proof.
  intros Hmsg Hfresh. destruct (checkReconcile input (w_db w)) as [b|e] eqn:Hck.
  - apply checkReconcile_sound in Hck as Hrec.
    pose proof (findAttempt_Some _ _ _ (rc_attempt _ _ _ Hrec)) as [Hin _].
    pose proof (twp_reconcile input b w Hrec (Hmsg _ Hin) Hfresh) as Ht. unfold twp in Ht.
    destruct (reconcile input w) as [[r|] w']; [|done]. destruct Ht as [-> Heff].
    exists b. split_and!; [done|done|]. by apply verdict_meaning.
  - assert (reconcile input w = (Throw e, World (w_db w) (w_ticks w) (w_uuids w))) as ->.
    { unfold reconcile, transaction, mbind, M_bind, query. cbv [id]. by rewrite Hck. }
    split; [done|]. intros [b Hb%checkReconcile_complete]. congruence.
Qed.

(** ** All of it is safe *)

Lemma writeVerdict_safe input a w :
  findAttempt (ri_attemptId input) (w_db w) = Some a →
  wp (writeVerdict input a) (λ _ w', safe (w_db w) (w_db w')) w.
Proof.
  intros [Ha Hid]%findAttempt_Some. unfold writeVerdict. apply wp_guarded. intros Hc. simpl.
  apply safe_update; [done|]. intros Hinv x Hx Hxid.
  assert (x = a) as ->; [|done]. apply (same_id _ _ _ (si_ids _ Hinv)); congruence.
Qed.
#[local] Hint Resolve respects_schedule respects_updateLead respects_recordEvent respects_getLead : outreach.
Lemma afterVerdict_safe input a :
  respects safe ((match ri_outcome input with
   | CONFIRMED_SENT => markScheduleFulfilled (at_scheduleId a) (ri_reconciledAt input)
   | CONFIRMED_NOT_SENT => mret tt
   end) ;;
  leaveManualReview (sa_leadId (at_record a)) (verdictLead (ri_outcome input)) (ri_reconciledAt input) ;;
  recordEvent (attemptNote a (Some NEEDS_MANUAL_REVIEW) (Some (verdictLead (ri_outcome input)))
    "Uncertain send attempt manually reconciled"
    (JObj [("eventKind", JStr "SEND_ATTEMPT_RECONCILED"); ("attemptId", JStr (at_id a));
           ("originalAttemptStatus", JStr "OUTCOME_UNKNOWN");
           ("reconciliationOutcome", JStr (outcomeText (ri_outcome input)))])) ;;
  mret (verdictStatus (ri_outcome input))).
Proof. unfold leaveManualReview, markScheduleFulfilled. respects_tac. Qed.
Lemma reconcile_safe input : always (onPipelines safe) (reconcile input).
Proof.
  apply (always_transaction _). intros w. rewrite wp_bind, wp_query, wp_bind, wp_lift_res. cbv [id].
  intros b [Hf _]%checkReconcile_sound. rewrite wp_zoom. unfold applyVerdict. rewrite wp_bind.
  eapply wp_mono; [|apply (writeVerdict_safe input _ (World _ _ _)), Hf].
  intros [] w1 S1. eapply wp_mono; [|apply afterVerdict_safe]. intros r w2 S2. unfold onPipelines.
  simpl in *. by etrans.
Qed.

(** The requests of an operator, as the command line makes them; their answers are printed. *)
Inductive AdminRequest :=
  | AdminCreateReadiness (approvedBy : string) (expiresInMinutes : Z)
  | AdminRevokeReadiness (id revokedBy reason : string)
  | AdminStatus
  | AdminAttempts (leadId : option string)
  | AdminRecoverStarted (attemptId recoveredBy note observedPhrase : string)
  | AdminReconcile (attemptId : string) (outcome : ReconciliationSelection)
      (reconciledBy note observedPhrase : string).
Definition serveAdmin (gmailAccount : option string) (policyVersion : string) (r : AdminRequest) : SM () :=
  match r with
  | AdminCreateReadiness by_ n =>
      _ ← zoom onPipeline (adminCreateReadiness gmailAccount policyVersion by_ n); mret tt
  | AdminRevokeReadiness id by_ reason => _ ← zoom onPipeline (adminRevokeReadiness id by_ reason); mret tt
  | AdminStatus => _ ← zoom onPipeline (adminStatus gmailAccount policyVersion); mret tt
  | AdminAttempts l => _ ← zoom onPipeline (adminAttempts l); mret tt
  | AdminRecoverStarted id by_ note phrase =>
      _ ← zoom onPipeline (adminRecoverStarted id by_ note phrase); mret tt
  | AdminReconcile id outcome by_ note phrase =>
      _ ← adminReconcile gmailAccount policyVersion id outcome by_ note phrase; mret tt
  end.

Lemma zoom_safe {A} (m : PM A) : always safe m → always (onPipelines safe) (zoom onPipeline m).
Proof using Type. apply always_zoom. by intros. Qed.
#[local] Hint Resolve createReadiness_safe revokeReadiness_safe recoverStarted_safe recordUnresolved_safe
  reconcile_safe zoom_safe : outreach.
Lemma admin_safe account policy r : always (onPipelines safe) (serveAdmin account policy r).
Proof.
  destruct r; simpl; (apply (always_bind _); [|intros; always_tac]).
  1-5: apply zoom_safe; unfold adminCreateReadiness, adminRevokeReadiness, adminStatus, latestReadiness,
    adminAttempts, listAttempts, adminRecoverStarted; always_tac.
  unfold adminReconcile. always_tac.
Qed.
End safety.

(** ** Witness *)

#[local] Existing Instance demo_runtime.
#[local] Existing Instance demo_orm.

(** The draft is sent, and Gmail does not answer. *)
Definition silentProvider : SendProvider :=
  {| verifyAccount := @verifyAccount demo_provider; getKnownDraft := @getKnownDraft demo_provider;
     sendExistingDraft _ _ := Ok {| res_outcome := prov_unknown; res_ref := None; res_reason := None |} |}.
Definition demoUncertain : world SystemDb :=
  (zoom onPipeline (@send _ _ silentProvider demoConfig INTERACTIVE quietly demoSendInput "run")
     (demoWorld demoSystem)).2.
Definition demoVerdict (outcome : ReconciliationOutcome) : ReconcileInput :=
  {| ri_attemptId := "uuid-0"; ri_outcome := outcome; ri_reconciledBy := "op"; ri_note := "not in Sent";
     ri_reconciledAt := demoSlot + 3600000; ri_gmailAccount := "me@agency.de"; ri_policyVersion := "v1" |}.
Example demo_verdicts :
  map (λ o, match reconcile (demoVerdict o) demoUncertain with
            | (Ok _, w') => ld_status <$> leads (pipelineDb (w_db w')) !! "l1"
            | (Throw _, _) => None
            end) [CONFIRMED_SENT; CONFIRMED_NOT_SENT] = [Some SENT; Some SCHEDULED].
Proof. vm_compute. reflexivity. Qed.
Lemma reconcile_decides_witness :
  ∃ b, reconcilable (demoVerdict CONFIRMED_NOT_SENT) (w_db demoUncertain) b ∧
       verdictMeaning (demoVerdict CONFIRMED_NOT_SENT) b (w_db demoUncertain)
         (w_db (reconcile (demoVerdict CONFIRMED_NOT_SENT) demoUncertain).2).
Proof.
  assert (is_ok (reconcile (demoVerdict CONFIRMED_NOT_SENT) demoUncertain).1 = true) as Hok by (vm_compute; reflexivity).
  pose proof (reconcile_decides (demoVerdict CONFIRMED_NOT_SENT) demoUncertain) as Hd.
  destruct (reconcile (demoVerdict CONFIRMED_NOT_SENT) demoUncertain) as [[r|e] w']; [|discriminate Hok].
  destruct Hd as (b & Hb & _ & Hm); [| |exists b; exact (conj Hb Hm)].
  - intros a Ha. assert (forallb (λ a, negb (messageConflict (pipelineDb (w_db demoUncertain)) a))
      (attempts (pipelineDb (w_db demoUncertain))) = true) as Hall by (vm_compute; reflexivity).
    apply negb_true_iff. exact (proj1 (elem_of_forallb _ _) Hall a Ha).
  - apply (bool_decide_unpack _). vm_compute. exact I.
Defined.
