(* ===== verification/ScheduledSafety.v ===== *)
(** * The safety of the unattended run

    What the command of ScheduledCommand guarantees, whatever other processes do in
    the meantime and wherever one of them crashes. *)
From S2P Require Import Prelude.
From S2P Require Import JsText.
From S2P Require Import TimeZone.
From S2P Require Import Scheduler.
From S2P Require Import OutreachStatus.
From S2P Require Import OutreachGates.
From S2P Require Import OutreachStore.
From S2P Require Import OutreachService.
From S2P Require Import OutreachWrites.
From S2P Require Import LeadLifecycle.
From S2P Require Import PipelineDb.
From S2P Require Import SendGate.
From S2P Require Import SendService.
From S2P Require Import SendSafety.
From S2P Require Import SendSpecs.
From S2P Require Import SystemDb.
From S2P Require Import EnrollBridge.
From S2P Require Import ScheduledRun.
From S2P Require Import ScheduledCommand.
From S2P Require Import SendAdmin.
From S2P Require Import SendAdminSpecs.
Open Scope Z_scope.
Open Scope list_scope.

(** ** Relations on the sending tables *)

Definition inSession (R : relation SystemDb) : relation Session := λ s s', R (sessionDb s) (sessionDb s').
#[global] Instance inSession_preorder R `{!PreOrder R} : PreOrder (inSession R).
Proof. split; [intros s; red; reflexivity|]. intros s1 s2 s3 H1 H2. red in H1, H2 |- *. by etrans. Qed.

(** The sending tables stay as they are. *)
Definition samePipeline : relation SystemDb := onPipelines eq.

(** Only the outreach tables and the campaigns change. *)
Definition sameOutside : relation SystemDb := λ db db',
  db' = setCampaigns (λ _, campaigns db') (put onOutreach (outreachDb db') db).
#[global] Instance sameOutside_preorder : PreOrder sameOutside.
Proof.
  split; [by intros []|]. intros [] [] [] H1 H2. unfold sameOutside, setCampaigns in *. simpl in *. congruence.
Qed.
Lemma sameOutside_pipeline db db' : sameOutside db db' → samePipeline db db'.
Proof. intros ->. by unfold samePipeline, onPipelines. Qed.

Section frame.
Context `{Runtime, TzDatabase}.

Lemma always_outreach {A} (m : M OutreachDb A) : always sameOutside (zoom onOutreach m).
Proof. intros w. by rewrite zoom_run. Qed.
Lemma insertCampaign_frame name policy tz : always sameOutside (insertCampaign name policy tz).
Proof.
  unfold insertCampaign. cbv zeta. do 2 (apply (always_bind sameOutside); [always_tac|intros]).
  apply (always_bind sameOutside); [|intros; always_tac]. by apply (always_guarded sameOutside).
Qed.
(** The bridge writes to the outreach tables and the campaigns only. *)
Lemma enroll_outside policy lead attempt name by_ :
  always sameOutside (enrollConfirmedSendFromAttempt policy lead attempt name by_).
Proof.
  pose proof insertCampaign_frame. pose proof @always_outreach.
  unfold enrollConfirmedSendFromAttempt, enrollTracked. cbv zeta. always_tac.
Qed.
Lemma enroll_frame policy lead attempt name by_ :
  always samePipeline (enrollConfirmedSendFromAttempt policy lead attempt name by_).
Proof. intros w. apply sameOutside_pipeline, enroll_outside. Qed.

Context (R : relation PipelineDb) `{!PreOrder R}.
Lemma frame_any {A} (m : SM A) : always samePipeline m → always (onPipelines R) m.
Proof using Type*. intros Hm w. unfold onPipelines. by rewrite <-(Hm w). Qed.
Lemma always_in_session {A} (R' : relation SystemDb) (m : SM A) :
  always R' m → always (inSession R') (zoom onDb m).
Proof using Type. apply always_zoom. by intros. Qed.
Lemma always_sending {A} (m : PM A) : always R m → always (inSession (onPipelines R)) (onSending m).
Proof using Type. intros Hm. apply always_in_session. eapply always_zoom, Hm. by intros. Qed.
End frame.

(** ** The command moves the sending tables only by sends, runs and readiness *)

Section command.
Context `{Runtime, TzDatabase, OrmErrors, SendProvider} (c : AppConfig).
Context (buildSendProvider : res ()) (interfere : nat → PM ()).

Lemma refusal_reads input elig : always eq (refusal input elig false).
Proof. unfold refusal. cbv zeta. always_tac. Qed.
Lemma state_reads svc source input required : always eq (state svc source input required false).
Proof.
  pose proof refusal_reads.
  unfold state, readiness, activeSuppressions, lastDefinitiveFailureAt, hasConfirmedAttempt,
    hasBlockingAttempt, confirmedSendsToday. cbv zeta. always_tac.
Qed.
(** A preflight only reads. *)
Lemma preflight_reads svc source input : always eq (preflight svc source input).
Proof.
  pose proof (state_reads svc source). unfold preflight, verifyProvider. cbv zeta. always_tac.
Qed.

Context (R : relation PipelineDb) `{!PreOrder R}.
Context (R_run : ∀ id db, R db (addRunKey id db)) (R_readiness : ∀ f db, R db (setReadiness f db)).

Lemma startRun_respects kind dryRun : always (onPipelines R) (startRun kind dryRun).
Proof using Type*.
  unfold startRun. do 2 (apply (always_bind _); [always_tac|intros]).
  apply (always_bind _); [|intros; always_tac]. apply (always_guarded _). intros db _. apply R_run.
Qed.
Lemma mint_respects account version auth t1 t2 :
  always (onPipelines R) (mintSessionReadiness account version auth t1 t2).
Proof using Type*.
  unfold mintSessionReadiness, supersedeReadiness, insertReadiness.
  apply (always_transaction _).
  assert (∀ f, respects (onPipelines R) (zoom onPipeline (modify (setReadiness f)))) as Hmod.
  { intros f. eapply (respects_zoom _ R); [by intros|]. by apply (respects_modify R). }
  assert (∀ f g, respects (onPipelines R) (zoom onPipeline (guarded f (setReadiness g)))) as Hins.
  { intros f g. eapply (respects_zoom _ R); [by intros|]. by apply (respects_guarded R). }
  respects_tac.
Qed.
Lemma getRunId_respects : always (inSession (onPipelines R)) (getRunId c).
Proof using Type*.
  unfold getRunId. apply (always_bind _); [always_tac|]. intros [id|]; [always_tac|].
  apply (always_bind _); [apply always_in_session, startRun_respects|]. intros id.
  apply (always_bind _); [|intros; always_tac]. apply (always_modify _). intros s. do 2 red. reflexivity.
Qed.

Context (send_R : ∀ input runId,
  always R (send (buildSendConfig c) SCHEDULED_SOURCE interfere input runId)).
Lemma reads_respects {A} (m : PM A) : always eq m → always R m.
Proof using Type*. intros Hm w. by rewrite <-(Hm w). Qed.
Lemma sendOne_respects lead auth :
  always (inSession (onPipelines R)) (sendOne c buildSendProvider interfere lead auth).
Proof using Type*.
  unfold sendOne. apply (always_bind _).
  { apply always_sending, reads_respects. unfold getLead. always_tac. }
  intros l. apply (always_bind _); [always_tac|]. intros data.
  destruct l as [l|]; [|always_tac]. destruct (sid_schedule data); [|always_tac].
  apply (always_bind _); [always_tac|]. intros seqCtx.
  destruct (suppressedFollowup seqCtx); [always_tac|].
  apply (always_bind _); [always_tac|]. intros _.
  apply (always_bind _); [apply always_sending, reads_respects, preflight_reads|]. intros pre.
  destruct (out_outcome pre); try solve [always_tac]. destruct (out_preflightProof pre); [|always_tac].
  apply (always_bind _); [always_tac|]. intros t.
  apply (always_bind _); [apply getRunId_respects|]. intros runId.
  apply (always_bind _); [by apply always_sending|]. intros result. always_tac.
Qed.
Lemma enroll_respects lead attempt : always (inSession (onPipelines R)) (enroll c lead attempt).
Proof using Type*.
  unfold enroll. apply (always_bind _); [|intros; always_tac].
  apply always_in_session, (frame_any _), enroll_frame.
Qed.
Lemma command_respects :
  always (inSession (onPipelines R)) (runScheduledSendsCommand c buildSendProvider interfere).
Proof using Type*.
  unfold runScheduledSendsCommand. apply (always_bind _).
  - apply (always_run _ _); simpl; try solve [intros; always_tac]; auto using sendOne_respects, enroll_respects.
    + intros n. apply always_sending, reads_respects. unfold confirmedSendsToday. always_tac.
    + intros a n. apply (always_bind _); [apply always_in_session, mint_respects|intros; always_tac].
  - intros report. apply (always_bind _); [always_tac|]. intros runId.
    apply (always_bind _); [|intros; always_tac].
    destruct runId; [|always_tac]. apply always_in_session, (frame_any _).
    unfold finishRun. apply (always_bind samePipeline); [always_tac|]. intros t.
    by apply (always_modify samePipeline).
Qed.
End command.

(** ** Everything that may run at the same time *)

Section system.
Context `{Runtime, TzDatabase, OrmErrors, SendProvider}.

(** One invocation of the command, with the sends of other processes in between its
    steps; a command line or dashboard send; a request of an operator to the admin
    service; any other step that keeps its hands off
    the attempts of others; crashes; and all of these one after the other. *)
Inductive SystemProcess : SM () → Prop :=
  | system_run c buildSendProvider interfere :
      (∀ k, SendProcess (interfere k)) →
      SystemProcess (_ ← scheduledSendsInvocation c buildSendProvider interfere; mret tt)
  | system_send p : SendProcess p → SystemProcess (zoom onPipeline p)
  | system_admin account policy r : SystemProcess (serveAdmin account policy r)
  | system_then p q : SystemProcess p → SystemProcess q → SystemProcess (p ;; q)
  | system_crash e : SystemProcess (throw e)
  | system_other m : always (onPipelines safe) m → SystemProcess m.

Lemma invocation_safe c buildSendProvider interfere :
  (∀ k, SendProcess (interfere k)) →
  always (onPipelines safeStep) (scheduledSendsInvocation c buildSendProvider interfere).
Proof.
  intros Hin w. pose proof (command_respects c buildSendProvider interfere safeStep) as Hc.
  unfold scheduledSendsInvocation. set (w0 := World _ _ _).
  assert (inSession (onPipelines safeStep) (w_db w0)
            (w_db (runScheduledSendsCommand c buildSendProvider interfere w0).2)) as Hrun.
  { apply Hc.
    - intros id db _. destruct db. by apply safe_frame.
    - intros f db _. destruct db. by apply safe_frame.
    - intros input runId w1 Hinv. apply send_safe; [|exact Hinv]. intros k. by apply process_safe. }
  destruct (runScheduledSendsCommand _ _ _ w0) as [r w']. exact Hrun.
Qed.
Lemma system_safe p : SystemProcess p → always (onPipelines safeStep) p.
Proof.
  induction 1 as [c b interfere Hin|p Hp|account policy r|p q _ IHp _ IHq|e|m Hm].
  - apply (always_bind _); [by apply invocation_safe|intros; apply (always_ret _)].
  - eapply always_zoom; [|by apply process_safe]. by intros.
  - intros w _. apply admin_safe.
  - by apply (always_bind _).
  - apply (always_throw _).
  - intros w _. apply Hm.
Qed.

End system.

(** ** Witness *)

#[local] Existing Instance demo_runtime.
#[local] Existing Instance demo_tz.
#[local] Existing Instance demo_orm.
#[local] Existing Instance demo_provider.

(** A manual send gets in between the checks of the run; then the run is repeated. *)
Definition demoDay : SM () :=
  (_ ← scheduledSendsInvocation (demoAppConfig "me@agency.de" true) (Ok tt) racing; mret tt) ;;
  (_ ← demoInvocation "me@agency.de" true; mret tt).
