(* ===== verification/GmailDraftSpecs.v ===== *)
(** * What the creation of drafts guarantees

    Whatever processes create drafts at the same time and wherever they crash, Gmail is asked
    at most once to create a draft of one email for one recipient, with the approved text and
    nothing else; and what happens to an email whose draft could not be created. *)
From S2P Require Import Prelude.
From S2P Require Import JsText.
From S2P Require Import JsonText.
From S2P Require Import OutreachStore.
From S2P Require Import LeadLifecycle.
From S2P Require Import PipelineDb.
From S2P Require Import SendGate.
From S2P Require Import Mime.
From S2P Require Import MimeSpecs.
From S2P Require Import SendService.
From S2P Require Import GmailHttp.
From S2P Require Import SystemDb.
From S2P Require Import GmailDrafts.
From S2P Require Import ScheduledRun.
From S2P Require Import ScheduledCommand.
From S2P Require Import SendSafety.
Open Scope Z_scope.
Open Scope list_scope.

(** ** The rows of a draft table, and what steps do to them *)

(** What a reservation fixes for good *)
Record sameReservation (g g' : GmailDraftRow) : Prop := {
  same_account : gw_gmailAccount g' = gw_gmailAccount g;
  same_fingerprint : gw_idempotencyFingerprint g' = gw_idempotencyFingerprint g;
  same_email : gw_finalizedEmailId g' = gw_finalizedEmailId g;
  same_recipient : gw_recipientEmail g' = gw_recipientEmail g;
  same_key : gw_id g' = gw_id g;
}.
#[global] Instance sameReservation_equivalence : Equivalence sameReservation.
Proof.
  split; [done|intros ?? []|intros ??? [] []]; split; congruence.
Qed.

(** The table as the unique index keeps it: one row for an account and a fingerprint, which
    determines the email and its recipient. *)
Record draftTable `{Runtime} (db : SystemDb) : Prop := {
  dt_key : ∀ id g, gmailDrafts db !! id = Some g → gw_id g = id;
  dt_unique : ∀ id id' g g', gmailDrafts db !! id = Some g → gmailDrafts db !! id' = Some g' →
    gw_gmailAccount g = gw_gmailAccount g' → gw_idempotencyFingerprint g = gw_idempotencyFingerprint g' → id = id';
  dt_fingerprint : ∀ id g f, gmailDrafts db !! id = Some g → gw_finalizedEmailId g = Some f →
    gw_idempotencyFingerprint g = sha256Hex (gw_gmailAccount g +:+ "|" +:+ f +:+ "|" +:+ gw_recipientEmail g);
}.

(** What processes do: they keep the reservations and the uniqueness, and every call of the
    provider that they add is for a row of its own, which they have added as well. *)
Record creates `{Runtime} (db db' : SystemDb) : Prop := {
  cr_kept : ∀ id g, gmailDrafts db !! id = Some g → ∃ g', gmailDrafts db' !! id = Some g' ∧ sameReservation g g';
  cr_table : draftTable db → draftTable db';
  cr_calls : ∃ new, draftCalls db' = draftCalls db ++ new ∧ NoDup (dc_runId <$> new) ∧
    ∀ c, c ∈ new → gmailDrafts db !! dc_runId c = None ∧ is_Some (gmailDrafts db' !! dc_runId c);
}.
Definition sameDrafts (db db' : SystemDb) : Prop :=
  gmailDrafts db' = gmailDrafts db ∧ draftCalls db' = draftCalls db.
#[global] Instance sameDrafts_preorder : PreOrder sameDrafts.
Proof. split; [done|]. intros ??? [] []. split; congruence. Qed.

Section steps.
Context `{Runtime}.

Lemma draftTable_ext db db' : gmailDrafts db' = gmailDrafts db → draftTable db → draftTable db'.
Proof. intros E [H1 H2 H3]. split; rewrite E; auto. Qed.
Lemma sameDrafts_creates db db' : sameDrafts db db' → creates db db'.
Proof.
  intros [Hg Hc]. split.
  - intros id g Hid. exists g. by rewrite Hg.
  - by apply draftTable_ext.
  - exists []. rewrite app_nil_r. split_and!; [done|constructor|]. intros c Hc'. by apply elem_of_nil in Hc'.
Qed.
Lemma kept_some db db' id : creates db db' → is_Some (gmailDrafts db !! id) → is_Some (gmailDrafts db' !! id).
Proof. intros Hc [g Hg]. destruct (cr_kept _ _ Hc _ _ Hg) as (g' & -> & _). eauto. Qed.
#[global] Instance creates_preorder : PreOrder creates.
Proof.
  split; [intros db; by apply sameDrafts_creates|]. intros db1 db2 db3 H1 H2. split.
  - intros id g Hg. destruct (cr_kept _ _ H1 _ _ Hg) as (g2 & Hg2 & E1).
    destruct (cr_kept _ _ H2 _ _ Hg2) as (g3 & Hg3 & E2). exists g3. split; [done|]. by etrans.
  - intros Ht. by apply (cr_table _ _ H2), (cr_table _ _ H1).
  - destruct (cr_calls _ _ H1) as (n1 & E1 & Hnd1 & Hn1), (cr_calls _ _ H2) as (n2 & E2 & Hnd2 & Hn2).
    exists (n1 ++ n2). rewrite E2, E1, app_assoc, fmap_app. split; [done|]. split.
    + apply NoDup_app. split_and!; [done| |done]. intros id (c1 & -> & Hc1)%list_elem_of_fmap (c2 & E & Hc2)%list_elem_of_fmap.
      destruct (Hn1 _ Hc1) as [_ [g Hs]], (Hn2 _ Hc2) as [Hnone _]. congruence.
    + intros c [Hc|Hc]%elem_of_app.
      * destruct (Hn1 _ Hc). split; [done|]. eapply kept_some; eauto.
      * destruct (Hn2 _ Hc) as [Hnone ?]. split; [|done]. destruct (gmailDrafts db1 !! dc_runId c) eqn:E; [|done].
        destruct (kept_some _ _ (dc_runId c) H1) as [? ?]; [eauto|congruence].
Qed.

Lemma elem_of_draftRows g db : g ∈ draftRows db ↔ ∃ id, gmailDrafts db !! id = Some g.
Proof.
  unfold draftRows. rewrite list_elem_of_fmap. split.
  - intros ([id g'] & -> & Hin%elem_of_map_to_list). by exists id.
  - intros (id & Hg). exists (id, g). split; [done|]. by apply elem_of_map_to_list.
Qed.

(** A new row, which the checks of the database have passed *)
Lemma insert_creates g db :
  checkInsertDraft g db = None →
  (∀ f, gw_finalizedEmailId g = Some f →
     gw_idempotencyFingerprint g = sha256Hex (gw_gmailAccount g +:+ "|" +:+ f +:+ "|" +:+ gw_recipientEmail g)) →
  creates db (insertDraftRow g db) ∧ gmailDrafts db !! gw_id g = None.
Proof.
  intros Hc Hfp. unfold checkInsertDraft in Hc. apply refuse_None in Hc. rewrite !Forall_cons in Hc.
  destruct Hc as (Hfresh & Hconflict & _). simpl in Hfresh, Hconflict.
  apply bool_decide_eq_false, eq_None_not_Some in Hfresh. split; [|done]. split.
  - intros id g' Hg. exists g'. simpl. rewrite lookup_insert_ne; [done|]. intros <-. congruence.
  - assert (∀ id g', gmailDrafts db !! id = Some g' → gw_gmailAccount g' = gw_gmailAccount g →
      gw_idempotencyFingerprint g' = gw_idempotencyFingerprint g → False) as Hno.
    { intros id g' Hg Ha Hf. unfold fingerprintConflict in Hconflict.
      apply not_true_iff_false in Hconflict. apply Hconflict, existsb_exists. exists g'.
      split; [apply list_elem_of_In, elem_of_draftRows; eauto|]. unfold hasFingerprint.
      by rewrite Ha, Hf, !String.eqb_refl. }
    intros [H1 H2 H3]. split; simpl.
    + intros id g'. rewrite lookup_insert_Some. intros [[<- <-]|[_ Hg]]; eauto.
    + intros id id' g1 g2. rewrite !lookup_insert_Some.
      intros [[<- <-]|[Hn1 Hg1]] [[<- <-]|[Hn2 Hg2]] Ha Hf; eauto; exfalso; by eapply Hno.
    + intros id g' f. rewrite lookup_insert_Some. intros [[<- <-]|[_ Hg]]; eauto.
  - exists []. rewrite app_nil_r. split_and!; [done|constructor|]. intros c Hin. by apply elem_of_nil in Hin.
Qed.
(** A completion leaves the reservations as they are. *)
Lemma complete_creates patch id db : creates db (setGmailDrafts (alter (completedRow patch) id) db).
Proof.
  assert (∀ i g', alter (completedRow patch) id (gmailDrafts db) !! i = Some g' →
    ∃ g, gmailDrafts db !! i = Some g ∧ sameReservation g g') as Hback.
  { intros i g' Hg. destruct (decide (i = id)) as [->|Hne].
    - rewrite lookup_alter_eq in Hg. apply fmap_Some in Hg as (g & Hg & ->). by exists g.
    - rewrite lookup_alter_ne in Hg by done. by exists g'. }
  split; simpl.
  - intros i g Hg. destruct (decide (i = id)) as [->|Hne].
    + exists (completedRow patch g). by rewrite lookup_alter_eq, Hg.
    + exists g. by rewrite lookup_alter_ne.
  - intros [H1 H2 H3]. split; simpl.
    + intros i g' (g & Hg & [])%Hback. rewrite same_key0. eauto.
    + intros i i' g1' g2' (g1 & Hg1 & [])%Hback (g2 & Hg2 & [])%Hback Ha Hf. eapply H2; eauto; congruence.
    + intros i g' f (g & Hg & [])%Hback Hf. rewrite same_fingerprint0, same_account0, same_recipient0.
      eapply H3; eauto. congruence.
  - exists []. rewrite app_nil_r. split_and!; [done|constructor|]. intros c Hin. by apply elem_of_nil in Hin.
Qed.
(** The call of the provider, for a row that was not there before *)
Lemma call_creates call db db1 :
  creates db db1 → gmailDrafts db !! dc_runId call = None →
  (∃ dbr, creates db dbr ∧ is_Some (gmailDrafts dbr !! dc_runId call) ∧ draftCalls dbr = draftCalls db ∧ creates dbr db1) →
  creates db (logDraftCall call db1).
Proof.
  intros Hc Hnone (dbr & _ & Hrow & Hsame & Hr). split; simpl.
  - apply Hc.
  - intros Ht. by apply (draftTable_ext db1), (cr_table _ _ Hc).
  - destruct (cr_calls _ _ Hr) as (new & E & Hnd & Hnew). exists (new ++ [call]).
    rewrite E, Hsame, app_assoc, fmap_app. split; [done|]. split.
    + apply NoDup_app. split_and!; [done| |by apply NoDup_singleton].
      intros id (c & -> & Hcin)%list_elem_of_fmap Hin%list_elem_of_singleton. destruct (Hnew _ Hcin) as [Hno _].
      destruct Hrow as [g Hrow]. congruence.
    + destruct (cr_calls _ _ Hc) as (new' & E' & _ & Hnew').
      assert (new' = new) as -> by (rewrite E, Hsame in E'; by apply app_inv_head in E').
      intros c [Hin| ->%list_elem_of_singleton]%elem_of_app; [by apply Hnew'|]. split; [done|].
      by eapply kept_some.
Qed.
End steps.

(** ** Every process keeps to these steps *)

Section processes.
Context `{Runtime, GmailDraftProvider}.

Lemma outside_same {A} (m : SM A) : always sameDrafts m → always creates m.
Proof. intros Hm w. apply sameDrafts_creates, Hm. Qed.
Lemma zoom_pipeline_same {A} (m : PM A) : always sameDrafts (zoom onPipeline m).
Proof. intros w. by rewrite zoom_run. Qed.
Lemma zoom_outreach_same {A} (m : M OutreachDb A) : always sameDrafts (zoom onOutreach m).
Proof. intros w. by rewrite zoom_run. Qed.
Lemma respects_pipeline {A} (m : PM A) : respects creates (zoom onPipeline m).
Proof.
  intros w. pose proof (zoom_pipeline_same m w) as Hs. unfold wp. destruct (zoom onPipeline m w) as [[]?]; [|done].
  by apply sameDrafts_creates.
Qed.
Lemma completeRun_respects id patch : respects creates (completeRun id patch).
Proof.
  unfold completeRun. destruct (negb _); [apply (respects_ret creates)|].
  apply (respects_guarded creates). intros db _. apply complete_creates.
Qed.
Hint Resolve respects_pipeline completeRun_respects : outreach.
Lemma terminal_creates input runId outcome route errorClass reserved :
  always creates (terminal input runId outcome route errorClass reserved).
Proof. unfold terminal. always_tac. Qed.
Lemma finishDraft_creates input runId id ref : always creates (finishDraft input runId id ref).
Proof. unfold finishDraft. always_tac. Qed.
Hint Resolve terminal_creates finishDraft_creates : outreach.

Context (c : GmailConfig) (interfere : nat → SM ()).
Hypothesis others : ∀ k, always creates (interfere k).

(** The reservation, what others do, and the call that follows *)
Lemma reserved_creates input runId g message :
  (∀ f, gw_finalizedEmailId g = Some f →
     gw_idempotencyFingerprint g = sha256Hex (gw_gmailAccount g +:+ "|" +:+ f +:+ "|" +:+ gw_recipientEmail g)) →
  always creates (reserveRun g ;; interfere 3%nat ;; createReserved c interfere input runId (gw_id g) message).
Proof using others.
  intros Hfp w. unfold reserveRun at 1. unfold mbind at 1, M_bind at 1. unfold guarded.
  destruct (checkInsertDraft g (w_db w)) eqn:Hcheck; [reflexivity|].
  destruct (insert_creates _ _ Hcheck Hfp) as [Hins Hnone]. unfold modify at 1. cbv iota.
  set (w1 := World _ _ _). assert (creates (w_db w1) (w_db (interfere 3%nat w1).2)) as Ho by apply others.
  unfold mbind at 1, M_bind at 1. destruct (interfere 3%nat w1) as [[[]|e] w2]; simpl in Ho |- *; [|by etrans].
  unfold createReserved. unfold mbind at 1, M_bind at 1. unfold modify at 1.
  set (w3 := World _ _ _). transitivity (w_db w3).
  - eapply call_creates; [by etrans|exact Hnone|]. exists (insertDraftRow g (w_db w)).
    split_and!; [done| |done|done]. simpl. rewrite lookup_insert_eq. eauto.
  - match goal with |- creates _ (w_db (?m w3).2) => cut (always creates m); [intros Hm; apply Hm|] end.
    always_tac.
Qed.
Lemma reserveAndCreate_creates input runId f recipient nowD message :
  gi_finalization input = Some f → gi_recipientEmail input = Some recipient → truthy recipient = true →
  always creates (reserveAndCreate c interfere input runId f recipient nowD message).
Proof using others.
  intros Hf Hr Ht. unfold reserveAndCreate. apply (always_bind creates); [always_tac|]. intros [r|]; [always_tac|].
  do 2 (apply (always_bind creates); [always_tac|intros]). case_match; [always_tac|].
  apply (always_bind creates); [always_tac|intros]. case_match; [always_tac|].
  do 2 (apply (always_bind creates); [always_tac|intros]).
  match goal with |- always _ (reserveRun ?g ≫= _) => apply (reserved_creates input runId g message) end.
  intros f' [= <-]. simpl. unfold draftFingerprint. rewrite Hf, Hr. simpl. by rewrite Ht.
Qed.
Lemma eligible_recipient s r :
  gel_eligible (checkGmailEligibility s) = true → ge_recipientEmail s = Some r → truthy r = true.
Proof.
  unfold checkGmailEligibility. destruct (ge_existingDraftForFingerprint s); [done|]. simpl.
  rewrite length_eqb_0, !app_nil_iff. intros (_ & _ & _ & _ & _ & Hr) E. unfold draftRecipientReasons in Hr.
  rewrite E in Hr. simpl in Hr. by destruct (truthy r).
Qed.
Lemma createDraft_creates input runId : always creates (createDraft c interfere input runId).
Proof using others.
  unfold createDraft. cbv zeta. do 2 (apply (always_bind creates); [always_tac|intros]).
  destruct (gel_duplicateReusable _); [always_tac|]. destruct (gel_eligible _) eqn:He; cbn [negb]; [|always_tac].
  destruct (truthy_opt _); cbn [negb]; [|always_tac].
  destruct (gi_finalization input) as [f|] eqn:Hf; [|always_tac].
  destruct (gi_recipientEmail input) as [r|] eqn:Hr; [|always_tac].
  destruct (hasUnresolvedTokens _); [always_tac|]. do 2 (apply (always_bind creates); [always_tac|intros]).
  destruct (_ && _); [always_tac|]. destruct (_ || _); [always_tac|].
  apply reserveAndCreate_creates; [done..|]. by apply (eligible_recipient _ _ He).
Qed.
Lemma command_creates maxDrafts dryRun limit :
  always creates (createGmailDraftsCommand c maxDrafts dryRun interfere limit).
Proof using others.
  pose proof createDraft_creates. unfold createGmailDraftsCommand, startRun, finishRun. destruct (_ || _); [always_tac|].
  apply (always_bind creates); [always_tac|intros]. apply (always_bind creates); [|intros; apply (always_bind creates)].
  - apply (always_bind creates); [always_tac|intros]. apply (always_bind creates); [always_tac|intros].
    apply (always_bind creates); [|intros; always_tac]. apply (always_guarded creates). intros db _.
    by apply sameDrafts_creates.
  - always_tac.
  - intros. apply (always_bind creates); [|intros; always_tac]. apply (always_bind creates); [always_tac|intros].
    apply (always_modify creates). intros db. by apply sameDrafts_creates.
Qed.
End processes.

(** ** At most one draft of an email *)

(** Every call of the provider was for a row of its own. *)
Record draftLog (db : SystemDb) : Prop := {
  dl_once : NoDup (dc_runId <$> draftCalls db);
  dl_row : ∀ call, call ∈ draftCalls db → is_Some (gmailDrafts db !! dc_runId call);
}.
Lemma creates_log `{Runtime} db db' : creates db db' → draftLog db → draftLog db'.
Proof.
  intros Hc [Hnd Hrow]. destruct (cr_calls _ _ Hc) as (new & E & Hnew & Hrows). split; rewrite E.
  - rewrite fmap_app. apply NoDup_app. split_and!; [done| |done].
    intros id (c & -> & Hin)%list_elem_of_fmap (c' & E' & Hin')%list_elem_of_fmap.
    destruct (Hrow _ Hin) as [g Hg], (Hrows _ Hin') as [Hnone _]. congruence.
  - intros c [Hin|Hin]%elem_of_app; [|by apply Hrows]. eapply kept_some; eauto.
Qed.

Section system.
Context `{Runtime, GmailDraftProvider}.

(** Processes that create drafts, with others in between their steps; whatever leaves the
    drafts alone, such as all that works on the tables of sending or of the timeline; crashes;
    and all of these one after the other. *)
Inductive DraftProcess : SM () → Prop :=
  | draft_command c maxDrafts dryRun interfere limit :
      (∀ k, DraftProcess (interfere k)) →
      DraftProcess (_ ← createGmailDraftsCommand c maxDrafts dryRun interfere limit; mret tt)
  | draft_one c interfere input runId :
      (∀ k, DraftProcess (interfere k)) → DraftProcess (_ ← createDraft c interfere input runId; mret tt)
  | draft_sending (p : PM ()) : DraftProcess (zoom onPipeline p)
  | draft_timeline (p : M OutreachDb ()) : DraftProcess (zoom onOutreach p)
  | draft_then p q : DraftProcess p → DraftProcess q → DraftProcess (p ;; q)
  | draft_crash e : DraftProcess (throw e)
  | draft_other m : always sameDrafts m → DraftProcess m.

Lemma process_creates p : DraftProcess p → always creates p.
Proof.
  induction 1 as [c n d i l _ IH|c i input r _ IH|p|p|p q _ IHp _ IHq|e|m Hm].
  - apply (always_bind creates); [by apply command_creates|intros; apply (always_ret creates)].
  - apply (always_bind creates); [by apply createDraft_creates|intros; apply (always_ret creates)].
  - apply outside_same, zoom_pipeline_same.
  - apply outside_same, zoom_outreach_same.
  - by apply (always_bind creates).
  - apply (always_throw creates).
  - by apply outside_same.
Qed.

(** C7: An email is put into Gmail once: whatever runs of the command and of the service
    create drafts at the same time, whatever the provider answers and wherever they crash,
    the provider is asked at most once to create a draft of a finalized email for a
    recipient in an account, and every request had its row in the database before. *)
Theorem one_draft_per_email p w :
  DraftProcess p → draftTable (w_db w) → draftLog (w_db w) →
  let db := w_db (p w).2 in
  (∀ i j call call' g g' f, draftCalls db !! i = Some call → draftCalls db !! j = Some call' →
     gmailDrafts db !! dc_runId call = Some g → gmailDrafts db !! dc_runId call' = Some g' →
     gw_gmailAccount g = gw_gmailAccount g' → gw_recipientEmail g = gw_recipientEmail g' →
     gw_finalizedEmailId g = Some f → gw_finalizedEmailId g' = Some f → i = j) ∧
  (∀ call, call ∈ draftCalls db → is_Some (gmailDrafts db !! dc_runId call)).
Proof.
  intros Hp Ht Hl db. pose proof (process_creates p Hp w) as Hc. fold db in Hc.
  destruct (creates_log _ _ Hc Hl) as [Honce Hrow]. apply (cr_table _ _ Hc) in Ht. split; [|done].
  intros i j call call' g g' f Hi Hj Hg Hg' Ha Hr Hf Hf'.
  assert (dc_runId call = dc_runId call') as E.
  { eapply (dt_unique _ Ht); [done..|]. rewrite (dt_fingerprint _ Ht _ _ _ Hg Hf), (dt_fingerprint _ Ht _ _ _ Hg' Hf').
    congruence. }
  eapply (NoDup_lookup _ i j (dc_runId call)); [exact Honce|..]; rewrite list_lookup_fmap.
  - by rewrite Hi.
  - rewrite Hj. simpl. congruence.
Qed.

(** ** The content of a draft *)

(** What holds when the provider is asked to create a draft *)
Record draftApproved (c : GmailConfig) (input : GmailInput) (call : DraftCall) : Prop := {
  da_gates : gc_featureEnabled c = true ∧ gc_draftActionsEnabled c = true ∧ gc_credentialsConfigured c = true;
  da_lead : gi_leadStatus input = "HUMAN_APPROVED"%string;
  da_account : ∃ n answer, verifyDraftAccount n (gc_gmailAccount c) = Ok answer ∧ aa_ok answer = true ∧
    aa_email answer = Some (gc_gmailAccount c);
  da_message : ∃ f recipient senderName, gi_finalization input = Some f ∧
    gf_finalHumanDecision f = Some "APPROVED"%string ∧ gi_recipientEmail input = Some recipient ∧
    email_re_test recipient = true ∧ gc_senderName c = Some senderName ∧ senderName ≠ ""%string ∧
    hasUnresolvedTokens (resolveSenderName (gf_resolvedBody f) senderName) = false ∧
    dc_raw call = buildRawMessage (approvedMessage senderName (gc_gmailAccount c) recipient (gi_subject input)
                                     (gf_resolvedBody f));
  da_thread : dc_threadId call = gi_threadId input;
}.
(** Nothing is asked of the provider, or one thing, for which [P] holds. *)
Definition asksOnly (P : DraftCall → Prop) (db db' : SystemDb) : Prop :=
  draftCalls db' = draftCalls db ∨ ∃ call, draftCalls db' = draftCalls db ++ [call] ∧ P call.
Definition asksNothing (db db' : SystemDb) : Prop := draftCalls db' = draftCalls db.
#[local] Instance asksNothing_preorder : PreOrder asksNothing.
Proof. split; [done|]. unfold asksNothing. intros ???. congruence. Qed.
Lemma asks_then {A B} P (m : SM A) (k : A → SM B) :
  always asksNothing m → (∀ a w w', m w = (Ok a, w') → always (asksOnly P) (k a)) →
  always (asksOnly P) (m ≫= k).
Proof.
  intros Hm Hk w. specialize (Hm w). unfold mbind, M_bind. destruct (m w) as [[a|e] w'] eqn:E; [|by left].
  simpl in Hm. specialize (Hk _ _ _ E w'). unfold asksOnly in *. by rewrite <-Hm.
Qed.
Lemma asks_nothing {A} P (m : SM A) : always asksNothing m → always (asksOnly P) m.
Proof. intros Hm w. left. apply Hm. Qed.

Lemma zoom_asks_nothing {A} (m : PM A) : always asksNothing (zoom onPipeline m).
Proof. intros w. by rewrite zoom_run. Qed.
Lemma respects_asks_nothing {A} (m : PM A) : respects asksNothing (zoom onPipeline m).
Proof. intros w. unfold wp. rewrite zoom_run. simpl. by case_match. Qed.
Lemma completeRun_asks_nothing id patch : respects asksNothing (completeRun id patch).
Proof.
  unfold completeRun. destruct (negb _); [apply (respects_ret asksNothing)|]. by apply (respects_guarded asksNothing).
Qed.
Hint Resolve zoom_asks_nothing respects_asks_nothing completeRun_asks_nothing : outreach.
Lemma terminal_asks_nothing input runId outcome route errorClass reserved :
  always asksNothing (terminal input runId outcome route errorClass reserved).
Proof. unfold terminal. always_tac. Qed.
Lemma finish_asks_nothing input runId id ref : always asksNothing (finishDraft input runId id ref).
Proof. unfold finishDraft. always_tac. Qed.
Lemma reserve_asks_nothing g : always asksNothing (reserveRun g).
Proof. by apply (always_guarded asksNothing). Qed.
Hint Resolve terminal_asks_nothing finish_asks_nothing reserve_asks_nothing : outreach.

Section content.
Context (c : GmailConfig) (interfere : nat → SM ()).
Hypothesis others : ∀ k, always asksNothing (interfere k).

Lemma createReserved_asks input runId id message (P : DraftCall → Prop) :
  P {| dc_runId := id; dc_raw := buildRawMessage message; dc_threadId := gi_threadId input |} →
  always (asksOnly P) (createReserved c interfere input runId id message).
Proof using others.
  intros HP w. right. eexists. split; [|exact HP]. unfold createReserved. unfold mbind at 1, M_bind at 1.
  unfold modify at 1.
  match goal with |- draftCalls (w_db (?m ?w).2) = ?l => change (asksNothing (w_db w) (w_db (m w).2)); set (rest := m);
    set (w1 := w) end.
  cut (always asksNothing rest); [intros Hm; apply Hm|]. subst rest. always_tac.
Qed.
Lemma reserveAndCreate_asks input runId f recipient nowD message P :
  (∀ id, P {| dc_runId := id; dc_raw := buildRawMessage message; dc_threadId := gi_threadId input |}) →
  always (asksOnly P) (reserveAndCreate c interfere input runId f recipient nowD message).
Proof using others.
  intros HP. unfold reserveAndCreate. apply asks_then; [always_tac|]. intros [r|] _ _ _.
  { apply asks_nothing. always_tac. }
  do 2 (apply asks_then; [always_tac|intros ? _ _ _]). case_match; [apply asks_nothing; always_tac|].
  apply asks_then; [always_tac|intros ? _ _ _]. case_match; [apply asks_nothing; always_tac|].
  do 4 (apply asks_then; [always_tac|intros ? _ _ _]). by apply createReserved_asks.
Qed.
Lemma eligible_spec s :
  gel_eligible (checkGmailEligibility s) = true →
  ge_featureEnabled s = true ∧ ge_draftActionsEnabled s = true ∧ ge_credentialsConfigured s = true ∧
  ge_leadStatus s = "HUMAN_APPROVED"%string ∧ ge_existingDraftForFingerprint s = false ∧
  (∃ f, ge_finalization s = Some f ∧ f.1 = Some "APPROVED"%string) ∧
  ∃ r, ge_recipientEmail s = Some r ∧ email_re_test r = true.
Proof.
  unfold checkGmailEligibility. destruct (ge_existingDraftForFingerprint s); [done|]. simpl.
  rewrite length_eqb_0, !app_nil_iff, !when_nil, !negb_false_iff, neq_false.
  intros (? & ? & ? & ? & Hf & Hr). split_and!; try done.
  - unfold draftTextReasons in Hf. destruct (ge_finalization s) as [[d b]|]; [|done]. exists (d, b). split; [done|].
    rewrite !app_nil_iff, !when_nil, negb_false_iff, bool_decide_eq_true in Hf. by destruct Hf.
  - unfold draftRecipientReasons in Hr. destruct (ge_recipientEmail s) as [r|]; [|done]. exists r. split; [done|].
    simpl in Hr. destruct (truthy r); cbn [negb] in Hr; [|done]. rewrite when_nil, negb_false_iff in Hr. exact Hr.
Qed.
(** C8: Only approved text goes into a draft, to a verified recipient: creating a draft asks
    the provider for at most one, and only with every gate open, for a lead that a person
    approved, from the account that the provider has verified; the message is then the
    finalized text that was approved, with the sender's name filled in and no placeholder
    left, to the recorded address. *)
Theorem draft_is_approved_email input runId :
  always (asksOnly (draftApproved c input)) (createDraft c interfere input runId).
Proof using others.
  unfold createDraft. cbv zeta. do 2 (apply asks_then; [always_tac|intros ? _ _ _]).
  destruct (gel_duplicateReusable _); [apply asks_nothing; always_tac|].
  destruct (gel_eligible _) eqn:He; cbn [negb]; [|apply asks_nothing; always_tac].
  destruct (truthy_opt (gc_senderName c)) eqn:Hs; cbn [negb]; [|apply asks_nothing; always_tac].
  apply truthy_opt_spec in Hs as (senderName & Hs & Hne).
  apply eligible_spec in He as (? & ? & ? & Hl & _ & ([d b] & Hf & Hd) & (r & Hr & Hre)). simpl in Hl, Hf, Hr, Hd.
  destruct (gi_finalization input) as [f|] eqn:Ef; [|done]. injection Hf as Ed Eb. rewrite Hr.
  destruct (hasUnresolvedTokens _) eqn:Htok; [apply asks_nothing; always_tac|].
  apply asks_then; [always_tac|]. intros verify w w' Hask. apply asks_then; [always_tac|intros _ _ _ _].
  destruct (_ && _) eqn:Hmis; [apply asks_nothing; always_tac|].
  destruct (_ || _) eqn:Hauth; [apply asks_nothing; always_tac|].
  apply reserveAndCreate_asks. intros id. apply orb_false_iff in Hauth as [Hok%negb_false_iff Hsome%bool_decide_eq_false].
  injection Hask as Hask _. rewrite Hs in Htok |- *. split; [done|done| | |done].
  - eexists _, _. split; [exact Hask|]. split; [done|]. destruct (aa_email verify) as [e|]; [|done].
    simpl in Hmis. by apply negb_false_iff, bool_decide_eq_true in Hmis.
  - exists f, r, senderName. split_and!; try done. simpl in Hd. congruence.
Qed.
End content.

(** ** An attempt that failed *)

Lemma wp_always {A} (R : relation SystemDb) (m : SM A) w :
  always R m → wp m (λ _ w', R (w_db w) (w_db w')) w.
Proof. intros Hm. specialize (Hm w). unfold wp. by destruct (m w) as [[]?]. Qed.
Definition undisturbed (k : nat) : SM () := mret tt.

(** The input passes every check that comes before the reservation. *)
Record draftable (c : GmailConfig) (input : GmailInput) (db : SystemDb) : Prop := {
  db_eligible : gel_eligible (checkGmailEligibility (gmailSnapshot c input
    (existingByFingerprint (gc_gmailAccount c) (draftFingerprint c input) db))) = true;
  db_text : ∃ senderName f, gc_senderName c = Some senderName ∧ senderName ≠ ""%string ∧
    gi_finalization input = Some f ∧ hasUnresolvedTokens (resolveSenderName (gf_resolvedBody f) senderName) = false;
  db_account : ∀ n, verifyDraftAccount n (gc_gmailAccount c) =
    Ok {| aa_ok := true; aa_email := Some (gc_gmailAccount c); aa_reason := None |};
}.
Lemma completeRun_leads id patch (Q : () → world SystemDb → Prop) w :
  (∀ w', pipelineDb (w_db w') = pipelineDb (w_db w) → Q tt w') → wp (completeRun id patch) Q w.
Proof.
  intros HQ. unfold completeRun. destruct (negb _); [by apply wp_ret, HQ|]. apply wp_guarded. intros _. by apply HQ.
Qed.
Lemma wp_leadTransition leadId to (Q : () → world PipelineDb → Prop) w :
  (∀ w', ld_status <$> leads (w_db w') !! leadId = Some to → Q tt w') →
  ld_status <$> leads (w_db w) !! leadId = Some HUMAN_APPROVED → canTransition HUMAN_APPROVED to = true →
  wp (transitionFrom leadId HUMAN_APPROVED to) Q w.
Proof.
  intros HQ Hl Hcan. unfold transitionFrom, leadTransition, getLead, updateLeadStatus, recordEvent.
  destruct (leads (w_db w) !! leadId) as [l|] eqn:El; [|done]. injection Hl as Hl. wp_run. rewrite El. cbn [fmap option_fmap option_map].
  rewrite Hl, bool_decide_eq_true_2 by done. wp_run. rewrite El, Hl, Hcan. cbn [negb]. wp_run. intros _. apply HQ.
  destruct (w_db w) as [ru dr le ev sc at_ re su di]. simpl in *. rewrite lookup_alter_eq, El. by destruct l.
Qed.
Lemma terminal_parks input runId outcome errorClass id w :
  ld_status <$> leads (pipelineDb (w_db w)) !! gi_leadId input = Some HUMAN_APPROVED →
  wp (terminal input runId outcome (Some NEEDS_MANUAL_REVIEW) errorClass (Some id)) (λ out w',
    go_outcome out = outcome ∧
    ld_status <$> leads (pipelineDb (w_db w')) !! gi_leadId input = Some NEEDS_MANUAL_REVIEW) w.
Proof.
  intros Hl. unfold terminal. rewrite wp_bind, wp_transaction, wp_bind.
  match goal with |- wp _ ?Q _ =>
    assert (∀ w', pipelineDb (w_db w') = pipelineDb (w_db w) → Q tt w') as HQ end.
  { intros w' E. rewrite wp_bind, wp_zoom. apply wp_leadTransition; [|by rewrite <-E in Hl|done].
    intros w2 Hw2. rewrite wp_zoom. unfold recordEvent. wp_run. intros _.   split; [done|].
    destruct (w_db w2). exact Hw2. }
  destruct (truthy id); [|by apply HQ]. wp_run. apply completeRun_leads. intros w' E. by apply HQ.
Qed.
(** A draft that could not be created is not tried again: once an attempt has left its row
    without a draft - refused for its rate, interrupted by a network error, or crashed -, no
    later request for the email asks the provider for anything, even if the lead still awaits
    its draft; and a request that could go ahead takes the lead out of the approved state, for
    a person to look at. *)
Theorem failed_draft_parks_lead c input runId r w :
  draftable c input (w_db w) →
  findReservedByFingerprint (draftFingerprint c input) (w_db w) = Some r → gw_providerDraftId r = None →
  ld_status <$> leads (pipelineDb (w_db w)) !! gi_leadId input = Some HUMAN_APPROVED →
  wp (createDraft c undisturbed input runId) (λ out w',
    go_outcome out = G_MANUAL_REVIEW_REQUIRED ∧ draftCalls (w_db w') = draftCalls (w_db w) ∧
    ld_status <$> leads (pipelineDb (w_db w')) !! gi_leadId input = Some NEEDS_MANUAL_REVIEW) w.
Proof.
  intros [Hel (senderName & f & Hs & Hne & Hf & Htok) Hacc] Hr Hid Hl.
  pose proof (eligible_spec _ Hel) as (_ & _ & _ & _ & Hex & _ & (rcpt & Hrcpt & _)). simpl in Hex, Hrcpt.
  unfold createDraft. cbv zeta. wp_run. rewrite Hel, Hs, Hf, Hrcpt.
  assert (gel_duplicateReusable (checkGmailEligibility (gmailSnapshot c input
    (existingByFingerprint (gc_gmailAccount c) (draftFingerprint c input) (w_db w)))) = false) as ->.
  { unfold checkGmailEligibility. simpl. by rewrite Hex. }
  assert (truthy_opt (Some senderName) = true) as -> by by apply truthy_spec. cbn [negb default from_option id]. rewrite Htok. wp_run. rewrite wp_ask. cbv zeta.
  rewrite Hacc. intros ? [= <-]. unfold undisturbed. wp_run. cbn [aa_email aa_ok negb].
  rewrite !bool_decide_eq_true_2, bool_decide_eq_false_2 by done. cbn [andb orb negb].
  unfold reserveAndCreate. wp_run. rewrite Hr, Hid. cbn [truthy_opt].
  eapply wp_mono; [|apply wp_and; [by apply terminal_parks|apply wp_always, terminal_asks_nothing]].
  intros out w' [[Ho Hp] Hc]. split_and!; [done|exact Hc|done].
Qed.
End system.

(** ** Witnesses *)

#[local] Existing Instance demo_runtime.
(** Gmail refuses for its rate at first, and creates drafts later. *)
#[local] Instance demo_drafts : GmailDraftProvider := {|
  provider_name := "http-gmail";
  createProviderDraft n req := Ok (
    if (n <? 6)%nat then {| gr_outcome := gm_rate_limited; gr_ref := None; gr_reason := None |}
    else {| gr_outcome := gm_ok; gr_reason := None;
            gr_ref := Some {| dr_draftId := "p1"; dr_messageId := Some "pm1"; dr_threadId := Some "pt1" |} |});
  verifyDraftAccount n email := Ok {| aa_ok := true; aa_email := Some email; aa_reason := None |};
|}.
Definition demoGmailConfig : GmailConfig :=
  {| gc_gmailAccount := "me@agency.de"; gc_senderName := Some "Zoë"; gc_featureEnabled := true;
     gc_draftActionsEnabled := true; gc_credentialsConfigured := true; gc_maxPerDay := 5; gc_minIntervalMs := 0 |}.
(** The lead of the demonstration, before its draft is created *)
Definition demoApproved : SystemDb :=
  setGmailDrafts (λ _, ∅) (put onPipeline
    (setLeads (alter (setLeadStatus HUMAN_APPROVED 0) "l1") (pipelineDb demoSystem)) demoSystem).
Definition draftRun (interfere : nat → SM ()) : SM () :=
  _ ← createGmailDraftsCommand demoGmailConfig 10 false interfere None; mret tt.
(** A second run gets in between the check and the reservation of the first. *)
Definition racingRun (k : nat) : SM () := if (k =? 2)%nat then draftRun undisturbed else mret tt.
Definition demoApprovedWorld : world SystemDb := World demoApproved 10 0.

Lemma demoApproved_table : draftTable demoApproved ∧ draftLog demoApproved.
Proof.
  split; split; simpl.
  - intros id g. by rewrite lookup_empty.
  - intros id id' g g'. by rewrite lookup_empty.
  - intros id g f. by rewrite lookup_empty.
  - constructor.
  - intros call Hc. by apply elem_of_nil in Hc.
Qed.
Lemma racing_process k : DraftProcess (racingRun k).
Proof.
  assert (∀ k, DraftProcess (undisturbed k)) as Hu by (intros; apply draft_other; intros w; reflexivity).
  unfold racingRun. destruct (k =? 2)%nat; [|apply (Hu k)]. apply draft_command. exact Hu.
Qed.
Lemma one_draft_per_email_witness :
  let db := w_db (draftRun racingRun demoApprovedWorld).2 in
  length (draftCalls db) = 1%nat ∧ (∀ call, call ∈ draftCalls db → is_Some (gmailDrafts db !! dc_runId call)).
Proof.
  intros db. split; [vm_compute; reflexivity|].
  apply (one_draft_per_email (draftRun racingRun) demoApprovedWorld).
  - apply draft_command. exact racing_process.
  - apply demoApproved_table.
  - apply demoApproved_table.
Defined.

Definition demoGmailInput : GmailInput :=
  {| gi_leadId := "l1"; gi_leadStatus := "HUMAN_APPROVED";
     gi_finalization := Some {| gf_id := "f1"; gf_resolvedBody := demoBody; gf_resolvedBodyHash := "h1";
                                gf_finalHumanDecision := Some "APPROVED"%string |};
     gi_subject := "Ihre Website"; gi_recipientEmail := Some "info@praxis.de"%string; gi_threadId := None |}.
(** The run row that the events of a creation refer to *)
Definition withRun (db : SystemDb) : SystemDb := put onPipeline (addRunKey "run" (pipelineDb db)) db.
Lemma draft_is_approved_email_witness :
  let db := w_db (createDraft demoGmailConfig undisturbed demoGmailInput "run" (World (withRun demoApproved) 10 0)).2 in
  length (draftCalls db) = 1%nat ∧
  asksOnly (draftApproved demoGmailConfig demoGmailInput) (withRun demoApproved) db.
Proof.
  intros db. split; [vm_compute; reflexivity|].
  apply (draft_is_approved_email demoGmailConfig undisturbed (λ k w, eq_refl) demoGmailInput "run"
    (World (withRun demoApproved) 10 0)).
Defined.

(** The rate limit was hit. *)
Definition demoLimited : world SystemDb :=
  (createDraft demoGmailConfig undisturbed demoGmailInput "run" (World (withRun demoApproved) 0 0)).2.
Lemma failed_draft_parks_lead_witness :
  map gw_outcome (draftRows (w_db demoLimited)) = ["RATE_LIMITED"%string] ∧
  match createDraft demoGmailConfig undisturbed demoGmailInput "run" demoLimited with
  | (Ok out, w') =>
      go_outcome out = G_MANUAL_REVIEW_REQUIRED ∧ draftCalls (w_db w') = draftCalls (w_db demoLimited) ∧
      ld_status <$> leads (pipelineDb (w_db w')) !! "l1"%string = Some NEEDS_MANUAL_REVIEW
  | _ => False
  end.
Proof.
  split; [vm_compute; reflexivity|].
  assert (∃ r, findReservedByFingerprint (draftFingerprint demoGmailConfig demoGmailInput) (w_db demoLimited) = Some r ∧
    gw_providerDraftId r = None) as (r & Hr & Hid) by (eexists; split; vm_compute; reflexivity).
  assert (is_ok (createDraft demoGmailConfig undisturbed demoGmailInput "run" demoLimited).1 = true) as Hok
    by (vm_compute; reflexivity).
  pose proof (failed_draft_parks_lead demoGmailConfig demoGmailInput "run" r demoLimited) as Hwp. unfold wp in Hwp.
  destruct (createDraft demoGmailConfig undisturbed demoGmailInput "run" demoLimited) as [[out|e] w'];
    [|discriminate Hok]. apply Hwp.
  - split; [vm_compute; reflexivity| |intros n; reflexivity]. eexists _, _. split; [reflexivity|].
    split; [discriminate|]. split; [reflexivity|vm_compute; reflexivity].
  - exact Hr.
  - exact Hid.
  - vm_compute. reflexivity.
Defined.
