(* ===== verification/SystemTimeline.v ===== *)
(** * The timeline under the whole system

    The unattended commands do not leave the outreach database to the service alone:
    the sending run enrols what it sent and creates the campaign, reply sync and
    delivery reconciliation record what the mailbox says, and operators call the
    service in between.  What OutreachSafety proves of the service holds of all of
    them together. *)
From S2P Require Import Prelude.
From S2P Require Import JsText.
From S2P Require Import TimeZone.
From S2P Require Import OutreachStatus.
From S2P Require Import OutreachGates.
From S2P Require Import ReplyClassification.
From S2P Require Import Delivery.
From S2P Require Import OutreachStore.
From S2P Require Import OutreachService.
From S2P Require Import OutreachWrites.
From S2P Require Import OutreachTimeline.
From S2P Require Import OutreachFollowups.
From S2P Require Import OutreachSafety.
From S2P Require Import OutreachSync.
From S2P Require Import LeadLifecycle.
From S2P Require Import PipelineDb.
From S2P Require Import SendGate.
From S2P Require Import SendService.
From S2P Require Import SendSafety.
From S2P Require Import SystemDb.
From S2P Require Import EnrollBridge.
From S2P Require Import ScheduledRun.
From S2P Require Import ScheduledCommand.
From S2P Require Import ScheduledSafety.
Open Scope Z_scope.
Open Scope list_scope.

(** ** How the outreach database moves *)

Section moves.
Context `{Runtime, TzDatabase}.

(** A request to the service other than postponing a follow-up, or a new campaign *)
Definition calmOrCampaign (db db' : OutreachDb) : Prop :=
  calmStep db db' ∨ ∃ id, db' = addCampaignKey id db.
Definition calmMoves : relation OutreachDb := rtc calmOrCampaign.

(** What every reachable database satisfies, as one invariant *)
Record sound (db : OutreachDb) : Prop := {
  so_wellFormed : wellFormed db; so_faithful : faithful db; so_settled : settled db;
}.
Lemma campaign_sound id db : sound db → sound (addCampaignKey id db).
Proof using Type. intros [[] Hf Hs]. split; [by split|exact Hf|exact Hs]. Qed.
Lemma calmMoves_sound db db' : calmMoves db db' → sound db → sound db'.
Proof.
  induction 1 as [|db1 db2 db3 [Hstep|[id ->]] _ IH]; [done|..]; intros Hs; apply IH.
  - destruct Hs as [Hwf Hf Hset]. apply calmStep_service in Hstep as Hservice.
    destruct (serviceSteps_faithful _ _ (rtc_once _ _ Hservice) Hwf Hf).
    split; [done|done|]. by eapply calmSteps_settled; [apply rtc_once|..].
  - by apply campaign_sound.
Qed.
Lemma empty_sound campaigns leads drafts finalizations :
  sound (emptyDb campaigns leads drafts finalizations).
Proof using Type.
  split; [apply emptyDb_wellFormed|..].
  - intros id. unfold statusOf. simpl. by rewrite lookup_empty.
  - intros id s _ _ (k & f & Hf & _). simpl in Hf. by rewrite lookup_empty in Hf.
Qed.

#[global] Instance calmMoves_preorder : PreOrder calmMoves.
Proof using Type. unfold calmMoves. apply _. Qed.
(** A method of the service, alone *)
Lemma calm_op op : isPostpone op = false → always calmMoves (exec op).
Proof using Type.
  intros Hop w. apply rtc_once. left. exists op, (w_ticks w), (w_uuids w), (exec op w).1, (exec op w).2.
  split; [done|]. split; [|done]. destruct w as [db t u]. simpl. by destruct (exec op _).
Qed.
Lemma always_ignore {A} (R : relation OutreachDb) (m : OM A) : always R (ignore m) → always R m.
Proof using Type.
  intros Hm w. specialize (Hm w). unfold ignore, mbind, M_bind in Hm. by destruct (m w) as [[]?].
Qed.
Lemma calm_track i : always calmMoves (track i).
Proof using Type. apply always_ignore, (calm_op (OpTrack i)). done. Qed.
Lemma calm_enrollSend i : always calmMoves (enrollConfirmedSend i).
Proof using Type. apply always_ignore, (calm_op (OpEnrollConfirmedSend i)). done. Qed.
Lemma calm_enrollFollowup i : always calmMoves (enrollConfirmedFollowup i).
Proof using Type. apply always_ignore, (calm_op (OpEnrollConfirmedFollowup i)). done. Qed.
Lemma calm_applyReply i : always calmMoves (applyReply i).
Proof using Type. apply always_ignore, (calm_op (OpApplyReply i)). done. Qed.
Lemma calm_applyDeliveryFailure i : always calmMoves (applyDeliveryFailure i).
Proof using Type. apply always_ignore, (calm_op (OpApplyDeliveryFailure i)). done. Qed.

Lemma calm_replySync `{Collation} reader own threads : always calmMoves (runReplySync reader own threads).
Proof using Type.
  pose proof calm_applyReply. unfold runReplySync, syncThread. always_tac.
Qed.
Lemma calm_reconciliation reader outbounds dryRun :
  always calmMoves (runDeliveryReconciliation reader outbounds dryRun).
Proof using Type.
  pose proof calm_applyDeliveryFailure. unfold runDeliveryReconciliation, reconcileOne. always_tac.
Qed.
End moves.
#[export] Hint Resolve calm_track calm_enrollSend calm_enrollFollowup : outreach.

(** ** The commands *)

Definition onOutreaches (R : relation OutreachDb) : relation SystemDb := λ s s', R (outreachDb s) (outreachDb s').
#[global] Instance onOutreaches_preorder R `{!PreOrder R} : PreOrder (onOutreaches R).
Proof. split; [intros s; red; reflexivity|]. intros s1 s2 s3 H1 H2. red in H1, H2 |- *. by etrans. Qed.

Section commands.
Context `{Runtime, TzDatabase, OrmErrors, SendProvider}.
#[local] Notation calm := (onOutreaches calmMoves).
#[local] Notation calmSession := (inSession calm).

Lemma pipeline_calm {A} (m : PM A) : always calm (zoom onPipeline m).
Proof. intros w. rewrite zoom_run. simpl. red. reflexivity. Qed.
Lemma sending_calm {A} (m : PM A) : always calmSession (onSending m).
Proof. apply (always_in_session _), pipeline_calm. Qed.
Lemma outreach_calm {A} (m : OM A) : always calmMoves m → always calm (zoom onOutreach m).
Proof. intros Hm. eapply always_zoom, Hm. by intros. Qed.
Lemma write_calm check f :
  (∀ db, calmMoves (outreachDb db) (outreachDb (f db))) → always calm (guarded check f).
Proof. intros Hf. apply (always_guarded _). intros db _. apply Hf. Qed.

Lemma insertCampaign_calm name policy tz : always calm (insertCampaign name policy tz).
Proof.
  unfold insertCampaign. cbv zeta. do 2 (apply (always_bind _); [always_tac|intros]).
  apply (always_bind _); [|intros; always_tac]. apply write_calm. intros db. apply rtc_once. right.
  by eexists.
Qed.
Lemma enroll_calm policy lead attempt name by_ :
  always calm (enrollConfirmedSendFromAttempt policy lead attempt name by_).
Proof.
  pose proof insertCampaign_calm. pose proof @outreach_calm as Hout.
  unfold enrollConfirmedSendFromAttempt, enrollTracked. cbv zeta.
  repeat first [solve [auto with outreach typeclass_instances]|apply Hout|always_step|case_match].
Qed.
Lemma mint_calm account version auth t1 t2 :
  always calm (mintSessionReadiness account version auth t1 t2).
Proof.
  unfold mintSessionReadiness, supersedeReadiness, insertReadiness. apply (always_transaction _).
  assert (∀ A (m : PM A), respects calm (zoom onPipeline m)) as Hzoom.
  { intros A m w. rewrite wp_zoom. unfold wp. destruct (m _) as [[]]; [red; simpl; reflexivity|done]. }
  respects_tac.
Qed.
Lemma getRunId_calm c : always calmSession (getRunId c).
Proof.
  unfold getRunId. apply (always_bind _); [always_tac|]. intros [id|]; [always_tac|].
  apply (always_bind _).
  - apply (always_in_session _). unfold startRun. do 2 (apply (always_bind _); [always_tac|intros]).
    apply (always_bind _); [|intros; always_tac]. apply write_calm. intros db. reflexivity.
  - intros id. apply (always_bind _); [|intros; always_tac]. apply (always_modify _). intros s. do 2 red. reflexivity.
Qed.

Context (c : AppConfig) (buildSendProvider : res ()) (interfere : nat → PM ()).
Lemma sendOne_calm lead auth : always calmSession (sendOne c buildSendProvider interfere lead auth).
Proof.
  pose proof @sending_calm as Hsend. pose proof getRunId_calm.
  unfold sendOne. repeat first [apply Hsend|solve [auto]|always_step|case_match].
Qed.
Lemma command_calm : always calmSession (runScheduledSendsCommand c buildSendProvider interfere).
Proof.
  unfold runScheduledSendsCommand. apply (always_bind _).
  - apply (always_run _ _); simpl; try solve [intros; always_tac]; auto using sendOne_calm.
    + intros n. apply sending_calm.
    + intros a n. apply (always_bind _); [apply (always_in_session _), mint_calm|intros; always_tac].
    + intros l a. unfold enroll. apply (always_bind _); [|intros; always_tac].
      apply (always_in_session _), enroll_calm.
  - intros report. apply (always_bind _); [always_tac|]. intros runId.
    apply (always_bind _); [|intros; always_tac]. destruct runId; [|always_tac].
    apply (always_in_session _). unfold finishRun. apply (always_bind _); [always_tac|]. intros t.
    apply (always_modify _). intros db. red. reflexivity.
Qed.
Lemma invocation_calm : always calm (scheduledSendsInvocation c buildSendProvider interfere).
Proof.
  intros w. pose proof (command_calm (World {| sessionDb := w_db w; sessionRunId := None |} (w_ticks w) (w_uuids w)))
    as Hc. unfold scheduledSendsInvocation. by destruct (runScheduledSendsCommand _ _ _ _) as [r w'].
Qed.
End commands.

(** ** Everything that touches the timeline *)

Section processes.
Context `{Runtime, TzDatabase, OrmErrors, SendProvider, Collation}.

(** Unattended sending runs, enrolments by hand, mailbox synchronisation over whatever
    the database says is tracked, requests of an operator, steps that leave the
    outreach tables alone, crashes, and all of these one after the other *)
Inductive OutreachProcess : SM () → Prop :=
  | outreach_sends c buildSendProvider interfere :
      OutreachProcess (_ ← scheduledSendsInvocation c buildSendProvider interfere; mret tt)
  | outreach_enroll policy lead attempt campaign by_ :
      OutreachProcess (_ ← enrollConfirmedSendFromAttempt policy lead attempt campaign by_; mret tt)
  | outreach_replies reader own filter :
      OutreachProcess (zoom onOutreach (threads ← query (trackedThreads filter);
        _ ← runReplySync reader own threads; mret tt))
  | outreach_bounces reader filter dryRun :
      OutreachProcess (zoom onOutreach (outbounds ← query (trackedOutbounds filter);
        _ ← runDeliveryReconciliation reader outbounds dryRun; mret tt))
  | outreach_request op : isPostpone op = false → OutreachProcess (zoom onOutreach (exec op))
  | outreach_other m : always (onOutreaches eq) m → OutreachProcess m
  | outreach_crash e : OutreachProcess (throw e)
  | outreach_then p q : OutreachProcess p → OutreachProcess q → OutreachProcess (p ;; q).

Lemma process_calm p : OutreachProcess p → always (onOutreaches calmMoves) p.
Proof.
  induction 1 as [c b i|policy lead attempt name by_|reader own filter|reader filter dryRun|op Hop|m Hm|e|
    p q _ IHp _ IHq].
  - apply (always_bind _); [apply invocation_calm|intros; always_tac].
  - apply (always_bind _); [apply enroll_calm|intros; always_tac].
  - apply outreach_calm. apply (always_bind _); [always_tac|]. intros threads.
    apply (always_bind _); [apply calm_replySync|intros; always_tac].
  - apply outreach_calm. apply (always_bind _); [always_tac|]. intros outbounds.
    apply (always_bind _); [apply calm_reconciliation|intros; always_tac].
  - by apply outreach_calm, calm_op.
  - intros w. red. by rewrite <-(Hm w).
  - apply (always_throw _).
  - by apply (always_bind _).
Qed.

End processes.

(** ** Witness *)

#[local] Existing Instance demo_runtime.
#[local] Existing Instance demo_tz.
#[local] Existing Instance demo_orm.
#[local] Existing Instance demo_provider.
#[local] Existing Instance demo_collation.

(** The run sends and enrols the initial email; then the contact asks to be left alone. *)
Definition demoPraxisReader : GmailThreadReader :=
  {| gtr_name := "demo"; gtr_readsExternally := false;
     gtr_readThread := λ _ thread, Ok (if String.eqb thread "pt1" then [demoMessage] else []) |}.
Definition demoAnswered : SM () :=
  (_ ← demoInvocation "me@agency.de" true; mret tt) ;;
  zoom onOutreach (threads ← query (trackedThreads demoAll);
    _ ← runReplySync demoPraxisReader [] threads; mret tt).
