(* ===== verification/ScheduledSpecs.v ===== *)
(** * What the unattended run does

    The conditions under which it sends, what it does while it is paused, what it
    reports, and the schedules that it never gets past. *)
From S2P Require Import Prelude.
From S2P Require Import JsText.
From S2P Require Import TimeZone.
From S2P Require Import OutreachStatus.
From S2P Require Import OutreachGates.
From S2P Require Import ReplyClassification.
From S2P Require Import OutreachStore.
From S2P Require Import LeadLifecycle.
From S2P Require Import PipelineDb.
From S2P Require Import SendGate.
From S2P Require Import SendService.
From S2P Require Import SendSafety.
From S2P Require Import SendSpecs.
From S2P Require Import SystemDb.
From S2P Require Import EnrollBridge.
From S2P Require Import ScheduledRun.
From S2P Require Import ScheduledCommand.
From S2P Require Import ScheduledSafety.
From S2P Require Import SystemTimeline.
Open Scope Z_scope.
Open Scope list_scope.

(** ** The latest row *)

Lemma latestBy_max {A} (key : A → Z) l x :
  latestBy key l = Some x → x ∈ l ∧ ∀ y, y ∈ l → key y <= key x.
Proof.
  revert x. induction l as [|z l IH]; simpl; intros x; [done|].
  destruct (latestBy key l) as [m|] eqn:El.
  - destruct (IH m eq_refl) as [Hm Hmax]. destruct (Z.ltb_spec (key z) (key m)); intros [= <-].
    + split; [by right|]. intros y [->|Hy]%elem_of_cons; [lia|auto].
    + split; [by left|]. intros y [->|Hy%Hmax]%elem_of_cons; lia.
  - destruct l as [|z' l]; [|simpl in El; by repeat case_match]. intros [= <-].
    split; [by left|]. intros y ->%list_elem_of_singleton. lia.
Qed.
Lemma latestBy_nil {A} (key : A → Z) l : latestBy key l = None → l = [].
Proof. destruct l; simpl; [done|]. by repeat case_match. Qed.
(** Leaving rows out of the table does not change the latest one that is kept. *)
Lemma latestBy_omap {A B} (key : A → Z) (key' : B → Z) (g : A → option B) l x y :
  (∀ a b, g a = Some b → key' b = key a) → latestBy key l = Some x → g x = Some y →
  latestBy key' (omap g l) = Some y.
Proof.
  intros Hkey. revert x. induction l as [|z l IH]; csimpl; intros x; [done|].
  destruct (latestBy key l) as [m|] eqn:El.
  - destruct (Z.ltb_spec (key z) (key m)) as [Hlt|Hge]; intros [= <-] Hy.
    + pose proof (IH m eq_refl Hy) as E. destruct (g z) as [b|] eqn:Eb; [|exact E]. csimpl. rewrite E.
      rewrite (Hkey _ _ Eb), (Hkey _ _ Hy). by rewrite (proj2 (Z.ltb_lt _ _) Hlt).
    + rewrite Hy. csimpl. destruct (latestBy key' (omap g l)) as [b|] eqn:Eb; [|done].
      apply latestBy_max in Eb as [(a & Ha & Eab)%list_elem_of_omap _].
      destruct (latestBy_max _ _ _ El) as [_ Hmax]. specialize (Hmax a Ha).
      rewrite (Hkey _ _ Hy), (Hkey _ _ Eab). by rewrite (proj2 (Z.ltb_ge (key z) (key a))) by lia.
  - apply latestBy_nil in El as ->. intros [= <-] ->. done.
Qed.

(** ** What is sent *)

(** The email [e] is sent in the order of its sequence: it is an initial email, or the
    record it was written for waits, now, for exactly this follow-up. *)
Definition inStep (db : SystemDb) (e : EmailDraftRow) : Prop :=
  0 < ew_sequenceStep e → ∃ step rid r, ew_sequenceStep e = stepNumber step ∧
    ew_outreachRecordId e = Some rid ∧ records (outreachDb db) !! rid = Some r ∧
    or_status r = followupDueStatus step ∧ or_doNotContact r = false.

(** The draft of the latest active schedule of [lead], with its chain *)
Record scheduledCopy (db : SystemDb) (lead : string) (g : GmailDraftRow) (f : FinalizationRow)
    (e : EmailDraftRow) : Prop := {
  sd_latest : ∃ s, latestBy sr_createdAt (activeSchedules lead db) = Some s ∧
    draftChain db (sc_gmailDraftId (sr_record s)) = Some (g, f, e);
  sd_owner : gw_leadId g = lead ∧ ew_leadId e = lead;
  sd_approved : fn_finalHumanDecision f = Some "APPROVED";
  sd_lead : ld_status <$> leads (pipelineDb db) !! lead = Some SCHEDULED;
}.

Lemma isFollowupStep_Some z step : isFollowupStep z = Some step → z = stepNumber step.
Proof.
  unfold isFollowupStep. intros E. repeat (case_match; [simplify_eq/=; lia|]). done.
Qed.
Lemma suppressedFollowup_None db lead g f e :
  scheduledCopy db lead g f e → suppressedFollowup (pendingSendContext lead db) = None → inStep db e.
Proof.
  intros [(s & Hs & Hchain) _ _ _] Hsup Hpos. unfold pendingSendContext in Hsup.
  rewrite (latestBy_omap sr_createdAt _ _ _ s (s, e)) in Hsup; [|..|exact Hs|]; simpl; [| |by rewrite Hchain].
  2: { intros a b Hb. destruct (draftChain db _) in Hb; simplify_eq/=; done. }
  simpl in Hsup. rewrite (proj2 (Z.ltb_lt _ _) Hpos) in Hsup.
  destruct (isFollowupStep _) as [step|] eqn:Estep; [|done].
  destruct (checkFollowupSendAllowed _) as [step'|] eqn:Egate; [|done].
  apply checkFollowupSendAllowed_iff in Egate as (Est & Edn & Eprep). simpl in *. subst step'.
  apply isFollowupStep_Some in Estep.
  destruct (ew_outreachRecordId e) as [rid|]; simpl in *; [|done].
  destruct (records (outreachDb db) !! rid) as [r|] eqn:Er; simpl in *; [|done].
  injection Est as Est. exists step, rid, r. done.
Qed.

Section sending.
Context `{Runtime, TzDatabase, OrmErrors, SendProvider} (c : AppConfig) (buildSendProvider : res ()).

(** The log of the sessions' database *)
Definition sessionLog : relation Session := inSession (onPipelines sameLog).
Lemma getRunId_log : always sessionLog (getRunId c).
Proof. apply (getRunId_respects c sameLog); by intros ? []. Qed.
Lemma session_reads {A} (m : PM A) w : always eq m → sessionDb (w_db (onSending m w).2) = sessionDb (w_db w).
Proof.
  intros Hm. unfold onSending. rewrite !zoom_run. simpl. rewrite <-(Hm (World _ _ _)). simpl.
  by destruct (w_db w) as [[]].
Qed.

(** What the inputs that the run loads say of the database *)
Lemma latestSendInput_copy db lead l conf proof draft nowMs nowD sched r source pdb :
  leads (pipelineDb db) !! lead = Some l →
  let input := baseInput lead l (latestSendInput lead db) conf proof in
  in_schedule input = Some sched → in_currentGmailDraft input = Some draft →
  mayBeSent (gateSnapshot (buildSendConfig c) source input sched pdb nowMs nowD) sched r →
  ∃ g f e, scheduledCopy db lead g f e ∧ draft = currentDraft g.
Proof.
  intros Hl input Hsched Hdraft Hmay.
  pose proof (ms_lead _ _ _ Hmay) as Hlead. destruct (ms_content _ _ _ Hmay) as (_ & Hfin & Hbind & _).
  unfold input, baseInput, latestSendInput in *. simpl in *.
  destruct (latestBy sr_createdAt (activeSchedules lead db)) as [s|] eqn:Es; [|done]. simpl in *.
  destruct (gmailDrafts db !! sc_gmailDraftId (sr_record s)) as [g|] eqn:Eg; [|done]. simpl in *.
  case_bool_decide as Egl; [|done]. simpl in *. injection Hdraft as <-.
  destruct (gw_finalizedEmailId g) as [fid|] eqn:Efid; [|done]. simpl in *.
  destruct (truthy fid); [|done].
  destruct (finalizations db !! fid) as [f|] eqn:Ef; [|done]. simpl in *.
  destruct (emailDrafts db !! fn_originalDraftId f) as [e|] eqn:Ee; [|done]. simpl in *.
  case_bool_decide as Eel; [|done]. simpl in *.
  apply andb_prop in Hfin as [Happr%bool_decide_eq_true _].
  exists g, f, e. split; [|done]. split; [|done|done|].
  - exists s. split; [done|]. unfold draftChain. rewrite Eg. simpl. rewrite Efid. simpl. rewrite Ef. simpl.
    by rewrite Ee.
  - rewrite Hl. simpl. f_equal. by destruct (ld_status l).
Qed.

(** What handing [lead]'s draft to the provider presupposes, and what it adds to the log *)
Definition sentInStep (db : SystemDb) (lead : string) (db' : SystemDb) : Prop :=
  dispatched (pipelineDb db') = dispatched (pipelineDb db) ∨
  ∃ id g f e, scheduledCopy db lead g f e ∧ inStep db e ∧
    dispatched (pipelineDb db') = dispatched (pipelineDb db) ++
      [{| dp_attemptId := id; dp_providerDraftId := default "" (gw_providerDraftId g) |}].

Lemma sentInStep_log db lead s s' :
  sentInStep db lead (sessionDb s) → sessionLog s s' → sentInStep db lead (sessionDb s').
Proof. unfold sessionLog, inSession, onPipelines, sameLog, sentInStep. intros Hs ->. exact Hs. Qed.
Lemma gated_in_step db lead l conf proof source pdb pdb' db' :
  leads (pipelineDb db) !! lead = Some l → suppressedFollowup (pendingSendContext lead db) = None →
  sameLog (pipelineDb db) pdb →
  gatedDispatch (buildSendConfig c) source (baseInput lead l (latestSendInput lead db) conf proof) pdb pdb' →
  pipelineDb db' = pdb' → sentInStep db lead db'.
Proof.
  unfold sameLog. intros Hl Hsup Hlog [Hsame|(id & draft & Hallow & _ & Hsent)] Hdb'.
  { left. congruence. }
  destruct Hallow as [(sched & r & t1 & t2 & Hsched & Hmay & _) Hdraft _].
  destruct (latestSendInput_copy _ _ _ _ _ _ _ _ _ _ _ _ Hl Hsched Hdraft Hmay)
    as (g & f & e & Hcopy & ->).
  right. exists id, g, f, e. split_and!; [done| |rewrite Hdb', Hsent, Hlog; done].
  by eapply suppressedFollowup_None.
Qed.
Lemma sendOne_awp lead auth w :
  awp (sendOne c buildSendProvider quietly lead auth)
    (λ _ w', sentInStep (sessionDb (w_db w)) lead (sessionDb (w_db w')))
    (λ w', sentInStep (sessionDb (w_db w)) lead (sessionDb (w_db w'))) w.
Proof.
  set (db := sessionDb (w_db w)).
  assert (∀ w', sessionLog (w_db w) (w_db w') → sentInStep db lead (sessionDb (w_db w'))) as Hsame.
  { intros w' Hlog. apply (sentInStep_log db lead (w_db w)); [by left|exact Hlog]. }
  unfold sendOne. rewrite awp_bind. unfold onSending at 1. rewrite !awp_zoom. unfold getLead at 1.
  rewrite awp_query. cbn [w_db w_ticks w_uuids view put onDb onPipeline].
  set (w1 := World _ _ _). assert (sessionDb (w_db w1) = db) as E1 by (unfold w1, db; by destruct (w_db w) as [[]]).
  assert (sessionLog (w_db w) (w_db w1)) as L1 by (do 3 red; by rewrite E1). clearbody w1.
  rewrite awp_bind, awp_query, E1. fold db. destruct (leads (pipelineDb db) !! lead) as [l|] eqn:El; [|by apply Hsame].
  destruct (sid_schedule (latestSendInput lead db)) as [sched|] eqn:Esched; [|by apply Hsame].
  rewrite awp_bind, awp_query, E1. destruct (suppressedFollowup _) eqn:Esup; [by apply Hsame|].
  rewrite awp_bind. destruct buildSendProvider; simpl; [|by apply Hsame].
  rewrite awp_ret, awp_bind.
  set (input := baseInput lead l (latestSendInput lead db)).
  pose proof (session_reads (preflight (buildSendConfig c) SCHEDULED_SOURCE (input None None)) w1
    ltac:(apply preflight_reads)) as Hpre.
  unfold awp at 1. destruct (onSending (preflight _ _ (input None None)) w1) as [[pre|?] w2]; simpl in Hpre;
    (assert (sessionLog (w_db w) (w_db w2)) as L2 by (do 3 red; by rewrite Hpre, E1)); [|by apply Hsame].
  destruct (out_outcome pre); try by apply Hsame. destruct (out_preflightProof pre) as [proof|]; [|by apply Hsame].
  awp_run. set (w3 := World _ _ _).
  eapply awp_mono; [| |apply (awp_always _ _ w3 (getRunId_log))]; simpl.
  2: { intros w' L. apply Hsame. etrans; [exact L2|exact L]. }
  intros runId w4 L4. assert (sessionLog (w_db w) (w_db w4)) as L04 by (etrans; [exact L2|exact L4]). rewrite awp_bind.
  unfold onSending. rewrite !awp_zoom. cbn [w_db w_ticks w_uuids view put onDb onPipeline].
  eapply awp_mono; [| |apply send_gated]; simpl.
  - intros r w5 Hg.
    assert (sentInStep db lead (put onPipeline (w_db w5) (sessionDb (w_db w4)))) as Hdone.
    { eapply gated_in_step; [done|done|exact L04|exact Hg|done]. }
    by destruct (out_outcome r).
  - intros w5 Hg. eapply gated_in_step; [done|done|exact L04|exact Hg|done].
Qed.

(** C4: No follow-up out of turn: if the unattended run hands a draft to the provider,
    it is the Gmail draft of the lead's latest active schedule, with finalized copy that
    a human approved, for a lead in status SCHEDULED; and if the copy is a follow-up,
    its outreach record is, at that time, waiting for exactly that step of the sequence
    and not marked do-not-contact.  The log gains at most this one call. *)
Theorem automated_send_in_step lead auth w :
  sentInStep (sessionDb (w_db w)) lead
    (sessionDb (w_db (sendOne c buildSendProvider quietly lead auth w).2)).
Proof.
  pose proof (sendOne_awp lead auth w) as Hs. unfold awp in Hs.
  by destruct (sendOne _ _ _ _ _ _) as [[]].
Qed.
End sending.

(** ** A paused run *)

(** What a paused run may change: the timeline, by enrolling what was sent before *)
Record onlyEnrols `{Runtime, TzDatabase} (db db' : SystemDb) : Prop := {
  oe_outside : sameOutside db db'; oe_timeline : calmMoves (outreachDb db) (outreachDb db');
}.

Section paused.
Context `{Runtime, TzDatabase, OrmErrors, SendProvider} (c : AppConfig).
Context (buildSendProvider : res ()) (interfere : nat → PM ()).

#[global] Instance onlyEnrols_preorder : PreOrder onlyEnrols.
Proof using Type.
  split; [by split|]. intros db1 db2 db3 [O1 T1] [O2 T2]. split; by etrans.
Qed.
(** Nothing but the database of the session changes, and that along [R]. *)
Definition idleSession : relation Session := λ s s',
  onlyEnrols (sessionDb s) (sessionDb s') ∧ sessionRunId s' = sessionRunId s.
#[global] Instance idleSession_preorder : PreOrder idleSession.
Proof using Type.
  split; [by split|]. intros s1 s2 s3 [D1 R1] [D2 R2]. split; [by etrans|congruence].
Qed.

(** The switches stop the sending: while any gate is closed, an unattended run
    hands nothing to the provider and touches neither the sending tables, nor drafts,
    authorizations and runs; all it may do is what its doc promises, to enrol earlier
    confirmed sends in the timeline, by legal requests to the outreach service. *)
Theorem paused_run_only_enrols w :
  gatesOpen (scheduledRunDeps c buildSendProvider interfere) = false →
  onlyEnrols (w_db w) (w_db (scheduledSendsInvocation c buildSendProvider interfere w).2).
Proof.
  intros Hclosed. set (w0 := World {| sessionDb := w_db w; sessionRunId := None |} (w_ticks w) (w_uuids w)).
  assert (idleSession (w_db w0) (w_db (runScheduledSends (scheduledRunDeps c buildSendProvider interfere) w0).2))
    as Hrun.
  { apply (closed_run_recovers _ idleSession Hclosed); try (simpl; always_tac).
    intros lead attempt. simpl. unfold enroll. apply (always_bind _); [|intros; always_tac].
    intros w1. rewrite zoom_run. simpl. split; [|done]. split.
    - apply (enroll_outside _ _ _ _ _ (World _ _ _)).
    - apply (enroll_calm _ _ _ _ _ (World _ _ _)). }
  unfold scheduledSendsInvocation. fold w0. unfold runScheduledSendsCommand.
  unfold mbind at 1, M_bind at 1.
  destruct (runScheduledSends _ w0) as [[report|e] w1]; destruct Hrun as [Hdb Hid]; simpl in Hdb, Hid; [|exact Hdb].
  unfold mbind, M_bind, query. by rewrite Hid.
Qed.
End paused.

(** ** Runs that never send *)

Section silent.
Context `{Runtime, TzDatabase, OrmErrors, SendProvider} (c : AppConfig).
Context (buildSendProvider : res ()) (interfere : nat → PM ()).

(** Sending to a lead changes nothing at all unless its preflight finds the gate open. *)
Lemma sendOne_gate lead auth w :
  let db := sessionDb (w_db w) in
  w_db (sendOne c buildSendProvider interfere lead auth w).2 = w_db w ∨
  ∃ l sched r, leads (pipelineDb db) !! lead = Some l ∧
    let input := baseInput lead l (latestSendInput lead db) None None in
    in_schedule input = Some sched ∧
    mayBeSent (gateSnapshot (buildSendConfig c) SCHEDULED_SOURCE input sched (pipelineDb db)
      (clock (w_ticks w)) (clock (S (w_ticks w)))) sched r.
Proof.
  intros db. destruct (leads (pipelineDb db) !! lead) as [l|] eqn:El; cycle 1.
  { left. unfold sendOne, onSending, getLead, mbind, M_bind. rewrite !zoom_run. simpl. fold db. rewrite El.
    by destruct (w_db w) as [[]]. }
  set (input := baseInput lead l (latestSendInput lead db) None None).
  cut (awp (sendOne c buildSendProvider interfere lead auth)
    (λ _ w', w_db w' = w_db w ∨ ∃ sched r, in_schedule input = Some sched ∧
       mayBeSent (gateSnapshot (buildSendConfig c) SCHEDULED_SOURCE input sched (pipelineDb db)
         (clock (w_ticks w)) (clock (S (w_ticks w)))) sched r)
    (λ w', w_db w' = w_db w ∨ ∃ sched r, in_schedule input = Some sched ∧
       mayBeSent (gateSnapshot (buildSendConfig c) SCHEDULED_SOURCE input sched (pipelineDb db)
         (clock (w_ticks w)) (clock (S (w_ticks w)))) sched r) w).
  { unfold awp. destruct (sendOne _ _ _ _ _ w) as [[]]; simpl; intros [?|(sched & r & Hg)]; eauto 10. }
  unfold sendOne. rewrite awp_bind. unfold onSending at 1. rewrite !awp_zoom. unfold getLead at 1.
  rewrite awp_query. cbn [w_db w_ticks w_uuids view put onDb onPipeline].
  set (w1 := World _ _ _). assert (w_db w1 = w_db w) as E1 by (unfold w1; by destruct (w_db w) as [[]]).
  assert (w_ticks w1 = w_ticks w) as T1 by done. clearbody w1.
  rewrite awp_bind, awp_query, E1. fold db. rewrite El.
  destruct (sid_schedule (latestSendInput lead db)); [|by left].
  rewrite awp_bind, awp_query, E1. destruct (suppressedFollowup _); [by left|].
  rewrite awp_bind. destruct buildSendProvider; simpl; [|by left]. rewrite awp_ret, awp_bind. fold input.
  set (w2 := World (pipelineDb (sessionDb (w_db w1))) (w_ticks w1) (w_uuids w1)).
  pose proof (preflight_gate (buildSendConfig c) SCHEDULED_SOURCE input w2) as Hgate.
  pose proof (preflight_reads (buildSendConfig c) SCHEDULED_SOURCE input w2) as Hreads.
  unfold onSending at 1. rewrite !awp_zoom. cbn [w_db w_ticks w_uuids view put onDb onPipeline]. fold w2.
  unfold wp in Hgate. unfold awp at 1.
  destruct (preflight _ _ input w2) as [[pre|e] w3]; simpl in Hreads; cycle 1.
  { left. simpl. rewrite <-Hreads, E1. by destruct (w_db w) as [[]]. }
  destruct (out_outcome pre) eqn:Eout; try (left; simpl; rewrite <-Hreads, E1; by destruct (w_db w) as [[]]).
  destruct (Hgate eq_refl) as (sched & r & Hsched & Hmay). unfold w2 in Hmay. simpl in Hmay. rewrite E1, T1 in Hmay.
  eapply awp_mono; [..|apply (awp_always (λ _ _, True))]; [intros ? ? _|intros ? _|done]; right; by exists sched, r.
Qed.

(** [J] is an invariant under which sending to a lead of [P] changes nothing. *)
Context (J : SystemDb → Prop) (P : string → Prop).
Context (J_outside : ∀ db db', sameOutside db db' → J db → J db') (J_runs : ∀ f db, J db → J (setRuns f db)).
Context (J_mint : ∀ auth t1 t2, always (kept J)
  (mintSessionReadiness (runnerAccount c) (ac_SENDING_POLICY_VERSION c) auth t1 t2)).
Context (J_due : ∀ nowMs limit db, J db → 0 < limit <= ac_SENDING_DAILY_CAP c →
  Forall P (dueScheduledLeadIds nowMs limit db)).
Context (J_send : ∀ lead auth w, P lead → J (sessionDb (w_db w)) →
  w_db (sendOne c buildSendProvider interfere lead auth w).2 = w_db w).

Lemma silent_invocation : always (kept J) (scheduledSendsInvocation c buildSendProvider interfere).
Proof using Type*.
  assert (∀ A (m : SM A), always (kept J) m → always (kept (J ∘ sessionDb)) (zoom onDb m)) as Hdb.
  { intros A m Hm. eapply always_zoom, Hm. by unfold kept. }
  assert (∀ A (m : SM A), always sameOutside m → always (kept J) m) as Hout.
  { intros A m Hm w. unfold kept. apply J_outside, Hm. }
  assert (always (kept (J ∘ sessionDb)) (runScheduledSendsCommand c buildSendProvider interfere)) as Hcommand.
  { unfold runScheduledSendsCommand. apply (always_bind _).
    - apply (kept_run _ _ P); simpl; try solve [intros; always_tac].
      + intros n. apply Hdb. intros w. unfold confirmedSendsToday, kept. rewrite zoom_run. simpl.
        by destruct (w_db w).
      + intros n w. unfold onSending, confirmedSendsToday. rewrite !wp_zoom, wp_query.
        unfold confirmedTodayIn. lia.
      + intros n l w HJ Hl. rewrite wp_query. by apply J_due.
      + intros lead a HP w HJ. unfold compose in *. by rewrite J_send.
      + intros l a. unfold enroll. apply (always_bind _); [|intros; always_tac]. apply Hdb, Hout, enroll_outside.
    - intros report. apply (always_bind _); [always_tac|]. intros runId.
      apply (always_bind _); [|intros; always_tac]. destruct runId; [|always_tac]. apply Hdb.
      unfold finishRun. apply (always_bind _); [always_tac|]. intros t.
      apply (always_modify _). intros db HJ. by apply J_runs. }
  intros w. specialize (Hcommand (World {| sessionDb := w_db w; sessionRunId := None |} (w_ticks w) (w_uuids w))).
  unfold scheduledSendsInvocation. by destruct (runScheduledSendsCommand _ _ _ _) as [r w'].
Qed.
End silent.

(** The tables in which a send leaves its traces *)
Definition sendTraces (db : PipelineDb) :
    gmap string Lead * list ScheduleRow * list AttemptRow * list Dispatch :=
  (leads db, schedules db, attempts db, dispatched db).
(** The same command, invoked again and again, whatever each invocation returns or throws *)
Definition invocations `{Runtime, TzDatabase, OrmErrors, SendProvider} (c : AppConfig)
    (buildSendProvider : res ()) (interfere : nat → PM ()) (n : nat) : world SystemDb → world SystemDb :=
  Nat.iter n (λ w, (scheduledSendsInvocation c buildSendProvider interfere w).2).

Section queue.
Context `{Runtime, TzDatabase, OrmErrors, SendProvider} (c : AppConfig).
Context (buildSendProvider : res ()) (interfere : nat → PM ()).

Lemma mint_traces account version auth t1 t2 (Q : list SendingReadinessRecord → Prop) :
  (∀ l, Q l → Q (map (λ r, if isActiveReadiness SCHEDULED_SOURCE account version r
                          then revokeReadinessRow t1 r else r) l)) →
  (∀ l r, Q l → ra_gmailAccount r = account → Q (l ++ [r])) →
  ∀ traces, always (kept (λ db, sendTraces (pipelineDb db) = traces ∧ Q (readinessApprovals (pipelineDb db))))
    (mintSessionReadiness account version auth t1 t2).
Proof.
  intros Qmap Qapp traces. unfold mintSessionReadiness, supersedeReadiness, insertReadiness.
  apply (always_transaction _).
  set (J := λ db, _).
  assert (∀ f, (∀ l, Q l → Q (f l)) → ∀ db, J db → J (put onPipeline (setReadiness f (pipelineDb db)) db)) as Hset.
  { intros f Hf db [HT HQ]. unfold J in *. simpl. destruct (pipelineDb db). simpl in *. auto. }
  apply (respects_bind _).
  { intros w. rewrite wp_zoom, wp_modify. simpl. unfold kept. apply Hset. exact Qmap. }
  intros _. apply (respects_bind _); [respects_tac|]. intros id. apply (respects_bind _); [|intros; respects_tac].
  intros w. rewrite wp_zoom, wp_guarded. simpl. intros _. unfold kept. apply Hset. intros l Hl. by apply Qapp.
Qed.
Lemma invocations_kept J n w :
  always (kept J) (scheduledSendsInvocation c buildSendProvider interfere) → J (w_db w) →
  J (w_db (invocations c buildSendProvider interfere n w)).
Proof. intros Hone HJ. induction n as [|n IH]; [done|]. simpl. by apply Hone. Qed.

(** ** An overdue schedule *)

(** The oldest active schedule of the scheduled leads is [lead]'s, and all that [lead]
    has scheduled is past its window at every reading of the clock. *)
Record blocksQueue (db : PipelineDb) (lead : string) : Prop := {
  bq_late : ∀ s, s ∈ schedules db → sc_leadId (sr_record s) = lead → isActiveSchedule s = true →
    ∀ n, sc_scheduledAtUtc (sr_record s) + ac_SENDING_MAX_LATE_MINUTES c * 60000 < clock n;
  bq_oldest : ∃ s, s ∈ schedules db ∧ sc_leadId (sr_record s) = lead ∧ isActiveSchedule s = true ∧
    ld_status <$> leads db !! lead = Some SCHEDULED ∧
    ∀ s', s' ∈ schedules db → isActiveSchedule s' = true → sc_leadId (sr_record s') ≠ lead →
      sc_scheduledAtUtc (sr_record s) < sc_scheduledAtUtc (sr_record s');
}.

(** The one due lead of a run with room for one is the one with the oldest schedule. *)
Lemma due_oldest nowMs db lead :
  lead ∈ dueScheduledLeadIds nowMs 1 db →
  ∃ x, x ∈ schedules (pipelineDb db) ∧ isDueSchedule nowMs db x = true ∧ sc_leadId (sr_record x) = lead ∧
    ∀ y, y ∈ schedules (pipelineDb db) → isDueSchedule nowMs db y = true →
      sc_scheduledAtUtc (sr_record x) <= sc_scheduledAtUtc (sr_record y).
Proof using Type.
  unfold dueScheduledLeadIds, limitTo, orderBy. simpl. set (due := List.filter _ _). set (cmp := λ x y, _).
  destruct (sortBy cmp due) as [|x rest] eqn:Esort; simpl; [by intros ?%not_elem_of_nil|].
  intros ->%list_elem_of_singleton.
  assert (x ∈ due) as Hx by (rewrite <-(sortBy_perm cmp due), Esort; by left).
  apply elem_of_List_filter in Hx as [Hx Hdue]. exists x. split_and!; [done..|]. intros y Hy Hydue.
  apply (sortBy_head cmp (λ x : ScheduleRow, sc_scheduledAtUtc (sr_record x)) due).
  1, 2: intros a b; unfold cmp, ascending; lia.
  - by rewrite Esort.
  - by apply elem_of_List_filter.
Qed.
Lemma blocked_due lead db nowMs limit :
  blocksQueue (pipelineDb db) lead → 0 < limit <= 1 →
  Forall (eq lead) (dueScheduledLeadIds nowMs limit db).
Proof using Type.
  intros [_ (s & Hs & Hlead & Hact & Hst & Hold)] Hlimit. replace limit with 1 by lia.
  apply Forall_forall. intros lead' (x & Hx & Hdue & <- & Hmin)%due_oldest.
  destruct (decide (sc_leadId (sr_record x) = lead)) as [E|Hne]; [done|]. exfalso.
  unfold isDueSchedule in Hdue. apply andb_prop in Hdue as [[Hxa _]%andb_prop Hxt%Z.leb_le].
  pose proof (Hold x Hx Hxa Hne) as Hlt.
  assert (isDueSchedule nowMs db s = true) as Hsdue.
  { unfold isDueSchedule. rewrite Hact, Hlead, bool_decide_eq_true_2 by done. simpl. apply Z.leb_le. lia. }
  pose proof (Hmin s Hs Hsdue). lia.
Qed.
Lemma blocked_silent lead auth w :
  blocksQueue (pipelineDb (sessionDb (w_db w))) lead →
  w_db (sendOne c buildSendProvider interfere lead auth w).2 = w_db w.
Proof.
  intros Hblock. destruct (sendOne_gate c buildSendProvider interfere lead auth w) as [?|(l & sched & r & _ & Hgate)];
    [done|]. destruct Hgate as [Hsched Hmay]. exfalso.
  unfold baseInput, latestSendInput in Hsched. simpl in Hsched.
  destruct (latestBy sr_createdAt _) as [s|] eqn:Es; [|done]. simpl in Hsched. injection Hsched as <-.
  apply latestBy_max in Es as [Hs _]. unfold activeSchedules in Hs.
  apply elem_of_List_filter in Hs as [Hs [Hlead%bool_decide_eq_true Hact]%andb_prop].
  pose proof (bq_late _ _ Hblock s Hs Hlead Hact (w_ticks w)) as Hlate.
  destruct Hmay as [_ _ _ _ _ _ [_ Hwin] _ _ _ _]. simpl in Hwin. lia.
Qed.

(** C24: An overdue schedule stops the queue for good: with room for one send per run (the
    default cap), once the oldest schedule is past its window, no number of unattended
    runs ever sends anything, for any lead: each run is given that schedule again,
    its preflight refuses it without recording anything, and the rest waits. *)
Theorem overdue_schedule_starves_queue lead n w :
  ac_SENDING_DAILY_CAP c = 1 → blocksQueue (pipelineDb (w_db w)) lead →
  sendTraces (pipelineDb (w_db (invocations c buildSendProvider interfere n w))) =
    sendTraces (pipelineDb (w_db w)).
Proof.
  intros Hcap Hblock. set (traces := sendTraces (pipelineDb (w_db w))).
  set (J := λ db : SystemDb, sendTraces (pipelineDb db) = traces ∧ True).
  assert (∀ db, J db → blocksQueue (pipelineDb db) lead) as HJ.
  { intros db [HT _]. unfold traces, sendTraces in HT. injection HT as E1 E2 E3 E4.
    destruct Hblock as [Hl Ho]. split; [by rewrite E2|by rewrite E1, E2]. }
  apply (invocations_kept J); [|done]. apply (silent_invocation _ _ _ J (eq lead)).
  - intros db db' Hout%sameOutside_pipeline HJdb. unfold J, samePipeline, onPipelines in *. by rewrite <-Hout.
  - intros f db HJdb. exact HJdb.
  - intros auth t1 t2. by apply (mint_traces _ _ _ _ _ (λ _, True)).
  - intros nowMs limit db HJdb Hl. rewrite Hcap in Hl. by apply blocked_due; [apply HJ|].
  - intros lead' auth w' <- HJdb. by apply blocked_silent, HJ.
Qed.

(** ** An account that is not written in lower case *)

(** An account with a capital letter or a blank never sends: if GMAIL_ACCOUNT_EMAIL is
    not in the normalized form, the run mints its readiness for the normalized account
    while the sending service looks it up under the account as configured; unless such a
    readiness is already there, no number of unattended runs sends anything. *)
Theorem unnormalized_account_never_sends account n w :
  ac_GMAIL_ACCOUNT_EMAIL c = Some account → normalizeEmail account ≠ account →
  (∀ r, r ∈ readinessApprovals (pipelineDb (w_db w)) → ra_source r = SCHEDULED_SOURCE →
     ra_gmailAccount r ≠ account) →
  sendTraces (pipelineDb (w_db (invocations c buildSendProvider interfere n w))) =
    sendTraces (pipelineDb (w_db w)).
Proof.
  intros Hacc Hnorm Hnone.
  set (Q := λ l : list SendingReadinessRecord,
    ∀ r, r ∈ l → ra_source r = SCHEDULED_SOURCE → ra_gmailAccount r ≠ account).
  set (J := λ db : SystemDb, sendTraces (pipelineDb db) = sendTraces (pipelineDb (w_db w)) ∧
    Q (readinessApprovals (pipelineDb db))).
  apply (invocations_kept J); [|done]. apply (silent_invocation _ _ _ J (λ _, True)).
  - intros db db' Hout%sameOutside_pipeline HJdb. unfold J, samePipeline, onPipelines in *. by rewrite <-Hout.
  - intros f db HJdb. exact HJdb.
  - intros auth t1 t2. apply mint_traces.
    + intros l Hl r (r' & -> & Hr')%list_elem_of_fmap. case_match; simpl; by apply Hl.
    + intros l r Hl Hr r' [?| ->%list_elem_of_singleton]%elem_of_app; [by apply Hl|].
      intros _. rewrite Hr. unfold runnerAccount. by rewrite Hacc.
  - intros. by apply Forall_forall.
  - intros lead auth w' _ [_ HQ].
    destruct (sendOne_gate c buildSendProvider interfere lead auth w') as [?|(l & sched & r & _ & _ & Hmay)]; [done|].
    exfalso. destruct (ms_readiness _ _ _ Hmay) as [Hready _]. simpl in Hready.
    destruct (readinessIn _ _ _ _) as [r'|] eqn:Er; [|done].
    apply latestBy_max in Er as [Hr' _]. apply elem_of_List_filter in Hr' as [Hin Hmatch].
    apply andb_prop in Hmatch as [[Ea%bool_decide_eq_true _]%andb_prop Es%bool_decide_eq_true].
    simpl in Ea. rewrite Hacc in Ea. by apply (HQ r' Hin Es).
Qed.
End queue.

(** ** Witnesses *)

#[local] Existing Instance demo_runtime.
#[local] Existing Instance demo_tz.
#[local] Existing Instance demo_orm.
#[local] Existing Instance demo_provider.

(** A paused run enrols what was sent by hand before. *)
Lemma paused_run_only_enrols_witness :
  length (messages (outreachDb (w_db (demoInvocation "me@agency.de" false (demoWorld demoSentSystem)).2))) = 1%nat ∧
  onlyEnrols (w_db (demoWorld demoSentSystem))
    (w_db (scheduledSendsInvocation (demoAppConfig "me@agency.de" false) (Ok tt) quietly
       (demoWorld demoSentSystem)).2).
Proof.
  split; [vm_compute; reflexivity|]. apply paused_run_only_enrols. reflexivity.
Defined.

(** With the older schedule gone the same lead would be sent to at once. *)
Lemma demo_clock_late n : demoSlot - 7200000 + 60 * 60000 < @clock demo_runtime n.
Proof. unfold demoSlot. simpl. lia. Qed.
Lemma overdue_schedule_starves_queue_witness :
  (∀ n, dispatched (pipelineDb (w_db (invocations (demoAppConfig "me@agency.de" true) (Ok tt) quietly n
     (demoWorld demoLateSystem)))) = []) ∧
  length (dispatched (pipelineDb (w_db (invocations (demoAppConfig "me@agency.de" true) (Ok tt) quietly 1
     (demoWorld demoSystem))))) = 1%nat.
Proof.
  split; [|vm_compute; reflexivity]. intros n.
  assert (sendTraces (pipelineDb (w_db (invocations (demoAppConfig "me@agency.de" true) (Ok tt) quietly n
    (demoWorld demoLateSystem)))) = sendTraces (pipelineDb demoLateSystem)) as Htraces.
  { apply (overdue_schedule_starves_queue _ _ _ "l2"); [reflexivity|]. split.
    - intros s Hs Hlead _ k. apply elem_of_cons in Hs. destruct Hs as [Es|Hs].
      + rewrite Es in Hlead. discriminate Hlead.
      + apply list_elem_of_singleton in Hs. rewrite Hs. apply demo_clock_late.
    - exists demoLateSchedule. split; [right; left|]. split; [reflexivity|]. split; [reflexivity|].
      split; [reflexivity|]. intros s' Hs' _ Hne. apply elem_of_cons in Hs'. destruct Hs' as [Es|Hs'].
      + rewrite Es. reflexivity.
      + apply list_elem_of_singleton in Hs'. rewrite Hs' in Hne. destruct (Hne eq_refl). }
  injection Htraces as _ _ _ Hlog. exact Hlog.
Defined.

(** The same database and mailbox, but for one capital letter in the environment *)
Lemma unnormalized_account_never_sends_witness :
  (∀ n, dispatched (pipelineDb (w_db (invocations (demoAppConfig "Me@agency.de" true) (Ok tt) quietly n
     (demoWorld demoSystem)))) = []) ∧
  length (dispatched (pipelineDb (w_db (invocations (demoAppConfig "me@agency.de" true) (Ok tt) quietly 1
     (demoWorld demoSystem))))) = 1%nat.
Proof.
  split; [|vm_compute; reflexivity]. intros n.
  assert (sendTraces (pipelineDb (w_db (invocations (demoAppConfig "Me@agency.de" true) (Ok tt) quietly n
    (demoWorld demoSystem)))) = sendTraces (pipelineDb demoSystem)) as Htraces.
  { apply (unnormalized_account_never_sends _ _ _ "Me@agency.de"); [reflexivity|vm_compute; discriminate|].
    intros r Hr. apply list_elem_of_singleton in Hr. rewrite Hr. simpl. discriminate. }
  injection Htraces as _ _ _ Hlog. exact Hlog.
Defined.
