(* ===== verification/EnrollSpecs.v ===== *)
(** * What the enrolment bridge records

    [enrollConfirmedSendFromAttempt] adds to the timeline exactly what was sent, and
    nothing for an attempt that is not known to have been sent. *)
From S2P Require Import Prelude.
From S2P Require Import JsText.
From S2P Require Import TimeZone.
From S2P Require Import OutreachStatus.
From S2P Require Import OutreachGates.
From S2P Require Import OutreachStore.
From S2P Require Import OutreachService.
From S2P Require Import OutreachWrites.
From S2P Require Import OutreachTimeline.
From S2P Require Import OutreachFollowups.
From S2P Require Import OutreachSpecs.
From S2P Require Import LeadLifecycle.
From S2P Require Import PipelineDb.
From S2P Require Import SendGate.
From S2P Require Import SendService.
From S2P Require Import SendSafety.
From S2P Require Import SystemDb.
From S2P Require Import EnrollBridge.
From S2P Require Import ScheduledRun.
From S2P Require Import ScheduledCommand.
Open Scope Z_scope.
Open Scope list_scope.

(** ** Steps that leave the messages alone *)

Definition sameMessages (db db' : OutreachDb) : Prop := messages db' = messages db.
#[global] Instance sameMessages_preorder : PreOrder sameMessages.
Proof. split; [done|]. intros ? ? ?. unfold sameMessages. congruence. Qed.

Section messages.
Context `{Runtime, TzDatabase}.

Lemma messages_guarded check f : (∀ db, messages (f db) = messages db) → respects sameMessages (guarded check f).
Proof using Type. intros Hf. apply (respects_guarded sameMessages). intros db _. apply Hf. Qed.
Lemma messages_event evt : respects sameMessages (appendEvent evt).
Proof using Type.
  unfold appendEvent. respects_step; [respects_step|intros]. respects_step; [respects_step|intros].
  respects_step; [by apply messages_guarded|intros; respects_step].
Qed.
Lemma messages_insertRecord r : respects sameMessages (insertRecord r).
Proof using Type. by apply messages_guarded. Qed.
Lemma messages_updateRecord id patch t : respects sameMessages (updateRecord id patch t).
Proof using Type. by apply messages_guarded. Qed.
Lemma messages_insertFollowup f : respects sameMessages (insertFollowup f).
Proof using Type. by apply messages_guarded. Qed.
Lemma messages_updateFollowup id st reason t : respects sameMessages (updateFollowupStatus id st reason t).
Proof using Type. by apply messages_guarded. Qed.
#[local] Hint Resolve messages_event messages_insertRecord messages_updateRecord
  messages_insertFollowup messages_updateFollowup : outreach.
Lemma messages_walk id att from path : respects sameMessages (walkPath id att from path).
Proof using Type. revert from. induction path; intros from; simpl; respects_tac. Qed.
#[local] Hint Resolve messages_walk : outreach.
Lemma messages_track input : respects sameMessages (track input).
Proof using Type. unfold track, hasDoNotContact, findActiveRecord. cbv zeta. respects_tac. Qed.

(** The message that a confirmed send leaves behind *)
Record recordedAs (type : OutreachMessageType) (step : Z) (recordId : string) (input : EnrollInputData)
    (content : string * string * Z) (m : OutreachMessage) : Prop := {
  ra_record : om_outreachRecordId m = recordId; ra_kind : om_messageType m = type ∧ om_sequenceStep m = step;
  ra_text : om_subject m = ei_subject input ∧ om_body m = ei_body input ∧
    om_contentHash m = messageContentHash (ei_subject input) (ei_body input);
  ra_gmail : om_gmailMessageId m = Some content.1.1 ∧ om_gmailThreadId m = Some content.1.2 ∧
    om_sentAt m = Some content.2;
  ra_provenance : om_emailDraftId m = Some (ei_emailDraftId input) ∧
    om_finalizedEmailId m = Some (ei_finalizedEmailId input);
}.

Lemma wp_skip {A B} (m : OM A) (k : A → OM B) Q w :
  respects sameMessages m → (∀ a w', sameMessages (w_db w) (w_db w') → wp (k a) Q w') → wp (m ≫= k) Q w.
Proof using Type. intros Hm Hk. apply wp_bind. eapply wp_mono; [exact Hk|apply Hm]. Qed.
(** Follows a computation past everything that leaves the messages alone *)
Ltac skip_messages := repeat (apply wp_skip; [respects_tac|intros ? ? ?]).

Lemma enrollSend_message policy id input content w :
  wp (enrollConfirmedSend (initialInput policy id input content))
    (λ r w', match esr_outcome r with
       | ES_ENROLLED => ∃ m, recordedAs INITIAL 0 (or_id (esr_record r)) input content m ∧
           messages (w_db w') = messages (w_db w) ++ [m]
       | _ => w_db w' = w_db w
       end) w.
Proof using Type.
  unfold enrollConfirmedSend, findMessageByGmailMessageId.
  rewrite wp_transaction, wp_bind. apply wp_require. intros rec Hrec. rewrite wp_bind, wp_query.
  destruct (List.find _ _) as [m|]; [done|]. destruct (enrollIndex _); [|done].
  case_bool_decide; [done|]. wp_run. unfold insertMessage at 1. rewrite wp_guarded. intros _.
  cbn [w_db w_ticks w_uuids]. set (m := Build_OutreachMessage _ _ _ _ _ _ _ _ _ _ _ _ _ _).
  assert (recordedAs INITIAL 0 (or_id rec) input content m) as Hm by done. clearbody m.
  skip_messages. rewrite wp_ret. simpl. exists m. split; [by destruct rec|].
  unfold sameMessages in *. simpl in *. congruence.
Qed.
Lemma enrollFollowup_message policy id step input content w :
  wp (enrollConfirmedFollowup (followupInput policy id step input content))
    (λ r w', match efr_outcome r with
       | EF_ENROLLED => ∃ m, recordedAs FOLLOW_UP (stepNumber step) (or_id (efr_record r)) input content m ∧
           messages (w_db w') = messages (w_db w) ++ [m]
       | _ => w_db w' = w_db w
       end) w.
Proof using Type.
  unfold enrollConfirmedFollowup, findMessageByGmailMessageId, pendingFollowups.
  rewrite wp_transaction, wp_bind. apply wp_require. intros rec Hrec. rewrite wp_bind, wp_query.
  destruct (List.find _ _) as [m|]; [done|]. destruct (pendingFollowupStep _) as [pending|]; [|done].
  case_bool_decide as Estep; [|done]. simpl in Estep. subst pending. simpl. wp_run.
  unfold insertMessage at 1. rewrite wp_guarded. intros _.
  cbn [w_db w_ticks w_uuids]. set (m := Build_OutreachMessage _ _ _ _ _ _ _ _ _ _ _ _ _ _).
  assert (recordedAs FOLLOW_UP (stepNumber step) (or_id rec) input content m) as Hm by done. clearbody m.
  skip_messages. rewrite wp_ret. simpl. exists m. split; [by destruct rec|].
  unfold sameMessages in *. simpl in *. congruence.
Qed.
End messages.

(** ** The bridge *)

(** The attempt [input] is known to have been sent, for [lead], with the text that the
    finalization still has; Gmail ids and instant are in [content]. *)
Record wasSent (input : EnrollInputData) (lead : string) (content : string * string * Z) : Prop := {
  ws_lead : ei_leadId input = lead;
  ws_confirmed : ei_status input = AT_SENT_CONFIRMED ∨ ei_reconciledOutcome input = Some CONFIRMED_SENT;
  ws_ids : ei_providerMessageId input = Some content.1.1 ∧ ei_providerThreadId input = Some content.1.2 ∧
    content.1.1 ≠ "" ∧ content.1.2 ≠ "";
  ws_sentAt : ei_sentAt input = Some content.2;
  ws_text : ei_attemptFinalizedContentHash input = ei_resolvedBodyHash input;
}.
Lemma confirmedContent_iff input lead content :
  confirmedContent input lead = inl content ↔ wasSent input lead content.
Proof.
  unfold confirmedContent. split.
  - destruct (String.eqb_spec (ei_leadId input) lead) as [Hl|]; [|done]. simpl.
    destruct (negb _) eqn:Hc; [done|]. apply negb_false_iff, orb_prop in Hc.
    destruct (ei_providerMessageId input) as [m|] eqn:Em; [|done].
    destruct (ei_providerThreadId input) as [t|] eqn:Et; [|done].
    destruct (negb _ || _) eqn:Ht; [done|]. apply orb_false_elim in Ht as [Ht1%negb_false_iff Ht2%negb_false_iff].
    destruct (ei_sentAt input) as [at_|] eqn:Ea; [|done].
    destruct (String.eqb_spec (ei_attemptFinalizedContentHash input) (ei_resolvedBodyHash input)); [|done].
    simpl. intros [= <-]. split; simpl; try done.
    + by destruct Hc as [?%bool_decide_eq_true|?%bool_decide_eq_true]; [left|right].
    + split_and!; [done..| |]; intros ->; done.
  - intros [-> Hc (-> & -> & Hm & Ht) -> ->]. rewrite !String.eqb_refl. simpl.
    assert (bool_decide (ei_status input = AT_SENT_CONFIRMED) ||
      bool_decide (ei_reconciledOutcome input = Some CONFIRMED_SENT) = true) as ->.
    { apply orb_true_iff. by rewrite !bool_decide_eq_true. }
    simpl. assert (∀ s, s ≠ "" → truthy s = true) as Htruthy by (by intros []).
    rewrite !Htruthy by done. simpl. by destruct content as [[]].
Qed.

Definition messageKind (step : Z) : OutreachMessageType := if bool_decide (step = 0) then INITIAL else FOLLOW_UP.
(** What one run of the bridge made of an attempt *)
Definition bridged `{Runtime} (lead attempt : string) (db : SystemDb) (r : EnrollFromAttemptResult) (db' : SystemDb) : Prop :=
  match ear_outcome r with
  | EA_ENROLLED => ∃ input content recordId m,
      loadEnrollInput attempt db = Some input ∧ wasSent input lead content ∧ ear_recordId r = Some recordId ∧
      recordedAs (messageKind (ei_sequenceStep input)) (ei_sequenceStep input) recordId input content m ∧
      messages (outreachDb db') = messages (outreachDb db) ++ [m]
  | _ => messages (outreachDb db') = messages (outreachDb db)
  end.

Section bridge.
Context `{Runtime, TzDatabase} (policy : SequencePolicy).

Lemma awp_committed {A} (m : OM A) Q E w :
  wp (transaction m) Q w → (∀ w', w_db w' = w_db w → E w') → awp (transaction m) Q E w.
Proof using Type. intros Hm. apply awp_transaction. by apply wp_transaction. Qed.

Lemma enrollTracked_messages campaign input content record w :
  let out r w' := match ear_outcome r with
    | EA_ENROLLED => ∃ recordId m, ear_recordId r = Some recordId ∧
        recordedAs (messageKind (ei_sequenceStep input)) (ei_sequenceStep input) recordId input content m ∧
        messages (outreachDb (w_db w')) = messages (outreachDb (w_db w)) ++ [m]
    | _ => messages (outreachDb (w_db w')) = messages (outreachDb (w_db w))
    end in
  awp (enrollTracked policy campaign input content record) out
    (λ w', messages (outreachDb (w_db w')) = messages (outreachDb (w_db w))) w.
Proof.
  intros out. unfold enrollTracked. case_bool_decide as Hstep.
  - rewrite awp_bind, awp_zoom. unfold enrollConfirmedSend at 1. apply awp_committed; [|simpl; by intros w' ->].
    eapply wp_mono; [|apply enrollSend_message]. simpl. intros r w'. rewrite awp_ret. unfold out, enrolled. simpl.
    destruct (esr_outcome r); simpl; [|by intros ->..]. intros (m & Hm & Hmsgs).
    exists (or_id (esr_record r)), m. unfold messageKind. rewrite bool_decide_eq_true_2, Hstep by done. done.
  - destruct (isFollowupStep _) as [step|] eqn:Estep; [|done]. destruct (otherRecord _ _); [done|].
    assert (ei_sequenceStep input = stepNumber step) as Enum.
    { revert Estep. unfold isFollowupStep. repeat (case_match; [intros [= <-]; simpl; lia|]). done. }
    rewrite awp_bind, awp_zoom. unfold enrollConfirmedFollowup at 1. apply awp_committed; [|simpl; by intros w' ->].
    eapply wp_mono; [|apply enrollFollowup_message]. simpl. intros r w'. rewrite awp_ret. unfold out, enrolled. simpl.
    destruct (efr_outcome r); simpl; [|by intros ->..]. intros (m & Hm & Hmsgs).
    exists (or_id (efr_record r)), m. unfold messageKind. rewrite bool_decide_eq_false_2, Enum by done. done.
Qed.

Lemma bridge_messages lead attempt name by_ w :
  awp (enrollConfirmedSendFromAttempt policy lead attempt name by_)
    (λ r w', bridged lead attempt (w_db w) r (w_db w') ∧
       ((∀ input content, loadEnrollInput attempt (w_db w) = Some input → ¬ wasSent input lead content) →
          ear_outcome r = EA_REFUSED ∧ w_db w' = w_db w))
    (λ w', messages (outreachDb (w_db w')) = messages (outreachDb (w_db w))) w.
Proof.
  unfold enrollConfirmedSendFromAttempt. rewrite awp_bind, awp_query.
  destruct (loadEnrollInput attempt (w_db w)) as [input|] eqn:Eload; [|done].
  destruct (confirmedContent input lead) as [content|reason] eqn:Econf.
  2: { rewrite awp_ret. done. }
  apply confirmedContent_iff in Econf as Hsent.
  rewrite awp_bind, awp_query, awp_bind.
  assert (∀ w1, messages (outreachDb (w_db w1)) = messages (outreachDb (w_db w)) →
    awp (match campaignByName name (w_db w) with
         | Some campaign => mret campaign
         | None => insertCampaign name policy "UTC" end)
      (λ _ w', messages (outreachDb (w_db w')) = messages (outreachDb (w_db w)))
      (λ w', messages (outreachDb (w_db w')) = messages (outreachDb (w_db w))) w1) as Hcampaign.
  { intros w1 E1. destruct (campaignByName _ _); [done|]. unfold insertCampaign. awp_run. by case_match. }
  eapply awp_mono; [| |by apply Hcampaign]; simpl; [|done]. intros campaign w1 E1.
  rewrite awp_bind, awp_zoom. unfold track at 1. apply awp_committed.
  2: { simpl. intros w2 ->. done. }
  eapply wp_mono; [|apply messages_track]. unfold sameMessages. simpl. intros tracked w2 E2.
  assert (∀ reason w', messages (outreachDb (w_db w')) = messages (outreachDb (w_db w)) →
    bridged lead attempt (w_db w) (refused reason) (w_db w') ∧
    ((∀ input0 content0, Some input = Some input0 → ¬ wasSent input0 lead content0) →
       ear_outcome (refused reason) = EA_REFUSED ∧ w_db w' = w_db w)) as Hrefused.
  { intros reason w' E. split; [exact E|]. intros Hno. by destruct (Hno input content). }
  set (w3 := World _ _ _). assert (messages (outreachDb (w_db w3)) = messages (outreachDb (w_db w))) as E3.
  { unfold w3. simpl. congruence. }
  clearbody w3. destruct tracked as [[] [record|]]; try (rewrite awp_ret; by apply Hrefused).
  all: eapply awp_mono; [| |apply enrollTracked_messages]; simpl; [|intros; congruence].
  all: intros r w4 Hout; split; [|intros Hno; by destruct (Hno input content)].
  all: unfold bridged; destruct (ear_outcome r); [|congruence..].
  all: destruct Hout as (recordId & m & Hid & Hm & Hmsgs); exists input, content, recordId, m.
  all: split_and!; [done..|congruence].
Qed.

(** The timeline records what was sent, and only that: whenever the bridge reports
    ENROLLED, the attempt is confirmed (or reconciled as sent) for that lead and has a
    Gmail message and thread id and an instant, its text is still the finalized one,
    and exactly one message was added, with the subject, body, ids, instant, drafts and
    sequence step of the attempt.  For every other outcome, and if it throws, no message
    is added; and an attempt that is not known to be sent is refused with nothing written. *)
Theorem bridge_records_what_was_sent lead attempt name by_ w :
  match enrollConfirmedSendFromAttempt policy lead attempt name by_ w with
  | (Ok r, w') => bridged lead attempt (w_db w) r (w_db w') ∧
      ((∀ input content, loadEnrollInput attempt (w_db w) = Some input → ¬ wasSent input lead content) →
         ear_outcome r = EA_REFUSED ∧ w_db w' = w_db w)
  | (Throw _, w') => messages (outreachDb (w_db w')) = messages (outreachDb (w_db w))
  end.
Proof. apply bridge_messages. Qed.
End bridge.

(** ** A first contact *)

(** The bridge finds the campaign [campaign] by its name and a contact that it may track anew. *)
Record newContact (db : SystemDb) (name lead : string) (input : EnrollInputData) (campaign : CampaignRow) :
    Prop := {
  nc_campaign : campaignByName name db = Some campaign ∧ cp_id campaign ∈ campaignIds (outreachDb db);
  nc_lead : lead ∈ leadIds (outreachDb db);
  nc_open : contactBlocked (outreachDb db) (normalizeEmail (ei_recipientEmail input)) = false;
  nc_untracked : ∀ k r, records (outreachDb db) !! k = Some r → isOutreachTerminal (or_status r) = false →
    (or_campaignId r, or_leadId r, or_contactEmail r) ≠
      (cp_id campaign, lead, normalizeEmail (ei_recipientEmail input));
}.

Section first_contact.
Context `{Runtime, TzDatabase} (policy : SequencePolicy).

(** The outreach tables of a world *)
Definition outreachWorld (w : world SystemDb) : world OutreachDb :=
  World (outreachDb (w_db w)) (w_ticks w) (w_uuids w).
Lemma bridge_tracks lead attempt name by_ w input content campaign Q :
  ready (outreachWorld w) → loadEnrollInput attempt (w_db w) = Some input → wasSent input lead content →
  newContact (w_db w) name lead input campaign →
  (∀ rec w', ready (outreachWorld w') → records (outreachDb (w_db w)) !! or_id rec = None →
     or_status rec = DRAFT_READY → or_timezone rec = cp_timezone campaign →
     sameTables (setRecords <[or_id rec := rec]> (outreachDb (w_db w))) (outreachDb (w_db w')) →
     twp (enrollTracked policy campaign input content rec) Q w') →
  twp (enrollConfirmedSendFromAttempt policy lead attempt name by_) Q w.
Proof.
  intros Hready Hload Hsent%confirmedContent_iff [[Hcamp Hkey] Hlead Hopen Hnone] HQ.
  unfold enrollConfirmedSendFromAttempt. rewrite twp_bind, twp_query, Hload, Hsent, twp_bind, twp_query, Hcamp.
  rewrite twp_bind, twp_ret, twp_bind, twp_zoom. apply twp_track; try done. cbn [w_db w_ticks w_uuids view put onOutreach].
  intros rec w' Hw' Hnew Hst Htz Hsame. by apply HQ.
Qed.

(** A confirmed first send of a new contact always reaches the timeline: for an attempt
    that was sent, a known campaign with a valid time zone and a contact that is neither
    blocked nor tracked there yet, the bridge returns ENROLLED; the record that it
    created is in status INITIAL_SENT, holds the message, and has its first follow-up due. *)
Theorem bridge_enrols_first_send lead attempt name by_ w input content campaign off :
  ready (outreachWorld w) → loadEnrollInput attempt (w_db w) = Some input → wasSent input lead content →
  newContact (w_db w) name lead input campaign → ei_sequenceStep input = 0 →
  zone (cp_timezone campaign) = Some off →
  (∀ m, m ∈ messages (outreachDb (w_db w)) → om_gmailMessageId m ≠ Some content.1.1) →
  ei_emailDraftId input ∈ emailDraftIds (outreachDb (w_db w)) →
  ei_finalizedEmailId input ∈ finalizationIds (outreachDb (w_db w)) →
  ∃ r w' id rec f, enrollConfirmedSendFromAttempt policy lead attempt name by_ w = (Ok r, w') ∧
    ear_outcome r = EA_ENROLLED ∧ ear_recordId r = Some id ∧
    records (outreachDb (w_db w)) !! id = None ∧ records (outreachDb (w_db w')) !! id = Some rec ∧
    or_status rec = INITIAL_SENT ∧ or_lastSentAt rec = Some content.2 ∧
    followups (outreachDb (w_db w')) !! fu_id f = Some f ∧ fu_outreachRecordId f = id ∧ fu_status f = FU_DUE ∧
    fu_dueAt f = followupDueIn off content.2 Step1 policy.
Proof.
  intros Hready Hload Hsent Hnew Hstep Hzone Hg Hdraft Hfin.
  cut (twp (enrollConfirmedSendFromAttempt policy lead attempt name by_) (λ r w', ∃ id rec f,
    ear_outcome r = EA_ENROLLED ∧ ear_recordId r = Some id ∧
    records (outreachDb (w_db w)) !! id = None ∧ records (outreachDb (w_db w')) !! id = Some rec ∧
    or_status rec = INITIAL_SENT ∧ or_lastSentAt rec = Some content.2 ∧
    followups (outreachDb (w_db w')) !! fu_id f = Some f ∧ fu_outreachRecordId f = id ∧ fu_status f = FU_DUE ∧
    fu_dueAt f = followupDueIn off content.2 Step1 policy) w).
  { intros (r & w' & Hrun & id & rec & f & Hout)%twp_returns. by exists r, w', id, rec, f. }
  eapply bridge_tracks; [exact Hready|exact Hload|exact Hsent|exact Hnew|].
  intros rec w1 R1 Hfresh Hst Htz [Hsame _]. unfold enrollTracked. rewrite bool_decide_eq_true_2 by done.
  assert (records (outreachDb (w_db w1)) = <[or_id rec := rec]> (records (outreachDb (w_db w)))) as Erec
    by (rewrite Hsame; done).
  assert (messages (outreachDb (w_db w1)) = messages (outreachDb (w_db w))) as Emsg by (rewrite Hsame; done).
  assert (followups (outreachDb (w_db w1)) = followups (outreachDb (w_db w))) as Efu by (rewrite Hsame; done).
  assert (emailDraftIds (outreachDb (w_db w1)) = emailDraftIds (outreachDb (w_db w))) as Edr by (rewrite Hsame; done).
  assert (finalizationIds (outreachDb (w_db w1)) = finalizationIds (outreachDb (w_db w))) as Efn by (rewrite Hsame; done).
  set (i := initialInput policy (or_id rec) input content).
  pose proof (service_writes (OpEnrollConfirmedSend i) (outreachWorld w1)) as Hwrites.
  unfold exec in Hwrites. rewrite wp_ignore in Hwrites.
  assert (twp (enrollConfirmedSend i) (λ r w', initialEnrolled i rec
    (followupDueIn off (ecs_sentAt i) Step1 (ecs_policy i)) r (w_db (outreachWorld w1)) (w_db w')) (outreachWorld w1)) as Htotal.
  { apply twp_enrollConfirmedSend; cbn [outreachWorld w_db]; rewrite ?Emsg, ?Efu, ?Erec; simpl.
    - done.
    - by rewrite lookup_insert_eq.
    - rewrite Hst. by left.
    - exact Hg.
    - intros k f Hf _ [= Hfr _]. destruct (wf_followupRecord _ (proj1 Hready) k f Hf) as [r Hr]. simpl in Hr.
      rewrite Hfr, Hfresh in Hr. done.
    - by rewrite Htz.
    - rewrite Edr. by rewrite bool_decide_eq_true_2.
    - rewrite Efn. by rewrite bool_decide_eq_true_2. }
  rewrite twp_bind, twp_zoom. eapply twp_mono; [|exact (twp_and_wp _ _ _ _ Htotal Hwrites)].
  simpl. intros r w2 [[Hout _ (f & _ & Hfs & Hfr & _ & Hfst & Hdue) (Hrecs & Hrst & Hlast & _) _] Hw].
  apply writes_wellFormed in Hw; [|apply R1].
  assert (records (w_db w2) !! or_id rec = Some (esr_record r)) as Hl by (by rewrite Hrecs, lookup_insert_eq).
  assert (or_id (esr_record r) = or_id rec) as Hid by by apply (wf_recordKey _ Hw).
  rewrite twp_ret. simpl. exists (or_id rec), (esr_record r), f. rewrite Hout, Hid, Hfs, lookup_insert_eq.
  split_and!; done.
Qed.

(** A follow-up of a record in another campaign never reaches the timeline: if the copy
    belongs to a record that the named campaign does not have, the bridge refuses, and
    yet leaves a new, empty record for the contact behind, although the command then
    tells the operator that no outreach record was changed. *)
Theorem refused_followup_leaves_record lead attempt name by_ w input content campaign step owner :
  ready (outreachWorld w) → loadEnrollInput attempt (w_db w) = Some input → wasSent input lead content →
  newContact (w_db w) name lead input campaign → ei_sequenceStep input = stepNumber step →
  ei_outreachRecordId input = Some owner → is_Some (records (outreachDb (w_db w)) !! owner) →
  ∃ r w' id rec, enrollConfirmedSendFromAttempt policy lead attempt name by_ w = (Ok r, w') ∧
    ear_outcome r = EA_REFUSED ∧ records (outreachDb (w_db w)) !! id = None ∧
    records (outreachDb (w_db w')) = <[id := rec]> (records (outreachDb (w_db w))) ∧
    or_status rec = DRAFT_READY ∧ messages (outreachDb (w_db w')) = messages (outreachDb (w_db w)).
Proof.
  intros Hready Hload Hsent Hnew Hstep Howner [o Ho].
  cut (twp (enrollConfirmedSendFromAttempt policy lead attempt name by_) (λ r w', ∃ id rec,
    ear_outcome r = EA_REFUSED ∧ records (outreachDb (w_db w)) !! id = None ∧
    records (outreachDb (w_db w')) = <[id := rec]> (records (outreachDb (w_db w))) ∧
    or_status rec = DRAFT_READY ∧ messages (outreachDb (w_db w')) = messages (outreachDb (w_db w))) w).
  { intros (r & w' & Hrun & id & rec & Hout)%twp_returns. by exists r, w', id, rec. }
  eapply bridge_tracks; [exact Hready|exact Hload|exact Hsent|exact Hnew|].
  intros rec w1 R1 Hfresh Hst Htz [Hsame _]. unfold enrollTracked.
  rewrite bool_decide_eq_false_2 by (rewrite Hstep; by destruct step).
  assert (isFollowupStep (ei_sequenceStep input) = Some step) as -> by (rewrite Hstep; by destruct step).
  unfold otherRecord. rewrite Howner.
  destruct (String.eqb_spec owner (or_id rec)) as [->|]; [congruence|]. simpl. rewrite twp_ret.
  exists (or_id rec), rec. rewrite Hsame. done.
Qed.
End first_contact.

(** ** Witnesses *)

#[local] Existing Instance demo_runtime.
#[local] Existing Instance demo_tz.
#[local] Existing Instance demo_orm.
#[local] Existing Instance demo_provider.

Lemma demoEnroll_ready : ready (outreachWorld (World demoEnrollSystem 5 0)).
Proof.
  split; [apply (emptyDb_wellFormed ({["c1"]} ∪ ∅) {["l1"; "l2"]} {["e1"; "e2"]} {["f1"; "f2"]})|]. apply demo_fresh. reflexivity.
Qed.
Definition demoCampaign : CampaignRow :=
  {| cp_id := "c1"; cp_name := DEFAULT_CAMPAIGN; cp_sequencePolicy := DEFAULT_SEQUENCE_POLICY;
     cp_timezone := "Europe/Berlin" |}.
Lemma bridge_enrols_first_send_witness :
  ∃ r w', enrollConfirmedSendFromAttempt DEFAULT_SEQUENCE_POLICY "l1" demoAttemptId DEFAULT_CAMPAIGN None
      (World demoEnrollSystem 5 0) = (Ok r, w') ∧ ear_outcome r = EA_ENROLLED.
Proof.
  destruct (loadEnrollInput demoAttemptId demoEnrollSystem) as [input|] eqn:Eload; [|vm_compute in Eload; discriminate].
  destruct (confirmedContent input "l1") as [content|reason] eqn:Econf.
  2: { vm_compute in Eload. injection Eload as <-. vm_compute in Econf. discriminate. }
  destruct (bridge_enrols_first_send DEFAULT_SEQUENCE_POLICY "l1" demoAttemptId DEFAULT_CAMPAIGN None
    (World demoEnrollSystem 5 0) input content demoCampaign demoBerlin) as (r & w' & _ & _ & _ & Hrun & Hout & _).
  - exact demoEnroll_ready.
  - exact Eload.
  - apply confirmedContent_iff. exact Econf.
  - vm_compute in Eload. injection Eload as <-. split.
    + split; [reflexivity|]. vm_compute. reflexivity.
    + vm_compute. reflexivity.
    + reflexivity.
    + intros k r Hr. simpl in Hr. rewrite lookup_empty in Hr. discriminate.
  - vm_compute in Eload. injection Eload as <-. reflexivity.
  - reflexivity.
  - intros m Hm. destruct (not_elem_of_nil _ Hm).
  - vm_compute in Eload. injection Eload as <-. vm_compute. reflexivity.
  - vm_compute in Eload. injection Eload as <-. vm_compute. reflexivity.
  - exists r, w'. split; [exact Hrun|exact Hout].
Defined.

Lemma demoOther_ready : ready (outreachWorld (World demoOtherSystem 5 1)).
Proof.
  split; [|apply demo_fresh; reflexivity].
  assert (outreachDb demoOtherSystem = setRecords <[or_id demoOtherRecord := demoOtherRecord]>
    (emptyDb ({["c1"]} ∪ ({["c0"]} ∪ ∅)) {["l1"; "l2"]} {["e1"; "e2"]} {["f1"; "f2"]})) as E by reflexivity.
  cbn [outreachWorld w_db]. rewrite E. apply wf_insertRecord; [apply emptyDb_wellFormed|reflexivity].
Qed.
Lemma refused_followup_leaves_record_witness :
  ∃ r w', enrollConfirmedSendFromAttempt DEFAULT_SEQUENCE_POLICY "l1" demoAttemptId DEFAULT_CAMPAIGN None
      (World demoOtherSystem 5 1) = (Ok r, w') ∧ ear_outcome r = EA_REFUSED ∧
    records (outreachDb (w_db w')) ≠ records (outreachDb demoOtherSystem).
Proof.
  destruct (loadEnrollInput demoAttemptId demoOtherSystem) as [input|] eqn:Eload; [|vm_compute in Eload; discriminate].
  destruct (confirmedContent input "l1") as [content|reason] eqn:Econf.
  2: { vm_compute in Eload. injection Eload as <-. vm_compute in Econf. discriminate. }
  destruct (refused_followup_leaves_record DEFAULT_SEQUENCE_POLICY "l1" demoAttemptId DEFAULT_CAMPAIGN None
    (World demoOtherSystem 5 1) input content demoCampaign Step1 "uuid-0")
    as (r & w' & id & rec & Hrun & Hout & Hnew & Hrecs & _).
  - exact demoOther_ready.
  - exact Eload.
  - apply confirmedContent_iff. exact Econf.
  - vm_compute in Eload. injection Eload as <-. split.
    + split; [reflexivity|]. vm_compute. reflexivity.
    + vm_compute. reflexivity.
    + reflexivity.
    + intros k r Hr _.
      change ((<["uuid-0" := demoOtherRecord]> (∅ : gmap string OutreachRecord)) !! k = Some r) in Hr.
      apply lookup_insert_Some in Hr as [[_ <-]|[_ Hr]]; [discriminate|].
      rewrite lookup_empty in Hr. discriminate.
  - vm_compute in Eload. injection Eload as <-. reflexivity.
  - vm_compute in Eload. injection Eload as <-. reflexivity.
  - eexists. reflexivity.
  - exists r, w'. split; [exact Hrun|]. split; [exact Hout|]. intros Heq. rewrite Hrecs in Heq.
    assert (records (outreachDb demoOtherSystem) !! id = Some rec) as Hin.
    { rewrite <-Heq. apply lookup_insert_eq. }
    cbn [w_db] in Hnew. rewrite Hin in Hnew. discriminate.
Defined.
