(* ===== verification/ReviewSpecs.v ===== *)
(** * What a human decision does

    The effect of each decision as an equation between databases; who may approve; the
    emails that are ready for Gmail; rejecting and reopening a lead. *)
From S2P Require Import Prelude.
From S2P Require Import JsText.
From S2P Require Import LeadLifecycle.
From S2P Require Import PipelineDb.
From S2P Require Import SendGate.
From S2P Require Import SystemDb.
From S2P Require Import GmailDrafts.
From S2P Require Import Review.
From S2P Require Import Dashboard.
From S2P Require Import OutreachSpecs.
From S2P Require Import SendSafety.
From S2P Require Import ScheduledCommand.
From S2P Require Import QualificationSpecs.
From S2P Require Import ScheduledSpecs.
Open Scope Z_scope.
Open Scope list_scope.

(** ** Steps of the sending tables *)

(** A lead is moved, or not, and events are added. *)
Definition leadChange (id : string) (move : option (LeadStatus * Z)) (es : list (string * NewPipelineEvent))
    (p : PipelineDb) : PipelineDb :=
  setPipelineEvents (λ l, l ++ es)
    (match move with Some (to, t) => setLeads (alter (setLeadStatus to t) id) p | None => p end).
Lemma leadChange_nil id p : leadChange id None [] p = p.
Proof. destruct p. unfold leadChange. simpl. by rewrite app_nil_r. Qed.
Lemma leadChange_note id move es es' p : leadChange id None es' (leadChange id move es p) = leadChange id move (es ++ es') p.
Proof. destruct p, move as [[]|]; unfold leadChange; simpl; by rewrite app_assoc. Qed.
Lemma leadChange_leads id move es p :
  leads (leadChange id move es p) =
    match move with Some (to, t) => alter (setLeadStatus to t) id (leads p) | None => leads p end.
Proof. by destruct p, move as [[]|]. Qed.
Lemma leadChange_events id move es p : pipelineEvents (leadChange id move es p) = pipelineEvents p ++ es.
Proof. by destruct p, move as [[]|]. Qed.

Section steps.
Context `{Runtime}.

Lemma wp_leadTransition_exact id to w :
  wp (leadTransition id to) (λ _ w', ∃ l t es, leads (w_db w) !! id = Some l ∧ leadStep (ld_status l) to ∧
    w_db w' = leadChange id (Some (to, t)) es (w_db w)) w.
Proof.
  unfold leadTransition, getLead, updateLeadStatus, recordEvent. wp_run.
  destruct (leads (w_db w) !! id) as [l|] eqn:El; [|done]. destruct (canTransition _ _) eqn:Hc; cbn [negb]; wp_run; [|done].
  intros _. by eexists l, _, [_].
Qed.
Lemma wp_recordEvent_exact e w :
  wp (recordEvent e) (λ _ w', ∃ es, w_db w' = leadChange "" None es (w_db w)) w.
Proof. unfold recordEvent. wp_run. intros _. by eexists [_]. Qed.
Lemma twp_recordNote id message data w :
  is_Some (leads (w_db w) !! id) → freshEvents w →
  twp (recordEvent (noteEvent id None message data)) (λ _ w', ∃ es, w_db w' = leadChange id None es (w_db w)) w.
Proof.
  intros Hl [Hinj Hfresh]. unfold recordEvent. twp_run. apply twp_guarded; cbn [w_db]; [|by eexists [_]].
  apply refuse_None. rewrite !Forall_cons. cbn [fst pe_leadId pe_runId noteEvent]. split_and!; [| |done|constructor].
  - apply not_true_iff_false. intros (e & He & E%bool_decide_eq_true_1)%existsb_exists.
    apply (Hfresh (w_uuids w) (Nat.le_refl _) e); [by apply list_elem_of_In|done].
  - by apply negb_false_iff, bool_decide_eq_true_2.
Qed.

(** The same, seen from the database of the reviews *)
Definition withPipe (p : PipelineDb) (db : ReviewDb) : ReviewDb := put inSystem (put onPipeline p (reviewedSystem db)) db.
Definition pipe (db : ReviewDb) : PipelineDb := pipelineDb (reviewedSystem db).
Definition pipeOf (w : world ReviewDb) : world PipelineDb := World (pipe (w_db w)) (w_ticks w) (w_uuids w).
Lemma wp_onReview {A} (m : PM A) Q w :
  wp (onReviewPipeline m) Q w ↔
  wp m (λ a w', Q a (World (withPipe (w_db w') (w_db w)) (w_ticks w') (w_uuids w'))) (pipeOf w).
Proof. unfold onReviewPipeline. by rewrite !wp_zoom. Qed.
Lemma twp_onReview {A} (m : PM A) Q w :
  twp (onReviewPipeline m) Q w ↔
  twp m (λ a w', Q a (World (withPipe (w_db w') (w_db w)) (w_ticks w') (w_uuids w'))) (pipeOf w).
Proof. unfold onReviewPipeline. by rewrite !twp_zoom. Qed.
Lemma withPipe_pipe db : withPipe (pipe db) db = db.
Proof. by destruct db as [[]]. Qed.
Lemma withPipe_withPipe p p' db : withPipe p (withPipe p' db) = withPipe p db.
Proof. done. Qed.
Lemma pipe_withPipe p db : pipe (withPipe p db) = p.
Proof. done. Qed.
Lemma wp_getLead id Q w : Q (leads (pipe (w_db w)) !! id) w → wp (onReviewPipeline (getLead id)) Q w.
Proof. intros HQ. unfold getLead. rewrite wp_onReview, wp_query. cbn [w_db pipeOf]. rewrite withPipe_pipe. by destruct w. Qed.
Lemma twp_getLead id Q w : Q (leads (pipe (w_db w)) !! id) w → twp (onReviewPipeline (getLead id)) Q w.
Proof. intros HQ. unfold getLead. rewrite twp_onReview, twp_query. cbn [w_db pipeOf]. rewrite withPipe_pipe. by destruct w. Qed.
Lemma wp_inSystem {A} (f : SystemDb → A) Q w : Q (f (reviewedSystem (w_db w))) w → wp (zoom inSystem (query f)) Q w.
Proof. intros HQ. rewrite wp_zoom, wp_query. cbn [w_db]. by destruct w as [[]]. Qed.
Lemma twp_inSystem {A} (f : SystemDb → A) Q w : Q (f (reviewedSystem (w_db w))) w → twp (zoom inSystem (query f)) Q w.
Proof. intros HQ. rewrite twp_zoom, twp_query. cbn [w_db]. by destruct w as [[]]. Qed.

Lemma wp_recordNote id message data w :
  wp (recordNote id message data) (λ _ w', ∃ es, w_db w' = withPipe (leadChange id None es (pipe (w_db w))) (w_db w)) w.
Proof.
  unfold recordNote. rewrite wp_onReview. eapply wp_mono; [|apply wp_recordEvent_exact].
  intros _ w' [es E]. exists es. cbn [w_db] in *. by rewrite E.
Qed.
Lemma wp_moveLead id to w :
  wp (moveLead id to) (λ _ w', ∃ l t es, leads (pipe (w_db w)) !! id = Some l ∧ leadStep (ld_status l) to ∧
    w_db w' = withPipe (leadChange id (Some (to, t)) es (pipe (w_db w))) (w_db w)) w.
Proof.
  unfold moveLead. rewrite wp_bind, wp_onReview. eapply wp_mono; [|apply wp_leadTransition_exact].
  intros _ w' (l & t & es & El & Hs & E). rewrite wp_ret. exists l, t, es. cbn [w_db] in *. by rewrite E.
Qed.
(** A decision moves its lead and leaves its note. *)
Lemma wp_moveAndNote id move message data {A} (a : A) w :
  wp ((match move with Some to => moveLead id to | None => mret tt end) ;; recordNote id message data ;; mret a)
    (λ a' w', a' = a ∧ ∃ t es,
       w_db w' = withPipe (leadChange id ((λ to, (to, t)) <$> move) es (pipe (w_db w))) (w_db w)) w.
Proof.
  rewrite wp_bind. destruct move as [to|].
  - eapply wp_mono; [|apply wp_moveLead]. intros _ w1 (l & t & es & _ & _ & E1).
    rewrite wp_bind. eapply wp_mono; [|apply wp_recordNote]. intros _ w2 [es' E2]. rewrite wp_ret. split; [done|].
    exists t, (es ++ es'). by rewrite E2, E1, withPipe_withPipe, pipe_withPipe, leadChange_note.
  - rewrite wp_ret, wp_bind. eapply wp_mono; [|apply wp_recordNote]. intros _ w2 [es' E2]. rewrite wp_ret.
    split; [done|]. by exists 0, es'.
Qed.

(** ** The decisions, exactly *)

Context (actor : string).

(** What a decision on a draft makes of the database *)
Definition afterEmail (d : HumanDecision) (notes : option string) (e : EmailDraftRow) (t : Z)
    (move : option (LeadStatus * Z)) (id : string) (es : list (string * NewPipelineEvent)) (db : ReviewDb) : ReviewDb :=
  withPipe (leadChange id move es (pipe db))
    (put inSystem (setEmailDrafts (alter (decideEmailRow d notes actor t) (ew_id e)) (reviewedSystem db)) db).
Lemma wp_decideEmail id d notes w :
  wp (decideEmail actor id d notes) (λ r w',
    w_db w' = w_db w ∧ r ≠ DONE ∨
    r = DONE ∧ ∃ l e t t' es, leads (pipe (w_db w)) !! id = Some l ∧ ld_status l ∈ EMAIL_ACTIONABLE_LEAD_STATES ∧
      latestEmail id (reviewedSystem (w_db w)) = Some e ∧ ew_humanDecision e ≠ Some (decisionText d) ∧
      w_db w' = afterEmail d notes e t
        ((λ to, (to, t')) <$> emailMove d (ew_sequenceStep e) (ld_status l)) id es (w_db w)) w.
Proof.
  unfold decideEmail. rewrite wp_transaction, wp_bind. apply wp_getLead.
  destruct (leads (pipe (w_db w)) !! id) as [l|] eqn:El; [|by left]. case_bool_decide as Hst; cbn [negb]; [|by left].
  rewrite wp_bind. apply wp_inSystem.
  destruct (latestEmail id _) as [e|] eqn:Ee; [|by left]. case_bool_decide as Hd; [by left|].
  rewrite wp_bind, wp_now, wp_bind, wp_zoom. unfold setEmailHumanDecision. rewrite wp_guarded. intros _. cbn [w_db w_ticks w_uuids].
  eapply wp_mono; [|apply wp_moveAndNote]. intros r w' (-> & t' & es & E). right. split; [done|].
  exists l, e, (clock (w_ticks w)), t', es. split_and!; [done..|]. by rewrite E.
Qed.

Definition afterFinalization (d : HumanDecision) (notes : option string) (f : FinalizationRow) (t : Z)
    (move : option (LeadStatus * Z)) (id : string) (es : list (string * NewPipelineEvent)) (db : ReviewDb) : ReviewDb :=
  withPipe (leadChange id move es (pipe db))
    (put inSystem (setFinalizations (alter (decideFinalizationRow d notes actor t) (fn_id f)) (reviewedSystem db)) db).
Lemma wp_decideFinalizedEmail id d notes w :
  wp (decideFinalizedEmail actor id d notes) (λ r w',
    w_db w' = w_db w ∧ r ≠ DONE ∨
    r = DONE ∧ ∃ l f t t' es, leads (pipe (w_db w)) !! id = Some l ∧ ld_status l = FINALIZED_EMAIL_PENDING ∧
      latestFinalization id (reviewedSystem (w_db w)) = Some f ∧ fn_finalHumanDecision f ≠ Some (decisionText d) ∧
      w_db w' = afterFinalization d notes f t
        (Some (if bool_decide (d = APPROVED) then HUMAN_APPROVED else REJECTED, t')) id es (w_db w)) w.
Proof.
  unfold decideFinalizedEmail. rewrite wp_transaction, wp_bind. apply wp_getLead.
  destruct (leads (pipe (w_db w)) !! id) as [l|] eqn:El; [|by left]. case_bool_decide as Hst; cbn [negb]; [|by left].
  rewrite wp_bind. apply wp_inSystem.
  destruct (latestFinalization id _) as [f|] eqn:Ef; [|by left]. case_bool_decide as Hd; [by left|].
  rewrite wp_bind, wp_now, wp_bind, wp_zoom. unfold setFinalizationDecision. rewrite wp_modify. cbn [w_db w_ticks w_uuids].
  eapply wp_mono; [|apply (wp_moveAndNote id (Some _))]. intros r w' (-> & t' & es & E). right. split; [done|].
  exists l, f, (clock (w_ticks w)), t', es. split_and!; [done..|]. by rewrite E.
Qed.

(** A decision on a demo changes no lead, no email and no finalization. *)
Lemma wp_decideDemo id d notes w :
  wp (decideDemo actor id d notes) (λ r w',
    w_db w' = w_db w ∧ r ≠ DONE ∨
    r = DONE ∧ ∃ m t es, latestDemo id (w_db w) = Some m ∧ dm_status m ≠ decisionText d ∧
      dm_status m ∈ DEMO_DECIDABLE ∧
      w_db w' = withPipe (leadChange id None es (pipe (w_db w)))
        (setDemos (map (λ r, if bool_decide (dm_id r = dm_id m) then decideDemoRow d notes actor t r else r)) (w_db w))) w.
Proof.
  unfold decideDemo. rewrite wp_transaction, wp_bind, wp_query.
  destruct (latestDemo id (w_db w)) as [m|] eqn:Em; [|by left]. case_bool_decide as Hd; [by left|].
  case_bool_decide as Hs; cbn [negb]; [|by left].
  rewrite wp_bind, wp_now, wp_bind. unfold setDemoDecision. rewrite wp_modify. cbn [w_db w_ticks w_uuids].
  rewrite wp_bind. eapply wp_mono; [|apply wp_recordNote]. intros _ w' [es E]. rewrite wp_ret. right.
  split; [done|]. exists m, (clock (w_ticks w)), es. split_and!; [done..|]. by rewrite E.
Qed.
End steps.

(** ** The checks of the dashboard *)

Lemma tokenDiff_spec expected provided diff : String.length expected = String.length provided →
  tokenDiff diff expected provided = 0 ↔ diff = 0 ∧ expected = provided.
Proof.
  revert provided diff. induction expected as [|a expected IH]; intros [|b provided] diff Hlen; try done.
  - cbn. naive_solver.
  - cbn [tokenDiff]. injection Hlen as Hlen. rewrite IH, Z.lor_eq_0_iff, Z.lxor_eq_0_iff, Nat2Z.inj_iff by done.
    unfold char_code. split.
    + intros [[-> E] ->]. split; [done|]. f_equal. by rewrite <-(ascii_nat_embedding a), E, ascii_nat_embedding.
    + by intros [-> [= -> ->]].
Qed.
(** The comparison that looks at every character is equality with a token that is not empty. *)
Lemma csrfMatches_iff expected provided :
  csrfMatches expected provided = true ↔ provided = Some expected ∧ expected ≠ "".
Proof.
  unfold csrfMatches. destruct provided as [[|c p]|]; [naive_solver| |naive_solver].
  destruct (Nat.eqb_spec (String.length (String c p)) (String.length expected)) as [El|El]; cbn [negb].
  - rewrite Z.eqb_eq, tokenDiff_spec by done. naive_solver.
  - split; [done|]. intros [[= <-] _]. done.
Qed.

(** Where a request must come from: from a page of this host, as its [Origin] or, without
    one, its [Referer] tells *)
Definition sameOrigin (r : Request) : Prop :=
  ∃ h, rq_host r = Some h ∧ isAllowedHost (Some h) = true ∧
    (rq_origin r = Some ("http://" +:+ h) ∨
     (rq_origin r = None ∨ rq_origin r = Some "null") ∧
     ∃ referer, rq_referer r = Some referer ∧
       (referer = "http://" +:+ h ∨ ∃ path, referer = "http://" +:+ h +:+ "/" +:+ path)).
Lemma isSameOrigin_sound r :
  isSameOrigin (rq_origin r) (rq_referer r) (rq_host r) = true → sameOrigin r.
Proof.
  unfold isSameOrigin, sameOrigin. destruct (rq_host r) as [[|c h]|]; [done| |done]. set (host := String c h).
  destruct (isAllowedHost (Some host)) eqn:Ha; cbn [negb]; [|done]. cbv zeta.
  assert (match rq_referer r with
    | Some x => startsWith x (("http://" +:+ host) +:+ "/") || String.eqb x ("http://" +:+ host)
    | None => false end = true → ∃ referer, rq_referer r = Some referer ∧
       (referer = "http://" +:+ host ∨ ∃ path, referer = "http://" +:+ host +:+ "/" +:+ path)) as Href.
  { destruct (rq_referer r) as [x|]; [|done]. intros Hx. exists x. split; [done|].
    apply orb_true_iff in Hx as [(t & ->)%startsWith_spec | ->%String.eqb_eq]; [right|by left].
    exists t. by rewrite !string_app_assoc. }
  intros E. exists host. split_and!; [done..|]. destruct (rq_origin r) as [o|].
  - destruct (String.eqb_spec o "null") as [Eo|Eo]; [right; subst o; split; [by right|auto]|]. apply String.eqb_eq in E as ->. by left.
  - right. split; [by left|auto].
Qed.
(** A request that the dashboard may act on *)
Definition authentic (csrfToken : string) (r : Request) : Prop :=
  sameOrigin r ∧ csrfToken ≠ "" ∧
  ∃ fields, parseFormBody (rq_postBody r) = Ok fields ∧ formField "csrf" fields = Some csrfToken.

Section served.
Context `{Runtime} (actor csrfToken : string).

(** What a request that changes something has done *)
Definition decided (r : Request) (db db' : ReviewDb) : Prop :=
  authentic csrfToken r ∧ ∃ segment target d id notes,
    reviewRoute (rq_path r) = Some (segment, target, d) ∧ decodeURIComponent segment = Ok id ∧
    match target with
    | TARGET_DEMO => ∃ m t es, latestDemo id db = Some m ∧
        db' = withPipe (leadChange id None es (pipe db))
          (setDemos (map (λ r, if bool_decide (dm_id r = dm_id m) then decideDemoRow d notes actor t r else r)) db)
    | TARGET_EMAIL => ∃ l e t t' es, leads (pipe db) !! id = Some l ∧ ld_status l ∈ EMAIL_ACTIONABLE_LEAD_STATES ∧
        latestEmail id (reviewedSystem db) = Some e ∧
        db' = afterEmail actor d notes e t
          ((λ to, (to, t')) <$> emailMove d (ew_sequenceStep e) (ld_status l)) id es db
    | TARGET_FINALIZED => ∃ l f t t' es, leads (pipe db) !! id = Some l ∧ ld_status l = FINALIZED_EMAIL_PENDING ∧
        latestFinalization id (reviewedSystem db) = Some f ∧
        db' = afterFinalization actor d notes f t
          (Some (if bool_decide (d = APPROVED) then HUMAN_APPROVED else REJECTED, t')) id es db
    end.

(** A decision changes nothing, or it does what is asked for. *)
Lemma wp_awp_transaction {DB A} (m : M DB A) Q (E : world DB → Prop) w :
  transaction m w = m w → wp m Q w → (∀ w', w_db w' = w_db w → E w') → awp m Q E w.
Proof.
  intros Ht Hwp HE. pose proof (awp_transaction m Q E w Hwp HE) as Ha. unfold awp in *. by rewrite Ht in Ha.
Qed.
Lemma decide_atomic target id d notes Q (E : world ReviewDb → Prop) w :
  wp (decide_ actor target id d notes) Q w → (∀ w', w_db w' = w_db w → E w') →
  awp (decide_ actor target id d notes) Q E w.
Proof. apply wp_awp_transaction. by destruct target; apply transaction_idemp. Qed.

Lemma wp_decide target id d notes r w :
  authentic csrfToken r →
  (∃ segment, reviewRoute (rq_path r) = Some (segment, target, d) ∧ decodeURIComponent segment = Ok id) →
  wp (decide_ actor target id d notes) (λ _ w', w_db w' = w_db w ∨ decided r (w_db w) (w_db w')) w.
Proof.
  intros Hauth (segment & Er & Eid). unfold decided. destruct target; cbn [decide_].
  - eapply wp_mono; [|apply wp_decideDemo]. intros a w' [[? _]|(_ & m & t & es & Hm & _ & _ & E)]; [by left|].
    right. split; [done|]. exists segment, TARGET_DEMO, d, id, notes. split_and!; [done..|]. by exists m, t, es.
  - eapply wp_mono; [|apply wp_decideEmail].
    intros a w' [[? _]|(_ & l & e & t & t' & es & Hl & Hs & He & _ & E)]; [by left|].
    right. split; [done|]. exists segment, TARGET_EMAIL, d, id, notes. split_and!; [done..|]. by exists l, e, t, t', es.
  - eapply wp_mono; [|apply wp_decideFinalizedEmail].
    intros a w' [[? _]|(_ & l & f & t & t' & es & Hl & Hs & Hf & _ & E)]; [by left|].
    right. split; [done|]. exists segment, TARGET_FINALIZED, d, id, notes. split_and!; [done..|]. by exists l, f, t, t', es.
Qed.
Lemma servePost_decides r w :
  w_db (servePost actor csrfToken r w).2 = w_db w ∨
  (servePost actor csrfToken r w).1 = Ok 303 ∧ decided r (w_db w) (w_db (servePost actor csrfToken r w).2).
Proof.
  cut (awp (handlePost actor csrfToken r)
    (λ status w', w_db w' = w_db w ∨ status = 303 ∧ decided r (w_db w) (w_db w')) (λ w', w_db w' = w_db w) w).
  { intros Ha. unfold servePost, tryCatch, mbind, M_bind, awp in *.
    destruct (handlePost actor csrfToken r w) as [[status|e] w']; simpl in *; [|by left].
    destruct Ha as [Ha|[-> Ha]]; [by left|by right]. }
  unfold handlePost. destruct (isAllowedHost (rq_host r)); cbn [negb]; [|by left].
  destruct (reviewRoute (rq_path r)) as [[[segment target] d]|] eqn:Er; [|by left].
  destruct (isSameOrigin _ _ _) eqn:Ho; cbn [negb]; [|by left]. apply isSameOrigin_sound in Ho.
  unfold readBody. case_match; [done|]. rewrite awp_bind. cbn.
  destruct (parseFormBody (rq_postBody r)) as [fields|e] eqn:Ef; [|done].
  rewrite awp_bind. cbn. destruct (csrfMatches csrfToken _) eqn:Hc; cbn [negb]; [|by left].
  apply csrfMatches_iff in Hc as [Hc Hne]. rewrite awp_bind.
  destruct (decodeURIComponent segment) as [id|e] eqn:Eid; [|done]. cbn. rewrite awp_bind.
  assert (authentic csrfToken r) as Hauth by (split; [done|]; split; [done|]; by exists fields).
  apply decide_atomic; [|done].
  eapply wp_mono; [|apply (wp_decide target id d (reviewNotes fields) r); [done..|by exists segment]].
  intros a w' Hw. rewrite awp_ret. naive_solver.
Qed.
End served.

(** Rows are stored under their ids. *)
Definition keyedRows (db : SystemDb) : Prop :=
  (∀ k e, emailDrafts db !! k = Some e → ew_id e = k) ∧ (∀ k f, finalizations db !! k = Some f → fn_id f = k).
Definition leadStatusIn (id : string) (db : ReviewDb) : option LeadStatus := ld_status <$> leads (pipe db) !! id.

Lemma latestEmail_stored id e db : keyedRows db → latestEmail id db = Some e →
  emailDrafts db !! ew_id e = Some e ∧ ew_leadId e = id.
Proof.
  intros [Hk _] [He _]%latestBy_max. apply elem_of_List_filter in He as [He Hid%bool_decide_eq_true_1].
  apply list_elem_of_fmap in He as ([k e'] & -> & He%elem_of_map_to_list). simpl in *. by rewrite (Hk _ _ He).
Qed.
Lemma elem_of_leadFinalizations f e id db : (f, e) ∈ leadFinalizations id db ↔
  ∃ k, finalizations db !! k = Some f ∧ emailDrafts db !! fn_originalDraftId f = Some e ∧ ew_leadId e = id.
Proof.
  unfold leadFinalizations. rewrite list_elem_of_omap. split.
  - intros (f' & Hf & E). apply list_elem_of_fmap in Hf as ([k f''] & -> & Hf%elem_of_map_to_list). simpl in *.
    destruct (emailDrafts db !! _) as [e'|] eqn:Ee; [|done]. simpl in E. case_bool_decide; [|done].
    injection E as -> ->. by exists k.
  - intros (k & Hf & He & Hid). exists f. split.
    + apply list_elem_of_fmap. exists (k, f). split; [done|]. by apply elem_of_map_to_list.
    + rewrite He. simpl. by rewrite bool_decide_eq_true_2.
Qed.
Lemma latestFinalization_stored id f db : keyedRows db → latestFinalization id db = Some f →
  finalizations db !! fn_id f = Some f.
Proof.
  intros [_ Hk] E. unfold latestFinalization in E. apply fmap_Some in E as ([f' e] & [He _]%latestBy_max & ->).
  apply elem_of_leadFinalizations in He as (k & Hf & _). simpl; by rewrite (Hk _ _ Hf).
Qed.
Lemma leadStatusIn_change id id' move es p db : leadStatusIn id (withPipe (leadChange id' move es p) db) =
  match move with
  | Some (to, t) => if decide (id = id') then (λ _, to) <$> leads p !! id else ld_status <$> leads p !! id
  | None => ld_status <$> leads p !! id
  end.
Proof.
  unfold leadStatusIn. rewrite pipe_withPipe, leadChange_leads. destruct move as [[to t]|]; [|done].
  case_decide as Hd; [subst id'; rewrite lookup_alter_eq|by rewrite lookup_alter_ne].
  by destruct (leads p !! id) as [[]|].
Qed.
Lemma emailMove_approves d step status : emailMove d step status = Some HUMAN_APPROVED →
  d = APPROVED ∧ status = READY_FOR_HUMAN_APPROVAL.
Proof. unfold emailMove. destruct d; repeat case_bool_decide; repeat case_match; naive_solver. Qed.

(** C15: Who may approve: a request to the dashboard changes the database only if it comes
    from a page of the dashboard and carries the token of the session; and a lead is
    human-approved by it only if its latest email waited for the review and now carries
    the reviewer's approval, or its email was finalized and the finalization carries it. *)
Theorem approval_is_authentic `{Runtime} actor csrfToken r w :
  keyedRows (reviewedSystem (w_db w)) →
  let w' := (servePost actor csrfToken r w).2 in
  (w_db w' = w_db w ∨ authentic csrfToken r) ∧
  ∀ id, leadStatusIn id (w_db w') = Some HUMAN_APPROVED → leadStatusIn id (w_db w) ≠ Some HUMAN_APPROVED →
    ∃ notes t,
      leadStatusIn id (w_db w) = Some READY_FOR_HUMAN_APPROVAL ∧
      (∃ e, latestEmail id (reviewedSystem (w_db w)) = Some e ∧
         emailDrafts (reviewedSystem (w_db w')) !! ew_id e = Some (decideEmailRow APPROVED notes actor t e)) ∨
      leadStatusIn id (w_db w) = Some FINALIZED_EMAIL_PENDING ∧
      (∃ f, latestFinalization id (reviewedSystem (w_db w)) = Some f ∧
         finalizations (reviewedSystem (w_db w')) !! fn_id f = Some (decideFinalizationRow APPROVED notes actor t f)).
Proof.
  intros Hk w'. unfold w'. clear w'. destruct (servePost_decides actor csrfToken r w) as [->|(_ & Hauth & Hdec)].
  { split; [by left|]. intros id ? []. done. }
  split; [by right|]. intros id Hnew Hold.
  destruct Hdec as (segment & target & d & id' & notes & _ & _ & Hdec). destruct target.
  - destruct Hdec as (m & t & es & _ & E). rewrite E, leadStatusIn_change in Hnew. done.
  - destruct Hdec as (l & e & t & t' & es & Hl & _ & He & E). rewrite E in Hnew |- *.
    unfold afterEmail in *. rewrite leadStatusIn_change in Hnew.
    destruct (emailMove d _ _) as [to|] eqn:Em; [|done]. cbn in Hnew. case_decide as Hd; [subst id'|done].
    rewrite Hl in Hnew. injection Hnew as ->. apply emailMove_approves in Em as [-> Hst].
    exists notes, t. left. unfold leadStatusIn. rewrite Hl. cbn. rewrite Hst. split; [done|]. exists e. split; [done|].
    apply latestEmail_stored in He as [He _]; [|done]. by rewrite lookup_alter_eq, He.
  - destruct Hdec as (l & f & t & t' & es & Hl & Hst & Hf & E). rewrite E in Hnew |- *.
    unfold afterFinalization in *. rewrite leadStatusIn_change in Hnew. case_decide as Hd; [subst id'|done].
    rewrite Hl in Hnew. injection Hnew as Hd. case_bool_decide as Hd'; [subst d|done].
    exists notes, t. right. unfold leadStatusIn. rewrite Hl. cbn. rewrite Hst. split; [done|]. exists f. split; [done|].
    apply latestFinalization_stored in Hf; [|done]. by rewrite lookup_alter_eq, Hf.
Qed.

(** ** A decision goes through *)

(** Where a lead stands after the decision on its latest email: approving it approves the
    lead, unless it waits for the address of its demo; rejecting it rejects the lead, but
    rejecting the copy of a follow-up never does: the lead is back where it was. *)
Definition afterReview (d : HumanDecision) (isFollowup : bool) (status : LeadStatus) : LeadStatus :=
  match d, status, isFollowup with
  | APPROVED, WAITING_FOR_DEMO_URL, _ | REJECTED_BY_HUMAN, WAITING_FOR_DEMO_URL, true => WAITING_FOR_DEMO_URL
  | APPROVED, _, _ => HUMAN_APPROVED
  | REJECTED_BY_HUMAN, _, true => SENT
  | REJECTED_BY_HUMAN, _, false => REJECTED
  end.
Lemma emailMove_spec d step status : status ∈ EMAIL_ACTIONABLE_LEAD_STATES →
  default status (emailMove d step status) = afterReview d (0 <? step) status ∧
  ∀ to, emailMove d step status = Some to → canTransition status to = true.
Proof.
  unfold emailMove. rewrite list_elem_of_In. cbn [EMAIL_ACTIONABLE_LEAD_STATES In].
  intros [<-|[<-|[]]]; destruct d, (0 <? step); (split; [reflexivity|]); intros to [= <-]; vm_compute; reflexivity.
Qed.

Section commits.
Context `{Runtime} (actor : string).

Lemma twp_moveAndNote id move message data from {A} (a : A) w :
  leadStatusIn id (w_db w) = Some from → freshEvents (pipeOf w) →
  (∀ to, move = Some to → canTransition from to = true) →
  twp ((match move with Some to => moveLead id to | None => mret tt end) ;; recordNote id message data ;; mret a)
    (λ a' _, a' = a) w.
Proof.
  intros Hl Hf Hc. rewrite twp_bind.
  assert (∀ w', is_Some (leads (pipe (w_db w')) !! id) → freshEvents (pipeOf w') →
    twp (recordNote id message data ;; mret a) (λ a' _, a' = a) w') as Hnote.
  { intros w' Hl' Hf'. rewrite twp_bind. unfold recordNote. rewrite twp_onReview.
    eapply twp_mono; [|by apply twp_recordNote]. intros _ ? _. by rewrite twp_ret. }
  destruct move as [to|].
  - unfold moveLead. rewrite twp_bind, twp_onReview.
    eapply twp_mono; [|apply (leadTransition_moves id to (pipeOf w) from Hl (Hc to eq_refl) Hf)].
    intros _ [p t u] [Hst _ _ Hf' _]. rewrite twp_ret. apply Hnote; cbn [w_db pipeOf w_ticks w_uuids] in *.
    + rewrite pipe_withPipe. destruct (leads p !! id); [by eexists|done].
    + exact Hf'.
  - rewrite twp_ret. apply Hnote; [|done]. unfold leadStatusIn in Hl. destruct (leads _ !! id); [by eexists|done].
Qed.

(** C17: A decision on an email goes through: for a lead that awaits one, and unless it would
    bring back a second live draft of the same follow-up, it is stored on the latest email
    with its reviewer; the lead moves as the table says - so that the rejection of a
    follow-up never rejects the prospect -, and neither another lead or email nor a demo changes. *)
Theorem decideEmail_commits id d notes l e w :
  leads (pipe (w_db w)) !! id = Some l → ld_status l ∈ EMAIL_ACTIONABLE_LEAD_STATES →
  latestEmail id (reviewedSystem (w_db w)) = Some e → ew_humanDecision e ≠ Some (decisionText d) →
  (∀ t, checkDecideEmail (ew_id e) (decideEmailRow d notes actor t) (reviewedSystem (w_db w)) = None) →
  freshEvents (pipeOf w) → keyedRows (reviewedSystem (w_db w)) →
  ∃ w' t, decideEmail actor id d notes w = (Ok DONE, w') ∧
    leadStatusIn id (w_db w') = Some (afterReview d (0 <? ew_sequenceStep e) (ld_status l)) ∧
    emailDrafts (reviewedSystem (w_db w')) =
      <[ew_id e := decideEmailRow d notes actor t e]> (emailDrafts (reviewedSystem (w_db w))) ∧
    (∀ other, other ≠ id → leads (pipe (w_db w')) !! other = leads (pipe (w_db w)) !! other) ∧
    finalizations (reviewedSystem (w_db w')) = finalizations (reviewedSystem (w_db w)) ∧
    demos (w_db w') = demos (w_db w).
Proof.
  intros El Hst Ee Hd Hcheck Hf Hk. destruct (emailMove_spec d (ew_sequenceStep e) (ld_status l) Hst) as [Hm Hc].
  assert (twp (decideEmail actor id d notes) (λ r _, r = DONE) w) as Htotal.
  { unfold decideEmail. rewrite twp_transaction, twp_bind. apply twp_getLead. rewrite El.
    rewrite (bool_decide_eq_true_2 _ Hst). cbn [negb]. rewrite twp_bind. apply twp_inSystem. rewrite Ee.
    rewrite (bool_decide_eq_false_2 _ Hd), twp_bind, twp_now, twp_bind, twp_zoom. unfold setEmailHumanDecision.
    apply twp_guarded; [apply Hcheck|]. cbn [w_db w_ticks w_uuids].
    apply (twp_moveAndNote _ _ _ _ (ld_status l)); [|exact Hf|exact Hc].
    unfold leadStatusIn. change (ld_status <$> leads (pipe (w_db w)) !! id = Some (ld_status l)). by rewrite El. }
  pose proof (twp_and_wp _ _ _ _ Htotal (wp_decideEmail actor id d notes w)) as (r & w' & E & -> & Hw)%twp_returns.
  destruct Hw as [[_ []]|(_ & l' & e' & t & t' & es & El' & _ & Ee' & _ & Ew)]; [done|].
  rewrite El in El'. rewrite Ee in Ee'. injection El' as <-. injection Ee' as <-.
  exists w', t. rewrite Ew. unfold afterEmail. rewrite leadStatusIn_change, pipe_withPipe, leadChange_leads.
  split_and!; try done.
  - destruct (emailMove _ _ _) as [to|]; cbn; [rewrite decide_True by done|]; rewrite El; cbn; by rewrite <-Hm.
  - change (alter (decideEmailRow d notes actor t) (ew_id e) (emailDrafts (reviewedSystem (w_db w))) =
      <[ew_id e := decideEmailRow d notes actor t e]> (emailDrafts (reviewedSystem (w_db w)))).
    apply latestEmail_stored in Ee as [Ee _]; [|done]. apply map_eq. intros k. destruct (decide (k = ew_id e)) as [->|].
    + by rewrite lookup_alter_eq, lookup_insert_eq, Ee.
    + by rewrite lookup_alter_ne, lookup_insert_ne.
  - intros other Ho. destruct (emailMove _ _ _) as [to|]; cbn; [|done]. by rewrite lookup_alter_ne.
Qed.
End commits.

(** ** The finalization of a reply email *)

Section finalizing.
Context `{Runtime}.

Lemma uniq_nil {A} `{EqDecision A} (l : list A) : uniq l = [] → l = [].
Proof.
  intros E. destruct l as [|x l]; [done|]. exfalso.
  pose proof (elem_of_uniq (x :: l) x (list_elem_of_here _ _)) as Hx. rewrite E in Hx. by apply elem_of_nil in Hx.
Qed.
(** What the validation lets through is what the gate for Gmail drafts asks of a text. *)
Lemma validate_sound leadId status d : validateReplyFinalization leadId status d = true →
  status = "HUMAN_APPROVED" ∧ ∃ e, d = Some e ∧ ew_leadId e = leadId ∧ ew_status e = "APPROVED" ∧
    ew_humanDecision e = Some "APPROVED" ∧ ew_ctaKind e = "reply" ∧
    draftTextReasons (Some (Some "APPROVED", ew_body e)) = [].
Proof.
  unfold validateReplyFinalization, replyViolations, draftTextReasons, neq. intros E%Nat.eqb_eq%length_zero_iff_nil.
  destruct d as [e|]; [|by apply app_eq_nil in E as [_ E]]. apply uniq_nil in E.
  repeat (apply app_eq_nil in E as [?E E]).
  repeat match goal with H : when _ _ = [] |- _ => apply when_nil in H end.
  repeat match goal with H : negb _ = false |- _ => apply negb_false_iff in H end.
  repeat match goal with H : bool_decide _ = true |- _ => apply bool_decide_eq_true_1 in H end.
  split; [done|]. exists e. split_and!; [done..|]. cbn [default]. by rewrite E5, E.
Qed.

(** At most one finalization of a draft as a reply *)
Definition oneReplyPerDraft (db : SystemDb) : Prop := ∀ k k' f f',
  finalizations db !! k = Some f → finalizations db !! k' = Some f' → fn_kind f = REPLY_FINALIZATION_KIND →
  fn_kind f' = REPLY_FINALIZATION_KIND → fn_originalDraftId f = fn_originalDraftId f' → k = k'.
Lemma hasReplyFinalization_false draftId db k f : hasReplyFinalization draftId db = false →
  finalizations db !! k = Some f → fn_kind f = REPLY_FINALIZATION_KIND → fn_originalDraftId f ≠ draftId.
Proof.
  intros Hno Hf Hkind <-. apply not_true_iff_false in Hno. apply Hno, existsb_exists. exists f. split.
  - apply list_elem_of_In, list_elem_of_fmap. exists (k, f). split; [done|]. by apply elem_of_map_to_list.
  - by rewrite Hkind, !String.eqb_refl.
Qed.

Lemma wp_required {DB} code message o Q (w : world DB) :
  (∀ s, trim <$> o = Some s → s ≠ "" → Q s w) → wp (required code message o) Q w.
Proof.
  intros HQ. unfold required. destruct (trim <$> o) as [[|c s]|]; [done| |done]. rewrite wp_ret. by apply HQ.
Qed.

(** What the command has written when it reports success *)
Record finalizedReply (leadId draftId operator id : string) (e : EmailDraftRow) (f : FinalizationRow)
    (db db' : SystemDb) : Prop := {
  fr_lead : ld_status <$> leads (pipelineDb db) !! leadId = Some HUMAN_APPROVED;
  fr_draft : emailDrafts db !! draftId = Some e;
  fr_owner : ew_leadId e = leadId;
  fr_decision : ew_status e = "APPROVED" ∧ ew_humanDecision e = Some "APPROVED" ∧ ew_ctaKind e = "reply";
  fr_text : draftTextReasons (Some (Some "APPROVED", ew_body e)) = [];
  fr_row : fn_id f = id ∧ fn_originalDraftId f = draftId ∧ fn_kind f = REPLY_FINALIZATION_KIND;
  fr_body : fn_resolvedBody f = ew_body e ∧ fn_resolvedBodyHash f = sha256Hex (ew_body e);
  fr_approval : fn_finalHumanDecision f = Some "APPROVED" ∧ fn_finalReviewedBy f = Some operator;
  fr_new : finalizations db !! id = None ∧ hasReplyFinalization draftId db = false;
  fr_stored : finalizations db' = <[id := f]> (finalizations db);
  fr_drafts : emailDrafts db' = emailDrafts db;
  fr_leads : leads (pipelineDb db') = leads (pipelineDb db);
}.
Lemma wp_finalize lead draft by_ confirm w :
  wp (replyEmailFinalizeCommand lead draft by_ confirm) (λ out w',
    match out with
    | FIN_PERSISTED id => ∃ leadId draftId operator e f, trim <$> lead = Some leadId ∧ trim <$> draft = Some draftId ∧
        trim <$> by_ = Some operator ∧ finalizedReply leadId draftId operator id e f (w_db w) (w_db w') ∧
        ∃ n, (w_ticks w <= n)%nat ∧ fn_finalizedAt f = clock n
    | _ => w_db w' = w_db w
    end) w.
Proof.
  unfold replyEmailFinalizeCommand. rewrite wp_bind. apply wp_required. intros leadId Elead _.
  rewrite wp_bind. apply wp_required. intros draftId Edraft _. rewrite wp_bind. apply wp_required. intros operator Eby _.
  rewrite wp_bind, wp_zoom. unfold getLead. rewrite wp_query. cbn [w_db].
  replace (World _ _ _) with w by by destruct w as [[]].
  change (view onPipeline (w_db w)) with (pipelineDb (w_db w)).
  destruct (leads (pipelineDb (w_db w)) !! leadId) as [l|] eqn:El; [|done]. rewrite wp_bind, wp_query.
  destruct (validateReplyFinalization _ _ _) eqn:Hv; cbn [negb]; [|done].
  apply validate_sound in Hv as (Hst & e & Ee & Hown & Happ & Hhum & Hcta & Htext).
  rewrite wp_bind, wp_query. destruct (hasReplyFinalization draftId (w_db w)) eqn:Hno; [done|].
  rewrite wp_bind, wp_randomUUID. destruct confirm; cbn [negb]; [|done].
  rewrite wp_bind, wp_transaction, wp_bind, wp_now, wp_bind. unfold insertReplyFinalization.
  rewrite wp_bind, wp_now, wp_guarded. cbn [w_db w_ticks w_uuids]. intros Hc.
  apply refuse_None in Hc. rewrite !Forall_cons in Hc. destruct Hc as (Hnew & _ & _ & _).
  apply bool_decide_eq_false, eq_None_not_Some in Hnew.
  rewrite wp_zoom. eapply wp_mono; [|apply wp_recordEvent_exact]. intros _ w' [es E]. rewrite wp_ret.
  cbn [w_db] in *. rewrite E, Ee. eexists leadId, draftId, operator, e, _. do 3 (split; [done|]).
  split; [split; [..|reflexivity| |]; try done|].
  - rewrite El. cbn. f_equal. clear -Hst. by destruct (ld_status l).
  - exact (leadChange_leads "" None es (pipelineDb (w_db w))).
  - exists (S (w_ticks w)). split; [lia|reflexivity].
Qed.

Lemma latestBy_unique {A} (key : A → Z) l x :
  x ∈ l → (∀ y, y ∈ l → y = x ∨ key y < key x) → latestBy key l = Some x.
Proof.
  intros Hx Hlt. destruct (latestBy key l) as [m|] eqn:E.
  - apply latestBy_max in E as [Hm Hmax]. specialize (Hmax x Hx). destruct (Hlt m Hm) as [->|]; [done|lia].
  - apply latestBy_nil in E as ->. by apply elem_of_nil in Hx.
Qed.
(** The clock has passed the finalizations of a lead. *)
Definition finalizedBefore (leadId : string) (w : world SystemDb) : Prop :=
  ∀ f e n, (f, e) ∈ leadFinalizations leadId (w_db w) → (w_ticks w <= n)%nat → fn_finalizedAt f < clock n.
Lemma new_finalization_latest leadId draftId operator id e f w w' n :
  keyedRows (w_db w) → finalizedReply leadId draftId operator id e f (w_db w) (w_db w') →
  (w_ticks w <= n)%nat → fn_finalizedAt f = clock n → finalizedBefore leadId w →
  latestBy (λ fe : FinalizationRow * EmailDraftRow, fn_finalizedAt fe.1) (leadFinalizations leadId (w_db w')) =
    Some (f, e).
Proof.
  intros Hk [_ He Hown _ _ (Hid & Hdraft & _) _ _ [Hnew _] Hstored Hdrafts _] Hn Ht Hbefore. apply latestBy_unique.
  - apply elem_of_leadFinalizations. exists id. rewrite Hstored, lookup_insert_eq, Hdrafts, Hdraft. done.
  - intros [f' e'] Hf'. apply elem_of_leadFinalizations in Hf' as (k & Hf' & He' & Hown').
    rewrite Hstored in Hf'. rewrite Hdrafts in He'. apply lookup_insert_Some in Hf' as [[<- <-]|[_ Hf']].
    + left. rewrite Hdraft, He in He'. by injection He' as <-.
    + right. simpl. rewrite Ht. apply (Hbefore f' e' n); [|done]. apply elem_of_leadFinalizations. by exists k.
Qed.

(** C16: From the approval to the draft: when the finalization of a reply email succeeds, the
    lead and the draft had a human's approval, the finalized text is the approved text,
    it is the only one of its draft, and it is the text that the creation of Gmail drafts
    takes up next: of its gate only the configuration and the recipient's address are left. *)
Theorem finalized_reply_is_draftable lead draft by_ confirm w id w' :
  keyedRows (w_db w) → oneReplyPerDraft (w_db w) →
  (∀ leadId, trim <$> lead = Some leadId → finalizedBefore leadId w) →
  replyEmailFinalizeCommand lead draft by_ confirm w = (Ok (FIN_PERSISTED id), w') →
  oneReplyPerDraft (w_db w') ∧
  ∃ leadId draftId l e, trim <$> lead = Some leadId ∧ trim <$> draft = Some draftId ∧
    leads (pipelineDb (w_db w')) !! leadId = Some l ∧ ld_status l = HUMAN_APPROVED ∧
    emailDrafts (w_db w) !! draftId = Some e ∧ ew_leadId e = leadId ∧ ew_humanDecision e = Some "APPROVED" ∧
    let data := latestGmailInput leadId (w_db w') in
    gid_finalization data = Some {| gf_id := id; gf_resolvedBody := ew_body e;
      gf_resolvedBodyHash := sha256Hex (ew_body e); gf_finalHumanDecision := Some "APPROVED" |} ∧
    ∀ c, gel_reasons (checkGmailEligibility (gmailSnapshot c (gmailInput l data) false)) =
      when (negb (gc_featureEnabled c)) "feature_disabled" ++
      when (negb (gc_draftActionsEnabled c)) "gmail_draft_actions_disabled" ++
      when (negb (gc_credentialsConfigured c)) "credentials_missing" ++
      draftRecipientReasons (gid_recipientEmail data).
Proof.
  intros Hk Hone Hbefore E. pose proof (wp_finalize lead draft by_ confirm w) as Hw. unfold wp in Hw. rewrite E in Hw.
  destruct Hw as (leadId & draftId & operator & e & f & El & Ed & _ & Hfin & n & Hn & Ht).
  pose proof (new_finalization_latest _ _ _ _ _ _ _ _ _ Hk Hfin Hn Ht (Hbefore _ El)) as Hlatest.
  destruct Hfin as [Hst He Hown (_ & Hhum & _) Htext (Hid & Hdraft & Hkind) [Hbody Hhash] [Happ _] [Hnew Hno] Hstored _ Hleads].
  split.
  - intros k k' f1 f2. rewrite Hstored, !lookup_insert_Some.
    intros [[<- <-]|[Hne1 H1]] [[<- <-]|[Hne2 H2]] K1 K2 D; [done| | |by eapply Hone].
    + exfalso. apply (hasReplyFinalization_false _ _ _ _ Hno H2 K2). congruence.
    + exfalso. apply (hasReplyFinalization_false _ _ _ _ Hno H1 K1). congruence.
  - destruct (leads (pipelineDb (w_db w)) !! leadId) as [l|] eqn:Elead; [|done]. injection Hst as Hst.
    exists leadId, draftId, l, e. rewrite Hleads. split_and!; [done..|].
    assert (gid_finalization (latestGmailInput leadId (w_db w')) = Some {| gf_id := id; gf_resolvedBody := ew_body e;
      gf_resolvedBodyHash := sha256Hex (ew_body e); gf_finalHumanDecision := Some "APPROVED" |}) as Hgid.
    { unfold latestGmailInput. cbn [gid_finalization]. rewrite Hlatest. cbn. by rewrite Hid, Hbody, Hhash, Happ. }
    cbv zeta. split; [exact Hgid|]. intros c. unfold checkGmailEligibility, gmailSnapshot, gmailInput.
    cbn [ge_existingDraftForFingerprint ge_featureEnabled ge_draftActionsEnabled ge_credentialsConfigured ge_leadStatus
         ge_finalization ge_recipientEmail gi_leadStatus gi_finalization gi_recipientEmail gel_reasons].
    rewrite Hgid, Hst. cbn [fmap option_fmap option_map gf_finalHumanDecision gf_resolvedBody]. by rewrite Htext.
Qed.
End finalizing.

(** ** Rejecting and reopening a lead *)

Section rejecting.
Context `{Runtime}.

(** The lead is moved, and what was recorded before is still there. *)
Definition movedKeeping (id : string) (to : LeadStatus) (w w' : world PipelineDb) : Prop :=
  movedTo id to w w' ∧ ∃ es, pipelineEvents (w_db w') = pipelineEvents (w_db w) ++ es.
Lemma kept_status id to w w' : movedKeeping id to w w' → ld_status <$> leads (w_db w') !! id = Some to.
Proof. by intros [[] _]. Qed.
Lemma kept_fresh id to w w' : movedKeeping id to w w' → freshEvents w'.
Proof. by intros [[] _]. Qed.
Lemma movedKeeping_trans id to1 to2 w1 w2 w3 :
  movedKeeping id to1 w1 w2 → movedKeeping id to2 w2 w3 → movedKeeping id to2 w1 w3.
Proof.
  intros [M1 [es1 E1]] [M2 [es2 E2]]. split; [by eapply movedTo_trans|]. exists (es1 ++ es2). by rewrite E2, E1, app_assoc.
Qed.
Lemma leadTransition_keeps id to w from :
  ld_status <$> leads (w_db w) !! id = Some from → canTransition from to = true → freshEvents w →
  twp (leadTransition id to) (λ _, movedKeeping id to w) w.
Proof.
  intros Hl Hc Hf. eapply twp_mono; [|apply twp_and_wp;
    [by eapply leadTransition_moves|apply (wp_leadTransition_exact id to w)]].
  intros _ w' [Hm (l & t & es & _ & _ & E)]. split; [done|]. exists es. by rewrite E, leadChange_events.
Qed.
Lemma recordEvent_keeps id st e w :
  ld_status <$> leads (w_db w) !! id = Some st → freshEvents w → pe_leadId e = Some id → pe_runId e = None →
  twp (recordEvent e) (λ _, movedKeeping id st w) w.
Proof.
  intros Hl [Hinj Hfresh] El Er. unfold recordEvent. twp_run. apply twp_guarded; cbn [w_db].
  - apply refuse_None. rewrite !Forall_cons, El, Er. cbn [fst]. split_and!; [| |done|constructor].
    + apply not_true_iff_false. intros (e' & He & E%bool_decide_eq_true_1)%existsb_exists.
      apply (Hfresh (w_uuids w) (Nat.le_refl _) e'); [by apply list_elem_of_In|done].
    + apply negb_false_iff, bool_decide_eq_true_2. destruct (leads (w_db w) !! id); [by eexists|done].
  - destruct w as [[] t u]; cbn [w_db w_uuids] in *. split; [split; cbn [w_db w_uuids]|by eexists]; try done; [|lia].
    split; [done|]. intros n Hn e' He. cbn in He, Hn. apply elem_of_app in He as [He|He].
    + apply (Hfresh n); [cbn; lia|done].
    + apply list_elem_of_singleton in He as ->. intros Hu%Hinj. lia.
Qed.
Lemma twp_required {DB} code message o s Q (w : world DB) :
  trim <$> o = Some s → s ≠ "" → Q s w → twp (required code message o) Q w.
Proof. intros E Hs HQ. unfold required. rewrite E. destruct s; [done|]. by rewrite twp_ret. Qed.
Lemma twp_getLead_pipe id (Q : option Lead → world PipelineDb → Prop) w :
  Q (leads (w_db w) !! id) w → twp (getLead id) Q w.
Proof. intros HQ. unfold getLead. by rewrite twp_query. Qed.

(** The plan follows the state machine, from the states before the first contact only. *)
Lemma planRejectionPath_spec from :
  match planRejectionPath from with
  | Ok path => from ∈ REJECTABLE_STATES ∧ leadRun from path ∧ (path = [REJECTED] ∨ path = [NEEDS_MANUAL_REVIEW; REJECTED])
  | Throw e => from ∉ REJECTABLE_STATES
  end.
Proof.
  destruct from; cbn -[REJECTABLE_STATES canTransition leadRun];
    first [by apply (bool_decide_unpack (_ ∉ REJECTABLE_STATES)); vm_compute
          |split; [by apply (bool_decide_unpack (_ ∈ REJECTABLE_STATES)); vm_compute|]];
    (split; [repeat split; vm_compute; reflexivity|auto]).
Qed.

Lemma reject_path id from path w :
  leadRun from path → ld_status <$> leads (w_db w) !! id = Some from → freshEvents w →
  path = [REJECTED] ∨ path = [NEEDS_MANUAL_REVIEW; REJECTED] →
  twp (for_each path (λ to, _ ← leadTransition id to; mret tt)) (λ _, movedKeeping id REJECTED w) w.
Proof.
  intros Hrun Hl Hf [-> | ->]; cbn [for_each leadRun] in *; rewrite !twp_bind.
  - destruct Hrun as [Hs _]. eapply twp_mono; [|by eapply leadTransition_keeps]. intros ? w1 Hm. by twp_run.
  - destruct Hrun as (Hs & Hs' & _). eapply twp_mono; [|by eapply leadTransition_keeps]. intros ? w1 Hm. twp_run.
    eapply twp_mono; [|eapply (leadTransition_keeps _ _ _ NEEDS_MANUAL_REVIEW); [exact (kept_status _ _ _ _ Hm)|exact Hs'|exact (kept_fresh _ _ _ _ Hm)]].
    intros ? w2 Hm2. twp_run. exact (movedKeeping_trans _ _ _ _ _ _ Hm Hm2).
Qed.
Lemma reject_commits lead reason by_ id why operator l w :
  trim <$> lead = Some id → trim <$> reason = Some why → trim <$> by_ = Some operator →
  id ≠ "" → why ≠ "" → operator ≠ "" → leads (w_db w) !! id = Some l → ld_status l ∈ REJECTABLE_STATES →
  freshEvents w → twp (rejectLeadCommand lead reason by_) (λ _, movedKeeping id REJECTED w) w.
Proof.
  intros Elead Ewhy Eby Hid Hwhy Hby El Hst Hf. unfold rejectLeadCommand.
  do 3 (rewrite twp_bind; eapply twp_required; [done..|]). rewrite twp_bind. apply twp_getLead_pipe. rewrite El.
  pose proof (planRejectionPath_spec (ld_status l)) as Hplan. rewrite twp_bind.
  destruct (planRejectionPath (ld_status l)) as [path|e]; [|done]. destruct Hplan as (_ & Hrun & Hpath).
  rewrite twp_lift_ok, twp_bind. eapply twp_mono; [|eapply reject_path; [done|by rewrite El|done..]].
  intros ? w1 Hm. eapply twp_mono; [|eapply recordEvent_keeps; [exact (kept_status _ _ _ _ Hm)|exact (kept_fresh _ _ _ _ Hm)|done..]].
  intros ? w2 Hm2. exact (movedKeeping_trans _ _ _ _ _ _ Hm Hm2).
Qed.
Lemma reopen_commits lead reason by_ id why operator w :
  trim <$> lead = Some id → trim <$> reason = Some why → trim <$> by_ = Some operator →
  id ≠ "" → why ≠ "" → operator ≠ "" → ld_status <$> leads (w_db w) !! id = Some REJECTED →
  freshEvents w → twp (reopenLeadCommand lead reason by_) (λ _, movedKeeping id NEEDS_MANUAL_REVIEW w) w.
Proof.
  intros Elead Ewhy Eby Hid Hwhy Hby Hst Hf. unfold reopenLeadCommand.
  do 3 (rewrite twp_bind; eapply twp_required; [done..|]). rewrite twp_bind. apply twp_getLead_pipe.
  destruct (leads (w_db w) !! id) as [l|] eqn:El; [|done]. injection Hst as Hst. cbv zeta. rewrite Hst.
  change (negb (bool_decide (REJECTED = REOPENABLE_STATE))) with false. cbv iota.
  change (negb (canTransition REJECTED REOPEN_TARGET)) with false. cbv iota. rewrite twp_bind.
  eapply twp_mono; [|apply (leadTransition_keeps _ _ _ REJECTED); [by rewrite El; cbn; rewrite Hst|done..]].
  intros ? w1 Hm. eapply twp_mono; [|eapply recordEvent_keeps; [exact (kept_status _ _ _ _ Hm)|exact (kept_fresh _ _ _ _ Hm)|done..]].
  intros ? w2 Hm2. exact (movedKeeping_trans _ _ _ _ _ _ Hm Hm2).
Qed.

(** Rejecting by command is safe and can be taken back: a lead that has not been contacted
    yet is rejected along the state machine, and reopening it then puts it under manual
    review with every event that was recorded still there; a lead in any other state is
    refused, and the database stays as it was. *)
Theorem rejection_is_reversible lead reason by_ id why operator l w :
  trim <$> lead = Some id → trim <$> reason = Some why → trim <$> by_ = Some operator →
  id ≠ "" → why ≠ "" → operator ≠ "" → leads (w_db w) !! id = Some l → freshEvents w →
  if bool_decide (ld_status l ∈ REJECTABLE_STATES) then
    ∃ w1 w2, rejectLeadCommand lead reason by_ w = (Ok tt, w1) ∧
      ld_status <$> leads (w_db w1) !! id = Some REJECTED ∧
      reopenLeadCommand lead reason by_ w1 = (Ok tt, w2) ∧
      ld_status <$> leads (w_db w2) !! id = Some NEEDS_MANUAL_REVIEW ∧
      (∃ es es', pipelineEvents (w_db w1) = pipelineEvents (w_db w) ++ es ∧
         pipelineEvents (w_db w2) = pipelineEvents (w_db w1) ++ es') ∧
      ∀ other, other ≠ id → leads (w_db w2) !! other = leads (w_db w) !! other
  else ∃ e, rejectLeadCommand lead reason by_ w = (Throw e, w).
Proof.
  intros Elead Ewhy Eby Hid Hwhy Hby El Hf. case_bool_decide as Hst.
  - pose proof (reject_commits _ _ _ _ _ _ _ _ Elead Ewhy Eby Hid Hwhy Hby El Hst Hf) as ([] & w1 & E1 & M1 & es1 & H1)%twp_returns.
    pose proof (reopen_commits _ _ _ _ _ _ w1 Elead Ewhy Eby Hid Hwhy Hby (mv_status _ _ _ _ M1) (mv_fresh _ _ _ _ M1))
      as ([] & w2 & E2 & M2 & es2 & H2)%twp_returns.
    exists w1, w2. split_and!; [done|apply M1|done|apply M2|by exists es1, es2|].
    intros o Ho. rewrite (mv_others _ _ _ _ M2 o Ho). by apply M1.
  - unfold rejectLeadCommand, required. rewrite Elead, Ewhy, Eby.
    destruct id; [done|]. destruct why; [done|]. destruct operator; [done|].
    unfold mbind, M_bind, mret, M_ret, getLead, query. rewrite El. cbv zeta.
    pose proof (planRejectionPath_spec (ld_status l)) as Hp. destruct (planRejectionPath (ld_status l)) as [p|e].
    + by destruct Hp as [? _].
    + by exists e.
Qed.
End rejecting.

(** The note on a follow-up that is rejected while its lead waits for a demo reports a move
    that is not made. *)
Example rejected_waiting_followup :
  emailMove REJECTED_BY_HUMAN 1 WAITING_FOR_DEMO_URL = None ∧
  includes (emailNote REJECTED_BY_HUMAN 1 WAITING_FOR_DEMO_URL) "lead returned to SENT" = true.
Proof. split; vm_compute; reflexivity. Qed.

(** ** Witnesses: a reply email on its way from the review to Gmail *)

#[local] Existing Instance demo_runtime.

Definition demoUndecided : EmailDraftRow :=
  {| ew_id := "e1"; ew_leadId := "l1"; ew_subject := "Ihre Website"; ew_body := demoBody; ew_ctaKind := "reply";
     ew_status := "APPROVED"; ew_sequenceStep := 0; ew_outreachRecordId := None; ew_humanDecision := None;
     ew_humanNotes := None; ew_humanReviewedAt := None; ew_humanReviewedBy := None; ew_createdAt := 0 |}.
Definition demoLeadAt (status : LeadStatus) : Lead := setLeadStatus status 0 demoLead.
Definition demoReviewSystem (status : LeadStatus) (e : EmailDraftRow) : SystemDb :=
  put onPipeline (setLeads (λ _, {["l1" := demoLeadAt status]}) demoPipelineDb)
    (setFinalizations (λ _, ∅) (setEmailDrafts (λ _, {["e1" := e]}) demoSystem)).
Definition demoReviewDb : ReviewDb :=
  {| reviewedSystem := demoReviewSystem READY_FOR_HUMAN_APPROVAL demoUndecided; demos := [] |}.
Lemma demo_keyed status e : ew_id e = "e1" → keyedRows (demoReviewSystem status e).
Proof.
  intros He. split; intros k x Hx.
  - change (({["e1" := e]} : gmap string EmailDraftRow) !! k = Some x) in Hx. by apply lookup_singleton_Some in Hx as [<- <-].
  - change ((∅ : gmap string FinalizationRow) !! k = Some x) in Hx. by rewrite lookup_empty in Hx.
Qed.
Lemma demo_no_finalization status e k f : finalizations (demoReviewSystem status e) !! k = Some f → False.
Proof. intros Hf. change ((∅ : gmap string FinalizationRow) !! k = Some f) in Hf. by rewrite lookup_empty in Hf. Qed.
Definition demoRequest : Request :=
  {| rq_path := "/lead/l1/email/approve"; rq_host := Some "127.0.0.1:4310";
     rq_origin := Some "http://127.0.0.1:4310"; rq_referer := None; rq_postBody := "csrf=tok&notes=fine" |}.
Lemma approval_is_authentic_witness :
  (servePost "local-reviewer" "tok" demoRequest (World demoReviewDb 0 0)).1 = Ok 303 ∧
  authentic "tok" demoRequest ∧ ∃ notes t e,
    emailDrafts (reviewedSystem (w_db (servePost "local-reviewer" "tok" demoRequest (World demoReviewDb 0 0)).2))
      !! "e1" = Some (decideEmailRow APPROVED notes "local-reviewer" t e).
Proof.
  split; [vm_compute; reflexivity|].
  destruct (approval_is_authentic "local-reviewer" "tok" demoRequest (World demoReviewDb 0 0)) as [Hauth Happ].
  - apply demo_keyed. reflexivity.
  - split.
    + destruct Hauth as [Heq|Hauth]; [|exact Hauth]. exfalso.
      apply (f_equal (leadStatusIn "l1")) in Heq. vm_compute in Heq. discriminate.
    + destruct (Happ "l1") as (notes & t & [[_ (e & He & Hrow)]|[Hst _]]).
      * vm_compute. reflexivity.
      * vm_compute. discriminate.
      * exists notes, t, e. assert (ew_id e = "e1") as Hid.
        { vm_compute in He. injection He as <-. reflexivity. }
        rewrite <-Hid at 1. exact Hrow.
      * vm_compute in Hst. discriminate.
Defined.
Lemma decideEmail_commits_witness :
  ew_humanDecision demoUndecided = None ∧
  ∃ w' t, decideEmail "rev" "l1" REJECTED_BY_HUMAN None (World demoReviewDb 0 0) = (Ok DONE, w') ∧
    leadStatusIn "l1" (w_db w') = Some REJECTED ∧
    emailDrafts (reviewedSystem (w_db w')) =
      <["e1" := decideEmailRow REJECTED_BY_HUMAN None "rev" t demoUndecided]> {["e1" := demoUndecided]}.
Proof.
  split; [reflexivity|].
  destruct (decideEmail_commits "rev" "l1" REJECTED_BY_HUMAN None (demoLeadAt READY_FOR_HUMAN_APPROVAL)
    demoUndecided (World demoReviewDb 0 0)) as (w' & t & E & Hst & He & _).
  - reflexivity.
  - apply (bool_decide_unpack (_ ∈ EMAIL_ACTIONABLE_LEAD_STATES)). vm_compute. exact I.
  - vm_compute. reflexivity.
  - discriminate.
  - reflexivity.
  - split; [exact uuid_inj|]. intros n _ e He. inversion He.
  - apply demo_keyed. reflexivity.
  - exists w', t. split; [exact E|]. split; [exact Hst|exact He].
Defined.

Definition demoApproved : world SystemDb :=
  World (demoReviewSystem HUMAN_APPROVED (decideEmailRow APPROVED None "rev" 1 demoUndecided)) 0 0.
Definition demoFinalize : res FinalizeOutcome * world SystemDb :=
  replyEmailFinalizeCommand (Some "l1") (Some " e1 ") (Some "op") true demoApproved.
Lemma finalized_reply_is_draftable_witness :
  demoFinalize.1 = Ok (FIN_PERSISTED "uuid-0") ∧
  gf_resolvedBody <$> gid_finalization (latestGmailInput "l1" (w_db demoFinalize.2)) = Some demoBody.
Proof.
  assert (demoFinalize.1 = Ok (FIN_PERSISTED "uuid-0")) as E1 by (vm_compute; reflexivity). split; [exact E1|].
  destruct (finalized_reply_is_draftable (Some "l1") (Some " e1 ") (Some "op") true demoApproved "uuid-0" demoFinalize.2)
    as (_ & leadId & draftId & l & e & El & Ed & _ & _ & He & _ & _ & Hgid & _).
  - apply demo_keyed. reflexivity.
  - intros k k' f f' Hf. destruct (demo_no_finalization _ _ _ _ Hf).
  - intros leadId _ f e n Hf. apply elem_of_leadFinalizations in Hf as (k & Hk & _). destruct (demo_no_finalization _ _ _ _ Hk).
  - change (demoFinalize = (Ok (FIN_PERSISTED "uuid-0"), demoFinalize.2)). rewrite <-E1. by destruct demoFinalize.
  - vm_compute in El. injection El as <-. rewrite Hgid. vm_compute in Ed. injection Ed as <-.
    vm_compute in He. injection He as <-. reflexivity.
Defined.
Lemma rejection_is_reversible_witness :
  ld_status (demoLeadAt READY_FOR_AUDIT) = READY_FOR_AUDIT ∧
  ∃ w1, rejectLeadCommand (Some "l1") (Some "no website") (Some "op")
    (World (pipelineDb (demoReviewSystem READY_FOR_AUDIT demoUndecided)) 0 0) = (Ok tt, w1) ∧
    ld_status <$> leads (w_db w1) !! "l1" = Some REJECTED.
Proof.
  split; [reflexivity|].
  pose proof (rejection_is_reversible (Some "l1") (Some "no website") (Some "op") "l1" "no website" "op"
    (demoLeadAt READY_FOR_AUDIT) (World (pipelineDb (demoReviewSystem READY_FOR_AUDIT demoUndecided)) 0 0)) as Hthm.
  destruct Hthm as (w1 & w2 & E1 & H1 & _).
  - reflexivity.
  - reflexivity.
  - reflexivity.
  - discriminate.
  - discriminate.
  - discriminate.
  - reflexivity.
  - split; [exact uuid_inj|]. intros n _ e He. inversion He.
  - exists w1. split; [exact E1|exact H1].
Defined.
