(* ===== verification/EmailWriterSpecs.v ===== *)
(** * What a run of the email writer leaves behind

    The table of shared words computes the longest run of words that a follow-up has in common
    with an earlier message; a draft that was kept is read back as it was; what every rendered
    message begins with.  Then: which drafts and leads a run may change, how often it asks a
    model, and what it stores of its calls - whatever the model answers and wherever the run
    stops.  The database on which the emails are tried out is at the end. *)
From S2P Require Import Prelude.
From S2P Require Import JsNumber.
From S2P Require Import JsText.
From S2P Require Import JsonText.
From S2P Require Import JsRegex.
From S2P Require Import OutreachStatus.
From S2P Require Import SystemDb.
From S2P Require Import Prospect.
From S2P Require Import Contacts.
From S2P Require Import EmailCopy.
From S2P Require Import EmailPrompts.
From S2P Require Import EmailStore.
From S2P Require Import LeadLifecycle.
From S2P Require Import PipelineDb.
From S2P Require Import ReviewSpecs.
From S2P Require Import EmailWriter.
From S2P Require Import EmailCommands.
From S2P Require Import SendSafety.
From S2P Require Import ScheduledCommand.
From S2P Require Import LeadFacts.
From S2P Require Import Review.
From S2P Require Import ContactEnrich.
Open Scope Z_scope.
Open Scope list_scope.

(** ** The longest run *)

Definition infix (run l : list string) : Prop := ∃ before after, l = before ++ run ++ after.
(** How far two lists agree *)
Fixpoint agree (a b : list string) : nat :=
  match a, b with
  | x :: a, y :: b => if String.eqb x y then S (agree a b) else O
  | _, _ => O
  end.
Lemma agree_spec m a b : (m ≤ agree a b)%nat ↔ ∃ run, length run = m ∧ run `prefix_of` a ∧ run `prefix_of` b.
Proof.
  split.
  - revert m b. induction a as [|x a IH]; intros m b Hm.
    { exists []. simpl in Hm. split_and!; [simpl; lia|apply prefix_nil..]. }
    destruct b as [|y b]; [exists []; simpl in Hm; split_and!; [simpl; lia|apply prefix_nil..]|].
    cbn [agree] in Hm. destruct m as [|m]; [exists []; split_and!; [done|apply prefix_nil..]|].
    destruct (String.eqb_spec x y) as [<-|]; [|lia]. destruct (IH m b) as (run & <- & Ha & Hb); [lia|].
    exists (x :: run). split_and!; [done|by apply prefix_cons..].
  - intros (run & <- & Ha & Hb). revert a b Ha Hb. induction run as [|x run IH]; intros a b [a' ->] [b' ->]; [simpl; lia|].
    simpl. rewrite String.eqb_refl. apply le_n_S. apply IH; by eexists.
Qed.

(** A row of the table: how far what was read agrees with each beginning of the other list,
    both read backwards *)
Fixpoint row (read back : list string) (previous : list string) : list nat :=
  agree read back :: match previous with [] => [] | y :: previous => row read (y :: back) previous end.
Lemma row_nil back previous : row [] back previous = replicate (S (length previous)) O.
Proof. revert back. induction previous as [|y previous IH]; intros back; [done|]. cbn [row]. by rewrite IH. Qed.
Lemma runRow_row x read back previous : runRow x (row read back previous) previous = tail (row (x :: read) back previous).
Proof.
  revert back. induction previous as [|y previous IH]; intros back; [done|]. cbn [row runRow tail]. rewrite IH.
  by destruct previous.
Qed.
Lemma row_cons x read back previous : row (x :: read) back previous = agree (x :: read) back :: tail (row (x :: read) back previous).
Proof. by destruct previous. Qed.
Lemma elem_of_row n read back previous :
  n ∈ row read back previous ↔ ∃ p q, previous = p ++ q ∧ n = agree read (reverse p ++ back).
Proof.
  revert back. induction previous as [|y previous IH]; intros back; cbn [row]; rewrite elem_of_cons.
  - split.
    + intros [->|[]%not_elem_of_nil]. by exists [], [].
    + intros (p & q & [-> ->]%eq_sym%app_nil & ->). by left.
  - rewrite IH. split.
    + intros [->|(p & q & -> & ->)]; [by exists [], (y :: previous)|]. exists (y :: p), q. split; [done|].
      by rewrite reverse_cons, <-app_assoc.
    + intros ([|y' p] & q & E & ->); [by left|]. simplify_eq/=. right. exists p, q. split; [done|].
      by rewrite reverse_cons, <-app_assoc.
Qed.
Lemma foldl_max m l n : (m ≤ foldl Nat.max n l)%nat ↔ (m ≤ n)%nat ∨ ∃ x, x ∈ l ∧ (m ≤ x)%nat.
Proof.
  revert n. induction l as [|y l IH]; intros n; cbn [foldl].
  - split; [by left|]. intros [?|(x & []%not_elem_of_nil & _)]. done.
  - rewrite IH. setoid_rewrite elem_of_cons. split.
    + intros [?|(x & ? & ?)]; [|right; eauto]. destruct (Nat.max_spec n y) as [[? E]|[? E]]; rewrite E in *; [right|left]; eauto.
    + intros [?|(x & [->|?] & ?)]; [left; lia|left; lia|right; eauto].
Qed.
(** Rows are added for the words that remain. *)
Lemma runTable_spec m read candidate previous longest :
  (m ≤ runTable (row read [] previous) candidate previous longest)%nat ↔
  (m ≤ longest)%nat ∨ ∃ c1 x c2 p q, candidate = c1 ++ x :: c2 ∧ previous = p ++ q ∧
    (m ≤ agree (x :: reverse c1 ++ read) (reverse p))%nat.
Proof.
  revert read longest. induction candidate as [|x candidate IH]; intros read longest; cbn [runTable].
  - split; [by left|]. by intros [?|(c1 & y & c2 & p & q & E%app_cons_not_nil & _)].
  - rewrite runRow_row. replace (O :: tail (row (x :: read) [] previous)) with (row (x :: read) [] previous)
      by (rewrite row_cons; done).
    assert (∀ l, foldl Nat.max l (tail (row (x :: read) [] previous)) = foldl Nat.max l (row (x :: read) [] previous)) as ->.
    { intros l. rewrite (row_cons x read). simpl. by rewrite Nat.max_0_r. }
    rewrite IH, foldl_max. setoid_rewrite elem_of_row. split.
    + intros [[?|(n & (p & q & -> & ->) & Hm)]|(c1 & y & c2 & p & q & -> & -> & Hm)].
      * by left.
      * right. exists [], x, candidate, p, q. rewrite app_nil_r in Hm. done.
      * right. exists (x :: c1), y, c2, p, q. split_and!; [done..|]. by rewrite reverse_cons, <-app_assoc.
    + intros [?|(c1 & y & c2 & p & q & E & -> & Hm)]; [by left; left|]. destruct c1 as [|x' c1]; simplify_eq/=.
      * left. right. eexists. split; [by exists p, q|]. by rewrite app_nil_r.
      * right. exists c1, y, c2, p, q. split_and!; [done..|]. by rewrite reverse_cons, <-app_assoc in Hm.
Qed.
Lemma prefix_reverse_infix run l q : run `prefix_of` reverse l → infix (reverse run) (l ++ q).
Proof.
  intros [r E]. apply (f_equal reverse) in E. rewrite reverse_involutive, reverse_app in E. exists (reverse r), q.
  by rewrite E, <-app_assoc.
Qed.
Lemma runTable_longest m candidate previous longest :
  (m ≤ runTable (replicate (S (length previous)) O) candidate previous longest)%nat ↔
  (m ≤ longest)%nat ∨ ∃ run, length run = m ∧ infix run candidate ∧ infix run previous.
Proof.
  rewrite <-(row_nil []), runTable_spec. split.
  - intros [?|(c1 & x & c2 & p & q & -> & -> & Hm)]; [by left|]. right.
    apply agree_spec in Hm as (run & <- & Ha & Hb). exists (reverse run). split_and!; [by rewrite length_reverse| |].
    + replace (c1 ++ x :: c2) with ((c1 ++ [x]) ++ c2) by by rewrite <-app_assoc.
      apply prefix_reverse_infix. rewrite reverse_app. by rewrite app_nil_r in Ha.
    + by apply prefix_reverse_infix.
  - intros [?|(run & <- & (c & c' & ->) & (p & p' & ->))]; [by left|].
    destruct run as [|x run _] using rev_ind; [left; simpl; lia|]. right.
    exists (c ++ run), x, c', (p ++ run ++ [x]), p'. rewrite <-!app_assoc. split_and!; [done..|].
    apply agree_spec. exists (reverse (run ++ [x])). rewrite length_reverse. split_and!; [done| |].
    + rewrite app_nil_r, !reverse_app. exists (reverse c). done.
    + rewrite !reverse_app. exists (reverse p). simpl. done.
Qed.

(** C27: The table that the gate fills computes the longest run of words that a follow-up has in
    common with one of the earlier messages: a run of [m] words is shared exactly if the result
    is at least [m]. *)
Theorem longestSharedRun_shared (candidate : list string) (prior : list (list string)) (m : nat) :
  (m ≤ longestSharedRun candidate prior)%nat ↔
  m = O ∨ ∃ run previous, length run = m ∧ previous ∈ prior ∧ infix run candidate ∧ infix run previous.
Proof.
  unfold longestSharedRun.
  assert (∀ n, (m ≤ foldl (λ longest previous, runTable (replicate (S (length previous)) O) candidate previous longest) n prior)%nat ↔
    (m ≤ n)%nat ∨ ∃ run previous, length run = m ∧ previous ∈ prior ∧ infix run candidate ∧ infix run previous) as E.
  { induction prior as [|previous prior IH]; intros n; cbn [foldl].
    - split; [by left|]. intros [?|(run & p & _ & []%not_elem_of_nil & _)]. done.
    - rewrite IH, runTable_longest. setoid_rewrite elem_of_cons. naive_solver. }
  rewrite E. split; (intros [?|?]; [left; lia|by right]).
Qed.

(** ** What is kept of a draft is read back as it was *)

Lemma readText_again max s t : readText max s = Some t → readText max (VStr t) = Some t.
Proof.
  unfold readText. destruct s; try done. destruct (_ && _) eqn:E; [|done]. intros [= <-]. by rewrite trim_idem, E.
Qed.
Lemma mapM_again {A B} (f : A → option B) (g : B → A) l l' :
  (∀ x y, f x = Some y → f (g y) = Some y) → mapM f l = Some l' → mapM f (map g l') = Some l'.
Proof.
  intros Hf. revert l'. induction l as [|x l IH]; intros l'; simpl; [by intros [= <-]|].
  destruct (f x) as [y|] eqn:Ex; simpl; [|done]. destruct (mapM f l) as [k|] eqn:El; simpl; [|done]. intros [= <-]. simpl.
  by rewrite (Hf x y Ex), (IH k eq_refl).
Qed.
Lemma readList_again lo hi max v l :
  readList lo hi (readText max) v = Some l → readList lo hi (readText max) (VArr (map jsonValue (map JStr l))) = Some l.
Proof.
  unfold readList. destruct v as [| | | |vs|]; try done. destruct (_ && _) eqn:E; [|done]. intros Hl.
  assert (length vs = length l) as Hn by (apply mapM_Some in Hl; by apply Forall2_length in Hl).
  rewrite !length_map, <-Hn, E. rewrite map_map. by apply (mapM_again _ (λ t, jsonValue (JStr t)) vs); [apply readText_again|].
Qed.
Lemma readScore_again v n : readScore v = Some n → readScore (jsonValue (JNum n)) = Some n.
Proof.
  assert (0 <= n <= 100 → readScore (jsonValue (JNum n)) = Some n) as Hn.
  { intros Hr. assert (forallb (λ k, bool_decide (readScore (jsonValue (JNum k)) = Some k)) (map Z.of_nat (seq 0 101)) = true) as Hall
      by (vm_compute; reflexivity).
    rewrite elem_of_forallb in Hall. specialize (Hall n). apply bool_decide_eq_true_1 in Hall; [done|].
    apply list_elem_of_fmap. exists (Z.to_nat n). split; [lia|]. apply elem_of_seq. lia. }
  unfold readScore at 1. destruct v; try done. destruct (integerN _) as [k|]; simpl; [|done].
  destruct (_ && _) eqn:E; [|done]. intros [= <-]. apply Hn. lia.
Qed.
Lemma readField_some {A} v name (item : value → option A) a : readField v name item = Some a → ∃ x, fieldOf v name = Some x ∧ item x = Some a.
Proof. unfold readField. destruct (fieldOf v name) as [x|]; [|done]. eauto. Qed.
Lemma bind_some {A B} (o : option A) (f : A → option B) b : o ≫= f = Some b → ∃ a, o = Some a ∧ f a = Some b.
Proof. destruct o; [eauto|done]. Qed.
Lemma scan_again s : readChoice scanChoices (jsonValue (scanJson s)) = Some s.
Proof. by destruct s. Qed.
Lemma competitor_again s :
  readChoice [("NONE", CE_NONE); ("APPROVED_COMPETITOR_PATTERN_PACKAGE", APPROVED_COMPETITOR_PATTERN_PACKAGE)]
    (VStr match s with CE_NONE => "NONE" | APPROVED_COMPETITOR_PATTERN_PACKAGE => "APPROVED_COMPETITOR_PATTERN_PACKAGE" end) = Some s.
Proof. by destruct s. Qed.
Lemma cta_again s :
  readChoice [("VIEW_CONCEPT", VIEW_CONCEPT); ("REPLY_FOR_DETAILS", REPLY_FOR_DETAILS)] (VStr (ctaText s)) = Some s.
Proof. by destruct s. Qed.
Lemma alignment_again s :
  readChoice [("PASS", ALIGN_PASS); ("NOT_APPLICABLE", ALIGN_NOT_APPLICABLE); ("FAIL", ALIGN_FAIL)]
    (VStr match s with ALIGN_PASS => "PASS" | ALIGN_NOT_APPLICABLE => "NOT_APPLICABLE" | ALIGN_FAIL => "FAIL" end) = Some s.
Proof. by destruct s. Qed.
Lemma bind_intro {A B} (o : option A) (f : A → option B) a r : o = Some a → f a = r → o ≫= f = r.
Proof. by intros ->. Qed.


(** ** What every rendered message says *)

Definition oneLine (p : string) : Prop := p ≠ EmptyString ∧ ascii_of_nat 10 ∉ String.list_ascii_of_string p.
Lemma startsWith_line p a b : ascii_of_nat 10 ∉ String.list_ascii_of_string p → startsWith (a +:+ newline +:+ b) p = startsWith a p.
Proof.
  unfold startsWith. revert a. induction p as [|c p IH]; intros a Hp; [by destruct a|].
  cbn [String.list_ascii_of_string] in Hp. apply not_elem_of_cons in Hp as [Hc Hp]. destruct a as [|d a].
  - change ("" +:+ newline +:+ b)%string with (String (ascii_of_nat 10) b). cbn -[ascii_of_nat]. by destruct (ascii_dec c (ascii_of_nat 10)).
  - rewrite string_cons_app. cbn [String.prefix]. destruct (ascii_dec c d); [by apply IH|done].
Qed.
Lemma includes_line p a b : oneLine p → includes (a +:+ newline +:+ b) p = includes a p || includes b p.
Proof.
  intros [Hne Hp]. induction a as [|c a IH].
  - change ("" +:+ newline +:+ b)%string with (newline +:+ b)%string. change (newline +:+ b) with (String (ascii_of_nat 10) b). cbn [includes].
    assert (startsWith (String (ascii_of_nat 10) b) p = false) as ->.
    { change (String (ascii_of_nat 10) b) with ("" +:+ newline +:+ b)%string. rewrite startsWith_line by done. by destruct p. }
    by destruct p.
  - rewrite string_cons_app. cbn [includes]. rewrite IH, <-string_cons_app, startsWith_line by done. by destruct (startsWith _ p).
Qed.
Lemma includes_textLines p l : oneLine p → includes (textLines l) p = existsb (λ x, includes x p) l.
Proof.
  intros Hp. unfold textLines. induction l as [|x l IH]; [by destruct p, Hp|].
  destruct l as [|y l]; [simpl; by rewrite orb_false_r|]. 
  change (join newline (x :: y :: l)) with (x +:+ newline +:+ join newline (y :: l)). by rewrite includes_line, IH.
Qed.

Section rendered.
Context `{UnicodeTables}.
Lemma demo_token_line : oneLine DEMO_URL_TOKEN.
Proof.
  split; [done|]. apply (bool_decide_eq_true_1 (ascii_of_nat 10 ∉ String.list_ascii_of_string DEMO_URL_TOKEN)).
  vm_compute. reflexivity.
Qed.
(** A name is looked for under a type that no fact has: every greeting is the neutral one. *)
Lemma greeting_is_neutral inputs : greetingFact inputs = None ∧ greetingFor inputs = NEUTRAL_GREETING (resolveEmailLanguage (in_facts inputs)).
Proof.
  assert (greetingFact inputs = None) as E.
  { unfold greetingFact, currentOf. case_match; [|done]. destruct (List.find _ _) as [f|] eqn:E; [|done].
    apply List.find_some in E as [_ E]. by destruct (lf_factType f). }
  split; [done|]. unfold greetingFor. by rewrite E.
Qed.
Lemma rendered_demo_link out inputs position rendered :
  renderEmail out inputs position = Ok rendered →
  re_hasDemoUrlPlaceholder rendered = includes (re_body rendered) DEMO_URL_TOKEN ∧
  re_hasDemoUrlPlaceholder rendered =
    includes (trim (email_body out)) DEMO_URL_TOKEN || bool_decide (primary_cta out = VIEW_CONCEPT).
Proof.
  unfold renderEmail. case_match; [done|]. intros [= <-]. cbn [re_hasDemoUrlPlaceholder re_body]. split; [done|].
  unfold renderBody. rewrite (proj2 (greeting_is_neutral inputs)), (includes_textLines _ _ demo_token_line).
  cbn [existsb]. set (l := resolveEmailLanguage _).
  assert (includes (NEUTRAL_GREETING l) DEMO_URL_TOKEN = false ∧ includes (SIGNOFF_TEXT l) DEMO_URL_TOKEN = false ∧
    includes EMAIL_SENDER_NAME_TOKEN DEMO_URL_TOKEN = false ∧ includes "" DEMO_URL_TOKEN = false ∧
    includes (ctaSentenceFor l (primary_cta out) (sp_step position)) DEMO_URL_TOKEN = bool_decide (primary_cta out = VIEW_CONCEPT))
    as (-> & -> & -> & -> & ->).
  { unfold ctaSentenceFor. destruct (sp_step position) as [|[]], l, (primary_cta out); vm_compute; done. }
  by rewrite !orb_false_l, !orb_false_r.
Qed.
End rendered.

(** An answer as a model gives it, with spaces around its words *)
Definition sampleAnswer : value :=
  let s (t : string) := VStr (" " +:+ t +:+ " ") in
  VObj [("subject_options", VArr [s "The contact page"; s "A path for patients"; s "One step less"]);
        ("selected_subject", s "The contact page"); ("selected_subject_reason", s "It is specific.");
        ("email_body", s "The contact action is hard to find."); ("evidence_ids", VArr [VStr "finding-1"]);
        ("strategic_angle", s "The obstacle"); ("business_relevance", s "Orientation"); ("urgency_basis", s "The next step");
        ("competitor_evidence_used", VStr "NONE"); ("primary_cta", VStr "REPLY_FOR_DETAILS");
        ("prohibited_phrase_scan", VStr "PASS"); ("punctuation_scan", VStr "PASS"); ("genericity_score", VNum "12.0");
        ("human_style_result", VStr "PASS"); ("demo_alignment_result", VStr "NOT_APPLICABLE")]%string.

Open Scope string_scope.
Open Scope Z_scope.
Open Scope list_scope.

(** ** What the services may rely on of a provider *)

Class LawfulLlm (p : LlmProvider EmailDb) : Prop := {
  llm_keeps : ∀ r w, w_db (lp_generate p r w).2 = w_db w;
  llm_named : ∀ r w a w', lp_generate p r w = (Ok a, w') → ls_provider a = lp_name p;
}.
#[global] Instance mock_lawful `{UnicodeTables} : LawfulLlm MockLlmProvider.
Proof. split; [done|]. intros r w a w' E. by injection E as <- <-. Qed.
#[global] Instance openai_lawful `{Runtime, OpenAiClient} : LawfulLlm OpenAiResponsesProvider.
Proof.
  split; [done|]. intros r w a w' E. injection E as <- <-. case_match; [|done..]. by destruct (openAiOutcome _) as [[[]]].
Qed.
(** A model was asked this and answered that. *)
Definition answered (p : LlmProvider EmailDb) (r : LlmRequest) (a : LlmResult) : Prop := ∃ w w', lp_generate p r w = (Ok a, w').

(** ** The tables, seen from the emails *)

Definition pipeE (db : EmailDb) : PipelineDb := pipelineDb (emailSystem db).
Definition draftsE (db : EmailDb) : gmap string EmailDraftRow := emailDrafts (emailSystem db).
Definition withPipeE (p : PipelineDb) (db : EmailDb) : EmailDb := put inEmailSystem (put onPipeline p (emailSystem db)) db.
(** Nothing is stored but what was asked and the diagnostic files. *)
Definition quiet (asked : list LlmRequest) (a b : EmailDb) : Prop :=
  emailSystem b = emailSystem a ∧ draftColumns b = draftColumns a ∧ modelCalls b = modelCalls a ∧
  llmRequests b = llmRequests a ++ asked.
Lemma quiet_refl a : quiet [] a a.
Proof. split_and!; [done..|by rewrite app_nil_r]. Qed.
Lemma quiet_same a b : b = a → quiet [] a b.
Proof. intros ->. apply quiet_refl. Qed.
Lemma quiet_trans r r' a b c : quiet r a b → quiet r' b c → quiet (r ++ r') a c.
Proof. intros (E1 & E2 & E3 & E4) (F1 & F2 & F3 & F4). split_and!; [congruence..|]. by rewrite F4, E4, app_assoc. Qed.
Lemma quiet_after r a b c : quiet r a b → quiet [] b c → quiet r a c.
Proof. intros H1 H2. rewrite <-(app_nil_r r). by eapply quiet_trans. Qed.

#[global] Instance quiet_preorder : PreOrder (quiet []).
Proof. split; [exact quiet_refl|intros a b d; apply quiet_after]. Qed.

Section steps.
Context `{Runtime, EmailFiles}.

Lemma wp_onEmail {A} (m : PM A) Q w :
  wp (onEmailPipeline m) Q w ↔
  wp m (λ a w', Q a (World (withPipeE (w_db w') (w_db w)) (w_ticks w') (w_uuids w'))) (World (pipeE (w_db w)) (w_ticks w) (w_uuids w)).
Proof. unfold onEmailPipeline. by rewrite !wp_zoom. Qed.
Lemma leadChange_move id to t to' t' es es' p :
  leadChange id (Some (to', t')) es' (leadChange id (Some (to, t)) es p) = leadChange id (Some (to', t')) (es ++ es') p.
Proof.
  assert (∀ m : gmap string Lead, alter (setLeadStatus to' t') id (alter (setLeadStatus to t) id m) = alter (setLeadStatus to' t') id m) as E.
  { intros m. apply map_eq. intros i. destruct (decide (id = i)) as [->|].
    - rewrite !lookup_alter_eq. by destruct (m !! i) as [[]|].
    - by rewrite !lookup_alter_ne. }
  destruct p. unfold leadChange, setLeads, setPipelineEvents. simpl. by rewrite E, app_assoc.
Qed.

(** Recording adds an event and nothing else. *)
Lemma wp_recordEmailEvent id e w :
  wp (onEmailPipeline (recordEvent e)) (λ _ w', ∃ es, w_db w' = withPipeE (leadChange id None es (pipeE (w_db w))) (w_db w)) w.
Proof.
  rewrite wp_onEmail. eapply wp_mono; [|apply wp_recordEvent_exact]. intros _ w' [es E]. exists es. cbn [w_db] in *. by rewrite E.
Qed.
(** The lead is moved to its new place, or stays where it is. *)
Definition leadRouted (id : string) (from : LeadStatus → Prop) (to : LeadStatus) (a b : PipelineDb) : Prop :=
  ∃ move es, b = leadChange id move es a ∧
    ∀ to' t, move = Some (to', t) → to' = to ∧ ∃ l, leads a !! id = Some l ∧ from (ld_status l).
Lemma leadRouted_note id from to a es : leadRouted id from to a (leadChange id None es a).
Proof. by exists None, es. Qed.
Lemma leadRouted_after id from to a b es : leadRouted id from to a b → leadRouted id from to a (leadChange id None es b).
Proof. intros (move & es' & -> & Hm). exists move, (es' ++ es). by rewrite leadChange_note. Qed.
Lemma wp_moves id (path : list LeadStatus) to w :
  wp (foldr (λ s rest, _ ← leadTransition id s; rest) (_ ← leadTransition id to; mret tt) path)
    (λ _ w', ∃ t es, w_db w' = leadChange id (Some (to, t)) es (w_db w)) w.
Proof.
  revert w. induction path as [|s path IH]; intros w; cbn [foldr]; rewrite wp_bind.
  - eapply wp_mono; [|apply wp_leadTransition_exact]. intros _ w' (l & t & es & _ & _ & E). rewrite wp_ret. eauto.
  - eapply wp_mono; [|apply wp_leadTransition_exact]. intros _ w1 (l & t & es & _ & _ & E1).
    eapply wp_mono; [|apply IH]. intros _ w' (t' & es' & E). exists t', (es ++ es'). by rewrite E, E1, leadChange_move.
Qed.
End steps.

(** ** The writer *)

Section writer_runs.
Context `{Runtime, UnicodeTables, ZodIssues, EmailFiles} (provider : LlmProvider EmailDb) `{!LawfulLlm provider}
  (c : EmailConfig) (keepDebug : bool) (input : EmailWriteInput) (runId : string).
Notation step := (sx_step (seqOf input)).

(** Where a lead is when the writer moves it *)
Definition movable (s : LeadStatus) : Prop := s ∈ PRE_OUTREACH ∨ s = SENT ∧ isFollowupPosition step = true.
(** A draft is the message rendered from what the model answered; it is approved only if the
    copy passes the validation and the answer of the reviewer passes the gate. *)
Definition approvedBy (draft : EmailWriterOutput) : Prop :=
  validateEmail draft (contextOf input) = [] ∧ ∃ rRes review,
    answered provider (reviewerRequest c input draft) rRes ∧ emailReviewSchema (ls_rawJson rRes) = Some review ∧
    isEmailReviewApprovable review step (bool_decide (is_Some (sx_threadSubject (seqOf input)))) = true.
Definition draftRecord (d : NewEmailDraft) (route : LeadStatus) : Prop := ∃ draft rendered wRes,
  answered provider (writerRequest c input) wRes ∧ emailWriterSchema (ls_rawJson wRes) = Some draft ∧
  renderEmail draft (inputsOf input) (positionOf input) = Ok rendered ∧
  nd_leadId d = wi_leadId input ∧ nd_subject d = re_subject rendered ∧ nd_body d = re_body rendered ∧
  nd_sequenceStep d = sequenceNumber step ∧ nd_outreachRecordId d = wi_outreachRecordId input ∧
  (nd_status d = "REVIEW_FAILED" ∧ route = EMAIL_REVIEW_FAILED ∨
   nd_status d = "APPROVED" ∧ approvedBy draft ∧
     route = if includes (nd_body d) DEMO_URL_TOKEN then WAITING_FOR_DEMO_URL else READY_FOR_HUMAN_APPROVAL).
Definition persistable (p : EmailPersist) : Prop :=
  ps_leadId p = wi_leadId input ∧
  match ps_email p with Some d => draftRecord d (ps_routeTo p) | None => ps_routeTo p = EMAIL_REVIEW_FAILED end.
(** How a run ends that returns *)
Definition ended (asked : list LlmRequest) (s : Spend) (r : EmailResult) (a b : EmailDb) : Prop :=
  wr_leadId r = wi_leadId input ∧ wr_costUsd r = sp_cost s ∧ wr_callsMade r = sp_callsMade s ∧
  modelCalls b = modelCalls a ++ map (λ call, (wi_leadId input, call)) (sp_calls s) ∧
  llmRequests b = llmRequests a ++ asked ∧
  ∃ (added : option NewEmailDraft) route,
    match added with
    | Some d => draftsE a !! nd_id d = None ∧ draftRecord d route ∧ wr_status r = Some (nd_status d) ∧
                ∃ t, draftsE b = <[nd_id d := newDraftRow d t]> (draftsE a)
    | None => draftsE b = draftsE a ∧ route = EMAIL_REVIEW_FAILED ∧ wr_status r = None
    end ∧
    leadRouted (wi_leadId input) movable route (pipeE a) (pipeE b).
Lemma ended_after asked asked' s r a b b' : quiet asked a b → ended asked' s r b b' → ended (asked ++ asked') s r a b'.
Proof using Type.
  intros (E1 & E2 & E3 & E4) (H1' & H2' & H3' & H4' & H5' & H6'). unfold ended, draftsE, pipeE. rewrite <-E1, <-E3.
  split_and!; [done..| |done]. by rewrite H5', E4, app_assoc.
Qed.

Lemma wp_moveLeadTo route w :
  wp (moveLeadTo input route) (λ _ w', ∃ t es, w_db w' = leadChange (wi_leadId input) (Some (route, t)) es (w_db w)) w.
Proof using Type.
  unfold moveLeadTo. case_bool_decide as Hf; [rewrite Hf; apply (wp_moves _ [EMAIL_DRAFTED])|].
  case_bool_decide as Ha; [rewrite Ha; apply (wp_moves _ [EMAIL_DRAFTED])|apply (wp_moves _ [EMAIL_DRAFTED; EMAIL_APPROVED])].
Qed.
Lemma wp_routeLead route w :
  wp (routeLead input runId route) (λ _ w', leadRouted (wi_leadId input) movable route (w_db w) (w_db w')) w.
Proof using Type.
  unfold routeLead, getLead. rewrite wp_bind, wp_query.
  set (status := ld_status <$> _). set (pre := match status with Some _ => _ | None => _ end). set (again := _ && _).
  assert (pre || again = true → ∃ l, leads (w_db w) !! wi_leadId input = Some l ∧ movable (ld_status l)) as Hm.
  { subst pre again status. destruct (leads (w_db w) !! wi_leadId input) as [l|]; simpl; [|done]. intros E. exists l. split; [done|].
    apply orb_true_iff in E as [E%bool_decide_eq_true_1|[E%bool_decide_eq_true_1 E']%andb_true_iff]; [by left|].
    right. by simplify_eq. }
  rewrite wp_bind. apply (wp_mono _ (λ _ w1, ∃ es, w_db w1 = leadChange (wi_leadId input) None es (w_db w))).
  2: { destruct again; [apply wp_recordEvent_exact|]. exists []. by rewrite leadChange_nil. }
  intros _ w1 [es E1]. destruct (pre || again); [|rewrite wp_ret, E1; apply leadRouted_note].
  eapply wp_mono; [|apply wp_moveLeadTo]. intros _ w' (t & es' & E).
  exists (Some (route, t)), (es ++ es'). split; [|intros to t' [= <- _]; auto].
  rewrite E, E1. destruct (w_db w). unfold leadChange, setLeads, setPipelineEvents. simpl. by rewrite app_assoc.
Qed.

(** The rows that one run inserts *)
Lemma wp_insertModelCalls leadId calls w :
  wp (insertModelCalls leadId calls) (λ _ w', w_db w' = addModelCalls leadId calls (w_db w)) w.
Proof using Type. unfold insertModelCalls. by rewrite wp_guarded. Qed.
Lemma wp_persistEmail p w :
  wp (persistEmail p) (λ _ w',
    modelCalls (w_db w') = modelCalls (w_db w) ++ map (λ call, (ps_leadId p, call)) (ps_modelCalls p) ∧
    llmRequests (w_db w') = llmRequests (w_db w) ∧ pipeE (w_db w') = pipeE (w_db w) ∧
    debugRecords (w_db w') = debugRecords (w_db w) ∧
    match ps_email p with
    | Some d => draftsE (w_db w) !! nd_id d = None ∧ draftColumns (w_db w') = <[nd_id d := nd_columns d]> (draftColumns (w_db w)) ∧
        ∃ t, draftsE (w_db w') = <[nd_id d := newDraftRow d t]> (draftsE (w_db w))
    | None => draftsE (w_db w') = draftsE (w_db w)
    end) w.
Proof using Type.
  unfold persistEmail. rewrite wp_bind. destruct (ps_email p) as [d|].
  - unfold insertDraft. rewrite !wp_bind, wp_now, wp_guarded. cbn [w_db w_ticks w_uuids]. intros Hc.
    assert (draftsE (w_db w) !! nd_id d = None) as Hd.
    { unfold checkInsertEmailDraft in Hc. rewrite refuse_None, !Forall_cons in Hc. destruct_and! Hc. cbn [fst] in *.
      match goal with E : bool_decide (is_Some _) = false |- _ => apply eq_None_not_Some; exact (bool_decide_eq_false_1 _ E) end. }
    rewrite wp_guarded. cbn [w_db w_ticks w_uuids]. intros _.
    eapply wp_mono; [|apply wp_insertModelCalls]. cbn [w_db]. intros _ w' ->. split_and!; [done..|by eexists].
  - rewrite wp_ret. eapply wp_mono; [|apply wp_insertModelCalls]. by intros _ w' ->.
Qed.
Lemma finish_ends o p s w :
  persistable p →
  awp (finishEmail input runId o p s) (λ r w', ended [] s r (w_db w) (w_db w')) (λ w', quiet [] (w_db w) (w_db w')) w.
Proof using Type.
  intros [Hl Hp]. unfold finishEmail. rewrite awp_bind. apply awp_transaction; [|intros w' E; by apply quiet_same].
  rewrite wp_bind, wp_onEmail. eapply wp_mono; [|apply wp_routeLead]. cbn [w_db]. intros _ w1 Hr.
  rewrite wp_bind. eapply wp_mono; [|apply wp_persistEmail]. cbn [w_db ps_leadId ps_email ps_modelCalls].
  intros _ w2 (Hc & Hq & Hpipe & _ & Hd). eapply wp_mono; [|apply (wp_recordEmailEvent (wi_leadId input))].
  intros _ w3 [es E3]. rewrite awp_ret. unfold ended. cbn [wr_leadId wr_costUsd wr_callsMade wr_status].
  split_and!; [done..|by rewrite E3, <-Hl|by rewrite E3, app_nil_r|].
  exists (draftOfRun runId <$> ps_email p), (ps_routeTo p). split.
  - rewrite E3. destruct (ps_email p) as [d|]; [|by split_and!]. destruct Hd as (Hd & _ & t & Ht).
    split_and!; [done|by destruct Hp as (draft & rendered & wRes & ?); exists draft, rendered, wRes|done|by exists t].
  - rewrite E3. change (pipeE (withPipeE ?p ?db)) with p. apply leadRouted_after. by rewrite Hpipe.
Qed.

(** ** From question to question *)

(** What was asked, and what it cost so far *)
Definition costOf (calls : list EmailModelCall) : num :=
  foldl addN (ofZ 0) (map (λ call, default (ofZ 0) (lu_estimatedCostUsd (mc_usage call))) calls).
Definition accounts (asked : list LlmRequest) (s : Spend) : Prop :=
  length (sp_calls s) = length asked ∧ sp_callsMade s = Z.of_nat (length asked) ∧ sp_cost s = costOf (sp_calls s).
Lemma accounts_add asked s request id purpose version res :
  accounts asked s → accounts (asked ++ [request]) (addCall (modelCallOf id purpose version res) res s).
Proof using Type.
  intros (H1' & H2' & H3'). unfold accounts, costOf, addCall, callCost. cbn [sp_calls sp_callsMade sp_cost].
  rewrite !length_app, map_app, foldl_app. cbn. rewrite H1', H3'. split_and!; [done|lia|done].
Qed.
Lemma accounts_noted asked violations s : accounts asked s → accounts asked (noteViolations violations s).
Proof using Type.
  intros (H1' & H2' & H3'). unfold accounts, noteViolations, costOf. cbn [sp_calls sp_callsMade sp_cost].
  rewrite length_map, map_map. by split_and!.
Qed.
(** The requests that a run may make, one after the other *)
Inductive allowedCalls : list LlmRequest → Prop :=
  | allowed_none : allowedCalls []
  | allowed_writer : canCall provider c (ec_writerModel c) noSpend = true → allowedCalls [writerRequest c input]
  | allowed_reviewer draft res call :
      canCall provider c (ec_writerModel c) noSpend = true → answered provider (writerRequest c input) res →
      ls_provider res = lp_name provider → emailWriterSchema (ls_rawJson res) = Some draft → validateEmail draft (contextOf input) = [] →
      canCall provider c (ec_reviewerModel c) (addCall call res noSpend) = true →
      allowedCalls [writerRequest c input; reviewerRequest c input draft].

Lemma awp_askModel request asked a w Q (E : world EmailDb → Prop) :
  quiet asked a (w_db w) →
  (∀ res w', answered provider request res → ls_provider res = lp_name provider → quiet (asked ++ [request]) a (w_db w') → Q res w') →
  (∀ w', quiet (asked ++ [request]) a (w_db w') → E w') →
  awp (askModel provider request) Q E w.
Proof using LawfulLlm0.
  intros Hq HQ HE. unfold askModel. rewrite awp_bind, awp_modify. set (w1 := World _ _ _).
  pose proof (llm_keeps request w1) as Hk. pose proof (λ r w', llm_named request w1 r w') as Hn.
  assert (quiet (asked ++ [request]) a (w_db w1)) as Hq1 by (eapply quiet_trans; [done|by split_and!]).
  unfold awp. destruct (lp_generate provider request w1) as [[res|e] w'] eqn:Eg; cbn [snd] in Hk.
  - apply HQ; [by exists w1, w'|by eapply Hn|by rewrite Hk].
  - apply HE. by rewrite Hk.
Qed.
Lemma awp_recordCall purpose version res s Q (E : world EmailDb → Prop) w :
  (∀ id, Q (addCall (modelCallOf id purpose version res) res s) (World (w_db w) (w_ticks w) (S (w_uuids w)))) →
  awp (recordCall purpose version res s) Q E w.
Proof using Type. intros HQ. unfold recordCall. awp_run. apply HQ. Qed.
Lemma recordDebug_quiet o draft review violations s :
  always (quiet []) (recordDebug keepDebug input runId o draft review violations s).
Proof using Type.
  unfold recordDebug, recordDebugFile. always_tac. apply (always_modify _). intros db. split_and!; [done..|]. by rewrite app_nil_r.
Qed.
Lemma withIds_keeps {A B} (f : string → A → B) l (w : world EmailDb) :
  awp (withIds f l) (λ _ w', w_db w' = w_db w) (λ w', w_db w' = w_db w) w.
Proof using Type.
  revert w. induction l as [|x l IH]; intros w; cbn [withIds]; awp_run; [done|].
  eapply awp_mono; [| |apply IH]; cbn [w_db]; [|done]. intros r w' E. by awp_run.
Qed.
Lemma awp_buildPersist draft review status route wRes rRes s w :
  awp (buildPersist provider c input draft review status route wRes rRes s)
    (λ p w', w_db w' = w_db w ∧ ps_leadId p = wi_leadId input ∧ ps_routeTo p = route ∧ ∃ rendered d,
       renderEmail draft (inputsOf input) (positionOf input) = Ok rendered ∧ ps_email p = Some d ∧
       nd_leadId d = wi_leadId input ∧ nd_subject d = re_subject rendered ∧ nd_body d = re_body rendered ∧
       nd_sequenceStep d = sequenceNumber step ∧ nd_outreachRecordId d = wi_outreachRecordId input ∧ nd_status d = status)
    (λ w', w_db w' = w_db w) w.
Proof using Type.
  unfold buildPersist. rewrite awp_bind. destruct (renderEmail _ _ _) as [rendered|e] eqn:Er; [|done].
  cbn [lift_res]. awp_run.
  eapply awp_mono; [| |apply withIds_keeps]; cbn [w_db]; [|done]. intros facts w1 E1. rewrite awp_bind.
  eapply awp_mono; [| |apply withIds_keeps]; cbn [w_db]; [|by intros w' ->]. intros findings w2 E2. rewrite awp_ret.
  cbn [ps_leadId ps_routeTo ps_email]. split_and!; [by rewrite E2|done..|]. exists rendered. by eexists.
Qed.
Lemma finish_from o p s asked a w :
  quiet asked a (w_db w) → persistable p →
  awp (finishEmail input runId o p s) (λ r w', ended asked s r a (w_db w')) (λ w', quiet asked a (w_db w')) w.
Proof using Type.
  intros Hq Hp. eapply awp_mono; [| |by apply finish_ends].
  - intros r w' He. rewrite <-(app_nil_r asked). by eapply ended_after.
  - intros w'. by apply quiet_after.
Qed.
Lemma fail_persistable : persistable (failPersist input).
Proof using Type. by split. Qed.

(** Recording a diagnostic before the end of a run *)
Lemma awp_recorded {A} o draft review violations s (k : WM A) Q asked a w :
  quiet asked a (w_db w) →
  (∀ w', quiet asked a (w_db w') → awp k Q (λ w', quiet asked a (w_db w')) w') →
  awp (recordDebug keepDebug input runId o draft review violations s ;; k) Q (λ w', quiet asked a (w_db w')) w.
Proof using Type.
  intros Hq Hk. rewrite awp_bind. eapply awp_mono; [| |apply (awp_always (quiet [])), recordDebug_quiet].
  - intros u w' Hw. apply Hk. by eapply quiet_after.
  - intros w'. by apply quiet_after.
Qed.
Lemma decideReview_ends draft wRes rRes s asked a w :
  quiet asked a (w_db w) → answered provider (writerRequest c input) wRes → emailWriterSchema (ls_rawJson wRes) = Some draft →
  validateEmail draft (contextOf input) = [] → answered provider (reviewerRequest c input draft) rRes →
  awp (decideReview provider c keepDebug input runId draft wRes rRes s)
    (λ r w', ended asked s r a (w_db w')) (λ w', quiet asked a (w_db w')) w.
Proof using Type.
  intros Hq Hw Hd Hv Hr. unfold decideReview.
  destruct (failureOutcome _); [by apply finish_from, fail_persistable|].
  destruct (emailReviewSchema _) as [review|] eqn:Erev.
  2: { apply awp_recorded; [done|]. intros w' Hq'. by apply finish_from, fail_persistable. }
  destruct (isEmailReviewApprovable _ _ _) eqn:Eap; cbn [negb].
  - rewrite awp_bind. destruct (renderEmail _ _ _) as [rendered|e] eqn:Er; [|done]. cbn [lift_res]. rewrite awp_ret, awp_bind.
    eapply awp_mono; [| |apply awp_buildPersist]; cbn beta; [|intros w' E; by rewrite E].
    intros p w1 (E1 & Hl & Hroute & rendered' & d & Er' & Hp & Hd1 & Hd2 & Hd3 & Hd4 & Hd5 & Hd6). rewrite Er in Er'. injection Er' as <-.
    apply awp_recorded; [by rewrite E1|]. intros w2 Hq2. apply finish_from; [done|]. split; [done|]. rewrite Hp.
    exists draft, rendered, wRes. split_and!; [done..|]. right. split; [done|]. split; [by split; [|exists rRes, review]|].
    rewrite Hroute, Hd3. by rewrite (proj1 (rendered_demo_link _ _ _ _ Er)).
  - rewrite awp_bind. eapply awp_mono; [| |apply awp_buildPersist]; cbn beta; [|intros w' E; by rewrite E].
    intros p w1 (E1 & Hl & Hroute & rendered & d & Er & Hp & Hd1 & Hd2 & Hd3 & Hd4 & Hd5 & Hd6).
    apply awp_recorded; [by rewrite E1|]. intros w2 Hq2. apply finish_from; [done|]. split; [done|]. rewrite Hp.
    exists draft, rendered, wRes. split_and!; [done..|]. by left.
Qed.
(** How a run of the writer ends, whether it returns or throws *)
Definition wellEnded (a : EmailDb) (r : EmailResult) (b : EmailDb) : Prop :=
  ∃ asked s, allowedCalls asked ∧ accounts asked s ∧ ended asked s r a b.
Definition wellStopped (a b : EmailDb) : Prop := ∃ asked, allowedCalls asked ∧ quiet asked a b.
Lemma awp_ends (m : WM EmailResult) asked s a w :
  allowedCalls asked → accounts asked s →
  awp m (λ r w', ended asked s r a (w_db w')) (λ w', quiet asked a (w_db w')) w →
  awp m (λ r w', wellEnded a r (w_db w')) (λ w', wellStopped a (w_db w')) w.
Proof using Type. intros Ha Hs. apply awp_mono; [intros r w' He; by exists asked, s|intros w' Hq; by exists asked]. Qed.
Lemma reviewDraft_ends draft wRes call a w :
  let s := addCall call wRes noSpend in
  canCall provider c (ec_writerModel c) noSpend = true → answered provider (writerRequest c input) wRes →
  ls_provider wRes = lp_name provider → emailWriterSchema (ls_rawJson wRes) = Some draft →
  accounts [writerRequest c input] s → quiet [writerRequest c input] a (w_db w) →
  awp (reviewDraft provider c keepDebug input runId draft wRes s)
    (λ r w', wellEnded a r (w_db w')) (λ w', wellStopped a (w_db w')) w.
Proof using LawfulLlm0.
  intros s Hcan Hw Hn Hd Hs Hq. assert (allowedCalls [writerRequest c input]) as Ha by by constructor. unfold reviewDraft.
  case_bool_decide as Hv; cbn [negb].
  - destruct (canCall _ _ (ec_reviewerModel c) s) eqn:Hcan2; cbn [negb]; [|by eapply awp_ends, finish_from, fail_persistable].
    assert (allowedCalls [writerRequest c input; reviewerRequest c input draft]) as Ha2
      by exact (allowed_reviewer draft wRes call Hcan Hw Hn Hd Hv Hcan2).
    rewrite awp_bind. eapply awp_askModel; [done| |].
    + intros rRes w1 Hr _ Hq1. rewrite awp_bind. apply awp_recordCall. intros id. cbn [w_db].
      eapply awp_ends; [done|by apply (accounts_add [_])|]. by apply decideReview_ends.
    + intros w1 Hq1. by eexists.
  - rewrite awp_bind. eapply awp_mono; [| |apply awp_buildPersist]; cbn beta.
    2: { intros w' E. eexists. split; [done|]. by rewrite E. }
    intros p w1 (E1 & Hl & Hroute & rendered & d & Er & Hp & Hd1 & Hd2 & Hd3 & Hd4 & Hd5 & Hd6).
    eapply awp_ends; [done|by apply accounts_noted|]. apply awp_recorded; [by rewrite E1|].
    intros w2 Hq2. apply finish_from; [done|]. split; [done|]. rewrite Hp. exists draft, rendered, wRes. split_and!; [done..|]. by left.
Qed.
Lemma write_ends w :
  awp (writeEmail provider c keepDebug input runId)
    (λ r w', wellEnded (w_db w) r (w_db w')) (λ w', wellStopped (w_db w) (w_db w')) w.
Proof using LawfulLlm0.
  unfold writeEmail. destruct (canCall _ _ (ec_writerModel c) noSpend) eqn:Hcan; cbn [negb].
  2: { apply (awp_ends _ [] noSpend); [apply allowed_none|by split_and!|]. apply finish_from; [apply quiet_refl|apply fail_persistable]. }
  assert (allowedCalls [writerRequest c input]) as Ha by by constructor.
  rewrite awp_bind. eapply awp_askModel; [apply quiet_refl| |].
  2: { intros w1 Hq1. by eexists. }
  intros wRes w1 Hw Hn Hq1. rewrite awp_bind. apply awp_recordCall. intros id. cbn [w_db app] in *.
  set (s := addCall _ _ _). assert (accounts [writerRequest c input] s) as Hs by (apply (accounts_add []); by split_and!).
  unfold readDraft. destruct (failureOutcome _); [by eapply awp_ends, finish_from, fail_persistable|].
  destruct (emailWriterSchema _) as [draft|] eqn:Ed; [by apply reviewDraft_ends|].
  eapply awp_ends; [done|by apply accounts_noted|]. apply awp_recorded; [done|]. intros w2 Hq2.
  by apply finish_from, fail_persistable.
Qed.

(** ** What the validation grants *)

Lemma violation_nil b label : violation b label = [] → b = false.
Proof using Type. by destruct b. Qed.
Lemma valid_no_violation out ctx : validateEmail out ctx = [] → emailViolations out ctx = [].
Proof using Type.
  unfold validateEmail. destruct (emailViolations out ctx) as [|x l] eqn:E; [done|]. intros Hu.
  assert (x ∈ uniq (x :: l)) as Hx by (apply elem_of_uniq; by left). rewrite Hu in Hx. by apply not_elem_of_nil in Hx.
Qed.
(** An approved email speaks of a finding that may be used, and links to an approved demo only. *)
Definition grounded (draft : EmailWriterOutput) (body : string) : Prop :=
  (∃ f, f ∈ wi_findings input ∧ fd_safeForOutreach f = true ∧ fd_id f ∈ evidence_ids draft) ∧
  (includes body DEMO_URL_TOKEN = true → ∃ demo, wi_demo input = Some demo ∧ ed_status demo = "APPROVED").
Lemma valid_is_grounded draft rendered :
  validateEmail draft (contextOf input) = [] → renderEmail draft (inputsOf input) (positionOf input) = Ok rendered →
  grounded draft (re_body rendered).
Proof using Type.
  intros Hv%valid_no_violation Hr. unfold emailViolations in Hv.
  do 4 apply app_nil in Hv as [_ Hv]. apply app_nil in Hv as [He Hv]. do 2 apply app_nil in Hv as [_ Hv].
  apply app_nil in Hv as [Hd _]. split.
  - unfold evidenceViolations in He. do 3 apply app_nil in He as [_ He]. apply violation_nil, negb_false_iff in He.
    apply elem_of_existsb in He as (id & Hid & Ha%bool_decide_eq_true_1). cbn in Ha.
    apply list_elem_of_fmap in Ha as (f & -> & Hf). exists f. unfold safeOf in Hf. rewrite !elem_of_List_filter in Hf. naive_solver.
  - destruct (rendered_demo_link _ _ _ _ Hr) as [<- ->]. unfold demoViolations in Hd.
    apply app_nil in Hd as [Hc Hd]. apply app_nil in Hd as [_ Hd]. apply app_nil in Hd as [Ht _]. apply violation_nil in Ht.
    intros [Hi|Hi%bool_decide_eq_true_1]%orb_true_iff.
    + exfalso. unfold allModelText in Ht. rewrite includes_textLines, existsb_app in Ht by apply demo_token_line.
      apply orb_false_iff in Ht as [_ Ht]. cbn [existsb] in Ht. by rewrite Hi in Ht.
    + rewrite Hi in Hc. apply app_nil in Hc as [Hc _]. apply violation_nil, negb_false_iff in Hc. cbn in Hc.
      unfold demoLinkAllowed in Hc. destruct (wi_demo input) as [demo|]; [|done]. exists demo. by apply String.eqb_eq in Hc.
Qed.
End writer_runs.

(** ** A batch *)

Section batch.
Context `{Runtime, UnicodeTables, ZodIssues, EmailFiles} (provider : LlmProvider EmailDb) `{!LawfulLlm provider}
  (c : EmailConfig) (keepDebug : bool) (items : list EmailWriteInput).

(** What a draft is that was written for an item, and what it takes to be approved *)
Definition soundEmail (item : EmailWriteInput) (e : EmailDraftRow) : Prop := ∃ draft rendered wRes,
  answered provider (writerRequest c item) wRes ∧ emailWriterSchema (ls_rawJson wRes) = Some draft ∧
  renderEmail draft (inputsOf item) (positionOf item) = Ok rendered ∧
  ew_leadId e = wi_leadId item ∧ ew_subject e = re_subject rendered ∧ ew_body e = re_body rendered ∧
  ew_sequenceStep e = sequenceNumber (sx_step (seqOf item)) ∧ ew_humanDecision e = None ∧
  (ew_status e = "REVIEW_FAILED" ∨ ew_status e = "APPROVED" ∧ approvedBy provider c item draft ∧ grounded item draft (ew_body e)).
Definition reviewPlace (e : EmailDraftRow) : LeadStatus :=
  if includes (ew_body e) DEMO_URL_TOKEN then WAITING_FOR_DEMO_URL else READY_FOR_HUMAN_APPROVAL.
(** Nothing that was there changes; leads reach the people who decide by new approved emails only. *)
Record checkedBatch (a b : EmailDb) : Prop := {
  drafts_kept : ∀ id e, draftsE a !! id = Some e → draftsE b !! id = Some e;
  drafts_sound : ∀ id e, draftsE b !! id = Some e → draftsE a !! id = Some e ∨ ∃ item, item ∈ items ∧ soundEmail item e;
  leads_moved : ∀ id l', leads (pipeE b) !! id = Some l' → ∃ l, leads (pipeE a) !! id = Some l ∧
    (ld_status l' = ld_status l ∨ (∃ item, item ∈ items ∧ wi_leadId item = id) ∧
      (ld_status l' = EMAIL_REVIEW_FAILED ∨ ∃ key e, draftsE a !! key = None ∧ draftsE b !! key = Some e ∧
         ew_leadId e = id ∧ ew_status e = "APPROVED" ∧ ld_status l' = reviewPlace e));
}.
#[export] Instance checkedBatch_preorder : PreOrder checkedBatch.
Proof using Type.
  split.
  - intros a. split; [done|by left|]. intros id l Hl. exists l. auto.
  - intros a b d [K1 S1 L1] [K2 S2 L2]. split.
    + eauto.
    + intros id e He. destruct (S2 id e He) as [Hb|?]; [by apply S1|by right].
    + intros id l'' Hl''. destruct (L2 id l'' Hl'') as (l' & Hl' & Hm2). destruct (L1 id l' Hl') as (l & Hl & Hm1).
      exists l. split; [done|]. destruct Hm2 as [E2|(Hi & Hm2)].
      * rewrite E2. destruct Hm1 as [?|(Hi & [?|(key & e & Hn & He & Hrest)])]; [by left|by right; split; [|left]|].
        right. split; [done|]. right. exists key, e. auto.
      * right. split; [done|]. destruct Hm2 as [?|(key & e & Hn & Hrest)]; [by left|]. right. exists key, e.
        split; [|done]. destruct (draftsE a !! key) eqn:E; [|done]. apply K1 in E. congruence.
Qed.
Lemma quiet_checked asked a b : quiet asked a b → checkedBatch a b.
Proof using Type.
  intros (E & _). unfold quiet in *. split; unfold draftsE, pipeE; rewrite E; [done|by left|]. intros id l Hl. exists l. auto.
Qed.
Lemma same_drafts_leads_checked a b : draftsE b = draftsE a → leads (pipeE b) = leads (pipeE a) → checkedBatch a b.
Proof using Type. intros E1 E2. split; rewrite ?E1, ?E2; [done|by left|]. intros id l Hl. exists l. auto. Qed.

Lemma leadRouted_leads id from to a b key l' :
  leadRouted id from to a b → leads b !! key = Some l' → ∃ l, leads a !! key = Some l ∧
    (ld_status l' = ld_status l ∨ key = id ∧ ld_status l' = to).
Proof using Type.
  intros (move & es & -> & Hm). rewrite leadChange_leads. destruct move as [[to' t]|]; [|eauto].
  destruct (Hm to' t eq_refl) as [-> _]. destruct (decide (key = id)) as [->|]; [rewrite lookup_alter_eq|rewrite lookup_alter_ne by done; eauto].
  destruct (leads a !! id) as [l|]; simpl; [|done]. intros [= <-]. exists l. split; [done|]. right. by destruct l.
Qed.
Lemma write_checked item runId : item ∈ items → always checkedBatch (writeEmail provider c keepDebug item runId).
Proof using LawfulLlm0.
  intros Hitem. apply always_awp. intros w. eapply awp_mono; [| |by apply write_ends].
  2: { intros w' (asked & _ & Hq). by eapply quiet_checked. }
  intros r w' (asked & s & _ & _ & _ & _ & _ & _ & _ & added & route & Hadded & Hlead).
  destruct added as [d|].
  - destruct Hadded as (Hfresh & (draft & rendered & wRes & A1 & A2 & A3 & A4 & A5 & A6 & A7 & A8 & A9) & _ & t & Hd). split.
    + intros id e He. rewrite Hd, lookup_insert_ne; [done|]. intros <-. congruence.
    + intros id e. rewrite Hd. intros [[<- <-]|[_ He]]%lookup_insert_Some; [|by left]. right. exists item. split; [done|].
      exists draft, rendered, wRes. cbn [newDraftRow ew_leadId ew_subject ew_body ew_sequenceStep ew_humanDecision ew_status].
      split_and!; [done..|]. destruct A9 as [[? _]|(? & Hap & _)]; [by left|]. right. split_and!; [done..|].
      rewrite A6. apply valid_is_grounded; [apply Hap|done].
    + intros id l' Hl'. destruct (leadRouted_leads _ _ _ _ _ _ _ Hlead Hl') as (l & Hl & Hst). exists l. split; [done|].
      destruct Hst as [?|[-> Hst]]; [by left|right]. split; [by exists item|].
      destruct A9 as [[_ ->]|(Hs & _ & ->)]; [by left|]. right. exists (nd_id d), (newDraftRow d t).
      by rewrite Hd, lookup_insert_eq.
  - destruct Hadded as (Hd & -> & _). split; rewrite Hd; [done|by left|].
    intros id l' Hl'. destruct (leadRouted_leads _ _ _ _ _ _ _ Hlead Hl') as (l & Hl & Hst). exists l. split; [done|].
    destruct Hst as [?|[-> Hst]]; [by left|right]. split; [by exists item|by left].
Qed.
Lemma generateEmails_checked runId : always checkedBatch (generateEmails provider c keepDebug items runId).
Proof using LawfulLlm0.
  unfold generateEmails. apply (always_fold_each _). intros item s Hitem.
  apply (always_bind _); [|intros; apply (always_ret _)]. apply (always_tryCatch _). by apply write_checked.
Qed.
End batch.

Open Scope string_scope.
Open Scope Z_scope.
Open Scope list_scope.

#[export] Instance demo_issues : ZodIssues :=
  {| zodIssues name v := [{| zi_path := [name]; zi_code := "invalid_type"; zi_message := "Invalid" |}] |}.
#[export] Instance demo_files : EmailFiles := {| writeDebugFile _ := Ok tt |}.
#[local] Existing Instance demo_runtime.
#[local] Existing Instance asciiTables.

Definition demoView (provider : string) : EmailProviderConfigView :=
  {| pv_llmProvider := provider; pv_allowPaidLlmCalls := true; pv_openAiApiKey := Some "key"; pv_writerModel := "gpt-5.6-sol";
     pv_reviewerModel := "gpt-5.6-sol" |}.
Definition demoCommandConfig (provider : string) (cap : num) : EmailCommandConfig :=
  {| cc_view := demoView provider; cc_writerEffort := "high"; cc_reviewerEffort := "high"; cc_storeResponses := false;
     cc_timeoutMs := 60000; cc_maxOutputTokens := 4000; cc_maxRetries := 0; cc_maxCallsPerLead := 2; cc_maxCostUsdPerLead := cap;
     cc_emailGenerationEnabled := true; cc_dryRun := false |}.
Definition demoOptions : GenerateEmailsOptions := {| gn_campaign := "c"; gn_limit := None; gn_lead := None |}.
Definition demoNameFact : LeadFactRow :=
  {| lf_id := "name"; lf_leadId := "l1"; lf_factType := FT_business_name; lf_value := "Praxis Nord"; lf_normalizedValue := None;
     lf_sourceType := FS_manual; lf_sourceUrl := None; lf_capturedAt := 0; lf_confidence := QArith_base.Qmake 1 1;
     lf_supersededBy := None; lf_supersededAt := None; lf_isCurrent := true |}.
Definition demoFinding : EmailFinding :=
  {| fd_id := "finding-1"; fd_findingRef := "F1"; fd_category := "contact"; fd_safeForOutreach := true;
     fd_observation := "The contact action is hard to find."; fd_recommendation := "Show it earlier." |}.
Definition demoEmailDb (status : LeadStatus) (drafts : gmap string EmailDraftRow) (columns : gmap string DraftColumns)
    (debug : list EmailDebugRecord) : EmailDb :=
  {| emailContacts := {| contactSystem := setLeadFacts (λ _, [demoFact "l1"; demoNameFact])
         (setEmailDrafts (λ _, drafts)
           (put onPipeline (setLeads (λ _, {["l1" := setLeadStatus status 0 demoLead]}) demoPipelineDb) demoSystem));
       enrichmentResults := []; contactResolutions := []; opportunityScores := []; paidCalls := []; providerRequests := [] |};
     draftColumns := columns; factInputs := []; findingInputs := []; modelCalls := [];
     auditRuns := [{| ar_id := "audit"; ar_leadId := "l1"; ar_outcome := "AUDITED"; ar_startedAt := 0 |}];
     auditFindings := [{| af_auditRunId := "audit"; af_finding := demoFinding |}]; opportunityAssessments := []; demoRecords := [];
     deterministicFindings := []; findingEvidence := []; debugRecords := debug; llmRequests := [] |}.
Definition demoEmails : world EmailDb := World (demoEmailDb DEMO_DECIDED ∅ ∅ []) 0 0.

(** A client that writes as the mock does, and gives one verdict, at a price *)
Definition answerOf (verdict : EmailReviewParsed) (r : LlmRequest) : OpenAiResponse :=
  let answer := if String.eqb (lr_task r) "email_write" then mockAnswer r else reviewJson verdict in
  {| oa_id := Some "resp"; oa_model := Some (lr_model r); oa_inputTokens := Some 2000; oa_cachedTokens := Some 0;
     oa_cacheWriteTokens := Some 0; oa_outputTokens := Some 1000; oa_reasoningTokens := None; oa_refusal := None;
     oa_status := Some "completed"; oa_incompleteReason := None; oa_outputText := Some (stringify answer) |}.
Definition clientOf (verdict : EmailReviewParsed) : OpenAiClient :=
  {| responsesCreate _ r := OA_RESPONSE (answerOf verdict r) (Some "req") |}.
Definition rejection : EmailReviewParsed :=
  Build_EmailReviewParsed REVIEW_REJECT false true true true true true true true true true true true true true
    true true true true true true true true ["too long"] [].
Definition demoGeneration (verdict : EmailReviewParsed) (provider : string) (cap : num) :
    res (option EmailSummary) * world EmailDb :=
  let client := clientOf verdict in generateEmailsCommand (demoCommandConfig provider cap) demoOptions demoEmails.
(** The database in which the draft of the lead has failed its review *)
Definition rejectedEmails : world EmailDb := (demoGeneration rejection "openai" (ofZ 1)).2.
