(* ===== verification/EmailSpecs.v ===== *)
(** * What the commands of the emails may do

    The command that has first emails written: which drafts it adds, which leads it hands to the
    people who decide, and what it may spend.  Reviewing a draft again: the words of the writer
    are the ones that were stored, the reviewer is asked once, and what happens to the draft, its
    lead and its account depends on the answer alone - and on whether the draft belongs to a
    record of the outreach.  The command by which an operator puts an email of their own in front
    of the people who decide. *)
From S2P Require Import Prelude.
From S2P Require Import JsNumber.
From S2P Require Import JsText.
From S2P Require Import JsonText.
From S2P Require Import JsRegex.
From S2P Require Import OutreachStatus.
From S2P Require Import LeadLifecycle.
From S2P Require Import PipelineDb.
From S2P Require Import SystemDb.
From S2P Require Import LeadFacts.
From S2P Require Import EmailStore.
From S2P Require Import EmailCopy.
From S2P Require Import EmailPrompts.
From S2P Require Import EmailWriter.
From S2P Require Import EmailCommands.
From S2P Require Import EmailWriterSpecs.
From S2P Require Import Review.
From S2P Require Import ReviewSpecs.
From S2P Require Import SendSafety.
From S2P Require Import ScheduledCommand.
Open Scope string_scope.
Open Scope Z_scope.
Open Scope list_scope.

(** ** The command *)

Section command.
Context `{Runtime, UnicodeTables, ZodIssues, EmailFiles, OpenAiClient} (config : EmailCommandConfig) (opts : GenerateEmailsOptions).
#[local] Existing Instance checkedBatch_preorder.

Lemma built_lawful provider : buildEmailProvider config = Ok provider → LawfulLlm provider.
Proof.
  unfold buildEmailProvider. case_match; [|intros [= <-]; apply _].
  destruct (requireLiveEmailProviderConfig _); [|done]. intros [= <-]. apply _.
Qed.
Lemma startRun_checked provider c items kind dryRun : always (checkedBatch provider c items) (zoom inEmailSystem (startRun kind dryRun)).
Proof.
  apply (always_zoom _ (λ a b, emailDrafts b = emailDrafts a ∧ leads (pipelineDb b) = leads (pipelineDb a))).
  { intros db s [E1 E2]. by apply same_drafts_leads_checked. }
  assert (PreOrder (λ a b, emailDrafts b = emailDrafts a ∧ leads (pipelineDb b) = leads (pipelineDb a))) as Hpre.
  { split; [by intros a|]. intros a b d [E1 E2] [F1 F2]. split; congruence. }
  unfold startRun. do 2 (apply (always_bind _); [always_tac|intros]). apply (always_bind _); [|intros; always_tac].
  apply (always_guarded _). intros db _. split; [done|]. by destruct db as [? []].
Qed.
Lemma finishRun_checked provider c items id status notes :
  always (checkedBatch provider c items) (zoom inEmailSystem (finishRun id status notes)).
Proof.
  apply (always_zoom _ (λ a b, emailDrafts b = emailDrafts a ∧ leads (pipelineDb b) = leads (pipelineDb a))).
  { intros db s [E1 E2]. by apply same_drafts_leads_checked. }
  unfold finishRun. intros w. split; reflexivity.
Qed.

Lemma generation_checked provider items : buildEmailProvider config = Ok provider →
  always (checkedBatch provider (emailConfigOf config) items) (
    runId ← zoom inEmailSystem (startRun ("emails:" +:+ gn_campaign opts) (cc_dryRun config));
    summary ← generateEmails provider (emailConfigOf config) true items runId;
    zoom inEmailSystem (finishRun runId "COMPLETED" (Some (stringify (emailSummaryJson summary)))) ;;
    mret (Some summary)).
Proof.
  intros Hlaw%built_lawful. apply (always_bind _); [apply startRun_checked|]. intros runId.
  apply (always_bind _); [by apply generateEmails_checked|]. intros summary.
  apply (always_bind _); [apply finishRun_checked|]. intros _. apply (always_ret _).
Qed.
(** An approved email with a link speaks of the latest demo of its lead, which is approved. *)
Lemma item_demo lead item db :
  emailItem db lead = Some item → wi_demo item = dr_meta <$> latestDemoRecord (wi_leadId item) db ∧
    ∃ audit, latestAuditForComposer (wi_leadId item) db = Some audit ∧ wi_findings item = ca_findings audit.
Proof.
  unfold emailItem. destruct (latestAuditForComposer _ _) as [audit|] eqn:E; [|done]. simpl. case_match; [|done].
  intros [= <-]. cbn. eauto.
Qed.
Lemma items_from db item : item ∈ emailItems opts db → ∃ lead, emailItem db lead = Some item.
Proof.
  unfold emailItems. intros Hi. apply list_elem_of_omap in Hi as (lead & _ & E). by exists lead.
Qed.

(** C12: Whatever the model answers and wherever the command stops, it changes no draft that
    exists, and adds only drafts that render what the model wrote for one of its leads; one is
    approved only if the copy passes every check and the reviewer's answer passes the gate for
    its place in the sequence, it cites a finding of the latest audit that may be used, and it
    carries the link only if the latest demo of the lead is approved.  A lead changes its status
    only to a failed review, or to the place that such a new approved email of it asks for. *)
Theorem generated_emails_are_checked (w : world EmailDb) :
  let db := w_db w in let db' := w_db (generateEmailsCommand config opts w).2 in
  match buildEmailProvider config with
  | Throw _ => db' = db
  | Ok provider =>
      checkedBatch provider (emailConfigOf config) (emailItems opts db) db db' ∧
      ∀ key e, draftsE db !! key = None → draftsE db' !! key = Some e → ew_status e = "APPROVED" →
        (∃ audit f, latestAuditForComposer (ew_leadId e) db = Some audit ∧ f ∈ ca_findings audit ∧ fd_safeForOutreach f = true) ∧
        (includes (ew_body e) DEMO_URL_TOKEN = true →
           ∃ demo, latestDemoRecord (ew_leadId e) db = Some demo ∧ ed_status (dr_meta demo) = "APPROVED")
  end.
Proof.
  cbn zeta. destruct (buildEmailProvider config) as [provider|e] eqn:Ep.
  2: { unfold generateEmailsCommand. rewrite Ep. by destruct (cc_emailGenerationEnabled config). }
  assert (checkedBatch provider (emailConfigOf config) (emailItems opts (w_db w)) (w_db w) (w_db (generateEmailsCommand config opts w).2))
    as Hc.
  { unfold generateEmailsCommand. rewrite Ep. destruct (cc_emailGenerationEnabled config); [|reflexivity].
    by apply (generation_checked provider (emailItems opts (w_db w))). }
  split; [done|]. intros key e Hn He Hs. destruct Hc as [_ Hsound _].
  destruct (Hsound key e He) as [?|(item & Hitem & draft & rendered & wRes & _ & _ & _ & Hl & _ & _ & _ & _ & Hcase)]; [congruence|].
  destruct Hcase as [?|(_ & _ & (f & Hf & Hsafe & _) & Hdemo)]; [congruence|].
  destruct (items_from _ _ Hitem) as [lead Hlead]. destruct (item_demo _ _ _ Hlead) as (Ed & audit & Ha & Ef).
  rewrite Hl. split; [exists audit, f; by rewrite <-Ef|]. intros Hlink. destruct (Hdemo Hlink) as (demo & E & Hst).
  rewrite Ed in E. destruct (latestDemoRecord _ _) as [r|]; [|done]. injection E as <-. by exists r.
Qed.
End command.

(** ** Calls and costs *)

Section calls.
Context `{Runtime, UnicodeTables, ZodIssues, EmailFiles} (provider : LlmProvider EmailDb) (c : EmailConfig)
  (input : EmailWriteInput).

(** What a paid call may still cost at most *)
Definition worstCase (model : string) : option num :=
  worstCaseCostUsd model (ec_worstCaseInputTokensPerCall c) (ec_maxOutputTokens c).
(** The first call fits under the cap in the worst case; there is a second one only if the cost
    of the first is known, and both fit. *)
Definition withinCap (asked : list LlmRequest) : Prop :=
  match ec_maxCostUsdPerLead c, asked with
  | Some cap, _ :: rest =>
      (∃ worst, worstCase (ec_writerModel c) = Some worst ∧ leN (addN (ofZ 0) worst) cap = true) ∧
      (rest ≠ [] → ∃ res cost worst, answered provider (writerRequest c input) res ∧
         lu_estimatedCostUsd (ls_usage res) = Some cost ∧ worstCase (ec_reviewerModel c) = Some worst ∧
         leN (addN (addN (ofZ 0) cost) worst) cap = true)
  | _, _ => True
  end.
Definition callsBounded (a : EmailDb) (run : res EmailResult * world EmailDb) : Prop :=
  let b := w_db run.2 in
  ∃ asked, llmRequests b = llmRequests a ++ asked ∧ (length asked ≤ 2)%nat ∧
    Z.of_nat (length asked) <= Z.max 0 (ec_maxCallsPerLead c) ∧ (isReal provider = true → withinCap asked) ∧
    match run.1 with
    | Ok r => wr_callsMade r = Z.of_nat (length asked) ∧
        ∃ calls, modelCalls b = modelCalls a ++ map (λ call, (wi_leadId input, call)) calls ∧
          length calls = length asked ∧ wr_costUsd r = costOf calls
    | Throw _ => modelCalls b = modelCalls a
    end.

Lemma canCall_count model s : canCall provider c model s = true → sp_callsMade s < ec_maxCallsPerLead c.
Proof. unfold canCall. repeat case_match; try done; lia. Qed.
Lemma canCall_cap model s cap :
  isReal provider = true → ec_maxCostUsdPerLead c = Some cap → canCall provider c model s = true →
  sp_unaccountable s = false ∧ ∃ worst, worstCase model = Some worst ∧ leN (addN (sp_cost s) worst) cap = true.
Proof.
  unfold canCall, worstCase. intros -> ->. destruct (sp_unaccountable s); [done|]. case_match; [done|].
  cbn [negb]. destruct (worstCaseCostUsd _ _ _) as [worst|]; [|done]. eauto.
Qed.
Lemma allowed_bounded asked : allowedCalls provider c input asked →
  (length asked ≤ 2)%nat ∧ Z.of_nat (length asked) <= Z.max 0 (ec_maxCallsPerLead c) ∧ (isReal provider = true → withinCap asked).
Proof.
  intros [|H1'|draft res call H1' Hans Hname _ _ H2']; cbn [length].
  - split_and!; [lia..|]. intros _. unfold withinCap. by case_match.
  - pose proof (canCall_count _ _ H1') as Hn. cbn in Hn. split_and!; [lia..|]. intros Hreal. unfold withinCap.
    destruct (ec_maxCostUsdPerLead c) as [cap|] eqn:Ecap; [|done]. split; [|done]. by apply (canCall_cap _ _ cap Hreal Ecap) in H1' as [_ ?].
  - pose proof (canCall_count _ _ H2') as Hn. cbn in Hn. split_and!; [lia..|]. intros Hreal. unfold withinCap.
    destruct (ec_maxCostUsdPerLead c) as [cap|] eqn:Ecap; [|done].
    split; [by apply (canCall_cap _ _ cap Hreal Ecap) in H1' as [_ ?]|]. intros _.
    apply (canCall_cap _ _ cap Hreal Ecap) in H2' as (Hu & worst & Hw & Hle). exists res.
    cbn [addCall sp_unaccountable noSpend sp_cost] in *. unfold callCost in Hle.
    destruct (lu_estimatedCostUsd _) as [cost|]; [by exists cost, worst|]. exfalso.
    rewrite Hname in Hu. unfold isReal in Hreal. by rewrite Hreal in Hu.
Qed.

(** C26: For one email the writer asks a model at most twice and at most as often as it is
    configured to; a provider that charges is asked only if what was spent, which must be known,
    and the worst case of the call fit under the cap for the lead.  A run that returns stores
    every call and reports their number and cost; of a run that throws no call is stored,
    whatever it has cost. *)
Theorem write_calls_bounded (keepDebug : bool) (runId : string) (w : world EmailDb) :
  LawfulLlm provider → callsBounded (w_db w) (writeEmail provider c keepDebug input runId w).
Proof.
  intros Hlaw. pose proof (write_ends provider c keepDebug input runId w) as He. unfold awp in He. unfold callsBounded.
  destruct (writeEmail _ _ _ _ _ w) as [[r|e] w']; cbn [fst snd].
  - destruct He as (asked & s & Hallowed & (Hlen & Hmade & Hcost) & (_ & E1 & E2 & E3 & E4 & _)).
    exists asked. destruct (allowed_bounded _ Hallowed) as (? & ? & ?). split_and!; [done..|by rewrite E2|].
    exists (sp_calls s). by rewrite E1.
  - destruct He as (asked & Hallowed & _ & _ & E3 & E4). exists asked.
    destruct (allowed_bounded _ Hallowed) as (? & ? & ?). by split_and!.
Qed.
End calls.

(** ** Witnesses *)

#[local] Existing Instance demo_runtime.
#[local] Existing Instance asciiTables.
#[local] Instance demo_client : OpenAiClient := clientOf reviewerResponse.

(** With the mock, and with a model that is paid, the email of the lead is approved; under a cap
    that one call can exhaust there is no second one. *)
Definition demoReport (run : res (option EmailSummary) * world EmailDb) : option (list EmailOutcome * nat * string) :=
  match run.1 with
  | Ok (Some s) => Some (es_outcomes s, length (llmRequests (w_db run.2)), numberText (es_totalCostUsd s))
  | _ => None
  end.
Example generation_examples :
  (demoReport (demoGeneration reviewerResponse "mock" (ofZ 1)), demoReport (demoGeneration reviewerResponse "openai" (ofZ 1)),
   demoReport (demoGeneration reviewerResponse "openai" (ofDecimal false 16 (-2))), demoReport (demoGeneration reviewerResponse "openai" (ofDecimal false 1 (-1)))) =
  (Some ([EO_APPROVED_READY], 2%nat, "0"), Some ([EO_APPROVED_READY], 2%nat, "0.08"),
   Some ([EO_BUDGET_BLOCKED], 1%nat, "0.04"), Some ([EO_BUDGET_BLOCKED], 0%nat, "0")).
Proof. vm_compute. reflexivity. Qed.
Definition demoItem : EmailWriteInput :=
  {| wi_leadId := "l1"; wi_facts := currentFacts "l1" (emailSystem (w_db demoEmails)); wi_findings := [demoFinding];
     wi_demo := None; wi_opportunityScore := None; wi_recipient := None; wi_sequence := None; wi_outreachRecordId := None |}.
Lemma write_calls_bounded_witness :
  LawfulLlm OpenAiResponsesProvider ∧
  callsBounded OpenAiResponsesProvider (emailConfigOf (demoCommandConfig "openai" (ofZ 1))) demoItem (w_db demoEmails)
    (writeEmail OpenAiResponsesProvider (emailConfigOf (demoCommandConfig "openai" (ofZ 1))) true demoItem "run" demoEmails).
Proof. split; [apply _|]. apply write_calls_bounded. apply _. Defined.

Section resuming.
Context `{Runtime, UnicodeTables, ZodIssues, EmailFiles} (provider : LlmProvider EmailDb) `{!LawfulLlm provider}
  (c : EmailConfig) (keepDebug : bool) (leadId draftId runId : string).

(** The draft failed its review, its lead waits, and what the writer wrote is still known. *)
Definition resumable (db : EmailDb) (row : PersistedDraftRow) (draft : EmailWriterOutput) : Prop :=
  draftById draftId db = Some row ∧ pr_leadId row = leadId ∧ pr_status row = "REVIEW_FAILED" ∧
  (∃ l, leads (pipeE db) !! leadId = Some l ∧ ld_status l = EMAIL_REVIEW_FAILED) ∧
  ∃ record v, findByLeadAndRun leadId (dx_runId (pr_columns row)) db = Some record ∧ dg_draft record = Some v ∧
    emailWriterSchema v = Some draft.
(** It renders to what is stored, passes the checks of today, and a call still fits under the cap. *)
Definition admitted (row : PersistedDraftRow) (draft : EmailWriterOutput) (thread : ThreadContext) (inputs : EmailInputs)
    (rendered : RenderedEmail) : Prop :=
  renderEmail draft inputs (resumePosition row thread) = Ok rendered ∧ re_subject rendered = pr_subject row ∧
  re_body rendered = pr_body row ∧ validateEmail draft (buildEmailContext inputs (resumePosition row thread)) = [] ∧
  budgetAllows provider c row = true.
Definition gateOf (row : PersistedDraftRow) (thread : ThreadContext) (review : EmailReviewParsed) : bool :=
  isEmailReviewApprovable review (pr_sequenceStep row) (bool_decide (is_Some (sp_threadSubject (resumePosition row thread)))).
Definition statusOf (approvable : bool) : string := if approvable then "APPROVED" else "REVIEW_FAILED".
(** Where the verdict takes the lead *)
Definition placeOf (approvable : bool) (rendered : RenderedEmail) : LeadStatus :=
  if approvable then if re_hasDemoUrlPlaceholder rendered then WAITING_FOR_DEMO_URL else READY_FOR_HUMAN_APPROVAL
  else EMAIL_REVIEW_FAILED.
(** The columns of a draft: what the writer produced, how it was stored, and the verdict *)
Definition writerColumns (x : DraftColumns) :=
  (dx_demoId x, dx_writerPromptVersion x, dx_schemaVersion x, dx_rulesVersion x, dx_requestedWriterModel x, dx_writerResponseId x).
Definition storageColumns (x : DraftColumns) := (dx_runId x, dx_hasDemoUrlPlaceholder x, dx_provider x, dx_authorship x).
Definition verdictColumns (x : DraftColumns) :=
  (dx_reviewerPromptVersion x, dx_requestedReviewerModel x, dx_reviewerResponseId x, dx_reviewerDecision x, dx_fabricationRisk x,
   dx_personalizationSupported x, dx_claimHonest x, dx_reviewerProblems x).
Definition verdictOf (rRes : LlmResult) (review : EmailReviewParsed) :=
  (EMAIL_REVIEWER_PROMPT_VERSION, ec_reviewerModel c, ls_responseId rRes, Some (reviewDecisionText (rv_decision review)),
   Some (fabricationRisk review), Some (evidenceSupported review && sufficientlyPersonalized review),
   Some (urgencySupported review && competitorClaimsSupported review && negb (fabricationRisk review)),
   Some (rv_problems review ++ requiredRevisions review)).
(** All of a draft but its status *)
Definition emailColumns (e : EmailDraftRow) :=
  (ew_id e, ew_leadId e, ew_subject e, ew_body e, ew_ctaKind e, ew_sequenceStep e, ew_outreachRecordId e,
   (ew_humanDecision e, ew_humanNotes e, ew_humanReviewedAt e, ew_humanReviewedBy e, ew_createdAt e)).
(** A call without a verdict: its cost is added to the draft, and that is all. *)
Definition onlyAccounted (cost : num) (a b : EmailDb) : Prop :=
  draftsE b = draftsE a ∧ leads (pipeE b) = leads (pipeE a) ∧
  ∃ x y, draftColumns a !! draftId = Some x ∧ draftColumns b = <[draftId := y]> (draftColumns a) ∧
    writerColumns y = writerColumns x ∧ storageColumns y = storageColumns x ∧ verdictColumns y = verdictColumns x ∧
    dx_totalCostUsd y = addN (dx_totalCostUsd x) cost.
(** A draft without a record is kept, and a copy has the verdict; a draft of a record has it itself. *)
Definition verdictStored (row : PersistedDraftRow) (approvable : bool) (rRes : LlmResult) (review : EmailReviewParsed)
    (a b : EmailDb) : Prop :=
  match pr_outreachRecordId row with
  | None => ∃ d t, draftsE a !! nd_id d = None ∧ draftsE b = <[nd_id d := newDraftRow d t]> (draftsE a) ∧
      draftColumns b = <[nd_id d := nd_columns d]> (draftColumns a) ∧
      nd_leadId d = leadId ∧ nd_subject d = pr_subject row ∧ nd_body d = pr_body row ∧ nd_status d = statusOf approvable ∧
      writerColumns (nd_columns d) = writerColumns (pr_columns row) ∧ verdictColumns (nd_columns d) = verdictOf rRes review ∧
      dx_totalCostUsd (nd_columns d) = callCost rRes
  | Some _ => ∃ e e' y, draftsE a !! draftId = Some e ∧ draftsE b = <[draftId := e']> (draftsE a) ∧
      ew_status e' = statusOf approvable ∧ emailColumns e' = emailColumns e ∧
      draftColumns b = <[draftId := y]> (draftColumns a) ∧ writerColumns y = writerColumns (pr_columns row) ∧
      storageColumns y = storageColumns (pr_columns row) ∧ verdictColumns y = verdictOf rRes review ∧
      dx_totalCostUsd y = addN (dx_totalCostUsd (pr_columns row)) (callCost rRes)
  end.
(** What the answer of the reviewer leads to *)
Definition answeredBy (row : PersistedDraftRow) (thread : ThreadContext) (rendered : RenderedEmail) (request : LlmRequest)
    (rRes : LlmResult) (r : ResumeReviewResult) (a b : EmailDb) : Prop :=
  answered provider request rRes ∧ llmRequests b = llmRequests a ++ [request] ∧
  (∃ call, modelCalls b = modelCalls a ++ [(leadId, call)] ∧ mc_usage call = ls_usage rRes ∧ mc_purpose call = EMAIL_REVIEW) ∧
  rr_costUsd r = callCost rRes ∧
  ((emailReviewSchema (ls_rawJson rRes) = None ∨ resumeFailure (ls_status rRes) ≠ None) ∧
     rr_outcome r ∉ [RO_REVIEWED_APPROVED; RO_REVIEWED_REJECTED] ∧ onlyAccounted (callCost rRes) a b ∨
   ∃ review, emailReviewSchema (ls_rawJson rRes) = Some review ∧
     let approvable := gateOf row thread review in
     rr_outcome r = (if approvable then RO_REVIEWED_APPROVED else RO_REVIEWED_REJECTED) ∧
     verdictStored row approvable rRes review a b ∧ debugRecords b = debugRecords a ∧
     ∃ t es, pipeE b = leadChange leadId (Some (placeOf approvable rendered, t)) es (pipeE a)).

Lemma awp_resumableDraft w :
  awp (resumableDraft leadId draftId) (λ p w', w' = w ∧ resumable (w_db w) p.1 p.2) (λ w', w_db w' = w_db w) w.
Proof using Type.
  unfold resumableDraft. awp_run. destruct (draftById draftId (w_db w)) as [row|] eqn:Erow; [|done].
  destruct (String.eqb_spec (pr_leadId row) leadId) as [El|]; cbn [negb]; [|done].
  destruct (String.eqb_spec (pr_status row) "REVIEW_FAILED") as [Es|]; cbn [negb]; [|done].
  rewrite awp_bind. unfold onEmailPipeline, getLead. rewrite !awp_zoom, awp_query. cbn [w_db w_ticks w_uuids view].
  set (db' := put _ _ _). assert (db' = w_db w) as -> by by destruct w as [[[[]]]].
  change (pipelineDb (view inEmailSystem (w_db w))) with (pipeE (w_db w)).
  destruct (leads _ !! leadId) as [l|] eqn:Elead; [|done]. case_bool_decide as Hst; cbn [negb]; [|done]. awp_run.
  destruct (findByLeadAndRun _ _ _) as [record|] eqn:Erec; [|done]. cbn [mbind option_bind].
  destruct (dg_draft record) as [v|] eqn:Ev; [|done]. destruct (emailWriterSchema v) as [draft|] eqn:Ed; [|done].
  split; [by destruct w|]. split_and!; [done..|by exists l|by exists record, v].
Qed.
(** The conversation that a draft is part of *)
Definition threadOf (row : PersistedDraftRow) (db : EmailDb) : ThreadContext :=
  match pr_sequenceStep row, pr_outreachRecordId row with
  | Followup _, Some recordId => threadContext recordId db
  | _, _ => {| tc_threadSubject := None; tc_priorMessages := [] |}
  end.
Lemma awp_resumeThread row w : awp (resumeThread row) (λ thread w', w' = w ∧ thread = threadOf row (w_db w)) (λ w', w_db w' = w_db w) w.
Proof using Type.
  unfold resumeThread, threadOf. destruct (pr_sequenceStep row); [by awp_run|]. destruct (pr_outreachRecordId row); [|by awp_run].
  awp_run. case_match; by awp_run.
Qed.
Lemma awp_askModel_exact request w Q (E : world EmailDb → Prop) :
  (∀ res w', answered provider request res → w_db w' = logLlmRequest request (w_db w) → Q res w') →
  (∀ w', w_db w' = logLlmRequest request (w_db w) → E w') →
  awp (askModel provider request) Q E w.
Proof using LawfulLlm0.
  intros HQ HE. unfold askModel. rewrite awp_bind, awp_modify. set (w1 := World _ _ _).
  pose proof (llm_keeps request w1) as Hk. unfold awp.
  destruct (lp_generate provider request w1) as [[res|e] w'] eqn:Eg; cbn [snd] in Hk; [apply HQ; [by exists w1, w'|done]|by apply HE].
Qed.
Lemma quiet_asked request a : quiet [request] a (logLlmRequest request a).
Proof using Type. by split_and!. Qed.

(** ** The commit *)

Lemma wp_updateDraft key row columns w e :
  draftsE (w_db w) !! key = Some e →
  wp (updateDraft key row columns) (λ o w', o = Some (ew_leadId e) ∧
    draftsE (w_db w') = alter row key (draftsE (w_db w)) ∧ draftColumns (w_db w') = alter columns key (draftColumns (w_db w)) ∧
    modelCalls (w_db w') = modelCalls (w_db w) ∧ llmRequests (w_db w') = llmRequests (w_db w) ∧
    debugRecords (w_db w') = debugRecords (w_db w) ∧ pipeE (w_db w') = pipeE (w_db w)) w.
Proof using Type. intros He. unfold updateDraft. wp_run. change (emailDrafts _) with (draftsE (w_db w)). by rewrite He. Qed.
Lemma wp_routeResumedLead plan w :
  (∃ l, leads (w_db w) !! rp_leadId plan = Some l ∧ ld_status l = EMAIL_REVIEW_FAILED) →
  wp (routeResumedLead plan) (λ _ w', ∃ move es, w_db w' = leadChange (rp_leadId plan) move es (w_db w) ∧
    if isAccounting (rp_write plan) then move = None
    else ∃ t, move = Some (if rp_approved plan then rp_route plan else EMAIL_REVIEW_FAILED, t)) w.
Proof using Type.
  intros (l & Hl & Hst). unfold routeResumedLead, getLead. rewrite wp_bind, wp_query, Hl. simpl.
  destruct (isAccounting _); [simpl; exists None, []; by rewrite leadChange_nil|].
  rewrite bool_decide_eq_true_2 by by rewrite Hst. simpl.
  eapply (wp_mono _ (λ _ w', ∃ t es, w_db w' = leadChange (rp_leadId plan)
    (Some (if rp_approved plan then rp_route plan else EMAIL_REVIEW_FAILED, t)) es (w_db w))).
  { intros _ w' (t & es & E). eauto. }
  unfold moveResumedLead. destruct (rp_approved plan); [|apply (wp_moves _ [EMAIL_DRAFTED])].
  case_bool_decide as Ha; [rewrite Ha; apply (wp_moves _ [EMAIL_DRAFTED])|apply (wp_moves _ [EMAIL_DRAFTED; EMAIL_APPROVED])].
Qed.
(** A commit: the lead, the rows, the event - or nothing *)
Lemma awp_resumeCommit plan w (Q : () → world EmailDb → Prop) (E : world EmailDb → Prop) :
  (∃ l, leads (pipeE (w_db w)) !! rp_leadId plan = Some l ∧ ld_status l = EMAIL_REVIEW_FAILED) →
  (∀ w1 move es, w_db w1 = withPipeE (leadChange (rp_leadId plan) move es (pipeE (w_db w))) (w_db w) →
    (if isAccounting (rp_write plan) then move = None
     else ∃ t, move = Some (if rp_approved plan then rp_route plan else EMAIL_REVIEW_FAILED, t)) →
    wp (writeResumed (rp_write plan)) (λ _ w2, ∀ w3 es, w_db w3 = withPipeE (leadChange (rp_leadId plan) None es (pipeE (w_db w2))) (w_db w2) → Q tt w3) w1) →
  (∀ w', w_db w' = w_db w → E w') →
  awp (resumeCommit plan) Q E w.
Proof using Type.
  intros Hl HQ HE. apply awp_transaction; [|done]. rewrite wp_bind, wp_onEmail.
  eapply wp_mono; [|by apply wp_routeResumedLead]. cbn [w_db]. intros _ w1 (move & es & E1 & Hmove).
  rewrite wp_bind. eapply wp_mono; [|apply (HQ _ move es); [cbn [w_db]; by rewrite E1|done]].
  intros u w2 Hw2. eapply wp_mono; [|apply (wp_recordEmailEvent (rp_leadId plan))]. intros [] w3 [es' E3]. by eapply Hw2.
Qed.

(** ** What follows the answer *)

Lemma draftById_stored db row : draftById draftId db = Some row → pr_id row = draftId ∧
  draftColumns db !! draftId = Some (pr_columns row) ∧ ∃ e, draftsE db !! draftId = Some e ∧ ew_leadId e = pr_leadId row.
Proof using Type.
  unfold draftById, draftsE. destruct (emailDrafts _ !! draftId) as [e|]; cbn; [|done].
  destruct (draftColumns db !! draftId) as [col|]; cbn; [|done].
  intros [= <-]. split_and!; [done..|]. by exists e.
Qed.
Lemma alter_stored {A} (f : A → A) (k : string) (m : gmap string A) x : m !! k = Some x → alter f k m = <[k := f x]> m.
Proof.
  intros Hx. apply map_eq. intros j. destruct (decide (j = k)) as [->|].
  - by rewrite lookup_alter_eq, lookup_insert_eq, Hx.
  - by rewrite lookup_alter_ne, lookup_insert_ne.
Qed.
Lemma accountFailedAttempt_ends outcome row rRes issues request a w :
  pr_id row = draftId → is_Some (draftColumns a !! draftId) → (∃ e, draftsE a !! draftId = Some e ∧ ew_leadId e = leadId) →
  (∃ l, leads (pipeE a) !! leadId = Some l ∧ ld_status l = EMAIL_REVIEW_FAILED) →
  w_db w = logLlmRequest request a →
  awp (accountFailedAttempt keepDebug outcome leadId row rRes runId issues)
    (λ r w', rr_outcome r = outcome ∧ rr_costUsd r = callCost rRes ∧ llmRequests (w_db w') = llmRequests a ++ [request] ∧
       (∃ call, modelCalls (w_db w') = modelCalls a ++ [(leadId, call)] ∧ mc_usage call = ls_usage rRes ∧ mc_purpose call = EMAIL_REVIEW) ∧
       onlyAccounted (callCost rRes) a (w_db w'))
    (λ w', quiet [request] a (w_db w')) w.
Proof using Type.
  intros Hid [x Hx] (e & He & Hel) Hlead Ew. unfold accountFailedAttempt. rewrite awp_bind, awp_randomUUID. set (w1 := World _ _ _).
  assert (quiet [request] a (w_db w1)) as Hq1 by (cbn [w_db w1]; rewrite Ew; apply quiet_asked). clearbody w1.
  set (violations := map issueLabel _). set (call := match violations with [] => _ | _ => _ end).
  assert (mc_usage call = ls_usage rRes ∧ mc_purpose call = EMAIL_REVIEW) as Hcall by (by destruct violations). clearbody call violations.
  rewrite awp_bind. eapply awp_mono; [| |apply (awp_always (quiet []))].
  2: { intros w'. by apply quiet_after. }
  2: { destruct keepDebug; [|apply (always_ret _)]. apply (always_bind _); [apply (always_now _)|intros].
       apply (always_bind _); [|intros; apply (always_ret _)]. apply (always_tryCatch _).
       unfold recordDebugFile. apply (always_bind _); [apply (always_ask _)|intros]. apply (always_modify _). intros db.
       split_and!; [done..|by rewrite app_nil_r]. }
  intros u w2 Hq2. cbn beta in Hq2. pose proof (quiet_after _ _ _ _ Hq1 Hq2) as (E1 & E2 & E3 & E4). rewrite awp_bind.
  apply awp_resumeCommit; cbn [rp_leadId rp_write isAccounting rp_approved writeResumed].
  - unfold pipeE. by rewrite E1.
  - intros w3 move es Ew3 ->. unfold recordFailedReviewAttempt. rewrite wp_bind, Hid.
    eapply wp_mono; [|apply (wp_updateDraft _ _ _ _ e)]; [|rewrite Ew3; change (draftsE (w_db w2) !! draftId = Some e); unfold draftsE; by rewrite E1].
    intros o w4 (-> & D1 & D2 & D3 & D4 & D5 & D6). rewrite Hel. eapply wp_mono; [|apply wp_insertModelCalls].
    intros u' w5 Ew5 w6 es' Ew6. rewrite awp_ret. cbn [resultOf rr_outcome rr_costUsd]. cbn beta in Ew5.
    split_and!; [done..|by rewrite Ew6, Ew5; cbn; rewrite D4, Ew3| |split_and!].
    + exists call. split; [|done]. rewrite Ew6, Ew5. change (modelCalls (w_db w4) ++ [(leadId, call)] = modelCalls a ++ [(leadId, call)]).
      by rewrite D3, Ew3, <-E3.
    + rewrite Ew6, Ew5. change (draftsE (w_db w4) = draftsE a). rewrite D1, Ew3. change (alter id draftId (draftsE (w_db w2)) = draftsE a).
      rewrite alter_id by done. unfold draftsE. by rewrite E1.
    + rewrite Ew6. change (leads (leadChange leadId None es' (pipeE (w_db w5))) = leads (pipeE a)).
      rewrite leadChange_leads, Ew5. change (leads (pipeE (w_db w4)) = leads (pipeE a)). rewrite D6, Ew3.
      change (leads (leadChange leadId None es (pipeE (w_db w2))) = leads (pipeE a)). rewrite leadChange_leads. unfold pipeE. by rewrite E1.
    + exists x, (withAddedCost (callCost rRes) x). split_and!; [done| |done..]. rewrite Ew6, Ew5.
      change (draftColumns (w_db w4) = <[draftId := withAddedCost (callCost rRes) x]> (draftColumns a)).
      by rewrite <-(alter_stored _ _ _ _ Hx), D2, Ew3, <-E2.
  - intros w' ->. by split_and!.
Qed.
Lemma awp_appendedDraft row rendered review approvable route rRes call w :
  awp (appendedDraft provider c row runId rendered review approvable route rRes call)
    (λ plan w', w_db w' = w_db w ∧ ∃ p d id, plan = APPEND p id ∧ ps_email p = Some d ∧ ps_leadId p = pr_leadId row ∧
       ps_modelCalls p = [call] ∧ nd_leadId d = pr_leadId row ∧ nd_subject d = re_subject rendered ∧ nd_body d = re_body rendered ∧
       nd_status d = statusOf approvable ∧ nd_columns d = resumedColumns provider c row runId rendered review rRes)
    (λ w', w_db w' = w_db w) w.
Proof using Type.
  unfold appendedDraft. rewrite awp_bind, awp_randomUUID, awp_bind. cbn [w_db w_ticks w_uuids].
  eapply awp_mono; [| |apply withIds_keeps]; cbn [w_db]; [|done]. intros facts w1 E1. rewrite awp_bind.
  eapply awp_mono; [| |apply withIds_keeps]; cbn beta; [|intros w' E; by rewrite E]. intros findings w2 E2. rewrite awp_ret.
  split; [by rewrite E2|]. eexists _, _, _. by split_and!.
Qed.
(** The commit of a verdict, of either kind *)
Definition writesVerdict (row : PersistedDraftRow) (approvable : bool) (rRes : LlmResult) (review : EmailReviewParsed)
    (call : EmailModelCall) (request : LlmRequest) (a : EmailDb) (storing : ResumeDraftWrite) : Prop := ∀ w,
  draftsE (w_db w) = draftsE a → draftColumns (w_db w) = draftColumns a → modelCalls (w_db w) = modelCalls a →
  llmRequests (w_db w) = llmRequests a ++ [request] → debugRecords (w_db w) = debugRecords a →
  wp (writeResumed storing) (λ _ w', verdictStored row approvable rRes review a (w_db w') ∧
    modelCalls (w_db w') = modelCalls a ++ [(leadId, call)] ∧ llmRequests (w_db w') = llmRequests a ++ [request] ∧
    debugRecords (w_db w') = debugRecords a ∧ pipeE (w_db w') = pipeE (w_db w)) w.
Lemma verdict_commits row thread rendered rRes review request call storing newId resultId a w :
  let approvable := gateOf row thread review in
  let route := if re_hasDemoUrlPlaceholder rendered then WAITING_FOR_DEMO_URL else READY_FOR_HUMAN_APPROVAL in
  (∃ l, leads (pipeE a) !! leadId = Some l ∧ ld_status l = EMAIL_REVIEW_FAILED) →
  answered provider request rRes → emailReviewSchema (ls_rawJson rRes) = Some review →
  mc_usage call = ls_usage rRes ∧ mc_purpose call = EMAIL_REVIEW → w_db w = logLlmRequest request a → isAccounting storing = false →
  writesVerdict row approvable rRes review call request a storing →
  awp (resumeCommit {| rp_leadId := leadId; rp_approved := approvable; rp_route := route; rp_write := storing;
         rp_sourceDraftId := pr_id row; rp_reviewerDecision := reviewDecisionText (rv_decision review);
         rp_costUsd := callCost rRes; rp_runId := runId |} ;;
       mret (resultOf leadId (pr_id row) (if approvable then RO_REVIEWED_APPROVED else RO_REVIEWED_REJECTED) (callCost rRes) 1 []
         (Some review) newId (Some (if approvable then route else EMAIL_REVIEW_FAILED)) resultId))
    (λ r w', answeredBy row thread rendered request rRes r a (w_db w')) (λ w', quiet [request] a (w_db w')) w.
Proof using Type.
  intros approvable route Hlead Hans Hrev Hcall Ew Hacc Hwrite. rewrite awp_bind.
  apply awp_resumeCommit; cbn [rp_leadId rp_write rp_approved rp_route].
  - by rewrite Ew.
  - rewrite Hacc. intros w3 move es Ew3 [t ->]. eapply wp_mono; [|apply Hwrite; by rewrite Ew3, Ew].
    intros u w4 (Hv & Hm & Hr & Hdebug & Hpipe) w5 es' Ew5. rewrite awp_ret.
    assert (pipeE (w_db w5) = leadChange leadId (Some (placeOf approvable rendered, t)) (es ++ es') (pipeE a)) as Hp5.
    { rewrite Ew5. change (leadChange leadId None es' (pipeE (w_db w4)) = leadChange leadId (Some (placeOf approvable rendered, t)) (es ++ es') (pipeE a)).
      rewrite Hpipe, Ew3. change (pipeE (withPipeE ?p _)) with p. rewrite Ew. by rewrite leadChange_note. }
    unfold answeredBy. rewrite Hp5, Ew5. split_and!; [done..|by exists call|done|]. right. exists review.
    split_and!; [done..|by exists t, (es ++ es')].
  - intros w' E. rewrite E, Ew. apply quiet_asked.
Qed.
Lemma recovered_writes row review approvable rRes call request a record :
  draftById draftId a = Some row → pr_leadId row = leadId → pr_outreachRecordId row = Some record →
  writesVerdict row approvable rRes review call request a (recoveredDraft c row review approvable rRes call).
Proof using Type.
  intros Hrow Hl Er w E1 E2 E3 E4 E5. destruct (draftById_stored _ _ Hrow) as (Hid & Hcol & e & He & Hel).
  cbn [writeResumed recoveredDraft]. unfold applyReviewOutcome. rewrite wp_bind, Hid.
  eapply wp_mono; [|apply (wp_updateDraft _ _ _ _ e); by rewrite E1]. intros o w4 (-> & D1 & D2 & D3 & D4 & D5 & D6).
  eapply wp_mono; [|apply wp_insertModelCalls]. intros u w5 Ew5. cbn beta in Ew5. rewrite Ew5, Hel, Hl. split_and!.
  - unfold verdictStored. rewrite Er. eexists e, (withStatus (statusOf approvable) e), (withReview _ (pr_columns row)).
    split_and!; [done| |done|done| |..].
    + rewrite <-(alter_stored _ _ _ _ He), <-E1. exact D1.
    + rewrite <-(alter_stored _ _ _ _ Hcol), <-E2. exact D2.
    + done. + done. + done. + done.
  - cbn. by rewrite D3, E3.
  - cbn. by rewrite D4, E4.
  - cbn. by rewrite D5, E5.
  - exact D6.
Qed.
Lemma appended_writes row approvable rendered rRes review call request a p d id :
  pr_outreachRecordId row = None → ps_email p = Some d → ps_leadId p = leadId → ps_modelCalls p = [call] → nd_leadId d = leadId →
  nd_subject d = pr_subject row → nd_body d = pr_body row → nd_status d = statusOf approvable →
  nd_columns d = resumedColumns provider c row runId rendered review rRes →
  writesVerdict row approvable rRes review call request a (APPEND p id).
Proof using Type.
  intros Er Hp Hpl Hpc Hd1 Hd2 Hd3 Hd4 Hd5 w E1 E2 E3 E4 E5. cbn [writeResumed].
  eapply wp_mono; [|apply wp_persistEmail]. intros u w4 (D1 & D2 & D3 & D4 & D5). rewrite Hp in D5. destruct D5 as (D5 & D6 & t & D7).
  rewrite D1, D2, D4, E3, E4, E5, Hpl, Hpc. split_and!; [|done..]. unfold verdictStored. rewrite Er. exists d, t.
  rewrite D6, D7, E2, E1, Hd5. rewrite E1 in D5. by split_and!.
Qed.
Lemma storeVerdict_ends row thread rendered rRes review request a w :
  draftById draftId a = Some row → pr_leadId row = leadId → (∃ l, leads (pipeE a) !! leadId = Some l ∧ ld_status l = EMAIL_REVIEW_FAILED) →
  re_subject rendered = pr_subject row → re_body rendered = pr_body row → answered provider request rRes →
  emailReviewSchema (ls_rawJson rRes) = Some review → w_db w = logLlmRequest request a →
  awp (storeVerdict provider c leadId row runId rendered (resumePosition row thread) rRes review)
    (λ r w', answeredBy row thread rendered request rRes r a (w_db w')) (λ w', quiet [request] a (w_db w')) w.
Proof using Type.
  intros Hrow Hl Hlead Hsub Hbody Hans Hrev Ew. destruct (draftById_stored _ _ Hrow) as (Hid & Hcol & e & He & Hel).
  unfold storeVerdict. fold (gateOf row thread review). set (approvable := gateOf row thread review).
  rewrite awp_bind, awp_randomUUID. set (call := modelCallOf _ _ _ _). set (w1 := World _ _ _).
  assert (w_db w1 = logLlmRequest request a) as Ew1 by done. assert (mc_usage call = ls_usage rRes ∧ mc_purpose call = EMAIL_REVIEW) as Hcall by done.
  clearbody w1 call. rewrite awp_bind. destruct (pr_outreachRecordId row) as [record|] eqn:Er.
  - rewrite awp_ret. apply (verdict_commits row thread rendered rRes review request call); try done.
    by eapply recovered_writes.
  - eapply awp_mono; [| |apply awp_appendedDraft]; cbn beta; [|intros w' E; rewrite E, Ew1; apply quiet_asked].
    intros plan w2 (E2 & p & d & id & -> & Hp & Hpl & Hpc & Hd1 & Hd2 & Hd3 & Hd4 & Hd5).
    apply (verdict_commits row thread rendered rRes review request call); try done; [by rewrite E2|].
    eapply appended_writes; try done; congruence.
Qed.

(** ** The whole *)

(** Either nothing was asked and nothing has changed, or the one question was put, about an
    admitted draft, and the answer was dealt with. *)
Definition resumedProperly (a : EmailDb) (run : res ResumeReviewResult * world EmailDb) : Prop :=
  let b := w_db run.2 in
  b = a ∧ (∀ r, run.1 = Ok r → rr_callsMade r = 0 ∧ rr_outcome r ∈ [RO_VALIDATION_FAILED; RO_REVIEWER_BUDGET_BLOCKED]) ∨
  ∃ row draft rendered,
    let thread := threadOf row a in
    let inputs := resumeInputs leadId (sp_threadSubject (resumePosition row thread)) a in
    let request := resumeRequest c row thread inputs draft in
    resumable a row draft ∧ admitted row draft thread inputs rendered ∧
    match run.1 with
    | Throw _ => quiet [request] a b
    | Ok r => ∃ rRes, answeredBy row thread rendered request rRes r a b
    end.
Lemma resumedProperly_awp (m : WM ResumeReviewResult) w :
  awp m (λ r w', resumedProperly (w_db w) (Ok r, w')) (λ w', ∀ e, resumedProperly (w_db w) (Throw e, w')) w →
  resumedProperly (w_db w) (m w).
Proof using Type. unfold awp. destruct (m w) as [[r|e] w']; auto. Qed.
Lemma reviewAgain_ends row draft rendered w :
  let a := w_db w in
  let thread := threadOf row a in
  let inputs := resumeInputs leadId (sp_threadSubject (resumePosition row thread)) a in
  let request := resumeRequest c row thread inputs draft in
  resumable a row draft → re_subject rendered = pr_subject row → re_body rendered = pr_body row →
  awp (reviewAgain provider c keepDebug leadId row runId thread inputs draft rendered)
    (λ r w', ∃ rRes, answeredBy row thread rendered request rRes r a (w_db w')) (λ w', quiet [request] a (w_db w')) w.
Proof using LawfulLlm0.
  intros a thread inputs request (Hrow & Hl & _ & Hlead & _) Hsub Hbody.
  destruct (draftById_stored _ _ Hrow) as (Hid & Hcol & e & He & Hel). unfold reviewAgain. rewrite awp_bind.
  apply awp_askModel_exact; [|intros w' E; rewrite E; apply quiet_asked]. intros rRes w1 Hans Ew1.
  assert (∀ outcome issues, (emailReviewSchema (ls_rawJson rRes) = None ∨ resumeFailure (ls_status rRes) ≠ None) →
    outcome ∉ [RO_REVIEWED_APPROVED; RO_REVIEWED_REJECTED] →
    awp (accountFailedAttempt keepDebug outcome leadId row rRes runId issues)
      (λ r w', ∃ rRes, answeredBy row thread rendered request rRes r a (w_db w')) (λ w', quiet [request] a (w_db w')) w1) as Hfail.
  { intros outcome issues Hwhy Hout. eapply awp_mono; [| |apply (accountFailedAttempt_ends _ _ _ _ request a)]; [|done|done|by exists (pr_columns row)|exists e; split; [done|congruence]|done|done].
    intros r w' (Ho & Hcost & Hr & Hm & Hacc). exists rRes. split_and!; [done..|]. left. by rewrite Ho. }
  destruct (resumeFailure (ls_status rRes)) as [outcome|] eqn:Ef.
  { apply Hfail; [by right|]. destruct (ls_status rRes); simplify_eq/=; by apply (bool_decide_eq_true_1 (_ ∉ _)). }
  destruct (emailReviewSchema (ls_rawJson rRes)) as [review|] eqn:Erev.
  - eapply awp_mono; [| |by apply (storeVerdict_ends _ thread _ _ _ request a)]; [|done]. intros r w' ?. by exists rRes.
  - apply Hfail; [by left|]. by apply (bool_decide_eq_true_1 (_ ∉ _)).
Qed.
Lemma resume_properly w : resumedProperly (w_db w) (resume provider c keepDebug leadId draftId runId w).
Proof using LawfulLlm0.
  apply resumedProperly_awp. unfold resume.
  assert (∀ w', w_db w' = w_db w → ∀ e, resumedProperly (w_db w) (Throw e, w')) as Hrefused by (intros w' E e; by left).
  rewrite awp_bind. eapply awp_mono; [|exact Hrefused|apply awp_resumableDraft]. intros [row draft] w1 [-> Hres]. cbn [fst snd] in Hres.
  rewrite awp_bind. eapply awp_mono; [|exact Hrefused|apply awp_resumeThread]. intros thread w1 [-> ->]. awp_run.
  set (inputs := resumeInputs _ _ _). destruct (renderEmail _ _ _) as [rendered|e] eqn:Er; [|exact (Hrefused w eq_refl)]. cbn [lift_res]. awp_run.
  destruct (_ || _) eqn:Esame; [exact (Hrefused w eq_refl)|]. apply orb_false_iff in Esame as [Es Eb].
  apply negb_false_iff, String.eqb_eq in Es. apply negb_false_iff, String.eqb_eq in Eb.
  case_bool_decide as Hv; cbn [negb].
  2: { rewrite awp_ret. left. split; [done|]. intros r [= <-]. split; [done|by left]. }
  destruct (budgetAllows provider c row) eqn:Hb; cbn [negb].
  2: { rewrite awp_ret. left. split; [done|]. intros r [= <-]. split; [done|right; by left]. }
  eapply awp_mono; [| |by apply reviewAgain_ends].
  - intros r w' Hr. right. exists row, draft, rendered. by split_and!.
  - intros w' Hq e. right. exists row, draft, rendered. by split_and!.
Qed.
End resuming.

(** ** Retries *)

Section retries.
Context `{Runtime, UnicodeTables, ZodIssues, EmailFiles} (provider : LlmProvider EmailDb) (c : EmailConfig) (keepDebug : bool)
  (leadId draftId : string).

(** One retry after the other, each a run of its own *)
Definition retry (runIds : list string) : WM (list ResumeReviewResult) :=
  fold_each runIds (λ runId rs, r ← resume provider c keepDebug leadId draftId runId; mret (rs ++ [r])) [].

Lemma rejected_retry_keeps runId row r w w' :
  LawfulLlm provider → draftById draftId (w_db w) = Some row → pr_outreachRecordId row = None →
  resume provider c keepDebug leadId draftId runId w = (Ok r, w') → rr_outcome r = RO_REVIEWED_REJECTED →
  draftById draftId (w_db w') = Some row ∧ budgetAllows provider c row = true ∧
  length (llmRequests (w_db w')) = S (length (llmRequests (w_db w))).
Proof.
  intros Hlaw Hrow Hn Hrun Hout. pose proof (resume_properly provider c keepDebug leadId draftId runId w) as Hp. rewrite Hrun in Hp.
  destruct Hp as [[_ Hp]|(row' & draft & rendered & (Hrow' & _) & (_ & _ & _ & _ & Hb) & Hp)].
  { destruct (Hp r eq_refl) as [_ Hin]. rewrite Hout in Hin. exfalso. revert Hin. by apply (bool_decide_eq_true_1 (_ ∉ _)). }
  rewrite Hrow in Hrow'. injection Hrow' as <-. destruct Hp as (rRes & _ & Hasked & _ & _ & [(_ & Hin & _)|Hv]).
  { exfalso. apply Hin. rewrite Hout. right. by left. }
  destruct Hv as (review & _ & _ & Hv & _). split_and!; [|done|cbn in Hasked; rewrite Hasked, length_app; simpl; lia].
  unfold verdictStored in Hv. rewrite Hn in Hv. destruct Hv as (d & t & Hfresh & Hd & Hc & _). cbn [snd w_db] in *.
  rewrite <-Hrow. unfold draftById. unfold draftsE in *. assert (nd_id d ≠ draftId) as Hne.
  { intros E. rewrite E in Hfresh. unfold draftById in Hrow. by rewrite Hfresh in Hrow. }
  by rewrite Hd, Hc, !lookup_insert_ne.
Qed.

Lemma fold_collects {DB A B} (m : A → M DB B) l acc rs (w w' : world DB) :
  fold_each l (λ x rs, r ← m x; mret (rs ++ [r])) acc w = (Ok rs, w') → acc `prefix_of` rs.
Proof.
  revert acc w. induction l as [|x l IH]; intros acc w; cbn [fold_each]; [by intros [= <- <-]|].
  unfold mbind at 1, M_bind at 1. unfold mbind at 1, M_bind at 1. destruct (m x w) as [[r|e] w1]; [|done]. cbn.
  intros Hp%IH. etrans; [|exact Hp]. by apply prefix_app_r.
Qed.

(** C29: A draft that belongs to no record of the outreach can be put to the reviewer any number of
    times: each rejection is paid, but the account of the draft stays as it was, and the next
    retry is admitted as the first one was, whatever the cap for the lead. *)
Theorem unbound_retries_are_not_accounted (runIds : list string) (row : PersistedDraftRow) (rs : list ResumeReviewResult)
    (w w' : world EmailDb) :
  LawfulLlm provider → draftById draftId (w_db w) = Some row → pr_outreachRecordId row = None →
  retry runIds w = (Ok rs, w') → Forall (λ r, rr_outcome r = RO_REVIEWED_REJECTED) rs →
  draftById draftId (w_db w') = Some row ∧ (runIds ≠ [] → budgetAllows provider c row = true) ∧
  length (llmRequests (w_db w')) = (length (llmRequests (w_db w)) + length runIds)%nat.
Proof.
  intros Hlaw Hrow Hn Hrun Hrej. unfold retry in Hrun. revert Hrun. generalize (@nil ResumeReviewResult) at 2. intros acc.
  revert w Hrow acc. induction runIds as [|runId runIds IH]; intros w Hrow acc; cbn [fold_each].
  { intros [= <- <-]. split_and!; [done..|simpl; lia]. }
  unfold mbind at 1, M_bind at 1. unfold mbind at 1, M_bind at 1.
  destruct (resume _ _ _ _ _ runId w) as [[r|e] w1] eqn:Er; [|done]. cbn. intros Hrun.
  assert (rr_outcome r = RO_REVIEWED_REJECTED) as Hr.
  { rewrite Forall_forall in Hrej. apply Hrej. destruct (fold_collects _ _ _ _ _ _ Hrun) as [k ->].
    rewrite !elem_of_app. left. right. by left. }
  destruct (rejected_retry_keeps _ _ _ _ _ Hlaw Hrow Hn Er Hr) as (Hrow1 & Hb & Hlen).
  destruct (IH w1 Hrow1 _ Hrun) as (? & _ & Hlen'). split_and!; [done..|]. rewrite Hlen', Hlen. lia.
Qed.
End retries.

(** ** The commit of a retry *)

(** C14: A draft is put to the reviewer again only if it failed its review, its lead still waits,
    the words of the writer are known, render to exactly the stored message and pass the checks
    of today, and the call fits under the cap.  The writer is never asked, the reviewer once.  An
    answer without a verdict adds its cost to the draft and changes nothing else; a verdict
    decides the draft, or a copy of a draft without a record, by the same gate as the first
    review, and moves the lead to the place that goes with it.  Whatever is refused before the
    question leaves everything as it was. *)
Theorem resume_asks_the_reviewer_only `{Runtime, UnicodeTables, ZodIssues, EmailFiles} (provider : LlmProvider EmailDb)
    (c : EmailConfig) (keepDebug : bool) (leadId draftId runId : string) (w : world EmailDb) :
  LawfulLlm provider →
  resumedProperly provider c leadId draftId (w_db w) (resume provider c keepDebug leadId draftId runId w).
Proof. intros Hlaw. by apply resume_properly. Qed.

(** ** Witnesses *)

#[local] Existing Instance demo_runtime.
#[local] Existing Instance asciiTables.

Definition demoResume (verdict : EmailReviewParsed) (cap : num) : res ResumeReviewResult * world EmailDb :=
  let client := clientOf verdict in
  resume OpenAiResponsesProvider (emailConfigOf (demoCommandConfig "openai" cap)) true "l1" "uuid-3" "uuid-0" rejectedEmails.
(** The second verdict approves the email and hands the lead on; under a small cap nobody is asked. *)
Example resume_examples :
  match (demoResume reviewerResponse (ofZ 1)).1, (demoResume reviewerResponse (ofDecimal false 2 (-1))).1 with
  | Ok r, Ok r' => Some (rr_outcome r, rr_newLeadStatus r, rr_outcome r')
  | _, _ => None
  end = Some (RO_REVIEWED_APPROVED, Some READY_FOR_HUMAN_APPROVAL, RO_REVIEWER_BUDGET_BLOCKED) ∧
  ld_status <$> leads (pipeE (w_db (demoResume reviewerResponse (ofZ 1)).2)) !! "l1" = Some READY_FOR_HUMAN_APPROVAL.
Proof. split; vm_compute; reflexivity. Qed.
Lemma resume_asks_the_reviewer_only_witness :
  resumedProperly (@OpenAiResponsesProvider EmailDb demo_runtime (clientOf reviewerResponse)) (emailConfigOf (demoCommandConfig "openai" (ofZ 1)))
    "l1" "uuid-3" (w_db rejectedEmails) (demoResume reviewerResponse (ofZ 1)).
Proof.
  exact (resume_asks_the_reviewer_only (H := demo_runtime) (@OpenAiResponsesProvider EmailDb demo_runtime (clientOf reviewerResponse))
    (emailConfigOf (demoCommandConfig "openai" (ofZ 1))) true "l1" "uuid-3" "uuid-0" rejectedEmails
    (openai_lawful (H0 := clientOf reviewerResponse))).
Defined.

(** Three retries that cost 0.04 each, when the draft has cost 0.08 and the cap is 0.30: of the
    worst case of 0.152 only one more would have fitted. *)
Definition smallCap : num := ofDecimal false 3 (-1).
Definition demoRetries : res (list ResumeReviewResult) * world EmailDb :=
  let client := clientOf rejection in
  retry OpenAiResponsesProvider (emailConfigOf (demoCommandConfig "openai" smallCap)) true "l1" "uuid-3" ["uuid-0"; "uuid-0"; "uuid-0"]
    rejectedEmails.
Lemma option_checked {A} (o : option A) (f : A → bool) :
  match o with Some a => f a | None => false end = true → ∃ a, o = Some a ∧ f a = true.
Proof. destruct o; [eauto|done]. Qed.
Lemma run_checked {DB A} (run : res A * world DB) (f : A → bool) :
  match run.1 with Ok a => f a | Throw _ => false end = true → ∃ a w', run = (Ok a, w') ∧ f a = true.
Proof. destruct run as [[a|e] w']; [eauto|done]. Qed.
Lemma unbound_retries_are_not_accounted_witness :
  ∃ row rs w', draftById "uuid-3" (w_db rejectedEmails) = Some row ∧ demoRetries = (Ok rs, w') ∧
    draftById "uuid-3" (w_db w') = Some row ∧ numberText (dx_totalCostUsd (pr_columns row)) = "0.08" ∧
    map (λ r, numberText (rr_costUsd r)) rs = ["0.04"; "0.04"; "0.04"].
Proof.
  destruct (option_checked (draftById "uuid-3" (w_db rejectedEmails)) (λ row, bool_decide (pr_outreachRecordId row = None) &&
    String.eqb (numberText (dx_totalCostUsd (pr_columns row))) "0.08")) as (row & Erow & Hrow); [vm_compute; reflexivity|].
  destruct (run_checked demoRetries (λ rs, bool_decide (Forall (λ r, rr_outcome r = RO_REVIEWED_REJECTED) rs) &&
    bool_decide (map (λ r, numberText (rr_costUsd r)) rs = ["0.04"; "0.04"; "0.04"]))) as (rs & w' & Erun & Hrun);
    [vm_compute; reflexivity|].
  apply andb_true_iff in Hrow as [Hn%bool_decide_eq_true_1 Hcost%String.eqb_eq].
  apply andb_true_iff in Hrun as [Hrej%bool_decide_eq_true_1 Hcosts%bool_decide_eq_true_1].
  exists row, rs, w'. split; [exact Erow|]. split; [exact Erun|]. unfold demoRetries in Erun. cbv zeta in Erun.
  destruct (unbound_retries_are_not_accounted (H := demo_runtime) (@OpenAiResponsesProvider EmailDb demo_runtime (clientOf rejection))
    (emailConfigOf (demoCommandConfig "openai" smallCap)) true "l1" "uuid-3" ["uuid-0"; "uuid-0"; "uuid-0"] row rs rejectedEmails w'
    (openai_lawful (H0 := clientOf rejection)) Erow Hn Erun Hrej) as (E & _).
  split; [exact E|]. split; [exact Hcost|exact Hcosts].
Defined.

Section operator.
Context `{Runtime, UnicodeTables, BodyFiles} (opts : OperatorEmailApproveOptions).

(** An option as the command reads it *)
Definition given (o : option string) (s : string) : Prop := ∃ raw, o = Some raw ∧ s = trim raw ∧ s ≠ "".
Definition operatorText (body : string) (facts : list LeadFactRow) : OperatorEmailInput :=
  {| oi_subject := default "" (oo_subject opts); oi_body := body; oi_language := resolveEmailLanguage facts |}.
(** What an approval changes: one draft, and its lead *)
Definition persistedAs (leadId id body : string) (a b : EmailDb) : Prop := ∃ t t' es,
  draftsE a !! id = None ∧
  b = withPipeE (leadChange leadId (Some (READY_FOR_HUMAN_APPROVAL, t')) es (pipeE a))
        (insertEmailDraftRow (operatorDraft id leadId (default "" (oo_subject opts)) body) t a).
Definition approvedProperly (a : EmailDb) (run : res OperatorApproveResult * world EmailDb) : Prop :=
  w_db run.2 = a ∧ (∀ id hash, run.1 ≠ Ok (OA_PERSISTED id hash)) ∨
  ∃ leadId findingId path body operator lead finding id hash,
    given (oo_lead opts) leadId ∧ given (oo_finding opts) findingId ∧ given (oo_bodyFile opts) path ∧ given (oo_by opts) operator ∧
    oo_confirm opts = true ∧ readBodyFile path = Some body ∧
    leads (pipeE a) !! leadId = Some lead ∧ ld_status lead = OUTREACH_READY_DETERMINISTIC ∧
    finding ∈ listActiveComposerFindings leadId a ∧ fd_id finding = findingId ∧
    validateOperatorEmail (operatorText body (currentFacts leadId (emailSystem a))) = [] ∧
    hash = computeOperatorEmailHash leadId findingId (default "" (oo_subject opts)) body (listFindingEvidenceIds findingId a) ∧
    run.1 = Ok (OA_PERSISTED id hash) ∧ persistedAs leadId id body a (w_db run.2).

Lemma awp_required {A} o code message (k : string → WM A) Q (E : world EmailDb → Prop) w :
  (∀ s, given o s → awp (k s) Q E w) → E w → awp (required_ o code message k) Q E w.
Proof.
  intros Hk HE. unfold required_. destruct o as [raw|]; simpl; [|done]. destruct (trim raw) as [|ch s] eqn:Et; [done|].
  apply Hk. exists raw. by rewrite Et.
Qed.
Lemma awp_persistOperatorEmail leadId subject body id note w (Q : () → world EmailDb → Prop) (E : world EmailDb → Prop) :
  subject = default "" (oo_subject opts) →
  (∀ w', persistedAs leadId id body (w_db w) (w_db w') → Q tt w') → (∀ w', w_db w' = w_db w → E w') →
  awp (persistOperatorEmail leadId subject body id note) Q E w.
Proof.
  intros -> HQ HE. unfold persistOperatorEmail. apply awp_transaction; [|done].
  rewrite wp_bind. unfold insertDraft. rewrite wp_bind, wp_now, wp_guarded. cbn [w_db w_ticks w_uuids]. intros Hc.
  assert (draftsE (w_db w) !! id = None) as Hfresh.
  { unfold checkInsertEmailDraft in Hc. rewrite refuse_None, !Forall_cons in Hc. destruct_and! Hc. cbn [fst] in *.
    match goal with E : bool_decide (is_Some _) = false |- _ => apply eq_None_not_Some; exact (bool_decide_eq_false_1 _ E) end. }
  rewrite wp_onEmail, wp_bind. eapply wp_mono; [|apply wp_leadTransition_exact]. cbn [w_db].
  intros u w1 (l & t & es & _ & _ & E1). eapply wp_mono; [|apply wp_recordEvent_exact]. intros [] w2 [es' E2].
  apply HQ. cbn [w_db]. exists (clock (w_ticks w)), t, (es ++ es'). split; [done|]. rewrite E2, E1.
  f_equal. change (leadChange "" None es' ?p) with (leadChange leadId None es' p). rewrite leadChange_note. done.
Qed.
Lemma approve_ends w : approvedProperly (w_db w) (operatorEmailApproveCommand opts w).
Proof.
  assert (awp (operatorEmailApproveCommand opts) (λ r w', approvedProperly (w_db w) (Ok r, w'))
    (λ w', ∀ e, approvedProperly (w_db w) (Throw e, w')) w) as Hawp.
  2: { unfold awp in Hawp. destruct (operatorEmailApproveCommand opts w) as [[r|e] w']; auto. }
  assert (∀ w', w_db w' = w_db w → ∀ e, approvedProperly (w_db w) (Throw e, w')) as Hrefused by (intros w' E e; by left).
  unfold operatorEmailApproveCommand.
  apply awp_required; [intros leadId Hlead|by apply Hrefused]. apply awp_required; [intros findingId Hfinding|by apply Hrefused].
  apply awp_required; [intros subject _|by apply Hrefused]. apply awp_required; [intros path Hpath|by apply Hrefused].
  apply awp_required; [intros operator Hby|by apply Hrefused]. clear subject.
  destruct (readBodyFile path) as [body|] eqn:Ebody; [|rewrite awp_throw; by apply Hrefused].
  rewrite awp_bind. unfold onEmailPipeline at 1, getLead. rewrite !awp_zoom, awp_query. cbn [w_db w_ticks w_uuids view].
  set (db' := put _ _ _). assert (db' = w_db w) as -> by by destruct w as [[[[]]]].
  change (pipelineDb (view inEmailSystem (w_db w))) with (pipeE (w_db w)).
  destruct (leads _ !! leadId) as [lead|] eqn:El; [|rewrite awp_throw; by apply Hrefused].
  case_bool_decide as Hst; cbn [negb]; [|rewrite awp_throw; by apply Hrefused].
  rewrite awp_bind, awp_query. cbn [w_db].
  destruct (List.find _ _) as [finding|] eqn:Ef; [|rewrite awp_throw; by apply Hrefused].
  apply List.find_some in Ef as [Hin%list_elem_of_In Eid%String.eqb_eq]. unfold approveText.
  rewrite awp_bind, awp_query, awp_bind, awp_query. cbn [w_db]. case_bool_decide as Hv; cbn [negb].
  2: { rewrite awp_ret. by left. }
  rewrite awp_bind, awp_randomUUID. cbn [w_db w_ticks w_uuids]. destruct (oo_confirm opts) eqn:Ec; cbn [negb].
  2: { rewrite awp_ret. by left. }
  rewrite awp_bind. apply awp_persistOperatorEmail; [done| |exact Hrefused]. intros w' Hp. rewrite awp_ret. right.
  eexists leadId, findingId, path, body, operator, lead, finding, _, _. by split_and!.
Qed.

(** C13: The command stores an email of an operator only if it is confirmed, names the operator, a
    lead that is ready for such an email and an active finding of it, and the text of the file
    passes the checks; it is then stored word for word as approved copy without a human
    decision, under the hash of what was checked, and the lead goes to the people who decide.
    In every other case nothing changes. *)
Theorem operator_email_is_checked (w : world EmailDb) : approvedProperly (w_db w) (operatorEmailApproveCommand opts w).
Proof. apply approve_ends. Qed.
End operator.

(** ** An email that is approved *)

#[local] Existing Instance demo_runtime.
#[local] Existing Instance asciiTables.
#[local] Instance demo_body : BodyFiles := {| readBodyFile path :=
  if String.eqb path "ok.txt" then Some "The contact action on your website is hard to find." else Some "Act now and double your sales." |}.
Definition demoOperator (file : string) : res OperatorApproveResult * world EmailDb :=
  let db := demoEmailDb OUTREACH_READY_DETERMINISTIC ∅ ∅ [] in
  operatorEmailApproveCommand {| oo_lead := Some "l1"; oo_finding := Some "finding-1"; oo_subject := Some "The contact page of Praxis Nord";
    oo_bodyFile := Some file; oo_by := Some "ada"; oo_confirm := true |}
    (World {| emailContacts := emailContacts db; draftColumns := ∅; factInputs := []; findingInputs := []; modelCalls := [];
              auditRuns := []; auditFindings := []; opportunityAssessments := []; demoRecords := [];
              deterministicFindings := [{| df_leadId := "l1"; df_status := "ACTIVE"; df_approvedAt := 0; df_finding := demoFinding |}];
              findingEvidence := []; debugRecords := []; llmRequests := [] |} 0 0).
Example operator_examples :
  match (demoOperator "ok.txt").1, (demoOperator "bad.txt").1 with
  | Ok (OA_PERSISTED id _), Ok (OA_REFUSED l) => Some (id, l)
  | _, _ => None
  end = Some ("uuid-0", ["contains_performance_claim"; "contains_fake_urgency"; "prohibited_claim:revenue_claim"; "prohibited_claim:performance_promise"]) ∧
  ld_status <$> leads (pipeE (w_db (demoOperator "ok.txt").2)) !! "l1" = Some READY_FOR_HUMAN_APPROVAL.
Proof. split; vm_compute; reflexivity. Qed.
