(* ===== verification/ScheduleService.v ===== *)
(** * The schedule service: src/domain/schedule/eligibility.ts and
    schedule-service.ts

    Recording, cancelling and moving the intended send time of a Gmail draft. *)
From S2P Require Import Prelude.
From S2P Require Import JsText.
From S2P Require Import TimeZone.
From S2P Require Import Scheduler.
From S2P Require Import LeadLifecycle.
From S2P Require Import PipelineDb.
From S2P Require Import SendGate.
Open Scope Z_scope.
Open Scope list_scope.

(** ** Eligibility *)

Record ScheduleEligibilitySnapshot := {
  se_leadStatus : string; se_gmailDraft : option (string * option string);
  se_finalizedContentHash : option string; se_recipientEmail : option string;
  se_timezone : option string; se_featureEnabled : bool; se_hasActiveSchedule : bool;
}.
Record ScheduleEligibilityResult := {
  sl_eligible : bool; sl_duplicateReusable : bool; sl_timezoneProblem : bool; sl_reasons : list string;
}.

Definition scheduleTimezoneReasons `{TzDatabase} (s : ScheduleEligibilitySnapshot) : list string :=
  if negb (truthy_opt (se_timezone s)) then ["missing_timezone"]
  else when (negb (isValidTimeZone (default "" (se_timezone s)))) "invalid_timezone".
Definition scheduleOtherReasons (s : ScheduleEligibilitySnapshot) : list string :=
  when (negb (se_featureEnabled s)) "scheduling_disabled" ++
  when (neq (se_leadStatus s) "DRAFT_CREATED") ("lead_not_draft_created:" +:+ se_leadStatus s) ++
  match se_gmailDraft s with
  | None => ["no_gmail_draft"]
  | Some (outcome, providerDraftId) =>
      when (neq outcome "DRAFT_CREATED") ("gmail_draft_not_created:" +:+ outcome) ++
      when (negb (truthy_opt providerDraftId)) "no_provider_draft_id"
  end ++
  when (negb (truthy_opt (se_finalizedContentHash s))) "no_finalized_content_hash" ++
  (if negb (truthy_opt (se_recipientEmail s)) then ["no_verified_recipient"]
   else when (negb (email_re_test (default "" (se_recipientEmail s)))) "recipient_not_valid_email").
Definition checkScheduleEligibility `{TzDatabase} (s : ScheduleEligibilitySnapshot) :
    ScheduleEligibilityResult :=
  if se_hasActiveSchedule s then
    {| sl_eligible := false; sl_duplicateReusable := true; sl_timezoneProblem := false;
       sl_reasons := ["active_schedule_exists"] |}
  else
    let reasons := scheduleOtherReasons s ++ scheduleTimezoneReasons s in
    {| sl_eligible := (length reasons =? 0)%nat; sl_duplicateReusable := false;
       sl_timezoneProblem := negb (length (scheduleTimezoneReasons s) =? 0)%nat; sl_reasons := reasons |}.

(** ** The service *)

Inductive ScheduleOutcome :=
  | SO_SCHEDULED | SO_SCHEDULED_DRYRUN | SO_DUPLICATE_REUSED | SO_INVALID_ELIGIBILITY
  | SO_TIMEZONE_INVALID | SO_SCHEDULE_BLOCKED | SO_CANCELLED | SO_NOT_SCHEDULED | SO_RESCHEDULED
  | SO_INVALID_SCHEDULE | SO_NOT_FOUND.
Record ScheduleConfig := { sg_featureEnabled : bool; sg_rules : SchedulingRules; sg_rulesVersion : string }.
Record ScheduleDraft := { sd_id : string; sd_outcome : string; sd_providerDraftId : option string }.
Record ScheduleInput := {
  si_leadId : string; si_leadStatus : string; si_gmailDraft : option ScheduleDraft;
  si_finalizedContentHash : option string; si_recipientEmail : option string; si_timezone : option string;
}.
Record ScheduleResultOut := {
  so_leadId : string; so_outcome : ScheduleOutcome; so_scheduledAtUtc : option string;
  so_scheduledAtLocal : option string; so_reason : option string;
  so_rulesApplied : option SchedulingRules;
}.

Section service.
Context `{Runtime, TzDatabase} (c : ScheduleConfig).
(** What other processes do between the reads of an operation and its transaction *)
Context (interfere : PM ()).

(** [formatLocal] throws for a zone that the platform does not know. *)
Definition out (leadId : string) (outcome : ScheduleOutcome) (atMs : option Z) (tz : option string)
    (reason : option string) : PM ScheduleResultOut :=
  local ← match atMs, tz with
          | Some t, Some tz => lift_res (withZone tz (λ off, Some (formatLocal off tz t)))
          | _, _ => mret None
          end;
  mret {| so_leadId := leadId; so_outcome := outcome; so_scheduledAtUtc := toISOString <$> atMs;
          so_scheduledAtLocal := local; so_reason := reason; so_rulesApplied := None |}.

Definition buildRecord (input : ScheduleInput) (draftId : string) (providerDraftId : option string)
    (tz : string) (atMs : Z) (origin : string) (rescheduleCount : Z) : PM ScheduleRecord :=
  id ← randomUUID;
  let providerDraftId := default "" providerDraftId in
  let finalizedContentHash := default "" (si_finalizedContentHash input) in
  let recipientEmail := default "" (si_recipientEmail input) in
  mret {| sc_id := id; sc_leadId := si_leadId input; sc_gmailDraftId := draftId;
          sc_providerDraftId := providerDraftId; sc_finalizedContentHash := finalizedContentHash;
          sc_recipientEmail := recipientEmail; sc_scheduledAtUtc := atMs; sc_timezone := tz;
          sc_rulesVersion := sg_rulesVersion c; sc_computedFrom := sg_rules c;
          sc_integrityFingerprint := scheduleIntegrityFingerprint {|
            sb_leadId := si_leadId input; sb_gmailDraftId := draftId;
            sb_providerDraftId := providerDraftId; sb_finalizedContentHash := finalizedContentHash;
            sb_recipientEmail := recipientEmail; sb_scheduledAtUtcMs := atMs;
            sb_rulesVersion := sg_rulesVersion c |};
          sc_origin := origin; sc_status := SCH_SCHEDULED; sc_supersededById := None;
          sc_cancelReason := None; sc_rescheduleCount := rescheduleCount |}.

Definition route (input : ScheduleInput) (runId : string) (reason : string) : PM ScheduleResultOut :=
  transaction (
    transitionFrom (si_leadId input) DRAFT_CREATED NEEDS_MANUAL_REVIEW ;;
    recordEvent (noteEvent (si_leadId input) (Some runId) "schedule: TIMEZONE_INVALID"
      (JObj [("reason", JStr reason)]))) ;;
  out (si_leadId input) SO_TIMEZONE_INVALID None None (Some reason).

(** The slot search; a search that does not terminate, which takes rules with a spacing
    of zero or less, is represented by an exception. *)
Definition nextSlot (tz : string) (nowMs : Z) (existing : list Z) (notBeforeMs : option Z) : PM SlotResult :=
  slot ← lift_res (withZone tz (λ off, computeNextSlot off (sg_rules c) nowMs existing notBeforeMs));
  match slot with
  | Some slot => mret slot
  | None => throw (JsError "the slot search does not terminate")
  end.

Definition snapshotFor (input : ScheduleInput) (dryRun : bool) (active : option ScheduleRecord) :
    ScheduleEligibilitySnapshot :=
  {| se_leadStatus := si_leadStatus input;
     se_gmailDraft := (λ d, (sd_outcome d, sd_providerDraftId d)) <$> si_gmailDraft input;
     se_finalizedContentHash := si_finalizedContentHash input;
     se_recipientEmail := si_recipientEmail input; se_timezone := si_timezone input;
     se_featureEnabled := sg_featureEnabled c || dryRun;
     se_hasActiveSchedule := bool_decide (is_Some active) |}.

(** The transaction that records a new schedule *)
Definition recordSchedule (input : ScheduleInput) (runId : string) (record : ScheduleRecord) : PM () :=
  transaction (
    insertSchedule record ;;
    transitionFrom (si_leadId input) DRAFT_CREATED SCHEDULED ;;
    recordEvent (noteEvent (si_leadId input) (Some runId) "schedule: SCHEDULED"
      (JObj [("scheduledAtUtc", JStr (toISOString (sc_scheduledAtUtc record)));
             ("timezone", JStr (sc_timezone record))]))).

Definition schedule (input : ScheduleInput) (runId : string) (notBeforeMs : option Z) (dryRun : bool) :
    PM ScheduleResultOut :=
  let leadId := si_leadId input in
  active ← match si_gmailDraft input with
           | Some d => activeForDraft (sd_id d)
           | None => mret None
           end;
  let elig := checkScheduleEligibility (snapshotFor input dryRun active) in
  match active with
  | Some a =>
      out leadId SO_DUPLICATE_REUSED (Some (sc_scheduledAtUtc a)) (Some (sc_timezone a))
        (Some "active_schedule_exists")
  | None =>
      if negb (sl_eligible elig) then
        if sl_timezoneProblem elig then route input runId (join "," (sl_reasons elig))
        else out leadId SO_INVALID_ELIGIBILITY None None (Some (join "," (sl_reasons elig)))
      else
        let tz := default "" (si_timezone input) in
        existing ← activeScheduledUtc;
        nowMs ← now;
        slot ← nextSlot tz nowMs existing notBeforeMs;
        match scheduledAtUtc slot, si_gmailDraft input with
        | Some atUtc, Some draft =>
            if negb (ok slot) then out leadId SO_SCHEDULE_BLOCKED None None (Some "no_slot_within_horizon")
            else if dryRun then
              local ← lift_res (withZone tz (λ off, formatLocal off tz atUtc));
              mret {| so_leadId := leadId; so_outcome := SO_SCHEDULED_DRYRUN;
                      so_scheduledAtUtc := Some (toISOString atUtc); so_scheduledAtLocal := Some local;
                      so_reason := None; so_rulesApplied := Some (sg_rules c) |}
            else
              record ← buildRecord input (sd_id draft) (sd_providerDraftId draft) tz atUtc "auto" 0;
              interfere ;;
              recordSchedule input runId record ;;
              out leadId SO_SCHEDULED (Some atUtc) (Some tz) None
        | _, _ => out leadId SO_SCHEDULE_BLOCKED None None (Some "no_slot_within_horizon")
        end
  end.

Definition cancel (leadId : string) (reason : option string) (runId : string) : PM ScheduleResultOut :=
  active ← activeForLead leadId;
  match active with
  | None => out leadId SO_NOT_SCHEDULED None None None
  | Some active =>
      interfere ;;
      transaction (
        nowD ← now;
        cancelSchedule (sc_id active) reason nowD ;;
        transitionFrom leadId SCHEDULED DRAFT_CREATED ;;
        recordEvent (noteEvent leadId (Some runId) "schedule: CANCELLED"
          (JObj [("reason", json_opt reason)]))) ;;
      out leadId SO_CANCELLED (Some (sc_scheduledAtUtc active)) (Some (sc_timezone active)) None
  end.

(** The transaction that moves a schedule: the old row is superseded first, since the
    index allows one active schedule per draft after every statement. *)
Definition replaceSchedule (leadId runId : string) (active newRow : ScheduleRecord) : PM () :=
  transaction (
    nowD ← now;
    supersedeSchedule (sc_id active) (sc_id newRow) nowD ;;
    insertSchedule newRow ;;
    recordEvent (noteEvent leadId (Some runId) "schedule: RESCHEDULED"
      (JObj [("from", JStr (toISOString (sc_scheduledAtUtc active)));
             ("to", JStr (toISOString (sc_scheduledAtUtc newRow)))]))).

(** [atMs] is [Date.parse(atIso)], [None] when it is NaN. *)
Definition reschedule (input : ScheduleInput) (atMs : option Z) (runId : string) : PM ScheduleResultOut :=
  let leadId := si_leadId input in
  active ← activeForLead leadId;
  match active, atMs with
  | None, _ => out leadId SO_NOT_SCHEDULED None None None
  | Some _, None => out leadId SO_INVALID_SCHEDULE None None (Some "unparseable_time")
  | Some active, Some atMs =>
      let tz := sc_timezone active in
      instants ← activeScheduledUtc;
      let others := List.filter (λ t, negb (t =? sc_scheduledAtUtc active)) instants in
      nowMs ← now;
      check ← lift_res (withZone tz (λ off, isSlotAllowed off (sg_rules c) atMs nowMs others));
      if negb (ok check) then out leadId SO_INVALID_SCHEDULE None None (slot_reason check)
      else
        newRow ← buildRecord input (sc_gmailDraftId active) (Some (sc_providerDraftId active)) tz atMs
                   "manual" (sc_rescheduleCount active + 1);
        interfere ;;
        replaceSchedule leadId runId active newRow ;;
        out leadId SO_RESCHEDULED (Some atMs) (Some tz) None
  end.
End service.
