(* ===== verification/ScheduleSafety.v ===== *)
(** * What scheduling guarantees

    One active schedule per draft at all times, atomic rescheduling, and what a dry
    run writes. *)
From S2P Require Import Prelude.
From S2P Require Import JsText.
From S2P Require Import TimeZone.
From S2P Require Import Scheduler.
From S2P Require Import LeadLifecycle.
From S2P Require Import PipelineDb.
From S2P Require Import SendGate.
From S2P Require Import SendService.
From S2P Require Import SendSafety.
From S2P Require Import ScheduleService.
Open Scope Z_scope.
Open Scope list_scope.

(** ** One active schedule per draft *)

Definition sr_draft (r : ScheduleRow) : string := sc_gmailDraftId (sr_record r).
Record scheduleInvariant (db : PipelineDb) : Prop := {
  sh_ids : NoDup (map sr_id (schedules db));
  sh_active : ∀ r r', r ∈ schedules db → r' ∈ schedules db → isActiveSchedule r = true →
    isActiveSchedule r' = true → sr_draft r = sr_draft r' → r = r';
}.
Definition keepsSchedules (db db' : PipelineDb) : Prop := scheduleInvariant db → scheduleInvariant db'.
#[global] Instance keepsSchedules_preorder : PreOrder keepsSchedules.
Proof. split; [by intros db Hi|]. intros db1 db2 db3. unfold keepsSchedules. auto. Qed.

Lemma keeps_frame db db' : schedules db' = schedules db → keepsSchedules db db'.
Proof. intros E [H1 H2]. split; rewrite E; assumption. Qed.
Lemma schedules_setSchedules f db : schedules (setSchedules f db) = f (schedules db).
Proof. by destruct db. Qed.

(** The updates of a row, which keep its key and its draft and deactivate it *)
Definition deactivates (f : ScheduleRow → ScheduleRow) : Prop :=
  ∀ r, sr_id (f r) = sr_id r ∧ isActiveSchedule (f r) = false.
Lemma supersede_deactivates newId nowD : deactivates (supersedeRow newId nowD).
Proof. intros [[] ? ? ? ? ? ?]. done. Qed.
Lemma cancel_deactivates reason nowD : deactivates (cancelRow reason nowD).
Proof. intros [[] ? ? ? ? ? ?]. done. Qed.
Lemma fulfil_deactivates nowD : deactivates (fulfilRow nowD).
Proof. intros [[] ? ? ? ? ? ?]. done. Qed.
Lemma invalidate_deactivates reason nowD : deactivates (invalidateRow reason nowD).
Proof. intros [[] ? ? ? ? ? ?]. done. Qed.

Definition updateIn (id : string) (f : ScheduleRow → ScheduleRow) (l : list ScheduleRow) : list ScheduleRow :=
  map (λ r, if bool_decide (sr_id r = id) then f r else r) l.

Section keeps.
Context `{Runtime}.

Lemma keeps_update id f : deactivates f → respects keepsSchedules (updateScheduleRow id f).
Proof using Type.
  intros Hf. apply (respects_modify keepsSchedules). intros db [Hids Hact].
  assert (∀ r, sr_id (if bool_decide (sr_id r = id) then f r else r) = sr_id r) as Hid.
  { intros r. case_bool_decide; [apply Hf|done]. }
  split; rewrite schedules_setSchedules.
  - rewrite map_map. by rewrite (map_ext _ _ Hid).
  - intros x x' (r & -> & Hr)%list_elem_of_fmap (r' & -> & Hr')%list_elem_of_fmap.
    case_bool_decide; [by rewrite (proj2 (Hf r))|]. case_bool_decide; [by rewrite (proj2 (Hf r'))|]. auto.
Qed.

Lemma keeps_insert row : respects keepsSchedules (insertSchedule row).
Proof.
  unfold insertSchedule. respects_step; [respects_step|]. apply (respects_guarded keepsSchedules).
  intros db Hc [Hids Hact]. unfold checkInsertSchedule in Hc. apply refuse_None in Hc.
  rewrite !Forall_cons in Hc. destruct Hc as (Hpk & Hconf & _). simpl in Hpk, Hconf.
  set (new := Build_ScheduleRow _ _ _ _ _ _ _).
  assert (∀ r, r ∈ schedules db → isActiveSchedule r = true → isActiveSchedule new = true →
    sr_draft r ≠ sr_draft new) as Hother.
  { intros r Hr Ha Hn E. unfold activeScheduleConflict in Hconf. unfold isActiveSchedule at 1 in Hn.
    change (sr_status new) with (sc_status row) in Hn. rewrite Hn in Hconf. simpl in Hconf.
    assert (existsb (λ s, isActiveSchedule s && bool_decide (sc_gmailDraftId (sr_record s) = sc_gmailDraftId row))
      (schedules db) = true); [|congruence].
    apply elem_of_existsb. exists r. split; [done|]. rewrite Ha. by apply bool_decide_eq_true. }
  split; rewrite schedules_setSchedules.
  - rewrite map_app. apply NoDup_app. split; [done|]. split; [|apply NoDup_singleton].
    intros x (r & -> & Hr)%list_elem_of_fmap E%list_elem_of_singleton.
    assert (existsb (λ s, bool_decide (sr_id s = sc_id row)) (schedules db) = true); [|congruence].
    apply elem_of_existsb. exists r. split; [done|]. by apply bool_decide_eq_true.
  - intros r r' [Hr| ->%list_elem_of_singleton]%elem_of_app [Hr'| ->%list_elem_of_singleton]%elem_of_app Ha Ha' E;
      auto.
    + by destruct (Hother r).
    + by destruct (Hother r').
Qed.

Lemma keeps_updateLead id st at_ : respects keepsSchedules (updateLeadStatus id st at_).
Proof using Type. apply (respects_modify keepsSchedules). intros db. apply keeps_frame. by destruct db. Qed.
Lemma keeps_recordEvent e : respects keepsSchedules (recordEvent e).
Proof.
  unfold recordEvent. respects_step; [respects_step|]. apply (respects_guarded keepsSchedules).
  intros db _. apply keeps_frame. by destruct db.
Qed.
Lemma keeps_getLead id : respects keepsSchedules (getLead id).
Proof using Type. apply (respects_query keepsSchedules). Qed.
#[local] Hint Resolve keeps_update keeps_insert keeps_updateLead keeps_recordEvent keeps_getLead
  supersede_deactivates cancel_deactivates : outreach.
Lemma keeps_leadTransition id to : respects keepsSchedules (leadTransition id to).
Proof. unfold leadTransition. cbv zeta. respects_tac. Qed.
#[local] Hint Resolve keeps_leadTransition : outreach.
Lemma keeps_transitionFrom id from to : respects keepsSchedules (transitionFrom id from to).
Proof. unfold transitionFrom. respects_tac. Qed.
End keeps.
#[export] Hint Resolve keeps_update keeps_insert keeps_updateLead keeps_recordEvent keeps_getLead
  supersede_deactivates cancel_deactivates keeps_leadTransition keeps_transitionFrom : outreach.

Section operations.
Context `{Runtime, TzDatabase}.

Lemma keeps_out leadId o atMs tz reason : always keepsSchedules (out leadId o atMs tz reason).
Proof. unfold out. always_tac. Qed.
#[local] Hint Resolve keeps_out : outreach.
Lemma keeps_route input runId reason : always keepsSchedules (route input runId reason).
Proof. unfold route. always_tac. Qed.
Lemma keeps_nextSlot c tz nowMs existing nb : always keepsSchedules (nextSlot c tz nowMs existing nb).
Proof. unfold nextSlot. always_tac. Qed.
Lemma keeps_buildRecord c input d p tz t o n : always keepsSchedules (buildRecord c input d p tz t o n).
Proof. unfold buildRecord. cbv zeta. always_tac. Qed.
Lemma keeps_recordSchedule input runId record : always keepsSchedules (recordSchedule input runId record).
Proof. unfold recordSchedule. always_tac. Qed.
Lemma keeps_replaceSchedule leadId runId active newRow :
  always keepsSchedules (replaceSchedule leadId runId active newRow).
Proof. unfold replaceSchedule, supersedeSchedule. always_tac. Qed.
#[local] Hint Resolve keeps_route keeps_nextSlot keeps_buildRecord keeps_recordSchedule
  keeps_replaceSchedule : outreach.

(** The processes that schedule, in between the steps of each other, with crashes and
    with whatever else keeps the invariant *)
Inductive ScheduleProcess : PM () → Prop :=
  | process_schedule c interfere input runId nb dry : ScheduleProcess interfere →
      ScheduleProcess (_ ← schedule c interfere input runId nb dry; mret tt)
  | process_cancel interfere leadId reason runId : ScheduleProcess interfere →
      ScheduleProcess (_ ← cancel interfere leadId reason runId; mret tt)
  | process_reschedule c interfere input atMs runId : ScheduleProcess interfere →
      ScheduleProcess (_ ← reschedule c interfere input atMs runId; mret tt)
  | process_then p q : ScheduleProcess p → ScheduleProcess q → ScheduleProcess (p ;; q)
  | process_crash e : ScheduleProcess (throw e)
  | process_other m : always keepsSchedules m → ScheduleProcess m.

Lemma scheduleProcess_keeps p : ScheduleProcess p → always keepsSchedules p.
Proof.
  induction 1; try done; always_step; try always_step; auto.
  - unfold schedule, activeForDraft, activeScheduledUtc. cbv zeta. always_tac.
  - unfold cancel, activeForLead, cancelSchedule. always_tac.
  - unfold reschedule, activeForLead, activeScheduledUtc. cbv zeta. always_tac.
Qed.

(** C25: At most one plan per draft: from an empty table, whatever schedules,
    cancellations and reschedules run, in whatever interleaving and wherever they
    crash, no Gmail draft ever has two active schedules, and schedule ids stay
    unique. *)
Theorem one_active_schedule p w :
  ScheduleProcess p → schedules (w_db w) = [] → scheduleInvariant (w_db (p w).2).
Proof.
  intros Hp Hnil. apply (scheduleProcess_keeps p Hp). split; rewrite Hnil; [constructor|].
  intros r r' []%not_elem_of_nil.
Qed.
End operations.

(** ** What the operations write *)

Section writes.
Context `{Runtime, TzDatabase}.

Definition unchanged (db db' : PipelineDb) : Prop := db' = db.
#[local] Instance unchanged_preorder : PreOrder unchanged.
Proof using Type.
  unfold unchanged. split; [intros db; reflexivity|]. intros a b d H1 H2. congruence.
Qed.
Lemma unchanged_out leadId o atMs tz reason : always unchanged (out leadId o atMs tz reason).
Proof.
  unfold out. always_tac.
Qed.
Lemma unchanged_nextSlot c tz nowMs existing nb : always unchanged (nextSlot c tz nowMs existing nb).
Proof.
  unfold nextSlot. always_tac.
Qed.
Lemma unchanged_build c input d p tz t o n : always unchanged (buildRecord c input d p tz t o n).
Proof. unfold buildRecord. cbv zeta. always_tac. Qed.

(** A step that changes nothing, on the way to a claim about the final database *)
Lemma unchanged_awp {A} (m : PM A) (Q : A → world PipelineDb → Prop) (E : world PipelineDb → Prop) w :
  always unchanged m → (∀ a w', w_db w' = w_db w → Q a w') → (∀ w', w_db w' = w_db w → E w') →
  awp m Q E w.
Proof using Type. intros Hm HQ HE. eapply awp_mono; [| |apply (awp_always unchanged _ _ Hm)]; auto. Qed.
Lemma awp_final {A} (m : PM A) (P : PipelineDb → Prop) w :
  awp m (λ _ w', P (w_db w')) (λ w', P (w_db w')) w → P (w_db (m w).2).
Proof using Type. unfold awp. by destruct (m w) as [[]]. Qed.

(** The recipient's time zone is on file and known to the platform. *)
Definition hasTimezone (input : ScheduleInput) : bool :=
  match si_timezone input with Some tz => isValidTimeZone tz | None => false end.
Lemma timezone_reasons c input dry active :
  scheduleTimezoneReasons (snapshotFor c input dry active) = [] ↔ hasTimezone input = true.
Proof using Type.
  unfold scheduleTimezoneReasons, hasTimezone. simpl. destruct (si_timezone input) as [tz|]; simpl; [|done].
  unfold isValidTimeZone. destruct (truthy tz); simpl; [|done]. rewrite when_nil. apply negb_false_iff.
Qed.

(** A dry run of scheduling writes nothing when the recipient's time zone is known:
    whatever else is wrong or right, the database is afterwards what it was. *)
Theorem schedule_dry_run c interfere input runId nb w :
  hasTimezone input = false ∨ w_db (schedule c interfere input runId nb true w).2 = w_db w.
Proof.
  destruct (hasTimezone input) eqn:Htz; [right|by left].
  apply (awp_final _ (λ db, db = w_db w)). unfold schedule, activeForDraft, activeScheduledUtc.
  assert (∀ (o : option ScheduleDraft), always unchanged (match o with
    | Some d => query (λ db, sr_record <$> List.find (λ r,
        bool_decide (sc_gmailDraftId (sr_record r) = sd_id d) && isActiveSchedule r) (schedules db))
    | None => mret None end)) as Hactive by (intros [d|]; always_tac).
  rewrite awp_bind. apply unchanged_awp; [apply Hactive| |done]. intros [a|] w1 E1.
  { apply unchanged_awp; [apply unchanged_out|congruence..]. }
  destruct (negb (sl_eligible _)).
  { apply (timezone_reasons c input true None) in Htz.
    unfold checkScheduleEligibility. cbn [se_hasActiveSchedule snapshotFor].
    rewrite bool_decide_eq_false_2 by (by intros []). rewrite Htz. simpl.
    apply unchanged_awp; [apply unchanged_out|congruence..]. }
  awp_run. apply unchanged_awp; [apply unchanged_nextSlot| |simpl; congruence].
  intros slot w2 E2. simpl in E2. repeat case_match; try (apply unchanged_awp; [apply unchanged_out|congruence..]).
  rewrite awp_bind. apply unchanged_awp; [apply (always_lift_res unchanged)| |congruence].
  intros local w3 E3. rewrite awp_ret. congruence.
Qed.

(** The row of a schedule that has just been inserted *)
Definition freshRow (row : ScheduleRecord) (dbNow : Z) : ScheduleRow :=
  {| sr_record := row; sr_createdAt := dbNow; sr_updatedAt := dbNow; sr_cancelledAt := None;
     sr_fulfilledAt := None; sr_invalidatedAt := None; sr_invalidationReason := None |}.
(** What a move of [active] to the instant [t] makes of the schedules: the old row stays,
    superseded by the new one, which is active, bound to the same draft and counted
    as one more move; and the instant satisfies every rule. *)
Record moved (c : ScheduleConfig) (input : ScheduleInput) (active : ScheduleRecord) (t : Z)
    (db db' : PipelineDb) : Prop := {
  mv_rows : ∃ newRow nowD dbNow,
    schedules db' = updateIn (sc_id active) (supersedeRow (sc_id newRow) nowD) (schedules db) ++ [freshRow newRow dbNow] ∧
    sc_scheduledAtUtc newRow = t ∧ sc_status newRow = SCH_SCHEDULED ∧
    sc_gmailDraftId newRow = sc_gmailDraftId active ∧
    sc_rescheduleCount newRow = sc_rescheduleCount active + 1 ∧
    sc_id newRow ∉ map sr_id (schedules db);
  mv_lead : leads db' = leads db;
  mv_allowed : ∃ off nowMs, zone (sc_timezone active) = Some off ∧
    ok (isSlotAllowed off (sg_rules c) t nowMs
      (List.filter (λ e, negb (e =? sc_scheduledAtUtc active))
        (map (λ r, sc_scheduledAtUtc (sr_record r)) (List.filter isActiveSchedule (schedules db))))) = true;
}.

Lemma replaceSchedule_spec leadId runId active newRow w :
  wp (nowD ← now;
      supersedeSchedule (sc_id active) (sc_id newRow) nowD ;;
      insertSchedule newRow ;;
      recordEvent (noteEvent leadId (Some runId) "schedule: RESCHEDULED"
        (JObj [("from", JStr (toISOString (sc_scheduledAtUtc active)));
               ("to", JStr (toISOString (sc_scheduledAtUtc newRow)))])))
    (λ _ w', leads (w_db w') = leads (w_db w) ∧ sc_id newRow ∉ map sr_id (schedules (w_db w)) ∧
      ∃ nowD dbNow, schedules (w_db w') =
        updateIn (sc_id active) (supersedeRow (sc_id newRow) nowD) (schedules (w_db w)) ++ [freshRow newRow dbNow]) w.
Proof.
  unfold supersedeSchedule, updateScheduleRow, insertSchedule, recordEvent. wp_run.
  intros Hc _.
  unfold checkInsertSchedule in Hc. apply refuse_None, Forall_cons in Hc as [Hpk _].
  rewrite schedules_setSchedules in Hpk. cbn [fst] in Hpk.
  destruct (w_db w) as [? ? ? ? rows ? ? ? ?]. cbn in *. split; [done|]. split; [|by do 2 eexists].
  intros (r & E & Hr)%list_elem_of_fmap.
  assert (existsb (λ s, bool_decide (sr_id s = sc_id newRow))
    (map (λ r, if bool_decide (sr_id r = sc_id active) then
       supersedeRow (sc_id newRow) (clock (w_ticks w)) r else r) rows) = true); [|congruence].
  apply elem_of_existsb. eexists. split; [by apply list_elem_of_fmap_2|]. apply bool_decide_eq_true.
  case_bool_decide; [|done]. by rewrite (proj1 (supersede_deactivates _ _ _)).
Qed.

(** Moving a schedule is all or nothing: whatever happens, also when the call
    throws, either the database is what it was, or the move was made in full: the
    old row is kept and superseded by a new active one for the same draft, at the
    requested instant, which satisfies every scheduling rule; the lead is not touched. *)
Theorem reschedule_all_or_nothing c input atMs runId w :
  let db := w_db w in let db' := w_db (reschedule c (mret tt) input atMs runId w).2 in
  db' = db ∨
  ∃ active t, sr_record <$> latestBy sr_createdAt (List.filter (λ r,
      bool_decide (sc_leadId (sr_record r) = si_leadId input) && isActiveSchedule r) (schedules db)) =
      Some active ∧ atMs = Some t ∧ moved c input active t db db'.
Proof.
  intros db db'. subst db'. pattern (w_db (reschedule c (mret tt) input atMs runId w).2). apply awp_final.
  unfold reschedule, activeForLead, activeScheduledUtc.
  rewrite awp_bind, awp_query. fold db.
  destruct (sr_record <$> latestBy _ _) as [active|]; [|apply unchanged_awp; [apply unchanged_out|auto..]].
  destruct atMs as [t|]; [|apply unchanged_awp; [apply unchanged_out|auto..]].
  awp_run. fold db. unfold withZone. destruct (zone (sc_timezone active)) as [off|] eqn:Ezone; [|by left].
  simpl lift_res. rewrite awp_ret. cbv zeta.
  destruct (ok (isSlotAllowed _ _ _ _ _)) eqn:Eok; simpl negb; cycle 1.
  { apply unchanged_awp; [apply unchanged_out|simpl; auto..]. }
  rewrite awp_bind. unfold buildRecord. cbv zeta. rewrite awp_bind, awp_randomUUID, awp_ret, awp_bind, awp_ret, awp_bind.
  set (newRow := Build_ScheduleRecord _ _ _ _ _ _ _ _ _ _ _ _ _ _ _ _).
  apply awp_transaction; [|cbn; auto]. eapply wp_mono; [|apply replaceSchedule_spec].
  cbn [w_db]. intros _ w1 (Hl & Hnew & nowD & dbNow & Hrows).
  assert (moved c input active t db (w_db w1)) as Hm.
  { split; [|done|by eauto]. exists newRow, nowD, dbNow. by split_and!. }
  apply unchanged_awp; [apply unchanged_out|intros ? ? E|intros ? E]; cbv beta; rewrite E; right;
    by exists active, t.
Qed.
End writes.

(** ** Witness and concrete runs *)

#[local] Existing Instance demo_runtime.
#[local] Existing Instance demo_tz.
#[local] Existing Instance demo_orm.
#[local] Existing Instance demo_provider.

Definition demoScheduleConfig : ScheduleConfig :=
  {| sg_featureEnabled := true; sg_rules := defaultRules; sg_rulesVersion := "v1" |}.
Definition demoScheduleInput (tz : option string) : ScheduleInput :=
  {| si_leadId := "l1"; si_leadStatus := "DRAFT_CREATED";
     si_gmailDraft := Some {| sd_id := "d1"; sd_outcome := "DRAFT_CREATED"; sd_providerDraftId := Some "p1" |};
     si_finalizedContentHash := Some "h1"; si_recipientEmail := Some "info@praxis.de"; si_timezone := tz |}.
(** The lead of the demo world with its draft, before it is scheduled *)
Definition demoDraftWorld : world PipelineDb :=
  World (setSchedules (λ _, []) (setLeads (alter (setLeadStatus DRAFT_CREATED 0) "l1") demoPipelineDb)) 0 0.
Definition demoScheduleOnce : PM () :=
  _ ← schedule demoScheduleConfig (mret tt) (demoScheduleInput (Some "Europe/Berlin")) "run" None false; mret tt.

Example demo_schedule :
  match schedule demoScheduleConfig (mret tt) (demoScheduleInput (Some "Europe/Berlin")) "run" None false
          demoDraftWorld with
  | (Ok r, w') => so_outcome r = SO_SCHEDULED ∧ so_scheduledAtLocal r = Some "2026-05-29 09:00 (Europe/Berlin)" ∧
      ld_status <$> leads (w_db w') !! "l1" = Some SCHEDULED ∧ length (schedules (w_db w')) = 1%nat
  | _ => False
  end.
Proof. vm_compute. auto. Qed.

(** Two processes schedule the same draft; the second one commits in between the check
    and the transaction of the first. *)
Lemma one_active_schedule_witness :
  let p := (_ ← schedule demoScheduleConfig demoScheduleOnce (demoScheduleInput (Some "Europe/Berlin")) "run"
              None false; mret tt) in
  length (schedules (w_db (p demoDraftWorld).2)) = 1%nat ∧ scheduleInvariant (w_db (p demoDraftWorld).2).
Proof.
  intros p. split; [vm_compute; reflexivity|]. apply (one_active_schedule p demoDraftWorld).
  - apply process_schedule, process_schedule, process_other. intros w. apply (reflexivity (w_db w)).
  - reflexivity.
Defined.

(** A dry run may write: for a draft whose recipient has no time zone on file, a
    dry run moves the lead to manual review and records an event, although the
    documentation promises a run without writes; and with the empty run id that the
    command line passes for dry runs the event has no run to refer to, so that the
    call throws instead of answering. *)
Theorem schedule_dry_run_writes :
  let dryRun runId := schedule demoScheduleConfig (mret tt) (demoScheduleInput None) runId None true demoDraftWorld in
  (∃ r w', dryRun "run" = (Ok r, w') ∧ so_outcome r = SO_TIMEZONE_INVALID ∧
     ld_status <$> leads (w_db demoDraftWorld) !! "l1" = Some DRAFT_CREATED ∧
     ld_status <$> leads (w_db w') !! "l1" = Some NEEDS_MANUAL_REVIEW) ∧
  (dryRun "").1 = Throw (foreignKeyViolation "pipeline_events_run_id_fkey").
Proof.
  intros dryRun. split.
  - destruct (dryRun "run") as [[r|e] w'] eqn:E; vm_compute in E; [|discriminate].
    injection E as <- <-. do 2 eexists. repeat split; vm_compute; reflexivity.
  - vm_compute. reflexivity.
Qed.

(** A cancellation that races with a send reports success for an email that has
    gone out: the update of the row does not look at its status, so a schedule that
    the send fulfilled in between is overwritten as cancelled. *)
Theorem cancel_overwrites_fulfilled :
  ∃ r w', cancel oneSend "l1" (Some "changed my mind") "run" demoSendWorld = (Ok r, w') ∧
    so_outcome r = SO_CANCELLED ∧ map sr_status (schedules (w_db w')) = [SCH_CANCELLED] ∧
    length (dispatched (w_db w')) = 1%nat ∧ map at_status (attempts (w_db w')) = [AT_SENT_CONFIRMED] ∧
    ld_status <$> leads (w_db w') !! "l1" = Some SENT.
Proof.
  destruct (cancel oneSend "l1" (Some "changed my mind") "run" demoSendWorld) as [[r|e] w'] eqn:E;
    vm_compute in E; [|discriminate].
  injection E as <- <-. do 2 eexists. repeat split; vm_compute; reflexivity.
Qed.
